(* ===== verification/_CoqProject ===== *)
-Q . S2P
Prelude.v
Endian.v
Intset.v
Util.v
Glob.v
Sds.v
SdsText.v
ListpackEnc.v
ListpackNav.v
Listpack.v
Dict.v
DictScan.v
Bitops.v
Object.v
BitCommands.v
BitRange.v
BitField.v
StringCommands.v
StringRanges.v
StringSafety.v
Lcs.v
Lzf.v
Crc.v
Rio.v
Rdb.v
RdbObject.v
Db.v
RdbSave.v
RdbLoad.v
RdbPrefix.v
KeyCommands.v
Dump.v
Redis.v
