(* ===== verification/Prelude.v ===== *)
(** * Data structures, string commands and serialization of Redis 7.0.5

    A verification of the core of [src/redis-7.0.5/src]: the byte-level data
    structures (dynamic strings, intset, listpack), the hash table, the key space
    with its expire times that is built from two of them, the conversions and
    matchers of [util.c], the commands of [t_string.c], [bitops.c], [expire.c]
    and [db.c] on strings, bitmaps and keys, run on a server state, and the
    serialization of strings with its compression and checksum, up to DUMP and
    RESTORE and to snapshots of all databases.

    ** Parts and files

    - [Prelude] (this file): outcomes of C code, machine integers, byte buffers,
      and the lemmas, tactics and hints the components share.
    - [Endian] ([endianconv.c], [endianconv.h]): byte-order conversion.  The class
      [Host] has the byte order and the contents of fresh memory; a C integer in
      memory is its bytes, for either byte order.
    - [Intset] ([intset.c]): the header fields and the byte payload of a sorted
      integer array; [intsetAdd], [intsetRemove] and the other operations work on
      the payload, with the binary search, the widening and [memmove] of the code.
    - [Util] ([util.c]): [ll2string], [string2ll], [string2l], [digits10].
    - [Glob] ([util.c]): [stringmatchlen].
    - [Sds] ([sds.c], [sds.h], allocation wrappers of [zmalloc.c]): dynamic strings
      as a memory block and the offset of the text in it, with the five header
      layouts; the class [Allocator] has the sizes the allocator serves.
    - [SdsText] ([sds.c]): formatting, splitting, joining, quoting and parsing,
      templates.
    - [ListpackEnc], [ListpackNav], [Listpack] ([listpack.c]): the encoding of one
      element; traversal, seek and validation of arbitrary bytes; and insertion,
      deletion, merging, search and reading on well-formed ones.
    - [Dict], [DictScan] ([dict.c], [dict.h]): the two tables with their chains,
      resizing and incremental rehashing; the stateless scan with its reversed
      cursor, iterators with fingerprints, and random sampling.  The hash function
      is a parameter.
    - [Bitops] ([bitops.c]): population count, bit search, bit fields and their
      overflow policies, with the word-at-a-time paths.
    - [Object] ([object.c], helpers of [db.c] and [networking.c]): string objects
      with their encodings and reference counts, the monad the command handlers are
      written in, and the class [Keyspace] through which they use the database,
      with its laws [KeyspaceLaws].
    - [BitCommands], [BitRange], [BitField] ([bitops.c]): the command handlers, on
      [Object] and [Bitops]: SETBIT, GETBIT, BITOP; BITCOUNT, BITPOS; BITFIELD.
    - [StringCommands], [StringRanges], [StringSafety] ([t_string.c]): the string
      commands, on [Object]: SET with its options, its propagation; counters,
      ranges and several keys; the variants of GET, the dispatch with the arity
      check, and the invariant of the key space.
    - [Lcs] ([t_string.c]): LCS, with the table of the lengths for all prefixes and
      the walk back through it.
    - [Lzf] ([lzf_c.c], [lzf_d.c]): the compressor, with its hash table of addresses
      that is never initialised, and the decompressor.
    - [Crc] ([crc64.c], [crcspeed.c], [crc16.c], [keyHashSlot] of [cluster.c]): the
      CRC-64 bit by bit and with the tables for eight bytes at a time, for both byte
      orders; the CRC-16 and the hash slots made from it.
    - [Rio] ([rio.h], [rio.c]): streams over a device, with chunks, sticky errors and
      a running checksum.  The class [Stream] is a device, [StreamLaws] what it
      promises; the in-memory buffer is one.
    - [Rdb] ([rdb.c], [rdb.h]): types, times, lengths, integers and strings on a
      stream, the strings as integers, compressed by [Lzf] or verbatim.
    - [Db] ([db.c], key types of [server.c]): one database as two dictionaries of
      [Dict], with the lookups that expire keys, on a primary or a replica; it
      satisfies [KeyspaceLaws].
    - [RdbObject], [RdbSave], [RdbLoad], [RdbPrefix] ([rdb.c], [rdb.h]): objects of [Rdb] values;
      a snapshot of all databases of [Db] with its auxiliary fields, libraries,
      module data and checksum, written with the iterators of [DictScan]; and the
      loop that loads one.  The state of the loop is [load_state], the attributes of
      the next key are [attrs], a [goto eoferr] is a value of [turn].  [RdbPrefix] has
      files that end early.
    - [KeyCommands] ([db.c], [expire.c]): DEL, UNLINK, EXISTS, TOUCH, TYPE, RENAME,
      the EXPIRE and TTL families, PERSIST, on [Object].
    - [Dump] ([cluster.c]): the payload of [RdbObject] values with a version and the
      checksum of [Crc]; DUMP and RESTORE, on [Object].
    - [Redis] ([commands.c]): the string commands and the commands on keys run on
      the database of [Db], from handler to hash table.

    ** How code becomes definitions

    A C function becomes a function into [res]: [Ok v] is a normal return,
    [Panic] a failed [assert]/[serverPanic], [Fault] an access outside the
    object it is made through (or other undefined behaviour), and [OutOfFuel] a
    loop whose fuel ran out.  A theorem that concludes [f x = Ok v] therefore says
    at once that the code terminates, stays inside its buffers, trips no assertion
    and returns [v].  Integers are [Z] with their wrap-around written out
    ([wrapU], [wrapS]) wherever the C expression can leave its type; buffers are
    lists of bytes read and written through [rd] and [wr], which fault out of
    bounds.  A command handler has type [cmd DB A]: it threads the database, the
    replies, the dirty counter and the events raised, and [None] is an early
    return after a reply.

    The project is not compiled with [-fwrapv].  Where the code adds or subtracts
    signed 64-bit integers that can overflow, the field [fwrapv] of [config] says
    whether the program wraps ([arith64]): without it the overflow is a [Fault].  The
    theorems hold for both and say when the fault happens ([undefined_sum],
    [ops_undefined], [out_of_reach], [sum_undefined]), except for those on the
    overflows themselves, which are about the wrapping program.

    ** What the theorems show

    - Refinement: any sequence of operations on a dynamic string, an intset, a
      listpack or a dictionary behaves as on a byte string, a finite set, a list or
      a finite map ([sds_refines_bytes], [intset_refines_set],
      [listpack_refines_list], [dict_refines_map]), the last one in the middle of a
      rehash too; any list of BITFIELD subcommands behaves
      as its specification on an endless bitmap ([bitfieldGeneric_correct]); the
      two dictionaries of a database behave as a map of objects and a map of expire
      times ([redis_keyspace_correct]).
    - Safety on hostile input: [lpValidateIntegrity] and [intsetValidateIntegrity]
      stay inside arbitrary bytes and accept only what the other operations handle;
      [lzf_decompress] and the loading of strings stay inside their buffers on any
      bytes ([lzf_decompress_safe], [rdb_load_safe]); a payload damaged within eight
      consecutive bytes is refused by RESTORE ([payload_damage_detected]), which
      handles any payload ([restore_correct]), and so is every proper
      prefix of a snapshot ([truncated_refused]).
    - Invariants: whatever string commands and commands on keys clients send while
      time passes, the database stays well-formed and every command returns, but for
      a SETRANGE whose sum wraps and for undefined sums of times, as [call_ending]
      says ([redis_commands_invariant]; [string_commands_invariant] for any key space
      with the laws).
    - Composition: the theorems on handlers are proved against [KeyspaceLaws] and
      hold on the database of [Db]; so a key that SET gave a time to live is served
      by GET until its time and never after ([set_served_until_expiry]).
    - Propagation: a SET that was rewritten for the replicas sets the same key to the
      same string and absolute time there, whatever their database, clock, byte order
      and compiler ([set_propagation]).
    - The scan guarantee of [dictScan] under arbitrary resizing between the calls,
      and its termination; termination of rehashing.
    - Functional behaviour, branch by branch, of the single operations and of the
      command handlers, replies, dirty counter and events included.
    - Equivalence of optimised code with a plain definition: glob matching, the
      decimal parser, the fast paths of BITOP, BITCOUNT and BITPOS, the tables of
      the CRC-64 ([crc64_correct]); independence of the byte order.
    - Round trips: [ll2string] with [string2ll], [lpGet] with the insertion,
      [sdssplitargs] with [sdscatrepr], [sdssplitlen] with [sdsjoinsds],
      [lzf_decompress] with [lzf_compress] ([lzf_roundtrip]), loading with saving
      across hosts and devices ([rdb_string_roundtrip], [rdb_numbers_roundtrip]),
      RESTORE with DUMP ([dump_restore_roundtrip]), loading a snapshot with saving it,
      from one server to another ([rdb_save_load]).
    - Places where the code does not do what it means to: a 32-bit byte count in
      [intsetMoveTail], signed saturation far below the range and wrapping offsets
      in BITFIELD, a key created by a BITFIELD that writes nothing, the words
      [sdsneedsrepr] lets through unquoted, a SETRANGE whose offset wraps past the
      limit on strings, an EXPIRETIME whose rounding overflows, a RESTORE whose time
      to live overflows, a length in a RESTORE payload that aborts the server, and a check of
      module data that does not end on a truncated file.

    ** Bounds and fuel

    Loops that are not structural carry fuel computed from the sizes they walk
    (the length of a buffer or a string, the number of buckets, the distance
    between two indexes), always one more than the iterations possible; the
    theorems show that [OutOfFuel] never happens.  Strings held by objects are
    shorter than [MAX_STRING] = 2^50 bytes, far above what the protocol can store
    and far below where 64-bit bit offsets overflow; intsets have fewer than 2^29
    members, since the byte counts of the code are 32 bits wide ([stays_small]); listpacks stay below the limit
    [lpSafeToAdd] enforces.  The keys of a database come from a finite set, small
    enough for the counters of the hash table, of keys shorter than 2^31 bytes,
    which is what the key comparison handles ([env_ok]).  The lengths [stringmatchlen]
    and [keyHashSlot] take as [int] are not bounded in the model.  Allocation succeeds,
    except for the strings SETRANGE and APPEND make, which are limited by
    [alloc_limit], and in [Sds], where a request above [max_request] aborts the process (or fails, for the
    try functions) and the theorems ask for [room].
    Strings to compress lie at addresses of at least [MAX_OFF], so that the distance
    to a stale address of the hash table cannot wrap around to a short one.
    Loading a snapshot takes as much fuel as it has bytes, since every turn of its loop
    reads one; saving takes one more step per database than it has keys.  The theorem
    on snapshots is for databases of strings with expire times from 0 on
    ([db_ok], [info_ok], [receiver_ok]) and servers without module data.

    ** Not modelled

    Floating point ([string2d], INCRBYFLOAT, scores); the event loop, networking,
    replication, cluster, scripting and modules, which are calls to the operating
    system and shared global state; files and sockets as devices of [Rio], of which
    the laws are assumed; opening, replacing and forking for an RDB file; the RDB
    encodings of other types than strings, the data of modules and the registry of
    libraries, which are parameters of [RdbObject], [RdbSave] and [RdbLoad]; the 16-bit tables of
    [crcspeed.c], which nothing calls; the command layers over lists,
    sets, hashes, sorted sets and streams; radix trees, quicklists and ziplists;
    printing and debugging functions ([lpRepr], [dictGetStats], the self tests);
    active expiry, eviction and the access times it uses, the per-slot links of
    cluster mode, background freeing, and the commands that walk or move between
    whole databases (KEYS, SCAN, RANDOMKEY, MOVE, COPY, FLUSHDB, SWAPDB).  The other
    projects of the repository (Redis 3.0, Lua, muduo, workflow, srpc, spdlog,
    snifferview, tinyhttpd) are not covered. *)
From Stdlib Require Import ZArith Lia.
From stdpp Require Export base numbers option list sorting sets gmap.

Open Scope Z_scope.

(** * Outcomes *)

Inductive res (A : Type) : Type :=
| Ok (a : A)
| Panic
| Fault
| OutOfFuel.
Arguments Ok {A} a.
Arguments Panic {A}.
Arguments Fault {A}.
Arguments OutOfFuel {A}.

#[export] Instance res_ret : MRet res := fun A a => Ok a.

#[export] Instance res_bind : MBind res := fun A B k m =>
  match m with
  | Ok a => k a
  | Panic => Panic
  | Fault => Fault
  | OutOfFuel => OutOfFuel
  end.

Declare Scope c_scope.
Delimit Scope c_scope with c.
(** [assert(b)]: the process aborts when [b] is false. *)
Notation "'assert!' b ; k" := (if b then k else Panic)
  (at level 100, b at level 99, k at level 200, right associativity) : c_scope.
(** A condition the C abstract machine needs for the access to be defined. *)
Notation "'inbounds!' b ; k" := (if b then k else Fault)
  (at level 100, b at level 99, k at level 200, right associativity) : c_scope.
Open Scope c_scope.

(** * Machine integers *)

Definition wrapU (w z : Z) : Z := z mod 2 ^ w.

Definition wrapS (w z : Z) : Z := (z + 2 ^ (w - 1)) mod 2 ^ w - 2 ^ (w - 1).

Definition INT16_MIN : Z := - 2 ^ 15.
Definition INT16_MAX : Z := 2 ^ 15 - 1.
Definition INT32_MIN : Z := - 2 ^ 31.
Definition INT32_MAX : Z := 2 ^ 31 - 1.
Definition UINT32_MAX : Z := 2 ^ 32 - 1.
Definition INT64_MIN : Z := - 2 ^ 63.
Definition INT64_MAX : Z := 2 ^ 63 - 1.
Definition UINT64_MAX : Z := 2 ^ 64 - 1.
(** [size_t] is 64 bits wide. *)
Definition SIZE_MAX : Z := UINT64_MAX.

(** The result of signed arithmetic at [w] bits: overflow is undefined. *)
Definition sint (w z : Z) : res Z :=
  if (- 2 ^ (w - 1) <=? z) && (z <? 2 ^ (w - 1)) then Ok z else Fault.

(** Arithmetic of [int64_t]: overflow is undefined, unless the compiler is told to
    wrap ([-fwrapv]). *)
Definition arith64 (wrapv : bool) (z : Z) : res Z := if wrapv then Ok (wrapS 64 z) else sint 64 z.

(** * Byte buffers *)

(** A byte is a [Z] between 0 and 255; a buffer is the list of its bytes. *)
Definition is_byte (b : Z) : Prop := 0 <= b < 256.

Definition zlen {A} (l : list A) : Z := Z.of_nat (length l).

(** [n] bytes read at offset [off]. *)
Definition rd (buf : list Z) (off n : Z) : res (list Z) :=
  if (0 <=? off) && (0 <=? n) && (off + n <=? zlen buf)
  then Ok (take (Z.to_nat n) (drop (Z.to_nat off) buf))
  else Fault.

(** The bytes [bs] written at offset [off]. *)
Definition wr (buf : list Z) (off : Z) (bs : list Z) : res (list Z) :=
  if (0 <=? off) && (off + zlen bs <=? zlen buf)
  then Ok (take (Z.to_nat off) buf ++ bs ++ drop (Z.to_nat (off + zlen bs)) buf)
  else Fault.

(** One byte: [p[off]]. *)
Definition rd1 (buf : list Z) (off : Z) : res Z :=
  if 0 <=? off
  then match buf !! Z.to_nat off with Some b => Ok b | None => Fault end
  else Fault.

(** [memmove(buf+dst, buf+src, n)] and [memcpy] within one buffer. *)
Definition memmove (buf : list Z) (dst src n : Z) : res (list Z) :=
  bs ← rd buf src n; wr buf dst bs.

(** Little-endian value of a list of bytes, and its inverse at [n] bytes. *)
Fixpoint le_val (bs : list Z) : Z :=
  match bs with
  | [] => 0
  | b :: bs => b + 256 * le_val bs
  end.

Fixpoint le_bytes (n : nat) (z : Z) : list Z :=
  match n with
  | O => []
  | S n => z mod 256 :: le_bytes n (z / 256)
  end.

(** The host: its byte order and the contents of fresh, uninitialised memory
    (indexed by offset), which no theorem constrains. *)
Class Host := {
  big_endian : bool;
  uninit : nat -> Z;
}.

(** [zrealloc(buf, n)]: the old bytes up to the smaller size, then fresh ones. *)
Definition zrealloc `{Host} (buf : list Z) (n : Z) : list Z :=
  take (Z.to_nat n) buf ++
  (uninit <$> seq (length buf) (Z.to_nat n - length buf)).

(** * Automation *)

Create HintDb redis.
Create Rewrite HintDb redis_len.

(** Case analysis on the innermost boolean test of the goal, with the test
    turned into a proposition. *)
Ltac ztest :=
  match goal with
  | |- context [if ?b then _ else _] =>
      lazymatch b with
      | context [if _ then _ else _] => fail
      | _ => let E := fresh "E" in destruct b eqn:E
      end
  end.

(** Boolean comparisons in the hypotheses as propositions. *)
Ltac zprop :=
  repeat match goal with
  | H : _ && _ = true |- _ => apply andb_true_iff in H as [? ?]
  | H : _ || _ = false |- _ => apply orb_false_iff in H as [? ?]
  | H : negb _ = true |- _ => apply negb_true_iff in H
  | H : negb _ = false |- _ => apply negb_false_iff in H
  | H : (_ <=? _) = true |- _ => apply Z.leb_le in H
  | H : (_ <=? _) = false |- _ => apply Z.leb_gt in H
  | H : (_ <? _) = true |- _ => apply Z.ltb_lt in H
  | H : (_ <? _) = false |- _ => apply Z.ltb_ge in H
  | H : (_ =? _) = true |- _ => apply Z.eqb_eq in H
  | H : (_ =? _) = false |- _ => apply Z.eqb_neq in H
  | H : (_ >? _) = _ |- _ => rewrite Z.gtb_ltb in H
  | H : (_ >=? _) = _ |- _ => rewrite Z.geb_leb in H
  end.

(** [lia] with division and remainder by constants. *)
Ltac zdiv := Z.to_euclidean_division_equations; lia.

(** [Forall] over a literal list. *)
Ltac forall_list := repeat first [apply Forall_nil_2 | apply Forall_cons_2].

(** Constants as numerals, so that [lia] sees them. *)
Ltac zconst :=
  unfold INT16_MIN, INT16_MAX, INT32_MIN, INT32_MAX, UINT32_MAX, INT64_MIN,
    INT64_MAX, SIZE_MAX, UINT64_MAX in *.

(** * Lemmas on outcomes *)

Lemma bind_Ok {A B} (a : A) (k : A -> res B) : (x ← Ok a; k x) = k a.
Proof. reflexivity. Qed.

#[export] Instance Ok_inj {A} : Inj (=) (=) (@Ok A).
Proof. intros x y E. by injection E. Qed.

Lemma bind_Ok_inv {A B} (m : res A) (k : A -> res B) b :
  (x ← m; k x) = Ok b -> exists a, m = Ok a /\ k a = Ok b.
Proof. destruct m; cbn; naive_solver. Qed.

Lemma bind_assoc {A B C} (m : res A) (k : A -> res B) (h : B -> res C) :
  (y ← (x ← m; k x); h y) = (x ← m; y ← k x; h y).
Proof. by destruct m. Qed.

(** * Lemmas on machine integers *)

Lemma wrapU_small w z : 0 <= z < 2 ^ w -> wrapU w z = z.
Proof. intros. by apply Z.mod_small. Qed.

Lemma wrapU_range w z : 0 <= w -> 0 <= wrapU w z < 2 ^ w.
Proof. intros. apply Z.mod_pos_bound. apply Z.pow_pos_nonneg; lia. Qed.

Lemma wrapS_small w z : - 2 ^ (w - 1) <= z < 2 ^ (w - 1) -> 0 < w -> wrapS w z = z.
Proof.
  intros Hz Hw. unfold wrapS.
  assert (2 ^ w = 2 * 2 ^ (w - 1)) as E.
  { rewrite <- Z.pow_succ_r by lia. f_equal. lia. }
  rewrite Z.mod_small; lia.
Qed.

Lemma wrapS_range w z : 0 < w -> - 2 ^ (w - 1) <= wrapS w z < 2 ^ (w - 1).
Proof.
  intros Hw. unfold wrapS.
  assert (2 ^ w = 2 * 2 ^ (w - 1)) as E.
  { rewrite <- Z.pow_succ_r by lia. f_equal. lia. }
  pose proof (Z.mod_pos_bound (z + 2 ^ (w - 1)) (2 ^ w)).
  assert (0 < 2 ^ (w - 1)) by (apply Z.pow_pos_nonneg; lia). lia.
Qed.

Lemma wrapS_wrapU w z : 0 < w -> wrapS w (wrapU w z) = wrapS w z.
Proof. intros. unfold wrapS, wrapU. by rewrite Zplus_mod_idemp_l. Qed.

Lemma wrapU_wrapS w z : 0 < w -> wrapU w (wrapS w z) = wrapU w z.
Proof.
  intros. unfold wrapS, wrapU.
  rewrite Zminus_mod_idemp_l. f_equal. lia.
Qed.

Lemma sint_ok w z : - 2 ^ (w - 1) <= z < 2 ^ (w - 1) -> sint w z = Ok z.
Proof. intros. unfold sint. case_match; [done|]. lia. Qed.

(** Bounds of a literal width as numerals. *)
Ltac zwidth :=
  repeat match goal with
  | |- context [2 ^ (?w - 1)] =>
      let x := eval vm_compute in (2 ^ (w - 1)) in change (2 ^ (w - 1)) with x
  end.

(** Drop every wrap whose argument is in range. *)
Ltac zwrap :=
  cbv zeta;
  repeat match goal with
  | |- context [wrapU ?w ?z] => rewrite (wrapU_small w z) by (zwidth; zconst; lia)
  | |- context [wrapS ?w ?z] => rewrite (wrapS_small w z) by (zwidth; zconst; lia)
  | |- context [sint ?w ?z] => rewrite (sint_ok w z) by (zwidth; zconst; lia); rewrite bind_Ok
  end.

(** * Lemmas on lengths and lists *)

Lemma zlen_nonneg {A} (l : list A) : 0 <= zlen l.
Proof. unfold zlen. lia. Qed.

Lemma zlen_nil {A} : zlen (@nil A) = 0.
Proof. reflexivity. Qed.

Lemma zlen_cons {A} (x : A) l : zlen (x :: l) = 1 + zlen l.
Proof. unfold zlen. cbn. lia. Qed.

Lemma zlen_app {A} (l k : list A) : zlen (l ++ k) = zlen l + zlen k.
Proof. unfold zlen. rewrite length_app. lia. Qed.

Lemma zlen_take {A} (l : list A) n : 0 <= n <= zlen l -> zlen (take (Z.to_nat n) l) = n.
Proof. unfold zlen. rewrite length_take. lia. Qed.

Lemma zlen_drop {A} (l : list A) n : 0 <= n <= zlen l -> zlen (drop (Z.to_nat n) l) = zlen l - n.
Proof. unfold zlen. rewrite length_drop. lia. Qed.

Lemma zlen_fmap {A B} (f : A -> B) l : zlen (f <$> l) = zlen l.
Proof. unfold zlen. by rewrite length_fmap. Qed.

Lemma zlen_rev {A} (l : list A) : zlen (rev l) = zlen l.
Proof. unfold zlen. by rewrite length_rev. Qed.

Lemma zlen_replicate {A} n (x : A) : zlen (replicate n x) = Z.of_nat n.
Proof. unfold zlen. by rewrite length_replicate. Qed.

Lemma zlen_to_nat {A} (l : list A) : Z.to_nat (zlen l) = length l.
Proof. unfold zlen. lia. Qed.

#[export] Hint Rewrite @zlen_nil @zlen_cons @zlen_app @zlen_fmap @zlen_rev
  @zlen_replicate : redis_len.

(** [zlens] computes lengths everywhere, [zlia] then decides. *)
Ltac zlens := try (autorewrite with redis_len in *).
Ltac zpos :=
  repeat match goal with
  | |- context [zlen ?l] =>
      lazymatch goal with
      | _ : 0 <= zlen l |- _ => fail
      | _ => pose proof (zlen_nonneg l)
      end
  | _ : context [zlen ?l] |- _ =>
      lazymatch goal with
      | _ : 0 <= zlen l |- _ => fail
      | _ => pose proof (zlen_nonneg l)
      end
  end.
Ltac zlia := zlens; zpos; lia.

(** Decide a test whose outcome follows by arithmetic: [ztrue b] replaces [b]
    by [true] in the goal, [zfalse b] by [false]. *)
Ltac ztrue b :=
  replace b with true
    by (symmetry; first [ zlia | apply Z.ltb_lt; zlia | apply Z.leb_le; zlia | apply Z.eqb_eq; zlia ]).
Ltac zfalse b :=
  replace b with false
    by (symmetry; first [ zlia | apply Z.ltb_ge; zlia | apply Z.leb_gt; zlia | apply Z.eqb_neq; zlia ]).

(** Results that agree component by component, by arithmetic. *)
Ltac ok_eq :=
  repeat match goal with
  | |- Ok _ = Ok _ => f_equal
  | |- (_, _) = (_, _) => f_equal
  end; try lia.

(** A buffer is cut at any offset inside it. *)
Lemma cut_at {A} (l : list A) n :
  0 <= n <= zlen l -> exists a b, l = a ++ b /\ zlen a = n /\ zlen b = zlen l - n.
Proof.
  intros. exists (take (Z.to_nat n) l), (drop (Z.to_nat n) l).
  by rewrite take_drop, zlen_take, zlen_drop.
Qed.

Lemma take_zlen_app {A} (a b : list A) : take (Z.to_nat (zlen a)) (a ++ b) = a.
Proof. rewrite zlen_to_nat. apply take_app_length. Qed.

Lemma drop_zlen_app {A} (a b : list A) : drop (Z.to_nat (zlen a)) (a ++ b) = b.
Proof. rewrite zlen_to_nat. apply drop_app_length. Qed.

(** Induction on the length of a list. *)
Lemma list_len_ind {A} (P : list A -> Prop) :
  (forall l, (forall k, (length k < length l)%nat -> P k) -> P l) -> forall l, P l.
Proof.
  intros Hstep l. assert (forall n (k : list A), (length k < n)%nat -> P k) as H.
  { induction n as [|n IH]; intros k Hk; [lia|]. apply Hstep. intros k' Hk'. apply IH. lia. }
  apply (H (S (length l))). lia.
Qed.

(** * Lemmas on buffers *)

Lemma rd_app a b c off n :
  zlen a = off -> zlen b = n -> rd (a ++ b ++ c) off n = Ok b.
Proof.
  intros <- <-. unfold rd. rewrite drop_zlen_app, take_zlen_app.
  case_match; [done|]. exfalso. zlia.
Qed.

Lemma rd_app_head b c n : zlen b = n -> rd (b ++ c) 0 n = Ok b.
Proof. apply (rd_app [] b c 0). done. Qed.

Lemma rd_app_tail a b off n : zlen a = off -> zlen b = n -> rd (a ++ b) off n = Ok b.
Proof. intros. rewrite <- (app_nil_r b) at 1. by apply rd_app. Qed.

Lemma rd_inv buf off n bs :
  rd buf off n = Ok bs ->
  exists a c, buf = a ++ bs ++ c /\ zlen a = off /\ zlen bs = n.
Proof.
  unfold rd. case_match eqn:E; [|done]. intros [= <-]. zprop.
  destruct (cut_at buf off) as (a & b & -> & Ha & Hb); [lia|].
  destruct (cut_at b n) as (x & y & -> & Hx & Hy); [zlia|].
  subst. rewrite drop_zlen_app, take_zlen_app. eauto.
Qed.

Lemma rd_ok buf off n :
  0 <= off -> 0 <= n -> off + n <= zlen buf -> exists bs, rd buf off n = Ok bs /\ zlen bs = n.
Proof.
  intros. unfold rd. case_match; [|lia]. eexists; split; [done|].
  rewrite zlen_take; [done|]. rewrite zlen_drop; lia.
Qed.

Lemma rd_oob buf off n : zlen buf < off + n -> rd buf off n = Fault.
Proof. intros. unfold rd. case_match; [|done]. lia. Qed.

Lemma wr_app a b b' c off :
  zlen a = off -> zlen b' = zlen b -> wr (a ++ b ++ c) off b' = Ok (a ++ b' ++ c).
Proof.
  intros <- Hb. unfold wr. case_match; [|exfalso; zlia].
  rewrite take_zlen_app. do 3 f_equal. rewrite Hb, <- zlen_app.
  by rewrite (app_assoc a b c), drop_zlen_app.
Qed.

Lemma wr_app_head b b' c : zlen b' = zlen b -> wr (b ++ c) 0 b' = Ok (b' ++ c).
Proof. apply (wr_app []). done. Qed.

Lemma wr_inv buf off bs buf' :
  wr buf off bs = Ok buf' ->
  exists a b c, buf = a ++ b ++ c /\ buf' = a ++ bs ++ c /\
                zlen a = off /\ zlen b = zlen bs.
Proof.
  intros Hw. pose proof Hw as Hw'. unfold wr in Hw'. case_match; [|done]. zprop.
  destruct (cut_at buf off) as (a & b & -> & Ha & Hb); [zlia|].
  destruct (cut_at b (zlen bs)) as (x & y & -> & Hx & Hy); [zlia|].
  rewrite wr_app in Hw by done. injection Hw as <-. eauto 8.
Qed.

Lemma wr_ok buf off bs :
  0 <= off -> off + zlen bs <= zlen buf -> exists buf', wr buf off bs = Ok buf'.
Proof. intros. unfold wr. case_match; [|lia]. eauto. Qed.

Lemma wr_zlen buf off bs buf' : wr buf off bs = Ok buf' -> zlen buf' = zlen buf.
Proof. intros (a & b & c & -> & -> & ? & ?)%wr_inv. zlia. Qed.

(** Reading back what was written. *)
Lemma rd_wr_eq buf off bs buf' :
  wr buf off bs = Ok buf' -> rd buf' off (zlen bs) = Ok bs.
Proof. intros (a & b & c & -> & -> & ? & ?)%wr_inv. by apply rd_app. Qed.

Lemma take_app_zle {A} (a b : list A) n : n <= zlen a -> take (Z.to_nat n) (a ++ b) = take (Z.to_nat n) a.
Proof. unfold zlen. intros. apply take_app_le. lia. Qed.

Lemma drop_app_zge {A} (a b : list A) n :
  zlen a <= n -> drop (Z.to_nat n) (a ++ b) = drop (Z.to_nat (n - zlen a)) b.
Proof.
  unfold zlen. intros. rewrite drop_app_ge by lia. f_equal. lia.
Qed.

(** A write leaves every disjoint range alone. *)
Lemma rd_wr_ne buf off bs buf' o n :
  wr buf off bs = Ok buf' -> o + n <= off \/ off + zlen bs <= o ->
  rd buf' o n = rd buf o n.
Proof.
  intros Hw Hd. pose proof (wr_zlen _ _ _ _ Hw) as Hl.
  apply wr_inv in Hw as (a & b & c & -> & -> & Ha & Hb).
  unfold rd. rewrite Hl. case_match eqn:E; [|done]. zprop. f_equal.
  destruct Hd as [Hd|Hd].
  - rewrite !take_drop_commute. f_equal.
    replace (Z.to_nat o + Z.to_nat n)%nat with (Z.to_nat (o + n)) by lia.
    rewrite !take_app_zle by lia. done.
  - f_equal. rewrite !app_assoc, !drop_app_zge by zlia. do 2 f_equal. zlia.
Qed.

Lemma rd1_lookup buf off b : rd1 buf off = Ok b <-> 0 <= off /\ buf !! Z.to_nat off = Some b.
Proof. unfold rd1. repeat case_match; zprop; naive_solver lia. Qed.

Lemma rd1_app a b c off : zlen a = off -> rd1 (a ++ b :: c) off = Ok b.
Proof.
  intros <-. apply rd1_lookup. split; [apply zlen_nonneg|].
  rewrite zlen_to_nat. by apply list_lookup_middle.
Qed.

Lemma zrealloc_grow `{Host} buf n :
  zlen buf <= n -> exists x, zrealloc buf n = buf ++ x /\ zlen x = n - zlen buf.
Proof.
  intros. unfold zrealloc. rewrite take_ge by (unfold zlen in *; lia).
  eexists; split; [done|]. rewrite zlen_fmap. unfold zlen in *.
  rewrite length_seq. lia.
Qed.

Lemma zrealloc_shrink `{Host} buf n :
  0 <= n <= zlen buf -> zrealloc buf n = take (Z.to_nat n) buf.
Proof.
  intros. unfold zrealloc. replace (Z.to_nat n - length buf)%nat with 0%nat.
  - cbn. by rewrite app_nil_r.
  - unfold zlen in *. lia.
Qed.

(** What lies below the new size is kept. *)
Lemma zrealloc_keep `{Host} a b n :
  zlen a <= n -> exists c, zrealloc (a ++ b) n = a ++ c /\ zlen c = n - zlen a.
Proof.
  intros Hn. pose proof (zlen_nonneg a). destruct (Z.leb_spec n (zlen (a ++ b))).
  - rewrite zrealloc_shrink by lia. rewrite zlen_app in *.
    exists (take (Z.to_nat (n - zlen a)) b). rewrite zlen_take by lia. split; [|done].
    rewrite take_app, take_ge by (unfold zlen in *; lia). do 2 f_equal. unfold zlen in *. lia.
  - destruct (zrealloc_grow (a ++ b) n) as (x & -> & Hx); [lia|]. rewrite zlen_app in *.
    exists (b ++ x). rewrite <- app_assoc, zlen_app. split; [done|lia].
Qed.

(** * Lemmas on little-endian integers *)

Lemma length_le_bytes n z : length (le_bytes n z) = n.
Proof. revert z. induction n; intros; cbn; auto. Qed.

Lemma zlen_le_bytes n z : zlen (le_bytes n z) = Z.of_nat n.
Proof. unfold zlen. by rewrite length_le_bytes. Qed.
#[export] Hint Rewrite zlen_le_bytes : redis_len.

Lemma le_bytes_byte n z : Forall is_byte (le_bytes n z).
Proof.
  revert z. induction n; intros; cbn; constructor; auto.
  unfold is_byte. apply Z.mod_pos_bound. lia.
Qed.

Lemma pow256 n : 2 ^ (8 * Z.of_nat (S n)) = 256 * 2 ^ (8 * Z.of_nat n).
Proof.
  replace (8 * Z.of_nat (S n)) with (8 + 8 * Z.of_nat n) by lia.
  by rewrite Z.pow_add_r by lia.
Qed.

Lemma le_val_bytes n z : le_val (le_bytes n z) = wrapU (8 * Z.of_nat n) z.
Proof.
  revert z. induction n as [|n IH]; intros z.
  - cbn. unfold wrapU. by rewrite Z.mod_1_r.
  - cbn [le_bytes le_val]. rewrite IH. unfold wrapU. rewrite pow256.
    rewrite Z.rem_mul_r; [lia|lia|].
    apply Z.pow_pos_nonneg; lia.
Qed.

Lemma le_val_range bs : Forall is_byte bs -> 0 <= le_val bs < 2 ^ (8 * zlen bs).
Proof.
  induction 1 as [|b bs Hb _ IH]; [done|].
  unfold zlen in *. cbn [length le_val]. rewrite pow256. unfold is_byte in Hb. lia.
Qed.

Lemma le_bytes_val bs : Forall is_byte bs -> le_bytes (length bs) (le_val bs) = bs.
Proof.
  induction 1 as [|b bs Hb _ IH]; [done|]. cbn. unfold is_byte in Hb. f_equal.
  - rewrite Z.mul_comm, Z.mod_add, Z.mod_small by lia. done.
  - rewrite Z.mul_comm, Z.div_add, Z.div_small by lia. done.
Qed.

Lemma le_bytes_wrapU n z : le_bytes n (wrapU (8 * Z.of_nat n) z) = le_bytes n z.
Proof.
  rewrite <- le_val_bytes. rewrite <- (length_le_bytes n z) at 1.
  apply le_bytes_val, le_bytes_byte.
Qed.

Lemma le_bytes_wrapS n z : (0 < n)%nat -> le_bytes n (wrapS (8 * Z.of_nat n) z) = le_bytes n z.
Proof.
  intros. by rewrite <- le_bytes_wrapU, wrapU_wrapS, le_bytes_wrapU by lia.
Qed.

Lemma le_val_inj bs cs :
  Forall is_byte bs -> Forall is_byte cs -> length bs = length cs ->
  le_val bs = le_val cs -> bs = cs.
Proof.
  intros Hb Hc Hl E. rewrite <- (le_bytes_val bs), <- (le_bytes_val cs) by done.
  by rewrite Hl, E.
Qed.

(** Writing twice at the same place keeps the second write. *)
Lemma wr_wr buf off a b buf' :
  wr buf off a = Ok buf' -> zlen a = zlen b -> wr buf' off b = wr buf off b.
Proof.
  intros (x & y & z & -> & -> & ? & ?)%wr_inv Hl.
  rewrite !wr_app; [done|..]; lia.
Qed.

Lemma wr_cases buf off a : (exists buf', wr buf off a = Ok buf') \/ wr buf off a = Fault.
Proof. unfold wr. case_match; eauto. Qed.

(** Adjacent writes are one write. *)
Lemma wr_seq {A} buf off off2 a b (k : list Z -> res A) :
  off2 = off + zlen a ->
  (x ← wr buf off a; y ← wr x off2 b; k y) = (y ← wr buf off (a ++ b); k y).
Proof.
  intros ->. destruct (decide (0 <= off /\ off + zlen (a ++ b) <= zlen buf)) as [Hi|Ho].
  - rewrite zlen_app in Hi. pose proof (zlen_nonneg a). pose proof (zlen_nonneg b).
    destruct (cut_at buf off) as (A0 & B0 & -> & HA); [lia|]. rewrite zlen_app in Hi.
    destruct (cut_at B0 (zlen a)) as (A1 & B1 & -> & HA1); [lia|]. rewrite zlen_app in Hi.
    destruct (cut_at B1 (zlen b)) as (A2 & B2 & -> & HA2); [lia|].
    rewrite (wr_app A0 A1), bind_Ok, app_assoc by lia.
    rewrite (wr_app (A0 ++ a) A2), bind_Ok by (rewrite ?zlen_app; lia).
    rewrite (app_assoc A1), (wr_app A0 (A1 ++ A2)), bind_Ok by (rewrite ?zlen_app; lia).
    by rewrite <- !app_assoc.
  - assert (wr buf off (a ++ b) = Fault) as ->.
    { destruct (wr_cases buf off (a ++ b)) as [[? (x & y & z & -> & -> & ? & ?)%wr_inv]|]; [|done].
      exfalso. apply Ho. rewrite !zlen_app in *. pose proof (zlen_nonneg x). pose proof (zlen_nonneg z). lia. }
    destruct (wr_cases buf off a) as [[buf' E]| ->]; [|done]. rewrite E, bind_Ok.
    pose proof (wr_zlen _ _ _ _ E). apply wr_inv in E as (x & y & z & -> & -> & ? & ?).
    destruct (wr_cases (x ++ a ++ z) (off + zlen a) b) as [[? (u & v & w & E & -> & ? & ?)%wr_inv]| ->];
      [|done].
    exfalso. apply Ho. apply (f_equal zlen) in E. rewrite !zlen_app in *.
    pose proof (zlen_nonneg x). pose proof (zlen_nonneg w). lia.
Qed.

Lemma wr_seq_last buf off off2 a b :
  off2 = off + zlen a -> (x ← wr buf off a; wr x off2 b) = wr buf off (a ++ b).
Proof.
  intros H. pose proof (wr_seq buf off off2 a b Ok H) as E.
  assert (forall m : res (list Z), (x ← m; Ok x) = m) as R by by intros [].
  rewrite R in E. rewrite <- E. destruct (wr buf off a); [|done..]. by rewrite !bind_Ok, R.
Qed.

Lemma wr_fault buf off a b :
  wr buf off a = Fault -> zlen a = zlen b -> wr buf off b = Fault.
Proof. unfold wr. intros E Hl. rewrite Hl in E. by repeat case_match. Qed.

(** * Lemmas on sorted lists of integers *)

Abbreviation sorted := (StronglySorted Z.lt).

Lemma sorted_lookup l i j x y :
  sorted l -> (i < j)%nat -> l !! i = Some x -> l !! j = Some y -> x < y.
Proof.
  intros Hs. revert i j. induction Hs as [|a l Hs IH Ha]; intros i j Hij Hi Hj; [done|].
  destruct j; [lia|]. destruct i; simplify_eq/=.
  - rewrite Forall_forall in Ha. apply Ha. eapply list_elem_of_lookup_2, Hj.
  - eapply IH; [|done..]. lia.
Qed.

Lemma sorted_app l k :
  sorted (l ++ k) <-> sorted l /\ sorted k /\ forall x y, x ∈ l -> y ∈ k -> x < y.
Proof.
  induction l as [|a l IH]; cbn.
  - split; [|naive_solver]. intros. split_and!; [constructor|done|set_solver].
  - split.
    + intros [(? & ? & Hlk)%IH Ha]%StronglySorted_inv. split_and!; [|done|].
      * constructor; [done|]. by apply Forall_app in Ha as [? ?].
      * intros x y [->|Hx]%elem_of_cons Hy; [|by apply Hlk].
        rewrite Forall_forall in Ha. apply Ha. set_solver.
    + intros ([? Ha]%StronglySorted_inv & Hk & Hlk). constructor.
      * apply IH. split_and!; [done..|]. intros. apply Hlk; set_solver.
      * apply Forall_app. split; [done|]. apply Forall_forall. intros. apply Hlk; set_solver.
Qed.

Lemma sorted_take_lt l (p : nat) v x :
  sorted l -> l !! p = Some v -> x ∈ take p l -> x < v.
Proof.
  intros Hs Hv (i & Hi)%list_elem_of_lookup.
  assert (i < p)%nat by (apply lookup_lt_Some in Hi; rewrite length_take in Hi; lia).
  rewrite lookup_take_lt in Hi by done. eapply sorted_lookup; eauto.
Qed.

Lemma sorted_drop_gt l (p : nat) v x :
  sorted l -> l !! p = Some v -> x ∈ drop (S p) l -> v < x.
Proof.
  intros Hs Hv (i & Hi)%list_elem_of_lookup. rewrite lookup_drop in Hi.
  eapply sorted_lookup; [done| |done..]. lia.
Qed.

(** * Lemmas on bit operations *)

Lemma land_shiftl_low a b n : 0 <= n -> 0 <= a < 2 ^ n -> Z.land a (Z.shiftl b n) = 0.
Proof.
  intros Hn Ha. apply Z.bits_inj_0. intros i. rewrite Z.land_spec.
  destruct (Z.ltb_spec i n).
  - rewrite Z.shiftl_spec_low by done. apply andb_false_r.
  - rewrite <- (Z.mod_small a (2 ^ n)) by done. by rewrite Z.mod_pow2_bits_high.
Qed.

Lemma lor_shiftl a b n : 0 <= n -> 0 <= a < 2 ^ n -> Z.lor a (Z.shiftl b n) = a + b * 2 ^ n.
Proof.
  intros Hn Ha. rewrite <- Z.shiftl_mul_pow2, <- Z.add_lor_land by done.
  rewrite land_shiftl_low by done. lia.
Qed.

Lemma land_mask n x : 0 <= n -> Z.land x (2 ^ n - 1) = x mod 2 ^ n.
Proof. intros. rewrite <- Z.land_ones by done. by rewrite Z.ones_equiv. Qed.

Lemma land_255 x : Z.land x 255 = x mod 256.
Proof. apply (land_mask 8). lia. Qed.

Lemma land_127 x : Z.land x 127 = x mod 128.
Proof. apply (land_mask 7). lia. Qed.

(** Bytes put together with shifts are the little-endian value. *)
Lemma le16_lor a b : is_byte a -> Z.lor (Z.shiftl a 0) (Z.shiftl b 8) = le_val [a; b].
Proof. unfold is_byte. intros. rewrite Z.shiftl_0_r, lor_shiftl by lia. cbn. lia. Qed.

Lemma le24_lor a b c :
  is_byte a -> is_byte b ->
  Z.lor (Z.lor (Z.shiftl a 0) (Z.shiftl b 8)) (Z.shiftl c 16) = le_val [a; b; c].
Proof.
  unfold is_byte. intros. rewrite le16_lor by done. rewrite lor_shiftl by (cbn; lia). cbn. lia.
Qed.

Lemma le32_lor a b c d :
  is_byte a -> is_byte b -> is_byte c ->
  Z.lor (Z.lor (Z.lor (Z.shiftl a 0) (Z.shiftl b 8)) (Z.shiftl c 16)) (Z.shiftl d 24) = le_val [a; b; c; d].
Proof.
  unfold is_byte. intros. rewrite le24_lor by done. rewrite lor_shiftl by (cbn; lia). cbn. lia.
Qed.

Lemma le64_lor a b c d e f g h :
  is_byte a -> is_byte b -> is_byte c -> is_byte d -> is_byte e -> is_byte f -> is_byte g ->
  Z.lor (Z.lor (Z.lor (Z.lor (Z.lor (Z.lor (Z.lor (Z.shiftl a 0) (Z.shiftl b 8)) (Z.shiftl c 16))
    (Z.shiftl d 24)) (Z.shiftl e 32)) (Z.shiftl f 40)) (Z.shiftl g 48)) (Z.shiftl h 56)
  = le_val [a; b; c; d; e; f; g; h].
Proof.
  unfold is_byte. intros. rewrite le32_lor by done.
  rewrite (lor_shiftl (le_val [a; b; c; d]) e 32) by (cbn; lia).
  rewrite (lor_shiftl (_ + _) f 40) by (cbn; lia).
  rewrite (lor_shiftl (_ + _) g 48) by (cbn; lia).
  rewrite (lor_shiftl (_ + _) h 56) by (cbn; lia). cbn. lia.
Qed.

Lemma wrapU8_land x : wrapU 8 x = Z.land x 255.
Proof. by rewrite land_255. Qed.

Lemma byte_land x k : 0 <= k -> Z.land (Z.shiftr x k) 255 = (x / 2 ^ k) mod 256.
Proof. intros. by rewrite land_255, Z.shiftr_div_pow2. Qed.

Lemma le_bytes2_land v : le_bytes 2 v = [Z.land v 255; Z.land (Z.shiftr v 8) 255].
Proof. rewrite byte_land, land_255 by lia. done. Qed.

Lemma le_bytes3_land v :
  le_bytes 3 v = [Z.land v 255; Z.land (Z.shiftr v 8) 255; Z.land (Z.shiftr v 16) 255].
Proof. rewrite !byte_land, land_255 by lia. cbn [le_bytes]. by rewrite !Z.div_div by lia. Qed.

Lemma le_bytes4_land v :
  le_bytes 4 v = [Z.land v 255; Z.land (Z.shiftr v 8) 255; Z.land (Z.shiftr v 16) 255;
                  Z.land (Z.shiftr v 24) 255].
Proof. rewrite !byte_land, land_255 by lia. cbn [le_bytes]. by rewrite !Z.div_div by lia. Qed.

Lemma le_bytes8_land v :
  le_bytes 8 v = [Z.land v 255; Z.land (Z.shiftr v 8) 255; Z.land (Z.shiftr v 16) 255;
                  Z.land (Z.shiftr v 24) 255; Z.land (Z.shiftr v 32) 255; Z.land (Z.shiftr v 40) 255;
                  Z.land (Z.shiftr v 48) 255; Z.land (Z.shiftr v 56) 255].
Proof. rewrite !byte_land, land_255 by lia. cbn [le_bytes]. by rewrite !Z.div_div by lia. Qed.

(** A fact about all bytes, or about all values below a small bound, is
    checked by computation. *)
Lemma all_below (n : nat) (f : Z -> bool) :
  forallb (fun k => f (Z.of_nat k)) (seq 0 n) = true -> forall b, 0 <= b < Z.of_nat n -> f b = true.
Proof.
  intros H b Hb. rewrite forallb_forall in H. specialize (H (Z.to_nat b)).
  rewrite Z2Nat.id in H by lia. apply H, in_seq. lia.
Qed.

Lemma rd1_shift a b k : 0 <= k -> rd1 (a ++ b) (zlen a + k) = rd1 b k.
Proof.
  intros Hk. unfold rd1, zlen. destruct (Z.leb_spec 0 k); [|lia].
  destruct (Z.leb_spec 0 (Z.of_nat (length a) + k)); [|lia].
  replace (Z.to_nat (Z.of_nat (length a) + k)) with (length a + Z.to_nat k)%nat by lia.
  by rewrite lookup_app_r, Nat.add_comm, Nat.add_sub by lia.
Qed.
