(* ===== verification/Endian.v ===== *)
(** Byte-order conversion: [endianconv.c] and the [...ifbe] macros of
    [endianconv.h].

    Integers live in memory as byte lists in the host's order.  [memrevN]
    swaps the bytes of such a cell in place, [intrevN] does it to a value.
    The two facts everything else uses are that a cell passed through
    [memrevNifbe] is read as its little-endian value on every host, and that
    a value passed through [intrevNifbe] is laid out in little-endian order. *)
From S2P Require Import Prelude.

(** * Definitions *)

(** An unsigned integer of [n] bytes as the host lays it out, and back. *)
Definition host_bytes `{Host} (n : nat) (z : Z) : list Z :=
  if big_endian then rev (le_bytes n z) else le_bytes n z.

Definition host_val `{Host} (bs : list Z) : Z :=
  if big_endian then le_val (rev bs) else le_val bs.

(** The swaps of the C code, one assignment at a time; a cell of another size
    cannot be passed by the callers and faults. *)
Definition swap (x : list Z) (i j : nat) : res (list Z) :=
  match x !! i, x !! j with
  | Some t, Some u => Ok (<[j := t]> (<[i := u]> x))
  | _, _ => Fault
  end.

Definition memrev16 (x : list Z) : res (list Z) :=
  swap x 0 1.

Definition memrev32 (x : list Z) : res (list Z) :=
  x ← swap x 0 3; swap x 1 2.

Definition memrev64 (x : list Z) : res (list Z) :=
  x ← swap x 0 7; x ← swap x 1 6; x ← swap x 2 5; swap x 3 4.

Definition intrev16 `{Host} (v : Z) : res Z :=
  bs ← memrev16 (host_bytes 2 v); Ok (host_val bs).

Definition intrev32 `{Host} (v : Z) : res Z :=
  bs ← memrev32 (host_bytes 4 v); Ok (host_val bs).

Definition intrev64 `{Host} (v : Z) : res Z :=
  bs ← memrev64 (host_bytes 8 v); Ok (host_val bs).

(** The macros: the conversion happens on a big-endian host only. *)
Definition memrev16ifbe `{Host} (x : list Z) : res (list Z) :=
  if big_endian then memrev16 x else Ok x.

Definition memrev32ifbe `{Host} (x : list Z) : res (list Z) :=
  if big_endian then memrev32 x else Ok x.

Definition memrev64ifbe `{Host} (x : list Z) : res (list Z) :=
  if big_endian then memrev64 x else Ok x.

Definition intrev16ifbe `{Host} (v : Z) : res Z :=
  if big_endian then intrev16 v else Ok v.

Definition intrev32ifbe `{Host} (v : Z) : res Z :=
  if big_endian then intrev32 v else Ok v.

Definition intrev64ifbe `{Host} (v : Z) : res Z :=
  if big_endian then intrev64 v else Ok v.

(** Network order: the opposite convention. *)
Definition htonu64 `{Host} (v : Z) : res Z :=
  if big_endian then Ok v else intrev64 v.

Definition ntohu64 `{Host} (v : Z) : res Z :=
  if big_endian then Ok v else intrev64 v.

(** The two byte orders, as concrete hosts. *)
Definition little_host : Host := {| big_endian := false; uninit := fun _ => 0 |}.
Definition big_host : Host := {| big_endian := true; uninit := fun _ => 0 |}.

(** * Lemmas *)

Lemma memrev16_rev x : length x = 2%nat -> memrev16 x = Ok (rev x).
Proof. intros H. by destruct x as [|? [|? [|]]]. Qed.

Lemma memrev32_rev x : length x = 4%nat -> memrev32 x = Ok (rev x).
Proof. intros H. by destruct x as [|? [|? [|? [|? [|]]]]]. Qed.

Lemma memrev64_rev x : length x = 8%nat -> memrev64 x = Ok (rev x).
Proof. intros H. by destruct x as [|? [|? [|? [|? [|? [|? [|? [|? [|]]]]]]]]]. Qed.

Section endian.
Context `{Host}.

Lemma length_host_bytes n z : length (host_bytes n z) = n.
Proof. unfold host_bytes. case_match; rewrite ?length_rev; apply length_le_bytes. Qed.

Lemma zlen_host_bytes n z : zlen (host_bytes n z) = Z.of_nat n.
Proof. unfold zlen. by rewrite length_host_bytes. Qed.

Lemma host_val_bytes n z : host_val (host_bytes n z) = wrapU (8 * Z.of_nat n) z.
Proof.
  unfold host_val, host_bytes. destruct big_endian; rewrite ?rev_involutive; apply le_val_bytes.
Qed.

Lemma host_bytes_val bs : Forall is_byte bs -> host_bytes (length bs) (host_val bs) = bs.
Proof.
  intros Hb. unfold host_bytes, host_val. destruct big_endian; [|by apply le_bytes_val].
  rewrite <- (length_rev bs). rewrite le_bytes_val by (by apply Forall_rev). apply rev_involutive.
Qed.

Lemma host_bytes_byte n z : Forall is_byte (host_bytes n z).
Proof.
  unfold host_bytes. case_match; [|apply le_bytes_byte].
  apply Forall_rev, le_bytes_byte.
Qed.

(** Reading a stored cell through [memrevifbe] gives its little-endian value. *)
Lemma memrev16ifbe_spec x : length x = 2%nat ->
  exists y, memrev16ifbe x = Ok y /\ host_val y = le_val x.
Proof.
  intros. unfold memrev16ifbe, host_val. destruct big_endian; [|eauto].
  rewrite memrev16_rev by done. eexists; split; [done|]. by rewrite rev_involutive.
Qed.

Lemma memrev32ifbe_spec x : length x = 4%nat ->
  exists y, memrev32ifbe x = Ok y /\ host_val y = le_val x.
Proof.
  intros. unfold memrev32ifbe, host_val. destruct big_endian; [|eauto].
  rewrite memrev32_rev by done. eexists; split; [done|]. by rewrite rev_involutive.
Qed.

Lemma memrev64ifbe_spec x : length x = 8%nat ->
  exists y, memrev64ifbe x = Ok y /\ host_val y = le_val x.
Proof.
  intros. unfold memrev64ifbe, host_val. destruct big_endian; [|eauto].
  rewrite memrev64_rev by done. eexists; split; [done|]. by rewrite rev_involutive.
Qed.

(** Storing a value and passing the cell through [memrevifbe] lays it out in
    little-endian order. *)
Lemma memrev16ifbe_host z : memrev16ifbe (host_bytes 2 z) = Ok (le_bytes 2 z).
Proof.
  unfold memrev16ifbe, host_bytes. destruct big_endian; [|done].
  rewrite memrev16_rev, rev_involutive; [done|]. by rewrite length_rev, length_le_bytes.
Qed.

Lemma memrev32ifbe_host z : memrev32ifbe (host_bytes 4 z) = Ok (le_bytes 4 z).
Proof.
  unfold memrev32ifbe, host_bytes. destruct big_endian; [|done].
  rewrite memrev32_rev, rev_involutive; [done|]. by rewrite length_rev, length_le_bytes.
Qed.

Lemma memrev64ifbe_host z : memrev64ifbe (host_bytes 8 z) = Ok (le_bytes 8 z).
Proof.
  unfold memrev64ifbe, host_bytes. destruct big_endian; [|done].
  rewrite memrev64_rev, rev_involutive; [done|]. by rewrite length_rev, length_le_bytes.
Qed.

(** [intrev32ifbe] is an involution on 32-bit values, and its result is laid
    out in little-endian order. *)
Lemma intrev32ifbe_layout v : 0 <= v < 2 ^ 32 ->
  exists w, intrev32ifbe v = Ok w /\ 0 <= w < 2 ^ 32 /\
            host_bytes 4 w = le_bytes 4 v /\ intrev32ifbe w = Ok v.
Proof.
  intros Hv. unfold intrev32ifbe, intrev32, host_bytes, host_val.
  destruct big_endian; [|eauto].
  rewrite memrev32_rev, rev_involutive by (by rewrite length_rev, length_le_bytes).
  rewrite bind_Ok. set (x := rev (le_bytes 4 v)).
  assert (Forall is_byte x) as Hx by apply Forall_rev, le_bytes_byte.
  assert (length x = 4%nat) as Hl by (unfold x; by rewrite length_rev, length_le_bytes).
  exists (le_val x). split; [done|].
  pose proof (le_val_range x Hx) as Hr. unfold zlen in Hr. rewrite Hl in Hr.
  split; [exact Hr|]. split.
  - pose proof (le_bytes_val x Hx) as E. rewrite Hl in E. rewrite E.
    unfold x. by rewrite rev_involutive.
  - pose proof (le_bytes_val x Hx) as E. rewrite Hl in E. rewrite E.
    unfold x. rewrite rev_involutive.
    rewrite memrev32_rev by apply length_le_bytes. rewrite bind_Ok, rev_involutive.
    by rewrite le_val_bytes, wrapU_small.
Qed.

(** A header word that reads as [v] is laid out as the bytes of [v]. *)
Lemma intrev32ifbe_bytes w v : intrev32ifbe w = Ok v -> host_bytes 4 w = le_bytes 4 v.
Proof.
  unfold intrev32ifbe, intrev32, host_bytes, host_val. destruct big_endian; [|congruence].
  rewrite memrev32_rev, rev_involutive by (by rewrite length_rev, length_le_bytes).
  rewrite bind_Ok. intros [= <-].
  assert (length (rev (le_bytes 4 w)) = 4%nat) as Hl by (by rewrite length_rev, length_le_bytes).
  rewrite <- Hl at 2. symmetry. apply le_bytes_val, Forall_rev, le_bytes_byte.
Qed.

(** A header word read from the bytes of [v] reads as [v]. *)
Lemma intrev32ifbe_val bs :
  Forall is_byte bs -> length bs = 4%nat -> intrev32ifbe (host_val bs) = Ok (le_val bs).
Proof.
  intros Hb Hl. unfold intrev32ifbe, intrev32, host_bytes, host_val. destruct big_endian; [|done].
  assert (length (rev bs) = 4%nat) as Hl' by (by rewrite length_rev).
  rewrite <- Hl', le_bytes_val by (by apply Forall_rev). rewrite rev_involutive.
  rewrite memrev32_rev, bind_Ok by done. by rewrite rev_involutive.
Qed.

End endian.
