(* ===== verification/Intset.v ===== *)
(** Integer sets: [intset.c].

    An intset is a header ([encoding], [length]) followed by the members as
    little-endian integers of [encoding] bytes each, in increasing order.  The
    record keeps the two header words as the host sees them and the flexible
    array [contents] as a byte buffer, so every access is at a byte offset and
    can fault.  [intset_repr] relates the buffer to the list of its members,
    [intset_wf] adds the order; the operations are shown to implement the
    operations on finite sets of integers. *)
From S2P Require Import Prelude Endian.
Open Scope Z_scope.

(** * Definitions *)

Record intset := mk_intset {
  encoding : Z;
  ilength : Z;
  contents : list Z;
}.

Definition set_encoding (e : Z) (s : intset) : intset :=
  mk_intset e (ilength s) (contents s).
Definition set_ilength (n : Z) (s : intset) : intset :=
  mk_intset (encoding s) n (contents s).
Definition set_contents (c : list Z) (s : intset) : intset :=
  mk_intset (encoding s) (ilength s) c.

Definition INTSET_ENC_INT16 : Z := 2.
Definition INTSET_ENC_INT32 : Z := 4.
Definition INTSET_ENC_INT64 : Z := 8.

(** [sizeof(intset)]. *)
Definition sizeof_intset : Z := 8.

Definition _intsetValueEncoding (v : Z) : Z :=
  if (v <? INT32_MIN) || (v >? INT32_MAX) then INTSET_ENC_INT64
  else if (v <? INT16_MIN) || (v >? INT16_MAX) then INTSET_ENC_INT32
  else INTSET_ENC_INT16.

Section operations.
Context `{Host}.

Definition _intsetGetEncoded (s : intset) (pos enc : Z) : res Z :=
  if enc =? INTSET_ENC_INT64 then
    v64 ← rd (contents s) (8 * pos) 8;
    v64 ← memrev64ifbe v64;
    Ok (wrapS 64 (host_val v64))
  else if enc =? INTSET_ENC_INT32 then
    v32 ← rd (contents s) (4 * pos) 4;
    v32 ← memrev32ifbe v32;
    Ok (wrapS 32 (host_val v32))
  else
    v16 ← rd (contents s) (2 * pos) 2;
    v16 ← memrev16ifbe v16;
    Ok (wrapS 16 (host_val v16)).

Definition _intsetGet (s : intset) (pos : Z) : res Z :=
  enc ← intrev32ifbe (encoding s);
  _intsetGetEncoded s pos (wrapU 8 enc).

Definition _intsetSet (s : intset) (pos value : Z) : res intset :=
  enc ← intrev32ifbe (encoding s);
  if enc =? INTSET_ENC_INT64 then
    c ← wr (contents s) (8 * pos) (host_bytes 8 value);
    cell ← rd c (8 * pos) 8;
    cell ← memrev64ifbe cell;
    c ← wr c (8 * pos) cell;
    Ok (set_contents c s)
  else if enc =? INTSET_ENC_INT32 then
    c ← wr (contents s) (4 * pos) (host_bytes 4 value);
    cell ← rd c (4 * pos) 4;
    cell ← memrev32ifbe cell;
    c ← wr c (4 * pos) cell;
    Ok (set_contents c s)
  else
    c ← wr (contents s) (2 * pos) (host_bytes 2 value);
    cell ← rd c (2 * pos) 2;
    cell ← memrev16ifbe cell;
    c ← wr c (2 * pos) cell;
    Ok (set_contents c s).

Definition intsetNew : res intset :=
  e ← intrev32ifbe INTSET_ENC_INT16;
  Ok (mk_intset e 0 []).

Definition intsetResize (s : intset) (len : Z) : res intset :=
  enc ← intrev32ifbe (encoding s);
  let size := wrapU 64 (len * enc) in
  assert! size <=? SIZE_MAX - sizeof_intset;
  Ok (set_contents (zrealloc (contents s) size) s).

(** The [while(max >= min)] loop of [intsetSearch]; the result is the final
    [(min, mid, cur)]. *)
Fixpoint intsetSearch_loop (fuel : nat) (s : intset) (value min max mid cur : Z)
  : res (Z * Z * Z) :=
  match fuel with
  | O => OutOfFuel
  | S fuel =>
      if max >=? min then
        let mid := wrapS 32 (Z.shiftr (wrapU 32 (wrapU 32 min + wrapU 32 max)) 1) in
        cur ← _intsetGet s mid;
        if value >? cur then
          min ← sint 32 (mid + 1);
          intsetSearch_loop fuel s value min max mid cur
        else if value <? cur then
          max ← sint 32 (mid - 1);
          intsetSearch_loop fuel s value min max mid cur
        else Ok (min, mid, cur)
      else Ok (min, mid, cur)
  end.

(** The result and the value stored through [pos]. *)
Definition intsetSearch (s : intset) (value : Z) : res (bool * Z) :=
  len ← intrev32ifbe (ilength s);
  let min := 0 in
  let max := wrapS 32 (wrapU 32 (len - 1)) in
  let mid := -1 in
  let cur := -1 in
  if len =? 0 then Ok (false, 0)
  else
    hi ← _intsetGet s max;
    if value >? hi then Ok (false, len)
    else
      lo ← _intsetGet s 0;
      if value <? lo then Ok (false, 0)
      else
        '(min, mid, cur) ← intsetSearch_loop (S (Z.to_nat len)) s value min max mid cur;
        if value =? cur then Ok (true, wrapU 32 mid)
        else Ok (false, wrapU 32 min).

(** [while(length--) _intsetSet(is,length+prepend,_intsetGetEncoded(is,length,curenc))]. *)
Fixpoint intsetUpgrade_loop (fuel : nat) (s : intset) (length prepend curenc : Z)
  : res intset :=
  match fuel with
  | O => OutOfFuel
  | S fuel =>
      if length =? 0 then Ok s
      else
        length ← sint 32 (length - 1);
        v ← _intsetGetEncoded s length curenc;
        s ← _intsetSet s (length + prepend) v;
        intsetUpgrade_loop fuel s length prepend curenc
  end.

Definition intsetUpgradeAndAdd (s : intset) (value : Z) : res intset :=
  enc ← intrev32ifbe (encoding s);
  let curenc := wrapU 8 enc in
  let newenc := _intsetValueEncoding value in
  len ← intrev32ifbe (ilength s);
  let length := wrapS 32 len in
  let prepend := if value <? 0 then 1 else 0 in
  e ← intrev32ifbe newenc;
  s ← intsetResize (set_encoding e s) (wrapU 32 (len + 1));
  s ← intsetUpgrade_loop (S (Z.to_nat length)) s length prepend curenc;
  s ← (if prepend =? 1 then _intsetSet s 0 value
        else (len ← intrev32ifbe (ilength s); _intsetSet s (wrapS 32 len) value));
  len ← intrev32ifbe (ilength s);
  n ← intrev32ifbe (wrapU 32 (len + 1));
  Ok (set_ilength n s).

Definition intsetMoveTail (s : intset) (from to : Z) : res intset :=
  len ← intrev32ifbe (ilength s);
  enc ← intrev32ifbe (encoding s);
  let bytes := wrapU 32 (len - from) in
  let sz := if enc =? INTSET_ENC_INT64 then 8
            else if enc =? INTSET_ENC_INT32 then 4 else 2 in
  c ← memmove (contents s) (sz * to) (sz * from) (wrapU 32 (bytes * sz));
  Ok (set_contents c s).

(** The new set and the value stored through [success]. *)
Definition intsetAdd (s : intset) (value : Z) : res (intset * bool) :=
  let valenc := _intsetValueEncoding value in
  enc ← intrev32ifbe (encoding s);
  if valenc >? enc then
    s ← intsetUpgradeAndAdd s value;
    Ok (s, true)
  else
    '(found, pos) ← intsetSearch s value;
    if (found : bool) then Ok (s, false)
    else
      len ← intrev32ifbe (ilength s);
      s ← intsetResize s (wrapU 32 (len + 1));
      s ← (if pos <? len then intsetMoveTail s pos (wrapU 32 (pos + 1)) else Ok s);
      s ← _intsetSet s (wrapS 32 pos) value;
      len ← intrev32ifbe (ilength s);
      n ← intrev32ifbe (wrapU 32 (len + 1));
      Ok (set_ilength n s, true).

Definition intsetRemove (s : intset) (value : Z) : res (intset * bool) :=
  let valenc := _intsetValueEncoding value in
  enc ← intrev32ifbe (encoding s);
  if valenc <=? enc then
    '(found, pos) ← intsetSearch s value;
    if (found : bool) then
      len ← intrev32ifbe (ilength s);
      s ← (if pos <? wrapU 32 (len - 1) then intsetMoveTail s (wrapU 32 (pos + 1)) pos
            else Ok s);
      s ← intsetResize s (wrapU 32 (len - 1));
      n ← intrev32ifbe (wrapU 32 (len - 1));
      Ok (set_ilength n s, true)
    else Ok (s, false)
  else Ok (s, false).

Definition intsetFind (s : intset) (value : Z) : res bool :=
  let valenc := _intsetValueEncoding value in
  enc ← intrev32ifbe (encoding s);
  if valenc <=? enc then
    '(found, _) ← intsetSearch s value; Ok found
  else Ok false.

(** [r] is what [rand()] returned. *)
Definition intsetRandom (s : intset) (r : Z) : res Z :=
  len ← intrev32ifbe (ilength s);
  assert! negb (len =? 0);
  _intsetGet s (wrapS 32 (wrapU 32 r mod len)).

(** [Some v] when the C function stores [v] and returns 1. *)
Definition intsetGet (s : intset) (pos : Z) : res (option Z) :=
  len ← intrev32ifbe (ilength s);
  if pos <? len then
    v ← _intsetGet s (wrapS 32 pos);
    Ok (Some v)
  else Ok None.

Definition intsetLen (s : intset) : res Z :=
  intrev32ifbe (ilength s).

Definition intsetBlobLen (s : intset) : res Z :=
  len ← intrev32ifbe (ilength s);
  enc ← intrev32ifbe (encoding s);
  Ok (wrapU 64 (sizeof_intset + wrapU 64 (len * enc))).

(** The loop over records [i .. count-1] of the deep check. *)
Fixpoint intsetValidate_loop (n : nat) (s : intset) (i prev : Z) : res bool :=
  match n with
  | O => Ok true
  | S n =>
      cur ← _intsetGet s (wrapS 32 i);
      if cur <=? prev then Ok false
      else intsetValidate_loop n s (wrapU 32 (i + 1)) cur
  end.

(** [p] points to [size] bytes, seen as an intset through the cast. *)
Definition intset_of_bytes (p : list Z) : res intset :=
  e ← rd p 0 4;
  l ← rd p 4 4;
  c ← rd p 8 (zlen p - 8);
  Ok (mk_intset (host_val e) (host_val l) c).

Definition intsetValidateIntegrity (p : list Z) (size : Z) (deep : bool) : res bool :=
  if size <? sizeof_intset then Ok false
  else
    s ← intset_of_bytes p;
    enc ← intrev32ifbe (encoding s);
    if negb ((enc =? INTSET_ENC_INT64) || (enc =? INTSET_ENC_INT32) || (enc =? INTSET_ENC_INT16))
    then Ok false
    else
      let record_size := enc in
      count ← intrev32ifbe (ilength s);
      if negb (wrapU 64 (sizeof_intset + wrapU 64 (count * record_size)) =? size) then Ok false
      else if count =? 0 then Ok false
      else if negb deep then Ok true
      else
        prev ← _intsetGet s 0;
        intsetValidate_loop (Z.to_nat (count - 1)) s 1 prev.

(** The bytes of the object in memory, which is what is saved and sent. *)
Definition intset_blob (s : intset) : list Z :=
  host_bytes 4 (encoding s) ++ host_bytes 4 (ilength s) ++ contents s.

End operations.

(** * Specification *)

Definition enc_ok (enc : Z) : Prop :=
  enc = INTSET_ENC_INT16 \/ enc = INTSET_ENC_INT32 \/ enc = INTSET_ENC_INT64.

(** The members [l] laid out at [enc] bytes each. *)
Definition ser (enc : Z) (l : list Z) : list Z :=
  mjoin (le_bytes (Z.to_nat enc) <$> l).

(** [v] is an [enc]-byte two's-complement integer. *)
Definition in_enc (enc v : Z) : Prop := - 2 ^ (8 * enc - 1) <= v < 2 ^ (8 * enc - 1).

(** [s] holds the integers [l], in this order, at [enc] bytes each. *)
Record intset_repr `{Host} (s : intset) (enc : Z) (l : list Z) : Prop := {
  repr_encoding : intrev32ifbe (encoding s) = Ok enc;
  repr_length : intrev32ifbe (ilength s) = Ok (zlen l);
  repr_enc : enc_ok enc;
  repr_range : Forall (in_enc enc) l;
  repr_contents : contents s = ser enc l;
}.

(** The invariant: increasing members, fewer than [2^29] of them, so that
    positions fit an [int] and [intsetMoveTail] computes byte counts at 32
    bits without overflow. *)
Record intset_wf `{Host} (s : intset) (enc : Z) (l : list Z) : Prop := {
  wf_repr : intset_repr s enc l;
  wf_sorted : sorted l;
  wf_bound : 8 * zlen l <= UINT32_MAX;
}.

(** Clients drive a set by a sequence of insertions and removals; the answers
    are the [success] flags. *)
Inductive iop :=
| IAdd (v : Z)
| IRemove (v : Z).

Definition iop_value (o : iop) : Z :=
  match o with IAdd v | IRemove v => v end.

Definition run_op `{Host} (s : intset) (o : iop) : res (intset * bool) :=
  match o with
  | IAdd v => intsetAdd s v
  | IRemove v => intsetRemove s v
  end.

Fixpoint run_ops `{Host} (s : intset) (os : list iop) : res (intset * list bool) :=
  match os with
  | [] => Ok (s, [])
  | o :: os =>
      '(s, b) ← run_op s o;
      '(s, bs) ← run_ops s os;
      Ok (s, b :: bs)
  end.

(** The same on a mathematical set, together with the width of the widest
    value ever added. *)
Definition spec_op (st : gset Z * Z) (o : iop) : (gset Z * Z) * bool :=
  let '(X, enc) := st in
  match o with
  | IAdd v => (({[v]} ∪ X, Z.max enc (_intsetValueEncoding v)), bool_decide (v ∉ X))
  | IRemove v => ((X ∖ {[v]}, enc), bool_decide (v ∈ X))
  end.

Fixpoint spec_ops (st : gset Z * Z) (os : list iop) : (gset Z * Z) * list bool :=
  match os with
  | [] => (st, [])
  | o :: os =>
      let '(st, b) := spec_op st o in
      let '(st, bs) := spec_ops st os in
      (st, b :: bs)
  end.

(** Never more than [UINT32_MAX / 8] members, about 2^29: what the 32-bit byte counts
    of the code can handle at every width. *)
Fixpoint stays_small (X : gset Z) (os : list iop) : Prop :=
  match os with
  | [] => True
  | IAdd v :: os => 8 * (Z.of_nat (size X) + 1) <= UINT32_MAX /\ stays_small ({[v]} ∪ X) os
  | IRemove v :: os => stays_small (X ∖ {[v]}) os
  end.

(** * Lemmas *)

Lemma enc_ok_pos enc : enc_ok enc -> 2 <= enc <= 8.
Proof. unfold enc_ok, INTSET_ENC_INT16, INTSET_ENC_INT32, INTSET_ENC_INT64. lia. Qed.

Lemma ser_nil enc : ser enc [] = [].
Proof. done. Qed.

Lemma ser_cons enc v l : ser enc (v :: l) = le_bytes (Z.to_nat enc) v ++ ser enc l.
Proof. done. Qed.

Lemma ser_app enc l k : ser enc (l ++ k) = ser enc l ++ ser enc k.
Proof. unfold ser. by rewrite fmap_app, join_app. Qed.

Lemma zlen_ser enc l : 0 <= enc -> zlen (ser enc l) = enc * zlen l.
Proof.
  intros. induction l as [|v l IH]; [rewrite ser_nil; zlia|].
  rewrite ser_cons. zlens. rewrite IH. lia.
Qed.

Lemma ser_single enc v : ser enc [v] = le_bytes (Z.to_nat enc) v.
Proof. unfold ser. cbn. apply app_nil_r. Qed.

Section proofs.
Context `{Host}.

(** An element access is a read of [enc] bytes at [enc * pos]. *)
Lemma get_rd s pos enc bs :
  enc_ok enc -> rd (contents s) (enc * pos) enc = Ok bs ->
  _intsetGetEncoded s pos enc = Ok (wrapS (8 * enc) (le_val bs)).
Proof.
  intros He Hr. pose proof (rd_inv _ _ _ _ Hr) as (a & c & _ & _ & Hl).
  unfold _intsetGetEncoded.
  destruct He as [->|[->| ->]]; cbn [Z.eqb INTSET_ENC_INT16 INTSET_ENC_INT32 INTSET_ENC_INT64] in *;
    unfold INTSET_ENC_INT16, INTSET_ENC_INT32, INTSET_ENC_INT64 in *; cbn [Z.eqb Pos.eqb];
    rewrite Hr, bind_Ok; unfold zlen in Hl.
  - destruct (memrev16ifbe_spec bs) as (y & -> & Hy); [lia|]. by rewrite bind_Ok, Hy.
  - destruct (memrev32ifbe_spec bs) as (y & -> & Hy); [lia|]. by rewrite bind_Ok, Hy.
  - destruct (memrev64ifbe_spec bs) as (y & -> & Hy); [lia|]. by rewrite bind_Ok, Hy.
Qed.

Lemma get_ser s pos enc v a c :
  enc_ok enc -> in_enc enc v ->
  contents s = a ++ le_bytes (Z.to_nat enc) v ++ c -> zlen a = enc * pos ->
  _intsetGetEncoded s pos enc = Ok v.
Proof.
  intros He Hv Hc Ha. pose proof (enc_ok_pos _ He).
  erewrite get_rd; [|done|]; last first.
  { rewrite Hc. apply rd_app; [lia|]. zlens. lia. }
  rewrite le_val_bytes, Z2Nat.id, wrapS_wrapU by lia.
  by rewrite wrapS_small by (unfold in_enc in Hv; lia).
Qed.

Lemma wr_memrev c off n v w (f : list Z -> res (list Z)) :
  zlen v = n -> zlen w = n -> f v = Ok w ->
  (c ← wr c off v; cell ← rd c off n; cell ← f cell; wr c off cell) = wr c off w.
Proof.
  intros Hv Hw Hf. destruct (wr_cases c off v) as [[c' E]|E]; rewrite E; cbn.
  - rewrite <- Hv, (rd_wr_eq _ _ _ _ E), bind_Ok, Hf, bind_Ok.
    apply (wr_wr _ _ _ _ _ E). lia.
  - symmetry. eapply wr_fault; [done|]. lia.
Qed.

Lemma set_wr s pos enc v c :
  intrev32ifbe (encoding s) = Ok enc -> enc_ok enc ->
  wr (contents s) (enc * pos) (le_bytes (Z.to_nat enc) v) = Ok c ->
  _intsetSet s pos v = Ok (set_contents c s).
Proof.
  intros E He Hw. unfold _intsetSet. rewrite E, bind_Ok.
  destruct He as [->|[->| ->]];
    unfold INTSET_ENC_INT16, INTSET_ENC_INT32, INTSET_ENC_INT64 in *; cbn [Z.eqb Pos.eqb].
  - pose proof (wr_memrev (contents s) (2 * pos) 2 _ _ _ (zlen_host_bytes 2 v)
      (zlen_le_bytes 2 v) (memrev16ifbe_host v)) as M.
    change (Z.to_nat 2) with 2%nat in Hw. rewrite Hw in M.
    apply bind_Ok_inv in M as (? & -> & (? & ? & (? & ? & ?)%bind_Ok_inv)%bind_Ok_inv).
    cbn. by repeat (match goal with E : _ = Ok _ |- _ => rewrite E; clear E; cbn end).
  - pose proof (wr_memrev (contents s) (4 * pos) 4 _ _ _ (zlen_host_bytes 4 v)
      (zlen_le_bytes 4 v) (memrev32ifbe_host v)) as M.
    change (Z.to_nat 4) with 4%nat in Hw. rewrite Hw in M.
    apply bind_Ok_inv in M as (? & -> & (? & ? & (? & ? & ?)%bind_Ok_inv)%bind_Ok_inv).
    cbn. by repeat (match goal with E : _ = Ok _ |- _ => rewrite E; clear E; cbn end).
  - pose proof (wr_memrev (contents s) (8 * pos) 8 _ _ _ (zlen_host_bytes 8 v)
      (zlen_le_bytes 8 v) (memrev64ifbe_host v)) as M.
    change (Z.to_nat 8) with 8%nat in Hw. rewrite Hw in M.
    apply bind_Ok_inv in M as (? & -> & (? & ? & (? & ? & ?)%bind_Ok_inv)%bind_Ok_inv).
    cbn. by repeat (match goal with E : _ = Ok _ |- _ => rewrite E; clear E; cbn end).
Qed.

Lemma repr_get s enc l i v :
  intset_repr s enc l -> 0 <= i -> l !! Z.to_nat i = Some v -> _intsetGet s i = Ok v.
Proof.
  intros [E _ He Hr Hc] Hi Hv. unfold _intsetGet. rewrite E, bind_Ok.
  pose proof (enc_ok_pos _ He). zwrap.
  pose proof (lookup_lt_Some _ _ _ Hv).
  eapply (get_ser s i enc v (ser enc (take (Z.to_nat i) l)) (ser enc (drop (S (Z.to_nat i)) l)));
    [done| |..].
  - rewrite Forall_forall in Hr. apply Hr. by eapply list_elem_of_lookup_2.
  - rewrite Hc, <- ser_cons, <- ser_app. by rewrite take_drop_middle.
  - rewrite zlen_ser by lia. rewrite zlen_take by (unfold zlen; lia). done.
Qed.

(** What the search returns: the position of the value, or where it belongs. *)
Definition search_spec (l : list Z) (value : Z) (r : bool * Z) : Prop :=
  let '(found, pos) := r in
  if (found : bool) then 0 <= pos /\ l !! Z.to_nat pos = Some value
  else 0 <= pos <= zlen l /\
       (forall i x, l !! i = Some x -> Z.of_nat i < pos -> x < value) /\
       (forall i x, l !! i = Some x -> pos <= Z.of_nat i -> value < x).

Lemma search_loop_spec s enc l value fuel min max mid cur :
  intset_repr s enc l -> sorted l -> zlen l <= INT32_MAX ->
  0 <= min -> max < zlen l -> min <= max + 1 -> (Z.to_nat (max - min + 1) < fuel)%nat ->
  (forall i x, l !! i = Some x -> Z.of_nat i < min -> x < value) ->
  (forall i x, l !! i = Some x -> max < Z.of_nat i -> value < x) ->
  (min <= max \/ cur <> value) ->
  exists min' mid' cur',
    intsetSearch_loop fuel s value min max mid cur = Ok (min', mid', cur') /\
    (cur' = value /\ 0 <= mid' <= INT32_MAX /\ l !! Z.to_nat mid' = Some value \/
     cur' <> value /\ 0 <= min' <= INT32_MAX /\ search_spec l value (false, min')).
Proof.
  intros Hrep Hs Hb. revert min max mid cur.
  induction fuel as [|fuel IH]; intros min max mid cur H0 Hm Hmm Hf Hlo Hhi Hne; [lia|].
  cbn [intsetSearch_loop]. rewrite Z.geb_leb. destruct (Z.leb_spec min max) as [Hle|Hgt].
  - zwrap. rewrite Z.shiftr_div_pow2 by lia. change (2 ^ 1) with 2.
    set (m := (min + max) / 2). assert (min <= m <= max) by (unfold m; zdiv). zwrap.
    destruct (lookup_lt_is_Some_2 l (Z.to_nat m)) as [x Hx]; [unfold zlen in *; lia|].
    rewrite (repr_get s enc l m x) by (done || lia). rewrite bind_Ok, Z.gtb_ltb.
    destruct (Z.ltb_spec x value); [|destruct (Z.ltb_spec value x)].
    + zwrap. apply IH; try lia; [|done]. intros i y Hy Hi.
      destruct (decide (i = Z.to_nat m)) as [->|]; [simplify_eq; lia|].
      transitivity x; [|done]. eapply (sorted_lookup l i (Z.to_nat m)); [done|lia|done..].
    + zwrap. apply IH; try lia; [done|]. intros i y Hy Hi.
      destruct (decide (i = Z.to_nat m)) as [->|]; [simplify_eq; lia|].
      transitivity x; [done|]. eapply (sorted_lookup l (Z.to_nat m) i); [done|lia|done..].
    + replace x with value in * by lia. eexists _, _, _. split; [done|].
      left. zconst. split_and!; try lia; done.
  - eexists _, _, _. split; [done|]. right. unfold search_spec. zconst.
    split_and!; try lia; [done|]. intros i x Hx Hi. apply (Hhi i x Hx). lia.
Qed.

Lemma search_ok s enc l value :
  intset_wf s enc l ->
  exists r, intsetSearch s value = Ok r /\ search_spec l value r.
Proof.
  intros [Hrep Hs Hb]. pose proof Hrep as [_ El _ _ _].
  assert (zlen l <= INT32_MAX) as Hb' by (zconst; lia). clear Hb.
  unfold intsetSearch. rewrite El, bind_Ok. zpos.
  destruct (Z.eqb_spec (zlen l) 0) as [E0|].
  { exists (false, 0). split; [done|]. unfold search_spec.
    assert (l = []) as -> by (apply nil_length_inv; unfold zlen in *; lia).
    split_and!; [done|done|set_solver..]. }
  zwrap.
  destruct (lookup_lt_is_Some_2 l (Z.to_nat (zlen l - 1))) as [hi Hhi]; [unfold zlen in *; lia|].
  rewrite (repr_get s enc l (zlen l - 1) hi) by (done || lia). rewrite bind_Ok, Z.gtb_ltb.
  destruct (Z.ltb_spec hi value).
  { eexists; split; [done|]. unfold search_spec. split_and!; [lia..| |].
    - intros i x Hx Hi. destruct (decide (i = Z.to_nat (zlen l - 1))) as [->|]; [simplify_eq; lia|].
      enough (x < hi) by lia. eapply (sorted_lookup l i (Z.to_nat (zlen l - 1))); [done| |done..].
      apply lookup_lt_Some in Hx. unfold zlen in *. lia.
    - intros i x Hx Hi. apply lookup_lt_Some in Hx. unfold zlen in Hi. lia. }
  destruct (lookup_lt_is_Some_2 l (Z.to_nat 0)) as [lo Hlo]; [unfold zlen in *; lia|].
  rewrite (repr_get s enc l 0 lo) by (done || lia). rewrite bind_Ok.
  destruct (Z.ltb_spec value lo).
  { eexists; split; [done|]. unfold search_spec. split_and!; [lia..| |]; [intros; lia|].
    change (Z.to_nat 0) with 0%nat in Hlo.
    intros i x Hx Hi. destruct i; [simplify_eq; lia|].
    enough (lo < x) by lia. eapply (sorted_lookup l 0 (S i)); [done|lia|done..]. }
  destruct (search_loop_spec s enc l value (S (Z.to_nat (zlen l))) 0 (zlen l - 1) (-1) (-1))
    as (min' & mid' & cur' & -> & Hres); try done; try lia.
  { intros i x Hx Hi. apply lookup_lt_Some in Hx. unfold zlen in Hi. lia. }
  rewrite bind_Ok. destruct Hres as [(-> & ? & ?)|(? & ? & Hsp)].
  - rewrite Z.eqb_refl. zwrap. eexists; split; [done|]. cbn. split; [lia|done].
  - zfalse (value =? cur'). zwrap. eauto.
Qed.

Lemma resize_ok s enc len :
  intrev32ifbe (encoding s) = Ok enc -> enc_ok enc -> 0 <= len <= UINT32_MAX ->
  intsetResize s len = Ok (set_contents (zrealloc (contents s) (len * enc)) s).
Proof.
  intros E He Hl. unfold intsetResize. rewrite E, bind_Ok.
  pose proof (enc_ok_pos _ He). unfold sizeof_intset. zconst.
  assert (0 <= len * enc <= 2 ^ 35) by nia. zwrap.
  case_match; [done|]. lia.
Qed.

Lemma set_ser s enc pos v a b c :
  intrev32ifbe (encoding s) = Ok enc -> enc_ok enc ->
  contents s = a ++ b ++ c -> zlen a = enc * pos -> zlen b = enc ->
  _intsetSet s pos v = Ok (set_contents (a ++ le_bytes (Z.to_nat enc) v ++ c) s).
Proof.
  intros E He Hc Ha Hb. pose proof (enc_ok_pos _ He).
  eapply set_wr; [done..|]. rewrite Hc. apply wr_app; [done|]. zlens. lia.
Qed.

(** The in-place widening loop, back to front: [B] is the gap between the
    cells still at the old width and those already at the new one. *)
Lemma upgrade_loop_spec cur new prepend l s B rest fuel :
  intrev32ifbe (encoding s) = Ok new -> enc_ok cur -> enc_ok new -> cur < new ->
  Forall (in_enc cur) l -> zlen l <= INT32_MAX -> 0 <= prepend ->
  contents s = ser cur l ++ B ++ rest ->
  zlen B = new * (zlen l + prepend) - cur * zlen l -> (length l < fuel)%nat ->
  exists B', zlen B' = new * prepend /\
    intsetUpgrade_loop fuel s (zlen l) prepend cur =
    Ok (set_contents (B' ++ ser new l ++ rest) s).
Proof.
  intros E Hc Hn Hlt. pose proof (enc_ok_pos _ Hc). pose proof (enc_ok_pos _ Hn).
  revert s B rest fuel E.
  induction l as [|v l IH] using rev_ind; intros s B rest fuel E Hr Hb Hp Hs HB Hf.
  - destruct fuel; [cbn in Hf; lia|]. rewrite zlen_nil in *. exists B.
    split; [lia|]. cbn. rewrite !ser_nil in *. destruct s; cbn in *. by subst.
  - destruct fuel as [|fuel]; [lia|]. cbn [intsetUpgrade_loop].
    apply Forall_app in Hr as [Hr Hv]. apply (proj1 (Forall_singleton _ _)) in Hv. rewrite zlen_app in *.
    change (zlen [v]) with 1 in *. zpos. zfalse (zlen l + 1 =? 0). zwrap.
    replace (zlen l + 1 - 1) with (zlen l) by lia.
    rewrite ser_app, ser_single, <- app_assoc in Hs.
    rewrite (get_ser s (zlen l) cur v (ser cur l) (B ++ rest)), bind_Ok;
      [|done|done|done|by rewrite zlen_ser by lia].
    destruct (cut_at (le_bytes (Z.to_nat cur) v ++ B) (new * (zlen l + prepend) - cur * zlen l))
      as (X1 & X2 & HX & HX1 & HX2); [zlens; nia|].
    rewrite (app_assoc (le_bytes _ _)), HX, <- !app_assoc in Hs.
    rewrite (set_ser s new (zlen l + prepend) v (ser cur l ++ X1) X2 rest), bind_Ok; [|done|done|..].
    + destruct (IH (set_contents ((ser cur l ++ X1) ++ le_bytes (Z.to_nat new) v ++ rest) s)
        X1 (le_bytes (Z.to_nat new) v ++ rest) fuel) as (B' & HB' & ->); try done.
      * lia.
      * cbn. by rewrite <- app_assoc.
      * rewrite length_app in Hf. cbn in Hf. lia.
      * exists B'. split; [done|]. rewrite ser_app, ser_single, <- !app_assoc. done.
    + by rewrite <- app_assoc.
    + zlens. rewrite zlen_ser by lia. lia.
    + zlens. lia.
Qed.

Lemma in_enc_mono e1 e2 v : enc_ok e1 -> enc_ok e2 -> e1 <= e2 -> in_enc e1 v -> in_enc e2 v.
Proof.
  unfold in_enc. intros He1 He2 Hle Hv. pose proof (enc_ok_pos _ He1).
  pose proof (Z.pow_le_mono_r 2 (8 * e1 - 1) (8 * e2 - 1)). lia.
Qed.

Lemma valueEncoding_spec v :
  enc_ok (_intsetValueEncoding v) /\
  (in_enc INTSET_ENC_INT64 v -> in_enc (_intsetValueEncoding v) v) /\
  (forall enc, enc_ok enc -> enc < _intsetValueEncoding v -> ~ in_enc enc v).
Proof.
  unfold _intsetValueEncoding, enc_ok, in_enc, INTSET_ENC_INT16, INTSET_ENC_INT32,
    INTSET_ENC_INT64. zconst. cbn.
  repeat ztest; zprop; split_and!; try lia; intros; destruct_or!; subst; cbn; try lia.
Qed.

(** A value that does not fit the encoding lies outside the range of all the
    members, on the side its sign tells. *)
Lemma outside_range enc v x :
  enc_ok enc -> ~ in_enc enc v -> in_enc enc x -> if v <? 0 then v < x else x < v.
Proof.
  unfold in_enc. intros He%enc_ok_pos Hv Hx.
  assert (0 < 2 ^ (8 * enc - 1)) by (apply Z.pow_pos_nonneg; lia).
  destruct (Z.ltb_spec v 0); lia.
Qed.

(** The representation is established by an encoding, a contents and a length
    that agree. *)
Lemma repr_intro s c n enc l :
  intrev32ifbe (encoding s) = Ok enc -> enc_ok enc -> Forall (in_enc enc) l ->
  c = ser enc l -> intrev32ifbe n = Ok (zlen l) ->
  intset_repr (set_ilength n (set_contents c s)) enc l.
Proof. intros. by constructor. Qed.

Lemma upgrade_ok s enc l value :
  intset_repr s enc l -> zlen l < INT32_MAX -> in_enc INTSET_ENC_INT64 value ->
  enc < _intsetValueEncoding value ->
  exists s', intsetUpgradeAndAdd s value = Ok s' /\
    intset_repr s' (_intsetValueEncoding value) (if value <? 0 then value :: l else l ++ [value]).
Proof.
  intros [E El He Hr Hc] Hb Hv Hlt.
  destruct (valueEncoding_spec value) as (Hne & Hin & _).
  set (new := _intsetValueEncoding value) in *. specialize (Hin Hv).
  pose proof (enc_ok_pos _ He). pose proof (enc_ok_pos _ Hne). zpos.
  assert (Forall (in_enc new) l) as Hr'.
  { eapply Forall_impl; [exact Hr|]. intros x Hx. eapply in_enc_mono; [..|exact Hx]; auto; lia. }
  unfold intsetUpgradeAndAdd. rewrite E, bind_Ok, El, bind_Ok. zconst. zwrap. fold new.
  destruct (intrev32ifbe_layout new) as (e & -> & _ & _ & Ee); [lia|]. rewrite bind_Ok.
  rewrite (resize_ok _ new) by (done || (zconst; lia)). rewrite bind_Ok. cbn [contents set_encoding].
  destruct (zrealloc_grow (contents s) ((zlen l + 1) * new)) as (x & -> & Hx).
  { rewrite Hc, zlen_ser by lia. nia. }
  rewrite Hc, zlen_ser in Hx by lia. rewrite Hc.
  destruct (intrev32ifbe_layout (zlen l + 1)) as (n & Hn & _ & _ & En); [lia|].
  destruct (Z.ltb_spec value 0) as [Hneg|Hpos].
  - destruct (upgrade_loop_spec enc new 1 l
      (set_contents (ser enc l ++ x) (set_encoding e s)) x [] (S (Z.to_nat (zlen l))))
      as (B' & HB' & ->); try done; [zconst; lia|by cbn; rewrite app_nil_r|lia|unfold zlen; lia|].
    rewrite bind_Ok. cbn [Z.eqb Pos.eqb].
    rewrite (set_ser _ new 0 value [] B' (ser new l)), bind_Ok;
      [|done|done|cbn; by rewrite app_nil_r|by rewrite zlen_nil; lia|lia].
    cbn [ilength set_contents set_encoding]. rewrite El, bind_Ok. zwrap. rewrite Hn, bind_Ok.
    eexists; split; [done|]. apply repr_intro; try done; [by constructor|].
    rewrite zlen_cons. by rewrite Z.add_comm.
  - destruct (cut_at x (new * zlen l - enc * zlen l)) as (x1 & x2 & -> & Hx1 & Hx2); [nia|].
    destruct (upgrade_loop_spec enc new 0 l
      (set_contents (ser enc l ++ x1 ++ x2) (set_encoding e s)) x1 x2 (S (Z.to_nat (zlen l))))
      as (B' & HB' & ->); try done; [zconst; lia|lia|unfold zlen; lia|].
    assert (B' = []) as -> by (apply nil_length_inv; unfold zlen in HB'; lia).
    rewrite bind_Ok. cbn [Z.eqb]. cbn [ilength set_contents set_encoding]. rewrite El, bind_Ok. zwrap.
    rewrite (set_ser _ new (zlen l) value (ser new l) x2 []), bind_Ok;
      [|done|done|cbn; by rewrite app_nil_r|by rewrite zlen_ser by lia|zlens; lia].
    cbn [ilength set_contents set_encoding]. rewrite El, bind_Ok. zwrap. rewrite Hn, bind_Ok.
    eexists; split; [done|]. apply repr_intro; try done.
    + apply Forall_app. by split; [|constructor].
    + by rewrite ser_app, ser_single, app_nil_r.
    + by rewrite zlen_app.
Qed.

(** [bytes] is computed at 32 bits, which holds [enc * len] when there are
    fewer than [2^29] members. *)
Lemma moveTail_ok s enc n from to c :
  intrev32ifbe (encoding s) = Ok enc -> enc_ok enc ->
  intrev32ifbe (ilength s) = Ok n -> 8 * n <= UINT32_MAX -> 0 <= from <= n ->
  memmove (contents s) (enc * to) (enc * from) (enc * (n - from)) = Ok c ->
  intsetMoveTail s from to = Ok (set_contents c s).
Proof.
  intros E He El Hb Hf Hm. unfold intsetMoveTail. rewrite El, bind_Ok, E, bind_Ok.
  zconst. destruct He as [->|[->| ->]];
    unfold INTSET_ENC_INT16, INTSET_ENC_INT32, INTSET_ENC_INT64 in *; cbn [Z.eqb Pos.eqb];
    zwrap; rewrite (Z.mul_comm (n - from)), Hm; done.
Qed.

(** Opening a gap of one cell at [pos]: the cells [y] move up, the fresh cell
    [g] at the end is overwritten. *)
Lemma memmove_up x y g sz off :
  zlen g = sz -> zlen x = off ->
  exists g', zlen g' = sz /\ memmove (x ++ y ++ g) (off + sz) off (zlen y) = Ok (x ++ g' ++ y).
Proof.
  intros Hg Hx. unfold memmove. rewrite (rd_app x y g) by done. rewrite bind_Ok.
  destruct (cut_at (y ++ g) sz) as (p & q & Hpq & Hp & Hq); [zlia|].
  exists p. split; [done|]. rewrite Hpq, <- (app_nil_r q), (app_assoc x p).
  rewrite (wr_app (x ++ p) q y []); [by rewrite app_nil_r, app_assoc|zlia|].
  rewrite zlen_app in Hq. lia.
Qed.

(** Closing the gap [g]: the cells [y] move down over it. *)
Lemma memmove_down x y g off :
  zlen x = off ->
  exists t, zlen t = zlen g /\
    memmove (x ++ g ++ y) off (off + zlen g) (zlen y) = Ok (x ++ y ++ t).
Proof.
  intros Hx. unfold memmove.
  pose proof (rd_app (x ++ g) y [] (off + zlen g) (zlen y)) as R.
  rewrite app_nil_r, <- app_assoc in R. rewrite R by (try done; zlia). rewrite bind_Ok.
  destruct (cut_at (g ++ y) (zlen y)) as (p & q & Hpq & Hp & Hq); [zlia|].
  exists q. split; [rewrite zlen_app in Hq; lia|]. rewrite Hpq. by apply wr_app.
Qed.

Lemma search_absent l value pos :
  sorted l -> search_spec l value (false, pos) ->
  value ∉ l /\ sorted (take (Z.to_nat pos) l ++ value :: drop (Z.to_nat pos) l).
Proof.
  intros Hs (Hp & Hlo & Hhi). split.
  - intros (i & Hi)%list_elem_of_lookup.
    destruct (Z.ltb_spec (Z.of_nat i) pos) as [Hl|Hl];
      [specialize (Hlo _ _ Hi Hl)|specialize (Hhi _ _ Hi Hl)]; lia.
  - assert (forall x, x ∈ take (Z.to_nat pos) l -> x < value) as Ht.
    { intros x (i & Hi)%list_elem_of_lookup.
      assert (i < Z.to_nat pos)%nat by (apply lookup_lt_Some in Hi; rewrite length_take in Hi; lia).
      rewrite lookup_take_lt in Hi by done. eapply Hlo; [done|lia]. }
    assert (forall x, x ∈ drop (Z.to_nat pos) l -> value < x) as Hd.
    { intros x (i & Hi)%list_elem_of_lookup. rewrite lookup_drop in Hi. eapply Hhi; [done|lia]. }
    rewrite <- (take_drop (Z.to_nat pos) l) in Hs. apply sorted_app in Hs as (H1 & H2 & H12).
    apply sorted_app. split_and!; [done| |].
    + constructor; [done|]. apply Forall_forall. auto.
    + intros x y Hx [->|Hy]%elem_of_cons; auto.
Qed.

Lemma set_insert_at (l : list Z) p value :
  list_to_set (take p l ++ value :: drop p l) = {[value]} ∪ (list_to_set l : gset Z).
Proof.
  transitivity (({[value]} : gset Z) ∪ list_to_set (take p l ++ drop p l)).
  - rewrite !list_to_set_app_L. set_solver.
  - by rewrite take_drop.
Qed.

Lemma in_enc_of_valueEncoding enc v :
  enc_ok enc -> in_enc INTSET_ENC_INT64 v -> _intsetValueEncoding v <= enc -> in_enc enc v.
Proof.
  intros. destruct (valueEncoding_spec v) as (? & ? & _). eapply in_enc_mono; eauto.
Qed.

Lemma insert_ok s enc l value pos :
  intset_wf s enc l -> 8 * (zlen l + 1) <= UINT32_MAX -> in_enc enc value ->
  search_spec l value (false, pos) ->
  exists s',
    (len ← intrev32ifbe (ilength s);
     s ← intsetResize s (wrapU 32 (len + 1));
     s ← (if pos <? len then intsetMoveTail s pos (wrapU 32 (pos + 1)) else Ok s);
     s ← _intsetSet s (wrapS 32 pos) value;
     len ← intrev32ifbe (ilength s);
     n ← intrev32ifbe (wrapU 32 (len + 1));
     Ok (set_ilength n s, true)) = Ok (s', true) /\
    intset_repr s' enc (take (Z.to_nat pos) l ++ value :: drop (Z.to_nat pos) l).
Proof.
  intros [[E El He Hr Hc] _ _] Hb Hv (Hp & _). pose proof (enc_ok_pos _ He). zconst. zpos.
  rewrite El, bind_Ok. zwrap. rewrite (resize_ok s enc), bind_Ok by (done || (zconst; lia)).
  destruct (zrealloc_grow (contents s) ((zlen l + 1) * enc)) as (g & -> & Hg).
  { rewrite Hc, zlen_ser by lia. lia. }
  rewrite Hc, zlen_ser in Hg by lia. rewrite Hc.
  set (l1 := take (Z.to_nat pos) l). set (l2 := drop (Z.to_nat pos) l).
  assert (l = l1 ++ l2) as Hl by (symmetry; apply take_drop).
  assert (zlen l1 = pos) as Hl1 by (unfold l1; rewrite zlen_take; lia).
  assert (zlen l2 = zlen l - pos) as Hl2 by (unfold l2; rewrite zlen_drop; lia).
  destruct (intrev32ifbe_layout (zlen l + 1)) as (n & Hn & _ & _ & En); [lia|].
  match goal with |- context [if _ then _ else Ok ?s0] => assert (exists g',
    zlen g' = enc /\ (if pos <? zlen l then intsetMoveTail s0 pos (pos + 1) else Ok s0)
    = Ok (set_contents (ser enc l1 ++ g' ++ ser enc l2) s)) as (g' & Hg' & ->) end.
  { destruct (Z.ltb_spec pos (zlen l)).
    - destruct (memmove_up (ser enc l1) (ser enc l2) g enc (enc * pos)) as (g' & Hg' & Hm);
        [lia|by rewrite zlen_ser, Hl1 by lia|].
      exists g'. split; [done|]. rewrite zlen_ser, Hl2 in Hm by lia.
      erewrite (moveTail_ok _ enc (zlen l)); [done|done|done|done|zconst; lia|lia|].
      cbn [contents set_contents]. rewrite Hl at 1.
      rewrite ser_app, <- app_assoc, <- Hm. f_equal. lia.
    - exists g. split; [lia|]. assert (l2 = []) as -> by (apply nil_length_inv; unfold zlen in *; lia).
      rewrite ser_nil, app_nil_r, Hl, app_nil_r. done. }
  rewrite bind_Ok. zwrap.
  rewrite (set_ser _ enc pos value (ser enc l1) g' (ser enc l2)), bind_Ok;
    [|done|done|done|by rewrite zlen_ser, Hl1 by lia|done].
  cbn [ilength set_contents]. rewrite El, bind_Ok. zwrap. rewrite Hn, bind_Ok.
  eexists; split; [done|]. apply repr_intro; try done.
  - rewrite Hl in Hr. apply Forall_app in Hr as [? ?].
    apply Forall_app. split; [done|]. by constructor.
  - by rewrite ser_app, ser_cons.
  - rewrite zlen_app, zlen_cons, Hl1, Hl2, En. f_equal. lia.
Qed.

Lemma add_ok s enc l value :
  intset_wf s enc l -> 8 * (zlen l + 1) <= UINT32_MAX -> in_enc INTSET_ENC_INT64 value ->
  exists s' l', intsetAdd s value = Ok (s', bool_decide (value ∉ l)) /\
    intset_wf s' (Z.max enc (_intsetValueEncoding value)) l' /\
    list_to_set l' = {[value]} ∪ (list_to_set l : gset Z) /\
    zlen l' = zlen l + (if bool_decide (value ∉ l) then 1 else 0).
Proof.
  intros Hwf Hb Hv. pose proof Hwf as [Hrep Hs Hb0].
  pose proof Hrep as [E El He Hr Hc]. unfold intsetAdd. rewrite E, bind_Ok, Z.gtb_ltb.
  destruct (valueEncoding_spec value) as (Hne & Hin & Hout).
  destruct (Z.ltb_spec enc (_intsetValueEncoding value)) as [Hlt|Hge].
  - destruct (upgrade_ok s enc l value Hrep) as (s' & -> & Hrep'); [zconst; lia|done|done|].
    rewrite bind_Ok.
    assert (forall x, x ∈ l -> if value <? 0 then value < x else x < value) as Hside.
    { intros x Hx. eapply (outside_range enc); eauto. rewrite Forall_forall in Hr. auto. }
    assert (value ∉ l) as Hnin by (intros Hx; apply Hside in Hx; case_match; lia).
    rewrite bool_decide_eq_true_2, Z.max_r by (done || lia).
    eexists _, _. split_and!; [done|constructor; [done| |]|..].
    + destruct (value <? 0).
      * constructor; [done|]. by apply Forall_forall.
      * apply sorted_app. split_and!; [done|by repeat constructor|]. set_solver.
    + destruct (value <? 0); zlens; lia.
    + destruct (value <? 0); [|rewrite list_to_set_app_L]; set_solver.
    + destruct (value <? 0); zlens; lia.
  - destruct (search_ok s enc l value Hwf) as ([[|] pos] & -> & Hsp); rewrite bind_Ok.
    + destruct Hsp as [? Hi%list_elem_of_lookup_2].
      rewrite bool_decide_eq_false_2, Z.max_l by (lia || naive_solver).
      eexists _, _. split_and!; [done|done|set_solver|lia].
    + destruct (search_absent l value pos Hs Hsp) as [Hnin Hs'].
      assert (in_enc enc value) by (apply in_enc_of_valueEncoding; done).
      destruct (insert_ok s enc l value pos) as (s' & -> & Hrep'); [done..|].
      rewrite bool_decide_eq_true_2, Z.max_l by (lia || done).
      assert (zlen (take (Z.to_nat pos) l ++ value :: drop (Z.to_nat pos) l) = zlen l + 1) as Hz.
      { destruct Hsp as [Hp _]. zlens. rewrite zlen_take, zlen_drop by lia. lia. }
      eexists _, _. split_and!; [done|constructor; [done|done|lia]|apply set_insert_at|done].
Qed.

Lemma sorted_NoDup l : sorted l -> NoDup l.
Proof.
  induction 1 as [|x l _ IH Hx]; constructor; [|done].
  rewrite Forall_forall in Hx. intros Hin. specialize (Hx _ Hin). lia.
Qed.

Lemma set_delete_at (l : list Z) p value :
  sorted l -> l !! p = Some value ->
  list_to_set (take p l ++ drop (S p) l) = (list_to_set l : gset Z) ∖ {[value]}.
Proof.
  intros Hs Hp. pose proof (sorted_take_lt l p value) as Ht. pose proof (sorted_drop_gt l p value) as Hd.
  replace (list_to_set l) with (list_to_set (take p l ++ value :: drop (S p) l) : gset Z)
    by (by rewrite take_drop_middle).
  rewrite !list_to_set_app_L. cbn.
  apply set_eq. intros x.
  assert (x ∈ take p l -> x <> value) by (intros Hx; specialize (Ht x Hs Hp Hx); lia).
  assert (x ∈ drop (S p) l -> x <> value) by (intros Hx; specialize (Hd x Hs Hp Hx); lia).
  set_solver.
Qed.

Lemma delete_ok s enc l pos value :
  intset_wf s enc l -> 0 <= pos -> l !! Z.to_nat pos = Some value ->
  exists s',
    (len ← intrev32ifbe (ilength s);
     s ← (if pos <? wrapU 32 (len - 1) then intsetMoveTail s (wrapU 32 (pos + 1)) pos else Ok s);
     s ← intsetResize s (wrapU 32 (len - 1));
     n ← intrev32ifbe (wrapU 32 (len - 1));
     Ok (set_ilength n s, true)) = Ok (s', true) /\
    intset_repr s' enc (take (Z.to_nat pos) l ++ drop (S (Z.to_nat pos)) l).
Proof.
  intros [[E El He Hr Hc] _ Hb] Hp Hv. pose proof (enc_ok_pos _ He). zconst.
  pose proof (lookup_lt_Some _ _ _ Hv) as Hlt.
  assert (pos < zlen l) by (unfold zlen; lia).
  rewrite El, bind_Ok. zwrap.
  set (l1 := take (Z.to_nat pos) l). set (l2 := drop (S (Z.to_nat pos)) l).
  assert (l = l1 ++ value :: l2) as Hl by (symmetry; by apply take_drop_middle).
  assert (zlen l1 = pos) as Hl1 by (unfold l1; rewrite zlen_take; lia).
  assert (zlen l2 = zlen l - pos - 1) as Hl2 by (unfold l2, zlen in *; rewrite length_drop; lia).
  assert (exists t, zlen t = enc /\
    (if pos <? zlen l - 1 then intsetMoveTail s (pos + 1) pos else Ok s)
    = Ok (set_contents (ser enc (l1 ++ l2) ++ t) s)) as (t & Ht & ->).
  { rewrite Hl in Hc. rewrite ser_app, ser_cons in Hc.
    destruct (Z.ltb_spec pos (zlen l - 1)).
    - destruct (memmove_down (ser enc l1) (ser enc l2) (le_bytes (Z.to_nat enc) value) (enc * pos))
        as (t & Ht & Hm); [by rewrite zlen_ser, Hl1 by lia|].
      exists t. split; [rewrite Ht; zlens; lia|].
      rewrite ser_app, <- app_assoc. apply (moveTail_ok _ enc (zlen l)); try done; [lia|].
      rewrite Hc, <- Hm. rewrite zlen_ser, Hl2, zlen_le_bytes by lia. f_equal; lia.
    - exists (le_bytes (Z.to_nat enc) value). split; [zlens; lia|].
      assert (l2 = []) as E2 by (apply nil_length_inv; unfold zlen in *; lia).
      rewrite E2, app_nil_r, <- (app_nil_r (le_bytes _ _)), <- (ser_nil enc), <- E2, <- Hc.
      by destruct s. }
  rewrite bind_Ok, (resize_ok _ enc), bind_Ok by (done || (zconst; lia)).
  cbn [contents set_contents].
  destruct (intrev32ifbe_layout (zlen l - 1)) as (n & Hn & _ & _ & En); [lia|].
  rewrite Hn, bind_Ok. eexists; split; [done|].
  assert (zlen (l1 ++ l2) = zlen l - 1) as Hz by (zlens; lia).
  apply repr_intro; try done; [| |by rewrite Hz].
  - rewrite Hl in Hr. apply Forall_app in Hr as [? [? ?]%Forall_cons]. by apply Forall_app.
  - assert (zlen (ser enc (l1 ++ l2)) = (zlen l - 1) * enc) as Hs by (rewrite zlen_ser, Hz; lia).
    rewrite zrealloc_shrink, <- Hs, take_zlen_app; [done|]. zlens. nia.
Qed.

Lemma absent_of_encoding s enc l value :
  intset_repr s enc l -> enc < _intsetValueEncoding value -> value ∉ l.
Proof.
  intros [_ _ He Hr _] Hlt Hin. destruct (valueEncoding_spec value) as (_ & _ & Hout).
  rewrite Forall_forall in Hr. exact (Hout enc He Hlt (Hr _ Hin)).
Qed.

Lemma remove_ok s enc l value :
  intset_wf s enc l ->
  exists s' l', intsetRemove s value = Ok (s', bool_decide (value ∈ l)) /\
    intset_wf s' enc l' /\ list_to_set l' = (list_to_set l : gset Z) ∖ {[value]}.
Proof.
  intros Hwf. pose proof Hwf as [Hrep Hs Hb]. pose proof Hrep as [E El He Hr Hc].
  unfold intsetRemove. rewrite E, bind_Ok.
  destruct (Z.leb_spec (_intsetValueEncoding value) enc).
  - destruct (search_ok s enc l value Hwf) as ([[|] pos] & -> & Hsp); rewrite bind_Ok.
    + destruct Hsp as [Hp Hi]. destruct (delete_ok s enc l pos value) as (s' & -> & Hrep'); [done..|].
      pose proof (list_elem_of_lookup_2 _ _ _ Hi). rewrite bool_decide_eq_true_2 by done.
      pose proof (set_delete_at l _ _ Hs Hi) as Hset.
      eexists _, _. split_and!; [done|constructor; [done| |]|done].
      * pose proof Hs as Hs'. rewrite <- (take_drop_middle l _ _ Hi) in Hs'.
        apply sorted_app in Hs' as (? & [? ?]%StronglySorted_inv & Hlt).
        apply sorted_app. split_and!; [done..|]. intros. apply Hlt; set_solver.
      * pose proof (lookup_lt_Some _ _ _ Hi). zlens. unfold zlen in *.
        rewrite length_take, length_drop. lia.
    + destruct (search_absent l value pos Hs Hsp) as [Hnin _].
      rewrite bool_decide_eq_false_2 by done. eexists _, _. split_and!; [done|done|set_solver].
  - assert (value ∉ l) by (eapply absent_of_encoding; eauto).
    rewrite bool_decide_eq_false_2 by done. eexists _, _. split_and!; [done|done|set_solver].
Qed.

Lemma find_ok s enc l value :
  intset_wf s enc l -> intsetFind s value = Ok (bool_decide (value ∈ l)).
Proof.
  intros Hwf. pose proof Hwf as [Hrep Hs Hb]. pose proof Hrep as [E El He Hr Hc].
  unfold intsetFind. rewrite E, bind_Ok.
  destruct (Z.leb_spec (_intsetValueEncoding value) enc).
  - destruct (search_ok s enc l value Hwf) as ([[|] pos] & -> & Hsp); rewrite bind_Ok.
    + destruct Hsp as [? Hi%list_elem_of_lookup_2]. by rewrite bool_decide_eq_true_2.
    + destruct (search_absent l value pos Hs Hsp) as [? _]. by rewrite bool_decide_eq_false_2.
  - rewrite bool_decide_eq_false_2; [done|]. eapply absent_of_encoding; eauto.
Qed.

Lemma get_ok s enc l pos :
  intset_wf s enc l -> 0 <= pos -> intsetGet s pos = Ok (l !! Z.to_nat pos).
Proof.
  intros [Hrep _ Hb] Hp. pose proof Hrep as [_ El _ _ _]. unfold intsetGet.
  rewrite El, bind_Ok. zconst. destruct (Z.ltb_spec pos (zlen l)).
  - zwrap. destruct (lookup_lt_is_Some_2 l (Z.to_nat pos)) as [v Hv]; [unfold zlen in *; lia|].
    by rewrite (repr_get s enc l pos v), bind_Ok, Hv.
  - rewrite lookup_ge_None_2; [done|]. unfold zlen in *. lia.
Qed.

Lemma blob_layout s enc l :
  intset_repr s enc l -> intset_blob s = le_bytes 4 enc ++ le_bytes 4 (zlen l) ++ ser enc l.
Proof.
  intros [E El _ _ Hc]. unfold intset_blob.
  by rewrite (intrev32ifbe_bytes _ _ E), (intrev32ifbe_bytes _ _ El), Hc.
Qed.

Lemma ser_byte enc l : Forall is_byte (ser enc l).
Proof.
  induction l; [by constructor|]. rewrite ser_cons. apply Forall_app. auto using le_bytes_byte.
Qed.

(** Bytes of the right number are the layout of some members. *)
Lemma ser_surj enc n c :
  enc_ok enc -> Forall is_byte c -> zlen c = Z.of_nat n * enc ->
  exists l, c = ser enc l /\ length l = n /\ Forall (in_enc enc) l.
Proof.
  intros He. pose proof (enc_ok_pos _ He). revert c.
  induction n as [|n IH]; intros c Hb Hl.
  - exists []. split_and!; [|done|done]. apply nil_length_inv. unfold zlen in *. lia.
  - destruct (cut_at c enc) as (a & d & -> & Ha & Hd); [lia|].
    apply Forall_app in Hb as [Hba Hbd].
    destruct (IH d) as (l & -> & Hn & Hr); [done|lia|].
    exists (wrapS (8 * enc) (le_val a) :: l). cbn [length]. split_and!; [|lia|].
    + rewrite ser_cons. f_equal.
      assert (8 * enc = 8 * Z.of_nat (Z.to_nat enc)) as -> by lia.
      rewrite le_bytes_wrapS by lia. replace (Z.to_nat enc) with (length a) by (unfold zlen in *; lia).
      symmetry. by apply le_bytes_val.
    + constructor; [|done]. unfold in_enc. apply wrapS_range. lia.
Qed.

Lemma sorted_cons_cons x y l : sorted (x :: y :: l) <-> x < y /\ sorted (y :: l).
Proof.
  split.
  - intros [? [? ?]%Forall_cons]%StronglySorted_inv. done.
  - intros [Hxy Hs]. constructor; [done|]. constructor; [done|].
    apply StronglySorted_inv in Hs as [_ Hy]. eapply Forall_impl; [exact Hy|]. cbn. lia.
Qed.

Lemma validate_loop_ok s enc l i prev n :
  intset_repr s enc l -> zlen l <= INT32_MAX -> 0 < i -> l !! Z.to_nat (i - 1) = Some prev ->
  i + Z.of_nat n = zlen l ->
  exists b : bool, intsetValidate_loop n s i prev = Ok b /\
    (b = true <-> sorted (prev :: drop (Z.to_nat i) l)).
Proof.
  intros Hrep Hb. revert i prev. induction n as [|n IH]; intros i prev Hi Hp Hn.
  - exists true. split; [done|]. rewrite drop_ge by (unfold zlen in *; lia).
    split; [|done]. by repeat constructor.
  - cbn [intsetValidate_loop]. zconst. zwrap.
    destruct (lookup_lt_is_Some_2 l (Z.to_nat i)) as [cur Hcur]; [unfold zlen in *; lia|].
    rewrite (repr_get s enc l i cur), bind_Ok by (done || lia).
    rewrite (drop_S l cur (Z.to_nat i)) by done.
    destruct (Z.leb_spec cur prev).
    + exists false. split; [done|]. rewrite sorted_cons_cons. split; [done|lia].
    + destruct (IH (i + 1) cur) as (b & -> & Hbs); [lia|by replace (i + 1 - 1) with i by lia|lia|].
      exists b. split; [done|]. rewrite Hbs, sorted_cons_cons. replace (Z.to_nat (i + 1)) with (S (Z.to_nat i)) by lia.
      tauto.
Qed.

(** [p] starts with a header whose fields and size agree. *)
Lemma of_bytes_ok p :
  Forall is_byte p -> sizeof_intset <= zlen p ->
  exists e n c s, p = le_bytes 4 e ++ le_bytes 4 n ++ c /\ 0 <= e < 2 ^ 32 /\ 0 <= n < 2 ^ 32 /\
    Forall is_byte c /\ intset_of_bytes p = Ok s /\ contents s = c /\
    intrev32ifbe (encoding s) = Ok e /\ intrev32ifbe (ilength s) = Ok n.
Proof.
  intros Hb Hl. unfold sizeof_intset in Hl.
  destruct (cut_at p 4) as (a & p' & -> & Ha & Hp'); [lia|].
  destruct (cut_at p' 4) as (b & c & -> & Hb' & Hc); [zlia|].
  apply Forall_app in Hb as [Hba [Hbb Hbc]%Forall_app].
  pose proof Ha as Ha0. pose proof Hb' as Hb0. unfold zlen in Ha, Hb'.
  pose proof (le_val_range a Hba) as Ra. pose proof (le_val_range b Hbb) as Rb.
  unfold zlen in Ra, Rb. rewrite Ha in Ra. rewrite Hb' in Rb.
  pose proof (le_bytes_val a Hba) as Ea. pose proof (le_bytes_val b Hbb) as Eb.
  replace (length a) with 4%nat in Ea by lia. replace (length b) with 4%nat in Eb by lia.
  unfold intset_of_bytes. rewrite rd_app_head by done. rewrite bind_Ok.
  rewrite (rd_app a b c 4 4) by done. rewrite bind_Ok.
  rewrite (app_assoc a b c), (rd_app_tail (a ++ b) c 8 _) by (zlens; lia). rewrite bind_Ok, <- app_assoc.
  exists (le_val a), (le_val b), c. eexists. rewrite Ea, Eb.
  split_and!; try done; try lia; cbn; apply intrev32ifbe_val; try done; lia.
Qed.

Lemma new_ok : exists s, intsetNew = Ok s /\ intset_wf s INTSET_ENC_INT16 [].
Proof.
  unfold intsetNew.
  destruct (intrev32ifbe_layout INTSET_ENC_INT16) as (e & -> & _ & _ & Ee); [done|].
  eexists; split; [done|]. constructor; [constructor; try done|constructor|done].
  - cbn. unfold intrev32ifbe, intrev32, host_bytes, host_val. by destruct big_endian.
  - by left.
Qed.

Lemma remove_zlen l l' :
  sorted l -> sorted l' -> list_to_set l' ⊆ (list_to_set l : gset Z) -> zlen l' <= zlen l.
Proof.
  intros Hs%sorted_NoDup Hs'%sorted_NoDup Hsub. unfold zlen.
  rewrite <- (size_list_to_set (C:=gset Z) l), <- (size_list_to_set (C:=gset Z) l') by done.
  apply inj_le, subseteq_size, Hsub.
Qed.

Lemma sorted_size l : sorted l -> Z.of_nat (size (list_to_set l : gset Z)) = zlen l.
Proof. intros Hs%sorted_NoDup. by rewrite size_list_to_set. Qed.

Lemma run_ops_ok os : forall s enc l,
  intset_wf s enc l -> stays_small (list_to_set l) os ->
  Forall (fun o => in_enc INTSET_ENC_INT64 (iop_value o)) os ->
  exists s' l', run_ops s os = Ok (s', (spec_ops (list_to_set l, enc) os).2) /\
    intset_wf s' (spec_ops (list_to_set l, enc) os).1.2 l' /\
    list_to_set l' = (spec_ops (list_to_set l, enc) os).1.1.
Proof.
  induction os as [|o os IH]; intros s enc l Hwf Hb Hv.
  - exists s, l. done.
  - apply Forall_cons in Hv as [Hv Hvs].
    assert (exists s' l', run_op s o = Ok (s', (spec_op (list_to_set l, enc) o).2) /\
      intset_wf s' (spec_op (list_to_set l, enc) o).1.2 l' /\
      list_to_set l' = (spec_op (list_to_set l, enc) o).1.1 /\ stays_small (list_to_set l') os)
      as (s1 & l1 & E & Hwf1 & Hset & Hb1).
    { destruct o as [v|v]; cbn in *.
      - destruct Hb as [Hb1 Hb]. rewrite sorted_size in Hb1 by apply Hwf. destruct (add_ok s enc l v Hwf) as (s1 & l1 & E & ? & Hset & ?); [lia|done|].
        exists s1, l1. rewrite E. split_and!; [|done|done|by rewrite Hset].
        do 2 f_equal. apply bool_decide_ext. set_solver.
      - destruct (remove_ok s enc l v Hwf) as (s1 & l1 & E & Hw & Hset).
        exists s1, l1. rewrite E. split_and!; [|done|done|by rewrite Hset].
        do 2 f_equal. apply bool_decide_ext. set_solver. }
    cbn [run_ops spec_ops]. rewrite E, bind_Ok.
    destruct (spec_op (list_to_set l, enc) o) as [[X1 enc1] b]; cbn in *. subst X1.
    destruct (IH s1 enc1 l1 Hwf1) as (s2 & l2 & -> & Hwf2 & Hset2); [done..|].
    rewrite bind_Ok. exists s2, l2.
    destruct (spec_ops (list_to_set l1, enc1) os) as [[X2 enc2] bs]; done.
Qed.

(** Increasing lists with the same members are equal. *)
Lemma sorted_unique l l' :
  sorted l -> sorted l' -> list_to_set l = (list_to_set l' : gset Z) -> l = l'.
Proof.
  revert l'. induction l as [|x l IH]; intros [|y l'] Hs Hs' E; [done|set_solver..|].
  apply StronglySorted_inv in Hs as [Hs Hx]. apply StronglySorted_inv in Hs' as [Hs' Hy].
  rewrite Forall_forall in Hx, Hy.
  assert (x ∈ y :: l') as Hxy by (assert (x ∈ (list_to_set (x :: l) : gset Z)); set_solver).
  assert (y ∈ x :: l) as Hyx by (assert (y ∈ (list_to_set (y :: l') : gset Z)); set_solver).
  assert (x = y) as ->.
  { apply elem_of_cons in Hxy as [|Hxy]; [done|]. apply elem_of_cons in Hyx as [|Hyx]; [done|].
    specialize (Hy _ Hxy). specialize (Hx _ Hyx). lia. }
  f_equal. apply IH; [done..|].
  assert (y ∉ l) by (intros Hin; specialize (Hx _ Hin); lia).
  assert (y ∉ l') by (intros Hin; specialize (Hy _ Hin); lia).
  apply set_eq. intros z. rewrite set_eq in E. specialize (E z).
  destruct (decide (z = y)); set_solver.
Qed.

Lemma repr_unique s enc l l' : intset_repr s enc l -> intset_repr s enc l' -> l = l'.
Proof.
  intros H1 H2. apply list_eq_same_length with (length l); [|done|].
  { destruct H1 as [_ E1 _ _ _], H2 as [_ E2 _ _ _]. rewrite E1 in E2. injection E2. unfold zlen. lia. }
  intros i x y _ Hx Hy. rewrite <- (Nat2Z.id i) in Hx, Hy.
  assert (Ok x = Ok y) as [= ?]; [|done].
  rewrite <- (repr_get s enc l (Z.of_nat i) x), <- (repr_get s enc l' (Z.of_nat i) y); done || lia.
Qed.

Lemma of_bytes_short p s : intset_of_bytes p = Ok s -> sizeof_intset <= zlen p.
Proof.
  unfold intset_of_bytes, sizeof_intset. intros (? & _ & (? & _ & (c & Hr & _)%bind_Ok_inv)%bind_Ok_inv)%bind_Ok_inv.
  apply rd_inv in Hr as (a & d & -> & ? & ?). zlia.
Qed.

(** The header checks accept exactly the payloads that represent some members. *)
Lemma validate_header p deep :
  Forall is_byte p -> zlen p <= UINT32_MAX ->
  (exists s e l, intset_of_bytes p = Ok s /\ intset_repr s e l /\ l <> [] /\ zlen l <= INT32_MAX /\
     intsetValidateIntegrity p (zlen p) deep =
       if deep then prev ← _intsetGet s 0; intsetValidate_loop (Z.to_nat (zlen l - 1)) s 1 prev
       else Ok true) \/
  (intsetValidateIntegrity p (zlen p) deep = Ok false /\
   forall s e l, intset_of_bytes p = Ok s -> intset_repr s e l -> l = []).
Proof.
  intros Hb Hz. unfold intsetValidateIntegrity.
  destruct (Z.ltb_spec (zlen p) sizeof_intset) as [Hs|Hs].
  { right. split; [done|]. intros s e l Ho%of_bytes_short. lia. }
  destruct (of_bytes_ok p Hb Hs) as (e & n & c & s & Hp & He & Hn & Hc & Ho & Hco & E & El).
  assert (zlen c = zlen p - 8) as Hzc by (rewrite Hp; zlens; lia).
  rewrite Ho, bind_Ok, E, bind_Ok.
  assert (forall s' enc l, Ok s = Ok s' -> intset_repr s' enc l ->
    enc = e /\ zlen l = n /\ zlen c = enc * zlen l) as Hinv.
  { intros s' enc l [= <-] [E1 E2 E3 _ E4]. pose proof (enc_ok_pos _ E3).
    split_and!; [congruence|congruence|]. rewrite <- Hco, E4, zlen_ser by lia. done. }
  destruct (negb _) eqn:Henc.
  { right. split; [done|]. intros s' enc l E' Hrep. destruct (Hinv _ _ _ E' Hrep) as (-> & _).
    destruct Hrep as [_ _ [->|[->| ->]] _ _]; done. }
  assert (enc_ok e) as Hok by (apply negb_false_iff in Henc; unfold enc_ok; lia).
  pose proof (enc_ok_pos _ Hok). rewrite El, bind_Ok. unfold sizeof_intset in *. zconst.
  assert (0 <= n * e < 2 ^ 35) by nia. zwrap.
  destruct (Z.eqb_spec (8 + n * e) (zlen p)); cbn [negb]; last first.
  { right. split; [done|]. intros s' enc l E' Hrep. destruct (Hinv _ _ _ E' Hrep) as (-> & ? & ?). lia. }
  destruct (Z.eqb_spec n 0).
  { right. split; [done|]. intros s' enc l E' Hrep. destruct (Hinv _ _ _ E' Hrep) as (_ & Hz' & _).
    apply nil_length_inv. unfold zlen in Hz'. lia. }
  left. destruct (ser_surj e (Z.to_nat n) c Hok Hc) as (l & Hcl & Hll & Hr); [lia|].
  assert (zlen l = n) as Hzl by (unfold zlen; lia).
  exists s, e, l. rewrite Hzl. split_and!; [done|constructor; congruence || done| |nia|by destruct deep].
  intros ->. rewrite zlen_nil in Hzl. lia.
Qed.

End proofs.

(** * Properties *)

(** C11: refinement.  Driven by any sequence of insertions and removals of 64-bit
    integers from an empty intset, as long as the set holds fewer than about 2^29
    members ([stays_small]), the code never faults, asserts or loops, gives
    the same success flags as a mathematical set, and ends in a well-formed intset
    whose members are those of the set, at the width of the widest value added.
    With more members the 32-bit byte count of [intsetMoveTail] wraps
    ([intsetMoveTail_overflow]). *)
Theorem intset_refines_set `{Host} os :
  stays_small ∅ os ->
  Forall (fun o => in_enc INTSET_ENC_INT64 (iop_value o)) os ->
  exists s l,
    (s0 ← intsetNew; run_ops s0 os) = Ok (s, (spec_ops (∅, INTSET_ENC_INT16) os).2) /\
    intset_wf s (spec_ops (∅, INTSET_ENC_INT16) os).1.2 l /\
    list_to_set l = (spec_ops (∅, INTSET_ENC_INT16) os).1.1.
Proof.
  intros Hb Hv. destruct new_ok as (s0 & -> & Hwf). rewrite bind_Ok.
  destruct (run_ops_ok os s0 _ _ Hwf) as (s & l & E & Hw & Hl); [done..|].
  exists s, l. done.
Qed.

Lemma intset_refines_set_witness :
  let os := [IAdd 5; IAdd 100000; IRemove 5; IAdd (-3)] in
  exists s l,
    (s0 ← @intsetNew big_host; @run_ops big_host s0 os) = Ok (s, [true; true; true; true]) /\
    @intset_wf big_host s 4 l /\ list_to_set l = ({[-3]} ∪ (({[100000]} ∪ ({[5]} ∪ ∅)) ∖ {[5]}) : gset Z).
Proof.
  apply (@intset_refines_set big_host [IAdd 5; IAdd 100000; IRemove 5; IAdd (-3)]).
  - vm_compute. split_and!; try done.
  - forall_list; unfold in_enc, INTSET_ENC_INT64; cbn; lia.
Defined.

(** the bytes of an intset do not depend on the host.  Whatever sequence of
    operations builds it, a little-endian and a big-endian host (whatever their
    uninitialised memory holds) end with the same bytes in memory. *)
Theorem intset_blob_host_independent os :
  stays_small ∅ os ->
  Forall (fun o => in_enc INTSET_ENC_INT64 (iop_value o)) os ->
  exists blob bs, forall h : Host, exists s,
    (s0 ← @intsetNew h; @run_ops h s0 os) = Ok (s, bs) /\ @intset_blob h s = blob.
Proof.
  intros Hb Hv.
  assert (forall h : Host, exists s l,
    (s0 ← @intsetNew h; @run_ops h s0 os) = Ok (s, (spec_ops (∅, INTSET_ENC_INT16) os).2) /\
    @intset_wf h s (spec_ops (∅, INTSET_ENC_INT16) os).1.2 l /\
    list_to_set l = (spec_ops (∅, INTSET_ENC_INT16) os).1.1) as Hall.
  { intros h. destruct (@new_ok h) as (s0 & -> & Hwf). rewrite bind_Ok.
    destruct (@run_ops_ok h os s0 _ _ Hwf) as (s & l & E & Hw & Hl); [done..|]. by exists s, l. }
  destruct (Hall little_host) as (s1 & l1 & _ & Hw1 & Hl1).
  eexists (@intset_blob little_host s1), _. intros h.
  destruct (Hall h) as (s & l & E & Hw & Hl). exists s. split; [done|].
  erewrite (@blob_layout little_host), (@blob_layout h) by (eapply wf_repr; done).
  replace l with l1; [done|]. apply sorted_unique; [by destruct Hw1|by destruct Hw|congruence].
Qed.

Lemma intset_blob_host_independent_witness :
  exists blob bs, forall h : Host, exists s,
    (s0 ← @intsetNew h; @run_ops h s0 [IAdd 70000; IAdd (-1)]) = Ok (s, bs) /\
    @intset_blob h s = blob.
Proof.
  apply (intset_blob_host_independent [IAdd 70000; IAdd (-1)]).
  - vm_compute. split_and!; try done.
  - forall_list; unfold in_enc, INTSET_ENC_INT64; cbn; lia.
Defined.

(** [intsetAdd] on a well-formed set with room left inserts the value, says
    whether it was new, keeps the members increasing and widens the encoding
    exactly to the larger of the two widths (in place, when it has to). *)
Theorem intsetAdd_correct `{Host} s enc l value :
  intset_wf s enc l -> 8 * (zlen l + 1) <= UINT32_MAX -> in_enc INTSET_ENC_INT64 value ->
  exists s' l', intsetAdd s value = Ok (s', bool_decide (value ∉ l)) /\
    intset_wf s' (Z.max enc (_intsetValueEncoding value)) l' /\
    list_to_set l' = {[value]} ∪ (list_to_set l : gset Z) /\
    zlen l' = zlen l + (if bool_decide (value ∉ l) then 1 else 0).
Proof. apply add_ok. Qed.

(** The two-element set [{3, 7}] at 16 bits on a big-endian host. *)
Definition sample_intset : intset := mk_intset (2 * 2 ^ 24) (2 * 2 ^ 24) [3; 0; 7; 0].

Lemma sample_intset_wf : @intset_wf big_host sample_intset 2 [3; 7].
Proof.
  constructor; [constructor|..]; try reflexivity.
  - by left.
  - forall_list; unfold in_enc, INTSET_ENC_INT64; cbn; lia.
  - repeat constructor.
  - done.
Defined.

Lemma intsetAdd_correct_witness :
  exists s' l', @intsetAdd big_host sample_intset (-40000) = Ok (s', true) /\
    @intset_wf big_host s' 4 l' /\ list_to_set l' = ({[-40000]} ∪ list_to_set [3; 7] : gset Z) /\
    zlen l' = 3.
Proof.
  apply (@intsetAdd_correct big_host sample_intset 2 [3; 7] (-40000)).
  - exact sample_intset_wf.
  - done.
  - unfold in_enc, INTSET_ENC_INT64; cbn; lia.
Defined.

(** [intsetRemove] removes exactly the value, says whether it was there, and
    keeps the set well formed at the same width. *)
Theorem intsetRemove_correct `{Host} s enc l value :
  intset_wf s enc l ->
  exists s' l', intsetRemove s value = Ok (s', bool_decide (value ∈ l)) /\
    intset_wf s' enc l' /\ list_to_set l' = (list_to_set l : gset Z) ∖ {[value]}.
Proof. apply remove_ok. Qed.

Lemma intsetRemove_correct_witness :
  exists s' l', @intsetRemove big_host sample_intset 3 = Ok (s', true) /\
    @intset_wf big_host s' 2 l' /\ list_to_set l' = (list_to_set [3; 7] ∖ {[3]} : gset Z).
Proof. apply (@intsetRemove_correct big_host sample_intset 2 [3; 7] 3). exact sample_intset_wf. Defined.

(** queries.  [intsetFind] decides membership by binary search,
    [intsetGet] returns the member at a position and nothing beyond the end,
    and [intsetRandom] returns a member of a set that is not empty and asserts
    on an empty one. *)
Theorem intset_queries_correct `{Host} s enc l :
  intset_wf s enc l ->
  (forall value, intsetFind s value = Ok (bool_decide (value ∈ l))) /\
  (forall pos, 0 <= pos -> intsetGet s pos = Ok (l !! Z.to_nat pos)) /\
  (forall r, l <> [] -> exists v, intsetRandom s r = Ok v /\ v ∈ l) /\
  (forall r, l = [] -> intsetRandom s r = Panic) /\
  intsetLen s = Ok (zlen l) /\ intsetBlobLen s = Ok (zlen (intset_blob s)).
Proof.
  intros Hwf. pose proof Hwf as [Hrep Hs Hb]. pose proof Hrep as [E El He Hr Hc].
  pose proof (enc_ok_pos _ He). zpos. zconst. split_and!.
  - intros. by eapply find_ok.
  - intros. by eapply get_ok.
  - intros r Hne. unfold intsetRandom. rewrite El, bind_Ok.
    assert (0 < zlen l) by (destruct l; [done|zlia]). zfalse (zlen l =? 0). cbn [negb].
    pose proof (Z.mod_pos_bound (wrapU 32 r) (zlen l)). zwrap.
    set (i := wrapU 32 r mod zlen l) in *.
    destruct (lookup_lt_is_Some_2 l (Z.to_nat i)) as [v Hv]; [unfold zlen in *; lia|].
    exists v. split; [eapply repr_get; [done|lia|done]|by eapply list_elem_of_lookup_2].
  - intros r ->. unfold intsetRandom. by rewrite El.
  - done.
  - unfold intsetBlobLen. rewrite El, bind_Ok, E, bind_Ok. unfold sizeof_intset.
    assert (0 <= zlen l * enc < 2 ^ 35) by nia. zwrap.
    rewrite (blob_layout s enc l) by done. zlens. rewrite zlen_ser by lia. f_equal. lia.
Qed.

Lemma intset_queries_correct_witness :
  @intsetFind big_host sample_intset 7 = Ok true /\ @intsetFind big_host sample_intset 4 = Ok false.
Proof.
  destruct (@intset_queries_correct big_host sample_intset 2 [3; 7]) as (F & _).
  - exact sample_intset_wf.
  - split; [exact (F 7)|exact (F 4)].
Defined.

(** [intsetValidateIntegrity] is total on any payload of less than 4 GB (it
    never reads outside it) and accepts exactly the payloads that hold a
    non-empty set whose header and size agree and, for the deep check, whose
    members are strictly increasing. *)
Theorem intsetValidateIntegrity_correct `{Host} p deep :
  Forall is_byte p -> zlen p <= UINT32_MAX ->
  exists b, intsetValidateIntegrity p (zlen p) deep = Ok b /\
    (b = true <-> exists s enc l, intset_of_bytes p = Ok s /\ intset_repr s enc l /\ l <> [] /\
                    (deep = true -> sorted l)).
Proof.
  intros Hb Hz. destruct (validate_header p deep Hb Hz) as
    [(s & e & l & Ho & Hrep & Hne & Hzl & ->)|[-> Hno]]; last first.
  { exists false. split; [done|]. split; [done|]. intros (s & e & l & Ho & Hrep & Hl & _).
    by destruct Hl; eapply Hno. }
  destruct deep; [|exists true; split; [done|]; split; [|done]; intros _; by exists s, e, l].
  destruct l as [|x l]; [done|]. rewrite (repr_get s e (x :: l) 0 x), bind_Ok by done.
  destruct (validate_loop_ok s e (x :: l) 1 x (Z.to_nat (zlen (x :: l) - 1)))
    as (b & -> & Hbs); try done; [zlia|]. change (drop (Z.to_nat 1) (x :: l)) with l in Hbs.
  exists b. split; [done|]. rewrite Hbs. split.
  - intros Hs. exists s, e, (x :: l). done.
  - intros (s' & e' & l' & Ho' & Hrep' & _ & Hs'). rewrite Ho in Ho'. injection Ho' as <-.
    assert (e' = e) as -> by (destruct Hrep, Hrep'; congruence).
    rewrite (repr_unique s e (x :: l) l' Hrep Hrep'). auto.
Qed.

Lemma intsetValidateIntegrity_correct_witness :
  exists b, @intsetValidateIntegrity little_host [2;0;0;0; 2;0;0;0; 7;0; 3;0] 12 true = Ok b /\
    (b = true <-> exists s enc l,
       @intset_of_bytes little_host [2;0;0;0; 2;0;0;0; 7;0; 3;0] = Ok s /\
       @intset_repr little_host s enc l /\ l <> [] /\ (true = true -> sorted l)).
Proof.
  apply (@intsetValidateIntegrity_correct little_host [2;0;0;0; 2;0;0;0; 7;0; 3;0] true).
  - forall_list; unfold is_byte; lia.
  - done.
Defined.

(** the byte count of [intsetMoveTail] is computed at 32 bits.  With [2^29]
    64-bit members behind the insertion point it wraps to zero and nothing is
    moved, so the bound of the invariant is needed. *)
Theorem intsetMoveTail_overflow `{Host} s len from to :
  intrev32ifbe (encoding s) = Ok INTSET_ENC_INT64 -> intrev32ifbe (ilength s) = Ok len ->
  zlen (contents s) = 8 * len -> 0 <= from -> len - from = 2 ^ 29 -> 0 <= to <= len ->
  intsetMoveTail s from to = Ok s.
Proof.
  intros E El Hz Hf Hd Ht. unfold intsetMoveTail. rewrite El, bind_Ok, E, bind_Ok.
  unfold INTSET_ENC_INT64. cbn [Z.eqb Pos.eqb]. rewrite Hd.
  change (wrapU 32 (wrapU 32 (2 ^ 29) * 8)) with 0. unfold memmove.
  destruct (cut_at (contents s) (8 * from)) as (a & b & Hc & Ha & Hb); [lia|].
  rewrite Hc at 1. rewrite (rd_app a [] b) by done. rewrite bind_Ok.
  destruct (cut_at (contents s) (8 * to)) as (c & d & Hc' & Hc1 & Hd1); [lia|].
  rewrite Hc' at 1. rewrite (wr_app c [] [] d) by done. rewrite bind_Ok. cbn [app].
  rewrite <- Hc'. by destruct s.
Qed.

Lemma intsetMoveTail_overflow_witness :
  let s := mk_intset 8 (2 ^ 29) (replicate (Z.to_nat (2 ^ 32)) 0) in
  @intsetMoveTail little_host s 0 1 = Ok s.
Proof.
  intros s. apply (@intsetMoveTail_overflow little_host s (2 ^ 29) 0 1).
  - reflexivity.
  - reflexivity.
  - unfold s. cbn [contents]. rewrite zlen_replicate, Z2Nat.id by lia. reflexivity.
  - lia.
  - reflexivity.
  - lia.
Defined.
