(* ===== verification/Util.v ===== *)
(** Number and buffer helpers of [util.c]: decimal printing and parsing of 64-bit
    integers, memory-size parsing, and the byte-set helpers.

    Strings are buffers of [char] values; a pointer into one is the buffer and
    an offset.  The reference for the conversions is [ll_repr], the canonical
    decimal notation of an integer. *)
From S2P Require Import Prelude.
From stdpp Require Import strings.
Open Scope Z_scope.

(** * Definitions *)

(** Characters of a C string literal, without its terminator. *)
Definition chars (s : String.string) : list Z :=
  (fun a => Z.of_nat (Ascii.nat_of_ascii a)) <$> String.list_ascii_of_string s.

Definition LONG_STR_SIZE : Z := 21.

(** The recursive call is on a value below [2^64 / 10^12 < 10^12], so two levels
    are enough. *)
Fixpoint digits10_fuel (fuel : nat) (v : Z) : res Z :=
  match fuel with
  | O => OutOfFuel
  | S fuel =>
      if v <? 10 then Ok 1
      else if v <? 100 then Ok 2
      else if v <? 1000 then Ok 3
      else if v <? 1000000000000 then
        if v <? 100000000 then
          if v <? 1000000 then
            if v <? 10000 then Ok 4
            else Ok (5 + (if v >=? 100000 then 1 else 0))
          else Ok (7 + (if v >=? 10000000 then 1 else 0))
        else if v <? 10000000000 then Ok (9 + (if v >=? 1000000000 then 1 else 0))
        else Ok (11 + (if v >=? 100000000000 then 1 else 0))
      else
        d ← digits10_fuel fuel (v / 1000000000000);
        Ok (wrapU 32 (12 + d))
  end.

Definition digits10 (v : Z) : res Z := digits10_fuel 2 v.

Definition sdigits10 (v : Z) : res Z :=
  if v <? 0 then
    let uv := if negb (v =? INT64_MIN) then wrapU 64 (- v) else wrapU 64 (INT64_MAX + 1) in
    d ← digits10 uv;
    Ok (wrapU 32 (d + 1))
  else digits10 v.

Definition digits : list Z :=
  chars "0001020304050607080910111213141516171819"%string ++
  chars "2021222324252627282930313233343536373839"%string ++
  chars "4041424344454647484950515253545556575859"%string ++
  chars "6061626364656667686970717273747576777879"%string ++
  chars "8081828384858687888990919293949596979899"%string ++ [0].

(** The loop of [ull2string]: two digits per turn; the result is the buffer,
    the value left and [next].  [off] is where [dst] points in the buffer. *)
Fixpoint ull2string_loop (fuel : nat) (dst : list Z) (off value next : Z)
  : res (list Z * Z * Z) :=
  match fuel with
  | O => OutOfFuel
  | S fuel =>
      if value >=? 100 then
        let i := wrapS 32 (value mod 100 * 2) in
        let value := value / 100 in
        d1 ← rd1 digits (i + 1);
        dst ← wr dst (off + next) [d1];
        d0 ← rd1 digits i;
        dst ← wr dst (off + wrapU 32 (next - 1)) [d0];
        ull2string_loop fuel dst off value (wrapU 32 (next - 2))
      else Ok (dst, value, next)
  end.

(** The written buffer and the returned length. *)
Definition ull2string (dst : list Z) (off dstlen value : Z) : res (list Z * Z) :=
  length ← digits10 value;
  if length >=? dstlen then Ok (dst, 0)
  else
    let next := wrapU 32 (length - 1) in
    dst ← wr dst (off + wrapU 32 (next + 1)) [0];
    '(dst, value, next) ← ull2string_loop 11 dst off value next;
    dst ← (if value <? 10 then wr dst (off + next) [48 + wrapU 32 value]
           else
             let i := wrapS 32 (wrapU 32 (wrapU 32 value * 2)) in
             d1 ← rd1 digits (i + 1);
             dst ← wr dst (off + next) [d1];
             d0 ← rd1 digits i;
             wr dst (off + wrapU 32 (next - 1)) [d0]);
    Ok (dst, wrapS 32 length).

Definition ll2string (dst : list Z) (dstlen svalue : Z) : res (list Z * Z) :=
  if svalue <? 0 then
    let value := if negb (svalue =? INT64_MIN) then wrapU 64 (- svalue)
                 else wrapU 64 (INT64_MAX + 1) in
    if dstlen <? 2 then Ok (dst, 0)
    else
      dst ← wr dst 0 [45];
      '(dst, length) ← ull2string dst 1 (dstlen - 1) value;
      if length =? 0 then Ok (dst, 0) else Ok (dst, length + 1)
  else
    '(dst, length) ← ull2string dst 0 dstlen svalue;
    if length =? 0 then Ok (dst, 0) else Ok (dst, length + 0).

(** The digit loop of [string2ll]: [None] is the overflow return, [Some] the
    value and [plen] when the loop stops. *)
Fixpoint string2ll_loop (fuel : nat) (s : list Z) (slen plen v : Z) : res (option (Z * Z)) :=
  match fuel with
  | O => OutOfFuel
  | S fuel =>
      if plen <? slen then
        c ← rd1 s plen;
        if (c >=? 48) && (c <=? 57) then
          if v >? UINT64_MAX / 10 then Ok None
          else
            let v := wrapU 64 (v * 10) in
            if v >? UINT64_MAX - (c - 48) then Ok None
            else string2ll_loop fuel s slen (plen + 1) (wrapU 64 (v + (c - 48)))
        else Ok (Some (v, plen))
      else Ok (Some (v, plen))
  end.

(** From the first digit on. *)
Definition string2ll_digits (s : list Z) (slen plen : Z) (negative : bool) : res (option Z) :=
  c ← rd1 s plen;
  if (c >=? 49) && (c <=? 57) then
    r ← string2ll_loop (S (Z.to_nat slen)) s slen (plen + 1) (c - 48);
    match r with
    | None => Ok None
    | Some (v, plen) =>
        if plen <? slen then Ok None
        else if negative then
          if v >? wrapU 64 (- (INT64_MIN + 1)) + 1 then Ok None
          else Ok (Some (wrapS 64 (wrapU 64 (- v))))
        else if v >? INT64_MAX then Ok None
        else Ok (Some v)
    end
  else Ok None.

(** [Some v] when the C function stores [v] and returns 1. *)
Definition string2ll (s : list Z) (slen : Z) : res (option Z) :=
  if (0 =? slen) || (slen >=? LONG_STR_SIZE) then Ok None
  else
    c ← rd1 s 0;
    if (slen =? 1) && (c =? 48) then Ok (Some 0)
    else if c =? 45 then
      if 1 =? slen then Ok None
      else string2ll_digits s slen 1 true
    else string2ll_digits s slen 0 false.

Definition string2l (s : list Z) (slen : Z) : res (option Z) :=
  r ← string2ll s slen;
  match r with
  | None => Ok None
  | Some llval =>
      if (llval <? INT64_MIN) || (llval >? INT64_MAX) then Ok None
      else Ok (Some llval)
  end.

(** * Specification *)

(** Decimal notation of [0 <= v < 10^fuel], most significant digit first. *)
Fixpoint dec_fuel (fuel : nat) (v : Z) : list Z :=
  match fuel with
  | O => []
  | S fuel => if v <? 10 then [48 + v] else dec_fuel fuel (v / 10) ++ [48 + v mod 10]
  end.

(** 20 digits are enough for 64 bits. *)
Definition udec (v : Z) : list Z := dec_fuel 20 v.

Arguments udec : simpl never.

(** The canonical notation: no sign for zero, no leading zeros. *)
Definition ll_repr (v : Z) : list Z := if v <? 0 then 45 :: udec (- v) else udec v.

Definition is_digit (c : Z) : Prop := 48 <= c <= 57.

(** The value of a string of digits read after the value [v]. *)
Definition dval (v : Z) (ds : list Z) : Z := foldl (fun v c => v * 10 + (c - 48)) v ds.

(** * Lemmas *)

Lemma dec_fuel_S n v :
  0 <= v < 10 ^ Z.of_nat (S n) -> dec_fuel (S (S n)) v = dec_fuel (S n) v.
Proof.
  revert v. induction n as [|n IH]; intros v Hv.
  - cbn in *. by ztrue (v <? 10).
  - change (dec_fuel (S (S (S n))) v) with
      (if v <? 10 then [48 + v] else dec_fuel (S (S n)) (v / 10) ++ [48 + v mod 10]).
    rewrite IH; [done|]. rewrite Nat2Z.inj_succ, Z.pow_succ_r in Hv by lia.
    split; [zdiv|]. apply Z.div_lt_upper_bound; lia.
Qed.

Lemma udec_small v : 0 <= v < 10 -> udec v = [48 + v].
Proof. intros. unfold udec. cbn. by ztrue (v <? 10). Qed.

Lemma udec_step v d :
  1 <= v -> 0 <= d < 10 -> v * 10 + d < 10 ^ 20 -> udec (v * 10 + d) = udec v ++ [48 + d].
Proof.
  intros Hv Hd Hb. unfold udec at 1.
  change (dec_fuel 20 (v * 10 + d)) with
    (if v * 10 + d <? 10 then [48 + (v * 10 + d)]
     else dec_fuel 19 ((v * 10 + d) / 10) ++ [48 + (v * 10 + d) mod 10]).
  zfalse (v * 10 + d <? 10).
  replace ((v * 10 + d) / 10) with v by zdiv.
  replace ((v * 10 + d) mod 10) with d by zdiv.
  unfold udec. rewrite (dec_fuel_S 18 v); [done|].
  change (Z.of_nat 19) with 19. change (10 ^ 20) with (10 * 10 ^ 19) in Hb. lia.
Qed.

Lemma udec_unfold v : 10 <= v < 10 ^ 20 -> udec v = udec (v / 10) ++ [48 + v mod 10].
Proof.
  intros. rewrite <- udec_step by zdiv. f_equal. zdiv.
Qed.

(** The number of digits is determined by the surrounding powers of ten. *)
Lemma udec_length k v :
  (k < 20)%nat -> 10 ^ Z.of_nat k <= v < 10 ^ Z.of_nat (S k) -> length (udec v) = S k.
Proof.
  revert v. induction k as [|k IH]; intros v Hk Hv.
  - cbn in Hv. by rewrite udec_small by lia.
  - rewrite (Nat2Z.inj_succ (S k)), (Z.pow_succ_r _ (Z.of_nat (S k))) in Hv by lia.
    pose proof Hv as [Hlo Hhi]. rewrite Nat2Z.inj_succ, Z.pow_succ_r in Hlo by lia.
    assert (0 < 10 ^ Z.of_nat k) by (apply Z.pow_pos_nonneg; lia).
    assert (10 ^ Z.of_nat (S k) <= 10 ^ 19) by (apply Z.pow_le_mono_r; lia).
    rewrite udec_unfold by lia. rewrite length_app, IH; [cbn; lia|lia|].
    split; [apply Z.div_le_lower_bound|apply Z.div_lt_upper_bound]; lia.
Qed.

Lemma udec_length_0 : length (udec 0) = 1%nat.
Proof. done. Qed.

Lemma udec_pos v : 0 <= v < 10 ^ 20 -> 0 < zlen (udec v).
Proof.
  intros. destruct (decide (v < 10)).
  - rewrite udec_small by lia. done.
  - rewrite udec_unfold by lia. zlia.
Qed.

Ltac digit_range :=
  eexists; split; [reflexivity|];
  match goal with
  | |- zlen (udec ?v) = ?k =>
      let n := eval cbv in (Z.to_nat (k - 1)) in
      unfold zlen; rewrite (udec_length n v) by (cbn; lia); reflexivity
  end.

Lemma digits10_small fuel v :
  0 <= v < 10 ^ 12 -> exists d, digits10_fuel (S fuel) v = Ok d /\ zlen (udec v) = d.
Proof.
  intros Hv. cbn [digits10_fuel]. rewrite ?Z.geb_leb.
  destruct (decide (v = 0)) as [->|]; [by eexists|].
  repeat match goal with
  | |- context [v <? ?c] => destruct (Z.ltb_spec v c); try lia
  | |- context [?c <=? v] => destruct (Z.leb_spec c v); try lia
  end; digit_range.
Qed.

Lemma zlen_udec_shift v : 10 ^ 12 <= v < 10 ^ 20 -> zlen (udec v) = 12 + zlen (udec (v / 10 ^ 12)).
Proof.
  intros Hv.
  assert (forall k : nat, (k <= 12)%nat ->
    zlen (udec v) = Z.of_nat k + zlen (udec (v / 10 ^ Z.of_nat k))) as Hk; [|by apply (Hk 12%nat)].
  induction k as [|k IH]; intros Hk.
  - cbn. by rewrite Z.div_1_r.
  - rewrite IH by lia.
    assert (10 <= v / 10 ^ Z.of_nat k < 10 ^ 20) as Hr.
    { assert (0 < 10 ^ Z.of_nat k) by (apply Z.pow_pos_nonneg; lia). split.
      - apply Z.div_le_lower_bound; [done|].
        assert (10 ^ Z.of_nat (S k) <= 10 ^ 12) as Hp by (apply Z.pow_le_mono_r; lia).
        rewrite Nat2Z.inj_succ, Z.pow_succ_r in Hp by lia. lia.
      - apply Z.div_lt_upper_bound; [done|]. nia. }
    rewrite (udec_unfold _ Hr), Z.div_div, Nat2Z.inj_succ, Z.pow_succ_r by (try apply Z.pow_nonzero; lia).
    rewrite (Z.mul_comm 10). zlens. lia.
Qed.

Lemma digits10_large fuel v : 10 ^ 12 <= v ->
  digits10_fuel (S fuel) v = (d ← digits10_fuel fuel (v / 10 ^ 12); Ok (wrapU 32 (12 + d))).
Proof.
  intros Hv. cbn [digits10_fuel]. change (10 ^ 12) with 1000000000000 in *.
  zfalse (v <? 10). zfalse (v <? 100). zfalse (v <? 1000). by zfalse (v <? 1000000000000).
Qed.

Lemma dec_fuel_le n v : (length (dec_fuel n v) <= n)%nat.
Proof.
  revert v. induction n as [|n IH]; intros v; cbn [dec_fuel]; [done|].
  case_match; [cbn; lia|]. rewrite length_app. specialize (IH (v / 10)). cbn. lia.
Qed.

Lemma zlen_udec_le v : zlen (udec v) <= 20.
Proof. unfold zlen, udec. pose proof (dec_fuel_le 20 v). lia. Qed.

Lemma digits10_ok v : 0 <= v < 2 ^ 64 -> digits10 v = Ok (zlen (udec v)).
Proof.
  intros Hv. unfold digits10. destruct (Z.ltb_spec v (10 ^ 12)) as [Hlt|Hge].
  - destruct (digits10_small 1 v) as (d & -> & <-); [lia|done].
  - rewrite digits10_large by done.
    destruct (digits10_small 0 (v / 10 ^ 12)) as (d & -> & Hd).
    { split; [apply Z.div_pos; lia|]. apply Z.div_lt_upper_bound; lia. }
    rewrite bind_Ok, zlen_udec_shift, Hd by lia.
    pose proof (zlen_udec_le (v / 10 ^ 12)). zpos. by zwrap.
Qed.

Lemma digits_table_check :
  forallb (fun k : nat =>
    match digits !! (2 * k)%nat, digits !! (2 * k + 1)%nat with
    | Some a, Some b => (a =? 48 + Z.of_nat k / 10) && (b =? 48 + Z.of_nat k mod 10)
    | _, _ => false
    end) (seq 0 100) = true.
Proof. vm_compute. reflexivity. Qed.

Lemma digits_table k :
  0 <= k < 100 ->
  rd1 digits (k * 2) = Ok (48 + k / 10) /\ rd1 digits (k * 2 + 1) = Ok (48 + k mod 10).
Proof.
  intros Hk. pose proof digits_table_check as T. rewrite forallb_forall in T.
  specialize (T (Z.to_nat k)). rewrite in_seq in T. specialize (T ltac:(lia)).
  repeat case_match; try done. zprop. rewrite Z2Nat.id in * by lia. subst.
  split; apply rd1_lookup; split; try lia.
  - by replace (Z.to_nat (k * 2)) with (2 * Z.to_nat k)%nat by lia.
  - by replace (Z.to_nat (k * 2 + 1)) with (2 * Z.to_nat k + 1)%nat by lia.
Qed.

Lemma udec_100 v : 100 <= v < 10 ^ 20 ->
  udec v = udec (v / 100) ++ [48 + (v mod 100) / 10; 48 + (v mod 100) mod 10].
Proof.
  intros Hv. change (10 ^ 20) with 100000000000000000000 in Hv.
  rewrite (udec_unfold v) by (cbn; lia). rewrite (udec_unfold (v / 10)) by (cbn; zdiv).
  rewrite Z.div_div by lia.
  change (10 * 10) with 100. rewrite <- app_assoc. cbn [app].
  replace ((v / 10) mod 10) with (v mod 100 / 10) by zdiv.
  by replace (v mod 10) with ((v mod 100) mod 10) by zdiv.
Qed.

Lemma wr1 a x c off y : zlen a = off -> wr (a ++ x :: c) off [y] = Ok (a ++ y :: c).
Proof. intros. by apply (wr_app a [x] [y] c). Qed.

(** Two digits written at the end of the gap [X]. *)
Lemma write_pair A X D off next k :
  zlen A = off -> zlen X = next + 1 -> 1 <= next <= 20 -> 0 <= k < 100 ->
  exists X', zlen X' = next - 1 /\
    forall B (f : list Z -> res B),
    (d1 ← rd1 digits (k * 2 + 1);
     dst ← wr (A ++ X ++ D) (off + next) [d1];
     d0 ← rd1 digits (k * 2);
     dst ← wr dst (off + (next - 1)) [d0];
     f dst) = f (A ++ X' ++ [48 + k / 10; 48 + k mod 10] ++ D).
Proof.
  intros HA HX Hn Hk. destruct (digits_table k Hk) as [-> ->].
  destruct (cut_at X (next - 1)) as (X' & Y & -> & HX' & HY); [lia|].
  destruct Y as [|y0 [|y1 [|]]]; zlens; try lia. 2: zpos; lia.
  exists X'. split; [done|]. intros B f. rewrite bind_Ok.
  rewrite <- !app_assoc. cbn [app].
  replace (A ++ X' ++ y0 :: y1 :: D) with ((A ++ X' ++ [y0]) ++ y1 :: D)
    by (by rewrite <- !app_assoc).
  rewrite wr1, bind_Ok by zlia.
  replace ((A ++ X' ++ [y0]) ++ _) with ((A ++ X') ++ y0 :: (48 + k mod 10) :: D)
    by (by rewrite <- !app_assoc).
  rewrite bind_Ok, wr1, bind_Ok by zlia. by rewrite <- app_assoc.
Qed.

Lemma ull2string_loop_ok fuel : forall value next A X D off,
  0 <= value < 100 ^ Z.of_nat (S fuel) -> value < 10 ^ 20 -> zlen A = off -> zlen X = next + 1 ->
  zlen (udec value) = next + 1 ->
  exists X' D' value' next',
    ull2string_loop (S fuel) (A ++ X ++ D) off value next = Ok (A ++ X' ++ D', value', next') /\
    zlen X' = next' + 1 /\ zlen (udec value') = next' + 1 /\ 0 <= value' < 100 /\
    udec value' ++ D' = udec value ++ D.
Proof.
  induction fuel as [|fuel IH]; intros value next A X D off Hv Hv2 HA HX Hu;
    cbn [ull2string_loop]; rewrite Z.geb_leb; destruct (Z.leb_spec 100 value) as [Hge|Hlt];
    try (eexists _, _, _, _; split; [done|]; split_and!; try done; lia).
  { cbn in Hv. lia. }
  pose proof (udec_100 value ltac:(lia)) as Hu'.
  assert (value mod 100 < 100 /\ 0 <= value mod 100) by zdiv.
  assert (0 <= value / 100 < 10 ^ 20) by (change (10 ^ 20) with 100000000000000000000 in *; zdiv).
  pose proof (zlen_udec_le value). pose proof (udec_pos (value / 100) ltac:(lia)).
  assert (zlen (udec (value / 100)) = next - 1) as Hn by (rewrite Hu' in Hu; zlens; lia).
  zwrap. destruct (write_pair A X D off next (value mod 100)) as (X' & HX' & ->); try lia.
  zwrap. destruct (IH (value / 100) (next - 2) A X'
    ([48 + value mod 100 / 10; 48 + (value mod 100) mod 10] ++ D) off)
    as (X2 & D2 & v2 & n2 & E & HX2 & Hu2 & Hv3 & Heq); try lia.
  - rewrite (Nat2Z.inj_succ (S fuel)), Z.pow_succ_r in Hv by lia.
    split; [lia|]. apply Z.div_lt_upper_bound; lia.
  - eexists _, _, _, _. split; [exact E|]. split_and!; try done; try lia.
    rewrite Heq, Hu', <- app_assoc. done.
Qed.

Lemma ull2string_ok A X D off dstlen value :
  0 <= value < 2 ^ 64 -> zlen A = off -> zlen X = zlen (udec value) + 1 -> zlen (udec value) < dstlen ->
  ull2string (A ++ X ++ D) off dstlen value = Ok (A ++ udec value ++ [0] ++ D, zlen (udec value)).
Proof.
  intros Hv HA HX Hd. unfold ull2string. rewrite digits10_ok, bind_Ok, Z.geb_leb by done.
  zfalse (dstlen <=? zlen (udec value)). pose proof (zlen_udec_le value).
  pose proof (udec_pos value ltac:(lia)). zwrap.
  destruct (cut_at X (zlen (udec value))) as (X1 & Y & -> & HX1 & HY); [lia|].
  destruct Y as [|y [|]]; zlens; try lia. 2: zpos; lia.
  replace (A ++ (X1 ++ [y]) ++ D) with ((A ++ X1) ++ y :: D) by (by rewrite <- !app_assoc).
  rewrite wr1, bind_Ok by (zlens; lia). rewrite <- app_assoc.
  destruct (ull2string_loop_ok 10 value (zlen (udec value) - 1) A X1 (0 :: D) off)
    as (X2 & D2 & v2 & n2 & -> & HX2 & Hn2 & Hv2 & Heq); try lia.
  rewrite bind_Ok.
  destruct (Z.ltb_spec v2 10).
  - rewrite udec_small in Hn2, Heq by lia. zlens. assert (n2 = 0) as -> by lia.
    destruct X2 as [|x [|]]; zlens; try lia. 2: zpos; lia. zwrap. cbn [app] in *.
    rewrite wr1, bind_Ok by lia. rewrite <- Heq. done.
  - pose proof (zlen_udec_le v2). zwrap.
    assert (udec v2 = [48 + v2 / 10; 48 + v2 mod 10]) as Hu2.
    { rewrite udec_unfold by (change (10 ^ 20) with 100000000000000000000; lia).
      by rewrite udec_small by zdiv. }
    rewrite Hu2 in Hn2, Heq. zlens. assert (n2 = 1) as -> by lia. zwrap.
    destruct (write_pair A X2 D2 off 1 v2) as (X3 & HX3 & W); try lia.
    assert (X3 = []) as -> by (apply nil_length_inv; unfold zlen in HX3; lia).
    specialize (W _ Ok). cbn [app] in *. rewrite <- Heq.
    destruct (digits_table v2) as [R0 R1]; [lia|]. rewrite R1, R0 in W |- *. rewrite bind_Ok in W |- *.
    apply bind_Ok_inv in W as (d & -> & W). rewrite bind_Ok in W. rewrite !bind_Ok.
    apply bind_Ok_inv in W as (d' & -> & [= ->]). done.
Qed.

Lemma ull2string_short dst off dstlen value :
  0 <= value < 2 ^ 64 -> dstlen <= zlen (udec value) -> ull2string dst off dstlen value = Ok (dst, 0).
Proof.
  intros. unfold ull2string. rewrite digits10_ok, bind_Ok, Z.geb_leb by done.
  by ztrue (dstlen <=? zlen (udec value)).
Qed.

Lemma ll_repr_bound v : INT64_MIN <= v <= INT64_MAX -> 0 < zlen (ll_repr v) <= 20.
Proof.
  intros Hv. zconst. unfold ll_repr. destruct (Z.ltb_spec v 0).
  - pose proof (udec_pos (- v) ltac:(lia)). rewrite zlen_cons.
    enough (zlen (udec (- v)) <= 19) by lia.
    assert (forall k : nat, (k < 20)%nat -> - v < 10 ^ Z.of_nat (S k) -> zlen (udec (- v)) <= Z.of_nat (S k)) as Hk.
    { induction k as [|k IH]; intros Hk Hb.
      - rewrite udec_small; [done|]. cbn in Hb. lia.
      - destruct (decide (- v < 10 ^ Z.of_nat (S k))) as [Hlt|Hge]; [specialize (IH ltac:(lia) Hlt); lia|].
        unfold zlen. rewrite (udec_length (S k)) by lia. done. }
    apply (Hk 18%nat); [lia|]. change (Z.of_nat 19) with 19. lia.
  - pose proof (udec_pos v ltac:(lia)). pose proof (zlen_udec_le v). lia.
Qed.

Lemma ll_repr_chars v : Forall (fun c => 45 <= c <= 57) (ll_repr v).
Proof.
  assert (forall n w, 0 <= w -> Forall (fun c => 45 <= c <= 57) (dec_fuel n w)) as Hdec.
  { induction n as [|n IH]; intros w Hw; [constructor|]. cbn [dec_fuel]. destruct (Z.ltb_spec w 10).
    - forall_list. lia.
    - apply Forall_app. split; [apply IH; zdiv|]. forall_list. zdiv. }
  unfold ll_repr. destruct (Z.ltb_spec v 0); [apply Forall_cons_2; [lia|]|]; apply Hdec; lia.
Qed.

Lemma ll_repr_bytes v : Forall is_byte (ll_repr v).
Proof. eapply Forall_impl; [apply ll_repr_chars|]. unfold is_byte. cbn. lia. Qed.


(** [ll2string] writes the canonical notation and a terminator. *)
Lemma ll2string_ok X D dstlen v :
  INT64_MIN <= v <= INT64_MAX -> zlen X = zlen (ll_repr v) + 1 -> zlen (ll_repr v) < dstlen ->
  ll2string (X ++ D) dstlen v = Ok (ll_repr v ++ [0] ++ D, zlen (ll_repr v)).
Proof.
  intros Hv HX Hd. unfold ll2string, ll_repr in *. zconst. destruct (Z.ltb_spec v 0).
  - rewrite zlen_cons in *. pose proof (udec_pos (- v) ltac:(lia)).
    match goal with |- context [ull2string _ 1 _ ?x] =>
      replace x with (- v) by (destruct (Z.eqb_spec v (- 2 ^ 63)); cbn [negb];
        [subst; done|rewrite wrapU_small; lia]) end.
    zfalse (dstlen <? 2). destruct X as [|x X]; zlens; [zpos; lia|].
    pose proof (wr1 [] x (X ++ D) 0 45) as W. cbn [app] in W |- *.
    rewrite W, bind_Ok by done. clear W.
    change (45 :: X ++ D) with ([45] ++ X ++ D).
    rewrite (ull2string_ok [45] X D 1 (dstlen - 1) (- v)), bind_Ok by (try done; lia).
    zfalse (zlen (udec (- v)) =? 0). do 2 f_equal. lia.
  - pose proof (udec_pos v ltac:(lia)).
    pose proof (ull2string_ok [] X D 0 dstlen v) as E. cbn [app] in E.
    rewrite E, bind_Ok by (try done; lia). zfalse (zlen (udec v) =? 0). do 2 f_equal. lia.
Qed.


Lemma dval_app v ds es : dval v (ds ++ es) = dval (dval v ds) es.
Proof. apply foldl_app. Qed.

Lemma dval_ge v ds : 0 <= v -> Forall is_digit ds -> v <= dval v ds.
Proof.
  intros Hv Hd. revert v Hv. induction Hd as [|c ds Hc _ IH]; intros v Hv; cbn; [lia|].
  unfold is_digit in Hc. specialize (IH (v * 10 + (c - 48))). unfold dval in IH. lia.
Qed.

(** Digits that do not start with zero are the notation of their value. *)
Lemma udec_dval c ds :
  49 <= c <= 57 -> Forall is_digit ds -> dval (c - 48) ds < 10 ^ 20 -> udec (dval (c - 48) ds) = c :: ds.
Proof.
  intros Hc. induction ds as [|d ds IH] using rev_ind; intros Hd Hb.
  - cbn. rewrite udec_small by lia. f_equal. lia.
  - apply Forall_app in Hd as [Hds Hd]. rewrite Forall_singleton in Hd. unfold is_digit in Hd.
    rewrite dval_app in *. cbn in *. pose proof (dval_ge (c - 48) ds ltac:(lia) Hds).
    fold (dval (c - 48) ds) in *. rewrite udec_step by lia. rewrite IH by (done || lia).
    cbn. do 2 f_equal. f_equal. lia.
Qed.

(** Every positive value is written that way. *)
Lemma udec_shape v : 1 <= v < 10 ^ 20 ->
  exists c ds, udec v = c :: ds /\ 49 <= c <= 57 /\ Forall is_digit ds /\ dval (c - 48) ds = v.
Proof.
  intros Hv.
  assert (forall k : nat, forall v, 1 <= v < 10 ^ Z.of_nat (S k) -> v < 10 ^ 20 ->
    exists c ds, udec v = c :: ds /\ 49 <= c <= 57 /\ Forall is_digit ds /\ dval (c - 48) ds = v) as Hk.
  { clear v Hv. induction k as [|k IH]; intros v Hv Hb.
    - cbn in Hv. exists (48 + v), []. rewrite udec_small by lia. split_and!; try done; cbn; lia.
    - destruct (decide (v < 10)) as [Hlt|Hge].
      { exists (48 + v), []. rewrite udec_small by lia. split_and!; try done; cbn; lia. }
      rewrite (Nat2Z.inj_succ (S k)), Z.pow_succ_r in Hv by lia.
      destruct (IH (v / 10)) as (c & ds & E & Hc & Hds & Hval).
      { split; [zdiv|]. apply Z.div_lt_upper_bound; lia. }
      { change (10 ^ 20) with 100000000000000000000 in *. zdiv. }
      exists c, (ds ++ [48 + v mod 10]). rewrite udec_unfold, E by lia. split_and!; try done; try lia.
      + apply Forall_app. split; [done|]. apply Forall_singleton. unfold is_digit. zdiv.
      + rewrite dval_app, Hval. cbn. zdiv. }
  apply (Hk 19%nat); [|lia]. change (Z.of_nat 20) with 20. lia.
Qed.

(** The digit loop: it stops at the first character that is not a digit, or
    reports that the digits read so far exceed 64 bits. *)
Lemma string2ll_loop_ok fuel : forall s slen plen v pre rest,
  s = pre ++ rest -> zlen pre = plen -> slen = zlen s -> (length rest < fuel)%nat ->
  0 <= v <= UINT64_MAX ->
  exists r ds rest', string2ll_loop fuel s slen plen v = Ok r /\ rest = ds ++ rest' /\
    Forall is_digit ds /\
    match r with
    | None => UINT64_MAX < dval v ds
    | Some (v', plen') => v' = dval v ds /\ 0 <= v' <= UINT64_MAX /\ plen' = plen + zlen ds /\
        match rest' with [] => True | c :: _ => ~ is_digit c end
    end.
Proof.
  induction fuel as [|fuel IH]; intros s slen plen v pre rest -> Hp -> Hf Hv; [lia|].
  cbn [string2ll_loop]. rewrite zlen_app. destruct rest as [|c rest].
  - zfalse (plen <? zlen pre + zlen (@nil Z)). exists (Some (v, plen)), [], [].
    split_and!; try done; try lia. zlia.
  - ztrue (plen <? zlen pre + zlen (c :: rest)).
    rewrite (rd1_app pre c rest plen Hp), bind_Ok, !Z.geb_leb, !Z.gtb_ltb.
    destruct ((48 <=? c) && (c <=? 57)) eqn:Ec.
    2:{ exists (Some (v, plen)), [], (c :: rest). unfold is_digit.
        split_and!; try done; try lia. zlia. }
    assert (is_digit c) as Hc by (unfold is_digit; lia).
    pose proof Hc as Hc'. unfold is_digit in Hc'. zconst.
    change ((2 ^ 64 - 1) / 10) with 1844674407370955161.
    destruct (Z.ltb_spec 1844674407370955161 v) as [Ho|Ho].
    { exists None, [c], rest. split_and!; try done; [by apply Forall_singleton|]. cbn. lia. }
    zwrap.
    destruct (Z.ltb_spec (2 ^ 64 - 1 - (c - 48)) (v * 10)).
    { exists None, [c], rest. split_and!; try done; [by apply Forall_singleton|]. cbn. lia. }
    zwrap. replace (zlen pre + zlen (c :: rest)) with (zlen (pre ++ c :: rest)) by (by zlens).
    destruct (IH (pre ++ c :: rest) (zlen (pre ++ c :: rest)) (plen + 1) (v * 10 + (c - 48)) (pre ++ [c]) rest)
      as (r & ds & rest' & -> & -> & Hds & Hr); try done; try lia.
    { by rewrite <- app_assoc. } { zlens. lia. } { cbn in Hf. lia. }
    exists r, (c :: ds), rest'. split_and!; try done; [by constructor|].
    destruct r as [[v' p']|]; [|done]. destruct Hr as (-> & ? & -> & ?).
    split_and!; try done; try lia. zlens. lia.
Qed.

Definition signed_value (negative : bool) (v w : Z) : Prop :=
  if negative then 1 <= v <= 2 ^ 63 /\ w = - v else 1 <= v <= INT64_MAX /\ w = v.

Lemma string2ll_digits_ok s plen negative pre rest :
  s = pre ++ rest -> zlen pre = plen -> rest <> [] ->
  exists r, string2ll_digits s (zlen s) plen negative = Ok r /\
    forall w, r = Some w <-> exists v, rest = udec v /\ signed_value negative v w.
Proof.
  intros -> Hp Hne. destruct rest as [|c rest]; [done|]. unfold string2ll_digits.
  rewrite (rd1_app pre c rest plen Hp), bind_Ok, !Z.geb_leb.
  assert (forall v w, signed_value negative v w -> c :: rest = udec v ->
    49 <= c <= 57 /\ Forall is_digit rest /\ dval (c - 48) rest = v) as Hinv.
  { intros v w Hs E. destruct (udec_shape v) as (c' & ds & E' & ? & ? & ?).
    { unfold signed_value in Hs. zconst. destruct negative; lia. }
    rewrite E' in E. injection E as -> ->. done. }
  destruct ((49 <=? c) && (c <=? 57)) eqn:Ec; last first.
  { exists None. split; [done|]. intros w. split; [done|]. intros (v & E & Hs).
    destruct (Hinv v w Hs E). lia. }
  destruct (string2ll_loop_ok (S (Z.to_nat (zlen (pre ++ c :: rest)))) (pre ++ c :: rest)
    (zlen (pre ++ c :: rest)) (plen + 1) (c - 48) (pre ++ [c]) rest)
    as (r & ds & rest' & -> & -> & Hds & Hr); [by rewrite <- app_assoc|zlia|done| |zconst; lia|].
  { unfold zlen. rewrite length_app. cbn. lia. }
  rewrite bind_Ok. destruct r as [[v' plen']|]; last first.
  { exists None. split; [done|]. intros w. split; [done|]. intros (v & E & Hs).
    destruct (Hinv v w Hs E) as (? & Hd & Hv). rewrite dval_app in Hv.
    apply Forall_app in Hd as [? Hd]. pose proof (dval_ge (dval (c - 48) ds) rest' ltac:(zconst; lia) Hd).
    unfold signed_value in Hs. zconst. destruct negative; lia. }
  destruct Hr as (-> & Hb & -> & Hstop). destruct rest' as [|c' rest']; last first.
  { ztrue (plen + 1 + zlen ds <? zlen (pre ++ c :: ds ++ c' :: rest')).
    exists None. split; [done|]. intros w. split; [done|]. intros (v & E & Hs).
    destruct (Hinv v w Hs E) as (_ & Hd & _). apply Forall_app in Hd as [_ Hd].
    apply Forall_cons in Hd as [? _]. done. }
  rewrite app_nil_r in *. zfalse (plen + 1 + zlen ds <? zlen (pre ++ c :: ds)).
  pose proof (udec_dval c ds ltac:(lia) Hds ltac:(zconst; lia)) as Hu.
  pose proof (dval_ge (c - 48) ds ltac:(lia) Hds). rewrite !Z.gtb_ltb. zconst.
  set (v0 := dval (c - 48) ds) in *.
  assert (forall w, (exists v, c :: ds = udec v /\ signed_value negative v w) <-> signed_value negative v0 w) as Hiff.
  { intros w. split; [|by exists v0]. intros (v & E & Hs). destruct (Hinv v w Hs E) as (_ & _ & <-). done. }
  unfold signed_value in *. destruct negative.
  - change (wrapU 64 (- (- 2 ^ 63 + 1)) + 1) with (2 ^ 63).
    destruct (Z.ltb_spec (2 ^ 63) v0).
    + exists None. split; [done|]. intros w. rewrite Hiff. split; [done|lia].
    + exists (Some (- v0)). rewrite wrapS_wrapU by lia. zwrap. split; [done|].
      intros w. rewrite Hiff. split; [intros [= <-]; lia|]. intros [_ ->]. done.
  - destruct (Z.ltb_spec (2 ^ 63 - 1) v0).
    + exists None. split; [done|]. intros w. rewrite Hiff. zconst. split; [done|lia].
    + exists (Some v0). split; [done|]. intros w. rewrite Hiff. zconst.
      split; [intros [= <-]; lia|]. intros [_ ->]. done.
Qed.

Lemma udec_head v c ds : 0 <= v < 10 ^ 20 -> udec v = c :: ds -> 48 <= c <= 57.
Proof.
  intros Hv E. destruct (decide (v = 0)) as [->|].
  - rewrite udec_small in E by lia. injection E as <- _. lia.
  - destruct (udec_shape v) as (c' & ds' & E' & ? & _); [lia|]. rewrite E in E'. injection E' as -> ->. lia.
Qed.

Lemma string2ll_ok s :
  exists r, string2ll s (zlen s) = Ok r /\
    forall w, r = Some w <-> INT64_MIN <= w <= INT64_MAX /\ s = ll_repr w.
Proof.
  unfold string2ll, LONG_STR_SIZE. rewrite Z.geb_leb.
  destruct ((0 =? zlen s) || (21 <=? zlen s)) eqn:E0.
  { exists None. split; [done|]. intros w. split; [done|]. intros [Hw ->].
    pose proof (ll_repr_bound w Hw). lia. }
  destruct s as [|c s]; [done|]. change (rd1 (c :: s) 0) with (Ok c). rewrite bind_Ok.
  assert (forall w, INT64_MIN <= w <= INT64_MAX -> c :: s = ll_repr w ->
    if w <? 0 then c = 45 /\ s = udec (- w) else 48 <= c <= 57 /\ c :: s = udec w) as Hinv.
  { intros w Hw E. unfold ll_repr in E. zconst. destruct (Z.ltb_spec w 0); [by injection E|].
    split; [|done]. eapply udec_head; [|by symmetry]. lia. }
  destruct ((zlen (c :: s) =? 1) && (c =? 48)) eqn:E1.
  { zprop. assert (s = []) as -> by (apply nil_length_inv; unfold zlen in *; cbn in *; lia). subst c.
    exists (Some 0). split; [done|]. intros w. split; [by intros [= <-]|]. intros [Hw E].
    specialize (Hinv w Hw E). zconst. destruct (Z.ltb_spec w 0); [lia|].
    destruct (decide (w = 0)) as [->|]; [done|]. exfalso.
    destruct (udec_shape w) as (c & ds & Eu & ? & _); [lia|].
    destruct Hinv as [_ Hinv]. rewrite <- Hinv in Eu. injection Eu as <- <-. lia. }
  destruct (Z.eqb_spec c 45) as [->|Hc].
  - destruct (Z.eqb_spec 1 (zlen (45 :: s))) as [E2|].
    { assert (s = []) as -> by (apply nil_length_inv; unfold zlen in *; cbn in *; lia).
      exists None. split; [done|]. intros w. split; [done|]. intros [Hw E].
      specialize (Hinv w Hw E). zconst. destruct (Z.ltb_spec w 0); [|lia].
      destruct Hinv as [_ Hu]. pose proof (udec_pos (- w) ltac:(lia)) as Hp. rewrite <- Hu in Hp. done. }
    destruct (string2ll_digits_ok (45 :: s) 1 true [45] s) as (r & -> & Hr); try done.
    { intros ->. done. }
    exists r. split; [done|]. intros w. rewrite Hr. unfold signed_value. split.
    + intros (v & -> & Hv & ->). unfold ll_repr. zconst. ztrue (- v <? 0).
      rewrite Z.opp_involutive. split; [lia|done].
    + intros [Hw E]. specialize (Hinv w Hw E). zconst. destruct (Z.ltb_spec w 0); [|lia].
      destruct Hinv as [_ ->]. exists (- w). split; [done|]. lia.
  - destruct (string2ll_digits_ok (c :: s) 0 false [] (c :: s)) as (r & -> & Hr); try done.
    exists r. split; [done|]. intros w. rewrite Hr. unfold signed_value. split.
    + intros (v & E & Hv & ->). unfold ll_repr. zconst. zfalse (v <? 0). split; [lia|done].
    + intros [Hw E]. specialize (Hinv w Hw E). zconst. destruct (Z.ltb_spec w 0); [lia|].
      destruct Hinv as [_ Hu]. exists w. split; [done|].
      enough (w <> 0) by lia. intros ->. rewrite udec_small in Hu by lia. injection Hu as -> ->. done.
Qed.

Lemma abs_u64 v : INT64_MIN <= v < 0 ->
  (if negb (v =? INT64_MIN) then wrapU 64 (- v) else wrapU 64 (INT64_MAX + 1)) = - v.
Proof.
  intros Hv. zconst. destruct (Z.eqb_spec v (- 2 ^ 63)) as [->|]; cbn [negb]; [done|].
  rewrite wrapU_small; lia.
Qed.

(** * Properties *)

(** C23: [string2ll] is exact.  On any string it stops without reading past the
    end and returns a value exactly when the string is the canonical decimal
    notation of a 64-bit signed integer (no blanks, no plus sign, no leading
    zeros, no overflow); the value is that integer. *)
Theorem string2ll_exact s :
  exists r, string2ll s (zlen s) = Ok r /\
    forall v, r = Some v <-> INT64_MIN <= v <= INT64_MAX /\ s = ll_repr v.
Proof. apply string2ll_ok. Qed.

(** [ll2string] never writes outside the given length: it writes the
    canonical notation followed by a NUL and returns its length when that fits,
    and returns 0 otherwise. *)
Theorem ll2string_correct buf dstlen v :
  INT64_MIN <= v <= INT64_MAX -> 0 <= dstlen <= zlen buf ->
  exists out n, ll2string buf dstlen v = Ok (out, n) /\ zlen out = zlen buf /\
    if zlen (ll_repr v) <? dstlen
    then n = zlen (ll_repr v) /\ out = ll_repr v ++ [0] ++ drop (Z.to_nat (n + 1)) buf
    else n = 0.
Proof.
  intros Hv Hd. destruct (Z.ltb_spec (zlen (ll_repr v)) dstlen) as [Hlt|Hge].
  - zpos. destruct (cut_at buf (zlen (ll_repr v) + 1)) as (X & D & -> & HX & HD); [lia|].
    rewrite ll2string_ok by done. eexists _, _. split; [done|].
    rewrite <- HX, drop_zlen_app. split_and!; try done. zlens. lia.
  - unfold ll2string. unfold ll_repr in Hge. destruct (Z.ltb_spec v 0).
    + rewrite abs_u64 by lia. destruct (Z.ltb_spec dstlen 2); [by eexists _, _|].
      destruct (wr_ok buf 0 [45]) as [buf' E]; [lia|zlens; lia|]. rewrite E, bind_Ok.
      rewrite zlen_cons in Hge. rewrite ull2string_short by (zconst; lia). rewrite bind_Ok.
      eexists _, _. split; [done|]. split; [|done]. by eapply wr_zlen.
    + rewrite ull2string_short by (zconst; lia). by eexists _, _.
Qed.

Lemma ll2string_correct_witness :
  exists out n, ll2string (replicate 5 7) 5 (-42) = Ok (out, n) /\ zlen out = 5 /\
    n = 3 /\ out = ll_repr (-42) ++ [0] ++ drop (Z.to_nat (n + 1)) (replicate 5 7).
Proof. apply (ll2string_correct (replicate 5 7) 5 (-42)); [zconst; lia|done]. Defined.

(** round trip.  Every 64-bit integer printed by [ll2string] into a buffer
    of [LONG_STR_SIZE] bytes is read back by [string2ll]. *)
Theorem ll2string_string2ll buf v :
  INT64_MIN <= v <= INT64_MAX -> LONG_STR_SIZE <= zlen buf ->
  exists out n, ll2string buf (zlen buf) v = Ok (out, n) /\ 0 < n /\
    string2ll (take (Z.to_nat n) out) n = Ok (Some v).
Proof.
  intros Hv Hb. unfold LONG_STR_SIZE in Hb. pose proof (ll_repr_bound v Hv).
  destruct (cut_at buf (zlen (ll_repr v) + 1)) as (X & D & -> & HX & HD); [lia|].
  rewrite ll2string_ok by (try done; lia). eexists _, _. split; [done|]. split; [lia|].
  rewrite take_zlen_app. destruct (string2ll_ok (ll_repr v)) as (r & -> & Hr).
  f_equal. by apply Hr.
Qed.

Lemma ll2string_string2ll_witness :
  exists out n, ll2string (replicate 21 0) 21 INT64_MIN = Ok (out, n) /\ 0 < n /\
    string2ll (take (Z.to_nat n) out) n = Ok (Some INT64_MIN).
Proof. apply (ll2string_string2ll (replicate 21 0) INT64_MIN); [zconst; lia|done]. Defined.

(** [sdigits10] is the length of the decimal notation, the minus sign
    included, over the whole signed range (and so [digits10] over the unsigned
    one). *)
Theorem sdigits10_correct v :
  INT64_MIN <= v <= INT64_MAX -> sdigits10 v = Ok (zlen (ll_repr v)).
Proof.
  intros Hv. unfold sdigits10, ll_repr. destruct (Z.ltb_spec v 0).
  - rewrite abs_u64 by lia. rewrite digits10_ok, bind_Ok by (zconst; lia).
    pose proof (zlen_udec_le (- v)). zpos. zwrap. rewrite zlen_cons. f_equal. lia.
  - apply digits10_ok. zconst. lia.
Qed.

Lemma sdigits10_correct_witness : sdigits10 (-1000) = Ok (zlen (ll_repr (-1000))).
Proof. apply sdigits10_correct. zconst. lia. Defined.
