(* ===== verification/Glob.v ===== *)
(** Glob-style pattern matching: [stringmatchlen] of [util.c], used by KEYS, SCAN,
    PSUBSCRIBE, CONFIG GET and the ACL rules.

    The C function walks the pattern and the string with two pointers, looks one
    or two characters ahead in the pattern and steps back after an unterminated
    class, so the model keeps buffers and offsets and every look-ahead can fault.
    The reference reads the pattern into tokens and matches the tokens. *)
From S2P Require Import Prelude.
Open Scope Z_scope.

(** * Definitions *)

(** [tolower] in the C locale. *)
Definition tolower (c : Z) : Z := if (65 <=? c) && (c <=? 90) then c + 32 else c.

(** [while (patternLen && pattern[1] == '*') { pattern++; patternLen--; }] *)
Fixpoint skip_stars (fuel : nat) (pat : list Z) (p pl : Z) : res (Z * Z) :=
  match fuel with
  | O => OutOfFuel
  | S fuel =>
      if negb (pl =? 0) then
        c ← rd1 pat (p + 1);
        if c =? 42 then skip_stars fuel pat (p + 1) (pl - 1) else Ok (p, pl)
      else Ok (p, pl)
  end.

(** [while( *pattern == '*' ) { pattern++; patternLen--; }] *)
Fixpoint trailing_stars (fuel : nat) (pat : list Z) (p pl : Z) : res Z :=
  match fuel with
  | O => OutOfFuel
  | S fuel =>
      c ← rd1 pat p;
      if c =? 42 then trailing_stars fuel pat (p + 1) (pl - 1) else Ok pl
  end.

(** The [while(1)] loop over a character class; the result is where the pattern
    pointer stops, the length left and [match]. *)
Fixpoint class_loop (fuel : nat) (pat : list Z) (p pl : Z) (str : list Z) (j : Z)
    (nocase : bool) (m : bool) : res (Z * Z * bool) :=
  match fuel with
  | O => OutOfFuel
  | S fuel =>
      c ← rd1 pat p;
      if (c =? 92) && (pl >=? 2) then
        let p := p + 1 in
        let pl := pl - 1 in
        c ← rd1 pat p;
        s0 ← rd1 str j;
        let m := if c =? s0 then true else m in
        class_loop fuel pat (p + 1) (pl - 1) str j nocase m
      else if c =? 93 then Ok (p, pl, m)
      else if pl =? 0 then Ok (p - 1, pl + 1, m)
      else
        range ← (if pl >=? 3 then (d ← rd1 pat (p + 1); Ok (d =? 45)) else Ok false);
        if (range : bool) then
          let start := c in
          fin ← rd1 pat (p + 2);
          s0 ← rd1 str j;
          let '(start, fin) := if start >? fin then (fin, start) else (start, fin) in
          let '(start, fin, s0) :=
            if nocase then (tolower start, tolower fin, tolower s0) else (start, fin, s0) in
          let p := p + 2 in
          let pl := pl - 2 in
          let m := if (s0 >=? start) && (s0 <=? fin) then true else m in
          class_loop fuel pat (p + 1) (pl - 1) str j nocase m
        else
          s0 ← rd1 str j;
          let m := if negb nocase then (if c =? s0 then true else m)
                   else (if tolower c =? tolower s0 then true else m) in
          class_loop fuel pat (p + 1) (pl - 1) str j nocase m
  end.

(** One turn of the switch, for anything but ['*']: where the pattern pointer
    is left, or [None] for [return 0].  The string advances by one. *)
Definition match_one (pat : list Z) (p pl : Z) (str : list Z) (j : Z) (nocase : bool)
  : res (option (Z * Z)) :=
  c ← rd1 pat p;
  if c =? 63 then Ok (Some (p, pl))
  else if c =? 91 then
    let p := p + 1 in
    let pl := pl - 1 in
    c ← rd1 pat p;
    let neg := c =? 94 in
    let '(p, pl) := if neg then (p + 1, pl - 1) else (p, pl) in
    '(p, pl, m) ← class_loop (S (Z.to_nat pl)) pat p pl str j nocase false;
    let m := if neg then negb m else m in
    if negb m then Ok None else Ok (Some (p, pl))
  else
    let '(p, pl) := if (c =? 92) && (pl >=? 2) then (p + 1, pl - 1) else (p, pl) in
    c ← rd1 pat p;
    s0 ← rd1 str j;
    if negb nocase then (if negb (c =? s0) then Ok None else Ok (Some (p, pl)))
    else (if negb (tolower c =? tolower s0) then Ok None else Ok (Some (p, pl))).

(** [while(stringLen) { if (stringmatchlen(...)) return 1; string++; stringLen--; }] *)
Fixpoint star_loop (n : nat) (rec : Z -> Z -> res bool) (j sl : Z) : res bool :=
  match n with
  | O => Ok false
  | S n => r ← rec j sl; if (r : bool) then Ok true else star_loop n rec (j + 1) (sl - 1)
  end.

Fixpoint stringmatchlen_fuel (fuel : nat) (pat : list Z) (p pl : Z) (str : list Z) (j sl : Z)
    (nocase : bool) : res bool :=
  match fuel with
  | O => OutOfFuel
  | S fuel =>
      if negb (pl =? 0) && negb (sl =? 0) then
        c ← rd1 pat p;
        if c =? 42 then
          '(p, pl) ← skip_stars (S (Z.to_nat pl)) pat p pl;
          if pl =? 1 then Ok true
          else star_loop (Z.to_nat sl)
                 (fun j sl => stringmatchlen_fuel fuel pat (p + 1) (pl - 1) str j sl nocase) j sl
        else
          r ← match_one pat p pl str j nocase;
          match r with
          | None => Ok false
          | Some (p, pl) =>
              let j := j + 1 in
              let sl := sl - 1 in
              let p := p + 1 in
              let pl := pl - 1 in
              if sl =? 0 then
                pl ← trailing_stars (S (Z.to_nat pl)) pat p pl;
                Ok ((pl =? 0) && (sl =? 0))
              else stringmatchlen_fuel fuel pat p pl str j sl nocase
          end
      else Ok ((pl =? 0) && (sl =? 0))
  end.

(** Every turn and every recursive call is on a shorter pattern. *)
Definition stringmatchlen (pat : list Z) (patternLen : Z) (str : list Z) (stringLen : Z)
    (nocase : bool) : res bool :=
  stringmatchlen_fuel (S (Z.to_nat patternLen)) pat 0 patternLen str 0 stringLen nocase.

(** * Specification *)

Inductive citem :=
| CEscaped (c : Z)
| CRange (a b : Z)
| CChar (c : Z).

Inductive token :=
| TStar
| TAny
| TClass (neg : bool) (items : list citem)
| TLit (c : Z).

(** The items of a class and the pattern behind its [']'], if there is one. *)
Fixpoint parse_class (r : list Z) : list citem * list Z :=
  match r with
  | [] => ([], [])
  | a :: r1 =>
      let plain := (CChar a :: (parse_class r1).1, (parse_class r1).2) in
      if a =? 92 then
        match r1 with
        | x :: r => (CEscaped x :: (parse_class r).1, (parse_class r).2)
        | [] => plain
        end
      else if a =? 93 then ([], r1)
      else
        match r1 with
        | d :: b :: r =>
            if d =? 45 then (CRange a b :: (parse_class r).1, (parse_class r).2) else plain
        | _ => plain
        end
  end.

(** The first token of a pattern that is not empty, and the rest. *)
Definition parse_one (c : Z) (r : list Z) : token * list Z :=
  if c =? 42 then (TStar, r)
  else if c =? 63 then (TAny, r)
  else if c =? 91 then
    let '(neg, r) := match r with
                     | d :: r' => if d =? 94 then (true, r') else (false, r)
                     | [] => (false, r)
                     end in
    (TClass neg (parse_class r).1, (parse_class r).2)
  else if c =? 92 then
    match r with
    | x :: r => (TLit x, r)
    | [] => (TLit c, r)
    end
  else (TLit c, r).

Fixpoint parse_fuel (fuel : nat) (r : list Z) : list token :=
  match fuel, r with
  | S fuel, c :: r => (parse_one c r).1 :: parse_fuel fuel (parse_one c r).2
  | _, _ => []
  end.

Definition parse (r : list Z) : list token := parse_fuel (length r) r.

Definition char_eq (nocase : bool) (a b : Z) : bool :=
  if nocase then tolower a =? tolower b else a =? b.

(** An escaped class member is compared exactly, whatever the case flag; the
    ends of a range are ordered before they are folded. *)
Definition citem_ok (nocase : bool) (x : Z) (i : citem) : bool :=
  match i with
  | CEscaped c => c =? x
  | CRange a b =>
      let '(a, b) := if a >? b then (b, a) else (a, b) in
      if nocase then (tolower x >=? tolower a) && (tolower x <=? tolower b)
      else (x >=? a) && (x <=? b)
  | CChar c => char_eq nocase c x
  end.

Definition token_ok (nocase : bool) (x : Z) (t : token) : bool :=
  match t with
  | TStar => false
  | TAny => true
  | TClass neg its =>
      let m := existsb (citem_ok nocase x) its in if neg then negb m else m
  | TLit c => char_eq nocase c x
  end.

Inductive glob (nocase : bool) : list token -> list Z -> Prop :=
| glob_nil : glob nocase [] []
| glob_star ts s1 s2 : glob nocase ts s2 -> glob nocase (TStar :: ts) (s1 ++ s2)
| glob_one t ts x s : token_ok nocase x t = true -> glob nocase ts s -> glob nocase (t :: ts) (x :: s).

(** * Lemmas *)

Lemma parse_class_cons a r1 :
  parse_class (a :: r1) =
    let plain := (CChar a :: (parse_class r1).1, (parse_class r1).2) in
    if a =? 92 then
      match r1 with
      | x :: r => (CEscaped x :: (parse_class r).1, (parse_class r).2)
      | [] => plain
      end
    else if a =? 93 then ([], r1)
    else
      match r1 with
      | d :: b :: r =>
          if d =? 45 then (CRange a b :: (parse_class r).1, (parse_class r).2) else plain
      | _ => plain
      end.
Proof. done. Qed.
Arguments parse_class : simpl never.

Lemma parse_class_length r : (length (parse_class r).2 <= length r)%nat.
Proof.
  induction r as [[|a r1] IH] using list_len_ind; [done|].
  rewrite parse_class_cons.
  repeat case_match; subst; cbn [snd fst length] in *; try lia;
    match goal with |- context [parse_class ?x] => specialize (IH x); cbn [length] in IH; lia end.
Qed.

Lemma parse_one_length c r : (length (parse_one c r).2 <= length r)%nat.
Proof.
  unfold parse_one. repeat case_match; simplify_eq/=; try lia;
    etrans; try apply parse_class_length; cbn; lia.
Qed.

Lemma parse_fuel_enough n m r :
  (length r <= n)%nat -> (length r <= m)%nat -> parse_fuel n r = parse_fuel m r.
Proof.
  revert m r. induction n as [|n IH]; intros [|m] [|c r] Hn Hm; cbn in *; try done; try lia.
  pose proof (parse_one_length c r). f_equal. apply IH; lia.
Qed.

Lemma parse_cons c r : parse (c :: r) = (parse_one c r).1 :: parse (parse_one c r).2.
Proof.
  unfold parse. cbn. f_equal. pose proof (parse_one_length c r).
  apply parse_fuel_enough; lia.
Qed.

Lemma parse_nil : parse [] = [].
Proof. done. Qed.

(** The character a NUL-terminated pointer sees. *)
Definition hd0 (r : list Z) : Z := match r with [] => 0 | c :: _ => c end.

Lemma rd1_hd0 P1 R p : zlen P1 = p -> rd1 (P1 ++ R ++ [0]) p = Ok (hd0 R).
Proof. intros. destruct R as [|c R]; cbn [app hd0]; by apply rd1_app. Qed.

Lemma rd1_next P1 a R p : zlen P1 = p -> rd1 (P1 ++ (a :: R) ++ [0]) (p + 1) = Ok (hd0 R).
Proof.
  intros. replace (P1 ++ (a :: R) ++ [0]) with ((P1 ++ [a]) ++ R ++ [0]) by (by rewrite <- app_assoc).
  apply rd1_hd0. zlens. lia.
Qed.

Lemma rd1_next2 P1 a b R p : zlen P1 = p -> rd1 (P1 ++ (a :: b :: R) ++ [0]) (p + 2) = Ok (hd0 R).
Proof.
  intros. replace (P1 ++ (a :: b :: R) ++ [0]) with ((P1 ++ [a]) ++ (b :: R) ++ [0])
    by (by rewrite <- app_assoc).
  replace (p + 2) with (p + 1 + 1) by lia. apply rd1_next. zlens. lia.
Qed.

Lemma snoc_app {A} (P1 : list A) a R E : (P1 ++ [a]) ++ R ++ E = P1 ++ (a :: R) ++ E.
Proof. by rewrite <- app_assoc. Qed.

Lemma if_orb (b m : bool) : (if b then true else m) = m || b.
Proof. by destruct b, m. Qed.

(** Where the class loop may leave the pattern pointer: one before the part of
    the pattern that is still to be matched. *)
Definition at_rest (pat : list Z) (p pl : Z) (r : list Z) : Prop :=
  pl = zlen r /\ exists P2, pat = P2 ++ r ++ [0] /\ zlen P2 = p.

Lemma at_rest_cons pat p pl a r : at_rest pat p pl (a :: r) -> at_rest pat (p + 1) (pl - 1) r.
Proof.
  intros [-> (P2 & -> & <-)]. split; [zlens; lia|]. exists (P2 ++ [a]).
  split; [by rewrite snoc_app|zlens; lia].
Qed.

Lemma at_rest_rd pat p pl r : at_rest pat p pl r -> rd1 pat p = Ok (hd0 r).
Proof. intros [_ (P2 & -> & <-)]. by apply rd1_hd0. Qed.

Lemma at_rest_rd_next pat p pl a r : at_rest pat p pl (a :: r) -> rd1 pat (p + 1) = Ok (hd0 r).
Proof. intros Hr. eapply at_rest_rd, at_rest_cons, Hr. Qed.

Lemma at_rest_len pat p pl r : at_rest pat p pl r -> pl = zlen r.
Proof. by intros [? _]. Qed.

(** The class loop consumes the items of the class and accumulates the match. *)
Lemma class_loop_ok fuel : forall pat R p pl str j x nocase m,
  at_rest pat p pl R -> rd1 str j = Ok x -> (length R < fuel)%nat ->
  exists p' pl', class_loop fuel pat p pl str j nocase m =
      Ok (p', pl', m || existsb (citem_ok nocase x) (parse_class R).1) /\
    at_rest pat (p' + 1) (pl' - 1) (parse_class R).2.
Proof.
  induction fuel as [|fuel IH]; intros pat R p pl str j x nocase m HR Hx Hf; [lia|].
  cbn [class_loop]. rewrite (at_rest_rd _ _ _ _ HR), bind_Ok.
  pose proof (at_rest_len _ _ _ _ HR) as Hpl. rewrite !Z.geb_leb.
  destruct R as [|a r1]; cbn [hd0].
  { rewrite zlen_nil in Hpl. subst pl. cbn [Z.eqb andb].
    exists (p - 1), 1. split; [by rewrite orb_false_r|].
    replace (p - 1 + 1) with p by lia. done. }
  pose proof (at_rest_cons _ _ _ _ _ HR) as HR1. pose proof (at_rest_rd_next _ _ _ _ _ HR) as Hn.
  rewrite parse_class_cons. rewrite zlen_cons in Hpl. pose proof (zlen_nonneg r1).
  assert (forall m', exists p' pl', class_loop fuel pat (p + 1) (pl - 1) str j nocase m' =
      Ok (p', pl', m' || existsb (citem_ok nocase x) (parse_class r1).1) /\
    at_rest pat (p' + 1) (pl' - 1) (parse_class r1).2) as Hplain.
  { intros m'. apply IH; [done..|]. cbn in Hf. lia. }
  assert (exists p' pl', (s0 ← rd1 str j;
      class_loop fuel pat (p + 1) (pl - 1) str j nocase
        (if negb nocase then (if a =? s0 then true else m)
         else (if tolower a =? tolower s0 then true else m))) =
      Ok (p', pl', m || existsb (citem_ok nocase x) (CChar a :: (parse_class r1).1)) /\
    at_rest pat (p' + 1) (pl' - 1) (parse_class r1).2) as Hch.
  { rewrite Hx, bind_Ok. destruct (Hplain (if negb nocase then (if a =? x then true else m)
         else (if tolower a =? tolower x then true else m))) as (p' & pl' & -> & ?).
    exists p', pl'. split; [|done]. do 2 f_equal. cbn. rewrite orb_assoc. f_equal.
    unfold char_eq. destruct nocase; cbn; apply if_orb. }
  destruct (Z.eqb_spec a 92) as [->|Ha92].
  { destruct r1 as [|x' r].
    - rewrite zlen_nil in Hpl. subst pl. cbn [Z.leb Z.compare Pos.compare Pos.compare_cont andb Z.eqb]. exact Hch.
    - ztrue (2 <=? pl). cbn [andb]. rewrite Hn. cbn [hd0]. rewrite bind_Ok, Hx, bind_Ok.
      destruct (IH pat r (p + 1 + 1) (pl - 1 - 1) str j x nocase (if x' =? x then true else m))
        as (p' & pl' & E & ?); [by eapply at_rest_cons|done|cbn in Hf; lia|].
      exists p', pl'. split; [|done]. rewrite E. do 2 f_equal. cbn. by rewrite if_orb, orb_assoc. }
  cbn [andb]. destruct (Z.eqb_spec a 93).
  { exists p, pl. split; [by rewrite orb_false_r|done]. }
  zfalse (pl =? 0).
  destruct r1 as [|d [|b r]]; [..|destruct (Z.eqb_spec d 45) as [->|Hd]].
  - zfalse (3 <=? pl). exact Hch.
  - zfalse (3 <=? pl). exact Hch.
  - ztrue (3 <=? pl). rewrite Hn. cbn [hd0 Z.eqb Pos.eqb]. rewrite !bind_Ok.
    replace (p + 2) with (p + 1 + 1) by lia.
    rewrite (at_rest_rd_next _ _ _ _ _ HR1), bind_Ok. cbn [hd0]. rewrite Hx, bind_Ok.
    assert (at_rest pat (p + 1 + 1 + 1) (pl - 2 - 1) r) as HR3.
    { replace (pl - 2 - 1) with (pl - 1 - 1 - 1) by lia. by do 2 eapply at_rest_cons. }
    set (q := if a >? b then (b, a) else (a, b)). destruct q as [st fi] eqn:Eq.
    set (t := if nocase then (tolower st, tolower fi, tolower x) else (st, fi, x)).
    destruct t as [[st' fi'] x'] eqn:Et.
    destruct (IH pat r (p + 1 + 1 + 1) (pl - 2 - 1) str j x nocase
      (if (x' >=? st') && (x' <=? fi') then true else m)) as (p' & pl' & E & ?);
      [done|done|cbn in Hf; lia|].
    exists p', pl'. split; [|done]. cbn [Z.eqb Pos.eqb]. rewrite E. do 2 f_equal. cbn.
    fold q. rewrite Eq, if_orb, <- orb_assoc. do 2 f_equal.
    unfold t in Et. by destruct nocase; simplify_eq.
  - ztrue (3 <=? pl). rewrite Hn. cbn [hd0]. rewrite !bind_Ok. zfalse (d =? 45). exact Hch.
Qed.

(** ** Matching tokens *)

Lemma glob_star_iff nc ts s :
  glob nc (TStar :: ts) s <-> exists s1 s2, s = s1 ++ s2 /\ glob nc ts s2.
Proof.
  split.
  - intros H. inversion H; subst; [eauto|done].
  - intros (s1 & s2 & -> & ?). by constructor.
Qed.

Lemma glob_star_star nc ts s : glob nc (TStar :: TStar :: ts) s <-> glob nc (TStar :: ts) s.
Proof.
  rewrite !glob_star_iff. split.
  - intros (s1 & s2 & -> & (s3 & s4 & -> & ?)%glob_star_iff). exists (s1 ++ s3), s4.
    by rewrite app_assoc.
  - intros (s1 & s2 & -> & ?). exists s1, s2. split; [done|]. apply glob_star_iff. by exists [], s2.
Qed.

Lemma glob_one_iff nc t ts x s :
  t <> TStar -> glob nc (t :: ts) (x :: s) <-> token_ok nc x t = true /\ glob nc ts s.
Proof.
  intros Ht. split; [|by intros []; constructor]. intros H. inversion H; subst; done.
Qed.

Lemma glob_one_nil nc t ts : t <> TStar -> ~ glob nc (t :: ts) [].
Proof. intros Ht H. inversion H; subst; done. Qed.

Lemma parse_one_star c r : (parse_one c r).1 = TStar <-> c = 42.
Proof. unfold parse_one. repeat case_match; zprop; simplify_eq/=; split; done || lia. Qed.

Lemma parse_star r : parse (42 :: r) = TStar :: parse r.
Proof. by rewrite parse_cons. Qed.

(** Only stars match the empty string. *)
Lemma glob_nil_iff nc r : glob nc (parse r) [] <-> Forall (fun c => c = 42) r.
Proof.
  induction r as [|c r IH]; [split; constructor|].
  destruct (decide (c = 42)) as [->|Hc].
  - rewrite parse_star, glob_star_iff, Forall_cons. split.
    + intros (s1 & s2 & [-> ->]%eq_sym%app_nil & ?). tauto.
    + intros [_ ?]. exists [], []. tauto.
  - rewrite parse_cons, Forall_cons. split; [|by intros []].
    intros []%glob_one_nil. by rewrite parse_one_star.
Qed.

(** ** The pointer loops *)

Lemma trailing_stars_ok fuel : forall pat p pl r,
  at_rest pat p pl r -> (length r < fuel)%nat ->
  exists pl', trailing_stars fuel pat p pl = Ok pl' /\ (pl' = 0 <-> Forall (fun c => c = 42) r).
Proof.
  induction fuel as [|fuel IH]; intros pat p pl r Hr Hf; [lia|]. cbn [trailing_stars].
  rewrite (at_rest_rd _ _ _ _ Hr), bind_Ok. pose proof (at_rest_len _ _ _ _ Hr) as ->.
  destruct r as [|c r]; cbn [hd0].
  - exists 0. done.
  - destruct (Z.eqb_spec c 42) as [->|Hc].
    + destruct (IH pat (p + 1) (zlen (42 :: r) - 1) r) as (pl' & -> & Hpl);
        [by eapply at_rest_cons|cbn in Hf; lia|].
      exists pl'. split; [done|]. rewrite Hpl, Forall_cons. tauto.
    + eexists. split; [done|]. rewrite Forall_cons. split; [zlia|tauto].
Qed.

(** Skipping stars leaves the last one in front and changes no match. *)
Lemma skip_stars_ok nc fuel : forall pat p pl r,
  at_rest pat p pl (42 :: r) -> (S (length r) < fuel)%nat ->
  exists p' r', skip_stars fuel pat p pl = Ok (p', zlen (42 :: r')) /\ at_rest pat p' (zlen (42 :: r')) (42 :: r') /\
    (length r' <= length r)%nat /\ hd0 r' <> 42 /\
    forall s, glob nc (parse (42 :: r)) s <-> glob nc (parse (42 :: r')) s.
Proof.
  induction fuel as [|fuel IH]; intros pat p pl r Hr Hf; [lia|]. cbn [skip_stars].
  pose proof (at_rest_len _ _ _ _ Hr) as ->. zfalse (zlen (42 :: r) =? 0). cbn [negb].
  rewrite (at_rest_rd_next _ _ _ _ _ Hr), bind_Ok.
  destruct (Z.eqb_spec (hd0 r) 42) as [Hh|Hh].
  - destruct r as [|c r]; [done|]. cbn in Hh. subst c.
    destruct (IH pat (p + 1) (zlen (42 :: 42 :: r) - 1) r) as (p' & r' & -> & Hat & Hlen & Hh & Hg);
      [by eapply at_rest_cons|cbn in Hf; lia|].
    exists p', r'. split_and!; try done; [cbn; lia|].
    intros s. rewrite <- Hg, !parse_star. apply glob_star_star.
  - exists p, r. done.
Qed.

Lemma match_one_ok pat p pl c r str j x nc :
  at_rest pat p pl (c :: r) -> c <> 42 -> rd1 str j = Ok x ->
  exists o, match_one pat p pl str j nc = Ok o /\
    match o with
    | None => token_ok nc x (parse_one c r).1 = false
    | Some (p', pl') => token_ok nc x (parse_one c r).1 = true /\
                        at_rest pat (p' + 1) (pl' - 1) (parse_one c r).2
    end.
Proof.
  intros Hr Hc Hx. unfold match_one, parse_one. rewrite (at_rest_rd _ _ _ _ Hr), bind_Ok. cbn [hd0].
  zfalse (c =? 42). pose proof (at_rest_cons _ _ _ _ _ Hr) as Hr1.
  pose proof (at_rest_len _ _ _ _ Hr) as Hpl. rewrite zlen_cons in Hpl. pose proof (zlen_nonneg r).
  assert (forall d r' p0 pl0, at_rest pat p0 pl0 (d :: r') -> exists o,
    (c ← rd1 pat p0; s0 ← rd1 str j;
     if negb nc then (if negb (c =? s0) then Ok None else Ok (Some (p0, pl0)))
     else (if negb (tolower c =? tolower s0) then Ok None else Ok (Some (p0, pl0)))) = Ok o /\
    match o with
    | None => token_ok nc x (TLit d) = false
    | Some (p', pl') => token_ok nc x (TLit d) = true /\ at_rest pat (p' + 1) (pl' - 1) r'
    end) as Hlit.
  { intros d r' p0 pl0 Hd. rewrite (at_rest_rd _ _ _ _ Hd), bind_Ok, Hx, bind_Ok. cbn [hd0 token_ok].
    unfold char_eq. apply at_rest_cons in Hd. destruct nc; cbn [negb]; case_match eqn:E; zprop;
      eexists; (split; [done|]); cbn iota beta; try (split; [|done]); lia. }
  destruct (Z.eqb_spec c 63) as [->|]; [by eexists|].
  destruct (Z.eqb_spec c 91) as [->|].
  - rewrite (at_rest_rd _ _ _ _ Hr1), bind_Ok.
    assert (exists R p1 pl1, (if hd0 r =? 94 then (p + 1 + 1, pl - 1 - 1) else (p + 1, pl - 1)) = (p1, pl1) /\
      match r with d :: r' => if d =? 94 then (true, r') else (false, r) | [] => (false, r) end = (hd0 r =? 94, R) /\
      at_rest pat p1 pl1 R) as (R & p1 & pl1 & -> & -> & HR).
    { destruct r as [|d r]; cbn [hd0]; [by eexists _, _, _|].
      destruct (Z.eqb_spec d 94); eexists _, _, _; split_and!; try done. by eapply at_rest_cons. }
    cbn [fst snd]. pose proof (at_rest_len _ _ _ _ HR) as ->.
    destruct (class_loop_ok (S (Z.to_nat (zlen R))) pat R p1 (zlen R) str j x nc false)
      as (p' & pl' & -> & Hat); [done|done|rewrite zlen_to_nat; lia|].
    rewrite bind_Ok. cbn [token_ok orb].
    match goal with |- context [negb ?b] => destruct b eqn:E end; cbn [negb]; eexists; (split; [done|]); try done.
  - destruct (Z.eqb_spec c 92) as [->|].
    + destruct r as [|x' r]; rewrite Z.geb_leb.
      * zfalse (2 <=? pl). cbn [andb fst snd]. by apply Hlit.
      * rewrite zlen_cons in Hpl. pose proof (zlen_nonneg r). ztrue (2 <=? pl). cbn [andb fst snd]. by apply Hlit.
    + cbn [andb fst snd]. by apply Hlit.
Qed.

Lemma star_loop_ok (rec : Z -> Z -> res bool) (Q : list Z -> Prop) str :
  (forall S1 T, str = S1 ++ T -> T <> [] -> exists b, rec (zlen S1) (zlen T) = Ok b /\ (b = true <-> Q T)) ->
  forall T S1, str = S1 ++ T ->
  exists b, star_loop (length T) rec (zlen S1) (zlen T) = Ok b /\
    (b = true <-> exists T1 T2, T = T1 ++ T2 /\ T2 <> [] /\ Q T2).
Proof.
  intros Hrec. induction T as [|x T IH]; intros S1 Hs.
  - exists false. split; [done|]. split; [done|]. intros (T1 & T2 & [-> ->]%eq_sym%app_nil & ? & _). done.
  - cbn [length star_loop]. destruct (Hrec S1 (x :: T) Hs) as ([|] & -> & Hb); [done|..]; rewrite bind_Ok.
    + exists true. split; [done|]. split; [|done]. intros _. exists [], (x :: T). split_and!; [done..|]. tauto.
    + destruct (IH (S1 ++ [x])) as (b & E & Hiff); [by rewrite <- app_assoc|].
      replace (zlen S1 + 1) with (zlen (S1 ++ [x])) by zlia.
      replace (zlen (x :: T) - 1) with (zlen T) by zlia. rewrite E.
      exists b. split; [done|]. rewrite Hiff. split.
      * intros (T1 & T2 & -> & ?). by exists (x :: T1), T2.
      * intros ([|y T1] & T2 & E' & ? & HQ); cbn in E'; subst; [by apply Hb in HQ|].
        injection E' as -> ->. by exists T1, T2.
Qed.

Lemma stringmatchlen_fuel_ok nc fuel : forall pat p pl R str S1 T,
  at_rest pat p pl R -> str = S1 ++ T -> T <> [] -> (length R < fuel)%nat ->
  exists b, stringmatchlen_fuel fuel pat p pl str (zlen S1) (zlen T) nc = Ok b /\
    (b = true <-> glob nc (parse R) T).
Proof.
  induction fuel as [|fuel IH]; intros pat p pl R str S1 T HR Hs HT Hf; [lia|].
  cbn [stringmatchlen_fuel]. pose proof (at_rest_len _ _ _ _ HR) as Hpl.
  assert (0 < zlen T) by (destruct T; [done|zlia]).
  destruct R as [|c r].
  { rewrite zlen_nil in Hpl. subst pl. cbn [Z.eqb negb andb]. eexists; split; [done|].
    zfalse (zlen T =? 0). split; [done|]. intros Hg. inversion Hg; subst; done. }
  rewrite zlen_cons in Hpl. pose proof (zlen_nonneg r).
  zfalse (pl =? 0). zfalse (zlen T =? 0). cbn [negb andb].
  rewrite (at_rest_rd _ _ _ _ HR), bind_Ok. cbn [hd0].
  destruct (Z.eqb_spec c 42) as [->|Hc].
  - destruct (skip_stars_ok nc (S (Z.to_nat pl)) pat p pl r) as (p' & r' & -> & Hat & Hlen & Hh & Hg);
      [done|unfold zlen in *; lia|]. rewrite bind_Ok.
    destruct (Z.eqb_spec (zlen (42 :: r')) 1) as [E1|E1].
    { assert (r' = []) as -> by (apply nil_length_inv; unfold zlen in *; cbn in *; lia).
      exists true. split; [done|]. rewrite Hg, parse_star. split; [|done]. intros _.
      apply glob_star_iff. exists T, []. split; [by rewrite app_nil_r|constructor]. }
    rewrite zlen_to_nat.
    destruct (star_loop_ok (fun j sl => stringmatchlen_fuel fuel pat (p' + 1) (zlen (42 :: r') - 1) str j sl nc)
      (glob nc (parse r')) str) with (T := T) (S1 := S1) as (b & -> & Hb); [|done|].
    { intros S2 T2 Hs2 HT2. apply IH; try done; [by eapply at_rest_cons|cbn in Hf; lia]. }
    exists b. split; [done|]. rewrite Hb, Hg, parse_star, glob_star_iff. split.
    + intros (T1 & T2 & -> & _ & ?). by exists T1, T2.
    + intros (T1 & T2 & -> & Hm). exists T1, T2. split_and!; [done| |done].
      intros ->. destruct r' as [|d r']; [done|]. rewrite parse_cons in Hm.
      apply glob_one_nil in Hm; [done|]. by rewrite parse_one_star.
  - destruct T as [|x T]; [done|].
    destruct (match_one_ok pat p pl c r str (zlen S1) x nc) as (o & -> & Ho); try done.
    { rewrite Hs. by apply rd1_app. }
    rewrite bind_Ok, parse_cons. assert ((parse_one c r).1 <> TStar) by (by rewrite parse_one_star).
    rewrite zlen_cons. replace (1 + zlen T - 1) with (zlen T) by lia.
    destruct o as [[p1 pl1]|]; last first.
    { exists false. split; [done|]. rewrite glob_one_iff, Ho by done. naive_solver. }
    destruct Ho as [Hok Hat]. pose proof (parse_one_length c r).
    pose proof (at_rest_len _ _ _ _ Hat) as Hpl1.
    destruct (Z.eqb_spec (zlen T) 0) as [E0|E0].
    + assert (T = []) as -> by (apply nil_length_inv; unfold zlen in *; lia).
      destruct (trailing_stars_ok (S (Z.to_nat (pl1 - 1))) pat (p1 + 1) (pl1 - 1) (parse_one c r).2)
        as (pl' & -> & Hts); [done|rewrite Hpl1, zlen_to_nat; lia|].
      rewrite bind_Ok. eexists; split; [done|]. rewrite glob_one_iff, glob_nil_iff, <- Hts by done.
      rewrite Hok. cbn. rewrite andb_true_r, Z.eqb_eq. tauto.
    + destruct (IH pat (p1 + 1) (pl1 - 1) (parse_one c r).2 str (S1 ++ [x]) T)
        as (b & E & Hb); [done|by rewrite <- app_assoc|by intros ->|cbn in Hf; lia|].
      rewrite zlen_app in E. change (zlen [x]) with 1 in E. rewrite E.
      exists b. split; [done|]. rewrite Hb, glob_one_iff, Hok by done. tauto.
Qed.

(** * Properties *)

(** C22: [stringmatchlen] implements the glob language.  On any NUL-terminated
    pattern and any string that is not empty it stops, never reads outside the
    pattern (the look-ahead of the star, range and class rules included) or the
    string, and answers whether the tokens of the pattern match the string. *)
Theorem stringmatchlen_correct pattern str nocase :
  str <> [] ->
  exists b, stringmatchlen (pattern ++ [0]) (zlen pattern) str (zlen str) nocase = Ok b /\
    (b = true <-> glob nocase (parse pattern) str).
Proof.
  intros Hs. apply (stringmatchlen_fuel_ok nocase _ _ 0 (zlen pattern) pattern str [] str); try done.
  - split; [done|]. by exists [].
  - rewrite zlen_to_nat. lia.
Qed.

Lemma stringmatchlen_correct_witness :
  exists b, stringmatchlen ([104; 91; 97; 45; 101; 93; 42] ++ [0]) 7 [104; 98; 120] 3 false = Ok b /\
    (b = true <-> glob false (parse [104; 91; 97; 45; 101; 93; 42]) [104; 98; 120]).
Proof. apply (stringmatchlen_correct [104; 91; 97; 45; 101; 93; 42] [104; 98; 120] false). done. Defined.

(** The empty string is matched by the empty pattern only: a pattern of
    stars, which matches every other string, is answered with no match. *)
Theorem stringmatchlen_empty pattern nocase :
  stringmatchlen (pattern ++ [0]) (zlen pattern) [] 0 nocase = Ok (bool_decide (pattern = [])).
Proof.
  unfold stringmatchlen. cbn [stringmatchlen_fuel]. rewrite andb_false_r, andb_true_r.
  f_equal. case_bool_decide as E; [by subst|]. destruct pattern; [done|]. zlia.
Qed.
