(* ===== verification/Sds.v ===== *)
(** Dynamic strings: [sds.c] and the header accessors of [sds.h].

    An sds string is a pointer into an allocation: before it lies a packed header
    of one of five types, whose last byte has the type in its low bits, after it
    the characters, a terminator and free space.  The model is the allocation as
    bytes and the offset of the pointer; every operation reads and writes the
    header fields at their widths and the characters in place, and changes the
    header type when the string outgrows it.  The theorems say that the bytes of
    the string change as the operation promises, and that the layout invariant
    [sds_repr] is kept.  The allocator is a parameter with the laws of [malloc]. *)
From S2P Require Import Prelude Endian Util Glob.
From stdpp Require Import list strings.

Open Scope Z_scope.

(** * Definitions *)

(** ** The allocator *)

(** The largest request the allocator grants, and the size of the block it gives
    for a request, which [zmalloc_size] reports. *)
Class Allocator := {
  max_request : Z;
  usable_size : Z -> Z;
  usable_size_ge : forall n, 0 < n -> n <= usable_size n;
  usable_size_max : forall n, n <= max_request -> usable_size n <= SIZE_MAX;
  max_request_bound : max_request < 2 ^ 63;
}.

(** The allocation and the offset of the string in it. *)
Record sds := Sds { blk : list Z; off : Z }.

Section Memory.
Context `{Host} `{Allocator}.

Definition fresh_bytes (n : Z) : list Z := uninit <$> seq 0 (Z.to_nat n).

(** The block and its usable size; [None] when the allocation fails. *)
Definition ztrymalloc_usable (size : Z) : option (list Z * Z) :=
  if size <=? max_request then let size := usable_size size in Some (fresh_bytes size, size) else None.

Definition zmalloc_usable (size : Z) : res (list Z * Z) :=
  match ztrymalloc_usable size with Some r => Ok r | None => Panic end.

(** When the usable size is not asked for, only the requested bytes may be used. *)
Definition zmalloc (size : Z) : res (list Z) :=
  if size <=? max_request then Ok (fresh_bytes size) else Panic.

Definition zrealloc_usable (ptr : list Z) (size : Z) : res (list Z * Z) :=
  if size <=? max_request then let size := usable_size size in Ok (Prelude.zrealloc ptr size, size) else Panic.

Definition zrealloc (ptr : list Z) (size : Z) : res (list Z) :=
  if size <=? max_request then Ok (Prelude.zrealloc ptr size) else Panic.

(** ** Strings and their headers *)

Definition SDS_TYPE_5 : Z := 0.
Definition SDS_TYPE_8 : Z := 1.
Definition SDS_TYPE_16 : Z := 2.
Definition SDS_TYPE_32 : Z := 3.
Definition SDS_TYPE_64 : Z := 4.
Definition SDS_TYPE_MASK : Z := 7.
Definition SDS_TYPE_BITS : Z := 3.
Definition SDS_MAX_PREALLOC : Z := 1024 * 1024.

Definition SDS_TYPE_5_LEN (f : Z) : Z := Z.shiftr f SDS_TYPE_BITS.

(** [s[i]], and [memcpy(s+i, bs, n)]. *)
Definition sget (s : sds) (i n : Z) : res (list Z) := rd (blk s) (off s + i) n.
Definition sget1 (s : sds) (i : Z) : res Z := rd1 (blk s) (off s + i).
Definition sput (s : sds) (i : Z) (bs : list Z) : res sds := m ← wr (blk s) (off s + i) bs; Ok (Sds m (off s)).

(** What a [char *] to the string can reach. *)
Definition cbuf (s : sds) : list Z := drop (Z.to_nat (off s)) (blk s).

(** The fields of a header whose length and allocation are [w] bytes wide. *)
Definition hdr_len (w : nat) (s : sds) : res Z :=
  v ← sget s (- (2 * Z.of_nat w + 1)) (Z.of_nat w); Ok (host_val v).
Definition hdr_alloc (w : nat) (s : sds) : res Z :=
  v ← sget s (- (Z.of_nat w + 1)) (Z.of_nat w); Ok (host_val v).
Definition hdr_set_len (w : nat) (s : sds) (v : Z) : res sds := sput s (- (2 * Z.of_nat w + 1)) (host_bytes w v).
Definition hdr_set_alloc (w : nat) (s : sds) (v : Z) : res sds := sput s (- (Z.of_nat w + 1)) (host_bytes w v).

(** [switch(flags&SDS_TYPE_MASK)] where the cases of the types with a header are
    the same code at the width of their fields. *)
Definition sds_switch {A} (flags : Z) (type_5 : A) (hdr : nat -> A) (dflt : A) : A :=
  let t := Z.land flags SDS_TYPE_MASK in
  if t =? SDS_TYPE_5 then type_5
  else if t =? SDS_TYPE_8 then hdr 1%nat
  else if t =? SDS_TYPE_16 then hdr 2%nat
  else if t =? SDS_TYPE_32 then hdr 4%nat
  else if t =? SDS_TYPE_64 then hdr 8%nat
  else dflt.

Definition sdslen (s : sds) : res Z :=
  flags ← sget1 s (-1);
  sds_switch flags (Ok (SDS_TYPE_5_LEN flags)) (fun w => hdr_len w s) (Ok 0).

Definition sdsavail (s : sds) : res Z :=
  flags ← sget1 s (-1);
  sds_switch flags (Ok 0)
    (fun w => alloc ← hdr_alloc w s; len ← hdr_len w s; Ok (wrapU (if (w =? 4)%nat then 32 else 64) (alloc - len)))
    (Ok 0).

Definition sdssetlen (s : sds) (newlen : Z) : res sds :=
  flags ← sget1 s (-1);
  sds_switch flags (sput s (-1) [wrapU 8 (Z.lor SDS_TYPE_5 (Z.shiftl newlen SDS_TYPE_BITS))])
    (fun w => hdr_set_len w s newlen) (Ok s).

Definition sdsinclen (s : sds) (inc : Z) : res sds :=
  flags ← sget1 s (-1);
  sds_switch flags
    (let newlen := wrapU 8 (SDS_TYPE_5_LEN flags + inc) in
     sput s (-1) [wrapU 8 (Z.lor SDS_TYPE_5 (Z.shiftl newlen SDS_TYPE_BITS))])
    (fun w => len ← hdr_len w s; hdr_set_len w s (len + inc)) (Ok s).

Definition sdsalloc (s : sds) : res Z :=
  flags ← sget1 s (-1);
  sds_switch flags (Ok (SDS_TYPE_5_LEN flags)) (fun w => hdr_alloc w s) (Ok 0).

Definition sdssetalloc (s : sds) (newlen : Z) : res sds :=
  flags ← sget1 s (-1);
  sds_switch flags (Ok s) (fun w => hdr_set_alloc w s newlen) (Ok s).

Definition sdsHdrSize (type : Z) : Z :=
  sds_switch type 1 (fun w => 2 * Z.of_nat w + 1) 0.

Definition sdsReqType (string_size : Z) : Z :=
  if string_size <? Z.shiftl 1 5 then SDS_TYPE_5
  else if string_size <? Z.shiftl 1 8 then SDS_TYPE_8
  else if string_size <? Z.shiftl 1 16 then SDS_TYPE_16
  else if string_size <? Z.shiftl 1 32 then SDS_TYPE_32
  else SDS_TYPE_64.

Definition sdsTypeMaxSize (type : Z) : Z :=
  if type =? SDS_TYPE_5 then Z.shiftl 1 5 - 1
  else if type =? SDS_TYPE_8 then Z.shiftl 1 8 - 1
  else if type =? SDS_TYPE_16 then Z.shiftl 1 16 - 1
  else if type =? SDS_TYPE_32 then Z.shiftl 1 32 - 1
  else SIZE_MAX.

(** The usable part of a block for the characters, as far as the header counts. *)
Definition usable_chars (type hdrlen usable : Z) : Z :=
  let usable := wrapU 64 (usable - hdrlen - 1) in
  if usable >? sdsTypeMaxSize type then sdsTypeMaxSize type else usable.

(** ** Creation *)

(** [NULL], [SDS_NOINIT] or a buffer. *)
Inductive sds_init := InitZero | SDS_NOINIT | InitFrom (buf : list Z).

(** [None] is the null pointer. *)
Definition _sdsnewlen (init : sds_init) (initlen : Z) (trymalloc : bool) : res (option sds) :=
  let type := sdsReqType initlen in
  let type := if (type =? SDS_TYPE_5) && (initlen =? 0) then SDS_TYPE_8 else type in
  let hdrlen := sdsHdrSize type in
  assert! (wrapU 64 (initlen + hdrlen + 1) >? initlen);
  let size := wrapU 64 (hdrlen + initlen + 1) in
  r ← (if trymalloc then Ok (ztrymalloc_usable size) else r ← zmalloc_usable size; Ok (Some r));
  match r with
  | None => Ok None
  | Some (sh, usable) =>
      sh ← match init with InitZero => wr sh 0 (replicate (Z.to_nat size) 0) | _ => Ok sh end;
      let s := Sds sh hdrlen in
      let usable := usable_chars type hdrlen usable in
      s ← sds_switch type
            (sput s (-1) [wrapU 8 (Z.lor type (Z.shiftl initlen SDS_TYPE_BITS))])
            (fun w => s ← hdr_set_len w s initlen; s ← hdr_set_alloc w s usable; sput s (-1) [type])
            (Ok s);
      s ← match init with
          | InitFrom buf => if negb (initlen =? 0) then bs ← rd buf 0 initlen; sput s 0 bs else Ok s
          | _ => Ok s
          end;
      s ← sput s initlen [0];
      Ok (Some s)
  end.

(** The null pointer is not returned when failed allocations abort. *)
Definition sdsnewlen (init : sds_init) (initlen : Z) : res sds :=
  r ← _sdsnewlen init initlen false;
  match r with Some s => Ok s | None => Fault end.

Definition sdstrynewlen (init : sds_init) (initlen : Z) : res (option sds) := _sdsnewlen init initlen true.

Definition sdsempty : res sds := sdsnewlen (InitFrom [0]) 0.

(** [strlen(t)] of a buffer: reading on past its end is undefined. *)
Fixpoint strlen (t : list Z) : res Z :=
  match t with
  | [] => Fault
  | c :: t => if c =? 0 then Ok 0 else n ← strlen t; Ok (1 + n)
  end.

Definition sdsnew (init : option (list Z)) : res sds :=
  match init with
  | None => sdsnewlen InitZero 0
  | Some init => initlen ← strlen init; sdsnewlen (InitFrom init) initlen
  end.

Definition sdsdup (s : sds) : res sds :=
  len ← sdslen s; sdsnewlen (InitFrom (cbuf s)) len.

Definition sdsupdatelen (s : sds) : res sds :=
  reallen ← strlen (cbuf s); sdssetlen s reallen.

Definition sdsclear (s : sds) : res sds :=
  s ← sdssetlen s 0; sput s 0 [0].

(** ** Room *)

(** The pointer to the allocation, [s - sdsHdrSize(type)]: only the start of the
    block can be reallocated or freed. *)
Definition block_start (s : sds) (type : Z) : res (list Z) :=
  inbounds! (off s =? sdsHdrSize type); Ok (blk s).

Definition _sdsMakeRoomFor (s : sds) (addlen : Z) (greedy : bool) : res sds :=
  avail ← sdsavail s;
  flags ← sget1 s (-1);
  let oldtype := Z.land flags SDS_TYPE_MASK in
  if avail >=? addlen then Ok s
  else
    len ← sdslen s;
    sh ← block_start s oldtype;
    let reqlen := wrapU 64 (len + addlen) in
    let newlen := reqlen in
    assert! (newlen >? len);
    let newlen :=
      if greedy then
        if newlen <? SDS_MAX_PREALLOC then wrapU 64 (newlen * 2) else wrapU 64 (newlen + SDS_MAX_PREALLOC)
      else newlen in
    let type := sdsReqType newlen in
    let type := if type =? SDS_TYPE_5 then SDS_TYPE_8 else type in
    let hdrlen := sdsHdrSize type in
    assert! (wrapU 64 (hdrlen + newlen + 1) >? reqlen);
    '(s, usable) ←
      (if oldtype =? type then
         '(newsh, usable) ← zrealloc_usable sh (wrapU 64 (hdrlen + newlen + 1));
         Ok (Sds newsh hdrlen, usable)
       else
         '(newsh, usable) ← zmalloc_usable (wrapU 64 (hdrlen + newlen + 1));
         bs ← sget s 0 (len + 1);
         newsh ← wr newsh hdrlen bs;
         let s := Sds newsh hdrlen in
         s ← sput s (-1) [type];
         s ← sdssetlen s len;
         Ok (s, usable));
    sdssetalloc s (usable_chars type hdrlen usable).

Definition sdsMakeRoomFor (s : sds) (addlen : Z) : res sds := _sdsMakeRoomFor s addlen true.

Definition sdsMakeRoomForNonGreedy (s : sds) (addlen : Z) : res sds := _sdsMakeRoomFor s addlen false.

Definition sdsRemoveFreeSpace (s : sds) : res sds :=
  flags ← sget1 s (-1);
  let oldtype := Z.land flags SDS_TYPE_MASK in
  let oldhdrlen := sdsHdrSize oldtype in
  len ← sdslen s;
  avail ← sdsavail s;
  sh ← block_start s oldtype;
  if avail =? 0 then Ok s
  else
    let type := sdsReqType len in
    let hdrlen := sdsHdrSize type in
    s ← (if (oldtype =? type) || (type >? SDS_TYPE_8) then
           newsh ← zrealloc sh (wrapU 64 (oldhdrlen + len + 1));
           Ok (Sds newsh oldhdrlen)
         else
           newsh ← zmalloc (wrapU 64 (hdrlen + len + 1));
           bs ← sget s 0 (len + 1);
           newsh ← wr newsh hdrlen bs;
           let s := Sds newsh hdrlen in
           s ← sput s (-1) [type];
           sdssetlen s len);
    sdssetalloc s len.

Definition sdsResize (s : sds) (size : Z) : res sds :=
  flags ← sget1 s (-1);
  let oldtype := Z.land flags SDS_TYPE_MASK in
  let oldhdrlen := sdsHdrSize oldtype in
  len ← sdslen s;
  sh ← block_start s oldtype;
  alloc ← sdsalloc s;
  if alloc =? size then Ok s
  else
    let len := if size <? len then size else len in
    let type := sdsReqType size in
    let type := if type =? SDS_TYPE_5 then SDS_TYPE_8 else type in
    let hdrlen := sdsHdrSize type in
    s ← (if (oldtype =? type) || ((type <? oldtype) && (type >? SDS_TYPE_8)) then
           newsh ← zrealloc sh (wrapU 64 (oldhdrlen + size + 1));
           Ok (Sds newsh oldhdrlen)
         else
           newsh ← zmalloc (wrapU 64 (hdrlen + size + 1));
           bs ← sget s 0 len;
           newsh ← wr newsh hdrlen bs;
           sput (Sds newsh hdrlen) (-1) [type]);
    s ← sput s len [0];
    s ← sdssetlen s len;
    sdssetalloc s size.

Definition sdsAllocSize (s : sds) : res Z :=
  alloc ← sdsalloc s;
  flags ← sget1 s (-1);
  Ok (wrapU 64 (sdsHdrSize flags + alloc + 1)).

(** [incr] is not the smallest [ssize_t], which cannot be negated. *)
Definition sdsIncrLen (s : sds) (incr : Z) : res sds :=
  flags ← sget1 s (-1);
  '(s, len) ← sds_switch flags
    (let oldlen := SDS_TYPE_5_LEN flags in
     assert! (((incr >? 0) && (oldlen + incr <? 32)) || ((incr <? 0) && (oldlen >=? wrapU 32 (- incr))));
     s ← sput s (-1) [wrapU 8 (Z.lor SDS_TYPE_5 (Z.shiftl (oldlen + incr) SDS_TYPE_BITS))];
     Ok (s, oldlen + incr))
    (fun w =>
     let u := if (w =? 8)%nat then 64 else 32 in
     alloc ← hdr_alloc w s;
     len ← hdr_len w s;
     let room :=
       if (w =? 1)%nat || (w =? 2)%nat then alloc - len >=? incr
       else wrapU u (alloc - len) >=? wrapU u incr in
     assert! (((incr >=? 0) && room) || ((incr <? 0) && (len >=? wrapU u (- incr))));
     let len := wrapU (8 * Z.of_nat w) (len + incr) in
     s ← hdr_set_len w s len;
     Ok (s, len))
    (Ok (s, 0));
  sput s len [0].

(** ** Contents *)

Definition sdsgrowzero (s : sds) (len : Z) : res sds :=
  curlen ← sdslen s;
  if len <=? curlen then Ok s
  else
    s ← sdsMakeRoomFor s (len - curlen);
    s ← sput s curlen (replicate (Z.to_nat (len - curlen + 1)) 0);
    sdssetlen s len.

Definition sdscatlen (s : sds) (t : list Z) (len : Z) : res sds :=
  curlen ← sdslen s;
  s ← sdsMakeRoomFor s len;
  bs ← rd t 0 len;
  s ← sput s curlen bs;
  s ← sdssetlen s (wrapU 64 (curlen + len));
  sput s (wrapU 64 (curlen + len)) [0].

Definition sdscat (s : sds) (t : list Z) : res sds :=
  len ← strlen t; sdscatlen s t len.

Definition sdscatsds (s t : sds) : res sds :=
  len ← sdslen t; sdscatlen s (cbuf t) len.

Definition sdscpylen (s : sds) (t : list Z) (len : Z) : res sds :=
  alloc ← sdsalloc s;
  s ← (if alloc <? len then
         curlen ← sdslen s;
         sdsMakeRoomFor s (wrapU 64 (len - curlen))
       else Ok s);
  bs ← rd t 0 len;
  s ← sput s 0 bs;
  s ← sput s len [0];
  sdssetlen s len.

Definition sdscpy (s : sds) (t : list Z) : res sds :=
  len ← strlen t; sdscpylen s t len.

(** [strchr(set, c) != NULL]: the terminator belongs to the string. *)
Fixpoint strchr (set : list Z) (c : Z) : res bool :=
  match set with
  | [] => Fault
  | x :: set => if x =? c then Ok true else if x =? 0 then Ok false else strchr set c
  end.

(** [while(sp <= end && strchr(cset, *sp)) sp++] *)
Fixpoint sdstrim_left (fuel : nat) (s : sds) (cset : list Z) (sp end_ : Z) : res Z :=
  match fuel with
  | O => OutOfFuel
  | S fuel =>
      if sp <=? end_ then
        c ← sget1 s sp;
        b ← strchr cset c;
        if (b : bool) then sdstrim_left fuel s cset (sp + 1) end_ else Ok sp
      else Ok sp
  end.

(** [while(ep > sp && strchr(cset, *ep)) ep--] *)
Fixpoint sdstrim_right (fuel : nat) (s : sds) (cset : list Z) (ep sp : Z) : res Z :=
  match fuel with
  | O => OutOfFuel
  | S fuel =>
      if ep >? sp then
        c ← sget1 s ep;
        b ← strchr cset c;
        if (b : bool) then sdstrim_right fuel s cset (ep - 1) sp else Ok ep
      else Ok ep
  end.

Definition sdstrim (s : sds) (cset : list Z) : res sds :=
  slen ← sdslen s;
  let end_ := slen - 1 in
  sp ← sdstrim_left (S (Z.to_nat slen)) s cset 0 end_;
  ep ← sdstrim_right (S (Z.to_nat slen)) s cset end_ sp;
  let len := ep - sp + 1 in
  s ← (if negb (sp =? 0) then bs ← sget s sp len; sput s 0 bs else Ok s);
  s ← sput s len [0];
  sdssetlen s len.

Definition sdssubstr (s : sds) (start len : Z) : res sds :=
  oldlen ← sdslen s;
  let '(start, len) := if start >=? oldlen then (0, 0) else (start, len) in
  let len := if len >? oldlen - start then oldlen - start else len in
  s ← (if negb (len =? 0) then bs ← sget s start len; sput s 0 bs else Ok s);
  s ← sput s len [0];
  sdssetlen s len.

Definition sdsrange (s : sds) (start end_ : Z) : res sds :=
  len ← sdslen s;
  if len =? 0 then Ok s
  else
    let start := if start <? 0 then wrapS 64 (len + start) else start in
    let end_ := if end_ <? 0 then wrapS 64 (len + end_) else end_ in
    newlen ← (if start >? end_ then Ok 0 else d ← sint 64 (end_ - start); sint 64 (d + 1));
    sdssubstr s (wrapU 64 start) newlen.

(** [for (j = 0; j < len; j++) s[j] = f(s[j])]; [n] is [len - j]. *)
Fixpoint sds_map_loop (f : Z -> Z) (n : nat) (s : sds) (j : Z) : res sds :=
  match n with
  | O => Ok s
  | S n => c ← sget1 s j; s ← sput s j [f c]; sds_map_loop f n s (j + 1)
  end.

Definition sdstolower (s : sds) : res sds := len ← sdslen s; sds_map_loop tolower (Z.to_nat len) s 0.

Definition toupper (c : Z) : Z := if (97 <=? c) && (c <=? 122) then c - 32 else c.

Definition sdstoupper (s : sds) : res sds := len ← sdslen s; sds_map_loop toupper (Z.to_nat len) s 0.

(** [memcmp]: only the sign of its result is specified. *)
Fixpoint memcmp (n : nat) (a b : list Z) : res Z :=
  match n with
  | O => Ok 0
  | S n =>
      match a, b with
      | x :: a, y :: b => if x <? y then Ok (-1) else if x >? y then Ok 1 else memcmp n a b
      | _, _ => Fault
      end
  end.

Definition sdscmp (s1 s2 : sds) : res Z :=
  l1 ← sdslen s1;
  l2 ← sdslen s2;
  let minlen := if l1 <? l2 then l1 else l2 in
  cmp ← memcmp (Z.to_nat minlen) (cbuf s1) (cbuf s2);
  if cmp =? 0 then Ok (if l1 >? l2 then 1 else if l1 <? l2 then -1 else 0) else Ok cmp.

(** ** Integers *)

Definition SDS_LLSTR_SIZE : Z := 21.

(** [do { *p++ = '0'+(v%10); v /= 10; } while(v)]: the buffer and [p]. *)
Fixpoint ll2str_digits (fuel : nat) (s : list Z) (p v : Z) : res (list Z * Z) :=
  match fuel with
  | O => OutOfFuel
  | S fuel =>
      s ← wr s p [48 + v mod 10];
      let v := v / 10 in
      if negb (v =? 0) then ll2str_digits fuel s (p + 1) v else Ok (s, p + 1)
  end.

(** [while(s < p) { swap *s and *p; s++; p--; }] *)
Fixpoint ll2str_reverse (fuel : nat) (buf : list Z) (s p : Z) : res (list Z) :=
  match fuel with
  | O => OutOfFuel
  | S fuel =>
      if s <? p then
        aux ← rd1 buf s;
        c ← rd1 buf p;
        buf ← wr buf s [c];
        buf ← wr buf p [aux];
        ll2str_reverse fuel buf (s + 1) (p - 1)
      else Ok buf
  end.

(** The buffer and the length. *)
Definition sdsll2str (s : list Z) (value : Z) : res (list Z * Z) :=
  v ← (if value <? 0 then
         if negb (value =? INT64_MIN) then v ← sint 64 (- value); Ok (wrapU 64 v)
         else Ok (wrapU 64 (INT64_MAX + 1))
       else Ok value);
  '(s, p) ← ll2str_digits 21 s 0 v;
  '(s, p) ← (if value <? 0 then s ← wr s p [45]; Ok (s, p + 1) else Ok (s, p));
  let l := p in
  s ← wr s p [0];
  s ← ll2str_reverse 22 s 0 (p - 1);
  Ok (s, l).

Definition sdsull2str (s : list Z) (v : Z) : res (list Z * Z) :=
  '(s, p) ← ll2str_digits 21 s 0 v;
  let l := p in
  s ← wr s p [0];
  s ← ll2str_reverse 22 s 0 (p - 1);
  Ok (s, l).

Definition sdsfromlonglong (value : Z) : res sds :=
  '(buf, len) ← sdsll2str (fresh_bytes SDS_LLSTR_SIZE) value;
  sdsnewlen (InitFrom buf) len.

End Memory.

(** * Specification *)

(** The characters before the terminator: every sds string is followed by one. *)
Fixpoint cstr (s : list Z) : list Z :=
  match s with
  | [] => []
  | c :: s => if c =? 0 then [] else c :: cstr s
  end.

(** The leading bytes that satisfy [P] dropped. *)
Fixpoint drop_while (P : Z -> bool) (l : list Z) : list Z :=
  match l with
  | [] => []
  | x :: l => if P x then drop_while P l else x :: l
  end.

(** What [sdstrim] leaves: a byte is trimmed when it is in the set, or NUL. *)
Definition trimmed (cset c : list Z) : list Z :=
  let P := fun x => bool_decide (x = 0 \/ x ∈ cset) in
  rev (drop_while P (rev (drop_while P c))).

(** The part of a string from [start] of [len] bytes, clipped. *)
Definition substr (c : list Z) (start len : Z) : list Z := take (Z.to_nat len) (drop (Z.to_nat start) c).

(** What [sdsrange] leaves: the bytes from [start] to [end_], both inclusive and
    counted from the end when negative; nothing when the start is out of range. *)
Definition range (c : list Z) (start end_ : Z) : list Z :=
  let abs i := if i <? 0 then zlen c + i else i in
  if (abs start <? 0) || (abs start >? abs end_) then [] else substr c (abs start) (abs end_ - abs start + 1).

(** What [sdsgrowzero] does to the bytes. *)
Definition sdsgrowzero_bytes (c : list Z) (len : Z) : list Z :=
  if len <=? zlen c then c else c ++ replicate (Z.to_nat (len - zlen c)) 0.

(** The order of [memcmp], a prefix before its extensions. *)
Fixpoint lex (a b : list Z) : Z :=
  match a, b with
  | [], [] => 0
  | [], _ => -1
  | _, [] => 1
  | x :: a, y :: b => if x <? y then -1 else if y <? x then 1 else lex a b
  end.

Section Layout.
Context `{Host}.

(** The bytes of a header and the string behind it. *)
Definition header (T len alloc : Z) : list Z :=
  sds_switch T [wrapU 8 (Z.lor SDS_TYPE_5 (Z.shiftl len SDS_TYPE_BITS))]
    (fun w => host_bytes w len ++ host_bytes w alloc ++ [T]) [].

Definition mk (T len alloc : Z) (body : list Z) : sds := Sds (header T len alloc ++ body) (sdsHdrSize T).

(** An sds string of header type [T] and capacity [alloc] that holds [c]: the
    characters are followed by a terminator, and the capacity is inside the block.
    A string of type 5 has no free space it knows of.  While a string is written to
    any byte [y] can be in the place of the terminator. *)
Definition sds_open (y T alloc : Z) (s : sds) (c : list Z) : Prop :=
  0 <= T <= 4 /\ zlen c <= alloc <= sdsTypeMaxSize T /\ (T = 0 -> alloc = zlen c) /\ Forall is_byte c /\
  exists free, s = mk T (zlen c) alloc (c ++ y :: free) /\ alloc <= zlen c + zlen free.

Definition sds_at (T alloc : Z) (s : sds) (c : list Z) : Prop := sds_open 0 T alloc s c.

Definition sds_repr (s : sds) (c : list Z) : Prop := exists T alloc, sds_at T alloc s c.

End Layout.

(** * Lemmas *)

Section Headers.
Context `{Host}.

Definition width (T : Z) : nat := Z.to_nat (2 ^ (T - 1)).

Ltac types T := assert (T = 1 \/ T = 2 \/ T = 3 \/ T = 4) as [->|[->|[->| ->]]] by lia.

Lemma switch_hdr {A} T (a d : A) f : 1 <= T <= 4 -> sds_switch T a f d = f (width T).
Proof. intros HT. by types T. Qed.

Lemma hdr_size T : 1 <= T <= 4 -> sdsHdrSize T = 2 * Z.of_nat (width T) + 1.
Proof. intros HT. unfold sdsHdrSize. by rewrite switch_hdr. Qed.

Lemma hdr_size_range T : 0 <= T <= 4 -> 1 <= sdsHdrSize T <= 17.
Proof. intros HT. destruct (decide (T = 0)) as [->|]; [by vm_compute|]. by types T. Qed.

Lemma max_size T : 1 <= T <= 4 -> sdsTypeMaxSize T = 2 ^ (8 * Z.of_nat (width T)) - 1.
Proof. intros HT. by types T. Qed.

Lemma max_size_range T : 0 <= T <= 4 -> 31 <= sdsTypeMaxSize T <= SIZE_MAX.
Proof. intros HT. destruct (decide (T = 0)) as [->|]; [by vm_compute|]. by types T. Qed.

Lemma header_hdr T len alloc : 1 <= T <= 4 ->
  header T len alloc = host_bytes (width T) len ++ host_bytes (width T) alloc ++ [T].
Proof. apply switch_hdr. Qed.

Lemma header_5 len alloc : 0 <= len <= 31 -> header 0 len alloc = [8 * len].
Proof.
  intros Hl. change (header 0 len alloc) with [wrapU 8 (Z.lor 0 (Z.shiftl len 3))].
  rewrite Z.lor_0_l, Z.shiftl_mul_pow2, wrapU_small by lia. f_equal. lia.
Qed.

Lemma flags_5 len : 0 <= len <= 31 -> Z.land (8 * len) SDS_TYPE_MASK = 0 /\ SDS_TYPE_5_LEN (8 * len) = len.
Proof.
  intros Hl. unfold SDS_TYPE_MASK, SDS_TYPE_5_LEN, SDS_TYPE_BITS. rewrite (land_mask 3), Z.shiftr_div_pow2 by lia. zdiv.
Qed.

Lemma zlen_header T len alloc : 0 <= T <= 4 -> zlen (header T len alloc) = sdsHdrSize T.
Proof.
  intros HT. destruct (decide (T = 0)) as [->|]; [done|]. rewrite header_hdr, hdr_size by lia.
  rewrite !zlen_app, !zlen_host_bytes, zlen_cons, zlen_nil. lia.
Qed.

(** The flags byte. *)
Lemma flags_mk T len alloc body : 0 <= T <= 4 -> 0 <= len <= sdsTypeMaxSize T ->
  exists flags, sget1 (mk T len alloc body) (-1) = Ok flags /\ Z.land flags SDS_TYPE_MASK = T /\
    (T = 0 -> SDS_TYPE_5_LEN flags = len) /\ forall {A} (a d : A) f, sds_switch flags a f d = sds_switch T a f d.
Proof.
  intros HT Hl. destruct (decide (T = 0)) as [->|].
  - unfold mk, sget1. cbn [blk off]. rewrite header_5 by done. destruct (flags_5 len Hl) as [E1 E2].
    exists (8 * len). split_and!; [done..|]. intros. unfold sds_switch at 1. by rewrite E1.
  - exists T. split_and!; [|by types T|lia|done].
    unfold mk, sget1. cbn [blk off]. rewrite header_hdr, hdr_size by lia. rewrite (app_assoc (host_bytes _ _)), <- app_assoc.
    apply rd1_app. rewrite zlen_app, !zlen_host_bytes. lia.
Qed.

Lemma sget_fields T len alloc body : 1 <= T <= 4 -> 0 <= len <= sdsTypeMaxSize T -> 0 <= alloc <= sdsTypeMaxSize T ->
  hdr_len (width T) (mk T len alloc body) = Ok len /\ hdr_alloc (width T) (mk T len alloc body) = Ok alloc.
Proof.
  intros HT Hl Ha. rewrite max_size in * by done. unfold hdr_len, hdr_alloc, sget, mk. cbn [blk off].
  rewrite header_hdr, hdr_size by done. rewrite <- !app_assoc. split.
  - rewrite Z.add_opp_diag_r, rd_app_head, bind_Ok by apply zlen_host_bytes.
    by rewrite host_val_bytes, wrapU_small by lia.
  - rewrite (rd_app (host_bytes _ _)), bind_Ok by (rewrite ?zlen_host_bytes; lia).
    by rewrite host_val_bytes, wrapU_small by lia.
Qed.

Lemma sdslen_mk T len alloc body : 0 <= T <= 4 -> 0 <= len <= sdsTypeMaxSize T -> 0 <= alloc <= sdsTypeMaxSize T ->
  sdslen (mk T len alloc body) = Ok len.
Proof.
  intros HT Hl Ha. unfold sdslen. destruct (flags_mk T len alloc body HT Hl) as (fl & E & _ & H5 & Hs).
  rewrite E, bind_Ok, Hs. destruct (decide (T = 0)) as [->|]; [cbn; by rewrite H5|].
  rewrite switch_hdr by lia. apply sget_fields; lia.
Qed.

Lemma sdsavail_mk T len alloc body : 0 <= T <= 4 -> 0 <= len <= alloc -> alloc <= sdsTypeMaxSize T ->
  sdsavail (mk T len alloc body) = Ok (if T =? 0 then 0 else alloc - len).
Proof.
  intros HT Hl Ha. unfold sdsavail. destruct (flags_mk T len alloc body) as (fl & E & _ & _ & Hs); [lia..|].
  rewrite E, bind_Ok, Hs. destruct (Z.eqb_spec T 0) as [->|]; [done|].
  rewrite switch_hdr by lia. destruct (sget_fields T len alloc body) as [-> ->]; [lia..|]. rewrite !bind_Ok.
  f_equal. apply wrapU_small. pose proof (max_size_range T HT) as Hm. zconst.
  destruct (Nat.eqb_spec (width T) 4); [|lia]. rewrite (max_size T) in * by lia. rewrite e in *. cbn in *. lia.
Qed.

Lemma sdsalloc_mk T len alloc body : 0 <= T <= 4 -> 0 <= len <= sdsTypeMaxSize T -> 0 <= alloc <= sdsTypeMaxSize T ->
  (T = 0 -> alloc = len) -> sdsalloc (mk T len alloc body) = Ok alloc.
Proof.
  intros HT Hl Ha H0. unfold sdsalloc. destruct (flags_mk T len alloc body HT Hl) as (fl & E & _ & H5 & Hs).
  rewrite E, bind_Ok, Hs. destruct (decide (T = 0)) as [->|]; [cbn; by rewrite H5, H0|].
  rewrite switch_hdr by lia. apply sget_fields; lia.
Qed.

Lemma sdssetlen_mk T len alloc body l : 0 <= T <= 4 -> 0 <= len <= sdsTypeMaxSize T ->
  sdssetlen (mk T len alloc body) l = Ok (mk T l alloc body).
Proof.
  intros HT Hl. unfold sdssetlen. destruct (flags_mk T len alloc body HT Hl) as (fl & E & _ & H5 & Hs).
  rewrite E, bind_Ok, Hs. destruct (decide (T = 0)) as [->|].
  { change (sds_switch 0 ?a _ _) with a. unfold sput, mk. cbn [blk off].
    change (sdsHdrSize 0 + -1) with 0. by rewrite wr_app_head. }
  rewrite switch_hdr by lia. unfold hdr_set_len, sput, mk. cbn [blk off]. rewrite !header_hdr, !hdr_size by lia.
  rewrite <- !app_assoc, Z.add_opp_diag_r. by rewrite wr_app_head by (rewrite !zlen_host_bytes; done).
Qed.

Lemma sdssetalloc_mk T len alloc body a : 0 <= T <= 4 -> 0 <= len <= sdsTypeMaxSize T ->
  sdssetalloc (mk T len alloc body) a = Ok (mk T len a body).
Proof.
  intros HT Hl. unfold sdssetalloc. destruct (flags_mk T len alloc body HT Hl) as (fl & E & _ & H5 & Hs).
  rewrite E, bind_Ok, Hs. destruct (decide (T = 0)) as [->|]; [done|].
  rewrite switch_hdr by lia. unfold hdr_set_alloc, sput, mk. cbn [blk off]. rewrite !header_hdr, !hdr_size by lia.
  rewrite <- !app_assoc. rewrite (wr_app (host_bytes _ len) (host_bytes _ alloc)); [done| |by rewrite !zlen_host_bytes].
  rewrite zlen_host_bytes. lia.
Qed.

Lemma hdr_set_len_mk T len alloc body l : 1 <= T <= 4 -> 0 <= len <= sdsTypeMaxSize T ->
  hdr_set_len (width T) (mk T len alloc body) l = Ok (mk T l alloc body).
Proof.
  intros HT Hl. pose proof (sdssetlen_mk T len alloc body l ltac:(lia) Hl) as E. unfold sdssetlen in E.
  destruct (flags_mk T len alloc body) as (fl & Hfl & _ & _ & Hs); [lia..|]. by rewrite Hfl, bind_Ok, Hs, switch_hdr in E.
Qed.

(** Access to the characters. *)
Lemma wr_shift a b k bs : 0 <= k -> wr (a ++ b) (zlen a + k) bs = (x ← wr b k bs; Ok (a ++ x)).
Proof.
  intros Hk. unfold wr. rewrite zlen_app. pose proof (zlen_nonneg a). pose proof (zlen_nonneg bs).
  destruct (Z.leb_spec (k + zlen bs) (zlen b)).
  - ztrue (0 <=? zlen a + k). ztrue (0 <=? k). ztrue (zlen a + k + zlen bs <=? zlen a + zlen b). cbn [andb]. rewrite bind_Ok. f_equal.
    rewrite (drop_app_zge a) by lia. replace (zlen a + k + zlen bs - zlen a) with (k + zlen bs) by lia.
    rewrite (app_assoc a). f_equal. rewrite take_app, take_ge by (unfold zlen in *; lia). do 2 f_equal. unfold zlen. lia.
  - zfalse (zlen a + k + zlen bs <=? zlen a + zlen b). by rewrite !andb_false_r.
Qed.

Lemma sput_mk T len alloc body i bs : 0 <= T <= 4 -> 0 <= i ->
  sput (mk T len alloc body) i bs = (x ← wr body i bs; Ok (mk T len alloc x)).
Proof.
  intros HT Hi. unfold sput, mk. cbn [blk off]. rewrite <- (zlen_header T len alloc) by done.
  rewrite wr_shift, bind_assoc by done. by destruct (wr body i bs).
Qed.

Lemma sget_mk T len alloc body i n : 0 <= T <= 4 -> 0 <= i -> sget (mk T len alloc body) i n = rd body i n.
Proof.
  intros HT Hi. unfold sget, mk. cbn [blk off]. rewrite <- (zlen_header T len alloc) by done.
  unfold rd. rewrite zlen_app. pose proof (zlen_nonneg (header T len alloc)).
  replace ((0 <=? zlen (header T len alloc) + i) && (0 <=? n) && (zlen (header T len alloc) + i + n <=? zlen (header T len alloc) + zlen body))
    with ((0 <=? i) && (0 <=? n) && (i + n <=? zlen body)) by lia.
  ztest; [|done]. rewrite drop_app_zge by lia. do 3 f_equal. lia.
Qed.

Lemma sget1_mk T len alloc body i : 0 <= T <= 4 -> 0 <= i -> sget1 (mk T len alloc body) i = rd1 body i.
Proof.
  intros HT Hi. unfold sget1, mk. cbn [blk off]. rewrite <- (zlen_header T len alloc) by done. by apply rd1_shift.
Qed.

Lemma cbuf_mk T len alloc body : 0 <= T <= 4 -> cbuf (mk T len alloc body) = body.
Proof. intros HT. unfold cbuf, mk. cbn [blk off]. rewrite <- (zlen_header T len alloc) by done. apply drop_zlen_app. Qed.

End Headers.

Section Blocks.
Context `{Host} `{Allocator}.

(** A block whose header has only its flags byte set. *)
Definition raw (T : Z) (G body : list Z) : sds := Sds (G ++ T :: body) (sdsHdrSize T).

Lemma set_raw T G body l a : 0 <= T <= 4 -> zlen G = sdsHdrSize T - 1 -> 0 <= l <= sdsTypeMaxSize T ->
  exists s, sdssetlen (raw T G body) l = Ok s /\ sdssetalloc s a = Ok (mk T l a body).
Proof.
  intros HT HG Hl. assert (sget1 (raw T G body) (-1) = Ok T) as Hf by (apply rd1_app; cbn; lia).
  unfold sdssetlen. rewrite Hf, bind_Ok. destruct (decide (T = 0)) as [->|].
  - change (zlen G = 0) in HG. assert (G = []) as -> by (destruct G; [done|zlia]).
    exists (mk 0 l a body). change (sds_switch 0 ?a _ _) with a. unfold sput, raw. cbn [blk off app].
    change (sdsHdrSize 0 + -1) with 0. change (0 :: body) with ([0] ++ body). rewrite wr_app_head by done.
    split; [done|]. by apply sdssetalloc_mk.
  - rewrite switch_hdr by lia. rewrite hdr_size in HG by lia. destruct (cut_at G (Z.of_nat (width T))) as (G1 & G2 & -> & HG1 & HG2); [lia|].
    unfold hdr_set_len, sput, raw. cbn [blk off]. rewrite hdr_size, Z.add_opp_diag_r by lia. rewrite <- app_assoc.
    rewrite wr_app_head, bind_Ok by (rewrite zlen_host_bytes; lia). eexists. split; [done|].
    unfold sdssetalloc, sget1. cbn [blk off]. rewrite app_assoc, (rd1_app _ T) by (rewrite zlen_app, zlen_host_bytes; lia).
    rewrite bind_Ok, switch_hdr by lia. unfold hdr_set_alloc, sput. cbn [blk off]. rewrite <- app_assoc.
    rewrite (wr_app (host_bytes _ _) G2), bind_Ok by (rewrite !zlen_host_bytes; lia).
    unfold mk. rewrite header_hdr, hdr_size by lia. by rewrite <- !app_assoc.
Qed.

Lemma zlen_fresh_bytes n : 0 <= n -> zlen (fresh_bytes n) = n.
Proof. intros Hn. unfold fresh_bytes, zlen. rewrite length_fmap, length_seq. lia. Qed.

(** The contents copied into a fresh block, and the flags byte set. *)
Lemma copy_block T c size : 0 <= T <= 4 -> sdsHdrSize T + zlen c <= size ->
  exists G free, zlen G = sdsHdrSize T - 1 /\ zlen free = size - sdsHdrSize T - zlen c /\
    (newsh ← wr (fresh_bytes size) (sdsHdrSize T) c; sput (Sds newsh (sdsHdrSize T)) (-1) [T]) = Ok (raw T G (c ++ free)).
Proof.
  intros HT Hs. pose proof (hdr_size_range T HT) as Hh. pose proof (zlen_nonneg c).
  pose proof (zlen_fresh_bytes size ltac:(lia)) as Hf. revert Hf. generalize (fresh_bytes size). intros b Hf.
  destruct (cut_at b (sdsHdrSize T - 1)) as (G & b1 & -> & HG & _); [lia|]. rewrite zlen_app in Hf.
  destruct (cut_at b1 1) as (x & b2 & -> & Hx & _); [lia|]. rewrite zlen_app in Hf.
  destruct (cut_at b2 (zlen c)) as (X & free & -> & HX & _); [lia|]. rewrite zlen_app in Hf.
  exists G, free. split_and!; [done|lia|]. rewrite app_assoc.
  rewrite (wr_app (G ++ x) X), bind_Ok by (rewrite ?zlen_app; lia). unfold sput. cbn [blk off]. rewrite <- app_assoc.
  by rewrite (wr_app G x) by (rewrite ?zlen_cons, ?zlen_nil; lia).
Qed.

Lemma req_type n : 0 <= n <= SIZE_MAX -> 0 <= sdsReqType n <= 4 /\ n <= sdsTypeMaxSize (sdsReqType n).
Proof.
  intros Hn. unfold sdsReqType. change (Z.shiftl 1 5) with 32. change (Z.shiftl 1 8) with 256.
  change (Z.shiftl 1 16) with 65536. change (Z.shiftl 1 32) with (2 ^ 32).
  destruct (Z.ltb_spec n 32); [split; [done|]; change (n <= 31); lia|].
  destruct (Z.ltb_spec n 256); [split; [done|]; change (n <= 255); lia|].
  destruct (Z.ltb_spec n 65536); [split; [done|]; change (n <= 65535); lia|].
  destruct (Z.ltb_spec n (2 ^ 32)); [split; [done|]; change (n <= 2 ^ 32 - 1); lia|]. split; [done|apply Hn].
Qed.

Lemma req_type_8 n T : 0 <= n <= SIZE_MAX -> T = (if sdsReqType n =? SDS_TYPE_5 then SDS_TYPE_8 else sdsReqType n) ->
  1 <= T <= 4 /\ n <= sdsTypeMaxSize T.
Proof.
  intros Hn ->. destruct (req_type n Hn) as [HT Hm]. unfold SDS_TYPE_5, SDS_TYPE_8 in *.
  destruct (Z.eqb_spec (sdsReqType n) 0) as [E|]; [|lia]. rewrite E in Hm. change (n <= 31) in Hm.
  split; [done|]. change (n <= 255). lia.
Qed.

Lemma usable_chars_ok T n u : 0 <= T <= 4 -> 0 <= n <= sdsTypeMaxSize T -> sdsHdrSize T + n + 1 <= u <= SIZE_MAX ->
  n <= usable_chars T (sdsHdrSize T) u <= sdsTypeMaxSize T /\ usable_chars T (sdsHdrSize T) u <= u - sdsHdrSize T - 1.
Proof.
  intros HT Hn Hu. pose proof (hdr_size_range T HT). unfold usable_chars. zconst. rewrite wrapU_small by lia. cbv zeta. ztest; lia.
Qed.

(** Room in the allocator for strings of [n] bytes, with the greedy growth. *)
Definition room (n : Z) : Prop := 2 * n + SDS_MAX_PREALLOC + 32 <= max_request.

Lemma room_le n m : room m -> n <= m -> room n.
Proof. unfold room. lia. Qed.

Lemma usable_bounds n : 0 < n <= max_request -> n <= usable_size n <= SIZE_MAX.
Proof. intros Hn. split; [apply usable_size_ge; lia|apply usable_size_max; lia]. Qed.

(** [sds_at] for a string in its explicit layout. *)
Lemma at_intro y T alloc c free : 0 <= T <= 4 -> zlen c <= alloc <= sdsTypeMaxSize T -> (T = 0 -> alloc = zlen c) ->
  Forall is_byte c -> alloc <= zlen c + zlen free -> sds_open y T alloc (mk T (zlen c) alloc (c ++ y :: free)) c.
Proof. unfold sds_open. eauto 10. Qed.

Lemma sds_len y T alloc s c : sds_open y T alloc s c -> sdslen s = Ok (zlen c).
Proof. intros (HT & Ha & H5 & Hb & free & -> & Hf). apply sdslen_mk; zlia. Qed.

Lemma sds_avail y T alloc s c : sds_open y T alloc s c -> sdsavail s = Ok (alloc - zlen c).
Proof.
  intros (HT & Ha & H5 & Hb & free & -> & Hf). rewrite sdsavail_mk by zlia. f_equal.
  destruct (Z.eqb_spec T 0) as [->|]; [|done]. rewrite H5 by done. lia.
Qed.

Lemma sds_alloc y T alloc s c : sds_open y T alloc s c -> sdsalloc s = Ok alloc.
Proof. intros (HT & Ha & H5 & Hb & free & -> & Hf). apply sdsalloc_mk; zlia. Qed.

Lemma sds_flags y T alloc s c : sds_open y T alloc s c -> exists flags, sget1 s (-1) = Ok flags /\ Z.land flags SDS_TYPE_MASK = T.
Proof.
  intros (HT & Ha & H5 & Hb & free & -> & Hf). destruct (flags_mk T (zlen c) alloc (c ++ y :: free) HT) as (fl & ? & ? & _); [zlia|eauto].
Qed.

Lemma sds_start y T alloc s c : sds_open y T alloc s c -> block_start s T = Ok (blk s).
Proof. intros (HT & Ha & H5 & Hb & free & -> & Hf). unfold block_start, mk. cbn [off blk]. by rewrite Z.eqb_refl. Qed.

(** A longer or shorter block of the same header type. *)
Lemma realloc_block y T alloc c free n : 0 <= T <= 4 -> sdsHdrSize T + zlen c + 1 <= n ->
  exists free', Prelude.zrealloc (blk (mk T (zlen c) alloc (c ++ y :: free))) n = header T (zlen c) alloc ++ c ++ y :: free' /\
    zlen free' = n - sdsHdrSize T - zlen c - 1.
Proof.
  intros HT Hn. unfold mk. cbn [blk]. pose proof (zlen_header T (zlen c) alloc HT) as Hh.
  destruct (zrealloc_keep (header T (zlen c) alloc ++ c ++ [y]) free n) as (free' & E & Hf).
  { rewrite !zlen_app, zlen_cons, zlen_nil. lia. }
  exists free'. rewrite !zlen_app, zlen_cons, zlen_nil in Hf. split; [|lia]. rewrite <- !app_assoc in E. exact E.
Qed.

(** [sdsMakeRoomFor] keeps the string and makes its capacity large enough. *)
Lemma make_room y T alloc s c addlen greedy :
  sds_open y T alloc s c -> 0 <= addlen -> room (zlen c + addlen) ->
  exists T' alloc' s', _sdsMakeRoomFor s addlen greedy = Ok s' /\ sds_open y T' alloc' s' c /\ zlen c + addlen <= alloc'.
Proof.
  intros Hs Hadd Hroom. unfold _sdsMakeRoomFor. rewrite (sds_avail _ _ _ _ _ Hs), bind_Ok.
  destruct (sds_flags _ _ _ _ _ Hs) as (fl & Hfl & HfT). rewrite Hfl, bind_Ok, HfT, Z.geb_leb.
  destruct (Z.leb_spec addlen (alloc - zlen c)); [exists T, alloc, s; split_and!; [done..|lia]|].
  rewrite (sds_len _ _ _ _ _ Hs), bind_Ok, (sds_start _ _ _ _ _ Hs), bind_Ok.
  pose proof max_request_bound as Hmax. unfold room, SDS_MAX_PREALLOC in *. pose proof (zlen_nonneg c).
  destruct Hs as (HT & Ha & H5 & Hb & free & -> & Hf). rewrite (wrapU_small 64 (zlen c + addlen)) by lia. cbv zeta. ztrue (zlen c + addlen >? zlen c).
  set (newlen := if greedy then _ else _). assert (zlen c + addlen <= newlen <= 2 * (zlen c + addlen) + 1024 * 1024) as Hnew.
  { unfold newlen. destruct greedy; [|lia]. destruct (Z.ltb_spec (zlen c + addlen) (1024 * 1024)); rewrite wrapU_small; lia. }
  clearbody newlen. set (T' := if _ =? SDS_TYPE_5 then _ else _). destruct (req_type_8 newlen T') as [HT' Hm]; [zconst; lia|done|]. clearbody T'.
  pose proof (hdr_size_range T' ltac:(lia)) as Hh. rewrite wrapU_small by lia. ztrue (sdsHdrSize T' + newlen + 1 >? zlen c + addlen).
  destruct (usable_bounds (sdsHdrSize T' + newlen + 1)) as [Hu1 Hu2]; [lia|].
  destruct (usable_chars_ok T' newlen (usable_size (sdsHdrSize T' + newlen + 1))) as [Hc1 Hc2]; [lia..|].
  set (u := usable_size _) in *. set (a := usable_chars _ _ _) in *. unfold zrealloc_usable, zmalloc_usable, ztrymalloc_usable.
  ztrue (sdsHdrSize T' + newlen + 1 <=? max_request). fold u. destruct (Z.eqb_spec T T') as [<-|Hne].
  - rewrite !bind_Ok. destruct (realloc_block y T alloc c free u) as (free' & -> & Hf'); [lia..|].
    fold (mk T (zlen c) alloc (c ++ y :: free')). fold a. rewrite sdssetalloc_mk by lia. eexists _, _, _. split; [done|]. split; [apply at_intro; [lia..|done|lia]|lia].
  - rewrite !bind_Ok, sget_mk, (cons_middle y c free), app_assoc, rd_app_head, bind_Ok by (done || zlia).
    destruct (copy_block T' (c ++ [y]) u) as (G & free' & HG & Hf' & E); [lia|zlia|].
    rewrite zlen_app, zlen_cons, zlen_nil in Hf'. apply bind_Ok_inv in E as (b & -> & E). rewrite bind_Ok, E, bind_Ok.
    destruct (set_raw T' G ((c ++ [y]) ++ free') (zlen c) a) as (s1 & -> & E1); [lia|done|zlia|]. rewrite !bind_Ok. fold a. rewrite E1.
    rewrite <- app_assoc. eexists _, _, _. split; [done|]. split; [apply at_intro; [lia..|done|lia]|lia].
Qed.

End Blocks.

(** The operation returns a string that holds [c]. *)
Definition gives `{Host} (m : res sds) (c : list Z) : Prop := exists s, m = Ok s /\ sds_repr s c.

Section Operations.
Context `{Host} `{Allocator}.

Lemma gives_bind m k c c' : gives m c -> (forall s, sds_repr s c -> gives (k s) c') -> gives (s ← m; k s) c'.
Proof. intros (s & -> & Hs) Hk. apply Hk, Hs. Qed.

Lemma gives_ok s c : sds_repr s c -> gives (Ok s) c.
Proof. unfold gives. eauto. Qed.

(** The contents replaced in place, within the capacity. *)
Lemma at_edit T alloc c c' free free' :
  sds_at T alloc (mk T (zlen c) alloc (c ++ 0 :: free)) c -> Forall is_byte c' -> zlen c' <= alloc ->
  zlen c' + zlen free' = zlen c + zlen free -> sds_repr (mk T (zlen c') alloc (c' ++ 0 :: free')) c'.
Proof.
  intros (HT & Ha & H5 & Hb & free0 & E & Hf) Hb' Hl Hz.
  assert (zlen free0 = zlen free) as Hf0.
  { injection E as E. apply app_inv_head, app_inv_head in E. injection E as E. by subst. }
  destruct (decide (T = 0)) as [->|].
  - exists 0, (zlen c'). change (mk 0 (zlen c') alloc) with (mk 0 (zlen c') (zlen c')). rewrite H5 in * by done. apply at_intro; lia || done.
  - exists T, alloc. apply at_intro; lia || done.
Qed.

(** The header fields of a new block. *)
Lemma set_header T sh len alloc : 0 <= T <= 4 -> sdsHdrSize T <= zlen sh ->
  exists body, zlen body = zlen sh - sdsHdrSize T /\ drop (Z.to_nat (sdsHdrSize T)) sh = body /\
    sds_switch T (sput (Sds sh (sdsHdrSize T)) (-1) [wrapU 8 (Z.lor T (Z.shiftl len SDS_TYPE_BITS))])
      (fun w => s ← hdr_set_len w (Sds sh (sdsHdrSize T)) len; s ← hdr_set_alloc w s alloc; sput s (-1) [T])
      (Ok (Sds sh (sdsHdrSize T))) = Ok (mk T len alloc body).
Proof.
  intros HT Hl. pose proof (hdr_size_range T HT) as Hh. destruct (cut_at sh (sdsHdrSize T)) as (h & body & -> & Hzh & Hzb); [lia|].
  exists body. split; [done|]. split; [rewrite <- Hzh; apply drop_zlen_app|]. destruct (decide (T = 0)) as [->|].
  - change (sds_switch 0 ?a _ _) with a. change (sdsHdrSize 0) with 1 in *. unfold sput. cbn [blk off]. change (1 + -1) with 0.
    by rewrite wr_app_head by done.
  - rewrite switch_hdr, hdr_size in * by lia. destruct (cut_at h (Z.of_nat (width T))) as (G1 & h1 & -> & Hz1 & Hz2); [lia|].
    destruct (cut_at h1 (Z.of_nat (width T))) as (G2 & x & -> & Hz3 & Hz4); [lia|]. rewrite <- !app_assoc.
    unfold hdr_set_len, hdr_set_alloc, sput. cbn [blk off]. rewrite Z.add_opp_diag_r, wr_app_head, !bind_Ok by (rewrite zlen_host_bytes; lia).
    cbn [blk off]. rewrite (wr_app (host_bytes _ _) G2), !bind_Ok by (rewrite !zlen_host_bytes; lia). cbn [blk off].
    rewrite (app_assoc (host_bytes _ _)), (wr_app (host_bytes _ _ ++ _) x), bind_Ok
      by (rewrite ?zlen_app, ?zlen_host_bytes, ?zlen_cons, ?zlen_nil in *; lia).
    unfold mk. rewrite header_hdr, hdr_size by lia. by rewrite <- !app_assoc.
Qed.

(** The contents of a new string. *)
Definition init_contents (init : sds_init) (c : list Z) : Prop :=
  match init with
  | InitZero => c = replicate (length c) 0
  | InitFrom buf => exists rest, buf = c ++ rest
  | SDS_NOINIT => False
  end.

Lemma newlen_body init c T alloc sh size :
  0 <= T <= 4 -> init_contents init c -> size = sdsHdrSize T + zlen c + 1 -> size <= zlen sh ->
  exists free, zlen free = zlen sh - size /\
    (sh ← match init with InitZero => wr sh 0 (replicate (Z.to_nat size) 0) | _ => Ok sh end;
     s ← sds_switch T (sput (Sds sh (sdsHdrSize T)) (-1) [wrapU 8 (Z.lor T (Z.shiftl (zlen c) SDS_TYPE_BITS))])
       (fun w => s ← hdr_set_len w (Sds sh (sdsHdrSize T)) (zlen c); s ← hdr_set_alloc w s alloc; sput s (-1) [T])
       (Ok (Sds sh (sdsHdrSize T)));
     s ← match init with
         | InitFrom buf => if negb (zlen c =? 0) then bs ← rd buf 0 (zlen c); sput s 0 bs else Ok s
         | _ => Ok s
         end;
     sput s (zlen c) [0]) = Ok (mk T (zlen c) alloc (c ++ 0 :: free)).
Proof.
  intros HT Hi Hsz Hsh. pose proof (hdr_size_range T HT) as Hh. pose proof (zlen_nonneg c).
  destruct (cut_at sh size) as (b & free & -> & Hzb & Hzf); [lia|]. exists free. split; [done|].
  destruct init as [| |buf]; [| |destruct Hi as [rest ->]]; [|done|].
  - rewrite wr_app_head, bind_Ok by (rewrite zlen_replicate; lia).
    destruct (set_header T (replicate (Z.to_nat size) 0 ++ free) (zlen c) alloc) as (body & Hzbody & Hdrop & ->); [done|zlia|].
    rewrite !bind_Ok, sput_mk by lia. subst body.
    replace (Z.to_nat size) with (Z.to_nat (sdsHdrSize T) + (length c + 1))%nat by (unfold zlen in *; lia).
    rewrite !replicate_add, <- !app_assoc. rewrite drop_app_length' by (rewrite length_replicate; lia). rewrite <- Hi.
    by rewrite (wr_app c [0]), bind_Ok by done.
  - rewrite bind_Ok. destruct (set_header T (b ++ free) (zlen c) alloc) as (body & Hzbody & Hdrop & ->); [done|zlia|].
    rewrite bind_Ok. rewrite zlen_app in *. destruct (cut_at b (sdsHdrSize T)) as (h & b1 & -> & Hh1 & Hb1); [lia|]. subst body.
    rewrite <- Hh1, <- app_assoc, drop_zlen_app. destruct (cut_at b1 (zlen c)) as (X & x & -> & HX & Hx); [lia|].
    rewrite rd_app_head, !bind_Ok, !sput_mk by done. rewrite <- app_assoc.
    assert ((if negb (zlen c =? 0) then x ← wr (X ++ x ++ free) 0 c; Ok (mk T (zlen c) alloc x) else Ok (mk T (zlen c) alloc (X ++ x ++ free)))
      = Ok (mk T (zlen c) alloc (c ++ x ++ free))) as ->.
    { destruct (Z.eqb_spec (zlen c) 0) as [E|]; cbn [negb]; [|by rewrite wr_app_head, bind_Ok by lia].
      destruct c; [|zlia]. destruct X; [done|zlia]. }
    rewrite bind_Ok, sput_mk, (wr_app c x), bind_Ok by (done || rewrite zlen_cons, zlen_nil; lia). done.
Qed.

Lemma newlen_ok init c trymalloc :
  init_contents init c -> Forall is_byte c -> room (zlen c) ->
  exists s, _sdsnewlen init (zlen c) trymalloc = Ok (Some s) /\ sds_repr s c.
Proof.
  intros Hi Hb Hroom. unfold _sdsnewlen. pose proof (zlen_nonneg c). pose proof max_request_bound as Hmax.
  unfold room, SDS_MAX_PREALLOC in Hroom. destruct (req_type (zlen c)) as [HT0 Hm0]; [zconst; lia|].
  set (T := if _ && _ then _ else _). assert (0 <= T <= 4 /\ zlen c <= sdsTypeMaxSize T /\ (T = 0 -> 0 < zlen c)) as (HT & Hm & Hpos).
  { unfold T. destruct (_ && _) eqn:E; zprop; [split; [done|]; split; [change (zlen c <= 255); lia|done]|].
    split; [done|]. split; [done|]. intros E0. rewrite E0 in E. cbn in E. lia. }
  clearbody T. pose proof (hdr_size_range T HT) as Hh. cbv zeta.
  rewrite (wrapU_small 64 (zlen c + _ + 1)), (wrapU_small 64 (_ + zlen c + 1)) by lia. ztrue (zlen c + sdsHdrSize T + 1 >? zlen c). remember (sdsHdrSize T + zlen c + 1) as size eqn:Esz.
  destruct (usable_bounds size) as [Hu1 Hu2]; [lia|].
  destruct (usable_chars_ok T (zlen c) (usable_size size)) as [Hc1 Hc2]; [lia..|].
  unfold zmalloc_usable, ztrymalloc_usable. ztrue (size <=? max_request). cbv zeta. set (u := usable_size size) in *.
  replace (if trymalloc then _ else _) with (Ok (Some (fresh_bytes u, u))) by (by destruct trymalloc).
  rewrite bind_Ok. set (a := usable_chars _ _ _) in *.
  destruct (newlen_body init c T a (fresh_bytes u) size) as (free & Hzf & E); [done..|rewrite zlen_fresh_bytes; lia|]. rewrite zlen_fresh_bytes in Hzf by lia.
  repeat (apply bind_Ok_inv in E as (? & -> & E); rewrite bind_Ok). rewrite E, bind_Ok. eexists. split; [done|].
  exists T. destruct (decide (T = 0)) as [->|].
  - exists (zlen c). change (mk 0 (zlen c) a) with (mk 0 (zlen c) (zlen c)). apply at_intro; lia || done.
  - exists a. apply at_intro; lia || done.
Qed.

Lemma newlen_gives init c : init_contents init c -> Forall is_byte c -> room (zlen c) -> gives (sdsnewlen init (zlen c)) c.
Proof.
  intros Hi Hb Hr. unfold sdsnewlen. destruct (newlen_ok init c false Hi Hb Hr) as (s & -> & Hs). rewrite bind_Ok. by apply gives_ok.
Qed.

Lemma sds_cbuf s c : sds_repr s c -> exists free, cbuf s = c ++ 0 :: free.
Proof. intros (T & alloc & HT & _ & _ & _ & free & -> & _). exists free. by apply cbuf_mk. Qed.

Lemma sds_bytes s c : sds_repr s c -> Forall is_byte c.
Proof. intros (T & alloc & _ & _ & _ & Hb & _). done. Qed.

Lemma repr_len s c : sds_repr s c -> sdslen s = Ok (zlen c).
Proof. intros (T & alloc & Hs). by eapply sds_len. Qed.

Lemma room_gives s c addlen greedy : sds_repr s c -> 0 <= addlen -> room (zlen c + addlen) -> gives (_sdsMakeRoomFor s addlen greedy) c.
Proof.
  intros (T & alloc & Hs) Ha Hr. destruct (make_room _ _ _ _ _ _ greedy Hs Ha Hr) as (T' & a' & s' & E & Hs' & _).
  exists s'. split; [done|]. by exists T', a'.
Qed.

(** A string with capacity for [n] bytes, in its layout. *)
Lemma with_room s c addlen (k : sds -> res sds) c' :
  sds_repr s c -> 0 <= addlen -> room (zlen c + addlen) ->
  (forall T alloc free, sds_at T alloc (mk T (zlen c) alloc (c ++ 0 :: free)) c -> zlen c + addlen <= alloc ->
    alloc <= zlen c + zlen free -> gives (k (mk T (zlen c) alloc (c ++ 0 :: free))) c') ->
  gives (s ← sdsMakeRoomFor s addlen; k s) c'.
Proof.
  intros (T & alloc & Hs) Ha Hr Hk. destruct (make_room _ _ _ _ _ _ true Hs Ha Hr) as (T' & a' & s' & E & Hs' & Hc).
  unfold sdsMakeRoomFor. rewrite E, bind_Ok. pose proof Hs' as (HT & Ha' & H5 & Hb & free & -> & Hf). by apply Hk.
Qed.

(** The next [n] bytes after the string overwritten, and the length moved over them. *)
Lemma append_in_place T alloc c free x :
  sds_at T alloc (mk T (zlen c) alloc (c ++ 0 :: free)) c -> Forall is_byte x -> zlen c + zlen x <= alloc ->
  alloc <= zlen c + zlen free -> gives
    (s ← sput (mk T (zlen c) alloc (c ++ 0 :: free)) (zlen c) x;
     s ← sdssetlen s (zlen c + zlen x);
     sput s (zlen c + zlen x) [0]) (c ++ x).
Proof.
  intros Hs Hx Hl Hf. pose proof Hs as (HT & Ha & H5 & Hb & _). pose proof (zlen_nonneg c). pose proof (zlen_nonneg x).
  destruct (cut_at (0 :: free) (zlen x)) as (X & y & E & HX & Hy); [rewrite zlen_cons; lia|]. rewrite zlen_cons in Hy.
  destruct y as [|y free']; [change (zlen []) with 0 in Hy; lia|]. rewrite zlen_cons in Hy.
  rewrite sput_mk, E, (wr_app c X), !bind_Ok, sdssetlen_mk, bind_Ok, sput_mk by lia.
  rewrite app_assoc, cons_middle, (wr_app (c ++ x) [y] [0]), bind_Ok by (rewrite ?zlen_app; done).
  apply gives_ok. rewrite <- zlen_app. apply (at_edit T alloc c _ free); [done|by apply Forall_app|rewrite zlen_app; lia|].
  rewrite zlen_app. lia.
Qed.

Lemma catlen_gives s c t rest : sds_repr s c -> Forall is_byte t -> room (zlen c + zlen t) ->
  gives (sdscatlen s (t ++ rest) (zlen t)) (c ++ t).
Proof.
  intros Hs Ht Hr. unfold sdscatlen. rewrite (repr_len _ _ Hs), bind_Ok. pose proof (zlen_nonneg t). pose proof (zlen_nonneg c).
  pose proof max_request_bound. apply (with_room _ c); [done..|]. intros T alloc free Hs' Hc Hf.
  rewrite rd_app_head, bind_Ok by done. unfold room, SDS_MAX_PREALLOC in Hr. rewrite (wrapU_small 64) by lia. by apply append_in_place.
Qed.

Lemma strlen_ok t rest : Forall (fun c => c <> 0) t -> strlen (t ++ 0 :: rest) = Ok (zlen t).
Proof.
  induction 1 as [|c t Hc _ IH]; [done|]. cbn [strlen app]. zfalse (c =? 0). rewrite IH, bind_Ok. f_equal. by rewrite zlen_cons.
Qed.

Lemma cstr_id s : Forall (fun c => c <> 0) s -> cstr s = s.
Proof. induction 1 as [|c s Hc _ IH]; [done|]. cbn [cstr]. zfalse (c =? 0). by rewrite IH. Qed.

Lemma cstr_app s t : Forall (fun c => c <> 0) s -> cstr (s ++ 0 :: t) = s.
Proof. induction 1 as [|c s Hc _ IH]; [done|]. cbn [cstr app]. zfalse (c =? 0). by rewrite IH. Qed.

Lemma cat_gives s c t rest : sds_repr s c -> Forall is_byte t -> Forall (fun c => c <> 0) t -> room (zlen c + zlen t) ->
  gives (sdscat s (t ++ 0 :: rest)) (c ++ t).
Proof. intros Hs Hb Ht Hr. unfold sdscat. rewrite strlen_ok, bind_Ok by done. by apply catlen_gives. Qed.

Lemma catsds_gives s c t d : sds_repr s c -> sds_repr t d -> room (zlen c + zlen d) -> gives (sdscatsds s t) (c ++ d).
Proof.
  intros Hs Ht Hr. unfold sdscatsds. rewrite (repr_len _ _ Ht), bind_Ok. destruct (sds_cbuf _ _ Ht) as [free ->].
  apply catlen_gives; [done|by eapply sds_bytes|done].
Qed.

Lemma growzero_gives s c n : sds_repr s c -> room (Z.max (zlen c) n) ->
  gives (sdsgrowzero s n) (sdsgrowzero_bytes c n).
Proof.
  intros Hs Hr. unfold sdsgrowzero, sdsgrowzero_bytes. rewrite (repr_len _ _ Hs), bind_Ok. destruct (Z.leb_spec n (zlen c)); [by apply gives_ok|].
  apply (with_room _ c); [done|lia|eapply room_le; [done|lia]|]. intros T alloc free Hs' Hc Hf.
  set (x := replicate (Z.to_nat (n - zlen c)) 0). assert (replicate (Z.to_nat (n - zlen c + 1)) 0 = x ++ [0]) as ->.
  { unfold x. replace (Z.to_nat (n - zlen c + 1)) with (Z.to_nat (n - zlen c) + 1)%nat by lia. by rewrite replicate_add. }
  pose proof Hs' as (HT & Ha & _). pose proof (zlen_nonneg c). assert (zlen x = n - zlen c) as Hx by (unfold x; rewrite zlen_replicate; lia).
  destruct (append_in_place T alloc c free x) as (s' & E & Hs''); [done|apply Forall_replicate; unfold is_byte; lia|lia|done|].
  exists s'. split; [|done]. rewrite <- E. replace n with (zlen c + zlen x) by lia.
  rewrite !sput_mk, !bind_assoc by lia.
  destruct (cut_at (0 :: free) (zlen x)) as (X & y & Ey & HX & Hy); [rewrite zlen_cons; lia|]. rewrite zlen_cons in Hy.
  destruct y as [|y free']; [change (zlen []) with 0 in Hy; lia|].
  rewrite Ey, (wr_app c X x), !bind_Ok by lia.
  rewrite (cons_middle y), (app_assoc X), (wr_app c (X ++ [y]) (x ++ [0])), !bind_Ok by (rewrite ?zlen_app, ?zlen_cons; lia).
  rewrite !sdssetlen_mk, bind_Ok, sput_mk by lia. rewrite (app_assoc c x (y :: _)), (cons_middle y (c ++ x)).
  rewrite (wr_app (c ++ x) [y]) by (rewrite ?zlen_app; done). by rewrite bind_Ok, <- !app_assoc.
Qed.

(** The contents overwritten from the start, within the capacity. *)
Lemma overwrite_in_place T alloc c free x :
  sds_at T alloc (mk T (zlen c) alloc (c ++ 0 :: free)) c -> Forall is_byte x -> zlen x <= alloc -> alloc <= zlen c + zlen free ->
  gives (s ← sput (mk T (zlen c) alloc (c ++ 0 :: free)) 0 x; s ← sput s (zlen x) [0]; sdssetlen s (zlen x)) x.
Proof.
  intros Hs Hx Hl Hf. pose proof Hs as (HT & Ha & H5 & Hb & _). pose proof (zlen_nonneg c). pose proof (zlen_nonneg x).
  destruct (cut_at (c ++ 0 :: free) (zlen x)) as (X & y & E & HX & Hy); [rewrite zlen_app, zlen_cons; lia|].
  rewrite zlen_app, zlen_cons in Hy. destruct y as [|y free']; [change (zlen []) with 0 in Hy; lia|]. rewrite zlen_cons in Hy.
  rewrite sput_mk, E, wr_app_head, !bind_Ok, sput_mk by lia. rewrite cons_middle, (wr_app x [y]), !bind_Ok, sdssetlen_mk by (done || lia).
  apply gives_ok, (at_edit T alloc c _ free); [done..|lia].
Qed.

(** A string in its layout. *)
Ltac layout Hs :=
  pose proof Hs as (T & alloc & Hat); pose proof Hat as (HT & Hm & H5 & Hb & free & -> & Hf).

Lemma cpylen_gives s c t rest : sds_repr s c -> Forall is_byte t -> room (zlen t) ->
  gives (sdscpylen s (t ++ rest) (zlen t)) t.
Proof.
  intros Hs Ht Hr. pose proof (zlen_nonneg t). pose proof (zlen_nonneg c). pose proof max_request_bound. unfold room, SDS_MAX_PREALLOC in *.
  unfold sdscpylen. layout Hs. rewrite (sds_alloc _ _ _ _ _ Hat), bind_Ok. destruct (Z.ltb_spec alloc (zlen t)).
  - rewrite (repr_len _ _ Hs), bind_Ok, wrapU_small by lia.
    apply (with_room _ c); [done|lia|unfold room, SDS_MAX_PREALLOC; lia|]. intros T' alloc' free' Hs' Hc Hf'.
    rewrite rd_app_head, bind_Ok by done. apply overwrite_in_place; [done..|lia|done].
  - rewrite bind_Ok, rd_app_head, bind_Ok by done. by apply overwrite_in_place.
Qed.

Lemma wr_nil l : wr l 0 [] = Ok l.
Proof. by apply (wr_app_head [] []). Qed.

Lemma clear_gives s c : sds_repr s c -> gives (sdsclear s) [].
Proof.
  intros Hs. layout Hs. pose proof (zlen_nonneg c).
  unfold sdsclear. rewrite sdssetlen_mk, bind_Ok, sput_mk by lia.
  destruct (overwrite_in_place T alloc c free []) as (s' & E & Hs'); [done|constructor|zlia|done|]. exists s'. split; [|done]. rewrite <- E.
  rewrite sput_mk, wr_nil, !bind_Ok, sput_mk by zlia. destruct (wr _ _ _); try done. rewrite !bind_Ok. by rewrite sdssetlen_mk by lia.
Qed.

Lemma rd_prefix c rest i n : 0 <= i -> 0 <= n -> i + n <= zlen c -> rd (c ++ rest) i n = Ok (take (Z.to_nat n) (drop (Z.to_nat i) c)).
Proof.
  intros Hi Hn Hl. unfold rd. rewrite zlen_app. pose proof (zlen_nonneg rest). ztrue ((0 <=? i) && (0 <=? n) && (i + n <=? zlen c + zlen rest)).
  rewrite drop_app_le by (unfold zlen in *; lia). rewrite take_app_le by (rewrite length_drop; unfold zlen in *; lia). done.
Qed.

Lemma take_drop_bytes i n c : Forall is_byte c -> Forall is_byte (take i (drop n c)).
Proof. intros Hc. by apply Forall_take, Forall_drop. Qed.

(** A part of the string moved to its start. *)
Lemma keep_part T alloc c free i n (b : bool) :
  sds_at T alloc (mk T (zlen c) alloc (c ++ 0 :: free)) c -> zlen c <= alloc -> alloc <= zlen c + zlen free ->
  0 <= i -> 0 <= n -> i + n <= zlen c -> (b = false -> n = 0 \/ i = 0) -> let s := mk T (zlen c) alloc (c ++ 0 :: free) in
  gives (s ← (if b then bs ← sget s i n; sput s 0 bs else Ok s); s ← sput s n [0]; sdssetlen s n)
    (take (Z.to_nat n) (drop (Z.to_nat i) c)).
Proof.
  intros Hs Hc Hf Hi Hn Hl Hb s. pose proof Hs as (HT & Ha & _ & Hby & _). set (x := take _ _).
  assert (zlen x = n) as Hx by (unfold x; rewrite zlen_take; [done|rewrite zlen_drop; lia]).
  assert ((if b then bs ← sget s i n; sput s 0 bs else Ok s) = sput s 0 x) as ->.
  - unfold s. destruct b; [by rewrite sget_mk, rd_prefix, bind_Ok by lia|]. rewrite sput_mk by lia.
    assert (exists y, c = x ++ y) as [y Ey].
    { destruct (Hb eq_refl) as [->| ->]; [by exists c|]. exists (drop (Z.to_nat n) c). unfold x. change (Z.to_nat 0) with 0%nat.
      by rewrite drop_0, take_drop. }
    assert (c ++ 0 :: free = x ++ (y ++ 0 :: free)) as -> by (by rewrite Ey at 1; rewrite <- app_assoc). by rewrite wr_app_head, bind_Ok.
  - rewrite <- Hx. apply overwrite_in_place; [done|by apply take_drop_bytes|lia|done].
Qed.

Lemma substr_gives s c start len : sds_repr s c -> 0 <= start -> 0 <= len -> gives (sdssubstr s start len) (substr c start len).
Proof.
  intros Hs Hst Hl. unfold sdssubstr. rewrite (repr_len _ _ Hs), bind_Ok, Z.geb_leb. layout Hs. pose proof (zlen_nonneg c).
  destruct (Z.leb_spec (zlen c) start).
  - rewrite Z.gtb_ltb. zfalse (zlen c - 0 <? 0). change (negb (0 =? 0)) with false. cbv iota zeta.
    destruct (keep_part T alloc c free 0 0 false) as (s' & E & Hs'); [done|lia..|]. exists s'. split; [exact E|].
    unfold substr. rewrite drop_ge by (unfold zlen in *; lia). by rewrite take_nil.
  - cbv zeta. set (n := if len >? zlen c - start then _ else _). assert (0 <= n <= zlen c - start) as Hn by (unfold n; ztest; lia).
    destruct (keep_part T alloc c free start n (negb (n =? 0))) as (s' & E & Hs'); [done|lia..|]. exists s'. split; [exact E|].
    assert (substr c start len = take (Z.to_nat n) (drop (Z.to_nat start) c)) as ->; [|done]. unfold substr, n. rewrite Z.gtb_ltb.
    destruct (Z.ltb_spec (zlen c - start) len); [|done]. rewrite !take_ge; [done| |]; rewrite length_drop; unfold zlen in *; lia.
Qed.

Lemma range_gives s c start end_ : sds_repr s c -> zlen c < 2 ^ 62 -> - 2 ^ 62 < start < 2 ^ 62 -> - 2 ^ 62 < end_ < 2 ^ 62 ->
  gives (sdsrange s start end_) (range c start end_).
Proof.
  intros Hs Hc Hst He. unfold sdsrange, range. rewrite (repr_len _ _ Hs), bind_Ok. pose proof (zlen_nonneg c).
  destruct (Z.eqb_spec (zlen c) 0) as [E0|].
  { destruct c; [|zlia]. destruct (_ || _); [by apply gives_ok|]. unfold substr. rewrite drop_nil, take_nil. by apply gives_ok. }
  rewrite !wrapS_small by lia. cbv zeta. set (a := if start <? 0 then _ else _). set (b := if end_ <? 0 then _ else _).
  assert (- 2 ^ 62 < a < 2 ^ 62) as Ha by (unfold a; ztest; lia). assert (- 2 ^ 62 < b < 2 ^ 62) as Hb by (unfold b; ztest; lia).
  clearbody a b. rewrite Z.gtb_ltb. destruct (Z.ltb_spec b a).
  - rewrite bind_Ok, orb_true_r. change [] with (take (Z.to_nat 0) (drop (Z.to_nat (wrapU 64 a)) c)). apply substr_gives; [done| |lia].
    pose proof (wrapU_range 64 a). lia.
  - rewrite !sint_ok by lia. rewrite !bind_Ok, sint_ok, bind_Ok, orb_false_r by lia. destruct (Z.ltb_spec a 0).
    + assert (wrapU 64 a = 2 ^ 64 + a) as -> by (unfold wrapU; rewrite <- (Z.mod_add a 1), Z.mod_small; lia).
      destruct (substr_gives s c (2 ^ 64 + a) (b - a + 1)) as (s' & E & Hs'); [done|lia..|]. exists s'. split; [done|].
      unfold substr in Hs'. rewrite drop_ge, take_nil in Hs' by (unfold zlen in *; lia). done.
    + rewrite wrapU_small by lia. apply substr_gives; [done|lia..].
Qed.

Lemma strchr_ok cset rest x : Forall (fun c => c <> 0) cset ->
  strchr (cset ++ 0 :: rest) x = Ok (bool_decide (x = 0 \/ x ∈ cset)).
Proof.
  induction 1 as [|c cset Hc _ IH]; cbn [strchr app].
  - destruct (Z.eqb_spec 0 x); [rewrite bool_decide_eq_true_2 by auto|rewrite bool_decide_eq_false_2 by set_solver]; done.
  - destruct (Z.eqb_spec c x) as [->|]; [rewrite bool_decide_eq_true_2 by set_solver; done|]. zfalse (c =? 0). rewrite IH. f_equal.
    apply bool_decide_ext. set_solver.
Qed.

Lemma lookup_body c rest i : 0 <= i < zlen c -> exists x, c !! Z.to_nat i = Some x /\ rd1 (c ++ rest) i = Ok x.
Proof.
  intros Hi. destruct (lookup_lt_is_Some_2 c (Z.to_nat i)) as [x Hx]; [unfold zlen in *; lia|]. exists x. split; [done|].
  apply rd1_lookup. split; [lia|]. by apply lookup_app_l_Some.
Qed.

Section Trim.
Context (T alloc : Z) (c free cset rest : list Z).
Context (HT : 0 <= T <= 4) (Hset : Forall (fun c => c <> 0) cset).
Let s := mk T (zlen c) alloc (c ++ 0 :: free).
Let P := fun x => bool_decide (x = 0 \/ x ∈ cset).

Lemma trim_left_ok fuel : forall sp, 0 <= sp <= zlen c -> zlen c - sp < Z.of_nat fuel ->
  sdstrim_left fuel s (cset ++ 0 :: rest) sp (zlen c - 1) = Ok (zlen c - zlen (drop_while P (drop (Z.to_nat sp) c))).
Proof.
  induction fuel as [|fuel IH]; intros sp Hsp Hf; [lia|]. cbn [sdstrim_left]. destruct (Z.leb_spec sp (zlen c - 1)).
  - destruct (lookup_body c (0 :: free) sp) as (x & Hx & Hr); [lia|]. unfold s. rewrite sget1_mk, Hr, bind_Ok, strchr_ok, bind_Ok by (done || lia).
    rewrite (drop_S _ _ _ Hx). cbn [drop_while]. fold (P x). replace (S (Z.to_nat sp)) with (Z.to_nat (sp + 1)) by lia.
    destruct (P x); [apply IH; lia|]. f_equal. rewrite zlen_cons, zlen_drop by lia. lia.
  - rewrite drop_ge by (unfold zlen in *; lia). f_equal. zlia.
Qed.

Lemma trim_right_ok fuel : forall sp ep, 0 <= sp -> sp <= ep + 1 -> ep < zlen c -> ep - sp + 1 < Z.of_nat fuel ->
  (forall x, c !! Z.to_nat sp = Some x -> P x = false \/ ep < sp) ->
  sdstrim_right fuel s (cset ++ 0 :: rest) ep sp =
    Ok (sp + zlen (drop_while P (rev (substr c sp (ep - sp + 1)))) - 1).
Proof.
  induction fuel as [|fuel IH]; intros sp ep Hsp He1 He2 Hf Hfirst; [lia|]. cbn [sdstrim_right].
  rewrite Z.gtb_ltb. destruct (Z.ltb_spec sp ep).
  - destruct (lookup_body c (0 :: free) ep) as (x & Hx & Hr); [lia|]. unfold s. rewrite sget1_mk, Hr, bind_Ok, strchr_ok, bind_Ok by (done || lia).
    assert (substr c sp (ep - sp + 1) = substr c sp (ep - sp) ++ [x]) as ->.
    { unfold substr. replace (Z.to_nat (ep - sp + 1)) with (S (Z.to_nat (ep - sp))) by lia. apply take_S_r. rewrite lookup_drop.
      by replace (Z.to_nat sp + Z.to_nat (ep - sp))%nat with (Z.to_nat ep) by lia. }
    rewrite rev_unit. cbn [drop_while]. fold (P x). destruct (P x).
    + rewrite IH; [by replace (ep - 1 - sp + 1) with (ep - sp) by lia|lia..|]. intros y Hy. destruct (Hfirst y Hy); [auto|lia].
    + f_equal. rewrite zlen_cons, zlen_rev. unfold substr. rewrite zlen_take; [lia|]. rewrite zlen_drop; lia.
  - f_equal. destruct (decide (ep = sp)) as [->|].
    + destruct (lookup_body c (0 :: free) sp) as (x & Hx & _); [lia|]. unfold substr. replace (Z.to_nat (sp - sp + 1)) with 1%nat by lia.
      rewrite (drop_S _ _ _ Hx). change (rev (take 1 (x :: _))) with [x]. cbn [drop_while]. destruct (Hfirst x Hx) as [Ep|]; [rewrite Ep|lia]. change (zlen [x]) with 1. lia.
    + unfold substr. replace (Z.to_nat (ep - sp + 1)) with 0%nat by lia. change (zlen _) with 0. lia.
Qed.

End Trim.

Lemma drop_while_suffix P l : exists pre, l = pre ++ drop_while P l.
Proof. induction l as [|x l [pre IH]]; [by exists []|]. cbn [drop_while]. destruct (P x); [exists (x :: pre); cbn; by f_equal|by exists []]. Qed.

Lemma drop_while_head P l x r : drop_while P l = x :: r -> P x = false.
Proof. induction l as [|y l IH]; [done|]. cbn [drop_while]. destruct (P y) eqn:E; [done|]. by intros [= -> ->]. Qed.

Lemma suffix_drop (l pre D : list Z) : l = pre ++ D -> drop (Z.to_nat (zlen l - zlen D)) l = D.
Proof. intros ->. rewrite zlen_app. replace (zlen pre + zlen D - zlen D) with (zlen pre) by lia. apply drop_zlen_app. Qed.

Lemma trim_gives s c cset rest : sds_repr s c -> Forall (fun c => c <> 0) cset -> gives (sdstrim s (cset ++ 0 :: rest)) (trimmed cset c).
Proof.
  intros Hs Hset. unfold sdstrim. rewrite (repr_len _ _ Hs), bind_Ok. layout Hs. pose proof (zlen_nonneg c). cbv zeta.
  rewrite (trim_left_ok T alloc c free cset rest) by (done || lia). rewrite bind_Ok. unfold trimmed. cbv zeta.
  set (P := fun x => bool_decide (x = 0 \/ x ∈ cset)). change (drop (Z.to_nat 0) c) with c. set (D := drop_while P c).
  destruct (drop_while_suffix P c) as [pre Epre]. fold D in Epre. pose proof (suffix_drop _ _ _ Epre) as HD.
  assert (zlen D <= zlen c) as HzD by (rewrite Epre, zlen_app; zlia). set (sp := zlen c - zlen D) in *. pose proof (zlen_nonneg D).
  assert (substr c sp (zlen c - 1 - sp + 1) = D) as Hsub.
  { unfold substr. rewrite HD, take_ge; [done|]. unfold sp. unfold zlen in *. lia. }
  rewrite (trim_right_ok T alloc c free cset rest); [|done|done|unfold sp; lia..|].
  - fold P. rewrite bind_Ok, Hsub. destruct (drop_while_suffix P (rev D)) as [pre' Epre']. set (E := drop_while P (rev D)) in *.
    assert (zlen E <= zlen D) as HzE by (rewrite <- (zlen_rev D), Epre', zlen_app; zlia).
    destruct (keep_part T alloc c free sp (zlen E) (negb (sp =? 0))) as (s' & E' & Hs'); [done|lia..|apply zlen_nonneg|unfold sp; lia|lia|].
    exists s'. replace (sp + zlen E - 1 - sp + 1) with (zlen E) by lia. split; [exact E'|].
    assert (rev E = take (Z.to_nat (zlen E)) (drop (Z.to_nat sp) c)) as ->; [|done].
    rewrite HD. rewrite <- (rev_involutive D), Epre', rev_app_distr, <- (zlen_rev E), take_zlen_app. done.
  - intros x Hx. fold P. rewrite <- (Nat.add_0_r (Z.to_nat sp)), <- lookup_drop, HD in Hx. left. destruct D as [|y D'] eqn:ED; [done|].
    injection Hx as ->. exact (drop_while_head P c _ _ ED).
Qed.

Lemma dup_gives s c : sds_repr s c -> room (zlen c) -> gives (sdsdup s) c.
Proof.
  intros Hs Hr. unfold sdsdup. rewrite (repr_len _ _ Hs), bind_Ok. destruct (sds_cbuf _ _ Hs) as [free ->].
  apply newlen_gives; [by eexists|by eapply sds_bytes|done].
Qed.

Lemma cstr_split c : exists rest, c ++ [0] = cstr c ++ 0 :: rest.
Proof.
  induction c as [|x c [rest IH]]; [by exists []|]. cbn [cstr app]. destruct (Z.eqb_spec x 0) as [->|]; [by eexists|].
  exists rest. cbn [app]. by rewrite IH.
Qed.

Lemma cstr_nonzero c : Forall (fun x => x <> 0) (cstr c).
Proof. induction c as [|x c IH]; [constructor|]. cbn [cstr]. destruct (Z.eqb_spec x 0); [constructor|by constructor]. Qed.

Lemma cstr_prefix c : exists r, c = cstr c ++ r.
Proof. induction c as [|x c [r IH]]; [by exists []|]. cbn [cstr]. destruct (_ =? _); [by eexists|]. exists r. cbn [app]. by f_equal. Qed.

Lemma updatelen_gives s c : sds_repr s c -> gives (sdsupdatelen s) (cstr c).
Proof.
  intros Hs. layout Hs. unfold sdsupdatelen. rewrite cbuf_mk by done. destruct (cstr_split c) as [rest E].
  assert (c ++ 0 :: free = cstr c ++ 0 :: rest ++ free) as Eb by (rewrite (cons_middle 0 c), app_assoc, E; by rewrite <- app_assoc).
  rewrite Eb, strlen_ok, bind_Ok by apply cstr_nonzero. pose proof (zlen_nonneg c). rewrite sdssetlen_mk by lia. apply gives_ok.
  destruct (cstr_prefix c) as [r Er]. apply (f_equal zlen) in E. rewrite !zlen_app, !zlen_cons, zlen_nil in E.
  apply (at_edit T alloc c _ free); [done| |zlia|rewrite zlen_app; lia].
  rewrite Er in Hb. by apply Forall_app in Hb as [? _].
Qed.

Lemma map_loop_ok f T len alloc n : forall a b rest, 0 <= T <= 4 -> length b = n ->
  sds_map_loop f n (mk T len alloc (a ++ b ++ rest)) (zlen a) = Ok (mk T len alloc (a ++ (f <$> b) ++ rest)).
Proof.
  induction n as [|n IH]; intros a b rest HT Hn; [by destruct b|]. destruct b as [|x b]; [done|]. cbn [sds_map_loop app fmap list_fmap].
  pose proof (zlen_nonneg a). rewrite sget1_mk, (rd1_app a x), bind_Ok, sput_mk by done. rewrite (cons_middle x a).
  rewrite (wr_app a [x] [f x]), !bind_Ok by done. rewrite (app_assoc a [f x]).
  replace (zlen a + 1) with (zlen (a ++ [f x])) by (rewrite zlen_app; done). injection Hn as Hn. rewrite IH by done. by rewrite <- app_assoc.
Qed.

Lemma map_gives f s c : sds_repr s c -> (forall x, is_byte x -> is_byte (f x)) ->
  gives (len ← sdslen s; sds_map_loop f (Z.to_nat len) s 0) (f <$> c).
Proof.
  intros Hs Hf'. rewrite (repr_len _ _ Hs), bind_Ok. layout Hs. rewrite zlen_to_nat.
  pose proof (map_loop_ok f T (zlen c) alloc _ [] c (0 :: free) HT eq_refl) as E. cbn [app] in E. change (zlen []) with 0 in E. rewrite E. apply gives_ok. rewrite <- (zlen_fmap f c).
  apply (at_edit T alloc c _ free); [done|by apply Forall_fmap, (Forall_impl _ _ _ Hb)|rewrite zlen_fmap; lia..].
Qed.

Lemma tolower_gives s c : sds_repr s c -> gives (sdstolower s) (tolower <$> c).
Proof. intros Hs. apply map_gives; [done|]. unfold is_byte, tolower. intros x Hx. ztest; lia. Qed.

Lemma toupper_gives s c : sds_repr s c -> gives (sdstoupper s) (toupper <$> c).
Proof. intros Hs. apply map_gives; [done|]. unfold is_byte, toupper. intros x Hx. ztest; lia. Qed.

(** [sdsRemoveFreeSpace] keeps the string and leaves no free space. *)
Lemma remove_free_ok s c : sds_repr s c -> room (zlen c) ->
  exists T' s', sdsRemoveFreeSpace s = Ok s' /\ sds_at T' (zlen c) s' c.
Proof.
  intros Hs Hr. layout Hs. unfold sdsRemoveFreeSpace. destruct (sds_flags _ _ _ _ _ Hat) as (fl & Hfl & HfT).
  rewrite Hfl, bind_Ok, HfT, (sds_len _ _ _ _ _ Hat), bind_Ok, (sds_avail _ _ _ _ _ Hat), bind_Ok, (sds_start _ _ _ _ _ Hat), bind_Ok.
  pose proof (zlen_nonneg c). pose proof max_request_bound. unfold room, SDS_MAX_PREALLOC in Hr.
  destruct (Z.eqb_spec (alloc - zlen c) 0). { assert (alloc = zlen c) as -> by lia. by exists T, (mk T (zlen c) (zlen c) (c ++ 0 :: free)). }
  assert (T <> 0) by (intros ->; rewrite H5 in *; lia). destruct (req_type (zlen c)) as [HT' Hm']; [zconst; lia|].
  set (T' := sdsReqType (zlen c)) in *. pose proof (hdr_size_range T HT). pose proof (hdr_size_range T' HT'). cbv zeta.
  unfold zrealloc, zmalloc. rewrite !wrapU_small by lia.
  ztrue (sdsHdrSize T + zlen c + 1 <=? max_request). ztrue (sdsHdrSize T' + zlen c + 1 <=? max_request). destruct (_ || _) eqn:E.
  - rewrite !bind_Ok. destruct (realloc_block 0 T alloc c free (sdsHdrSize T + zlen c + 1)) as (free' & -> & Hf'); [lia..|].
    fold (mk T (zlen c) alloc (c ++ 0 :: free')). rewrite sdssetalloc_mk by lia. eexists _, _. split; [done|]. apply at_intro; done || lia.
  - rewrite !bind_Ok, sget_mk, (cons_middle 0 c free), app_assoc, rd_app_head, bind_Ok by (done || zlia).
    destruct (copy_block T' (c ++ [0]) (sdsHdrSize T' + zlen c + 1)) as (G & free' & HG & Hf' & Ec); [lia|zlia|].
    rewrite zlen_app, zlen_cons, zlen_nil in Hf'. apply bind_Ok_inv in Ec as (b & -> & Ec). rewrite bind_Ok, Ec, bind_Ok.
    destruct (set_raw T' G ((c ++ [0]) ++ free') (zlen c) (zlen c)) as (s1 & -> & Es); [lia|done|zlia|]. rewrite !bind_Ok, Es.
    rewrite <- app_assoc. eexists _, _. split; [done|]. apply at_intro; done || lia.
Qed.

(** [sdsResize] sets the capacity, and cuts the string when it is longer. *)
Lemma sds_resize_ok s c n : sds_repr s c -> 0 <= n -> room (Z.max (zlen c) n) ->
  exists T' s', sdsResize s n = Ok s' /\ sds_at T' n s' (take (Z.to_nat n) c).
Proof.
  intros Hs Hn Hr. layout Hs. unfold sdsResize. destruct (sds_flags _ _ _ _ _ Hat) as (fl & Hfl & HfT).
  rewrite Hfl, bind_Ok, HfT, (sds_len _ _ _ _ _ Hat), bind_Ok, (sds_start _ _ _ _ _ Hat), bind_Ok, (sds_alloc _ _ _ _ _ Hat), bind_Ok.
  pose proof (zlen_nonneg c). pose proof max_request_bound. unfold room, SDS_MAX_PREALLOC in Hr.
  destruct (Z.eqb_spec alloc n) as [->|]. { exists T. eexists. split; [done|]. by rewrite take_ge by (unfold zlen in *; lia). }
  set (T' := if _ =? SDS_TYPE_5 then _ else _). destruct (req_type_8 n T') as [HT' Hm']; [zconst; lia|done|]. clearbody T'.
  pose proof (hdr_size_range T HT). pose proof (hdr_size_range T' ltac:(lia)). cbv zeta. set (x := take _ c). set (len := if n <? zlen c then n else zlen c).
  assert (exists y, c = x ++ y) as [y Ey] by (exists (drop (Z.to_nat n) c); symmetry; apply take_drop).
  assert (zlen x = len) as Hx by (unfold x, len, zlen; rewrite length_take; ztest; unfold zlen in *; lia).
  assert (len <= n /\ len <= zlen c) as [Hl1 Hl2] by (unfold len; ztest; lia). rewrite <- Hx in *. clearbody len.
  assert (Forall is_byte x) as Hbx by (by apply Forall_take).
  unfold zrealloc, zmalloc. rewrite !wrapU_small by lia. unfold SDS_TYPE_8.
  ztrue (sdsHdrSize T + n + 1 <=? max_request). ztrue (sdsHdrSize T' + n + 1 <=? max_request). destruct (_ || _) eqn:E.
  - rewrite !bind_Ok. destruct (zrealloc_keep (header T (zlen c) alloc ++ x) (y ++ 0 :: free) (sdsHdrSize T + n + 1)) as (d & Ed & Hd);
      [rewrite zlen_app, zlen_header; lia|]. rewrite zlen_app, zlen_header in Hd by lia. rewrite <- app_assoc, (app_assoc x), <- Ey in Ed.
    unfold mk at 1. cbn [blk]. rewrite Ed. destruct d as [|d0 free']; [zlia|]. rewrite zlen_cons in Hd. rewrite <- app_assoc.
    fold (mk T (zlen c) alloc (x ++ d0 :: free')). pose proof (zlen_nonneg x).
    rewrite sput_mk, (cons_middle d0), (wr_app x [d0]), !bind_Ok, sdssetlen_mk, bind_Ok by (done || lia).
    assert (sdsTypeMaxSize T' <= sdsTypeMaxSize T /\ T <> 0) as [HmT HT0].
    { destruct (Z.eqb_spec T T') as [->|]; [lia|]. cbn [orb] in E. zprop. assert (T' = 2 /\ (T = 3 \/ T = 4) \/ T' = 3 /\ T = 4) as HTT by lia.
      destruct HTT as [[-> [-> | ->]]|[-> ->]]; done. }
    rewrite sdssetalloc_mk by lia. eexists _, _. split; [done|]. apply at_intro; done || lia.
  - rewrite !bind_Ok, sget_mk, Ey, <- app_assoc, rd_app_head, bind_Ok by (done || lia).
    destruct (copy_block T' x (sdsHdrSize T' + n + 1)) as (G & free' & HG & Hf' & Ec); [lia..|].
    apply bind_Ok_inv in Ec as (b & -> & Ec). rewrite bind_Ok, Ec, bind_Ok. destruct free' as [|d0 free']; [zlia|]. rewrite zlen_cons in Hf'.
    unfold sput, raw. cbn [blk off]. rewrite (cons_middle T' G), app_assoc. pose proof (zlen_nonneg x).
    replace (sdsHdrSize T' + zlen x) with (zlen (G ++ [T']) + zlen x) by (rewrite zlen_app, HG, zlen_cons, zlen_nil; lia).
    rewrite wr_shift, (cons_middle d0 x), (wr_app x [d0]), !bind_Ok by (done || lia).
    change (Sds ((G ++ [T']) ++ x ++ [0] ++ free') (sdsHdrSize T')) with (Sds ((G ++ [T']) ++ x ++ 0 :: free') (sdsHdrSize T')).
    rewrite <- app_assoc. change (Sds (G ++ [T'] ++ x ++ 0 :: free') (sdsHdrSize T')) with (raw T' G (x ++ 0 :: free')).
    destruct (set_raw T' G (x ++ 0 :: free') (zlen x) n) as (s1 & -> & Es); [lia..|]. rewrite bind_Ok, Es.
    eexists _, _. split; [done|]. apply at_intro; done || lia.
Qed.

Lemma hdr_unsigned T u : 1 <= T <= 4 -> u = (if (width T =? 8)%nat then 64 else 32) -> sdsTypeMaxSize T < 2 ^ u /\ 0 < u.
Proof. intros HT ->. assert (T = 1 \/ T = 2 \/ T = 3 \/ T = 4) as [->|[->|[->| ->]]] by lia; by vm_compute. Qed.

(** [sdsIncrLen] takes in bytes written behind the string, within its capacity. *)
Lemma incrlen_grow T alloc c x y free :
  1 <= T <= 4 -> zlen c + zlen x <= alloc <= sdsTypeMaxSize T -> Forall is_byte (c ++ x) -> alloc <= zlen c + zlen x + zlen free ->
  gives (sdsIncrLen (mk T (zlen c) alloc (c ++ x ++ y :: free)) (zlen x)) (c ++ x).
Proof.
  intros HT Ha Hb Hf. pose proof (zlen_nonneg c). pose proof (zlen_nonneg x). unfold sdsIncrLen.
  destruct (flags_mk T (zlen c) alloc (c ++ x ++ y :: free)) as (fl & Hfl & _ & _ & Hsw); [lia..|]. rewrite Hfl, bind_Ok, Hsw, switch_hdr by done.
  cbv zeta. destruct (sget_fields T (zlen c) alloc (c ++ x ++ y :: free)) as [El Ea]; [lia..|]. rewrite Ea, bind_Ok, El, bind_Ok.
  destruct (hdr_unsigned T _ HT eq_refl) as [Hu1 Hu2]. set (u := if (width T =? 8)%nat then 64 else 32) in *. rewrite !(wrapU_small u) by lia.
  rewrite (wrapU_small (8 * _)) by (rewrite max_size in Ha by done; lia).
  ztrue (zlen x >=? 0). replace (if _ || _ then _ else _) with true by (by destruct (_ || _); lia). cbn [andb orb].
  rewrite hdr_set_len_mk, !bind_Ok, sput_mk by lia. rewrite app_assoc, (cons_middle y), (wr_app _ [y]), bind_Ok by (rewrite ?zlen_app; done).
  rewrite <- zlen_app. apply gives_ok. exists T, alloc. apply at_intro; [lia|rewrite zlen_app; lia|lia|done|rewrite zlen_app; lia].
Qed.

(** [sdsIncrLen] with a negative increment cuts the end off. *)
Lemma incrlen_shrink s c n : sds_repr s c -> 0 < n <= zlen c -> gives (sdsIncrLen s (- n)) (take (Z.to_nat (zlen c - n)) c).
Proof.
  intros Hs Hn. layout Hs. pose proof (zlen_nonneg c). unfold sdsIncrLen. set (x := take _ c).
  assert (exists y r, c = x ++ y :: r) as (y & r & Ec).
  { destruct (drop (Z.to_nat (zlen c - n)) c) as [|y r] eqn:E.
    - apply (f_equal length) in E. rewrite length_drop in E. cbn in E. unfold zlen in *. lia.
    - exists y, r. unfold x. rewrite <- E. symmetry. apply take_drop. }
  assert (zlen x = zlen c - n) as Hx by (unfold x; rewrite zlen_take; lia).
  assert (forall a, sput (mk T (zlen c - n) a (c ++ 0 :: free)) (zlen c - n) [0] = Ok (mk T (zlen x) a (x ++ 0 :: r ++ 0 :: free))) as Hput.
  { intros a. rewrite sput_mk by lia. rewrite <- Hx. rewrite Ec at 1. rewrite <- app_assoc, <- app_comm_cons, (cons_middle y).
    by rewrite (wr_app x [y]) by done. }
  assert (sds_repr (mk T (zlen x) alloc (x ++ 0 :: r ++ 0 :: free)) x) as Hr.
  { apply (f_equal zlen) in Ec. rewrite zlen_app, zlen_cons in Ec.
    apply (at_edit T alloc c _ free); [done|by apply Forall_take|lia|rewrite zlen_app, zlen_cons; lia]. }
  destruct (flags_mk T (zlen c) alloc (c ++ 0 :: free)) as (fl & Hfl & _ & Hl5 & Hsw); [lia..|]. rewrite Hfl, bind_Ok, Hsw.
  zfalse (- n >? 0). zfalse (- n >=? 0). ztrue (- n <? 0). cbn [andb orb]. rewrite Z.opp_involutive. destruct (decide (T = 0)) as [->|].
  - pose proof (sdssetlen_mk 0 (zlen c) alloc (c ++ 0 :: free) (zlen c - n) HT ltac:(lia)) as E. unfold sdssetlen in E.
    rewrite Hfl, bind_Ok, Hsw in E. change (sds_switch 0 ?a _ _) with a in E |- *. rewrite Hl5 by done. change (sdsTypeMaxSize 0) with 31 in Hm. rewrite (wrapU_small 32) by lia. ztrue (zlen c >=? n).
    rewrite !Z.add_opp_r, E, !bind_Ok, Hput by (done || lia). by apply gives_ok.
  - rewrite switch_hdr by lia. destruct (sget_fields T (zlen c) alloc (c ++ 0 :: free)) as [El Ea]; [lia..|]. rewrite Ea, bind_Ok, El, bind_Ok.
    destruct (hdr_unsigned T _ ltac:(lia) eq_refl) as [Hu1 Hu2].
    set (u := if (width T =? 8)%nat then 64 else 32) in *. rewrite (wrapU_small u n) by lia.
    rewrite (wrapU_small (8 * _)) by (rewrite max_size in Hm by lia; lia). ztrue (zlen c >=? n).
    rewrite hdr_set_len_mk, !bind_Ok, Z.add_opp_r, Hput by lia. by apply gives_ok.
Qed.

Lemma memcmp_ok a b ra rb : memcmp (Nat.min (length a) (length b)) (a ++ ra) (b ++ rb) =
  Ok (let m := Nat.min (length a) (length b) in lex (take m a) (take m b)).
Proof.
  revert b. induction a as [|x a IH]; intros [|y b]; [done..|]. cbn [length Nat.min memcmp app take firstn lex]. rewrite Z.gtb_ltb.
  destruct (x <? y); [done|]. destruct (y <? x); [done|]. apply IH.
Qed.

Lemma lex_min a b : let m := Nat.min (length a) (length b) in
  lex a b = if lex (take m a) (take m b) =? 0 then (if zlen a >? zlen b then 1 else if zlen a <? zlen b then -1 else 0)
            else lex (take m a) (take m b).
Proof.
  cbv zeta. revert b. induction a as [|x a IH]; intros [|y b]; [done| | |].
  - cbn [length Nat.min take firstn lex Z.eqb]. rewrite zlen_cons. pose proof (zlen_nonneg b). change (zlen []) with 0. zfalse (0 >? 1 + zlen b). by ztrue (0 <? 1 + zlen b).
  - cbn [length Nat.min take firstn lex Z.eqb]. rewrite zlen_cons. pose proof (zlen_nonneg a). change (zlen []) with 0. by ztrue (1 + zlen a >? 0).
  - cbn [length Nat.min take firstn lex]. rewrite !zlen_cons. destruct (x <? y); [done|]. destruct (y <? x); [done|]. rewrite IH.
    replace (1 + zlen a >? 1 + zlen b) with (zlen a >? zlen b) by lia. by replace (1 + zlen a <? 1 + zlen b) with (zlen a <? zlen b) by lia.
Qed.

(** [sdscmp] decides the lexicographic order. *)
Lemma sdscmp_ok s1 s2 c1 c2 : sds_repr s1 c1 -> sds_repr s2 c2 -> sdscmp s1 s2 = Ok (lex c1 c2).
Proof.
  intros H1 H2. unfold sdscmp. rewrite (repr_len _ _ H1), bind_Ok, (repr_len _ _ H2), bind_Ok.
  destruct (sds_cbuf _ _ H1) as [f1 ->], (sds_cbuf _ _ H2) as [f2 ->].
  replace (Z.to_nat (if zlen c1 <? zlen c2 then _ else _)) with (Nat.min (length c1) (length c2)) by (ztest; unfold zlen in *; lia).
  rewrite memcmp_ok, bind_Ok. cbv zeta. rewrite (lex_min c1 c2). cbv zeta. by destruct (_ =? 0).
Qed.

(** ** Integers *)

Lemma ll2str_digits_ok fuel : forall v A X D, (0 < fuel)%nat -> 0 <= v < 10 ^ Z.of_nat fuel -> v < 10 ^ 20 -> zlen X = zlen (udec v) ->
  ll2str_digits fuel (A ++ X ++ D) (zlen A) v = Ok (A ++ rev (udec v) ++ D, zlen A + zlen (udec v)).
Proof.
  induction fuel as [|fuel IH]; intros v A X D Hfuel Hv H20 HX; [lia|]. cbn [ll2str_digits].
  assert (0 < zlen X) by (rewrite HX; apply udec_pos; lia). destruct X as [|x X]; [zlia|]. rewrite <- app_comm_cons.
  rewrite (cons_middle x A), (wr_app A [x]), bind_Ok by done. cbv zeta. rewrite zlen_cons in HX. destruct (Z.ltb_spec v 10).
  - rewrite udec_small in * by lia. rewrite (Z.div_small v 10) by lia. change (negb (0 =? 0)) with false. cbv iota. change (zlen [48 + v]) with 1 in *. assert (X = []) as -> by (destruct X; [done|zlia]).
    rewrite Z.mod_small by lia. done.
  - assert (1 <= v / 10) by zdiv. zfalse (v / 10 =? 0). cbn [negb]. rewrite udec_unfold in * by lia. rewrite zlen_app, zlen_cons, zlen_nil in HX.
    rewrite Nat2Z.inj_succ, Z.pow_succ_r in Hv by lia. assert (0 < fuel)%nat by (destruct fuel; [cbn in Hv; zdiv|lia]).
    rewrite app_assoc. replace (zlen A + 1) with (zlen (A ++ [48 + v mod 10])) by (rewrite zlen_app; done).
    rewrite IH; [|done|split; [lia|]; apply Z.div_lt_upper_bound; lia|zdiv|lia].
    rewrite rev_unit, <- app_assoc, !zlen_app, !zlen_cons, !zlen_nil. ok_eq.
Qed.

Lemma ll2str_reverse_ok fuel : forall A m D, (length m < fuel)%nat ->
  ll2str_reverse fuel (A ++ m ++ D) (zlen A) (zlen A + zlen m - 1) = Ok (A ++ rev m ++ D).
Proof.
  induction fuel as [|fuel IH]; intros A m D Hf; [lia|]. cbn [ll2str_reverse].
  destruct m as [|x m]; [change (zlen []) with 0; by zfalse (zlen A <? zlen A + 0 - 1)|]. rewrite zlen_cons.
  destruct m as [|y m _] using rev_ind; [change (zlen []) with 0; by zfalse (zlen A <? zlen A + (1 + 0) - 1)|].
  rewrite zlen_app, zlen_cons, zlen_nil. pose proof (zlen_nonneg m). ztrue (zlen A <? zlen A + (1 + (zlen m + (1 + 0))) - 1).
  replace (zlen A + (1 + (zlen m + (1 + 0))) - 1) with (zlen A + (1 + zlen m)) by lia.
  assert (forall u v, A ++ (u :: m ++ [v]) ++ D = (A ++ u :: m) ++ [v] ++ D) as Esplit.
  { intros. cbn [app]. rewrite <- !app_assoc. done. }
  cbn [app]. rewrite (rd1_app A x _ (zlen A)), bind_Ok by done. change (A ++ x :: (m ++ [y]) ++ D) with (A ++ (x :: m ++ [y]) ++ D). rewrite Esplit.
  cbn [app]. rewrite (rd1_app (A ++ x :: m) y), bind_Ok by (rewrite zlen_app, zlen_cons; lia).
  change ((A ++ x :: m) ++ y :: D) with ((A ++ x :: m) ++ [y] ++ D). rewrite <- Esplit. change (A ++ (x :: m ++ [y]) ++ D) with (A ++ [x] ++ (m ++ [y]) ++ D). rewrite (wr_app A [x]), bind_Ok by done.
  change (A ++ [y] ++ (m ++ [y]) ++ D) with (A ++ (y :: m ++ [y]) ++ D).
  rewrite Esplit, (wr_app (A ++ y :: m) [y]), bind_Ok by (rewrite ?zlen_app, ?zlen_cons, ?zlen_nil; lia). rewrite <- Esplit.
  change (A ++ (y :: m ++ [x]) ++ D) with (A ++ [y] ++ (m ++ [x]) ++ D). rewrite (app_assoc A), <- (app_assoc m).
  replace (zlen A + 1) with (zlen (A ++ [y])) by (rewrite zlen_app; done).
  replace (zlen A + (1 + zlen m) - 1) with (zlen (A ++ [y]) + zlen m - 1) by (rewrite zlen_app, zlen_cons, zlen_nil; lia).
  rewrite IH by (cbn in Hf; rewrite length_app in Hf; lia). f_equal. cbn [rev]. rewrite rev_unit. cbn [app]. by rewrite <- !app_assoc.
Qed.

(** The terminator and the reversal. *)
Lemma ll2str_tail m y D : zlen m < 22 ->
  (s ← wr (m ++ y :: D) (zlen m) [0]; ll2str_reverse 22 s 0 (zlen m - 1)) = Ok (rev m ++ 0 :: D).
Proof.
  intros Hl. rewrite (cons_middle y), (wr_app m [y]), bind_Ok by done. pose proof (ll2str_reverse_ok 22 [] m (0 :: D)) as E.
  cbn [app] in E. change (zlen []) with 0 in E. apply E. unfold zlen in *. lia.
Qed.

Lemma sdsull2str_ok X y D v : 0 <= v < 2 ^ 64 -> zlen X = zlen (udec v) -> sdsull2str (X ++ y :: D) v = Ok (udec v ++ 0 :: D, zlen (udec v)).
Proof.
  intros Hv HX. unfold sdsull2str. pose proof (ll2str_digits_ok 21 v [] X (y :: D)) as E. cbn [app] in E.
  change (zlen []) with 0 in E. rewrite Z.add_0_l in E. rewrite E by (done || lia). clear E. rewrite bind_Ok.
  pose proof (zlen_udec_le v). pose proof (ll2str_tail (rev (udec v)) y D) as E. rewrite zlen_rev, rev_involutive in E.
  apply bind_Ok_inv in E as (s & E1 & E2); [|lia]. by rewrite E1, bind_Ok, E2, bind_Ok.
Qed.

Lemma sdsll2str_ok X y D v : INT64_MIN <= v <= INT64_MAX -> zlen X = zlen (ll_repr v) ->
  sdsll2str (X ++ y :: D) v = Ok (ll_repr v ++ 0 :: D, zlen (ll_repr v)).
Proof.
  intros Hv HX. unfold ll_repr in *. destruct (Z.ltb_spec v 0) as [Hneg|Hpos].
  - unfold sdsll2str. ztrue (v <? 0). rewrite zlen_cons in *.
    assert ((if negb (v =? INT64_MIN) then v0 ← sint 64 (- v); Ok (wrapU 64 v0) else Ok (wrapU 64 (INT64_MAX + 1))) = Ok (- v)) as ->.
    { destruct (Z.eqb_spec v INT64_MIN) as [->|]; [done|]. cbn [negb]. zconst. rewrite sint_ok, bind_Ok by (zwidth; lia). by rewrite wrapU_small by lia. }
    rewrite bind_Ok. destruct (cut_at X (zlen (udec (- v)))) as (X1 & X2 & -> & HX1 & HX2); [zlia|]. rewrite zlen_app in HX.
    destruct X2 as [|x X2]; [zlia|]. rewrite zlen_cons in HX2. assert (X2 = []) as -> by (destruct X2; [done|zlia]).
    pose proof (ll2str_digits_ok 21 (- v) [] X1 ([x] ++ y :: D)) as E. cbn [app] in E. rewrite <- app_assoc. cbn [app].
    change (zlen []) with 0 in E. rewrite Z.add_0_l in E. rewrite E by (done || zconst; lia). clear E. rewrite bind_Ok.
    set (m := rev (udec (- v))). rewrite (cons_middle x), (wr_app m [x] [45]), !bind_Ok by (unfold m; rewrite ?zlen_rev; done).
    pose proof (zlen_udec_le (- v)). pose proof (ll2str_tail (m ++ [45]) y D) as E. unfold m in E. rewrite zlen_app, zlen_rev, rev_app_distr, rev_involutive in E.
    rewrite app_assoc. apply bind_Ok_inv in E as (s & E1 & E2); [|rewrite zlen_cons, zlen_nil; lia]. fold m in E1.
    change (zlen [45]) with 1 in *. rewrite E1, bind_Ok, E2, bind_Ok. cbn [rev app]. ok_eq.
  - pose proof (sdsull2str_ok X y D v) as E. unfold sdsull2str in E. unfold sdsll2str. zfalse (v <? 0). rewrite bind_Ok.
    rewrite <- E by (done || zconst; lia). by destruct (ll2str_digits _ _ _ _) as [[]| | |].
Qed.

Lemma fromlonglong_gives v : INT64_MIN <= v <= INT64_MAX -> room 20 -> gives (sdsfromlonglong v) (ll_repr v).
Proof.
  intros Hv Hr. unfold sdsfromlonglong, SDS_LLSTR_SIZE. pose proof (zlen_fresh_bytes 21 ltac:(lia)) as Hf. revert Hf. generalize (fresh_bytes 21). intros b Hf.
  pose proof (ll_repr_bound v Hv). destruct (cut_at b (zlen (ll_repr v))) as (X & D & -> & HX & HD); [lia|]. rewrite zlen_app in Hf.
  destruct D as [|y D]; [zlia|]. rewrite sdsll2str_ok, bind_Ok by done. apply newlen_gives; [by eexists| |eapply room_le; [done|lia]].
  apply ll_repr_bytes.
Qed.

End Operations.

(** * Any sequence of operations *)

Inductive sds_op :=
| OpCat (t : list Z) | OpCpy (t : list Z) | OpGrowZero (len : Z) | OpTrim (cset : list Z)
| OpRange (start end_ : Z) | OpSubstr (start len : Z) | OpClear | OpToLower | OpToUpper | OpUpdateLen
| OpMakeRoom (addlen : Z) (greedy : bool) | OpRemoveFreeSpace | OpResize (size : Z) | OpTruncate (n : Z) | OpDup.

Section Sequences.
Context `{Host} `{Allocator}.

Definition run_op (op : sds_op) (s : sds) : res sds :=
  match op with
  | OpCat t => sdscatlen s t (zlen t)
  | OpCpy t => sdscpylen s t (zlen t)
  | OpGrowZero len => sdsgrowzero s len
  | OpTrim cset => sdstrim s (cset ++ [0])
  | OpRange start end_ => sdsrange s start end_
  | OpSubstr start len => sdssubstr s start len
  | OpClear => sdsclear s
  | OpToLower => sdstolower s
  | OpToUpper => sdstoupper s
  | OpUpdateLen => sdsupdatelen s
  | OpMakeRoom addlen greedy => _sdsMakeRoomFor s addlen greedy
  | OpRemoveFreeSpace => sdsRemoveFreeSpace s
  | OpResize size => sdsResize s size
  | OpTruncate n => sdsIncrLen s (- n)
  | OpDup => sdsdup s
  end.

(** What the operation does to the bytes of the string. *)
Definition op_bytes (op : sds_op) (c : list Z) : list Z :=
  match op with
  | OpCat t => c ++ t
  | OpCpy t => t
  | OpGrowZero len => sdsgrowzero_bytes c len
  | OpTrim cset => trimmed cset c
  | OpRange start end_ => range c start end_
  | OpSubstr start len => substr c start len
  | OpClear => []
  | OpToLower => tolower <$> c
  | OpToUpper => toupper <$> c
  | OpUpdateLen => cstr c
  | OpResize size => take (Z.to_nat size) c
  | OpTruncate n => take (Z.to_nat (zlen c - n)) c
  | OpMakeRoom _ _ | OpRemoveFreeSpace | OpDup => c
  end.

(** The arguments are in range, and there is memory. *)
Definition op_pre (op : sds_op) (c : list Z) : Prop :=
  match op with
  | OpCat t => Forall is_byte t /\ room (zlen c + zlen t)
  | OpCpy t => Forall is_byte t /\ room (zlen t)
  | OpGrowZero len => room (Z.max (zlen c) len)
  | OpTrim cset => Forall (fun x => x <> 0) cset
  | OpRange start end_ => zlen c < 2 ^ 62 /\ - 2 ^ 62 < start < 2 ^ 62 /\ - 2 ^ 62 < end_ < 2 ^ 62
  | OpSubstr start len => 0 <= start /\ 0 <= len
  | OpMakeRoom addlen _ => 0 <= addlen /\ room (zlen c + addlen)
  | OpRemoveFreeSpace | OpDup => room (zlen c)
  | OpResize size => 0 <= size /\ room (Z.max (zlen c) size)
  | OpTruncate n => 0 < n <= zlen c
  | OpClear | OpToLower | OpToUpper | OpUpdateLen => True
  end.

Fixpoint run_ops (ops : list sds_op) (s : sds) : res sds :=
  match ops with [] => Ok s | op :: ops => s ← run_op op s; run_ops ops s end.

Definition ops_bytes (ops : list sds_op) (c : list Z) : list Z := foldl (fun c op => op_bytes op c) c ops.

Fixpoint ops_pre (ops : list sds_op) (c : list Z) : Prop :=
  match ops with [] => True | op :: ops => op_pre op c /\ ops_pre ops (op_bytes op c) end.

Lemma run_op_gives op s c : sds_repr s c -> op_pre op c -> gives (run_op op s) (op_bytes op c).
Proof.
  intros Hs Hp. destruct op; cbn [run_op op_bytes op_pre] in *; try destruct Hp as [Hp1 Hp2].
  - rewrite <- (app_nil_r t) at 1. by apply catlen_gives.
  - rewrite <- (app_nil_r t) at 1. by eapply cpylen_gives.
  - by apply growzero_gives.
  - by apply trim_gives.
  - apply range_gives; tauto.
  - by apply substr_gives.
  - by eapply clear_gives.
  - by apply tolower_gives.
  - by apply toupper_gives.
  - by apply updatelen_gives.
  - by apply room_gives.
  - destruct (remove_free_ok s c Hs Hp) as (T & s' & E & Hs'). exists s'. split; [done|]. by exists T, (zlen c).
  - destruct (sds_resize_ok s c size Hs Hp1 Hp2) as (T & s' & E & Hs'). exists s'. split; [done|]. by exists T, size.
  - by apply incrlen_shrink.
  - by apply dup_gives.
Qed.

Lemma run_ops_gives ops : forall s c, sds_repr s c -> ops_pre ops c -> gives (run_ops ops s) (ops_bytes ops c).
Proof.
  induction ops as [|op ops IH]; intros s c Hs Hp; [by apply gives_ok|]. destruct Hp as [Hp Hps]. cbn [run_ops].
  eapply gives_bind; [by apply run_op_gives|]. intros s' Hs'. by apply IH.
Qed.

(** C12: Any sequence of operations on an sds string, from its creation on, does to
    its bytes what the operations promise: appending, overwriting, growing with
    zeroes, trimming, cutting out a range, changing case and truncating.  No
    access leaves the allocation, no assertion fails, the header types change as
    the length requires, and at the end the length field is the length of the
    contents, a terminator follows them, and the free space the header claims is
    inside the block. *)
Theorem sds_refines_bytes init ops :
  Forall is_byte init -> room (zlen init) -> ops_pre ops init ->
  let c := ops_bytes ops init in
  exists s avail free, (s ← sdsnewlen (InitFrom init) (zlen init); run_ops ops s) = Ok s /\
    sdslen s = Ok (zlen c) /\ cbuf s = c ++ 0 :: free /\ sdsavail s = Ok avail /\ 0 <= avail <= zlen free.
Proof.
  intros Hb Hr Hp c. assert (gives (s ← sdsnewlen (InitFrom init) (zlen init); run_ops ops s) c) as (s & E & T & alloc & Hs).
  - eapply gives_bind; [apply newlen_gives; [exists []; by rewrite app_nil_r|done..]|]. intros s Hs. by apply run_ops_gives.
  - exists s, (alloc - zlen c). rewrite E, (sds_len _ _ _ _ _ Hs), (sds_avail _ _ _ _ _ Hs). destruct Hs as (HT & Ha & _ & _ & free & -> & Hf).
    exists free. rewrite cbuf_mk by done. split_and!; done || lia.
Qed.

End Sequences.

(** An allocator that gives what is asked for, up to 2^40 bytes. *)
Definition exact_allocator : Allocator.
Proof.
  refine {| max_request := 2 ^ 40; usable_size n := n |}; [lia| |done]. intros n Hn. zconst. lia.
Defined.

Lemma sds_refines_bytes_witness : let H := little_host in let A := exact_allocator in
  exists s avail free,
    (s ← sdsnewlen (InitFrom (chars " Hello World ")) (zlen (chars " Hello World "));
     run_ops [OpTrim (chars " "); OpCat (chars " again"); OpRange 6 (-7); OpToUpper] s) = Ok s /\
    sdslen s = Ok 5 /\ cbuf s = chars "WORLD" ++ 0 :: free /\ sdsavail s = Ok avail /\ 0 <= avail <= zlen free.
Proof.
  cbv zeta. apply (@sds_refines_bytes little_host exact_allocator (chars " Hello World ")
    [OpTrim (chars " "); OpCat (chars " again"); OpRange 6 (-7); OpToUpper]).
  - repeat constructor; vm_compute; congruence.
  - vm_compute. congruence.
  - cbn [ops_pre op_pre]. split_and!; try done; repeat constructor; vm_compute; congruence.
Defined.
