(* ===== verification/SdsText.v ===== *)
(** Text functions of [sds.c]: formatting, splitting and joining, the quoted
    representation and its parser, and templates.

    They build strings with the operations of [Sds], at the level of its memory
    model, from C strings and buffers.  A [const char *] that walks over a string
    is the rest of the buffer it points to; reading past the end of the buffer is
    undefined.  The theorems give the text produced and the round trips: a joined
    list splits into its parts, and the quoted representation of any arguments is
    parsed back by [sdssplitargs]. *)
From S2P Require Import Prelude Endian Util Glob Sds.
From stdpp Require Import list strings.

Open Scope Z_scope.

(** * Definitions *)

Section Text.
Context `{Host} `{Allocator}.

(** [p[i]] *)
Definition at_ (p : list Z) (i : nat) : res Z := match p !! i with Some c => Ok c | None => Fault end.

(** [strchr(p, c)]: the rest of the string from the character on. *)
Fixpoint strchr_from (p : list Z) (c : Z) : res (option (list Z)) :=
  match p with
  | [] => Fault
  | x :: q => if x =? c then Ok (Some p) else if x =? 0 then Ok None else strchr_from q c
  end.

(** Of the C locale; a character above 127 is negative. *)
Definition isprint (c : Z) : bool := (32 <=? c) && (c <=? 126).
Definition isspace (c : Z) : bool := ((9 <=? c) && (c <=? 13)) || (c =? 32).

(** [sdscatprintf] with the text [vsnprintf] makes of its arguments. *)
Definition sdscatprintf (s : sds) (text : list Z) : res sds := sdscatlen s (text ++ [0]) (zlen text).

(** ** Formatting *)

(** The variable arguments. *)
Inductive fmt_arg := ArgStr (str : list Z) | ArgSds (str : sds) | ArgInt (num : Z) | ArgUInt (unum : Z).

(** [if (sdsavail(s) < l) s = sdsMakeRoomFor(s,l); memcpy(s+i,str,l); sdsinclen(s,l); i += l] *)
Definition catfmt_put (s : sds) (i : Z) (str : list Z) (l : Z) : res (sds * Z) :=
  avail ← sdsavail s;
  s ← (if avail <? l then sdsMakeRoomFor s l else Ok s);
  bs ← rd str 0 l;
  s ← sput s i bs;
  s ← sdsinclen s l;
  Ok (s, i + l).

(** [s[i++] = c; sdsinclen(s,1)] *)
Definition catfmt_char (s : sds) (i c : Z) : res (sds * Z) :=
  s ← sput s i [c]; s ← sdsinclen s 1; Ok (s, i + 1).

(** The directive after a percent sign, and the arguments left. *)
Definition catfmt_directive (next : Z) (s : sds) (i : Z) (ap : list fmt_arg) : res (sds * Z * list fmt_arg) :=
  if (next =? 115) || (next =? 83) then
    match ap with
    | ArgStr str :: ap =>
        inbounds! (next =? 115);
        l ← strlen str;
        '(s, i) ← catfmt_put s i str l;
        Ok (s, i, ap)
    | ArgSds str :: ap =>
        inbounds! (next =? 83);
        l ← sdslen str;
        '(s, i) ← catfmt_put s i (cbuf str) l;
        Ok (s, i, ap)
    | _ => Fault
    end
  else if (next =? 105) || (next =? 73) then
    match ap with
    | ArgInt num :: ap =>
        '(buf, l) ← sdsll2str (fresh_bytes SDS_LLSTR_SIZE) num;
        '(s, i) ← catfmt_put s i buf l;
        Ok (s, i, ap)
    | _ => Fault
    end
  else if (next =? 117) || (next =? 85) then
    match ap with
    | ArgUInt unum :: ap =>
        '(buf, l) ← sdsull2str (fresh_bytes SDS_LLSTR_SIZE) unum;
        '(s, i) ← catfmt_put s i buf l;
        Ok (s, i, ap)
    | _ => Fault
    end
  else
    '(s, i) ← catfmt_char s i next;
    Ok (s, i, ap).

Fixpoint catfmt_loop (fuel : nat) (s : sds) (f : list Z) (i : Z) (ap : list fmt_arg) : res (sds * Z) :=
  match fuel with
  | O => OutOfFuel
  | S fuel =>
      c ← at_ f 0;
      if c =? 0 then Ok (s, i)
      else
        avail ← sdsavail s;
        s ← (if avail =? 0 then sdsMakeRoomFor s 1 else Ok s);
        if c =? 37 then
          next ← at_ f 1;
          if next =? 0 then catfmt_loop fuel s (drop 1 f) i ap
          else
            '(s, i, ap) ← catfmt_directive next s i ap;
            catfmt_loop fuel s (drop 2 f) i ap
        else
          '(s, i) ← catfmt_char s i c;
          catfmt_loop fuel s (drop 1 f) i ap
  end.

Definition sdscatfmt (s : sds) (fmt : list Z) (ap : list fmt_arg) : res sds :=
  initlen ← sdslen s;
  n ← strlen fmt;
  s ← sdsMakeRoomFor s (wrapU 64 (n * 2));
  '(s, i) ← catfmt_loop (S (length fmt)) s fmt initlen ap;
  sput s i [0].

(** ** Splitting and joining *)

(** [s[j]] begins an occurrence of the separator. *)
Definition sep_at (s : list Z) (j : Z) (sep : list Z) (seplen : Z) : res bool :=
  one ← (if seplen =? 1 then c ← rd1 s j; d ← rd1 sep 0; Ok (c =? d) else Ok false);
  if (one : bool) then Ok true
  else a ← rd s j seplen; b ← rd sep 0 seplen; Ok (bool_decide (a = b)).

(** [tokens[elements++] = sdsnewlen(s+start, len)], in an array of [slots]. *)
Definition push_token (tokens : list sds) (slots : Z) (s : list Z) (start len : Z) : res (list sds) :=
  inbounds! (zlen tokens <? slots);
  t ← sdsnewlen (InitFrom (drop (Z.to_nat start) s)) len;
  Ok (tokens ++ [t]).

Fixpoint splitlen_loop (fuel : nat) (s : list Z) (len : Z) (sep : list Z) (seplen : Z)
    (tokens : list sds) (slots start j : Z) : res (list sds * Z * Z) :=
  match fuel with
  | O => OutOfFuel
  | S fuel =>
      if j <? len - (seplen - 1) then
        slots ← (if slots <? zlen tokens + 2 then sint 32 (slots * 2) else Ok slots);
        hit ← sep_at s j sep seplen;
        if (hit : bool) then
          tokens ← push_token tokens slots s start (j - start);
          splitlen_loop fuel s len sep seplen tokens slots (j + seplen) (j + seplen - 1 + 1)
        else splitlen_loop fuel s len sep seplen tokens slots start (j + 1)
      else Ok (tokens, slots, start)
  end.

(** [None] is the null pointer, with a count of zero. *)
Definition sdssplitlen (s : list Z) (len : Z) (sep : list Z) (seplen : Z) : res (option (list sds)) :=
  if (seplen <? 1) || (len <=? 0) then Ok None
  else
    '(tokens, slots, start) ← splitlen_loop (S (Z.to_nat len)) s len sep seplen [] 5 0 0;
    tokens ← push_token tokens slots s start (len - start);
    Ok (Some tokens).

Fixpoint sdsjoinsds_loop (argv : list sds) (sep : list Z) (seplen : Z) (join : sds) : res sds :=
  match argv with
  | [] => Ok join
  | a :: argv =>
      join ← sdscatsds join a;
      join ← (if negb (zlen argv =? 0) then sdscatlen join sep seplen else Ok join);
      sdsjoinsds_loop argv sep seplen join
  end.

Definition sdsjoinsds (argv : list sds) (sep : list Z) (seplen : Z) : res sds :=
  join ← sdsempty; sdsjoinsds_loop argv sep seplen join.

Fixpoint sdsjoin_loop (argv : list (list Z)) (sep : list Z) (join : sds) : res sds :=
  match argv with
  | [] => Ok join
  | a :: argv =>
      join ← sdscat join a;
      join ← (if negb (zlen argv =? 0) then sdscat join sep else Ok join);
      sdsjoin_loop argv sep join
  end.

Definition sdsjoin (argv : list (list Z)) (sep : list Z) : res sds :=
  join ← sdsempty; sdsjoin_loop argv sep join.

(** The index of [c] in [from] among the first [n] characters from [i] on. *)
Fixpoint mapchars_find (n : nat) (from : list Z) (i c : Z) : res (option Z) :=
  match n with
  | O => Ok None
  | S n => f ← rd1 from i; if c =? f then Ok (Some i) else mapchars_find n from (i + 1) c
  end.

Fixpoint mapchars_loop (n : nat) (s : sds) (from to : list Z) (setlen j : Z) : res sds :=
  match n with
  | O => Ok s
  | S n =>
      c ← sget1 s j;
      i ← mapchars_find (Z.to_nat setlen) from 0 c;
      s ← match i with Some i => t ← rd1 to i; sput s j [t] | None => Ok s end;
      mapchars_loop n s from to setlen (j + 1)
  end.

Definition sdsmapchars (s : sds) (from to : list Z) (setlen : Z) : res sds :=
  l ← sdslen s; mapchars_loop (Z.to_nat l) s from to setlen 0.

(** ** The quoted representation *)

Definition hex_digit (v : Z) : Z := if v <? 10 then 48 + v else 97 + (v - 10).

Fixpoint catrepr_loop (s : sds) (p : list Z) : res sds :=
  match p with
  | [] => Ok s
  | c :: p =>
      s ← (if (c =? 92) || (c =? 34) then sdscatprintf s [92; c]
           else if c =? 10 then sdscatlen s (chars "\n") 2
           else if c =? 13 then sdscatlen s (chars "\r") 2
           else if c =? 9 then sdscatlen s (chars "\t") 2
           else if c =? 7 then sdscatlen s (chars "\a") 2
           else if c =? 8 then sdscatlen s (chars "\b") 2
           else if isprint c then sdscatprintf s [c]
           else sdscatprintf s [92; 120; hex_digit (c / 16); hex_digit (c mod 16)]);
      catrepr_loop s p
  end.

Definition sdscatrepr (s : sds) (p : list Z) (len : Z) : res sds :=
  p ← rd p 0 len;
  s ← sdscatlen s [34; 0] 1;
  s ← catrepr_loop s p;
  sdscatlen s [34; 0] 1.

Fixpoint needsrepr_loop (n : nat) (p : list Z) : res bool :=
  match n with
  | O => Ok false
  | S n =>
      c ← at_ p 0;
      if (c =? 92) || (c =? 34) || (c =? 10) || (c =? 13) || (c =? 9) || (c =? 7) || (c =? 8) ||
         negb (isprint c) || isspace c
      then Ok true else needsrepr_loop n (drop 1 p)
  end.

Definition sdsneedsrepr (s : sds) : res bool :=
  len ← sdslen s; needsrepr_loop (Z.to_nat len) (cbuf s).

Definition is_hex_digit (c : Z) : bool :=
  ((48 <=? c) && (c <=? 57)) || ((97 <=? c) && (c <=? 102)) || ((65 <=? c) && (c <=? 70)).

Definition hex_digit_to_int (c : Z) : Z :=
  if (48 <=? c) && (c <=? 57) then c - 48
  else if (97 <=? c) && (c <=? 102) then c - 97 + 10
  else if (65 <=? c) && (c <=? 70) then c - 65 + 10
  else 0.

(** ** The parser of arguments *)

(** [*p == '\\' && *(p+1) == 'x' && is_hex_digit(p[2]) && is_hex_digit(p[3])] *)
Definition hex_escape (p : list Z) : res bool :=
  c0 ← at_ p 0;
  if c0 =? 92 then
    c1 ← at_ p 1;
    if c1 =? 120 then
      c2 ← at_ p 2;
      if is_hex_digit c2 then c3 ← at_ p 3; Ok (is_hex_digit c3) else Ok false
    else Ok false
  else Ok false.

(** [*p == a && *(p+1)] satisfies [f] *)
Definition char_then (p : list Z) (a : Z) (f : Z -> bool) : res bool :=
  c0 ← at_ p 0; if c0 =? a then c1 ← at_ p 1; Ok (f c1) else Ok false.

(** A closing quote must be followed by a space or nothing at all: [None] is
    [goto err], otherwise the token is done. *)
Definition close_quote (p : list Z) (current : sds) : res (option (list Z * bool * bool * bool * sds)) :=
  c1 ← at_ p 1;
  if negb (c1 =? 0) && negb (isspace c1) then Ok None else Ok (Some (p, true, false, false, current)).

(** One turn of the loop over a token: the place, [done], [inq], [insq] and the
    token so far, before [if ( *p) p++]. *)
Definition splitargs_step (p : list Z) (inq insq : bool) (current : sds) : res (option (list Z * bool * bool * bool * sds)) :=
  c ← at_ p 0;
  if inq then
    hex ← hex_escape p;
    if (hex : bool) then
      c2 ← at_ p 2;
      c3 ← at_ p 3;
      let byte := hex_digit_to_int c2 * 16 + hex_digit_to_int c3 in
      current ← sdscatlen current [byte] 1;
      Ok (Some (drop 3 p, false, inq, insq, current))
    else
      esc ← char_then p 92 (fun c1 => negb (c1 =? 0));
      if (esc : bool) then
        let p := drop 1 p in
        c ← at_ p 0;
        let c := if c =? 110 then 10 else if c =? 114 then 13 else if c =? 116 then 9
                 else if c =? 98 then 8 else if c =? 97 then 7 else c in
        current ← sdscatlen current [c] 1;
        Ok (Some (p, false, inq, insq, current))
      else if c =? 34 then close_quote p current
      else if c =? 0 then Ok None
      else current ← sdscatlen current p 1; Ok (Some (p, false, inq, insq, current))
  else if insq then
    esc ← char_then p 92 (fun c1 => c1 =? 39);
    if (esc : bool) then
      let p := drop 1 p in
      current ← sdscatlen current (chars "'") 1;
      Ok (Some (p, false, inq, insq, current))
    else if c =? 39 then close_quote p current
    else if c =? 0 then Ok None
    else current ← sdscatlen current p 1; Ok (Some (p, false, inq, insq, current))
  else
    if (c =? 32) || (c =? 10) || (c =? 13) || (c =? 9) || (c =? 0) then Ok (Some (p, true, inq, insq, current))
    else if c =? 34 then Ok (Some (p, false, true, insq, current))
    else if c =? 39 then Ok (Some (p, false, inq, true, current))
    else current ← sdscatlen current p 1; Ok (Some (p, false, inq, insq, current)).

(** [while(!done)]: the token and the place after it. *)
Fixpoint splitargs_token (fuel : nat) (p : list Z) (inq insq : bool) (current : sds) : res (option (sds * list Z)) :=
  match fuel with
  | O => OutOfFuel
  | S fuel =>
      r ← splitargs_step p inq insq current;
      match r with
      | None => Ok None
      | Some (p, done, inq, insq, current) =>
          c ← at_ p 0;
          let p := if negb (c =? 0) then drop 1 p else p in
          if (done : bool) then Ok (Some (current, p)) else splitargs_token fuel p inq insq current
      end
  end.

(** [while( *p && isspace( *p)) p++] *)
Fixpoint skip_blanks (p : list Z) : res (list Z) :=
  match p with
  | [] => Fault
  | c :: q => if negb (c =? 0) && isspace c then skip_blanks q else Ok p
  end.

Fixpoint splitargs_loop (fuel : nat) (p : list Z) (vector : list sds) : res (option (list sds)) :=
  match fuel with
  | O => OutOfFuel
  | S fuel =>
      p ← skip_blanks p;
      c ← at_ p 0;
      if negb (c =? 0) then
        current ← sdsempty;
        r ← splitargs_token (S (length p)) p false false current;
        match r with
        | None => Ok None
        | Some (current, p) => splitargs_loop fuel p (vector ++ [current])
        end
      else Ok (Some vector)
  end.

(** [None] is the null pointer: quotes that are not balanced. *)
Definition sdssplitargs (line : list Z) : res (option (list sds)) := splitargs_loop (S (length line)) line [].

(** ** Templates *)

(** [None] is [goto error]; the callback returns the value of a variable. *)
Fixpoint template_loop (fuel : nat) (cb_func : sds -> res (option sds)) (res_ : sds) (p : list Z) : res (option sds) :=
  match fuel with
  | O => OutOfFuel
  | S fuel =>
      c ← at_ p 0;
      if c =? 0 then Ok (Some res_)
      else
        sv ← strchr_from p 123;
        match sv with
        | None => res_ ← sdscat res_ p; Ok (Some res_)
        | Some sv =>
            let n := zlen p - zlen sv in
            res_ ← (if n >? 0 then sdscatlen res_ p n else Ok res_);
            let sv := drop 1 sv in
            c ← at_ sv 0;
            if c =? 0 then Ok None
            else if c =? 123 then
              res_ ← sdscat res_ [123; 0];
              template_loop fuel cb_func res_ (drop 1 sv)
            else
              ev ← strchr_from sv 125;
              match ev with
              | None => Ok None
              | Some ev =>
                  varname ← sdsnewlen (InitFrom sv) (zlen sv - zlen ev);
                  value ← cb_func varname;
                  match value with
                  | None => Ok None
                  | Some value =>
                      res_ ← sdscat res_ (cbuf value);
                      template_loop fuel cb_func res_ (drop 1 ev)
                  end
              end
        end
  end.

Definition sdstemplate (template : list Z) (cb_func : sds -> res (option sds)) : res (option sds) :=
  res_ ← sdsempty; template_loop (S (length template)) cb_func res_ template.

End Text.

(** * Specification *)

(** ** Formats *)

(** A format as the pieces it is written from. *)
Inductive piece :=
| Lit (c : Z)
| Pct (c : Z)
| PStr (str rest : list Z)
| PSds (s : sds) (str : list Z)
| PInt (long : bool) (num : Z)
| PUInt (long : bool) (unum : Z).

Definition piece_fmt (p : piece) : list Z :=
  match p with
  | Lit c => [c]
  | Pct c => [37; c]
  | PStr _ _ => chars "%s"
  | PSds _ _ => chars "%S"
  | PInt long _ => if long then chars "%I" else chars "%i"
  | PUInt long _ => if long then chars "%U" else chars "%u"
  end.

Definition piece_arg (p : piece) : list fmt_arg :=
  match p with
  | Lit _ | Pct _ => []
  | PStr str rest => [ArgStr (str ++ 0 :: rest)]
  | PSds s _ => [ArgSds s]
  | PInt _ num => [ArgInt num]
  | PUInt _ unum => [ArgUInt unum]
  end.

Definition piece_text (p : piece) : list Z :=
  match p with
  | Lit c | Pct c => [c]
  | PStr str _ | PSds _ str => str
  | PInt _ num => ll_repr num
  | PUInt _ unum => udec unum
  end.

Definition is_directive (c : Z) : bool :=
  (c =? 115) || (c =? 83) || (c =? 105) || (c =? 73) || (c =? 117) || (c =? 85).

Definition piece_ok `{Host} (p : piece) : Prop :=
  match p with
  | Lit c => is_byte c /\ c <> 0 /\ c <> 37
  | Pct c => is_byte c /\ c <> 0 /\ is_directive c = false
  | PStr str _ => Forall is_byte str /\ Forall (fun c => c <> 0) str
  | PSds s str => sds_repr s str
  | PInt _ num => INT64_MIN <= num <= INT64_MAX
  | PUInt _ unum => 0 <= unum < 2 ^ 64
  end.

(** * Lemmas *)

Section Formatting.
Context `{Host} `{Allocator}.

Lemma sdsinclen_mk T len alloc body n : 1 <= T <= 4 -> 0 <= len <= sdsTypeMaxSize T -> 0 <= alloc <= sdsTypeMaxSize T ->
  sdsinclen (mk T len alloc body) n = Ok (mk T (len + n) alloc body).
Proof.
  intros HT Hl Ha. unfold sdsinclen. destruct (flags_mk T len alloc body) as (fl & Hfl & _ & _ & Hs); [lia..|].
  rewrite Hfl, bind_Ok, Hs, switch_hdr by done. destruct (sget_fields T len alloc body) as [-> _]; [lia..|].
  rewrite bind_Ok. by apply hdr_set_len_mk.
Qed.

(** A string being written, with room for [n] more bytes. *)
Definition writing (s : sds) (c : list Z) (n : Z) : Prop :=
  exists y T alloc, sds_open y T alloc s c /\ 1 <= T /\ zlen c + n <= alloc.

Lemma writing_put s c n x : writing s c n -> zlen x <= n -> Forall is_byte x ->
  exists s', (s ← sput s (zlen c) x; sdsinclen s (zlen x)) = Ok s' /\ writing s' (c ++ x) (n - zlen x).
Proof.
  intros (y & T & alloc & (HT & Ha & _ & Hb & free & -> & Hf) & HT1 & Hn) Hx Hbx. pose proof (zlen_nonneg c). pose proof (zlen_nonneg x).
  destruct (cut_at (y :: free) (zlen x)) as (X & z & E & HX & Hz); [rewrite zlen_cons; lia|]. rewrite zlen_cons in Hz.
  destruct z as [|z free']; [change (zlen []) with 0 in Hz; lia|]. rewrite zlen_cons in Hz.
  rewrite sput_mk, E, (wr_app c X), !bind_Ok, sdsinclen_mk by lia. eexists. split; [done|]. rewrite <- zlen_app, app_assoc.
  exists z, T, alloc. split; [|rewrite zlen_app; lia]. apply at_intro; rewrite ?zlen_app; try lia. by apply Forall_app.
Qed.

Lemma make_writing y T alloc s c n : sds_open y T alloc s c -> 0 < n \/ 0 = n /\ 1 <= T -> room (zlen c + n) ->
  exists s', (avail ← sdsavail s; if avail <? n then sdsMakeRoomFor s n else Ok s) = Ok s' /\ writing s' c n.
Proof.
  intros Hs Hn Hr. rewrite (sds_avail _ _ _ _ _ Hs), bind_Ok. destruct (Z.ltb_spec (alloc - zlen c) n).
  - destruct (make_room y T alloc s c n true Hs) as (T' & a' & s' & E & Hs' & Hc); [lia|done|]. exists s'. split; [done|].
    exists y, T', a'. split; [done|]. pose proof Hs as (_ & Ha & _). destruct Hs' as (HT' & _ & H5' & _). lia.
  - exists s. split; [done|]. exists y, T, alloc. split; [done|]. destruct Hs as (HT' & _ & H5' & _). lia.
Qed.

Lemma catfmt_put_ok s c m x rest : writing s c m -> Forall is_byte x -> room (zlen c + zlen x) ->
  exists s', catfmt_put s (zlen c) (x ++ rest) (zlen x) = Ok (s', zlen (c ++ x)) /\ writing s' (c ++ x) 0.
Proof.
  intros Hw Hx Hr. unfold catfmt_put. pose proof (zlen_nonneg x). destruct Hw as (y & T & alloc & Hs & HT & _).
  destruct (make_writing y T alloc s c (zlen x)) as (s1 & E & Hw1); [done|lia|done|].
  apply bind_Ok_inv in E as (av & -> & E). rewrite bind_Ok, E, bind_Ok, rd_app_head, bind_Ok by done.
  destruct (writing_put s1 c (zlen x) x) as (s2 & E2 & Hw2); [done|lia|done|]. apply bind_Ok_inv in E2 as (s3 & -> & E2).
  rewrite bind_Ok, E2, bind_Ok. exists s2. rewrite zlen_app. split; [done|]. by replace (zlen x - zlen x) with 0 in Hw2 by lia.
Qed.

Lemma catfmt_char_ok s c x : writing s c 1 -> is_byte x -> exists s', catfmt_char s (zlen c) x = Ok (s', zlen (c ++ [x])) /\ writing s' (c ++ [x]) 0.
Proof.
  intros Hw Hx. unfold catfmt_char. destruct (writing_put s c 1 [x]) as (s' & E & Hw'); [done|done|by forall_list|].
  change (zlen [x]) with 1 in *. apply bind_Ok_inv in E as (s3 & -> & E). rewrite bind_Ok, E, bind_Ok. exists s'. by rewrite zlen_app.
Qed.

Lemma udec_bytes v : 0 <= v -> Forall is_byte (udec v).
Proof. intros Hv. pose proof (ll_repr_bytes v) as Hb. unfold ll_repr in Hb. by rewrite (proj2 (Z.ltb_ge v 0)) in Hb. Qed.

(** The text of an integer in a buffer of [SDS_LLSTR_SIZE] bytes. *)
Lemma text_buffer n : 0 < n <= 20 -> exists X y D, fresh_bytes SDS_LLSTR_SIZE = X ++ y :: D /\ zlen X = n.
Proof.
  intros Hn. pose proof (zlen_fresh_bytes SDS_LLSTR_SIZE ltac:(done)) as Hf. unfold SDS_LLSTR_SIZE in *.
  destruct (cut_at (fresh_bytes 21) n) as (X & r & E & HX & Hr); [lia|]. destruct r as [|y D]; [zlia|]. eauto 6.
Qed.

Lemma directive_ok p s c ap next :
  piece_ok p -> piece_fmt p = [37; next] -> writing s c 1 -> room (zlen c + zlen (piece_text p)) ->
  exists s', catfmt_directive next s (zlen c) (piece_arg p ++ ap) = Ok (s', zlen (c ++ piece_text p), ap) /\ writing s' (c ++ piece_text p) 0.
Proof.
  intros Hp Hf Hw Hr. unfold catfmt_directive. destruct p as [x|x|str rest|s0 str|long num|long unum]; cbn [piece_ok piece_fmt piece_text piece_arg app] in *.
  - done.
  - injection Hf as <-. destruct Hp as (Hx & _ & Hd). unfold is_directive in Hd. rewrite !orb_false_iff in Hd.
    destruct Hd as (((((-> & ->) & ->) & ->) & ->) & ->). cbn [orb]. destruct (catfmt_char_ok s c x Hw Hx) as (s' & -> & Hw'). rewrite bind_Ok. eauto.
  - injection Hf as <-. destruct Hp as [Hb Hz]. change ((115 =? 115) || (115 =? 83)) with true. change (115 =? 115) with true. cbv iota.
    rewrite strlen_ok, bind_Ok by done. destruct (catfmt_put_ok s c 1 str (0 :: rest) Hw Hb Hr) as (s' & -> & Hw'). rewrite bind_Ok. eauto.
  - injection Hf as <-. change ((83 =? 115) || (83 =? 83)) with true. change (83 =? 83) with true. cbv iota.
    rewrite (repr_len _ _ Hp), bind_Ok. destruct (sds_cbuf _ _ Hp) as [free ->].
    destruct (catfmt_put_ok s c 1 str (0 :: free) Hw (sds_bytes _ _ Hp) Hr) as (s' & -> & Hw'). rewrite bind_Ok. eauto.
  - assert (next = 105 \/ next = 73) as Hn by (destruct long; injection Hf as <-; auto).
    replace ((next =? 115) || (next =? 83)) with false by (destruct Hn as [-> | ->]; done).
    replace ((next =? 105) || (next =? 73)) with true by (destruct Hn as [-> | ->]; done).
    destruct (text_buffer (zlen (ll_repr num))) as (X & y & D & -> & HX); [by apply ll_repr_bound|]. rewrite sdsll2str_ok, bind_Ok by done.
    destruct (catfmt_put_ok s c 1 _ (0 :: D) Hw (ll_repr_bytes num) Hr) as (s' & -> & Hw'). rewrite bind_Ok. eauto.
  - assert (next = 117 \/ next = 85) as Hn by (destruct long; injection Hf as <-; auto).
    replace ((next =? 115) || (next =? 83)) with false by (destruct Hn as [-> | ->]; done).
    replace ((next =? 105) || (next =? 73)) with false by (destruct Hn as [-> | ->]; done).
    replace ((next =? 117) || (next =? 85)) with true by (destruct Hn as [-> | ->]; done).
    destruct (text_buffer (zlen (udec unum))) as (X & y & D & -> & HX); [pose proof (udec_pos unum); pose proof (zlen_udec_le unum); lia|].
    rewrite sdsull2str_ok, bind_Ok by done.
    destruct (catfmt_put_ok s c 1 _ (0 :: D) Hw (udec_bytes unum ltac:(lia)) Hr) as (s' & -> & Hw'). rewrite bind_Ok. eauto.
Qed.

(** A string ready for the next character of the format. *)
Lemma catfmt_loop_ok ps : forall fuel s c rest y T alloc, (length (concat (piece_fmt <$> ps)) < fuel)%nat -> Forall piece_ok ps ->
  sds_open y T alloc s c -> room (zlen c + zlen (concat (piece_text <$> ps)) + 1) ->
  exists s' y' T' alloc', catfmt_loop fuel s (concat (piece_fmt <$> ps) ++ 0 :: rest) (zlen c) (concat (piece_arg <$> ps)) =
    Ok (s', zlen (c ++ concat (piece_text <$> ps))) /\ sds_open y' T' alloc' s' (c ++ concat (piece_text <$> ps)).
Proof.
  induction ps as [|p ps IH]; intros fuel s c rest y T alloc Hfuel Hps Hs Hr.
  - destruct fuel; [cbn in Hfuel; lia|]. cbn. rewrite app_nil_r. eauto 8.
  - apply Forall_cons in Hps as [Hp Hps]. cbn [fmap list_fmap concat] in *. rewrite !zlen_app in Hr. rewrite length_app in Hfuel.
    destruct fuel as [|fuel]; [lia|]. cbn [catfmt_loop]. pose proof (zlen_nonneg (piece_text p)). pose proof (zlen_nonneg (concat (piece_text <$> ps))).
    destruct (make_writing y T alloc s c 1 Hs) as (s1 & E1 & Hw1); [lia|eapply room_le; [done|lia]|].
    assert ((avail ← sdsavail s; s ← (if avail =? 0 then sdsMakeRoomFor s 1 else Ok s); Ok s) = Ok s1) as E1'.
    { rewrite (sds_avail _ _ _ _ _ Hs), bind_Ok in E1 |- *. destruct Hs as (_ & Ha & _).
      replace (alloc - zlen c =? 0) with (alloc - zlen c <? 1) by lia. by rewrite E1. }
    apply bind_Ok_inv in E1' as (av & Eav & E1'). apply bind_Ok_inv in E1' as (s1' & E1' & [= ->]).
    assert (forall s2, writing s2 (c ++ piece_text p) 0 -> exists s' y' T' alloc',
      catfmt_loop fuel s2 (concat (piece_fmt <$> ps) ++ 0 :: rest) (zlen (c ++ piece_text p)) (concat (piece_arg <$> ps)) =
        Ok (s', zlen (c ++ piece_text p ++ concat (piece_text <$> ps))) /\
      sds_open y' T' alloc' s' (c ++ piece_text p ++ concat (piece_text <$> ps))) as Hrest.
    { intros s2 (y2 & T2 & alloc2 & Hs2 & _). rewrite app_assoc.
      apply (IH fuel s2 (c ++ piece_text p) rest y2 T2 alloc2); [|done..|rewrite !zlen_app; eapply room_le; [done|lia]].
      destruct p as [| | | |[]|[]]; cbn in Hfuel; lia. }
    destruct (piece_fmt p) as [|x0 [|next []]] eqn:Ef; try (by destruct p as [| | | |[]|[]]).
    + destruct p as [x| | | |[]|[]]; try done. injection Ef as <-. destruct Hp as (Hb & Hz & Hne). change (at_ (([x] ++ ?l) ++ ?r) 0) with (Ok x).
      rewrite bind_Ok. zfalse (x =? 0). rewrite Eav, bind_Ok, E1', bind_Ok. zfalse (x =? 37).
      destruct (catfmt_char_ok s1 c x Hw1 Hb) as (s2 & -> & Hw2). rewrite bind_Ok. by apply Hrest.
    + assert (x0 = 37) as -> by (destruct p as [| | | |[]|[]]; cbn in Ef; by simplify_eq). change (at_ (([37; next] ++ ?l) ++ ?r) 0) with (Ok 37).
      change (at_ (([37; next] ++ ?l) ++ ?r) 1) with (Ok next). rewrite bind_Ok. change (37 =? 0) with false. cbv iota.
      rewrite Eav, bind_Ok, E1', bind_Ok. change (37 =? 37) with true. cbv iota. rewrite bind_Ok.
      assert (next <> 0) as Hn0 by (destruct p as [| | | |[]|[]]; cbn in Ef; simplify_eq; done || apply Hp). zfalse (next =? 0).
      destruct (directive_ok p s1 c (concat (piece_arg <$> ps)) next Hp Ef Hw1) as (s2 & -> & Hw2); [eapply room_le; [done|lia]|].
      rewrite bind_Ok. by apply Hrest.
Qed.

Lemma fmt_nonzero ps : Forall piece_ok ps -> Forall (fun c => c <> 0) (concat (piece_fmt <$> ps)).
Proof.
  induction 1 as [|p ps Hp _ IH]; [constructor|]. cbn [fmap list_fmap concat]. apply Forall_app. split; [|done].
  destruct p as [| | | |[]|[]]; cbn [piece_fmt]; forall_list; done || apply Hp.
Qed.

Lemma catfmt_gives s c ps rest : sds_repr s c -> Forall piece_ok ps ->
  room (zlen c + zlen (concat (piece_text <$> ps)) + 2 * zlen (concat (piece_fmt <$> ps)) + 1) ->
  gives (sdscatfmt s (concat (piece_fmt <$> ps) ++ 0 :: rest) (concat (piece_arg <$> ps))) (c ++ concat (piece_text <$> ps)).
Proof.
  intros Hs Hps Hr. unfold sdscatfmt. rewrite (repr_len _ _ Hs), bind_Ok, strlen_ok, bind_Ok by (by apply fmt_nonzero).
  pose proof max_request_bound. pose proof (zlen_nonneg c). pose proof (zlen_nonneg (concat (piece_text <$> ps))). pose proof (zlen_nonneg (concat (piece_fmt <$> ps))).
  rewrite wrapU_small by (unfold room, SDS_MAX_PREALLOC in Hr; lia). destruct Hs as (T & alloc & Hs).
  destruct (make_room _ _ _ _ _ (zlen (concat (piece_fmt <$> ps)) * 2) true Hs) as (T1 & a1 & s1 & E & Hs1 & _); [lia|eapply room_le; [done|lia]|].
  unfold sdsMakeRoomFor. rewrite E, bind_Ok. destruct (catfmt_loop_ok ps (S (length (concat (piece_fmt <$> ps) ++ 0 :: rest))) s1 c rest 0 T1 a1)
    as (s2 & y & T2 & a2 & -> & Hs2); [rewrite length_app; lia|done..|eapply room_le; [done|lia]|]. rewrite bind_Ok.
  destruct Hs2 as (HT & Ha & H5 & Hb & free & -> & Hf). rewrite sput_mk by (done || apply zlen_nonneg).
  rewrite (cons_middle y), (wr_app _ [y]), bind_Ok by done. apply gives_ok. exists T2, a2. by apply at_intro.
Qed.

End Formatting.

(** ** Splitting and joining *)

(** The parts with the separator between them. *)
Fixpoint joined (sep : list Z) (parts : list (list Z)) : list Z :=
  match parts with
  | [] => []
  | [p] => p
  | p :: parts => p ++ sep ++ joined sep parts
  end.

Definition occurs (sep s : list Z) : Prop := exists a b, s = a ++ sep ++ b.

Lemma joined_snoc sep parts p : joined sep (parts ++ [p]) = concat ((fun q => q ++ sep) <$> parts) ++ p.
Proof.
  induction parts as [|q parts IH]; [done|]. cbn [app fmap list_fmap concat]. rewrite <- !app_assoc, <- IH. by destruct parts.
Qed.

Section Splitting.
Context `{Host} `{Allocator} (str srest sep rest : list Z).
Context (Hstr : Forall is_byte str) (Hlen : zlen str < 2 ^ 30) (Hsep : 0 < zlen sep) (Hroom : room (zlen str)).

Lemma substr_app i n : 0 <= i -> 0 <= n -> i + n <= zlen str -> rd (str ++ srest) i n = Ok (substr str i n) /\ zlen (substr str i n) = n.
Proof.
  intros Hi Hn Hl. split; [by apply rd_prefix|]. unfold substr. rewrite zlen_take; [done|]. rewrite zlen_drop; lia.
Qed.

Lemma sep_at_ok j : 0 <= j -> j + zlen sep <= zlen str ->
  sep_at (str ++ srest) j (sep ++ rest) (zlen sep) = Ok (bool_decide (substr str j (zlen sep) = sep)).
Proof.
  intros Hj Hl. unfold sep_at. destruct (substr_app j (zlen sep)) as [E Hz]; [lia..|]. rewrite E, bind_Ok, rd_app_head, bind_Ok by done.
  destruct (Z.eqb_spec (zlen sep) 1) as [E1|]; [|by rewrite bind_Ok].
  destruct sep as [|d [|]]; [done| |rewrite !zlen_cons in E1; zlia]. change (zlen [d]) with 1 in *.
  destruct (lookup_body str srest j) as (c & Hc & ->); [lia|]. rewrite bind_Ok. change (rd1 ([d] ++ rest) 0) with (Ok d). rewrite !bind_Ok.
  assert (substr str j 1 = [c]) as ->; [unfold substr; by rewrite (drop_S _ _ _ Hc)|].
  destruct (Z.eqb_spec c d) as [->|]; [by rewrite bool_decide_eq_true_2|done].
Qed.

Lemma push_ok tokens parts slots start n :
  Forall2 sds_repr tokens parts -> zlen tokens < slots -> 0 <= start -> 0 <= n -> start + n <= zlen str ->
  exists t, push_token tokens slots (str ++ srest) start n = Ok (tokens ++ [t]) /\ Forall2 sds_repr (tokens ++ [t]) (parts ++ [substr str start n]).
Proof.
  intros Ht Hs Hst Hn Hl. unfold push_token. ztrue (zlen tokens <? slots). destruct (substr_app start n) as [_ Hz]; [done..|].
  destruct (newlen_gives (InitFrom (drop (Z.to_nat start) (str ++ srest))) (substr str start n)) as (t & Et & Hr).
  - exists (drop (Z.to_nat n) (drop (Z.to_nat start) str) ++ srest). rewrite app_assoc. unfold substr. rewrite take_drop.
    apply drop_app_le. unfold zlen in *. lia.
  - by apply take_drop_bytes.
  - eapply room_le; [done|lia].
  - rewrite Hz in Et. rewrite Et, bind_Ok. exists t. split; [done|]. apply Forall2_app; [done|]. by constructor.
Qed.

(** The part of the string already split, and no separator since. *)
Definition split_so_far (parts : list (list Z)) (start j : Z) : Prop :=
  0 <= start <= j /\ start <= zlen str /\ take (Z.to_nat start) str = concat ((fun q => q ++ sep) <$> parts) /\
  Forall (fun p => ~ occurs sep p) parts /\ forall k, start <= k < j -> substr str k (zlen sep) <> sep.

Lemma no_occurrence start n : 0 <= start -> 0 <= n -> (forall k, start <= k <= start + n - zlen sep -> substr str k (zlen sep) <> sep) ->
  ~ occurs sep (substr str start n).
Proof.
  intros Hst Hn Hno (a & b & E). apply (Hno (start + zlen a)).
  - apply (f_equal zlen) in E. rewrite !zlen_app in E. assert (zlen (substr str start n) <= n) by (unfold substr, zlen; rewrite length_take; lia). zlia.
  - unfold substr in *. replace (Z.to_nat (start + zlen a)) with (Z.to_nat start + length a)%nat by (unfold zlen; lia). rewrite <- drop_drop.
    rewrite <- (take_drop (Z.to_nat n) (drop (Z.to_nat start) str)), E, <- !app_assoc, drop_app_length. apply take_zlen_app.
Qed.

Lemma split_hit parts start j : split_so_far parts start j -> j + zlen sep <= zlen str -> substr str j (zlen sep) = sep ->
  split_so_far (parts ++ [substr str start (j - start)]) (j + zlen sep) (j + zlen sep).
Proof.
  intros (Hst & Hle & Hpre & Hno & Hk) Hj Hsepj. split_and!; [lia..| | |lia].
  - rewrite fmap_app, concat_app, <- Hpre. cbn [fmap list_fmap concat]. rewrite app_nil_r.
    transitivity (take (Z.to_nat start) str ++ substr str start (j - start) ++ substr str j (zlen sep)); [|by rewrite Hsepj]. unfold substr.
    replace (Z.to_nat (j + zlen sep)) with (Z.to_nat start + (Z.to_nat (j - start) + Z.to_nat (zlen sep)))%nat by lia.
    rewrite <- take_take_drop. f_equal. replace (Z.to_nat j) with (Z.to_nat start + Z.to_nat (j - start))%nat by lia.
    by rewrite <- drop_drop, take_take_drop.
  - apply Forall_app. split; [done|]. apply Forall_singleton. apply no_occurrence; [lia..|]. intros k Hk'. apply Hk. lia.
Qed.

Lemma splitlen_loop_ok fuel : forall tokens parts slots start j,
  zlen str - j < Z.of_nat fuel -> Forall2 sds_repr tokens parts -> zlen tokens < slots -> 5 <= slots <= Z.max 5 (2 * zlen tokens + 2) ->
  zlen tokens <= j <= zlen str -> split_so_far parts start j ->
  exists tokens' parts' slots' start', splitlen_loop fuel (str ++ srest) (zlen str) (sep ++ rest) (zlen sep) tokens slots start j =
    Ok (tokens', slots', start') /\ Forall2 sds_repr tokens' parts' /\ zlen tokens' < slots' /\ start' <= zlen str /\
    exists j', zlen str < j' + zlen sep /\ split_so_far parts' start' j'.
Proof.
  induction fuel as [|fuel IH]; intros tokens parts slots start j Hf Ht Hs Hb Hj Hsp.
  - lia.
  - cbn [splitlen_loop]. pose proof Hsp as (Hst & Hle & _). destruct (Z.ltb_spec j (zlen str - (zlen sep - 1))).
    + pose proof (zlen_nonneg tokens). set (slots2 := if slots <? zlen tokens + 2 then slots * 2 else slots).
      assert ((if slots <? zlen tokens + 2 then sint 32 (slots * 2) else Ok slots) = Ok slots2) as ->.
      { unfold slots2. destruct (Z.ltb_spec slots (zlen tokens + 2)); [|done]. apply sint_ok. zwidth. lia. }
      assert (zlen tokens + 2 <= slots2 <= Z.max 5 (2 * zlen tokens + 2)) as Hs2 by (unfold slots2; destruct (Z.ltb_spec slots (zlen tokens + 2)); lia).
      assert (5 <= slots2) by (unfold slots2; ztest; lia).
      rewrite bind_Ok, sep_at_ok, bind_Ok by lia. case_bool_decide as Hsj.
      * destruct (push_ok tokens parts slots2 start (j - start)) as (t & -> & Ht'); [done|lia..|]. rewrite bind_Ok.
        replace (j + zlen sep - 1 + 1) with (j + zlen sep) by lia.
        eapply IH; [lia|done|rewrite zlen_app, zlen_cons, zlen_nil; lia..|]. by apply split_hit; [|lia|].
      * eapply IH; [lia|done|lia..|]. destruct Hsp as (_ & _ & Hpre & Hno & Hk). split_and!; [lia..|done|done|]. intros k Hk'.
        destruct (decide (k = j)) as [->|]; [done|]. apply Hk. lia.
    + exists tokens, parts, slots, start. split; [done|]. split_and!; [done..|]. exists j. split; [lia|done].
Qed.

(** The parts are the string split at the leftmost occurrences of the separator. *)
Lemma splitlen_ok : 0 < zlen str ->
  exists tokens parts, sdssplitlen (str ++ srest) (zlen str) (sep ++ rest) (zlen sep) = Ok (Some tokens) /\
    Forall2 sds_repr tokens parts /\ joined sep parts = str /\ Forall (fun p => ~ occurs sep p) parts.
Proof.
  intros Hpos. unfold sdssplitlen. zfalse ((zlen sep <? 1) || (zlen str <=? 0)).
  destruct (splitlen_loop_ok (S (Z.to_nat (zlen str))) [] [] 5 0 0) as (tokens & parts & slots & start & -> & Ht & Hs & Hst & j & Hj & Hsp);
    [lia|by apply Forall2_nil_2|done|zlia|zlia|split_and!; [lia..|done|constructor|lia]|].
  rewrite bind_Ok. destruct Hsp as (Hr & _ & Hpre & Hno & Hk). destruct (push_ok tokens parts slots start (zlen str - start)) as (t & -> & Ht'); [done|lia..|].
  rewrite bind_Ok. eexists _, _. split; [done|]. split; [done|]. rewrite joined_snoc, <- Hpre. split.
  - unfold substr. rewrite (take_ge (drop _ _)) by (rewrite length_drop; unfold zlen in *; lia). apply take_drop.
  - apply Forall_app. split; [done|]. apply Forall_singleton, no_occurrence; [lia..|]. intros k Hk'. apply Hk. lia.
Qed.

End Splitting.

Section Joining.
Context `{Host} `{Allocator}.

Lemma empty_gives : room 0 -> gives sdsempty [].
Proof. intros Hr. apply (newlen_gives (InitFrom [0]) []); [by exists [0]|constructor|done]. Qed.

Lemma joinsds_loop_gives sep rest argv : forall parts join c, Forall2 sds_repr argv parts -> Forall is_byte sep -> sds_repr join c ->
  room (zlen c + zlen (joined sep parts)) -> gives (sdsjoinsds_loop argv (sep ++ rest) (zlen sep) join) (c ++ joined sep parts).
Proof.
  induction argv as [|a argv IH]; intros parts join c Hp Hsep Hj Hr.
  - apply Forall2_nil_inv_l in Hp as ->. cbn. rewrite app_nil_r. by apply gives_ok.
  - apply Forall2_cons_inv_l in Hp as (p & parts' & Hp & Hps & ->). cbn [sdsjoinsds_loop].
    assert (zlen p <= zlen (joined sep (p :: parts'))) by (destruct parts'; [done|]; cbn [joined]; rewrite zlen_app; zlia).
    eapply gives_bind; [apply catsds_gives; [done..|eapply room_le; [done|lia]]|]. intros s1 Hs1.
    destruct argv as [|b argv]; cbn [length].
    + apply Forall2_nil_inv_l in Hps as ->. change (negb (zlen [] =? 0)) with false. cbv iota. rewrite bind_Ok. by apply gives_ok.
    + destruct parts' as [|q parts']; [by apply Forall2_nil_inv_r in Hps|]. zfalse (zlen (b :: argv) =? 0). cbn [negb].
      change (joined sep (p :: q :: parts')) with (p ++ sep ++ joined sep (q :: parts')) in *.
      rewrite !zlen_app in *. pose proof (zlen_nonneg (joined sep (q :: parts'))).
      eapply gives_bind; [apply catlen_gives; [done..|rewrite zlen_app; eapply room_le; [done|lia]]|]. intros s2 Hs2. rewrite !app_assoc.
      apply IH; [done..|rewrite !zlen_app; eapply room_le; [done|lia]].
Qed.

Lemma joinsds_gives sep rest argv parts : Forall2 sds_repr argv parts -> Forall is_byte sep -> room (zlen (joined sep parts)) ->
  gives (sdsjoinsds argv (sep ++ rest) (zlen sep)) (joined sep parts).
Proof.
  intros Hp Hsep Hr. unfold sdsjoinsds. eapply gives_bind; [apply empty_gives; eapply room_le; [done|apply zlen_nonneg]|].
  intros s Hs. by apply (joinsds_loop_gives sep rest argv parts s []).
Qed.

End Joining.

(** ** Quoting *)

(** The escape of a byte, and the quoted representation. *)
Definition esc (c : Z) : list Z :=
  if (c =? 92) || (c =? 34) then [92; c]
  else if c =? 10 then [92; 110]
  else if c =? 13 then [92; 114]
  else if c =? 9 then [92; 116]
  else if c =? 7 then [92; 97]
  else if c =? 8 then [92; 98]
  else if isprint c then [c]
  else [92; 120; hex_digit (c / 16); hex_digit (c mod 16)].

Definition quoted (t : list Z) : list Z := [34] ++ concat (esc <$> t) ++ [34].

Section Quoting.
Context `{Host} `{Allocator}.

Lemma esc_shape c : is_byte c -> Forall is_byte (esc c) /\ zlen (esc c) <= 4.
Proof.
  intros Hc. assert (forall v, 0 <= v < 16 -> 48 <= hex_digit v <= 102) as Hh by (intros v Hv; unfold hex_digit; ztest; lia).
  pose proof (Hh (c / 16) ltac:(unfold is_byte in Hc; zdiv)). pose proof (Hh (c mod 16) ltac:(zdiv)). unfold esc, is_byte in *.
  repeat (ztest; [split; [forall_list; lia|done]|]). split; [forall_list; lia|done].
Qed.

Lemma catrepr_step s c x : sds_repr s c -> is_byte x -> room (zlen c + 4) ->
  gives (if (x =? 92) || (x =? 34) then sdscatprintf s [92; x]
         else if x =? 10 then sdscatlen s (chars "\n") 2
         else if x =? 13 then sdscatlen s (chars "\r") 2
         else if x =? 9 then sdscatlen s (chars "\t") 2
         else if x =? 7 then sdscatlen s (chars "\a") 2
         else if x =? 8 then sdscatlen s (chars "\b") 2
         else if isprint x then sdscatprintf s [x]
         else sdscatprintf s [92; 120; hex_digit (x / 16); hex_digit (x mod 16)]) (c ++ esc x).
Proof.
  intros Hs Hx Hr. destruct (esc_shape x Hx) as [Hb Hl].
  assert (forall t rest, Forall is_byte t -> zlen t <= 4 -> gives (sdscatlen s (t ++ rest) (zlen t)) (c ++ t)) as Hcat.
  { intros t rest Ht Hlt. apply catlen_gives; [done..|eapply room_le; [done|lia]]. }
  unfold sdscatprintf. unfold esc in *. ztest; [by apply Hcat|].
  ztest; [by apply (Hcat [92; 110] [])|]. ztest; [by apply (Hcat [92; 114] [])|]. ztest; [by apply (Hcat [92; 116] [])|].
  ztest; [by apply (Hcat [92; 97] [])|]. ztest; [by apply (Hcat [92; 98] [])|]. ztest; by apply Hcat.
Qed.

Lemma catrepr_loop_gives t : forall s c, sds_repr s c -> Forall is_byte t -> room (zlen c + 4 * zlen t) ->
  gives (catrepr_loop s t) (c ++ concat (esc <$> t)).
Proof.
  induction t as [|x t IH]; intros s c Hs Ht Hr; [cbn; rewrite app_nil_r; by apply gives_ok|].
  apply Forall_cons in Ht as [Hx Ht]. rewrite zlen_cons in Hr. pose proof (zlen_nonneg t). cbn [catrepr_loop fmap list_fmap concat].
  eapply gives_bind; [apply catrepr_step; [done..|eapply room_le; [done|lia]]|]. intros s1 Hs1. rewrite app_assoc.
  destruct (esc_shape x Hx) as [_ Hl]. apply IH; [done..|]. rewrite zlen_app. eapply room_le; [done|lia].
Qed.

Lemma zlen_concat_esc t : Forall is_byte t -> zlen (concat (esc <$> t)) <= 4 * zlen t.
Proof.
  induction 1 as [|x t Hx _ IH]; [done|]. cbn [fmap list_fmap concat]. rewrite zlen_app, zlen_cons. destruct (esc_shape x Hx) as [_ Hl]. lia.
Qed.

Lemma length_concat_esc t : (length t <= length (concat (esc <$> t)))%nat.
Proof.
  induction t as [|x t IH]; [done|]. cbn [fmap list_fmap concat length]. rewrite length_app.
  assert (1 <= length (esc x))%nat by (unfold esc; repeat ztest; cbn; lia). lia.
Qed.

Lemma catrepr_gives s c t rest : sds_repr s c -> Forall is_byte t -> room (zlen c + 4 * zlen t + 2) ->
  gives (sdscatrepr s (t ++ rest) (zlen t)) (c ++ quoted t).
Proof.
  intros Hs Ht Hr. unfold sdscatrepr, quoted. rewrite rd_app_head, bind_Ok by done. pose proof (zlen_nonneg t). pose proof (zlen_concat_esc t Ht).
  assert (forall s c, sds_repr s c -> room (zlen c + 1) -> gives (sdscatlen s [34; 0] 1) (c ++ [34])) as Hq.
  { intros s' c' Hs' Hr'. apply (catlen_gives s' c' [34] [0]); [done|forall_list; unfold is_byte; lia|done]. }
  eapply gives_bind; [apply Hq; [done|eapply room_le; [done|lia]]|]. intros s1 Hs1.
  eapply gives_bind; [apply catrepr_loop_gives; [done..|rewrite zlen_app; change (zlen [34]) with 1; eapply room_le; [done|lia]]|].
  intros s2 Hs2. rewrite !app_assoc. apply Hq; [done|]. rewrite !zlen_app. change (zlen [34]) with 1. eapply room_le; [done|lia].
Qed.

(** ** Parsing what was quoted *)

Lemma hex_digit_ok v : 0 <= v < 16 -> is_hex_digit (hex_digit v) = true /\ hex_digit_to_int (hex_digit v) = v.
Proof.
  intros Hv. assert (forall v, 0 <= v < 16 -> is_hex_digit (hex_digit v) && (hex_digit_to_int (hex_digit v) =? v) = true) as Hall.
  { apply (all_below 16). done. }
  specialize (Hall v Hv). zprop. done.
Qed.

Lemma cat_one s c y rest : sds_repr s c -> is_byte y -> room (zlen c + 1) -> gives (sdscatlen s (y :: rest) 1) (c ++ [y]).
Proof. intros Hs Hy Hr. apply (catlen_gives s c [y] rest); [done|by forall_list|done]. Qed.

(** Inside double quotes: a backslash and a character, a hexadecimal escape, and a
    plain character. *)
Lemma step_escape y rest s : y <> 120 -> y <> 0 ->
  splitargs_step (92 :: y :: rest) true false s =
  (current ← sdscatlen s [if y =? 110 then 10 else if y =? 114 then 13 else if y =? 116 then 9
                          else if y =? 98 then 8 else if y =? 97 then 7 else y] 1;
   Ok (Some (y :: rest, false, true, false, current))).
Proof.
  intros H1 H2. unfold splitargs_step, hex_escape, char_then. cbn [at_ lookup list_lookup drop mbind res_bind].
  change (92 =? 92) with true. cbv iota. zfalse (y =? 120). zfalse (y =? 0). done.
Qed.

Lemma step_hex a b rest s : is_hex_digit a = true -> is_hex_digit b = true ->
  splitargs_step (92 :: 120 :: a :: b :: rest) true false s =
  (current ← sdscatlen s [hex_digit_to_int a * 16 + hex_digit_to_int b] 1; Ok (Some (b :: rest, false, true, false, current))).
Proof.
  intros H1 H2. unfold splitargs_step, hex_escape. cbn [at_ lookup list_lookup drop mbind res_bind].
  change (92 =? 92) with true. change (120 =? 120) with true. cbv iota. by rewrite H1, H2.
Qed.

Lemma step_plain x rest s : x <> 92 -> x <> 34 -> x <> 0 ->
  splitargs_step (x :: rest) true false s = (current ← sdscatlen s (x :: rest) 1; Ok (Some (x :: rest, false, true, false, current))).
Proof.
  intros H1 H2 H3. unfold splitargs_step, hex_escape, char_then. cbn [at_ lookup list_lookup mbind res_bind].
  zfalse (x =? 92). zfalse (x =? 34). zfalse (x =? 0). done.
Qed.

(** One turn of the loop, when the place left behind is not the terminator. *)
Lemma token_turn fuel p s m z q current :
  splitargs_step p true false s = (x ← m; Ok (Some (z :: q, false, true, false, x))) -> z <> 0 -> m = Ok current ->
  splitargs_token (S fuel) p true false s = splitargs_token fuel q true false current.
Proof. intros E Hz ->. cbn [splitargs_token]. rewrite E, !bind_Ok. cbn [at_ lookup list_lookup]. rewrite bind_Ok. by zfalse (z =? 0). Qed.

(** One escaped byte is read back. *)
Lemma token_esc fuel x tail s c : is_byte x -> sds_repr s c -> room (zlen c + 1) ->
  exists s', splitargs_token (S fuel) (esc x ++ tail) true false s = splitargs_token fuel tail true false s' /\ sds_repr s' (c ++ [x]).
Proof.
  intros Hx Hs Hr. pose proof (cat_one s c x tail Hs Hx Hr) as (s1 & E1 & Hs1). pose proof (cat_one s c x [] Hs Hx Hr) as (s2 & E2 & Hs2).
  assert (forall y, y <> 120 -> y <> 0 -> (if y =? 110 then 10 else if y =? 114 then 13 else if y =? 116 then 9
    else if y =? 98 then 8 else if y =? 97 then 7 else y) = x -> exists s',
    splitargs_token (S fuel) ([92; y] ++ tail) true false s = splitargs_token fuel tail true false s' /\ sds_repr s' (c ++ [x])) as Hesc.
  { intros y H1 H2 Ey. exists s2. split; [|done]. eapply token_turn; [by apply step_escape|done|by rewrite Ey]. }
  unfold esc. destruct (_ || _) eqn:E.
  { apply orb_true_iff in E as [E|E]; zprop; subst x; by apply Hesc. }
  zprop. destruct (Z.eqb_spec x 10) as [->|]; [by apply (Hesc 110)|]. destruct (Z.eqb_spec x 13) as [->|]; [by apply (Hesc 114)|].
  destruct (Z.eqb_spec x 9) as [->|]; [by apply (Hesc 116)|]. destruct (Z.eqb_spec x 7) as [->|]; [by apply (Hesc 97)|].
  destruct (Z.eqb_spec x 8) as [->|]; [by apply (Hesc 98)|]. destruct (isprint x) eqn:Ep.
  - unfold isprint in Ep. zprop. exists s1. split; [|done]. eapply token_turn; [apply step_plain; lia|lia|done].
  - destruct (hex_digit_ok (x / 16)) as [Ha1 Ha2]; [unfold is_byte in Hx; zdiv|]. destruct (hex_digit_ok (x mod 16)) as [Hb1 Hb2]; [zdiv|].
    exists s2. split; [|done]. eapply token_turn; [by apply step_hex| |rewrite Ha2, Hb2; replace (x / 16 * 16 + x mod 16) with x by zdiv; done].
    intros E0. by rewrite E0 in Hb1.
Qed.

(** A closing quote can only be followed by a blank or by the end. *)
Definition blank_or_end (p : list Z) : Prop := match p with z :: _ => z = 0 \/ isspace z = true | [] => False end.

Lemma token_quoted t : forall fuel s c tail, (length t < fuel)%nat -> Forall is_byte t -> sds_repr s c -> room (zlen c + zlen t) ->
  blank_or_end tail ->
  exists s', splitargs_token fuel (concat (esc <$> t) ++ 34 :: tail) true false s = Ok (Some (s', tail)) /\ sds_repr s' (c ++ t).
Proof.
  induction t as [|x t IH]; intros fuel s c tail Hf Ht Hs Hr Htail; (destruct fuel as [|fuel]; [cbn in Hf; lia|]).
  - exists s. rewrite app_nil_r. split; [|done]. destruct tail as [|z tail]; [done|]. cbn [fmap list_fmap concat app splitargs_token].
    unfold splitargs_step, hex_escape, char_then, close_quote. cbn [at_ lookup list_lookup mbind res_bind]. change (34 =? 92) with false. change (34 =? 34) with true.
    cbv iota. replace (negb (z =? 0) && negb (isspace z)) with false; [done|]. destruct Htail as [-> | ->]; [done|by rewrite andb_false_r].
  - apply Forall_cons in Ht as [Hx Ht]. rewrite zlen_cons in Hr. pose proof (zlen_nonneg t). cbn [fmap list_fmap concat]. rewrite <- app_assoc.
    destruct (token_esc fuel x (concat (esc <$> t) ++ 34 :: tail) s c Hx Hs) as (s' & -> & Hs'); [eapply room_le; [done|lia]|].
    destruct (IH fuel s' (c ++ [x]) tail) as (s'' & -> & Hs''); [cbn in Hf; lia|done..|rewrite zlen_app; eapply room_le; [done|rewrite zlen_cons, zlen_nil; lia]|done|].
    exists s''. split; [done|]. by rewrite <- app_assoc in Hs''.
Qed.

Lemma token_open fuel p s : splitargs_token (S fuel) (34 :: p) false false s = splitargs_token fuel p true false s.
Proof. reflexivity. Qed.

(** A quoted argument at the place of the parser. *)
Lemma loop_quoted fuel t tail vector : Forall is_byte t -> room (zlen t) ->
  blank_or_end tail ->
  exists s, splitargs_loop (S fuel) (quoted t ++ tail) vector = splitargs_loop fuel tail (vector ++ [s]) /\ sds_repr s t.
Proof.
  intros Ht Hr Htail. cbn [splitargs_loop]. unfold quoted. rewrite <- !app_assoc. cbn [app skip_blanks]. change (negb (34 =? 0) && isspace 34) with false.
  cbv iota. rewrite bind_Ok. cbn [at_ lookup list_lookup]. rewrite bind_Ok. change (negb (34 =? 0)) with true. cbv iota.
  destruct (empty_gives) as (s0 & -> & Hs0); [eapply room_le; [done|apply zlen_nonneg]|]. rewrite bind_Ok, token_open.
  destruct (token_quoted t (length (34 :: concat (esc <$> t) ++ 34 :: tail)) s0 [] tail) as (s & -> & Hs);
    [|done..|rewrite Z.add_0_l; done|done|rewrite bind_Ok; eauto].
  cbn [length]. rewrite length_app. cbn [length]. pose proof (length_concat_esc t). lia.
Qed.

Lemma loop_args args : forall fuel vector done rest, (length args < fuel)%nat -> Forall (Forall is_byte) args ->
  Forall (fun t => room (zlen t)) args -> Forall2 sds_repr vector done ->
  exists tokens, splitargs_loop fuel (joined [32] (quoted <$> args) ++ 0 :: rest) vector = Ok (Some tokens) /\ Forall2 sds_repr tokens (done ++ args).
Proof.
  induction args as [|t args IH]; intros fuel vector done rest Hf Hb Hr Hv; (destruct fuel as [|fuel]; [cbn in Hf; lia|]).
  - exists vector. rewrite app_nil_r. done.
  - apply Forall_cons in Hb as [Ht Hb], Hr as [Hrt Hr]. destruct args as [|t2 args].
    + cbn [fmap list_fmap joined]. destruct (loop_quoted fuel t (0 :: rest) vector Ht Hrt) as (s & -> & Hs); [by left|].
      destruct (IH fuel (vector ++ [s]) (done ++ [t]) rest) as (tokens & E & Htok); [cbn in *; lia|done..|by apply Forall2_app; [|repeat constructor]|].
      exists tokens. rewrite <- app_assoc in Htok. split; [exact E|done].
    + change (joined [32] (quoted <$> t :: t2 :: args)) with (quoted t ++ [32] ++ joined [32] (quoted <$> t2 :: args)). rewrite <- !app_assoc.
      destruct (loop_quoted fuel t ([32] ++ joined [32] (quoted <$> t2 :: args) ++ 0 :: rest) vector Ht Hrt) as (s & -> & Hs); [by right|].
      destruct (IH fuel (vector ++ [s]) (done ++ [t]) rest) as (tokens & E & Htok); [cbn in *; lia|done..|by apply Forall2_app; [|repeat constructor]|].
      exists tokens. rewrite <- app_assoc in Htok. split; [|done]. rewrite <- E. destruct fuel; done.
Qed.

Lemma length_joined_quoted args : (length args <= length (joined [32%Z] (quoted <$> args)))%nat.
Proof.
  induction args as [|a [|b args] IH]; [done|cbn; lia|].
  change (joined [32] (quoted <$> a :: b :: args)) with (quoted a ++ [32] ++ joined [32] (quoted <$> b :: args)).
  rewrite !length_app. cbn [length] in *. lia.
Qed.

(** ** Bare words *)

Definition needs_escape (c : Z) : bool :=
  (c =? 92) || (c =? 34) || (c =? 10) || (c =? 13) || (c =? 9) || (c =? 7) || (c =? 8) || negb (isprint c) || isspace c.

Lemma needsrepr_ok s c : sds_repr s c -> sdsneedsrepr s = Ok (existsb needs_escape c).
Proof.
  intros Hs. unfold sdsneedsrepr. rewrite (repr_len _ _ Hs), bind_Ok, zlen_to_nat. destruct (sds_cbuf _ _ Hs) as [free ->]. clear Hs.
  induction c as [|x c IH]; [done|]. cbn [length needsrepr_loop app at_ lookup list_lookup existsb]. rewrite bind_Ok. fold (needs_escape x).
  by destruct (needs_escape x).
Qed.

Lemma no_escape x : needs_escape x = false -> x <> 92 /\ x <> 34 /\ 33 <= x <= 126.
Proof. unfold needs_escape, isprint, isspace. lia. Qed.

Lemma token_word w : forall fuel s c p, existsb needs_escape w = false -> 39 ∉ w -> sds_repr s c -> room (zlen c + zlen w) ->
  exists s', splitargs_token (length w + fuel) (w ++ p) false false s = splitargs_token fuel p false false s' /\ sds_repr s' (c ++ w).
Proof.
  induction w as [|x w IH]; intros fuel s c p Hn Hq Hs Hr; [exists s; by rewrite app_nil_r|].
  cbn [existsb] in Hn. apply orb_false_iff in Hn as [Hx Hn]. apply not_elem_of_cons in Hq as [Hq Hqs]. apply no_escape in Hx as (H1 & H2 & H3).
  rewrite zlen_cons in Hr. pose proof (zlen_nonneg w).
  destruct (cat_one s c x (w ++ p) Hs) as (s1 & E1 & Hs1); [unfold is_byte; lia|eapply room_le; [done|lia]|].
  cbn [length Nat.add app splitargs_token]. unfold splitargs_step. cbn [at_ lookup list_lookup mbind res_bind].
  zfalse ((x =? 32) || (x =? 10) || (x =? 13) || (x =? 9) || (x =? 0)). zfalse (x =? 34). zfalse (x =? 39). cbn [app] in E1. rewrite E1.
  cbn [mbind res_bind at_ lookup list_lookup]. zfalse (x =? 0). cbn [negb drop].
  destruct (IH fuel s1 (c ++ [x]) p) as (s' & E & Hs'); [done..|rewrite zlen_app; eapply room_le; [done|rewrite zlen_cons, zlen_nil; lia]|].
  exists s'. rewrite <- app_assoc in Hs'. done.
Qed.

(** Inside single quotes that are never closed. *)
Lemma token_unclosed w : forall fuel s c rest, (length w < fuel)%nat -> existsb needs_escape w = false -> 39 ∉ w -> sds_repr s c ->
  room (zlen c + zlen w) -> splitargs_token fuel (w ++ 0 :: rest) false true s = Ok None.
Proof.
  induction w as [|x w IH]; intros fuel s c rest Hf Hn Hq Hs Hr; (destruct fuel as [|fuel]; [cbn in Hf; lia|]); [done|].
  cbn [existsb] in Hn. apply orb_false_iff in Hn as [Hx Hn]. apply not_elem_of_cons in Hq as [Hq Hqs]. apply no_escape in Hx as (H1 & H2 & H3).
  rewrite zlen_cons in Hr. pose proof (zlen_nonneg w).
  destruct (cat_one s c x (w ++ 0 :: rest) Hs) as (s1 & E1 & Hs1); [unfold is_byte; lia|eapply room_le; [done|lia]|].
  cbn [app splitargs_token]. unfold splitargs_step, char_then. cbn [at_ lookup list_lookup mbind res_bind].
  zfalse (x =? 92). zfalse (x =? 39). zfalse (x =? 0). cbn [app] in E1. rewrite E1. cbn [mbind res_bind at_ lookup list_lookup]. zfalse (x =? 0). cbn [negb drop].
  apply (IH _ _ (c ++ [x])); [cbn in Hf; lia|done..|]. rewrite zlen_app. eapply room_le; [done|rewrite zlen_cons, zlen_nil; lia].
Qed.

(** The parser at the first character of a word. *)
Lemma loop_word fuel x p vector : needs_escape x = false ->
  splitargs_loop (S fuel) (x :: p) vector =
  (current ← sdsempty;
   r ← splitargs_token (S (length (x :: p))) (x :: p) false false current;
   match r with None => Ok None | Some (current, p) => splitargs_loop fuel p (vector ++ [current]) end).
Proof.
  intros Hx. apply no_escape in Hx as (H1 & H2 & H3). cbn [splitargs_loop skip_blanks].
  assert (isspace x = false) as -> by (unfold isspace; lia). rewrite andb_false_r. cbn [mbind res_bind at_ lookup list_lookup]. by zfalse (x =? 0).
Qed.

Lemma splitargs_word w rest : w <> [] -> existsb needs_escape w = false -> 39 ∉ w -> room (zlen w) ->
  exists s, sdssplitargs (w ++ 0 :: rest) = Ok (Some [s]) /\ sds_repr s w.
Proof.
  intros Hne Hn Hq Hr. unfold sdssplitargs. destruct w as [|x w]; [done|]. cbn [app]. rewrite loop_word by (cbn in Hn; by apply orb_false_iff in Hn as [? _]).
  destruct empty_gives as (s0 & -> & Hs0); [eapply room_le; [done|apply zlen_nonneg]|]. rewrite bind_Ok.
  destruct (token_word (x :: w) (S (S (length rest))) s0 [] (0 :: rest)) as (s & E & Hs); [done..|].
  replace (length (x :: w) + S (S (length rest)))%nat with (S (length (x :: w ++ 0 :: rest))) in E by (cbn; rewrite length_app; cbn; lia).
  cbn [app] in E. rewrite E. exists s. split; [|done]. cbn [length]. by rewrite length_app, Nat.add_comm.
Qed.

End Quoting.

(** ** Templates *)

(** A template as the pieces it is written from. *)
Inductive tpiece := TLit (text : list Z) | TBrace | TVar (name : list Z).

Definition tpiece_src (p : tpiece) : list Z :=
  match p with TLit t => t | TBrace => [123; 123] | TVar n => [123] ++ n ++ [125] end.

Definition tpiece_ok (p : tpiece) : Prop :=
  match p with
  | TLit t => Forall (fun c => is_byte c /\ c <> 0 /\ c <> 123) t
  | TBrace => True
  | TVar n => Forall (fun c => is_byte c /\ c <> 0 /\ c <> 125) n /\ match n with c :: _ => c <> 123 | [] => True end
  end.

(** The text of a piece; a value counts up to its first zero byte. *)
Definition tpiece_text (env : list Z -> option (list Z)) (p : tpiece) : option (list Z) :=
  match p with TLit t => Some t | TBrace => Some [123] | TVar n => cstr <$> env n end.

(** The whole text; [None] when a variable has no value. *)
Fixpoint template_text (env : list Z -> option (list Z)) (ps : list tpiece) : option (list Z) :=
  match ps with [] => Some [] | p :: ps => x ← tpiece_text env p; y ← template_text env ps; Some (x ++ y) end.

(** The number of pieces that begin with a brace. *)
Definition braces (ps : list tpiece) : nat := foldr (fun p n => match p with TLit _ => n | _ => S n end) 0%nat ps.

Lemma braces_le ps : (braces ps <= length (concat (tpiece_src <$> ps)))%nat.
Proof. induction ps as [|p ps IH]; [done|]. cbn [braces foldr fmap list_fmap concat]. fold (braces ps). rewrite length_app. destruct p; cbn; lia. Qed.

Section Templates.
Context `{Host} `{Allocator} (env : list Z -> option (list Z)) (cb_func : sds -> res (option sds)).
Context (Hcb : forall s name, sds_repr s name ->
  match env name with Some v => exists sv, cb_func s = Ok (Some sv) /\ sds_repr sv v | None => cb_func s = Ok None end).

Lemma strchr_none t rest c : c <> 0 -> Forall (fun x => x <> 0 /\ x <> c) t -> strchr_from (t ++ 0 :: rest) c = Ok None.
Proof.
  intros Hc. induction 1 as [|x t [H1 H2] _ IH]; cbn [app strchr_from]; [by zfalse (0 =? c)|]. zfalse (x =? c). by zfalse (x =? 0).
Qed.

Lemma strchr_found t rest c : Forall (fun x => x <> 0 /\ x <> c) t -> strchr_from (t ++ c :: rest) c = Ok (Some (c :: rest)).
Proof.
  induction 1 as [|x t [H1 H2] _ IH]; cbn [app strchr_from]; [by rewrite Z.eqb_refl|]. zfalse (x =? c). by zfalse (x =? 0).
Qed.

Lemma cat_cstr_gives s c sv v : sds_repr s c -> sds_repr sv v -> room (zlen c + zlen (cstr v)) -> gives (sdscat s (cbuf sv)) (c ++ cstr v).
Proof.
  intros Hs Hv Hr. destruct (sds_cbuf _ _ Hv) as [free ->]. destruct (cstr_split v) as [rest E].
  rewrite (cons_middle 0 v), app_assoc, E, <- app_assoc. destruct (cstr_prefix v) as [r Er]. apply sds_bytes in Hv. rewrite Er in Hv.
  apply Forall_app in Hv as [Hb _]. apply cat_gives; [done..|apply cstr_nonzero|done].
Qed.

(** All the memory the expansion can need. *)
Definition template_size (ps : list tpiece) : Z :=
  foldr (fun p n => zlen (tpiece_src p) + match p with TVar m => zlen (cstr (default [] (env m))) | _ => 0 end + n) 0 ps.

Lemma template_size_nonneg ps : 0 <= template_size ps.
Proof. induction ps as [|p ps IH]; cbn [template_size foldr]; [lia|]. fold (template_size ps). destruct p; zlia. Qed.

(** Up to the next brace, the text is copied. *)
Lemma template_copy s c lit rest : sds_repr s c -> Forall (fun x => is_byte x /\ x <> 0 /\ x <> 123) lit -> room (zlen c + zlen lit) ->
  strchr_from (lit ++ 123 :: rest) 123 = Ok (Some (123 :: rest)) /\
  gives (if zlen (lit ++ 123 :: rest) - zlen (123 :: rest) >? 0
         then sdscatlen s (lit ++ 123 :: rest) (zlen (lit ++ 123 :: rest) - zlen (123 :: rest)) else Ok s) (c ++ lit).
Proof.
  intros Hs Hl Hr. split; [apply strchr_found; eapply Forall_impl; [exact Hl|]; cbn; tauto|]. rewrite zlen_app, Z.add_simpl_r.
  destruct lit as [|x lit]; [rewrite app_nil_r; by apply gives_ok|]. ztrue (zlen (x :: lit) >? 0).
  apply catlen_gives; [done|eapply Forall_impl; [exact Hl|]; cbn; tauto|done].
Qed.

Lemma template_head lit rest : Forall (fun x => is_byte x /\ x <> 0 /\ x <> 123) lit -> exists x, at_ (lit ++ 123 :: rest) 0 = Ok x /\ x <> 0.
Proof. destruct 1 as [|x lit (_ & Hx & _) _]; [by exists 123|by exists x]. Qed.

Lemma template_loop_ok rest ps : forall fuel s c lit, Forall tpiece_ok ps -> Forall (fun x => is_byte x /\ x <> 0 /\ x <> 123) lit ->
  sds_repr s c -> room (zlen c + zlen lit + template_size ps) -> (braces ps < fuel)%nat ->
  exists r, template_loop fuel cb_func s (lit ++ concat (tpiece_src <$> ps) ++ 0 :: rest) = Ok r /\
    match template_text env ps, r with
    | Some x, Some s' => sds_repr s' (c ++ lit ++ x)
    | None, None => True
    | _, _ => False
    end.
Proof.
  induction ps as [|p ps IH]; intros fuel s c lit Hps Hlit Hs Hr Hf; (destruct fuel as [|fuel]; [cbn in Hf; lia|]).
  - cbn [template_size foldr] in Hr. rewrite Z.add_0_r in Hr. cbn [fmap list_fmap concat app template_text template_loop].
    assert (Forall (fun x => x <> 0 /\ x <> 123) lit) as Hl2 by (eapply Forall_impl; [exact Hlit|]; cbn; tauto).
    destruct lit as [|x lit]; [exists (Some s); split; [done|]; by rewrite app_nil_r|]. pose proof (Forall_inv Hl2) as [Hx _].
    cbn [at_ lookup list_lookup app]. rewrite bind_Ok. zfalse (x =? 0). change (x :: lit ++ 0 :: rest) with ((x :: lit) ++ 0 :: rest).
    rewrite strchr_none, bind_Ok by done. destruct (cat_gives s c (x :: lit) rest) as (s' & -> & Hs'); [done| | |done|].
    { eapply Forall_impl; [exact Hlit|]; cbn; tauto. } { eapply Forall_impl; [exact Hl2|]; cbn; tauto. }
    exists (Some s'). split; [done|]. by rewrite app_nil_r.
  - apply Forall_cons in Hps as [Hp Hps]. cbn [template_size foldr] in Hr. fold (template_size ps) in Hr. pose proof (template_size_nonneg ps).
    cbn [fmap list_fmap concat]. rewrite <- app_assoc. destruct p as [t| |n]; cbn [tpiece_src tpiece_text template_text] in *.
    + destruct (IH (S fuel) s c (lit ++ t)) as (r & E & Hres); [done|by apply Forall_app|done|rewrite zlen_app; eapply room_le; [done|lia]|cbn [braces foldr] in Hf; fold (braces ps) in Hf; lia|].
      rewrite <- app_assoc in E. exists r. split; [exact E|]. cbn. destruct (template_text env ps); cbn in *; [|done]. destruct r; [|done].
      by rewrite <- app_assoc in Hres.
    + cbn [template_loop app]. destruct (template_copy s c lit (123 :: concat (tpiece_src <$> ps) ++ 0 :: rest)) as [Ec Eg]; [done..|eapply room_le; [done|zlia]|].
      edestruct (template_head lit) as (x & Ea & Hx); [exact Hlit|]. rewrite Ea, bind_Ok. zfalse (x =? 0). rewrite Ec, bind_Ok.
      destruct Eg as (s1 & E1 & Hs1). cbv zeta. rewrite E1, bind_Ok. cbn [drop at_ lookup list_lookup]. rewrite bind_Ok. change (123 =? 0) with false.
      change (123 =? 123) with true. cbv iota. destruct (cat_gives s1 (c ++ lit) [123] []) as (s2 & E2 & Hs2);
        [done|forall_list; unfold is_byte; lia|by forall_list|rewrite zlen_app; eapply room_le; [done|zlia]|]. cbn [app] in E2. rewrite E2, bind_Ok.
      destruct (IH fuel s2 ((c ++ lit) ++ [123]) []) as (r & E & Hres); [done|constructor|done|rewrite !zlen_app; eapply room_le; [done|zlia]|cbn [braces foldr] in Hf; fold (braces ps) in Hf; lia|].
      exists r. split; [exact E|]. cbn. destruct (template_text env ps); cbn in *; [|done]. destruct r; [|done]. by rewrite <- !app_assoc in Hres.
    + destruct Hp as [Hn Hh]. cbn [template_loop app]. rewrite <- app_assoc. cbn [app].
      destruct (template_copy s c lit (n ++ 125 :: concat (tpiece_src <$> ps) ++ 0 :: rest)) as [Ec Eg]; [done..|eapply room_le; [done|zlia]|].
      edestruct (template_head lit) as (x & Ea & Hx); [exact Hlit|]. rewrite Ea, bind_Ok. zfalse (x =? 0). rewrite Ec, bind_Ok.
      destruct Eg as (s1 & E1 & Hs1). cbv zeta. rewrite E1, bind_Ok. cbn [drop]. rewrite drop_0.
      assert (exists y, at_ (n ++ 125 :: concat (tpiece_src <$> ps) ++ 0 :: rest) 0 = Ok y /\ y <> 0 /\ y <> 123) as (y & -> & Hy0 & Hy1).
      { destruct n as [|y n]; [by exists 125|]. apply Forall_cons in Hn as [(_ & Hy & _) _]. by exists y. }
      rewrite bind_Ok. zfalse (y =? 0). zfalse (y =? 123).
      rewrite strchr_found, bind_Ok by (eapply Forall_impl; [exact Hn|]; cbn; tauto). rewrite zlen_app, Z.add_simpl_r.
      destruct (newlen_gives (InitFrom (n ++ 125 :: concat (tpiece_src <$> ps) ++ 0 :: rest)) n) as (vn & Ev & Hvn);
        [by eexists|eapply Forall_impl; [exact Hn|]; cbn; tauto|eapply room_le; [done|zlia]|]. rewrite Ev, bind_Ok.
      pose proof (Hcb vn n Hvn) as Hval. destruct (env n) as [v|]; [|rewrite Hval, bind_Ok; by exists None]. destruct Hval as (sv & -> & Hsv). rewrite bind_Ok.
      destruct (cat_cstr_gives s1 (c ++ lit) sv v) as (s2 & -> & Hs2); [done..|rewrite zlen_app; eapply room_le; [done|cbn in *; zlia]|]. rewrite bind_Ok.
      destruct (IH fuel s2 ((c ++ lit) ++ cstr v) []) as (r & E & Hres); [done|constructor|done|rewrite !zlen_app; eapply room_le; [done|cbn in *; zlia]|cbn [braces foldr] in Hf; fold (braces ps) in Hf; lia|].
      exists r. split; [exact E|]. cbn. destruct (template_text env ps); cbn in *; [|done]. destruct r; [|done]. by rewrite <- !app_assoc in Hres.
Qed.

End Templates.

(** * Theorems *)

(** The arguments, each in its quoted representation. *)
Fixpoint quote_args `{Host} `{Allocator} (args : list (list Z)) : res (list sds) :=
  match args with
  | [] => Ok []
  | a :: args => s ← sdsempty; q ← sdscatrepr s a (zlen a); qs ← quote_args args; Ok (q :: qs)
  end.

Section Theorems.
Context `{Host} `{Allocator}.

Lemma quote_args_ok args : Forall (Forall is_byte) args -> Forall (fun t => room (4 * zlen t + 2)) args ->
  exists qs, quote_args args = Ok qs /\ Forall2 sds_repr qs (quoted <$> args).
Proof.
  induction args as [|a args IH]; intros Hb Hr; [exists []; split; [done|constructor]|]. apply Forall_cons in Hb as [Ha Hb], Hr as [Hra Hr].
  destruct (IH Hb Hr) as (qs & Eq & Hqs). cbn [quote_args]. pose proof (zlen_nonneg a).
  destruct empty_gives as (s0 & -> & Hs0); [eapply room_le; [done|lia]|]. rewrite bind_Ok.
  pose proof (catrepr_gives s0 [] a [] Hs0 Ha Hra) as (q & E & Hq). rewrite app_nil_r in E. rewrite E, bind_Ok, Eq, bind_Ok.
  exists (q :: qs). split; [done|]. by constructor.
Qed.

(** C20: Quoting and parsing are inverse: any list of byte strings, each appended in
    its quoted representation by [sdscatrepr] and joined with spaces, is split by
    [sdssplitargs] into exactly these strings, control characters, quotes and
    zero bytes included. *)
Theorem sdssplitargs_catrepr args :
  Forall (Forall is_byte) args -> Forall (fun t => room (4 * zlen t + 2)) args -> room (zlen (joined [32] (quoted <$> args))) ->
  exists line tokens, (qs ← quote_args args; sdsjoinsds qs [32; 0] 1) = Ok line /\
    sdssplitargs (cbuf line) = Ok (Some tokens) /\ Forall2 sds_repr tokens args.
Proof.
  intros Hb Hr Hrj. destruct (quote_args_ok args Hb Hr) as (qs & -> & Hqs). rewrite bind_Ok.
  destruct (joinsds_gives [32] [0] qs (quoted <$> args) Hqs) as (line & El & Hl); [forall_list; unfold is_byte; lia|done|].
  destruct (sds_cbuf _ _ Hl) as [free Ec]. exists line. rewrite Ec. unfold sdssplitargs.
  destruct (loop_args args (S (length (joined [32] (quoted <$> args) ++ 0 :: free))) [] [] free) as (tokens & E & Ht); [|done| |constructor|].
  - rewrite length_app. pose proof (length_joined_quoted args). lia.
  - eapply Forall_impl; [exact Hr|]. intros t Ht. cbn in Ht. pose proof (zlen_nonneg t). eapply room_le; [exact Ht|lia].
  - exists tokens. done.
Qed.

(** [sdssplitlen] cuts a string at the leftmost occurrences of the separator: it
    returns parts that do not contain the separator, and joining them again with
    [sdsjoinsds] gives back the string.  The token array is never overrun. *)
Theorem sdssplitlen_joinsds str sep :
  Forall is_byte str -> Forall is_byte sep -> 0 < zlen str < 2 ^ 30 -> 0 < zlen sep -> room (zlen str) ->
  exists tokens parts s, sdssplitlen str (zlen str) sep (zlen sep) = Ok (Some tokens) /\
    Forall2 sds_repr tokens parts /\ Forall (fun p => ~ occurs sep p) parts /\ joined sep parts = str /\
    sdsjoinsds tokens sep (zlen sep) = Ok s /\ sds_repr s str.
Proof.
  intros Hs Hp Hl Hz Hr. destruct (splitlen_ok str [] sep [] Hs ltac:(lia) Hz Hr ltac:(lia)) as (tokens & parts & E & Ht & Hj & Hno).
  rewrite !app_nil_r in E. destruct (joinsds_gives sep [] tokens parts Ht Hp) as (s & Es & Hs'); [by rewrite Hj|]. rewrite app_nil_r, Hj in *.
  eauto 10.
Qed.

(** [sdscatfmt] appends the text its format describes: literal characters, C
    strings, sds strings, signed and unsigned integers in canonical decimal
    notation, and any other character after a percent sign as itself. *)
Theorem sdscatfmt_correct s c ps :
  sds_repr s c -> Forall piece_ok ps ->
  room (zlen c + zlen (concat (piece_text <$> ps)) + 2 * zlen (concat (piece_fmt <$> ps)) + 1) ->
  exists s', sdscatfmt s (concat (piece_fmt <$> ps) ++ [0]) (concat (piece_arg <$> ps)) = Ok s' /\
    sds_repr s' (c ++ concat (piece_text <$> ps)).
Proof. apply catfmt_gives. Qed.

(** [sdsneedsrepr] lets through words that [sdssplitargs] cannot read: a word of
    printable characters other than blanks, backslashes and double quotes is said
    not to need quoting, and without a single quote it is indeed parsed as itself;
    but with one single quote in it the parser reports unbalanced quotes. *)
Theorem sdsneedsrepr_incomplete s w a b :
  sds_repr s w -> w <> [] -> existsb needs_escape w = false -> room (zlen w) ->
  sdsneedsrepr s = Ok false /\
  (39 ∉ w -> exists t, sdssplitargs (cbuf s) = Ok (Some [t]) /\ sds_repr t w) /\
  (w = a ++ [39] ++ b -> 39 ∉ a -> 39 ∉ b -> sdssplitargs (cbuf s) = Ok None).
Proof.
  intros Hs Hne Hn Hr. split; [by rewrite (needsrepr_ok _ _ Hs), Hn|]. destruct (sds_cbuf _ _ Hs) as [free ->]. split; [intros; by apply splitargs_word|].
  intros -> Ha Hb. rewrite !existsb_app in Hn. cbn [existsb app] in Hn. zprop. clear Hs Hne.
  assert (sdssplitargs ((a ++ [39] ++ b) ++ 0 :: free) =
    (current ← sdsempty; r ← splitargs_token (S (length ((a ++ [39] ++ b) ++ 0 :: free))) ((a ++ [39] ++ b) ++ 0 :: free) false false current;
     match r with None => Ok None
     | Some (current, p) => splitargs_loop (length ((a ++ [39] ++ b) ++ 0 :: free)) p ([] ++ [current]) end)) as ->.
  { unfold sdssplitargs. destruct a as [|x a]; [by apply loop_word|]. apply loop_word. cbn in *. zprop. done. }
  destruct empty_gives as (s0 & -> & Hs0); [eapply room_le; [done|apply zlen_nonneg]|]. rewrite bind_Ok, !zlen_app, zlen_cons in *.
  pose proof (zlen_nonneg a). pose proof (zlen_nonneg b). rewrite <- !app_assoc. cbn [app].
  destruct (token_word a (S (S (length (b ++ 0 :: free)))) s0 [] (39 :: b ++ 0 :: free)) as (s1 & E & Hs1); [done..|eapply room_le; [done|zlia]|].
  replace (length a + S (S (length (b ++ 0%Z :: free))))%nat with (S (length (a ++ 39 :: b ++ 0 :: free))) in E
    by (rewrite (length_app a); cbn [length]; lia).
  rewrite E. change (splitargs_token (S ?f) (39 :: ?p) false false s1) with (splitargs_token f p false true s1).
  rewrite (token_unclosed b _ s1 a); [done|rewrite length_app; cbn; lia|done..|eapply room_le; [done|zlia]].
Qed.

(** [sdstemplate] expands a template: literal text, doubled braces, and variables
    replaced by what the callback returns; it returns NULL exactly when a variable
    has no value. *)
Theorem sdstemplate_correct env cb_func ps :
  (forall s name, sds_repr s name ->
    match env name with Some v => exists sv, cb_func s = Ok (Some sv) /\ sds_repr sv v | None => cb_func s = Ok None end) ->
  Forall tpiece_ok ps -> room (template_size env ps) ->
  exists r, sdstemplate (concat (tpiece_src <$> ps) ++ [0]) cb_func = Ok r /\
    match template_text env ps, r with Some x, Some s => sds_repr s x | None, None => True | _, _ => False end.
Proof.
  intros Hcb Hps Hr. unfold sdstemplate. pose proof (template_size_nonneg env ps). destruct empty_gives as (s0 & -> & Hs0); [eapply room_le; [done|lia]|].
  rewrite bind_Ok. apply (template_loop_ok env cb_func Hcb [] ps _ s0 [] []); [done|constructor|done..|].
  rewrite length_app. pose proof (braces_le ps). lia.
Qed.

End Theorems.

Lemma sdssplitargs_catrepr_witness : let H := little_host in let A := exact_allocator in
  exists line tokens, (qs ← quote_args [chars "it's"; [0; 255; 10]; []; chars "a b"]; sdsjoinsds qs [32; 0] 1) = Ok line /\
    sdssplitargs (cbuf line) = Ok (Some tokens) /\ Forall2 sds_repr tokens [chars "it's"; [0; 255; 10]; []; chars "a b"].
Proof.
  cbv zeta. apply (@sdssplitargs_catrepr little_host exact_allocator [chars "it's"; [0; 255; 10]; []; chars "a b"]).
  - repeat constructor; vm_compute; congruence.
  - repeat constructor; vm_compute; congruence.
  - vm_compute. congruence.
Defined.

Lemma sdssplitlen_joinsds_witness : let H := little_host in let A := exact_allocator in
  exists tokens parts s, sdssplitlen (chars "foo_-_bar") 9 (chars "_-_") 3 = Ok (Some tokens) /\
    Forall2 sds_repr tokens parts /\ Forall (fun p => ~ occurs (chars "_-_") p) parts /\ joined (chars "_-_") parts = chars "foo_-_bar" /\
    sdsjoinsds tokens (chars "_-_") 3 = Ok s /\ sds_repr s (chars "foo_-_bar").
Proof.
  cbv zeta. apply (@sdssplitlen_joinsds little_host exact_allocator (chars "foo_-_bar") (chars "_-_")).
  - repeat constructor; vm_compute; congruence.
  - repeat constructor; vm_compute; congruence.
  - done.
  - done.
  - vm_compute. congruence.
Defined.

(** A string made by the code, for the witnesses below. *)
Definition sample_sds (c : list Z) : sds :=
  match @sdsnewlen little_host exact_allocator (InitFrom c) (zlen c) with Ok s => s | _ => Sds [] 0 end.

Lemma sample_sds_repr c : Forall is_byte c -> @room exact_allocator (zlen c) -> @sds_repr little_host (sample_sds c) c.
Proof.
  intros Hb Hr. unfold sample_sds. destruct (@newlen_gives little_host exact_allocator (InitFrom c) c) as (s & -> & Hs); [|done..].
  exists []. by rewrite app_nil_r.
Qed.

Definition sample_pieces : list piece :=
  (Lit <$> chars "Hello ") ++ [PStr (chars "Hi!") []] ++ (Lit <$> chars " World ") ++ [PInt true INT64_MIN; Lit 44; PUInt false 7; Pct 37].

Lemma sdscatfmt_correct_witness : let H := little_host in let A := exact_allocator in
  concat (piece_fmt <$> sample_pieces) = chars "Hello %s World %I,%u%%" /\
  concat (piece_text <$> sample_pieces) = chars "Hello Hi! World -9223372036854775808,7%" /\
  exists s', sdscatfmt (sample_sds (chars "--")) (concat (piece_fmt <$> sample_pieces) ++ [0]) (concat (piece_arg <$> sample_pieces)) = Ok s' /\
    sds_repr s' (chars "--" ++ concat (piece_text <$> sample_pieces)).
Proof.
  cbv zeta. split; [by vm_compute|]. split; [by vm_compute|].
  apply (@sdscatfmt_correct little_host exact_allocator (sample_sds (chars "--")) (chars "--") sample_pieces).
  - apply sample_sds_repr; [repeat constructor; vm_compute; congruence|vm_compute; congruence].
  - repeat apply Forall_cons_2; cbn [piece_ok]; try done; split_and!; try done; repeat constructor; vm_compute; congruence.
  - vm_compute. congruence.
Defined.

Lemma sdsneedsrepr_incomplete_witness : let H := little_host in let A := exact_allocator in
  sdsneedsrepr (sample_sds (chars "it's")) = Ok false /\ sdssplitargs (cbuf (sample_sds (chars "it's"))) = Ok None.
Proof.
  cbv zeta. destruct (@sdsneedsrepr_incomplete little_host exact_allocator (sample_sds (chars "it's")) (chars "it's") (chars "it") (chars "s"))
    as (H1 & _ & H2); [apply sample_sds_repr; [repeat constructor; vm_compute; congruence|vm_compute; congruence]|done|done|vm_compute; congruence|].
  split; [exact H1|]. apply H2; [done|apply (bool_decide_unpack _); by vm_compute..].
Defined.
