(* ===== verification/ListpackEnc.v ===== *)
(** The entry format of listpacks: the encoding macros and the encode/decode
    helpers of [listpack.c].

    An entry is an encoding byte with its length or integer bytes, the string
    bytes if any, and the length of all that written backwards ([backlen]) so
    that the listpack can be walked from the tail.  This file holds the byte
    level; [Listpack] holds the operations on whole listpacks. *)
From S2P Require Import Prelude Util.
Open Scope Z_scope.

(** * Definitions *)

Definition LP_HDR_SIZE : Z := 6.
Definition LP_HDR_NUMELE_UNKNOWN : Z := 65535.
Definition LP_INTBUF_SIZE : Z := 21.
Definition LP_EOF : Z := 255.

Definition LP_ENCODING_IS_7BIT_UINT (b : Z) : bool := Z.land b 128 =? 0.
Definition LP_ENCODING_IS_6BIT_STR (b : Z) : bool := Z.land b 192 =? 128.
Definition LP_ENCODING_IS_13BIT_INT (b : Z) : bool := Z.land b 224 =? 192.
Definition LP_ENCODING_IS_12BIT_STR (b : Z) : bool := Z.land b 240 =? 224.
Definition LP_ENCODING_IS_16BIT_INT (b : Z) : bool := Z.land b 255 =? 241.
Definition LP_ENCODING_IS_24BIT_INT (b : Z) : bool := Z.land b 255 =? 242.
Definition LP_ENCODING_IS_32BIT_INT (b : Z) : bool := Z.land b 255 =? 243.
Definition LP_ENCODING_IS_64BIT_INT (b : Z) : bool := Z.land b 255 =? 244.
Definition LP_ENCODING_IS_32BIT_STR (b : Z) : bool := Z.land b 255 =? 240.

Definition LP_ENCODING_6BIT_STR_LEN (lp : list Z) (p : Z) : res Z :=
  b0 ← rd1 lp p; Ok (Z.land b0 63).

Definition LP_ENCODING_12BIT_STR_LEN (lp : list Z) (p : Z) : res Z :=
  b0 ← rd1 lp p; b1 ← rd1 lp (p + 1);
  Ok (Z.lor (Z.shiftl (Z.land b0 15) 8) b1).

Definition LP_ENCODING_32BIT_STR_LEN (lp : list Z) (p : Z) : res Z :=
  b1 ← rd1 lp (p + 1); b2 ← rd1 lp (p + 2); b3 ← rd1 lp (p + 3); b4 ← rd1 lp (p + 4);
  Ok (Z.lor (Z.lor (Z.lor (Z.shiftl b1 0) (Z.shiftl b2 8)) (Z.shiftl b3 16)) (Z.shiftl b4 24)).

Definition lpGetTotalBytes (lp : list Z) : res Z :=
  b0 ← rd1 lp 0; b1 ← rd1 lp 1; b2 ← rd1 lp 2; b3 ← rd1 lp 3;
  Ok (Z.lor (Z.lor (Z.lor (Z.shiftl b0 0) (Z.shiftl b1 8)) (Z.shiftl b2 16)) (Z.shiftl b3 24)).

Definition lpGetNumElements (lp : list Z) : res Z :=
  b4 ← rd1 lp 4; b5 ← rd1 lp 5;
  Ok (Z.lor (Z.shiftl b4 0) (Z.shiftl b5 8)).

Definition lpSetTotalBytes (lp : list Z) (v : Z) : res (list Z) :=
  lp ← wr lp 0 [Z.land v 255];
  lp ← wr lp 1 [Z.land (Z.shiftr v 8) 255];
  lp ← wr lp 2 [Z.land (Z.shiftr v 16) 255];
  wr lp 3 [Z.land (Z.shiftr v 24) 255].

Definition lpSetNumElements (lp : list Z) (v : Z) : res (list Z) :=
  lp ← wr lp 4 [Z.land v 255];
  wr lp 5 [Z.land (Z.shiftr v 8) 255].

Definition lpStringToInt64 (s : list Z) (slen : Z) : res (option Z) :=
  if (slen =? 0) || (slen >=? LONG_STR_SIZE) then Ok None
  else
    c ← rd1 s 0;
    if (slen =? 1) && (c =? 48) then Ok (Some 0)
    else if c =? 45 then
      if 1 =? slen then Ok None
      else string2ll_digits s slen 1 true
    else string2ll_digits s slen 0 false.

(** The bytes stored in [intenc]; [enclen] is their number. *)
Definition lpEncodeIntegerGetType (v : Z) : list Z :=
  if (v >=? 0) && (v <=? 127) then [wrapU 8 v]
  else if (v >=? -4096) && (v <=? 4095) then
    let v := if v <? 0 then Z.shiftl 1 13 + v else v in
    [wrapU 8 (Z.lor (Z.shiftr v 8) 192); Z.land v 255]
  else if (v >=? -32768) && (v <=? 32767) then
    let v := if v <? 0 then Z.shiftl 1 16 + v else v in
    [241; Z.land v 255; wrapU 8 (Z.shiftr v 8)]
  else if (v >=? -8388608) && (v <=? 8388607) then
    let v := if v <? 0 then Z.shiftl 1 24 + v else v in
    [242; Z.land v 255; Z.land (Z.shiftr v 8) 255; wrapU 8 (Z.shiftr v 16)]
  else if (v >=? -2147483648) && (v <=? 2147483647) then
    let v := if v <? 0 then Z.shiftl 1 32 + v else v in
    [243; Z.land v 255; Z.land (Z.shiftr v 8) 255; Z.land (Z.shiftr v 16) 255;
     wrapU 8 (Z.shiftr v 24)]
  else
    let uv := wrapU 64 v in
    [244; Z.land uv 255; Z.land (Z.shiftr uv 8) 255; Z.land (Z.shiftr uv 16) 255;
     Z.land (Z.shiftr uv 24) 255; Z.land (Z.shiftr uv 32) 255; Z.land (Z.shiftr uv 40) 255;
     Z.land (Z.shiftr uv 48) 255; wrapU 8 (Z.shiftr uv 56)].

(** [LP_ENCODING_INT] with the encoded integer, or [LP_ENCODING_STRING]; both
    with [enclen]. *)
Inductive lpenctype :=
| LP_ENCODING_INT (intenc : list Z)
| LP_ENCODING_STRING.

Definition lpEncodeGetType (ele : list Z) (size : Z) : res (lpenctype * Z) :=
  r ← lpStringToInt64 ele size;
  match r with
  | Some v =>
      let intenc := lpEncodeIntegerGetType v in
      Ok (LP_ENCODING_INT intenc, zlen intenc)
  | None =>
      if size <? 64 then Ok (LP_ENCODING_STRING, 1 + size)
      else if size <? 4096 then Ok (LP_ENCODING_STRING, 2 + size)
      else Ok (LP_ENCODING_STRING, 5 + size)
  end.

(** The bytes stored in [buf]; the result of the C function is their number. *)
Definition lpEncodeBacklen (l : Z) : list Z :=
  if l <=? 127 then [wrapU 8 l]
  else if l <? 16383 then
    [wrapU 8 (Z.shiftr l 7); Z.lor (Z.land l 127) 128]
  else if l <? 2097151 then
    [wrapU 8 (Z.shiftr l 14); Z.lor (Z.land (Z.shiftr l 7) 127) 128; Z.lor (Z.land l 127) 128]
  else if l <? 268435455 then
    [wrapU 8 (Z.shiftr l 21); Z.lor (Z.land (Z.shiftr l 14) 127) 128;
     Z.lor (Z.land (Z.shiftr l 7) 127) 128; Z.lor (Z.land l 127) 128]
  else
    [wrapU 8 (Z.shiftr l 28); Z.lor (Z.land (Z.shiftr l 21) 127) 128;
     Z.lor (Z.land (Z.shiftr l 14) 127) 128; Z.lor (Z.land (Z.shiftr l 7) 127) 128;
     Z.lor (Z.land l 127) 128].

(** The do-while loop; [shift] grows by 7 up to 28, so six turns are enough. *)
Fixpoint lpDecodeBacklen_loop (fuel : nat) (lp : list Z) (p val shift : Z) : res Z :=
  match fuel with
  | O => OutOfFuel
  | S fuel =>
      b ← rd1 lp p;
      let val := Z.lor val (Z.shiftl (Z.land b 127) shift) in
      if Z.land b 128 =? 0 then Ok val
      else
        let shift := shift + 7 in
        let p := p - 1 in
        if shift >? 28 then Ok UINT64_MAX
        else lpDecodeBacklen_loop fuel lp p val shift
  end.

Definition lpDecodeBacklen (lp : list Z) (p : Z) : res Z := lpDecodeBacklen_loop 6 lp p 0 0.

(** The string [s] of length [len] encoded at offset [buf] of [lp]. *)
Definition lpEncodeString (lp : list Z) (buf : Z) (s : list Z) (len : Z) : res (list Z) :=
  if len <? 64 then
    lp ← wr lp buf [wrapU 8 (Z.lor len 128)];
    bs ← rd s 0 len;
    wr lp (buf + 1) bs
  else if len <? 4096 then
    lp ← wr lp buf [wrapU 8 (Z.lor (Z.shiftr len 8) 224)];
    lp ← wr lp (buf + 1) [Z.land len 255];
    bs ← rd s 0 len;
    wr lp (buf + 2) bs
  else
    lp ← wr lp buf [240];
    lp ← wr lp (buf + 1) [Z.land len 255];
    lp ← wr lp (buf + 2) [Z.land (Z.shiftr len 8) 255];
    lp ← wr lp (buf + 3) [Z.land (Z.shiftr len 16) 255];
    lp ← wr lp (buf + 4) [Z.land (Z.shiftr len 24) 255];
    bs ← rd s 0 len;
    wr lp (buf + 5) bs.

Definition lpCurrentEncodedSizeUnsafe (lp : list Z) (p : Z) : res Z :=
  b ← rd1 lp p;
  if LP_ENCODING_IS_7BIT_UINT b then Ok 1
  else if LP_ENCODING_IS_6BIT_STR b then
    len ← LP_ENCODING_6BIT_STR_LEN lp p; Ok (1 + len)
  else if LP_ENCODING_IS_13BIT_INT b then Ok 2
  else if LP_ENCODING_IS_16BIT_INT b then Ok 3
  else if LP_ENCODING_IS_24BIT_INT b then Ok 4
  else if LP_ENCODING_IS_32BIT_INT b then Ok 5
  else if LP_ENCODING_IS_64BIT_INT b then Ok 9
  else if LP_ENCODING_IS_12BIT_STR b then
    len ← LP_ENCODING_12BIT_STR_LEN lp p; Ok (2 + len)
  else if LP_ENCODING_IS_32BIT_STR b then
    len ← LP_ENCODING_32BIT_STR_LEN lp p; Ok (wrapU 32 (5 + len))
  else if b =? LP_EOF then Ok 1
  else Ok 0.

Definition lpCurrentEncodedSizeBytes (lp : list Z) (p : Z) : res Z :=
  b ← rd1 lp p;
  if LP_ENCODING_IS_7BIT_UINT b then Ok 1
  else if LP_ENCODING_IS_6BIT_STR b then Ok 1
  else if LP_ENCODING_IS_13BIT_INT b then Ok 1
  else if LP_ENCODING_IS_16BIT_INT b then Ok 1
  else if LP_ENCODING_IS_24BIT_INT b then Ok 1
  else if LP_ENCODING_IS_32BIT_INT b then Ok 1
  else if LP_ENCODING_IS_64BIT_INT b then Ok 1
  else if LP_ENCODING_IS_12BIT_STR b then Ok 2
  else if LP_ENCODING_IS_32BIT_STR b then Ok 5
  else if b =? LP_EOF then Ok 1
  else Ok 0.

Definition lpSkip (lp : list Z) (p : Z) : res Z :=
  entrylen ← lpCurrentEncodedSizeUnsafe lp p;
  let entrylen := entrylen + zlen (lpEncodeBacklen entrylen) in
  Ok (p + entrylen).

(** What an element access returns: a string inside the listpack, the integer
    itself, or (with [intbuf]) the integer printed into the caller's buffer. *)
Inductive lpval :=
| InListpack (off len : Z)
| IntValue (v : Z)
| InBuffer (buf : list Z) (len : Z).

(** The integer branches: [uval], [negstart], [negmax], and the entry size. *)
Definition lpGetInteger (uval negstart negmax : Z) (intbuf : option (list Z)) : res lpval :=
  let val := if uval >=? negstart then
               let uval := wrapU 64 (negmax - uval) in
               let val := wrapS 64 uval in
               - val - 1
             else wrapS 64 uval in
  match intbuf with
  | Some buf =>
      '(buf, n) ← ll2string buf LP_INTBUF_SIZE val;
      Ok (InBuffer buf n)
  | None => Ok (IntValue val)
  end.

(** The element and what is stored through [entry_size], if anything is. *)
Definition lpGetWithSize (lp : list Z) (p : Z) (intbuf : option (list Z)) : res (lpval * option Z) :=
  b ← rd1 lp p;
  if LP_ENCODING_IS_7BIT_UINT b then
    v ← lpGetInteger (Z.land b 127) UINT64_MAX 0 intbuf; Ok (v, Some 2)
  else if LP_ENCODING_IS_6BIT_STR b then
    count ← LP_ENCODING_6BIT_STR_LEN lp p;
    Ok (InListpack (p + 1) count, Some (1 + count + zlen (lpEncodeBacklen (count + 1))))
  else if LP_ENCODING_IS_13BIT_INT b then
    b1 ← rd1 lp (p + 1);
    v ← lpGetInteger (Z.lor (Z.shiftl (Z.land b 31) 8) b1) (Z.shiftl 1 12) 8191 intbuf;
    Ok (v, Some 3)
  else if LP_ENCODING_IS_16BIT_INT b then
    b1 ← rd1 lp (p + 1); b2 ← rd1 lp (p + 2);
    v ← lpGetInteger (Z.lor b1 (Z.shiftl b2 8)) (Z.shiftl 1 15) 65535 intbuf;
    Ok (v, Some 4)
  else if LP_ENCODING_IS_24BIT_INT b then
    b1 ← rd1 lp (p + 1); b2 ← rd1 lp (p + 2); b3 ← rd1 lp (p + 3);
    v ← lpGetInteger (Z.lor (Z.lor b1 (Z.shiftl b2 8)) (Z.shiftl b3 16)) (Z.shiftl 1 23)
          (Z.shiftr UINT32_MAX 8) intbuf;
    Ok (v, Some 5)
  else if LP_ENCODING_IS_32BIT_INT b then
    b1 ← rd1 lp (p + 1); b2 ← rd1 lp (p + 2); b3 ← rd1 lp (p + 3); b4 ← rd1 lp (p + 4);
    v ← lpGetInteger (Z.lor (Z.lor (Z.lor b1 (Z.shiftl b2 8)) (Z.shiftl b3 16)) (Z.shiftl b4 24))
          (Z.shiftl 1 31) UINT32_MAX intbuf;
    Ok (v, Some 6)
  else if LP_ENCODING_IS_64BIT_INT b then
    b1 ← rd1 lp (p + 1); b2 ← rd1 lp (p + 2); b3 ← rd1 lp (p + 3); b4 ← rd1 lp (p + 4);
    b5 ← rd1 lp (p + 5); b6 ← rd1 lp (p + 6); b7 ← rd1 lp (p + 7); b8 ← rd1 lp (p + 8);
    v ← lpGetInteger
          (Z.lor (Z.lor (Z.lor (Z.lor (Z.lor (Z.lor (Z.lor b1 (Z.shiftl b2 8)) (Z.shiftl b3 16))
             (Z.shiftl b4 24)) (Z.shiftl b5 32)) (Z.shiftl b6 40)) (Z.shiftl b7 48)) (Z.shiftl b8 56))
          (Z.shiftl 1 63) UINT64_MAX intbuf;
    Ok (v, Some 10)
  else if LP_ENCODING_IS_12BIT_STR b then
    count ← LP_ENCODING_12BIT_STR_LEN lp p;
    Ok (InListpack (p + 2) count, Some (2 + count + zlen (lpEncodeBacklen (count + 2))))
  else if LP_ENCODING_IS_32BIT_STR b then
    count ← LP_ENCODING_32BIT_STR_LEN lp p;
    Ok (InListpack (p + 5) count, Some (5 + count + zlen (lpEncodeBacklen (count + 5))))
  else
    v ← lpGetInteger (wrapU 64 (12345678900000000 + b)) UINT64_MAX 0 intbuf;
    Ok (v, None).

(** * Specification *)

Inductive lpent :=
| EInt (v : Z)
| EStr (s : list Z).

(** The string an entry stands for. *)
Definition ent_str (e : lpent) : list Z :=
  match e with EInt v => ll_repr v | EStr s => s end.

Definition ent_ok (e : lpent) : Prop :=
  match e with
  | EInt v => INT64_MIN <= v <= INT64_MAX
  | EStr s => Forall is_byte s
  end.

(** How the code stores a string: as an integer when it is the notation of one. *)
Definition ent_of_str (s : list Z) (e : lpent) : Prop :=
  (exists v, INT64_MIN <= v <= INT64_MAX /\ s = ll_repr v /\ e = EInt v) \/
  ((forall v, INT64_MIN <= v <= INT64_MAX -> s <> ll_repr v) /\ e = EStr s).

Definition str_hdr (len : Z) : list Z :=
  if len <? 64 then [128 + len]
  else if len <? 4096 then [224 + len / 256; len mod 256]
  else 240 :: le_bytes 4 len.

Definition int_body (v : Z) : list Z :=
  if (0 <=? v) && (v <=? 127) then [v]
  else if (-4096 <=? v) && (v <=? 4095) then [192 + wrapU 13 v / 256; v mod 256]
  else if (-32768 <=? v) && (v <=? 32767) then 241 :: le_bytes 2 v
  else if (-8388608 <=? v) && (v <=? 8388607) then 242 :: le_bytes 3 v
  else if (-2147483648 <=? v) && (v <=? 2147483647) then 243 :: le_bytes 4 v
  else 244 :: le_bytes 8 v.

Definition ent_body (e : lpent) : list Z :=
  match e with
  | EInt v => int_body v
  | EStr s => str_hdr (zlen s) ++ s
  end.

Definition ent_bytes (e : lpent) : list Z :=
  ent_body e ++ lpEncodeBacklen (zlen (ent_body e)).

(** The value delivered for an integer entry. *)
Definition deliver (v : Z) (intbuf : option (list Z)) : res lpval :=
  match intbuf with
  | Some buf => '(buf, n) ← ll2string buf LP_INTBUF_SIZE v; Ok (InBuffer buf n)
  | None => Ok (IntValue v)
  end.

(** * Lemmas *)

Lemma lpStringToInt64_string2ll s slen : lpStringToInt64 s slen = string2ll s slen.
Proof. unfold lpStringToInt64, string2ll. by rewrite (Z.eqb_sym slen 0). Qed.

Lemma wrapU_add w z : 0 <= w -> wrapU w (2 ^ w + z) = wrapU w z.
Proof.
  intros. unfold wrapU. rewrite <- (Z.mul_1_l (2 ^ w)) at 1.
  rewrite Z.add_comm, Z.mod_add; [done|]. apply Z.pow_nonzero; lia.
Qed.

Lemma le_bytes_add n z : le_bytes n (2 ^ (8 * Z.of_nat n) + z) = le_bytes n z.
Proof. rewrite <- le_bytes_wrapU, wrapU_add, le_bytes_wrapU by lia. done. Qed.

Lemma neg_or (b : bool) n v : le_bytes n (if b then 2 ^ (8 * Z.of_nat n) + v else v) = le_bytes n v.
Proof. destruct b; [apply le_bytes_add|done]. Qed.

Lemma hi5_check : forall b, 0 <= b < 32 -> (Z.lor b 192 =? 192 + b) = true.
Proof. apply (all_below 32 (fun b => Z.lor b 192 =? 192 + b)). vm_compute. reflexivity. Qed.

Lemma int_body_ok v : INT64_MIN <= v <= INT64_MAX -> lpEncodeIntegerGetType v = int_body v.
Proof.
  intros Hv. unfold lpEncodeIntegerGetType, int_body. zconst. rewrite !Z.geb_leb.
  destruct ((0 <=? v) && (v <=? 127)) eqn:E1; [by zwrap|].
  destruct ((-4096 <=? v) && (v <=? 4095)) eqn:E2.
  { cbv zeta. set (u := if v <? 0 then Z.shiftl 1 13 + v else v).
    assert (u = wrapU 13 v) as Hu.
    { unfold u. change (Z.shiftl 1 13) with (2 ^ 13). destruct (Z.ltb_spec v 0).
      - rewrite <- wrapU_add, wrapU_small; lia.
      - rewrite wrapU_small; lia. }
    pose proof (wrapU_range 13 v ltac:(lia)) as Hr. rewrite <- Hu in *.
    rewrite Z.shiftr_div_pow2 by lia. change (2 ^ 8) with 256. change (2 ^ 13) with 8192 in *.
    assert (0 <= u / 256 < 32) by zdiv. pose proof (hi5_check (u / 256) ltac:(lia)) as E%Z.eqb_eq.
    rewrite E. zwrap. f_equal. rewrite land_255. f_equal. rewrite Hu. unfold wrapU.
    change (2 ^ 13) with (256 * 32). rewrite Z.rem_mul_r by lia.
    rewrite Z.mul_comm, Z.mod_add, Z.mod_mod by lia. done. }
  destruct ((-32768 <=? v) && (v <=? 32767)) eqn:E3.
  { rewrite !wrapU8_land, <- le_bytes2_land. f_equal. apply (neg_or _ 2). }
  destruct ((-8388608 <=? v) && (v <=? 8388607)) eqn:E4.
  { rewrite !wrapU8_land, <- le_bytes3_land. f_equal. apply (neg_or _ 3). }
  destruct ((-2147483648 <=? v) && (v <=? 2147483647)) eqn:E5.
  { rewrite !wrapU8_land, <- le_bytes4_land. f_equal. apply (neg_or _ 4). }
  rewrite !wrapU8_land, <- le_bytes8_land. f_equal. apply (le_bytes_wrapU 8).
Qed.

Lemma lpGetInteger_ok w v intbuf :
  1 < w <= 64 -> - 2 ^ (w - 1) <= v < 2 ^ (w - 1) ->
  lpGetInteger (wrapU w v) (2 ^ (w - 1)) (2 ^ w - 1) intbuf = deliver v intbuf.
Proof.
  intros Hw Hv.
  assert (2 ^ w = 2 * 2 ^ (w - 1)) as Hp by (rewrite <- Z.pow_succ_r by lia; f_equal; lia).
  assert (2 ^ (w - 1) <= 2 ^ 63) by (apply Z.pow_le_mono_r; lia).
  unfold lpGetInteger. rewrite Z.geb_leb.
  assert ((if 2 ^ (w - 1) <=? wrapU w v
           then - wrapS 64 (wrapU 64 (2 ^ w - 1 - wrapU w v)) - 1 else wrapS 64 (wrapU w v)) = v) as E.
  { destruct (Z.ltb_spec v 0).
    - assert (wrapU w v = 2 ^ w + v) as -> by (rewrite <- wrapU_add, wrapU_small; lia).
      ztrue (2 ^ (w - 1) <=? 2 ^ w + v).
      replace (2 ^ w - 1 - (2 ^ w + v)) with (- v - 1) by lia.
      rewrite wrapU_small, wrapS_small by (change (2 ^ (64 - 1)) with (2 ^ 63); lia). lia.
    - rewrite (wrapU_small w v) by lia. zfalse (2 ^ (w - 1) <=? v).
      rewrite wrapS_small by (change (2 ^ (64 - 1)) with (2 ^ 63); lia). done. }
  cbv zeta. rewrite E. done.
Qed.

(** The encoding tests, as ranges of the first byte. *)
Definition class_check (b : Z) : bool :=
  Bool.eqb (LP_ENCODING_IS_7BIT_UINT b) (b <? 128) &&
  Bool.eqb (LP_ENCODING_IS_6BIT_STR b) ((128 <=? b) && (b <? 192)) &&
  Bool.eqb (LP_ENCODING_IS_13BIT_INT b) ((192 <=? b) && (b <? 224)) &&
  Bool.eqb (LP_ENCODING_IS_12BIT_STR b) ((224 <=? b) && (b <? 240)) &&
  Bool.eqb (LP_ENCODING_IS_16BIT_INT b) (b =? 241) &&
  Bool.eqb (LP_ENCODING_IS_24BIT_INT b) (b =? 242) &&
  Bool.eqb (LP_ENCODING_IS_32BIT_INT b) (b =? 243) &&
  Bool.eqb (LP_ENCODING_IS_64BIT_INT b) (b =? 244) &&
  Bool.eqb (LP_ENCODING_IS_32BIT_STR b) (b =? 240).

Lemma class_ok b : is_byte b -> class_check b = true.
Proof. apply (all_below 256 class_check). vm_compute. reflexivity. Qed.

(** Turn the encoding tests on a byte into comparisons. *)
Ltac lp_class b :=
  let H := fresh "H" in
  pose proof (class_ok b) as H; unfold class_check in H;
  rewrite !andb_true_iff, !Bool.eqb_true_iff in H;
  destruct H as [[[[[[[[? ?] ?] ?] ?] ?] ?] ?] ?]; [unfold is_byte; try lia|];
  repeat match goal with
  | E : LP_ENCODING_IS_7BIT_UINT b = _ |- _ => rewrite ?E; clear E
  | E : LP_ENCODING_IS_6BIT_STR b = _ |- _ => rewrite ?E; clear E
  | E : LP_ENCODING_IS_13BIT_INT b = _ |- _ => rewrite ?E; clear E
  | E : LP_ENCODING_IS_12BIT_STR b = _ |- _ => rewrite ?E; clear E
  | E : LP_ENCODING_IS_16BIT_INT b = _ |- _ => rewrite ?E; clear E
  | E : LP_ENCODING_IS_24BIT_INT b = _ |- _ => rewrite ?E; clear E
  | E : LP_ENCODING_IS_32BIT_INT b = _ |- _ => rewrite ?E; clear E
  | E : LP_ENCODING_IS_64BIT_INT b = _ |- _ => rewrite ?E; clear E
  | E : LP_ENCODING_IS_32BIT_STR b = _ |- _ => rewrite ?E; clear E
  end.

(** Decide every comparison of [b] with a constant that heads an [if]. *)
Ltac lp_decide :=
  repeat match goal with
  | |- context [if ?c then _ else _] =>
      first [ replace c with true by (symmetry; lia) | replace c with false by (symmetry; lia) ]
  end.

Lemma rd1_here a x c : rd1 (a ++ x :: c) (zlen a) = Ok x.
Proof. by apply rd1_app. Qed.

Lemma mod256_byte x : is_byte (x mod 256).
Proof. unfold is_byte. apply Z.mod_pos_bound. lia. Qed.

Lemma le_val_le_bytes n v : 0 <= v < 2 ^ (8 * Z.of_nat n) -> le_val (le_bytes n v) = v.
Proof. intros. by rewrite le_val_bytes, wrapU_small. Qed.

(** The three string headers are read back. *)
Lemma str_len6 A len C : 0 <= len < 64 ->
  LP_ENCODING_6BIT_STR_LEN (A ++ (128 + len) :: C) (zlen A) = Ok len.
Proof.
  intros. unfold LP_ENCODING_6BIT_STR_LEN. rewrite rd1_here, bind_Ok. f_equal.
  change 63 with (2 ^ 6 - 1). rewrite land_mask by lia. change (2 ^ 6) with 64. zdiv.
Qed.

Lemma lor_low a b : 0 <= b < 256 -> Z.lor (Z.shiftl a 8) b = a * 256 + b.
Proof. intros. rewrite Z.lor_comm, lor_shiftl by lia. lia. Qed.

Lemma str_len12 A len C : 64 <= len < 4096 ->
  LP_ENCODING_12BIT_STR_LEN (A ++ (224 + len / 256) :: len mod 256 :: C) (zlen A) = Ok len.
Proof.
  intros. unfold LP_ENCODING_12BIT_STR_LEN. rewrite rd1_here, bind_Ok, rd1_shift by lia.
  change (rd1 (?x :: ?y :: C) 1) with (Ok y). rewrite bind_Ok. f_equal.
  change 15 with (2 ^ 4 - 1). rewrite land_mask by lia. change (2 ^ 4) with 16.
  rewrite lor_low by zdiv. zdiv.
Qed.

Lemma str_len32 A len C : 0 <= len <= UINT32_MAX ->
  LP_ENCODING_32BIT_STR_LEN (A ++ 240 :: le_bytes 4 len ++ C) (zlen A) = Ok len.
Proof.
  intros Hl. unfold LP_ENCODING_32BIT_STR_LEN. rewrite !rd1_shift by lia. cbn [le_bytes app].
  change (rd1 (240 :: ?a :: ?b :: ?c :: ?d :: C) 1) with (Ok a).
  change (rd1 (240 :: ?a :: ?b :: ?c :: ?d :: C) 2) with (Ok b).
  change (rd1 (240 :: ?a :: ?b :: ?c :: ?d :: C) 3) with (Ok c).
  change (rd1 (240 :: ?a :: ?b :: ?c :: ?d :: C) 4) with (Ok d).
  rewrite !bind_Ok, le32_lor by apply mod256_byte. f_equal. apply (le_val_le_bytes 4).
  change (2 ^ (8 * Z.of_nat 4)) with (2 ^ 32). zconst. lia.
Qed.

(** [lpGetWithSize] on an encoded entry. *)
Lemma get_str A s C intbuf :
  zlen s <= UINT32_MAX ->
  lpGetWithSize (A ++ ent_body (EStr s) ++ C) (zlen A) intbuf =
  Ok (InListpack (zlen A + zlen (str_hdr (zlen s))) (zlen s), Some (zlen (ent_bytes (EStr s)))).
Proof.
  intros Hs. zpos. unfold ent_bytes, ent_body. rewrite <- app_assoc.
  unfold lpGetWithSize, str_hdr.
  destruct (Z.ltb_spec (zlen s) 64); [|destruct (Z.ltb_spec (zlen s) 4096)].
  - cbn [app]. rewrite rd1_here, bind_Ok. lp_class (128 + zlen s). lp_decide.
    rewrite str_len6, bind_Ok by lia. do 4 f_equal. zlens. rewrite (Z.add_comm (zlen s) 1). lia.
  - cbn [app]. rewrite rd1_here, bind_Ok. assert (0 <= zlen s / 256 < 16) by zdiv.
    lp_class (224 + zlen s / 256). lp_decide.
    rewrite str_len12, bind_Ok by lia. do 4 f_equal. zlens.
    replace (1 + (1 + zlen s)) with (zlen s + 2) by lia. lia.
  - cbn [app]. rewrite rd1_here, bind_Ok. lp_class 240. lp_decide.
    rewrite str_len32, bind_Ok by lia. do 4 f_equal. zlens.
    replace (1 + (Z.of_nat 4 + zlen s)) with (zlen s + 5) by lia. lia.
Qed.

Lemma backlen_small l : 0 <= l <= 127 -> zlen (lpEncodeBacklen l) = 1.
Proof. intros. unfold lpEncodeBacklen. by ztrue (l <=? 127). Qed.

Lemma zlen_ent_small e n : zlen (ent_body e) = n -> 0 <= n <= 127 -> zlen (ent_bytes e) = n + 1.
Proof. intros <- Hn. unfold ent_bytes. rewrite zlen_app, backlen_small; lia. Qed.

(** The bytes read back by the integer branches. *)
Ltac rd1_bytes :=
  rewrite ?rd1_shift by lia; cbn [le_bytes app];
  repeat match goal with
  | |- context [rd1 (?x :: ?l) ?k] =>
      let v := eval cbv [lookup list_lookup Z.to_nat Pos.to_nat Pos.iter_op Init.Nat.add] in
        (list_lookup (Z.to_nat k) (x :: l)) in
      match v with Some ?y => change (rd1 (x :: l) k) with (Ok y); rewrite bind_Ok end
  end.

Lemma get_int A v C intbuf :
  INT64_MIN <= v <= INT64_MAX ->
  lpGetWithSize (A ++ ent_body (EInt v) ++ C) (zlen A) intbuf =
  (x ← deliver v intbuf; Ok (x, Some (zlen (ent_bytes (EInt v))))).
Proof.
  intros Hv. pose proof (mod256_byte) as Hb.
  assert (forall n, zlen (int_body v) = n -> 0 <= n <= 127 ->
    (x ← deliver v intbuf; Ok (x, Some (zlen (ent_bytes (EInt v))))) =
    (x ← deliver v intbuf; Ok (x, Some (n + 1)))) as Hsz.
  { intros n Hn Hr. by rewrite (zlen_ent_small (EInt v) n). }
  unfold ent_body in *. unfold int_body in *. unfold lpGetWithSize. zconst.
  destruct ((0 <=? v) && (v <=? 127)) eqn:E1.
  { rewrite (Hsz 1) by done. cbn [app]. rewrite rd1_here, bind_Ok. lp_class v. lp_decide.
    rewrite land_127, Z.mod_small by lia. unfold lpGetInteger. rewrite Z.geb_leb.
    zfalse (2 ^ 64 - 1 <=? v). zwrap. done. }
  destruct ((-4096 <=? v) && (v <=? 4095)) eqn:E2.
  { rewrite (Hsz 2) by done. pose proof (wrapU_range 13 v ltac:(lia)) as Hr.
    change (2 ^ 13) with 8192 in Hr. assert (0 <= wrapU 13 v / 256 < 32) by zdiv.
    cbn [app]. rewrite rd1_here, bind_Ok. lp_class (192 + wrapU 13 v / 256). lp_decide. rd1_bytes.
    replace (Z.land (192 + wrapU 13 v / 256) 31) with (wrapU 13 v / 256)
      by (change 31 with (2 ^ 5 - 1); rewrite land_mask by lia; change (2 ^ 5) with 32; zdiv).
    rewrite lor_low by (apply Hb). replace (wrapU 13 v / 256 * 256 + v mod 256) with (wrapU 13 v).
    - by rewrite (lpGetInteger_ok 13 v) by (cbn; lia).
    - unfold wrapU. change (2 ^ 13) with (256 * 32). rewrite Z.rem_mul_r by lia. zdiv. }
  destruct ((-32768 <=? v) && (v <=? 32767)) eqn:E3.
  { rewrite (Hsz 3) by done. cbn [app]. rewrite rd1_here, bind_Ok. lp_class 241. lp_decide. rd1_bytes.
    rewrite <- (Z.shiftl_0_r (v mod 256)), le16_lor by apply Hb.
    change [v mod 256; (v / 256) mod 256] with (le_bytes 2 v). rewrite (le_val_bytes 2).
    by rewrite (lpGetInteger_ok 16 v) by (cbn; lia). }
  destruct ((-8388608 <=? v) && (v <=? 8388607)) eqn:E4.
  { rewrite (Hsz 4) by done. cbn [app]. rewrite rd1_here, bind_Ok. lp_class 242. lp_decide. rd1_bytes.
    rewrite <- (Z.shiftl_0_r (v mod 256)), le24_lor by apply Hb.
    change [v mod 256; (v / 256) mod 256; (v / 256 / 256) mod 256] with (le_bytes 3 v).
    rewrite (le_val_bytes 3). by rewrite (lpGetInteger_ok 24 v) by (cbn; lia). }
  destruct ((-2147483648 <=? v) && (v <=? 2147483647)) eqn:E5.
  { rewrite (Hsz 5) by done. cbn [app]. rewrite rd1_here, bind_Ok. lp_class 243. lp_decide. rd1_bytes.
    rewrite <- (Z.shiftl_0_r (v mod 256)), le32_lor by apply Hb.
    change (le_val _) with (le_val (le_bytes 4 v)).
    rewrite (le_val_bytes 4). by rewrite (lpGetInteger_ok 32 v) by (cbn; lia). }
  rewrite (Hsz 9) by done. cbn [app]. rewrite rd1_here, bind_Ok. lp_class 244. lp_decide. rd1_bytes.
  rewrite <- (Z.shiftl_0_r (v mod 256)), le64_lor by apply Hb.
  change (le_val _) with (le_val (le_bytes 8 v)).
  rewrite (le_val_bytes 8). by rewrite (lpGetInteger_ok 64 v) by (cbn; lia).
Qed.

(** The first byte of an entry is not the terminator. *)
Lemma ent_body_cons e :
  ent_ok e -> zlen (ent_body e) <= UINT32_MAX ->
  exists b r, ent_body e = b :: r /\ 0 <= b < 245.
Proof.
  intros He Hl. destruct e as [v|s]; cbn [ent_body ent_ok] in *.
  - unfold int_body in *. pose proof (wrapU_range 13 v ltac:(lia)) as Hr. change (2 ^ 13) with 8192 in Hr.
    repeat case_match; zprop; eexists _, _; (split; [done|]); try lia; zdiv.
  - unfold str_hdr. pose proof (zlen_nonneg s). repeat case_match; zprop; cbn [app];
      eexists _, _; (split; [done|]); try lia; zdiv.
Qed.

Lemma size_str A s C :
  zlen (ent_body (EStr s)) <= UINT32_MAX ->
  lpCurrentEncodedSizeUnsafe (A ++ ent_body (EStr s) ++ C) (zlen A) = Ok (zlen (ent_body (EStr s))).
Proof.
  intros Hs. pose proof (zlen_nonneg s). unfold ent_body in *. rewrite <- app_assoc.
  unfold lpCurrentEncodedSizeUnsafe, str_hdr in *. revert Hs.
  destruct (Z.ltb_spec (zlen s) 64); [|destruct (Z.ltb_spec (zlen s) 4096)]; intros Hs; cbn [app] in *.
  - rewrite rd1_here, bind_Ok. lp_class (128 + zlen s). lp_decide.
    rewrite str_len6, bind_Ok by lia. by zlens.
  - rewrite rd1_here, bind_Ok. assert (0 <= zlen s / 256 < 16) by zdiv.
    lp_class (224 + zlen s / 256). lp_decide.
    rewrite str_len12, bind_Ok by lia. zlens. f_equal. lia.
  - zlens. rewrite rd1_here, bind_Ok. lp_class 240. lp_decide.
    rewrite str_len32, bind_Ok by lia. zconst. zwrap. zlens. f_equal. lia.
Qed.

Lemma size_int A v C :
  lpCurrentEncodedSizeUnsafe (A ++ int_body v ++ C) (zlen A) = Ok (zlen (int_body v)).
Proof.
  unfold int_body, lpCurrentEncodedSizeUnsafe.
  pose proof (wrapU_range 13 v ltac:(lia)) as Hr. change (2 ^ 13) with 8192 in Hr.
  repeat case_match; zprop; cbn [app]; rewrite rd1_here, bind_Ok.
  - lp_class v. lp_decide. by zlens.
  - assert (0 <= wrapU 13 v / 256 < 32) by zdiv. lp_class (192 + wrapU 13 v / 256). lp_decide. done.
  - lp_class 241. lp_decide. done.
  - lp_class 242. lp_decide. done.
  - lp_class 243. lp_decide. done.
  - lp_class 244. lp_decide. done.
Qed.

Lemma size_ok A e C :
  zlen (ent_body e) <= UINT32_MAX ->
  lpCurrentEncodedSizeUnsafe (A ++ ent_body e ++ C) (zlen A) = Ok (zlen (ent_body e)).
Proof. intros. destruct e; [apply size_int|by apply size_str]. Qed.

(** The bytes that hold the encoding and the length are part of the entry. *)
Lemma sizebytes_ok A e C :
  ent_ok e ->
  exists n, lpCurrentEncodedSizeBytes (A ++ ent_body e ++ C) (zlen A) = Ok n /\
            1 <= n <= zlen (ent_body e).
Proof.
  intros He. unfold lpCurrentEncodedSizeBytes. destruct e as [v|s]; cbn [ent_body].
  - unfold int_body. pose proof (wrapU_range 13 v ltac:(lia)) as Hr. change (2 ^ 13) with 8192 in Hr.
    repeat case_match; zprop; cbn [app]; rewrite rd1_here, bind_Ok; exists 1.
    + lp_class v. lp_decide. done.
    + assert (0 <= wrapU 13 v / 256 < 32) by zdiv. lp_class (192 + wrapU 13 v / 256). lp_decide. done.
    + lp_class 241. lp_decide. done.
    + lp_class 242. lp_decide. done.
    + lp_class 243. lp_decide. done.
    + lp_class 244. lp_decide. done.
  - unfold str_hdr. pose proof (zlen_nonneg s). repeat case_match; zprop; cbn [app]; rewrite rd1_here, bind_Ok.
    + exists 1. lp_class (128 + zlen s). lp_decide. split; [done|]. zlia.
    + exists 2. assert (0 <= zlen s / 256 < 16) by zdiv. lp_class (224 + zlen s / 256). lp_decide.
      split; [done|]. zlia.
    + exists 5. lp_class 240. lp_decide. split; [done|]. zlens. lia.
Qed.

(** ** Backward lengths *)

Lemma lor128 x : 0 <= x < 128 -> Z.lor x 128 = x + 128.
Proof. intros. apply (lor_shiftl x 1 7); lia. Qed.

Lemma cont_byte x : 0 <= x < 128 -> Z.land (x + 128) 127 = x /\ (Z.land (x + 128) 128 =? 0) = false.
Proof.
  intros. split; [rewrite land_127; zdiv|].
  pose proof (all_below 128 (fun x => negb (Z.land (x + 128) 128 =? 0)) eq_refl x ltac:(lia)) as E.
  by apply negb_true_iff in E.
Qed.

Lemma last_byte x : 0 <= x < 128 -> Z.land x 127 = x /\ (Z.land x 128 =? 0) = true.
Proof.
  intros. split; [rewrite land_127; zdiv|].
  apply (all_below 128 (fun x => Z.land x 128 =? 0) eq_refl x). lia.
Qed.

(** The digits of the backward length, in base 128, least significant first. *)
Fixpoint dec128 (ds : list Z) : Z :=
  match ds with [] => 0 | d :: ds => d + 128 * dec128 ds end.

(** Reading digits backwards: all but the last carry the continuation bit. *)
Lemma decode_loop ds d A C fuel val shift :
  Forall (fun x => 0 <= x < 128) ds -> 0 <= d < 128 -> (length ds < fuel)%nat ->
  0 <= shift -> 0 <= val < 2 ^ shift -> shift + 7 * zlen ds <= 28 ->
  lpDecodeBacklen_loop fuel (A ++ d :: rev ((fun x => x + 128) <$> ds) ++ C)
    (zlen A + zlen ds) val shift = Ok (val + dec128 (ds ++ [d]) * 2 ^ shift).
Proof.
  revert C fuel val shift. induction ds as [|x ds IH]; intros C fuel val shift Hds Hd Hf Hs Hv Hb;
    (destruct fuel as [|fuel]; [cbn in Hf; lia|]); cbn [lpDecodeBacklen_loop].
  - change (zlen []) with 0. cbn [rev fmap list_fmap app]. rewrite Z.add_0_r, rd1_here, bind_Ok.
    destruct (last_byte d Hd) as [-> ->]. rewrite lor_shiftl by done. cbn [dec128]. f_equal. lia.
  - apply Forall_cons in Hds as [Hx Hds]. rewrite zlen_cons in *. pose proof (zlen_nonneg ds).
    cbn [fmap list_fmap rev app]. rewrite <- app_assoc. cbn [app].
    replace (A ++ d :: rev _ ++ _) with
      ((A ++ d :: rev ((fun x => x + 128) <$> ds)) ++ (x + 128) :: C) by (by rewrite <- app_assoc).
    replace (zlen A + (1 + zlen ds)) with (zlen (A ++ d :: rev ((fun x => x + 128) <$> ds)))
      by (zlens; lia).
    rewrite rd1_here, bind_Ok. destruct (cont_byte x Hx) as [-> ->]. rewrite Z.gtb_ltb.
    zfalse (28 <? shift + 7). rewrite lor_shiftl by done.
    replace (zlen (A ++ _) - 1) with (zlen A + zlen ds) by (zlens; lia).
    rewrite <- app_assoc. cbn [app].
    assert (2 ^ (shift + 7) = 128 * 2 ^ shift) as Hp by (rewrite Z.pow_add_r by lia; lia).
    rewrite IH; try done; try lia; [|cbn in Hf; lia|].
    + f_equal. cbn [dec128 app]. rewrite Hp. lia.
    + rewrite Hp. split; [nia|]. nia.
Qed.

Lemma decode_digits ds d A C :
  Forall (fun x => 0 <= x < 128) ds -> 0 <= d < 128 -> (length ds <= 4)%nat ->
  lpDecodeBacklen (A ++ (d :: rev ((fun x => x + 128) <$> ds)) ++ C) (zlen A + zlen ds) =
  Ok (dec128 (ds ++ [d])).
Proof.
  intros. unfold lpDecodeBacklen. cbn [app]. rewrite decode_loop; try done; try lia.
  - f_equal. lia.
  - unfold zlen. lia.
Qed.

(** [lpEncodeBacklen] writes these digits. *)
Lemma backlen_digits l : 0 <= l < 2 ^ 35 ->
  exists ds d, Forall (fun x => 0 <= x < 128) ds /\ 0 <= d < 128 /\ (length ds <= 4)%nat /\
    lpEncodeBacklen l = d :: rev ((fun x => x + 128) <$> ds) /\ dec128 (ds ++ [d]) = l.
Proof.
  intros Hl. change (2 ^ 35) with 34359738368 in Hl.
  pose proof (fun x => Z.mod_pos_bound x 128 ltac:(lia)) as Hm.
  unfold lpEncodeBacklen. rewrite !land_127, !lor128 by apply Hm.
  rewrite !Z.shiftr_div_pow2 by lia. rewrite !wrapU8_land, !land_255.
  change (2 ^ 7) with 128. change (2 ^ 14) with 16384. change (2 ^ 21) with 2097152.
  change (2 ^ 28) with 268435456.
  destruct (Z.leb_spec l 127); [|destruct (Z.ltb_spec l 16383); [|destruct (Z.ltb_spec l 2097151);
    [|destruct (Z.ltb_spec l 268435455)]]].
  - exists [], l. split_and!; try done; try lia; cbn; [lia|f_equal; zdiv|lia].
  - exists [l mod 128], (l / 128). rewrite (Z.mod_small (l / 128) 256) by zdiv.
    split_and!; try done; try zdiv; [forall_list; apply Hm|cbn; lia|cbn [dec128 app]; zdiv].
  - exists [l mod 128; (l / 128) mod 128], (l / 16384). rewrite (Z.mod_small (l / 16384) 256) by zdiv.
    split_and!; try done; try zdiv; [forall_list; apply Hm|cbn; lia|cbn [dec128 app]; zdiv].
  - exists [l mod 128; (l / 128) mod 128; (l / 16384) mod 128], (l / 2097152).
    rewrite (Z.mod_small (l / 2097152) 256) by zdiv.
    split_and!; try done; try zdiv; [forall_list; apply Hm|cbn; lia|cbn [dec128 app]; zdiv].
  - exists [l mod 128; (l / 128) mod 128; (l / 16384) mod 128; (l / 2097152) mod 128], (l / 268435456).
    rewrite (Z.mod_small (l / 268435456) 256) by zdiv.
    split_and!; try done; try zdiv; [forall_list; apply Hm|cbn [dec128 app]; zdiv].
Qed.

(** Round trip: the backward length is read from its last byte. *)
Lemma backlen_roundtrip A l C :
  0 <= l < 2 ^ 35 ->
  lpDecodeBacklen (A ++ lpEncodeBacklen l ++ C) (zlen A + zlen (lpEncodeBacklen l) - 1) = Ok l.
Proof.
  intros Hl. destruct (backlen_digits l Hl) as (ds & d & Hds & Hd & Hn & -> & Hdec).
  replace (zlen A + zlen (d :: rev _) - 1) with (zlen A + zlen ds) by (zlens; lia).
  rewrite decode_digits by done. by rewrite Hdec.
Qed.

Lemma backlen_size l : 1 <= zlen (lpEncodeBacklen l) <= 5.
Proof. unfold lpEncodeBacklen. repeat case_match; zlens; lia. Qed.

(** ** Encoding a string *)

Lemma hi_str b : 0 <= b < 16 -> Z.lor b 224 = 224 + b.
Proof. intros. apply Z.eqb_eq, (all_below 16 (fun b => Z.lor b 224 =? 224 + b) eq_refl). lia. Qed.

Lemma low_str b : 0 <= b < 64 -> Z.lor b 128 = 128 + b.
Proof. intros. apply Z.eqb_eq, (all_below 64 (fun b => Z.lor b 128 =? 128 + b) eq_refl). lia. Qed.

(** The writes of a header and of a string after it. *)
Lemma wr_hdr_str A hole C hdr s off :
  zlen hole = zlen hdr + zlen s -> off = zlen A + zlen hdr ->
  (x ← wr (A ++ hole ++ C) (zlen A) hdr; bs ← rd s 0 (zlen s); wr x off bs) =
  Ok (A ++ (hdr ++ s) ++ C).
Proof.
  intros Hh ->. pose proof (zlen_nonneg hdr). pose proof (zlen_nonneg s).
  destruct (cut_at hole (zlen hdr)) as (a & b & -> & Ha); [lia|]. rewrite zlen_app in Hh.
  rewrite <- app_assoc, wr_app, bind_Ok by lia.
  pose proof (rd_app_head s [] _ eq_refl) as E. rewrite app_nil_r in E. rewrite E, bind_Ok.
  rewrite app_assoc, (wr_app (A ++ hdr) b) by (zlens; lia). by rewrite <- !app_assoc.
Qed.

Lemma lpEncodeString_ok A hole C s :
  zlen s <= UINT32_MAX -> zlen hole = zlen (ent_body (EStr s)) ->
  lpEncodeString (A ++ hole ++ C) (zlen A) s (zlen s) = Ok (A ++ ent_body (EStr s) ++ C).
Proof.
  intros Hs Hh. pose proof (zlen_nonneg s). cbn [ent_body] in *. rewrite zlen_app in Hh.
  unfold lpEncodeString, str_hdr in *. zconst.
  destruct (Z.ltb_spec (zlen s) 64); [|destruct (Z.ltb_spec (zlen s) 4096)].
  - rewrite low_str by lia. zwrap. by apply wr_hdr_str.
  - rewrite Z.shiftr_div_pow2 by lia. change (2 ^ 8) with 256.
    assert (0 <= zlen s / 256 < 16) by zdiv. rewrite hi_str by lia. zwrap.
    rewrite land_255, wr_seq by done. by apply wr_hdr_str.
  - rewrite le_bytes4_land in *. rewrite !wr_seq by (zlens; lia). by apply wr_hdr_str.
Qed.

(** [lpEncodeGetType] chooses the entry that stands for the string, and its
    length. *)
Lemma lpEncodeGetType_ok s :
  Forall is_byte s -> zlen s <= UINT32_MAX ->
  exists e, ent_of_str s e /\ ent_ok e /\
    lpEncodeGetType s (zlen s) =
    Ok (match e with EInt v => LP_ENCODING_INT (int_body v) | EStr _ => LP_ENCODING_STRING end,
        zlen (ent_body e)).
Proof.
  intros Hb Hs. unfold lpEncodeGetType. rewrite lpStringToInt64_string2ll.
  destruct (string2ll_ok s) as (r & -> & Hr). rewrite bind_Ok. destruct r as [v|].
  - destruct (proj1 (Hr v) eq_refl) as [Hv Hrepr]. exists (EInt v). split_and!; [|done|].
    + left. by exists v.
    + by rewrite int_body_ok.
  - exists (EStr s). split_and!; [|done|].
    + right. split; [|done]. intros v Hv Hrepr. by pose proof (proj2 (Hr v) (conj Hv Hrepr)).
    + cbn [ent_body]. unfold str_hdr. repeat case_match; f_equal; f_equal; zlens; lia.
Qed.

Lemma ent_of_str_str s e : ent_of_str s e -> ent_str e = s.
Proof. by intros [(v & _ & -> & ->)|[_ ->]]. Qed.

(** A string is stored in one way. *)
Lemma ent_of_str_inj s e e' : ent_of_str s e -> ent_of_str s e' -> e = e'.
Proof.
  destruct (string2ll_ok s) as (r & _ & Hr).
  intros [(v & Hv & Es & ->)|[Hn ->]] [(v' & Hv' & Es' & ->)|[Hn' ->]]; try done.
  - pose proof (proj2 (Hr v) (conj Hv Es)). pose proof (proj2 (Hr v') (conj Hv' Es')). congruence.
  - by destruct (Hn' v Hv).
  - by destruct (Hn v' Hv').
Qed.

(** ** The header *)

Lemma get_total total num rest :
  0 <= total <= UINT32_MAX ->
  lpGetTotalBytes (le_bytes 4 total ++ le_bytes 2 num ++ rest) = Ok total.
Proof.
  intros Ht. unfold lpGetTotalBytes. cbn [le_bytes app].
  change (rd1 (?a :: ?l) 0) with (Ok a). change (rd1 (?a :: ?b :: ?l) 1) with (Ok b).
  change (rd1 (?a :: ?b :: ?c :: ?l) 2) with (Ok c).
  change (rd1 (?a :: ?b :: ?c :: ?d :: ?l) 3) with (Ok d).
  rewrite !bind_Ok, le32_lor by apply mod256_byte. f_equal. apply (le_val_le_bytes 4).
  change (2 ^ (8 * Z.of_nat 4)) with (2 ^ 32). zconst. lia.
Qed.

Lemma get_num total num rest :
  0 <= num <= 65535 ->
  lpGetNumElements (le_bytes 4 total ++ le_bytes 2 num ++ rest) = Ok num.
Proof.
  intros Ht. unfold lpGetNumElements. cbn [le_bytes app].
  change (rd1 (_ :: _ :: _ :: _ :: ?a :: ?l) 4) with (Ok a).
  change (rd1 (_ :: _ :: _ :: _ :: _ :: ?b :: ?l) 5) with (Ok b).
  rewrite !bind_Ok, le16_lor by apply mod256_byte. f_equal. apply (le_val_le_bytes 2).
  change (2 ^ (8 * Z.of_nat 2)) with 65536. lia.
Qed.

Lemma set_total old v rest :
  zlen old = 4 -> lpSetTotalBytes (old ++ rest) v = Ok (le_bytes 4 v ++ rest).
Proof.
  intros Ho. rewrite le_bytes4_land. unfold lpSetTotalBytes.
  rewrite !wr_seq, wr_seq_last by done.
  by apply (wr_app [] old).
Qed.

Lemma set_num total old v rest :
  zlen total = 4 -> zlen old = 2 ->
  lpSetNumElements (total ++ old ++ rest) v = Ok (total ++ le_bytes 2 v ++ rest).
Proof.
  intros Ht Ho. rewrite le_bytes2_land. unfold lpSetNumElements.
  rewrite wr_seq_last by done.
  by rewrite wr_app.
Qed.
