(* ===== verification/ListpackNav.v ===== *)
(** Reading listpacks: traversal, search and validation ([listpack.c]).

    A pointer into a listpack is its offset from the start of the buffer, and
    [None] is [NULL].  The loops take as fuel the size of the buffer, which no
    traversal can exceed because every entry takes at least one byte. *)
From S2P Require Import Prelude Util ListpackEnc.
Open Scope Z_scope.

(** * Definitions *)

Definition LISTPACK_MAX_SAFETY_SIZE : Z := Z.shiftl 1 30.

Definition lpSafeToAdd (lp : option (list Z)) (add : Z) : res bool :=
  len ← match lp with Some lp => lpGetTotalBytes lp | None => Ok 0 end;
  if wrapU 64 (len + add) >? LISTPACK_MAX_SAFETY_SIZE then Ok false else Ok true.

Definition lpBytes (lp : list Z) : res Z := lpGetTotalBytes lp.

Definition ASSERT_INTEGRITY (lp : list Z) (p : Z) : res unit :=
  total ← lpGetTotalBytes lp;
  assert! (p >=? LP_HDR_SIZE) && (p <? total); Ok tt.

Definition ASSERT_INTEGRITY_LEN (lp : list Z) (p len : Z) : res unit :=
  total ← lpGetTotalBytes lp;
  assert! (p >=? LP_HDR_SIZE) && (p + len <? total); Ok tt.

Definition OUT_OF_RANGE (lpbytes p : Z) : bool :=
  (p <? LP_HDR_SIZE) || (p >? lpbytes - 1).

(** The result and the new value of [*pp]. *)
Definition lpValidateNext (lp : list Z) (pp : option Z) (lpbytes : Z) : res (bool * option Z) :=
  match pp with
  | None => Ok (false, pp)
  | Some p =>
      if OUT_OF_RANGE lpbytes p then Ok (false, pp)
      else
        b ← rd1 lp p;
        if b =? LP_EOF then Ok (true, None)
        else
          lenbytes ← lpCurrentEncodedSizeBytes lp p;
          if lenbytes =? 0 then Ok (false, pp)
          else if OUT_OF_RANGE lpbytes (p + lenbytes) then Ok (false, pp)
          else
            entrylen ← lpCurrentEncodedSizeUnsafe lp p;
            let encodedBacklen := zlen (lpEncodeBacklen entrylen) in
            let entrylen := entrylen + encodedBacklen in
            if OUT_OF_RANGE lpbytes (p + entrylen) then Ok (false, pp)
            else
              let p := p + entrylen in
              prevlen ← lpDecodeBacklen lp (p - 1);
              if negb (wrapU 64 (prevlen + encodedBacklen) =? entrylen) then Ok (false, pp)
              else Ok (true, Some p)
  end.

Definition lpAssertValidEntry (lp : list Z) (lpbytes p : Z) : res unit :=
  '(valid, _) ← lpValidateNext lp (Some p) lpbytes;
  assert! (valid : bool); Ok tt.

Definition lpNext (lp : list Z) (p : Z) : res (option Z) :=
  p ← lpSkip lp p;
  b ← rd1 lp p;
  if b =? LP_EOF then Ok None
  else
    lpbytes ← lpBytes lp;
    _ ← lpAssertValidEntry lp lpbytes p;
    Ok (Some p).

Definition lpPrev (lp : list Z) (p : Z) : res (option Z) :=
  if p =? LP_HDR_SIZE then Ok None
  else
    let p := p - 1 in
    prevlen ← lpDecodeBacklen lp p;
    let prevlen := wrapU 64 (prevlen + zlen (lpEncodeBacklen prevlen)) in
    let p := p - (prevlen - 1) in
    lpbytes ← lpBytes lp;
    _ ← lpAssertValidEntry lp lpbytes p;
    Ok (Some p).

Definition lpFirst (lp : list Z) : res (option Z) :=
  let p := LP_HDR_SIZE in
  b ← rd1 lp p;
  if b =? LP_EOF then Ok None
  else
    lpbytes ← lpBytes lp;
    _ ← lpAssertValidEntry lp lpbytes p;
    Ok (Some p).

Definition lpLast (lp : list Z) : res (option Z) :=
  total ← lpGetTotalBytes lp;
  let p := total - 1 in
  lpPrev lp p.

Fixpoint lpLength_loop (fuel : nat) (lp : list Z) (p : option Z) (count : Z) : res Z :=
  match p with
  | None => Ok count
  | Some p =>
      match fuel with
      | O => OutOfFuel
      | S fuel =>
          let count := wrapU 32 (count + 1) in
          p ← lpNext lp p;
          lpLength_loop fuel lp p count
      end
  end.

(** The count, and the listpack with its header updated. *)
Definition lpLength (lp : list Z) : res (list Z * Z) :=
  numele ← lpGetNumElements lp;
  if negb (numele =? LP_HDR_NUMELE_UNKNOWN) then Ok (lp, numele)
  else
    p ← lpFirst lp;
    count ← lpLength_loop (length lp) lp p 0;
    lp ← (if count <? LP_HDR_NUMELE_UNKNOWN then lpSetNumElements lp count else Ok lp);
    Ok (lp, count).

Definition lpGet (lp : list Z) (p : Z) (intbuf : option (list Z)) : res lpval :=
  '(v, _) ← lpGetWithSize lp p intbuf; Ok v.

(** [slen] is an [unsigned int]. *)
Definition lpGetValue (lp : list Z) (p : Z) : res lpval :=
  vstr ← lpGet lp p None;
  match vstr with
  | InListpack off ele_len => Ok (InListpack off (wrapU 32 ele_len))
  | v => Ok v
  end.

(** [memcmp(value, s, n) == 0]. *)
Definition mem_eq (lp : list Z) (value : Z) (s : list Z) (n : Z) : res bool :=
  a ← rd lp value n; b ← rd s 0 n; Ok (bool_decide (a = b)).

(** [vencoding] and [vll] of [lpFind]: 0 is not yet known, [UCHAR_MAX] is not an
    integer. *)
Inductive vencoding_t :=
| VUnknown
| VNotInt
| VInt (vll : Z).

Fixpoint lpFind_loop (fuel : nat) (lp : list Z) (p : Z) (s : list Z) (slen skip : Z)
    (skipcnt : Z) (venc : vencoding_t) (entry_size lp_bytes : Z) : res (option Z) :=
  match fuel with
  | O => OutOfFuel
  | S fuel =>
      let next p skipcnt venc entry_size :=
        _ ← (if p + 8 >=? lp_bytes then lpAssertValidEntry lp lp_bytes p
             else assert! (p >=? LP_HDR_SIZE) && (p <? lp_bytes); Ok tt);
        b ← rd1 lp p;
        if b =? LP_EOF then Ok None
        else lpFind_loop fuel lp p s slen skip skipcnt venc entry_size lp_bytes in
      if skipcnt =? 0 then
        '(value, sz) ← lpGetWithSize lp p None;
        let entry_size := match sz with Some n => n | None => entry_size end in
        match value with
        | InListpack off ll =>
            assert! (p >=? LP_HDR_SIZE) && (p + entry_size <? lp_bytes);
            eq ← (if slen =? ll then mem_eq lp off s slen else Ok false);
            if eq : bool then Ok (Some p)
            else next (p + entry_size) (wrapS 32 skip) venc entry_size
        | IntValue ll | InBuffer _ ll =>
            venc ← match venc with
                   | VUnknown =>
                       if (slen >=? 32) || (slen =? 0) then Ok VNotInt
                       else
                         r ← lpStringToInt64 s slen;
                         Ok (match r with Some vll => VInt vll | None => VNotInt end)
                   | _ => Ok venc
                   end;
            if match venc with VInt vll => ll =? vll | _ => false end then Ok (Some p)
            else next (p + entry_size) (wrapS 32 skip) venc entry_size
        end
      else
        skipcnt ← sint 32 (skipcnt - 1);
        p ← lpSkip lp p;
        next p skipcnt venc entry_size
  end.

Definition lpFind (lp : list Z) (p : Z) (s : list Z) (slen skip : Z) : res (option Z) :=
  lp_bytes ← lpBytes lp;
  lpFind_loop (length lp) lp p s slen skip 0 VUnknown 123456789 (wrapU 32 lp_bytes).

Fixpoint lpSeek_forward (fuel : nat) (lp : list Z) (index : Z) (ele : option Z) : res (option Z) :=
  match ele with
  | Some p =>
      if index >? 0 then
        match fuel with
        | O => OutOfFuel
        | S fuel =>
            ele ← lpNext lp p;
            lpSeek_forward fuel lp (index - 1) ele
        end
      else Ok ele
  | None => Ok None
  end.

Fixpoint lpSeek_backward (fuel : nat) (lp : list Z) (index : Z) (ele : option Z) : res (option Z) :=
  match ele with
  | Some p =>
      if index <? -1 then
        match fuel with
        | O => OutOfFuel
        | S fuel =>
            ele ← lpPrev lp p;
            lpSeek_backward fuel lp (index + 1) ele
        end
      else Ok ele
  | None => Ok None
  end.

Definition lpSeek (lp : list Z) (index : Z) : res (option Z) :=
  let scan (forward : bool) index :=
    if forward then
      ele ← lpFirst lp; lpSeek_forward (length lp) lp index ele
    else
      ele ← lpLast lp; lpSeek_backward (length lp) lp index ele in
  numele ← lpGetNumElements lp;
  if negb (numele =? LP_HDR_NUMELE_UNKNOWN) then
    let index := if index <? 0 then numele + index else index in
    if index <? 0 then Ok None
    else if index >=? numele then Ok None
    else if index >? Z.quot numele 2 then scan false (index - numele)
    else scan true index
  else if index <? 0 then scan false index
  else scan true index.

Definition lpValidateFirst (lp : list Z) : res (option Z) :=
  let p := LP_HDR_SIZE in
  b ← rd1 lp p;
  if b =? LP_EOF then Ok None else Ok (Some p).

(** The loop over the entries: [inr (p, count)] when it ends, [inl r] for a
    [return r] inside it.  The callback gets the entry, the header's count and
    its own data. *)
Fixpoint lpValidate_loop {U} (fuel : nat) (lp : list Z) (bytes numele : Z)
    (entry_cb : option (list Z -> Z -> Z -> U -> bool * U)) (cb_userdata : U)
    (p : option Z) (count : Z) : res (bool + option Z * Z) :=
  match fuel with
  | O => OutOfFuel
  | S fuel =>
      match p with
      | None => Ok (inr (None, count))
      | Some prev =>
          b ← rd1 lp prev;
          if b =? LP_EOF then Ok (inr (p, count))
          else
            '(valid, p) ← lpValidateNext lp p bytes;
            if negb valid then Ok (inl false)
            else
              let '(accepted, cb_userdata) :=
                match entry_cb with
                | Some cb => cb lp prev numele cb_userdata
                | None => (true, cb_userdata)
                end in
              if negb accepted then Ok (inl false)
              else lpValidate_loop fuel lp bytes numele entry_cb cb_userdata p (wrapU 32 (count + 1))
      end
  end.

Definition lpValidateIntegrity {U} (lp : list Z) (size : Z) (deep : bool)
    (entry_cb : option (list Z -> Z -> Z -> U -> bool * U)) (cb_userdata : U) : res bool :=
  if size <? LP_HDR_SIZE + 1 then Ok false
  else
    bytes ← lpGetTotalBytes lp;
    if negb (bytes =? size) then Ok false
    else
      eof ← rd1 lp (size - 1);
      if negb (eof =? LP_EOF) then Ok false
      else if negb deep then Ok true
      else
        numele ← lpGetNumElements lp;
        r ← lpValidate_loop (length lp) lp bytes numele entry_cb cb_userdata (Some LP_HDR_SIZE) 0;
        match r with
        | inl ret => Ok ret
        | inr (p, count) =>
            if negb (bool_decide (p = Some (size - 1))) then Ok false
            else if negb (numele =? LP_HDR_NUMELE_UNKNOWN) && negb (numele =? count) then Ok false
            else Ok true
        end.

Definition lpCompare (lp : list Z) (p : Z) (s : list Z) (slen : Z) : res bool :=
  b ← rd1 lp p;
  if b =? LP_EOF then Ok false
  else
    value ← lpGet lp p None;
    match value with
    | InListpack off sz => if slen =? sz then mem_eq lp off s slen else Ok false
    | IntValue sz | InBuffer _ sz =>
        r ← lpStringToInt64 s slen;
        match r with
        | Some sval => Ok (sz =? sval)
        | None => Ok false
        end
    end.

(** [rand] is what [rand()] returned; the value is stored when [val] is not
    [NULL]. *)
Definition lpRandomPair (lp : list Z) (total_count rand : Z) (val : bool)
    : res (lpval * option lpval) :=
  assert! negb (total_count =? 0);
  let r := wrapS 32 (wrapU 64 (Z.rem rand total_count * 2)) in
  p ← lpSeek lp r;
  match p with
  | None => Panic
  | Some p =>
      key ← lpGetValue lp p;
      if negb val then Ok (key, None)
      else
        p ← lpNext lp p;
        match p with
        | None => Panic
        | Some p => v ← lpGetValue lp p; Ok (key, Some v)
        end
  end.

(** * Specification *)

(** A well-formed entry at [p] that ends where [p'] begins: its first byte is
    not the terminator, its encoded size fits, and the backward length before
    [p'] is that size. *)
Definition entry_at (lp : list Z) (total p p' : Z) : Prop :=
  exists b n k,
    rd1 lp p = Ok b /\ b <> LP_EOF /\ LP_HDR_SIZE <= p /\
    lpCurrentEncodedSizeBytes lp p = Ok k /\ 1 <= k <= n /\
    lpCurrentEncodedSizeUnsafe lp p = Ok n /\ n <= UINT32_MAX /\
    p' = p + n + zlen (lpEncodeBacklen n) /\ p' <= total - 1 /\
    lpDecodeBacklen lp (p' - 1) = Ok n.

(** Adjacent entries from [p] to [q], at the positions [ps]. *)
Fixpoint chain (lp : list Z) (total p : Z) (ps : list Z) (q : Z) : Prop :=
  match ps with
  | [] => p = q
  | x :: ps => x = p /\ exists p', entry_at lp total p p' /\ chain lp total p' ps q
  end.

(** A listpack that can be walked: entries at [ps] between the header and the
    terminator, and a count that is right or unknown. *)
Record walkable (lp : list Z) (total num : Z) (ps : list Z) : Prop := {
  walk_total : lpGetTotalBytes lp = Ok total;
  walk_bytes : total <= UINT32_MAX;
  walk_fits : total <= zlen lp;
  walk_num : lpGetNumElements lp = Ok num;
  walk_count : num = zlen ps \/ num = LP_HDR_NUMELE_UNKNOWN;
  walk_chain : chain lp total LP_HDR_SIZE ps (total - 1);
  walk_eof : rd1 lp (total - 1) = Ok LP_EOF;
}.

(** The entry an index designates; negative indexes count from the tail. *)
Definition at_index {A} (l : list A) (index : Z) : option A :=
  let i := if index <? 0 then zlen l + index else index in
  if i <? 0 then None else l !! Z.to_nat i.

(** * Lemmas *)

Section Walk.
Context (lp : list Z) (total : Z).

Lemma entry_lt p p' : entry_at lp total p p' -> LP_HDR_SIZE <= p /\ p + 2 <= p' /\ p' <= total - 1.
Proof.
  intros (b & n & k & _ & _ & Hp & _ & Hk & _ & _ & -> & Hq & _).
  pose proof (backlen_size n). lia.
Qed.

Lemma validate_entry p p' :
  entry_at lp total p p' -> lpValidateNext lp (Some p) total = Ok (true, Some p').
Proof.
  intros (b & n & k & Hb & Hne & Hp & Hk & Hkn & Hn & Hmax & -> & Hq & Hd).
  pose proof (backlen_size n). unfold lpValidateNext, OUT_OF_RANGE. rewrite !Z.gtb_ltb, Hb, bind_Ok.
  zfalse ((p <? LP_HDR_SIZE) || (total - 1 <? p)). zfalse (b =? LP_EOF).
  rewrite Hk, bind_Ok. zfalse (k =? 0). rewrite Z.gtb_ltb.
  zfalse ((p + k <? LP_HDR_SIZE) || (total - 1 <? p + k)). rewrite Hn, bind_Ok. cbv zeta.
  rewrite Z.gtb_ltb, !Z.add_assoc.
  zfalse ((p + n + zlen (lpEncodeBacklen n) <? LP_HDR_SIZE) ||
          (total - 1 <? p + n + zlen (lpEncodeBacklen n))).
  rewrite Hd, bind_Ok. zconst. zwrap. by rewrite Z.eqb_refl.
Qed.

Lemma validate_eof p :
  rd1 lp p = Ok LP_EOF -> LP_HDR_SIZE <= p <= total - 1 ->
  lpValidateNext lp (Some p) total = Ok (true, None).
Proof.
  intros Hb Hp. unfold lpValidateNext, OUT_OF_RANGE. rewrite Z.gtb_ltb.
  zfalse ((p <? LP_HDR_SIZE) || (total - 1 <? p)). by rewrite Hb, bind_Ok.
Qed.

Lemma assert_entry p p' : entry_at lp total p p' -> lpAssertValidEntry lp total p = Ok tt.
Proof. intros H. unfold lpAssertValidEntry. by rewrite (validate_entry _ _ H). Qed.

Lemma skip_entry p p' : entry_at lp total p p' -> lpSkip lp p = Ok p'.
Proof.
  intros (b & n & k & _ & _ & _ & _ & _ & Hn & _ & -> & _). unfold lpSkip.
  rewrite Hn, bind_Ok. f_equal. lia.
Qed.

Lemma chain_le p ps q : chain lp total p ps q -> p + 2 * zlen ps <= q.
Proof.
  revert p. induction ps as [|x ps IH]; intros p; cbn [chain].
  - intros ->. change (zlen []) with 0. lia.
  - intros (-> & p' & He%entry_lt & Hc%IH). rewrite zlen_cons. lia.
Qed.

Lemma chain_app p ps1 ps2 q :
  chain lp total p (ps1 ++ ps2) q <-> exists m, chain lp total p ps1 m /\ chain lp total m ps2 q.
Proof.
  revert p. induction ps1 as [|x ps1 IH]; intros p; cbn [chain app]; [naive_solver|].
  setoid_rewrite IH. naive_solver.
Qed.

Lemma chain_snoc p ps x q : chain lp total p (ps ++ [x]) q -> entry_at lp total x q.
Proof. rewrite chain_app. cbn [chain]. intros (m & _ & -> & p' & He & ->). done. Qed.

Lemma chain_lookup p ps q i x :
  chain lp total p ps q -> ps !! i = Some x -> entry_at lp total x (default q (ps !! S i)).
Proof.
  revert p i. induction ps as [|y ps IH]; intros p i; [done|].
  cbn [chain]. intros (-> & p' & He & Hc) Hi. destruct i as [|i]; cbn in Hi; simplify_eq; cbn.
  - destruct ps as [|z ps]; cbn in *; [by subst|]. by destruct Hc as [-> _].
  - by apply (IH p').
Qed.

Lemma chain_head p ps q i : chain lp total p ps q -> ps !! i = Some p -> i = O.
Proof.
  intros Hc Hi. pose proof (chain_le _ _ _ Hc) as _.
  assert (ps = take i ps ++ drop i ps) as E by by rewrite take_drop. rewrite E in Hc.
  apply chain_app in Hc as (m & H1%chain_le & H2). rewrite (drop_S _ _ _ Hi) in H2.
  destruct H2 as [-> _]. apply lookup_lt_Some in Hi. unfold zlen in H1.
  rewrite length_take in H1. lia.
Qed.

(** Where the entry at [p] begins depends on [p] only. *)
Lemma prev_entry p p' :
  lpBytes lp = Ok total -> entry_at lp total p p' -> lpPrev lp p' = Ok (Some p).
Proof.
  intros Ht He. pose proof (entry_lt _ _ He). pose proof (assert_entry _ _ He) as Ha.
  destruct He as (b & n & k & _ & _ & Hp & _ & Hk & Hn & Hmax & -> & Hq & Hd).
  pose proof (backlen_size n). unfold lpPrev. zfalse (p + n + zlen (lpEncodeBacklen n) =? LP_HDR_SIZE).
  cbv zeta. rewrite Hd, bind_Ok. zconst. zwrap. rewrite Ht, bind_Ok.
  replace (_ - _) with p by lia. by rewrite Ha.
Qed.

End Walk.

Section Walkable.
Context (lp : list Z) (total num : Z) (ps : list Z) (Hw : walkable lp total num ps).

(** The entry or the terminator at the next position. *)
Lemma at_next i : 
  match ps !! i with
  | Some p => exists p', entry_at lp total p p'
  | None => True
  end.
Proof using Hw.
  destruct (ps !! i) as [p|] eqn:E; [|done].
  eexists. by eapply chain_lookup, E; apply Hw.
Qed.

(** Reading the byte at the start of an entry or at the end. *)
Lemma land_on i :
  (i <= length ps)%nat ->
  let p := default (total - 1) (ps !! i) in
  (b ← rd1 lp p;
   if b =? LP_EOF then Ok None
   else lpbytes ← lpBytes lp; _ ← lpAssertValidEntry lp lpbytes p; Ok (Some p)) = Ok (ps !! i).
Proof using Hw.
  intros Hi p. subst p. pose proof (at_next i) as Hn. destruct (ps !! i) as [p|]; cbn [default from_option id].
  - destruct Hn as [p' He]. pose proof (assert_entry _ _ _ _ He) as Ha.
    destruct He as (b & n & k & Hb & Hne & _). rewrite Hb, bind_Ok. zfalse (b =? LP_EOF).
    unfold lpBytes. by rewrite (walk_total _ _ _ _ Hw), bind_Ok, Ha.
  - by rewrite (walk_eof _ _ _ _ Hw).
Qed.

Lemma head_pos : LP_HDR_SIZE = default (total - 1) (ps !! 0%nat).
Proof using Hw.
  pose proof (walk_chain _ _ _ _ Hw) as Hc. destruct ps as [|p ps']; cbn in *; [done|].
  by destruct Hc.
Qed.

Lemma first_ok : lpFirst lp = Ok (ps !! 0%nat).
Proof using Hw. unfold lpFirst. cbv zeta. rewrite head_pos. apply land_on. lia. Qed.

Lemma next_ok i p : ps !! i = Some p -> lpNext lp p = Ok (ps !! S i).
Proof using Hw.
  intros Hi. unfold lpNext.
  rewrite (skip_entry lp total p (default (total - 1) (ps !! S i))), bind_Ok
    by (eapply chain_lookup, Hi; apply Hw).
  apply land_on. apply lookup_lt_Some in Hi. lia.
Qed.

(** Backwards from the entry of index [i] or from the end. *)
Lemma prev_ok i :
  (i <= length ps)%nat ->
  lpPrev lp (default (total - 1) (ps !! i)) = Ok (match i with O => None | S j => ps !! j end).
Proof using Hw.
  intros Hi. destruct i as [|j].
  - rewrite <- head_pos. done.
  - destruct (lookup_lt_is_Some_2 ps j ltac:(lia)) as [p Hp]. rewrite Hp.
    apply (prev_entry lp total); [apply Hw|]. eapply chain_lookup, Hp; apply Hw.
Qed.

Lemma last_ok : lpLast lp = Ok (last ps).
Proof using Hw.
  unfold lpLast. rewrite (walk_total _ _ _ _ Hw), bind_Ok. cbv zeta.
  pose proof (prev_ok (length ps) (le_n _)) as E. rewrite lookup_ge_None_2 in E by lia.
  cbn [default from_option id] in E. rewrite E, last_lookup. by destruct ps.
Qed.

Lemma walk_len : 7 + 2 * zlen ps <= total.
Proof using Hw. pose proof (chain_le _ _ _ _ _ (walk_chain _ _ _ _ Hw)). unfold LP_HDR_SIZE in *. lia. Qed.

Lemma length_loop i fuel count :
  (length ps - i <= fuel)%nat -> 0 <= count -> count + Z.of_nat (length ps - i) <= UINT32_MAX ->
  lpLength_loop fuel lp (ps !! i) count = Ok (count + Z.of_nat (length ps - i)).
Proof using Hw.
  revert i count. induction fuel as [|fuel IH]; intros i count Hf Hc Hm;
    destruct (ps !! i) as [p|] eqn:E.
  1, 3: pose proof (lookup_lt_Some _ _ _ E) as Hlt.
  - lia.
  - cbn [lpLength_loop]. rewrite (next_ok i p E), bind_Ok. zconst. unfold zlen in *. zwrap.
    destruct (decide (S i = length ps)) as [Hl|Hl].
    + rewrite lookup_ge_None_2 by lia. destruct fuel; cbn; f_equal; lia.
    + rewrite IH by lia. f_equal. lia.
  - apply lookup_ge_None in E. cbn. f_equal. lia.
  - apply lookup_ge_None in E. cbn. f_equal. lia.
Qed.

(** The count, and the header it leaves. *)
Lemma length_ok :
  exists lp', lpLength lp = Ok (lp', zlen ps) /\
    (lp' = lp \/ num = LP_HDR_NUMELE_UNKNOWN /\ zlen ps < LP_HDR_NUMELE_UNKNOWN /\
                 lpSetNumElements lp (zlen ps) = Ok lp').
Proof using Hw.
  unfold lpLength. rewrite (walk_num _ _ _ _ Hw), bind_Ok.
  destruct (Z.eqb_spec num LP_HDR_NUMELE_UNKNOWN) as [Hu|Hu]; cbn [negb].
  - rewrite first_ok, bind_Ok. pose proof walk_len. pose proof (walk_bytes _ _ _ _ Hw).
    pose proof (walk_fits _ _ _ _ Hw). pose proof (zlen_nonneg ps).
    rewrite length_loop by (unfold zlen in *; lia). rewrite bind_Ok, Nat.sub_0_r, Z.add_0_l.
    fold (zlen ps). destruct (Z.ltb_spec (zlen ps) LP_HDR_NUMELE_UNKNOWN); [|by eauto].
    destruct (wr_ok lp 4 [Z.land (zlen ps) 255]) as [lp1 E1]; [unfold zlen in *; cbn; lia..|].
    pose proof (wr_zlen _ _ _ _ E1).
    destruct (wr_ok lp1 5 [Z.land (Z.shiftr (zlen ps) 8) 255]) as [lp2 E2]; [unfold zlen in *; cbn; lia..|].
    assert (lpSetNumElements lp (zlen ps) = Ok lp2) as E.
    { unfold lpSetNumElements. by rewrite E1, bind_Ok. }
    rewrite E. exists lp2. split; [done|]. right. done.
  - exists lp. split; [|by left]. destruct (walk_count _ _ _ _ Hw) as [->|]; done.
Qed.

Lemma forward_ok i index fuel :
  0 <= index -> (length ps - i <= fuel)%nat ->
  lpSeek_forward fuel lp index (ps !! i) = Ok (ps !! (i + Z.to_nat index)%nat).
Proof using Hw.
  revert i index. induction fuel as [|fuel IH]; intros i index Hx Hf;
    destruct (ps !! i) as [p|] eqn:E; cbn [lpSeek_forward]; try rewrite Z.gtb_ltb.
  - apply lookup_lt_Some in E. lia.
  - apply lookup_ge_None in E. by rewrite lookup_ge_None_2 by lia.
  - destruct (Z.ltb_spec 0 index).
    + rewrite (next_ok i p E), bind_Ok. apply lookup_lt_Some in E as Hlt. rewrite IH by lia.
      do 2 f_equal. lia.
    + replace index with 0 by lia. by rewrite Nat.add_0_r, E.
  - apply lookup_ge_None in E. by rewrite lookup_ge_None_2 by lia.
Qed.

Lemma backward_ok i index fuel :
  index < 0 -> (i < length ps)%nat -> (i < fuel)%nat ->
  lpSeek_backward fuel lp index (ps !! i) =
  Ok (if Z.of_nat i + 1 + index <? 0 then None else ps !! Z.to_nat (Z.of_nat i + 1 + index)).
Proof using Hw.
  revert i index. induction fuel as [|fuel IH]; intros i index Hx Hi Hf; [lia|].
  destruct (lookup_lt_is_Some_2 ps i Hi) as [p Hp]. rewrite Hp. cbn [lpSeek_backward].
  destruct (Z.ltb_spec index (-1)).
  - pose proof (prev_ok i ltac:(lia)) as Hv. rewrite Hp in Hv. cbn [default from_option id] in Hv.
    rewrite Hv, bind_Ok. destruct i as [|j].
    + rewrite (proj2 (Z.ltb_lt _ 0)) by lia. by destruct fuel.
    + rewrite IH by lia. f_equal. replace (Z.of_nat j + 1 + (index + 1))
        with (Z.of_nat (S j) + 1 + index) by lia. done.
  - assert (index = -1) as -> by lia. zfalse (Z.of_nat i + 1 + -1 <? 0).
    rewrite <- Hp. do 2 f_equal. lia.
Qed.

Lemma seek_ok index : lpSeek lp index = Ok (at_index ps index).
Proof using Hw.
  pose proof walk_len. pose proof (walk_fits _ _ _ _ Hw). pose proof (zlen_nonneg ps).
  assert (forall index, 0 <= index ->
    (ele ← lpFirst lp; lpSeek_forward (length lp) lp index ele) = Ok (ps !! Z.to_nat index)) as Hf.
  { intros i Hi. rewrite first_ok, bind_Ok, forward_ok by (unfold zlen in *; lia). done. }
  assert (forall index, index < 0 ->
    (ele ← lpLast lp; lpSeek_backward (length lp) lp index ele) = Ok (at_index ps index)) as Hb.
  { intros i Hi. rewrite last_ok, bind_Ok, last_lookup. unfold at_index. ztrue (i <? 0).
    destruct (decide (ps = [])) as [->|Hne].
    - cbn. destruct (length lp); cbn; by case_match.
    - assert (0 < length ps)%nat by (destruct ps; [done|cbn; lia]).
      rewrite backward_ok by (unfold zlen in *; lia). unfold zlen.
      replace (Z.of_nat (pred _) + 1) with (Z.of_nat (length ps)) by lia. done. }
  unfold lpSeek. rewrite (walk_num _ _ _ _ Hw), bind_Ok. rewrite !Z.geb_leb, !Z.gtb_ltb.
  destruct (Z.eqb_spec num LP_HDR_NUMELE_UNKNOWN) as [Hu|Hu]; cbn [negb].
  - destruct (Z.ltb_spec index 0); [by apply Hb|]. rewrite Hf by done. unfold at_index.
    zfalse (index <? 0). by zfalse (index <? 0).
  - destruct (walk_count _ _ _ _ Hw) as [->|]; [|done]. cbv zeta. unfold at_index at 1.
    set (i := if index <? 0 then zlen ps + index else index).
    destruct (Z.ltb_spec i 0); [done|].
    destruct (Z.leb_spec (zlen ps) i).
    { rewrite lookup_ge_None_2; [done|]. unfold zlen in *. lia. }
    destruct (zlen ps ÷ 2 <? i); [|by apply Hf].
    rewrite Hb by lia. unfold at_index. ztrue (i - zlen ps <? 0).
    replace (zlen ps + (i - zlen ps)) with i by lia. by zfalse (i <? 0).
Qed.
End Walkable.

(** ** Validation of untrusted bytes *)

Section Untrusted.
Context (lp : list Z) (Hbytes : Forall is_byte lp).

Lemma rd1_in p : 0 <= p < zlen lp -> exists b, rd1 lp p = Ok b /\ is_byte b.
Proof using Hbytes.
  intros Hp. destruct (lookup_lt_is_Some_2 lp (Z.to_nat p)) as [b Hb]; [unfold zlen in *; lia|].
  exists b. split; [apply rd1_lookup; split; [lia|done]|]. by eapply Forall_lookup_1.
Qed.

(** A backward length read from any bytes. *)
Lemma decode_loop_total j fuel q val :
  (j <= 4)%nat -> (4 - j < fuel)%nat -> 4 - Z.of_nat j <= q < zlen lp -> 0 <= val < 2 ^ (7 * Z.of_nat j) ->
  exists r, lpDecodeBacklen_loop fuel lp q val (7 * Z.of_nat j) = Ok r /\
            (r = UINT64_MAX \/ val <= r < 2 ^ 35).
Proof using Hbytes.
  revert j q val. induction fuel as [|fuel IH]; intros j q val Hj Hf Hq Hv; [lia|].
  cbn [lpDecodeBacklen_loop]. destruct (rd1_in q) as (b & -> & Hb); [lia|]. rewrite bind_Ok.
  rewrite land_127. pose proof (Z.mod_pos_bound b 128 ltac:(lia)). rewrite lor_shiftl by lia.
  assert (2 ^ (7 * Z.of_nat (S j)) = 128 * 2 ^ (7 * Z.of_nat j)) as Hp.
  { replace (7 * Z.of_nat (S j)) with (7 + 7 * Z.of_nat j) by lia. rewrite Z.pow_add_r by lia. lia. }
  assert (2 ^ (7 * Z.of_nat j) <= 2 ^ 28) by (apply Z.pow_le_mono_r; lia).
  assert (val <= val + b mod 128 * 2 ^ (7 * Z.of_nat j) < 2 ^ (7 * Z.of_nat (S j))) by (rewrite Hp; nia).
  case_match.
  - eexists. split; [done|]. right. nia.
  - rewrite Z.gtb_ltb. destruct (Z.ltb_spec 28 (7 * Z.of_nat j + 7)); [by eauto|].
    replace (7 * Z.of_nat j + 7) with (7 * Z.of_nat (S j)) by lia.
    destruct (IH (S j) (q - 1) (val + b mod 128 * 2 ^ (7 * Z.of_nat j))) as (r & -> & Hr); [lia..|].
    eexists. split; [done|]. lia.
Qed.

Lemma decode_total q b :
  4 <= q < zlen lp -> rd1 lp q = Ok b ->
  exists r, lpDecodeBacklen lp q = Ok r /\ (r = UINT64_MAX \/ b mod 128 <= r < 2 ^ 35).
Proof using Hbytes.
  intros Hq Hb. pose proof (Z.mod_pos_bound b 128 ltac:(lia)).
  unfold lpDecodeBacklen. remember 5%nat as f eqn:Hf.
  cbn [lpDecodeBacklen_loop].
  rewrite Hb, bind_Ok, land_127, Z.shiftl_0_r, Z.lor_0_l. case_match.
  - eexists. split; [done|]. right. lia.
  - change (0 + 7 >? 28) with false. cbn iota.
    destruct (decode_loop_total 1 f (q - 1) (b mod 128)) as (r & E & Hr);
      [lia|lia|lia|change (2 ^ (7 * Z.of_nat 1)) with 128; lia|].
    change (7 * Z.of_nat 1) with (0 + 7) in E. rewrite E. by eauto.
Qed.

(** Header of an entry: the two size functions agree, unless the 32-bit length
    wraps. *)
Lemma sizes_total p b k :
  0 <= p -> rd1 lp p = Ok b -> is_byte b -> b <> LP_EOF ->
  lpCurrentEncodedSizeBytes lp p = Ok k -> k <> 0 -> p + k < zlen lp ->
  exists n, lpCurrentEncodedSizeUnsafe lp p = Ok n /\ 0 <= n <= UINT32_MAX /\
    1 <= k <= 5 /\
    (k <= n \/ k = 5 /\ n < 5 /\ b = 240 /\ rd1 lp (p + 1) = Ok (251 + n) /\
               (forall i, 2 <= i <= 4 -> rd1 lp (p + i) = Ok 255)).
Proof using Hbytes.
  intros Hp Hb Hbb He Hk Hk0 Hin. unfold lpCurrentEncodedSizeBytes in Hk.
  unfold lpCurrentEncodedSizeUnsafe, LP_ENCODING_6BIT_STR_LEN, LP_ENCODING_12BIT_STR_LEN,
    LP_ENCODING_32BIT_STR_LEN, LP_EOF, is_byte in *.
  rewrite Hb in *. rewrite bind_Ok in *. revert Hk. lp_class b. zconst. intros Hk.
  repeat (case_match; zprop; [simplify_eq; try (by eexists; split; [done|lia])|]); [..|by simplify_eq].
  - rewrite bind_Ok. change 63 with (2 ^ 6 - 1). rewrite land_mask by lia.
    pose proof (Z.mod_pos_bound b (2 ^ 6) ltac:(lia)). eexists. split; [done|]. lia.
  - rewrite bind_Ok. destruct (rd1_in (p + 1)) as (b1 & -> & Hb1); [lia|]. rewrite bind_Ok.
    change 15 with (2 ^ 4 - 1). rewrite land_mask, lor_low by (unfold is_byte in *; lia).
    pose proof (Z.mod_pos_bound b (2 ^ 4) ltac:(lia)). unfold is_byte in *. eexists. split; [done|]. lia.
  - destruct (rd1_in (p + 1)) as (b1 & E1 & Hb1); [lia|]. destruct (rd1_in (p + 2)) as (b2 & E2 & Hb2); [lia|].
    destruct (rd1_in (p + 3)) as (b3 & E3 & Hb3); [lia|]. destruct (rd1_in (p + 4)) as (b4 & E4 & Hb4); [lia|].
    rewrite E1, E2, E3, E4, !bind_Ok, le32_lor by done. cbn [le_val]. unfold is_byte in *.
    set (len := b1 + _). assert (0 <= len < 2 ^ 32) by (subst len; lia).
    eexists. split; [done|]. pose proof (wrapU_range 32 (5 + len) ltac:(lia)).
    destruct (Z.ltb_spec (5 + len) (2 ^ 32)); [rewrite wrapU_small by lia; lia|].
    assert (wrapU 32 (5 + len) = 5 + len - 2 ^ 32) as Hwr.
    { unfold wrapU. symmetry. apply Z.mod_unique with 1; lia. }
    rewrite Hwr. split; [lia|]. split; [lia|]. right. subst len. split_and!; try lia.
    + f_equal. lia.
    + intros i Hi. assert (i = 2 \/ i = 3 \/ i = 4) as [->|[->| ->]] by lia;
        rewrite ?E2, ?E3, ?E4; f_equal; lia.
Qed.

(** [lpValidateNext] never leaves the buffer, and what it accepts is an entry. *)
Lemma validate_total total pp :
  total <= zlen lp ->
  exists ok pp', lpValidateNext lp pp total = Ok (ok, pp') /\
    (ok = true -> exists p, pp = Some p /\ LP_HDR_SIZE <= p <= total - 1 /\
       match pp' with
       | Some p' => entry_at lp total p p'
       | None => rd1 lp p = Ok LP_EOF
       end).
Proof using Hbytes.
  intros Ht. unfold lpValidateNext, OUT_OF_RANGE. destruct pp as [p|]; [|by eexists _, _].
  rewrite Z.gtb_ltb. destruct ((p <? _) || _) eqn:E0; [by eexists _, _|]. zprop.
  unfold LP_HDR_SIZE in *. destruct (rd1_in p) as (b & Hb & Hbb); [lia|]. rewrite Hb, bind_Ok.
  destruct (Z.eqb_spec b LP_EOF) as [->|Hne].
  { eexists _, _. split; [done|]. intros _. exists p. split; [done|]. split; [lia|done]. }
  assert (exists k, lpCurrentEncodedSizeBytes lp p = Ok k) as [k Hk].
  { unfold lpCurrentEncodedSizeBytes. rewrite Hb, bind_Ok. repeat case_match; by eexists. }
  rewrite Hk, bind_Ok. destruct (Z.eqb_spec k 0) as [|Hk0]; [by eexists _, _|].
  rewrite Z.gtb_ltb. destruct ((p + k <? _) || _) eqn:E1; [by eexists _, _|]. zprop.
  destruct (sizes_total p b k) as (n & Hn & Hn0 & Hk5 & Hcase); try done; [lia..|].
  rewrite Hn, bind_Ok. cbv zeta. pose proof (backlen_size n).
  rewrite Z.gtb_ltb. destruct ((p + (n + _) <? _) || _) eqn:E2; [by eexists _, _|]. zprop.
  destruct (rd1_in (p + (n + zlen (lpEncodeBacklen n)) - 1)) as (c & Hc & Hcb); [lia|].
  destruct (decode_total (p + (n + zlen (lpEncodeBacklen n)) - 1) c) as (r & Hr & Hrr); [lia|done|].
  rewrite Hr, bind_Ok. pose proof (Z.mod_pos_bound c 128 ltac:(lia)).
  destruct (Z.eqb_spec (wrapU 64 (r + zlen (lpEncodeBacklen n))) (n + zlen (lpEncodeBacklen n)))
    as [Heq|]; [|by eexists _, _]. cbn [negb].
  assert (r = n) as ->.
  { revert Heq. destruct Hrr as [->|Hr2]; [|zconst; zwrap; lia].
    zconst. replace (2 ^ 64 - 1 + _) with (2 ^ 64 + (zlen (lpEncodeBacklen n) - 1)) by lia.
    rewrite wrapU_add by lia. zwrap. lia. }
  assert (k <= n) as Hkn.
  { destruct Hcase as [|(-> & Hn5 & -> & Hw1 & Hw2)]; [done|]. exfalso.
    assert (zlen (lpEncodeBacklen n) = 1) as Hone by (apply backlen_small; lia). rewrite Hone in *.
    replace (p + (n + 1) - 1) with (p + n) in Hc by lia.
    assert (c = 240 \/ c = 252 \/ c = 255) as Hcc.
    { destruct (decide (n = 0)) as [->|]; [rewrite Z.add_0_r in Hc; left; congruence|].
      destruct (decide (n = 1)) as [->|]; [rewrite Hw1 in Hc; simplify_eq; lia|].
      rewrite Hw2 in Hc by lia. simplify_eq. lia. }
    assert (112 <= c mod 128) by (clear - Hcc; zdiv).
    zconst. destruct Hrr; lia. }
  eexists _, _. split; [done|]. intros _. exists p. split; [done|]. split; [lia|].
  exists b, n, k. split_and!; try done; try lia.
Qed.

(** The loop over the entries ends, inside the buffer. *)
Lemma validate_loop {U} (cb : option (list Z -> Z -> Z -> U -> bool * U)) total numele fuel u p count :
  total <= zlen lp -> total <= UINT32_MAX -> LP_HDR_SIZE <= p <= total - 1 -> total - 1 - p < Z.of_nat fuel ->
  0 <= count <= p ->
  exists r, lpValidate_loop fuel lp total numele cb u (Some p) count = Ok r /\
    match r with
    | inl ret => ret = false
    | inr (q, n) => exists q' ps, q = Some q' /\ n = count + zlen ps /\ chain lp total p ps q'
    end.
Proof using Hbytes.
  intros Ht Hm. revert u p count. induction fuel as [|fuel IH]; intros u p count Hp Hf Hc; [lia|].
  unfold LP_HDR_SIZE in *. cbn [lpValidate_loop].
  destruct (rd1_in p) as (b & Hb & _); [lia|]. rewrite Hb, bind_Ok.
  destruct (Z.eqb_spec b LP_EOF) as [|Hne].
  { eexists. split; [done|]. exists p, []. change (zlen []) with 0. split_and!; [done|lia|done]. }
  destruct (validate_total total (Some p) Ht) as (ok & pp' & -> & Hok). rewrite bind_Ok.
  destruct ok; cbn [negb]; [|by eexists]. destruct (Hok eq_refl) as (p0 & [= <-] & _ & He).
  destruct pp' as [p'|]; [|congruence]. pose proof (entry_lt _ _ _ _ He) as Hlt. unfold LP_HDR_SIZE in *.
  assert (forall u', exists r,
    lpValidate_loop fuel lp total numele cb u' (Some p') (wrapU 32 (count + 1)) = Ok r /\
    match r with
    | inl ret => ret = false
    | inr (q, n) => exists q' ps, q = Some q' /\ n = count + zlen ps /\ chain lp total p ps q'
    end) as Hrec.
  { intros u'. zconst. zwrap. destruct (IH u' p' (count + 1)) as (r & -> & Hr); [lia..|].
    exists r. split; [done|]. destruct r as [?|[q n]]; [done|].
    destruct Hr as (q' & ps & -> & -> & Hch). exists q', (p :: ps). rewrite zlen_cons.
    split_and!; [done|lia|]. cbn [chain]. eauto. }
  destruct cb as [cb|]; [|apply Hrec]. destruct (cb lp p numele u) as [[] u']; cbn [negb]; [apply Hrec|].
  by eexists.
Qed.

Lemma integer_any w u :
  1 < w <= 64 -> 0 <= u < 2 ^ w ->
  lpGetInteger u (2 ^ (w - 1)) (2 ^ w - 1) None = Ok (IntValue (wrapS w u)) /\
  INT64_MIN <= wrapS w u <= INT64_MAX.
Proof.
  intros Hw Hu. pose proof (wrapS_range w u ltac:(lia)).
  assert (2 ^ (w - 1) <= 2 ^ 63) by (apply Z.pow_le_mono_r; lia).
  split; [|zconst; lia]. rewrite <- (wrapU_small w u Hu) at 1.
  by rewrite <- (wrapU_wrapS w u), lpGetInteger_ok by lia.
Qed.

(** The bytes after the first one, and the integer they encode. *)
Lemma get_safe_int p b n :
  0 <= p -> rd1 lp p = Ok b -> is_byte b -> (b < 128 \/ 192 <= b < 224 \/ 241 <= b <= 244) ->
  lpCurrentEncodedSizeUnsafe lp p = Ok n -> p + n < zlen lp ->
  exists i, lpGetWithSize lp p None = Ok (IntValue i, Some (n + zlen (lpEncodeBacklen n))) /\
    INT64_MIN <= i <= INT64_MAX.
Proof using Hbytes.
  intros Hp Hb Hbb Hc Hn Hin.
  unfold lpCurrentEncodedSizeUnsafe in Hn. unfold lpGetWithSize. unfold is_byte in Hbb.
  revert Hn. rewrite !Hb, !bind_Ok. lp_class b.
  assert (forall k, 0 <= k < n -> exists c, rd1 lp (p + k) = Ok c /\ is_byte c) as Hrd.
  { intros k Hk. apply rd1_in. lia. }
  repeat case_match; zprop; try lia; intros [= <-];
    match goal with |- context [lpEncodeBacklen ?m] => change (lpEncodeBacklen m) with [m] end;
    try (destruct (Hrd 1) as (c1 & -> & Kc1); [lia|]); try (destruct (Hrd 2) as (c2 & -> & Kc2); [lia|]);
    try (destruct (Hrd 3) as (c3 & -> & Kc3); [lia|]); try (destruct (Hrd 4) as (c4 & -> & Kc4); [lia|]);
    try (destruct (Hrd 5) as (c5 & -> & Kc5); [lia|]); try (destruct (Hrd 6) as (c6 & -> & Kc6); [lia|]);
    try (destruct (Hrd 7) as (c7 & -> & Kc7); [lia|]); try (destruct (Hrd 8) as (c8 & -> & Kc8); [lia|]);
    rewrite ?bind_Ok.
  - rewrite land_127. pose proof (Z.mod_pos_bound b 128 ltac:(lia)).
    exists (b mod 128). split; [|zconst; lia]. unfold lpGetInteger. rewrite Z.geb_leb. zconst.
    zfalse (2 ^ 64 - 1 <=? b mod 128). zwrap. done.
  - change 31 with (2 ^ 5 - 1). rewrite land_mask, lor_low by (unfold is_byte in *; lia).
    pose proof (Z.mod_pos_bound b (2 ^ 5) ltac:(lia)). unfold is_byte in *.
    destruct (integer_any 13 (b mod 2 ^ 5 * 256 + c1)) as [E ?]; [lia..|].
    change (Z.shiftl 1 12) with (2 ^ (13 - 1)). change 8191 with (2 ^ 13 - 1). rewrite E. by eexists.
  - rewrite <- (Z.shiftl_0_r c1), le16_lor by done.
    destruct (integer_any 16 (le_val [c1; c2])) as [E ?]; [lia| |].
    { pose proof (le_val_range [c1; c2] ltac:(by forall_list)) as R. exact R. }
    change (Z.shiftl 1 15) with (2 ^ (16 - 1)). change 65535 with (2 ^ 16 - 1). rewrite E. by eexists.
  - rewrite <- (Z.shiftl_0_r c1), le24_lor by done.
    destruct (integer_any 24 (le_val [c1; c2; c3])) as [E ?]; [lia| |].
    { pose proof (le_val_range [c1; c2; c3] ltac:(by forall_list)) as R. exact R. }
    change (Z.shiftl 1 23) with (2 ^ (24 - 1)). change (Z.shiftr UINT32_MAX 8) with (2 ^ 24 - 1).
    rewrite E. by eexists.
  - rewrite <- (Z.shiftl_0_r c1), le32_lor by done.
    destruct (integer_any 32 (le_val [c1; c2; c3; c4])) as [E ?]; [lia| |].
    { pose proof (le_val_range [c1; c2; c3; c4] ltac:(by forall_list)) as R. exact R. }
    change (Z.shiftl 1 31) with (2 ^ (32 - 1)). change UINT32_MAX with (2 ^ 32 - 1).
    rewrite E. by eexists.
  - rewrite <- (Z.shiftl_0_r c1), le64_lor by done.
    destruct (integer_any 64 (le_val [c1; c2; c3; c4; c5; c6; c7; c8])) as [E ?]; [lia| |].
    { pose proof (le_val_range [c1; c2; c3; c4; c5; c6; c7; c8] ltac:(by forall_list)) as R. exact R. }
    change (Z.shiftl 1 63) with (2 ^ (64 - 1)). change UINT64_MAX with (2 ^ 64 - 1).
    rewrite E. by eexists.
Qed.

Lemma rd1_byte p c : rd1 lp p = Ok c -> is_byte c.
Proof using Hbytes. intros [_ Hc]%rd1_lookup. by eapply Forall_lookup_1. Qed.

Lemma len32_range p len : LP_ENCODING_32BIT_STR_LEN lp p = Ok len -> 0 <= len < 2 ^ 32.
Proof using Hbytes.
  unfold LP_ENCODING_32BIT_STR_LEN. intros H.
  apply bind_Ok_inv in H as (b1 & H1%rd1_byte & H). apply bind_Ok_inv in H as (b2 & H2%rd1_byte & H).
  apply bind_Ok_inv in H as (b3 & H3%rd1_byte & H). apply bind_Ok_inv in H as (b4 & H4%rd1_byte & H).
  rewrite le32_lor in H by done. injection H as <-.
  exact (le_val_range [b1; b2; b3; b4] ltac:(by forall_list)).
Qed.

Lemma get_safe_str p b n k :
  0 <= p -> rd1 lp p = Ok b -> is_byte b -> (128 <= b < 192 \/ 224 <= b <= 240) ->
  lpCurrentEncodedSizeBytes lp p = Ok k -> k <= n ->
  lpCurrentEncodedSizeUnsafe lp p = Ok n -> p + n < zlen lp ->
  lpGetWithSize lp p None = Ok (InListpack (p + k) (n - k), Some (n + zlen (lpEncodeBacklen n))) /\ 1 <= k.
Proof using Hbytes.
  intros Hp Hb Hbb Hc Hk Hkn Hn Hin. unfold is_byte in Hbb.
  unfold lpCurrentEncodedSizeUnsafe in Hn. unfold lpCurrentEncodedSizeBytes in Hk. unfold lpGetWithSize.
  revert Hn Hk. rewrite !Hb, !bind_Ok. lp_class b.
  repeat case_match; zprop; try lia; intros Hn [= <-];
    apply bind_Ok_inv in Hn as (len & Hlen & [= <-]); rewrite Hlen, bind_Ok.
  - replace (len + 1) with (1 + len) by lia. split; [|lia]. do 4 f_equal; lia.
  - replace (len + 2) with (2 + len) by lia. split; [|lia]. do 4 f_equal; lia.
  - apply len32_range in Hlen. assert (wrapU 32 (5 + len) = 5 + len) as ->.
    { destruct (Z.ltb_spec (5 + len) (2 ^ 32)); [apply wrapU_small; lia|].
      assert (wrapU 32 (5 + len) = 5 + len - 2 ^ 32); [|lia].
      unfold wrapU. symmetry. apply Z.mod_unique with 1; lia. }
    replace (len + 5) with (5 + len) by lia. split; [|lia]. do 4 f_equal; lia.
Qed.

Lemma get_safe total p p' :
  total <= zlen lp -> entry_at lp total p p' ->
  exists v, lpGetWithSize lp p None = Ok (v, Some (p' - p)) /\
    match v with
    | InListpack off len => p < off /\ 0 <= len <= UINT32_MAX /\ off + len < p'
    | IntValue i => INT64_MIN <= i <= INT64_MAX
    | InBuffer _ _ => False
    end.
Proof using Hbytes.
  intros Ht (b & n & k & Hb & Hne & Hp & Hk & Hkn & Hn & Hmax & -> & Hq & _).
  pose proof (rd1_byte _ _ Hb) as Hbb. pose proof (backlen_size n). unfold LP_HDR_SIZE in *.
  replace (p + n + zlen (lpEncodeBacklen n) - p) with (n + zlen (lpEncodeBacklen n)) by lia.
  assert (b < 245) as Hlt.
  { revert Hk. unfold lpCurrentEncodedSizeBytes, LP_EOF, is_byte in *. rewrite Hb, bind_Ok. lp_class b.
    repeat case_match; zprop; try lia. intros [= <-]. lia. }
  destruct (decide (128 <= b < 192 \/ 224 <= b <= 240)) as [Hs|Hs].
  - destruct (get_safe_str p b n k) as [-> ?]; try done; [lia..|]. eexists. split; [done|]. cbn. lia.
  - destruct (get_safe_int p b n) as (i & -> & Hi); try done; try (unfold is_byte in *; lia).
    by eexists.
Qed.

Lemma header_total :
  7 <= zlen lp ->
  exists total num, lpGetTotalBytes lp = Ok total /\ 0 <= total <= UINT32_MAX /\
                    lpGetNumElements lp = Ok num /\ 0 <= num <= 65535.
Proof using Hbytes.
  intros Hl. unfold lpGetTotalBytes, lpGetNumElements.
  destruct (rd1_in 0) as (b0 & -> & H0); [lia|]. destruct (rd1_in 1) as (b1 & -> & H1); [lia|].
  destruct (rd1_in 2) as (b2 & -> & H2); [lia|]. destruct (rd1_in 3) as (b3 & -> & H3); [lia|].
  destruct (rd1_in 4) as (b4 & -> & H4); [lia|]. destruct (rd1_in 5) as (b5 & -> & H5); [lia|].
  rewrite !bind_Ok, le32_lor, le16_lor by done. eexists _, _.
  split; [done|]. pose proof (le_val_range [b0; b1; b2; b3] ltac:(by forall_list)) as R.
  split; [change (2 ^ (8 * zlen [b0; b1; b2; b3])) with (2 ^ 32) in R; zconst; lia|].
  split; [done|]. pose proof (le_val_range [b4; b5] ltac:(by forall_list)) as R'.
  change (2 ^ (8 * zlen [b4; b5])) with 65536 in R'. lia.
Qed.

(** Validation of the whole buffer. *)
Lemma integrity_ok {U} deep (cb : option (list Z -> Z -> Z -> U -> bool * U)) u :
  exists r, lpValidateIntegrity lp (zlen lp) deep cb u = Ok r /\
    (deep = true -> r = true -> exists num ps, walkable lp (zlen lp) num ps).
Proof using Hbytes.
  unfold lpValidateIntegrity, LP_HDR_SIZE. destruct (Z.ltb_spec (zlen lp) (6 + 1)); [by eexists|].
  destruct header_total as (total & num & Ht & Htr & Hn & Hnr); [lia|].
  rewrite Ht, bind_Ok. destruct (Z.eqb_spec total (zlen lp)) as [->|]; cbn [negb]; [|by eexists].
  destruct (rd1_in (zlen lp - 1)) as (b & Hlast & _); [lia|]. rewrite Hlast, bind_Ok.
  destruct (Z.eqb_spec b LP_EOF) as [->|]; cbn [negb]; [|by eexists].
  destruct deep; cbn [negb]; [|by eexists]. rewrite Hn, bind_Ok.
  destruct (validate_loop cb (zlen lp) num (length lp) u 6 0) as (r & E & Hr);
    [lia|lia|unfold LP_HDR_SIZE; lia|unfold zlen; lia|lia|].
  rewrite E, bind_Ok. destruct r as [ret|[q n]]; [exists ret; split; [done|]; intros _; congruence|].
  destruct Hr as (q' & ps & -> & -> & Hc). case_bool_decide as Hq; cbn [negb]; [|by eexists].
  destruct (_ && _) eqn:Hcnt; [by eexists|]. eexists. split; [done|]. intros _ _. exists num, ps.
  injection Hq as ->. split; try done; [lia|].
  apply andb_false_iff in Hcnt as [Hc'|Hc']; apply negb_false_iff, Z.eqb_eq in Hc'; [by right|left; lia].
Qed.

End Untrusted.

(** * Properties *)

(** C18: [lpValidateIntegrity] can be run on any bytes whatever (a payload read
    from an RDB file or received with RESTORE): it terminates, trips no
    assertion and never reads outside the buffer; and when a deep check accepts
    the bytes, they are a chain of well-formed entries from the header to the
    terminator, with the right count. *)
Theorem lpValidateIntegrity_safe {U} lp deep (cb : option (list Z -> Z -> Z -> U -> bool * U)) u :
  Forall is_byte lp ->
  exists r, lpValidateIntegrity lp (zlen lp) deep cb u = Ok r /\
    (deep = true -> r = true -> exists num ps, walkable lp (zlen lp) num ps).
Proof. intros Hb. by apply integrity_ok. Qed.

Lemma lpValidateIntegrity_safe_witness :
  exists r, lpValidateIntegrity (U := unit) [10; 0; 0; 0; 1; 0; 240; 255; 255; 255] 10 true None tt = Ok r /\
    (true = true -> r = true -> exists num ps, walkable [10; 0; 0; 0; 1; 0; 240; 255; 255; 255] 10 num ps).
Proof.
  apply (lpValidateIntegrity_safe (U := unit) [10; 0; 0; 0; 1; 0; 240; 255; 255; 255] true None tt).
  forall_list; unfold is_byte; lia.
Defined.

(** C19: bytes that passed a deep validation can be used without further checks:
    walking forwards and backwards, seeking, counting and reading every element
    stays inside the buffer and trips none of the assertions, and all walks
    agree on the same sequence of elements. *)
Theorem validated_listpack_safe {U} lp (cb : option (list Z -> Z -> Z -> U -> bool * U)) u :
  Forall is_byte lp -> lpValidateIntegrity lp (zlen lp) true cb u = Ok true ->
  exists ps,
    lpFirst lp = Ok (ps !! 0%nat) /\ lpLast lp = Ok (last ps) /\
    (forall i p, ps !! i = Some p ->
       lpNext lp p = Ok (ps !! S i) /\
       lpPrev lp p = Ok (match i with O => None | S j => ps !! j end) /\
       exists v p', lpGetWithSize lp p None = Ok (v, Some (p' - p)) /\ p < p' < zlen lp /\
         match v with
         | InListpack off len => p < off /\ 0 <= len /\ off + len < p'
         | IntValue n => INT64_MIN <= n <= INT64_MAX
         | InBuffer _ _ => False
         end) /\
    (forall index, lpSeek lp index = Ok (at_index ps index)) /\
    exists lp', lpLength lp = Ok (lp', zlen ps).
Proof.
  intros Hb Hv. destruct (integrity_ok lp Hb true cb u) as (r & E & Hok).
  destruct (Hok eq_refl ltac:(congruence)) as (num & ps & Hw). exists ps.
  split_and!; [by eapply first_ok|by eapply last_ok| |by intros; eapply seek_ok|].
  - intros i p Hi. split_and!; [by eapply next_ok| |].
    + pose proof (prev_ok _ _ _ _ Hw i) as Hp. rewrite Hi in Hp. apply Hp.
      apply lookup_lt_Some in Hi. lia.
    + pose proof (chain_lookup _ _ _ _ _ _ _ (walk_chain _ _ _ _ Hw) Hi) as He.
      set (p' := default _ _) in He. pose proof (entry_lt _ _ _ _ He).
      destruct (get_safe lp Hb (zlen lp) p p') as (v & Hg & Hvv); [lia|done|]. exists v, p'.
      split_and!; [done|lia|lia|]. destruct v; [|done..]. lia.
  - destruct (length_ok _ _ _ _ Hw) as (lp' & El & _). by exists lp'.
Qed.

(** The elements 5 and "ab". *)
Definition sample_listpack : list Z := [13; 0; 0; 0; 2; 0; 5; 1; 130; 97; 98; 3; 255].

Lemma validated_listpack_safe_witness :
  exists ps, lpFirst sample_listpack = Ok (ps !! 0%nat) /\ lpLast sample_listpack = Ok (last ps).
Proof.
  destruct (validated_listpack_safe (U := unit) sample_listpack None tt) as (ps & H1 & H2 & _).
  - unfold sample_listpack. forall_list; unfold is_byte; lia.
  - vm_compute. reflexivity.
  - exists ps. split; assumption.
Defined.
