(* ===== verification/Listpack.v ===== *)
(** Creating and changing listpacks ([listpack.c]), and the refinement of the
    whole component to lists of entries.

    The buffer is as long as the allocator's usable size, which the code asks
    for with [lp_malloc_size]. *)
From S2P Require Import Prelude Endian Util ListpackEnc ListpackNav.
Open Scope Z_scope.

(** * Definitions *)

(** The allocator: a request for [n] bytes gets [usable n] of them.  [zmalloc]
    and [zrealloc] abort when there is no memory, so they never return [NULL]. *)
Class Alloc := {
  usable : Z -> Z;
  usable_ge n : n <= usable n;
}.

Section Operations.
Context `{Host, Alloc}.

Definition lp_malloc (n : Z) : list Z := zrealloc [] (usable n).
Definition lp_realloc (lp : list Z) (n : Z) : list Z := zrealloc lp (usable n).
Definition lp_malloc_size (lp : list Z) : Z := zlen lp.

Definition lpNew (capacity : Z) : res (list Z) :=
  let lp := lp_malloc (if capacity >? LP_HDR_SIZE + 1 then capacity else LP_HDR_SIZE + 1) in
  lp ← lpSetTotalBytes lp (LP_HDR_SIZE + 1);
  lp ← lpSetNumElements lp 0;
  wr lp LP_HDR_SIZE [LP_EOF].

Definition lpShrinkToFit (lp : list Z) : res (list Z) :=
  size ← lpGetTotalBytes lp;
  if size <? lp_malloc_size lp then Ok (lp_realloc lp size) else Ok lp.

Inductive lpwhere := LP_BEFORE | LP_AFTER | LP_REPLACE.

#[global] Instance lpwhere_eq_dec : EqDecision lpwhere.
Proof. solve_decision. Defined.

(** The encoding of the element: the encoded integer, if it is one, and
    [enclen]. *)
Definition lpInsert_encode (elestr eleint : option (list Z)) (size : Z) : res (option (list Z) * Z) :=
  match elestr, eleint with
  | Some s, _ =>
      '(enctype, enclen) ← lpEncodeGetType s size;
      Ok (match enctype with LP_ENCODING_INT intenc => Some intenc | LP_ENCODING_STRING => None end,
          enclen)
  | None, Some i => Ok (Some i, size)
  | None, None => Ok (None, 0)
  end.

(** The end of [lpInsert], once the room for the entry is made at [dst]: store
    the entry and update the header. *)
Definition lpInsert_store (lp : list Z) (elestr eleint : option (list Z)) (size enclen dst : Z)
    (backlen : list Z) (new_listpack_bytes : Z) (where_ : lpwhere) (delete newp : bool)
    : res (option (list Z * option (option Z))) :=
  newp ← (if newp then
            if delete then
              b ← rd1 lp dst;
              Ok (Some (if b =? LP_EOF then None else Some dst))
            else Ok (Some (Some dst))
          else Ok None);
  lp ← (if negb delete then
          lp ← match eleint, elestr with
               | Some bs, _ => bs ← rd bs 0 enclen; wr lp dst bs
               | None, Some s => lpEncodeString lp dst s size
               | None, None => Ok lp
               end;
          wr lp (dst + enclen) backlen
        else Ok lp);
  lp ← (if negb (bool_decide (where_ = LP_REPLACE)) || delete then
          num_elements ← lpGetNumElements lp;
          if negb (num_elements =? LP_HDR_NUMELE_UNKNOWN) then
            if negb delete then lpSetNumElements lp (wrapU 32 (num_elements + 1))
            else lpSetNumElements lp (wrapU 32 (num_elements - 1))
          else Ok lp
        else Ok lp);
  lp ← lpSetTotalBytes lp new_listpack_bytes;
  Ok (Some (lp, newp)).

(** The middle of [lpInsert], once [where] is [LP_BEFORE] or [LP_REPLACE]: the
    new size, and the move of the entries that follow. *)
Definition lpInsert_at (lp : list Z) (elestr eleint : option (list Z)) (size enclen poff : Z)
    (where_ : lpwhere) (delete newp : bool) : res (option (list Z * option (option Z))) :=
  let backlen := if negb delete then lpEncodeBacklen enclen else [] in
  let backlen_size := zlen backlen in
  old_listpack_bytes ← lpGetTotalBytes lp;
  replaced_len ←
    (if decide (where_ = LP_REPLACE) then
       replaced_len ← lpCurrentEncodedSizeUnsafe lp poff;
       let replaced_len := wrapU 32 (replaced_len + zlen (lpEncodeBacklen replaced_len)) in
       _ ← ASSERT_INTEGRITY_LEN lp poff replaced_len;
       Ok replaced_len
     else Ok 0);
  let new_listpack_bytes := wrapU 64 (old_listpack_bytes + enclen + backlen_size - replaced_len) in
  if new_listpack_bytes >? UINT32_MAX then Ok None
  else
    let dst := poff in
    let lp := if (new_listpack_bytes >? old_listpack_bytes) &&
                 (new_listpack_bytes >? lp_malloc_size lp)
              then lp_realloc lp new_listpack_bytes else lp in
    lp ← (if decide (where_ = LP_BEFORE) then
            memmove lp (dst + enclen + backlen_size) dst (old_listpack_bytes - poff)
          else
            let lendiff := enclen + backlen_size - replaced_len in
            memmove lp (dst + replaced_len + lendiff) (dst + replaced_len)
              (old_listpack_bytes - poff - replaced_len));
    let lp := if new_listpack_bytes <? old_listpack_bytes
              then lp_realloc lp new_listpack_bytes else lp in
    lpInsert_store lp elestr eleint size enclen dst backlen new_listpack_bytes where_ delete newp.

(** [None] for [NULL]; otherwise the listpack and what is stored through [newp],
    when [newp] is not [NULL] ([Some None] stores [NULL]). *)
Definition lpInsert (lp : list Z) (elestr eleint : option (list Z)) (size p : Z)
    (where_ : lpwhere) (newp : bool) : res (option (list Z * option (option Z))) :=
  let delete := match elestr, eleint with None, None => true | _, _ => false end in
  let where_ := if delete then LP_REPLACE else where_ in
  '(p, where_) ← (if decide (where_ = LP_AFTER) then
                    p ← lpSkip lp p;
                    _ ← ASSERT_INTEGRITY lp p;
                    Ok (p, LP_BEFORE)
                  else Ok (p, where_));
  '(eleint, enclen) ← lpInsert_encode elestr eleint size;
  lpInsert_at lp elestr eleint size enclen p where_ delete newp.

Definition lpInsertString (lp s : list Z) (slen p : Z) (where_ : lpwhere) (newp : bool) :=
  lpInsert lp (Some s) None slen p where_ newp.

Definition lpInsertInteger (lp : list Z) (lval p : Z) (where_ : lpwhere) (newp : bool) :=
  let intenc := lpEncodeIntegerGetType lval in
  lpInsert lp None (Some intenc) (zlen intenc) p where_ newp.

(** The listpack returned by a call with [newp] equal to [NULL]. *)
Definition ret_lp {A} (r : res (option (list Z * A))) : res (option (list Z)) :=
  r ← r; Ok (match r with Some (lp, _) => Some lp | None => None end).

Definition lpAppend (lp ele : list Z) (size : Z) : res (option (list Z)) :=
  listpack_bytes ← lpGetTotalBytes lp;
  let eofptr := listpack_bytes - 1 in
  ret_lp (lpInsert lp (Some ele) None size eofptr LP_BEFORE false).

Definition lpAppendInteger (lp : list Z) (lval : Z) : res (option (list Z)) :=
  listpack_bytes ← lpGetTotalBytes lp;
  let eofptr := listpack_bytes - 1 in
  ret_lp (lpInsertInteger lp lval eofptr LP_BEFORE false).

Definition lpPrepend (lp s : list Z) (slen : Z) : res (option (list Z)) :=
  p ← lpFirst lp;
  match p with
  | None => lpAppend lp s slen
  | Some p => ret_lp (lpInsert lp (Some s) None slen p LP_BEFORE false)
  end.

Definition lpPrependInteger (lp : list Z) (lval : Z) : res (option (list Z)) :=
  p ← lpFirst lp;
  match p with
  | None => lpAppendInteger lp lval
  | Some p => ret_lp (lpInsertInteger lp lval p LP_BEFORE false)
  end.

Definition lpReplace (lp : list Z) (p : Z) (s : list Z) (slen : Z) :=
  lpInsert lp (Some s) None slen p LP_REPLACE true.

Definition lpReplaceInteger (lp : list Z) (p lval : Z) :=
  lpInsertInteger lp lval p LP_REPLACE true.

Definition lpDelete (lp : list Z) (p : Z) (newp : bool) :=
  lpInsert lp None None 0 p LP_REPLACE newp.

(** [while (num--)]: the entry after the last deleted one, and how many. *)
Fixpoint lpDeleteRange_loop (fuel : nat) (lp : list Z) (bytes num tail deleted : Z) : res (Z * Z) :=
  if num =? 0 then Ok (tail, deleted)
  else
    match fuel with
    | O => OutOfFuel
    | S fuel =>
        let deleted := deleted + 1 in
        tail ← lpSkip lp tail;
        b ← rd1 lp tail;
        if b =? LP_EOF then Ok (tail, deleted)
        else
          _ ← lpAssertValidEntry lp bytes tail;
          lpDeleteRange_loop fuel lp bytes (num - 1) tail deleted
    end.

(** The listpack and the new value of [*p]. *)
Definition lpDeleteRangeWithEntry (lp : list Z) (p num : Z) : res (list Z * option Z) :=
  bytes ← lpBytes lp;
  let eofptr := bytes - 1 in
  let first := p in
  if num =? 0 then Ok (lp, Some p)
  else
    '(tail, deleted) ← lpDeleteRange_loop (length lp) lp bytes num p 0;
    let poff := first in
    lp ← memmove lp first tail (eofptr - tail + 1);
    lp ← lpSetTotalBytes lp (bytes - (tail - first));
    numele ← lpGetNumElements lp;
    lp ← (if negb (numele =? LP_HDR_NUMELE_UNKNOWN)
          then lpSetNumElements lp (wrapU 64 (numele - deleted)) else Ok lp);
    lp ← lpShrinkToFit lp;
    b ← rd1 lp poff;
    Ok (lp, if b =? LP_EOF then None else Some poff).

Definition lpDeleteRange (lp : list Z) (index num : Z) : res (list Z) :=
  numele ← lpGetNumElements lp;
  if num =? 0 then Ok lp
  else
    p ← lpSeek lp index;
    match p with
    | None => Ok lp
    | Some p =>
        let index := if negb (numele =? LP_HDR_NUMELE_UNKNOWN) && (index <? 0)
                     then numele + index else index in
        if negb (numele =? LP_HDR_NUMELE_UNKNOWN) && (wrapU 64 (numele - wrapU 64 index) <=? num) then
          lp ← wr lp p [LP_EOF];
          lp ← lpSetTotalBytes lp (p + 1);
          lp ← lpSetNumElements lp index;
          lpShrinkToFit lp
        else
          '(lp, _) ← lpDeleteRangeWithEntry lp p num;
          Ok lp
    end.

(** [first == NULL || *first == NULL] is [None]; [same] is [*first == *second].
    The result is the merged listpack and whether it replaces [*first]. *)
Definition lpMerge (first second : option (list Z)) (same : bool) : res (option (list Z * bool)) :=
  match first, second with
  | Some first, Some second =>
      if same then Ok None
      else
        first_bytes ← lpBytes first;
        '(first, first_len) ← lpLength first;
        second_bytes ← lpBytes second;
        '(second, second_len) ← lpLength second;
        let append := first_bytes >=? second_bytes in
        let '(target, target_bytes, source, source_bytes) :=
          if append then (first, first_bytes, second, second_bytes)
          else (second, second_bytes, first, first_bytes) in
        let lpbytes := wrapU 64 (first_bytes + second_bytes - LP_HDR_SIZE - 1) in
        assert! lpbytes <? UINT32_MAX;
        let lplength := first_len + second_len in
        let lplength := if lplength <? 65535 then lplength else 65535 in
        let target := lp_realloc target lpbytes in
        target ←
          (if append then
             bs ← rd source LP_HDR_SIZE (source_bytes - LP_HDR_SIZE);
             wr target (target_bytes - 1) bs
           else
             target ← memmove target (source_bytes - 1) LP_HDR_SIZE (target_bytes - LP_HDR_SIZE);
             bs ← rd source 0 (source_bytes - 1);
             wr target 0 bs);
        target ← lpSetNumElements target lplength;
        target ← lpSetTotalBytes target lpbytes;
        Ok (Some (target, append))
  | _, _ => Ok None
  end.

End Operations.

(** * Specification *)

Definition lp_body (l : list lpent) : list Z := mjoin (ent_bytes <$> l).

Definition lp_total (l : list lpent) : Z := LP_HDR_SIZE + zlen (lp_body l) + 1.

Definition lp_hdr (total num : Z) : list Z := le_bytes 4 total ++ le_bytes 2 num.

(** The count in the header: exact, or unknown. *)
Definition num_ok (num n : Z) : Prop := num = n /\ n < LP_HDR_NUMELE_UNKNOWN \/ num = LP_HDR_NUMELE_UNKNOWN.

(** The buffer [lp] holds the entries [l]; there may be unused room after it. *)
Definition lp_repr (l : list lpent) (lp : list Z) : Prop :=
  Forall ent_ok l /\ lp_total l <= UINT32_MAX /\
  exists num slack, num_ok num (zlen l) /\
    lp = lp_hdr (lp_total l) num ++ lp_body l ++ LP_EOF :: slack.

(** The offset of the entry of index [i]. *)
Definition lp_off (l : list lpent) (i : nat) : Z := LP_HDR_SIZE + zlen (lp_body (take i l)).

(** The pointer to an entry, or [NULL] past the end. *)
Definition lp_ptr (l : list lpent) (i : nat) : option Z :=
  if decide (i < length l)%nat then Some (lp_off l i) else None.

(** The arguments of [lpInsert] that stand for storing an entry, or for none. *)
Inductive ele_args : option (list Z) -> option (list Z) -> Z -> option lpent -> Prop :=
| args_str s e : Forall is_byte s -> zlen s <= UINT32_MAX -> ent_of_str s e ->
    ele_args (Some s) None (zlen s) (Some e)
| args_int v : INT64_MIN <= v <= INT64_MAX ->
    ele_args None (Some (int_body v)) (zlen (int_body v)) (Some (EInt v))
| args_none : ele_args None None 0 None.

(** * Lemmas *)

Lemma lp_body_app l k : lp_body (l ++ k) = lp_body l ++ lp_body k.
Proof. unfold lp_body. by rewrite fmap_app, join_app. Qed.

Lemma lp_body_cons e l : lp_body (e :: l) = ent_bytes e ++ lp_body l.
Proof. done. Qed.

Lemma zlen_hdr total num : zlen (lp_hdr total num) = LP_HDR_SIZE.
Proof. done. Qed.

Lemma body_pos e : 1 <= zlen (ent_body e).
Proof.
  destruct e as [v|s]; cbn [ent_body]; unfold int_body, str_hdr;
    repeat case_match; zlens; zpos; try lia; pose proof (zlen_nonneg s); lia.
Qed.

Lemma total_nonneg l : 7 <= lp_total l.
Proof. unfold lp_total, LP_HDR_SIZE. pose proof (zlen_nonneg (lp_body l)). lia. Qed.

Lemma total_app l k : lp_total (l ++ k) = lp_total l + zlen (lp_body k).
Proof. unfold lp_total. rewrite lp_body_app, zlen_app. lia. Qed.

(** One entry of a listpack. *)
Lemma repr_entry A e C total :
  ent_ok e -> LP_HDR_SIZE <= zlen A -> zlen A + zlen (ent_bytes e) <= total - 1 -> total <= UINT32_MAX ->
  entry_at (A ++ ent_bytes e ++ C) total (zlen A) (zlen A + zlen (ent_bytes e)).
Proof.
  intros He HA Ht Hm. pose proof (body_pos e). unfold ent_bytes in *. rewrite zlen_app in *.
  pose proof (backlen_size (zlen (ent_body e))). zconst. unfold LP_HDR_SIZE in *.
  rewrite <- app_assoc.
  destruct (ent_body_cons e He) as (b & r & Hb & Hlt); [zconst; lia|].
  destruct (sizebytes_ok A e (lpEncodeBacklen (zlen (ent_body e)) ++ C) He) as (k & Hk & Hkn).
  exists b, (zlen (ent_body e)), k. split_and!; try done; try lia.
  - rewrite Hb. cbn [app]. apply rd1_here.
  - unfold LP_EOF. lia.
  - apply size_ok. zconst. lia.
  - zconst. lia.
  - rewrite app_assoc.
    replace (zlen A + (_ + _) - 1) with
      (zlen (A ++ ent_body e) + zlen (lpEncodeBacklen (zlen (ent_body e))) - 1) by (zlens; lia).
    apply backlen_roundtrip. lia.
Qed.

Fixpoint offs (p : Z) (l : list lpent) : list Z :=
  match l with
  | [] => []
  | e :: l => p :: offs (p + zlen (ent_bytes e)) l
  end.

Lemma offs_lookup p l i :
  offs p l !! i = if decide (i < length l)%nat then Some (p + zlen (lp_body (take i l))) else None.
Proof.
  revert p i. induction l as [|e l IH]; intros p i; cbn [offs].
  - by rewrite lookup_nil, decide_False by (cbn; lia).
  - destruct i as [|i]; cbn [lookup list_lookup take length].
    + rewrite decide_True by lia. change (lp_body []) with (@nil Z). change (zlen []) with 0.
      f_equal. lia.
    + rewrite IH. case_decide; [rewrite decide_True by lia|by rewrite decide_False by lia].
      rewrite lp_body_cons, zlen_app. f_equal. lia.
Qed.

Lemma offs_ptr l i : offs LP_HDR_SIZE l !! i = lp_ptr l i.
Proof. apply offs_lookup. Qed.

Lemma zlen_offs p l : zlen (offs p l) = zlen l.
Proof. revert p. induction l as [|e l IH]; intros p; cbn [offs]; [done|]. by rewrite !zlen_cons, IH. Qed.

Lemma repr_chain A l C total :
  Forall ent_ok l -> LP_HDR_SIZE <= zlen A -> zlen A + zlen (lp_body l) <= total - 1 ->
  total <= UINT32_MAX ->
  chain (A ++ lp_body l ++ C) total (zlen A) (offs (zlen A) l) (zlen A + zlen (lp_body l)).
Proof.
  revert A. induction l as [|e l IH]; intros A Hl HA Ht Hm; cbn [offs chain].
  - change (zlen (lp_body [])) with 0. lia.
  - apply Forall_cons in Hl as [He Hl]. rewrite lp_body_cons, zlen_app in *.
    pose proof (zlen_nonneg (ent_bytes e)). pose proof (zlen_nonneg (lp_body l)).
    split; [done|]. exists (zlen (A ++ ent_bytes e)). rewrite zlen_app. split.
    + rewrite <- app_assoc. apply repr_entry; lia || done.
    + specialize (IH (A ++ ent_bytes e)). rewrite <- !app_assoc, zlen_app in IH.
      rewrite <- app_assoc, Z.add_assoc. apply IH; lia || done.
Qed.

Lemma repr_walkable l lp :
  lp_repr l lp -> exists num, num_ok num (zlen l) /\ walkable lp (lp_total l) num (offs LP_HDR_SIZE l).
Proof.
  intros (Hl & Ht & num & slack & Hn & ->). exists num. split; [done|].
  pose proof (total_nonneg l). pose proof (zlen_nonneg l). pose proof (zlen_nonneg slack).
  pose proof (repr_chain (lp_hdr (lp_total l) num) l (LP_EOF :: slack) (lp_total l) Hl) as Hc.
  rewrite zlen_hdr in Hc. split.
  - unfold lp_hdr. rewrite <- app_assoc. apply get_total. lia.
  - done.
  - zlens. rewrite zlen_hdr. unfold lp_total. lia.
  - unfold lp_hdr. rewrite <- app_assoc. apply get_num.
    destruct Hn as [[-> ?]| ->]; unfold LP_HDR_NUMELE_UNKNOWN in *; lia.
  - rewrite zlen_offs. destruct Hn as [[-> ?]| ->]; auto.
  - replace (lp_total l - 1) with (LP_HDR_SIZE + zlen (lp_body l)) by (unfold lp_total; lia).
    apply Hc; [lia|unfold lp_total; lia|done].
  - rewrite app_assoc. apply rd1_app. zlens. rewrite zlen_hdr. unfold lp_total. lia.
Qed.

Section Mutation.
Context `{Host, Alloc}.

Lemma realloc_keep a b n :
  zlen a <= n -> exists c, lp_realloc (a ++ b) n = a ++ c /\ n <= zlen (a ++ c).
Proof.
  intros Hn. pose proof (usable_ge n). unfold lp_realloc.
  destruct (zrealloc_keep a b (usable n)) as (c & -> & Hc); [lia|]. exists c.
  split; [done|]. rewrite zlen_app. lia.
Qed.

(** The part of [lpInsert] that resizes the buffer and moves the tail [T],
    replacing the bytes [R] by room for [n] bytes. *)
Definition splice (lp : list Z) (old new dst src len : Z) : res (list Z) :=
  let lp := if (new >? old) && (new >? lp_malloc_size lp) then lp_realloc lp new else lp in
  lp ← memmove lp dst src len;
  Ok (if new <? old then lp_realloc lp new else lp).

Lemma splice_ok A R T slack n :
  0 <= n ->
  exists X slack', zlen X = n /\
    splice (A ++ R ++ T ++ slack) (zlen A + zlen R + zlen T) (zlen A + n + zlen T)
      (zlen A + n) (zlen A + zlen R) (zlen T) = Ok (A ++ X ++ T ++ slack').
Proof.
  intros Hn. unfold splice, lp_malloc_size. rewrite !Z.gtb_ltb. cbv zeta.
  pose proof (zlen_nonneg A). pose proof (zlen_nonneg R). pose proof (zlen_nonneg T).
  pose proof (zlen_nonneg slack).
  set (old := zlen A + zlen R + zlen T). set (new := zlen A + n + zlen T).
  set (lp1 := if (old <? new) && _ then _ else _).
  assert (exists s1, lp1 = A ++ R ++ T ++ s1 /\ new <= zlen lp1) as (s1 & E1 & Hl1).
  { subst lp1. destruct (_ && _) eqn:E; zprop.
    - rewrite !app_assoc. destruct (realloc_keep ((A ++ R) ++ T) slack new) as (c & -> & Hc).
      { subst new old. rewrite !zlen_app. lia. }
      exists c. by rewrite <- !app_assoc in *.
    - exists slack. split; [done|]. rewrite !zlen_app in *. subst new old. lia. }
  rewrite E1 in *. clear lp1 E1. unfold memmove.
  rewrite app_assoc, (rd_app (A ++ R) T s1), bind_Ok by (rewrite ?zlen_app; lia).
  rewrite <- app_assoc. rewrite zlen_app in Hl1.
  destruct (cut_at (R ++ T ++ s1) n) as (X & Y & E & HX & HY); [lia|]. rewrite E in *.
  destruct (cut_at Y (zlen T)) as (Y1 & Y2 & -> & HY1 & _); [rewrite zlen_app in Hl1; lia|].
  rewrite (app_assoc A X), (wr_app (A ++ X) Y1 T), bind_Ok by (rewrite ?zlen_app; lia).
  exists X. destruct (new <? old).
  - rewrite app_assoc. destruct (realloc_keep ((A ++ X) ++ T) Y2 new) as (c & -> & _).
    { rewrite !zlen_app. lia. }
    exists c. by rewrite <- !app_assoc.
  - exists Y2. by rewrite <- !app_assoc.
Qed.

(** Storing the entry in the room made for it. *)
Lemma store_ok A X C elestr eleint size e :
  zlen X = zlen (ent_bytes e) -> zlen (ent_body e) <= UINT32_MAX ->
  (match e with
   | EInt v => eleint = Some (int_body v)
   | EStr s => eleint = None /\ elestr = Some s /\ size = zlen s
   end) ->
  (lp ← match eleint, elestr with
        | Some bs, _ => bs ← rd bs 0 (zlen (ent_body e)); wr (A ++ X ++ C) (zlen A) bs
        | None, Some s => lpEncodeString (A ++ X ++ C) (zlen A) s size
        | None, None => Ok (A ++ X ++ C)
        end;
   wr lp (zlen A + zlen (ent_body e)) (lpEncodeBacklen (zlen (ent_body e)))) =
  Ok (A ++ ent_bytes e ++ C).
Proof.
  intros HX Hm He. unfold ent_bytes in *. rewrite zlen_app in HX.
  pose proof (zlen_nonneg (ent_body e)). pose proof (backlen_size (zlen (ent_body e))).
  destruct (cut_at X (zlen (ent_body e))) as (X1 & X2 & -> & HX1 & _); [lia|]. rewrite zlen_app in HX.
  rewrite <- !app_assoc.
  assert (match eleint, elestr with
        | Some bs, _ => bs ← rd bs 0 (zlen (ent_body e)); wr (A ++ X1 ++ X2 ++ C) (zlen A) bs
        | None, Some s => lpEncodeString (A ++ X1 ++ X2 ++ C) (zlen A) s size
        | None, None => Ok (A ++ X1 ++ X2 ++ C)
        end = Ok (A ++ ent_body e ++ X2 ++ C)) as ->.
  { destruct e as [v|s].
    - subst eleint. cbn [ent_body] in *.
      pose proof (rd_app_head (int_body v) [] _ eq_refl) as E. rewrite app_nil_r in E.
      rewrite E, bind_Ok, wr_app by done. done.
    - destruct He as (-> & -> & ->). apply lpEncodeString_ok; [|done].
      cbn [ent_body] in Hm. rewrite zlen_app in Hm. pose proof (zlen_nonneg (str_hdr (zlen s))). lia. }
  rewrite bind_Ok, app_assoc, (wr_app (A ++ ent_body e)) by (rewrite ?zlen_app; lia).
  by rewrite <- !app_assoc.
Qed.

(** The header after the element count changed by [d]. *)
Lemma bump_ok total num n d rest :
  num_ok num n -> 0 <= n -> 0 <= n + d -> d <= 1 ->
  exists num', num_ok num' (n + d) /\
    (num_elements ← lpGetNumElements (lp_hdr total num ++ rest);
     if negb (num_elements =? LP_HDR_NUMELE_UNKNOWN)
     then lpSetNumElements (lp_hdr total num ++ rest) (wrapU 32 (num_elements + d))
     else Ok (lp_hdr total num ++ rest)) = Ok (lp_hdr total num' ++ rest).
Proof.
  intros Hn Hn0 Hd Hd1. unfold lp_hdr, num_ok, LP_HDR_NUMELE_UNKNOWN in *. rewrite <- !app_assoc.
  rewrite get_num, bind_Ok by lia. destruct (Z.eqb_spec num 65535) as [->|Hne]; cbn [negb].
  - exists 65535. rewrite <- !app_assoc. auto.
  - destruct Hn as [[-> Hn]|]; [|done]. exists (n + d). split; [lia|]. zwrap.
    rewrite set_num by done. by rewrite <- !app_assoc.
Qed.

Lemma set_total_ok total total' num rest :
  lpSetTotalBytes (lp_hdr total num ++ rest) total' = Ok (lp_hdr total' num ++ rest).
Proof. unfold lp_hdr. rewrite <- !app_assoc. by apply set_total. Qed.

(** What [lpInsert_at] expects of the encoded element. *)
Definition stored (op : option lpent) (elestr eleint : option (list Z)) (size enclen : Z) : Prop :=
  match op with
  | Some e => ent_ok e /\ enclen = zlen (ent_body e) /\ enclen <= 2 ^ 33 /\
              match e with
              | EInt v => eleint = Some (int_body v)
              | EStr s => eleint = None /\ elestr = Some s /\ size = zlen s
              end
  | None => enclen = 0
  end.

Definition is_delete (op : option lpent) : bool := match op with None => true | Some _ => false end.

Definition new_entries (op : option lpent) : list lpent := match op with None => [] | Some e => [e] end.

Lemma stored_len op elestr eleint size enclen :
  stored op elestr eleint size enclen ->
  enclen + zlen (if negb (is_delete op) then lpEncodeBacklen enclen else []) =
  zlen (lp_body (new_entries op)) /\ 0 <= enclen <= 2 ^ 33.
Proof.
  intros Hs. destruct op as [e|]; cbn [stored is_delete new_entries negb] in *.
  - destruct Hs as (_ & -> & ? & _). pose proof (body_pos e). split; [|lia].
    unfold lp_body. cbn. by rewrite app_nil_r, <- zlen_app.
  - subst. done.
Qed.

Lemma replaced_ok A mid C total w :
  Forall ent_ok mid -> LP_HDR_SIZE <= zlen A -> zlen A + zlen (lp_body mid) <= total - 1 -> total <= UINT32_MAX ->
  lpGetTotalBytes (A ++ lp_body mid ++ C) = Ok total ->
  match w, mid with LP_BEFORE, [] => True | LP_REPLACE, [_] => True | _, _ => False end ->
  (if decide (w = LP_REPLACE) then
     replaced_len ← lpCurrentEncodedSizeUnsafe (A ++ lp_body mid ++ C) (zlen A);
     let replaced_len := wrapU 32 (replaced_len + zlen (lpEncodeBacklen replaced_len)) in
     _ ← ASSERT_INTEGRITY_LEN (A ++ lp_body mid ++ C) (zlen A) replaced_len;
     Ok replaced_len
   else Ok 0) = Ok (zlen (lp_body mid)).
Proof.
  intros Hmid HA Hl Hm Ht Hw. destruct w, mid as [|e [|]]; try done; cbn [decide].
  rewrite decide_True by done. apply Forall_cons in Hmid as [He _].
  unfold ASSERT_INTEGRITY_LEN. rewrite Ht. unfold lp_body in *. cbn [fmap list_fmap mjoin list_join] in *.
  rewrite app_nil_r in *. unfold ent_bytes in *. rewrite zlen_app in *. rewrite <- app_assoc.
  pose proof (body_pos e). pose proof (backlen_size (zlen (ent_body e))). zconst.
  unfold LP_HDR_SIZE in *.
  rewrite size_ok, bind_Ok by (zconst; lia). zwrap. rewrite bind_Ok, Z.geb_leb.
  ztrue ((6 <=? zlen A) &&
         (zlen A + (zlen (ent_body e) + zlen (lpEncodeBacklen (zlen (ent_body e)))) <? total)). done.
Qed.

(** What is stored through [newp]: the new entry, or the one after a deleted
    entry. *)
Lemma newp_ok A X l2 slack (op : option lpent) (newp : bool) :
  Forall ent_ok l2 -> lp_total l2 <= UINT32_MAX -> zlen X = zlen (lp_body (new_entries op)) ->
  (if newp then
     if is_delete op then
       b ← rd1 (A ++ X ++ (lp_body l2 ++ [LP_EOF]) ++ slack) (zlen A);
       Ok (Some (if b =? LP_EOF then None else Some (zlen A)))
     else Ok (Some (Some (zlen A)))
   else Ok None) =
  Ok (if newp then Some (if decide (new_entries op ++ l2 = []) then None else Some (zlen A)) else None).
Proof.
  intros Hl2 Ht HX. destruct newp; [|done]. destruct op as [e|]; cbn [is_delete new_entries app] in *.
  { by rewrite decide_False. }
  change (zlen (lp_body [])) with 0 in HX.
  destruct X as [|x X]; [|rewrite zlen_cons in HX; pose proof (zlen_nonneg X); lia].
  destruct l2 as [|e l2].
  - rewrite decide_True by done. cbn [app]. change (lp_body []) with (@nil Z). cbn [app].
    by rewrite rd1_here.
  - rewrite decide_False by done. apply Forall_cons in Hl2 as [He _]. rewrite lp_body_cons.
    unfold ent_bytes. destruct (ent_body_cons e He) as (b & r & Hb & Hlt).
    { revert Ht. unfold lp_total. rewrite lp_body_cons. unfold ent_bytes. rewrite !zlen_app.
      unfold LP_HDR_SIZE. pose proof (zlen_nonneg (lp_body l2)).
      pose proof (zlen_nonneg (lpEncodeBacklen (zlen (ent_body e)))). lia. }
    rewrite Hb. cbn [app]. rewrite rd1_here, bind_Ok. unfold LP_EOF. by zfalse (b =? 255).
Qed.

(** The position and the direction of an insertion agree. *)
Definition where_ok (w : lpwhere) (mid : list lpent) (op : option lpent) : Prop :=
  match w, mid with LP_BEFORE, [] => op <> None | LP_REPLACE, [_] => True | _, _ => False end.

Lemma where_count w mid op (l : list lpent) :
  where_ok w mid op ->
  if negb (bool_decide (w = LP_REPLACE)) || is_delete op
  then zlen l + zlen (new_entries op) - zlen mid = zlen l + (if is_delete op then -1 else 1)
  else zlen (new_entries op) = zlen mid.
Proof.
  destruct w, mid as [|? []], op; cbn -[zlen Z.add Z.sub]; intros Hw; try done;
    rewrite ?zlen_cons, ?zlen_nil; case_bool_decide; cbn -[zlen Z.add Z.sub]; done || lia.
Qed.

Lemma store_phase total num total' l1 mid l2 op X slack elestr eleint size enclen w (newp : bool) :
  let A := lp_hdr total num ++ lp_body l1 in
  let T := lp_body l2 ++ [LP_EOF] in
  let l' := l1 ++ new_entries op ++ l2 in
  let bl := if negb (is_delete op) then lpEncodeBacklen enclen else [] in
  Forall ent_ok (l1 ++ mid ++ l2) -> num_ok num (zlen (l1 ++ mid ++ l2)) ->
  stored op elestr eleint size enclen -> where_ok w mid op ->
  zlen X = zlen (lp_body (new_entries op)) -> total' = lp_total l' -> total' <= UINT32_MAX ->
  exists lp', lpInsert_store (A ++ X ++ T ++ slack) elestr eleint size enclen (zlen A) bl total' w
                (is_delete op) newp =
              Ok (Some (lp', if newp then Some (lp_ptr l' (length l1)) else None)) /\ lp_repr l' lp'.
Proof.
  intros A T l' bl Hl Hn Hs Hw HX Ht' Hmax.
  apply Forall_app in Hl as [Hl1 Hl]. apply Forall_app in Hl as [Hmid Hl2].
  assert (Forall ent_ok l') as Hl'.
  { apply Forall_app; split; [done|]. apply Forall_app; split; [|done].
    destruct op as [e|]; [|done]. apply Forall_cons; split; [by destruct Hs|done]. }
  assert (zlen A = LP_HDR_SIZE + zlen (lp_body l1)) as HA by (unfold A; rewrite zlen_app, zlen_hdr; lia).
  assert (lp_total l2 <= UINT32_MAX) as Hl2t.
  { subst total'. unfold l' in Hmax. rewrite app_assoc in Hmax. unfold lp_total in *.
    rewrite lp_body_app, zlen_app in Hmax. pose proof (zlen_nonneg (lp_body (l1 ++ new_entries op))). lia. }
  assert (zlen (lp_body (new_entries op)) <= UINT32_MAX) as Hnew.
  { subst total'. unfold l', lp_total in Hmax. rewrite !lp_body_app, !zlen_app in Hmax.
    pose proof (zlen_nonneg (lp_body l1)). pose proof (zlen_nonneg (lp_body l2)). unfold LP_HDR_SIZE in *. lia. }
  unfold lpInsert_store. unfold T. rewrite (newp_ok A X l2 slack op newp Hl2 Hl2t HX), bind_Ok. fold T.
  assert ((if negb (is_delete op) then
      lp ← match eleint with
           | Some bs => bs ← rd bs 0 enclen; wr (A ++ X ++ T ++ slack) (zlen A) bs
           | None => match elestr with
                     | Some s => lpEncodeString (A ++ X ++ T ++ slack) (zlen A) s size
                     | None => Ok (A ++ X ++ T ++ slack)
                     end
           end;
      wr lp (zlen A + enclen) bl
    else Ok (A ++ X ++ T ++ slack)) = Ok (A ++ lp_body (new_entries op) ++ T ++ slack)) as ->.
  { destruct op as [e|]; cbn [is_delete negb new_entries] in *.
    - destruct Hs as (He & -> & Hen & Hst). unfold bl. unfold lp_body in *.
      cbn [fmap list_fmap mjoin list_join] in *. rewrite app_nil_r in *. apply store_ok; [done| |done].
      unfold ent_bytes in Hnew. rewrite zlen_app in Hnew. pose proof (zlen_nonneg (lpEncodeBacklen (zlen (ent_body e)))).
      lia.
    - change (zlen (lp_body [])) with 0 in HX. destruct X as [|x X]; [done|].
      rewrite zlen_cons in HX. pose proof (zlen_nonneg X). lia. }
  rewrite bind_Ok. unfold A. rewrite <- app_assoc.
  set (rest := lp_body l1 ++ _).
  assert (exists num', num_ok num' (zlen l') /\
    (if negb (bool_decide (w = LP_REPLACE)) || is_delete op then
       num_elements ← lpGetNumElements (lp_hdr total num ++ rest);
       if negb (num_elements =? LP_HDR_NUMELE_UNKNOWN) then
         if negb (is_delete op) then lpSetNumElements (lp_hdr total num ++ rest) (wrapU 32 (num_elements + 1))
         else lpSetNumElements (lp_hdr total num ++ rest) (wrapU 32 (num_elements - 1))
       else Ok (lp_hdr total num ++ rest)
     else Ok (lp_hdr total num ++ rest)) = Ok (lp_hdr total num' ++ rest)) as (num' & Hn' & ->).
  { pose proof (where_count w mid op (l1 ++ mid ++ l2) Hw) as Hc. unfold l'. rewrite !zlen_app in *.
    revert Hc. destruct (_ || _); intros Hc; [|exists num; split; [by rewrite Hc|done]].
    destruct (bump_ok total num (zlen l1 + (zlen mid + zlen l2)) (if is_delete op then -1 else 1) rest Hn)
      as (num' & Hn' & E).
    1-3: pose proof (zlen_nonneg l1); pose proof (zlen_nonneg l2); pose proof (zlen_nonneg mid);
         pose proof (zlen_nonneg (new_entries op)); destruct (is_delete op); lia.
    exists num'. split; [by replace (zlen l1 + _) with (zlen l1 + (zlen mid + zlen l2) + (if is_delete op then -1 else 1)) by lia|].
    rewrite <- E. by destruct (is_delete op). }
  rewrite bind_Ok, set_total_ok, bind_Ok. eexists. split.
  - do 2 f_equal. destruct newp; [|done]. unfold lp_ptr, lp_off, l'. rewrite take_app_length.
    case_decide as Hd.
    + rewrite decide_False; [done|]. rewrite !length_app. rewrite <- length_app, Hd. cbn. lia.
    + rewrite decide_True; [by rewrite <- HA|]. rewrite length_app.
      destruct (new_entries op ++ l2); [done|cbn; lia].
  - subst total'. split_and!; [done..|]. exists num', slack. split; [done|].
    unfold rest, T, l'. by rewrite !lp_body_app, <- !app_assoc.
Qed.

Lemma insert_at_ok lp l1 mid l2 op elestr eleint size enclen w (newp : bool) :
  lp_repr (l1 ++ mid ++ l2) lp -> stored op elestr eleint size enclen -> where_ok w mid op ->
  let l' := l1 ++ new_entries op ++ l2 in
  let r := lpInsert_at lp elestr eleint size enclen (LP_HDR_SIZE + zlen (lp_body l1)) w
             (is_delete op) newp in
  if lp_total l' <=? UINT32_MAX then
    exists lp', r = Ok (Some (lp', if newp then Some (lp_ptr l' (length l1)) else None)) /\ lp_repr l' lp'
  else r = Ok None.
Proof.
  intros (Hl & Ht & num & slack & Hn & ->) Hs Hw l'.
  assert (w = LP_BEFORE -> mid = []) as Hmb by (intros ->; by destruct mid).
  destruct (stored_len _ _ _ _ _ Hs) as [Hlen Henc].
  set (tot := lp_total (l1 ++ mid ++ l2)) in *.
  set (A := lp_hdr tot num ++ lp_body l1). set (T := lp_body l2 ++ [LP_EOF]).
  assert (zlen A = LP_HDR_SIZE + zlen (lp_body l1)) as HA by (unfold A; rewrite zlen_app, zlen_hdr; lia).
  assert (zlen T = zlen (lp_body l2) + 1) as HT by (unfold T; rewrite zlen_app; done).
  assert (tot = zlen A + zlen (lp_body mid) + zlen T) as Htot.
  { unfold tot, lp_total. rewrite !lp_body_app, !zlen_app, HA. lia. }
  assert (lp_total l' = zlen A + zlen (lp_body (new_entries op)) + zlen T) as Htot'.
  { unfold l', lp_total. rewrite !lp_body_app, !zlen_app, HA. lia. }
  replace (lp_hdr tot num ++ _) with (A ++ lp_body mid ++ T ++ slack)
    by (unfold A, T; rewrite !lp_body_app, <- !app_assoc; done).
  rewrite <- HA. pose proof (total_nonneg l'). pose proof (total_nonneg (l1 ++ mid ++ l2)).
  pose proof (zlen_nonneg (lp_body l1)). pose proof (zlen_nonneg (lp_body l2)).
  pose proof (zlen_nonneg (lp_body mid)). pose proof (zlen_nonneg (lp_body (new_entries op))).
  assert (lpGetTotalBytes (A ++ lp_body mid ++ T ++ slack) = Ok tot) as Hget.
  { unfold A, lp_hdr. rewrite <- !app_assoc. apply get_total. unfold tot in *. lia. }
  unfold lpInsert_at. cbv zeta.
  pose proof (replaced_ok A mid (T ++ slack) tot w) as Hrep. cbv zeta in Hrep.
  rewrite Hget, bind_Ok, Hrep, bind_Ok
    by (lia || done || (by destruct w, mid as [|? []]) || (apply Forall_app in Hl as [? [? ?]%Forall_app]; done)).
  clear Hrep. set (bl := if negb (is_delete op) then lpEncodeBacklen enclen else []) in *.
  assert (0 <= zlen bl <= 5) as Hbl.
  { pose proof (backlen_size enclen). unfold bl. destruct (is_delete op); cbn [negb]; [done|lia]. }
  replace (wrapU 64 _) with (lp_total l') by (zconst; rewrite wrapU_small; lia). rewrite !Z.gtb_ltb.
  destruct (Z.leb_spec (lp_total l') UINT32_MAX) as [Hmax|Hmax]; [|by ztrue (UINT32_MAX <? lp_total l')].
  zfalse (UINT32_MAX <? lp_total l').
  destruct (splice_ok A (lp_body mid) T slack (zlen (lp_body (new_entries op)))) as (X & slack' & HX & Hsp); [lia|].
  unfold splice in Hsp. cbv zeta in Hsp. rewrite <- Htot, <- Htot', !Z.gtb_ltb in Hsp.
  apply bind_Ok_inv in Hsp as (lp2 & Hmv & Hre%(inj Ok)).
  match goal with |- context [memmove ?lp1 _ _ _] => set (lpr := lp1) in * end.
  assert ((if decide (w = LP_BEFORE) then memmove lpr (zlen A + enclen + zlen bl) (zlen A) (tot - zlen A)
     else memmove lpr (zlen A + zlen (lp_body mid) + (enclen + zlen bl - zlen (lp_body mid)))
            (zlen A + zlen (lp_body mid)) (tot - zlen A - zlen (lp_body mid))) = Ok lp2) as ->.
  { rewrite <- Hmv. case_decide as Hwb; [|f_equal; lia].
    assert (zlen (lp_body mid) = 0) by (by rewrite (Hmb Hwb)). f_equal; lia. }
  rewrite bind_Ok, Hre. by apply (store_phase tot num _ l1 mid).
Qed.

(** The encoding phase. *)
Lemma encode_ok elestr eleint size op :
  ele_args elestr eleint size op ->
  exists eleint' enclen, lpInsert_encode elestr eleint size = Ok (eleint', enclen) /\
    stored op elestr eleint' size enclen /\
    (match elestr, eleint with None, None => true | _, _ => false end) = is_delete op.
Proof.
  intros [s e Hb Hs He|v Hv|]; cbn [lpInsert_encode].
  - destruct (lpEncodeGetType_ok s Hb Hs) as (e' & He' & Hok & ->). rewrite bind_Ok.
    rewrite (ent_of_str_inj s e e') in * by done. eexists _, _. split; [done|]. split; [|done].
    cbn [stored]. pose proof (zlen_nonneg s). zconst. split_and!; [done..| |].
    + destruct e' as [v|s']; cbn [ent_body]; [unfold int_body; repeat case_match; zlens; lia|].
      destruct He' as [(? & _ & _ & [=])|[_ [= ->]]]. unfold str_hdr. repeat case_match; zlens; lia.
    + destruct e' as [v|s']; [done|]. by destruct He' as [(? & _ & _ & [=])|[_ [= ->]]].
  - eexists _, _. split; [done|]. split; [|done]. cbn [stored]. split_and!; try done.
    unfold ent_body, int_body. repeat case_match; zlens; lia.
  - eexists _, _. split; [done|]. done.
Qed.

(** Insertion before the entry at the boundary of [l1] (or before the end), and
    replacement of an entry. *)
Lemma lp_insert_ok lp l1 mid l2 op elestr eleint size w (newp : bool) :
  lp_repr (l1 ++ mid ++ l2) lp -> ele_args elestr eleint size op ->
  where_ok (if is_delete op then LP_REPLACE else w) mid op ->
  let l' := l1 ++ new_entries op ++ l2 in
  let r := lpInsert lp elestr eleint size (LP_HDR_SIZE + zlen (lp_body l1)) w newp in
  if lp_total l' <=? UINT32_MAX then
    exists lp', r = Ok (Some (lp', if newp then Some (lp_ptr l' (length l1)) else None)) /\ lp_repr l' lp'
  else r = Ok None.
Proof.
  intros Hr Ha Hw l'. destruct (encode_ok _ _ _ _ Ha) as (eleint' & enclen & He & Hs & Hd).
  unfold lpInsert. rewrite Hd. cbv zeta.
  set (w' := if is_delete op then LP_REPLACE else w) in *.
  rewrite decide_False by (intros E; rewrite E in Hw; by destruct mid).
  rewrite bind_Ok, He, bind_Ok. by apply insert_at_ok with (mid := mid).
Qed.

Lemma off_take l1 l2 : lp_off (l1 ++ l2) (length l1) = LP_HDR_SIZE + zlen (lp_body l1).
Proof. unfold lp_off. by rewrite take_app_length. Qed.

(** Insertion after an entry is insertion before the next. *)
Lemma insert_after_ok lp l1 e l2 n elestr eleint size (newp : bool) :
  lp_repr (l1 ++ e :: l2) lp -> ele_args elestr eleint size (Some n) ->
  lpInsert lp elestr eleint size (LP_HDR_SIZE + zlen (lp_body l1)) LP_AFTER newp =
  lpInsert lp elestr eleint size (LP_HDR_SIZE + zlen (lp_body (l1 ++ [e]))) LP_BEFORE newp.
Proof.
  intros Hr Ha. destruct (encode_ok _ _ _ _ Ha) as (_ & _ & _ & _ & Hd).
  destruct (repr_walkable _ _ Hr) as (num & _ & Hw). unfold lpInsert. rewrite Hd. cbv zeta.
  cbn [is_delete]. rewrite decide_True, decide_False by done.
  assert (lpSkip lp (LP_HDR_SIZE + zlen (lp_body l1)) = Ok (LP_HDR_SIZE + zlen (lp_body (l1 ++ [e])))) as Hskip.
  { rewrite <- (off_take l1 (e :: l2)). apply (skip_entry _ (lp_total (l1 ++ e :: l2))).
    pose proof (chain_lookup _ _ _ _ _ (length l1) (lp_off (l1 ++ e :: l2) (length l1)) (walk_chain _ _ _ _ Hw)) as Hc.
    rewrite !offs_ptr in Hc. unfold lp_ptr in Hc. rewrite !length_app in Hc. cbn [length] in Hc.
    rewrite decide_True in Hc by lia. specialize (Hc eq_refl).
    replace (LP_HDR_SIZE + _) with (default (lp_total (l1 ++ e :: l2) - 1)
      (if decide (S (length l1) < length l1 + S (length l2))%nat
       then Some (lp_off (l1 ++ e :: l2) (S (length l1))) else None)); [done|].
    case_decide; cbn [default from_option id].
    - unfold lp_off. rewrite (cons_middle e l1 l2), app_assoc.
      replace (S (length l1)) with (length (l1 ++ [e])) by (rewrite length_app; cbn; lia).
      by rewrite take_app_length.
    - destruct l2; [|cbn in *; lia]. unfold lp_total. lia. }
  rewrite Hskip, bind_Ok. unfold ASSERT_INTEGRITY. rewrite (walk_total _ _ _ _ Hw), bind_Ok, Z.geb_leb.
  pose proof (zlen_nonneg (lp_body (l1 ++ [e]))) as H1. pose proof (zlen_nonneg (lp_body l2)) as H2.
  rewrite (cons_middle e l1 l2), app_assoc. unfold lp_total. rewrite (lp_body_app (l1 ++ [e]) l2), zlen_app.
  ztrue ((LP_HDR_SIZE <=? LP_HDR_SIZE + zlen (lp_body (l1 ++ [e]))) &&
         (LP_HDR_SIZE + zlen (lp_body (l1 ++ [e])) <?
          LP_HDR_SIZE + (zlen (lp_body (l1 ++ [e])) + zlen (lp_body l2)) + 1)).
  by rewrite !bind_Ok.
Qed.

Lemma shrink_ok l lp : lp_repr l lp ->
  exists lp', lpShrinkToFit lp = Ok lp' /\ lp_repr l lp' /\ zlen lp' <= Z.max (usable (lp_total l)) (zlen lp).
Proof.
  intros Hr. destruct (repr_walkable _ _ Hr) as (num & _ & Hw). unfold lpShrinkToFit.
  rewrite (walk_total _ _ _ _ Hw), bind_Ok. case_match; [|exists lp; split_and!; [done..|lia]].
  destruct Hr as (Hl & Ht & num' & slack & Hn & ->).
  replace (lp_hdr _ _ ++ _) with ((lp_hdr (lp_total l) num' ++ lp_body l ++ [LP_EOF]) ++ slack)
    by (by rewrite <- !app_assoc).
  unfold lp_realloc. pose proof (usable_ge (lp_total l)).
  destruct (zrealloc_keep (lp_hdr (lp_total l) num' ++ lp_body l ++ [LP_EOF]) slack (usable (lp_total l)))
    as (c & -> & Hc).
  { rewrite !zlen_app, zlen_hdr. change (zlen [LP_EOF]) with 1. unfold lp_total in *. lia. }
  eexists. split; [done|]. split; [|rewrite zlen_app; lia].
  split_and!; [done..|]. exists num', c. by rewrite <- !app_assoc.
Qed.

Lemma lp_new_ok capacity : exists lp, lpNew capacity = Ok lp /\ lp_repr [] lp.
Proof.
  unfold lpNew, lp_malloc, LP_HDR_SIZE. rewrite Z.gtb_ltb. set (n := if _ <? _ then _ else _).
  assert (7 <= usable n) as Hn.
  { pose proof (usable_ge n). subst n. destruct (Z.ltb_spec (6 + 1) capacity); lia. }
  destruct (zrealloc_grow [] (usable n)) as (x & -> & Hx); [change (zlen []) with 0; lia|].
  change (zlen []) with 0 in Hx. cbn [app].
  destruct (cut_at x 4) as (x4 & y & -> & H4 & H4'); [lia|].
  destruct (cut_at y 2) as (x2 & z & -> & H2 & H2'); [lia|].
  destruct (cut_at z 1) as (x1 & s & -> & H1 & _); [lia|].
  rewrite set_total, bind_Ok, set_num, bind_Ok by done.
  rewrite app_assoc, (wr_app _ x1 [LP_EOF]) by done. eexists. split; [done|].
  split_and!; [done|done|]. exists 0, s. split; [by left|]. unfold lp_hdr. by rewrite <- !app_assoc.
Qed.

(** The loop of [lpDeleteRangeWithEntry] from the entry of index [i]. *)
Lemma delete_loop lp total num0 ps i p fuel num d :
  walkable lp total num0 ps -> ps !! i = Some p -> (length ps - i <= fuel)%nat -> 0 < num ->
  let k := Z.to_nat (Z.min num (zlen ps - Z.of_nat i)) in
  lpDeleteRange_loop fuel lp total num p d = Ok (default (total - 1) (ps !! (i + k)%nat), d + Z.of_nat k).
Proof.
  intros Hw. revert i p num d. induction fuel as [|fuel IH]; intros i p num d Hp Hf Hn k;
    pose proof (lookup_lt_Some _ _ _ Hp) as Hi; [lia|].
  cbn [lpDeleteRange_loop]. zfalse (num =? 0).
  rewrite (skip_entry _ total _ (default (total - 1) (ps !! S i))), bind_Ok
    by (eapply chain_lookup, Hp; apply Hw).
  pose proof (at_next _ _ _ _ Hw (S i)) as Hnx. unfold zlen in *.
  destruct (ps !! S i) as [q|] eqn:Hq; cbn [default from_option id].
  - destruct Hnx as [q' He]. pose proof (assert_entry _ _ _ _ He) as Has.
    destruct He as (b & ? & ? & Hb & Hne & _). rewrite Hb, bind_Ok. zfalse (b =? LP_EOF).
    rewrite Has, bind_Ok. pose proof (lookup_lt_Some _ _ _ Hq).
    destruct (decide (num = 1)) as [->|].
    + replace k with 1%nat by lia. rewrite Nat.add_1_r, Hq. by destruct fuel.
    + rewrite (IH (S i)) by (done || lia). subst k. do 2 f_equal; [|lia]. do 2 f_equal. lia.
  - rewrite (walk_eof _ _ _ _ Hw), bind_Ok. cbn. apply lookup_ge_None in Hq.
    rewrite lookup_ge_None_2 by lia. cbn. do 2 f_equal. lia.
Qed.

(** The tail moved over deleted entries. *)
Lemma move_tail A R T slack :
  exists slack', memmove (A ++ R ++ T ++ slack) (zlen A) (zlen A + zlen R) (zlen T) = Ok (A ++ T ++ slack').
Proof.
  pose proof (zlen_nonneg R). pose proof (zlen_nonneg T). pose proof (zlen_nonneg slack). unfold memmove.
  rewrite app_assoc, (rd_app (A ++ R) T slack), bind_Ok by (rewrite ?zlen_app; lia). rewrite <- app_assoc.
  destruct (cut_at (R ++ T ++ slack) (zlen T)) as (Y & s & -> & HY & _); [rewrite !zlen_app; lia|].
  rewrite wr_app by done. by eexists.
Qed.

(** The first byte at an entry boundary tells whether an entry follows. *)
Lemma boundary_byte l1 l2 lp :
  lp_repr (l1 ++ l2) lp ->
  exists b, rd1 lp (LP_HDR_SIZE + zlen (lp_body l1)) = Ok b /\
    (if b =? LP_EOF then None else Some (LP_HDR_SIZE + zlen (lp_body l1))) = lp_ptr (l1 ++ l2) (length l1).
Proof.
  intros Hr. destruct (repr_walkable _ _ Hr) as (num & _ & Hw). rewrite <- (off_take l1 l2).
  pose proof (offs_ptr (l1 ++ l2) (length l1)) as Ho. pose proof (at_next _ _ _ _ Hw (length l1)) as Hn.
  unfold lp_ptr in *. rewrite length_app in *. rewrite Ho in Hn. case_decide as Hd.
  - destruct Hn as (p' & b & ? & ? & Hb & Hne & _). exists b. split; [done|]. by zfalse (b =? LP_EOF).
  - destruct l2; [|cbn in Hd; lia]. exists LP_EOF. split; [|done].
    rewrite <- (walk_eof _ _ _ _ Hw). f_equal. rewrite off_take, app_nil_r. unfold lp_total. lia.
Qed.

(** Where the entries of [l1] end. *)
Lemma offs_boundary l1 l2 :
  default (lp_total (l1 ++ l2) - 1) (offs LP_HDR_SIZE (l1 ++ l2) !! length l1) =
  LP_HDR_SIZE + zlen (lp_body l1).
Proof.
  rewrite offs_ptr. unfold lp_ptr. rewrite length_app. case_decide.
  - cbn [default from_option id]. apply off_take.
  - destruct l2; [|cbn in *; lia]. rewrite app_nil_r. cbn [default from_option]. unfold lp_total. lia.
Qed.

(** The end of a range deletion: the count, the allocation and the cursor. *)
Lemma delete_finish l1 l3 num k slack :
  Forall ent_ok (l1 ++ l3) -> lp_total (l1 ++ l3) <= UINT32_MAX -> 0 <= k ->
  num_ok num (zlen (l1 ++ l3) + k) ->
  let lp := lp_hdr (lp_total (l1 ++ l3)) num ++ lp_body l1 ++ (lp_body l3 ++ [LP_EOF]) ++ slack in
  exists lp',
    (numele ← lpGetNumElements lp;
     lp ← (if negb (numele =? LP_HDR_NUMELE_UNKNOWN)
           then lpSetNumElements lp (wrapU 64 (numele - k)) else Ok lp);
     lp ← lpShrinkToFit lp;
     b ← rd1 lp (LP_HDR_SIZE + zlen (lp_body l1));
     Ok (lp, if b =? LP_EOF then None else Some (LP_HDR_SIZE + zlen (lp_body l1)))) =
    Ok (lp', lp_ptr (l1 ++ l3) (length l1)) /\ lp_repr (l1 ++ l3) lp'.
Proof.
  intros Hl Ht Hk Hn lp. pose proof (zlen_nonneg (l1 ++ l3)).
  assert (exists lp1, (numele ← lpGetNumElements lp;
     if negb (numele =? LP_HDR_NUMELE_UNKNOWN) then lpSetNumElements lp (wrapU 64 (numele - k)) else Ok lp)
     = Ok lp1 /\ lp_repr (l1 ++ l3) lp1) as (lp1 & E & Hr).
  { unfold lp, lp_hdr. rewrite <- !app_assoc. unfold num_ok, LP_HDR_NUMELE_UNKNOWN in *.
    rewrite get_num, bind_Ok by lia. destruct (Z.eqb_spec num 65535) as [->|Hne]; cbn [negb].
    - eexists. split; [done|]. split_and!; [done..|]. exists 65535, slack. split; [by right|].
      unfold lp_hdr. by rewrite lp_body_app, <- !app_assoc.
    - destruct Hn as [[-> Hn]|]; [|done]. zwrap. replace (_ + k - k) with (zlen (l1 ++ l3)) by lia.
      rewrite set_num by done. eexists. split; [done|]. split_and!; [done..|].
      exists (zlen (l1 ++ l3)), slack. split; [left; unfold LP_HDR_NUMELE_UNKNOWN; lia|].
      unfold lp_hdr. by rewrite lp_body_app, <- !app_assoc. }
  apply bind_Ok_inv in E as (n & -> & E). rewrite bind_Ok, E, bind_Ok.
  destruct (shrink_ok _ _ Hr) as (lp2 & -> & Hr2 & _). rewrite bind_Ok.
  destruct (boundary_byte _ _ _ Hr2) as (b & Hb & Hp). rewrite Hb, bind_Ok, Hp. by eexists.
Qed.

Lemma delete_entries_ok lp l1 l2 num :
  lp_repr (l1 ++ l2) lp -> l2 <> [] -> 0 <= num ->
  let l' := l1 ++ drop (Z.to_nat num) l2 in
  exists lp', lpDeleteRangeWithEntry lp (LP_HDR_SIZE + zlen (lp_body l1)) num =
                Ok (lp', lp_ptr l' (length l1)) /\ lp_repr l' lp'.
Proof.
  intros Hr Hne Hnum l'. destruct (repr_walkable _ _ Hr) as (num0 & _ & Hw).
  unfold lpDeleteRangeWithEntry, lpBytes. rewrite (walk_total _ _ _ _ Hw), bind_Ok. cbv zeta.
  assert (0 < length l2)%nat as Hl2 by (destruct l2; [done|cbn; lia]).
  destruct (Z.eqb_spec num 0) as [->|Hn0].
  { exists lp. subst l'. change (drop (Z.to_nat 0) l2) with l2. split; [|done]. do 2 f_equal.
    unfold lp_ptr. by rewrite decide_True, off_take by (rewrite length_app; lia). }
  set (mid := take (Z.to_nat num) l2). set (l3 := drop (Z.to_nat num) l2) in *.
  assert (l2 = mid ++ l3) as El2 by (unfold mid, l3; by rewrite take_drop).
  pose proof (walk_len _ _ _ _ Hw) as Hwl. pose proof (walk_fits _ _ _ _ Hw) as Hwf.
  rewrite (delete_loop lp (lp_total (l1 ++ l2)) num0 (offs LP_HDR_SIZE (l1 ++ l2)) (length l1));
    [|done| |unfold zlen in *; lia|lia].
  2:{ rewrite offs_ptr. unfold lp_ptr. by rewrite decide_True, off_take by (rewrite length_app; lia). }
  rewrite bind_Ok, zlen_offs. set (k := Z.to_nat _).
  assert (length mid = k) as Hk.
  { unfold mid, k, zlen. rewrite length_take, length_app. lia. }
  replace (length l1 + k)%nat with (length (l1 ++ mid)) by (rewrite length_app; lia).
  rewrite El2, app_assoc, offs_boundary. rewrite El2, app_assoc in Hr.
  destruct Hr as (Hl & Ht & num' & slack & Hn & ->).
  set (tot := lp_total ((l1 ++ mid) ++ l3)) in *.
  set (T := lp_body l3 ++ [LP_EOF]). rewrite lp_body_app, zlen_app.
  assert (zlen T = zlen (lp_body l3) + 1) as HT by (unfold T; rewrite zlen_app; done).
  assert (tot = LP_HDR_SIZE + zlen (lp_body l1) + zlen (lp_body mid) + zlen T) as Htot.
  { unfold tot, lp_total. rewrite !lp_body_app, !zlen_app. lia. }
  destruct (move_tail (lp_hdr tot num' ++ lp_body l1) (lp_body mid) T slack) as (slack' & Hmv).
  rewrite zlen_app, zlen_hdr in Hmv.
  replace (lp_hdr tot num' ++ lp_body ((l1 ++ mid) ++ l3) ++ LP_EOF :: slack)
    with ((lp_hdr tot num' ++ lp_body l1) ++ lp_body mid ++ T ++ slack)
    by (unfold T; rewrite !lp_body_app, <- !app_assoc; done).
  replace (memmove _ _ _ _) with (Ok ((lp_hdr tot num' ++ lp_body l1) ++ T ++ slack'))
    by (rewrite <- Hmv; f_equal; lia).
  rewrite bind_Ok, <- app_assoc, set_total_ok, bind_Ok.
  replace (tot - _) with (lp_total l') by (rewrite Htot; unfold l', lp_total; rewrite lp_body_app, zlen_app; lia).
  apply delete_finish.
  - rewrite !Forall_app in *. naive_solver.
  - unfold l', lp_total in *. rewrite lp_body_app, zlen_app in *. pose proof (zlen_nonneg (lp_body mid)). lia.
  - lia.
  - rewrite !zlen_app in *. replace (zlen mid) with (Z.of_nat k) in Hn by (unfold zlen; lia).
    by replace (zlen l1 + zlen l3 + (0 + Z.of_nat k)) with (zlen l1 + Z.of_nat k + zlen l3) by lia.
Qed.

Lemma at_index_off l i :
  at_index (offs LP_HDR_SIZE l) i =
  (let j := if i <? 0 then zlen l + i else i in if j <? 0 then None else lp_ptr l (Z.to_nat j)).
Proof. unfold at_index. rewrite zlen_offs. cbv zeta. by rewrite offs_ptr. Qed.

(** The list after a range deletion. *)
Definition spec_delete_range (l : list lpent) (index num : Z) : list lpent :=
  let i := if index <? 0 then zlen l + index else index in
  if i <? 0 then l else take (Z.to_nat i) l ++ drop (Z.to_nat (i + num)) l.

Lemma truncate_ok lp l1 l2 :
  lp_repr (l1 ++ l2) lp -> l2 <> [] -> zlen l1 < LP_HDR_NUMELE_UNKNOWN ->
  exists lp', (lp ← wr lp (LP_HDR_SIZE + zlen (lp_body l1)) [LP_EOF];
               lp ← lpSetTotalBytes lp (LP_HDR_SIZE + zlen (lp_body l1) + 1);
               lp ← lpSetNumElements lp (zlen l1);
               lpShrinkToFit lp) = Ok lp' /\ lp_repr l1 lp'.
Proof.
  intros (Hl & Ht & num & slack & Hn & ->) Hne Hlen.
  assert (exists x r, lp_body l2 ++ LP_EOF :: slack = [x] ++ r) as (x & r & Er).
  { destruct (lp_body l2); by eexists _, _. }
  rewrite lp_body_app, <- (app_assoc (lp_body l1)), Er.
  rewrite app_assoc, (wr_app _ [x]), bind_Ok by (zlens; rewrite ?zlen_hdr; lia || done).
  rewrite <- app_assoc, set_total_ok, bind_Ok. unfold lp_hdr. rewrite <- app_assoc, set_num, bind_Ok by done.
  destruct (shrink_ok l1 (lp_hdr (lp_total l1) (zlen l1) ++ lp_body l1 ++ LP_EOF :: r)) as (lp' & E & Hr & _).
  - apply Forall_app in Hl as [Hl _]. rewrite total_app in Ht. pose proof (zlen_nonneg (lp_body l2)).
    split_and!; [done|lia|]. exists (zlen l1), r. split; [by left|done].
  - exists lp'. split; [|done]. rewrite <- E. done.
Qed.

Lemma delete_range_ok lp l index num :
  lp_repr l lp -> INT64_MIN <= index <= INT64_MAX -> 0 <= num <= UINT64_MAX ->
  exists lp', lpDeleteRange lp index num = Ok lp' /\ lp_repr (spec_delete_range l index num) lp'.
Proof.
  intros Hr Hix Hnum. destruct (repr_walkable _ _ Hr) as (num0 & Hn0 & Hw). unfold lpDeleteRange.
  rewrite (walk_num _ _ _ _ Hw), bind_Ok, (seek_ok _ _ _ _ Hw), at_index_off.
  unfold spec_delete_range. set (i := if index <? 0 then zlen l + index else index). cbv zeta.
  destruct (Z.eqb_spec num 0) as [->|Hnz].
  { exists lp. split; [done|]. rewrite Z.add_0_r, take_drop. by case_match. }
  rewrite bind_Ok. destruct (Z.ltb_spec i 0) as [Hi|Hi]; [by eauto|].
  unfold lp_ptr. case_decide as Hlt.
  2:{ exists lp. split; [done|]. rewrite take_ge, drop_ge, app_nil_r by lia. done. }
  set (l1 := take (Z.to_nat i) l). set (l2 := drop (Z.to_nat i) l).
  assert (l = l1 ++ l2) as El by (unfold l1, l2; by rewrite take_drop).
  assert (length l1 = Z.to_nat i) as Hl1 by (unfold l1; rewrite length_take; lia).
  assert (lp_off l (Z.to_nat i) = LP_HDR_SIZE + zlen (lp_body l1)) as -> by done.
  assert (l2 <> []) as Hne by (intros E; rewrite E, app_nil_r in El; rewrite <- El in Hl1; lia).
  assert (drop (Z.to_nat (i + num)) l = drop (Z.to_nat num) l2) as ->.
  { unfold l2. rewrite drop_drop. f_equal. lia. }
  rewrite El in Hr.
  destruct (delete_entries_ok lp l1 l2 num Hr Hne ltac:(lia)) as (lpd & Ed & Hd).
  destruct (Z.eqb_spec num0 LP_HDR_NUMELE_UNKNOWN) as [->|Hk]; cbn [negb andb].
  { rewrite Ed, bind_Ok. by eexists. }
  destruct Hn0 as [[-> Hlen]|]; [|done]. fold i. zconst. unfold LP_HDR_NUMELE_UNKNOWN, zlen in *. zwrap.
  destruct (Z.leb_spec (Z.of_nat (length l) - i) num) as [Hall|Hall]; [|rewrite Ed, bind_Ok; by eexists].
  destruct (truncate_ok lp l1 l2 Hr Hne) as (lp' & E & Hr'); [unfold LP_HDR_NUMELE_UNKNOWN, zlen; lia|].
  exists lp'. split; [unfold zlen in E; rewrite Hl1, Z2Nat.id in E by done; exact E|].
  rewrite drop_ge, app_nil_r; [done|]. unfold l2. rewrite length_drop. lia.
Qed.

Lemma length_repr l lp :
  lp_repr l lp -> exists lp', lpLength lp = Ok (lp', zlen l) /\ lp_repr l lp'.
Proof.
  intros Hr. destruct (repr_walkable _ _ Hr) as (num & _ & Hw).
  destruct (length_ok _ _ _ _ Hw) as (lp' & E & Hlp'). rewrite zlen_offs in *. exists lp'.
  split; [done|]. destruct Hlp' as [->|(_ & Hlt & Es)]; [done|].
  destruct Hr as (Hl & Ht & num' & slack & Hn & ->). unfold lp_hdr in Es.
  rewrite <- app_assoc, set_num in Es by done. apply (inj Ok) in Es as <-.
  split_and!; [done..|]. exists (zlen l), slack. split; [by left|]. unfold lp_hdr. by rewrite <- app_assoc.
Qed.

(** The two ways of joining the bodies. *)
Lemma join_append l1 l2 a b :
  lp_repr l1 a -> lp_repr l2 b -> lp_total (l1 ++ l2) <= UINT32_MAX ->
  exists total num slack,
    (bs ← rd b LP_HDR_SIZE (lp_total l2 - LP_HDR_SIZE);
     wr (lp_realloc a (lp_total (l1 ++ l2))) (lp_total l1 - 1) bs) =
    Ok (lp_hdr total num ++ lp_body (l1 ++ l2) ++ LP_EOF :: slack).
Proof.
  intros (Hl1 & Ht1 & num1 & s1 & Hn1 & ->) (Hl2 & Ht2 & num2 & s2 & Hn2 & ->) Ht.
  set (T := lp_body l2 ++ [LP_EOF]).
  assert (zlen T = zlen (lp_body l2) + 1) as HT by (unfold T; rewrite zlen_app; done).
  pose proof (zlen_nonneg (lp_body l1)) as Hb1. pose proof (zlen_nonneg (lp_body l2)) as Hb2.
  replace (lp_body l2 ++ LP_EOF :: s2) with (T ++ s2) by (unfold T; by rewrite <- app_assoc).
  rewrite (rd_app (lp_hdr (lp_total l2) num2) T s2), bind_Ok by (rewrite ?zlen_hdr; unfold lp_total; lia).
  rewrite app_assoc.
  destruct (realloc_keep (lp_hdr (lp_total l1) num1 ++ lp_body l1) (LP_EOF :: s1) (lp_total (l1 ++ l2)))
    as (c & -> & Hc).
  { rewrite zlen_app, zlen_hdr, total_app. unfold lp_total. lia. }
  rewrite zlen_app, zlen_app, zlen_hdr, total_app in Hc.
  destruct (cut_at c (zlen T)) as (c1 & c2 & -> & Hc1 & _); [unfold lp_total in *; lia|].
  rewrite wr_app; [|rewrite zlen_app, zlen_hdr; unfold lp_total; lia|lia].
  exists (lp_total l1), num1, c2. unfold T. by rewrite lp_body_app, <- !app_assoc.
Qed.

Lemma join_prepend l1 l2 a b :
  lp_repr l1 a -> lp_repr l2 b -> lp_total (l1 ++ l2) <= UINT32_MAX ->
  exists total num slack,
    (t ← memmove (lp_realloc b (lp_total (l1 ++ l2))) (lp_total l1 - 1) LP_HDR_SIZE (lp_total l2 - LP_HDR_SIZE);
     bs ← rd a 0 (lp_total l1 - 1);
     wr t 0 bs) =
    Ok (lp_hdr total num ++ lp_body (l1 ++ l2) ++ LP_EOF :: slack).
Proof.
  intros (Hl1 & Ht1 & num1 & s1 & Hn1 & ->) (Hl2 & Ht2 & num2 & s2 & Hn2 & ->) Ht.
  set (T := lp_body l2 ++ [LP_EOF]).
  assert (zlen T = zlen (lp_body l2) + 1) as HT by (unfold T; rewrite zlen_app; done).
  pose proof (zlen_nonneg (lp_body l1)) as Hb1. pose proof (zlen_nonneg (lp_body l2)) as Hb2.
  replace (lp_hdr (lp_total l2) num2 ++ lp_body l2 ++ LP_EOF :: s2)
    with ((lp_hdr (lp_total l2) num2 ++ T) ++ s2) by (unfold T; by rewrite <- !app_assoc).
  destruct (realloc_keep (lp_hdr (lp_total l2) num2 ++ T) s2 (lp_total (l1 ++ l2))) as (c & -> & Hc).
  { rewrite zlen_app, zlen_hdr, total_app. unfold lp_total. lia. }
  unfold memmove. rewrite <- app_assoc, (rd_app (lp_hdr (lp_total l2) num2) T c), bind_Ok
    by (rewrite ?zlen_hdr; unfold lp_total; lia).
  set (whole := lp_hdr (lp_total l2) num2 ++ T ++ c).
  assert (lp_total (l1 ++ l2) <= zlen whole) as Hwh by (unfold whole; by rewrite app_assoc).
  rewrite total_app in Hwh.
  destruct (cut_at whole (lp_total l1 - 1)) as (x & y & -> & Hx & _); [unfold lp_total, LP_HDR_SIZE in *; lia|].
  rewrite zlen_app in Hwh.
  destruct (cut_at y (zlen T)) as (y1 & y2 & -> & Hy & _); [unfold lp_total in *; lia|].
  rewrite wr_app, bind_Ok by lia.
  replace (lp_hdr _ _ ++ lp_body l1 ++ _) with ((lp_hdr (lp_total l1) num1 ++ lp_body l1) ++ LP_EOF :: s1)
    by (by rewrite <- app_assoc).
  rewrite rd_app_head, bind_Ok by (rewrite zlen_app, zlen_hdr; unfold lp_total; lia).
  pose proof (wr_app [] x (lp_hdr (lp_total l1) num1 ++ lp_body l1) (T ++ y2) 0) as E. cbn [app] in E.
  rewrite E; [|done|rewrite zlen_app, zlen_hdr; unfold lp_total in *; lia].
  exists (lp_total l1), num1, y2. unfold T. by rewrite lp_body_app, <- !app_assoc.
Qed.

Lemma merge_ok l1 l2 a b :
  lp_repr l1 a -> lp_repr l2 b ->
  if lp_total (l1 ++ l2) <? UINT32_MAX then
    exists t, lpMerge (Some a) (Some b) false = Ok (Some (t, lp_total l2 <=? lp_total l1)) /\
              lp_repr (l1 ++ l2) t
  else lpMerge (Some a) (Some b) false = Panic.
Proof.
  intros Ha Hb. destruct (repr_walkable _ _ Ha) as (? & _ & Hwa).
  destruct (repr_walkable _ _ Hb) as (? & _ & Hwb).
  destruct (length_repr _ _ Ha) as (a' & Ea & Ha'). destruct (length_repr _ _ Hb) as (b' & Eb & Hb').
  pose proof (walk_bytes _ _ _ _ Hwa) as Hma. pose proof (walk_bytes _ _ _ _ Hwb) as Hmb.
  pose proof (total_nonneg l1). pose proof (total_nonneg l2).
  assert (lp_total (l1 ++ l2) = lp_total l1 + lp_total l2 - LP_HDR_SIZE - 1) as Ht.
  { rewrite total_app. unfold lp_total. lia. }
  unfold lpMerge, lpBytes. rewrite (walk_total _ _ _ _ Hwa), bind_Ok, Ea, bind_Ok.
  rewrite (walk_total _ _ _ _ Hwb), bind_Ok, Eb, bind_Ok. cbv zeta. rewrite Z.geb_leb.
  replace (wrapU 64 _) with (lp_total (l1 ++ l2))
    by (rewrite Ht, wrapU_small; [done|unfold LP_HDR_SIZE; zconst; lia]).
  destruct (Z.ltb_spec (lp_total (l1 ++ l2)) UINT32_MAX) as [Hlt|Hge]; [|by destruct (_ <=? _)].
  set (n := if _ <? 65535 then _ else _).
  assert (num_ok n (zlen (l1 ++ l2))) as Hn.
  { unfold num_ok, n, LP_HDR_NUMELE_UNKNOWN. rewrite zlen_app.
    destruct (Z.ltb_spec (zlen l1 + zlen l2) 65535); [left|right]; lia. }
  assert (forall total num slack app, exists t,
    (t ← lpSetNumElements (lp_hdr total num ++ lp_body (l1 ++ l2) ++ LP_EOF :: slack) n;
     t ← lpSetTotalBytes t (lp_total (l1 ++ l2)); Ok (Some (t, app : bool))) = Ok (Some (t, app)) /\
    lp_repr (l1 ++ l2) t) as Hfin.
  { intros total num slack app. unfold lp_hdr. rewrite <- app_assoc, set_num, bind_Ok by done.
    rewrite app_assoc. change (le_bytes 4 total ++ le_bytes 2 n) with (lp_hdr total n).
    rewrite set_total_ok, bind_Ok. eexists. split; [done|].
    split_and!; [apply Forall_app; split; [apply Ha|apply Hb]|lia|]. by exists n, slack. }
  destruct (Z.leb_spec (lp_total l2) (lp_total l1)).
  - destruct (join_append l1 l2 a' b' Ha' Hb' ltac:(lia)) as (total & num & slack & E).
    apply bind_Ok_inv in E as (bs & -> & E). rewrite bind_Ok, E, bind_Ok. apply Hfin.
  - destruct (join_prepend l1 l2 a' b' Ha' Hb' ltac:(lia)) as (total & num & slack & E).
    apply bind_Ok_inv in E as (t & -> & E). rewrite bind_Ok, E, bind_Ok. apply Hfin.
Qed.

End Mutation.

(** ** Element access *)

(** The bytes of the entry of index [i]. *)
Lemma repr_at l lp i e :
  lp_repr l lp -> l !! i = Some e ->
  exists A C, lp = A ++ ent_body e ++ C /\ zlen A = lp_off l i /\ ent_ok e /\ zlen (ent_body e) <= UINT32_MAX /\
    lp_off l i + zlen (ent_bytes e) < lp_total l.
Proof.
  intros (Hl & Ht & num & slack & Hn & ->) Hi.
  destruct (list_elem_of_split_length l i e Hi) as (l1 & l2 & -> & ->).
  apply Forall_app in Hl as [_ [He _]%Forall_cons]. rewrite off_take. unfold lp_total in *.
  set (tot := LP_HDR_SIZE + zlen (lp_body (l1 ++ e :: l2)) + 1) in *.
  assert (tot = LP_HDR_SIZE + zlen (lp_body l1) + zlen (ent_bytes e) + zlen (lp_body l2) + 1) as Htot.
  { unfold tot. rewrite lp_body_app, lp_body_cons, !zlen_app. lia. }
  pose proof (zlen_nonneg (lp_body l1)). pose proof (zlen_nonneg (lp_body l2)).
  exists (lp_hdr tot num ++ lp_body l1),
    (lpEncodeBacklen (zlen (ent_body e)) ++ lp_body l2 ++ LP_EOF :: slack). split_and!.
  - rewrite lp_body_app, lp_body_cons. unfold ent_bytes. by rewrite <- !app_assoc.
  - by rewrite zlen_app, zlen_hdr.
  - done.
  - unfold ent_bytes in Htot. rewrite zlen_app in Htot. unfold LP_HDR_SIZE in *.
    pose proof (zlen_nonneg (lpEncodeBacklen (zlen (ent_body e)))). lia.
  - lia.
Qed.

(** What [lpGetWithSize] returns for an entry, without a buffer for integers. *)
Lemma get_entry l lp i e :
  lp_repr l lp -> l !! i = Some e ->
  exists v, lpGetWithSize lp (lp_off l i) None = Ok (v, Some (zlen (ent_bytes e))) /\
    match e with
    | EInt n => v = IntValue n
    | EStr s => exists off, v = InListpack off (zlen s) /\ rd lp off (zlen s) = Ok s
    end.
Proof.
  intros Hr Hi. destruct (repr_at _ _ _ _ Hr Hi) as (A & C & -> & <- & He & Hm & _). destruct e as [n|s].
  - rewrite get_int by done. by eexists.
  - rewrite get_str.
    2:{ cbn [ent_body] in Hm. rewrite zlen_app in Hm. pose proof (zlen_nonneg (str_hdr (zlen s))). lia. }
    eexists. split; [done|]. eexists. split; [done|]. cbn [ent_body].
    rewrite <- app_assoc, app_assoc. apply rd_app; [by rewrite zlen_app|done].
Qed.

Lemma mem_eq_ok lp off s t :
  rd lp off (zlen s) = Ok s -> zlen s = zlen t -> mem_eq lp off t (zlen t) = Ok (bool_decide (s = t)).
Proof.
  intros Hs Hl. unfold mem_eq. rewrite <- Hl, Hs, bind_Ok, Hl.
  pose proof (rd_app_head t [] _ eq_refl) as E. rewrite app_nil_r in E. by rewrite E.
Qed.

(** The comparison of a string entry with a string. *)
Lemma str_eq_ok lp off s t :
  rd lp off (zlen s) = Ok s ->
  (if zlen t =? zlen s then mem_eq lp off t (zlen t) else Ok false) = Ok (bool_decide (s = t)).
Proof.
  intros Hs. destruct (Z.eqb_spec (zlen t) (zlen s)) as [E|E].
  - by apply mem_eq_ok.
  - rewrite bool_decide_false; [done|]. intros ->. done.
Qed.

(** The comparison of an integer entry with a string. *)
Lemma int_eq_ok n t :
  INT64_MIN <= n <= INT64_MAX ->
  exists r, lpStringToInt64 t (zlen t) = Ok r /\
    (match r with Some v => n =? v | None => false end) = bool_decide (ll_repr n = t).
Proof.
  intros Hn. rewrite lpStringToInt64_string2ll. destruct (string2ll_ok t) as (r & -> & Hr).
  exists r. split; [done|]. destruct (decide (ll_repr n = t)) as [E|E].
  - rewrite (proj2 (Hr n) (conj Hn (eq_sym E))). rewrite bool_decide_true by done. apply Z.eqb_refl.
  - rewrite bool_decide_false by done. destruct r as [v|]; [|done].
    destruct (proj1 (Hr v) eq_refl) as [_ Hv]. apply Z.eqb_neq. congruence.
Qed.

Lemma compare_ok l lp i e t :
  lp_repr l lp -> l !! i = Some e -> lpCompare lp (lp_off l i) t (zlen t) = Ok (bool_decide (ent_str e = t)).
Proof.
  intros Hr Hi. unfold lpCompare. destruct (get_entry _ _ _ _ Hr Hi) as (v & Hg & Hv).
  destruct (repr_at _ _ _ _ Hr Hi) as (A & C & Elp & HA & He & Hm & _).
  destruct (ent_body_cons e He Hm) as (b & r & Hb & Hlt).
  assert (rd1 lp (lp_off l i) = Ok b) as ->.
  { rewrite Elp, <- HA, Hb. cbn [app]. apply rd1_here. }
  rewrite bind_Ok. unfold LP_EOF. zfalse (b =? 255). unfold lpGet. rewrite Hg, !bind_Ok.
  destruct e as [n|s]; cbn [ent_str].
  - subst v. destruct (int_eq_ok n t He) as (r0 & -> & <-). rewrite bind_Ok. by destruct r0.
  - destruct Hv as (off & -> & Hrd). by apply str_eq_ok.
Qed.

(** ** Searching *)

(** Index [j] is looked at by a search from [i] and holds [t]. *)
Definition hit (l : list lpent) (i : nat) (skip : Z) (t : list Z) (j : nat) : Prop :=
  (i <= j)%nat /\ (Z.of_nat j - Z.of_nat i) mod (skip + 1) = 0 /\ exists e, l !! j = Some e /\ ent_str e = t.

(** The first hit, if there is one. *)
Definition first_hit (l : list lpent) (i : nat) (skip : Z) (t : list Z) (o : option nat) : Prop :=
  match o with
  | Some j => hit l i skip t j /\ forall k, (k < j)%nat -> ~ hit l i skip t k
  | None => forall k, ~ hit l i skip t k
  end.

(** The cached encoding of the searched string is right. *)
Definition venc_ok (t : list Z) (venc : vencoding_t) : Prop :=
  match venc with
  | VUnknown => True
  | VNotInt => forall n, INT64_MIN <= n <= INT64_MAX -> ll_repr n <> t
  | VInt v => INT64_MIN <= v <= INT64_MAX /\ ll_repr v = t
  end.

Lemma venc_step t venc n :
  venc_ok t venc -> INT64_MIN <= n <= INT64_MAX ->
  exists venc', (match venc with
                 | VUnknown =>
                     if (zlen t >=? 32) || (zlen t =? 0) then Ok VNotInt
                     else
                       r ← lpStringToInt64 t (zlen t);
                       Ok (match r with Some vll => VInt vll | None => VNotInt end)
                 | _ => Ok venc
                 end) = Ok venc' /\ venc_ok t venc' /\
    (match venc' with VInt vll => n =? vll | _ => false end) = bool_decide (ll_repr n = t).
Proof.
  intros Hv Hn.
  assert (forall v, venc_ok t v -> v <> VUnknown ->
    (match v with VInt vll => n =? vll | _ => false end) = bool_decide (ll_repr n = t)) as Hdec.
  { intros [| |v] Hok Hne; [done| |].
    - rewrite bool_decide_false; [done|]. by apply Hok.
    - destruct Hok as [Hr <-]. destruct (Z.eqb_spec n v) as [->|Hd]; [by rewrite bool_decide_true|].
      rewrite bool_decide_false; [done|]. intros E. destruct (string2ll_ok (ll_repr v)) as (r & _ & Hr').
      pose proof (proj2 (Hr' v) (conj Hr eq_refl)). pose proof (proj2 (Hr' n) (conj Hn (eq_sym E))). congruence. }
  assert (exists v, v <> VUnknown /\ venc_ok t v /\
    (match venc with
     | VUnknown =>
         if (zlen t >=? 32) || (zlen t =? 0) then Ok VNotInt
         else r ← lpStringToInt64 t (zlen t); Ok (match r with Some vll => VInt vll | None => VNotInt end)
     | _ => Ok venc
     end) = Ok v) as (v & Hne & Hok & E); [|exists v; split_and!; [done..|by apply Hdec]].
  destruct venc as [| |v]; [|by exists VNotInt|by exists (VInt v)].
  rewrite Z.geb_leb. destruct ((32 <=? zlen t) || (zlen t =? 0)) eqn:Hl.
  - exists VNotInt. split_and!; [done| |done]. intros m Hm <-. pose proof (ll_repr_bound m Hm). lia.
  - rewrite lpStringToInt64_string2ll. destruct (string2ll_ok t) as (r & -> & Hr). rewrite bind_Ok.
    destruct r as [w|]; eexists; (split_and!; [|..|done]; [done|]); cbn.
    + destruct (proj1 (Hr w) eq_refl). split; [done|]. by symmetry.
    + intros m Hm E. by pose proof (proj2 (Hr m) (conj Hm (eq_sym E))).
Qed.

Lemma off_S l i e : l !! i = Some e -> lp_off l (S i) = lp_off l i + zlen (ent_bytes e).
Proof.
  intros Hi. unfold lp_off. rewrite (take_S_r _ _ _ Hi), lp_body_app, zlen_app.
  unfold lp_body at 2. cbn. rewrite app_nil_r. lia.
Qed.

Lemma off_end l : lp_off l (length l) = lp_total l - 1.
Proof. unfold lp_off, lp_total. rewrite firstn_all. lia. Qed.

(** The step to the entry of index [i] or to the end. *)
Lemma find_next {A} l lp i (k : res (option A)) :
  lp_repr l lp -> (i <= length l)%nat ->
  (_ ← (if lp_off l i + 8 >=? lp_total l then lpAssertValidEntry lp (lp_total l) (lp_off l i)
        else assert! (lp_off l i >=? LP_HDR_SIZE) && (lp_off l i <? lp_total l); Ok tt);
   b ← rd1 lp (lp_off l i);
   if b =? LP_EOF then Ok None else k) = if decide (i < length l)%nat then k else Ok None.
Proof.
  intros Hr Hi. destruct (repr_walkable _ _ Hr) as (num & _ & Hw).
  assert (exists b, rd1 lp (lp_off l i) = Ok b /\ (b =? LP_EOF) = negb (bool_decide (i < length l)%nat) /\
    lpAssertValidEntry lp (lp_total l) (lp_off l i) = Ok tt /\
    LP_HDR_SIZE <= lp_off l i < lp_total l) as (b & Hb & Heof & Ha & Hrange).
  { destruct (decide (i < length l)%nat) as [Hlt|Hge].
    - pose proof (at_next _ _ _ _ Hw i) as Hn. rewrite offs_ptr in Hn. unfold lp_ptr in Hn.
      rewrite decide_True in Hn by done. destruct Hn as [p' He]. pose proof (entry_lt _ _ _ _ He).
      pose proof (assert_entry _ _ _ _ He) as Ha. destruct He as (b & ? & ? & Hb & Hne & _).
      exists b. split_and!; [done| |done|lia..]. rewrite bool_decide_true by done. by apply Z.eqb_neq.
    - assert (i = length l) as -> by lia. rewrite off_end. pose proof (total_nonneg l).
      pose proof (walk_eof _ _ _ _ Hw) as He. exists LP_EOF. rewrite bool_decide_false by done.
      split_and!; [done..| |unfold LP_HDR_SIZE; lia|lia]. unfold lpAssertValidEntry.
      by rewrite (validate_eof _ _ _ He) by (unfold LP_HDR_SIZE; lia). }
  rewrite Ha, !Z.geb_leb.
  ztrue ((LP_HDR_SIZE <=? lp_off l i) && (lp_off l i <? lp_total l)).
  replace (if _ <=? _ then Ok tt else Ok tt) with (Ok tt) by (by case_match).
  rewrite bind_Ok, Hb, bind_Ok, Heof. by case_bool_decide; case_decide.
Qed.

Lemma find_loop l lp i skip t fuel j c venc es :
  lp_repr l lp -> 0 <= skip <= INT32_MAX -> (i <= j < length l)%nat -> (length l - j <= fuel)%nat ->
  0 <= c <= skip -> (Z.of_nat j - Z.of_nat i + c) mod (skip + 1) = 0 ->
  (forall k, (k < j)%nat -> ~ hit l i skip t k) -> venc_ok t venc ->
  exists o, lpFind_loop fuel lp (lp_off l j) t (zlen t) skip c venc es (lp_total l) =
              Ok (lp_off l <$> o) /\ first_hit l i skip t o.
Proof.
  intros Hr Hs. revert j c venc es.
  induction fuel as [|fuel IH]; intros j c venc es Hj Hf Hc Hmod Hprev Hv; [lia|].
  destruct (lookup_lt_is_Some_2 l j ltac:(lia)) as [e He].
  assert (forall c' venc' es', ~ hit l i skip t j -> 0 <= c' <= skip ->
    (Z.of_nat (S j) - Z.of_nat i + c') mod (skip + 1) = 0 -> venc_ok t venc' ->
    exists o, (if decide (S j < length l)%nat
               then lpFind_loop fuel lp (lp_off l (S j)) t (zlen t) skip c' venc' es' (lp_total l)
               else Ok None) = Ok (lp_off l <$> o) /\ first_hit l i skip t o) as Hnext.
  { intros c' venc' es' Hno Hc' Hm' Hv'.
    assert (forall k, (k < S j)%nat -> ~ hit l i skip t k) as Hprev'.
    { intros k Hk. destruct (decide (k = j)) as [->|]; [done|]. apply Hprev. lia. }
    case_decide; [apply IH; [lia|lia|lia|done..]|]. exists None. split; [done|].
    intros k Hk. destruct (decide (k < S j)%nat); [by eapply Hprev'|].
    destruct Hk as (_ & _ & e' & Hk & _). apply lookup_lt_Some in Hk. lia. }
  destruct (repr_at _ _ _ _ Hr He) as (A & C & _ & _ & Hok & _ & Hend).
  cbn [lpFind_loop]. destruct (Z.eqb_spec c 0) as [->|Hc0].
  - assert (forall o, ent_str e = t -> o = Some j -> first_hit l i skip t o) as Hhit.
    { intros o Ht ->. split; [|done]. split_and!; [lia| |by exists e]. by rewrite Z.add_0_r in Hmod. }
    assert (ent_str e <> t -> ~ hit l i skip t j) as Hmiss.
    { intros Hne (_ & _ & e' & He' & Ht). congruence. }
    assert ((Z.of_nat (S j) - Z.of_nat i + skip) mod (skip + 1) = 0) as Hm'.
    { replace (Z.of_nat (S j) - Z.of_nat i + skip) with ((Z.of_nat j - Z.of_nat i + 0) + 1 * (skip + 1)) by lia.
      by rewrite Z.mod_add by lia. }
    destruct (get_entry _ _ _ _ Hr He) as (v & Hg & Hve). rewrite Hg, bind_Ok. zconst. zwrap.
    rewrite <- (off_S _ _ _ He). destruct e as [n|s]; cbn [ent_str] in *.
    + subst v. destruct (venc_step t venc n Hv Hok) as (venc' & E1 & Hv' & E2). rewrite E1, bind_Ok, E2.
      case_bool_decide; [exists (Some j); by auto|]. rewrite (find_next l lp (S j)) by (done || lia).
      apply Hnext; auto; lia.
    + destruct Hve as (off & -> & Hrd). rewrite Z.geb_leb.
      rewrite (off_S _ _ _ He). assert (LP_HDR_SIZE <= lp_off l j) by (unfold lp_off; pose proof (zlen_nonneg (lp_body (take j l))); lia).
      ztrue ((LP_HDR_SIZE <=? lp_off l j) && (lp_off l j + zlen (ent_bytes (EStr s)) <? lp_total l)).
      rewrite str_eq_ok, bind_Ok by done. case_bool_decide; [exists (Some j); by auto|].
      rewrite <- (off_S _ _ _ He), (find_next l lp (S j)) by (done || lia).
      apply Hnext; auto; lia.
  - rewrite sint_ok, bind_Ok by (zconst; cbn; lia).
    destruct (repr_walkable _ _ Hr) as (num & _ & Hw).
    assert (lpSkip lp (lp_off l j) = Ok (lp_off l (S j))) as ->.
    { apply (skip_entry _ (lp_total l)).
      pose proof (chain_lookup _ _ _ _ _ j (lp_off l j) (walk_chain _ _ _ _ Hw)) as Hcl.
      rewrite !offs_ptr in Hcl. unfold lp_ptr in Hcl. rewrite decide_True in Hcl by lia.
      specialize (Hcl eq_refl). case_decide; [done|]. cbn in Hcl.
      assert (S j = length l) as -> by lia. by rewrite off_end. }
    rewrite bind_Ok, (find_next l lp (S j)) by (done || lia).
    apply Hnext; [|lia| |done].
    + intros (_ & Hm & _). apply Z.mod_divide in Hm as [x Hx]; [|lia].
      apply Z.mod_divide in Hmod as [y Hy]; [|lia].
      assert (c = (y - x) * (skip + 1)) by nia. destruct (Z.leb_spec (y - x) 0); nia.
    + rewrite <- Hmod. f_equal. lia.
Qed.

(** ** Sequences of operations *)

(** The entry a string is stored as. *)
Definition entry_of (s : list Z) : lpent :=
  match string2ll s (zlen s) with
  | Ok (Some v) => EInt v
  | _ => EStr s
  end.

Lemma entry_of_ok s : ent_of_str s (entry_of s).
Proof.
  unfold entry_of. destruct (string2ll_ok s) as (r & -> & Hr). destruct r as [v|].
  - left. destruct (proj1 (Hr v) eq_refl). by exists v.
  - right. split; [|done]. intros v Hv E. by pose proof (proj2 (Hr v) (conj Hv E)).
Qed.

Inductive lp_op :=
| OpAppend (s : list Z)
| OpPrepend (s : list Z)
| OpAppendInteger (v : Z)
| OpPrependInteger (v : Z)
| OpInsert (i : nat) (w : lpwhere) (s : list Z)
| OpInsertInteger (i : nat) (w : lpwhere) (v : Z)
| OpReplace (i : nat) (s : list Z)
| OpReplaceInteger (i : nat) (v : Z)
| OpDelete (i : nat)
| OpDeleteRange (index num : Z)
| OpShrink.

Definition str_ok (s : list Z) : Prop := Forall is_byte s /\ zlen s <= UINT32_MAX.
Definition int_ok (v : Z) : Prop := INT64_MIN <= v <= INT64_MAX.

(** The arguments are C values of their types. *)
Definition op_ok (o : lp_op) : Prop :=
  match o with
  | OpAppend s | OpPrepend s | OpInsert _ _ s | OpReplace _ s => str_ok s
  | OpAppendInteger v | OpPrependInteger v | OpInsertInteger _ _ v | OpReplaceInteger _ v => int_ok v
  | OpDelete _ | OpShrink => True
  | OpDeleteRange index num => int_ok index /\ 0 <= num <= UINT64_MAX
  end.

Section Run.
Context `{Host, Alloc}.

(** A caller keeps its listpack when the operation returns [NULL]. *)
Definition keep (lp : list Z) (r : res (option (list Z))) : res (list Z) :=
  r ← r; Ok (match r with Some lp' => lp' | None => lp end).

(** The operation at the element of index [i], found with [lpSeek]. *)
Definition at_elem (lp : list Z) (i : nat) (f : Z -> res (option (list Z * option (option Z)))) : res (list Z) :=
  p ← lpSeek lp (Z.of_nat i);
  match p with
  | Some p => keep lp (ret_lp (f p))
  | None => Ok lp
  end.

Definition lp_step (lp : list Z) (o : lp_op) : res (list Z) :=
  match o with
  | OpAppend s => keep lp (lpAppend lp s (zlen s))
  | OpPrepend s => keep lp (lpPrepend lp s (zlen s))
  | OpAppendInteger v => keep lp (lpAppendInteger lp v)
  | OpPrependInteger v => keep lp (lpPrependInteger lp v)
  | OpInsert i w s => at_elem lp i (fun p => lpInsertString lp s (zlen s) p w false)
  | OpInsertInteger i w v => at_elem lp i (fun p => lpInsertInteger lp v p w false)
  | OpReplace i s => at_elem lp i (fun p => lpReplace lp p s (zlen s))
  | OpReplaceInteger i v => at_elem lp i (fun p => lpReplaceInteger lp p v)
  | OpDelete i => at_elem lp i (fun p => lpDelete lp p false)
  | OpDeleteRange index num => lpDeleteRange lp index num
  | OpShrink => lpShrinkToFit lp
  end.

Fixpoint lp_run (lp : list Z) (os : list lp_op) : res (list Z) :=
  match os with
  | [] => Ok lp
  | o :: os => lp ← lp_step lp o; lp_run lp os
  end.
End Run.

(** The same operations on lists. *)
Definition spec_insert (l : list lpent) (i : nat) (w : lpwhere) (n : lpent) : list lpent :=
  match w with
  | LP_BEFORE => take i l ++ n :: drop i l
  | LP_AFTER => take (S i) l ++ n :: drop (S i) l
  | LP_REPLACE => take i l ++ n :: drop (S i) l
  end.

(** The new list, unless it would not fit in a listpack. *)
Definition fits (l l' : list lpent) : list lpent := if lp_total l' <=? UINT32_MAX then l' else l.

Definition spec_at (l : list lpent) (i : nat) (l' : list lpent) : list lpent :=
  if decide (i < length l)%nat then fits l l' else l.

Definition spec_step (l : list lpent) (o : lp_op) : list lpent :=
  match o with
  | OpAppend s => fits l (l ++ [entry_of s])
  | OpPrepend s => fits l (entry_of s :: l)
  | OpAppendInteger v => fits l (l ++ [EInt v])
  | OpPrependInteger v => fits l (EInt v :: l)
  | OpInsert i w s => spec_at l i (spec_insert l i w (entry_of s))
  | OpInsertInteger i w v => spec_at l i (spec_insert l i w (EInt v))
  | OpReplace i s => spec_at l i (spec_insert l i LP_REPLACE (entry_of s))
  | OpReplaceInteger i v => spec_at l i (spec_insert l i LP_REPLACE (EInt v))
  | OpDelete i => spec_at l i (take i l ++ drop (S i) l)
  | OpDeleteRange index num => spec_delete_range l index num
  | OpShrink => l
  end.

Section RunLemmas.
Context `{Host, Alloc}.

(** All element insertions at an existing element. *)
Lemma insert_elem_ok lp l i e op elestr eleint size w (newp : bool) :
  lp_repr l lp -> l !! i = Some e -> ele_args elestr eleint size op ->
  let l' := match op with Some n => spec_insert l i w n | None => take i l ++ drop (S i) l end in
  let j := match op, w with Some _, LP_AFTER => S i | _, _ => i end in
  if lp_total l' <=? UINT32_MAX then
    exists lp', lpInsert lp elestr eleint size (lp_off l i) w newp =
                  Ok (Some (lp', if newp then Some (lp_ptr l' j) else None)) /\ lp_repr l' lp'
  else lpInsert lp elestr eleint size (lp_off l i) w newp = Ok None.
Proof.
  intros Hr Hi Ha. destruct (list_elem_of_split_length l i e Hi) as (l1 & l2 & -> & ->).
  assert (drop (S (length l1)) (l1 ++ e :: l2) = l2) as Ed.
  { rewrite cons_middle, app_assoc. replace (S (length l1)) with (length (l1 ++ [e]))
      by (rewrite length_app; cbn; lia). apply drop_app_length. }
  assert (take (S (length l1)) (l1 ++ e :: l2) = l1 ++ [e]) as Et.
  { rewrite cons_middle, app_assoc. replace (S (length l1)) with (length (l1 ++ [e]))
      by (rewrite length_app; cbn; lia). apply take_app_length. }
  rewrite off_take. unfold spec_insert. rewrite Ed, Et, take_app_length, drop_app_length.
  destruct op as [n|].
  - destruct w.
    + apply (lp_insert_ok lp l1 [] (e :: l2) (Some n) elestr eleint size LP_BEFORE newp Hr Ha). done.
    + rewrite (insert_after_ok lp l1 e l2 n elestr eleint size newp Hr Ha).
      rewrite (cons_middle e l1 l2), app_assoc in Hr.
      pose proof (lp_insert_ok lp (l1 ++ [e]) [] l2 (Some n) elestr eleint size LP_BEFORE newp Hr Ha ltac:(done)) as E.
      rewrite length_app in E. cbn [length] in E. by rewrite Nat.add_1_r in E.
    + apply (lp_insert_ok lp l1 [e] l2 (Some n) elestr eleint size LP_REPLACE newp Hr Ha). done.
  - pose proof (lp_insert_ok lp l1 [e] l2 None elestr eleint size w newp Hr Ha I) as E. by destruct w.
Qed.

Lemma keep_ok lp l l' r :
  lp_repr l lp ->
  (if lp_total l' <=? UINT32_MAX
   then exists lp' x, r = Ok (Some (lp', x : option (option Z))) /\ lp_repr l' lp' else r = Ok None) ->
  exists lp', keep lp (ret_lp r) = Ok lp' /\ lp_repr (fits l l') lp'.
Proof.
  intros Hr Hx. unfold fits. destruct (_ <=? _).
  - destruct Hx as (lp' & x & -> & Hl). by exists lp'.
  - subst r. by exists lp.
Qed.

Lemma at_elem_ok lp l l' i f :
  lp_repr l lp ->
  (forall e, l !! i = Some e -> if lp_total l' <=? UINT32_MAX
   then exists lp' x, f (lp_off l i) = Ok (Some (lp', x)) /\ lp_repr l' lp' else f (lp_off l i) = Ok None) ->
  exists lp', at_elem lp i f = Ok lp' /\ lp_repr (spec_at l i l') lp'.
Proof.
  intros Hr Hf. destruct (repr_walkable _ _ Hr) as (num & _ & Hw). unfold at_elem, spec_at.
  rewrite (seek_ok _ _ _ _ Hw), bind_Ok, at_index_off. cbv zeta. rewrite !(proj2 (Z.ltb_ge (Z.of_nat i) 0)) by lia.
  rewrite Nat2Z.id. unfold lp_ptr. case_decide as Hi.
  - destruct (lookup_lt_is_Some_2 l i Hi) as [e He]. apply keep_ok; [done|]. by apply (Hf e).
  - by exists lp.
Qed.

Lemma args_entry s : str_ok s -> ele_args (Some s) None (zlen s) (Some (entry_of s)).
Proof. intros [? ?]. constructor; [done..|]. apply entry_of_ok. Qed.

Lemma insert_at_step lp l i n elestr eleint size w (newp : bool) :
  lp_repr l lp -> ele_args elestr eleint size n ->
  let l' := match n with Some n => spec_insert l i w n | None => take i l ++ drop (S i) l end in
  exists lp', at_elem lp i (fun p => lpInsert lp elestr eleint size p w newp) = Ok lp' /\
              lp_repr (spec_at l i l') lp'.
Proof.
  intros Hr Ha l'. apply at_elem_ok; [done|]. intros e He.
  pose proof (insert_elem_ok lp l i e n elestr eleint size w newp Hr He Ha) as E. fold l' in E.
  revert E. cbv zeta. destruct (_ <=? _); [|done]. intros (lp' & E & ?). eauto.
Qed.

(** Appending through [lpInsert] before the terminator. *)
Lemma append_ok lp l n elestr eleint size :
  lp_repr l lp -> ele_args elestr eleint size (Some n) ->
  exists lp', keep lp (total ← lpGetTotalBytes lp;
                       ret_lp (lpInsert lp elestr eleint size (total - 1) LP_BEFORE false)) = Ok lp' /\
              lp_repr (fits l (l ++ [n])) lp'.
Proof.
  intros Hr Ha. destruct (repr_walkable _ _ Hr) as (num & _ & Hw).
  rewrite (walk_total _ _ _ _ Hw), bind_Ok. apply keep_ok; [done|].
  pose proof Hr as Hr2. rewrite <- (app_nil_r l) in Hr2.
  pose proof (lp_insert_ok lp l [] [] (Some n) elestr eleint size LP_BEFORE false Hr2 Ha ltac:(done)) as E.
  replace (lp_total l - 1) with (LP_HDR_SIZE + zlen (lp_body l)) by (unfold lp_total; lia).
  cbn [new_entries app] in E. revert E. cbv zeta. destruct (_ <=? _); [|done]. intros (lp' & E & ?). eauto.
Qed.

Lemma prepend_ok lp l n elestr eleint size app_f :
  lp_repr l lp -> ele_args elestr eleint size (Some n) ->
  (l = [] -> app_f = (total ← lpGetTotalBytes lp;
                      ret_lp (lpInsert lp elestr eleint size (total - 1) LP_BEFORE false))) ->
  exists lp', keep lp (p ← lpFirst lp;
                       match p with
                       | None => app_f
                       | Some p => ret_lp (lpInsert lp elestr eleint size p LP_BEFORE false)
                       end) = Ok lp' /\ lp_repr (fits l (n :: l)) lp'.
Proof.
  intros Hr Ha Happ. destruct (repr_walkable _ _ Hr) as (num & _ & Hw).
  rewrite (first_ok _ _ _ _ Hw), bind_Ok, offs_ptr. destruct l as [|e l].
  - rewrite Happ by done. change (lp_ptr [] 0) with (@None Z). by apply (append_ok lp []).
  - unfold lp_ptr. rewrite decide_True by (cbn; lia). apply keep_ok; [done|].
    pose proof (insert_elem_ok lp (e :: l) 0 e (Some n) elestr eleint size LP_BEFORE false Hr eq_refl Ha) as E.
    cbn [spec_insert take drop app] in E. revert E. cbv zeta. destruct (_ <=? _); [|done]. intros (lp' & E & ?). eauto.
Qed.

Lemma step_ok lp l o :
  lp_repr l lp -> op_ok o -> exists lp', lp_step lp o = Ok lp' /\ lp_repr (spec_step l o) lp'.
Proof.
  intros Hr Ho.
  assert (forall v, int_ok v -> ele_args None (Some (lpEncodeIntegerGetType v))
            (zlen (lpEncodeIntegerGetType v)) (Some (EInt v))) as Hint.
  { intros v Hv. rewrite int_body_ok by done. by constructor. }
  destruct o as [s|s|v|v|i w s|i w v|i s|i v|i|index num|]; cbn [lp_step spec_step op_ok] in *.
  - apply (append_ok lp l _ _ _ _ Hr (args_entry s Ho)).
  - apply (prepend_ok lp l _ _ _ _ _ Hr (args_entry s Ho)). done.
  - apply (append_ok lp l _ _ _ _ Hr (Hint v Ho)).
  - apply (prepend_ok lp l _ _ _ _ _ Hr (Hint v Ho)). done.
  - apply (insert_at_step lp l i _ _ _ _ w false Hr (args_entry s Ho)).
  - apply (insert_at_step lp l i _ _ _ _ w false Hr (Hint v Ho)).
  - apply (insert_at_step lp l i _ _ _ _ LP_REPLACE true Hr (args_entry s Ho)).
  - apply (insert_at_step lp l i _ _ _ _ LP_REPLACE true Hr (Hint v Ho)).
  - apply (insert_at_step lp l i _ _ _ _ LP_REPLACE false Hr args_none).
  - by destruct Ho; apply delete_range_ok.
  - destruct (shrink_ok _ _ Hr) as (lp' & ? & ? & _). eauto.
Qed.
End RunLemmas.

(** * Properties *)

(** An allocator that gives what is asked for, and one that rounds up. *)
Definition exact_alloc : Alloc := {| usable n := n; usable_ge n := Z.le_refl n |}.

(** The elements 5 and "ab", with room to spare. *)
Definition sample_entries : list lpent := [EInt 5; EStr [97; 98]].
Definition sample_lp : list Z := [13; 0; 0; 0; 2; 0; 5; 1; 130; 97; 98; 3; 255; 0; 0].

Lemma sample_lp_repr : lp_repr sample_entries sample_lp.
Proof.
  split; [|split].
  - forall_list; cbn; unfold is_byte; zconst; lia.
  - vm_compute. discriminate.
  - exists 2, [0; 0]. split; [left; split; [done|vm_compute; reflexivity]|]. vm_compute. reflexivity.
Qed.

(** C10: refinement.  Any sequence of appends, prepends, insertions before and
    after an element, replacements, deletions of elements and of ranges, and
    shrinks, started from a new listpack, never reads or writes outside the
    buffer and never trips an assertion, and leaves a listpack that represents
    the list on which the same operations were done (an element that would take
    the listpack over its 32-bit size is refused and changes nothing). *)
Theorem listpack_refines_list `{Host, Alloc} capacity os :
  Forall op_ok os ->
  exists lp, (lp ← lpNew capacity; lp_run lp os) = Ok lp /\ lp_repr (foldl spec_step [] os) lp.
Proof.
  intros Hos. destruct (lp_new_ok capacity) as (lp0 & -> & Hr0). rewrite bind_Ok.
  revert lp0 Hr0. generalize (@nil lpent). induction Hos as [|o os Ho Hos IH]; intros l lp Hr.
  - by exists lp.
  - cbn [lp_run foldl]. destruct (step_ok lp l o Hr Ho) as (lp' & -> & Hr'). rewrite bind_Ok. by apply IH.
Qed.

Lemma listpack_refines_list_witness :
  exists lp, (lp ← @lpNew little_host exact_alloc 0;
              @lp_run little_host exact_alloc lp [OpAppend [52; 50]; OpPrepend [97]; OpDelete 0]) = Ok lp /\
             lp_repr [EInt 42] lp.
Proof.
  apply (@listpack_refines_list little_host exact_alloc 0 [OpAppend [52; 50]; OpPrepend [97]; OpDelete 0]).
  forall_list; cbn; try done; split; try (forall_list; unfold is_byte; lia); vm_compute; discriminate.
Defined.

(** navigation.  On a listpack that represents [l], the first, last, next
    and previous pointers, seeking by positive and negative index, and the length
    are those of [l], and every pointer returned points to the element it should. *)
Theorem listpack_navigation l lp :
  lp_repr l lp ->
  lpFirst lp = Ok (lp_ptr l 0) /\
  lpLast lp = Ok (match length l with O => None | S i => lp_ptr l i end) /\
  (forall i, (i < length l)%nat ->
     lpNext lp (lp_off l i) = Ok (lp_ptr l (S i)) /\
     lpPrev lp (lp_off l i) = Ok (match i with O => None | S j => lp_ptr l j end)) /\
  (forall index, lpSeek lp index =
     Ok (let i := if index <? 0 then zlen l + index else index in
         if i <? 0 then None else lp_ptr l (Z.to_nat i))) /\
  exists lp', lpLength lp = Ok (lp', zlen l) /\ lp_repr l lp'.
Proof.
  intros Hr. destruct (repr_walkable _ _ Hr) as (num & _ & Hw).
  assert (length (offs LP_HDR_SIZE l) = length l) as Hlen.
  { pose proof (zlen_offs LP_HDR_SIZE l). unfold zlen in *. lia. }
  split_and!.
  - by rewrite (first_ok _ _ _ _ Hw), offs_ptr.
  - rewrite (last_ok _ _ _ _ Hw), last_lookup, Hlen, offs_ptr. by destruct l.
  - intros i Hi. assert (offs LP_HDR_SIZE l !! i = Some (lp_off l i)) as Ho.
    { rewrite offs_ptr. unfold lp_ptr. by rewrite decide_True. }
    split; [by rewrite (next_ok _ _ _ _ Hw i _ Ho), offs_ptr|].
    pose proof (prev_ok _ _ _ _ Hw i ltac:(lia)) as E. rewrite Ho in E. cbn [default from_option id] in E.
    rewrite E. destruct i; [done|]. by rewrite offs_ptr.
  - intros index. by rewrite (seek_ok _ _ _ _ Hw), at_index_off.
  - by apply length_repr.
Qed.

Lemma listpack_navigation_witness : lpSeek sample_lp (-1) = Ok (lp_ptr sample_entries 1).
Proof.
  destruct (listpack_navigation sample_entries sample_lp) as (_ & _ & _ & Hs & _).
  - exact sample_lp_repr.
  - apply (Hs (-1)).
Defined.

(** The string a returned element denotes. *)
Definition value_str (lp : list Z) (v : lpval) : res (list Z) :=
  match v with
  | InListpack off len => rd lp off len
  | InBuffer buf len => rd buf 0 len
  | IntValue n => Ok (ll_repr n)
  end.

(** element access.  [lpGet] returns the stored element: the string itself
    or, for an element stored as an integer, that integer, printed canonically
    into the caller's buffer when one is given. *)
Theorem lpGet_correct l lp i e buf :
  lp_repr l lp -> l !! i = Some e -> LP_INTBUF_SIZE <= zlen buf ->
  (exists v, lpGet lp (lp_off l i) None = Ok v /\ value_str lp v = Ok (ent_str e) /\
     (forall n, e = EInt n -> v = IntValue n)) /\
  exists v, lpGet lp (lp_off l i) (Some buf) = Ok v /\ value_str lp v = Ok (ent_str e) /\
     (forall n, v <> IntValue n).
Proof.
  intros Hr Hi Hbuf. unfold lpGet. split.
  - destruct (get_entry _ _ _ _ Hr Hi) as (v & -> & Hv). rewrite bind_Ok. exists v.
    split; [done|]. destruct e as [n|s].
    + subst v. split; [done|]. congruence.
    + by destruct Hv as (off & -> & Hrd).
  - destruct (repr_at _ _ _ _ Hr Hi) as (A & C & -> & <- & He & Hm & _). destruct e as [n|s].
    + rewrite get_int by done. cbn [deliver ent_ok] in *. pose proof (ll_repr_bound n He). unfold LP_INTBUF_SIZE in *.
      destruct (cut_at buf (zlen (ll_repr n) + 1)) as (X & D & -> & HX & _); [lia|].
      rewrite ll2string_ok by (done || lia). rewrite !bind_Ok. eexists. split; [done|].
      split; [|done]. by apply rd_app_head.
    + rewrite get_str.
      2:{ cbn [ent_body] in Hm. rewrite zlen_app in Hm. pose proof (zlen_nonneg (str_hdr (zlen s))). lia. }
      eexists. split; [done|]. split; [|done]. cbn [value_str ent_body ent_str].
      rewrite <- app_assoc, app_assoc. apply rd_app; [by rewrite zlen_app|done].
Qed.

Lemma lpGet_correct_witness :
  exists v, lpGet sample_lp (lp_off sample_entries 1) None = Ok v /\ value_str sample_lp v = Ok [97; 98].
Proof.
  destruct (lpGet_correct sample_entries sample_lp 1 (EStr [97; 98]) (replicate 21 0)) as ((v & H1 & H2 & _) & _).
  - exact sample_lp_repr.
  - reflexivity.
  - vm_compute. discriminate.
  - exists v. split; assumption.
Defined.

(** [lpInsert] at an element stores a string (as an integer when it is the
    canonical notation of one) or an integer before it, after it or in its place,
    or deletes it, and stores through [newp] the pointer to the new element, or
    to the one after a deleted element; it returns [NULL], without touching the
    listpack, exactly when the result would not fit in 32 bits. *)
Theorem lpInsert_correct `{Host, Alloc} lp l i e op elestr eleint size w (newp : bool) :
  lp_repr l lp -> l !! i = Some e -> ele_args elestr eleint size op ->
  let l' := match op with Some n => spec_insert l i w n | None => take i l ++ drop (S i) l end in
  let j := match op, w with Some _, LP_AFTER => S i | _, _ => i end in
  if lp_total l' <=? UINT32_MAX then
    exists lp', lpInsert lp elestr eleint size (lp_off l i) w newp =
                  Ok (Some (lp', if newp then Some (lp_ptr l' j) else None)) /\ lp_repr l' lp'
  else lpInsert lp elestr eleint size (lp_off l i) w newp = Ok None.
Proof. apply insert_elem_ok. Qed.

Lemma lpInsert_correct_witness :
  exists lp', @lpInsert little_host exact_alloc sample_lp None (Some (int_body 7)) 1 (lp_off sample_entries 0)
                LP_AFTER true = Ok (Some (lp', Some (Some 8))) /\
              lp_repr [EInt 5; EInt 7; EStr [97; 98]] lp'.
Proof.
  apply (@lpInsert_correct little_host exact_alloc sample_lp sample_entries 0 (EInt 5) (Some (EInt 7)) None
           (Some (int_body 7)) 1 LP_AFTER true).
  - exact sample_lp_repr.
  - reflexivity.
  - apply (args_int 7). zconst; lia.
Defined.

(** [lpDeleteRange] removes the elements of the range, for positive and
    negative indexes and for counts that reach past the end, whether or not the
    header knows the number of elements. *)
Theorem lpDeleteRange_correct `{Host, Alloc} lp l index num :
  lp_repr l lp -> INT64_MIN <= index <= INT64_MAX -> 0 <= num <= UINT64_MAX ->
  exists lp', lpDeleteRange lp index num = Ok lp' /\ lp_repr (spec_delete_range l index num) lp'.
Proof. apply delete_range_ok. Qed.

Lemma lpDeleteRange_correct_witness :
  exists lp', @lpDeleteRange little_host exact_alloc sample_lp (-2) 1 = Ok lp' /\ lp_repr [EStr [97; 98]] lp'.
Proof.
  apply (@lpDeleteRange_correct little_host exact_alloc sample_lp sample_entries (-2) 1).
  - exact sample_lp_repr.
  - zconst; lia.
  - zconst; lia.
Defined.

(** [lpMerge] of two listpacks represents the concatenation of their lists,
    whichever of the two buffers is reused; it asserts when the result does not
    fit. *)
Theorem lpMerge_correct `{Host, Alloc} l1 l2 a b :
  lp_repr l1 a -> lp_repr l2 b ->
  if lp_total (l1 ++ l2) <? UINT32_MAX then
    exists t, lpMerge (Some a) (Some b) false = Ok (Some (t, lp_total l2 <=? lp_total l1)) /\
              lp_repr (l1 ++ l2) t
  else lpMerge (Some a) (Some b) false = Panic.
Proof. apply merge_ok. Qed.

Lemma lpMerge_correct_witness :
  exists t, @lpMerge little_host exact_alloc (Some sample_lp) (Some sample_lp) false = Ok (Some (t, true)) /\
            lp_repr [EInt 5; EStr [97; 98]; EInt 5; EStr [97; 98]] t.
Proof.
  apply (@lpMerge_correct little_host exact_alloc sample_entries sample_entries sample_lp sample_lp);
    exact sample_lp_repr.
Defined.

(** [lpFind] from an element returns the first element, among those reached
    by jumping over [skip] elements at a time, that holds the string, and [NULL]
    when there is none. *)
Theorem lpFind_correct l lp i skip t :
  lp_repr l lp -> (i < length l)%nat -> 0 <= skip <= INT32_MAX ->
  exists o, lpFind lp (lp_off l i) t (zlen t) skip = Ok (lp_off l <$> o) /\ first_hit l i skip t o.
Proof.
  intros Hr Hi Hs. destruct (repr_walkable _ _ Hr) as (num & _ & Hw). unfold lpFind, lpBytes.
  rewrite (walk_total _ _ _ _ Hw), bind_Ok. pose proof (walk_bytes _ _ _ _ Hw). pose proof (total_nonneg l).
  pose proof (walk_len _ _ _ _ Hw) as Hl. pose proof (walk_fits _ _ _ _ Hw). rewrite zlen_offs in Hl.
  zconst. zwrap. apply find_loop; try done; try lia.
  - unfold zlen in *. lia.
  - by rewrite Z.sub_diag.
  - intros k Hk (Hik & _). lia.
Qed.

Lemma lpFind_correct_witness :
  exists o, lpFind sample_lp (lp_off sample_entries 0) [97; 98] 2 0 = Ok (lp_off sample_entries <$> o) /\
            first_hit sample_entries 0 0 [97; 98] o.
Proof.
  apply (lpFind_correct sample_entries sample_lp 0 0 [97; 98]).
  - exact sample_lp_repr.
  - cbn. lia.
  - zconst; lia.
Defined.

(** [lpCompare] decides whether the element is the string, without printing
    elements stored as integers. *)
Theorem lpCompare_correct l lp i e t :
  lp_repr l lp -> l !! i = Some e -> lpCompare lp (lp_off l i) t (zlen t) = Ok (bool_decide (ent_str e = t)).
Proof. apply compare_ok. Qed.

Lemma lpCompare_correct_witness : lpCompare sample_lp 6 [53] 1 = Ok true.
Proof.
  apply (lpCompare_correct sample_entries sample_lp 0 (EInt 5) [53]).
  - exact sample_lp_repr.
  - reflexivity.
Defined.
