(* ===== verification/Dict.v ===== *)
(** Hash tables with incremental rehashing ([dict.c], [dict.h]).

    A bucket is the list of its entries in chain order, a table is the list of
    its buckets, and an entry pointer is the place of the entry: table, bucket
    and position in the chain.  Keys are pointers ([K], compared with [==] by
    the code's shortcut), and what they point to is seen only through the
    functions of the dictionary type. *)
From S2P Require Import Prelude.
Open Scope Z_scope.

(** * Definitions *)

Definition DICT_HT_INITIAL_EXP : Z := 2.
Definition DICT_HT_INITIAL_SIZE : Z := Z.shiftl 1 DICT_HT_INITIAL_EXP.
Definition dict_force_resize_ratio : Z := 5.
Definition LONG_MAX : Z := INT64_MAX.

Definition DICTHT_SIZE (exp : Z) : Z := if exp =? -1 then 0 else wrapU 64 (Z.shiftl 1 exp).
Definition DICTHT_SIZE_MASK (exp : Z) : Z := if exp =? -1 then 0 else DICTHT_SIZE exp - 1.

Record dictEntry (K V : Type) := Entry { de_key : K; de_val : V }.
Arguments Entry {K V} de_key de_val.
Arguments de_key {K V} d.
Arguments de_val {K V} d.

(** One of the two hash tables: [ht_table[i]], [ht_used[i]], [ht_size_exp[i]]. *)
Record dictht (K V : Type) := MkHt {
  ht_table : option (list (list (dictEntry K V)));
  ht_used : Z;
  ht_size_exp : Z;
}.
Arguments MkHt {K V} ht_table ht_used ht_size_exp.
Arguments ht_table {K V} d.
Arguments ht_used {K V} d.
Arguments ht_size_exp {K V} d.

Record dict (K V : Type) := Dict {
  ht0 : dictht K V;
  ht1 : dictht K V;
  rehashidx : Z;
  pauserehash : Z;
}.
Arguments Dict {K V} ht0 ht1 rehashidx pauserehash.
Arguments ht0 {K V} d.
Arguments ht1 {K V} d.
Arguments rehashidx {K V} d.
Arguments pauserehash {K V} d.

(** [expandAllowed] gets the memory needed and the ratio, given as the number of
    entries and of buckets. *)
Record dictType (K V : Type) := {
  hashFunction : K -> Z;
  keyDup : option (K -> K);
  valDup : option (V -> V);
  keyCompare : option (K -> K -> bool);
  expandAllowed : option (Z -> Z * Z -> bool);
}.
Arguments hashFunction {K V} d.
Arguments keyDup {K V} d.
Arguments valDup {K V} d.
Arguments keyCompare {K V} d.
Arguments expandAllowed {K V} d.

Inductive dict_status := DICT_OK | DICT_ERR.

Section Dict.
Context {K V : Type} `{EqDecision K} (type : dictType K V).

(** The value field of an entry before it is set. *)
Context (uninit_val : V).

(** The global [dict_can_resize]. *)
Context (dict_can_resize : bool).

Definition ht (d : dict K V) (i : bool) : dictht K V := if i then ht1 d else ht0 d.

Definition set_ht (d : dict K V) (i : bool) (h : dictht K V) : dict K V :=
  if i then Dict (ht0 d) h (rehashidx d) (pauserehash d)
  else Dict h (ht1 d) (rehashidx d) (pauserehash d).

Definition set_rehashidx (d : dict K V) (x : Z) : dict K V :=
  Dict (ht0 d) (ht1 d) x (pauserehash d).

Definition set_pauserehash (d : dict K V) (x : Z) : dict K V :=
  Dict (ht0 d) (ht1 d) (rehashidx d) x.

(** [d->ht_table[i][idx]] and the assignment to it. *)
Definition bucket (d : dict K V) (i : bool) (idx : Z) : res (list (dictEntry K V)) :=
  match ht_table (ht d i) with
  | Some t =>
      if 0 <=? idx then match t !! Z.to_nat idx with Some b => Ok b | None => Fault end else Fault
  | None => Fault
  end.

Definition set_bucket (d : dict K V) (i : bool) (idx : Z) (b : list (dictEntry K V)) : res (dict K V) :=
  match ht_table (ht d i) with
  | Some t =>
      inbounds! (0 <=? idx) && (idx <? zlen t);
      Ok (set_ht d i (MkHt (Some (<[Z.to_nat idx := b]> t)) (ht_used (ht d i)) (ht_size_exp (ht d i))))
  | None => Fault
  end.

Definition set_used (d : dict K V) (i : bool) (n : Z) : dict K V :=
  set_ht d i (MkHt (ht_table (ht d i)) (wrapU 64 n) (ht_size_exp (ht d i))).

Definition dictSize (d : dict K V) : Z := wrapU 64 (ht_used (ht0 d) + ht_used (ht1 d)).
Definition dictSlots (d : dict K V) : Z :=
  wrapU 64 (DICTHT_SIZE (ht_size_exp (ht0 d)) + DICTHT_SIZE (ht_size_exp (ht1 d))).
Definition dictIsRehashing (d : dict K V) : bool := negb (rehashidx d =? -1).

Definition dictHashKey (key : K) : Z := hashFunction type key.

Definition dictCompareKeys (key1 key2 : K) : bool :=
  match keyCompare type with
  | Some cmp => cmp key1 key2
  | None => bool_decide (key1 = key2)
  end.

Definition dictSetKey (key : K) : K := match keyDup type with Some f => f key | None => key end.
Definition dictSetVal (val : V) : V := match valDup type with Some f => f val | None => val end.

Definition _dictReset (d : dict K V) (htidx : bool) : dict K V := set_ht d htidx (MkHt None 0 (-1)).

Definition dictCreate : dict K V := Dict (MkHt None 0 (-1)) (MkHt None 0 (-1)) (-1) 0.

(** The loop ends because [1 << 63] is at least any [size < LONG_MAX]. *)
Fixpoint _dictNextExp_loop (fuel : nat) (e size : Z) : res Z :=
  match fuel with
  | O => OutOfFuel
  | S fuel => if wrapU 64 (Z.shiftl 1 e) >=? size then Ok e else _dictNextExp_loop fuel (e + 1) size
  end.

Definition _dictNextExp (size : Z) : res Z :=
  if size >=? LONG_MAX then Ok (8 * 8 - 1) else _dictNextExp_loop 64 DICT_HT_INITIAL_EXP size.

(** [zcalloc] aborts when there is no memory; [ztrycalloc] may fail, which
    [alloc_fails] tells.  The result is the status and, with [malloc_failed],
    what is stored through it. *)
Definition _dictExpand (d : dict K V) (size : Z) (try alloc_fails : bool)
    : res (dict K V * dict_status * bool) :=
  if dictIsRehashing d || (ht_used (ht0 d) >? size) then Ok (d, DICT_ERR, false)
  else
    new_ht_size_exp ← _dictNextExp size;
    let newsize := wrapU 64 (Z.shiftl 1 new_ht_size_exp) in
    if (newsize <? size) || (wrapU 64 (newsize * 8) <? newsize) then Ok (d, DICT_ERR, false)
    else if new_ht_size_exp =? ht_size_exp (ht0 d) then Ok (d, DICT_ERR, false)
    else if try && alloc_fails then Ok (d, DICT_ERR, true)
    else
      let new_ht := MkHt (Some (replicate (Z.to_nat newsize) [])) 0 new_ht_size_exp in
      match ht_table (ht0 d) with
      | None => Ok (set_ht d false new_ht, DICT_OK, false)
      | Some _ => Ok (set_rehashidx (set_ht d true new_ht) 0, DICT_OK, false)
      end.

Definition dictExpand (d : dict K V) (size : Z) : res (dict K V * dict_status) :=
  '(d, st, _) ← _dictExpand d size false false; Ok (d, st).

Definition dictTryExpand (d : dict K V) (size : Z) (alloc_fails : bool) : res (dict K V * dict_status) :=
  '(d, _, malloc_failed) ← _dictExpand d size true alloc_fails;
  Ok (d, if malloc_failed : bool then DICT_ERR else DICT_OK).

Definition dictResize (d : dict K V) : res (dict K V * dict_status) :=
  if negb dict_can_resize || dictIsRehashing d then Ok (d, DICT_ERR)
  else
    let minimal := ht_used (ht0 d) in
    let minimal := if minimal <? DICT_HT_INITIAL_SIZE then DICT_HT_INITIAL_SIZE else minimal in
    dictExpand d minimal.

(** The inner loop over empty buckets: [None] when the visits run out. *)
Fixpoint dictRehash_skip (fuel : nat) (d : dict K V) (empty_visits : Z) : res (dict K V * option Z) :=
  match fuel with
  | O => OutOfFuel
  | S fuel =>
      b ← bucket d false (rehashidx d);
      match b with
      | [] =>
          let d := set_rehashidx d (rehashidx d + 1) in
          let empty_visits := empty_visits - 1 in
          if empty_visits =? 0 then Ok (d, None) else dictRehash_skip fuel d empty_visits
      | _ :: _ => Ok (d, Some empty_visits)
      end
  end.

(** The entries of a bucket moved, one at a time, to the other table. *)
Fixpoint dictRehash_move (d : dict K V) (de : list (dictEntry K V)) : res (dict K V) :=
  match de with
  | [] => Ok d
  | e :: nextde =>
      let h := Z.land (dictHashKey (de_key e)) (DICTHT_SIZE_MASK (ht_size_exp (ht1 d))) in
      b ← bucket d true h;
      d ← set_bucket d true h (e :: b);
      let d := set_used d false (ht_used (ht0 d) - 1) in
      let d := set_used d true (ht_used (ht1 d) + 1) in
      dictRehash_move d nextde
  end.

(** [while (n-- && used != 0)]; [inl] for the return inside the loop. *)
Fixpoint dictRehash_loop (n : nat) (d : dict K V) (empty_visits : Z) : res (dict K V * bool) :=
  match n with
  | O => Ok (d, false)
  | S n =>
      if ht_used (ht0 d) =? 0 then Ok (d, false)
      else
        assert! DICTHT_SIZE (ht_size_exp (ht0 d)) >? rehashidx d;
        '(d, visits) ← dictRehash_skip
                         (Z.to_nat (DICTHT_SIZE (ht_size_exp (ht0 d)) - rehashidx d) + 1) d empty_visits;
        match visits with
        | None => Ok (d, true)
        | Some empty_visits =>
            de ← bucket d false (rehashidx d);
            d ← dictRehash_move d de;
            d ← set_bucket d false (rehashidx d) [];
            let d := set_rehashidx d (rehashidx d + 1) in
            dictRehash_loop n d empty_visits
        end
  end.

(** The result is whether there is more to rehash. *)
Definition dictRehash (d : dict K V) (n : Z) : res (dict K V * bool) :=
  empty_visits ← sint 32 (n * 10);
  if negb (dictIsRehashing d) then Ok (d, false)
  else
    '(d, returned) ← dictRehash_loop (Z.to_nat n) d empty_visits;
    if returned : bool then Ok (d, true)
    else if ht_used (ht0 d) =? 0 then
      let d := set_ht d false (ht1 d) in
      let d := _dictReset d true in
      Ok (set_rehashidx d (-1), false)
    else Ok (d, true).

(** [clock] is the sequence of times read after each round. *)
Fixpoint dictRehashMilliseconds_loop (fuel : nat) (d : dict K V) (ms start rehashes : Z) (clock : list Z)
    : res (dict K V * Z) :=
  match fuel with
  | O => OutOfFuel
  | S fuel =>
      '(d, more) ← dictRehash d 100;
      if more : bool then
        rehashes ← sint 32 (rehashes + 100);
        match clock with
        | now :: clock =>
            if now - start >? ms then Ok (d, rehashes)
            else dictRehashMilliseconds_loop fuel d ms start rehashes clock
        | [] => OutOfFuel
        end
      else Ok (d, rehashes)
  end.

Definition dictRehashMilliseconds (d : dict K V) (ms : Z) (start : Z) (clock : list Z) : res (dict K V * Z) :=
  if pauserehash d >? 0 then Ok (d, 0)
  else dictRehashMilliseconds_loop (S (length clock)) d ms start 0 clock.

Definition _dictRehashStep (d : dict K V) : res (dict K V) :=
  if pauserehash d =? 0 then '(d, _) ← dictRehash d 1; Ok d else Ok d.

Definition dictTypeExpandAllowed (d : dict K V) : res bool :=
  match expandAllowed type with
  | None => Ok true
  | Some f =>
      e ← _dictNextExp (wrapU 64 (ht_used (ht0 d) + 1));
      Ok (f (wrapU 64 (DICTHT_SIZE e * 8)) (ht_used (ht0 d), DICTHT_SIZE (ht_size_exp (ht0 d))))
  end.

Definition _dictExpandIfNeeded (d : dict K V) : res (dict K V * dict_status) :=
  if dictIsRehashing d then Ok (d, DICT_OK)
  else if DICTHT_SIZE (ht_size_exp (ht0 d)) =? 0 then dictExpand d DICT_HT_INITIAL_SIZE
  else if (ht_used (ht0 d) >=? DICTHT_SIZE (ht_size_exp (ht0 d))) &&
          (dict_can_resize ||
           (ht_used (ht0 d) / DICTHT_SIZE (ht_size_exp (ht0 d)) >? dict_force_resize_ratio)) then
    allowed ← dictTypeExpandAllowed d;
    if allowed : bool then dictExpand d (wrapU 64 (ht_used (ht0 d) + 1)) else Ok (d, DICT_OK)
  else Ok (d, DICT_OK).

(** The position in a chain of the first entry with the key. *)
Fixpoint chain_find (key : K) (he : list (dictEntry K V)) : option nat :=
  match he with
  | [] => None
  | e :: next =>
      if bool_decide (key = de_key e) || dictCompareKeys key (de_key e) then Some O
      else S <$> chain_find key next
  end.

(** An entry pointer: table, bucket, position. *)
Definition entry_loc : Type := bool * Z * nat.

Definition entry_idx (d : dict K V) (i : bool) (hash : Z) : Z :=
  Z.land hash (DICTHT_SIZE_MASK (ht_size_exp (ht d i))).

(** The index, or [inr existing] when the key exists ([inr None] when the table
    cannot be made). *)
Definition _dictKeyIndex (d : dict K V) (key : K) (hash : Z) : res (dict K V * (Z + option entry_loc)) :=
  '(d, st) ← _dictExpandIfNeeded d;
  match st with
  | DICT_ERR => Ok (d, inr None)
  | DICT_OK =>
      let idx := entry_idx d false hash in
      he ← bucket d false idx;
      match chain_find key he with
      | Some pos => Ok (d, inr (Some (false, idx, pos)))
      | None =>
          if negb (dictIsRehashing d) then Ok (d, inl idx)
          else
            let idx := entry_idx d true hash in
            he ← bucket d true idx;
            match chain_find key he with
            | Some pos => Ok (d, inr (Some (true, idx, pos)))
            | None => Ok (d, inl idx)
            end
      end
  end.

(** The new entry, or [inr] of what is stored through [existing]. *)
Definition dictAddRaw (d : dict K V) (key : K) : res (dict K V * (entry_loc + option entry_loc)) :=
  d ← (if dictIsRehashing d then _dictRehashStep d else Ok d);
  '(d, r) ← _dictKeyIndex d key (dictHashKey key);
  match r with
  | inr existing => Ok (d, inr existing)
  | inl index =>
      let htidx := dictIsRehashing d in
      b ← bucket d htidx index;
      d ← set_bucket d htidx index (Entry (dictSetKey key) uninit_val :: b);
      let d := set_used d htidx (ht_used (ht d htidx) + 1) in
      Ok (d, inl (htidx, index, O))
  end.

(** [entry->v.val = val]. *)
Definition entry_set_val (d : dict K V) (l : entry_loc) (val : V) : res (dict K V) :=
  let '(i, idx, pos) := l in
  b ← bucket d i idx;
  match b !! pos with
  | Some e => set_bucket d i idx (<[pos := Entry (de_key e) (dictSetVal val)]> b)
  | None => Fault
  end.

Definition dictAdd (d : dict K V) (key : K) (val : V) : res (dict K V * dict_status) :=
  '(d, r) ← dictAddRaw d key;
  match r with
  | inl entry => d ← entry_set_val d entry val; Ok (d, DICT_OK)
  | inr _ => Ok (d, DICT_ERR)
  end.

(** Whether the key was added from scratch. *)
Definition dictReplace (d : dict K V) (key : K) (val : V) : res (dict K V * bool) :=
  '(d, r) ← dictAddRaw d key;
  match r with
  | inl entry => d ← entry_set_val d entry val; Ok (d, true)
  | inr (Some existing) => d ← entry_set_val d existing val; Ok (d, false)
  | inr None => Fault
  end.

Definition dictAddOrFind (d : dict K V) (key : K) : res (dict K V * option entry_loc) :=
  '(d, r) ← dictAddRaw d key;
  match r with
  | inl entry => Ok (d, Some entry)
  | inr existing => Ok (d, existing)
  end.

(** Search one table, unlinking the entry that is found. *)
Definition delete_in (d : dict K V) (table : bool) (h : Z) (key : K) : res (dict K V * option (dictEntry K V)) :=
  let idx := entry_idx d table h in
  b ← bucket d table idx;
  match chain_find key b with
  | Some pos =>
      match b !! pos with
      | Some he =>
          d ← set_bucket d table idx (take pos b ++ drop (S pos) b);
          Ok (set_used d table (ht_used (ht d table) - 1), Some he)
      | None => Fault
      end
  | None => Ok (d, None)
  end.

(** The entry removed, if any.  Releasing it ([nofree] = 0) does not change the
    dictionary. *)
Definition dictGenericDelete (d : dict K V) (key : K) : res (dict K V * option (dictEntry K V)) :=
  if dictSize d =? 0 then Ok (d, None)
  else
    d ← (if dictIsRehashing d then _dictRehashStep d else Ok d);
    let h := dictHashKey key in
    '(d, r) ← delete_in d false h key;
    match r with
    | Some he => Ok (d, Some he)
    | None => if negb (dictIsRehashing d) then Ok (d, None) else delete_in d true h key
    end.

Definition dictDelete (d : dict K V) (key : K) : res (dict K V * dict_status) :=
  '(d, r) ← dictGenericDelete d key;
  Ok (d, match r with Some _ => DICT_OK | None => DICT_ERR end).

Definition dictUnlink (d : dict K V) (key : K) : res (dict K V * option (dictEntry K V)) :=
  dictGenericDelete d key.

(** The loop that frees the entries of one table. *)
Fixpoint _dictClear_loop (n : nat) (d : dict K V) (htidx : bool) (i : Z) : res (dict K V) :=
  match n with
  | O => Ok d
  | S n =>
      if (i <? DICTHT_SIZE (ht_size_exp (ht d htidx))) && (ht_used (ht d htidx) >? 0) then
        he ← bucket d htidx i;
        let d := set_used d htidx (ht_used (ht d htidx) - zlen he) in
        _dictClear_loop n d htidx (i + 1)
      else Ok d
  end.

Definition _dictClear (d : dict K V) (htidx : bool) : res (dict K V) :=
  d ← _dictClear_loop (Z.to_nat (DICTHT_SIZE (ht_size_exp (ht d htidx))) + 1) d htidx 0;
  Ok (_dictReset d htidx).

Definition dictEmpty (d : dict K V) : res (dict K V) :=
  d ← _dictClear d false;
  d ← _dictClear d true;
  Ok (set_pauserehash (set_rehashidx d (-1)) 0).

(** Search one table. *)
Definition find_in (d : dict K V) (table : bool) (h : Z) (key : K) : res (option (dictEntry K V)) :=
  he ← bucket d table (entry_idx d table h);
  Ok (match chain_find key he with Some pos => he !! pos | None => None end).

Definition dictFind (d : dict K V) (key : K) : res (dict K V * option (dictEntry K V)) :=
  if dictSize d =? 0 then Ok (d, None)
  else
    d ← (if dictIsRehashing d then _dictRehashStep d else Ok d);
    let h := dictHashKey key in
    r ← find_in d false h key;
    match r with
    | Some he => Ok (d, Some he)
    | None =>
        if negb (dictIsRehashing d) then Ok (d, None)
        else r ← find_in d true h key; Ok (d, r)
    end.

Definition dictFetchValue (d : dict K V) (key : K) : res (dict K V * option V) :=
  '(d, he) ← dictFind d key;
  Ok (d, match he with Some e => Some (de_val e) | None => None end).

End Dict.

(** * Specification *)

(** The public operations, as a client issues them; [dict_can_resize] is a
    global that [dictEnableResize] and [dictDisableResize] set. *)
Inductive dict_op (K V : Type) :=
  | OpAdd (key : K) (val : V)
  | OpReplace (key : K) (val : V)
  | OpDelete (key : K)
  | OpUnlink (key : K)
  | OpFind (key : K)
  | OpFetchValue (key : K)
  | OpSize
  | OpResize
  | OpExpand (size : Z)
  | OpTryExpand (size : Z) (alloc_fails : bool)
  | OpRehash (n : Z)
  | OpEmpty
  | OpCanResize (b : bool).
Arguments OpAdd {K V} key val.
Arguments OpReplace {K V} key val.
Arguments OpDelete {K V} key.
Arguments OpUnlink {K V} key.
Arguments OpFind {K V} key.
Arguments OpFetchValue {K V} key.
Arguments OpSize {K V}.
Arguments OpResize {K V}.
Arguments OpExpand {K V} size.
Arguments OpTryExpand {K V} size alloc_fails.
Arguments OpRehash {K V} n.
Arguments OpEmpty {K V}.
Arguments OpCanResize {K V} b.

(** What a client observes; the results of the operations that only move
    entries between the tables are not observed. *)
Inductive dict_out (K V : Type) :=
  | OutStatus (st : dict_status)
  | OutNew (fresh : bool)
  | OutEntry (e : option (dictEntry K V))
  | OutVal (v : option V)
  | OutSize (n : Z)
  | OutNone.
Arguments OutStatus {K V} st.
Arguments OutNew {K V} fresh.
Arguments OutEntry {K V} e.
Arguments OutVal {K V} v.
Arguments OutSize {K V} n.
Arguments OutNone {K V}.

Section Run.
Context {K V : Type} `{EqDecision K} (type : dictType K V) (uninit_val : V).

Definition dict_exec (s : dict K V * bool) (op : dict_op K V) : res (dict K V * bool * dict_out K V) :=
  let '(d, can) := s in
  match op with
  | OpAdd key val => '(d, st) ← dictAdd type uninit_val can d key val; Ok (d, can, OutStatus st)
  | OpReplace key val => '(d, fresh) ← dictReplace type uninit_val can d key val; Ok (d, can, OutNew fresh)
  | OpDelete key => '(d, st) ← dictDelete type d key; Ok (d, can, OutStatus st)
  | OpUnlink key => '(d, e) ← dictUnlink type d key; Ok (d, can, OutEntry e)
  | OpFind key => '(d, e) ← dictFind type d key; Ok (d, can, OutEntry e)
  | OpFetchValue key => '(d, v) ← dictFetchValue type d key; Ok (d, can, OutVal v)
  | OpSize => Ok (d, can, OutSize (dictSize d))
  | OpResize => '(d, _) ← dictResize can d; Ok (d, can, OutNone)
  | OpExpand size => '(d, _) ← dictExpand d size; Ok (d, can, OutNone)
  | OpTryExpand size fails => '(d, _) ← dictTryExpand d size fails; Ok (d, can, OutNone)
  | OpRehash n => '(d, _) ← dictRehash type d n; Ok (d, can, OutNone)
  | OpEmpty => d ← dictEmpty d; Ok (d, can, OutNone)
  | OpCanResize b => Ok (d, b, OutNone)
  end.

Fixpoint dict_run (s : dict K V * bool) (ops : list (dict_op K V)) : res (dict K V * bool * list (dict_out K V)) :=
  match ops with
  | [] => Ok (s, [])
  | op :: ops =>
      '(s, out) ← dict_exec s op;
      '(s, outs) ← dict_run s ops;
      Ok (s, out :: outs)
  end.
End Run.

(** What the functions of a dictionary type must satisfy: keys are compared by
    their contents, equal contents have equal hashes, and a duplicate has the
    contents of the original. *)
Record dictType_ok {K V I : Type} `{EqDecision K, EqDecision I} (type : dictType K V) (content : K -> I) : Prop := {
  hash_range k : 0 <= hashFunction type k < 2 ^ 64;
  hash_content a b : content a = content b -> hashFunction type a = hashFunction type b;
  compare_content a b : dictCompareKeys type a b = bool_decide (content a = content b);
  dup_content k : content (dictSetKey type k) = content k;
}.

(** No machine holds this many entries. *)
Definition MAX_ENTRIES : Z := 2 ^ 59.

Section Spec.
Context {K V I : Type} `{EqDecision K, Countable I} (type : dictType K V) (content : K -> I).

Definition ht_entries (h : dictht K V) : list (dictEntry K V) :=
  match ht_table h with Some t => mjoin t | None => [] end.

Definition entries (d : dict K V) : list (dictEntry K V) := ht_entries (ht0 d) ++ ht_entries (ht1 d).

Definition ht_empty : dictht K V := MkHt None 0 (-1).

(** A table of [2^exp] buckets with every entry in the bucket of its hash. *)
Definition ht_shape (h : dictht K V) : Prop :=
  exists t, ht_table h = Some t /\ 0 <= ht_size_exp h <= 60 /\ zlen t = 2 ^ ht_size_exp h /\
    forall idx b e, t !! idx = Some b -> e ∈ b ->
      Z.land (hashFunction type (de_key e)) (2 ^ ht_size_exp h - 1) = Z.of_nat idx.

Definition ht_wf (h : dictht K V) : Prop := ht_shape h /\ ht_used h = zlen (ht_entries h).

(** The buckets of the old table below [rehashidx] are empty. *)
Definition moved (h : dictht K V) (x : Z) : Prop :=
  forall t idx b, ht_table h = Some t -> t !! idx = Some b -> Z.of_nat idx < x -> b = [].

Definition tables_wf (d : dict K V) : Prop :=
  (rehashidx d = -1 /\ ht1 d = ht_empty /\ (ht0 d = ht_empty \/ ht_wf (ht0 d))) \/
  (0 <= rehashidx d <= 2 ^ ht_size_exp (ht0 d) /\ ht_wf (ht0 d) /\ ht_wf (ht1 d) /\
   moved (ht0 d) (rehashidx d)).

Definition key_ids (l : list (dictEntry K V)) : list I := (fun e => content (de_key e)) <$> l.

Record dict_wf (d : dict K V) : Prop := {
  wf_tables : tables_wf d;
  wf_nodup : NoDup (key_ids (entries d));
  wf_max : zlen (entries d) <= MAX_ENTRIES;
  wf_pause : 0 <= pauserehash d;
}.

(** The finite map a list of entries stands for. *)
Definition to_map (l : list (dictEntry K V)) : gmap I (dictEntry K V) :=
  list_to_map ((fun e => (content (de_key e), e)) <$> l).

(** Calls of [dictRehash] while it returns 1, at most [k] of them. *)
Fixpoint rehash_times (n : Z) (k : nat) (d : dict K V) : res (dict K V * bool) :=
  match k with
  | O => Ok (d, true)
  | S k => '(d, more) ← dictRehash type d n; if more : bool then rehash_times n k d else Ok (d, false)
  end.

(** The operations on finite maps. *)
Definition map_exec (m : gmap I (dictEntry K V)) (op : dict_op K V) : gmap I (dictEntry K V) * dict_out K V :=
  match op with
  | OpAdd key val =>
      match m !! content key with
      | Some _ => (m, OutStatus DICT_ERR)
      | None => (<[content key := Entry (dictSetKey type key) (dictSetVal type val)]> m, OutStatus DICT_OK)
      end
  | OpReplace key val =>
      match m !! content key with
      | Some e => (<[content key := Entry (de_key e) (dictSetVal type val)]> m, OutNew false)
      | None => (<[content key := Entry (dictSetKey type key) (dictSetVal type val)]> m, OutNew true)
      end
  | OpDelete key =>
      (delete (content key) m, OutStatus (match m !! content key with Some _ => DICT_OK | None => DICT_ERR end))
  | OpUnlink key => (delete (content key) m, OutEntry (m !! content key))
  | OpFind key => (m, OutEntry (m !! content key))
  | OpFetchValue key => (m, OutVal (de_val <$> m !! content key))
  | OpSize => (m, OutSize (Z.of_nat (size m)))
  | OpEmpty => (∅, OutNone)
  | OpResize | OpExpand _ | OpTryExpand _ _ | OpRehash _ | OpCanResize _ => (m, OutNone)
  end.

Fixpoint map_run (m : gmap I (dictEntry K V)) (ops : list (dict_op K V)) : gmap I (dictEntry K V) * list (dict_out K V) :=
  match ops with
  | [] => (m, [])
  | op :: ops =>
      let '(m, out) := map_exec m op in
      let '(m, outs) := map_run m ops in
      (m, out :: outs)
  end.

(** The ranges of the arguments: sizes are unsigned, a rehash call gets a
    number of buckets of which the ten-fold fits an [int]. *)
Definition op_args (op : dict_op K V) : Prop :=
  match op with
  | OpExpand size | OpTryExpand size _ => 0 <= size < 2 ^ 64
  | OpRehash n => 0 <= n <= 2 ^ 27
  | _ => True
  end.

(** The dictionary [d] represents the map [m]. *)
Definition dict_repr (d : dict K V) (m : gmap I (dictEntry K V)) : Prop :=
  dict_wf d /\ to_map (entries d) = m.

End Spec.

(** * Lemmas *)

(** ** Lists of buckets *)

Lemma join_perm {A} (t : list (list A)) i b :
  t !! i = Some b -> mjoin t ≡ₚ b ++ mjoin (take i t ++ drop (S i) t).
Proof.
  intros Hi. rewrite <- (take_drop_middle t i b Hi) at 1. rewrite !join_app. cbn.
  rewrite !app_assoc. apply Permutation_app; [apply Permutation_app_comm|done].
Qed.

Lemma join_insert {A} (t : list (list A)) i b b' :
  t !! i = Some b -> mjoin (<[i := b']> t) ≡ₚ b' ++ mjoin (take i t ++ drop (S i) t).
Proof.
  intros Hi. pose proof (lookup_lt_Some _ _ _ Hi) as Hl.
  rewrite (join_perm (<[i := b']> t) i b') by (by apply list_lookup_insert_eq).
  rewrite take_insert_ge by lia. by rewrite drop_insert_lt by lia.
Qed.

Lemma mask_mod h e : 0 <= e -> Z.land h (2 ^ e - 1) = h mod 2 ^ e.
Proof. intros. by apply land_mask. Qed.

Lemma size_exp e : 0 <= e <= 60 -> DICTHT_SIZE e = 2 ^ e.
Proof.
  intros He. unfold DICTHT_SIZE. zfalse (e =? -1). rewrite Z.shiftl_1_l.
  apply wrapU_small. split; [apply Z.pow_nonneg; lia|apply Z.pow_lt_mono_r; lia].
Qed.

Lemma mask_exp e : 0 <= e <= 60 -> DICTHT_SIZE_MASK e = 2 ^ e - 1.
Proof. intros He. unfold DICTHT_SIZE_MASK. zfalse (e =? -1). by rewrite size_exp. Qed.

Lemma size_empty : DICTHT_SIZE (-1) = 0.
Proof. done. Qed.

Lemma zlen_perm {A} (l k : list A) : l ≡ₚ k -> zlen l = zlen k.
Proof. intros E. unfold zlen. by rewrite E. Qed.

Section Lemmas.
Context {K V I : Type} `{EqDecision K, Countable I} (type : dictType K V) (content : K -> I).
Context (Htype : dictType_ok type content).
Context (uninit_val : V).

Notation dict := (dict K V).
Notation dictht := (dictht K V).
Notation dictEntry := (dictEntry K V).
Notation ht_shape := (ht_shape type).
Notation ht_wf := (ht_wf type).
Notation tables_wf := (tables_wf type).
Notation dict_wf := (dict_wf type content).
Notation to_map := (to_map content).

Implicit Types d : dict.

(** ** Buckets *)

Lemma shape_bucket d i hash :
  ht_shape (ht d i) ->
  exists t b, ht_table (ht d i) = Some t /\ t !! Z.to_nat (entry_idx d i hash) = Some b /\
    bucket d i (entry_idx d i hash) = Ok b /\ 0 <= entry_idx d i hash < zlen t /\
    entry_idx d i hash = Z.land hash (2 ^ ht_size_exp (ht d i) - 1).
Proof.
  intros (t & Ht & He & Hl & _). unfold entry_idx, bucket. rewrite Ht, mask_exp by done.
  assert (0 < 2 ^ ht_size_exp (ht d i)) by (apply Z.pow_pos_nonneg; lia).
  pose proof (Z.mod_pos_bound hash (2 ^ ht_size_exp (ht d i)) ltac:(lia)) as Hr.
  rewrite mask_mod by lia.
  destruct (lookup_lt_is_Some_2 t (Z.to_nat (hash mod 2 ^ ht_size_exp (ht d i)))) as [b Hb].
  { unfold zlen in Hl. lia. }
  exists t, b. rewrite Hb. ztrue (0 <=? hash mod 2 ^ ht_size_exp (ht d i)).
  split_and!; try done; lia.
Qed.

(** The table after one bucket is replaced. *)
Definition with_bucket (h : dictht) (idx : nat) (b : list dictEntry) : dictht :=
  MkHt ((fun t => <[idx := b]> t) <$> ht_table h) (ht_used h) (ht_size_exp h).

Lemma set_bucket_ok d i idx b t :
  ht_table (ht d i) = Some t -> 0 <= idx < zlen t ->
  set_bucket d i idx b = Ok (set_ht d i (with_bucket (ht d i) (Z.to_nat idx) b)).
Proof.
  intros Ht Hi. unfold set_bucket, with_bucket. rewrite Ht. cbn.
  by ztrue ((0 <=? idx) && (idx <? zlen t)).
Qed.

Lemma ht_set d i h : ht (set_ht d i h) i = h.
Proof. by destruct i. Qed.

Lemma ht_set_ne d i h : ht (set_ht d i h) (negb i) = ht d (negb i).
Proof. by destruct i. Qed.

Lemma with_bucket_shape h t idx b b' :
  ht_shape h -> ht_table h = Some t -> t !! idx = Some b ->
  (forall e, e ∈ b' -> Z.land (hashFunction type (de_key e)) (2 ^ ht_size_exp h - 1) = Z.of_nat idx) ->
  ht_shape (with_bucket h idx b') /\
  ht_entries (with_bucket h idx b') ≡ₚ b' ++ mjoin (take idx t ++ drop (S idx) t) /\
  ht_entries h ≡ₚ b ++ mjoin (take idx t ++ drop (S idx) t).
Proof.
  intros (t' & Ht' & He & Hl & Hpl) Ht Hb Hb'. rewrite Ht in Ht'. injection Ht' as <-.
  pose proof (lookup_lt_Some _ _ _ Hb) as Hlt.
  unfold ht_entries, with_bucket. rewrite Ht. cbn. split_and!.
  - exists (<[idx := b']> t). cbn. split_and!; [done|lia|lia| |].
    + unfold zlen. by rewrite length_insert.
    + intros j c e Hj Hc. destruct (decide (j = idx)) as [->|].
      * rewrite list_lookup_insert_eq in Hj by done. injection Hj as <-. by apply Hb'.
      * rewrite list_lookup_insert_ne in Hj by done. by eapply Hpl.
  - by apply (join_insert t idx b).
  - by apply join_perm.
Qed.

(** ** Searching *)

Lemma match_content key (e : dictEntry) :
  (bool_decide (key = de_key e) || dictCompareKeys type key (de_key e)) =
  bool_decide (content key = content (de_key e)).
Proof using Htype.
  rewrite (compare_content _ _ Htype). destruct (decide (key = de_key e)) as [->|Hne].
  - by rewrite !bool_decide_true.
  - by rewrite (bool_decide_false (key = de_key e)).
Qed.

Lemma chain_find_spec key b :
  match chain_find type key b with
  | Some pos => exists e, b !! pos = Some e /\ content (de_key e) = content key
  | None => forall e, e ∈ b -> content (de_key e) <> content key
  end.
Proof using Htype.
  induction b as [|x b IH]; cbn [chain_find]; [by intros e He%not_elem_of_nil|].
  rewrite match_content. case_bool_decide as Hx; [by exists x|].
  destruct (chain_find type key b) as [pos|]; cbn; [done|].
  intros e [->|He]%elem_of_cons; [congruence|by apply IH].
Qed.

(** An entry with the key is in the bucket of the key. *)
Lemma in_bucket h t key e :
  ht_shape h -> ht_table h = Some t -> e ∈ ht_entries h -> content (de_key e) = content key ->
  exists b, t !! Z.to_nat (Z.land (hashFunction type key) (2 ^ ht_size_exp h - 1)) = Some b /\ e ∈ b.
Proof using Htype.
  intros (t' & Ht' & He & Hl & Hpl) Ht Hin Hc. rewrite Ht in Ht'. injection Ht' as <-.
  unfold ht_entries in Hin. rewrite Ht in Hin. apply list_elem_of_join in Hin as (b & Heb & Hb).
  apply list_elem_of_lookup in Hb as [idx Hidx]. pose proof (Hpl _ _ _ Hidx Heb) as Hp.
  rewrite (hash_content _ _ Htype _ _ Hc) in Hp. exists b. by rewrite Hp, Nat2Z.id.
Qed.

(** ** Rehashing *)

(** Moving entries to the new table. *)
Lemma move_ok d de :
  ht_shape (ht1 d) -> zlen de <= ht_used (ht0 d) <= MAX_ENTRIES -> 0 <= ht_used (ht1 d) <= 2 ^ 60 - zlen de ->
  exists h1 u0, dictRehash_move type d de = Ok (Dict (MkHt (ht_table (ht0 d)) u0 (ht_size_exp (ht0 d))) h1
                                                 (rehashidx d) (pauserehash d)) /\
    ht_shape h1 /\ ht_entries h1 ≡ₚ de ++ ht_entries (ht1 d) /\
    u0 = ht_used (ht0 d) - zlen de /\ ht_used h1 = ht_used (ht1 d) + zlen de /\
    ht_size_exp h1 = ht_size_exp (ht1 d).
Proof using Htype.
  unfold MAX_ENTRIES. revert d. induction de as [|e de IH]; intros d Hs Hu0 Hu1; cbn [dictRehash_move].
  - exists (ht1 d), (ht_used (ht0 d)). change (zlen []) with 0.
    destruct d as [[? ? ?] ? ? ?]; cbn. split_and!; try done; lia.
  - rewrite zlen_cons in *. pose proof (zlen_nonneg de).
    change (Z.land _ _) with (entry_idx d true (dictHashKey type (de_key e))).
    destruct (shape_bucket d true (dictHashKey type (de_key e)) Hs) as (t & b & Htb & Hb & Hbk & Hr & Hidx).
    rewrite Hbk, bind_Ok, (set_bucket_ok d true _ _ t), bind_Ok by done.
    destruct (with_bucket_shape (ht1 d) t _ b (e :: b) Hs Htb Hb) as (Hs' & Hp1 & Hp2).
    { intros e' [->|He']%elem_of_cons.
      - rewrite Z2Nat.id by lia. rewrite Hidx. done.
      - destruct Hs as (t' & Ht' & _ & _ & Hpl). assert (t' = t) as -> by (cbn in *; congruence). by eapply Hpl. }
    set (h1 := with_bucket (ht1 d) _ (e :: b)) in *.
    destruct (IH (set_used (set_used (set_ht d true h1) false (ht_used (ht0 d) - 1)) true (ht_used h1 + 1)))
      as (h1' & u0 & E & Hs2 & Hp & Hu & Hu' & Hx1).
    + cbn. unfold h1. destruct Hs' as (t' & ? & ? & ? & ?). by exists t'.
    + cbn. zwrap. lia.
    + cbn. zwrap. lia.
    + exists h1', u0. split_and!; [|done| | | |done].
      * exact E.
      * rewrite Hp. cbn [ht1 set_used set_ht ht]. change (ht_entries (MkHt _ _ _)) with (ht_entries h1).
        rewrite Hp1, Hp2. cbn [app]. symmetry. apply Permutation_middle.
      * rewrite Hu. cbn. zwrap. lia.
      * rewrite Hu'. cbn. zwrap. lia.
Qed.

(** Skipping empty buckets: there is a bucket [x] that is not empty. *)
Lemma skip_ok t d x bx v fuel :
  ht_table (ht0 d) = Some t -> t !! x = Some bx -> bx <> [] -> 0 <= rehashidx d <= Z.of_nat x ->
  moved (ht0 d) (rehashidx d) -> 0 < v -> Z.of_nat x - rehashidx d < Z.of_nat fuel ->
  exists r o, dictRehash_skip fuel d v = Ok (set_rehashidx d r, o) /\
    rehashidx d <= r <= Z.of_nat x /\ moved (ht0 d) r /\
    match o with
    | None => rehashidx d < r
    | Some v' => 0 < v' <= v /\ exists b, t !! Z.to_nat r = Some b /\ b <> []
    end.
Proof.
  intros Ht Hx Hne. revert d v Ht. induction fuel as [|fuel IH]; intros d v Ht Hr Hm Hv Hf; [lia|].
  cbn [dictRehash_skip]. unfold bucket. cbn [ht]. rewrite Ht. ztrue (0 <=? rehashidx d).
  pose proof (lookup_lt_Some _ _ _ Hx).
  destruct (lookup_lt_is_Some_2 t (Z.to_nat (rehashidx d))) as [b Hb]; [lia|]. rewrite Hb, bind_Ok.
  destruct b as [|e b].
  - assert (rehashidx d <> Z.of_nat x) as Hnx.
    { intros E. rewrite E, Nat2Z.id, Hx in Hb. congruence. }
    assert (moved (ht0 d) (rehashidx d + 1)) as Hm'.
    { intros t' idx b' Ht' Hb' Hlt. destruct (decide (Z.of_nat idx = rehashidx d)) as [E|E].
      - rewrite Ht in Ht'. injection Ht' as <-. rewrite <- E, Nat2Z.id in Hb. congruence.
      - apply (Hm t' idx b' Ht' Hb'). lia. }
    destruct (Z.eqb_spec (v - 1) 0).
    + exists (rehashidx d + 1), None. split_and!; try done; lia.
    + destruct (IH (set_rehashidx d (rehashidx d + 1)) (v - 1)) as (r & o & E & Hr' & Hmr & Ho); try done; cbn; try lia.
      cbn in *. exists r, o. rewrite E. split_and!; [done|lia|lia|done|].
      destruct o; [|lia]. destruct Ho as [? ?]. split; [lia|done].
  - exists (rehashidx d), (Some v). split_and!; [by destruct d|lia|lia|done|lia|lia|]. by exists (e :: b).
Qed.

(** The state of a rehash in progress. *)
Record rehashing (d : dict) : Prop := {
  rh_idx : 0 <= rehashidx d <= 2 ^ ht_size_exp (ht0 d);
  rh_wf0 : ht_wf (ht0 d);
  rh_wf1 : ht_wf (ht1 d);
  rh_moved : moved (ht0 d) (rehashidx d);
  rh_max : zlen (entries d) <= MAX_ENTRIES;
}.

(** A table with entries has a bucket that is not empty, not below [rehashidx]. *)
Lemma busy_bucket (h : dictht) t r :
  ht_table h = Some t -> ht_entries h <> [] -> moved h r ->
  exists x b, t !! x = Some b /\ b <> [] /\ r <= Z.of_nat x.
Proof.
  intros Ht Hne Hm. unfold ht_entries in Hne. rewrite Ht in Hne.
  destruct (mjoin t) as [|e l] eqn:E; [done|].
  assert (e ∈ mjoin t) as He by (rewrite E; by left).
  apply list_elem_of_join in He as (b & Heb & Hb). apply list_elem_of_lookup in Hb as [x Hx].
  exists x, b. assert (b <> []) as Hbne by (intros ->; by apply not_elem_of_nil in Heb).
  split_and!; [done..|]. destruct (Z.leb_spec r (Z.of_nat x)); [done|].
  exfalso. apply Hbne. by apply (Hm t x b).
Qed.

(** One turn of the outer loop: a bucket moved. *)
Lemma rehash_turn d n v :
  rehashing d -> 0 < v -> ht_used (ht0 d) <> 0 ->
  exists d', rehashing d' /\ entries d' ≡ₚ entries d /\ rehashidx d < rehashidx d' /\
    ht_size_exp (ht0 d') = ht_size_exp (ht0 d) /\ ht_size_exp (ht1 d') = ht_size_exp (ht1 d) /\
    pauserehash d' = pauserehash d /\
    (dictRehash_loop type (S n) d v = Ok (d', true) \/
     exists v', 0 < v' <= v /\ dictRehash_loop type (S n) d v = dictRehash_loop type n d' v').
Proof using Htype.
  intros [Hidx [Hs0 Hu0] [Hs1 Hu1] Hmv Hmax] Hv Hne. destruct Hs0 as (t & Ht & He & Hl & Hpl).
  assert (ht_entries (ht0 d) <> []) as Hent by (intros E; rewrite E in Hu0; done).
  destruct (busy_bucket _ _ _ Ht Hent Hmv) as (x & bx & Hx & Hbx & Hrx).
  pose proof (lookup_lt_Some _ _ _ Hx) as Hxl. unfold zlen in Hl.
  cbn [dictRehash_loop]. zfalse (ht_used (ht0 d) =? 0). rewrite size_exp, Z.gtb_ltb by done.
  ztrue (rehashidx d <? 2 ^ ht_size_exp (ht0 d)).
  destruct (skip_ok t d x bx v (Z.to_nat (2 ^ ht_size_exp (ht0 d) - rehashidx d) + 1) Ht Hx Hbx)
    as (r & o & E & Hr & Hmr & Ho); [lia|done|done|lia|].
  rewrite E, bind_Ok. destruct o as [v'|].
  2:{ exists (set_rehashidx d r). cbn. split_and!; try done; [|by left]. split; cbn; try done; [lia|]. split; [by exists t|done]. }
  destruct Ho as (Hv' & b & Hb & Hbne). unfold bucket. cbn [ht ht0 set_rehashidx rehashidx]. rewrite Ht.
  ztrue (0 <=? r). rewrite Hb, bind_Ok.
  assert (ht_shape (ht0 d)) as Hs0 by (by exists t).
  destruct (with_bucket_shape (ht0 d) t _ b [] Hs0 Ht Hb) as (Hs' & Hp1 & Hp2).
  { by intros e He'%not_elem_of_nil. }
  assert (zlen b <= ht_used (ht0 d)) as Hzb.
  { rewrite Hu0, (zlen_perm _ _ Hp2), zlen_app. pose proof (zlen_nonneg (mjoin (take (Z.to_nat r) t ++ drop (S (Z.to_nat r)) t))). lia. }
  unfold entries, MAX_ENTRIES in Hmax. rewrite zlen_app in Hmax.
  pose proof (zlen_nonneg (ht_entries (ht1 d))). pose proof (zlen_nonneg b).
  destruct (move_ok (set_rehashidx d r) b) as (h1 & u0 & Em & Hs1' & Hp & Hu & Hu' & Hx1); cbn;
    [done|unfold MAX_ENTRIES; lia|lia|].
  rewrite Em, bind_Ok, (set_bucket_ok _ false _ _ t), bind_Ok by (cbn; done || unfold zlen; lia).
  cbn in Hp, Hu, Hu'.
  eexists. split; [|split; [|split; [|split; [|split; [|split; [|right; exists v'; split; [done|reflexivity]]]]]]].
  - split; cbn.
    + lia.
    + split; [exact Hs'|]. cbn. rewrite Hu, Hu0, (zlen_perm _ _ Hp2). change (ht_entries _) with (ht_entries (with_bucket (ht0 d) (Z.to_nat r) [])).
      rewrite (zlen_perm _ _ Hp1), !zlen_app. change (zlen []) with 0. lia.
    + split; [done|]. rewrite Hu', Hu1, (zlen_perm _ _ Hp), zlen_app. lia.
    + intros t' idx b' Ht' Hb' Hlt. cbn in Ht'. rewrite Ht in Ht'. cbn in Ht'. injection Ht' as <-.
      destruct (decide (idx = Z.to_nat r)) as [->|].
      * rewrite list_lookup_insert_eq in Hb' by lia. congruence.
      * rewrite list_lookup_insert_ne in Hb' by done. apply (Hmr t idx b' Ht Hb'). lia.
    + unfold entries, MAX_ENTRIES. cbn. change (ht_entries _) with (ht_entries (with_bucket (ht0 d) (Z.to_nat r) [])) at 1.
      rewrite zlen_app, (zlen_perm _ _ Hp), (zlen_perm _ _ Hp1), !zlen_app. change (zlen []) with 0.
      rewrite (zlen_perm _ _ Hp2), zlen_app in Hmax. lia.
  - unfold entries. cbn. change (ht_entries _) with (ht_entries (with_bucket (ht0 d) (Z.to_nat r) [])) at 1.
    rewrite Hp1, Hp2, Hp. cbn [app]. rewrite !app_assoc. apply Permutation_app; [apply Permutation_app_comm|done].
  - cbn. lia.
  - done.
  - done.
  - done.
Qed.

(** [n] turns of the loop. *)
Lemma rehash_loop_ok n d v :
  rehashing d -> 0 < v \/ n = O ->
  exists d' ret, dictRehash_loop type n d v = Ok (d', ret) /\ rehashing d' /\ entries d' ≡ₚ entries d /\
    ht_size_exp (ht0 d') = ht_size_exp (ht0 d) /\ ht_size_exp (ht1 d') = ht_size_exp (ht1 d) /\
    pauserehash d' = pauserehash d /\ rehashidx d <= rehashidx d' /\
    (rehashidx d < rehashidx d' \/ n = O \/ ht_used (ht0 d) = 0 /\ d' = d /\ ret = false).
Proof using Htype.
  revert d v. induction n as [|n IH]; intros d v Hd Hv.
  - exists d, false. cbn. split_and!; try done. auto.
  - destruct (decide (ht_used (ht0 d) = 0)) as [E|E].
    { exists d, false. cbn [dictRehash_loop]. rewrite E. cbn. split_and!; try done. auto. }
    assert (0 < v) as Hv0 by (by destruct Hv).
    destruct (rehash_turn d n v Hd Hv0 E) as (d1 & Hd1 & Hp & Hlt & He0 & He1 & Hpa & [Eq|(v' & Hv' & Eq)]).
    + exists d1, true. rewrite Eq. split_and!; try done; [lia|by left].
    + destruct (IH d1 v' Hd1) as (d2 & ret & E2 & Hd2 & Hp2 & He02 & He12 & Hpa2 & Hle & _); [left; lia|].
      exists d2, ret. rewrite Eq, E2. split_and!; try done; try congruence; [by rewrite Hp2|lia|left; lia].
Qed.

Lemma rehashing_of d : tables_wf d -> zlen (entries d) <= MAX_ENTRIES -> dictIsRehashing d = true -> rehashing d.
Proof.
  unfold dictIsRehashing. intros [(E & _)|(Hi & H0 & H1 & Hm)] Hmax Hr; [by rewrite E in Hr|]. by split.
Qed.

Lemma rehashing_tables d : rehashing d -> tables_wf d /\ dictIsRehashing d = true.
Proof.
  intros [Hi H0 H1 Hm _]. split; [by right|]. unfold dictIsRehashing. by zfalse (rehashidx d =? -1).
Qed.

(** The same entries in another order, in well-formed tables. *)
Lemma wf_perm d d' :
  dict_wf d -> tables_wf d' -> entries d' ≡ₚ entries d -> 0 <= pauserehash d' -> dict_wf d'.
Proof.
  intros [_ Hn Hm _] Ht Hp Hpa. split; [done| | |done].
  - unfold key_ids in *. by rewrite Hp.
  - by rewrite (zlen_perm _ _ Hp).
Qed.

Lemma zlen_nil_inv {A} (l : list A) : zlen l = 0 -> l = [].
Proof. destruct l; [done|]. rewrite zlen_cons. pose proof (zlen_nonneg l). lia. Qed.

Lemma rehash_ok d n :
  dict_wf d -> 0 <= n <= 2 ^ 27 ->
  exists d', dictRehash type d n = Ok (d', dictIsRehashing d') /\ dict_wf d' /\ entries d' ≡ₚ entries d /\
    pauserehash d' = pauserehash d /\
    (dictIsRehashing d = false -> d' = d) /\
    (dictIsRehashing d = true -> 0 < n -> dictIsRehashing d' = true ->
     rehashidx d < rehashidx d' /\ ht_size_exp (ht0 d') = ht_size_exp (ht0 d)).
Proof using Htype.
  intros Hwf Hn. pose proof Hwf as [Ht Hnd Hmax Hpa]. unfold dictRehash.
  rewrite sint_ok, bind_Ok by (cbn; lia).
  destruct (dictIsRehashing d) eqn:Hr; cbn [negb].
  2:{ exists d. by rewrite Hr. }
  pose proof (rehashing_of d Ht Hmax Hr) as Hrh.
  destruct (rehash_loop_ok (Z.to_nat n) d (n * 10) Hrh) as (d1 & ret & E & Hd1 & Hp & He0 & _ & Hpa1 & _ & Hprog); [lia|].
  rewrite E, bind_Ok. destruct (rehashing_tables d1 Hd1) as [Ht1 Hr1].
  assert (dict_wf d1) as Hwf1 by (apply (wf_perm d); [done..|lia]).
  destruct (decide (ret = false /\ ht_used (ht0 d1) = 0)) as [[-> Hu]|Hnot].
  - rewrite Hu. cbn [Z.eqb].
    set (d2 := set_rehashidx _ (-1)).
    assert (ht_entries (ht0 d1) = []) as Hnil.
    { apply zlen_nil_inv. destruct Hd1 as [_ [_ <-] _ _ _]. done. }
    assert (entries d2 = entries d1) as Hent.
    { unfold entries, d2. cbn. rewrite Hnil. cbn. by rewrite app_nil_r. }
    exists d2. split_and!; try done.
    + apply (wf_perm d1); [done| |by rewrite Hent|unfold d2; cbn; lia]. left. split_and!; [done..|].
      right. apply Hd1.
    + by rewrite Hent.
  - exists d1. split_and!; try done.
    + rewrite Hr1. destruct ret; [done|]. zfalse (ht_used (ht0 d1) =? 0). done.
    + intros _ Hn0 _. split; [|done]. destruct Hprog as [?|[?|(Hu & -> & ->)]]; [done|lia|]. by destruct Hnot.
Qed.

Lemma dict_step_ok d :
  dict_wf d -> exists d', (if dictIsRehashing d then _dictRehashStep type d else Ok d) = Ok d' /\ dict_wf d' /\
    entries d' ≡ₚ entries d /\ pauserehash d' = pauserehash d.
Proof using Htype.
  intros Hwf. destruct (dictIsRehashing d); [|by exists d]. unfold _dictRehashStep.
  case_match; [|by exists d]. destruct (rehash_ok d 1 Hwf ltac:(lia)) as (d' & -> & ? & ? & ? & _).
  exists d'. by rewrite bind_Ok.
Qed.

(** ** Growing *)

Lemma next_exp_loop size e fuel :
  0 <= e <= 63 -> size <= 2 ^ 63 -> 64 - e <= Z.of_nat fuel -> (e = 2 \/ 2 ^ (e - 1) < size) ->
  exists x, _dictNextExp_loop fuel e size = Ok x /\ e <= x <= 63 /\ size <= 2 ^ x /\ (x = 2 \/ 2 ^ (x - 1) < size).
Proof.
  revert e. induction fuel as [|fuel IH]; intros e He Hs Hf Hlo; [lia|]. cbn [_dictNextExp_loop].
  rewrite Z.shiftl_1_l, wrapU_small, Z.geb_leb
    by (split; [apply Z.pow_nonneg; lia|apply Z.pow_lt_mono_r; lia]).
  destruct (Z.leb_spec size (2 ^ e)).
  - exists e. split_and!; try done; lia.
  - assert (e <> 63) by (intros ->; lia).
    destruct (IH (e + 1)) as (x & -> & ? & ? & ?); [lia..| |exists x; split_and!; try done; lia].
    right. by replace (e + 1 - 1) with e by lia.
Qed.

(** The smallest power of two, not below 4, that is not below [size]; 2^63 for
    sizes that are too large. *)
Lemma next_exp_ok size :
  exists x, _dictNextExp size = Ok x /\ 2 <= x <= 63 /\
    (size <= 2 ^ x /\ (x = 2 \/ 2 ^ (x - 1) < size) \/ x = 63 /\ 2 ^ 63 < size).
Proof.
  unfold _dictNextExp, LONG_MAX. zconst. rewrite Z.geb_leb.
  destruct (Z.leb_spec (2 ^ 63 - 1) size).
  - exists 63. split_and!; [done|lia..|]. destruct (Z.leb_spec size (2 ^ 63)); [left|right]; split; try lia.
  - destruct (next_exp_loop size DICT_HT_INITIAL_EXP 64) as (x & E & ? & ? & ?);
      [unfold DICT_HT_INITIAL_EXP; lia..|]. unfold DICT_HT_INITIAL_EXP in *. exists x. split_and!; auto; lia.
Qed.

Lemma pow2_overflow x : 2 <= x <= 63 -> (wrapU 64 (2 ^ x * 8) <? 2 ^ x) = negb (x <=? 60).
Proof.
  intros Hx. change 8 with (2 ^ 3). rewrite <- Z.pow_add_r by lia. destruct (Z.leb_spec x 60); cbn [negb].
  - assert (2 ^ (x + 3) < 2 ^ 64) by (apply Z.pow_lt_mono_r; lia).
    rewrite wrapU_small by (split; [apply Z.pow_nonneg; lia|done]). apply Z.ltb_ge, Z.pow_le_mono_r; lia.
  - unfold wrapU. replace (x + 3) with (64 + (x - 61)) by lia. rewrite Z.pow_add_r, Z.mul_comm, Z.mod_mul by lia.
    apply Z.ltb_lt, Z.pow_pos_nonneg; lia.
Qed.

Lemma fresh_wf e : 0 <= e <= 60 -> ht_wf (MkHt (Some (replicate (Z.to_nat (2 ^ e)) [])) 0 e) /\
  ht_entries (MkHt (K := K) (V := V) (Some (replicate (Z.to_nat (2 ^ e)) [])) 0 e) = [].
Proof.
  intros He. assert (forall n, mjoin (replicate n (@nil dictEntry)) = []) as Hj by (by induction n).
  unfold ht_entries. cbn. split; [|apply Hj]. split; [|cbn; unfold ht_entries; cbn; by rewrite Hj].
  eexists. split_and!; cbn; [done|lia|lia| |].
  - rewrite zlen_replicate, Z2Nat.id; [done|]. apply Z.pow_nonneg. lia.
  - intros idx b e0 Hb Hin. apply lookup_replicate in Hb as [-> _]. by apply not_elem_of_nil in Hin.
Qed.

(** Growing or shrinking keeps the entries; a table that is empty or too small
    is replaced. *)
Lemma expand_ok d size try fails :
  dict_wf d -> 0 <= size ->
  exists d' st mf, _dictExpand d size try fails = Ok (d', st, mf) /\ dict_wf d' /\ entries d' = entries d /\
    pauserehash d' = pauserehash d /\ (st = DICT_ERR -> d' = d) /\
    (dictIsRehashing d = false -> ht_used (ht0 d) <= size <= 2 ^ 60 -> try && fails = false ->
     2 ^ ht_size_exp (ht0 d) < size \/ ht0 d = ht_empty -> st = DICT_OK /\ ht0 d' <> ht_empty).
Proof.
  intros Hwf Hsize. pose proof Hwf as [Ht Hn Hm Hp]. unfold _dictExpand. rewrite Z.gtb_ltb.
  destruct (dictIsRehashing d) eqn:Hr; cbn [orb].
  { exists d, DICT_ERR, false. by split_and!. }
  destruct (Z.ltb_spec size (ht_used (ht0 d))).
  { exists d, DICT_ERR, false. split_and!; try done. intros. lia. }
  destruct (next_exp_ok size) as (x & -> & Hx & Hcase). rewrite bind_Ok.
  assert (0 <= 2 ^ x < 2 ^ 64) by (split; [apply Z.pow_nonneg; lia|apply Z.pow_lt_mono_r; lia]).
  rewrite Z.shiftl_1_l, (wrapU_small 64 (2 ^ x)), pow2_overflow by done. cbv zeta.
  destruct ((2 ^ x <? size) || negb (x <=? 60)) eqn:Hov.
  { exists d, DICT_ERR, false. split_and!; try done. intros _ Hs _ _. exfalso.
    apply orb_true_iff in Hov as [Hov|Hov].
    - apply Z.ltb_lt in Hov. destruct Hcase as [[? _]|[-> ?]]; lia.
    - apply negb_true_iff, Z.leb_gt in Hov. destruct Hcase as [[_ [->|Hlt]]|[-> ?]]; [lia| |lia].
      assert (2 ^ 60 <= 2 ^ (x - 1)) by (apply Z.pow_le_mono_r; lia). lia. }
  apply orb_false_iff in Hov as [Hsx%Z.ltb_ge H60]. apply negb_false_iff, Z.leb_le in H60.
  destruct (Z.eqb_spec x (ht_size_exp (ht0 d))) as [->|Hne].
  { exists d, DICT_ERR, false. split_and!; try done. intros _ _ _ [Hlt|E]; [lia|]. rewrite E in Hx. cbn in Hx. lia. }
  destruct (try && fails) eqn:Htf.
  { exists d, DICT_ERR, true. by split_and!. }
  destruct (fresh_wf x ltac:(lia)) as [Hfw Hfe].
  set (new_ht := MkHt (Some (replicate (Z.to_nat (2 ^ x)) [])) 0 x) in *.
  destruct Ht as [(Hri & Hh1 & Hh0)|(Hri & _)].
  2:{ unfold dictIsRehashing in Hr. exfalso. destruct (Z.eqb_spec (rehashidx d) (-1)); [lia|done]. }
  destruct (ht_table (ht0 d)) as [t|] eqn:Htab.
  - assert (ht_wf (ht0 d)) as Hw0 by (destruct Hh0 as [E|?]; [by rewrite E in Htab|done]).
    set (d' := set_rehashidx (set_ht d true new_ht) 0). exists d', DICT_OK, false.
    assert (entries d' = entries d) as Ee.
    { change (entries d') with (ht_entries (ht0 d) ++ ht_entries new_ht). unfold entries. by rewrite Hfe, Hh1. }
    split_and!; try done.
    + apply (wf_perm d); [done| |by rewrite Ee|done]. right. split_and!; cbn; try done.
      * apply Z.pow_nonneg. lia.
      * intros t' idx b _ _ Hlt. lia.
    + intros _ _ _ _. split; [done|]. unfold d'. cbn. intros E. by rewrite E in Htab.
  - assert (ht0 d = ht_empty) as E0.
    { destruct Hh0 as [?|[(t & Htt & _) _]]; [done|]. congruence. }
    exists (set_ht d false new_ht), DICT_OK, false.
    assert (entries (set_ht d false new_ht) = entries d) as Ee.
    { change (entries (set_ht d false new_ht)) with (ht_entries new_ht ++ ht_entries (ht1 d)). unfold entries. by rewrite Hfe, E0. }
    split_and!; try done. apply (wf_perm d); [done| |by rewrite Ee|done]. left. cbn. split_and!; try done. by right.
Qed.

Lemma dictExpand_ok d size :
  dict_wf d -> 0 <= size ->
  exists d' st, dictExpand d size = Ok (d', st) /\ dict_wf d' /\ entries d' = entries d /\
    pauserehash d' = pauserehash d /\ (st = DICT_ERR -> d' = d) /\
    (dictIsRehashing d = false -> ht_used (ht0 d) <= size <= 2 ^ 60 ->
     2 ^ ht_size_exp (ht0 d) < size \/ ht0 d = ht_empty -> st = DICT_OK /\ ht0 d' <> ht_empty).
Proof.
  intros Hwf Hs. destruct (expand_ok d size false false Hwf Hs) as (d' & st & mf & E & ? & ? & ? & ? & Hok).
  exists d', st. unfold dictExpand. rewrite E, bind_Ok. split_and!; auto.
Qed.

(** Expansion on demand: there is a table to insert into. *)
Lemma expand_if_needed_ok can_resize d :
  dict_wf d -> zlen (entries d) < MAX_ENTRIES ->
  exists d', _dictExpandIfNeeded type can_resize d = Ok (d', DICT_OK) /\ dict_wf d' /\ entries d' = entries d /\
    pauserehash d' = pauserehash d /\ ht0 d' <> ht_empty.
Proof.
  intros Hwf Hmax. pose proof Hwf as [Ht _ _ _]. unfold _dictExpandIfNeeded, MAX_ENTRIES in *.
  destruct (dictIsRehashing d) eqn:Hr.
  { exists d. split_and!; try done. intros E. destruct Ht as [(Hi & _)|(_ & [(t & Htt & _) _] & _)].
    - unfold dictIsRehashing in Hr. by rewrite Hi in Hr.
    - by rewrite E in Htt. }
  destruct Ht as [(Hri & Hh1 & Hh0)|(Hri & _)].
  2:{ unfold dictIsRehashing in Hr. exfalso. destruct (Z.eqb_spec (rehashidx d) (-1)); [lia|done]. }
  unfold entries in Hmax. rewrite Hh1, app_nil_r in Hmax.
  destruct Hh0 as [E0|[Hs0 Hu]].
  { rewrite E0. cbn [ht_size_exp ht_empty]. rewrite size_empty. cbn [Z.eqb].
    destruct (dictExpand_ok d DICT_HT_INITIAL_SIZE Hwf ltac:(done)) as (d' & st & E & ? & ? & ? & _ & Hok).
    destruct Hok as [-> ?]; [done|rewrite E0; change DICT_HT_INITIAL_SIZE with 4; cbn [ht_used ht_empty]; lia|by right|]. exists d'. by split_and!. }
  pose proof Hs0 as (t & Htt & He & Hl & _). rewrite size_exp by done.
  assert (0 < 2 ^ ht_size_exp (ht0 d)) by (apply Z.pow_pos_nonneg; lia).
  zfalse (2 ^ ht_size_exp (ht0 d) =? 0).
  assert (ht0 d <> ht_empty) as Hne by (intros E; by rewrite E in Htt).
  destruct (_ && _) eqn:Hc; [|by exists d].
  assert (exists b, dictTypeExpandAllowed type d = Ok b) as [[] ->].
  { unfold dictTypeExpandAllowed. case_match; [|by eexists].
    destruct (next_exp_ok (wrapU 64 (ht_used (ht0 d) + 1))) as (x & -> & _). rewrite bind_Ok. by eexists. }
  2:{ rewrite bind_Ok. by exists d. }
  rewrite bind_Ok. apply andb_true_iff in Hc as [Hc _]. rewrite Z.geb_leb in Hc. apply Z.leb_le in Hc.
  pose proof (zlen_nonneg (ht_entries (ht0 d))). rewrite Hu in *. zwrap.
  destruct (dictExpand_ok d (zlen (ht_entries (ht0 d)) + 1) Hwf ltac:(lia)) as (d' & st & E & ? & ? & ? & _ & Hok).
  destruct Hok as [-> ?]; [done|lia|left; lia|]. exists d'. by split_and!.
Qed.

(** ** The abstract map *)

Lemma map_lookup (l : list dictEntry) c e :
  NoDup (key_ids content l) -> to_map l !! c = Some e <-> e ∈ l /\ content (de_key e) = c.
Proof.
  intros Hn. unfold to_map, key_ids in *. rewrite <- elem_of_list_to_map.
  - rewrite list_elem_of_fmap. split.
    + by intros (e' & [= -> ->] & ?).
    + intros [? <-]. by exists e.
  - by rewrite <- list_fmap_compose.
Qed.

Lemma map_lookup_None (l : list dictEntry) c : to_map l !! c = None <-> forall e, e ∈ l -> content (de_key e) <> c.
Proof.
  unfold to_map. rewrite <- not_elem_of_list_to_map, <- list_fmap_compose, list_elem_of_fmap. split.
  - intros Hno e He Hc. apply Hno. by exists e.
  - intros Hall (e & -> & He). by apply (Hall e).
Qed.

Lemma map_perm (l l' : list dictEntry) : NoDup (key_ids content l) -> l ≡ₚ l' -> to_map l = to_map l'.
Proof.
  intros Hn Hp. unfold to_map. apply list_to_map_proper; [|by rewrite Hp].
  unfold key_ids in Hn. by rewrite <- list_fmap_compose.
Qed.

Lemma wf_used d : dict_wf d -> ht_used (ht0 d) = zlen (ht_entries (ht0 d)) /\
  ht_used (ht1 d) = zlen (ht_entries (ht1 d)) /\ dictSize d = zlen (entries d).
Proof.
  intros [Ht _ Hm _]. assert (ht_used (ht0 d) = zlen (ht_entries (ht0 d)) /\
    ht_used (ht1 d) = zlen (ht_entries (ht1 d))) as [E0 E1].
  { destruct Ht as [(_ & -> & [->|[_ ?]])|(_ & [_ ?] & [_ ?] & _)]; done. }
  split_and!; [done..|]. unfold dictSize, entries, MAX_ENTRIES in *. rewrite zlen_app, E0, E1 in *.
  pose proof (zlen_nonneg (ht_entries (ht0 d))). pose proof (zlen_nonneg (ht_entries (ht1 d))).
  rewrite wrapU_small; lia.
Qed.

(** The tables of a dictionary that has one. *)
Lemma wf_tables_cases d :
  tables_wf d -> ht0 d <> ht_empty ->
  ht_wf (ht0 d) /\ if dictIsRehashing d then ht_wf (ht1 d) else ht1 d = ht_empty.
Proof.
  unfold dictIsRehashing. intros [(-> & -> & [?|?])|(? & ? & ? & _)] Hne; [done|done|].
  by zfalse (rehashidx d =? -1).
Qed.

Lemma entries_table d : entries d <> [] -> tables_wf d -> ht0 d <> ht_empty.
Proof.
  intros He Ht E. apply He. unfold entries. destruct Ht as [(_ & -> & _)|(_ & [(t & Htt & _) _] & _)]; [by rewrite E|].
  by rewrite E in Htt.
Qed.

(** Changing one bucket. *)
Lemma update_ok d i t idx b b' :
  tables_wf d -> ht_wf (ht d i) -> ht_table (ht d i) = Some t -> t !! Z.to_nat idx = Some b -> 0 <= idx ->
  (forall e, e ∈ b' -> Z.land (hashFunction type (de_key e)) (2 ^ ht_size_exp (ht d i) - 1) = idx) ->
  b <> [] \/ i = dictIsRehashing d ->
  let u := ht_used (ht d i) + zlen b' - zlen b in
  let d' := set_ht d i (MkHt (Some (<[Z.to_nat idx := b']> t)) u (ht_size_exp (ht d i))) in
  tables_wf d' /\ exists R, entries d ≡ₚ b ++ R /\ entries d' ≡ₚ b' ++ R.
Proof.
  intros Ht [Hs Hu] Htab Hb Hidx Hpl Hne u d'.
  destruct (with_bucket_shape (ht d i) t (Z.to_nat idx) b b' Hs Htab Hb) as (Hs' & Hp1 & Hp2).
  { rewrite Z2Nat.id by done. done. }
  set (h' := MkHt (Some (<[Z.to_nat idx := b']> t)) u (ht_size_exp (ht d i))) in *.
  assert (ht_entries h' = ht_entries (with_bucket (ht d i) (Z.to_nat idx) b')) as Eh.
  { unfold ht_entries, with_bucket, h'. cbn. by rewrite Htab. }
  assert (ht_wf h') as Hw'.
  { split.
    - destruct Hs' as (t' & Ht' & Hrest). exists t'. split; [|done]. rewrite <- Ht'. cbn. by rewrite Htab.
    - rewrite Eh, (zlen_perm _ _ Hp1). cbn. unfold u. rewrite Hu, (zlen_perm _ _ Hp2), !zlen_app. lia. }
  set (R := mjoin (take (Z.to_nat idx) t ++ drop (S (Z.to_nat idx)) t)) in *.
  assert (exists R, entries d ≡ₚ b ++ R /\ entries d' ≡ₚ b' ++ R) as HR.
  { exists (R ++ ht_entries (ht d (negb i))). unfold entries, d'. rewrite <- Eh in Hp1.
    destruct i; cbn in *; rewrite Hp1, Hp2, <- ?app_assoc; [|done].
    split; rewrite app_assoc, (Permutation_app_comm (ht_entries (ht0 d))), <- app_assoc;
      apply Permutation_app; try done; rewrite Permutation_app_comm; done. }
  split; [|done]. unfold tables_wf, d'. destruct i; cbn [set_ht ht ht0 ht1 rehashidx] in *.
  - destruct Ht as [(_ & E & _)|(? & ? & ? & ?)]; [by rewrite E in Htab|]. right. tauto.
  - destruct Ht as [(? & ? & _)|(Hri & ? & ? & Hm)]; [left; split_and!; auto|]. right.
    split_and!; [lia|cbn; lia|done|done|]. intros t' j c Ht' Hc Hlt. injection Ht' as <-.
    destruct (decide (j = Z.to_nat idx)) as [->|].
    + destruct Hne as [Hne|Hne]; [|unfold dictIsRehashing in Hne; revert Hne; by zfalse (rehashidx d =? -1)].
      destruct Hne. by apply (Hm t (Z.to_nat idx)).
    + rewrite list_lookup_insert_ne in Hc by done. by apply (Hm t j).
Qed.

(** ** Operations *)

(** The bucket of a key, and the search of its chain. *)
Lemma locate d i key :
  ht_shape (ht d i) ->
  let idx := entry_idx d i (dictHashKey type key) in
  exists t b, ht_table (ht d i) = Some t /\ t !! Z.to_nat idx = Some b /\ bucket d i idx = Ok b /\
    0 <= idx < zlen t /\ idx = Z.land (hashFunction type key) (2 ^ ht_size_exp (ht d i) - 1) /\
    (forall e, e ∈ b -> Z.land (hashFunction type (de_key e)) (2 ^ ht_size_exp (ht d i) - 1) = idx) /\
    match chain_find type key b with
    | Some pos => exists e, b !! pos = Some e /\ content (de_key e) = content key /\ e ∈ ht_entries (ht d i)
    | None => forall e, e ∈ ht_entries (ht d i) -> content (de_key e) <> content key
    end.
Proof using Htype.
  intros Hs idx. destruct (shape_bucket d i (dictHashKey type key) Hs) as (t & b & Ht & Hb & Hbk & Hr & Hidx).
  exists t, b. split_and!; [done..|lia|lia|done| |].
  { intros e He. destruct Hs as (t' & Ht' & _ & _ & Hpl). rewrite Ht in Ht'. injection Ht' as <-.
    rewrite (Hpl _ _ _ Hb He), Z2Nat.id by lia. done. }
  pose proof (chain_find_spec key b) as Hf. destruct (chain_find type key b) as [pos|].
  - destruct Hf as (e & He & Hc). exists e. split_and!; [done..|]. unfold ht_entries. rewrite Ht.
    apply list_elem_of_join. exists b. split; [by eapply list_elem_of_lookup_2|by eapply list_elem_of_lookup_2].
  - intros e He Hc. destruct (in_bucket (ht d i) t key e Hs Ht He Hc) as (b' & Hb' & Heb).
    change (hashFunction type key) with (dictHashKey type key) in Hb'. rewrite <- Hidx in Hb'.
    rewrite Hb in Hb'. injection Hb' as <-. by apply (Hf e).
Qed.

Lemma find_in_ok d i key :
  ht_shape (ht d i) ->
  exists r, find_in type d i (dictHashKey type key) key = Ok r /\
    match r with
    | Some e => e ∈ ht_entries (ht d i) /\ content (de_key e) = content key
    | None => forall e, e ∈ ht_entries (ht d i) -> content (de_key e) <> content key
    end.
Proof using Htype.
  intros Hs. destruct (locate d i key Hs) as (t & b & _ & _ & Hbk & _ & _ & _ & Hf).
  unfold find_in. rewrite Hbk, bind_Ok. destruct (chain_find type key b) as [pos|].
  - destruct Hf as (e & -> & ? & ?). by exists (Some e).
  - by exists None.
Qed.

Lemma dict_find_ok d key :
  dict_wf d ->
  exists d', dictFind type d key = Ok (d', to_map (entries d) !! content key) /\ dict_wf d' /\
    entries d' ≡ₚ entries d /\ pauserehash d' = pauserehash d.
Proof using Htype.
  intros Hwf. pose proof (wf_used d Hwf) as (_ & _ & Hsz). unfold dictFind. rewrite Hsz.
  destruct (Z.eqb_spec (zlen (entries d)) 0) as [E|E].
  { exists d. rewrite (zlen_nil_inv _ E). cbn. by split_and!. }
  destruct (dict_step_ok d Hwf) as (d1 & -> & Hwf1 & Hp & Hpa). rewrite bind_Ok.
  assert (entries d1 <> []) as Hne.
  { intros E1. rewrite E1 in Hp. apply Permutation_nil in Hp. by rewrite Hp in E. }
  pose proof Hwf1 as [Ht1 Hn1 _ _]. pose proof (entries_table d1 Hne Ht1) as Hnt.
  rewrite <- (map_perm _ _ Hn1 Hp).
  destruct (wf_tables_cases d1 Ht1 Hnt) as [[Hs0 _] Hrh].
  destruct (find_in_ok d1 false key Hs0) as (r0 & E0 & Hr0). rewrite E0, bind_Ok. cbn [ht] in Hr0.
  destruct r0 as [e|].
  { exists d1. split_and!; [|done..]. do 2 f_equal. symmetry. apply map_lookup; [done|].
    split; [|apply Hr0]. unfold entries. apply elem_of_app. left. apply Hr0. }
  destruct (dictIsRehashing d1) eqn:Hri; cbn [negb].
  - destruct Hrh as [Hs1 _]. destruct (find_in_ok d1 true key Hs1) as (r1 & E1 & Hr1). rewrite E1, bind_Ok.
    cbn [ht] in Hr1. exists d1. split_and!; [|done..]. do 2 f_equal. symmetry. destruct r1 as [e|].
    + apply map_lookup; [done|]. split; [|apply Hr1]. unfold entries. apply elem_of_app. right. apply Hr1.
    + apply map_lookup_None. intros e. unfold entries. rewrite elem_of_app. intros [?|?]; auto.
  - exists d1. split_and!; [|done..]. do 2 f_equal. symmetry. apply map_lookup_None. intros e.
    unfold entries. rewrite Hrh. cbn. rewrite app_nil_r. auto.
Qed.

(** Replacing the entries [b] by [b'] in a map. *)
Lemma wf_change d d' b b' R :
  dict_wf d -> tables_wf d' -> entries d ≡ₚ b ++ R -> entries d' ≡ₚ b' ++ R -> pauserehash d' = pauserehash d ->
  NoDup (key_ids content (b' ++ R)) -> zlen b' + zlen R <= MAX_ENTRIES -> dict_wf d'.
Proof.
  intros [_ _ _ Hpa] Ht Hp Hp' Hpe Hn Hm. split; [done| | |lia].
  - unfold key_ids in *. by rewrite Hp'.
  - by rewrite (zlen_perm _ _ Hp'), zlen_app.
Qed.

(** Unlinking from one table. *)
Lemma delete_in_ok d i key :
  dict_wf d -> ht_wf (ht d i) ->
  exists d' r, delete_in type d i (dictHashKey type key) key = Ok (d', r) /\
    match r with
    | Some e => content (de_key e) = content key /\ entries d ≡ₚ e :: entries d' /\ dict_wf d' /\
                pauserehash d' = pauserehash d
    | None => d' = d /\ forall e, e ∈ ht_entries (ht d i) -> content (de_key e) <> content key
    end.
Proof using Htype.
  intros Hwf [Hs Hu]. destruct (locate d i key Hs) as (t & b & Ht & Hb & Hbk & Hr & Hidx & Hpl & Hf).
  unfold delete_in. rewrite Hbk, bind_Ok. destruct (chain_find type key b) as [pos|]; [|by exists d, None].
  destruct Hf as (e & He & Hc & Hin). rewrite He, (set_bucket_ok d i _ _ t), bind_Ok by done.
  set (b' := take pos b ++ drop (S pos) b).
  assert (b ≡ₚ e :: b') as Hbp.
  { rewrite <- (take_drop_middle b pos e He) at 1. symmetry. apply Permutation_middle. }
  pose proof Hwf as [Htw Hn Hm _].
  destruct (update_ok d i t _ b b' Htw (conj Hs Hu) Ht Hb ltac:(lia)) as (Htw' & R & Hp & Hp').
  { intros e' He'. apply Hpl. rewrite Hbp. by right. }
  { left. intros ->. done. }
  assert (zlen b = 1 + zlen b') as Hzb by (by rewrite (zlen_perm _ _ Hbp), zlen_cons).
  assert (1 <= ht_used (ht d i) <= MAX_ENTRIES) as Hub.
  { unfold entries in Hm. rewrite zlen_app in Hm. pose proof (zlen_nonneg (ht_entries (ht0 d))).
    pose proof (zlen_nonneg (ht_entries (ht1 d))). rewrite Hu.
    assert (ht_entries (ht d i) <> []) by (intros E; rewrite E in Hin; by apply not_elem_of_nil in Hin).
    destruct (ht_entries (ht d i)) as [|? l] eqn:E; [done|]. rewrite zlen_cons. pose proof (zlen_nonneg l).
    assert (zlen (ht_entries (ht d i)) = 1 + zlen l) by (by rewrite E, zlen_cons). destruct i; cbn in *; lia. }
  eexists _, (Some e). split; [reflexivity|].
  match goal with |- _ /\ entries d ≡ₚ e :: entries ?x /\ _ => set (d' := x) end.
  match type of Htw' with tables_wf ?x => assert (d' = x) as Ed' end.
  { unfold d', set_used. rewrite !ht_set. unfold with_bucket. cbn. rewrite Ht. cbn.
    unfold MAX_ENTRIES in *. zwrap. replace (_ + zlen b' - zlen b) with (ht_used (ht d i) - 1) by lia.
    by destruct i. }
  rewrite <- Ed' in *. rewrite Hbp in Hp. split_and!; [done| | |].
  - by rewrite Hp, Hp'.
  - apply (wf_change d d' (e :: b') b' R); [done..|by rewrite Ed'; destruct i| |].
    + assert (NoDup (key_ids content ((e :: b') ++ R))) as Hn2 by (unfold key_ids in *; by rewrite <- Hp).
      cbn in Hn2. by apply NoDup_cons in Hn2 as [_ ?].
    + rewrite (zlen_perm _ _ Hp), zlen_app, zlen_cons in Hm. lia.
  - rewrite Ed'. by destruct i.
Qed.

Lemma map_delete (l : list dictEntry) e :
  NoDup (key_ids content (e :: l)) -> to_map l = delete (content (de_key e)) (to_map (e :: l)).
Proof.
  intros Hn. unfold to_map. cbn. cbn in Hn. apply NoDup_cons in Hn as [Hnot _].
  rewrite delete_insert_id; [done|]. apply not_elem_of_list_to_map. by rewrite <- list_fmap_compose.
Qed.

Lemma generic_delete_ok d key :
  dict_wf d ->
  exists d', dictGenericDelete type d key = Ok (d', to_map (entries d) !! content key) /\ dict_wf d' /\
    to_map (entries d') = delete (content key) (to_map (entries d)) /\ pauserehash d' = pauserehash d.
Proof using Htype.
  intros Hwf. pose proof (wf_used d Hwf) as (_ & _ & Hsz). unfold dictGenericDelete. rewrite Hsz.
  destruct (Z.eqb_spec (zlen (entries d)) 0) as [E|E].
  { exists d. rewrite (zlen_nil_inv _ E). cbn. by split_and!. }
  destruct (dict_step_ok d Hwf) as (d1 & -> & Hwf1 & Hp & Hpa). rewrite bind_Ok.
  assert (entries d1 <> []) as Hne.
  { intros E1. rewrite E1 in Hp. apply Permutation_nil in Hp. by rewrite Hp in E. }
  pose proof Hwf1 as [Ht1 Hn1 _ _]. pose proof (entries_table d1 Hne Ht1) as Hnt.
  rewrite <- (map_perm _ _ Hn1 Hp).
  assert (forall d' e, content (de_key e) = content key -> entries d1 ≡ₚ e :: entries d' -> dict_wf d' ->
    pauserehash d' = pauserehash d1 ->
    exists d2, Ok (d', Some e) = Ok (d2, to_map (entries d1) !! content key) /\ dict_wf d2 /\
      to_map (entries d2) = delete (content key) (to_map (entries d1)) /\ pauserehash d2 = pauserehash d) as Hdone.
  { intros d' e Hc He Hwf' Hpa'. exists d'. split_and!; [|done| |congruence].
    - do 2 f_equal. symmetry. apply map_lookup; [done|]. split; [|done]. rewrite He. by left.
    - assert (NoDup (key_ids content (e :: entries d'))) as Hn2 by (unfold key_ids in *; by rewrite <- He).
      rewrite (map_perm _ _ Hn1 He), (map_delete _ _ Hn2), Hc. done. }
  destruct (wf_tables_cases d1 Ht1 Hnt) as [Hw0 Hrh].
  destruct (delete_in_ok d1 false key Hwf1 Hw0) as (d2 & r & E2 & Hr). rewrite E2, bind_Ok.
  destruct r as [e|]; [destruct Hr as (? & ? & ? & ?); by apply Hdone|]. destruct Hr as [-> Hno0].
  assert (forall l, ht_entries (ht1 d1) = l -> (forall e, e ∈ l -> content (de_key e) <> content key) ->
    exists d2, Ok (d1, None) = Ok (d2, to_map (entries d1) !! content key) /\ dict_wf d2 /\
      to_map (entries d2) = delete (content key) (to_map (entries d1)) /\ pauserehash d2 = pauserehash d) as Hnone.
  { intros l El Hl. assert (to_map (entries d1) !! content key = None) as Hm.
    { apply map_lookup_None. intros e. unfold entries. rewrite elem_of_app, El. intros [?|?]; auto. }
    exists d1. rewrite Hm, delete_id by done. by split_and!. }
  destruct (dictIsRehashing d1) eqn:Hri; cbn [negb].
  - destruct (delete_in_ok d1 true key Hwf1 Hrh) as (d3 & r & E3 & Hr). rewrite E3.
    destruct r as [e|]; [destruct Hr as (? & ? & ? & ?); by apply Hdone|]. destruct Hr as [-> Hno1].
    by apply (Hnone _ eq_refl).
  - apply (Hnone []); [by rewrite Hrh|]. by intros e He%not_elem_of_nil.
Qed.

(** Where a key is, or where it goes. *)
Lemma key_index_ok can_resize d key :
  dict_wf d -> zlen (entries d) < MAX_ENTRIES ->
  exists d' r, _dictKeyIndex type can_resize d key (dictHashKey type key) = Ok (d', r) /\ dict_wf d' /\
    entries d' = entries d /\ pauserehash d' = pauserehash d /\ ht0 d' <> ht_empty /\
    match r with
    | inl idx => idx = entry_idx d' (dictIsRehashing d') (dictHashKey type key) /\
                 to_map (entries d) !! content key = None
    | inr None => False
    | inr (Some (i, idx, pos)) =>
        ht_wf (ht d' i) /\ idx = entry_idx d' i (dictHashKey type key) /\
        exists b e, bucket d' i idx = Ok b /\ b !! pos = Some e /\ to_map (entries d) !! content key = Some e
    end.
Proof using Htype.
  intros Hwf Hmax. unfold _dictKeyIndex.
  destruct (expand_if_needed_ok can_resize d Hwf Hmax) as (d1 & -> & Hwf1 & He & Hpa & Hnt). rewrite bind_Ok.
  pose proof Hwf1 as [Ht1 Hn1 _ _]. destruct (wf_tables_cases d1 Ht1 Hnt) as [[Hs0 Hu0] Hrh].
  destruct (locate d1 false key Hs0) as (t0 & b0 & _ & _ & Hbk0 & _ & _ & _ & Hf0). cbn [ht] in Hf0.
  rewrite Hbk0, bind_Ok, <- He. destruct (chain_find type key b0) as [pos|].
  { destruct Hf0 as (e & Hpos & Hc & Hin). eexists d1, (inr (Some (false, _, pos))). split_and!; try done.
    exists b0, e. split_and!; [done..|]. apply map_lookup; [done|]. split; [|done].
    unfold entries. apply elem_of_app. by left. }
  destruct (dictIsRehashing d1) eqn:Hri; cbn [negb].
  - destruct Hrh as [Hs1 Hu1]. destruct (locate d1 true key Hs1) as (t1 & b1 & _ & _ & Hbk1 & _ & _ & _ & Hf1).
    cbn [ht] in Hf1. rewrite Hbk1, bind_Ok. destruct (chain_find type key b1) as [pos|].
    + destruct Hf1 as (e & Hpos & Hc & Hin). eexists d1, (inr (Some (true, _, pos))). split_and!; try done.
      exists b1, e. split_and!; [done..|]. apply map_lookup; [done|]. split; [|done].
      unfold entries. apply elem_of_app. by right.
    + eexists d1, (inl _). split_and!; try done; [by rewrite Hri|].
      apply map_lookup_None. intros e. unfold entries. rewrite elem_of_app. intros [?|?]; auto.
  - eexists d1, (inl _). split_and!; try done; [by rewrite Hri|].
    apply map_lookup_None. intros e. unfold entries. rewrite Hrh. cbn. rewrite app_nil_r. auto.
Qed.

(** Writing the value of an entry. *)
Lemma set_val_ok d i t idx pos b e val :
  dict_wf d -> ht_wf (ht d i) -> ht_table (ht d i) = Some t -> t !! Z.to_nat idx = Some b -> 0 <= idx < zlen t ->
  b !! pos = Some e ->
  exists d' R, entry_set_val type d (i, idx, pos) val = Ok d' /\ dict_wf d' /\ entries d ≡ₚ e :: R /\
    entries d' ≡ₚ Entry (de_key e) (dictSetVal type val) :: R /\ pauserehash d' = pauserehash d.
Proof.
  intros Hwf Hw Ht Hb Hidx He. unfold entry_set_val, bucket. rewrite Ht. ztrue (0 <=? idx). rewrite Hb, bind_Ok, He.
  rewrite (set_bucket_ok d i _ _ t) by done. set (e' := Entry (de_key e) (dictSetVal type val)).
  set (b' := <[pos := e']> b). pose proof (lookup_lt_Some _ _ _ He) as Hlt.
  assert (b ≡ₚ e :: take pos b ++ drop (S pos) b) as Hbp.
  { rewrite <- (take_drop_middle b pos e He) at 1. symmetry. apply Permutation_middle. }
  assert (b' ≡ₚ e' :: take pos b ++ drop (S pos) b) as Hbp'.
  { unfold b'. rewrite insert_take_drop by done. symmetry. apply Permutation_middle. }
  pose proof Hwf as [Htw Hn Hm _].
  destruct (update_ok d i t idx b b' Htw Hw Ht Hb ltac:(lia)) as (Htw' & R & Hp & Hp').
  { intros x Hx. destruct Hw as [(t' & Ht' & _ & _ & Hpl) _]. rewrite Ht in Ht'. injection Ht' as <-.
    assert (exists y, y ∈ b /\ de_key y = de_key x) as (y & Hy & <-).
    { rewrite Hbp' in Hx. apply elem_of_cons in Hx as [->|Hx].
      - exists e. split; [by eapply list_elem_of_lookup_2|done].
      - exists x. split; [|done]. rewrite Hbp. by right. }
    rewrite (Hpl _ _ _ Hb Hy), Z2Nat.id; lia. }
  { left. intros ->. done. }
  assert (zlen b' = zlen b) as Hz by (unfold b', zlen; by rewrite length_insert).
  eexists _, (take pos b ++ drop (S pos) b ++ R). split; [reflexivity|].
  match type of Htw' with tables_wf ?x => set (d' := x) in * end.
  match goal with |- dict_wf ?x /\ _ => assert (x = d') as -> end.
  { unfold d', with_bucket. rewrite Ht, Hz. cbn. by replace (_ + zlen b - zlen b) with (ht_used (ht d i)) by lia. }
  rewrite Hbp in Hp. rewrite Hbp' in Hp'. cbn [app] in Hp, Hp'. rewrite <- app_assoc in Hp, Hp'.
  split_and!; [|done|done|by unfold d'; destruct i].
  apply (wf_change d d' [e] [e'] (take pos b ++ drop (S pos) b ++ R)); try done.
  - by unfold d'; destruct i.
  - assert (NoDup (key_ids content (e :: take pos b ++ drop (S pos) b ++ R))) as Hn2 by (unfold key_ids in *; by rewrite <- Hp).
    exact Hn2.
  - rewrite (zlen_perm _ _ Hp), zlen_cons in Hm. change (zlen [e']) with 1. lia.
Qed.

Lemma bucket_inv d i idx b :
  bucket d i idx = Ok b -> exists t, ht_table (ht d i) = Some t /\ t !! Z.to_nat idx = Some b /\ 0 <= idx < zlen t.
Proof.
  unfold bucket. destruct (ht_table (ht d i)) as [t|]; [|done]. destruct (Z.leb_spec 0 idx); [|done].
  destruct (t !! Z.to_nat idx) as [b'|] eqn:Hb; [|done]. intros [= ->]. exists t.
  apply lookup_lt_Some in Hb as Hl. split_and!; try done. unfold zlen. lia.
Qed.

(** The entry pointer designates an entry of the dictionary. *)
Definition points_to d (l : entry_loc) (e : dictEntry) : Prop :=
  let '(i, idx, pos) := l in
  ht_wf (ht d i) /\ exists b, bucket d i idx = Ok b /\ b !! pos = Some e.

Lemma set_val_at d l e val :
  dict_wf d -> points_to d l e ->
  exists d' R, entry_set_val type d l val = Ok d' /\ dict_wf d' /\ entries d ≡ₚ e :: R /\
    entries d' ≡ₚ Entry (de_key e) (dictSetVal type val) :: R /\ pauserehash d' = pauserehash d.
Proof.
  destruct l as [[i idx] pos]. intros Hwf (Hw & b & Hb & He). apply bucket_inv in Hb as (t & Ht & Htb & Hi).
  by apply (set_val_ok d i t idx pos b e val).
Qed.

Lemma add_raw_ok can_resize d key :
  dict_wf d -> zlen (entries d) < MAX_ENTRIES ->
  exists d' r, dictAddRaw type uninit_val can_resize d key = Ok (d', r) /\ dict_wf d' /\
    pauserehash d' = pauserehash d /\
    match r with
    | inl l => to_map (entries d) !! content key = None /\
        let e := Entry (dictSetKey type key) uninit_val in
        entries d' ≡ₚ e :: entries d /\ points_to d' l e
    | inr None => False
    | inr (Some l) => entries d' ≡ₚ entries d /\
        exists e, to_map (entries d) !! content key = Some e /\ points_to d' l e
    end.
Proof using Htype.
  intros Hwf Hmax. unfold dictAddRaw.
  destruct (dict_step_ok d Hwf) as (d1 & -> & Hwf1 & Hp & Hpa). rewrite bind_Ok.
  pose proof Hwf1 as [_ Hn1 _ _]. rewrite <- (map_perm _ _ Hn1 Hp). rewrite <- (zlen_perm _ _ Hp) in Hmax.
  destruct (key_index_ok can_resize d1 key Hwf1 Hmax) as (d2 & r & -> & Hwf2 & He & Hpa2 & Hnt & Hr).
  rewrite bind_Ok. destruct r as [idx|[[[i idx] pos]|]]; [|exists d2, (inr (Some (i, idx, pos)))|done].
  2:{ destruct Hr as (Hw & -> & b & e & Hb & Hpos & Hl). rewrite He. split_and!; try done; [congruence|].
      exists e. split; [done|]. split; [done|]. by exists b. }
  destruct Hr as [-> Hnone]. set (i := dictIsRehashing d2).
  pose proof Hwf2 as [Ht2 Hn2 Hm2 _]. destruct (wf_tables_cases d2 Ht2 Hnt) as [Hw0 Hrh].
  assert (ht_wf (ht d2 i)) as Hw by (unfold i; destruct (dictIsRehashing d2); done).
  destruct (locate d2 i key (proj1 Hw)) as (t & b & Htab & Hb & Hbk & Hr & Hidx & Hpl & _).
  set (idx := entry_idx d2 i (dictHashKey type key)) in *. rewrite Hbk, bind_Ok, (set_bucket_ok d2 i _ _ t), bind_Ok by done.
  set (e := Entry (dictSetKey type key) uninit_val).
  assert (hashFunction type (dictSetKey type key) = hashFunction type key) as Hh.
  { apply (hash_content _ _ Htype). apply (dup_content _ _ Htype). }
  destruct (update_ok d2 i t idx b (e :: b) Ht2 Hw Htab Hb ltac:(lia)) as (Htw & R & HR & HR').
  { intros x [->|Hx]%elem_of_cons; [|by apply Hpl]. cbn. by rewrite Hh, Hidx. }
  { by right. }
  rewrite He in *. destruct Hw as [Hsw Hu].
  assert (0 <= ht_used (ht d2 i) <= MAX_ENTRIES) as Hub.
  { rewrite Hu. rewrite <- He in Hm2. unfold entries in Hm2. rewrite zlen_app in Hm2. pose proof (zlen_nonneg (ht_entries (ht0 d2))).
    pose proof (zlen_nonneg (ht_entries (ht1 d2))). unfold i in *. destruct (dictIsRehashing d2); cbn in *; lia. }
  eexists _, (inl (i, idx, O)). split; [reflexivity|].
  match type of Htw with tables_wf ?x => set (d' := x) in * end.
  match goal with |- dict_wf ?x /\ _ => assert (x = d') as -> end.
  { unfold d', set_used. rewrite !ht_set. unfold with_bucket. rewrite Htab, zlen_cons. cbn. unfold MAX_ENTRIES in *. zwrap.
    replace (_ + (1 + zlen b) - zlen b) with (ht_used (ht d2 i) + 1) by lia. by destruct i. }
  assert (entries d' ≡ₚ e :: entries d1) as Hfin by (by rewrite HR', HR).
  assert (content (de_key e) = content key) as Hce by (cbn; apply (dup_content _ _ Htype)).
  split_and!; [|unfold d'; destruct i; cbn; congruence|done| |].
  - apply (wf_change d2 d' [] [e] (entries d1)); try done.
    + by rewrite He.
    + unfold d'; by destruct i.
    + cbn [app]. unfold key_ids. cbn. rewrite (dup_content _ _ Htype). apply NoDup_cons. split; [|done].
      rewrite list_elem_of_fmap. intros (x & Hx & Hin). symmetry in Hx. by apply map_lookup_None with (e := x) in Hnone.
    + change (zlen [e]) with 1. unfold MAX_ENTRIES in *. lia.
  - rewrite Hfin, Hp. done.
  - split.
    + assert (ht d' i = ht d' (dictIsRehashing d')) as ->.
      { f_equal. change i with (dictIsRehashing d2) at 1. unfold dictIsRehashing. do 2 f_equal. unfold d'. by destruct i. }
      assert (ht0 d' <> ht_empty) as Hnt'.
      { unfold d'. destruct i; cbn; [done|]. by intros [=]. }
      destruct (wf_tables_cases d' Htw Hnt') as [? ?]. by destruct (dictIsRehashing d').
    + exists (e :: b). split; [|done]. unfold bucket, d'. rewrite ht_set. cbn. ztrue (0 <=? idx).
      rewrite list_lookup_insert_eq by (unfold zlen in *; lia). done.
Qed.

Lemma dict_add_ok can_resize d key val :
  dict_wf d -> zlen (entries d) < MAX_ENTRIES ->
  exists d' st, dictAdd type uninit_val can_resize d key val = Ok (d', st) /\ dict_wf d' /\
    pauserehash d' = pauserehash d /\
    match to_map (entries d) !! content key with
    | Some _ => st = DICT_ERR /\ to_map (entries d') = to_map (entries d)
    | None => st = DICT_OK /\
        to_map (entries d') = <[content key := Entry (dictSetKey type key) (dictSetVal type val)]> (to_map (entries d))
    end.
Proof using Htype.
  intros Hwf Hmax. unfold dictAdd.
  destruct (add_raw_ok can_resize d key Hwf Hmax) as (d1 & r & -> & Hwf1 & Hpa & Hr). rewrite bind_Ok.
  destruct r as [l|[l|]]; [|exists d1, DICT_ERR|done].
  - destruct Hr as (Hnone & Hp & Hpt). rewrite Hnone.
    destruct (set_val_at d1 l _ val Hwf1 Hpt) as (d2 & R & -> & Hwf2 & HR & HR' & Hpa2). rewrite bind_Ok.
    exists d2, DICT_OK. split_and!; try done; [congruence|].
    rewrite Hp in HR. apply Permutation_cons_inv in HR. pose proof Hwf2 as [_ Hn2 _ _].
    rewrite (map_perm _ _ Hn2 HR'). unfold to_map. cbn. rewrite (dup_content _ _ Htype). f_equal.
    apply map_perm; [|by symmetry]. unfold key_ids in *. rewrite HR' in Hn2. cbn in Hn2. by apply NoDup_cons in Hn2 as [_ ?].
  - destruct Hr as (Hp & e & He & _). rewrite He. split_and!; try done. symmetry. apply map_perm; [apply Hwf|by symmetry].
Qed.

Lemma replace_ok can_resize d key val :
  dict_wf d -> zlen (entries d) < MAX_ENTRIES ->
  exists d' fresh, dictReplace type uninit_val can_resize d key val = Ok (d', fresh) /\ dict_wf d' /\
    pauserehash d' = pauserehash d /\
    fresh = bool_decide (to_map (entries d) !! content key = None) /\
    to_map (entries d') =
      <[content key := Entry (match to_map (entries d) !! content key with
                              | Some e => de_key e | None => dictSetKey type key end) (dictSetVal type val)]>
        (to_map (entries d)).
Proof using Htype.
  intros Hwf Hmax. unfold dictReplace.
  destruct (add_raw_ok can_resize d key Hwf Hmax) as (d1 & r & -> & Hwf1 & Hpa & Hr). rewrite bind_Ok.
  destruct r as [l|[l|]]; [| |done].
  - destruct Hr as (Hnone & Hp & Hpt). rewrite Hnone.
    destruct (set_val_at d1 l _ val Hwf1 Hpt) as (d2 & R & -> & Hwf2 & HR & HR' & Hpa2). rewrite bind_Ok.
    exists d2, true. split_and!; try done; [congruence|].
    rewrite Hp in HR. apply Permutation_cons_inv in HR. pose proof Hwf2 as [_ Hn2 _ _].
    rewrite (map_perm _ _ Hn2 HR'). unfold to_map. cbn. rewrite (dup_content _ _ Htype). f_equal.
    apply map_perm; [|by symmetry]. unfold key_ids in *. rewrite HR' in Hn2. cbn in Hn2. by apply NoDup_cons in Hn2 as [_ ?].
  - destruct Hr as (Hp & e & He & Hpt). rewrite He.
    destruct (set_val_at d1 l _ val Hwf1 Hpt) as (d2 & R & -> & Hwf2 & HR & HR' & Hpa2). rewrite bind_Ok.
    exists d2, false. pose proof Hwf2 as [_ Hn2 _ _]. pose proof Hwf as [_ Hn _ _].
    apply map_lookup in He as [_ Hc]; [|done]. rewrite HR in Hp. symmetry in Hp.
    split_and!; try done; [congruence|]. rewrite (map_perm _ _ Hn2 HR'), (map_perm _ _ Hn Hp).
    unfold to_map. cbn. rewrite Hc. by rewrite insert_insert_eq.
Qed.

Lemma clear_loop_ok n d i x :
  ht d i = ht_empty \/ ht_shape (ht d i) -> 0 <= x ->
  exists d', _dictClear_loop n d i x = Ok d' /\ ht d' (negb i) = ht d (negb i).
Proof.
  revert d x. induction n as [|n IH]; intros d x Hs Hx; cbn; [by exists d|].
  destruct (Z.ltb_spec x (DICTHT_SIZE (ht_size_exp (ht d i)))) as [Hlt|]; cbn [andb]; [|by exists d].
  destruct (ht_used (ht d i) >? 0); [|by exists d].
  destruct Hs as [Hs|(t & Ht & He & Hlen & Hpl)].
  { rewrite Hs in Hlt. change (x < 0) in Hlt. lia. }
  rewrite size_exp in Hlt by lia. unfold bucket. rewrite Ht. ztrue (0 <=? x).
  destruct (t !! Z.to_nat x) as [b|] eqn:Hb.
  2:{ apply lookup_ge_None in Hb. unfold zlen in Hlen. lia. }
  rewrite bind_Ok. destruct (IH (set_used d i (ht_used (ht d i) - zlen b)) (x + 1)) as (d' & -> & Hd').
  - right. unfold set_used. rewrite ht_set. by exists t.
  - lia.
  - exists d'. split; [done|]. rewrite Hd'. unfold set_used. by rewrite ht_set_ne.
Qed.

Lemma tables_shape d i : tables_wf d -> ht d i = ht_empty \/ ht_shape (ht d i).
Proof.
  intros [(_ & Hb & [Ha|[Ha _]])|(_ & [Ha _] & [Hb _] & _)]; destruct i; cbn; tauto.
Qed.

Lemma clear_ok d i :
  ht d i = ht_empty \/ ht_shape (ht d i) ->
  exists d', _dictClear d i = Ok d' /\ ht d' (negb i) = ht d (negb i) /\ ht d' i = ht_empty.
Proof.
  intros Hs. unfold _dictClear.
  destruct (clear_loop_ok (Z.to_nat (DICTHT_SIZE (ht_size_exp (ht d i))) + 1) d i 0 Hs) as (d' & -> & Hd); [done|].
  rewrite bind_Ok. eexists. split; [done|]. unfold _dictReset. by rewrite ht_set_ne, ht_set.
Qed.

Lemma empty_ok d : tables_wf d -> dictEmpty d = Ok dictCreate.
Proof.
  intros Ht. unfold dictEmpty.
  destruct (clear_ok d false) as (d1 & -> & E1 & E2); [by apply tables_shape|]. rewrite bind_Ok.
  destruct (clear_ok d1 true) as (d2 & -> & E3 & E4); [change true with (negb false); rewrite E1; by apply tables_shape|].
  rewrite bind_Ok.
  destruct d2. unfold dictCreate. cbn in *. by rewrite E4, E3, E2.
Qed.

Lemma create_wf : dict_wf dictCreate.
Proof.
  split; [|constructor|done|done]. left. split_and!; [done..|by left].
Qed.

Lemma repr_size d : dict_wf d -> Z.of_nat (size (to_map (entries d))) = zlen (entries d).
Proof.
  intros Hwf. unfold to_map. rewrite map_size_list_to_map; [by rewrite length_fmap|].
  rewrite <- list_fmap_compose. apply Hwf.
Qed.

Lemma exec_ok d can op :
  dict_wf d -> zlen (entries d) < MAX_ENTRIES -> op_args op ->
  exists d' can' out, dict_exec type uninit_val (d, can) op = Ok (d', can', out) /\ dict_wf d' /\
    map_exec type content (to_map (entries d)) op = (to_map (entries d'), out) /\
    zlen (entries d') <= zlen (entries d) + 1.
Proof using Htype.
  intros Hwf Hmax Hargs.
  enough (exists d' can' out, dict_exec type uninit_val (d, can) op = Ok (d', can', out) /\ dict_wf d' /\
    map_exec type content (to_map (entries d)) op = (to_map (entries d'), out)) as (d' & can' & out & E & Hwf' & Em).
  { exists d', can', out. split_and!; [done..|]. rewrite <- !repr_size by done.
    assert (to_map (entries d') = (map_exec type content (to_map (entries d)) op).1) as -> by (by rewrite Em).
    set (m := to_map (entries d)).
    assert (forall k e, Z.of_nat (size (<[k := e]> m)) <= Z.of_nat (size m) + 1) as Hi.
    { intros k e. rewrite map_size_insert. case_match; cbn; lia. }
    assert (forall k, Z.of_nat (size (delete k m)) <= Z.of_nat (size m) + 1) as Hd.
    { intros k. rewrite map_size_delete. case_match; cbn; lia. }
    destruct op; cbn; repeat case_match; cbn; try lia; auto. rewrite map_size_empty. lia. }
  pose proof Hwf as [Ht Hn _ _].
  assert (forall d', entries d' ≡ₚ entries d -> to_map (entries d) = to_map (entries d')) as Hsame.
  { intros d' Hp. by apply map_perm. }
  destruct op; cbn [dict_exec map_exec].
  - destruct (dict_add_ok can d key val Hwf Hmax) as (d' & st & -> & Hwf' & _ & Hm). rewrite bind_Ok.
    eexists _, _, _. split; [done|]. split; [done|]. by destruct (to_map (entries d) !! _), Hm as [-> ->].
  - destruct (replace_ok can d key val Hwf Hmax) as (d' & st & -> & Hwf' & _ & -> & Hm). rewrite bind_Ok.
    eexists _, _, _. split; [done|]. split; [done|]. by destruct (to_map (entries d) !! _); rewrite Hm.
  - destruct (generic_delete_ok d key Hwf) as (d' & E & Hwf' & Hm & _). unfold dictDelete. rewrite E, !bind_Ok.
    eexists _, _, _. split; [done|]. split; [done|]. by rewrite Hm.
  - destruct (generic_delete_ok d key Hwf) as (d' & E & Hwf' & Hm & _). unfold dictUnlink. rewrite E, !bind_Ok.
    eexists _, _, _. split; [done|]. split; [done|]. by rewrite Hm.
  - destruct (dict_find_ok d key Hwf) as (d' & -> & Hwf' & Hp & _). rewrite bind_Ok.
    eexists _, _, _. split; [done|]. split; [done|]. by rewrite (Hsame d').
  - destruct (dict_find_ok d key Hwf) as (d' & E & Hwf' & Hp & _). unfold dictFetchValue. rewrite E, !bind_Ok.
    eexists _, _, _. split; [done|]. split; [done|]. by rewrite (Hsame d').
  - eexists _, _, _. split; [done|]. split; [done|]. rewrite repr_size by done. by rewrite (proj2 (proj2 (wf_used d Hwf))).
  - unfold dictResize. destruct (negb can || dictIsRehashing d).
    { rewrite bind_Ok. by eexists _, _, _. }
    edestruct (dictExpand_ok d) as (d' & st & -> & Hwf' & He & _); [done| |].
    2:{ rewrite bind_Ok. eexists _, _, _. split; [done|]. split; [done|]. by rewrite He. }
    case_match; [done|]. rewrite (proj1 (wf_used d Hwf)). apply zlen_nonneg.
  - destruct (dictExpand_ok d size Hwf ltac:(cbn in Hargs; lia)) as (d' & st & -> & Hwf' & He & _). rewrite bind_Ok.
    eexists _, _, _. split; [done|]. split; [done|]. by rewrite He.
  - destruct (expand_ok d size true alloc_fails Hwf ltac:(cbn in Hargs; lia)) as (d' & st & mf & E & Hwf' & He & _).
    unfold dictTryExpand. rewrite E, !bind_Ok. eexists _, _, _. split; [done|]. split; [done|]. by rewrite He.
  - destruct (rehash_ok d n Hwf Hargs) as (d' & -> & Hwf' & Hp & _). rewrite bind_Ok.
    eexists _, _, _. split; [done|]. split; [done|]. by rewrite (Hsame d').
  - rewrite (empty_ok d Ht), bind_Ok. eexists _, _, _. split; [done|]. split; [apply create_wf|done].
  - by eexists _, _, _.
Qed.

Lemma run_ok ops d can :
  dict_wf d -> zlen (entries d) + Z.of_nat (length ops) <= MAX_ENTRIES -> Forall op_args ops ->
  exists d' can' outs, dict_run type uninit_val (d, can) ops = Ok (d', can', outs) /\ dict_wf d' /\
    map_run type content (to_map (entries d)) ops = (to_map (entries d'), outs).
Proof using Htype.
  revert d can. induction ops as [|op ops IH]; intros d can Hwf Hmax Hargs; cbn [dict_run map_run]; [by exists d, can, []|].
  apply Forall_cons in Hargs as [Ha Hargs]. cbn [length] in Hmax.
  destruct (exec_ok d can op Hwf ltac:(lia) Ha) as (d1 & can1 & out & -> & Hwf1 & -> & Hlen). rewrite bind_Ok.
  destruct (IH d1 can1 Hwf1 ltac:(lia) Hargs) as (d2 & can2 & outs & -> & Hwf2 & ->). rewrite bind_Ok.
  by exists d2, can2, (out :: outs).
Qed.

(** C9: a dictionary refines a finite map from key contents to entries: for every
    sequence of adds, replaces, deletes, unlinks, lookups, size queries,
    resizes, expansions, rehash steps and clears, run on any well-formed
    dictionary (a rehash may be under way, paused or not), no operation fails,
    every answer is the one the map gives, and the final dictionary represents
    the final map. *)
Theorem dict_refines_map ops d can m :
  dict_repr type content d m -> Z.of_nat (size m) + Z.of_nat (length ops) <= MAX_ENTRIES -> Forall op_args ops ->
  exists d' can', dict_run type uninit_val (d, can) ops = Ok (d', can', (map_run type content m ops).2) /\
    dict_repr type content d' (map_run type content m ops).1.
Proof using Htype.
  intros [Hwf <-]. rewrite (repr_size d Hwf). intros Hmax Hargs.
  destruct (run_ok ops d can Hwf Hmax Hargs) as (d' & can' & outs & -> & Hwf' & ->). by exists d', can'.
Qed.

Lemma rehash_times_ok n k d :
  dict_wf d -> 0 < n <= 2 ^ 27 -> 2 ^ ht_size_exp (ht0 d) - rehashidx d <= Z.of_nat k ->
  exists d', rehash_times type n (S k) d = Ok (d', false) /\ dictIsRehashing d' = false /\ dict_wf d' /\
    entries d' ≡ₚ entries d.
Proof using Htype.
  revert d. induction k as [|k IH]; intros d Hwf Hn Hk.
  all: destruct (rehash_ok d n Hwf ltac:(lia)) as (d1 & E & Hwf1 & Hp & _ & Hno & Hyes).
  all: change (rehash_times type n (S ?k) d) with
    ('(d, more) ← dictRehash type d n; if more : bool then rehash_times type n k d else Ok (d, false)); rewrite E, bind_Ok.
  all: destruct (dictIsRehashing d1) eqn:Hr1; [|by exists d1].
  all: destruct (dictIsRehashing d) eqn:Hr; [|by rewrite Hno, Hr in Hr1].
  all: destruct (Hyes eq_refl ltac:(lia) eq_refl) as [Hlt Hse].
  - destruct (wf_tables _ _ _ Hwf1) as [(Hx & _)|(Hx & _)]; [unfold dictIsRehashing in Hr1; by rewrite Hx in Hr1|].
    rewrite Hse in Hx. lia.
  - destruct (IH d1 Hwf1 Hn) as (d2 & E2 & Hr2 & Hwf2 & Hp2); [rewrite Hse; lia|].
    exists d2. split_and!; [done..|]. by rewrite Hp2.
Qed.

(** C26: incremental rehashing completes: calling [dictRehash] again while it asks
    for it ends after at most one call more than the old table has buckets, whatever
    number of buckets each call may move; the dictionary then has one table and
    represents the same map. *)
Theorem dictRehash_completes d n m :
  dict_repr type content d m -> dictIsRehashing d = true -> 0 < n <= 2 ^ 27 ->
  exists d', rehash_times type n (S (Z.to_nat (2 ^ ht_size_exp (ht0 d)))) d = Ok (d', false) /\
    dictIsRehashing d' = false /\ ht1 d' = ht_empty /\ dict_repr type content d' m.
Proof using Htype.
  intros [Hwf <-] Hr Hn.
  destruct (rehash_times_ok n (Z.to_nat (2 ^ ht_size_exp (ht0 d))) d Hwf Hn) as (d' & E & Hr' & Hwf' & Hp).
  { pose proof (Z.pow_nonneg 2 (ht_size_exp (ht0 d))).
    destruct (wf_tables _ _ _ Hwf) as [(Hx & _)|(Hx & _)]; [unfold dictIsRehashing in Hr; by rewrite Hx in Hr|]. lia. }
  exists d'. split_and!; [done..| |].
  - destruct (wf_tables _ _ _ Hwf') as [(_ & Hx & _)|(Hx & _)]; [done|].
    unfold dictIsRehashing in Hr'. destruct (Z.eqb_spec (rehashidx d') (-1)); [lia|done].
  - split; [done|]. apply map_perm; [apply Hwf'|done].
Qed.

(** [dictAddOrFind] gives a pointer to the entry of the key, which is the
    existing one, with the dictionary's contents unchanged, or else a new one
    added to them. *)
Theorem dictAddOrFind_correct can_resize d key m :
  dict_repr type content d m -> Z.of_nat (size m) < MAX_ENTRIES ->
  exists d' l e, dictAddOrFind type uninit_val can_resize d key = Ok (d', Some l) /\ points_to d' l e /\
    content (de_key e) = content key /\
    dict_repr type content d' (match m !! content key with Some _ => m | None => <[content key := e]> m end) /\
    (forall e0, m !! content key = Some e0 -> e = e0).
Proof using Htype.
  intros [Hwf <-]. rewrite (repr_size d Hwf). intros Hmax. unfold dictAddOrFind.
  destruct (add_raw_ok can_resize d key Hwf Hmax) as (d1 & r & -> & Hwf1 & Hpa & Hr). rewrite bind_Ok.
  destruct r as [l|[l|]]; [| |done].
  - destruct Hr as (Hnone & Hp & Hpt). rewrite Hnone. eexists d1, l, _. split_and!; [done..| | |done].
    + apply (dup_content _ _ Htype).
    + split; [done|]. rewrite (map_perm _ _ (wf_nodup _ _ _ Hwf1) Hp). unfold to_map. cbn.
      by rewrite (dup_content _ _ Htype).
  - destruct Hr as (Hp & e & He & Hpt). rewrite He. exists d1, l, e.
    pose proof (proj2 (proj1 (map_lookup _ _ _ (wf_nodup _ _ _ Hwf)) He)) as Hc.
    split_and!; [done..| |by intros ? [= ->]]. split; [done|]. symmetry. apply map_perm; [apply Hwf|by symmetry].
Qed.

End Lemmas.

(** * Examples *)

Definition sample_type : dictType Z Z :=
  {| hashFunction k := wrapU 64 (k * 2654435761); keyDup := None; valDup := None; keyCompare := None;
     expandAllowed := None |}.

Lemma sample_type_ok : dictType_ok sample_type id.
Proof.
  split; [|by intros a b Hab; cbn in *; subst|done|done]. intros k. cbn. unfold wrapU. by apply Z.mod_pos_bound.
Qed.

(** A dictionary of five entries that is being rehashed to a larger table. *)
Definition sample_dict : dict Z Z :=
  match dict_run sample_type 0 (dictCreate, true) [OpAdd 1 10; OpAdd 2 20; OpAdd 3 30; OpAdd 4 40; OpAdd 5 50] with
  | Ok (d, _, _) => d
  | _ => dictCreate
  end.

Lemma sample_dict_repr : dict_repr sample_type id sample_dict (to_map id (entries sample_dict)).
Proof.
  split; [|done]. unfold sample_dict.
  edestruct (run_ok sample_type id sample_type_ok 0) as (d & can & outs & -> & Hwf & _).
  4: exact Hwf.
  - apply create_wf.
  - by vm_compute.
  - by repeat constructor.
Qed.

Lemma dict_refines_map_witness :
  let ops := [OpFetchValue 3; OpReplace 3 33; OpDelete 1; OpAdd 7 70; OpRehash 3; OpSize] in
  let m := to_map id (entries sample_dict) in
  (exists d can, dict_run sample_type 0 (sample_dict, true) ops = Ok (d, can, (map_run sample_type id m ops).2) /\
    dict_repr sample_type id d (map_run sample_type id m ops).1) /\
  (map_run sample_type id m ops).2 =
    [OutVal (Some 30); OutNew false; OutStatus DICT_OK; OutStatus DICT_OK; OutNone; OutSize 5].
Proof.
  intros ops m. split; [|by vm_compute].
  apply (dict_refines_map sample_type id sample_type_ok 0).
  - apply sample_dict_repr.
  - by vm_compute.
  - by repeat constructor.
Defined.

Lemma dictRehash_completes_witness :
  dictIsRehashing sample_dict = true /\
  exists d', rehash_times sample_type 1 5 sample_dict = Ok (d', false) /\ dictIsRehashing d' = false /\
    ht1 d' = ht_empty /\ dict_repr sample_type id d' (to_map id (entries sample_dict)).
Proof.
  split; [by vm_compute|].
  apply (dictRehash_completes sample_type id sample_type_ok sample_dict 1); [apply sample_dict_repr|by vm_compute|done].
Defined.

Lemma dictAddOrFind_witness :
  exists d' l e, dictAddOrFind sample_type 0 true sample_dict 9 = Ok (d', Some l) /\ points_to sample_type d' l e /\
    id (de_key e) = id 9 /\
    dict_repr sample_type id d' (match to_map id (entries sample_dict) !! id 9 with
                                 | Some _ => to_map id (entries sample_dict)
                                 | None => <[id 9 := e]> (to_map id (entries sample_dict)) end) /\
    (forall e0, to_map id (entries sample_dict) !! id 9 = Some e0 -> e = e0).
Proof.
  apply (dictAddOrFind_correct sample_type id sample_type_ok 0); [apply sample_dict_repr|by vm_compute].
Defined.
