(* ===== verification/DictScan.v ===== *)
(** Traversals of the hash table of dict.c: the stateless cursor scan, the
    iterators and the random samplers.  Entry pointers are given by their
    location, which stands for the pointer while the table is not changed. *)

From S2P Require Import Prelude Dict.
From stdpp Require Import gmap list sorting.

Open Scope Z_scope.

(** [~x] and [x << s] on an [unsigned long]. *)
Definition not64 (x : Z) : Z := Z.lxor x (2 ^ 64 - 1).
Definition shl64 (x s : Z) : Z := wrapU 64 (Z.shiftl x s).

(** The loop of [rev]: [s] is halved before it is tested. *)
Fixpoint rev_loop (fuel : nat) (s mask v : Z) : Z :=
  match fuel with
  | O => v
  | S fuel =>
      let s := Z.shiftr s 1 in
      if s >? 0 then
        let mask := Z.lxor mask (shl64 mask s) in
        let v := Z.lor (Z.land (Z.shiftr v s) mask) (Z.land (shl64 v s) (not64 mask)) in
        rev_loop fuel s mask v
      else v
  end.

Definition rev (v : Z) : Z := rev_loop 7 (8 * 8) (not64 0) v.

(** What a scan hands to its callbacks: [bucketfn] gets the address of a bucket,
    [fn] an entry. *)
Inductive scan_event (K V : Type) :=
  | EvBucket (table : bool) (idx : Z)
  | EvEntry (de : dictEntry K V).
Arguments EvBucket {K V} table idx.
Arguments EvEntry {K V} de.

(** [safe], [index], [table], [entry], [nextEntry] and [fingerprint]. *)
Record dictIterator := Iter {
  it_index : Z;
  it_table : bool;
  it_safe : bool;
  it_entry : option entry_loc;
  it_nextEntry : option entry_loc;
  it_fingerprint : Z;
}.

Section Traverse.
Context {K V : Type} `{EqDecision K} (type : dictType K V).

Definition dictPauseRehashing (d : dict K V) : dict K V := set_pauserehash d (wrapS 16 (pauserehash d + 1)).
Definition dictResumeRehashing (d : dict K V) : dict K V := set_pauserehash d (wrapS 16 (pauserehash d - 1)).

(** The entries at the cursor, after the call of [bucketfn] if there is one. *)
Definition scan_emit (d : dict K V) (has_bucketfn table : bool) (idx : Z) : res (list (scan_event K V)) :=
  de ← bucket d table idx;
  Ok ((if has_bucketfn then [EvBucket table idx] else []) ++ (EvEntry <$> de)).

(** Set the unmasked bits and increment the reversed cursor. *)
Definition scan_next (v m : Z) : Z := rev (wrapU 64 (rev (Z.lor v (not64 m)) + 1)).

Fixpoint dictScan_loop (fuel : nat) (d : dict K V) (bf htidx1 : bool) (m0 m1 v : Z) (out : list (scan_event K V))
    : res (Z * list (scan_event K V)) :=
  match fuel with
  | O => OutOfFuel
  | S fuel =>
      ev ← scan_emit d bf htidx1 (Z.land v m1);
      let v := scan_next v m1 in
      if Z.land v (Z.lxor m0 m1) =? 0 then Ok (v, out ++ ev)
      else dictScan_loop fuel d bf htidx1 m0 m1 v (out ++ ev)
  end.

(** The callbacks are called in order of the events returned. *)
Definition dictScan (d : dict K V) (v : Z) (bf : bool) : res (dict K V * Z * list (scan_event K V)) :=
  if dictSize d =? 0 then Ok (d, 0, [])
  else
    let d := dictPauseRehashing d in
    '(v, out) ←
      (if negb (dictIsRehashing d) then
         let m0 := DICTHT_SIZE_MASK (ht_size_exp (ht0 d)) in
         ev ← scan_emit d bf false (Z.land v m0);
         Ok (scan_next v m0, ev)
       else
         let swap := DICTHT_SIZE (ht_size_exp (ht0 d)) >? DICTHT_SIZE (ht_size_exp (ht1 d)) in
         let htidx0 := swap in
         let htidx1 := negb swap in
         let m0 := DICTHT_SIZE_MASK (ht_size_exp (ht d htidx0)) in
         let m1 := DICTHT_SIZE_MASK (ht_size_exp (ht d htidx1)) in
         ev ← scan_emit d bf htidx0 (Z.land v m0);
         dictScan_loop (Z.to_nat (DICTHT_SIZE (ht_size_exp (ht d htidx1)))) d bf htidx1 m0 m1 v ev);
    Ok (dictResumeRehashing d, v, out).

(** [tab0] and [tab1] are the addresses of the two tables. *)
Definition dictFingerprint_step (hash i : Z) : Z :=
  let hash := wrapU 64 (hash + i) in
  let hash := wrapU 64 (not64 hash + shl64 hash 21) in
  let hash := Z.lxor hash (Z.shiftr hash 24) in
  let hash := wrapU 64 (hash + shl64 hash 3 + shl64 hash 8) in
  let hash := Z.lxor hash (Z.shiftr hash 14) in
  let hash := wrapU 64 (hash + shl64 hash 2 + shl64 hash 4) in
  let hash := Z.lxor hash (Z.shiftr hash 28) in
  wrapU 64 (hash + shl64 hash 31).

Definition dictFingerprint (tab0 tab1 : Z) (d : dict K V) : Z :=
  foldl dictFingerprint_step 0
    [tab0; wrapU 64 (ht_size_exp (ht0 d)); ht_used (ht0 d); tab1; wrapU 64 (ht_size_exp (ht1 d)); ht_used (ht1 d)].

Definition dictGetIterator : dictIterator := Iter (-1) false false None None 0.

Definition dictGetSafeIterator : dictIterator :=
  let i := dictGetIterator in
  Iter (it_index i) (it_table i) true (it_entry i) (it_nextEntry i) (it_fingerprint i).

(** The head of a bucket, and [entry->next]. *)
Definition bucket_head (d : dict K V) (table : bool) (idx : Z) : res (option entry_loc) :=
  b ← bucket d table idx;
  Ok (match b with [] => None | _ :: _ => Some (table, idx, O) end).

Definition entry_next (d : dict K V) (l : entry_loc) : res (option entry_loc) :=
  let '(table, idx, pos) := l in
  b ← bucket d table idx;
  Ok (match b !! S pos with Some _ => Some (table, idx, S pos) | None => None end).

Definition deref (d : dict K V) (l : entry_loc) : res (dictEntry K V) :=
  let '(table, idx, pos) := l in
  b ← bucket d table idx;
  match b !! pos with Some e => Ok e | None => Fault end.

Fixpoint dictNext_loop (fuel : nat) (tab0 tab1 : Z) (d : dict K V) (iter : dictIterator)
    : res (dict K V * dictIterator * option (dictEntry K V)) :=
  match fuel with
  | O => OutOfFuel
  | S fuel =>
      let return_or_loop (d : dict K V) (iter : dictIterator) (entry : option entry_loc) :=
        match entry with
        | Some l =>
            next ← entry_next d l;
            e ← deref d l;
            Ok (d, Iter (it_index iter) (it_table iter) (it_safe iter) (Some l) next (it_fingerprint iter), Some e)
        | None =>
            dictNext_loop fuel tab0 tab1 d
              (Iter (it_index iter) (it_table iter) (it_safe iter) None (it_nextEntry iter) (it_fingerprint iter))
        end in
      match it_entry iter with
      | None =>
          let '(d, fp) :=
            if (it_index iter =? -1) && negb (it_table iter) then
              if it_safe iter then (dictPauseRehashing d, it_fingerprint iter)
              else (d, dictFingerprint tab0 tab1 d)
            else (d, it_fingerprint iter) in
          index ← sint 64 (it_index iter + 1);
          if index >=? DICTHT_SIZE (ht_size_exp (ht d (it_table iter))) then
            if dictIsRehashing d && negb (it_table iter) then
              entry ← bucket_head d true 0;
              return_or_loop d (Iter 0 true (it_safe iter) None (it_nextEntry iter) fp) entry
            else Ok (d, Iter index (it_table iter) (it_safe iter) None (it_nextEntry iter) fp, None)
          else
            entry ← bucket_head d (it_table iter) index;
            return_or_loop d (Iter index (it_table iter) (it_safe iter) None (it_nextEntry iter) fp) entry
      | Some _ => return_or_loop d iter (it_nextEntry iter)
      end
  end.

(** Each turn of the loop returns or goes to the next bucket. *)
Definition dictNext (tab0 tab1 : Z) (d : dict K V) (iter : dictIterator)
    : res (dict K V * dictIterator * option (dictEntry K V)) :=
  dictNext_loop
    (Z.to_nat (DICTHT_SIZE (ht_size_exp (ht0 d)) + DICTHT_SIZE (ht_size_exp (ht1 d))) + 2) tab0 tab1 d iter.

Definition dictReleaseIterator (tab0 tab1 : Z) (d : dict K V) (iter : dictIterator) : res (dict K V) :=
  if negb ((it_index iter =? -1) && negb (it_table iter)) then
    if it_safe iter then Ok (dictResumeRehashing d)
    else assert! it_fingerprint iter =? dictFingerprint tab0 tab1 d; Ok d
  else Ok d.

(** The random generators, as the sequence of their results: [rnd n] is the
    result of the [n]-th call. *)
Context (rnd : nat -> Z).

(** The bucket a random number selects. *)
Definition random_pick (d : dict K V) (r : Z) : res (list (dictEntry K V)) :=
  if dictIsRehashing d then
    let s0 := DICTHT_SIZE (ht_size_exp (ht0 d)) in
    let h := wrapU 64 (rehashidx d + r mod wrapU 64 (dictSlots d - rehashidx d)) in
    if h >=? s0 then bucket d true (h - s0) else bucket d false h
  else bucket d false (Z.land r (DICTHT_SIZE_MASK (ht_size_exp (ht0 d)))).

(** The two [do ... while] loops; there is no bound on the calls they make. *)
Fixpoint random_bucket (fuel : nat) (d : dict K V) (n : nat) : res (nat * list (dictEntry K V)) :=
  match fuel with
  | O => OutOfFuel
  | S fuel =>
      he ← random_pick d (rnd n);
      match he with
      | [] => random_bucket fuel d (S n)
      | _ :: _ => Ok (S n, he)
      end
  end.

Definition dictGetRandomKey (fuel : nat) (d : dict K V) (n : nat) : res (dict K V * nat * option (dictEntry K V)) :=
  if dictSize d =? 0 then Ok (d, n, None)
  else
    d ← (if dictIsRehashing d then _dictRehashStep type d else Ok d);
    '(n, he) ← random_bucket fuel d n;
    listlen ← sint 32 (zlen he);
    let listele := rnd n mod listlen in
    match he !! Z.to_nat listele with
    | Some e => Ok (d, S n, Some e)
    | None => Fault
    end.

(** The rehashing done before sampling. *)
Fixpoint some_rehash (count : nat) (d : dict K V) : res (dict K V) :=
  match count with
  | O => Ok d
  | S count => if dictIsRehashing d then d ← _dictRehashStep type d; some_rehash count d else Ok d
  end.

(** The state of the sampling loop: [i], [emptylen], [des] with [stored] entries,
    and the calls of the random generator. *)
Record sampling := Sampling { sm_i : Z; sm_emptylen : Z; sm_des : list (dictEntry K V); sm_n : nat }.

(** The body of the loop over the tables; [inr] is the early return. *)
Definition some_visit (d : dict K V) (tables2 : bool) (maxsizemask count : Z) (s : sampling) (j : bool)
    : res (sampling + list (dictEntry K V)) :=
  let i := sm_i s in
  let skipped := tables2 && negb j && (i <? rehashidx d) in
  let jump := i >=? DICTHT_SIZE (ht_size_exp (ht1 d)) in
  if skipped && negb jump then Ok (inl s)
  else
    let i := if skipped then rehashidx d else i in
    if i >=? DICTHT_SIZE (ht_size_exp (ht d j)) then Ok (inl (Sampling i (sm_emptylen s) (sm_des s) (sm_n s)))
    else
      he ← bucket d j i;
      match he with
      | [] =>
          let emptylen := sm_emptylen s + 1 in
          if (emptylen >=? 5) && (emptylen >? count)
          then Ok (inl (Sampling (Z.land (rnd (sm_n s)) maxsizemask) 0 (sm_des s) (S (sm_n s))))
          else Ok (inl (Sampling i emptylen (sm_des s) (sm_n s)))
      | _ :: _ =>
          let room := count - zlen (sm_des s) in
          if room <=? zlen he then Ok (inr (sm_des s ++ take (Z.to_nat room) he))
          else Ok (inl (Sampling i 0 (sm_des s ++ he) (sm_n s)))
      end.

Fixpoint some_loop (maxsteps : nat) (d : dict K V) (tables2 : bool) (maxsizemask count : Z) (s : sampling)
    : res (list (dictEntry K V) * nat) :=
  match maxsteps with
  | O => Ok (sm_des s, sm_n s)
  | S maxsteps =>
      if zlen (sm_des s) <? count then
        r ← some_visit d tables2 maxsizemask count s false;
        match r with
        | inr des => Ok (des, sm_n s)
        | inl s =>
            r ← (if tables2 then some_visit d tables2 maxsizemask count s true else Ok (inl s));
            match r with
            | inr des => Ok (des, sm_n s)
            | inl s =>
                some_loop maxsteps d tables2 maxsizemask count
                  (Sampling (Z.land (sm_i s + 1) maxsizemask) (sm_emptylen s) (sm_des s) (sm_n s))
            end
        end
      else Ok (sm_des s, sm_n s)
  end.

(** The entries stored in [des]; their number is the result. *)
Definition dictGetSomeKeys (d : dict K V) (count : Z) (n : nat) : res (dict K V * nat * list (dictEntry K V)) :=
  let count := if dictSize d <? count then dictSize d else count in
  let maxsteps := wrapU 32 (count * 10) in
  d ← some_rehash (Z.to_nat count) d;
  let tables2 := dictIsRehashing d in
  let m0 := DICTHT_SIZE_MASK (ht_size_exp (ht0 d)) in
  let m1 := DICTHT_SIZE_MASK (ht_size_exp (ht1 d)) in
  let maxsizemask := if tables2 && (m0 <? m1) then m1 else m0 in
  '(des, n) ← some_loop (Z.to_nat maxsteps) d tables2 maxsizemask count
                (Sampling (Z.land (rnd n) maxsizemask) 0 [] (S n));
  Ok (d, n, des).

Definition GETFAIR_NUM_ENTRIES : Z := 15.

Definition dictGetFairRandomKey (fuel : nat) (d : dict K V) (n : nat) : res (dict K V * nat * option (dictEntry K V)) :=
  '(d, n, entries) ← dictGetSomeKeys d GETFAIR_NUM_ENTRIES n;
  if zlen entries =? 0 then dictGetRandomKey fuel d n
  else
    match entries !! Z.to_nat (rnd n mod zlen entries) with
    | Some e => Ok (d, S n, Some e)
    | None => Fault
    end.

End Traverse.

(** * Bit reversal *)

(** Where bit [i] of the result of the loop comes from. *)
Fixpoint rev_src (fuel : nat) (s mask i : Z) : option Z :=
  match fuel with
  | O => Some i
  | S fuel =>
      let s := Z.shiftr s 1 in
      if s >? 0 then
        let mask := Z.lxor mask (shl64 mask s) in
        match rev_src fuel s mask i with
        | Some j =>
            let k := if Z.testbit mask j then j + s else j - s in
            if (0 <=? j) && (j <? 64) && (0 <=? k) && (k <? 64) then Some k else None
        | None => None
        end
      else Some i
  end.

Lemma shl64_bit x s i : 0 <= i < 64 -> 0 <= s -> Z.testbit (shl64 x s) i = Z.testbit x (i - s).
Proof.
  intros Hi Hs. unfold shl64, wrapU. rewrite Z.mod_pow2_bits_low by lia. by rewrite Z.shiftl_spec by lia.
Qed.

Lemma not64_bit x i : 0 <= i < 64 -> Z.testbit (not64 x) i = negb (Z.testbit x i).
Proof.
  intros Hi. unfold not64. rewrite Z.lxor_spec. change (2 ^ 64 - 1) with (Z.ones 64).
  rewrite Z.ones_spec_low by lia. by destruct (Z.testbit x i).
Qed.

Lemma rev_loop_bit fuel s mask v i k :
  rev_src fuel s mask i = Some k -> Z.testbit (rev_loop fuel s mask v) i = Z.testbit v k.
Proof.
  revert s mask v k. induction fuel as [|fuel IH]; intros s mask v k; cbn [rev_src rev_loop]; [by intros [= ->]|].
  set (s' := Z.shiftr s 1). destruct (s' >? 0) eqn:Hs; [|by intros [= ->]]. apply Z.gtb_lt in Hs.
  set (mask' := Z.lxor mask (shl64 mask s')). destruct (rev_src fuel s' mask' i) as [j|] eqn:Hj; [|done].
  destruct ((0 <=? j) && _ && _ && _) eqn:Hr; [|done]. zprop. intros [= <-].
  rewrite (IH _ _ _ _ Hj), Z.lor_spec, !Z.land_spec, Z.shiftr_spec, shl64_bit, not64_bit by lia.
  destruct (Z.testbit mask' j); cbn; by rewrite ?andb_true_r, ?andb_false_r, ?orb_false_r.
Qed.

Lemma rev_bit v i : 0 <= i < 64 -> Z.testbit (rev v) i = Z.testbit v (63 - i).
Proof.
  intros Hi. unfold rev. apply rev_loop_bit.
  pose (f i := match rev_src 7 (8 * 8) (not64 0) i with Some k => k =? 63 - i | None => false end).
  assert (f i = true) as Hf by (apply (all_below 64); [by vm_compute|lia]). unfold f in Hf.
  destruct (rev_src 7 (8 * 8) (not64 0) i) as [k|]; [|done]. by apply Z.eqb_eq in Hf as ->.
Qed.

(** The words of 64 bits, by their bits. *)
Lemma word_bits x : 0 <= x < 2 ^ 64 <-> 0 <= x /\ forall i, 64 <= i -> Z.testbit x i = false.
Proof.
  split; intros [Hx Hb]; split; try done.
  - intros i Hi. destruct (decide (x = 0)) as [->|]; [apply Z.bits_0|].
    apply Z.bits_above_log2; [lia|]. assert (Z.log2 x < 64) by (apply Z.log2_lt_pow2; lia). lia.
  - destruct (decide (x = 0)) as [->|]; [lia|]. apply Z.log2_lt_pow2; [lia|].
    destruct (decide (Z.log2 x < 64)) as [|Hl]; [done|]. specialize (Hb (Z.log2 x) ltac:(lia)).
    rewrite Z.bit_log2 in Hb by lia. done.
Qed.

Lemma bits64 x y :
  0 <= x < 2 ^ 64 -> 0 <= y < 2 ^ 64 -> (forall i, 0 <= i < 64 -> Z.testbit x i = Z.testbit y i) -> x = y.
Proof.
  intros [_ Hx]%word_bits [_ Hy]%word_bits Heq. apply Z.bits_inj'. intros i Hi.
  destruct (decide (i < 64)); [apply Heq; lia|]. by rewrite Hx, Hy by lia.
Qed.

Lemma lor64 x y : 0 <= x < 2 ^ 64 -> 0 <= y < 2 ^ 64 -> 0 <= Z.lor x y < 2 ^ 64.
Proof.
  intros [Hx Hx']%word_bits [Hy Hy']%word_bits. apply word_bits. split; [by apply Z.lor_nonneg|].
  intros i Hi. by rewrite Z.lor_spec, Hx', Hy'.
Qed.

Lemma not64_range x : 0 <= x < 2 ^ 64 -> 0 <= not64 x < 2 ^ 64.
Proof.
  intros [Hx Hx']%word_bits. apply word_bits. unfold not64. split; [apply Z.lxor_nonneg; lia|].
  intros i Hi. rewrite Z.lxor_spec, Hx' by done. change (2 ^ 64 - 1) with (Z.ones 64).
  by rewrite Z.ones_spec_high by lia.
Qed.

Lemma rev_loop_range fuel s mask v :
  0 <= s -> 0 <= mask < 2 ^ 64 -> 0 <= v < 2 ^ 64 -> 0 <= rev_loop fuel s mask v < 2 ^ 64.
Proof.
  revert s mask v. induction fuel as [|fuel IH]; intros s mask v Hs Hm Hv; cbn [rev_loop]; [done|].
  assert (0 <= Z.shiftr s 1) by (by apply Z.shiftr_nonneg). set (s' := Z.shiftr s 1) in *. case_match; [|done].
  assert (forall x, 0 <= shl64 x s' < 2 ^ 64) as Hsh by (intros x; apply wrapU_range; lia).
  pose proof (Hsh mask) as [Hm1 Hm1']%word_bits. apply word_bits in Hm as [Hm2 Hm2'].
  assert (0 <= Z.lxor mask (shl64 mask s') < 2 ^ 64) as Hm'.
  { apply word_bits. split; [apply Z.lxor_nonneg; lia|]. intros i Hi. by rewrite Z.lxor_spec, Hm1', Hm2'. }
  apply IH; [done..|]. pose proof (Hsh v) as [Hv1 Hv1']%word_bits. pose proof (not64_range _ Hm').
  pose proof Hm' as [_ Hm3]%word_bits. apply lor64; apply word_bits; split.
  1,3: apply Z.land_nonneg; lia.
  - intros i Hi. by rewrite Z.land_spec, Hm3, andb_false_r.
  - intros i Hi. by rewrite Z.land_spec, Hv1'.
Qed.

Lemma rev_range v : 0 <= v < 2 ^ 64 -> 0 <= rev v < 2 ^ 64.
Proof. intros Hv. by apply rev_loop_range. Qed.

Lemma rev_rev v : 0 <= v < 2 ^ 64 -> rev (rev v) = v.
Proof.
  intros Hv. apply bits64; [by apply rev_range, rev_range|done|]. intros i Hi. rewrite !rev_bit by lia. f_equal. lia.
Qed.

(** A mask of [e] low bits selects the [e] high bits of the reversed word. *)
Lemma mask_rev h v e :
  0 <= h < 2 ^ 64 -> 0 <= v < 2 ^ 64 -> 0 <= e <= 64 ->
  Z.land h (2 ^ e - 1) = Z.land v (2 ^ e - 1) <-> rev h / 2 ^ (64 - e) = rev v / 2 ^ (64 - e).
Proof.
  intros Hh Hv He. rewrite <- !Z.shiftr_div_pow2 by lia.
  replace (2 ^ e - 1) with (Z.ones e) by (rewrite Z.ones_equiv; lia). split; intros E; apply Z.bits_inj'; intros i Hi.
  - rewrite !Z.shiftr_spec by lia. destruct (decide (i < e)).
    + rewrite !rev_bit by lia. apply (f_equal (fun x => Z.testbit x (63 - (i + (64 - e))))) in E.
      rewrite !Z.land_spec, !Z.ones_spec_low, !andb_true_r in E by lia. done.
    + apply rev_range in Hh, Hv. apply word_bits in Hh as [_ Hh], Hv as [_ Hv]. by rewrite Hh, Hv by lia.
  - rewrite !Z.land_spec. destruct (decide (i < e)); [|by rewrite !Z.ones_spec_high, !andb_false_r by lia].
    apply (f_equal (fun x => Z.testbit x (e - 1 - i))) in E. rewrite !Z.shiftr_spec, !rev_bit in E by lia.
    replace (63 - (e - 1 - i + (64 - e))) with i in E by lia. by rewrite E.
Qed.

Lemma lor_ones x n : 0 <= n -> Z.lor x (2 ^ n - 1) + 1 = (x / 2 ^ n + 1) * 2 ^ n.
Proof.
  intros Hn. assert (Z.lor x (2 ^ n - 1) = x / 2 ^ n * 2 ^ n + (2 ^ n - 1)) as ->; [|lia].
  assert (0 < 2 ^ n) by (apply Z.pow_pos_nonneg; lia).
  rewrite Z.add_comm, <- lor_shiftl by lia. apply Z.bits_inj'. intros i Hi. rewrite !Z.lor_spec.
  replace (2 ^ n - 1) with (Z.ones n) by (rewrite Z.ones_equiv; lia). destruct (decide (i < n)).
  - by rewrite Z.ones_spec_low, orb_true_r by lia.
  - rewrite Z.ones_spec_high, orb_false_r, orb_false_l, Z.shiftl_spec, <- Z.shiftr_div_pow2, Z.shiftr_spec by lia.
    f_equal. lia.
Qed.

(** Incrementing the reversed cursor goes to the next block of the words whose
    reversals have the same [e] high bits. *)
Lemma scan_next_rev v e :
  0 <= v < 2 ^ 64 -> 0 <= e <= 64 ->
  rev (scan_next v (2 ^ e - 1)) = wrapU 64 ((rev v / 2 ^ (64 - e) + 1) * 2 ^ (64 - e)).
Proof.
  intros Hv He. assert (0 < 2 ^ e <= 2 ^ 64) as Hp.
  { split; [apply Z.pow_pos_nonneg; lia|apply Z.pow_le_mono_r; lia]. }
  assert (0 < 2 ^ (64 - e) <= 2 ^ 64) as Hq.
  { split; [apply Z.pow_pos_nonneg; lia|apply Z.pow_le_mono_r; lia]. }
  assert (0 <= not64 (2 ^ e - 1) < 2 ^ 64) as Hn by (apply not64_range; lia).
  unfold scan_next. rewrite rev_rev by (apply wrapU_range; lia). f_equal. rewrite <- lor_ones by lia. f_equal.
  apply bits64; [by apply rev_range, lor64|apply lor64; [by apply rev_range|lia]|].
  intros i Hi. rewrite rev_bit, !Z.lor_spec, not64_bit, rev_bit by lia. f_equal.
  replace (2 ^ e - 1) with (Z.ones e) by (rewrite Z.ones_equiv; lia).
  replace (2 ^ (64 - e) - 1) with (Z.ones (64 - e)) by (rewrite Z.ones_equiv; lia).
  rewrite !Z.testbit_ones by lia. destruct (Z.leb_spec 0 (63 - i)), (Z.ltb_spec (63 - i) e), (Z.leb_spec 0 i), (Z.ltb_spec i (64 - e));
    lia || done.
Qed.

Lemma scan_next_range v m : 0 <= scan_next v m < 2 ^ 64.
Proof. apply rev_range, wrapU_range. lia. Qed.

#[global] Opaque rev.

Lemma land_zero x m : (forall i, 0 <= i -> Z.testbit x i && Z.testbit m i = false) -> Z.land x m = 0.
Proof. intros Hb. apply Z.bits_inj'. intros i Hi. by rewrite Z.land_spec, Z.bits_0, Hb. Qed.

(** The condition of the loop over the larger table. *)
Lemma scan_cond v e0 e1 :
  0 <= v < 2 ^ 64 -> 0 <= e0 <= e1 -> e1 <= 64 -> rev v mod 2 ^ (64 - e1) = 0 ->
  (Z.land v (Z.lxor (2 ^ e0 - 1) (2 ^ e1 - 1)) =? 0) = (rev v mod 2 ^ (64 - e0) =? 0).
Proof.
  intros Hv He He1 Hal.
  assert (forall i, 0 <= i -> Z.testbit (Z.lxor (2 ^ e0 - 1) (2 ^ e1 - 1)) i = (e0 <=? i) && (i <? e1)) as Hm.
  { intros i Hi. rewrite Z.lxor_spec.
    replace (2 ^ e0 - 1) with (Z.ones e0) by (rewrite Z.ones_equiv; lia).
    replace (2 ^ e1 - 1) with (Z.ones e1) by (rewrite Z.ones_equiv; lia). rewrite !Z.testbit_ones by lia.
    destruct (Z.leb_spec 0 i), (Z.ltb_spec i e0), (Z.ltb_spec i e1), (Z.leb_spec e0 i); done || lia. }
  assert (forall i, e1 <= i < 64 -> Z.testbit v i = false) as Hhigh.
  { intros i Hi. rewrite <- (rev_rev v Hv), rev_bit by lia.
    rewrite <- (Z.mod_pow2_bits_low _ (64 - e1)) by lia. by rewrite Hal, Z.bits_0. }
  apply eq_true_iff_eq. rewrite !Z.eqb_eq. split; intros E.
  - apply Z.bits_inj'. intros i Hi. rewrite Z.bits_0. destruct (decide (i < 64 - e0)).
    + rewrite Z.mod_pow2_bits_low, rev_bit by lia. destruct (decide (e1 <= 63 - i)); [apply Hhigh; lia|].
      apply (f_equal (fun x => Z.testbit x (63 - i))) in E. rewrite Z.land_spec, Hm, Z.bits_0 in E by lia.
      revert E. ztrue (e0 <=? 63 - i). ztrue (63 - i <? e1). by rewrite andb_true_r.
    + by rewrite Z.mod_pow2_bits_high by lia.
  - apply land_zero. intros i Hi. rewrite Hm by done. destruct (Z.leb_spec e0 i); [|by rewrite andb_false_r].
    destruct (Z.ltb_spec i e1); [|by rewrite andb_false_r]. rewrite andb_true_r.
    rewrite <- (rev_rev v Hv), rev_bit by lia. rewrite <- (Z.mod_pow2_bits_low _ (64 - e0)) by lia.
    by rewrite E, Z.bits_0.
Qed.

Lemma filter_true {A} (P : A -> Prop) `{forall x, Decision (P x)} (l : list A) : (forall x, x ∈ l -> P x) -> filter P l = l.
Proof.
  induction l as [|x l IH]; intros Hall; [done|]. rewrite filter_cons_True by (apply Hall; by left).
  f_equal. apply IH. intros y Hy. apply Hall. by right.
Qed.

Lemma filter_false {A} (P : A -> Prop) `{forall x, Decision (P x)} (l : list A) : (forall x, x ∈ l -> ~ P x) -> filter P l = [].
Proof.
  induction l as [|x l IH]; intros Hall; [done|]. rewrite filter_cons_False by (apply Hall; by left).
  apply IH. intros y Hy. apply Hall. by right.
Qed.

(** * Specification of the scan *)

Section ScanSpec.
Context {K V I : Type} `{EqDecision K, Countable I} (type : dictType K V) (content : K -> I).

(** The entries among the events of a scan. *)
Definition emitted (evs : list (scan_event K V)) : list (dictEntry K V) :=
  omap (fun ev => match ev with EvEntry e => Some e | EvBucket _ _ => None end) evs.

(** The place of an entry in the order of the scan. *)
Definition rank (e : dictEntry K V) : Z := rev (hashFunction type (de_key e)).

Definition between (lo hi : Z) (l : list (dictEntry K V)) : list (dictEntry K V) :=
  filter (fun e => lo <= rank e < hi) l.

(** The exponent of the table that decides the step of the cursor. *)
Definition scan_exp (d : dict K V) : Z :=
  if dictIsRehashing d then Z.min (ht_size_exp (ht0 d)) (ht_size_exp (ht1 d)) else ht_size_exp (ht0 d).

(** A scan over the states the dictionary has at the successive calls: it ends,
    with [None], at the first call that returns the cursor 0. *)
Fixpoint scan_run (bf : bool) (v : Z) (ds : list (dict K V)) : res (option Z * list (scan_event K V)) :=
  match ds with
  | [] => Ok (Some v, [])
  | d :: ds =>
      '(_, v, ev) ← dictScan d v bf;
      if v =? 0 then Ok (None, ev)
      else '(r, evs) ← scan_run bf v ds; Ok (r, ev ++ evs)
  end.

(** A state in which a scan may be called: the pause counter does not overflow. *)
Definition scannable (d : dict K V) : Prop := dict_wf type content d /\ pauserehash d < 2 ^ 15.

Context (Htype : dictType_ok type content).
Implicit Types d : dict K V.

Lemma between_split lo mid hi l :
  lo <= mid <= hi -> between lo hi l ≡ₚ between lo mid l ++ between mid hi l.
Proof.
  intros Hm. unfold between. induction l as [|e l IH]; [done|]. rewrite !filter_cons.
  destruct (decide (lo <= rank e < hi)), (decide (lo <= rank e < mid)), (decide (mid <= rank e < hi)); try lia; cbn.
  - by rewrite IH.
  - by rewrite IH, Permutation_middle.
  - done.
Qed.

#[local] Instance between_proper lo hi : Proper ((≡ₚ) ==> (≡ₚ)) (between lo hi).
Proof. intros l k Hp. unfold between. by rewrite Hp. Qed.

Lemma rank_range e : 0 <= rank e < 2 ^ 64.
Proof using Htype. apply rev_range, (hash_range _ _ Htype). Qed.

Lemma between_all l : between 0 (2 ^ 64) l = l.
Proof using Htype.
  apply filter_true. intros e _. apply rank_range.
Qed.

Lemma block_spec x y n : 0 < n -> x / n = y / n <-> y / n * n <= x < y / n * n + n.
Proof.
  intros Hn. split.
  - intros <-. pose proof (Z.mod_pos_bound x n). pose proof (Z.div_mod x n). lia.
  - intros Hx. symmetry. apply Z.div_unique with (x - y / n * n); lia.
Qed.

(** The bucket of the cursor holds the entries of its block. *)
Lemma scan_bucket d i v :
  ht_shape type (ht d i) -> 0 <= v < 2 ^ 64 ->
  let n := 2 ^ (64 - ht_size_exp (ht d i)) in
  exists b, bucket d i (Z.land v (DICTHT_SIZE_MASK (ht_size_exp (ht d i)))) = Ok b /\
    b ≡ₚ between (rev v / n * n) (rev v / n * n + n) (ht_entries (ht d i)).
Proof using Htype.
  intros Hs Hv n. destruct (shape_bucket type d i v Hs) as (t & b & Ht & Hb & Hbk & Hr & Hidx).
  destruct Hs as (t' & Ht' & He & _ & Hpl). rewrite Ht in Ht'. injection Ht' as <-.
  assert (0 < n) by (apply Z.pow_pos_nonneg; lia). unfold entry_idx in *. exists b. split; [done|].
  assert (forall e, Z.land (hashFunction type (de_key e)) (2 ^ ht_size_exp (ht d i) - 1) =
                    Z.land v (2 ^ ht_size_exp (ht d i) - 1) <->
                    rev v / n * n <= rank e < rev v / n * n + n) as Hiff.
  { intros e. rewrite mask_rev by (try apply (hash_range _ _ Htype); lia). by apply block_spec. }
  unfold ht_entries. rewrite Ht, (join_perm t _ b Hb). unfold between. rewrite filter_app.
  rewrite filter_true, filter_false, app_nil_r; [done| |].
  - intros e (k & Hek & Hk)%list_elem_of_join Hcon. apply Hiff in Hcon.
    assert (exists j, t !! j = Some k /\ j <> Z.to_nat (Z.land v (DICTHT_SIZE_MASK (ht_size_exp (ht d i))))) as (j & Hj & Hne).
    { apply elem_of_app in Hk as [Hk|Hk]; apply list_elem_of_lookup in Hk as [j Hj].
      - exists j. apply lookup_take_Some in Hj as [? ?]. split; [done|lia].
      - rewrite lookup_drop in Hj. eexists. split; [exact Hj|lia]. }
    rewrite (Hpl j k e Hj Hek) in Hcon. lia.
  - intros e Hin. apply Hiff. rewrite <- Hidx. rewrite (Hpl _ _ _ Hb Hin). lia.
Qed.

(** What the callbacks get from one bucket. *)
Lemma emit_ok d bf i v :
  ht_shape type (ht d i) -> 0 <= v < 2 ^ 64 ->
  let n := 2 ^ (64 - ht_size_exp (ht d i)) in
  exists ev, scan_emit d bf i (Z.land v (DICTHT_SIZE_MASK (ht_size_exp (ht d i)))) = Ok ev /\
    emitted ev ≡ₚ between (rev v / n * n) (rev v / n * n + n) (ht_entries (ht d i)).
Proof using Htype.
  intros Hs Hv n. destruct (scan_bucket d i v Hs Hv) as (b & Hb & Hp). unfold scan_emit. rewrite Hb, bind_Ok.
  eexists. split; [done|]. etransitivity; [|exact Hp]. clear.
  assert (emitted (EvEntry <$> b) = b) as Hb by (induction b as [|e b IH]; cbn; by f_equal).
  destruct bf; change (emitted (EvEntry <$> b) ≡ₚ b); by rewrite Hb.
Qed.

Lemma emitted_app a b : emitted (a ++ b) = emitted a ++ emitted b.
Proof. unfold emitted. by rewrite omap_app. Qed.

(** The arithmetic of the blocks of two tables, [m] blocks of the larger table
    being one of the smaller. *)
Lemma blocks x p m :
  0 < p -> 0 < m ->
  x / (p * m) * (p * m) <= x / p * p <= x /\ x < x / p * p + p <= x / (p * m) * (p * m) + p * m.
Proof.
  intros Hp Hm. pose proof (Z.div_mod x p). pose proof (Z.mod_pos_bound x p).
  rewrite <- (Z.div_div x p m) by lia. set (y := x / p) in *.
  pose proof (Z.div_mod y m). pose proof (Z.mod_pos_bound y m). nia.
Qed.

Lemma wrap_top hi : 0 <= hi <= 2 ^ 64 -> wrapU 64 hi = if hi =? 2 ^ 64 then 0 else hi.
Proof.
  intros Hhi. destruct (Z.eqb_spec hi (2 ^ 64)) as [->|]; [done|]. apply wrapU_small. lia.
Qed.

(** The loop over the larger table goes to the end of the block of the smaller. *)
Lemma scan_loop_ok fuel d bf i e0 v out :
  ht_shape type (ht d i) -> 0 <= v < 2 ^ 64 -> 0 <= e0 <= ht_size_exp (ht d i) ->
  let e1 := ht_size_exp (ht d i) in
  let p := 2 ^ (64 - e1) in
  let q := 2 ^ (64 - e0) in
  let lo := rev v / p * p in
  let hi := rev v / q * q + q in
  hi - lo <= Z.of_nat fuel * p ->
  exists v' ev, dictScan_loop fuel d bf i (2 ^ e0 - 1) (2 ^ e1 - 1) v out = Ok (v', out ++ ev) /\
    0 <= v' < 2 ^ 64 /\ rev v' = wrapU 64 hi /\ emitted ev ≡ₚ between lo hi (ht_entries (ht d i)).
Proof using Htype.
  intros Hs. revert v out. induction fuel as [|fuel IH]; intros v out Hv He e1 p q lo hi Hfuel.
  all: assert (e1 <= 60) as He1 by (destruct Hs as (? & ? & ? & _); unfold e1; lia).
  all: assert (0 < p /\ 0 < 2 ^ (e1 - e0) /\ q = p * 2 ^ (e1 - e0)) as (Hp & Hm & Hq)
    by (split_and!; [apply Z.pow_pos_nonneg; lia..|]; unfold p, q; rewrite <- Z.pow_add_r by lia; f_equal; lia).
  all: destruct (blocks (rev v) p (2 ^ (e1 - e0)) Hp Hm) as [Hlo Hhi]; rewrite <- Hq in *; fold lo hi in Hlo, Hhi.
  { lia. }
  pose proof (rev_range v Hv) as Hx. assert (hi <= 2 ^ 64) as Htop.
  { replace (2 ^ 64) with (2 ^ e0 * q) in * by (unfold q; rewrite <- Z.pow_add_r by lia; f_equal; lia).
    assert (rev v / q < 2 ^ e0) by (apply Z.div_lt_upper_bound; lia). unfold hi. nia. }
  destruct (emit_ok d bf i v Hs Hv) as (ev & Eev & Hev). fold e1 p lo in Eev, Hev. rewrite mask_exp in Eev by lia.
  cbn [dictScan_loop]. rewrite Eev, bind_Ok.
  set (v1 := scan_next v (2 ^ e1 - 1)). pose proof (scan_next_range v (2 ^ e1 - 1)) as Hv1. fold v1 in Hv1.
  assert (rev v1 = wrapU 64 (lo + p)) as Hr1.
  { unfold v1. rewrite scan_next_rev by lia. f_equal. unfold lo, p. lia. }
  assert (rev v1 mod p = 0) as Hal.
  { rewrite Hr1, wrap_top by lia. case_match; [by apply Z.mod_0_l; lia|].
    replace (lo + p) with ((rev v / p + 1) * p) by (unfold lo; lia). by apply Z.mod_mul; lia. }
  rewrite (scan_cond v1 e0 e1) by (done || lia). fold q.
  destruct (decide (lo + p = hi)) as [Heq|Hne].
  - rewrite Heq in Hr1. assert (rev v1 mod q = 0) as ->.
    { rewrite Hr1, wrap_top by lia. case_match; [by apply Z.mod_0_l; lia|].
      replace hi with ((rev v / q + 1) * q) by (unfold hi; lia). by apply Z.mod_mul; lia. }
    exists v1, ev. rewrite <- Heq at 2. done.
  - rewrite wrapU_small in Hr1 by lia.
    assert (rev v1 / q = rev v / q) as Eq by (rewrite Hr1; symmetry; apply Z.div_unique with (lo + p - rev v / q * q); lia).
    assert (rev v1 / p * p = lo + p) as Ep.
    { pose proof (Z.div_mod (rev v1) p). lia. }
    assert (rev v1 mod q <> 0) as Hnz by (pose proof (Z.div_mod (rev v1) q) as Hd; rewrite Eq in Hd; lia).
    rewrite (proj2 (Z.eqb_neq _ _) Hnz).
    destruct (IH v1 (out ++ ev) Hv1 He) as (v2 & ev2 & E2 & Hv2 & Hr2 & Hp2).
    { fold e1 p q. rewrite Eq, Ep. fold hi. lia. }
    fold e1 in E2. rewrite E2. fold hi. exists v2, (ev ++ ev2). rewrite app_assoc, emitted_app. split_and!; try done; try lia.
    { fold e1 q in Hr2. by rewrite Hr2, Eq. }
    fold e1 p q in Hp2. rewrite Eq, Ep in Hp2. rewrite (between_split lo (lo + p) hi) by lia. by rewrite Hev, Hp2.
Qed.

Lemma pause_resume d :
  - 2 ^ 15 <= pauserehash d < 2 ^ 15 -> dictResumeRehashing (dictPauseRehashing d) = d.
Proof.
  intros Hp. destruct d as [a b r p]. cbn in Hp. unfold dictResumeRehashing, dictPauseRehashing, set_pauserehash. cbn.
  f_equal. unfold wrapS. change (2 ^ (16 - 1)) with 32768. change (2 ^ 16) with 65536. destruct (decide (p = 2 ^ 15 - 1)) as [->|]; [done|].
  rewrite (Z.mod_small (p + 1 + 32768)), Z.mod_small; lia.
Qed.

(** The blocks one call covers: [lo0] and [lo1] are where the blocks of the
    cursor begin in the smaller and the larger table. *)
Record scan_step (d : dict K V) (v v' : Z) (evs : list (scan_event K V)) (hi : Z) : Prop := {
  ss_range : 0 <= v' < 2 ^ 64;
  ss_cursor : rev v' = wrapU 64 hi;
  ss_hi : rev v < hi <= 2 ^ 64;
  ss_align : hi mod 2 ^ (64 - scan_exp d) = 0;
  ss_cover e : e ∈ entries d -> rev v <= rank e < hi -> e ∈ emitted evs;
  ss_sound e : e ∈ emitted evs -> e ∈ entries d;
  ss_exact : rev v mod 2 ^ (64 - scan_exp d) = 0 -> emitted evs ≡ₚ between (rev v) hi (entries d);
}.

Lemma scan_step_pause d v v' evs hi p : scan_step (set_pauserehash d p) v v' evs hi -> scan_step d v v' evs hi.
Proof. by intros [? ? ? ? ? ? ?]. Qed.

Lemma scan_step_intro d v v' evs hi lo0 lo1 (l0 l1 : list (dictEntry K V)) :
  0 <= v' < 2 ^ 64 -> rev v' = wrapU 64 hi -> rev v < hi <= 2 ^ 64 -> hi mod 2 ^ (64 - scan_exp d) = 0 ->
  lo0 <= lo1 <= rev v -> (rev v mod 2 ^ (64 - scan_exp d) = 0 -> lo0 = rev v) ->
  entries d ≡ₚ l0 ++ l1 -> emitted evs ≡ₚ between lo0 hi l0 ++ between lo1 hi l1 ->
  scan_step d v v' evs hi.
Proof.
  intros ? ? ? ? Hlo Hal Hent Hev. split; try done.
  - intros e. unfold between in *. rewrite Hent, Hev, !elem_of_app, !list_elem_of_filter. intros [?|?] ?; [left|right]; (split; [lia|done]).
  - intros e. unfold between in *. rewrite Hent, Hev, !elem_of_app, !list_elem_of_filter. tauto.
  - intros Hm. specialize (Hal Hm). assert (lo1 = rev v) as -> by lia. subst lo0. rewrite Hev, Hent. unfold between. by rewrite filter_app.
Qed.

Lemma block_pos e : 0 <= e <= 60 -> 0 < 2 ^ (64 - e).
Proof. intros He. apply Z.pow_pos_nonneg; lia. Qed.

Lemma block_top x e :
  0 <= x < 2 ^ 64 -> 0 <= e <= 60 -> x / 2 ^ (64 - e) * 2 ^ (64 - e) + 2 ^ (64 - e) <= 2 ^ 64.
Proof.
  intros Hx He. pose proof (block_pos e He).
  replace (2 ^ 64) with (2 ^ e * 2 ^ (64 - e)) in * by (rewrite <- Z.pow_add_r by lia; f_equal; lia).
  assert (x / 2 ^ (64 - e) < 2 ^ e) by (apply Z.div_lt_upper_bound; lia). nia.
Qed.

(** A call with one table. *)
Lemma scan_one d bf v :
  dictIsRehashing d = false -> ht_shape type (ht0 d) -> ht1 d = ht_empty -> 0 <= v < 2 ^ 64 ->
  let m0 := DICTHT_SIZE_MASK (ht_size_exp (ht0 d)) in
  exists ev hi, scan_emit d bf false (Z.land v m0) = Ok ev /\ scan_step d v (scan_next v m0) ev hi.
Proof using Htype.
  intros Hr Hs0 Hh1 Hv m0. assert (scan_exp d = ht_size_exp (ht0 d)) as Hse by (unfold scan_exp; by rewrite Hr).
  assert (0 <= ht_size_exp (ht0 d) <= 60) as He0 by (by destruct Hs0 as (? & ? & ? & _)).
  destruct (emit_ok d bf false v Hs0 Hv) as (ev0 & E0 & Hp0). unfold m0. cbn [ht] in E0, Hp0. rewrite E0, mask_exp by done.
  set (e0 := ht_size_exp (ht0 d)) in *. pose proof (block_pos e0 He0) as Hpos.
  pose proof (block_top (rev v) e0 (rev_range v Hv) He0) as Htop.
  eexists ev0, (rev v / 2 ^ (64 - e0) * 2 ^ (64 - e0) + 2 ^ (64 - e0)). split; [done|].
  pose proof (Z.div_mod (rev v) (2 ^ (64 - e0)) ltac:(lia)). pose proof (Z.mod_pos_bound (rev v) (2 ^ (64 - e0)) Hpos).
  apply (scan_step_intro d v _ _ _ (rev v / 2 ^ (64 - e0) * 2 ^ (64 - e0)) (rev v / 2 ^ (64 - e0) * 2 ^ (64 - e0))
           (entries d) []); rewrite ?Hse; fold e0; try lia.
  - apply scan_next_range.
  - rewrite scan_next_rev by lia. f_equal. by rewrite Z.mul_add_distr_r, Z.mul_1_l.
  - rewrite <- Z.mul_succ_l. by apply Z.mod_mul; lia.
  - by rewrite app_nil_r.
  - rewrite app_nil_r. unfold entries. rewrite Hh1. cbn [ht_entries ht_table ht_empty]. by rewrite app_nil_r.
Qed.

(** The smaller table comes first. *)
Lemma swap_exp d :
  dictIsRehashing d = true -> (forall i, ht_shape type (ht d i)) ->
  let i := DICTHT_SIZE (ht_size_exp (ht0 d)) >? DICTHT_SIZE (ht_size_exp (ht1 d)) in
  ht_size_exp (ht d i) = scan_exp d /\ scan_exp d <= ht_size_exp (ht d (negb i)).
Proof.
  intros Hr Hsh i. destruct (Hsh false) as (? & _ & He0 & _), (Hsh true) as (? & _ & He1 & _). cbn in He0, He1.
  unfold i, scan_exp. rewrite Hr, !size_exp by lia.
  destruct (Z.gtb_spec (2 ^ ht_size_exp (ht0 d)) (2 ^ ht_size_exp (ht1 d))) as [Hgt|Hgt]; cbn.
  - apply Z.pow_lt_mono_r_iff in Hgt; lia.
  - apply Z.pow_le_mono_r_iff in Hgt; lia.
Qed.

(** A call while rehashing. *)
Lemma scan_two d bf v :
  dictIsRehashing d = true -> (forall i, ht_shape type (ht d i)) -> 0 <= v < 2 ^ 64 ->
  let i := DICTHT_SIZE (ht_size_exp (ht0 d)) >? DICTHT_SIZE (ht_size_exp (ht1 d)) in
  let m0 := DICTHT_SIZE_MASK (ht_size_exp (ht d i)) in
  let m1 := DICTHT_SIZE_MASK (ht_size_exp (ht d (negb i))) in
  exists ev0 v' ev hi, scan_emit d bf i (Z.land v m0) = Ok ev0 /\
    dictScan_loop (Z.to_nat (DICTHT_SIZE (ht_size_exp (ht d (negb i))))) d bf (negb i) m0 m1 v ev0 = Ok (v', ev) /\
    scan_step d v v' ev hi.
Proof using Htype.
  intros Hr Hsh Hv i. destruct (swap_exp d Hr Hsh) as [Hmin Hle]. fold i in Hmin, Hle. intros m0 m1.
  assert (0 <= ht_size_exp (ht d i) <= 60) as He0 by (by destruct (Hsh i) as (? & ? & ? & _)).
  assert (0 <= ht_size_exp (ht d (negb i)) <= 60) as He1 by (by destruct (Hsh (negb i)) as (? & ? & ? & _)).
  destruct (emit_ok d bf i v (Hsh i) Hv) as (ev0 & E0 & Hp0). pose proof (rev_range v Hv) as Hx.
  unfold m0, m1. rewrite E0, !mask_exp by done. rewrite Hmin in *.
  set (e0 := scan_exp d) in *. set (e1 := ht_size_exp (ht d (negb i))) in *.
  pose proof (block_pos e0 He0) as Hpos0. pose proof (block_pos e1 He1) as Hpos1. pose proof (block_top _ e0 Hx He0).
  destruct (scan_loop_ok (Z.to_nat (DICTHT_SIZE e1)) d bf (negb i) e0 v ev0 (Hsh (negb i)) Hv ltac:(fold e1; lia))
    as (v' & ev & E & Hv' & Hr' & Hp').
  { fold e1. rewrite size_exp, Z2Nat.id, <- Z.pow_add_r by lia. replace (e1 + (64 - e1)) with 64 by lia.
    pose proof (Z.div_pos (rev v) (2 ^ (64 - e1))). nia. }
  fold e1 in E, Hp'. eexists ev0, v', (ev0 ++ ev), _. split; [done|]. split; [exact E|].
  destruct (blocks (rev v) (2 ^ (64 - e1)) (2 ^ (e1 - e0))) as [Hb1 Hb2]; [done|apply Z.pow_pos_nonneg; lia|].
  rewrite <- Z.pow_add_r in Hb1, Hb2 by lia. replace (64 - e1 + (e1 - e0)) with (64 - e0) in * by lia.
  apply (scan_step_intro d v v' _ _ (rev v / 2 ^ (64 - e0) * 2 ^ (64 - e0)) (rev v / 2 ^ (64 - e1) * 2 ^ (64 - e1))
           (ht_entries (ht d i)) (ht_entries (ht d (negb i)))); try exact Hr'; try done; fold e0; try lia.
  - rewrite <- Z.mul_succ_l. by apply Z.mod_mul; lia.
  - intros Hm. pose proof (Z.div_mod (rev v) (2 ^ (64 - e0))). lia.
  - unfold entries. destruct i; cbn; [apply Permutation_app_comm|done].
  - by rewrite emitted_app, Hp0, Hp'.
Qed.

Lemma scan_ok d v bf :
  scannable d -> entries d <> [] -> 0 <= v < 2 ^ 64 ->
  exists v' evs hi, dictScan d v bf = Ok (d, v', evs) /\ scan_step d v v' evs hi.
Proof using Htype.
  intros [Hwf Hpause] Hne Hv. pose proof (wf_used type content d Hwf) as (_ & _ & Hsz).
  pose proof Hwf as [Ht _ _ Hpa]. pose proof (entries_table type d Hne Ht) as Hnt.
  destruct (wf_tables_cases type d Ht Hnt) as [[Hs0 _] Hrh].
  unfold dictScan. rewrite Hsz. destruct (Z.eqb_spec (zlen (entries d)) 0) as [E|_]; [by apply zlen_nil_inv in E|].
  assert (dictResumeRehashing (dictPauseRehashing d) = d) as Hdp by (apply pause_resume; lia).
  set (dp := dictPauseRehashing d) in *. cbv zeta.
  destruct (dictIsRehashing dp) eqn:Hr; change (dictIsRehashing dp) with (dictIsRehashing d) in Hr; rewrite Hr in Hrh; cbn [negb].
  - destruct (scan_two dp bf v Hr) as (ev0 & v' & ev & hi & -> & Hl & Hstep); [by intros []; [apply Hrh|]|done|].
    rewrite bind_Ok, Hl, bind_Ok, Hdp. exists v', ev, hi. split; [done|]. by eapply scan_step_pause.
  - destruct (scan_one dp bf v Hr Hs0 Hrh Hv) as (ev & hi & -> & Hstep). rewrite !bind_Ok, Hdp. eexists _, ev, hi. split; [done|].
    by eapply scan_step_pause.
Qed.

Lemma scan_empty d v bf : scannable d -> entries d = [] -> dictScan d v bf = Ok (d, 0, []).
Proof.
  intros [Hwf _] He. pose proof (wf_used type content d Hwf) as (_ & _ & Hsz). unfold dictScan. by rewrite Hsz, He.
Qed.

Lemma rev_0 : rev 0 = 0.
Proof. by vm_compute. Qed.

(** The cursor after a step is 0 exactly when the last block was covered. *)
Lemma step_cursor d v v' evs hi :
  scan_step d v v' evs hi -> 0 <= v < 2 ^ 64 -> if v' =? 0 then hi = 2 ^ 64 else rev v' = hi.
Proof.
  intros [Hv' Hc Hhi _ _ _ _] Hv. pose proof (rev_range v Hv). rewrite wrap_top in Hc by lia.
  destruct (Z.eqb_spec v' 0) as [->|Hne].
  - rewrite rev_0 in Hc. destruct (Z.eqb_spec hi (2 ^ 64)); [done|lia].
  - destruct (Z.eqb_spec hi (2 ^ 64)); [|done]. destruct Hne. by rewrite <- (rev_rev v' Hv'), Hc, rev_0.
Qed.

(** One call, on an empty dictionary too. *)
Lemma scan_call d v bf :
  scannable d -> 0 <= v < 2 ^ 64 ->
  exists v' evs, dictScan d v bf = Ok (d, v', evs) /\ 0 <= v' < 2 ^ 64 /\ (forall e, e ∈ emitted evs -> e ∈ entries d) /\
    (entries d = [] /\ v' = 0 /\ evs = [] \/ entries d <> [] /\ exists hi, scan_step d v v' evs hi).
Proof using Htype.
  intros Hd Hv. destruct (decide (entries d = [])) as [He|He].
  - exists 0, []. rewrite (scan_empty d v bf Hd He). split_and!; try done; [|by left]. cbn. set_solver.
  - destruct (scan_ok d v bf Hd He Hv) as (v' & evs & hi & E & Hs). exists v', evs.
    split_and!; [done|apply Hs..|]. right. split; [done|]. by exists hi.
Qed.

Lemma scan_run_ok bf v ds :
  Forall scannable ds -> 0 <= v < 2 ^ 64 ->
  exists r evs, scan_run bf v ds = Ok (r, evs) /\ forall e, e ∈ emitted evs -> exists d, d ∈ ds /\ e ∈ entries d.
Proof using Htype.
  revert v. induction ds as [|d ds IH]; intros v Hds Hv; cbn [scan_run].
  { exists (Some v), []. split; [done|]. cbn. set_solver. }
  apply Forall_cons in Hds as [Hd Hds]. destruct (scan_call d v bf Hd Hv) as (v' & ev & -> & Hv' & Hs & _).
  rewrite bind_Ok. destruct (v' =? 0).
  - exists None, ev. split; [done|]. set_solver.
  - destruct (IH v' Hds Hv') as (r & evs & -> & Hr). rewrite bind_Ok. exists r, (ev ++ evs). split; [done|].
    intros e. rewrite emitted_app, elem_of_app. set_solver.
Qed.

Lemma scan_run_cover bf v ds key r evs :
  Forall scannable ds -> 0 <= v < 2 ^ 64 -> rev v <= rev (hashFunction type key) ->
  (forall d, d ∈ ds -> exists e, e ∈ entries d /\ content (de_key e) = content key) ->
  scan_run bf v ds = Ok (r, evs) -> r = None -> exists e, e ∈ emitted evs /\ content (de_key e) = content key.
Proof using Htype.
  revert v evs. induction ds as [|d ds IH]; intros v evs Hds Hv Hrk Hin; cbn [scan_run]; [by intros [= <- <-]|].
  apply Forall_cons in Hds as [Hd Hds]. destruct (Hin d) as (e & He & Hc); [by left|].
  destruct (scan_call d v bf Hd Hv) as (v' & ev & -> & Hv' & _ & [(Hemp & _)|(_ & hi & Hs)]).
  { rewrite Hemp in He. by apply elem_of_nil in He. }
  pose proof (step_cursor _ _ _ _ _ Hs Hv) as Hcur.
  assert (rank e = rev (hashFunction type key)) as Hre by (unfold rank; by rewrite (hash_content _ _ Htype _ _ Hc)).
  pose proof (rank_range e) as Hrr. rewrite bind_Ok. destruct (v' =? 0).
  { intros [= <- <-] _. exists e. split; [|done]. apply (ss_cover _ _ _ _ _ Hs); [done|lia]. }
  intros ((r' & evs') & Er & [= <- <-])%bind_Ok_inv Hnone.
  destruct (decide (rank e < hi)) as [Hlt|Hge].
  - exists e. split; [|done]. rewrite emitted_app. apply elem_of_app. left.
    apply (ss_cover _ _ _ _ _ Hs); [done|lia].
  - destruct (IH v' evs' Hds Hv' ltac:(lia)) as (e' & He' & Hc'); [set_solver|done|done|].
    exists e'. rewrite emitted_app. set_solver.
Qed.

Lemma scan_exp_range d : scannable d -> entries d <> [] -> 0 <= scan_exp d <= 60.
Proof.
  intros [[Ht _ _ _] _] Hne. destruct (wf_tables_cases type d Ht (entries_table type d Hne Ht)) as [[Hs0 _] Hrh].
  destruct Hs0 as (? & _ & ? & _). unfold scan_exp. destruct (dictIsRehashing d); [|done].
  destruct Hrh as [(? & _ & ? & _) _]. lia.
Qed.

Lemma scan_run_ends bf v ds E r evs :
  0 <= E <= 60 -> Forall scannable ds -> Forall (fun d => scan_exp d <= E) ds -> 0 <= v < 2 ^ 64 ->
  rev v mod 2 ^ (64 - E) = 0 -> 2 ^ 64 - rev v <= zlen ds * 2 ^ (64 - E) ->
  scan_run bf v ds = Ok (r, evs) -> r = None.
Proof using Htype.
  intros HE. pose proof (block_pos E HE) as Hpos. revert v evs.
  induction ds as [|d ds IH]; intros v evs Hds Hexp Hv Hal Hlen; pose proof (rev_range v Hv) as Hx.
  { unfold zlen in Hlen. cbn [length] in Hlen. lia. }
  apply Forall_cons in Hds as [Hd Hds]. apply Forall_cons in Hexp as [He Hexp]. cbn [scan_run].
  destruct (scan_call d v bf Hd Hv) as (v' & ev & -> & Hv' & _ & Hcase). rewrite bind_Ok.
  destruct Hcase as [(_ & -> & _)|(Hne & hi & Hs)]; [by intros [= <- _]|].
  pose proof (step_cursor _ _ _ _ _ Hs Hv) as Hcur. destruct (v' =? 0); [by intros [= <- _]|].
  intros ((r' & evs') & Er & [= <- <-])%bind_Ok_inv.
  pose proof (scan_exp_range d Hd Hne) as Hse.
  assert (hi mod 2 ^ (64 - E) = 0) as Hhal.
  { pose proof (ss_align _ _ _ _ _ Hs) as Ha. apply Z.mod_divide in Ha; [|lia]. apply Z.mod_divide; [lia|].
    etransitivity; [|exact Ha]. exists (2 ^ (E - scan_exp d)). rewrite <- Z.pow_add_r by lia. f_equal. lia. }
  apply (IH v' evs'); try done; [by rewrite Hcur|]. rewrite Hcur. rewrite zlen_cons in Hlen.
  pose proof (ss_hi _ _ _ _ _ Hs). pose proof (Z.div_mod hi (2 ^ (64 - E))). pose proof (Z.div_mod (rev v) (2 ^ (64 - E))).
  assert (rev v / 2 ^ (64 - E) < hi / 2 ^ (64 - E)) by nia. nia.
Qed.

Lemma scan_run_exact bf v d n evs :
  scannable d -> 0 <= v < 2 ^ 64 -> rev v mod 2 ^ (64 - scan_exp d) = 0 ->
  scan_run bf v (replicate n d) = Ok (None, evs) -> emitted evs ≡ₚ between (rev v) (2 ^ 64) (entries d).
Proof using Htype.
  intros Hd. revert v evs. induction n as [|n IH]; intros v evs Hv Hal; cbn [replicate scan_run]; [done|].
  destruct (scan_call d v bf Hd Hv) as (v' & ev & -> & Hv' & _ & Hcase). rewrite bind_Ok.
  destruct Hcase as [(He & -> & ->)|(Hne & hi & Hs)]; [intros [= <-]; by rewrite He|].
  pose proof (step_cursor _ _ _ _ _ Hs Hv) as Hcur. pose proof (ss_exact _ _ _ _ _ Hs Hal) as Hex.
  destruct (v' =? 0); [intros [= <-]; by rewrite <- Hcur|].
  intros ((r' & evs') & Er & [= -> <-])%bind_Ok_inv. rewrite emitted_app, Hex.
  pose proof (ss_hi _ _ _ _ _ Hs). rewrite (between_split (rev v) hi (2 ^ 64)) by lia. f_equiv.
  rewrite <- Hcur. apply IH; [done| |done]. rewrite Hcur. apply (ss_align _ _ _ _ _ Hs).
Qed.

(** C17: a scan reports every key that stays: for any sequence of states of the
    dictionary at the successive calls (it may grow, shrink, be rehashed or be
    between two tables at any of them), when a scan started with the cursor 0
    ends, every key present in all these states has been handed to the
    callback. *)
Theorem dictScan_complete bf ds key :
  Forall scannable ds ->
  (forall d, d ∈ ds -> exists e, e ∈ entries d /\ content (de_key e) = content key) ->
  exists r evs, scan_run bf 0 ds = Ok (r, evs) /\
    (r = None -> exists e, e ∈ emitted evs /\ content (de_key e) = content key).
Proof using Htype.
  intros Hds Hin. destruct (scan_run_ok bf 0 ds Hds) as (r & evs & E & _); [done|]. exists r, evs. split; [done|].
  apply (scan_run_cover bf 0 ds key r evs); try done. rewrite rev_0. apply rev_range, (hash_range _ _ Htype).
Qed.

(** a scan terminates: while no table it steps by has more than [2^E]
    buckets, a scan started with the cursor 0 ends after at most [2^E] calls,
    whatever happens to the dictionary between the calls. *)
Theorem dictScan_terminates bf ds E :
  0 <= E <= 60 -> Forall scannable ds -> Forall (fun d => scan_exp d <= E) ds -> 2 ^ E <= zlen ds ->
  exists evs, scan_run bf 0 ds = Ok (None, evs).
Proof using Htype.
  intros HE Hds Hexp Hlen. destruct (scan_run_ok bf 0 ds Hds) as (r & evs & Er & _); [done|].
  pose proof (block_pos E HE) as Hpos.
  assert (r = None) as ->; [|by exists evs]. apply (scan_run_ends bf 0 ds E r evs); rewrite ?rev_0; try done.
  replace (2 ^ 64) with (2 ^ E * 2 ^ (64 - E)) by (rewrite <- Z.pow_add_r by lia; f_equal; lia). nia.
Qed.

(** a scan of a dictionary that does not change hands every entry to the
    callback exactly once, also when the dictionary is between two tables. *)
Theorem dictScan_exact bf d :
  scannable d ->
  exists evs, scan_run bf 0 (replicate (S (Z.to_nat (2 ^ scan_exp d))) d) = Ok (None, evs) /\
    emitted evs ≡ₚ entries d.
Proof using Htype.
  intros Hd. set (n := Z.to_nat (2 ^ scan_exp d)).
  assert (Forall scannable (replicate (S n) d)) as Hds by (by apply Forall_replicate).
  destruct (scan_run_ok bf 0 _ Hds) as (r & evs & E & _); [done|]. exists evs.
  assert (r = None) as ->.
  { destruct (decide (entries d = [])) as [He|He].
    { revert E. cbn [replicate scan_run]. rewrite (scan_empty d 0 bf Hd He), bind_Ok. by intros [= <- _]. }
    assert (0 <= scan_exp d <= 60) as Hse by (by apply scan_exp_range).
    pose proof (block_pos _ Hse). apply (scan_run_ends bf 0 _ (scan_exp d) r evs) in E; rewrite ?rev_0; try done.
    - by apply Forall_replicate.
    - replace (2 ^ 64) with (2 ^ scan_exp d * 2 ^ (64 - scan_exp d)) by (rewrite <- Z.pow_add_r by lia; f_equal; lia).
      rewrite zlen_replicate. unfold n. nia. }
  split; [done|]. rewrite (scan_run_exact bf 0 d (S n) evs Hd); [by rewrite rev_0, between_all|done| |done].
  by rewrite rev_0.
Qed.

End ScanSpec.

(** * Iterators *)

#[global] Opaque dictFingerprint wrapS.

Section Iteration.
Context {K V I : Type} `{EqDecision K, Countable I} (type : dictType K V) (content : K -> I).
Context (tab0 tab1 : Z).
Implicit Types d : dict K V.

(** All entries an iterator gives, and the iterator afterwards. *)
Fixpoint iterate (fuel : nat) (d : dict K V) (iter : dictIterator)
    : res (dict K V * dictIterator * list (dictEntry K V)) :=
  match fuel with
  | O => OutOfFuel
  | S fuel =>
      '(d, iter, he) ← dictNext tab0 tab1 d iter;
      match he with
      | None => Ok (d, iter, [])
      | Some e => '(d, iter, l) ← iterate fuel d iter; Ok (d, iter, e :: l)
      end
  end.

Definition table_of (h : dictht K V) : list (list (dictEntry K V)) :=
  match ht_table h with Some t => t | None => [] end.

(** The entries of the current chain, and of the buckets after it, that an
    iterator has still to give. *)
Definition it_pending d (it : dictIterator) : list (dictEntry K V) :=
  match it_entry it, it_nextEntry it with
  | Some _, Some (table, idx, pos) => match bucket d table idx with Ok b => drop pos b | _ => [] end
  | _, _ => []
  end.

Definition it_later d (it : dictIterator) : list (dictEntry K V) :=
  mjoin (drop (Z.to_nat (it_index it + 1)) (table_of (ht d (it_table it)))) ++
  (if dictIsRehashing d && negb (it_table it) then ht_entries (ht1 d) else []).

Definition it_wf d (it : dictIterator) : Prop :=
  -1 <= it_index it < Z.max 0 (zlen (table_of (ht d (it_table it)))) /\ (it_index it = -1 -> it_entry it = None) /\
  (it_entry it <> None -> forall l, it_nextEntry it = Some l ->
   exists pos b e, l = (it_table it, it_index it, pos) /\ bucket d (it_table it) (it_index it) = Ok b /\ b !! pos = Some e).

(** The turns of the loop that are left. *)
Definition it_turns d (it : dictIterator) : Z :=
  zlen (table_of (ht d (it_table it))) - it_index it + (if it_entry it then 1 else 0) +
  (if dictIsRehashing d && negb (it_table it) then zlen (table_of (ht1 d)) else 0).

Definition it_first (it : dictIterator) : bool := (it_index it =? -1) && negb (it_table it).

(** The tables of a well-formed dictionary, as an iterator sees them. *)
Record iterable d : Prop := {
  ib_size i : zlen (table_of (ht d i)) = DICTHT_SIZE (ht_size_exp (ht d i));
  ib_max i : zlen (table_of (ht d i)) <= 2 ^ 60;
  ib_rehash : dictIsRehashing d = true -> 0 < zlen (table_of (ht1 d));
  ib_one : dictIsRehashing d = false -> ht_entries (ht1 d) = [];
}.

Lemma entries_join (h : dictht K V) : ht_entries h = mjoin (table_of h).
Proof. unfold ht_entries, table_of. by destruct (ht_table h). Qed.

Lemma iterable_of d : tables_wf type d -> iterable d.
Proof.
  intros Ht.
  assert (forall i, zlen (table_of (ht d i)) = DICTHT_SIZE (ht_size_exp (ht d i)) /\
                    zlen (table_of (ht d i)) <= 2 ^ 60) as Hs.
  { intros i. destruct (tables_shape type d i Ht) as [->|(t & Hti & He & Hl & _)]; [done|].
    unfold table_of. rewrite Hti, size_exp by done. split; [done|]. rewrite Hl. apply Z.pow_le_mono_r; lia. }
  split; [apply Hs..| |].
  - intros Hr. destruct Ht as [(Hx & _)|(_ & _ & [(t & Hti & He & Hl & _) _] & _)].
    + unfold dictIsRehashing in Hr. by rewrite Hx in Hr.
    + unfold table_of. rewrite Hti, Hl. apply Z.pow_pos_nonneg; lia.
  - intros Hr. destruct Ht as [(_ & -> & _)|(Hx & _)]; [done|].
    unfold dictIsRehashing in Hr. destruct (Z.eqb_spec (rehashidx d) (-1)); [lia|done].
Qed.

Lemma iterable_pause d : iterable d -> iterable (dictPauseRehashing d).
Proof. intros [Ha Hb Hc He]. split; [intros i; apply (Ha i)|intros i; apply (Hb i)|done|done]. Qed.

Lemma bucket_table d i idx :
  0 <= idx < zlen (table_of (ht d i)) ->
  exists b, bucket d i idx = Ok b /\ drop (Z.to_nat idx) (table_of (ht d i)) = b :: drop (Z.to_nat (idx + 1)) (table_of (ht d i)).
Proof.
  intros Hi. unfold table_of, bucket in *. destruct (ht_table (ht d i)) as [t|]; [|unfold zlen in Hi; cbn in Hi; lia].
  destruct (lookup_lt_is_Some_2 t (Z.to_nat idx)) as [b Hb]; [unfold zlen in Hi; lia|]. exists b. rewrite Hb.
  ztrue (0 <=? idx). split; [done|]. rewrite (drop_S _ _ _ Hb). f_equal. f_equal. lia.
Qed.

Lemma at_entry d i idx pos b e :
  bucket d i idx = Ok b -> b !! pos = Some e ->
  deref d (i, idx, pos) = Ok e /\
  exists next, entry_next d (i, idx, pos) = Ok next /\
    forall it, it_entry it = Some (i, idx, pos) -> it_nextEntry it = next -> it_index it = idx -> it_table it = i ->
      it_pending d it = drop (S pos) b /\
      (forall l, it_nextEntry it = Some l -> exists pos b e, l = (i, idx, pos) /\ bucket d i idx = Ok b /\ b !! pos = Some e).
Proof.
  intros Hb He. unfold deref, entry_next, it_pending. rewrite Hb, !bind_Ok, He. split; [done|]. eexists. split; [done|].
  intros it -> -> _ _. destruct (b !! S pos) as [e'|] eqn:Hn.
  - rewrite Hb. split; [done|]. intros l [= <-]. by exists (S pos), b, e'.
  - split; [|done]. symmetry. apply drop_ge. by apply lookup_ge_None in Hn.
Qed.

(** What a call of [dictNext] does for what is left to give. *)
Definition next_spec d (it : dictIterator) (r : res (dict K V * dictIterator * option (dictEntry K V))) : Prop :=
  let d' := if it_first it && it_safe it then dictPauseRehashing d else d in
  exists it' he, r = Ok (d', it', he) /\ it_first it' = false /\ it_safe it' = it_safe it /\
    it_fingerprint it' = (if it_first it && negb (it_safe it) then dictFingerprint tab0 tab1 d else it_fingerprint it) /\
    match he with
    | None => it_pending d it ++ it_later d it = []
    | Some e => it_wf d' it' /\ it_pending d it ++ it_later d it = e :: it_pending d' it' ++ it_later d' it'
    end.

(** The iterator at the entry [pos] of a bucket. *)
Lemma enter_bucket d i idx b (it : dictIterator) pos e :
  bucket d i idx = Ok b -> b !! pos = Some e -> it_index it = idx -> it_table it = i ->
  0 <= idx < zlen (table_of (ht d i)) ->
  exists next, entry_next d (i, idx, pos) = Ok next /\ deref d (i, idx, pos) = Ok e /\
    let it' := Iter idx i (it_safe it) (Some (i, idx, pos)) next (it_fingerprint it) in
    it_wf d it' /\ it_first it' = false /\ it_pending d it' ++ it_later d it' = drop (S pos) b ++ it_later d it.
Proof.
  intros Hb He Hx Hi Hr. destruct (at_entry d i idx pos b e Hb He) as (Hde & next & Hn & Hit).
  exists next. split; [done|]. split; [done|]. cbv zeta.
  destruct (Hit (Iter idx i (it_safe it) (Some (i, idx, pos)) next (it_fingerprint it))) as [Hp Hl]; [done..|].
  split; [split; [cbn; lia|split; [cbn; lia|done]]|]. split; [unfold it_first; cbn; by zfalse (idx =? -1)|].
  rewrite Hp. f_equal. unfold it_later. cbn. by rewrite Hx, Hi.
Qed.

(** The rest of a turn of the loop, at the bucket [idx] of the table [i]. *)
Lemma bucket_turn fuel d i idx (it : dictIterator) L :
  (forall it, it_wf d it -> it_first it = false -> it_turns d it < Z.of_nat fuel ->
   next_spec d it (dictNext_loop fuel tab0 tab1 d it)) ->
  it_index it = idx -> it_table it = i -> it_entry it = None -> 0 <= idx < zlen (table_of (ht d i)) ->
  it_turns d it < Z.of_nat fuel ->
  L = mjoin (drop (Z.to_nat idx) (table_of (ht d i))) ++
      (if dictIsRehashing d && negb i then ht_entries (ht1 d) else []) ->
  exists entry it' he, bucket_head d i idx = Ok entry /\
    match entry with
    | Some l => next ← entry_next d l; e ← deref d l;
                Ok (d, Iter (it_index it) (it_table it) (it_safe it) (Some l) next (it_fingerprint it), Some e)
    | None => dictNext_loop fuel tab0 tab1 d
                (Iter (it_index it) (it_table it) (it_safe it) None (it_nextEntry it) (it_fingerprint it))
    end = Ok (d, it', he) /\ it_first it' = false /\ it_safe it' = it_safe it /\
    it_fingerprint it' = it_fingerprint it /\
    match he with
    | None => L = []
    | Some e => it_wf d it' /\ L = e :: it_pending d it' ++ it_later d it'
    end.
Proof.
  intros IH Hx Hi Hent Hr Ht ->. destruct (bucket_table d i idx Hr) as (b & Hb & Hd).
  assert (it_later d it = mjoin (drop (Z.to_nat (idx + 1)) (table_of (ht d i))) ++
    (if dictIsRehashing d && negb i then ht_entries (ht1 d) else [])) as Hlat by (unfold it_later; by rewrite Hx, Hi).
  assert (mjoin (drop (Z.to_nat idx) (table_of (ht d i))) = b ++ mjoin (drop (Z.to_nat (idx + 1)) (table_of (ht d i))))
    as -> by (by rewrite Hd).
  unfold bucket_head. rewrite Hb, bind_Ok, <- app_assoc, <- Hlat. destruct b as [|e b].
  - assert (it_first it = false) as Hf by (unfold it_first; rewrite Hx; by zfalse (idx =? -1)).
    set (it1 := Iter (it_index it) (it_table it) (it_safe it) None (it_nextEntry it) (it_fingerprint it)).
    destruct (IH it1) as (it' & he & E & Hf' & Hs' & Hfp & Hm).
    + split; [cbn; rewrite Hx, Hi; lia|done].
    + done.
    + unfold it_turns in *. cbn. by rewrite Hent in Ht.
    + change (it_first it1) with (it_first it) in *. rewrite Hf in *. eexists None, it', he. split; [done|].
      split; [exact E|]. done.
  - destruct (enter_bucket d i idx (e :: b) it O e Hb) as (next & Hn & Hde & Hwf & Hf & Hp); [done..|].
    eexists (Some (i, idx, O)), _, (Some e). split; [done|]. rewrite Hn, bind_Ok, Hde, bind_Ok, Hx, Hi. split; [done|].
    split; [exact Hf|]. split; [done|]. split; [done|]. split; [exact Hwf|]. cbn [app]. f_equal. symmetry. exact Hp.
Qed.

(** The first call on an iterator pauses rehashing or takes the fingerprint. *)
Definition it_start d (it : dictIterator) : dict K V :=
  if it_first it && it_safe it then dictPauseRehashing d else d.

Lemma start_same d it :
  (forall i, ht (it_start d it) i = ht d i) /\ dictIsRehashing (it_start d it) = dictIsRehashing d /\
  (iterable d -> iterable (it_start d it)) /\ it_later (it_start d it) it = it_later d it.
Proof. unfold it_start. destruct (_ && _); split_and!; try done. apply iterable_pause. Qed.

Lemma next_advance fuel d it :
  (forall it', it_wf (it_start d it) it' -> it_first it' = false -> it_turns (it_start d it) it' < Z.of_nat fuel ->
   next_spec (it_start d it) it' (dictNext_loop fuel tab0 tab1 (it_start d it) it')) ->
  iterable d -> it_wf d it -> it_entry it = None -> it_turns d it < Z.of_nat (S fuel) ->
  next_spec d it (dictNext_loop (S fuel) tab0 tab1 d it).
Proof.
  intros IH Hd [Hx _] Hent Hf. destruct (start_same d it) as (Hht & Hre & Hib & Hlat). specialize (Hib Hd).
  set (fp := if it_first it && negb (it_safe it) then dictFingerprint tab0 tab1 d else it_fingerprint it).
  unfold next_spec. fold (it_start d it) fp. cbn [dictNext_loop].
  assert ((if (it_index it =? -1) && negb (it_table it)
           then if it_safe it then (dictPauseRehashing d, it_fingerprint it) else (d, dictFingerprint tab0 tab1 d)
           else (d, it_fingerprint it)) = (it_start d it, fp)) as ->.
  { unfold it_start, fp, it_first. by destruct (it_index it =? -1), (it_table it), (it_safe it). }
  unfold it_pending. rewrite Hent. cbn [app]. rewrite <- Hlat.
  set (d1 := it_start d it) in *. pose proof (ib_size d1 Hib (it_table it)) as Hsz.
  pose proof (ib_max d1 Hib (it_table it)) as Hmx. rewrite <- Hht in Hx. 
  assert (it_turns d it = it_turns d1 it) as Et by (unfold it_turns; rewrite (Hht (it_table it)), Hre, (Hht true : ht1 d1 = ht1 d); done).
  rewrite Et in Hf. unfold it_turns in Hf. rewrite Hent in Hf. rewrite sint_ok, bind_Ok by lia. rewrite <- Hsz, Z.geb_leb.
  destruct (Z.leb_spec (zlen (table_of (ht d1 (it_table it)))) (it_index it + 1)) as [Hge|Hlt].
  - assert (mjoin (drop (Z.to_nat (it_index it + 1)) (table_of (ht d1 (it_table it)))) = []) as Hnil.
    { rewrite drop_ge; [done|]. unfold zlen in Hge. lia. }
    unfold it_later. rewrite Hnil. destruct (dictIsRehashing d1 && negb (it_table it)) eqn:Hr.
    + apply andb_true_iff in Hr as [Hr Ht%negb_true_iff].
      destruct (bucket_turn fuel d1 true 0 (Iter 0 true (it_safe it) None (it_nextEntry it) fp) (ht_entries (ht1 d1)))
        as (entry & it' & he & -> & E & Hrest); try done.
      * pose proof (ib_rehash d1 Hib Hr). cbn. lia.
      * unfold it_turns. cbn. rewrite andb_false_r. pose proof (zlen_nonneg (table_of (ht d1 (it_table it)))). lia.
      * by rewrite andb_false_r, app_nil_r, entries_join.
      * rewrite bind_Ok. exists it', he. split; [exact E|]. done.
    + eexists _, None. split; [done|]. split_and!; try done. unfold it_first. cbn.
      destruct (Z.eqb_spec (it_index it + 1) (-1)); [lia|done].
  - destruct (bucket_turn fuel d1 (it_table it) (it_index it + 1)
      (Iter (it_index it + 1) (it_table it) (it_safe it) None (it_nextEntry it) fp) (it_later d1 it))
      as (entry & it' & he & -> & E & Hrest); try done.
    + lia.
    + unfold it_turns. cbn. lia.
    + rewrite bind_Ok. exists it', he. split; [exact E|]. done.
Qed.

Lemma next_loop_ok fuel d it :
  iterable d -> it_wf d it -> it_turns d it < Z.of_nat fuel -> next_spec d it (dictNext_loop fuel tab0 tab1 d it).
Proof.
  revert d it. induction fuel as [|fuel IH]; intros d it Hd Hwf Hf.
  { exfalso. unfold it_turns in Hf. destruct Hwf as [Hx _]. pose proof (zlen_nonneg (table_of (ht1 d))).
    pose proof (zlen_nonneg (table_of (ht d (it_table it)))).
    destruct (it_entry it), (dictIsRehashing d && negb (it_table it)); lia. }
  destruct (it_entry it) as [l|] eqn:Hent.
  2:{ apply next_advance; try done. intros it' Hwf' _ Hf'. apply IH; [|done..]. by apply start_same. }
  pose proof Hwf as (Hx & Hfirst & Hnext). rewrite Hent in Hnext.
  assert (0 <= it_index it) as Hpos.
  { destruct (Z.eqb_spec (it_index it) (-1)) as [E|]; [|lia]. by rewrite (Hfirst E) in Hent. }
  assert (it_first it = false) as Hff by (unfold it_first; by zfalse (it_index it =? -1)).
  cbn [dictNext_loop]. rewrite Hent. unfold next_spec. rewrite Hff. cbn [andb].
  destruct (it_nextEntry it) as [l'|] eqn:Hn.
  - destruct (Hnext ltac:(done) l' eq_refl) as (pos & b & e & -> & Hb & He).
    destruct (enter_bucket d (it_table it) (it_index it) b it pos e Hb He) as (next & En & Ed & Hwf' & Hf' & Hp'); [done..|lia|].
    rewrite En, bind_Ok, Ed, bind_Ok. eexists _, (Some e). split; [done|]. split; [exact Hf'|]. split; [done|].
    split; [done|]. split; [exact Hwf'|]. unfold it_pending at 1. rewrite Hent, Hn, Hb, (drop_S _ _ _ He).
    cbn [app]. f_equal. symmetry. exact Hp'.
  - destruct (IH d (Iter (it_index it) (it_table it) (it_safe it) None None (it_fingerprint it)))
      as (it' & he & E & Hrest); [done| | |].
    + split; [done|]. done.
    + unfold it_turns in *. rewrite Hent in Hf. cbn. lia.
    + change (it_first (Iter (it_index it) (it_table it) (it_safe it) None None (it_fingerprint it))) with (it_first it) in *.
      rewrite Hff in *. exists it', he. split; [exact E|]. unfold it_pending at 1 3 in Hrest. cbn [it_entry it_nextEntry] in Hrest.
      unfold it_pending at 1 3. rewrite Hent, Hn. exact Hrest.
Qed.

Lemma dictNext_ok d it : iterable d -> it_wf d it -> next_spec d it (dictNext tab0 tab1 d it).
Proof.
  intros Hd Hwf. apply next_loop_ok; [done..|]. pose proof (ib_size d Hd false) as H0s. pose proof (ib_size d Hd true) as H1s.
  cbn [ht] in H0s, H1s. rewrite <- H0s, <- H1s. pose proof (zlen_nonneg (table_of (ht0 d))).
  pose proof (zlen_nonneg (table_of (ht1 d))). destruct Hwf as (Hx & Hfirst & _). unfold it_turns.
  destruct (it_entry it); destruct (it_table it); rewrite ?andb_false_r, ?andb_true_r; cbn [ht negb];
    try destruct (dictIsRehashing d); try lia; destruct (decide (it_index it = -1)) as [E|]; try lia; by specialize (Hfirst E).
Qed.

Lemma iterate_ok n d it :
  iterable d -> it_wf d it -> (length (it_pending d it ++ it_later d it) <= n)%nat ->
  exists it', iterate (S n) d it = Ok (it_start d it, it', it_pending d it ++ it_later d it) /\
    it_first it' = false /\ it_safe it' = it_safe it /\
    it_fingerprint it' = (if it_first it && negb (it_safe it) then dictFingerprint tab0 tab1 d else it_fingerprint it).
Proof.
  revert d it. induction n as [|n IH]; intros d it Hd Hwf Hn;
    destruct (dictNext_ok d it Hd Hwf) as (it1 & he & E & Hf1 & Hs1 & Hfp1 & Hm); fold (it_start d it) in E, Hm.
  all: cbn [iterate]; rewrite E, bind_Ok; destruct he as [e|]; [|exists it1; by rewrite Hm].
  all: destruct Hm as [Hwf1 Hm]; rewrite Hm in *; cbn [length] in Hn.
  { lia. }
  destruct (start_same d it) as (_ & _ & Hib & _).
  destruct (IH (it_start d it) it1 (Hib Hd) Hwf1 ltac:(lia)) as (it2 & E2 & Hf2 & Hs2 & Hfp2).
  assert (it_start (it_start d it) it1 = it_start d it) as Est by (unfold it_start at 1; by rewrite Hf1).
  change (iterate (S n) (it_start d it) it1) with
    ('(d, iter, he) ← dictNext tab0 tab1 (it_start d it) it1;
     match he with None => Ok (d, iter, []) | Some e => '(d, iter, l) ← iterate n d iter; Ok (d, iter, e :: l) end) in E2.
  rewrite E2, bind_Ok, Est. exists it2. rewrite Hf1 in Hfp2. cbn in Hfp2. split_and!; try done; congruence.
Qed.

(** The iterator has started and has still to give the entries [l]. *)
Definition gives d (it : dictIterator) (l : list (dictEntry K V)) : Prop :=
  iterable d /\ it_wf d it /\ it_first it = false /\ it_pending d it ++ it_later d it = l.

Lemma next_gives d it l : gives d it l -> exists it', dictNext tab0 tab1 d it = Ok (d, it', head l) /\
  it_first it' = false /\ it_safe it' = it_safe it /\ forall x l', l = x :: l' -> gives d it' l'.
Proof.
  intros (Hd & Hwf & Hf & <-). destruct (dictNext_ok d it Hd Hwf) as (it' & he & E & Hf' & Hs' & _ & Hm). rewrite Hf in E, Hm. cbn [andb] in E, Hm.
  exists it'. destruct he as [x|]; [destruct Hm as [Hwf' Hm]|]; rewrite Hm; split_and!; try done. intros y l' [= <- <-]. by split_and!.
Qed.

(** The first call on a safe iterator pauses rehashing. *)
Lemma first_gives d : dict_wf type content d -> exists it', dictNext tab0 tab1 d dictGetSafeIterator = Ok (dictPauseRehashing d, it', head (entries d)) /\
  it_first it' = false /\ it_safe it' = true /\ forall x l', entries d = x :: l' -> gives (dictPauseRehashing d) it' l'.
Proof.
  intros [Ht _ _ _]. pose proof (iterable_of d Ht) as Hd. set (it := dictGetSafeIterator).
  assert (it_pending d it ++ it_later d it = entries d) as Hall.
  { unfold it_pending, it_later, entries. cbn [it it_entry it_index it_table dictGetSafeIterator dictGetIterator]. rewrite andb_true_r, !entries_join. cbn [app]. f_equal.
    rewrite <- entries_join. destruct (dictIsRehashing d) eqn:Hr; [done|]. by rewrite (ib_one d Hd Hr). }
  assert (it_wf d it) as Hwf by (split; [cbn; pose proof (zlen_nonneg (table_of (ht0 d))); lia|done]).
  destruct (dictNext_ok d it Hd Hwf) as (it' & he & E & Hf' & Hs' & _ & Hm). cbn [andb negb Z.eqb it it_first it_safe it_index it_table dictGetSafeIterator dictGetIterator] in E, Hs', Hm.
  change (it_first dictGetSafeIterator) with true in E, Hm. cbn [andb] in E, Hm. fold it in Hm. rewrite Hall in Hm.
  exists it'. destruct he as [x|]; [destruct Hm as [Hwf' Hm]|]; rewrite Hm; split_and!; try done. intros y l' [= <- <-]. split_and!; try done. by apply iterable_pause.
Qed.

(** an iterator, safe or not, over a dictionary that is not modified gives
    every entry once, in the order of the tables and buckets, also in the middle
    of a rehash; releasing it then passes the misuse check and leaves the
    dictionary as it was. *)
Theorem dictNext_visits d (safe : bool) :
  dict_wf type content d -> pauserehash d < 2 ^ 15 ->
  exists d' it', iterate (S (length (entries d))) d (if safe then dictGetSafeIterator else dictGetIterator)
      = Ok (d', it', entries d) /\
    dictReleaseIterator tab0 tab1 d' it' = Ok d.
Proof.
  intros [Ht _ _ Hpa] Hmax. set (it := if safe then _ else _). pose proof (iterable_of d Ht) as Hd.
  assert (it_index it = -1 /\ it_table it = false /\ it_entry it = None /\ it_safe it = safe) as (Hx & Htab & Hent & Hs)
    by (unfold it; by destruct safe).
  assert (it_pending d it ++ it_later d it = entries d) as Hall.
  { unfold it_pending, it_later, entries. rewrite Hx, Htab, Hent, andb_true_r, !entries_join. cbn [app]. f_equal.
    rewrite <- entries_join. destruct (dictIsRehashing d) eqn:Hr; [done|]. by rewrite (ib_one d Hd Hr). }
  destruct (iterate_ok (length (entries d)) d it Hd) as (it' & E & Hf' & Hs' & Hfp).
  - split; [rewrite Hx; pose proof (zlen_nonneg (table_of (ht d (it_table it)))); lia|]. by rewrite Hent.
  - by rewrite Hall.
  - rewrite Hall in E. eexists _, it'. split; [exact E|]. unfold dictReleaseIterator. fold (it_first it'). rewrite Hf', Hs', Hs.
    cbn [negb]. unfold it_start. assert (it_first it = true) as Hf by (unfold it_first; by rewrite Hx, Htab).
    rewrite Hf, Hs in *. destruct safe; cbn [andb negb] in *.
    + f_equal. apply pause_resume. lia.
    + by rewrite Hfp, Z.eqb_refl.
Qed.


End Iteration.

(** * Random sampling *)

Section Random.
Context {K V I : Type} `{EqDecision K, Countable I} (type : dictType K V) (content : K -> I).
Context (Htype : dictType_ok type content).
Implicit Types d : dict K V.

Lemma join_lookup {A} (t : list (list A)) e : e ∈ mjoin t -> exists idx b, t !! idx = Some b /\ e ∈ b.
Proof. intros (b & Hb & (idx & Hidx)%list_elem_of_lookup)%list_elem_of_join. by exists idx, b. Qed.

(** A bucket of one of the tables is a part of the dictionary. *)
Lemma bucket_part d i idx b : bucket d i idx = Ok b -> exists R, entries d ≡ₚ b ++ R.
Proof.
  intros (t & Ht & Hb & _)%bucket_inv. pose proof (join_perm t _ b Hb) as Hp. unfold entries.
  assert (ht_entries (ht d i) ≡ₚ b ++ mjoin (take (Z.to_nat idx) t ++ drop (S (Z.to_nat idx)) t)) as He
    by (unfold ht_entries; by rewrite Ht).
  destruct i; cbn [ht] in He; eexists; [rewrite (Permutation_app_comm (ht_entries (ht0 d)))|]; rewrite He, <- app_assoc; done.
Qed.

Lemma slots_ok d :
  tables_wf type d -> dictIsRehashing d = true ->
  let s0 := zlen (table_of (ht0 d)) in
  let s1 := zlen (table_of (ht1 d)) in
  DICTHT_SIZE (ht_size_exp (ht0 d)) = s0 /\ 0 < s0 <= 2 ^ 60 /\ 0 < s1 <= 2 ^ 60 /\ 0 <= rehashidx d <= s0 /\
  dictSlots d = s0 + s1.
Proof.
  intros Ht Hr. pose proof (iterable_of type d Ht) as Hd.
  pose proof (ib_size d Hd false) as E0. pose proof (ib_size d Hd true) as E1. pose proof (ib_max d Hd false).
  pose proof (ib_max d Hd true). pose proof (ib_rehash d Hd Hr). cbn [ht] in *. unfold dictSlots. rewrite <- E0, <- E1.
  destruct Ht as [(Hx & _)|(Hx & [(t & Htt & He & Hl & _) _] & _)]; [unfold dictIsRehashing in Hr; by rewrite Hx in Hr|].
  assert (zlen (table_of (ht0 d)) = 2 ^ ht_size_exp (ht0 d)) as E2 by (unfold table_of; by rewrite Htt).
  assert (0 < 2 ^ ht_size_exp (ht0 d)) by (apply Z.pow_pos_nonneg; lia).
  rewrite wrapU_small by lia. rewrite E2 in *. split_and!; lia.
Qed.

Lemma pick_ok d r :
  tables_wf type d -> entries d <> [] -> 0 <= r -> exists b R, random_pick d r = Ok b /\ entries d ≡ₚ b ++ R.
Proof.
  intros Ht Hne Hr0. enough (exists b i idx, random_pick d r = Ok b /\ bucket d i idx = Ok b) as (b & i & idx & -> & Hb).
  { destruct (bucket_part d i idx b Hb) as [R HR]. by exists b, R. }
  unfold random_pick. destruct (dictIsRehashing d) eqn:Hr.
  - destruct (slots_ok d Ht Hr) as (-> & H0s & H1s & Hx & ->). cbv zeta.
    set (s0 := zlen (table_of (ht0 d))) in *. set (s1 := zlen (table_of (ht1 d))) in *.
    rewrite (wrapU_small 64 (s0 + s1 - rehashidx d)) by lia.
    pose proof (Z.mod_pos_bound r (s0 + s1 - rehashidx d) ltac:(lia)) as Hm. rewrite wrapU_small by lia. rewrite Z.geb_leb.
    destruct (Z.leb_spec s0 (rehashidx d + r mod (s0 + s1 - rehashidx d))).
    + destruct (bucket_table d true (rehashidx d + r mod (s0 + s1 - rehashidx d) - s0)) as (b & Hb & _);
        [change (ht d true) with (ht1 d); fold s1; lia|]. by eexists b, _, _.
    + destruct (bucket_table d false (rehashidx d + r mod (s0 + s1 - rehashidx d))) as (b & Hb & _);
        [change (ht d false) with (ht0 d); fold s0; lia|]. by eexists b, _, _.
  - destruct (wf_tables_cases type d Ht (entries_table type d Hne Ht)) as [[Hs _] _].
    destruct (shape_bucket type d false r Hs) as (t & b & Htt & Hb & Hbk & Hrg & _). unfold entry_idx in *. cbn [ht] in *.
    by eexists b, _, _.
Qed.

(** Every entry is in a bucket that some random number selects. *)
Lemma pick_reaches d e :
  tables_wf type d -> e ∈ entries d -> exists r b, 0 <= r /\ random_pick d r = Ok b /\ e ∈ b.
Proof.
  intros Ht He. assert (entries d <> []) as Hne by (intros E; rewrite E in He; by apply elem_of_nil in He).
  destruct (wf_tables_cases type d Ht (entries_table type d Hne Ht)) as [[Hs0 _] Hrh]. unfold random_pick.
  destruct (dictIsRehashing d) eqn:Hr.
  - destruct (slots_ok d Ht Hr) as (-> & H0s & H1s & Hx & ->). cbv zeta.
    set (s0 := zlen (table_of (ht0 d))) in *. set (s1 := zlen (table_of (ht1 d))) in *.
    rewrite (wrapU_small 64 (s0 + s1 - rehashidx d)) by lia.
    assert (forall i idx b, table_of (ht d i) !! idx = Some b -> bucket d i (Z.of_nat idx) = Ok b /\ Z.of_nat idx < zlen (table_of (ht d i))) as Hbk.
    { intros i idx b Hl. unfold bucket, table_of in *. pose proof (lookup_lt_Some _ _ _ Hl). 
      destruct (ht_table (ht d i)) as [t|]; [|done]. ztrue (0 <=? Z.of_nat idx). rewrite Nat2Z.id, Hl. split; [done|]. unfold zlen. lia. }
    unfold entries in He. rewrite !entries_join in He. apply elem_of_app in He as [He|He];
      apply join_lookup in He as (idx & b & Hl & Hin).
    + destruct (Hbk false idx b Hl) as [Hb Hlt]. change (ht d false) with (ht0 d) in Hlt. fold s0 in Hlt.
      assert (rehashidx d <= Z.of_nat idx) as Hge.
      { destruct Ht as [(E & _)|(_ & _ & _ & Hmv)]; [unfold dictIsRehashing in Hr; by rewrite E in Hr|].
        destruct (decide (rehashidx d <= Z.of_nat idx)) as [|Hn]; [done|]. exfalso.
        unfold table_of in Hl. destruct (ht_table (ht0 d)) as [t|] eqn:Htt; [|done].
        rewrite (Hmv t idx b Htt Hl ltac:(lia)) in Hin. by apply elem_of_nil in Hin. }
      exists (Z.of_nat idx - rehashidx d), b. rewrite Z.mod_small by lia.
      replace (rehashidx d + (Z.of_nat idx - rehashidx d)) with (Z.of_nat idx) by lia. rewrite wrapU_small by lia.
      rewrite Z.geb_leb, (proj2 (Z.leb_gt _ _)) by lia. split_and!; try done; lia.
    + destruct (Hbk true idx b Hl) as [Hb Hlt]. change (ht d true) with (ht1 d) in Hlt. fold s1 in Hlt.
      exists (s0 + Z.of_nat idx - rehashidx d), b. rewrite Z.mod_small by lia.
      replace (rehashidx d + (s0 + Z.of_nat idx - rehashidx d)) with (s0 + Z.of_nat idx) by lia. rewrite wrapU_small by lia.
      rewrite Z.geb_leb, (proj2 (Z.leb_le _ _)) by lia. replace (s0 + Z.of_nat idx - s0) with (Z.of_nat idx) by lia.
      split_and!; try done; lia.
  - unfold entries in He. rewrite Hrh in He. cbn [ht_entries ht_table ht_empty] in He. rewrite app_nil_r in He.
    destruct (shape_bucket type d false (hashFunction type (de_key e)) Hs0) as (t & b & Htt & Hb & Hbk & Hrg & Hidx).
    exists (hashFunction type (de_key e)), b. split; [apply (hash_range _ _ Htype)|]. split; [done|]. cbn [ht] in *.
    unfold ht_entries in He. rewrite Htt in He. apply join_lookup in He as (idx & b' & Hl & Hin).
    destruct Hs0 as (t' & Htt' & _ & _ & Hpl). rewrite Htt in Htt'. injection Htt' as <-.
    rewrite Hidx, (Hpl _ _ _ Hl Hin), Nat2Z.id in Hb. rewrite Hl in Hb. by injection Hb as ->.
Qed.

Lemma random_bucket_ok rnd fuel d n :
  tables_wf type d -> entries d <> [] -> (forall k, 0 <= rnd k) ->
  random_bucket rnd fuel d n = OutOfFuel \/
  exists n' b R, random_bucket rnd fuel d n = Ok (n', b) /\ b <> [] /\ entries d ≡ₚ b ++ R.
Proof.
  intros Ht Hne Hrnd. revert n. induction fuel as [|fuel IH]; intros n; cbn [random_bucket]; [by left|].
  destruct (pick_ok d (rnd n) Ht Hne (Hrnd n)) as (b & R & -> & HR). rewrite bind_Ok.
  destruct b as [|e b]; [apply IH|]. right. by exists (S n), (e :: b), R.
Qed.

Lemma random_bucket_hits rnd fuel d n k b :
  tables_wf type d -> entries d <> [] -> (forall k, 0 <= rnd k) -> (k < fuel)%nat ->
  random_pick d (rnd (n + k)%nat) = Ok b -> b <> [] -> random_bucket rnd fuel d n <> OutOfFuel.
Proof.
  intros Ht Hne Hrnd. revert n k. induction fuel as [|fuel IH]; intros n k Hk Hp Hb; [lia|]. cbn [random_bucket].
  destruct (pick_ok d (rnd n) Ht Hne (Hrnd n)) as (b' & R & Hb' & _). rewrite Hb', bind_Ok. destruct b'; [|done].
  destruct k as [|k]; [rewrite Nat.add_0_r in Hp; congruence|]. apply (IH (S n) k); [lia|by rewrite Nat.add_succ_r in Hp|done].
Qed.

(** The part of the lookup after the bucket is chosen. *)
Lemma random_entry (b : list (dictEntry K V)) r :
  b <> [] -> 0 <= r -> exists e, b !! Z.to_nat (r mod zlen b) = Some e /\ e ∈ b.
Proof.
  intros Hb Hr. assert (0 < zlen b) by (destruct b; [done|rewrite zlen_cons; zlia]).
  pose proof (Z.mod_pos_bound r (zlen b)). destruct (lookup_lt_is_Some_2 b (Z.to_nat (r mod zlen b))) as [e He].
  { unfold zlen in *. lia. }
  exists e. split; [done|]. by eapply list_elem_of_lookup_2.
Qed.

Lemma random_after d1 rnd n (b : list (dictEntry K V)) :
  b <> [] -> zlen b < 2 ^ 31 -> 0 <= rnd n ->
  exists e, (listlen ← sint 32 (zlen b);
    match b !! Z.to_nat (rnd n mod listlen) with
    | Some e => Ok (d1, S n, Some e)
    | None => Fault
    end) = Ok (d1, S n, Some e) /\ b !! Z.to_nat (rnd n mod zlen b) = Some e /\ e ∈ b.
Proof.
  intros Hb Hl Hr. rewrite sint_ok, bind_Ok by (pose proof (zlen_nonneg b); lia).
  destruct (random_entry b (rnd n) Hb Hr) as (e & He & Hin). rewrite He. by exists e.
Qed.

Lemma random_key_ok rnd fuel d n :
  dict_wf type content d -> entries d <> [] -> zlen (entries d) < 2 ^ 31 -> (forall k, 0 <= rnd k) ->
  dictGetRandomKey type rnd fuel d n = OutOfFuel \/
  exists d' n' e, dictGetRandomKey type rnd fuel d n = Ok (d', n', Some e) /\ e ∈ entries d /\
    dict_wf type content d' /\ entries d' ≡ₚ entries d.
Proof using Htype.
  intros Hwf Hne Hmax Hrnd. pose proof (wf_used type content d Hwf) as (_ & _ & Hsz). unfold dictGetRandomKey. rewrite Hsz.
  destruct (Z.eqb_spec (zlen (entries d)) 0) as [E|_]; [by apply zlen_nil_inv in E|].
  destruct (dict_step_ok type content Htype d Hwf) as (d1 & -> & Hwf1 & Hp & _). rewrite bind_Ok.
  assert (entries d1 <> []) as Hne1 by (intros E; rewrite E in Hp; by apply Permutation_nil_l in Hp).
  destruct (random_bucket_ok rnd fuel d1 n (wf_tables _ _ _ Hwf1) Hne1 Hrnd) as [->|(n' & b & R & -> & Hb & HR)]; [by left|].
  rewrite Hp in HR. assert (zlen b < 2 ^ 31) as Hlen.
  { rewrite (zlen_perm _ _ HR), zlen_app in Hmax. pose proof (zlen_nonneg R). lia. }
  right. rewrite bind_Ok. destruct (random_after d1 rnd n' b Hb Hlen (Hrnd n')) as (e & -> & _ & Hin).
  exists d1, (S n'), e. split; [done|]. split; [rewrite HR; apply elem_of_app; by left|]. done.
Qed.

(** [dictGetRandomKey] draws from the dictionary: whatever the generator
    gives, it returns an entry of the dictionary or goes on asking, never
    touching memory outside the tables; every entry can be the one drawn; and
    there is a number that ends the loop whenever the generator gives it. *)
Theorem dictGetRandomKey_correct d m :
  dict_repr type content d m -> m <> ∅ -> zlen (entries d) < 2 ^ 31 ->
  (forall rnd fuel n, (forall k, 0 <= rnd k) ->
     dictGetRandomKey type rnd fuel d n = OutOfFuel \/
     exists d' n' e, dictGetRandomKey type rnd fuel d n = Ok (d', n', Some e) /\ e ∈ entries d /\
       dict_repr type content d' m) /\
  (forall e, e ∈ entries d -> exists r1 r2, 0 <= r1 /\ 0 <= r2 /\ forall rnd fuel n,
     rnd n = r1 -> rnd (S n) = r2 -> exists d', dictGetRandomKey type rnd (S fuel) d n = Ok (d', S (S n), Some e)) /\
  (exists r, 0 <= r /\ forall rnd fuel n k, (forall k, 0 <= rnd k) -> (k < fuel)%nat -> rnd (n + k)%nat = r ->
     dictGetRandomKey type rnd fuel d n <> OutOfFuel).
Proof using Htype.
  intros [Hwf <-] Hm Hmax. assert (entries d <> []) as Hne by (intros E; apply Hm; by rewrite E). split.
  { intros rnd fuel n Hrnd. destruct (random_key_ok rnd fuel d n Hwf Hne Hmax Hrnd) as [?|(d' & n' & e & E & He & Hwf' & Hp)];
      [by left|]. right. exists d', n', e. split; [done|]. split; [done|]. split; [done|]. apply map_perm; [apply Hwf'|done]. }
  pose proof (wf_used type content d Hwf) as (_ & _ & Hsz). unfold dictGetRandomKey. rewrite Hsz.
  destruct (Z.eqb_spec (zlen (entries d)) 0) as [E|_]; [by apply zlen_nil_inv in E|].
  destruct (dict_step_ok type content Htype d Hwf) as (d1 & -> & Hwf1 & Hp & _).
  assert (entries d1 <> []) as Hne1 by (intros E; rewrite E in Hp; by apply Permutation_nil_l in Hp).
  assert (forall b R, entries d1 ≡ₚ b ++ R -> zlen b < 2 ^ 31) as Hlen.
  { intros b R HR. rewrite Hp in HR. rewrite (zlen_perm _ _ HR), zlen_app in Hmax. pose proof (zlen_nonneg R). lia. }
  pose proof (wf_tables _ _ _ Hwf1) as Ht1. setoid_rewrite bind_Ok. split.
  - intros e He. rewrite <- Hp in He. destruct (pick_reaches d1 e Ht1 He) as (r1 & b & Hr1 & Hpick & Hin).
    apply list_elem_of_lookup in Hin as Hpos. destruct Hpos as [pos Hpos]. exists r1, (Z.of_nat pos). split_and!; [done|lia|].
    intros rnd fuel n E1 E2. exists d1. cbn [random_bucket]. rewrite E1, Hpick, bind_Ok.
    pose proof (lookup_lt_Some _ _ _ Hpos) as Hlt.
    destruct (pick_ok d1 r1 Ht1 Hne1 Hr1) as (b' & R & Hb' & HR). rewrite Hpick in Hb'. injection Hb' as <-.
    destruct b as [|e0 b]; [done|]. rewrite bind_Ok.
    destruct (random_after d1 rnd (S n) (e0 :: b)) as (e' & -> & He' & _); [done|by eapply Hlen|lia|].
    rewrite E2, Z.mod_small, Nat2Z.id, Hpos in He' by (unfold zlen; lia). by injection He' as ->.
  - destruct (entries d1) as [|e l] eqn:El; [done|].
    destruct (pick_reaches d1 e Ht1) as (r & b & Hr & Hpick & Hin); [rewrite El; by left|].
    exists r. split; [done|]. intros rnd fuel n k Hrnd Hk Hrk. rewrite <- Hrk in Hpick. rewrite <- El in Hne1, Hlen.
    destruct (random_bucket_ok rnd fuel d1 n Ht1 Hne1 Hrnd) as [E|(n' & b' & R & -> & Hb & HR)].
    + exfalso. apply (random_bucket_hits rnd fuel d1 n k b) in E; try done. intros ->. by apply elem_of_nil in Hin.
    + rewrite bind_Ok. destruct (random_after d1 rnd n' b' Hb (Hlen b' R HR) (Hrnd n')) as (e' & -> & _). done.
Qed.

(** What the sampling loop keeps: entries of the dictionary, fewer than asked. *)
Definition sampled d (count : Z) (des : list (dictEntry K V)) : Prop :=
  (forall e, e ∈ des -> e ∈ entries d) /\ zlen des <= count.

Lemma some_visit_ok rnd d mask count s j :
  tables_wf type d -> (forall k, 0 <= rnd k) -> 0 <= mask -> (j = true -> dictIsRehashing d = true) ->
  0 <= sm_i s -> sampled d count (sm_des s) -> zlen (sm_des s) < count ->
  exists r, some_visit rnd d (dictIsRehashing d) mask count s j = Ok r /\
    match r with
    | inr des => sampled d count des
    | inl s' => 0 <= sm_i s' /\ sampled d count (sm_des s') /\ zlen (sm_des s') < count
    end.
Proof.
  intros Ht Hrnd Hmask Hj Hi [Hin Hle] Hlt. unfold some_visit. cbv zeta.
  set (skipped := dictIsRehashing d && negb j && (sm_i s <? rehashidx d)).
  destruct (skipped && _); [by exists (inl s)|].
  assert (0 <= (if skipped then rehashidx d else sm_i s)) as Hi'.
  { destruct skipped eqn:Hs; [|done]. apply andb_true_iff in Hs as [[Hr _]%andb_true_iff _].
    destruct (slots_ok d Ht Hr) as (_ & _ & _ & ? & _). lia. }
  set (i := if skipped then rehashidx d else sm_i s) in *. pose proof (iterable_of type d Ht) as Hd.
  rewrite <- (ib_size d Hd j), Z.geb_leb. destruct (Z.leb_spec (zlen (table_of (ht d j))) i) as [|Hlti]; [by eexists (inl _)|].
  destruct (bucket_table d j i ltac:(lia)) as (b & Hb & _). rewrite Hb, bind_Ok.
  destruct (bucket_part d j i b Hb) as [R HR]. destruct b as [|e b].
  - destruct ((sm_emptylen s + 1 >=? 5) && _); eexists (inl _); (split; [done|]); cbn; [|done].
    split; [|done]. apply Z.land_nonneg. by right.
  - set (he := e :: b) in *. assert (forall x, x ∈ he -> x ∈ entries d) as Hhe.
    { intros x Hx. rewrite HR. apply elem_of_app. by left. }
    destruct (Z.leb_spec (count - zlen (sm_des s)) (zlen he)) as [Hroom|Hroom].
    + eexists (inr _). split; [done|]. split.
      * intros x [Hx|Hx]%elem_of_app; [by apply Hin|]. apply Hhe. by eapply elem_of_take in Hx as (? & ? & _); eapply list_elem_of_lookup_2.
      * rewrite zlen_app, zlen_take by lia. lia.
    + eexists (inl _). split; [done|]. cbn. rewrite zlen_app. split; [done|]. split; [|lia]. split; [|rewrite zlen_app; lia].
      intros x [Hx|Hx]%elem_of_app; [by apply Hin|by apply Hhe].
Qed.

Lemma some_loop_ok rnd steps d mask count s :
  tables_wf type d -> (forall k, 0 <= rnd k) -> 0 <= mask -> 0 <= sm_i s -> sampled d count (sm_des s) ->
  exists des n, some_loop rnd steps d (dictIsRehashing d) mask count s = Ok (des, n) /\ sampled d count des.
Proof.
  intros Ht Hrnd Hmask. revert s. induction steps as [|steps IH]; intros s Hi Hs; cbn [some_loop]; [by eexists _, _|].
  destruct (Z.ltb_spec (zlen (sm_des s)) count) as [Hlt|]; [|by eexists _, _].
  destruct (some_visit_ok rnd d mask count s false) as (r & -> & Hr); try done. rewrite bind_Ok.
  destruct r as [s1|des]; [|by eexists _, _]. destruct Hr as (Hi1 & Hs1 & Hlt1).
  assert (exists r, (if dictIsRehashing d then some_visit rnd d (dictIsRehashing d) mask count s1 true else Ok (inl s1)) = Ok r /\
    match r with
    | inr des => sampled d count des
    | inl s' => 0 <= sm_i s' /\ sampled d count (sm_des s') /\ zlen (sm_des s') < count
    end) as (r & -> & Hr).
  { destruct (dictIsRehashing d) eqn:Hre; [rewrite <- Hre; by apply some_visit_ok|by exists (inl s1)]. }
  rewrite bind_Ok. destruct r as [s2|des]; [|by eexists _, _]. destruct Hr as (Hi2 & Hs2 & Hlt2).
  apply IH; [|done]. cbn. apply Z.land_nonneg. by right.
Qed.

Lemma some_rehash_ok n d :
  dict_wf type content d ->
  exists d', some_rehash type n d = Ok d' /\ dict_wf type content d' /\ entries d' ≡ₚ entries d.
Proof using Htype.
  revert d. induction n as [|n IH]; intros d Hwf; cbn [some_rehash]; [by exists d|].
  destruct (dict_step_ok type content Htype d Hwf) as (d1 & E & Hwf1 & Hp & _).
  destruct (dictIsRehashing d); [|by exists d]. rewrite E, bind_Ok.
  destruct (IH d1 Hwf1) as (d2 & -> & Hwf2 & Hp2). exists d2. by rewrite Hp2.
Qed.

Lemma mask_nonneg e : -1 <= e <= 60 -> 0 <= DICTHT_SIZE_MASK e.
Proof.
  intros He. destruct (decide (e = -1)) as [->|]; [done|]. rewrite mask_exp by lia.
  assert (0 < 2 ^ e) by (apply Z.pow_pos_nonneg; lia). lia.
Qed.

Lemma some_keys_ok rnd d count n :
  dict_wf type content d -> (forall k, 0 <= rnd k) -> 0 <= count ->
  exists d' n' des, dictGetSomeKeys type rnd d count n = Ok (d', n', des) /\ dict_wf type content d' /\
    entries d' ≡ₚ entries d /\ sampled d (Z.min count (zlen (entries d))) des.
Proof using Htype.
  intros Hwf Hrnd Hcount. pose proof (wf_used type content d Hwf) as (_ & _ & Hsz). unfold dictGetSomeKeys. rewrite Hsz.
  set (c := if zlen (entries d) <? count then zlen (entries d) else count).
  assert (c = Z.min count (zlen (entries d))) as Hc by (unfold c; destruct (Z.ltb_spec (zlen (entries d)) count); lia).
  destruct (some_rehash_ok (Z.to_nat c) d Hwf) as (d1 & -> & Hwf1 & Hp). rewrite bind_Ok.
  assert (forall i, 0 <= DICTHT_SIZE_MASK (ht_size_exp (ht d1 i))) as Hmask.
  { intros i. apply mask_nonneg. destruct (tables_shape type d1 i (wf_tables _ _ _ Hwf1)) as [->|(? & _ & ? & _)]; cbn; lia. }
  cbv zeta. match goal with |- context [some_loop _ _ _ _ ?m _ _] => set (mask := m) end.
  assert (0 <= mask) as Hm by (unfold mask; destruct (_ && _); [apply (Hmask true)|apply (Hmask false)]).
  assert (sampled d1 c []) as H0s by (split; [intros e He; by apply elem_of_nil in He|unfold zlen in *; cbn; lia]).
  destruct (some_loop_ok rnd (Z.to_nat (wrapU 32 (c * 10))) d1 mask c (Sampling (Z.land (rnd n) mask) 0 [] (S n)))
    as (des & n' & -> & Hin & Hle); try done; [apply (wf_tables _ _ _ Hwf1)|apply Z.land_nonneg; by right|].
  rewrite bind_Ok. exists d1, n', des. rewrite <- Hc. split; [done|]. split; [done|]. split; [done|]. split; [|done].
  intros e He. rewrite <- Hp. by apply Hin.
Qed.

(** [dictGetSomeKeys] ends after its bounded number of steps, stores at most
    [count] entries and at most as many as there are, so that [des] is never
    overrun, and each is an entry of the dictionary; [dictGetFairRandomKey]
    returns an entry of the dictionary or goes on drawing random buckets. *)
Theorem dictGetSomeKeys_correct rnd d m count fuel n :
  dict_repr type content d m -> (forall k, 0 <= rnd k) -> 0 <= count -> zlen (entries d) < 2 ^ 31 ->
  (exists d' n' des, dictGetSomeKeys type rnd d count n = Ok (d', n', des) /\ dict_repr type content d' m /\
     zlen des <= Z.min count (Z.of_nat (size m)) /\ forall e, e ∈ des -> e ∈ entries d) /\
  (m <> ∅ -> dictGetFairRandomKey type rnd fuel d n = OutOfFuel \/
     exists d' n' e, dictGetFairRandomKey type rnd fuel d n = Ok (d', n', Some e) /\ e ∈ entries d /\
       dict_repr type content d' m).
Proof using Htype.
  intros [Hwf <-] Hrnd Hcount Hmax. rewrite (repr_size type content d Hwf).
  assert (forall d', dict_wf type content d' -> entries d' ≡ₚ entries d ->
    dict_repr type content d' (to_map content (entries d))) as Hrepr.
  { intros d' Hwf' Hp. split; [done|]. apply map_perm; [apply Hwf'|done]. }
  split.
  { destruct (some_keys_ok rnd d count n Hwf Hrnd Hcount) as (d' & n' & des & -> & Hwf' & Hp & Hin & Hle).
    exists d', n', des. auto. }
  intros Hne. unfold dictGetFairRandomKey.
  destruct (some_keys_ok rnd d GETFAIR_NUM_ENTRIES n Hwf Hrnd) as (d1 & n1 & des & -> & Hwf1 & Hp & Hin & Hle); [done|].
  rewrite bind_Ok. destruct (Z.eqb_spec (zlen des) 0) as [E|E].
  - destruct (random_key_ok rnd fuel d1 n1 Hwf1) as [->|(d' & n' & e & -> & He & Hwf' & Hp')]; try done.
    + intros E1. rewrite E1 in Hp. apply Permutation_nil_l in Hp. by rewrite <- Hp in Hne.
    + by rewrite (zlen_perm _ _ Hp).
    + by left.
    + right. exists d', n', e. rewrite Hp in He, Hp'. auto.
  - right. destruct (random_entry des (rnd n1)) as (e & -> & He); [by intros ->|done|].
    exists d1, (S n1), e. auto.
Qed.

End Random.

(** * Examples *)

(** The sample dictionary in the middle and at the end of its rehash. *)
Definition rehashed (n : Z) : dict Z Z :=
  match dictRehash sample_type sample_dict n with Ok (d, _) => d | _ => dictCreate end.

Lemma sample_scannable : scannable sample_type id sample_dict.
Proof. split; [apply sample_dict_repr|by vm_compute]. Qed.

Lemma rehashed_scannable n : 0 <= n <= 2 ^ 27 -> scannable sample_type id (rehashed n).
Proof.
  intros Hn. destruct sample_scannable as [Hwf Hp]. unfold rehashed.
  destruct (rehash_ok sample_type id sample_type_ok sample_dict n Hwf Hn) as (d & -> & Hwf' & _ & Hpa & _).
  split; [done|]. by rewrite Hpa.
Qed.

Definition sample_states : list (dict Z Z) := [rehashed 1; sample_dict; rehashed 100; rehashed 100].

Lemma sample_states_scannable : Forall (scannable sample_type id) sample_states.
Proof.
  repeat apply Forall_cons_2; try apply Forall_nil_2; try apply sample_scannable; by apply rehashed_scannable.
Qed.

Lemma sample_states_key d : d ∈ sample_states -> exists e, e ∈ entries d /\ id (de_key e) = id 3.
Proof.
  intros Hd. exists (Entry 3 30). split; [|done].
  assert (Forall (fun d => existsb (fun e => (de_key e =? 3) && (de_val e =? 30)) (entries d) = true) sample_states) as Hall.
  { repeat apply Forall_cons_2; try apply Forall_nil_2; by vm_compute. }
  apply (proj1 (Forall_forall _ _) Hall), existsb_exists in Hd as ([k v] & Hin & Hkv).
  cbn in Hkv. zprop. subst. by apply list_elem_of_In.
Qed.

Lemma dictScan_complete_witness :
  exists r evs, scan_run false 0 sample_states = Ok (r, evs) /\
    (r = None -> exists e, e ∈ emitted evs /\ id (de_key e) = id 3).
Proof.
  apply (dictScan_complete sample_type id sample_type_ok); [apply sample_states_scannable|apply sample_states_key].
Defined.

Lemma dictScan_terminates_witness :
  Forall (fun d => scan_exp d <= 2) [sample_dict; rehashed 1; sample_dict; rehashed 1] /\
  exists evs, scan_run false 0 [sample_dict; rehashed 1; sample_dict; rehashed 1] = Ok (None, evs).
Proof.
  assert (Forall (fun d => scan_exp d <= 2) [sample_dict; rehashed 1; sample_dict; rehashed 1]) as Hexp.
  { repeat apply Forall_cons_2; try apply Forall_nil_2; by vm_compute. }
  split; [exact Hexp|]. apply (dictScan_terminates sample_type id sample_type_ok false _ 2); [done| |exact Hexp|done].
  repeat apply Forall_cons_2; try apply Forall_nil_2; try apply sample_scannable; by apply rehashed_scannable.
Defined.

Lemma dictScan_exact_witness :
  dictIsRehashing (rehashed 1) = true /\
  exists evs, scan_run true 0 (replicate (S (Z.to_nat (2 ^ scan_exp (rehashed 1)))) (rehashed 1)) = Ok (None, evs) /\
    emitted evs ≡ₚ entries (rehashed 1).
Proof.
  split; [by vm_compute|]. apply (dictScan_exact sample_type id sample_type_ok). by apply rehashed_scannable.
Defined.

Lemma dictNext_visits_witness :
  dictIsRehashing (rehashed 1) = true /\
  exists d' it', iterate 8 16 (S (length (entries (rehashed 1)))) (rehashed 1) dictGetSafeIterator
      = Ok (d', it', entries (rehashed 1)) /\
    dictReleaseIterator 8 16 d' it' = Ok (rehashed 1).
Proof.
  split; [by vm_compute|]. apply (dictNext_visits sample_type id 8 16 (rehashed 1) true).
  - by apply rehashed_scannable.
  - by apply rehashed_scannable.
Defined.

Lemma sample_map_ne : to_map id (entries sample_dict) <> ∅.
Proof.
  intros E. apply (f_equal (fun m => m !! 3)) in E. rewrite lookup_empty in E. vm_compute in E. discriminate.
Qed.

Lemma dictGetRandomKey_witness :
  exists r, 0 <= r /\ forall rnd fuel n k, (forall k, 0 <= rnd k) -> (k < fuel)%nat -> rnd (n + k)%nat = r ->
    dictGetRandomKey sample_type rnd fuel sample_dict n <> OutOfFuel.
Proof.
  apply (dictGetRandomKey_correct sample_type id sample_type_ok sample_dict (to_map id (entries sample_dict))).
  - apply sample_dict_repr.
  - apply sample_map_ne.
  - by vm_compute.
Defined.

Lemma dictGetSomeKeys_witness :
  exists d' n' des, dictGetSomeKeys sample_type (fun k => Z.of_nat k * 7) sample_dict 3 0 = Ok (d', n', des) /\
    dict_repr sample_type id d' (to_map id (entries sample_dict)) /\
    zlen des <= Z.min 3 (Z.of_nat (size (to_map id (entries sample_dict)))) /\
    forall e, e ∈ des -> e ∈ entries sample_dict.
Proof.
  apply (dictGetSomeKeys_correct sample_type id sample_type_ok (fun k => Z.of_nat k * 7) sample_dict
           (to_map id (entries sample_dict)) 3 1 0).
  - apply sample_dict_repr.
  - intros k. lia.
  - done.
  - by vm_compute.
Defined.
