(* ===== verification/Bitops.v ===== *)
(** Bitmaps: the low-level functions of bitops.c.

    A string is a bitmap whose bit 0 is the most significant bit of the first
    byte.  The counting and searching functions read whole words where the
    address allows it, so they get the address of the string; the bit-field
    functions read and write integers of up to 64 bits at any bit offset.  The
    bitmap is specified by the list of its bits. *)

From S2P Require Import Prelude Endian.
From stdpp Require Import list.

Open Scope Z_scope.

(** * Counting *)

Definition bitsinbyte : list Z :=
  [0;1;1;2;1;2;2;3;1;2;2;3;2;3;3;4;1;2;2;3;2;3;3;4;2;3;3;4;3;4;4;5;
   1;2;2;3;2;3;3;4;2;3;3;4;3;4;4;5;2;3;3;4;3;4;4;5;3;4;4;5;4;5;5;6;
   1;2;2;3;2;3;3;4;2;3;3;4;3;4;4;5;2;3;3;4;3;4;4;5;3;4;4;5;4;5;5;6;
   2;3;3;4;3;4;4;5;3;4;4;5;4;5;5;6;3;4;4;5;4;5;5;6;4;5;5;6;5;6;6;7;
   1;2;2;3;2;3;3;4;2;3;3;4;3;4;4;5;2;3;3;4;3;4;4;5;3;4;4;5;4;5;5;6;
   2;3;3;4;3;4;4;5;3;4;4;5;4;5;5;6;3;4;4;5;4;5;5;6;4;5;5;6;5;6;6;7;
   2;3;3;4;3;4;4;5;3;4;4;5;4;5;5;6;3;4;4;5;4;5;5;6;4;5;5;6;5;6;6;7;
   3;4;4;5;4;5;5;6;4;5;5;6;5;6;6;7;4;5;5;6;5;6;6;7;5;6;6;7;6;7;7;8].

(** [bitsinbyte[*p]] *)
Definition byte_bits (s : list Z) (i : Z) : res Z :=
  c ← rd1 s i;
  match bitsinbyte !! Z.to_nat c with Some n => Ok n | None => Fault end.

(** The first two foldings of one word, and the third. *)
Definition popcount_fold (aux : Z) : Z :=
  let aux := wrapU 32 (aux - Z.land (Z.shiftr aux 1) 0x55555555) in
  wrapU 32 (Z.land aux 0x33333333 + Z.land (Z.shiftr aux 2) 0x33333333).
Definition popcount_nibbles (aux : Z) : Z :=
  Z.land (wrapU 32 (aux + Z.shiftr aux 4)) 0x0F0F0F0F.

Section Scan.
Context `{Host}.
(** The string and its address. *)
Context (addr : Z) (s : list Z).

(** A word of [n] bytes at the offset [i]. *)
Definition word_at (i : Z) (n : Z) : res Z := bs ← rd s i n; Ok (host_val bs).

(** Bytes before an aligned address. *)
Fixpoint popcount_head (fuel : nat) (i count bits : Z) : res (Z * Z * Z) :=
  match fuel with
  | O => OutOfFuel
  | S fuel =>
      if negb (Z.land (addr + i) 3 =? 0) && negb (count =? 0) then
        b ← byte_bits s i;
        bits ← sint 64 (bits + b);
        popcount_head fuel (i + 1) (count - 1) bits
      else Ok (i, count, bits)
  end.

(** 28 bytes at a time. *)
Fixpoint popcount_words (fuel : nat) (i count bits : Z) : res (Z * Z * Z) :=
  match fuel with
  | O => OutOfFuel
  | S fuel =>
      if count >=? 28 then
        aux1 ← word_at i 4;
        aux2 ← word_at (i + 4) 4;
        aux3 ← word_at (i + 8) 4;
        aux4 ← word_at (i + 12) 4;
        aux5 ← word_at (i + 16) 4;
        aux6 ← word_at (i + 20) 4;
        aux7 ← word_at (i + 24) 4;
        let sum :=
          wrapU 32 (popcount_nibbles (popcount_fold aux1) + popcount_nibbles (popcount_fold aux2) +
                    popcount_nibbles (popcount_fold aux3) + popcount_nibbles (popcount_fold aux4) +
                    popcount_nibbles (popcount_fold aux5) + popcount_nibbles (popcount_fold aux6) +
                    popcount_nibbles (popcount_fold aux7)) in
        bits ← sint 64 (bits + Z.shiftr (wrapU 32 (sum * 0x01010101)) 24);
        popcount_words fuel (i + 28) (count - 28) bits
      else Ok (i, count, bits)
  end.

(** The remaining bytes. *)
Fixpoint popcount_tail (fuel : nat) (i count bits : Z) : res Z :=
  match fuel with
  | O => OutOfFuel
  | S fuel =>
      if count =? 0 then Ok bits
      else
        b ← byte_bits s i;
        bits ← sint 64 (bits + b);
        popcount_tail fuel (i + 1) (count - 1) bits
  end.

(** The bits set in the [count] bytes at [i]. *)
Definition redisPopcount (i count : Z) : res Z :=
  let fuel := S (Z.to_nat count) in
  '(i, count, bits) ← popcount_head fuel i count 0;
  '(i, count, bits) ← popcount_words fuel i count bits;
  popcount_tail fuel i count bits.

(** * Searching *)

(** Bytes before an aligned address; the last component is [found]. *)
Fixpoint bitpos_head (fuel : nat) (skipval i count pos : Z) : res (Z * Z * Z * bool) :=
  match fuel with
  | O => OutOfFuel
  | S fuel =>
      if negb (Z.land (addr + i) (8 - 1) =? 0) && negb (count =? 0) then
        c ← rd1 s i;
        if negb (c =? skipval) then Ok (i, count, pos, true)
        else bitpos_head fuel skipval (i + 1) (count - 1) (pos + 8)
      else Ok (i, count, pos, false)
  end.

Fixpoint bitpos_words (fuel : nat) (skipval i count pos : Z) : res (Z * Z * Z) :=
  match fuel with
  | O => OutOfFuel
  | S fuel =>
      if count >=? 8 then
        l ← word_at i 8;
        if negb (l =? skipval) then Ok (i, count, pos)
        else bitpos_words fuel skipval (i + 8) (count - 8) (pos + 8 * 8)
      else Ok (i, count, pos)
  end.

(** Up to 8 bytes loaded, the first as the most significant. *)
Fixpoint bitpos_load (j : nat) (i count word : Z) : res Z :=
  match j with
  | O => Ok word
  | S j =>
      let word := wrapU 64 (Z.shiftl word 8) in
      if negb (count =? 0) then
        c ← rd1 s i;
        bitpos_load j (i + 1) (count - 1) (Z.lor word c)
      else bitpos_load j i count word
  end.

(** The scan of the last word, by the mask [one]. *)
Fixpoint bitpos_bits (fuel : nat) (word one pos : Z) (bit : bool) : res Z :=
  match fuel with
  | O => OutOfFuel
  | S fuel =>
      if one =? 0 then Panic
      else if eqb (negb (Z.land one word =? 0)) bit then Ok pos
      else bitpos_bits fuel word (Z.shiftr one 1) (pos + 1) bit
  end.

(** The position of the first bit equal to [bit] in the [count] bytes at [i]. *)
Definition redisBitpos (i count : Z) (bit : bool) : res Z :=
  let fuel := S (Z.to_nat count) in
  '(i, count, pos, found) ← bitpos_head fuel (if bit then 0 else 255) i count 0;
  '(i, count, pos) ←
    (if negb found then bitpos_words fuel (if bit then 0 else 2 ^ 64 - 1) i count pos
     else Ok (i, count, pos));
  word ← bitpos_load 8 i count 0;
  if bit && (word =? 0) then Ok (-1)
  else
    let one := Z.shiftr (2 ^ 64 - 1) 1 in
    let one := Z.lxor one (2 ^ 64 - 1) in
    bitpos_bits 65 word one pos bit.

End Scan.

(** * Bit fields *)

(** The loop of [setUnsignedBitfield]; [n] is [bits - j]. *)
Fixpoint setUnsignedBitfield_loop (n : nat) (p : list Z) (offset value : Z) : res (list Z) :=
  match n with
  | O => Ok p
  | S n =>
      let bitval := negb (Z.land value (Z.shiftl 1 (Z.of_nat n)) =? 0) in
      let byte := Z.shiftr offset 3 in
      let bit := 7 - Z.land offset 7 in
      byteval ← rd1 p byte;
      let byteval := Z.land byteval (Z.lnot (Z.shiftl 1 bit)) in
      let byteval := Z.lor byteval (Z.shiftl (Z.b2z bitval) bit) in
      p ← wr p byte [Z.land byteval 255];
      setUnsignedBitfield_loop n p (wrapU 64 (offset + 1)) value
  end.

Definition setUnsignedBitfield (p : list Z) (offset bits value : Z) : res (list Z) :=
  setUnsignedBitfield_loop (Z.to_nat bits) p offset value.

Definition setSignedBitfield (p : list Z) (offset bits value : Z) : res (list Z) :=
  let uv := wrapU 64 value in
  setUnsignedBitfield p offset bits uv.

Fixpoint getUnsignedBitfield_loop (n : nat) (p : list Z) (offset value : Z) : res Z :=
  match n with
  | O => Ok value
  | S n =>
      let byte := Z.shiftr offset 3 in
      let bit := 7 - Z.land offset 7 in
      byteval ← rd1 p byte;
      let bitval := Z.land (Z.shiftr byteval bit) 1 in
      getUnsignedBitfield_loop n p (wrapU 64 (offset + 1)) (Z.lor (wrapU 64 (Z.shiftl value 1)) bitval)
  end.

Definition getUnsignedBitfield (p : list Z) (offset bits : Z) : res Z :=
  getUnsignedBitfield_loop (Z.to_nat bits) p offset 0.

Definition getSignedBitfield (p : list Z) (offset bits : Z) : res Z :=
  u ← getUnsignedBitfield p offset bits;
  let value := wrapS 64 u in
  if (bits <? 64) && negb (Z.land (wrapU 64 value) (Z.shiftl 1 (bits - 1)) =? 0)
  then Ok (wrapS 64 (Z.lor (wrapU 64 value) (wrapU 64 (Z.shiftl (2 ^ 64 - 1) bits))))
  else Ok value.

Inductive owtype := BFOVERFLOW_WRAP | BFOVERFLOW_SAT | BFOVERFLOW_FAIL.

(** The result, and what is stored through [limit]. *)
Definition checkUnsignedBitfieldOverflow (value incr bits : Z) (ow : owtype) : res (Z * option Z) :=
  let max := if bits =? 64 then UINT64_MAX else wrapU 64 (Z.shiftl 1 bits) - 1 in
  let maxincr := wrapS 64 (max - value) in
  let minincr := wrapS 64 (- value) in
  let handle_wrap :=
    inbounds! bits <? 64;
    let mask := wrapU 64 (Z.shiftl (2 ^ 64 - 1) bits) in
    let res := wrapU 64 (value + incr) in
    let res := Z.land res (Z.lxor mask (2 ^ 64 - 1)) in
    Ok (1, Some res) in
  if (value >? max) || ((incr >? 0) && (incr >? maxincr)) then
    match ow with
    | BFOVERFLOW_WRAP => handle_wrap
    | BFOVERFLOW_SAT => Ok (1, Some max)
    | BFOVERFLOW_FAIL => Ok (1, None)
    end
  else if (incr <? 0) && (incr <? minincr) then
    match ow with
    | BFOVERFLOW_WRAP => handle_wrap
    | BFOVERFLOW_SAT => Ok (-1, Some 0)
    | BFOVERFLOW_FAIL => Ok (-1, None)
    end
  else Ok (0, None).

Definition checkSignedBitfieldOverflow (wrapv : bool) (value incr bits : Z) (ow : owtype) : res (Z * option Z) :=
  let max := if bits =? 64 then INT64_MAX else Z.shiftl 1 (bits - 1) - 1 in
  let min := - max - 1 in
  let maxincr := wrapS 64 (max - value) in
  minincr ← arith64 wrapv (min - value);
  let handle_wrap :=
    let msb := Z.shiftl 1 (bits - 1) in
    let c := wrapU 64 (wrapU 64 value + wrapU 64 incr) in
    let c :=
      if bits <? 64 then
        let mask := wrapU 64 (Z.shiftl (2 ^ 64 - 1) bits) in
        if negb (Z.land c msb =? 0) then Z.lor c mask else Z.land c (Z.lxor mask (2 ^ 64 - 1))
      else c in
    Ok (1, Some (wrapS 64 c)) in
  if (value >? max) || (negb (bits =? 64) && (incr >? maxincr)) ||
     ((value >=? 0) && (incr >? 0) && (incr >? maxincr)) then
    match ow with
    | BFOVERFLOW_WRAP => handle_wrap
    | BFOVERFLOW_SAT => Ok (1, Some max)
    | BFOVERFLOW_FAIL => Ok (1, None)
    end
  else if (value <? min) || (negb (bits =? 64) && (incr <? minincr)) ||
          ((value <? 0) && (incr <? 0) && (incr <? minincr)) then
    match ow with
    | BFOVERFLOW_WRAP => handle_wrap
    | BFOVERFLOW_SAT => Ok (-1, Some min)
    | BFOVERFLOW_FAIL => Ok (-1, None)
    end
  else Ok (0, None).

(** * Specification *)

(** The bits of a byte, the most significant first, and of a string. *)
Definition byte_to_bits (b : Z) : list bool := (fun k => Z.testbit b k) <$> [7; 6; 5; 4; 3; 2; 1; 0].
Definition bits_of (s : list Z) : list bool := s ≫= byte_to_bits.

(** The number of set bits. *)
Definition count_ones (l : list bool) : Z := zlen (filter (fun b => b = true) l).

(** The position of the first bit equal to [bit], from [pos] on. *)
Fixpoint first_bit (bit : bool) (pos : Z) (l : list bool) : option Z :=
  match l with
  | [] => None
  | b :: l => if eqb b bit then Some pos else first_bit bit (pos + 1) l
  end.

(** The unsigned value of a list of bits, the most significant first. *)
Definition bits_val (l : list bool) : Z := foldl (fun v b => 2 * v + Z.b2z b) 0 l.

(** The [n] low bits of a value, the most significant first. *)
Fixpoint val_bits (n : nat) (v : Z) : list bool :=
  match n with
  | O => []
  | S n => Z.testbit v (Z.of_nat n) :: val_bits n v
  end.

(** [n] elements from the position [i]. *)
Definition sub {A} (l : list A) (i n : Z) : list A := take (Z.to_nat n) (drop (Z.to_nat i) l).

(** * Lemmas on lists of bits *)

Lemma sub_app {A} (l : list A) i n k :
  0 <= i -> 0 <= k <= n -> sub l i n = sub l i k ++ sub l (i + k) (n - k).
Proof.
  intros Hi Hk. unfold sub. replace (Z.to_nat (i + k)) with (Z.to_nat i + Z.to_nat k)%nat by lia.
  rewrite <- drop_drop. replace (Z.to_nat n) with (Z.to_nat k + Z.to_nat (n - k))%nat by lia.
  set (m := drop (Z.to_nat i) l). rewrite <- (take_drop (Z.to_nat k) m) at 1.
  destruct (decide (Z.to_nat k <= length m)%nat) as [Hle|Hgt].
  - rewrite take_app_add'; [done|]. rewrite length_take. lia.
  - rewrite (drop_ge m) by lia. rewrite app_nil_r, take_nil, app_nil_r. rewrite !take_ge; [done|lia|rewrite length_take; lia].
Qed.

Lemma zlen_sub {A} (l : list A) i n : 0 <= i -> 0 <= n -> i + n <= zlen l -> zlen (sub l i n) = n.
Proof. intros. unfold sub, zlen in *. rewrite length_take, length_drop. lia. Qed.

Lemma sub_1 {A} (l : list A) i x : 0 <= i -> l !! Z.to_nat i = Some x -> sub l i 1 = [x].
Proof. intros Hi Hx. unfold sub. by rewrite (drop_S _ _ _ Hx). Qed.

Lemma bits_of_app s t : bits_of (s ++ t) = bits_of s ++ bits_of t.
Proof. apply bind_app. Qed.

Lemma bits_of_cons b s : bits_of (b :: s) = byte_to_bits b ++ bits_of s.
Proof. done. Qed.

Lemma length_bits_of s : length (bits_of s) = (8 * length s)%nat.
Proof. induction s as [|b s IH]; [done|]. rewrite bits_of_cons, length_app, IH. cbn. lia. Qed.

Lemma zlen_bits_of s : zlen (bits_of s) = 8 * zlen s.
Proof. unfold zlen. rewrite length_bits_of. lia. Qed.

Lemma count_ones_app l k : count_ones (l ++ k) = count_ones l + count_ones k.
Proof. unfold count_ones. by rewrite filter_app, zlen_app. Qed.

Lemma count_ones_range l : 0 <= count_ones l <= zlen l.
Proof.
  unfold count_ones. pose proof (zlen_nonneg (filter (fun b => b = true) l)).
  pose proof (length_filter (fun b => b = true) l). unfold zlen in *. lia.
Qed.

(** The bits set in a byte. *)
Definition pop (b : Z) : Z := count_ones (byte_to_bits b).

Lemma pop_range b : 0 <= pop b <= 8.
Proof. apply (count_ones_range (byte_to_bits b)). Qed.

Lemma ones_bytes s : count_ones (bits_of s) = foldr (fun b n => pop b + n) 0 s.
Proof. induction s as [|b s IH]; [done|]. cbn [foldr]. by rewrite <- IH, bits_of_cons, count_ones_app. Qed.

(** * Counting *)

Lemma byte_bits_ok s i b : 0 <= i -> s !! Z.to_nat i = Some b -> is_byte b -> byte_bits s i = Ok (pop b).
Proof.
  intros Hi Hb Hr. unfold byte_bits, rd1. ztrue (0 <=? i). rewrite Hb, bind_Ok.
  pose (f b := match bitsinbyte !! Z.to_nat b with Some n => n =? pop b | None => false end).
  assert (f b = true) as Hf by (apply (all_below 256); [by vm_compute|exact Hr]). unfold f in Hf.
  destruct (bitsinbyte !! Z.to_nat b); [|done]. by apply Z.eqb_eq in Hf as ->.
Qed.

Lemma bit_split u v i :
  0 <= u < 256 -> 0 <= i -> Z.testbit (u + 256 * v) i = if i <? 8 then Z.testbit u i else Z.testbit v (i - 8).
Proof.
  intros Hu Hi. replace (u + 256 * v) with (u + v * 2 ^ 8) by lia. rewrite <- lor_shiftl by lia.
  rewrite Z.lor_spec, Z.shiftl_spec by done. destruct (Z.ltb_spec i 8).
  - rewrite (Z.testbit_neg_r v) by lia. by rewrite orb_false_r.
  - replace (Z.testbit u i) with false; [done|]. symmetry.
    destruct (decide (u = 0)) as [->|]; [apply Z.bits_0|]. apply Z.bits_above_log2; [lia|].
    assert (Z.log2 u < 8) by (apply Z.log2_lt_pow2; lia). lia.
Qed.

Lemma land_le_r x m : 0 <= m -> 0 <= Z.land x m <= m.
Proof.
  intros Hm. split; [apply Z.land_nonneg; by right|]. apply Z.ldiff_le; [done|]. apply Z.bits_inj'. intros i Hi.
  rewrite Z.ldiff_spec, Z.land_spec, Z.bits_0. by destruct (Z.testbit x i), (Z.testbit m i).
Qed.

(** Shifting and masking acts on the bytes one by one when the mask keeps out what
    is shifted in. *)
Lemma land_shift_byte a b m M k :
  0 <= a < 256 -> 0 <= k <= 8 -> 0 <= m < 2 ^ (8 - k) ->
  Z.land (Z.shiftr (a + 256 * b) k) (m + 256 * M) = Z.land (Z.shiftr a k) m + 256 * Z.land (Z.shiftr b k) M.
Proof.
  intros Ha Hk Hm. assert (2 ^ (8 - k) <= 2 ^ 8) by (apply Z.pow_le_mono_r; lia).
  assert (forall i, 8 - k <= i -> Z.testbit m i = false) as Hhigh.
  { intros i Hi. destruct (decide (m = 0)) as [->|]; [apply Z.bits_0|]. apply Z.bits_above_log2; [lia|].
    assert (Z.log2 m < 8 - k) by (apply Z.log2_lt_pow2; lia). lia. }
  assert (0 <= Z.land (Z.shiftr a k) m < 256) as Hr.
  { pose proof (land_le_r (Z.shiftr a k) m). lia. }
  apply Z.bits_inj'. intros i Hi.
  rewrite Z.land_spec, Z.shiftr_spec, !bit_split by lia. destruct (Z.ltb_spec i 8).
  - rewrite Z.land_spec, Z.shiftr_spec by done. destruct (Z.ltb_spec (i + k) 8); [done|]. by rewrite Hhigh, !andb_false_r by lia.
  - destruct (Z.ltb_spec (i + k) 8); [lia|]. rewrite Z.land_spec, Z.shiftr_spec by lia.
    do 2 f_equal. lia.
Qed.

(** ** The folding of one word *)

(** What each folding makes of a byte. *)
Definition fold1 (b : Z) : Z := b - Z.land (Z.shiftr b 1) 0x55.
Definition fold2 (b : Z) : Z := Z.land b 0x33 + Z.land (Z.shiftr b 2) 0x33.

Lemma fold_byte b : is_byte b ->
  0 <= fold1 b < 256 /\ 0 <= fold2 (fold1 b) < 256 /\ fold2 (fold1 b) / 16 <= 4 /\ fold2 (fold1 b) mod 16 <= 4 /\
  fold2 (fold1 b) / 16 + fold2 (fold1 b) mod 16 = pop b.
Proof.
  intros Hb.
  pose (f b := (0 <=? fold1 b) && (fold1 b <? 256) && (0 <=? fold2 (fold1 b)) && (fold2 (fold1 b) <? 256) &&
    (fold2 (fold1 b) / 16 <=? 4) && (fold2 (fold1 b) mod 16 <=? 4) &&
    (fold2 (fold1 b) / 16 + fold2 (fold1 b) mod 16 =? pop b)).
  assert (f b = true) as Hf by (apply (all_below 256); [by vm_compute|exact Hb]). unfold f in Hf. zprop. tauto.
Qed.

Lemma land_shift_word a b c d m k :
  is_byte a -> is_byte b -> is_byte c -> is_byte d -> 0 <= k <= 8 -> 0 <= m < 2 ^ (8 - k) ->
  Z.land (Z.shiftr (le_val [a; b; c; d]) k) (le_val [m; m; m; m]) =
  le_val [Z.land (Z.shiftr a k) m; Z.land (Z.shiftr b k) m; Z.land (Z.shiftr c k) m; Z.land (Z.shiftr d k) m].
Proof.
  intros Ha Hb Hc Hd Hk Hm. cbn [le_val]. rewrite !land_shift_byte by done.
  rewrite Z.shiftr_0_l. by rewrite Z.land_0_l.
Qed.

Lemma fold_word_1 a b c d :
  is_byte a -> is_byte b -> is_byte c -> is_byte d ->
  popcount_fold (le_val [a; b; c; d]) =
  le_val [fold2 (fold1 a); fold2 (fold1 b); fold2 (fold1 c); fold2 (fold1 d)].
Proof.
  intros Ha Hb Hc Hd. unfold popcount_fold.
  change 0x55555555 with (le_val [0x55; 0x55; 0x55; 0x55]). change 0x33333333 with (le_val [0x33; 0x33; 0x33; 0x33]).
  rewrite land_shift_word by (done || lia).
  pose proof (fold_byte a Ha) as (Ra & Sa & _). pose proof (fold_byte b Hb) as (Rb & Sb & _).
  pose proof (fold_byte c Hc) as (Rc & Sc & _). pose proof (fold_byte d Hd) as (Rd & Sd & _).
  assert (wrapU 32 (le_val [a; b; c; d] - le_val [Z.land (Z.shiftr a 1) 0x55; Z.land (Z.shiftr b 1) 0x55;
     Z.land (Z.shiftr c 1) 0x55; Z.land (Z.shiftr d 1) 0x55]) = le_val [fold1 a; fold1 b; fold1 c; fold1 d]) as ->.
  { unfold fold1 in *. rewrite wrapU_small; cbn [le_val]; lia. }
  rewrite <- (Z.shiftr_0_r (le_val [fold1 a; fold1 b; fold1 c; fold1 d])) at 1.
  rewrite !land_shift_word by (done || lia). rewrite !Z.shiftr_0_r.
  unfold fold2 in *. rewrite wrapU_small; cbn [le_val]; lia.
Qed.

Lemma fold_word a b c d :
  is_byte a -> is_byte b -> is_byte c -> is_byte d ->
  popcount_nibbles (popcount_fold (le_val [a; b; c; d])) = le_val [pop a; pop b; pop c; pop d].
Proof.
  intros Ha Hb Hc Hd. rewrite fold_word_1 by done.
  pose proof (fold_byte a Ha) as (_ & Sa & Xa & Ya & Pa). pose proof (fold_byte b Hb) as (_ & Sb & Xb & Yb & Pb).
  pose proof (fold_byte c Hc) as (_ & Sc & Xc & Yc & Pc). pose proof (fold_byte d Hd) as (_ & Sd & Xd & Yd & Pd).
  revert Sa Xa Ya Pa Sb Xb Yb Pb Sc Xc Yc Pc Sd Xd Yd Pd.
  generalize (fold2 (fold1 a)) (fold2 (fold1 b)) (fold2 (fold1 c)) (fold2 (fold1 d)). intros w x y z. intros.
  unfold popcount_nibbles. rewrite Z.shiftr_div_pow2 by lia.
  set (s0 := w + w / 16 + 16 * (x mod 16)). set (s1 := x + x / 16 + 16 * (y mod 16)).
  set (s2 := y + y / 16 + 16 * (z mod 16)). set (s3 := z + z / 16).
  assert (wrapU 32 (le_val [w; x; y; z] + le_val [w; x; y; z] / 2 ^ 4) = le_val [s0; s1; s2; s3]) as ->.
  { assert (le_val [w; x; y; z] / 2 ^ 4 = le_val [w / 16 + 16 * (x mod 16); x / 16 + 16 * (y mod 16);
      y / 16 + 16 * (z mod 16); z / 16]) as ->. { cbn [le_val]. zdiv. }
    unfold s0, s1, s2, s3. rewrite wrapU_small; cbn [le_val]; zdiv. }
  change 0x0F0F0F0F with (le_val [15; 15; 15; 15]). rewrite <- (Z.shiftr_0_r (le_val [s0; s1; s2; s3])).
  rewrite land_shift_word by (unfold is_byte, s0, s1, s2, s3; zdiv || lia).
  rewrite !Z.shiftr_0_r. change 15 with (2 ^ 4 - 1). rewrite !land_mask by lia. f_equal.
  unfold s0, s1, s2, s3. repeat f_equal; zdiv.
Qed.

Section ScanLemmas.
Context `{Host} (addr : Z) (s : list Z) (Hs : Forall is_byte s).

Lemma sub_bytes i n : Forall is_byte (sub s i n).
Proof using Hs. apply Forall_take, Forall_drop, Hs. Qed.

Lemma sub_cons i : 0 <= i < zlen s -> exists b, s !! Z.to_nat i = Some b /\ is_byte b /\ sub s i 1 = [b].
Proof using Hs.
  intros Hi. destruct (lookup_lt_is_Some_2 s (Z.to_nat i)) as [b Hb]; [unfold zlen in Hi; lia|].
  exists b. split; [done|]. split; [exact (Forall_lookup_1 _ _ _ _ Hs Hb)|]. apply sub_1; [lia|done].
Qed.

(** One byte more. *)
Lemma count_step i n :
  0 <= i -> 0 < n -> i + n <= zlen s ->
  exists b, byte_bits s i = Ok (pop b) /\ count_ones (bits_of (sub s i n)) = pop b + count_ones (bits_of (sub s (i + 1) (n - 1))).
Proof using Hs.
  intros Hi Hn Hle. destruct (sub_cons i ltac:(lia)) as (b & Hb & Hr & Hsub). exists b.
  split; [by apply byte_bits_ok|]. rewrite (sub_app s i n 1) by lia. rewrite Hsub. cbn [app].
  by rewrite bits_of_cons, count_ones_app.
Qed.

Lemma word_at_ok i n : 0 <= i -> 0 <= n -> i + n <= zlen s -> word_at s i n = Ok (host_val (sub s i n)).
Proof using.
  intros Hi Hn Hle. unfold word_at, rd. ztrue (0 <=? i). ztrue (0 <=? n). ztrue (i + n <=? zlen s).
  cbn [andb]. by rewrite bind_Ok.
Qed.

Lemma word_pop i :
  0 <= i -> i + 4 <= zlen s ->
  exists w a b c d, word_at s i 4 = Ok w /\ popcount_nibbles (popcount_fold w) = le_val [a; b; c; d] /\
    0 <= a <= 8 /\ 0 <= b <= 8 /\ 0 <= c <= 8 /\ 0 <= d <= 8 /\ a + b + c + d = count_ones (bits_of (sub s i 4)).
Proof using Hs.
  intros Hi Hle. rewrite word_at_ok by lia. pose proof (zlen_sub s i 4 Hi ltac:(lia) Hle) as Hl.
  pose proof (sub_bytes i 4) as Hb. destruct (sub s i 4) as [|a [|b [|c [|d [|]]]]]; try (unfold zlen in Hl; cbn in Hl; lia).
  rewrite !Forall_cons in Hb. destruct Hb as (Ha & Hb & Hc & Hd & _). rewrite ones_bytes. cbn [foldr].
  pose proof (pop_range a). pose proof (pop_range b). pose proof (pop_range c). pose proof (pop_range d).
  unfold host_val. destruct big_endian.
  - exists (le_val [d; c; b; a]), (pop d), (pop c), (pop b), (pop a). rewrite fold_word by done. split_and!; done || lia.
  - exists (le_val [a; b; c; d]), (pop a), (pop b), (pop c), (pop d). rewrite fold_word by done. split_and!; done || lia.
Qed.

Lemma count_split i n k :
  0 <= i -> 0 <= k <= n -> count_ones (bits_of (sub s i n)) =
  count_ones (bits_of (sub s i k)) + count_ones (bits_of (sub s (i + k) (n - k))).
Proof using. intros. by rewrite (sub_app s i n k), bits_of_app, count_ones_app by lia. Qed.

Lemma count_sub_0 i : count_ones (bits_of (sub s i 0)) = 0.
Proof using. done. Qed.

Lemma popcount_head_ok fuel i count bits :
  0 <= i -> 0 <= count -> i + count <= zlen s -> 0 <= bits -> bits + 8 * count < 2 ^ 63 -> count < Z.of_nat fuel ->
  exists k b, popcount_head addr s fuel i count bits = Ok (i + k, count - k, b) /\ 0 <= k <= count /\
    b = bits + count_ones (bits_of (sub s i k)).
Proof using Hs.
  revert i count bits. induction fuel as [|fuel IH]; intros i count bits Hi Hc Hle Hb Hmax Hf; [lia|].
  cbn [popcount_head]. destruct (negb _ && negb (count =? 0)) eqn:E.
  - apply andb_true_iff in E as [_ Hne%negb_true_iff%Z.eqb_neq]. 
    destruct (count_step i 1 Hi ltac:(lia) ltac:(lia)) as (b & -> & Hone). pose proof (pop_range b).
    rewrite bind_Ok, sint_ok, bind_Ok by lia.
    destruct (IH (i + 1) (count - 1) (bits + pop b)) as (k & b' & -> & Hk & ->); try lia.
    exists (k + 1), (bits + count_ones (bits_of (sub s i (k + 1)))). split; [|split; [lia|done]].
    rewrite (count_split i (k + 1) 1) by lia. replace (k + 1 - 1) with k by lia.
    replace (i + (k + 1)) with (i + 1 + k) by lia. replace (count - (k + 1)) with (count - 1 - k) by lia.
    do 2 f_equal. rewrite count_sub_0 in Hone. lia.
  - exists 0, bits. rewrite Z.add_0_r, Z.sub_0_r. split; [done|]. split; [lia|]. rewrite count_sub_0. lia.
Qed.

Lemma popcount_tail_ok fuel i count bits :
  0 <= i -> 0 <= count -> i + count <= zlen s -> 0 <= bits -> bits + 8 * count < 2 ^ 63 -> count < Z.of_nat fuel ->
  popcount_tail s fuel i count bits = Ok (bits + count_ones (bits_of (sub s i count))).
Proof using Hs.
  revert i count bits. induction fuel as [|fuel IH]; intros i count bits Hi Hc Hle Hb Hmax Hf; [lia|].
  cbn [popcount_tail]. destruct (Z.eqb_spec count 0) as [->|Hne]; [by rewrite Z.add_0_r|].
  destruct (count_step i count Hi ltac:(lia) ltac:(lia)) as (b & -> & ->). pose proof (pop_range b).
  rewrite bind_Ok, sint_ok, bind_Ok by lia. rewrite IH by lia. f_equal. lia.
Qed.

Lemma sum_bytes a b c d :
  0 <= a <= 56 -> 0 <= b <= 56 -> 0 <= c <= 56 -> 0 <= d <= 56 ->
  Z.shiftr (wrapU 32 (wrapU 32 (le_val [a; b; c; d]) * 0x01010101)) 24 = a + b + c + d.
Proof using.
  intros. rewrite (wrapU_small 32 (le_val _)) by (cbn [le_val]; lia). rewrite Z.shiftr_div_pow2 by lia. cbn [le_val].
  assert (wrapU 32 ((a + 256 * (b + 256 * (c + 256 * (d + 256 * 0)))) * 0x01010101) =
    le_val [a; a + b; a + b + c; a + b + c + d]) as ->.
  { symmetry. apply (Z.mod_unique_pos _ _ (le_val [b + c + d; c + d; d])); cbn [le_val]; lia. }
  symmetry. apply (Z.div_unique_pos _ _ _ (le_val [a; a + b; a + b + c])); cbn [le_val]; lia.
Qed.

Lemma popcount_words_ok fuel i count bits :
  0 <= i -> 0 <= count -> i + count <= zlen s -> 0 <= bits -> bits + 8 * count < 2 ^ 63 -> count < Z.of_nat fuel ->
  exists k b, popcount_words s fuel i count bits = Ok (i + k, count - k, b) /\ 0 <= k <= count /\
    b = bits + count_ones (bits_of (sub s i k)).
Proof using Hs.
  revert i count bits. induction fuel as [|fuel IH]; intros i count bits Hi Hc Hle Hb Hmax Hf; [lia|].
  cbn [popcount_words]. rewrite Z.geb_leb. destruct (Z.leb_spec 28 count) as [Hge|Hlt].
  2:{ exists 0, bits. rewrite Z.add_0_r, Z.sub_0_r. split; [done|]. split; [lia|]. rewrite count_sub_0. lia. }
  destruct (word_pop i) as (w1 & a1 & b1 & c1 & d1 & -> & F1 & ? & ? & ? & ? & E1); [lia..|].
  destruct (word_pop (i + 4)) as (w2 & a2 & b2 & c2 & d2 & -> & F2 & ? & ? & ? & ? & E2); [lia..|].
  destruct (word_pop (i + 8)) as (w3 & a3 & b3 & c3 & d3 & -> & F3 & ? & ? & ? & ? & E3); [lia..|].
  destruct (word_pop (i + 12)) as (w4 & a4 & b4 & c4 & d4 & -> & F4 & ? & ? & ? & ? & E4); [lia..|].
  destruct (word_pop (i + 16)) as (w5 & a5 & b5 & c5 & d5 & -> & F5 & ? & ? & ? & ? & E5); [lia..|].
  destruct (word_pop (i + 20)) as (w6 & a6 & b6 & c6 & d6 & -> & F6 & ? & ? & ? & ? & E6); [lia..|].
  destruct (word_pop (i + 24)) as (w7 & a7 & b7 & c7 & d7 & -> & F7 & ? & ? & ? & ? & E7); [lia..|].
  rewrite !bind_Ok, F1, F2, F3, F4, F5, F6, F7.
  set (a := a1 + a2 + a3 + a4 + a5 + a6 + a7). set (b := b1 + b2 + b3 + b4 + b5 + b6 + b7).
  set (c := c1 + c2 + c3 + c4 + c5 + c6 + c7). set (d := d1 + d2 + d3 + d4 + d5 + d6 + d7).
  match goal with |- context [wrapU 32 (wrapU 32 ?x * _)] => assert (x = le_val [a; b; c; d]) as -> end.
  { unfold a, b, c, d. cbn [le_val]. lia. }
  rewrite sum_bytes by (unfold a, b, c, d; lia).
  assert (count_ones (bits_of (sub s i 28)) = a + b + c + d) as Hsum.
  { rewrite (count_split i 28 4), (count_split _ (28 - 4) 4), (count_split _ (28 - 4 - 4) 4), (count_split _ (28 - 4 - 4 - 4) 4),
      (count_split _ (28 - 4 - 4 - 4 - 4) 4), (count_split _ (28 - 4 - 4 - 4 - 4 - 4) 4) by lia.
    change (28 - 4 - 4 - 4 - 4 - 4 - 4) with 4. rewrite <- !(Z.add_assoc i). change (4 + 4) with 8.
    change (8 + 4) with 12. change (12 + 4) with 16. change (16 + 4) with 20. change (20 + 4) with 24. rewrite <- E1, <- E2, <- E3, <- E4, <- E5, <- E6, <- E7.
    unfold a, b, c, d. lia. }
  rewrite sint_ok, bind_Ok by (unfold a, b, c, d; lia).
  destruct (IH (i + 28) (count - 28) (bits + (a + b + c + d))) as (k & b' & -> & Hk & ->); try (unfold a, b, c, d; lia).
  exists (k + 28), (bits + count_ones (bits_of (sub s i (k + 28)))). split; [|split; [lia|done]].
  rewrite (count_split i (k + 28) 28), Hsum by lia. replace (k + 28 - 28) with k by lia.
  replace (i + (k + 28)) with (i + 28 + k) by lia. replace (count - (k + 28)) with (count - 28 - k) by lia.
  do 2 f_equal. lia.
Qed.

(** [redisPopcount] returns the number of bits set in the given bytes, for
    every alignment of the string and either byte order: the word-parallel
    counting agrees with counting bit by bit. *)
Lemma redisPopcount_ok i count :
  0 <= i -> 0 <= count -> i + count <= zlen s -> count < 2 ^ 59 ->
  redisPopcount addr s i count = Ok (count_ones (bits_of (sub s i count))).
Proof using Hs.
  intros Hi Hc Hle Hmax. unfold redisPopcount.
  destruct (popcount_head_ok (S (Z.to_nat count)) i count 0) as (k & b & -> & Hk & ->); [lia..|]. rewrite bind_Ok.
  pose proof (count_ones_range (bits_of (sub s i k))) as Hr. rewrite zlen_bits_of, zlen_sub in Hr by lia.
  destruct (popcount_words_ok (S (Z.to_nat count)) (i + k) (count - k) (0 + count_ones (bits_of (sub s i k))))
    as (k2 & b2 & -> & Hk2 & ->); [lia..|]. rewrite bind_Ok.
  pose proof (count_ones_range (bits_of (sub s (i + k) k2))) as Hr2. rewrite zlen_bits_of, zlen_sub in Hr2 by lia.
  rewrite popcount_tail_ok by lia. f_equal.
  rewrite (count_split i count k), (count_split (i + k) (count - k) k2) by lia. lia.
Qed.

End ScanLemmas.

(** * Searching *)

Lemma first_bit_shift bit pos l : first_bit bit pos l = (fun x => pos + x) <$> first_bit bit 0 l.
Proof.
  revert pos. induction l as [|b l IH]; intros pos; cbn [first_bit]; [done|].
  destruct (eqb b bit); [cbn; f_equal; lia|]. change (0 + 1) with 1. rewrite (IH (pos + 1)), (IH 1). destruct (first_bit bit 0 l); cbn; [f_equal; lia|done].
Qed.

Lemma first_bit_app bit l k :
  first_bit bit 0 (l ++ k) =
  match first_bit bit 0 l with Some x => Some x | None => (fun x => zlen l + x) <$> first_bit bit 0 k end.
Proof.
  induction l as [|b l IH]; cbn [app first_bit].
  { change (zlen []) with 0. by destruct (first_bit bit 0 k). }
  destruct (eqb b bit); [done|]. change (0 + 1) with 1. rewrite (first_bit_shift bit 1 (l ++ k)), (first_bit_shift bit 1 l), IH.
  destruct (first_bit bit 0 l); [done|]. destruct (first_bit bit 0 k); [|done]. cbn. f_equal. rewrite zlen_cons. lia.
Qed.

Lemma first_bit_range bit l x : first_bit bit 0 l = Some x -> 0 <= x < zlen l.
Proof.
  revert x. induction l as [|b l IH]; intros x; cbn [first_bit]; [done|]. rewrite zlen_cons. pose proof (zlen_nonneg l).
  destruct (eqb b bit); [intros [= <-]; lia|]. rewrite first_bit_shift. destruct (first_bit bit 0 l) as [y|]; [|done].
  intros [= <-]. specialize (IH y eq_refl). lia.
Qed.

Lemma first_bit_all bit n : first_bit bit 0 (replicate n (negb bit)) = None.
Proof. induction n as [|n IH]; [done|]. cbn. destruct bit; cbn; rewrite first_bit_shift; cbn in IH; by rewrite IH. Qed.

(** The byte all of whose bits differ from [bit]. *)
Definition skip_byte (bit : bool) : Z := if bit then 0 else 255.

Lemma skip_byte_bits bit b :
  is_byte b -> (b =? skip_byte bit) = true <-> first_bit bit 0 (byte_to_bits b) = None.
Proof.
  intros Hb. pose (f b := eqb (b =? skip_byte bit) (match first_bit bit 0 (byte_to_bits b) with None => true | _ => false end)).
  assert (f b = true) as Hf by (apply (all_below 256); [destruct bit; by vm_compute|exact Hb]). unfold f in Hf.
  apply eqb_prop in Hf. rewrite Hf. destruct (first_bit bit 0 (byte_to_bits b)); done.
Qed.

Lemma skip_bytes bit bs :
  Forall is_byte bs -> bs = replicate (length bs) (skip_byte bit) <-> first_bit bit 0 (bits_of bs) = None.
Proof.
  induction 1 as [|b bs Hb Hbs IH]; [done|]. rewrite bits_of_cons, first_bit_app. cbn [length replicate].
  pose proof (skip_byte_bits bit b Hb) as Hb'. split.
  - intros [= -> E]. rewrite Z.eqb_refl in Hb'. rewrite (proj1 Hb' eq_refl). by rewrite (proj1 IH E).
  - destruct (first_bit bit 0 (byte_to_bits b)); [done|]. destruct (first_bit bit 0 (bits_of bs)); [done|]. intros _.
    f_equal; [by apply Z.eqb_eq, Hb'|by apply IH].
Qed.

Section SearchLemmas.
Context `{Host} (addr : Z) (s : list Z) (Hs : Forall is_byte s) (bit : bool).

Definition skip_word : Z := if bit then 0 else 2 ^ 64 - 1.

Lemma skip_word_bytes bs :
  Forall is_byte bs -> length bs = 8%nat -> (host_val bs =? skip_word) = true <-> first_bit bit 0 (bits_of bs) = None.
Proof using.
  intros Hb Hl. rewrite <- (skip_bytes bit bs Hb), Hl.
  assert (host_val (replicate 8 (skip_byte bit)) = skip_word) as <-.
  { unfold host_val, skip_word, skip_byte. by destruct bit, big_endian. }
  assert (Forall is_byte (replicate 8 (skip_byte bit))) as Hr.
  { apply Forall_replicate. unfold skip_byte, is_byte. destruct bit; lia. }
  rewrite Z.eqb_eq. split; [|by intros ->]. unfold host_val. destruct big_endian.
  - intros E. apply le_val_inj in E; [|by apply Forall_rev|by apply Forall_rev|by rewrite !length_rev, length_replicate].
    by rewrite <- (rev_involutive bs), E, rev_involutive.
  - intros E. by apply le_val_inj in E; [|done|done|rewrite length_replicate].
Qed.

(** Where the skipping stops: what was skipped has no bit looked for, and either
    there is one in the next word, or there is less than a word left. *)
Definition stopped (i count k : Z) : Prop :=
  0 <= k <= count /\ first_bit bit 0 (bits_of (sub s i k)) = None /\
  (count - k < 8 \/ first_bit bit 0 (bits_of (sub s (i + k) (Z.min 8 (count - k)))) <> None).

Lemma none_app (l k : list Z) :
  first_bit bit 0 (bits_of l) = None -> first_bit bit 0 (bits_of k) = None -> first_bit bit 0 (bits_of (l ++ k)) = None.
Proof using. intros Hl Hk. by rewrite bits_of_app, first_bit_app, Hl, Hk. Qed.

Lemma bitpos_head_ok fuel i count pos :
  0 <= i -> 0 <= count -> i + count <= zlen s -> count < Z.of_nat fuel ->
  exists k found, bitpos_head addr s fuel (skip_byte bit) i count pos = Ok (i + k, count - k, pos + 8 * k, found) /\
    0 <= k <= count /\ first_bit bit 0 (bits_of (sub s i k)) = None /\ (found = true -> stopped i count k).
Proof using Hs.
  revert i count pos. induction fuel as [|fuel IH]; intros i count pos Hi Hc Hle Hf; [lia|]. cbn [bitpos_head].
  destruct (negb _ && negb (count =? 0)) eqn:E.
  2:{ exists 0, false. rewrite !Z.add_0_r, Z.sub_0_r. split_and!; done || lia. }
  apply andb_true_iff in E as [_ Hne%negb_true_iff%Z.eqb_neq].
  destruct (sub_cons s Hs i ltac:(lia)) as (c & Hc1 & Hcb & Hsub). unfold rd1. ztrue (0 <=? i). rewrite Hc1, bind_Ok.
  pose proof (skip_byte_bits bit c Hcb) as Hskip. destruct (c =? skip_byte bit); cbn [negb].
  - destruct (IH (i + 1) (count - 1) (pos + 8)) as (k & found & -> & Hk & Hnone & Hst); try lia.
    assert (sub s i (k + 1) = [c] ++ sub s (i + 1) k) as Hs1.
    { rewrite (sub_app s i (k + 1) 1), Hsub by lia. do 2 f_equal. lia. }
    assert (first_bit bit 0 (bits_of (sub s i (k + 1))) = None) as Hn.
    { rewrite Hs1. apply none_app; [|done]. rewrite bits_of_cons, app_nil_r. by apply Hskip. }
    exists (k + 1), found. split; [ok_eq|]. split; [lia|]. split; [done|]. intros Hfd. 
    destruct (Hst Hfd) as (_ & _ & Hlast). split; [lia|]. split; [done|].
    replace (i + (k + 1)) with (i + 1 + k) by lia. replace (count - (k + 1)) with (count - 1 - k) by lia. done.
  - exists 0, true. rewrite !Z.add_0_r, Z.sub_0_r. split; [done|]. split; [lia|]. split; [done|].
    intros _. split; [lia|]. split; [done|]. right. rewrite Z.add_0_r, Z.sub_0_r.
    rewrite (sub_app s i _ 1), Hsub, bits_of_app, first_bit_app, bits_of_cons, app_nil_r by lia.
    destruct (first_bit bit 0 (byte_to_bits c)); [done|]. by discriminate (proj2 Hskip eq_refl).
Qed.

Lemma bitpos_words_ok fuel i count pos :
  0 <= i -> 0 <= count -> i + count <= zlen s -> count < Z.of_nat fuel ->
  exists k, bitpos_words s fuel skip_word i count pos = Ok (i + k, count - k, pos + 8 * k) /\ stopped i count k.
Proof using Hs.
  revert i count pos. induction fuel as [|fuel IH]; intros i count pos Hi Hc Hle Hf; [lia|]. cbn [bitpos_words].
  rewrite Z.geb_leb. destruct (Z.leb_spec 8 count) as [Hge|Hlt].
  2:{ exists 0. unfold stopped. rewrite !Z.add_0_r, Z.sub_0_r. split_and!; done || lia || (left; lia). }
  rewrite word_at_ok, bind_Ok by lia. pose proof (zlen_sub s i 8 Hi ltac:(lia) ltac:(lia)) as Hl.
  pose proof (skip_word_bytes (sub s i 8) (sub_bytes s Hs i 8) ltac:(unfold zlen in Hl; lia)) as Hskip.
  destruct (host_val (sub s i 8) =? skip_word); cbn [negb].
  - destruct (IH (i + 8) (count - 8) (pos + 8 * 8)) as (k & -> & Hk & Hnone & Hlast); try lia.
    exists (k + 8). split; [ok_eq|]. split; [lia|]. split.
    + rewrite (sub_app s i (k + 8) 8) by lia. replace (k + 8 - 8) with k by lia. apply none_app; [by apply Hskip|done].
    + replace (i + (k + 8)) with (i + 8 + k) by lia. replace (count - (k + 8)) with (count - 8 - k) by lia. done.
  - exists 0. rewrite !Z.add_0_r, Z.sub_0_r. split; [done|]. split; [lia|]. split; [done|]. right.
    rewrite Z.add_0_r, Z.sub_0_r, Z.min_l by lia. intros E. by apply Hskip in E.
Qed.

(** ** The last word *)

Definition be_step (v c : Z) : Z := c + 256 * v.

Lemma bitpos_load_ok j i count word :
  0 <= i -> 0 <= count -> i + count <= zlen s -> 0 <= word -> (word + 1) * 256 ^ Z.of_nat j <= 2 ^ 64 ->
  bitpos_load s j i count word =
  Ok (foldl be_step word (sub s i (Z.min (Z.of_nat j) count) ++ replicate (Z.to_nat (Z.of_nat j - count)) 0)).
Proof using Hs.
  revert i count word. induction j as [|j IH]; intros i count word Hi Hc Hle Hw Hmax; cbn [bitpos_load].
  { rewrite Z.min_l by lia. by replace (Z.to_nat (Z.of_nat 0 - count)) with O by lia. }
  rewrite Nat2Z.inj_succ, Z.pow_succ_r in Hmax by lia.
  assert (0 < 256 ^ Z.of_nat j) as Hp by (apply Z.pow_pos_nonneg; lia).
  rewrite Z.shiftl_mul_pow2, wrapU_small by nia. change (2 ^ 8) with 256.
  destruct (Z.eqb_spec count 0) as [->|Hne]; cbn [negb].
  - rewrite IH by nia. f_equal. rewrite !Z.min_r by lia. change (sub s i 0) with (@nil Z). cbn [app].
    replace (Z.to_nat (Z.of_nat (S j) - 0)) with (S j) by lia. replace (Z.to_nat (Z.of_nat j - 0)) with j by lia.
    cbn [replicate foldl]. by replace (be_step word 0) with (word * 256) by (unfold be_step; lia).
  - destruct (sub_cons s Hs i ltac:(lia)) as (c & Hc1 & Hcb & Hsub). unfold rd1. ztrue (0 <=? i). rewrite Hc1, bind_Ok.
    assert (Z.lor (word * 256) c = be_step word c) as ->.
    { unfold be_step, is_byte in *. change 256 with (2 ^ 8). rewrite <- Z.shiftl_mul_pow2, Z.lor_comm, lor_shiftl by lia. lia. }
    rewrite IH by (unfold be_step, is_byte in *; nia). rewrite (sub_app s i (Z.min (Z.of_nat (S j)) count) 1), Hsub by lia.
    cbn [app foldl]. do 4 f_equal; lia.
Qed.

Lemma val_bits_step n v c : is_byte c -> val_bits (n + 8) (be_step v c) = val_bits n v ++ byte_to_bits c.
Proof using.
  intros Hc. unfold be_step. induction n as [|n IH].
  - unfold byte_to_bits. cbn [Nat.add val_bits app fmap list_fmap]. rewrite !bit_split by (done || lia). done.
  - cbn [Nat.add val_bits app]. rewrite IH, bit_split by (done || lia). f_equal.
    destruct (Z.ltb_spec (Z.of_nat (n + 8)) 8); [lia|]. f_equal. lia.
Qed.

Lemma val_bits_bytes bs n v :
  Forall is_byte bs -> val_bits (n + 8 * length bs) (foldl be_step v bs) = val_bits n v ++ bits_of bs.
Proof using.
  intros Hb. revert n v. induction Hb as [|c bs Hc Hb IH]; intros n v; cbn [length foldl].
  - by rewrite Nat.mul_0_r, Nat.add_0_r, app_nil_r.
  - replace (n + 8 * S (length bs))%nat with (n + 8 + 8 * length bs)%nat by lia.
    by rewrite IH, val_bits_step, <- app_assoc, bits_of_cons.
Qed.

Lemma land_pow2 m w : 0 <= m -> negb (Z.land (2 ^ m) w =? 0) = Z.testbit w m.
Proof using.
  intros Hm. rewrite Z.land_comm. destruct (Z.testbit w m) eqn:E.
  - apply negb_true_iff, Z.eqb_neq. intros E0. apply (f_equal (fun x => Z.testbit x m)) in E0.
    rewrite Z.land_spec, E, Z.pow2_bits_true, Z.bits_0 in E0 by done. done.
  - apply negb_false_iff, Z.eqb_eq. apply Z.bits_inj'. intros i Hi. rewrite Z.land_spec, Z.pow2_bits_eqb, Z.bits_0 by done.
    destruct (Z.eqb_spec m i) as [<-|]; [by rewrite E|by rewrite andb_false_r].
Qed.

Lemma bitpos_bits_ok fuel m word pos :
  (m + 1 < fuel)%nat ->
  bitpos_bits fuel word (2 ^ Z.of_nat m) pos bit =
  match first_bit bit pos (val_bits (S m) word) with Some x => Ok x | None => Panic end.
Proof using.
  revert m pos. induction fuel as [|fuel IH]; intros m pos Hf; [lia|]. cbn [bitpos_bits val_bits first_bit].
  assert (0 < 2 ^ Z.of_nat m) as Hp by (apply Z.pow_pos_nonneg; lia). zfalse (2 ^ Z.of_nat m =? 0).
  rewrite land_pow2 by lia. destruct (eqb (Z.testbit word (Z.of_nat m)) bit); [done|].
  rewrite Z.shiftr_div_pow2 by lia. change (2 ^ 1) with 2. destruct m as [|m].
  - destruct fuel as [|fuel]; [lia|]. done.
  - rewrite Nat2Z.inj_succ, Z.pow_succ_r, Z.mul_comm, Z.div_mul by lia. rewrite IH by lia. done.
Qed.

Lemma first_bit_zeros n : (0 < n)%nat -> first_bit bit 0 (bits_of (replicate n 0)) = if bit then None else Some 0.
Proof using.
  intros Hn. destruct bit.
  - apply (skip_bytes true); [|by rewrite length_replicate]. apply Forall_replicate. unfold is_byte. lia.
  - destruct n; [lia|]. done.
Qed.

Lemma be_range bs : Forall is_byte bs -> (length bs <= 8)%nat -> 0 <= foldl be_step 0 bs < 2 ^ 64.
Proof using.
  intros Hb Hl. enough (forall v, 0 <= v -> 0 <= foldl be_step v bs < (v + 1) * 256 ^ zlen bs) as Hv.
  { specialize (Hv 0 ltac:(lia)). assert (256 ^ zlen bs <= 256 ^ 8) by (apply Z.pow_le_mono_r; unfold zlen; lia). lia. }
  clear Hl. induction Hb as [|c bs Hc Hb IH]; intros v Hv; cbn [foldl]; [change (zlen []) with 0; lia|].
  rewrite zlen_cons, Z.pow_add_r by zlia. unfold is_byte in Hc. specialize (IH (be_step v c) ltac:(unfold be_step; lia)).
  assert (0 < 256 ^ zlen bs) by (apply Z.pow_pos_nonneg; zlia). 
  assert (be_step v c + 1 <= 256 * (v + 1)) by (unfold be_step; lia). change (256 ^ 1) with 256.
  assert ((be_step v c + 1) * 256 ^ zlen bs <= 256 * (v + 1) * 256 ^ zlen bs) by (apply Z.mul_le_mono_nonneg_r; lia). lia.
Qed.

Lemma val_bits_none n word :
  first_bit true 0 (val_bits n word) = None -> forall i, 0 <= i < Z.of_nat n -> Z.testbit word i = false.
Proof using.
  induction n as [|n IH]; intros E i Hi; [lia|]. cbn [val_bits first_bit] in E.
  destruct (Z.testbit word (Z.of_nat n)) eqn:En; [done|]. cbn in E. rewrite first_bit_shift in E.
  destruct (decide (i = Z.of_nat n)) as [->|]; [done|]. apply IH; [|lia]. by destruct (first_bit true 0 (val_bits n word)).
Qed.

(** The end of the search, on the last word. *)
Lemma last_word word pos :
  0 <= word < 2 ^ 64 ->
  (if bit && (word =? 0) then Ok (-1)
   else bitpos_bits 65 word (Z.lxor (Z.shiftr (2 ^ 64 - 1) 1) (2 ^ 64 - 1)) pos bit) =
  match first_bit bit 0 (val_bits 64 word) with
  | Some x => Ok (pos + x)
  | None => if bit then Ok (-1) else Panic
  end.
Proof using.
  intros Hw. change (Z.lxor (Z.shiftr (2 ^ 64 - 1) 1) (2 ^ 64 - 1)) with (2 ^ Z.of_nat 63).
  destruct (bit && (word =? 0)) eqn:E.
  - apply andb_true_iff in E as [Hb Hz%Z.eqb_eq]. by rewrite Hb, Hz.
  - rewrite bitpos_bits_ok, first_bit_shift by lia. destruct (first_bit bit 0 (val_bits 64 word)) eqn:Hf; [done|].
    cbn [fmap option_fmap option_map]. destruct bit; [|done]. exfalso.
    assert (word = 0) as ->; [|done]. rewrite <- (Z.mod_small word (2 ^ 64)) by done. apply Z.bits_inj'. intros i Hi.
    rewrite Z.bits_0. destruct (decide (i < 64)).
    + rewrite Z.mod_pow2_bits_low by lia. by apply (val_bits_none 64).
    + by rewrite Z.mod_pow2_bits_high by lia.
Qed.

(** [redisBitpos] returns the position of the first bit equal to [bit] in the
    given bytes, for every alignment and either byte order; when there is none,
    it returns -1 for a set bit and the number of bits for a clear one, the
    string being followed by zeroes. *)
Lemma redisBitpos_ok i count :
  0 <= i -> 0 <= count -> i + count <= zlen s ->
  redisBitpos addr s i count bit =
  Ok (match first_bit bit 0 (bits_of (sub s i count)) with
      | Some x => x
      | None => if bit then -1 else 8 * count
      end).
Proof using Hs.
  intros Hi Hc Hle. unfold redisBitpos. fold (skip_byte bit) skip_word.
  set (fuel := S (Z.to_nat count)).
  destruct (bitpos_head_ok fuel i count 0) as (k1 & found & -> & Hk1 & Hnone1 & Hst); [lia..|]. rewrite bind_Ok.
  assert (exists k, (if negb found then bitpos_words s fuel skip_word (i + k1) (count - k1) (0 + 8 * k1)
     else Ok (i + k1, count - k1, 0 + 8 * k1)) = Ok (i + k, count - k, 8 * k) /\ stopped i count k) as (k & -> & Hk & Hnone & Hlast).
  { destruct found; cbn [negb]; [exists k1; auto|].
    destruct (bitpos_words_ok fuel (i + k1) (count - k1) (0 + 8 * k1)) as (k2 & -> & Hk2 & Hn2 & Hl2); [lia..|].
    exists (k1 + k2). split; [ok_eq|]. split; [lia|]. split.
    - rewrite (sub_app s i (k1 + k2) k1) by lia. replace (k1 + k2 - k1) with k2 by lia. by apply none_app.
    - replace (i + (k1 + k2)) with (i + k1 + k2) by lia. by replace (count - (k1 + k2)) with (count - k1 - k2) by lia. }
  rewrite bind_Ok, bitpos_load_ok, bind_Ok by (done || lia). change (Z.of_nat 8) with 8.
  set (bs := sub s (i + k) (Z.min 8 (count - k))). set (zs := replicate (Z.to_nat (8 - (count - k))) 0).
  assert (Forall is_byte (bs ++ zs)) as Hb.
  { apply Forall_app. split; [by apply sub_bytes|]. apply Forall_replicate. unfold is_byte. lia. }
  assert (zlen bs = Z.min 8 (count - k)) as Hlbs by (apply zlen_sub; lia).
  assert (length (bs ++ zs) = 8%nat) as Hl8.
  { rewrite length_app. unfold zs. rewrite length_replicate. unfold zlen in Hlbs. lia. }
  assert (val_bits 64 (foldl be_step 0 (bs ++ zs)) = bits_of bs ++ bits_of zs) as Hbits.
  { rewrite <- bits_of_app. change (bits_of (bs ++ zs)) with (val_bits 0 0 ++ bits_of (bs ++ zs)).
    by rewrite <- val_bits_bytes, Hl8. }
  rewrite (last_word (foldl be_step 0 (bs ++ zs)) (8 * k)), Hbits by (apply be_range; [done|lia]).
  rewrite (sub_app s i count k), bits_of_app, !first_bit_app, Hnone, zlen_bits_of, zlen_bits_of, zlen_sub, Hlbs by lia.
  rewrite (sub_app s (i + k) (count - k) (Z.min 8 (count - k))), bits_of_app, first_bit_app by lia. fold bs.
  destruct (first_bit bit 0 (bits_of bs)) as [x|] eqn:Hx; cbn [fmap option_fmap option_map].
  { done. }
  assert (count - k < 8) as Hlt by (destruct Hlast as [|Hl]; [done|by destruct Hl]).
  rewrite Z.min_r by lia. replace (count - k - (count - k)) with 0 by lia.
  change (sub s (i + k + (count - k)) 0) with (@nil Z). unfold zs. rewrite first_bit_zeros by lia.
  destruct bit; cbn; [done|]. f_equal. lia.
Qed.

End SearchLemmas.

(** * Bit fields *)

Lemma bits_lookup p k :
  bits_of p !! k = (p !! (k / 8)%nat) ≫= fun b => Some (Z.testbit b (7 - Z.of_nat (k mod 8))).
Proof.
  revert k. induction p as [|b p IH]; intros k; [by rewrite !lookup_nil|]. rewrite bits_of_cons.
  destruct (decide (k < 8)%nat) as [Hk|Hk].
  - rewrite lookup_app_l by done. rewrite Nat.div_small, Nat.mod_small by done. cbn.
    do 8 (destruct k as [|k]; [done|]). lia.
  - rewrite lookup_app_r by (cbn; lia). change (length (byte_to_bits b)) with 8%nat. rewrite IH.
    assert (k / 8 = S ((k - 8) / 8))%nat as ->.
    { replace k with ((k - 8) + 1 * 8)%nat at 1 by lia. rewrite Nat.div_add by done. lia. }
    assert (k mod 8 = (k - 8) mod 8)%nat as ->; [|done].
    replace k with ((k - 8) + 1 * 8)%nat at 1 by lia. by rewrite Nat.Div0.mod_add.
Qed.

Lemma land_bit m w : 0 <= m -> negb (Z.land w (Z.shiftl 1 m) =? 0) = Z.testbit w m.
Proof. intros Hm. by rewrite Z.land_comm, Z.shiftl_1_l, land_pow2. Qed.

(** The byte [b] with its bit [bit] set to [v], as the loop computes it. *)
Definition set_bit (b bit : Z) (v : bool) : Z :=
  Z.land (Z.lor (Z.land b (Z.lnot (Z.shiftl 1 bit))) (Z.shiftl (Z.b2z v) bit)) 255.

Lemma set_bit_spec b bit v j :
  0 <= bit < 8 -> 0 <= j < 8 -> Z.testbit (set_bit b bit v) j = if j =? bit then v else Z.testbit b j.
Proof.
  intros Hb Hj. unfold set_bit. rewrite Z.land_spec, Z.lor_spec, Z.land_spec, Z.lnot_spec, Z.shiftl_1_l, Z.pow2_bits_eqb by lia.
  change 255 with (Z.ones 8). rewrite Z.ones_spec_low, andb_true_r, Z.shiftl_spec, (Z.eqb_sym j bit) by lia.
  destruct (Z.eqb_spec bit j) as [<-|Hne]; cbn [negb].
  - rewrite Z.sub_diag, andb_false_r. by destruct v.
  - rewrite andb_true_r. replace (Z.testbit (Z.b2z v) (j - bit)) with false; [by rewrite orb_false_r|].
    destruct (decide (j < bit)); [by rewrite Z.testbit_neg_r by lia|].
    destruct v; [|by rewrite Z.bits_0]. cbn. by rewrite (Z.pow2_bits_eqb 0), (proj2 (Z.eqb_neq _ _)) by lia.
Qed.

Lemma set_bit_byte b bit v : is_byte (set_bit b bit v).
Proof. unfold is_byte, set_bit. change 255 with (2 ^ 8 - 1). rewrite land_mask by lia. apply Z.mod_pos_bound. lia. Qed.

(** Writing the byte back sets one bit of the bitmap. *)
Lemma set_bit_bits p o b v :
  p !! (o / 8)%nat = Some b ->
  bits_of (<[(o / 8)%nat := set_bit b (7 - Z.of_nat (o mod 8)) v]> p) = <[o := v]> (bits_of p).
Proof.
  intros Hb. pose proof (lookup_lt_Some _ _ _ Hb) as Hl. pose proof (Nat.div_mod_eq o 8) as Ho.
  pose proof (Nat.mod_upper_bound o 8 ltac:(lia)).
  apply list_eq. intros k. rewrite bits_lookup. pose proof (Nat.div_mod_eq k 8) as Hk.
  pose proof (Nat.mod_upper_bound k 8 ltac:(lia)).
  destruct (decide (k = o)) as [->|Hne].
  - rewrite !list_lookup_insert_eq by (try rewrite length_bits_of; lia). cbn [mbind option_bind]. f_equal.
    rewrite set_bit_spec by lia. by rewrite Z.eqb_refl.
  - rewrite (list_lookup_insert_ne (bits_of p)), bits_lookup by done.
    destruct (decide (k / 8 = o / 8)%nat) as [E|E]; [|by rewrite list_lookup_insert_ne].
    rewrite E, list_lookup_insert_eq, Hb by done. cbn [mbind option_bind]. f_equal. rewrite set_bit_spec by lia.
    by rewrite (proj2 (Z.eqb_neq _ _)) by lia.
Qed.

Lemma wr_insert p i x : 0 <= i < zlen p -> wr p i [x] = Ok (<[Z.to_nat i := x]> p).
Proof.
  intros Hi. unfold wr. change (zlen [x]) with 1. ztrue (0 <=? i). ztrue (i + 1 <=? zlen p). cbn [andb]. f_equal.
  rewrite insert_take_drop by (unfold zlen in Hi; lia). by replace (Z.to_nat (i + 1)) with (S (Z.to_nat i)) by lia.
Qed.

(** The bytes and bits an offset falls on. *)
Lemma offset_byte o :
  0 <= o -> Z.to_nat (Z.shiftr o 3) = (Z.to_nat o / 8)%nat /\ 7 - Z.land o 7 = 7 - Z.of_nat (Z.to_nat o mod 8)
    /\ 0 <= Z.shiftr o 3 /\ Z.shiftr o 3 = Z.of_nat (Z.to_nat o / 8).
Proof.
  intros Ho. rewrite Z.shiftr_div_pow2 by lia. change 7 with (2 ^ 3 - 1) at 2. rewrite land_mask by lia.
  rewrite Nat2Z.inj_mod, Nat2Z.inj_div, Z2Nat.id by done. change (2 ^ 3) with 8. change (Z.of_nat 8) with 8.
  split_and!; try done; [|apply Z.div_pos; lia]. rewrite Z2Nat.inj_div by lia. done.
Qed.

Lemma set_loop_ok n p offset value :
  Forall is_byte p -> 0 <= offset -> offset + Z.of_nat n <= 8 * zlen p -> 8 * zlen p < 2 ^ 64 ->
  exists p', setUnsignedBitfield_loop n p offset value = Ok p' /\ zlen p' = zlen p /\ Forall is_byte p' /\
    bits_of p' = take (Z.to_nat offset) (bits_of p) ++ val_bits n value ++ drop (Z.to_nat offset + n) (bits_of p).
Proof.
  revert p offset. induction n as [|n IH]; intros p offset Hp Ho Hle Hmax; cbn [setUnsignedBitfield_loop].
  { exists p. split_and!; try done. cbn. by rewrite Nat.add_0_r, take_drop. }
  destruct (offset_byte offset Ho) as (Hby & -> & Hnn & Hbz). set (o := Z.to_nat offset) in *.
  assert ((o / 8 < length p)%nat) as Hlt by (apply Nat.Div0.div_lt_upper_bound; unfold zlen in Hle; lia).
  destruct (lookup_lt_is_Some_2 p (o / 8)%nat Hlt) as [b Hb]. unfold rd1. ztrue (0 <=? Z.shiftr offset 3).
  rewrite Hby, Hb, bind_Ok, wr_insert, bind_Ok, Hby by (unfold zlen; lia).
  rewrite land_bit by lia. rewrite wrapU_small by lia.
  fold (set_bit b (7 - Z.of_nat (o mod 8)) (Z.testbit value (Z.of_nat n))).
  set (p1 := <[(o / 8)%nat := _]> p).
  assert (zlen p1 = zlen p) as Hl1 by (unfold zlen, p1; by rewrite length_insert).
  destruct (IH p1 (offset + 1)) as (p' & -> & Hl' & Hb' & Hbits); try (rewrite Hl1; lia); [|lia|].
  { apply Forall_insert; [done|apply set_bit_byte]. }
  exists p'. split; [done|]. split; [lia|]. split; [done|]. rewrite Hbits. unfold p1.
  rewrite set_bit_bits by done. replace (Z.to_nat (offset + 1)) with (S o) by lia.
  assert ((o < length (bits_of p))%nat) as Hob by (rewrite length_bits_of; unfold zlen in Hle; lia).
  rewrite (take_S_r _ _ (Z.testbit value (Z.of_nat n))) by (by apply list_lookup_insert_eq).
  rewrite take_insert_ge by lia. rewrite drop_insert_lt by lia. rewrite <- app_assoc. cbn [val_bits app].
  by replace (S o + n)%nat with (o + S n)%nat by lia.
Qed.

Lemma get_loop_ok n p offset value :
  0 <= offset -> offset + Z.of_nat n <= 8 * zlen p -> 8 * zlen p < 2 ^ 64 ->
  0 <= value -> (value + 1) * 2 ^ Z.of_nat n <= 2 ^ 64 ->
  getUnsignedBitfield_loop n p offset value =
  Ok (foldl (fun v b => 2 * v + Z.b2z b) value (sub (bits_of p) offset (Z.of_nat n))).
Proof.
  revert offset value. induction n as [|n IH]; intros offset value Ho Hle Hmax Hv Hvm; cbn [getUnsignedBitfield_loop]; [done|].
  destruct (offset_byte offset Ho) as (Hby & -> & Hnn & Hbz). set (o := Z.to_nat offset) in *.
  assert ((o / 8 < length p)%nat) as Hlt by (apply Nat.Div0.div_lt_upper_bound; unfold zlen in Hle; lia).
  destruct (lookup_lt_is_Some_2 p (o / 8)%nat Hlt) as [b Hb]. unfold rd1. ztrue (0 <=? Z.shiftr offset 3).
  rewrite Hby, Hb, bind_Ok. pose proof (Nat.mod_upper_bound o 8 ltac:(lia)).
  assert (Z.land (Z.shiftr b (7 - Z.of_nat (o mod 8))) 1 = Z.b2z (Z.testbit b (7 - Z.of_nat (o mod 8)))) as ->.
  { change 1 with (2 ^ 1 - 1) at 1. rewrite land_mask by lia. change (2 ^ 1) with 2.
    rewrite <- Z.bit0_mod, Z.shiftr_spec, Z.add_0_l by lia. done. }
  set (v := Z.testbit b _). rewrite Nat2Z.inj_succ, Z.pow_succ_r in Hvm by lia.
  assert (0 < 2 ^ Z.of_nat n) by (apply Z.pow_pos_nonneg; lia).
  assert (Z.lor (wrapU 64 (Z.shiftl value 1)) (Z.b2z v) = 2 * value + Z.b2z v) as ->.
  { rewrite Z.shiftl_mul_pow2 by lia. rewrite wrapU_small by nia. rewrite <- Z.shiftl_mul_pow2, Z.lor_comm, lor_shiftl by (destruct v; cbn; lia). lia. }
  rewrite wrapU_small by lia. rewrite IH by (try (destruct v; cbn [Z.b2z]; nia); lia). f_equal.
  assert (sub (bits_of p) offset (Z.of_nat (S n)) = v :: sub (bits_of p) (offset + 1) (Z.of_nat n)) as ->; [|done].
  rewrite (sub_app (bits_of p) offset (Z.of_nat (S n)) 1) by lia. rewrite (sub_1 _ offset v); [|done|].
  - cbn [app]. do 2 f_equal. lia.
  - fold o. rewrite bits_lookup, Hb. done.
Qed.

Lemma zlen_val_bits n v : zlen (val_bits n v) = Z.of_nat n.
Proof. induction n as [|n IH]; [done|]. cbn [val_bits]. rewrite zlen_cons, IH. lia. Qed.

Lemma val_bits_ext n v w : (forall i, 0 <= i < Z.of_nat n -> Z.testbit v i = Z.testbit w i) -> val_bits n v = val_bits n w.
Proof.
  induction n as [|n IH]; intros E; [done|]. cbn [val_bits]. f_equal; [apply E; lia|]. apply IH. intros i Hi. apply E. lia.
Qed.

Lemma foldl_bits_val l v : foldl (fun v b => 2 * v + Z.b2z b) v l = v * 2 ^ zlen l + bits_val l.
Proof.
  revert v. unfold bits_val. induction l as [|b l IH]; intros v; cbn [foldl]; [change (zlen []) with 0; lia|].
  pose proof (zlen_nonneg l). rewrite IH, (IH (2 * 0 + Z.b2z b)), zlen_cons, Z.pow_add_r by lia. change (2 ^ 1) with 2. ring.
Qed.

Lemma bits_val_range l : 0 <= bits_val l < 2 ^ zlen l.
Proof.
  induction l as [|b l IH]; [done|]. unfold bits_val. cbn [foldl]. pose proof (zlen_nonneg l).
  rewrite foldl_bits_val, zlen_cons, Z.pow_add_r by lia.
  destruct b; cbn [Z.b2z]; lia.
Qed.

Lemma bits_val_bits n v : bits_val (val_bits n v) = v mod 2 ^ Z.of_nat n.
Proof.
  induction n as [|n IH]; [by rewrite Z.mod_1_r|]. unfold bits_val. cbn [val_bits foldl].
  rewrite foldl_bits_val, zlen_val_bits, IH. rewrite Nat2Z.inj_succ, Z.pow_succ_r by lia.
  assert (0 < 2 ^ Z.of_nat n) by (apply Z.pow_pos_nonneg; lia).
  rewrite (Z.mul_comm 2 (2 ^ Z.of_nat n)), Z.rem_mul_r by lia. rewrite <- Z.bit0_mod, <- Z.shiftr_div_pow2, Z.shiftr_spec by lia.
  rewrite (Z.add_0_l (Z.of_nat n)). destruct (Z.testbit v (Z.of_nat n)); cbn [Z.b2z]; lia.
Qed.

Lemma get_unsigned_ok p offset bits :
  0 <= offset -> 1 <= bits <= 64 -> offset + bits <= 8 * zlen p -> 8 * zlen p < 2 ^ 64 ->
  getUnsignedBitfield p offset bits = Ok (bits_val (sub (bits_of p) offset bits)).
Proof.
  intros Ho Hb Hle Hmax. assert (2 ^ bits <= 2 ^ 64) by (apply Z.pow_le_mono_r; lia). unfold getUnsignedBitfield.
  rewrite get_loop_ok; rewrite ?Z2Nat.id; lia || done.
Qed.

(** Sign extension from the bit [bits - 1]. *)
Lemma sign_extend u bits :
  1 <= bits < 64 -> 0 <= u < 2 ^ bits ->
  (if negb (Z.land u (Z.shiftl 1 (bits - 1)) =? 0)
   then wrapS 64 (Z.lor u (wrapU 64 (Z.shiftl (2 ^ 64 - 1) bits))) else u) = wrapS bits u.
Proof.
  intros Hb Hu. assert (2 ^ bits = 2 * 2 ^ (bits - 1)) as E.
  { rewrite <- Z.pow_succ_r by lia. f_equal. lia. }
  assert (0 < 2 ^ (bits - 1)) by (apply Z.pow_pos_nonneg; lia). assert (2 ^ bits <= 2 ^ 63) by (apply Z.pow_le_mono_r; lia).
  rewrite land_bit by lia. assert (Z.testbit u (bits - 1) = (2 ^ (bits - 1) <=? u)) as ->.
  { rewrite Z.testbit_eqb by lia. destruct (Z.leb_spec (2 ^ (bits - 1)) u).
    - replace (u / 2 ^ (bits - 1)) with 1; [done|]. apply Z.div_unique with (u - 2 ^ (bits - 1)); lia.
    - by rewrite Z.div_small by lia. }
  destruct (Z.leb_spec (2 ^ (bits - 1)) u).
  - assert (wrapU 64 (Z.shiftl (2 ^ 64 - 1) bits) = Z.shiftl (2 ^ (64 - bits) - 1) bits) as ->.
    { rewrite !Z.shiftl_mul_pow2 by lia. unfold wrapU. symmetry. apply Z.mod_unique_pos with (2 ^ bits - 1).
      - replace (2 ^ 64) with (2 ^ (64 - bits) * 2 ^ bits) by (rewrite <- Z.pow_add_r by lia; f_equal; lia).
        assert (0 < 2 ^ (64 - bits)) by (apply Z.pow_pos_nonneg; lia). nia.
      - replace (2 ^ 64) with (2 ^ (64 - bits) * 2 ^ bits) by (rewrite <- Z.pow_add_r by lia; f_equal; lia). lia. }
    rewrite lor_shiftl by lia.
    assert (2 ^ (64 - bits) * 2 ^ bits = 2 ^ 64) by (rewrite <- Z.pow_add_r by lia; f_equal; lia).
    assert (wrapS bits u = u - 2 ^ bits) as ->.
    { unfold wrapS. rewrite <- (Z.mod_unique_pos (u + 2 ^ (bits - 1)) (2 ^ bits) 1 (u + 2 ^ (bits - 1) - 2 ^ bits)) by lia. lia. }
    unfold wrapS. change (2 ^ (64 - 1)) with (2 ^ 63).
    rewrite <- (Z.mod_unique_pos (u + (2 ^ (64 - bits) - 1) * 2 ^ bits + 2 ^ 63) (2 ^ 64) 1 (u - 2 ^ bits + 2 ^ 63)) by lia. lia.
  - symmetry. apply wrapS_small; lia.
Qed.

Lemma get_signed_ok p offset bits :
  0 <= offset -> 1 <= bits <= 64 -> offset + bits <= 8 * zlen p -> 8 * zlen p < 2 ^ 64 ->
  getSignedBitfield p offset bits = Ok (wrapS bits (bits_val (sub (bits_of p) offset bits))).
Proof.
  intros Ho Hb Hle Hmax. unfold getSignedBitfield. rewrite get_unsigned_ok, bind_Ok by done.
  pose proof (bits_val_range (sub (bits_of p) offset bits)) as Hr. rewrite zlen_sub in Hr by (rewrite ?zlen_bits_of; lia).
  set (u := bits_val _) in *. destruct (Z.ltb_spec bits 64) as [Hlt|Hge]; cbn [andb].
  - rewrite <- (sign_extend u bits) by lia. assert (2 ^ bits <= 2 ^ 63) by (apply Z.pow_le_mono_r; lia).
    rewrite wrapS_small, wrapU_small by lia. by destruct (negb _).
  - by replace bits with 64 in * by lia.
Qed.

(** The bit-field functions read and write exactly the addressed bits: reading
    gives the unsigned or two's complement value of the [bits] bits at the
    offset; writing replaces these bits by those of the value and no others, so
    that reading back gives the value reduced to the width. *)
Lemma bitfield_ok p offset bits value :
  Forall is_byte p -> 0 <= offset -> 1 <= bits <= 64 -> offset + bits <= 8 * zlen p -> 8 * zlen p < 2 ^ 64 ->
  getUnsignedBitfield p offset bits = Ok (bits_val (sub (bits_of p) offset bits)) /\
  getSignedBitfield p offset bits = Ok (wrapS bits (bits_val (sub (bits_of p) offset bits))) /\
  exists p', setUnsignedBitfield p offset bits (wrapU 64 value) = Ok p' /\ setSignedBitfield p offset bits value = Ok p' /\
    zlen p' = zlen p /\ Forall is_byte p' /\
    bits_of p' = take (Z.to_nat offset) (bits_of p) ++ val_bits (Z.to_nat bits) value ++
                 drop (Z.to_nat (offset + bits)) (bits_of p) /\
    getUnsignedBitfield p' offset bits = Ok (value mod 2 ^ bits) /\
    getSignedBitfield p' offset bits = Ok (wrapS bits value).
Proof.
  intros Hp Ho Hb Hle Hmax. split; [by apply get_unsigned_ok|]. split; [by apply get_signed_ok|].
  destruct (set_loop_ok (Z.to_nat bits) p offset (wrapU 64 value)) as (p' & E & Hl & Hb' & Hbits); [done..|lia|done|].
  assert (val_bits (Z.to_nat bits) (wrapU 64 value) = val_bits (Z.to_nat bits) value) as Ev.
  { apply val_bits_ext. intros i Hi. unfold wrapU. rewrite Z.mod_pow2_bits_low by lia. done. }
  rewrite Ev in Hbits. rewrite <- Z2Nat.inj_add in Hbits by lia.
  assert (sub (bits_of p') offset bits = val_bits (Z.to_nat bits) value) as Hsub.
  { rewrite Hbits. unfold sub. assert (length (take (Z.to_nat offset) (bits_of p)) = Z.to_nat offset) as Hlt.
    { rewrite length_take, length_bits_of. unfold zlen in Hle. lia. }
    rewrite drop_app_length' by done. rewrite take_app_length'; [done|].
    pose proof (zlen_val_bits (Z.to_nat bits) value) as Hz. unfold zlen in Hz. lia. }
  exists p'. split; [done|]. split; [done|]. split; [done|]. split; [done|]. split; [done|].
  rewrite get_signed_ok, get_unsigned_ok, Hsub, bits_val_bits, Z2Nat.id by lia. split; [done|]. f_equal.
  apply (wrapS_wrapU bits). lia.
Qed.

(** ** Overflow *)

(** The mask of the bits from [bits] on. *)
Definition high_mask (bits : Z) : Z := wrapU 64 (Z.shiftl (2 ^ 64 - 1) bits).

Lemma high_mask_bit bits i : 0 <= bits <= 64 -> 0 <= i -> Z.testbit (high_mask bits) i = (bits <=? i) && (i <? 64).
Proof.
  intros Hb Hi. unfold high_mask, wrapU. change (2 ^ 64 - 1) with (Z.ones 64). destruct (Z.ltb_spec i 64).
  - rewrite Z.mod_pow2_bits_low, Z.shiftl_spec, andb_true_r by lia. destruct (Z.leb_spec bits i).
    + by rewrite Z.ones_spec_low by lia.
    + by rewrite Z.testbit_neg_r by lia.
  - by rewrite Z.mod_pow2_bits_high, andb_false_r by lia.
Qed.

Lemma mask_low c bits : 0 <= c < 2 ^ 64 -> 0 <= bits <= 64 -> Z.land c (Z.lxor (high_mask bits) (2 ^ 64 - 1)) = c mod 2 ^ bits.
Proof.
  intros Hc Hb. apply Z.bits_inj'. intros i Hi. rewrite Z.land_spec, Z.lxor_spec, high_mask_bit by done.
  change (2 ^ 64 - 1) with (Z.ones 64). destruct (decide (i < bits)).
  - rewrite Z.mod_pow2_bits_low, Z.ones_spec_low, (proj2 (Z.leb_gt _ _)) by lia. cbn. by rewrite andb_true_r.
  - rewrite Z.mod_pow2_bits_high, (proj2 (Z.leb_le bits i)) by lia. destruct (Z.ltb_spec i 64).
    + rewrite Z.ones_spec_low by lia. cbn. by rewrite andb_false_r.
    + rewrite Z.ones_spec_high by lia. cbn. by rewrite andb_false_r.
Qed.

Lemma mask_high c bits : 0 <= c < 2 ^ 64 -> 0 <= bits <= 64 -> Z.lor c (high_mask bits) = Z.lor (c mod 2 ^ bits) (high_mask bits).
Proof.
  intros Hc Hb. apply Z.bits_inj'. intros i Hi. rewrite !Z.lor_spec, high_mask_bit by done. destruct (decide (i < bits)).
  - by rewrite Z.mod_pow2_bits_low by lia.
  - rewrite (proj2 (Z.leb_le bits i)) by lia. cbn. destruct (Z.ltb_spec i 64); [by rewrite !orb_true_r|].
    rewrite Z.mod_pow2_bits_high by lia. rewrite !orb_false_r. destruct (decide (c = 0)) as [->|]; [apply Z.bits_0|].
    apply Z.bits_above_log2; [lia|]. assert (Z.log2 c < 64) by (apply Z.log2_lt_pow2; lia). lia.
Qed.

Lemma wrapU_mod z bits : 0 <= bits <= 64 -> wrapU 64 z mod 2 ^ bits = z mod 2 ^ bits.
Proof. intros Hb. apply Z.mod_mod_divide. exists (2 ^ (64 - bits)). rewrite <- Z.pow_add_r by lia. f_equal. lia. Qed.

(** Wrapping a sum to a signed width. *)
Lemma signed_wrap sum bits :
  1 <= bits <= 64 ->
  wrapS 64 (if bits <? 64 then
    if negb (Z.land (wrapU 64 sum) (Z.shiftl 1 (bits - 1)) =? 0) then Z.lor (wrapU 64 sum) (high_mask bits)
    else Z.land (wrapU 64 sum) (Z.lxor (high_mask bits) (2 ^ 64 - 1))
  else wrapU 64 sum) = wrapS bits sum.
Proof.
  intros Hb. set (c := wrapU 64 sum). assert (0 <= c < 2 ^ 64) as Hc by (apply wrapU_range; lia).
  destruct (Z.ltb_spec bits 64) as [Hlt|Hge].
  2:{ replace bits with 64 by lia. apply wrapS_wrapU. lia. }
  assert (0 <= c mod 2 ^ bits < 2 ^ bits) as Hm by (apply Z.mod_pos_bound; lia).
  assert (2 ^ bits <= 2 ^ 63) by (apply Z.pow_le_mono_r; lia).
  assert (wrapS bits sum = wrapS bits (c mod 2 ^ bits)) as ->.
  { change (c mod 2 ^ bits) with (wrapU bits c). rewrite wrapS_wrapU by lia.
    rewrite <- (wrapS_wrapU bits sum), <- (wrapS_wrapU bits c) by lia. f_equal. symmetry. apply wrapU_mod. lia. }
  rewrite <- (sign_extend (c mod 2 ^ bits) bits) by lia. fold (high_mask bits). rewrite !land_bit by lia. rewrite Z.mod_pow2_bits_low by lia.
  destruct (Z.testbit c (bits - 1)).
  - by rewrite mask_high by lia.
  - rewrite mask_low by lia. apply wrapS_small; lia.
Qed.

(** What an operation with the given overflow behaviour makes of the exact
    result [sum] in the range from [lo] to [hi]: the overflow indication and the
    limit, wrapping by [wrap]. *)
Definition overflow_spec (lo hi sum : Z) (wrap : Z -> Z) (ow : owtype) : Z * option Z :=
  if (lo <=? sum) && (sum <=? hi) then (0, None)
  else
    match ow with
    | BFOVERFLOW_WRAP => (1, Some (wrap sum))
    | BFOVERFLOW_SAT => if hi <? sum then (1, Some hi) else (-1, Some lo)
    | BFOVERFLOW_FAIL => (if hi <? sum then 1 else -1, None)
    end.

(** [checkUnsignedBitfieldOverflow] is exact for the widths the commands
    accept: it reports an overflow or underflow exactly when the sum does not
    fit, with the sum modulo the width or the nearest bound as the limit. *)
Lemma check_unsigned_ok value incr bits ow :
  1 <= bits <= 63 -> 0 <= value < 2 ^ 64 -> - 2 ^ 63 <= incr < 2 ^ 63 -> value < 2 ^ bits \/ incr = 0 ->
  checkUnsignedBitfieldOverflow value incr bits ow =
  Ok (overflow_spec 0 (2 ^ bits - 1) (value + incr) (fun s => s mod 2 ^ bits) ow).
Proof.
  intros Hb Hv Hi Hr. unfold checkUnsignedBitfieldOverflow. assert (2 <= 2 ^ bits <= 2 ^ 63) as Hp.
  { split; [change 2 with (2 ^ 1) at 1|]; apply Z.pow_le_mono_r; lia. }
  zfalse (bits =? 64). ztrue (bits <? 64). rewrite Z.shiftl_1_l, (wrapU_small 64 (2 ^ bits)) by lia. cbv zeta.
  fold (high_mask bits). rewrite mask_low by (try apply wrapU_range; lia).
  rewrite wrapU_mod by lia.
  unfold overflow_spec. rewrite !Z.gtb_ltb. destruct (Z.ltb_spec (2 ^ bits - 1) value) as [Hgt|Hle]; cbn [orb].
  - rewrite (proj2 (Z.leb_gt (value + incr) _)), andb_false_r by lia. by destruct ow; rewrite ?(proj2 (Z.ltb_lt _ (value + incr))) by lia.
  - rewrite !wrapS_small by lia.
    destruct (Z.ltb_spec 0 incr), (Z.ltb_spec (2 ^ bits - 1 - value) incr), (Z.ltb_spec incr 0), (Z.ltb_spec incr (- value)); try lia; cbn [andb].
    all: destruct (Z.leb_spec 0 (value + incr)), (Z.leb_spec (value + incr) (2 ^ bits - 1)), (Z.ltb_spec (2 ^ bits - 1) (value + incr)); try lia; by destruct ow.
Qed.

(** [checkSignedBitfieldOverflow], compiled with wrapping signed arithmetic, is
    exact for every width when the value fits it, and for a value to store that
    is not too far below the range. *)
Lemma check_signed_ok value incr bits ow :
  1 <= bits <= 64 -> - 2 ^ 63 <= value < 2 ^ 63 -> - 2 ^ 63 <= incr < 2 ^ 63 ->
  - 2 ^ (bits - 1) <= value < 2 ^ (bits - 1) \/ incr = 0 /\ 2 ^ (bits - 1) - 1 - value < 2 ^ 63 ->
  checkSignedBitfieldOverflow true value incr bits ow =
  Ok (overflow_spec (- 2 ^ (bits - 1)) (2 ^ (bits - 1) - 1) (value + incr) (wrapS bits) ow).
Proof.
  intros Hb Hv Hi Hr. unfold checkSignedBitfieldOverflow, arith64. rewrite bind_Ok.
  assert (1 <= 2 ^ (bits - 1) <= 2 ^ 63) as Hp.
  { split; [change 1 with (2 ^ 0) at 1|]; apply Z.pow_le_mono_r; lia. }
  assert ((if bits =? 64 then INT64_MAX else Z.shiftl 1 (bits - 1) - 1) = 2 ^ (bits - 1) - 1) as ->.
  { destruct (Z.eqb_spec bits 64) as [->|]; [done|]. by rewrite Z.shiftl_1_l. }
  cbv zeta. fold (high_mask bits). assert (wrapU 64 (wrapU 64 value + wrapU 64 incr) = wrapU 64 (value + incr)) as ->.
  { unfold wrapU. by rewrite <- Z.add_mod by lia. }
  rewrite signed_wrap by lia. replace (- (2 ^ (bits - 1) - 1) - 1) with (- 2 ^ (bits - 1)) by lia.
  unfold overflow_spec. rewrite !Z.gtb_ltb, Z.geb_leb.
  assert (bits = 64 /\ 2 ^ (bits - 1) = 2 ^ 63 \/ bits <> 64 /\ 2 ^ (bits - 1) <= 2 ^ 62) as H64.
  { destruct (decide (bits = 64)) as [->|]; [auto|right]. split; [done|apply Z.pow_le_mono_r; lia]. }
  set (M := 2 ^ (bits - 1)) in *. clearbody M.
  assert (exists mi, wrapS 64 (M - 1 - value) = mi /\ (- 2 ^ 63 <= M - 1 - value < 2 ^ 63 -> mi = M - 1 - value)) as (mi & -> & Hmi).
  { eexists. split; [done|]. intros. apply wrapS_small; lia. }
  assert (exists ma, wrapS 64 (- M - value) = ma /\ (- 2 ^ 63 <= - M - value < 2 ^ 63 -> ma = - M - value)) as (ma & -> & Hma).
  { eexists. split; [done|]. intros. apply wrapS_small; lia. }
  destruct (Z.leb_spec (- M) (value + incr)), (Z.leb_spec (value + incr) (M - 1)); cbn [andb]; try lia.
  - match goal with |- context [if ?b then _ else _] => assert (b = false) as -> by lia end.
    match goal with |- context [if ?b then _ else _] => assert (b = false) as -> by lia end. done.
  - match goal with |- context [if ?b then _ else _] => assert (b = true) as -> by lia end.
    ztrue (M - 1 <? value + incr). by destruct ow.
  - match goal with |- context [if ?b then _ else _] => assert (b = false) as -> by lia end.
    match goal with |- context [if ?b then _ else _] => assert (b = true) as -> by lia end.
    zfalse (M - 1 <? value + incr). by destruct ow.
Qed.

(** A value to store that is further below the range is taken for an overflow. *)
Lemma check_signed_below value bits ow :
  1 <= bits <= 64 -> - 2 ^ 63 <= value < - 2 ^ (bits - 1) -> 2 ^ 63 <= 2 ^ (bits - 1) - 1 - value ->
  checkSignedBitfieldOverflow true value 0 bits ow =
  Ok (1, match ow with BFOVERFLOW_WRAP => Some (wrapS bits value) | BFOVERFLOW_SAT => Some (2 ^ (bits - 1) - 1) | BFOVERFLOW_FAIL => None end).
Proof.
  intros Hb Hv Hd. unfold checkSignedBitfieldOverflow, arith64. rewrite bind_Ok.
  assert (bits <> 64) as H64 by (intros ->; change (2 ^ (64 - 1)) with (2 ^ 63) in Hv; lia).
  assert (1 <= 2 ^ (bits - 1) <= 2 ^ 62) as Hp by (split; [change 1 with (2 ^ 0) at 1|]; apply Z.pow_le_mono_r; lia).
  zfalse (bits =? 64). rewrite Z.shiftl_1_l. cbv zeta. fold (high_mask bits). rewrite <- Z.shiftl_1_l.
  assert (wrapU 64 (wrapU 64 value + wrapU 64 0) = wrapU 64 (value + 0)) as -> by (unfold wrapU; by rewrite <- Z.add_mod by lia).
  rewrite signed_wrap, Z.shiftl_1_l, Z.add_0_r by lia.
  assert (wrapS 64 (2 ^ (bits - 1) - 1 - value) = 2 ^ (bits - 1) - 1 - value - 2 ^ 64) as ->.
  { unfold wrapS. change (64 - 1) with 63. rewrite <- (Z.mod_unique_pos (2 ^ (bits - 1) - 1 - value + 2 ^ 63) (2 ^ 64) 1 (2 ^ (bits - 1) - 1 - value + 2 ^ 63 - 2 ^ 64)) by lia. lia. }
  cbn [negb andb]. rewrite (proj2 (Z.gtb_lt 0 _)) by lia. rewrite orb_true_r. by destruct ow.
Qed.

(** Without wrapping arithmetic the check is the same when the difference to the
    minimum fits, and undefined when it does not. *)
Lemma check_signed_any fw value incr bits ow :
  1 <= bits <= 64 -> - 2 ^ 63 <= value < 2 ^ 63 ->
  checkSignedBitfieldOverflow fw value incr bits ow =
  if negb fw && (2 ^ 63 - 2 ^ (bits - 1) <? value) then Fault else checkSignedBitfieldOverflow true value incr bits ow.
Proof.
  intros Hb Hv. destruct fw; [done|]. cbn [negb andb]. unfold checkSignedBitfieldOverflow.
  assert (1 <= 2 ^ (bits - 1) <= 2 ^ 63) as Hp.
  { split; [change 1 with (2 ^ 0) at 1|]; apply Z.pow_le_mono_r; lia. }
  assert ((if bits =? 64 then INT64_MAX else Z.shiftl 1 (bits - 1) - 1) = 2 ^ (bits - 1) - 1) as ->.
  { destruct (Z.eqb_spec bits 64) as [->|]; [done|]. by rewrite Z.shiftl_1_l. }
  cbv zeta. unfold arith64, sint. change (2 ^ (64 - 1)) with (2 ^ 63). destruct (Z.ltb_spec (2 ^ 63 - 2 ^ (bits - 1)) value).
  - zfalse (- 2 ^ 63 <=? - (2 ^ (bits - 1) - 1) - 1 - value). done.
  - ztrue (- 2 ^ 63 <=? - (2 ^ (bits - 1) - 1) - 1 - value). ztrue (- (2 ^ (bits - 1) - 1) - 1 - value <? 2 ^ 63). cbn [andb].
    rewrite (wrapS_small 64 (- (2 ^ (bits - 1) - 1) - 1 - value)); [done| |lia]. change (2 ^ (64 - 1)) with (2 ^ 63). lia.
Qed.

(** The negation of the smallest [int64_t] is not the only undefined case: with a
    64 bit value above zero the difference to the minimum does not fit, and a
    conforming compiler may assume it does not happen. *)
Lemma check_signed_undefined value incr ow :
  0 < value < 2 ^ 63 -> checkSignedBitfieldOverflow false value incr 64 ow = Fault.
Proof.
  intros Hv. unfold checkSignedBitfieldOverflow, arith64, sint. change (64 =? 64) with true. cbv iota zeta.
  unfold INT64_MAX. match goal with |- context [if ?b then Ok ?x else Fault] => assert (b = false) as -> by lia end. done.
Qed.
