(* ===== verification/Object.v ===== *)
(** Objects, clients and the key space: what the commands are written in.

    [object.c] gives the string objects ([robj]: an sds string or an integer
    encoded one, with its reference count), the conversions between the two and
    the argument parsers that reply with an error.  A command runs on a server
    state (the database, the replies sent so far, the dirty counter and the
    events raised) and may stop early after a reply: the [cmd] monad.  The key
    space is an interface, [Keyspace], with the laws the commands rely on,
    [KeyspaceLaws]; an object is only changed in place when it is a raw string
    that nobody shares, any other write through its pointer is undefined. *)
From S2P Require Import Prelude Endian Util Glob Sds.
From stdpp Require Import gmap list strings.

Open Scope Z_scope.

(** * Definitions *)

(** The configuration and the surroundings the commands read: the limit on
    strings, whether the client must be obeyed (the AOF or the master), whether
    signed overflow wraps, whether unaligned words can be read, where strings and
    local buffers are, the longest string the allocator serves, the clock, whether
    the server is loading or a replica, the lazy freeing options, and whether the
    eviction policy forbids shared integers. *)
Record config := Config {
  proto_max_bulk_len : Z;
  mustObeyClient : bool;
  fwrapv : bool;
  use_aligned_access : bool;
  string_addr : Z;
  stack_addr : Z;
  alloc_limit : Z;
  mstime : Z;
  loading_or_replica : bool;
  lazyfree_lazy_expire : bool;
  lazyfree_lazy_user_del : bool;
  no_shared_integers : bool;
}.

(** ** Objects *)

Inductive object_type := OBJ_STRING | OBJ_LIST | OBJ_SET | OBJ_ZSET | OBJ_HASH | OBJ_STREAM | OBJ_MODULE.

#[export] Instance object_type_eq_dec : EqDecision object_type.
Proof. solve_decision. Defined.

Inductive sds_encoding := OBJ_ENCODING_RAW | OBJ_ENCODING_EMBSTR.

#[export] Instance sds_encoding_eq_dec : EqDecision sds_encoding.
Proof. solve_decision. Defined.

(** A string object holds an sds string, or an integer in its pointer; the
    contents of the other types are not looked at. *)
Inductive robj :=
| RString (encoding : sds_encoding) (refcount : Z) (ptr : list Z)
| RInt (refcount : Z) (ptr : Z)
| ROther (type : object_type) (refcount : Z).

Definition type (o : robj) : object_type :=
  match o with RString _ _ _ | RInt _ _ => OBJ_STRING | ROther t _ => t end.

Definition refcount (o : robj) : Z :=
  match o with RString _ n _ | RInt n _ | ROther _ n => n end.

Definition is_raw (o : robj) : bool :=
  match o with RString OBJ_ENCODING_RAW _ _ => true | _ => false end.

Definition sdsEncodedObject (o : robj) : bool :=
  match o with RString _ _ _ => true | _ => false end.

Definition OBJ_ENCODING_EMBSTR_SIZE_LIMIT : Z := 44.

Definition createRawStringObject (s : list Z) : robj := RString OBJ_ENCODING_RAW 1 s.

Definition createStringObject (s : list Z) : robj :=
  if zlen s <=? OBJ_ENCODING_EMBSTR_SIZE_LIMIT then RString OBJ_ENCODING_EMBSTR 1 s else createRawStringObject s.

(** The text of an integer, through a stack buffer of [size] bytes. *)
Definition ll_text `{Host} (size v : Z) : res (list Z) :=
  '(buf, len) ← ll2string (uninit <$> seq 0 (Z.to_nat size)) size v;
  rd buf 0 len.

Definition getDecodedObject `{Host} (o : robj) : res robj :=
  match o with
  | RString e n s => Ok (RString e (n + 1) s)
  | RInt _ v => 
      '(buf, _) ← ll2string (uninit <$> seq 0 32) 32 v;
      Ok (createStringObject (cstr buf))
  | ROther _ _ => Panic
  end.

Definition stringObjectLen (o : robj) : res Z :=
  match o with
  | RString _ _ s => Ok (zlen s)
  | RInt _ v => sdigits10 v
  | ROther _ _ => Panic
  end.

(** [None] is [C_ERR]. *)
Definition getLongLongFromObject (o : option robj) : res (option Z) :=
  match o with
  | None => Ok (Some 0)
  | Some (RString _ _ s) => string2ll s (zlen s)
  | Some (RInt _ v) => Ok (Some v)
  | Some (ROther _ _) => Panic
  end.

Definition OBJ_SHARED_INTEGERS : Z := 10000.
Definition OBJ_SHARED_REFCOUNT : Z := INT32_MAX.

(** [shared.integers[value]] *)
Definition shared_integer (value : Z) : robj := RInt OBJ_SHARED_REFCOUNT value.

(** [valueobj] is set for values of the key space.  [long] and [long long] have the
    same range, so the last branch, [sdsfromlonglong], is never taken. *)
Definition createStringObjectFromLongLongWithOptions (cfg : config) (value : Z) (valueobj : bool) : res robj :=
  let valueobj := if negb (no_shared_integers cfg) then false else valueobj in
  if (value >=? 0) && (value <? OBJ_SHARED_INTEGERS) && negb valueobj then Ok (shared_integer value)
  else if (value >=? INT64_MIN) && (value <=? INT64_MAX) then Ok (RInt 1 value)
  else Ok (createRawStringObject (ll_repr value)).

Definition createStringObjectFromLongLong (cfg : config) (value : Z) : res robj :=
  createStringObjectFromLongLongWithOptions cfg value false.

Definition createStringObjectFromLongLongForValue (cfg : config) (value : Z) : res robj :=
  createStringObjectFromLongLongWithOptions cfg value true.

(** [trimStringObjectIfNeeded], the last step, changes the free space only. *)
Definition tryObjectEncoding (cfg : config) (o : robj) : res robj :=
  match o with
  | ROther _ _ => Panic
  | RInt _ _ => Ok o
  | RString encoding refcount s =>
      if refcount >? 1 then Ok o
      else
        let len := zlen s in
        v ← (if len <=? 20 then string2l s len else Ok None);
        match v with
        | Some value =>
            if negb (no_shared_integers cfg) && (value >=? 0) && (value <? OBJ_SHARED_INTEGERS) then Ok (shared_integer value)
            else
              match encoding with
              | OBJ_ENCODING_RAW => Ok (RInt refcount value)
              | OBJ_ENCODING_EMBSTR => createStringObjectFromLongLongForValue cfg value
              end
        | None =>
            if len <=? OBJ_ENCODING_EMBSTR_SIZE_LIMIT then
              match encoding with
              | OBJ_ENCODING_EMBSTR => Ok o
              | OBJ_ENCODING_RAW => Ok (RString OBJ_ENCODING_EMBSTR 1 s)
              end
            else Ok o
        end
  end.

(** Room for a string of [len] bytes: the process aborts when the allocator has
    none. *)
Definition sds_alloc (cfg : config) (len : Z) : res unit := if len <=? alloc_limit cfg then Ok tt else Panic.

(** [sdsnewlen(NULL, len)] *)
Definition sdsnewlen_zero (len : Z) : list Z := replicate (Z.to_nat len) 0.

(** ** C strings *)

(** [!strcasecmp(s, name)] for a literal. *)
Definition strcase_eq (s : list Z) (name : String.string) : bool :=
  bool_decide (tolower <$> cstr s = tolower <$> chars name).

(** [p[i]] of an sds string, its terminator included. *)
Definition sds_at (s : list Z) (i : Z) : res Z := rd1 (s ++ [0]) i.

(** ** Replies, events and the state of a command *)

Inductive reply_item :=
| ReplyInteger (z : Z)
| ReplyBulk (s : list Z)
| ReplyNull
| ReplyStatus (s : String.string)
| ReplyArrayLen (n : Z)
| ReplyMapLen (n : Z)
| ReplyError (msg : String.string).

Definition shared_czero : reply_item := ReplyInteger 0.
Definition shared_cone : reply_item := ReplyInteger 1.
Definition shared_ok : reply_item := ReplyStatus "OK"%string.
Definition shared_emptybulk : reply_item := ReplyBulk [].
Definition shared_syntaxerr : reply_item := ReplyError "syntax error"%string.
Definition shared_wrongtypeerr : reply_item :=
  ReplyError "WRONGTYPE Operation against a key holding the wrong kind of value"%string.

Inductive notify_class := NOTIFY_STRING | NOTIFY_GENERIC.

Inductive event :=
| SignalModifiedKey (key : list Z)
| Notify (class : notify_class) (name : String.string) (key : list Z)
| RewriteVector (argv : list robj)
| RewriteArgument (i : Z) (newval : robj).

Record server (DB : Type) := Server {
  sdb : DB;
  reply : list reply_item;
  dirty : Z;
  events : list event;
}.
Arguments Server {DB} _ _ _ _.
Arguments sdb {DB} _.
Arguments reply {DB} _.
Arguments dirty {DB} _.
Arguments events {DB} _.

(** [None] is an early return of the command. *)
Definition cmd (DB A : Type) : Type := server DB -> res (server DB * option A).

#[export] Instance cmd_ret {DB} : MRet (cmd DB) := fun A a s => Ok (s, Some a).

#[export] Instance cmd_bind {DB} : MBind (cmd DB) := fun A B k m s =>
  match m s with
  | Ok (s, Some a) => k a s
  | Ok (s, None) => Ok (s, None)
  | Panic => Panic
  | Fault => Fault
  | OutOfFuel => OutOfFuel
  end.

Definition lift {DB A} (m : res A) : cmd DB A := fun s =>
  match m with
  | Ok a => Ok (s, Some a)
  | Panic => Panic
  | Fault => Fault
  | OutOfFuel => OutOfFuel
  end.

Definition return_early {DB A} : cmd DB A := fun s => Ok (s, None).

Definition addReply {DB} (r : reply_item) : cmd DB unit := fun s =>
  Ok (Server (sdb s) (reply s ++ [r]) (dirty s) (events s), Some tt).

(** [addReplyError(c, ...); return] *)
Definition reply_and_return {DB A} (r : reply_item) : cmd DB A := addReply r;; return_early.

Definition raise {DB} (e : event) : cmd DB unit := fun s =>
  Ok (Server (sdb s) (reply s) (dirty s) (events s ++ [e]), Some tt).

Definition signalModifiedKey {DB} (key : list Z) : cmd DB unit := raise (SignalModifiedKey key).

Definition notifyKeyspaceEvent {DB} (class : notify_class) (name : String.string) (key : list Z) : cmd DB unit :=
  raise (Notify class name key).

(** The command is propagated as another one, or with another argument. *)
Definition rewriteClientCommandVector {DB} (argv : list robj) : cmd DB unit := raise (RewriteVector argv).

Definition rewriteClientCommandArgument {DB} (i : Z) (newval : robj) : cmd DB unit := raise (RewriteArgument i newval).

(** [server.dirty += n] *)
Definition add_dirty {DB} (n : Z) : cmd DB unit := fun s =>
  Ok (Server (sdb s) (reply s) (dirty s + n) (events s), Some tt).

(** A database operation. *)
Definition on_db {DB A} (f : DB -> res (DB * A)) : cmd DB A := fun s =>
  match f (sdb s) with
  | Ok (d, a) => Ok (Server d (reply s) (dirty s) (events s), Some a)
  | Panic => Panic
  | Fault => Fault
  | OutOfFuel => OutOfFuel
  end.

(** ** The key space *)

(** Flags of a lookup. *)
Definition LOOKUP_NONE : Z := 0.
Definition LOOKUP_NOTOUCH : Z := Z.shiftl 1 0.
Definition LOOKUP_NONOTIFY : Z := Z.shiftl 1 1.
Definition LOOKUP_NOSTATS : Z := Z.shiftl 1 2.
Definition LOOKUP_WRITE : Z := Z.shiftl 1 3.
Definition LOOKUP_NOEXPIRE : Z := Z.shiftl 1 4.

Class Keyspace (DB : Type) := {
  lookupKeyReadWithFlags : list Z -> Z -> DB -> res (DB * option robj);
  lookupKeyWriteWithFlags : list Z -> Z -> DB -> res (DB * option robj);
  dbAdd : list Z -> robj -> DB -> res (DB * unit);
  dbOverwrite : list Z -> robj -> DB -> res (DB * unit);
  (** [true]: the object may be freed in the background. *)
  dbGenericDelete : list Z -> bool -> DB -> res (DB * bool);
  lazyfree_lazy_server_del : bool;
  (** The time a key expires at, in milliseconds; [-1] for none. *)
  getExpire : list Z -> DB -> res (DB * Z);
  setExpire : list Z -> Z -> DB -> res (DB * unit);
  removeExpire : list Z -> DB -> res (DB * bool);
  expireIfNeeded : list Z -> DB -> res (DB * bool);
  (** A write through the pointer to the object stored at a key. *)
  write_object : list Z -> robj -> DB -> res (DB * unit);
}.

Section KeyspaceHelpers.
Context {DB : Type} `{Keyspace DB}.

Definition lookupKeyRead (key : list Z) : DB -> res (DB * option robj) := lookupKeyReadWithFlags key LOOKUP_NONE.
Definition lookupKeyWrite (key : list Z) : DB -> res (DB * option robj) := lookupKeyWriteWithFlags key LOOKUP_NONE.
Definition dbSyncDelete (key : list Z) : DB -> res (DB * bool) := dbGenericDelete key false.
Definition dbAsyncDelete (key : list Z) : DB -> res (DB * bool) := dbGenericDelete key true.
Definition dbDelete (key : list Z) : DB -> res (DB * bool) := dbGenericDelete key lazyfree_lazy_server_del.

End KeyspaceHelpers.

(** What the commands rely on: at the time a command runs, the database is a map
    from keys to objects and one from keys to expire times, from which the keys
    whose time is over are gone.  A key is [vacant] when it can be added: an
    expired key that is still stored is not, until a lookup for writing has
    removed it; [expired] says which times are over.  The [storable] keys are those
    the database can hold: there is memory for them, and their lengths are no
    larger than the comparison of keys can handle.  On a [primary], every access
    removes an expired key, a deletion included. *)
Class KeyspaceLaws (DB : Type) `{Keyspace DB} := {
  db_wf : DB -> Prop;
  storable : list Z -> Prop;
  view : DB -> gmap (list Z) robj;
  expires : DB -> gmap (list Z) Z;
  vacant : DB -> list Z -> Prop;
  expired : Z -> bool;
  primary : Prop;
  expires_live : forall k t d, db_wf d -> expires d !! k = Some t -> expired t = false;
  lookup_read_ok : forall k flags d, storable k -> db_wf d -> Z.land flags LOOKUP_WRITE = 0 ->
    exists d', lookupKeyReadWithFlags k flags d = Ok (d', view d !! k) /\ db_wf d' /\ view d' = view d /\ expires d' = expires d;
  lookup_write_ok : forall k d, storable k -> db_wf d ->
    exists d', lookupKeyWriteWithFlags k LOOKUP_NONE d = Ok (d', view d !! k) /\ db_wf d' /\ view d' = view d /\ expires d' = expires d /\
      (view d !! k = None -> vacant d' k);
  add_ok : forall k o d, storable k -> db_wf d -> vacant d k ->
    exists d', dbAdd k o d = Ok (d', tt) /\ db_wf d' /\ view d' = <[k := o]> (view d) /\ expires d' = expires d;
  overwrite_ok : forall k o d, storable k -> db_wf d -> is_Some (view d !! k) ->
    exists d', dbOverwrite k o d = Ok (d', tt) /\ db_wf d' /\ view d' = <[k := o]> (view d) /\ expires d' = expires d;
  delete_ok : forall k async d, storable k -> db_wf d ->
    exists d' b, dbGenericDelete k async d = Ok (d', b) /\ (is_Some (view d !! k) -> b = true) /\ (vacant d k -> b = false) /\ db_wf d' /\
      view d' = delete k (view d) /\ expires d' = delete k (expires d) /\ vacant d' k;
  get_expire_ok : forall k d, storable k -> db_wf d -> is_Some (view d !! k) ->
    exists d', getExpire k d = Ok (d', default (-1) (expires d !! k)) /\ db_wf d' /\ view d' = view d /\ expires d' = expires d /\
      forall k', vacant d k' -> vacant d' k';
  set_expire_ok : forall k t d, storable k -> db_wf d -> is_Some (view d !! k) ->
    exists d', setExpire k t d = Ok (d', tt) /\ db_wf d' /\
      view d' = (if expired t then delete k (view d) else view d) /\
      expires d' = (if expired t then delete k (expires d) else <[k := t]> (expires d));
  remove_expire_ok : forall k d, storable k -> db_wf d -> is_Some (view d !! k) ->
    exists d', removeExpire k d = Ok (d', bool_decide (is_Some (expires d !! k))) /\ db_wf d' /\
      view d' = view d /\ expires d' = delete k (expires d);
  expire_if_needed_ok : forall k d, storable k -> db_wf d ->
    exists d' b, expireIfNeeded k d = Ok (d', b) /\ db_wf d' /\ view d' = view d /\ expires d' = expires d /\
      (primary -> view d !! k = None -> vacant d' k);
  write_object_ok : forall k o d, storable k -> db_wf d -> is_Some (view d !! k) ->
    exists d', write_object k o d = Ok (d', tt) /\ db_wf d' /\ view d' = <[k := o]> (view d) /\ expires d' = expires d;
}.
(** ** Helpers of the commands *)

Section Commands.
Context `{Host} {DB : Type} `{Keyspace DB}.

(** [checkType(c, o, OBJ_STRING)], returning when it fails. *)
Definition checkType (o : option robj) (t : object_type) : cmd DB unit :=
  match o with
  | Some o => if bool_decide (type o = t) then mret tt else reply_and_return shared_wrongtypeerr
  | None => mret tt
  end.

Definition lookupKeyReadOrReply (key : list Z) (r : reply_item) : cmd DB robj :=
  o ← on_db (lookupKeyRead key);
  match o with
  | None => reply_and_return r
  | Some o => mret o
  end.

Definition getLongLongFromObjectOrReply (o : option robj) (msg : option String.string) : cmd DB Z :=
  v ← lift (getLongLongFromObject o);
  match v with
  | None => reply_and_return (ReplyError (default "value is not an integer or out of range"%string msg))
  | Some value => mret value
  end.

Definition getLongFromObjectOrReply (o : option robj) (msg : option String.string) : cmd DB Z :=
  value ← getLongLongFromObjectOrReply o msg;
  if (value <? INT64_MIN) || (value >? INT64_MAX)
  then reply_and_return (ReplyError (default "value is out of range"%string msg))
  else mret value.

Definition dbUnshareStringValue (key : list Z) (o : robj) : cmd DB robj :=
  match type o with
  | OBJ_STRING =>
      if negb (refcount o =? 1) || negb (is_raw o) then
        decoded ← lift (getDecodedObject o);
        match decoded with
        | RString _ _ s =>
            let o := createRawStringObject s in
            on_db (dbOverwrite key o);;
            mret o
        | _ => lift Fault
        end
      else mret o
  | _ => lift Panic
  end.

(** [o->ptr] replaced or its bytes changed: only for an unshared raw string. *)
Definition set_ptr (key : list Z) (o : robj) (s : list Z) : cmd DB robj :=
  if is_raw o && (refcount o =? 1) then
    let o := RString OBJ_ENCODING_RAW 1 s in
    on_db (write_object key o);;
    mret o
  else lift Fault.

(** [setKey] with its flags: [keepttl] is [SETKEY_KEEPTTL]; [exists_] is
    [Some true] for [SETKEY_ALREADY_EXIST], [Some false] for
    [SETKEY_DOESNT_EXIST] and [None] when the lookup is left to the function. *)
Definition setKey (key : list Z) (val : robj) (keepttl : bool) (exists_ : option bool) : cmd DB unit :=
  keyfound ← match exists_ with
             | Some b => mret b
             | None => o ← on_db (lookupKeyWrite key); mret (bool_decide (is_Some o))
             end;
  (if negb keyfound then on_db (dbAdd key val) else on_db (dbOverwrite key val));;
  (if negb keepttl then on_db (removeExpire key);; mret tt else mret tt);;
  signalModifiedKey key.

(** A bulk reply: the length announced comes from [stringObjectLen], the text from
    the object; a client cannot follow when they differ. *)
Definition addReplyBulk (obj : robj) : cmd DB unit :=
  len ← lift (stringObjectLen obj);
  text ← lift match obj with
              | RString _ _ s => Ok s
              | RInt _ v => ll_text 32 v
              | ROther _ _ => Panic
              end;
  if len =? zlen text then addReply (ReplyBulk text) else lift Fault.

(** The bytes of a sds string object. *)
Definition sds_of (o : robj) : cmd DB (list Z) :=
  match o with RString _ _ s => mret s | _ => lift Fault end.

(** [c->argv[i]->ptr]: the arguments are sds strings. *)
Definition arg (argv : list (list Z)) (i : Z) : cmd DB (list Z) :=
  match argv !! Z.to_nat i with Some s => mret s | None => lift Fault end.

(** An argument as an object. *)
Definition argo (argv : list (list Z)) (i : Z) : cmd DB (option robj) :=
  s ← arg argv i; mret (Some (createStringObject s)).

End Commands.

(** * Specification *)

(** The string an object stands for. *)
Definition obj_str (o : robj) : option (list Z) :=
  match o with
  | RString _ _ s => Some s
  | RInt _ v => Some (ll_repr v)
  | ROther _ _ => None
  end.

(** A well-formed object: an integer is a [long], a string is made of bytes and
    not longer than the protocol allows. *)
Definition MAX_STRING : Z := 2 ^ 50.
Definition obj_wf (o : robj) : Prop :=
  match o with
  | RString _ n s => 1 <= n /\ Forall is_byte s /\ zlen s < MAX_STRING
  | RInt n v => 1 <= n /\ INT64_MIN <= v <= INT64_MAX
  | ROther t n => 1 <= n /\ t <> OBJ_STRING
  end.

(** The string at a key, empty when there is none; no string of the wrong type. *)
Definition string_at (m : gmap (list Z) robj) (key s : list Z) : Prop :=
  match m !! key with
  | Some o => obj_wf o /\ obj_str o = Some s
  | None => s = []
  end.

(** A plain map is a key space in which nothing expires by itself. *)
Definition plain_db : Type := gmap (list Z) robj * gmap (list Z) Z.

#[export] Instance plain_keyspace : Keyspace plain_db := {|
  lookupKeyReadWithFlags k flags d := Ok (d, d.1 !! k);
  lookupKeyWriteWithFlags k flags d := Ok (d, d.1 !! k);
  dbAdd k o d := match d.1 !! k with None => Ok ((<[k := o]> d.1, d.2), tt) | Some _ => Panic end;
  dbOverwrite k o d := match d.1 !! k with Some _ => Ok ((<[k := o]> d.1, d.2), tt) | None => Panic end;
  dbGenericDelete k async d := Ok ((delete k d.1, delete k d.2), bool_decide (is_Some (d.1 !! k)));
  lazyfree_lazy_server_del := false;
  getExpire k d := Ok (d, default (-1) (d.2 !! k));
  setExpire k t d := match d.1 !! k with Some _ => Ok ((d.1, <[k := t]> d.2), tt) | None => Panic end;
  removeExpire k d := match d.1 !! k with
    | Some _ => Ok ((d.1, delete k d.2), bool_decide (is_Some (d.2 !! k))) | None => Panic end;
  expireIfNeeded k d := Ok (d, false);
  write_object k o d := match d.1 !! k with Some _ => Ok ((<[k := o]> d.1, d.2), tt) | None => Fault end;
|}.

#[export] Instance plain_laws : KeyspaceLaws plain_db.
Proof.
  refine {| db_wf d := True; storable k := True; view d := d.1; expires d := d.2; vacant d k := d.1 !! k = None; expired t := false;
    primary := True |}; intros; cbn; try match goal with Hk : is_Some (_ !! _) |- _ => destruct Hk as [? ->] end; eauto 8.
  - by rewrite H1; eauto.
  - eexists _, _. split_and!; [done| | |done..|apply lookup_delete_eq].
    + intros. by apply bool_decide_eq_true_2.
    + intros ->. by apply bool_decide_eq_false_2; intros [? ?].
Defined.

(** * Lemmas *)

Lemma cmd_bind_ok {DB A B} (m : cmd DB A) (k : A -> cmd DB B) s s' a :
  m s = Ok (s', Some a) -> (x ← m; k x) s = k a s'.
Proof. intros E. unfold mbind, cmd_bind. by rewrite E. Qed.

Lemma cmd_bind_return {DB A B} (m : cmd DB A) (k : A -> cmd DB B) s s' :
  m s = Ok (s', None) -> (x ← m; k x) s = Ok (s', None).
Proof. intros E. unfold mbind, cmd_bind. by rewrite E. Qed.

Lemma zlen_grow s n : zlen (sdsgrowzero_bytes s n) = Z.max (zlen s) n.
Proof. unfold sdsgrowzero_bytes. destruct (Z.leb_spec n (zlen s)); [lia|]. unfold zlen in *. rewrite length_app, length_replicate. lia. Qed.

Lemma grow_bytes s n : Forall is_byte s -> Forall is_byte (sdsgrowzero_bytes s n).
Proof.
  intros Hs. unfold sdsgrowzero_bytes. destruct (_ <=? _); [done|]. apply Forall_app. split; [done|].
  apply Forall_replicate. unfold is_byte. lia.
Qed.

Lemma string_at_wf m key s : string_at m key s -> Forall is_byte s /\ zlen s < MAX_STRING.
Proof.
  unfold string_at. destruct (m !! key) as [[e n s0|n v|]|]; cbn; intros Hs.
  - destruct Hs as [(? & ? & ?) [= ->]]. done.
  - destruct Hs as [(? & Hv) [= <-]]. split; [apply ll_repr_bytes|]. pose proof (ll_repr_bound v Hv). unfold MAX_STRING. lia.
  - by destruct Hs.
  - subst. split; [constructor|done].
Qed.

Lemma string2ll_repr v : INT64_MIN <= v <= INT64_MAX -> string2ll (ll_repr v) (zlen (ll_repr v)) = Ok (Some v).
Proof. intros Hv. destruct (string2ll_ok (ll_repr v)) as (r & -> & Hr). f_equal. by apply Hr. Qed.

Lemma ll_repr_head v : INT64_MIN <= v <= INT64_MAX -> exists c l, ll_repr v = c :: l /\ 45 <= c <= 57.
Proof.
  intros Hv. pose proof (ll_repr_bound v Hv). pose proof (ll_repr_chars v) as Hc.
  destruct (ll_repr v) as [|c l]; [change (zlen []) with 0 in *; lia|]. exists c, l. by inversion Hc.
Qed.

(** The canonical text of an integer in a stack buffer. *)
Lemma ll2string_buffer `{Host} size v :
  LONG_STR_SIZE <= size -> INT64_MIN <= v <= INT64_MAX ->
  exists D, ll2string (uninit <$> seq 0 (Z.to_nat size)) size v = Ok (ll_repr v ++ [0] ++ D, zlen (ll_repr v)).
Proof.
  intros Hs Hv. unfold LONG_STR_SIZE in Hs. set (buf := uninit <$> _). assert (zlen buf = size) as Hb.
  { unfold buf, zlen. rewrite length_fmap, length_seq. lia. }
  pose proof (ll_repr_bound v Hv). destruct (cut_at buf (zlen (ll_repr v) + 1)) as (X & D & -> & HX & HD); [lia|].
  exists D. apply ll2string_ok; [done..|lia].
Qed.

Lemma ll_text_ok `{Host} size v : LONG_STR_SIZE <= size -> INT64_MIN <= v <= INT64_MAX -> ll_text size v = Ok (ll_repr v).
Proof.
  intros Hs Hv. unfold ll_text. destruct (ll2string_buffer size v) as [D ->]; [done..|]. rewrite bind_Ok.
  by apply rd_app_head.
Qed.

Lemma decode_ok `{Host} o s :
  obj_wf o -> obj_str o = Some s -> exists e n, getDecodedObject o = Ok (RString e n s).
Proof.
  intros Hw Hs. unfold getDecodedObject. destruct o as [e n s0|n v|]; cbn [obj_str obj_wf] in *; simplify_eq; [eauto|].
  destruct (ll2string_buffer 32 v) as [D E]; [done|lia|]. change (Z.to_nat 32) with 32%nat in E. rewrite E, bind_Ok.
  cbn [app]. rewrite cstr_app; [unfold createStringObject; ztest; by eexists _, _|].
  eapply Forall_impl; [apply ll_repr_chars|]. cbn. lia.
Qed.


(** ** Running commands *)

(** The command runs without panic or undefined behaviour, and the final state and
    result satisfy [Q]. *)
Definition runs {DB A} (m : cmd DB A) (s : server DB) (Q : server DB -> option A -> Prop) : Prop :=
  exists s' a, m s = Ok (s', a) /\ Q s' a.

Definition with_db {DB} (s : server DB) (d : DB) : server DB := Server d (reply s) (dirty s) (events s).
Definition with_reply {DB} (s : server DB) (r : reply_item) : server DB :=
  Server (sdb s) (reply s ++ [r]) (dirty s) (events s).
Definition with_event {DB} (s : server DB) (e : event) : server DB :=
  Server (sdb s) (reply s) (dirty s) (events s ++ [e]).
Definition with_dirty {DB} (s : server DB) (n : Z) : server DB :=
  Server (sdb s) (reply s) (dirty s + n) (events s).

Section Rules.
Context {DB : Type}.

Lemma runs_bind {A B} (m : cmd DB A) (k : A -> cmd DB B) s Q :
  runs m s (fun s' r => match r with Some a => runs (k a) s' Q | None => Q s' None end) ->
  runs (x ← m; k x) s Q.
Proof.
  intros (s' & r & E & HQ). unfold runs, mbind, cmd_bind in *. rewrite E. destruct r; [exact HQ|eauto].
Qed.

(** A command that ends the process after a part that runs. *)
Lemma bind_ends {A B} (m : cmd DB A) (k : A -> cmd DB B) s (e : res (server DB * option B)) :
  runs m s (fun s' r => match r with Some a => k a s' = e | None => False end) -> (x ← m; k x) s = e.
Proof. intros (s' & r & E & Hr). unfold mbind, cmd_bind. rewrite E. by destruct r. Qed.

Lemma runs_ret {A} (a : A) (s : server DB) (Q : _ -> _ -> Prop) : Q s (Some a) -> runs (mret a) s Q.
Proof. intros HQ. by exists s, (Some a). Qed.

Lemma runs_lift {A} (m : res A) a (s : server DB) (Q : _ -> _ -> Prop) : m = Ok a -> Q s (Some a) -> runs (lift m) s Q.
Proof. intros -> HQ. by exists s, (Some a). Qed.

Lemma runs_early {A} (s : server DB) (Q : _ -> option A -> Prop) : Q s None -> runs return_early s Q.
Proof. intros HQ. by exists s, None. Qed.

Lemma runs_reply r (s : server DB) (Q : _ -> _ -> Prop) : Q (with_reply s r) (Some tt) -> runs (addReply r) s Q.
Proof. intros HQ. by eexists _, _. Qed.

Lemma runs_reply_return {A} r (s : server DB) (Q : _ -> option A -> Prop) :
  Q (with_reply s r) None -> runs (reply_and_return r) s Q.
Proof. intros HQ. by eexists _, _. Qed.

Lemma runs_raise e (s : server DB) (Q : _ -> _ -> Prop) : Q (with_event s e) (Some tt) -> runs (raise e) s Q.
Proof. intros HQ. by eexists _, _. Qed.

Lemma runs_signal k (s : server DB) (Q : _ -> _ -> Prop) :
  Q (with_event s (SignalModifiedKey k)) (Some tt) -> runs (signalModifiedKey k) s Q.
Proof. apply runs_raise. Qed.

Lemma runs_notify c n k (s : server DB) (Q : _ -> _ -> Prop) :
  Q (with_event s (Notify c n k)) (Some tt) -> runs (notifyKeyspaceEvent c n k) s Q.
Proof. apply runs_raise. Qed.

Lemma runs_dirty n (s : server DB) (Q : _ -> _ -> Prop) : Q (with_dirty s n) (Some tt) -> runs (add_dirty n) s Q.
Proof. intros HQ. by eexists _, _. Qed.

Lemma runs_on_db {A} (f : DB -> res (DB * A)) d a (s : server DB) (Q : _ -> _ -> Prop) :
  f (sdb s) = Ok (d, a) -> Q (with_db s d) (Some a) -> runs (on_db f) s Q.
Proof. intros E HQ. unfold runs, on_db. rewrite E. by eexists _, _. Qed.

Lemma runs_arg argv i a (s : server DB) (Q : _ -> _ -> Prop) :
  argv !! Z.to_nat i = Some a -> Q s (Some a) -> runs (arg argv i) s Q.
Proof. intros E HQ. unfold arg. rewrite E. by apply runs_ret. Qed.

Lemma runs_impl {A} (m : cmd DB A) s (P Q : _ -> _ -> Prop) : runs m s P -> (forall s' a, P s' a -> Q s' a) -> runs m s Q.
Proof. intros (s' & a & E & HP) HQ. exists s', a. auto. Qed.

Context `{Host} `{KeyspaceLaws DB}.

Lemma runs_check_string o (s : server DB) (Q : _ -> _ -> Prop) :
  type o = OBJ_STRING -> Q s (Some tt) -> runs (checkType (Some o) OBJ_STRING) s Q.
Proof. intros E HQ. unfold checkType. rewrite bool_decide_eq_true_2 by done. by apply runs_ret. Qed.

Lemma runs_read_flags k flags (s : server DB) (Q : _ -> _ -> Prop) :
  storable k -> db_wf (sdb s) -> Z.land flags LOOKUP_WRITE = 0 ->
  (forall d, db_wf d -> view d = view (sdb s) -> expires d = expires (sdb s) -> Q (with_db s d) (Some (view (sdb s) !! k))) ->
  runs (on_db (lookupKeyReadWithFlags k flags)) s Q.
Proof. intros Hst Hw Hf HQ. destruct (lookup_read_ok k flags _ Hst Hw Hf) as (d & E & ? & ? & ?). eapply runs_on_db; [done|auto]. Qed.

Lemma runs_read k (s : server DB) (Q : _ -> _ -> Prop) :
  storable k -> db_wf (sdb s) ->
  (forall d, db_wf d -> view d = view (sdb s) -> expires d = expires (sdb s) -> Q (with_db s d) (Some (view (sdb s) !! k))) ->
  runs (on_db (lookupKeyRead k)) s Q.
Proof. intros Hst Hw HQ. apply runs_read_flags; [done..|]. auto. Qed.

Lemma runs_write k (s : server DB) (Q : _ -> _ -> Prop) :
  storable k -> db_wf (sdb s) ->
  (forall d, db_wf d -> view d = view (sdb s) -> expires d = expires (sdb s) -> (view (sdb s) !! k = None -> vacant d k) ->
    Q (with_db s d) (Some (view (sdb s) !! k))) ->
  runs (on_db (lookupKeyWrite k)) s Q.
Proof. intros Hst Hw HQ. destruct (lookup_write_ok k _ Hst Hw) as (d & E & ? & ? & ? & ?). eapply runs_on_db; [done|auto]. Qed.

Lemma runs_add k o (s : server DB) (Q : _ -> _ -> Prop) :
  storable k -> db_wf (sdb s) -> vacant (sdb s) k ->
  (forall d, db_wf d -> view d = <[k := o]> (view (sdb s)) -> expires d = expires (sdb s) -> Q (with_db s d) (Some tt)) ->
  runs (on_db (dbAdd k o)) s Q.
Proof. intros Hst Hw Hv HQ. destruct (add_ok k o _ Hst Hw Hv) as (d & E & ? & ? & ?). eapply runs_on_db; [done|auto]. Qed.

Lemma runs_overwrite k o (s : server DB) (Q : _ -> _ -> Prop) :
  storable k -> db_wf (sdb s) -> is_Some (view (sdb s) !! k) ->
  (forall d, db_wf d -> view d = <[k := o]> (view (sdb s)) -> expires d = expires (sdb s) -> Q (with_db s d) (Some tt)) ->
  runs (on_db (dbOverwrite k o)) s Q.
Proof. intros Hst Hw Hv HQ. destruct (overwrite_ok k o _ Hst Hw Hv) as (d & E & ? & ? & ?). eapply runs_on_db; [done|auto]. Qed.

Lemma runs_write_object k o (s : server DB) (Q : _ -> _ -> Prop) :
  storable k -> db_wf (sdb s) -> is_Some (view (sdb s) !! k) ->
  (forall d, db_wf d -> view d = <[k := o]> (view (sdb s)) -> expires d = expires (sdb s) -> Q (with_db s d) (Some tt)) ->
  runs (on_db (write_object k o)) s Q.
Proof. intros Hst Hw Hv HQ. destruct (write_object_ok k o _ Hst Hw Hv) as (d & E & ? & ? & ?). eapply runs_on_db; [done|auto]. Qed.

(** [dbUnshareStringValue] makes the object stored at the key an unshared raw
    string of the same contents. *)
Lemma runs_unshare k o str (s : server DB) (Q : _ -> _ -> Prop) :
  storable k -> db_wf (sdb s) -> view (sdb s) !! k = Some o -> obj_wf o -> obj_str o = Some str ->
  (forall d, db_wf d -> view d = <[k := createRawStringObject str]> (view (sdb s)) -> expires d = expires (sdb s) ->
    Q (with_db s d) (Some (createRawStringObject str))) ->
  runs (dbUnshareStringValue k o) s Q.
Proof.
  intros Hst Hw Hk Ho Hs HQ. unfold dbUnshareStringValue. assert (type o = OBJ_STRING) as -> by (by destruct o).
  destruct (negb _ || negb _) eqn:E.
  - apply runs_bind. destruct (decode_ok o str Ho Hs) as (e & n & Hd). eapply runs_lift; [done|].
    apply runs_bind. apply runs_overwrite; [done..|by rewrite Hk|]. intros. apply runs_ret. auto.
  - apply runs_ret. destruct o as [[] n s0| |]; cbn in *; simplify_eq; try (by rewrite orb_true_r in E).
    assert (n = 1) as -> by lia. destruct s as [d0 r0 dt0 e0]. apply (HQ d0); [done| |done].
    symmetry. by apply insert_id.
Qed.

Lemma runs_set_ptr k str str' (s : server DB) (Q : _ -> _ -> Prop) :
  storable k -> db_wf (sdb s) -> is_Some (view (sdb s) !! k) ->
  (forall d, db_wf d -> view d = <[k := createRawStringObject str']> (view (sdb s)) -> expires d = expires (sdb s) ->
    Q (with_db s d) (Some (createRawStringObject str'))) ->
  runs (set_ptr k (createRawStringObject str) str') s Q.
Proof.
  intros Hst Hw Hk HQ. unfold set_ptr. cbn [createRawStringObject is_raw refcount andb]. change (1 =? 1) with true. cbv iota.
  apply runs_bind, runs_write_object; [done..|]. intros. apply runs_ret. auto.
Qed.

Lemma runs_delete k async (s : server DB) (Q : _ -> _ -> Prop) :
  storable k -> db_wf (sdb s) ->
  (forall d b, db_wf d -> (is_Some (view (sdb s) !! k) -> b = true) -> (vacant (sdb s) k -> b = false) -> view d = delete k (view (sdb s)) ->
    expires d = delete k (expires (sdb s)) -> vacant d k -> Q (with_db s d) (Some b)) ->
  runs (on_db (dbGenericDelete k async)) s Q.
Proof. intros Hst Hw HQ. destruct (delete_ok k async _ Hst Hw) as (d & b & E & ? & ? & ? & ? & ? & ?). eapply runs_on_db; [done|auto]. Qed.

Lemma runs_delete_lazily k (lazy : bool) (s : server DB) (Q : _ -> _ -> Prop) :
  runs (on_db (dbGenericDelete k lazy)) s Q -> runs (on_db (if lazy then dbAsyncDelete k else dbSyncDelete k)) s Q.
Proof. by destruct lazy. Qed.

Lemma runs_get_expire k (s : server DB) (Q : _ -> _ -> Prop) :
  storable k -> db_wf (sdb s) -> is_Some (view (sdb s) !! k) ->
  (forall d, db_wf d -> view d = view (sdb s) -> expires d = expires (sdb s) -> (forall k', vacant (sdb s) k' -> vacant d k') ->
    Q (with_db s d) (Some (default (-1) (expires (sdb s) !! k)))) ->
  runs (on_db (getExpire k)) s Q.
Proof. intros Hst Hw Hv HQ. destruct (get_expire_ok k _ Hst Hw Hv) as (d & E & ? & ? & ? & ?). eapply runs_on_db; [done|auto]. Qed.

Lemma runs_expire_if_needed k (s : server DB) (Q : _ -> _ -> Prop) :
  storable k -> db_wf (sdb s) ->
  (forall d b, db_wf d -> view d = view (sdb s) -> expires d = expires (sdb s) -> (primary -> view (sdb s) !! k = None -> vacant d k) ->
    Q (with_db s d) (Some b)) ->
  runs (on_db (expireIfNeeded k)) s Q.
Proof. intros Hst Hw HQ. destruct (expire_if_needed_ok k _ Hst Hw) as (d & b & E & ? & ? & ? & ?). eapply runs_on_db; [done|auto]. Qed.

Lemma runs_set_expire k t (s : server DB) (Q : _ -> _ -> Prop) :
  storable k -> db_wf (sdb s) -> is_Some (view (sdb s) !! k) ->
  (forall d, db_wf d -> view d = (if expired t then delete k (view (sdb s)) else view (sdb s)) ->
    expires d = (if expired t then delete k (expires (sdb s)) else <[k := t]> (expires (sdb s))) -> Q (with_db s d) (Some tt)) ->
  runs (on_db (setExpire k t)) s Q.
Proof. intros Hst Hw Hv HQ. destruct (set_expire_ok k t _ Hst Hw Hv) as (d & E & ? & ? & ?). eapply runs_on_db; [done|auto]. Qed.

Lemma runs_remove_expire k (s : server DB) (Q : _ -> _ -> Prop) :
  storable k -> db_wf (sdb s) -> is_Some (view (sdb s) !! k) ->
  (forall d, db_wf d -> view d = view (sdb s) -> expires d = delete k (expires (sdb s)) ->
    Q (with_db s d) (Some (bool_decide (is_Some (expires (sdb s) !! k))))) ->
  runs (on_db (removeExpire k)) s Q.
Proof. intros Hst Hw Hv HQ. destruct (remove_expire_ok k _ Hst Hw Hv) as (d & E & ? & ? & ?). eapply runs_on_db; [done|auto]. Qed.

(** [setKey] sets the key and, unless told to keep it, removes its expire time. *)
Lemma runs_set_key_found k o keepttl (s : server DB) (Q : _ -> _ -> Prop) :
  storable k -> db_wf (sdb s) -> (view (sdb s) !! k = None -> vacant (sdb s) k) ->
  (forall d, db_wf d -> view d = <[k := o]> (view (sdb s)) ->
    expires d = (if (keepttl : bool) then expires (sdb s) else delete k (expires (sdb s))) ->
    Q (with_event (with_db s d) (SignalModifiedKey k)) (Some tt)) ->
  runs (setKey k o keepttl (Some (bool_decide (is_Some (view (sdb s) !! k))))) s Q.
Proof.
  intros Hst Hw Hvac HQ. unfold setKey. apply runs_bind, runs_ret. apply runs_bind.
  assert (runs (if negb (bool_decide (is_Some (view (sdb s) !! k))) then on_db (dbAdd k o) else on_db (dbOverwrite k o)) s
    (fun s' r => r = Some tt /\ exists d2, s' = with_db s d2 /\ db_wf d2 /\ view d2 = <[k := o]> (view (sdb s)) /\ expires d2 = expires (sdb s))) as Hset.
  { case_bool_decide as Hk; cbn [negb]; [apply runs_overwrite; [done..|]|apply runs_add; [done..|by apply Hvac, eq_None_not_Some|]]; intros; eauto 10. }
  eapply runs_impl; [exact Hset|]. intros s' r (-> & d2 & -> & Hd2 & Hv2 & He2). apply runs_bind. destruct keepttl; cbn [negb].
  - apply runs_ret. apply runs_signal. auto.
  - apply runs_bind, runs_remove_expire; [done..|cbn; rewrite Hv2; by rewrite lookup_insert_eq|]. cbn [sdb with_db]. intros d3 Hd3 Hv3 He3.
    apply runs_ret, runs_signal. apply (HQ d3); congruence.
Qed.

Lemma runs_set_key k o keepttl (s : server DB) (Q : _ -> _ -> Prop) :
  storable k -> db_wf (sdb s) ->
  (forall d, db_wf d -> view d = <[k := o]> (view (sdb s)) ->
    expires d = (if (keepttl : bool) then expires (sdb s) else delete k (expires (sdb s))) ->
    Q (with_event (with_db s d) (SignalModifiedKey k)) (Some tt)) ->
  runs (setKey k o keepttl None) s Q.
Proof.
  intros Hst Hw HQ. unfold setKey. apply runs_bind, runs_bind, runs_write; [done..|]. intros d Hd Hv He Hvac. apply runs_ret.
  change (runs (setKey k o keepttl (Some (bool_decide (is_Some (view (sdb s) !! k))))) (with_db s d) Q). rewrite <- Hv.
  apply runs_set_key_found; [done..|cbn; by rewrite Hv|]. cbn [sdb with_db]. rewrite Hv, He. intros d2 ? ? ?. by apply (HQ d2).
Qed.

Lemma string_len_ok o str : obj_wf o -> obj_str o = Some str -> stringObjectLen o = Ok (zlen str).
Proof. intros Ho Hs. destruct o; cbn in *; simplify_eq; [done|]. apply sdigits10_correct. lia. Qed.

(** A bulk reply sends the string and announces its length. *)
Lemma runs_reply_bulk o str (s : server DB) (Q : _ -> _ -> Prop) :
  obj_wf o -> obj_str o = Some str -> Q (with_reply s (ReplyBulk str)) (Some tt) -> runs (addReplyBulk o) s Q.
Proof.
  intros Ho Hs HQ. unfold addReplyBulk. apply runs_bind, (runs_lift _ (zlen str)); [by apply string_len_ok|].
  apply runs_bind, (runs_lift _ str).
  { destruct o; cbn in *; simplify_eq; [done|]. apply ll_text_ok; [done|lia]. }
  rewrite Z.eqb_refl. by apply runs_reply.
Qed.

(** From [s] to [s'] nothing has changed, but for the replies [rs]. *)
Definition replied (rs : list reply_item) (s s' : server DB) : Prop :=
  db_wf (sdb s') /\ view (sdb s') = view (sdb s) /\ expires (sdb s') = expires (sdb s) /\
  reply s' = reply s ++ rs /\ dirty s' = dirty s /\ events s' = events s.

(** An integer argument. *)
Lemma runs_long_long s0 msg v (s : server DB) (Q : _ -> _ -> Prop) :
  string2ll s0 (zlen s0) = Ok (Some v) -> Q s (Some v) ->
  runs (getLongLongFromObjectOrReply (Some (createStringObject s0)) msg) s Q.
Proof.
  intros E HQ. apply runs_bind, (runs_lift _ (Some v)); [|by apply runs_ret].
  unfold createStringObject. by ztest.
Qed.

End Rules.

(** * Examples *)

(** A server with one string, and with none. *)
Definition sample_config : config := Config (512 * 1024 * 1024) false true false 1001 2003 (2 ^ 40) 1700000000000 false false false false.
Definition sample_key : list Z := chars "k".
Definition sample_server : server plain_db :=
  Server ({[sample_key := RString OBJ_ENCODING_EMBSTR 1 [0xff; 0x81; 0x7e]]}, ∅) [] 0 [].
Definition empty_server : server plain_db := Server (∅, ∅) [] 0 [].

Lemma sample_string : string_at (view (sdb sample_server)) sample_key [0xff; 0x81; 0x7e].
Proof.
  unfold string_at. change (view (sdb sample_server) !! sample_key) with (Some (RString OBJ_ENCODING_EMBSTR 1 [0xff; 0x81; 0x7e])).
  split; [|done]. split; [lia|]. split; [forall_list; unfold is_byte; lia|done].
Qed.
