(* ===== verification/BitCommands.v ===== *)
(** The bitmap commands of bitops.c: SETBIT, GETBIT, BITOP, BITCOUNT, BITPOS and
    BITFIELD.

    Each command is the whole handler, on the server state of [Object]: the
    argument parsing with its error replies, the lookup, the computation on the
    string, the write, the events and the dirty counter.  They are specified on
    the list of bits of the string, which is followed by zero bits without end. *)
From S2P Require Import Prelude Endian Util Glob Sds Object Bitops.
From stdpp Require Import gmap list strings.

Open Scope Z_scope.

(** * Definitions *)

Inductive bitop := BITOP_AND | BITOP_OR | BITOP_XOR | BITOP_NOT.

Inductive bitfield_opcode := BITFIELDOP_GET | BITFIELDOP_SET | BITFIELDOP_INCRBY.

#[export] Instance bitfield_opcode_eq_dec : EqDecision bitfield_opcode.
Proof. solve_decision. Defined.

#[export] Instance bitop_eq_dec : EqDecision bitop.
Proof. solve_decision. Defined.

Record bitfieldOp := BitfieldOp {
  bf_offset : Z;
  bf_i64 : Z;
  bf_opcode : bitfield_opcode;
  bf_owtype : owtype;
  bf_bits : Z;
  bf_sign : bool;
}.

Section BitCommands.
Context `{Host} {DB : Type} `{Keyspace DB} (cfg : config).

(** ** Arguments *)

Definition offset_err : String.string := "bit offset is not an integer or out of range".

Definition getBitOffsetFromArgument (p : list Z) (hash : bool) (bits : Z) : cmd DB Z :=
  let plen := zlen p in
  c ← lift (sds_at p 0);
  let usehash := (c =? 35) && hash && (bits >? 0) in
  let k := Z.b2z usehash in
  r ← lift (string2ll (drop (Z.to_nat k) p) (plen - k));
  match r with
  | None => reply_and_return (ReplyError offset_err)
  | Some loffset =>
      loffset ← (if usehash then lift (arith64 (fwrapv cfg) (loffset * bits)) else mret loffset);
      if (loffset <? 0) || (negb (mustObeyClient cfg) && (Z.shiftr loffset 3 >=? proto_max_bulk_len cfg))
      then reply_and_return (ReplyError offset_err)
      else mret loffset
  end.

Definition bitfield_type_err : String.string :=
  "Invalid bitfield type. Use something like i16 u8. Note that u64 is not supported but i64 is.".

(** The sign and the width. *)
Definition getBitfieldTypeFromArgument (p : list Z) : cmd DB (bool * Z) :=
  c ← lift (sds_at p 0);
  sign ← (if c =? 105 then mret true
          else if c =? 117 then mret false
          else reply_and_return (ReplyError bitfield_type_err));
  let rest := cstr (drop 1 p) in
  r ← lift (string2ll rest (zlen rest));
  match r with
  | None => reply_and_return (ReplyError bitfield_type_err)
  | Some llbits =>
      if (llbits <? 1) || (sign && (llbits >? 64)) || (negb sign && (llbits >? 63))
      then reply_and_return (ReplyError bitfield_type_err)
      else mret (sign, llbits)
  end.

(** ** Strings *)

(** The object to write to, and whether it was created or extended. *)
Definition lookupStringForBitCommand (key : list Z) (maxbit : Z) : cmd DB (robj * bool) :=
  let byte := Z.shiftr maxbit 3 in
  o ← on_db (lookupKeyWrite key);
  checkType o OBJ_STRING;;
  match o with
  | None =>
      let o := createRawStringObject (sdsnewlen_zero (byte + 1)) in
      on_db (dbAdd key o);;
      mret (o, true)
  | Some o =>
      o ← dbUnshareStringValue key o;
      old ← sds_of o;
      let oldlen := zlen old in
      let ptr := sdsgrowzero_bytes old (byte + 1) in
      o ← set_ptr key o ptr;
      mret (o, negb (oldlen =? zlen ptr))
  end.

(** The bytes of the string; [None] is the null pointer. *)
Definition getObjectReadOnlyString (o : option robj) : res (option (list Z)) :=
  assert! match o with Some o => bool_decide (type o = OBJ_STRING) | None => true end;
  match o with
  | Some (RInt _ v) => s ← ll_text LONG_STR_SIZE v; Ok (Some s)
  | Some (RString _ _ s) => Ok (Some s)
  | Some (ROther _ _) => Panic
  | None => Ok None
  end.

(** ** SETBIT and GETBIT *)

Definition setbit_err : String.string := "bit is not an integer or out of range".

Definition setbitCommand (argv : list (list Z)) : cmd DB unit :=
  a ← arg argv 2;
  bitoffset ← getBitOffsetFromArgument a false 0;
  o ← argo argv 3;
  on ← getLongFromObjectOrReply o (Some setbit_err);
  if negb (Z.land on (Z.lnot 1) =? 0) then reply_and_return (ReplyError setbit_err)
  else
    key ← arg argv 1;
    '(o, dirty) ← lookupStringForBitCommand key bitoffset;
    ptr ← sds_of o;
    let byte := Z.shiftr bitoffset 3 in
    byteval ← lift (rd1 ptr byte);
    let bit := 7 - Z.land bitoffset 7 in
    let bitval := Z.land byteval (Z.shiftl 1 bit) in
    (if dirty || negb (Z.b2z (negb (bitval =? 0)) =? on) then
       let byteval := Z.land byteval (Z.lnot (Z.shiftl 1 bit)) in
       let byteval := Z.lor byteval (Z.shiftl (Z.land on 1) bit) in
       ptr ← lift (wr ptr byte [wrapU 8 byteval]);
       set_ptr key o ptr;;
       signalModifiedKey key;;
       notifyKeyspaceEvent NOTIFY_STRING "setbit" key;;
       add_dirty 1
     else mret tt);;
    addReply (if negb (bitval =? 0) then shared_cone else shared_czero).

Definition getbitCommand (argv : list (list Z)) : cmd DB unit :=
  a ← arg argv 2;
  bitoffset ← getBitOffsetFromArgument a false 0;
  key ← arg argv 1;
  o ← lookupKeyReadOrReply key shared_czero;
  checkType (Some o) OBJ_STRING;;
  let byte := Z.shiftr bitoffset 3 in
  let bit := 7 - Z.land bitoffset 7 in
  bitval ← match o with
           | RString _ _ s =>
               if byte <? zlen s then b ← lift (rd1 s byte); mret (Z.land b (Z.shiftl 1 bit)) else mret 0
           | RInt _ v =>
               s ← lift (ll_text 32 v);
               if byte <? zlen s then b ← lift (rd1 s byte); mret (Z.land b (Z.shiftl 1 bit)) else mret 0
           | ROther _ _ => lift Fault
           end;
  addReply (if negb (bitval =? 0) then shared_cone else shared_czero).

(** ** BITOP *)

Definition word_op (op : bitop) (x y : Z) : Z :=
  match op with
  | BITOP_AND => Z.land x y
  | BITOP_OR => Z.lor x y
  | BITOP_XOR => Z.lxor x y
  | BITOP_NOT => x
  end.

(** [lres[k] op= lp[i][k]] for four words, from the byte [j] of the strings. *)
Fixpoint bitop_words (op : bitop) (res lp : list Z) (j : Z) (n : nat) : Prelude.res (list Z) :=
  match n with
  | O => Ok res
  | S n =>
      x ← rd res j 8;
      y ← rd lp j 8;
      res ← wr res j (host_bytes 8 (word_op op (host_val x) (host_val y)));
      bitop_words op res lp (j + 8) n
  end.

(** [lres[k] = ~lres[k]] *)
Fixpoint bitop_not_words (res : list Z) (j : Z) (n : nat) : Prelude.res (list Z) :=
  match n with
  | O => Ok res
  | S n =>
      x ← rd res j 8;
      res ← wr res j (host_bytes 8 (wrapU 64 (Z.lnot (host_val x))));
      bitop_not_words res (j + 8) n
  end.

(** The loop over the strings of the fast path. *)
Fixpoint bitop_fast_srcs (op : bitop) (res : list Z) (lps : list (list Z)) (j : Z) : Prelude.res (list Z) :=
  match lps with
  | [] => Ok res
  | lp :: lps => res ← bitop_words op res lp j 4; bitop_fast_srcs op res lps j
  end.

(** The fast path: the result and the next byte. *)
Fixpoint bitop_fast (fuel : nat) (op : bitop) (res : list Z) (lps : list (list Z)) (j minlen : Z) : Prelude.res (list Z * Z) :=
  match fuel with
  | O => OutOfFuel
  | S fuel =>
      if minlen >=? 32 then
        res ← match op with
              | BITOP_NOT => bitop_not_words res j 4
              | _ => bitop_fast_srcs op res lps j
              end;
        bitop_fast fuel op res lps (j + 32) (minlen - 32)
      else Ok (res, j)
  end.

(** [(len[i] <= j) ? 0 : src[i][j]] *)
Definition src_byte (src : list Z) (j : Z) : Prelude.res Z := if zlen src <=? j then Ok 0 else rd1 src j.

(** The byte of the result, from the strings after the first. *)
Fixpoint bitop_byte (op : bitop) (output : Z) (srcs : list (list Z)) (j : Z) : Prelude.res Z :=
  match srcs with
  | [] => Ok output
  | src :: srcs =>
      byte ← src_byte src j;
      let output := word_op op output byte in
      let skip := match op with
                  | BITOP_AND => output =? 0
                  | BITOP_OR => output =? 255
                  | _ => false
                  end in
      if skip then Ok output else bitop_byte op output srcs j
  end.

(** The loop over the bytes; [n] is [maxlen - j]. *)
Fixpoint bitop_bytes (n : nat) (op : bitop) (res : list Z) (src0 : list Z) (srcs : list (list Z)) (j : Z) : Prelude.res (list Z) :=
  match n with
  | O => Ok res
  | S n =>
      output ← src_byte src0 j;
      let output := match op with BITOP_NOT => wrapU 8 (Z.lnot output) | _ => output end in
      output ← bitop_byte op output srcs j;
      res ← wr res j [output];
      bitop_bytes n op res src0 srcs (j + 1)
  end.

(** The source strings with [maxlen] and [minlen]; [first] is [j == 0]. *)
Fixpoint bitop_srcs (keys : list (list Z)) (first : bool) (maxlen minlen : Z) : cmd DB (list (list Z) * Z * Z) :=
  match keys with
  | [] => mret ([], maxlen, minlen)
  | key :: keys =>
      o ← on_db (lookupKeyRead key);
      match o with
      | None =>
          '(srcs, maxlen, minlen) ← bitop_srcs keys false maxlen 0;
          mret ([] :: srcs, maxlen, minlen)
      | Some o =>
          checkType (Some o) OBJ_STRING;;
          d ← lift (getDecodedObject o);
          s ← sds_of d;
          let len := zlen s in
          let maxlen := if len >? maxlen then len else maxlen in
          let minlen := if first || (len <? minlen) then len else minlen in
          '(srcs, maxlen, minlen) ← bitop_srcs keys false maxlen minlen;
          mret (s :: srcs, maxlen, minlen)
      end
  end.

(** The computation on the strings, for [maxlen] not zero. *)
Definition bitop_compute (op : bitop) (srcs : list (list Z)) (maxlen minlen : Z) : Prelude.res (list Z) :=
  match srcs with
  | [] => Fault
  | src0 :: rest =>
      let res := sdsnewlen_zero maxlen in
      '(res, j) ← (if negb (use_aligned_access cfg) && (minlen >=? 32) && (zlen srcs <=? 16) then
                     bs ← rd src0 0 minlen;
                     res ← wr res 0 bs;
                     bitop_fast (S (Z.to_nat minlen)) op res rest 0 minlen
                   else Ok (res, 0));
      bitop_bytes (Z.to_nat (maxlen - j)) op res src0 rest j
  end.

Definition bitop_name (opname : list Z) : option bitop :=
  let c := default 0 (head opname) in
  if ((c =? 97) || (c =? 65)) && strcase_eq opname "and" then Some BITOP_AND
  else if ((c =? 111) || (c =? 79)) && strcase_eq opname "or" then Some BITOP_OR
  else if ((c =? 120) || (c =? 88)) && strcase_eq opname "xor" then Some BITOP_XOR
  else if ((c =? 110) || (c =? 78)) && strcase_eq opname "not" then Some BITOP_NOT
  else None.

Definition bitopCommand (argv : list (list Z)) : cmd DB unit :=
  opname ← arg argv 1;
  targetkey ← arg argv 2;
  match bitop_name opname with
  | None => reply_and_return shared_syntaxerr
  | Some op =>
      if bool_decide (op = BITOP_NOT) && negb (zlen argv =? 4)
      then reply_and_return (ReplyError "BITOP NOT must be called with a single source key.")
      else
        '(srcs, maxlen, minlen) ← bitop_srcs (drop 3 argv) true 0 0;
        (if negb (maxlen =? 0) then
           res ← lift (bitop_compute op srcs maxlen minlen);
           setKey targetkey (createRawStringObject res) false None;;
           notifyKeyspaceEvent NOTIFY_STRING "set" targetkey;;
           add_dirty 1
         else
           deleted ← on_db (dbDelete targetkey);
           if (deleted : bool) then
             signalModifiedKey targetkey;;
             notifyKeyspaceEvent NOTIFY_GENERIC "del" targetkey;;
             add_dirty 1
           else mret tt);;
        addReply (ReplyInteger maxlen)
  end.

(** ** BITCOUNT *)

(** Negative indexes converted and the range clipped. *)
Definition clip_range (totlen start fin : Z) : Z * Z :=
  let start := if start <? 0 then totlen + start else start in
  let fin := if fin <? 0 then totlen + fin else fin in
  let start := if start <? 0 then 0 else start in
  let fin := if fin <? 0 then 0 else fin in
  let fin := if fin >=? totlen then totlen - 1 else fin in
  (start, fin).

(** The masks of the bits out of the range in the first and in the last byte, and
    the range in bytes. *)
Definition edge_masks (isbit : bool) (start fin : Z) : Z * Z * Z * Z :=
  if isbit && (start <=? fin) then
    (Z.shiftr start 3, Z.shiftr fin 3,
     Z.land (Z.lnot (Z.shiftl 1 (8 - Z.land start 7) - 1)) 255, Z.shiftl 1 (7 - Z.land fin 7) - 1)
  else (start, fin, 0, 0).

(** The [BIT] or [BYTE] argument. *)
Definition bit_or_byte (a : list Z) : cmd DB bool :=
  if strcase_eq a "bit" then mret true
  else if strcase_eq a "byte" then mret false
  else reply_and_return shared_syntaxerr.

(** The number of bits of the range of bytes, without those under the masks. *)
Definition bitcount_range (p : list Z) (start fin first_byte_neg_mask last_byte_neg_mask : Z) : res Z :=
  let bytes := fin - start + 1 in
  count ← redisPopcount (string_addr cfg) p start bytes;
  if negb (first_byte_neg_mask =? 0) || negb (last_byte_neg_mask =? 0) then
    f ← (if negb (first_byte_neg_mask =? 0) then b ← rd1 p start; Ok (Z.land b first_byte_neg_mask) else Ok 0);
    l ← (if negb (last_byte_neg_mask =? 0) then b ← rd1 p fin; Ok (Z.land b last_byte_neg_mask) else Ok 0);
    out ← redisPopcount (stack_addr cfg) [f; l] 0 2;
    Ok (count - out)
  else Ok count.

Definition bitcountCommand (argv : list (list Z)) : cmd DB unit :=
  let argc := zlen argv in
  key ← arg argv 1;
  o ← lookupKeyReadOrReply key shared_czero;
  checkType (Some o) OBJ_STRING;;
  r ← lift (getObjectReadOnlyString (Some o));
  let p := default [] r in
  let strlen := zlen p in
  '(start, fin, first_byte_neg_mask, last_byte_neg_mask) ←
    (if (argc =? 4) || (argc =? 5) then
       let totlen := strlen in
       (if totlen <=? Z.shiftr INT64_MAX 3 then mret tt else lift Panic);;
       a ← argo argv 2;
       start ← getLongLongFromObjectOrReply a None;
       a ← argo argv 3;
       fin ← getLongLongFromObjectOrReply a None;
       (if (start <? 0) && (fin <? 0) && (start >? fin) then reply_and_return shared_czero else mret tt);;
       isbit ← (if argc =? 5 then a ← arg argv 4; bit_or_byte a else mret false);
       let totlen := if (isbit : bool) then Z.shiftl totlen 3 else totlen in
       let '(start, fin) := clip_range totlen start fin in
       mret (edge_masks isbit start fin)
     else if argc =? 2 then mret (0, strlen - 1, 0, 0)
     else reply_and_return shared_syntaxerr);
  if start >? fin then addReply shared_czero
  else
    count ← lift (bitcount_range p start fin first_byte_neg_mask last_byte_neg_mask);
    addReply (ReplyInteger count).

(** ** BITPOS *)

(** The last byte, without the bits under its mask. *)
Definition bitpos_last (p : list Z) (bit : bool) (fin last_byte_neg_mask start bytes : Z) : res (Z * Z * Z) :=
  b ← rd1 p fin;
  let tmpchar := if bit then Z.land b (Z.land (Z.lnot last_byte_neg_mask) 255) else Z.lor b last_byte_neg_mask in
  pos ← redisBitpos (stack_addr cfg) [tmpchar] 0 1 bit;
  Ok (pos, start, bytes).

(** The whole bytes, then the last one when it has a mask. *)
Definition bitpos_middle (p : list Z) (bit : bool) (fin last_byte_neg_mask start bytes : Z) : res (Z * Z * Z) :=
  let curbytes := bytes - (if negb (last_byte_neg_mask =? 0) then 1 else 0) in
  if curbytes >? 0 then
    pos ← redisBitpos (string_addr cfg) p start curbytes bit;
    if (bytes =? curbytes) || (negb (pos =? -1) && negb (pos =? Z.shiftl curbytes 3)) then Ok (pos, start, bytes)
    else bitpos_last p bit fin last_byte_neg_mask (start + curbytes) (bytes - curbytes)
  else bitpos_last p bit fin last_byte_neg_mask start bytes.

(** The search in the range of bytes: the position found, relative to the byte
    [start], that byte and the number of bytes searched last, as at the label
    [result]. *)
Definition bitpos_range (p : list Z) (bit : bool) (start fin first_byte_neg_mask last_byte_neg_mask : Z) : res (Z * Z * Z) :=
  let bytes := fin - start + 1 in
  if negb (first_byte_neg_mask =? 0) then
    b ← rd1 p start;
    let tmpchar := if bit then Z.land b (Z.land (Z.lnot first_byte_neg_mask) 255) else Z.lor b first_byte_neg_mask in
    let tmpchar :=
      if negb (last_byte_neg_mask =? 0) && (bytes =? 1) then
        if bit then Z.land tmpchar (Z.land (Z.lnot last_byte_neg_mask) 255) else Z.lor tmpchar last_byte_neg_mask
      else tmpchar in
    pos ← redisBitpos (stack_addr cfg) [tmpchar] 0 1 bit;
    if (bytes =? 1) || (negb (pos =? -1) && negb (pos =? 8)) then Ok (pos, start, bytes)
    else bitpos_middle p bit fin last_byte_neg_mask (start + 1) (bytes - 1)
  else bitpos_middle p bit fin last_byte_neg_mask start bytes.

Definition bitposCommand (argv : list (list Z)) : cmd DB unit :=
  let argc := zlen argv in
  a ← argo argv 2;
  bit ← getLongFromObjectOrReply a None;
  if negb (bit =? 0) && negb (bit =? 1) then reply_and_return (ReplyError "The bit argument must be 1 or 0.")
  else
    key ← arg argv 1;
    o ← on_db (lookupKeyRead key);
    match o with
    | None => addReply (ReplyInteger (if negb (bit =? 0) then -1 else 0))
    | Some o =>
        checkType (Some o) OBJ_STRING;;
        r ← lift (getObjectReadOnlyString (Some o));
        let p := default [] r in
        let strlen := zlen p in
        '(start, fin, first_byte_neg_mask, last_byte_neg_mask, end_given) ←
          (if (argc =? 4) || (argc =? 5) || (argc =? 6) then
             let totlen := strlen in
             (if totlen <=? Z.shiftr INT64_MAX 3 then mret tt else lift Panic);;
             a ← argo argv 3;
             start ← getLongLongFromObjectOrReply a None;
             isbit ← (if argc =? 6 then a ← arg argv 5; bit_or_byte a else mret false);
             '(fin, end_given) ←
               (if argc >=? 5 then
                  a ← argo argv 4;
                  fin ← getLongLongFromObjectOrReply a None;
                  mret (fin, true)
                else if (isbit : bool) then mret (Z.shiftl totlen 3 + 7, false)
                else mret (totlen - 1, false));
             let totlen := if (isbit : bool) then Z.shiftl totlen 3 else totlen in
             let '(start, fin) := clip_range totlen start fin in
             mret (edge_masks isbit start fin, end_given)
           else if argc =? 3 then mret (0, strlen - 1, 0, 0, false)
           else reply_and_return shared_syntaxerr);
        if start >? fin then addReply (ReplyInteger (-1))
        else
          '(pos, start, bytes) ← lift (bitpos_range p (negb (bit =? 0)) start fin first_byte_neg_mask last_byte_neg_mask);
          if (end_given : bool) && (bit =? 0) && (pos =? Z.shiftl bytes 3) then addReply (ReplyInteger (-1))
          else
            let pos := if negb (pos =? -1) then pos + Z.shiftl start 3 else pos in
            addReply (ReplyInteger pos)
    end.

(** ** BITFIELD *)

(** The arguments of the subcommand at [j]: the operation, whether all of them so
    far only read, and the highest bit written so far. *)
Definition bitfield_op_args (argv : list (list Z)) (j : Z) (opcode : bitfield_opcode) (ow : owtype)
    (readonly : bool) (highest_write_offset : Z) : cmd DB (bitfieldOp * bool * Z) :=
  a ← arg argv (j + 1);
  '(sign, bits) ← getBitfieldTypeFromArgument a;
  a ← arg argv (j + 2);
  bitoffset ← getBitOffsetFromArgument a true bits;
  '(readonly, highest_write_offset, i64) ←
    (if bool_decide (opcode <> BITFIELDOP_GET) then
       let last := wrapU 64 (bitoffset + bits - 1) in
       a ← argo argv (j + 3);
       i64 ← getLongLongFromObjectOrReply a None;
       mret (false, if highest_write_offset <? last then last else highest_write_offset, i64)
     else mret (readonly, highest_write_offset, 0));
  mret (BitfieldOp bitoffset i64 opcode ow bits sign, readonly, highest_write_offset).

Definition bitfield_owtype (owtypename : list Z) : cmd DB owtype :=
  if strcase_eq owtypename "wrap" then mret BFOVERFLOW_WRAP
  else if strcase_eq owtypename "sat" then mret BFOVERFLOW_SAT
  else if strcase_eq owtypename "fail" then mret BFOVERFLOW_FAIL
  else reply_and_return (ReplyError "Invalid OVERFLOW type specified").

(** The loop over the arguments from [j] on. *)
Fixpoint bitfield_parse (fuel : nat) (argv : list (list Z)) (j : Z) (ow : owtype) (ops : list bitfieldOp)
    (readonly : bool) (highest_write_offset : Z) : cmd DB (list bitfieldOp * bool * Z) :=
  match fuel with
  | O => lift OutOfFuel
  | S fuel =>
      if j <? zlen argv then
        let remargs := zlen argv - j - 1 in
        subcmd ← arg argv j;
        opcode ← (if strcase_eq subcmd "get" && (remargs >=? 2) then mret (Some BITFIELDOP_GET)
                  else if strcase_eq subcmd "set" && (remargs >=? 3) then mret (Some BITFIELDOP_SET)
                  else if strcase_eq subcmd "incrby" && (remargs >=? 3) then mret (Some BITFIELDOP_INCRBY)
                  else if strcase_eq subcmd "overflow" && (remargs >=? 1) then mret None
                  else reply_and_return shared_syntaxerr);
        match opcode with
        | None =>
            owtypename ← arg argv (j + 1);
            ow ← bitfield_owtype owtypename;
            bitfield_parse fuel argv (j + 1 + 1) ow ops readonly highest_write_offset
        | Some opcode =>
            '(op, readonly, highest_write_offset) ← bitfield_op_args argv j opcode ow readonly highest_write_offset;
            bitfield_parse fuel argv (j + (3 - Z.b2z (bool_decide (opcode = BITFIELDOP_GET))) + 1) ow
              (ops ++ [op]) readonly highest_write_offset
        end
      else mret (ops, readonly, highest_write_offset)
  end.

(** A signed SET or INCRBY on the bytes [p]: the new bytes, the reply and whether
    the value changed. [limit] is what [wrapped] holds, uninitialised or not. *)
Definition bitfield_signed_op (p : list Z) (op : bitfieldOp) : res (list Z * reply_item * bool) :=
  oldval ← getSignedBitfield p (bf_offset op) (bf_bits op);
  '(overflow, newval, retval) ←
    (if bool_decide (bf_opcode op = BITFIELDOP_INCRBY) then
       '(overflow, limit) ← checkSignedBitfieldOverflow (fwrapv cfg) oldval (bf_i64 op) (bf_bits op) (bf_owtype op);
       newval ← (if negb (overflow =? 0) then Ok (default (uninit 0) limit) else arith64 (fwrapv cfg) (oldval + bf_i64 op));
       Ok (overflow, newval, newval)
     else
       '(overflow, limit) ← checkSignedBitfieldOverflow (fwrapv cfg) (bf_i64 op) 0 (bf_bits op) (bf_owtype op);
       let newval := if negb (overflow =? 0) then default (uninit 0) limit else bf_i64 op in
       Ok (overflow, newval, oldval));
  if negb (negb (overflow =? 0) && match bf_owtype op with BFOVERFLOW_FAIL => true | _ => false end) then
    p ← setSignedBitfield p (bf_offset op) (bf_bits op) newval;
    Ok (p, ReplyInteger retval, negb (oldval =? newval))
  else Ok (p, ReplyNull, false).

Definition bitfield_unsigned_op (p : list Z) (op : bitfieldOp) : res (list Z * reply_item * bool) :=
  oldval ← getUnsignedBitfield p (bf_offset op) (bf_bits op);
  '(overflow, newval, retval) ←
    (if bool_decide (bf_opcode op = BITFIELDOP_INCRBY) then
       let newval := wrapU 64 (oldval + bf_i64 op) in
       '(overflow, limit) ← checkUnsignedBitfieldOverflow oldval (bf_i64 op) (bf_bits op) (bf_owtype op);
       let newval := if negb (overflow =? 0) then default (uninit 0) limit else newval in
       Ok (overflow, newval, newval)
     else
       let newval := wrapU 64 (bf_i64 op) in
       '(overflow, limit) ← checkUnsignedBitfieldOverflow newval 0 (bf_bits op) (bf_owtype op);
       let newval := if negb (overflow =? 0) then default (uninit 0) limit else newval in
       Ok (overflow, newval, oldval));
  if negb (negb (overflow =? 0) && match bf_owtype op with BFOVERFLOW_FAIL => true | _ => false end) then
    p ← setUnsignedBitfield p (bf_offset op) (bf_bits op) newval;
    Ok (p, ReplyInteger (wrapS 64 retval), negb (oldval =? newval))
  else Ok (p, ReplyNull, false).

(** [buf[i] = src[i+byte]] for the bytes the string has; [n] is [9 - i]. *)
Fixpoint bitfield_copy (n : nat) (buf : list Z) (src : option (list Z)) (byte i : Z) : res (list Z) :=
  match n with
  | O => Ok buf
  | S n =>
      match src with
      | None => Ok buf
      | Some s =>
          if i + byte >=? zlen s then Ok buf
          else
            b ← rd1 s (i + byte);
            buf ← wr buf i [b];
            bitfield_copy n buf src byte (i + 1)
      end
  end.

(** GET: through a copy of nine bytes. *)
Definition bitfield_get_op (src : option (list Z)) (op : bitfieldOp) : res reply_item :=
  let byte := Z.shiftr (bf_offset op) 3 in
  buf ← bitfield_copy 9 (replicate 9 0) src byte 0;
  if bf_sign op then
    val ← getSignedBitfield buf (bf_offset op - byte * 8) (bf_bits op);
    Ok (ReplyInteger val)
  else
    val ← getUnsignedBitfield buf (bf_offset op - byte * 8) (bf_bits op);
    Ok (ReplyInteger (wrapS 64 val)).

(** The operations in order, on the object [o] stored at [key]; the number of
    changes. *)
Fixpoint bitfield_exec (key : list Z) (o : option robj) (dirty : bool) (ops : list bitfieldOp) (changes : Z) : cmd DB Z :=
  match ops with
  | [] => mret changes
  | op :: ops =>
      match bf_opcode op with
      | BITFIELDOP_SET | BITFIELDOP_INCRBY =>
          match o with
          | Some o0 =>
              p ← sds_of o0;
              '(p, r, changed) ← lift (if bf_sign op then bitfield_signed_op p op else bitfield_unsigned_op p op);
              addReply r;;
              o ← match r with
                  | ReplyNull => mret o0
                  | _ => set_ptr key o0 p
                  end;
              let changed := match r with ReplyNull => false | _ => dirty || changed end in
              bitfield_exec key (Some o) dirty ops (changes + Z.b2z changed)
          | None => lift Fault
          end
      | BITFIELDOP_GET =>
          src ← lift (getObjectReadOnlyString o);
          r ← lift (bitfield_get_op src op);
          addReply r;;
          bitfield_exec key o dirty ops changes
      end
  end.

Definition bitfieldGeneric (argv : list (list Z)) (flag_readonly : bool) : cmd DB unit :=
  '(ops, readonly, highest_write_offset) ← bitfield_parse (S (length argv)) argv 2 BFOVERFLOW_WRAP [] true 0;
  key ← arg argv 1;
  '(o, dirty) ←
    (if (readonly : bool) then
       o ← on_db (lookupKeyRead key);
       checkType o OBJ_STRING;;
       mret (o, false)
     else if flag_readonly then reply_and_return (ReplyError "BITFIELD_RO only supports the GET subcommand")
     else
       '(o, dirty) ← lookupStringForBitCommand key highest_write_offset;
       mret (Some o, dirty));
  addReply (ReplyArrayLen (zlen ops));;
  changes ← bitfield_exec key o dirty ops 0;
  if negb (changes =? 0) then
    signalModifiedKey key;;
    notifyKeyspaceEvent NOTIFY_STRING "setbit" key;;
    add_dirty changes
  else mret tt.

Definition bitfieldCommand (argv : list (list Z)) : cmd DB unit := bitfieldGeneric argv false.

Definition bitfieldroCommand (argv : list (list Z)) : cmd DB unit := bitfieldGeneric argv true.

End BitCommands.

(** * Specification *)

(** The bit of a string, which is followed by zeroes. *)
Definition bit_at (s : list Z) (i : Z) : bool := if i <? 0 then false else default false (bits_of s !! Z.to_nat i).

(** The offsets a client may address. *)
Definition offset_allowed (cfg : config) (n : Z) : Prop :=
  0 <= n < 2 ^ 63 /\ (mustObeyClient cfg = true \/ n / 8 < proto_max_bulk_len cfg).

(** * Lemmas *)

Lemma bit_at_grow s n i : bit_at (sdsgrowzero_bytes s n) i = bit_at s i.
Proof.
  unfold bit_at, sdsgrowzero_bytes. destruct (i <? 0); [done|]. destruct (Z.leb_spec n (zlen s)); [done|].
  rewrite bits_of_app. destruct (decide (Z.to_nat i < length (bits_of s))%nat).
  - by rewrite lookup_app_l.
  - rewrite lookup_app_r, (lookup_ge_None_2 (bits_of s)) by lia. rewrite bits_lookup.
    destruct (replicate _ _ !! _) eqn:E; [|done]. apply lookup_replicate in E as [-> _]. cbn. by rewrite Z.bits_0.
Qed.

Section Parsing.
Context `{Host} {DB : Type} `{KeyspaceLaws DB} (cfg : config).

Lemma shiftr_3 n : Z.shiftr n 3 = n / 8.
Proof. by rewrite Z.shiftr_div_pow2 by lia. Qed.

Lemma offset_test n : offset_allowed cfg n ->
  (n <? 0) || (negb (mustObeyClient cfg) && (Z.shiftr n 3 >=? proto_max_bulk_len cfg)) = false.
Proof.
  intros [Hn Hl]. rewrite shiftr_3. destruct Hl as [->|Hl]; [cbn; lia|].
  destruct (mustObeyClient cfg); cbn; lia.
Qed.

(** A plain offset. *)
Lemma runs_offset n hash bits (s : server DB) (Q : _ -> _ -> Prop) :
  offset_allowed cfg n -> Q s (Some n) -> runs (getBitOffsetFromArgument cfg (ll_repr n) hash bits) s Q.
Proof.
  intros Hn HQ. assert (INT64_MIN <= n <= INT64_MAX) as Hr by (destruct Hn; zconst; lia).
  unfold getBitOffsetFromArgument. destruct (ll_repr_head n Hr) as (c & l & E & Hc).
  apply runs_bind, (runs_lift _ c); [by rewrite E|]. zfalse (c =? 35). cbn [andb Z.b2z].
  apply runs_bind. change (Z.to_nat 0) with 0%nat. rewrite drop_0, Z.sub_0_r.
  apply (runs_lift _ (Some n)); [by apply string2ll_repr|]. apply runs_bind, runs_ret. rewrite offset_test by done. by apply runs_ret.
Qed.

(** The string a command is going to write: the old contents, padded. *)
Lemma runs_lookup_string key n old (s : server DB) (Q : _ -> _ -> Prop) :
  storable key -> db_wf (sdb s) -> 0 <= n -> string_at (view (sdb s)) key old ->
  (let ptr := sdsgrowzero_bytes old (n / 8 + 1) in
   forall d, db_wf d -> view d = <[key := createRawStringObject ptr]> (view (sdb s)) -> expires d = expires (sdb s) ->
    Q (with_db s d) (Some (createRawStringObject ptr,
      bool_decide (view (sdb s) !! key = None) || negb (zlen old =? zlen ptr)))) ->
  runs (lookupStringForBitCommand key n) s Q.
Proof.
  intros Hst Hw Hn Hs HQ. unfold lookupStringForBitCommand. rewrite shiftr_3. apply runs_bind, runs_write; [done..|].
  intros d Hd Hv He Hvac. unfold string_at in Hs. destruct (view (sdb s) !! key) as [o|] eqn:Hk.
  - destruct Hs as [Ho Hs]. apply runs_bind, runs_check_string; [by destruct o|].
    apply runs_bind, (runs_unshare _ _ old); [done|done|cbn; by rewrite Hv|done..|].
    intros d2 Hd2 Hv2 He2. apply runs_bind, runs_ret. apply runs_bind, runs_set_ptr; [done..|cbn; rewrite Hv2; by rewrite lookup_insert_eq|].
    intros d3 Hd3 Hv3 He3. apply runs_ret. cbn [sdb with_db] in *. apply HQ; [done|rewrite Hv3, Hv2, Hv; by rewrite insert_insert_eq|congruence].
  - apply runs_bind, runs_ret. subst old. apply runs_bind, runs_add; [done..|by apply Hvac|].
    intros d2 Hd2 Hv2 He2. apply runs_ret. cbn [sdb with_db] in *.
    assert (sdsnewlen_zero (n / 8 + 1) = sdsgrowzero_bytes [] (n / 8 + 1)) as Ez.
    { unfold sdsnewlen_zero, sdsgrowzero_bytes. change (zlen []) with 0. assert (0 <= n / 8) by zdiv. zfalse (n / 8 + 1 <=? 0). by rewrite Z.sub_0_r. }
    rewrite Ez in *. apply HQ; [done|by rewrite Hv2, Hv|congruence].
Qed.

End Parsing.

(** ** SETBIT and GETBIT *)

Section Bits.
Context `{Host} {DB : Type} `{KeyspaceLaws DB} (cfg : config).

Lemma bit_at_lookup s n b : 0 <= n -> s !! Z.to_nat (n / 8) = Some b -> Z.testbit b (7 - Z.land n 7) = bit_at s n.
Proof.
  intros Hn Hb. destruct (offset_byte n Hn) as (Hby & -> & _). rewrite shiftr_3 in Hby. unfold bit_at. zfalse (n <? 0).
  rewrite bits_lookup, <- Hby, Hb. done.
Qed.

Lemma bit_at_beyond s n : zlen s <= n / 8 -> bit_at s n = false.
Proof.
  intros Hn. unfold bit_at. destruct (Z.ltb_spec n 0); [done|]. rewrite lookup_ge_None_2; [done|].
  rewrite length_bits_of. unfold zlen in Hn. zdiv.
Qed.

Lemma bit_at_set s n b v i :
  0 <= n -> s !! (Z.to_nat n / 8)%nat = Some b ->
  bit_at (<[(Z.to_nat n / 8)%nat := set_bit b (7 - Z.of_nat (Z.to_nat n mod 8)) v]> s) i = if i =? n then v else bit_at s i.
Proof.
  intros Hn Hb. unfold bit_at. rewrite set_bit_bits by done. destruct (Z.ltb_spec i 0), (Z.eqb_spec i n); try (done || lia).
  - subst i. rewrite list_lookup_insert_eq; [done|]. rewrite length_bits_of. apply lookup_lt_Some in Hb.
    pose proof (Nat.div_mod_eq (Z.to_nat n) 8). pose proof (Nat.mod_upper_bound (Z.to_nat n) 8). lia.
  - by rewrite list_lookup_insert_ne by lia.
Qed.

Lemma reply_bit b bit : 0 <= bit ->
  (if negb (Z.land b (Z.shiftl 1 bit) =? 0) then shared_cone else shared_czero) = ReplyInteger (Z.b2z (Z.testbit b bit)).
Proof. intros Hb. rewrite land_bit by done. by destruct (Z.testbit b bit). Qed.

(** C25: SETBIT stores one bit: it replies with the old bit, the string is padded
    with zeroes up to the addressed byte, every other bit keeps its value, and
    the write is counted and announced exactly when the key was created, the
    string grew or the bit changed. *)
Theorem setbitCommand_correct c key n on old (s : server DB) :
  storable key -> db_wf (sdb s) -> offset_allowed cfg n -> string_at (view (sdb s)) key old ->
  runs (setbitCommand cfg [c; key; ll_repr n; ll_repr (Z.b2z on)]) s (fun s' r => r = Some tt /\ exists ptr,
    db_wf (sdb s') /\ view (sdb s') = <[key := createRawStringObject ptr]> (view (sdb s)) /\ expires (sdb s') = expires (sdb s) /\
    Forall is_byte ptr /\ zlen ptr = Z.max (zlen old) (n / 8 + 1) /\
    (forall i, bit_at ptr i = if i =? n then on else bit_at old i) /\
    reply s' = reply s ++ [ReplyInteger (Z.b2z (bit_at old n))] /\
    if bool_decide (view (sdb s) !! key = None) || (zlen old <? n / 8 + 1) || negb (eqb on (bit_at old n))
    then dirty s' = dirty s + 1 /\
      events s' = events s ++ [SignalModifiedKey key; Notify NOTIFY_STRING "setbit" key]
    else dirty s' = dirty s /\ events s' = events s).
Proof.
  intros Hst Hw Hn Hs. pose proof (proj1 (string_at_wf _ _ _ Hs)) as Hb.
  apply runs_bind, (runs_arg _ _ (ll_repr n)); [done|]. apply runs_bind, runs_offset; [done|].
  apply runs_bind. apply runs_bind, (runs_arg _ _ (ll_repr (Z.b2z on))); [done|]. apply runs_ret.
  apply runs_bind. apply runs_bind, (runs_long_long _ _ (Z.b2z on)); [apply string2ll_repr; zconst; destruct on; cbn; lia|].
  rewrite (proj2 (orb_false_iff _ _)) by (zconst; destruct on; cbn; split; done). apply runs_ret.
  assert (negb (Z.land (Z.b2z on) (Z.lnot 1) =? 0) = false) as -> by (by destruct on).
  apply runs_bind, (runs_arg _ _ key); [done|]. apply runs_bind, (runs_lookup_string _ _ old); [done..|apply Hn|done|].
  intros ptr d Hd Hv He. apply runs_bind, runs_ret.
  assert (zlen ptr = Z.max (zlen old) (n / 8 + 1)) as Hl by apply zlen_grow.
  assert (0 <= n / 8) as Hn8 by (destruct Hn; zdiv). rewrite shiftr_3.
  destruct (lookup_lt_is_Some_2 ptr (Z.to_nat (n / 8))) as [b Hpb]; [unfold zlen in Hl; lia|].
  apply runs_bind, (runs_lift _ b); [by apply rd1_lookup|]. destruct Hn as [Hn _].
  destruct (offset_byte n ltac:(lia)) as (Hby & Hbit & _). rewrite shiftr_3 in Hby.
  assert (0 <= 7 - Z.land n 7 < 8) as Hbr by (rewrite Hbit; pose proof (Nat.mod_upper_bound (Z.to_nat n) 8); lia).
  rewrite reply_bit, land_bit by lia. rewrite (bit_at_lookup ptr n b) by (done || lia).
  assert (forall i, bit_at ptr i = bit_at old i) as Hbits by (intros; apply bit_at_grow). rewrite Hbits.
  assert (negb (zlen old =? zlen ptr) = (zlen old <? n / 8 + 1)) as -> by lia.
  assert (negb (Z.b2z (bit_at old n) =? Z.b2z on) = negb (eqb on (bit_at old n))) as -> by (by destruct (bit_at old n), on).
  destruct (_ || _ || _) eqn:Ed.
  - apply runs_bind. cbv zeta. rewrite wr_insert by lia. assert (Z.land (Z.b2z on) 1 = Z.b2z on) as -> by (by destruct on).
    rewrite wrapU8_land. fold (set_bit b (7 - Z.land n 7) on). apply runs_bind. eapply runs_lift; [done|].
    apply runs_bind, runs_set_ptr; [done..|cbn [sdb with_db]; rewrite Hv; by rewrite lookup_insert_eq|].
    intros d2 Hd2 Hv2 He2. apply runs_bind, runs_signal. apply runs_bind, runs_notify. apply runs_dirty.
    apply runs_reply. split; [done|]. eexists. cbn [sdb reply dirty events with_reply with_dirty with_event with_db] in *.
    split; [done|]. split; [rewrite Hv2, Hv; by rewrite insert_insert_eq|]. split; [congruence|].
    split; [apply Forall_insert; [by apply grow_bytes|apply set_bit_byte]|].
    split; [unfold zlen in *; by rewrite length_insert|]. split; [|split; [done|]; split; [done|by rewrite <- app_assoc]].
    intros i. rewrite <- (Hbits i), Hby, Hbit. rewrite Hby in Hpb. apply bit_at_set; [lia|done].
  - apply runs_bind, runs_ret. apply runs_reply. split; [done|]. exists ptr.
    apply orb_false_iff in Ed as [_ Ed]. apply negb_false_iff, eqb_prop in Ed as ->.
    split; [done|]. split; [done|]. split; [done|]. split; [by apply grow_bytes|]. split; [done|].
    split; [|done]. intros i. rewrite Hbits. by destruct (Z.eqb_spec i n) as [->|].
Qed.

Lemma read_only_string o str : obj_wf o -> obj_str o = Some str -> getObjectReadOnlyString (Some o) = Ok (Some str).
Proof.
  intros Hw Hs. unfold getObjectReadOnlyString. destruct o as [e m s0|m v|]; cbn [obj_str obj_wf] in *; simplify_eq.
  - done.
  - rewrite bool_decide_eq_true_2 by done. rewrite ll_text_ok by (unfold LONG_STR_SIZE; lia). done.
Qed.

(** GETBIT replies with the addressed bit, 0 beyond the end of the string or
    when there is none, whatever the encoding of the object, and changes
    nothing. *)
Theorem getbitCommand_correct c key n old (s : server DB) :
  storable key -> db_wf (sdb s) -> offset_allowed cfg n -> string_at (view (sdb s)) key old ->
  runs (getbitCommand cfg [c; key; ll_repr n]) s (fun s' _ => replied [ReplyInteger (Z.b2z (bit_at old n))] s s').
Proof.
  intros Hst Hw Hn Hs. apply runs_bind, (runs_arg _ _ (ll_repr n)); [done|]. apply runs_bind, runs_offset; [done|].
  apply runs_bind, (runs_arg _ _ key); [done|]. apply runs_bind. apply runs_bind, runs_read; [done..|]. intros d Hd Hv He.
  destruct Hn as [Hn _]. assert (0 <= n / 8) as Hn8 by zdiv. assert (forall str, 
    runs (DB := DB) (if n / 8 <? zlen str then b ← lift (rd1 str (n / 8)); mret (Z.land b (Z.shiftl 1 (7 - Z.land n 7))) else mret 0) (with_db s d)
      (fun s' r => s' = with_db s d /\ match r with Some v => (if negb (v =? 0) then shared_cone else shared_czero) = ReplyInteger (Z.b2z (bit_at str n)) | None => False end)) as Hget.
  { intros str. destruct (Z.ltb_spec (n / 8) (zlen str)) as [Hlt|Hge].
    - destruct (lookup_lt_is_Some_2 str (Z.to_nat (n / 8))) as [b Hb]; [unfold zlen in Hlt; lia|].
      apply runs_bind, (runs_lift _ b); [by apply rd1_lookup|]. apply runs_ret. split; [done|].
      destruct (offset_byte n ltac:(lia)) as (_ & Hbit & _). rewrite reply_bit, (bit_at_lookup str n b); try done; [lia|].
      rewrite Hbit. pose proof (Nat.mod_upper_bound (Z.to_nat n) 8). lia.
    - apply runs_ret. split; [done|]. by rewrite bit_at_beyond. }
  unfold string_at in Hs. destruct (view (sdb s) !! key) as [o|] eqn:Hk.
  - destruct Hs as [Ho Hs]. apply runs_ret. apply runs_bind, runs_check_string; [by destruct o|]. apply runs_bind.
    rewrite shiftr_3. eapply runs_impl.
    + destruct o as [e m s0|m v|]; cbn [obj_str] in Hs; simplify_eq; [apply Hget|].
      apply runs_bind, (runs_lift _ (ll_repr v)); [apply ll_text_ok; [done|apply Ho]|]. apply Hget.
    + intros s' [v|] [-> Hv']; [|done]. rewrite Hv'. by apply runs_reply.
  - subst old. apply runs_reply_return. by rewrite bit_at_beyond.
Qed.

End Bits.

(** ** BITOP *)

(** The byte at a position, zero beyond the end. *)
Definition byte_at (s : list Z) (k : Z) : Z := default 0 (s !! Z.to_nat k).

Lemma bit_at_byte s i : 0 <= i -> bit_at s i = Z.testbit (byte_at s (i / 8)) (7 - i mod 8).
Proof.
  intros Hi. unfold bit_at, byte_at. zfalse (i <? 0). rewrite bits_lookup.
  replace (Z.to_nat i / 8)%nat with (Z.to_nat (i / 8)) by (rewrite Z2Nat.inj_div by lia; done).
  replace (Z.of_nat (Z.to_nat i mod 8)) with (i mod 8) by (rewrite Nat2Z.inj_mod, Z2Nat.id by lia; done).
  destruct (s !! _); cbn; [done|]. by rewrite Z.bits_0.
Qed.

Lemma byte_at_wr l j bs :
  0 <= j -> j + zlen bs <= zlen l ->
  exists l', wr l j bs = Ok l' /\ zlen l' = zlen l /\ (Forall is_byte l -> Forall is_byte bs -> Forall is_byte l') /\
    forall k, 0 <= k -> byte_at l' k = if (j <=? k) && (k <? j + zlen bs) then byte_at bs (k - j) else byte_at l k.
Proof.
  intros Hj Hle. destruct (wr_ok l j bs Hj Hle) as [l' E]. exists l'. split; [done|]. split; [by eapply wr_zlen|].
  apply wr_inv in E as (a & b & c & -> & -> & Ha & Hb). split; [rewrite !Forall_app; tauto|].
  intros k Hk. unfold byte_at.
  destruct (Z.leb_spec j k) as [Hjk|Hjk]; cbn [andb].
  - replace (Z.to_nat k) with (length a + Z.to_nat (k - j))%nat by (unfold zlen in Ha; lia).
    rewrite !lookup_app_r by lia. replace (length a + Z.to_nat (k - j) - length a)%nat with (Z.to_nat (k - j)) by lia.
    destruct (Z.ltb_spec k (j + zlen bs)).
    + rewrite lookup_app_l by (unfold zlen in *; lia). done.
    + rewrite !lookup_app_r by (unfold zlen in *; lia). do 2 f_equal. unfold zlen in *. lia.
  - rewrite !lookup_app_l by (unfold zlen in *; lia). done.
Qed.

Lemma byte_at_rd l j n :
  0 <= j -> 0 <= n -> j + n <= zlen l ->
  exists bs, rd l j n = Ok bs /\ zlen bs = n /\ (Forall is_byte l -> Forall is_byte bs) /\
    forall k, 0 <= k < n -> byte_at bs k = byte_at l (j + k).
Proof.
  intros Hj Hn Hle. destruct (rd_ok l j n Hj Hn Hle) as (bs & E & Hl). exists bs. split; [done|]. split; [done|].
  apply rd_inv in E as (a & c & -> & Ha & _). split.
  - by intros (_ & (? & _)%Forall_app)%Forall_app.
  - intros k Hk. unfold byte_at. replace (Z.to_nat (j + k)) with (length a + Z.to_nat k)%nat by (unfold zlen in Ha; lia).
    rewrite lookup_app_r by lia. replace (length a + Z.to_nat k - length a)%nat with (Z.to_nat k) by lia.
    by rewrite lookup_app_l by (unfold zlen in Hl; lia).
Qed.

Lemma byte_at_byte s k : Forall is_byte s -> is_byte (byte_at s k).
Proof.
  intros Hs. unfold byte_at. destruct (s !! _) eqn:E; cbn; [|unfold is_byte; lia]. by eapply Forall_lookup_1.
Qed.

Lemma byte_at_beyond s k : zlen s <= k -> byte_at s k = 0.
Proof. intros Hk. unfold byte_at. rewrite lookup_ge_None_2; [done|]. unfold zlen in Hk. lia. Qed.

Lemma byte_at_zip f x y k :
  0 <= k < zlen x -> zlen y = zlen x -> byte_at (zip_with f x y) k = f (byte_at x k) (byte_at y k).
Proof.
  intros Hk Hl. unfold byte_at. rewrite lookup_zip_with.
  destruct (lookup_lt_is_Some_2 x (Z.to_nat k)) as [a ->]; [unfold zlen in *; lia|].
  by destruct (lookup_lt_is_Some_2 y (Z.to_nat k)) as [b ->]; [unfold zlen in *; lia|].
Qed.

(** The operations act on the bytes of a word one by one. *)
Lemma word_op_byte op a b : is_byte a -> is_byte b -> is_byte (word_op op a b).
Proof.
  intros Ha Hb. unfold is_byte in *. assert (forall z, 0 <= z -> Z.log2 z < 8 -> 0 <= z < 256) as Hlog.
  { intros z Hz Hl. split; [done|]. destruct (decide (z = 0)) as [->|]; [lia|]. apply (Z.log2_lt_pow2 z 8); lia. }
  assert (forall z, 0 <= z < 256 -> Z.log2 z < 8) as Hlt.
  { intros z Hz. destruct (decide (z = 0)) as [->|]; [cbn; lia|]. apply Z.log2_lt_pow2; lia. }
  pose proof (Hlt a Ha). pose proof (Hlt b Hb).
  destruct op; cbn [word_op]; [| | |done]; apply Hlog.
  - apply Z.land_nonneg. lia.
  - pose proof (Z.log2_land a b). lia.
  - apply Z.lor_nonneg. lia.
  - rewrite Z.log2_lor by lia. lia.
  - apply Z.lxor_nonneg. lia.
  - pose proof (Z.log2_lxor a b). lia.
Qed.

Lemma word_op_split op a b A B :
  is_byte a -> is_byte b -> word_op op (a + 256 * A) (b + 256 * B) = word_op op a b + 256 * word_op op A B.
Proof.
  intros Ha Hb. pose proof (word_op_byte op a b Ha Hb) as Hc. unfold is_byte in *.
  apply Z.bits_inj'. intros i Hi. rewrite bit_split by done.
  destruct op; cbn [word_op] in *; rewrite ?Z.land_spec, ?Z.lor_spec, ?Z.lxor_spec, !bit_split by done;
    destruct (Z.ltb_spec i 8); rewrite ?Z.land_spec, ?Z.lor_spec, ?Z.lxor_spec by lia; done.
Qed.

Lemma word_op_le op x y :
  Forall is_byte x -> Forall is_byte y -> length x = length y ->
  word_op op (le_val x) (le_val y) = le_val (zip_with (word_op op) x y).
Proof.
  intros Hx. revert y. induction Hx as [|a x Ha Hx IH]; intros [|b y] Hy Hl; try done; [by destruct op|].
  apply Forall_cons in Hy as [Hb Hy]. cbn [le_val zip_with]. rewrite word_op_split by done. rewrite IH; [done..|]. by injection Hl.
Qed.

Lemma zip_with_rev {A B C} (f : A -> B -> C) x y :
  length x = length y -> zip_with f (rev x) (rev y) = rev (zip_with f x y).
Proof.
  revert y. induction x as [|a x IH]; intros [|b y] Hl; try done. cbn in *.
  rewrite zip_with_app by (rewrite !length_rev; lia). rewrite IH by lia. done.
Qed.

Lemma zip_bytes op x y : Forall is_byte x -> Forall is_byte y -> Forall is_byte (zip_with (word_op op) x y).
Proof.
  intros Hx. revert y. induction Hx as [|a x Ha Hx IH]; intros [|b y] Hy; cbn; try constructor.
  - inversion Hy; subst. by apply word_op_byte.
  - inversion Hy; subst. by apply IH.
Qed.

Section Bitop.
Context `{Host}.

Lemma host_word_op op x y :
  Forall is_byte x -> Forall is_byte y -> length x = length y ->
  word_op op (host_val x) (host_val y) = host_val (zip_with (word_op op) x y).
Proof.
  intros Hx Hy Hl. unfold host_val. destruct big_endian; [|by apply word_op_le].
  rewrite <- zip_with_rev by done. apply word_op_le; [by apply Forall_rev..|]. by rewrite !length_rev.
Qed.

Lemma bitop_words_ok op n res lp j :
  0 <= j -> j + 8 * Z.of_nat n <= zlen res -> j + 8 * Z.of_nat n <= zlen lp -> Forall is_byte res -> Forall is_byte lp ->
  exists res', bitop_words op res lp j n = Ok res' /\ zlen res' = zlen res /\ Forall is_byte res' /\
    forall k, 0 <= k -> byte_at res' k =
      if (j <=? k) && (k <? j + 8 * Z.of_nat n) then word_op op (byte_at res k) (byte_at lp k) else byte_at res k.
Proof.
  revert res j. induction n as [|n IH]; intros res j Hj Hr Hl Hbr Hbl; cbn [bitop_words].
  { exists res. split_and!; try done. intros k Hk. destruct (_ && _) eqn:E; [zprop; lia|done]. }
  destruct (byte_at_rd res j 8) as (x & -> & Hx & Hbx & Hgx); [lia..|]. rewrite bind_Ok.
  destruct (byte_at_rd lp j 8) as (y & -> & Hy & Hby & Hgy); [lia..|]. rewrite bind_Ok.
  assert (length x = 8%nat /\ length y = 8%nat) as [Hx8 Hy8] by (unfold zlen in *; lia).
  rewrite host_word_op by (auto; lia). pose proof (zip_bytes op x y (Hbx Hbr) (Hby Hbl)) as Hz.
  assert (length (zip_with (word_op op) x y) = 8%nat) as Hz8 by (rewrite length_zip_with; lia).
  rewrite <- Hz8, host_bytes_val by done. assert (zlen (zip_with (word_op op) x y) = 8) as Hzl by (unfold zlen; lia).
  destruct (byte_at_wr res j (zip_with (word_op op) x y)) as (res1 & -> & Hl1 & Hb1 & Hg1); [lia..|]. rewrite bind_Ok.
  destruct (IH res1 (j + 8)) as (res' & -> & Hl' & Hb' & Hg'); [lia..|auto|done|].
  exists res'. split; [done|]. split; [lia|]. split; [done|]. intros k Hk. rewrite Hg', Hg1, Hzl by done.
  destruct (Z.leb_spec (j + 8) k), (Z.leb_spec j k), (Z.ltb_spec k (j + 8)), (Z.ltb_spec k (j + 8 + 8 * Z.of_nat n)),
    (Z.ltb_spec k (j + 8 * Z.of_nat (S n))); cbn [andb]; try lia; try done.
  rewrite byte_at_zip, Hgx, Hgy by lia. by replace (j + (k - j)) with k by lia.
Qed.

Lemma le_val_not x : Forall is_byte x -> le_val ((fun b => 255 - b) <$> x) = 2 ^ (8 * zlen x) - 1 - le_val x.
Proof.
  induction 1 as [|a x Ha Hx IH]; [done|]. rewrite fmap_cons. cbn [le_val]. rewrite IH, zlen_cons.
  pose proof (zlen_nonneg x). replace (8 * (1 + zlen x)) with (8 + 8 * zlen x) by lia. rewrite Z.pow_add_r by lia. lia.
Qed.

Lemma host_not x : Forall is_byte x -> zlen x = 8 -> wrapU 64 (Z.lnot (host_val x)) = host_val ((fun b => 255 - b) <$> x).
Proof.
  intros Hx Hl. assert (forall z, 0 <= z < 2 ^ 64 -> wrapU 64 (Z.lnot z) = 2 ^ 64 - 1 - z) as Hn.
  { intros z Hz. unfold wrapU, Z.lnot. symmetry. apply (Z.mod_unique_pos _ _ (-1)); lia. }
  unfold host_val. destruct big_endian.
  - assert (Forall is_byte (rev x)) as Hr by (by apply Forall_rev). assert (zlen (rev x) = 8) as Hrl by (unfold zlen in *; rewrite length_rev; lia).
    pose proof (le_val_range _ Hr) as Hv. rewrite Hrl in Hv. rewrite Hn by done.
    assert (rev ((fun b => 255 - b) <$> x) = (fun b => 255 - b) <$> rev x) as ->.
    { rewrite !rev_alt. symmetry. apply fmap_reverse. }
    rewrite le_val_not, Hrl by done. done.
  - pose proof (le_val_range _ Hx) as Hv. rewrite Hl in Hv. rewrite Hn, le_val_not, Hl by done. done.
Qed.

Lemma not_bytes x : Forall is_byte x -> Forall is_byte ((fun b => 255 - b) <$> x).
Proof. intros Hx. apply Forall_fmap. eapply Forall_impl; [done|]. unfold is_byte. cbn. lia. Qed.

Lemma bitop_not_words_ok n res j :
  0 <= j -> j + 8 * Z.of_nat n <= zlen res -> Forall is_byte res ->
  exists res', bitop_not_words res j n = Ok res' /\ zlen res' = zlen res /\ Forall is_byte res' /\
    forall k, 0 <= k -> byte_at res' k =
      if (j <=? k) && (k <? j + 8 * Z.of_nat n) then 255 - byte_at res k else byte_at res k.
Proof.
  revert res j. induction n as [|n IH]; intros res j Hj Hr Hbr; cbn [bitop_not_words].
  { exists res. split_and!; try done. intros k Hk. destruct (_ && _) eqn:E; [zprop; lia|done]. }
  destruct (byte_at_rd res j 8) as (x & -> & Hx & Hbx & Hgx); [lia..|]. rewrite bind_Ok.
  rewrite host_not by auto. pose proof (not_bytes x (Hbx Hbr)) as Hz.
  assert (length ((fun b => 255 - b) <$> x) = 8%nat) as Hz8 by (rewrite length_fmap; unfold zlen in Hx; lia).
  rewrite <- Hz8, host_bytes_val by done. assert (zlen ((fun b => 255 - b) <$> x) = 8) as Hzl by (unfold zlen; lia).
  destruct (byte_at_wr res j ((fun b => 255 - b) <$> x)) as (res1 & -> & Hl1 & Hb1 & Hg1); [lia..|]. rewrite bind_Ok.
  destruct (IH res1 (j + 8)) as (res' & -> & Hl' & Hb' & Hg'); [lia..|auto|].
  exists res'. split; [done|]. split; [lia|]. split; [done|]. intros k Hk. rewrite Hg', Hg1, Hzl by done.
  destruct (Z.leb_spec (j + 8) k), (Z.leb_spec j k), (Z.ltb_spec k (j + 8)), (Z.ltb_spec k (j + 8 + 8 * Z.of_nat n)),
    (Z.ltb_spec k (j + 8 * Z.of_nat (S n))); cbn [andb]; try lia; try done.
  unfold byte_at at 1. rewrite list_lookup_fmap. pose proof (Hgx (k - j) ltac:(lia)) as Hk'.
  replace (j + (k - j)) with k in Hk' by lia. rewrite <- Hk'. unfold byte_at.
  by destruct (lookup_lt_is_Some_2 x (Z.to_nat (k - j))) as [a ->]; [unfold zlen in Hx; lia|].
Qed.

(** The byte of the result at a position. *)
Definition op_byte (op : bitop) (x : Z) (rest : list (list Z)) (k : Z) : Z :=
  foldl (fun v s => word_op op v (byte_at s k)) (match op with BITOP_NOT => 255 - x | _ => x end) rest.

Lemma fast_srcs_ok op lps res j :
  0 <= j -> j + 32 <= zlen res -> Forall (fun lp => j + 32 <= zlen lp /\ Forall is_byte lp) lps -> Forall is_byte res ->
  exists res', bitop_fast_srcs op res lps j = Ok res' /\ zlen res' = zlen res /\ Forall is_byte res' /\
    forall k, 0 <= k -> byte_at res' k =
      if (j <=? k) && (k <? j + 32) then foldl (fun v s => word_op op v (byte_at s k)) (byte_at res k) lps else byte_at res k.
Proof.
  intros Hj Hr Hlps. revert res Hr. induction Hlps as [|lp lps [Hl Hb] _ IH]; intros res Hr Hbr; cbn [bitop_fast_srcs].
  { exists res. split_and!; try done. intros k Hk. by destruct (_ && _). }
  destruct (bitop_words_ok op 4 res lp j) as (res1 & -> & Hl1 & Hb1 & Hg1); [lia..|done|done|]. rewrite bind_Ok.
  destruct (IH res1) as (res' & -> & Hl' & Hb' & Hg'); [lia|done|]. exists res'. split; [done|]. split; [lia|].
  split; [done|]. intros k Hk. rewrite Hg', Hg1 by done. change (8 * Z.of_nat 4) with 32. by destruct (_ && _).
Qed.

Lemma bitop_fast_ok fuel op lps res j minlen :
  (Z.to_nat minlen < fuel)%nat -> 0 <= j -> 0 <= minlen -> j + minlen <= zlen res ->
  Forall (fun lp => j + minlen <= zlen lp /\ Forall is_byte lp) lps -> Forall is_byte res -> (op = BITOP_NOT -> lps = []) ->
  exists res' j', bitop_fast fuel op res lps j minlen = Ok (res', j') /\ j <= j' <= j + minlen /\ zlen res' = zlen res /\
    Forall is_byte res' /\
    forall k, 0 <= k -> byte_at res' k = if (j <=? k) && (k <? j') then op_byte op (byte_at res k) lps k else byte_at res k.
Proof.
  revert res j minlen. induction fuel as [|fuel IH]; intros res j minlen Hf Hj Hm Hr Hl Hb Hnot; [lia|]. cbn [bitop_fast].
  rewrite Z.geb_leb. destruct (Z.leb_spec 32 minlen).
  2:{ exists res, j. split_and!; try done; [lia|]. intros k Hk. destruct (_ && _) eqn:E; [zprop; lia|done]. }
  assert (exists res1, match op with BITOP_NOT => bitop_not_words res j 4 | _ => bitop_fast_srcs op res lps j end = Ok res1 /\
    zlen res1 = zlen res /\ Forall is_byte res1 /\ forall k, 0 <= k -> byte_at res1 k =
      if (j <=? k) && (k <? j + 32) then op_byte op (byte_at res k) lps k else byte_at res k) as (res1 & -> & Hl1 & Hb1 & Hg1).
  { assert (Forall (fun lp => j + 32 <= zlen lp /\ Forall is_byte lp) lps) as Hl'.
    { eapply Forall_impl; [done|]. cbn. intros lp [? ?]. split; [lia|done]. }
    destruct op; try (apply fast_srcs_ok; [lia..|done|done]). rewrite Hnot by done.
    apply bitop_not_words_ok; [lia..|done]. }
  rewrite bind_Ok. destruct (IH res1 (j + 32) (minlen - 32)) as (res' & j' & -> & Hj' & Hl2 & Hb2 & Hg2);
    [lia..| |done|done|].
  { eapply Forall_impl; [done|]. cbn. intros lp [? ?]. split; [lia|done]. }
  exists res', j'. split; [done|]. split; [lia|]. split; [lia|]. split; [done|]. intros k Hk. rewrite Hg2, Hg1 by done.
  destruct (Z.leb_spec (j + 32) k), (Z.leb_spec j k), (Z.ltb_spec k j'), (Z.ltb_spec k (j + 32)); cbn [andb]; try lia; done.
Qed.

Lemma src_byte_ok src j : 0 <= j -> src_byte src j = Ok (byte_at src j).
Proof.
  intros Hj. unfold src_byte. destruct (Z.leb_spec (zlen src) j); [by rewrite byte_at_beyond|].
  destruct (lookup_lt_is_Some_2 src (Z.to_nat j)) as [b Hb]; [unfold zlen in *; lia|].
  unfold byte_at. rewrite Hb. by apply rd1_lookup.
Qed.

(** Once the byte is all zeroes (AND) or all ones (OR), the rest cannot change it. *)
Lemma bitop_skip_ok op out srcs k :
  is_byte out -> Forall (Forall is_byte) srcs -> match op with BITOP_AND => out =? 0 | BITOP_OR => out =? 255 | _ => false end = true ->
  foldl (fun v s => word_op op v (byte_at s k)) out srcs = out.
Proof.
  intros Hout Hs. induction Hs as [|src srcs Hb _ IH]; [done|]. intros Hskip. cbn [foldl].
  assert (word_op op out (byte_at src k) = out) as ->; [|by apply IH].
  pose proof (byte_at_byte src k Hb) as Hk. destruct op; try done; apply Z.eqb_eq in Hskip as ->; cbn [word_op]; [done|].
  apply Z.bits_inj'. intros i Hi. rewrite Z.lor_spec. change 255 with (Z.ones 8). destruct (Z.ltb_spec i 8).
  - by rewrite Z.ones_spec_low by lia.
  - rewrite Z.ones_spec_high by lia. cbn [orb]. unfold is_byte in Hk.
    destruct (decide (byte_at src k = 0)) as [->|]; [apply Z.bits_0|]. apply Z.bits_above_log2; [lia|].
    assert (Z.log2 (byte_at src k) < 8) by (apply Z.log2_lt_pow2; lia). lia.
Qed.

Lemma bitop_byte_ok op out srcs j :
  0 <= j -> is_byte out -> Forall (Forall is_byte) srcs ->
  bitop_byte op out srcs j = Ok (foldl (fun v s => word_op op v (byte_at s j)) out srcs).
Proof.
  intros Hj Hout Hs. revert out Hout. induction Hs as [|src srcs Hb Hs IH]; intros out Hout; [done|].
  cbn [bitop_byte]. rewrite src_byte_ok, bind_Ok by done. pose proof (word_op_byte op out _ Hout (byte_at_byte src j Hb)) as Hw.
  cbv zeta. cbn [foldl]. destruct (match op with BITOP_AND => _ | BITOP_OR => _ | _ => _ end) eqn:Hskip.
  - f_equal. symmetry. by apply bitop_skip_ok.
  - by apply IH.
Qed.

Lemma op_byte_byte op x rest k : is_byte x -> Forall (Forall is_byte) rest -> is_byte (op_byte op x rest k).
Proof.
  intros Hx Hr. unfold op_byte. assert (is_byte (match op with BITOP_NOT => 255 - x | _ => x end)) as Hy.
  { unfold is_byte in *. destruct op; lia. }
  revert Hy. generalize (match op with BITOP_NOT => 255 - x | _ => x end). clear x Hx.
  induction Hr as [|s rest Hs _ IH]; intros y Hy; [done|]. cbn [foldl]. apply IH. apply word_op_byte; [done|]. by apply byte_at_byte.
Qed.

Lemma bitop_bytes_ok n op res src0 srcs j :
  0 <= j -> j + Z.of_nat n <= zlen res -> Forall is_byte res -> Forall is_byte src0 -> Forall (Forall is_byte) srcs ->
  exists res', bitop_bytes n op res src0 srcs j = Ok res' /\ zlen res' = zlen res /\ Forall is_byte res' /\
    forall k, 0 <= k -> byte_at res' k =
      if (j <=? k) && (k <? j + Z.of_nat n) then op_byte op (byte_at src0 k) srcs k else byte_at res k.
Proof.
  revert res j. induction n as [|n IH]; intros res j Hj Hr Hb H0 Hs; cbn [bitop_bytes].
  { exists res. split_and!; try done. intros k Hk. destruct (_ && _) eqn:E; [zprop; lia|done]. }
  rewrite src_byte_ok, bind_Ok by done. pose proof (byte_at_byte src0 j H0) as Hx.
  assert (match op with BITOP_NOT => wrapU 8 (Z.lnot (byte_at src0 j)) | _ => byte_at src0 j end =
    match op with BITOP_NOT => 255 - byte_at src0 j | _ => byte_at src0 j end) as ->.
  { destruct op; try done. unfold wrapU, Z.lnot. symmetry. unfold is_byte in Hx. apply (Z.mod_unique_pos _ _ (-1)); lia. }
  rewrite bitop_byte_ok, bind_Ok; [|done|unfold is_byte in *; destruct op; lia|done].
  fold (op_byte op (byte_at src0 j) srcs j). pose proof (op_byte_byte op _ srcs j Hx Hs) as Ho.
  destruct (byte_at_wr res j [op_byte op (byte_at src0 j) srcs j]) as (res1 & -> & Hl1 & Hb1 & Hg1);
    [done|change (zlen [_]) with 1; lia|]. rewrite bind_Ok.
  destruct (IH res1 (j + 1)) as (res' & -> & Hl' & Hb' & Hg'); [lia..|auto|done|done|].
  exists res'. split; [done|]. split; [lia|]. split; [done|]. intros k Hk. rewrite Hg', Hg1 by done. change (zlen [_]) with 1.
  destruct (Z.leb_spec (j + 1) k), (Z.leb_spec j k), (Z.ltb_spec k (j + 1)), (Z.ltb_spec k (j + 1 + Z.of_nat n)),
    (Z.ltb_spec k (j + Z.of_nat (S n))); cbn [andb]; try lia; try done.
  assert (k = j) as -> by lia. by rewrite Z.sub_diag.
Qed.

Context (cfg : config).

Lemma bitop_compute_ok op src0 rest maxlen minlen :
  0 <= minlen -> Forall (fun s => Forall is_byte s /\ minlen <= zlen s <= maxlen) (src0 :: rest) -> (op = BITOP_NOT -> rest = []) ->
  exists res, bitop_compute cfg op (src0 :: rest) maxlen minlen = Ok res /\ zlen res = maxlen /\ Forall is_byte res /\
    forall k, 0 <= k < maxlen -> byte_at res k = op_byte op (byte_at src0 k) rest k.
Proof.
  intros Hm Hs Hnot. apply Forall_cons in Hs as [[H0 Hl0] Hs]. unfold bitop_compute.
  assert (zlen (sdsnewlen_zero maxlen) = maxlen) as Hz by (unfold zlen, sdsnewlen_zero; rewrite length_replicate; lia).
  assert (Forall is_byte (sdsnewlen_zero maxlen)) as Hzb by (apply Forall_replicate; unfold is_byte; lia).
  assert (Forall (Forall is_byte) rest) as Hr by (eapply Forall_impl; [done|]; cbn; tauto).
  assert (exists res j, (if negb (use_aligned_access cfg) && (minlen >=? 32) && (zlen (src0 :: rest) <=? 16) then
     bs ← rd src0 0 minlen; res ← wr (sdsnewlen_zero maxlen) 0 bs; bitop_fast (S (Z.to_nat minlen)) op res rest 0 minlen
     else Ok (sdsnewlen_zero maxlen, 0)) = Ok (res, j) /\ 0 <= j <= maxlen /\ zlen res = maxlen /\ Forall is_byte res /\
     forall k, 0 <= k < j -> byte_at res k = op_byte op (byte_at src0 k) rest k) as (res & j & -> & Hj & Hl & Hb & Hg).
  { destruct (_ && _ && _); [|exists (sdsnewlen_zero maxlen), 0; split_and!; try done; lia].
    destruct (byte_at_rd src0 0 minlen) as (bs & -> & Hbs & Hbb & Hbg); [lia..|]. rewrite bind_Ok.
    destruct (byte_at_wr (sdsnewlen_zero maxlen) 0 bs) as (res1 & -> & Hl1 & Hb1 & Hg1); [lia..|]. rewrite bind_Ok.
    destruct (bitop_fast_ok (S (Z.to_nat minlen)) op rest res1 0 minlen) as (res & j & -> & Hj & Hl & Hb & Hg);
      [lia..| |auto|done|]. { eapply Forall_impl; [exact Hs|]. cbn. intros s [? ?]. split; [lia|done]. }
    exists res, j. split; [done|]. split; [lia|]. split; [lia|]. split; [done|]. intros k Hk. rewrite Hg, Hg1 by lia.
    ztrue (0 <=? k). ztrue (k <? j). ztrue (k <? 0 + zlen bs). cbn [andb]. rewrite Hbg by lia. do 3 f_equal. lia. }
  rewrite bind_Ok. destruct (bitop_bytes_ok (Z.to_nat (maxlen - j)) op res src0 rest j) as (res' & -> & Hl' & Hb' & Hg');
    [lia..|done|done|done|].
  exists res'. split; [done|]. split; [lia|]. split; [done|]. intros k Hk. rewrite Hg' by lia.
  destruct (Z.leb_spec j k), (Z.ltb_spec k (j + Z.of_nat (Z.to_nat (maxlen - j)))); cbn [andb]; try lia; auto with lia.
Qed.

End Bitop.

(** An operation on the bits of the source strings at one position. *)
Definition bit_op (op : bitop) (l : list bool) : bool :=
  match op with
  | BITOP_AND => forallb id l
  | BITOP_OR => existsb id l
  | BITOP_XOR => foldl xorb false l
  | BITOP_NOT => negb (default false (head l))
  end.

(** The length of the longest string. *)
Definition max_len (strs : list (list Z)) : Z := foldr (fun s m => Z.max (zlen s) m) 0 strs.

Lemma max_len_ge strs : Forall (fun s => zlen s <= max_len strs) strs.
Proof.
  induction strs as [|s strs IH]; constructor; cbn [max_len foldr]; [lia|].
  eapply Forall_impl; [done|]. cbn. unfold max_len. intros. lia.
Qed.

Lemma max_len_nonneg strs : 0 <= max_len strs.
Proof. induction strs as [|s strs IH]; cbn [max_len foldr]; [done|]. unfold max_len in IH. lia. Qed.

Lemma op_byte_bit op x rest k b :
  is_byte x -> 0 <= b < 8 -> (op = BITOP_NOT -> rest = []) ->
  Z.testbit (op_byte op x rest k) b = bit_op op (Z.testbit x b :: ((fun s => Z.testbit (byte_at s k) b) <$> rest)).
Proof.
  intros Hx Hb Hnot. unfold op_byte. destruct op; cbn [bit_op].
  - clear Hx Hnot. revert x. induction rest as [|s rest IH]; intros x; cbn [foldl fmap list_fmap forallb] in *; [by rewrite andb_true_r|].
    rewrite IH. cbn [word_op]. rewrite Z.land_spec. unfold id. by rewrite andb_assoc.
  - clear Hx Hnot. revert x. induction rest as [|s rest IH]; intros x; cbn [foldl fmap list_fmap existsb] in *; [by rewrite orb_false_r|].
    rewrite IH. cbn [word_op]. rewrite Z.lor_spec. unfold id. by rewrite orb_assoc.
  - clear Hx Hnot. revert x. induction rest as [|s rest IH]; intros x; cbn [foldl fmap list_fmap] in *; [by destruct (Z.testbit x b)|].
    rewrite IH. cbn [word_op]. by rewrite Z.lxor_spec, !xorb_false_l.
  - rewrite Hnot by done. cbn [foldl head default]. replace (255 - x) with (Z.lnot x + 256 * 1) by (unfold Z.lnot; lia).
    unfold is_byte in Hx. replace (Z.lnot x + 256 * 1) with (Z.lnot x + 1 * 2 ^ 8) by lia.
    rewrite <- (Z.mod_pow2_bits_low _ 8), Z.mod_add, Z.mod_pow2_bits_low by lia. by rewrite Z.lnot_spec by lia.
Qed.

Section BitopCommand.
Context `{Host} {DB : Type} `{KeyspaceLaws DB} (cfg : config).

(** The source strings, with bounds for the fast path. *)
Lemma runs_bitop_srcs keys strs first maxlen minlen (s : server DB) (Q : _ -> _ -> Prop) :
  Forall storable keys -> db_wf (sdb s) -> Forall2 (string_at (view (sdb s))) keys strs -> 0 <= minlen -> 0 <= maxlen ->
  (forall d m, db_wf d -> view d = view (sdb s) -> expires d = expires (sdb s) ->
    Forall (fun str => m <= zlen str) strs -> 0 <= m -> (first = false -> m <= minlen) ->
    Q (with_db s d) (Some (strs, Z.max maxlen (max_len strs), m))) ->
  runs (bitop_srcs keys first maxlen minlen) s Q.
Proof.
  intros Hst Hw Hs. revert s Hw first maxlen minlen Q Hs. 
  induction keys as [|key keys IH] in strs, Hst |- *; intros s Hw first maxlen minlen Q Hs Hmin Hmax HQ; inversion Hs as [|? str ? strs' Hstr Hrest]; subst; cbn [bitop_srcs].
  { apply runs_ret. destruct s as [d r dt e]. replace maxlen with (Z.max maxlen (max_len [])) at 1 by (cbn; lia).
    apply (HQ d minlen); try done. }
  apply Forall_cons in Hst as [Hst1 Hst]. apply runs_bind, runs_read; [done..|]. intros d Hd Hv He. unfold string_at in Hstr.
  destruct (view (sdb s) !! key) as [o|] eqn:Hk.
  - destruct Hstr as [Ho Hstr]. apply runs_bind, runs_check_string; [by destruct o|].
    destruct (decode_ok o str Ho Hstr) as (e & n & Hdec). apply runs_bind. eapply runs_lift; [exact Hdec|].
    apply runs_bind, runs_ret.
    cbv zeta. apply runs_bind. match goal with |- runs (bitop_srcs _ _ ?a ?b) _ _ => set (mx := a); set (mn := b) end. pose proof (zlen_nonneg str).
    assert (mx = Z.max maxlen (zlen str)) as Hmx by (unfold mx; destruct (_ >? _) eqn:E; lia).
    assert (0 <= mn <= zlen str /\ (first = false -> mn <= minlen)) as [Hmn Hmnf].
    { unfold mn. destruct first; cbn [orb]; [split; [lia|done]|]. destruct (Z.ltb_spec (zlen str) minlen); lia. }
    clearbody mx mn. apply (IH strs'); cbn [sdb with_db]; [done|done|by rewrite Hv|lia|lia|].
    intros d2 m Hd2 Hv2 He2 Hm Hm0 Hf. apply runs_ret. replace (Z.max mx (max_len strs')) with (Z.max maxlen (max_len (str :: strs'))).
    + apply HQ; [done|congruence..| |done|]. { constructor; [specialize (Hf eq_refl); lia|done]. } intros E. specialize (Hf eq_refl). specialize (Hmnf E). lia.
    + cbn [max_len foldr]. unfold max_len. lia.
  - subst str. apply runs_bind, (IH strs'); cbn [sdb with_db]; [done|done|by rewrite Hv|lia|lia|].
    intros d2 m Hd2 Hv2 He2 Hm Hm0 Hf. apply runs_ret. specialize (Hf eq_refl).
    replace (Z.max maxlen (max_len strs')) with (Z.max maxlen (max_len ([] :: strs'))).
    + apply HQ; [done|congruence..| |done|lia]. constructor; [change (zlen []) with 0; lia|done].
    + cbn [max_len foldr]. change (zlen []) with 0. pose proof (max_len_nonneg strs'). unfold max_len in *. lia.
Qed.

Lemma bitop_compute_bits op strs m :
  strs <> [] -> 0 <= m -> Forall (fun str => m <= zlen str) strs -> Forall (Forall is_byte) strs ->
  (op = BITOP_NOT -> length strs = 1%nat) ->
  exists res, bitop_compute cfg op strs (max_len strs) m = Ok res /\ zlen res = max_len strs /\ Forall is_byte res /\
    forall i, 0 <= i < 8 * max_len strs -> bit_at res i = bit_op op ((fun str => bit_at str i) <$> strs).
Proof.
  intros Hne Hm Hmin Hb Hnot. destruct strs as [|src0 rest]; [done|].
  assert (op = BITOP_NOT -> rest = []) as Hnot' by (intros E; specialize (Hnot E); by destruct rest).
  destruct (bitop_compute_ok cfg op src0 rest (max_len (src0 :: rest)) m) as (res & Ec & Hl & Hr & Hg); [done| |done|].
  { apply Forall_and. split; [done|]. apply Forall_and. split; [done|apply max_len_ge]. }
  exists res. split; [done|]. split; [done|]. split; [done|]. intros i Hi. rewrite bit_at_byte, Hg by zdiv.
  apply Forall_cons in Hb as [Hb0 _]. rewrite op_byte_bit by (first [by apply byte_at_byte|zdiv|done]).
  rewrite fmap_cons, bit_at_byte by lia. f_equal. f_equal. apply list_fmap_ext. intros _ str _. by rewrite bit_at_byte by lia.
Qed.

(** C21: BITOP stores the bitwise combination of the source strings, the shorter
    ones padded with zeroes: the word-at-a-time path on the common prefix and the
    byte loop with its early exit compute the same bits. The result is as long as
    the longest string, has no expire time, and an empty result deletes the
    target. *)
Theorem bitopCommand_correct c opname op target keys strs (s : server DB) :
  Forall storable (target :: keys) -> db_wf (sdb s) -> bitop_name opname = Some op -> keys <> [] -> (op = BITOP_NOT -> length keys = 1%nat) ->
  Forall2 (string_at (view (sdb s))) keys strs ->
  runs (bitopCommand cfg (c :: opname :: target :: keys)) s (fun s' r => r = Some tt /\ db_wf (sdb s') /\
    reply s' = reply s ++ [ReplyInteger (max_len strs)] /\ expires (sdb s') = delete target (expires (sdb s)) /\
    if max_len strs =? 0 then
      view (sdb s') = delete target (view (sdb s)) /\
      (is_Some (view (sdb s) !! target) -> dirty s' = dirty s + 1 /\
        events s' = events s ++ [SignalModifiedKey target; Notify NOTIFY_GENERIC "del" target])
    else exists res, view (sdb s') = <[target := createRawStringObject res]> (view (sdb s)) /\
      zlen res = max_len strs /\ Forall is_byte res /\
      (forall i, 0 <= i < 8 * max_len strs -> bit_at res i = bit_op op ((fun str => bit_at str i) <$> strs)) /\
      dirty s' = dirty s + 1 /\
      events s' = events s ++ [SignalModifiedKey target; Notify NOTIFY_STRING "set" target]).
Proof.
  intros [Hst Hsts]%Forall_cons Hw Hop Hne Hnot Hs. unfold bitopCommand. apply runs_bind, (runs_arg _ _ opname); [done|].
  apply runs_bind, (runs_arg _ _ target); [done|]. rewrite Hop.
  assert (bool_decide (op = BITOP_NOT) && negb (zlen (c :: opname :: target :: keys) =? 4) = false) as ->.
  { case_bool_decide as E; [|done]. unfold zlen. cbn [length]. by rewrite (Hnot E). }
  apply runs_bind, (runs_bitop_srcs _ strs); [done..|]. intros d m Hd Hv He Hm Hm0 _.
  pose proof (max_len_nonneg strs). replace (Z.max 0 (max_len strs)) with (max_len strs) by lia.
  destruct (Z.eqb_spec (max_len strs) 0) as [E0|E0]; cbn [negb].
  - apply runs_bind. apply runs_bind. apply runs_delete; [done..|]. intros d2 b Hd2 Hb _ Hv2 He2 _. destruct b.
    + apply runs_bind, runs_signal. apply runs_bind, runs_notify. apply runs_dirty. apply runs_reply.
      cbn [sdb reply dirty events with_reply with_dirty with_event with_db] in *. rewrite Hv2, He2, Hv, He.
      split_and!; try done. by rewrite <- app_assoc.
    + apply runs_ret, runs_reply. cbn [sdb reply dirty events with_reply with_db] in *. rewrite Hv2, He2, Hv, He.
      split_and!; try done. intros Hsome. cbn in Hb. rewrite Hv in Hb. by specialize (Hb Hsome).
  - destruct strs as [|src0 rest]; [done|].
    destruct (bitop_compute_bits op (src0 :: rest) m) as (res & Ec & Hl & Hb & Hg); [done|done|done| | |].
    { eapply Forall2_Forall_r; [exact Hs|]. apply Forall_true. intros k str Hstr. by eapply string_at_wf. }
    { intros E. by rewrite <- (Forall2_length _ _ _ Hs), (Hnot E). }
    apply runs_bind. apply runs_bind. eapply runs_lift; [exact Ec|]. apply runs_bind, runs_set_key; [done..|].
    intros d2 Hd2 Hv2 He2. apply runs_bind, runs_notify. apply runs_dirty. apply runs_reply.
    cbn [sdb reply dirty events with_reply with_dirty with_event with_db] in *. rewrite Hv2, He2, Hv, He.
    split; [done|]. split; [done|]. split; [done|]. split; [done|]. exists res. split_and!; try done. by rewrite <- app_assoc.
Qed.

End BitopCommand.

(** * Examples *)

Lemma setbitCommand_correct_witness :
  exists s', setbitCommand (DB := plain_db) (H := little_host) sample_config [chars "SETBIT"; sample_key; ll_repr 40; ll_repr 1] sample_server =
      Ok (s', Some tt) /\ reply s' = [ReplyInteger 0] /\ dirty s' = 1.
Proof.
  destruct (setbitCommand_correct (DB := plain_db) (H := little_host) sample_config (chars "SETBIT") sample_key 40 true
    [0xff; 0x81; 0x7e] sample_server ltac:(exact I) ltac:(exact I) ltac:(split; [lia|by right]) sample_string)
    as (s' & r & E & -> & ptr & _ & _ & _ & _ & _ & _ & Hr & Hd).
  exists s'. split; [exact E|]. rewrite Hr. split; [by vm_compute|]. apply Hd.
Defined.

Lemma getbitCommand_correct_witness :
  exists s' r, getbitCommand (DB := plain_db) (H := big_host) sample_config [chars "GETBIT"; sample_key; ll_repr 8] sample_server = Ok (s', r) /\
    reply s' = [ReplyInteger 1].
Proof.
  destruct (getbitCommand_correct (DB := plain_db) (H := big_host) sample_config (chars "GETBIT") sample_key 8 [0xff; 0x81; 0x7e] sample_server
    ltac:(exact I) ltac:(exact I) ltac:(split; [lia|by right]) sample_string) as (s' & r & E & _ & _ & _ & Hr & _).
  exists s', r. split; [exact E|]. rewrite Hr. by vm_compute.
Defined.

Lemma bitopCommand_correct_witness :
  exists s' r, bitopCommand (DB := plain_db) (H := little_host) sample_config
      [chars "BITOP"; chars "XOR"; chars "dest"; sample_key; chars "none"; sample_key] sample_server = Ok (s', r) /\
    reply s' = [ReplyInteger 3] /\ dirty s' = 1.
Proof.
  destruct (bitopCommand_correct (DB := plain_db) (H := little_host) sample_config (chars "BITOP") (chars "XOR") BITOP_XOR (chars "dest")
    [sample_key; chars "none"; sample_key] [[0xff; 0x81; 0x7e]; []; [0xff; 0x81; 0x7e]] sample_server ltac:(by repeat constructor) ltac:(exact I) eq_refl ltac:(done) ltac:(done)
    ltac:(constructor; [exact sample_string|constructor; [done|constructor; [exact sample_string|constructor]]]))
    as (s' & r & E & _ & _ & Hr & _ & res & _ & _ & _ & _ & Hd & _).
  exists s', r. split; [exact E|]. split; [exact Hr|exact Hd].
Defined.
