(* ===== verification/BitRange.v ===== *)
(** BITCOUNT and BITPOS: what the commands of [BitCommands] compute on a range.

    A range is given in bytes or in bits, with negative indexes counting from
    the end.  A range in bits is turned into a range of whole bytes and two masks
    for the bits of the first and of the last byte that are out of the range; the
    theorems state the result on the list of the bits in the range. *)
From S2P Require Import Prelude Endian Util Glob Sds Object Bitops BitCommands.
From stdpp Require Import gmap list strings.

Open Scope Z_scope.

(** * Specification *)

(** An index into [totlen] positions, negative ones counting from the end. *)
Definition position (totlen i : Z) : Z := if i <? 0 then Z.max 0 (totlen + i) else i.

(** The first and the last position of a range. *)
Definition range_start (totlen start : Z) : Z := position totlen start.
Definition range_last (totlen fin : Z) : Z := Z.min (position totlen fin) (totlen - 1).

(** The bits of a string from a first to a last position, in bits or in bytes. *)
Definition range_unit (isbit : bool) : Z := if isbit then 1 else 8.
Definition range_total (isbit : bool) (str : list Z) : Z := if isbit then 8 * zlen str else zlen str.
Definition range_bits (isbit : bool) (str : list Z) (lo hi : Z) : list bool :=
  sub (bits_of str) (range_unit isbit * lo) (range_unit isbit * (hi - lo + 1)).

(** The optional [BIT] or [BYTE] argument. *)
Inductive mode_args : list (list Z) -> bool -> Prop :=
| mode_default : mode_args [] false
| mode_given (a : list Z) (isbit : bool) : strcase_eq a (if isbit then "bit" else "byte")%string = true -> mode_args [a] isbit.

(** The range arguments of BITCOUNT: none is the whole string. *)
Inductive count_args : list (list Z) -> bool -> Z -> Z -> Prop :=
| count_all : count_args [] false 0 (-1)
| count_range start fin mode isbit :
    INT64_MIN <= start <= INT64_MAX -> INT64_MIN <= fin <= INT64_MAX -> mode_args mode isbit ->
    count_args (ll_repr start :: ll_repr fin :: mode) isbit start fin.

(** The range arguments of BITPOS, and whether the end is given. *)
Inductive pos_args : list (list Z) -> bool -> Z -> Z -> bool -> Prop :=
| pos_all : pos_args [] false 0 (-1) false
| pos_from start : INT64_MIN <= start <= INT64_MAX -> pos_args [ll_repr start] false start (-1) false
| pos_range start fin mode isbit :
    INT64_MIN <= start <= INT64_MAX -> INT64_MIN <= fin <= INT64_MAX -> mode_args mode isbit ->
    pos_args (ll_repr start :: ll_repr fin :: mode) isbit start fin true.

Definition bitcount_spec (isbit : bool) (str : list Z) (start fin : Z) : Z :=
  let lo := range_start (range_total isbit str) start in
  let hi := range_last (range_total isbit str) fin in
  if ((start <? 0) && (fin <? 0) && (fin <? start)) || (hi <? lo) then 0
  else count_ones (range_bits isbit str lo hi).

Definition bitpos_spec (bit isbit : bool) (str : list Z) (start fin : Z) (end_given : bool) : Z :=
  let lo := range_start (range_total isbit str) start in
  let hi := range_last (range_total isbit str) fin in
  if hi <? lo then -1
  else
    match first_bit bit (range_unit isbit * lo) (range_bits isbit str lo hi) with
    | Some x => x
    | None => if bit || end_given then -1 else range_unit isbit * (hi + 1)
    end.

(** * Lemmas *)

(** ** Masks *)

(** The bits of the first byte before the position [k], and of the last byte after
    it. *)
Definition first_mask (k : Z) : Z := Z.land (Z.lnot (Z.shiftl 1 (8 - k) - 1)) 255.
Definition last_mask (k : Z) : Z := Z.shiftl 1 (7 - k) - 1.

(** A fact about every byte and every position in a byte. *)
Lemma byte_cases (f : Z -> Z -> bool) :
  forallb (fun b => forallb (fun k => f (Z.of_nat b) (Z.of_nat k)) (seq 0 8)) (seq 0 256) = true ->
  forall b k, is_byte b -> 0 <= k < 8 -> f b k = true.
Proof.
  intros Hf b k Hb Hk. apply (all_below 8 (f b)); [|exact Hk].
  apply (all_below 256 (fun b => forallb (fun k => f b (Z.of_nat k)) (seq 0 8))); [exact Hf|exact Hb].
Qed.

Ltac byte_fact f :=
  match goal with
  | Hb : is_byte ?b, Hk : 0 <= ?k < 8 |- _ =>
      let E := fresh "E" in
      pose proof (byte_cases f ltac:(by vm_compute) b k Hb Hk) as E; cbv beta zeta in E;
      rewrite ?andb_true_iff, ?Z.eqb_eq, ?Z.leb_le, ?Z.ltb_lt in E
  end.

Lemma count_first b k : is_byte b -> 0 <= k < 8 -> pop (Z.land b (first_mask k)) = count_ones (take (Z.to_nat k) (byte_to_bits b)).
Proof. intros Hb Hk. byte_fact (fun b k => pop (Z.land b (first_mask k)) =? count_ones (take (Z.to_nat k) (byte_to_bits b))). done. Qed.

Lemma count_last b k : is_byte b -> 0 <= k < 8 -> pop (Z.land b (last_mask k)) = count_ones (drop (Z.to_nat (k + 1)) (byte_to_bits b)).
Proof. intros Hb Hk. byte_fact (fun b k => pop (Z.land b (last_mask k)) =? count_ones (drop (Z.to_nat (k + 1)) (byte_to_bits b))). done. Qed.

Lemma masks_byte b k : is_byte b -> 0 <= k < 8 ->
  is_byte (Z.land b (first_mask k)) /\ is_byte (Z.land b (last_mask k)) /\
  is_byte (Z.land b (Z.land (Z.lnot (first_mask k)) 255)) /\ is_byte (Z.lor b (first_mask k)) /\
  is_byte (Z.land b (Z.land (Z.lnot (last_mask k)) 255)) /\ is_byte (Z.lor b (last_mask k)).
Proof.
  intros Hb Hk. byte_fact (fun b k => let t x := (0 <=? x) && (x <? 256) in
    t (Z.land b (first_mask k)) && t (Z.land b (last_mask k)) && t (Z.land b (Z.land (Z.lnot (first_mask k)) 255)) &&
    t (Z.lor b (first_mask k)) && t (Z.land b (Z.land (Z.lnot (last_mask k)) 255)) && t (Z.lor b (last_mask k))).
  unfold is_byte. tauto.
Qed.

(** The masks are zero exactly at the ends of a byte. *)
Lemma first_mask_zero k : 0 <= k < 8 -> (first_mask k =? 0) = (k =? 0).
Proof.
  intros Hk. assert (is_byte 0) as Hb by (unfold is_byte; lia).
  byte_fact (fun (_ k : Z) => eqb (first_mask k =? 0) (k =? 0)). by apply eqb_prop.
Qed.

Lemma last_mask_zero k : 0 <= k < 8 -> (last_mask k =? 0) = (k =? 7).
Proof.
  intros Hk. assert (is_byte 0) as Hb by (unfold is_byte; lia).
  byte_fact (fun (_ k : Z) => eqb (last_mask k =? 0) (k =? 7)). by apply eqb_prop.
Qed.

(** A byte with the bits out of the range made different from [bit]. *)
Definition keep_first (bit : bool) (b k : Z) : Z :=
  if bit then Z.land b (Z.land (Z.lnot (first_mask k)) 255) else Z.lor b (first_mask k).
Definition keep_last (bit : bool) (b k : Z) : Z :=
  if bit then Z.land b (Z.land (Z.lnot (last_mask k)) 255) else Z.lor b (last_mask k).

Lemma keep_first_bits bit b k : is_byte b -> 0 <= k < 8 ->
  byte_to_bits (keep_first bit b k) = replicate (Z.to_nat k) (negb bit) ++ drop (Z.to_nat k) (byte_to_bits b).
Proof.
  intros Hb Hk. destruct bit.
  - byte_fact (fun b k => bool_decide (byte_to_bits (keep_first true b k) =
      replicate (Z.to_nat k) false ++ drop (Z.to_nat k) (byte_to_bits b))). by apply bool_decide_eq_true in E.
  - byte_fact (fun b k => bool_decide (byte_to_bits (keep_first false b k) =
      replicate (Z.to_nat k) true ++ drop (Z.to_nat k) (byte_to_bits b))). by apply bool_decide_eq_true in E.
Qed.

Lemma keep_last_bits bit b k : is_byte b -> 0 <= k < 8 ->
  byte_to_bits (keep_last bit b k) = take (Z.to_nat (k + 1)) (byte_to_bits b) ++ replicate (Z.to_nat (7 - k)) (negb bit).
Proof.
  intros Hb Hk. destruct bit.
  - byte_fact (fun b k => bool_decide (byte_to_bits (keep_last true b k) =
      take (Z.to_nat (k + 1)) (byte_to_bits b) ++ replicate (Z.to_nat (7 - k)) false)). by apply bool_decide_eq_true in E.
  - byte_fact (fun b k => bool_decide (byte_to_bits (keep_last false b k) =
      take (Z.to_nat (k + 1)) (byte_to_bits b) ++ replicate (Z.to_nat (7 - k)) true)). by apply bool_decide_eq_true in E.
Qed.

(** ** Ranges of bits *)

Lemma sub_take {A} (l : list A) i n k : 0 <= k <= n -> take (Z.to_nat k) (sub l i n) = sub l i k.
Proof. intros Hk. unfold sub. rewrite take_take. f_equal. lia. Qed.

Lemma sub_drop {A} (l : list A) i n k : 0 <= i -> 0 <= k <= n -> drop (Z.to_nat k) (sub l i n) = sub l (i + k) (n - k).
Proof.
  intros Hi Hk. unfold sub. rewrite skipn_firstn_comm, drop_drop.
  replace (Z.to_nat i + Z.to_nat k)%nat with (Z.to_nat (i + k)) by lia. f_equal. lia.
Qed.

Lemma bits_of_take s n : bits_of (take n s) = take (8 * n) (bits_of s).
Proof.
  revert n. induction s as [|b s IH]; intros n; [change (bits_of []) with (@nil bool); by rewrite !take_nil|]. destruct n as [|n]; [done|].
  replace (8 * S n)%nat with (8 + 8 * n)%nat by lia. cbn [take]. rewrite !bits_of_cons, IH. by rewrite take_app_add' by done.
Qed.

Lemma bits_of_drop s n : bits_of (drop n s) = drop (8 * n) (bits_of s).
Proof.
  revert n. induction s as [|b s IH]; intros n; [change (bits_of []) with (@nil bool); by rewrite !drop_nil|]. destruct n as [|n]; [done|].
  replace (8 * S n)%nat with (8 + 8 * n)%nat by lia. cbn [drop]. rewrite bits_of_cons, IH. by rewrite drop_app_add' by done.
Qed.

Lemma bits_of_sub s i n : 0 <= i -> 0 <= n -> bits_of (sub s i n) = sub (bits_of s) (8 * i) (8 * n).
Proof.
  intros Hi Hn. unfold sub. rewrite bits_of_take, bits_of_drop.
  replace (8 * Z.to_nat i)%nat with (Z.to_nat (8 * i)) by lia. f_equal. lia.
Qed.

Lemma byte_sub p i b : 0 <= i -> p !! Z.to_nat i = Some b -> byte_to_bits b = sub (bits_of p) (8 * i) 8.
Proof.
  intros Hi Hb. replace 8 with (8 * 1) at 2 by lia. rewrite <- bits_of_sub by lia. rewrite (sub_1 _ _ b) by done. done.
Qed.

(** The first and the last byte of a range of bits. *)
Lemma range_edges p start fin :
  0 <= start <= fin -> fin < 8 * zlen p -> Forall is_byte p ->
  exists f l, p !! Z.to_nat (start / 8) = Some f /\ p !! Z.to_nat (fin / 8) = Some l /\ is_byte f /\ is_byte l /\
    byte_to_bits f = sub (bits_of p) (8 * (start / 8)) 8 /\ byte_to_bits l = sub (bits_of p) (8 * (fin / 8)) 8.
Proof.
  intros Hs Hf Hp. destruct (lookup_lt_is_Some_2 p (Z.to_nat (start / 8))) as [f Ef]; [unfold zlen in *; zdiv|].
  destruct (lookup_lt_is_Some_2 p (Z.to_nat (fin / 8))) as [l El]; [unfold zlen in *; zdiv|].
  exists f, l. split; [done|]. split; [done|]. split; [by eapply Forall_lookup_1|]. split; [by eapply Forall_lookup_1|].
  split; apply byte_sub; try done; zdiv.
Qed.

Lemma mod_8 n : Z.land n 7 = n mod 8.
Proof. change 7 with (2 ^ 3 - 1). by rewrite land_mask by lia. Qed.

Section Range.
Context `{Host} (cfg : config).

Lemma bitcount_bits p start fin :
  Forall is_byte p -> zlen p < MAX_STRING -> 0 <= start <= fin -> fin < 8 * zlen p ->
  bitcount_range cfg p (start / 8) (fin / 8) (first_mask (start mod 8)) (last_mask (fin mod 8)) =
  Ok (count_ones (sub (bits_of p) start (fin - start + 1))).
Proof.
  intros Hp Hmax Hs Hf. unfold MAX_STRING in Hmax. unfold bitcount_range.
  assert (0 <= start mod 8 < 8 /\ 0 <= fin mod 8 < 8 /\ start / 8 <= fin / 8 /\ 0 <= start / 8 /\ fin / 8 < zlen p) as (Ha & Hb & Hsf & Hs0 & Hf1)
    by (split_and!; zdiv).
  rewrite redisPopcount_ok by (done || lia). rewrite bind_Ok, bits_of_sub by lia.
  destruct (range_edges p start fin Hs Hf Hp) as (f & l & Ef & El & Hfb & Hlb & Bf & Bl).
  set (B := bits_of p) in *. set (n := 8 * (fin / 8 - start / 8 + 1)).
  assert (count_ones (sub B (8 * (start / 8)) n) = pop (Z.land f (first_mask (start mod 8))) +
    count_ones (sub B start (fin - start + 1)) + pop (Z.land l (last_mask (fin mod 8)))) as ->.
  { rewrite count_first, count_last, Bf, Bl by done. rewrite sub_take, sub_drop by zdiv.
    rewrite (sub_app B (8 * (start / 8)) n (start mod 8)) by (unfold n; zdiv).
    rewrite (sub_app B (8 * (start / 8) + start mod 8) (n - start mod 8) (fin - start + 1)) by (unfold n; zdiv).
    rewrite !count_ones_app. replace (8 * (start / 8) + start mod 8) with start by zdiv.
    replace (start + (fin - start + 1)) with (8 * (fin / 8) + (fin mod 8 + 1)) by zdiv.
    replace (n - start mod 8 - (fin - start + 1)) with (8 - (fin mod 8 + 1)) by (unfold n; zdiv). lia. }
  assert ((if negb (first_mask (start mod 8) =? 0) then b ← rd1 p (start / 8); Ok (Z.land b (first_mask (start mod 8))) else Ok 0) =
    Ok (Z.land f (first_mask (start mod 8)))) as ->.
  { destruct (Z.eqb_spec (first_mask (start mod 8)) 0) as [->|]; cbn [negb]; [by rewrite Z.land_0_r|].
    rewrite (proj2 (rd1_lookup p (start / 8) f)) by done. done. }
  assert ((if negb (last_mask (fin mod 8) =? 0) then b ← rd1 p (fin / 8); Ok (Z.land b (last_mask (fin mod 8))) else Ok 0) =
    Ok (Z.land l (last_mask (fin mod 8)))) as ->.
  { destruct (Z.eqb_spec (last_mask (fin mod 8)) 0) as [->|]; cbn [negb]; [by rewrite Z.land_0_r|].
    rewrite (proj2 (rd1_lookup p (fin / 8) l)) by (split; [lia|done]). done. }
  rewrite !bind_Ok. pose proof (masks_byte f _ Hfb Ha) as (Hm1 & _). pose proof (masks_byte l _ Hlb Hb) as (_ & Hm2 & _).
  rewrite redisPopcount_ok by (try done; by forall_list). rewrite bind_Ok.
  match goal with |- context [sub [?x; ?y] 0 2] => change (sub [x; y] 0 2) with [x; y] end. rewrite ones_bytes. cbn [foldr].
  destruct (_ || _) eqn:E; f_equal; [lia|]. zprop.
  replace (first_mask (start mod 8)) with 0 by done. replace (last_mask (fin mod 8)) with 0 by done.
  rewrite !Z.land_0_r. change (pop 0) with 0. lia.
Qed.

(** *** Searching *)

(** The position of the first bit in a range of bits. *)
Definition find_bit (bit : bool) (B : list bool) (lo n : Z) : option Z := first_bit bit lo (sub B lo n).

Lemma find_bit_app bit B lo n k :
  0 <= lo -> 0 <= k <= n -> n + lo <= zlen B ->
  find_bit bit B lo n = match find_bit bit B lo k with Some x => Some x | None => find_bit bit B (lo + k) (n - k) end.
Proof.
  intros Hlo Hk Hn. unfold find_bit. rewrite (sub_app B lo n k) by done.
  rewrite (first_bit_shift bit lo (_ ++ _)), (first_bit_shift bit lo (sub B lo k)), (first_bit_shift bit (lo + k)), first_bit_app.
  destruct (first_bit bit 0 (sub B lo k)); [done|]. rewrite zlen_sub by lia.
  destruct (first_bit bit 0 (sub B (lo + k) (n - k))); [|done]. cbn. f_equal. lia.
Qed.

(** A position relative to [base], as [redisBitpos] gives it for [len] bits, that
    stands for the result [r] of the search. *)
Definition found (bit : bool) (r : option Z) (base len pos : Z) : Prop :=
  match r with
  | Some x => pos + base = x /\ 0 <= pos < len
  | None => pos = if bit then -1 else len
  end.

Lemma bitpos_found p i n bit :
  Forall is_byte p -> 0 <= i -> 0 <= n -> i + n <= zlen p ->
  exists pos, redisBitpos (string_addr cfg) p i n bit = Ok pos /\ found bit (find_bit bit (bits_of p) (8 * i) (8 * n)) (8 * i) (8 * n) pos.
Proof.
  intros Hp Hi Hn Hle. rewrite redisBitpos_ok by done. eexists. split; [done|]. unfold found, find_bit.
  rewrite first_bit_shift, <- bits_of_sub by done. destruct (first_bit bit 0 (bits_of (sub p i n))) as [x|] eqn:E; cbn; [|done].
  apply first_bit_range in E. rewrite zlen_bits_of, zlen_sub in E by lia. lia.
Qed.

(** A byte whose bits out of the range have been made different from [bit]. *)
Lemma bitpos_masked bit t B lo n a c :
  is_byte t -> 0 <= a -> 0 <= c -> 0 <= lo -> lo + n <= zlen B -> 0 <= n -> a + n + c = 8 ->
  byte_to_bits t = replicate (Z.to_nat a) (negb bit) ++ sub B lo n ++ replicate (Z.to_nat c) (negb bit) ->
  exists pos, redisBitpos (stack_addr cfg) [t] 0 1 bit = Ok pos /\ found bit (find_bit bit B lo n) (lo - a) 8 pos.
Proof.
  intros Ht Ha Hc Hlo Hle Hn Hac Hbits. rewrite redisBitpos_ok by (try done; by forall_list). eexists. split; [done|].
  change (sub [t] 0 1) with [t]. change (bits_of [t]) with (byte_to_bits t ++ []). rewrite app_nil_r, Hbits.
  rewrite !first_bit_app, !first_bit_all. unfold found, find_bit. rewrite (first_bit_shift bit lo).
  assert (zlen (replicate (Z.to_nat a) (negb bit)) = a) as -> by (unfold zlen; rewrite length_replicate; lia).
  destruct (first_bit bit 0 (sub B lo n)) as [x|] eqn:E; cbn; [|done].
  apply first_bit_range in E. rewrite zlen_sub in E by lia. lia.
Qed.

(** The state at the label [result], for the result [r] of the search up to the
    byte [e]. *)
Definition searched (bit : bool) (r : option Z) (e : Z) (m : res (Z * Z * Z)) : Prop :=
  exists pos st by_, m = Ok (pos, st, by_) /\ found bit r (8 * st) (8 * by_) pos /\ st + by_ = e + 1.

(** A search that stopped early stopped at a bit that it was looking for. *)
Lemma found_test bit r base len pos :
  found bit r base len pos -> 0 < len -> negb (pos =? -1) && negb (pos =? len) = match r with Some _ => true | None => false end.
Proof. intros Hf Hl. destruct r; cbn in Hf; [|destruct bit]; lia. Qed.

Lemma keep_byte bit b k : is_byte b -> 0 <= k < 8 -> is_byte (keep_first bit b k) /\ is_byte (keep_last bit b k).
Proof. intros Hb Hk. pose proof (masks_byte b k Hb Hk). unfold keep_first, keep_last. destruct bit; tauto. Qed.

Section Search.
Context (p : list Z) (bit : bool) (start fin : Z) (Hp : Forall is_byte p) (Hs : 0 <= start <= fin) (Hf : fin < 8 * zlen p).

Lemma bitpos_last_ok :
  searched bit (find_bit bit (bits_of p) (8 * (fin / 8)) (fin mod 8 + 1)) (fin / 8)
    (bitpos_last cfg p bit (fin / 8) (last_mask (fin mod 8)) (fin / 8) 1).
Proof using Hp Hs Hf.
  destruct (range_edges p start fin Hs Hf Hp) as (f & l & _ & El & _ & Hlb & _ & Bl). unfold bitpos_last.
  assert (0 <= fin mod 8 < 8) as Hk by zdiv. rewrite (proj2 (rd1_lookup p (fin / 8) l)) by (split; [zdiv|done]). rewrite bind_Ok.
  fold (keep_last bit l (fin mod 8)).
  destruct (bitpos_masked bit (keep_last bit l (fin mod 8)) (bits_of p) (8 * (fin / 8)) (fin mod 8 + 1) 0 (7 - fin mod 8))
    as (pos & -> & Hpos); try (rewrite ?zlen_bits_of; zdiv).
  { by apply keep_byte. }
  { rewrite keep_last_bits, Bl by done. by rewrite sub_take by lia. }
  rewrite bind_Ok. exists pos, (fin / 8), 1. split; [done|]. split; [|lia]. by rewrite Z.sub_0_r in Hpos.
Qed.

Lemma bitpos_middle_ok st :
  0 <= st <= fin / 8 ->
  searched bit (find_bit bit (bits_of p) (8 * st) (fin - 8 * st + 1)) (fin / 8)
    (bitpos_middle cfg p bit (fin / 8) (last_mask (fin mod 8)) st (fin / 8 - st + 1)).
Proof using Hp Hs Hf.
  intros Hst. assert (0 <= fin mod 8 < 8) as Hk by zdiv. assert (fin / 8 < zlen p) by zdiv. unfold bitpos_middle.
  rewrite last_mask_zero by done. destruct (Z.eqb_spec (fin mod 8) 7) as [E7|E7]; cbn [negb].
  - rewrite Z.sub_0_r. rewrite (proj2 (Z.gtb_lt _ _)) by lia. rewrite Z.eqb_refl. cbn [orb].
    destruct (bitpos_found p st (fin / 8 - st + 1) bit) as (pos & -> & Hpos); [done|lia..|]. rewrite bind_Ok.
    exists pos, st, (fin / 8 - st + 1). split; [done|]. split; [|lia].
    by replace (fin - 8 * st + 1) with (8 * (fin / 8 - st + 1)) by zdiv.
  - replace (fin / 8 - st + 1 - 1) with (fin / 8 - st) by lia. destruct (Z.gtb_spec (fin / 8 - st) 0) as [Hgt|Hle].
    + destruct (bitpos_found p st (fin / 8 - st) bit) as (pos & -> & Hpos); [done|lia..|]. rewrite bind_Ok.
      zfalse (fin / 8 - st + 1 =? fin / 8 - st). cbn [orb]. rewrite Z.shiftl_mul_pow2, (Z.mul_comm _ (2 ^ 3)) by lia. change (2 ^ 3) with 8.
      rewrite (found_test _ _ _ _ _ Hpos) by lia.
      rewrite (find_bit_app bit (bits_of p) (8 * st) (fin - 8 * st + 1) (8 * (fin / 8 - st))) by (rewrite ?zlen_bits_of; zdiv).
      destruct (find_bit bit (bits_of p) (8 * st) (8 * (fin / 8 - st))) as [x|].
      * exists pos, st, (fin / 8 - st + 1). split; [done|]. split; [|lia]. cbn in *. lia.
      * replace (8 * st + 8 * (fin / 8 - st)) with (8 * (fin / 8)) by lia.
        replace (fin - 8 * st + 1 - 8 * (fin / 8 - st)) with (fin mod 8 + 1) by zdiv.
        replace (st + (fin / 8 - st)) with (fin / 8) by lia. replace (fin / 8 - st + 1 - (fin / 8 - st)) with 1 by lia. apply bitpos_last_ok.
    + replace st with (fin / 8) by lia. replace (fin / 8 - fin / 8 + 1) with 1 by lia.
      replace (fin - 8 * (fin / 8) + 1) with (fin mod 8 + 1) by zdiv. apply bitpos_last_ok.
Qed.

Lemma bitpos_range_ok :
  searched bit (find_bit bit (bits_of p) start (fin - start + 1)) (fin / 8)
    (bitpos_range cfg p bit (start / 8) (fin / 8) (first_mask (start mod 8)) (last_mask (fin mod 8))).
Proof using Hp Hs Hf.
  destruct (range_edges p start fin Hs Hf Hp) as (f & l & Ef & El & Hfb & Hlb & Bf & Bl).
  assert (0 <= start mod 8 < 8 /\ 0 <= fin mod 8 < 8 /\ 0 <= start / 8 <= fin / 8) as (Ha & Hb & Hsf) by (split_and!; zdiv).
  unfold bitpos_range. rewrite first_mask_zero, last_mask_zero by done. destruct (Z.eqb_spec (start mod 8) 0) as [E0|E0]; cbn [negb].
  { replace start with (8 * (start / 8)) at 1 2 by zdiv. by apply bitpos_middle_ok. }
  rewrite (proj2 (rd1_lookup p (start / 8) f)) by (split; [lia|done]). rewrite bind_Ok. fold (keep_first bit f (start mod 8)).
  destruct (Z.eqb_spec (fin / 8 - start / 8 + 1) 1) as [E1|E1].
  - assert (fin / 8 = start / 8) as E by lia. rewrite andb_true_r. cbn [orb].
    assert (exists t, (if negb (fin mod 8 =? 7) then if bit then Z.land (keep_first bit f (start mod 8)) (Z.land (Z.lnot (last_mask (fin mod 8))) 255)
       else Z.lor (keep_first bit f (start mod 8)) (last_mask (fin mod 8)) else keep_first bit f (start mod 8)) = t /\ is_byte t /\
       byte_to_bits t = replicate (Z.to_nat (start mod 8)) (negb bit) ++ sub (bits_of p) start (fin - start + 1) ++
         replicate (Z.to_nat (7 - fin mod 8)) (negb bit)) as (t & -> & Ht & Hbits).
    { eexists. split; [done|]. destruct (Z.eqb_spec (fin mod 8) 7) as [E7|E7]; cbn [negb].
      - split; [by apply keep_byte|]. rewrite keep_first_bits, Bf, sub_drop by (done || zdiv).
        replace (Z.to_nat (7 - fin mod 8)) with 0%nat by lia. cbn [replicate]. rewrite app_nil_r. do 2 f_equal; zdiv.
      - fold (keep_last bit (keep_first bit f (start mod 8)) (fin mod 8)). destruct (keep_byte bit f (start mod 8)) as [Hkb _]; [done..|].
        split; [by apply keep_byte|]. rewrite keep_last_bits, keep_first_bits, Bf, sub_drop by (done || zdiv). rewrite <- app_assoc_reverse.
        f_equal. assert (start mod 8 <= fin mod 8) as Hle by zdiv.
        replace (8 * (start / 8) + start mod 8) with start by zdiv.
        replace (fin - start + 1) with (fin mod 8 + 1 - start mod 8) by zdiv. clear - Ha Hb Hle.
        replace (Z.to_nat (fin mod 8 + 1)) with (Z.to_nat (start mod 8) + Z.to_nat (fin mod 8 + 1 - start mod 8))%nat by lia.
        rewrite take_app_add' by (by rewrite length_replicate). rewrite sub_take by lia. done. }
    destruct (bitpos_masked bit t (bits_of p) start (fin - start + 1) (start mod 8) (7 - fin mod 8)) as (pos & -> & Hpos);
      try (rewrite ?zlen_bits_of; zdiv); try done.
    rewrite bind_Ok. exists pos, (start / 8), (fin / 8 - start / 8 + 1). split; [done|]. split; [|lia].
    replace (start - start mod 8) with (8 * (start / 8)) in Hpos by zdiv. by rewrite E1.
  - rewrite andb_false_r. cbn [orb].
    destruct (bitpos_masked bit (keep_first bit f (start mod 8)) (bits_of p) start (8 - start mod 8) (start mod 8) 0) as (pos & -> & Hpos);
      try (rewrite ?zlen_bits_of; zdiv).
    { by apply keep_byte. }
    { rewrite keep_first_bits, Bf by done. rewrite sub_drop by zdiv. cbn [replicate Z.to_nat]. rewrite app_nil_r. do 2 f_equal. zdiv. }
    rewrite bind_Ok, (found_test _ _ _ _ _ Hpos) by lia.
    rewrite (find_bit_app bit (bits_of p) start (fin - start + 1) (8 - start mod 8)) by (rewrite ?zlen_bits_of; zdiv).
    destruct (find_bit bit (bits_of p) start (8 - start mod 8)) as [x|].
    + exists pos, (start / 8), (fin / 8 - start / 8 + 1). split; [done|]. split; [|lia]. cbn in *. split; [zdiv|lia].
    + replace (start + (8 - start mod 8)) with (8 * (start / 8 + 1)) by zdiv.
      replace (fin - start + 1 - (8 - start mod 8)) with (fin - 8 * (start / 8 + 1) + 1) by zdiv.
      replace (fin / 8 - start / 8 + 1 - 1) with (fin / 8 - (start / 8 + 1) + 1) by lia. apply bitpos_middle_ok. lia.
Qed.

End Search.

End Range.

(** ** The commands *)

Lemma clip_ok totlen start fin : 0 <= totlen -> clip_range totlen start fin = (range_start totlen start, range_last totlen fin).
Proof.
  intros Ht. unfold clip_range, range_start, range_last, position. rewrite !Z.geb_leb.
  f_equal; repeat case_match; zprop; lia.
Qed.

Lemma edge_ok isbit lo hi :
  0 <= lo <= hi ->
  let S := range_unit isbit * lo in let F := range_unit isbit * (hi + 1) - 1 in
  edge_masks isbit lo hi = (S / 8, F / 8, first_mask (S mod 8), last_mask (F mod 8)).
Proof.
  intros Hr S F. unfold edge_masks. destruct isbit; cbn [andb range_unit] in *.
  - ztrue (lo <=? hi). rewrite !shiftr_3, !mod_8. unfold S, F. replace (1 * lo) with lo by lia. by replace (1 * (hi + 1) - 1) with hi by lia.
  - unfold S, F. replace (8 * lo / 8) with lo by zdiv. replace ((8 * lo) mod 8) with 0 by zdiv.
    replace ((8 * (hi + 1) - 1) / 8) with hi by zdiv. by replace ((8 * (hi + 1) - 1) mod 8) with 7 by zdiv.
Qed.

Lemma whole_range str :
  edge_masks false (range_start (range_total false str) 0) (range_last (range_total false str) (-1)) = (0, zlen str - 1, 0, 0).
Proof.
  unfold edge_masks, range_start, range_last, position. cbn [andb Z.ltb Z.compare range_total]. pose proof (zlen_nonneg str).
  do 3 f_equal. lia.
Qed.

Lemma total_shift (isbit : bool) str : (if isbit then Z.shiftl (zlen str) 3 else zlen str) = range_total isbit str.
Proof. unfold range_total. destruct isbit; [|done]. rewrite Z.shiftl_mul_pow2 by lia. lia. Qed.

Lemma range_total_nonneg isbit str : 0 <= range_total isbit str.
Proof. unfold range_total. pose proof (zlen_nonneg str). destruct isbit; lia. Qed.

Lemma strcase_byte a : strcase_eq a "byte" = true -> strcase_eq a "bit" = false.
Proof.
  unfold strcase_eq. rewrite bool_decide_eq_true, bool_decide_eq_false. intros ->. by vm_compute.
Qed.

Section RangeCommands.
Context `{Host} {DB : Type} `{KeyspaceLaws DB} (cfg : config).

Lemma runs_mode a (isbit : bool) (s : server DB) (Q : _ -> _ -> Prop) :
  strcase_eq a (if isbit then "bit" else "byte")%string = true -> Q s (Some isbit) -> runs (bit_or_byte a) s Q.
Proof.
  unfold bit_or_byte. intros Ha HQ. destruct isbit; [rewrite Ha; by apply runs_ret|].
  rewrite (strcase_byte a Ha), Ha. by apply runs_ret.
Qed.

Lemma runs_argo argv i a (s : server DB) (Q : _ -> _ -> Prop) :
  argv !! Z.to_nat i = Some a -> Q s (Some (Some (createStringObject a))) -> runs (argo argv i) s Q.
Proof. intros E HQ. apply runs_bind, (runs_arg _ _ a); [done|]. by apply runs_ret. Qed.

Lemma runs_repr v msg (s : server DB) (Q : _ -> _ -> Prop) :
  INT64_MIN <= v <= INT64_MAX -> Q s (Some v) -> runs (getLongLongFromObjectOrReply (Some (createStringObject (ll_repr v))) msg) s Q.
Proof. intros Hv HQ. apply (runs_long_long _ _ v); [by apply string2ll_repr|done]. Qed.

(** The end of BITCOUNT, after the range has been clipped. *)
Lemma bitcount_finish str isbit start fin (s : server DB) (Q : _ -> _ -> Prop) :
  Forall is_byte str -> zlen str < MAX_STRING -> (start <? 0) && (fin <? 0) && (fin <? start) = false ->
  Q (with_reply s (ReplyInteger (bitcount_spec isbit str start fin))) (Some tt) ->
  runs (let '(start, fin, m1, m2) := edge_masks isbit (range_start (range_total isbit str) start) (range_last (range_total isbit str) fin) in
        if start >? fin then addReply shared_czero
        else count ← lift (bitcount_range cfg str start fin m1 m2); addReply (ReplyInteger count)) s Q.
Proof.
  intros Hb Hm Ht HQ. unfold bitcount_spec in HQ. rewrite Ht in HQ. cbn [orb] in HQ. pose proof (zlen_nonneg str).
  set (lo := range_start _ _) in *. set (hi := range_last _ _) in *.
  assert (0 <= lo) as Hlo by (unfold lo, range_start, position; destruct (Z.ltb_spec start 0); lia).
  assert (hi < range_total isbit str) as Hhi by (unfold hi, range_last; lia). destruct (Z.ltb_spec hi lo) as [Hlt|Hge].
  - unfold edge_masks. rewrite (proj2 (Z.leb_gt lo hi)), andb_false_r by lia. rewrite (proj2 (Z.gtb_lt lo hi)) by lia. by apply runs_reply.
  - rewrite edge_ok by lia. cbv zeta. set (S := range_unit isbit * lo). set (F := range_unit isbit * (hi + 1) - 1).
    assert (0 <= S <= F /\ F < 8 * zlen str) as [HS HF] by (unfold S, F, range_total in *; destruct isbit; cbn [range_unit]; lia).
    rewrite Z.gtb_ltb, (proj2 (Z.ltb_ge _ _)) by zdiv.
    apply runs_bind. eapply runs_lift; [by apply bitcount_bits|]. apply runs_reply.
    unfold range_bits in HQ. fold S in HQ.
    replace (F - S + 1) with (range_unit isbit * (hi - lo + 1)) by (unfold S, F; lia). done.
Qed.

Lemma range_empty isbit start fin : range_last (range_total isbit []) fin < range_start (range_total isbit []) start.
Proof.
  assert (range_total isbit [] = 0) as -> by (by destruct isbit). unfold range_last, range_start, position.
  destruct (Z.ltb_spec start 0); lia.
Qed.

(** C24: BITCOUNT replies with the number of set bits in the range, given in bytes
    or in bits with negative indexes from the end: the count of the whole bytes
    less the bits under the edge masks is the count of the bits in the range,
    whatever the alignment of the string and the encoding of the object. *)
Theorem bitcountCommand_correct c key args isbit start fin str (s : server DB) :
  storable key -> db_wf (sdb s) -> string_at (view (sdb s)) key str -> count_args args isbit start fin ->
  runs (bitcountCommand cfg (c :: key :: args)) s
    (fun s' _ => replied [ReplyInteger (bitcount_spec isbit str start fin)] s s').
Proof.
  intros Hkey Hw Hs Hargs. destruct (string_at_wf _ _ _ Hs) as [Hb Hm]. apply runs_bind, (runs_arg _ _ key); [done|].
  apply runs_bind. apply runs_bind, runs_read; [done..|]. intros d Hd Hv He. unfold string_at in Hs.
  destruct (view (sdb s) !! key) as [o|] eqn:Hk.
  2:{ subst str. apply runs_reply_return. unfold bitcount_spec. 
      rewrite (proj2 (Z.ltb_lt _ _) (range_empty isbit start fin)), orb_true_r. by split_and!. }
  destruct Hs as [Ho Hs]. apply runs_ret. apply runs_bind, runs_check_string; [by destruct o|].
  apply runs_bind, (runs_lift _ (Some str)); [by apply read_only_string|].
  change (default [] (Some str)) with str. pose proof (zlen_nonneg str).
  assert (replied [ReplyInteger (bitcount_spec isbit str start fin)] s
    (with_reply (with_db s d) (ReplyInteger (bitcount_spec isbit str start fin)))) as Hdone by (by split_and!).
  assert (Z.shiftr INT64_MAX 3 = 2 ^ 60 - 1) as Hsh by done. unfold MAX_STRING in Hm.
  apply runs_bind. destruct Hargs as [|start fin mode isbit Hst Hfi Hmode].
  - apply runs_ret. pose proof (bitcount_finish str false 0 (-1) (with_db s d)
      (fun s' _ => replied [ReplyInteger (bitcount_spec false str 0 (-1))] s s') Hb Hm eq_refl Hdone) as HF.
    by rewrite whole_range in HF.
  - assert ((zlen (c :: key :: ll_repr start :: ll_repr fin :: mode) =? 4) || (zlen (c :: key :: ll_repr start :: ll_repr fin :: mode) =? 5) = true) as ->
      by (by inversion Hmode).
    apply runs_bind. ztrue (zlen str <=? Z.shiftr INT64_MAX 3). apply runs_ret.
    apply runs_bind, (runs_argo _ _ (ll_repr start)); [done|]. apply runs_bind, runs_repr; [done|].
    apply runs_bind, (runs_argo _ _ (ll_repr fin)); [done|]. apply runs_bind, runs_repr; [done|].
    rewrite (Z.gtb_ltb start fin). apply runs_bind. destruct ((start <? 0) && (fin <? 0) && (fin <? start)) eqn:Et.
    { apply runs_reply_return. unfold bitcount_spec in Hdone. rewrite Et in Hdone. unfold bitcount_spec. rewrite Et. exact Hdone. }
    apply runs_ret, runs_bind. eapply (runs_impl _ _ (fun s' r => s' = with_db s d /\ r = Some isbit)).
    { destruct Hmode as [|a isbit Ha]; [by apply runs_ret|]. apply runs_bind, (runs_arg _ _ a); [done|]. by apply (runs_mode a isbit). }
    intros ? ? [-> ->]. cbv zeta. rewrite total_shift, clip_ok by apply range_total_nonneg. apply runs_ret.
    apply (bitcount_finish str isbit start fin (with_db s d) _ Hb Hm Et Hdone).
Qed.

(** The end of BITPOS, after the range has been clipped. *)
Lemma bitpos_finish str isbit start fin (bit end_given : bool) (s : server DB) (Q : _ -> _ -> Prop) :
  Forall is_byte str -> Q (with_reply s (ReplyInteger (bitpos_spec bit isbit str start fin end_given))) (Some tt) ->
  (end_given = false -> isbit = false) ->
  runs (let '(start, fin, m1, m2, end_given) :=
          (edge_masks isbit (range_start (range_total isbit str) start) (range_last (range_total isbit str) fin), end_given) in
        if start >? fin then addReply (ReplyInteger (-1))
        else
          '(pos, start, bytes) ← lift (bitpos_range cfg str bit start fin m1 m2);
          if (end_given : bool) && negb bit && (pos =? Z.shiftl bytes 3) then addReply (ReplyInteger (-1))
          else addReply (ReplyInteger (if negb (pos =? -1) then pos + Z.shiftl start 3 else pos))) s Q.
Proof.
  intros Hb HQ Hend. unfold bitpos_spec in HQ. pose proof (zlen_nonneg str).
  set (lo := range_start _ _) in *. set (hi := range_last _ _) in *.
  assert (0 <= lo) as Hlo by (unfold lo, range_start, position; destruct (Z.ltb_spec start 0); lia).
  assert (hi < range_total isbit str) as Hhi by (unfold hi, range_last; lia). destruct (Z.ltb_spec hi lo) as [Hlt|Hge].
  - unfold edge_masks. rewrite (proj2 (Z.leb_gt lo hi)), andb_false_r by lia. rewrite (proj2 (Z.gtb_lt lo hi)) by lia. by apply runs_reply.
  - rewrite edge_ok by lia. cbv zeta. set (S := range_unit isbit * lo) in *. set (F := range_unit isbit * (hi + 1) - 1).
    assert (0 <= S <= F /\ F < 8 * zlen str) as [HS HF] by (unfold S, F, range_total in *; destruct isbit; cbn [range_unit]; lia).
    rewrite Z.gtb_ltb, (proj2 (Z.ltb_ge _ _)) by zdiv.
    destruct (bitpos_range_ok cfg str bit S F Hb HS HF) as (pos & st & by_ & E & Hpos & Hst). apply runs_bind.
    eapply runs_lift; [exact E|]. cbv beta iota. rewrite !Z.shiftl_mul_pow2 by lia. change (2 ^ 3) with 8.
    unfold range_bits in HQ. fold S in HQ. replace (range_unit isbit * (hi - lo + 1)) with (F - S + 1) in HQ by (unfold S, F; lia).
    fold (find_bit bit (bits_of str) S (F - S + 1)) in HQ. destruct (find_bit bit (bits_of str) S (F - S + 1)) as [x|]; cbn in Hpos.
    + rewrite (proj2 (Z.eqb_neq pos (by_ * 8))), andb_false_r by lia. rewrite (proj2 (Z.eqb_neq pos (-1))) by lia. cbn [negb].
      apply runs_reply. by replace (pos + st * 8) with x by lia.
    + destruct bit; cbn [negb orb] in *; subst pos.
      * rewrite andb_false_r. by apply runs_reply.
      * rewrite andb_true_r, (Z.mul_comm by_ 8), Z.eqb_refl, andb_true_r. destruct end_given; [by apply runs_reply|].
        rewrite (proj2 (Z.eqb_neq (8 * by_) (-1))) by lia. cbn [negb]. apply runs_reply.
        assert (range_unit isbit = 8) as E8 by (by rewrite Hend). unfold F in Hst. rewrite E8 in *.
        by replace (8 * by_ + st * 8) with (8 * (hi + 1)) by zdiv.
Qed.

(** BITPOS replies with the position of the first bit of the given value in
    the range, -1 when there is none; a search for a clear bit without an end
    finds the position after the last bit when all bits are set, as the string
    is followed by zeroes. A missing key is an empty bitmap, 0 for a clear bit. *)
Theorem bitposCommand_correct c key bit args isbit start fin end_given str (s : server DB) :
  storable key -> db_wf (sdb s) -> string_at (view (sdb s)) key str -> pos_args args isbit start fin end_given ->
  runs (bitposCommand cfg (c :: key :: ll_repr (Z.b2z bit) :: args)) s
    (fun s' _ => replied [ReplyInteger
       (if bool_decide (view (sdb s) !! key = None) then (if bit then -1 else 0)
        else bitpos_spec bit isbit str start fin end_given)] s s').
Proof.
  intros Hkey Hw Hs Hargs. destruct (string_at_wf _ _ _ Hs) as [Hb Hm].
  apply runs_bind, (runs_argo _ _ (ll_repr (Z.b2z bit))); [done|]. apply runs_bind.
  apply runs_bind, runs_repr; [zconst; destruct bit; cbn; lia|].
  rewrite (proj2 (orb_false_iff _ _)) by (zconst; destruct bit; cbn; split; done). apply runs_ret.
  assert (negb (Z.b2z bit =? 0) && negb (Z.b2z bit =? 1) = false) as -> by (by destruct bit).
  assert (negb (Z.b2z bit =? 0) = bit) as Eb by (by destruct bit). assert ((Z.b2z bit =? 0) = negb bit) as Eb' by (by destruct bit).
  rewrite Eb, Eb'. apply runs_bind, (runs_arg _ _ key); [done|]. apply runs_bind, runs_read; [done..|]. intros d Hd Hv He. unfold string_at in Hs.
  destruct (view (sdb s) !! key) as [o|] eqn:Hk; [|apply runs_reply; by split_and!].
  destruct Hs as [Ho Hs]. apply runs_bind, runs_check_string; [by destruct o|].
  apply runs_bind, (runs_lift _ (Some str)); [by apply read_only_string|].
  change (default [] (Some str)) with str. pose proof (zlen_nonneg str). rewrite bool_decide_eq_false_2 by done.
  set (Q := fun (s' : server DB) (_ : option unit) => replied [ReplyInteger (bitpos_spec bit isbit str start fin end_given)] s s').
  assert (Q (with_reply (with_db s d) (ReplyInteger (bitpos_spec bit isbit str start fin end_given))) (Some tt)) as Hdone by (by split_and!).
  assert (end_given = false -> isbit = false) as Hend by (by destruct Hargs).
  pose proof (bitpos_finish str isbit start fin bit end_given (with_db s d) Q Hb Hdone Hend) as HF. clearbody Q.
  assert (Z.shiftr INT64_MAX 3 = 2 ^ 60 - 1) as Hsh by done. unfold MAX_STRING in Hm.
  apply runs_bind. destruct Hargs as [|start Hst|start fin mode isbit Hst Hfi Hmode].
  - apply runs_ret. rewrite whole_range in HF. exact HF.
  - apply runs_bind. ztrue (zlen str <=? Z.shiftr INT64_MAX 3). apply runs_ret.
    apply runs_bind, (runs_argo _ _ (ll_repr start)); [done|]. apply runs_bind, runs_repr; [done|].
    apply runs_bind, runs_ret. apply runs_bind, runs_ret. cbv beta iota zeta. rewrite clip_ok by done. apply runs_ret.
    assert (range_last (zlen str) (-1) = range_last (zlen str) (zlen str - 1)) as El.
    { unfold range_last, position. change (-1 <? 0) with true. destruct (Z.ltb_spec (zlen str - 1) 0); lia. }
    unfold range_total in HF. rewrite El in HF. exact HF.
  - assert ((zlen (c :: key :: ll_repr (Z.b2z bit) :: ll_repr start :: ll_repr fin :: mode) =? 4) ||
      (zlen (c :: key :: ll_repr (Z.b2z bit) :: ll_repr start :: ll_repr fin :: mode) =? 5) ||
      (zlen (c :: key :: ll_repr (Z.b2z bit) :: ll_repr start :: ll_repr fin :: mode) =? 6) = true /\
      (zlen (c :: key :: ll_repr (Z.b2z bit) :: ll_repr start :: ll_repr fin :: mode) >=? 5) = true) as [-> Hge] by (by inversion Hmode).
    apply runs_bind. ztrue (zlen str <=? Z.shiftr INT64_MAX 3). apply runs_ret.
    apply runs_bind, (runs_argo _ _ (ll_repr start)); [done|]. apply runs_bind, runs_repr; [done|].
    apply runs_bind. eapply (runs_impl _ _ (fun s' r => s' = with_db s d /\ r = Some isbit)).
    { destruct Hmode as [|a isbit Ha]; [by apply runs_ret|]. apply runs_bind, (runs_arg _ _ a); [done|]. by apply (runs_mode a isbit). }
    intros ? ? [-> ->]. rewrite Hge. apply runs_bind. apply runs_bind, (runs_argo _ _ (ll_repr fin)); [done|].
    apply runs_bind, runs_repr; [done|]. apply runs_ret.
    cbv beta iota zeta. rewrite total_shift, clip_ok by apply range_total_nonneg. apply runs_ret. exact HF.
Qed.

End RangeCommands.

(** * Examples *)

Lemma bitcountCommand_correct_witness :
  exists s' r, bitcountCommand (DB := plain_db) (H := little_host) sample_config
      [chars "BITCOUNT"; sample_key; ll_repr 5; ll_repr (-3); chars "BIT"] sample_server = Ok (s', r) /\ reply s' = [ReplyInteger 10].
Proof.
  destruct (bitcountCommand_correct (DB := plain_db) (H := little_host) sample_config (chars "BITCOUNT") sample_key
    [ll_repr 5; ll_repr (-3); chars "BIT"] true 5 (-3) [0xff; 0x81; 0x7e] sample_server ltac:(exact I) ltac:(exact I) sample_string
    ltac:(apply count_range; [zconst; lia|zconst; lia|by apply mode_given])) as (s' & r & E & _ & _ & _ & Hr & _).
  exists s', r. split; [exact E|]. rewrite Hr. by vm_compute.
Defined.

Lemma bitposCommand_correct_witness :
  exists s' r, bitposCommand (DB := plain_db) (H := big_host) sample_config
      [chars "BITPOS"; sample_key; ll_repr 0; ll_repr 1; ll_repr (-1)] sample_server = Ok (s', r) /\ reply s' = [ReplyInteger 9].
Proof.
  destruct (bitposCommand_correct (DB := plain_db) (H := big_host) sample_config (chars "BITPOS") sample_key false
    [ll_repr 1; ll_repr (-1)] false 1 (-1) true [0xff; 0x81; 0x7e] sample_server ltac:(exact I) ltac:(exact I) sample_string
    ltac:(apply pos_range; [zconst; lia|zconst; lia|apply mode_default])) as (s' & r & E & _ & _ & _ & Hr & _).
  exists s', r. split; [exact E|]. rewrite Hr. by vm_compute.
Defined.
