(* ===== verification/BitField.v ===== *)
(** BITFIELD: the operations of [BitCommands] as operations on a bitmap.

    A bitmap is a function from positions to bits.  The specification of a
    subcommand reads an integer field of the bitmap, computes the exact result,
    brings it into the range of the field the way the overflow mode says, and
    writes it back; the commands run a list of them, parsed from the arguments,
    on the string at a key. *)
From S2P Require Import Prelude Endian Util Glob Sds Object Bitops BitCommands BitRange.
From stdpp Require Import gmap list strings.

Open Scope Z_scope.

(** * Specification *)

Definition bitmap : Type := Z -> bool.

(** Bitmaps are compared at every position. *)
#[export] Instance bitmap_equiv : Equiv bitmap := pointwise_relation Z eq.

#[export] Instance bitmap_equivalence : Equivalence (≡@{bitmap}).
Proof. unfold equiv, bitmap_equiv. apply _. Qed.

(** The unsigned integer of [n] bits at a position, and what is left after
    another one is written there. *)
Definition field (f : bitmap) (off n : Z) : Z :=
  bits_val ((fun k => f (off + Z.of_nat k)) <$> seq 0 (Z.to_nat n)).

Definition set_field (f : bitmap) (off n v : Z) : bitmap :=
  fun i => if (off <=? i) && (i <? off + n) then Z.testbit v (n - 1 - (i - off)) else f i.

(** The integer of an operation's type, and its range. *)
Definition field_value (f : bitmap) (op : bitfieldOp) : Z :=
  let u := field f (bf_offset op) (bf_bits op) in
  if bf_sign op then wrapS (bf_bits op) u else u.

Definition op_min (op : bitfieldOp) : Z := if bf_sign op then - 2 ^ (bf_bits op - 1) else 0.
Definition op_max (op : bitfieldOp) : Z := if bf_sign op then 2 ^ (bf_bits op - 1) - 1 else 2 ^ bf_bits op - 1.
Definition op_wrap (op : bitfieldOp) (z : Z) : Z :=
  if bf_sign op then wrapS (bf_bits op) z else z mod 2 ^ bf_bits op.

(** The exact result: the sum, or the value to set (an unsigned type takes it as a
    64 bit unsigned integer). *)
Definition op_exact (f : bitmap) (op : bitfieldOp) : Z :=
  if bool_decide (bf_opcode op = BITFIELDOP_INCRBY) then field_value f op + bf_i64 op
  else if bf_sign op then bf_i64 op else wrapU 64 (bf_i64 op).

(** A signed value to set that is so far below the range that its distance to the
    maximum does not fit 64 bits: the code takes it for one above the range. *)
Definition far_below (op : bitfieldOp) : bool :=
  bool_decide (bf_opcode op = BITFIELDOP_SET) && bf_sign op && (bf_i64 op <? op_min op) && (2 ^ 63 <=? op_max op - bf_i64 op).

(** The result brought into the range; [None] when the operation fails. *)
Definition op_result (f : bitmap) (op : bitfieldOp) : option Z :=
  let z := op_exact f op in
  if (op_min op <=? z) && (z <=? op_max op) then Some z
  else
    match bf_owtype op with
    | BFOVERFLOW_WRAP => Some (op_wrap op z)
    | BFOVERFLOW_SAT => Some (if (op_max op <? z) || far_below op then op_max op else op_min op)
    | BFOVERFLOW_FAIL => None
    end.

Definition op_spec (f : bitmap) (op : bitfieldOp) : bitmap * reply_item :=
  match bf_opcode op with
  | BITFIELDOP_GET => (f, ReplyInteger (field_value f op))
  | _ =>
      match op_result f op with
      | None => (f, ReplyNull)
      | Some v =>
          (set_field f (bf_offset op) (bf_bits op) v,
           ReplyInteger (if bool_decide (bf_opcode op = BITFIELDOP_INCRBY) then v else field_value f op))
      end
  end.

(** A list of operations: the bitmap at the end and the replies. *)
Fixpoint ops_spec (f : bitmap) (ops : list bitfieldOp) : bitmap * list reply_item :=
  match ops with
  | [] => (f, [])
  | op :: ops =>
      let '(f1, r) := op_spec f op in
      let '(f2, rs) := ops_spec f1 ops in
      (f2, r :: rs)
  end.

Definition is_get (op : bitfieldOp) : bool := bool_decide (bf_opcode op = BITFIELDOP_GET).

(** The number of writes that count as changes: all that do not fail when the string
    was created or [grown], otherwise those that change the field. *)
Fixpoint ops_changes (grown : bool) (f : bitmap) (ops : list bitfieldOp) : Z :=
  match ops with
  | [] => 0
  | op :: ops =>
      (if is_get op then 0
       else match op_result f op with Some v => Z.b2z (grown || negb (field_value f op =? v)) | None => 0 end) +
      ops_changes grown (op_spec f op).1 ops
  end.

(** Undefined behaviour, in a program that was not compiled to wrap: the distance of
    the old value, or of the value to set, to the minimum of a signed field does not
    fit 64 bits. *)
Definition op_undefined (cfg : config) (f : bitmap) (op : bitfieldOp) : bool :=
  negb (fwrapv cfg) && bf_sign op && negb (is_get op) &&
  (2 ^ 63 - 2 ^ (bf_bits op - 1) <? (if bool_decide (bf_opcode op = BITFIELDOP_INCRBY) then field_value f op else bf_i64 op)).

Fixpoint ops_undefined (cfg : config) (f : bitmap) (ops : list bitfieldOp) : bool :=
  match ops with
  | [] => false
  | op :: ops => op_undefined cfg f op || ops_undefined cfg (op_spec f op).1 ops
  end.

(** An operation the parser accepts. *)
Definition op_wf (op : bitfieldOp) : Prop :=
  1 <= bf_bits op <= (if bf_sign op then 64 else 63) /\ 0 <= bf_offset op < 2 ^ 63 /\ INT64_MIN <= bf_i64 op <= INT64_MAX.

(** The operation writes within [len] bytes. *)
Definition op_fits (len : Z) (op : bitfieldOp) : Prop :=
  bf_opcode op = BITFIELDOP_GET \/ bf_offset op + bf_bits op <= 8 * len.

(** * Lemmas *)

#[export] Instance field_proper : Proper ((≡@{bitmap}) ==> eq ==> eq ==> eq) field.
Proof. intros f g E off ? <- n ? <-. unfold field. f_equal. apply list_fmap_ext. intros i k _. apply E. Qed.

#[export] Instance set_field_proper : Proper ((≡@{bitmap}) ==> eq ==> eq ==> eq ==> (≡@{bitmap})) set_field.
Proof. intros f g E off ? <- n ? <- v ? <- i. unfold set_field. destruct (_ && _); [done|apply E]. Qed.

#[export] Instance field_value_proper : Proper ((≡@{bitmap}) ==> eq ==> eq) field_value.
Proof. intros f g E op ? <-. unfold field_value. by rewrite (field_proper f g E _ _ eq_refl _ _ eq_refl). Qed.

#[export] Instance op_result_proper : Proper ((≡@{bitmap}) ==> eq ==> eq) op_result.
Proof.
  intros f g E op ? <-. unfold op_result, op_exact. by rewrite (field_value_proper f g E _ _ eq_refl).
Qed.

Lemma op_spec_ext f g op : f ≡ g -> (op_spec f op).2 = (op_spec g op).2 /\ (op_spec f op).1 ≡ (op_spec g op).1.
Proof.
  intros E. unfold op_spec. rewrite (op_result_proper f g E op op eq_refl), (field_value_proper f g E op op eq_refl).
  destruct (bf_opcode op); cbn; [done| |]; destruct (op_result g op); cbn; (split; [done|]); try done; by apply set_field_proper.
Qed.

Lemma ops_spec_ext ops : forall f g, f ≡ g -> (ops_spec f ops).2 = (ops_spec g ops).2 /\ (ops_spec f ops).1 ≡ (ops_spec g ops).1.
Proof.
  induction ops as [|op ops IH]; intros f g E; [done|]. cbn [ops_spec]. destruct (op_spec_ext f g op E) as [E2 E1].
  destruct (op_spec f op) as [f1 r], (op_spec g op) as [g1 r']. cbn in *. subst r'.
  destruct (IH f1 g1 E1) as [E3 E4]. destruct (ops_spec f1 ops), (ops_spec g1 ops). cbn in *. by subst.
Qed.

Lemma ops_changes_ext grown ops : forall f g, f ≡ g -> ops_changes grown f ops = ops_changes grown g ops.
Proof.
  induction ops as [|op ops IH]; intros f g E; [done|]. cbn [ops_changes]. rewrite (op_result_proper f g E op op eq_refl), (field_value_proper f g E op op eq_refl).
  f_equal. apply IH. by apply op_spec_ext.
Qed.

Lemma ops_undefined_ext cfg ops : forall f g, f ≡ g -> ops_undefined cfg f ops = ops_undefined cfg g ops.
Proof.
  induction ops as [|op ops IH]; intros f g E; [done|]. cbn [ops_undefined]. unfold op_undefined. rewrite (field_value_proper f g E op op eq_refl).
  f_equal. apply IH. by apply op_spec_ext.
Qed.

(** ** Fields of a string *)

Lemma zlen_field_bits (f : bitmap) off n : 0 <= n -> zlen ((fun k => f (off + Z.of_nat k)) <$> seq 0 (Z.to_nat n)) = n.
Proof. intros Hn. unfold zlen. rewrite length_fmap, length_seq. lia. Qed.

Lemma field_range f off n : 0 <= n -> 0 <= field f off n < 2 ^ n.
Proof. intros Hn. pose proof (bits_val_range ((fun k => f (off + Z.of_nat k)) <$> seq 0 (Z.to_nat n))) as Hr. by rewrite zlen_field_bits in Hr. Qed.

Lemma bits_val_testbit l k b : l !! k = Some b -> Z.testbit (bits_val l) (zlen l - 1 - Z.of_nat k) = b.
Proof.
  revert k. induction l as [|a l IH]; intros k; [done|]. pose proof (bits_val_range l) as Hr. pose proof (zlen_nonneg l).
  assert (bits_val (a :: l) = bits_val l + Z.b2z a * 2 ^ zlen l) as ->.
  { unfold bits_val at 1. cbn [foldl]. rewrite foldl_bits_val. destruct a; cbn; lia. }
  rewrite zlen_cons. destruct k as [|k]; cbn [lookup list_lookup].
  - intros [= ->]. replace (1 + zlen l - 1 - Z.of_nat 0) with (zlen l) by lia. rewrite Z.add_comm.
    rewrite Z.testbit_eqb by done. rewrite Z.div_add_l, Z.div_small by lia. by destruct b.
  - intros Hk. pose proof (lookup_lt_Some _ _ _ Hk). rewrite <- (IH k Hk).
    replace (1 + zlen l - 1 - Z.of_nat (S k)) with (zlen l - 1 - Z.of_nat k) by lia.
    rewrite <- (Z.mod_pow2_bits_low _ (zlen l)) by (unfold zlen in *; lia). rewrite Z.mod_add by lia. by rewrite Z.mod_small.
Qed.

Lemma field_testbit f off n i : off <= i < off + n -> Z.testbit (field f off n) (n - 1 - (i - off)) = f i.
Proof.
  intros Hi. unfold field. replace (n - 1 - (i - off)) with (zlen ((fun k => f (off + Z.of_nat k)) <$> seq 0 (Z.to_nat n)) - 1 - Z.of_nat (Z.to_nat (i - off)))
    by (rewrite zlen_field_bits by lia; lia).
  apply bits_val_testbit. rewrite list_lookup_fmap, lookup_seq_lt by lia. cbn. do 2 f_equal. lia.
Qed.

(** Writing back what was read changes nothing. *)
Lemma set_field_same f off n v : 1 <= n -> v mod 2 ^ n = field f off n -> set_field f off n v ≡ f.
Proof.
  intros Hn Hv i. unfold set_field. destruct (Z.leb_spec off i), (Z.ltb_spec i (off + n)); cbn [andb]; try done.
  rewrite <- (field_testbit f off n i) by lia. rewrite <- Hv, Z.mod_pow2_bits_low by lia. done.
Qed.

Lemma field_sub p off n :
  0 <= off -> 0 <= n -> off + n <= 8 * zlen p -> field (bit_at p) off n = bits_val (sub (bits_of p) off n).
Proof.
  intros Ho Hn Hle. unfold field. f_equal. apply list_eq. intros k. rewrite list_lookup_fmap. unfold sub.
  pose proof (zlen_bits_of p) as Hl. unfold zlen in *.
  destruct (decide (k < Z.to_nat n)%nat) as [Hk|Hk].
  - rewrite lookup_seq_lt, lookup_take_lt, lookup_drop by done. cbn. unfold bit_at. zfalse (off + Z.of_nat k <? 0).
    replace (Z.to_nat (off + Z.of_nat k)) with (Z.to_nat off + k)%nat by lia.
    destruct (lookup_lt_is_Some_2 (bits_of p) (Z.to_nat off + k)%nat) as [b ->]; [lia|done].
  - rewrite lookup_take_ge by lia. rewrite (lookup_ge_None_2 (seq _ _)); [done|]. rewrite length_seq. lia.
Qed.

Lemma val_bits_lookup n v k : (k < n)%nat -> val_bits n v !! k = Some (Z.testbit v (Z.of_nat n - 1 - Z.of_nat k)).
Proof.
  revert k. induction n as [|n IH]; intros k Hk; [lia|]. cbn [val_bits]. destruct k as [|k]; cbn [lookup list_lookup].
  - do 2 f_equal. lia.
  - change (list_lookup k (val_bits n v)) with (val_bits n v !! k). rewrite IH by lia. do 2 f_equal. lia.
Qed.

(** The bits after a field has been written. *)
Lemma bit_at_written p p' off n v :
  0 <= off -> 0 <= n -> off + n <= 8 * zlen p ->
  bits_of p' = take (Z.to_nat off) (bits_of p) ++ val_bits (Z.to_nat n) v ++ drop (Z.to_nat (off + n)) (bits_of p) ->
  (bit_at p' : bitmap) ≡ set_field (bit_at p) off n v.
Proof.
  intros Ho Hn Hle E i. unfold set_field, bit_at. destruct (Z.ltb_spec i 0).
  { by rewrite (proj2 (Z.leb_gt off i)) by lia. }
  pose proof (zlen_bits_of p) as Hl. unfold zlen in *. rewrite E.
  assert (length (take (Z.to_nat off) (bits_of p)) = Z.to_nat off) as Ht by (rewrite length_take; lia).
  assert (length (val_bits (Z.to_nat n) v) = Z.to_nat n) as Hv by (pose proof (zlen_val_bits (Z.to_nat n) v); unfold zlen in *; lia).
  destruct (Z.leb_spec off i); cbn [andb].
  - rewrite lookup_app_r by lia. rewrite Ht. destruct (Z.ltb_spec i (off + n)).
    + rewrite lookup_app_l, val_bits_lookup by lia. cbn. f_equal. lia.
    + rewrite lookup_app_r, Hv, lookup_drop by lia. do 2 f_equal. lia.
  - rewrite lookup_app_l by lia. by rewrite lookup_take_lt by lia.
Qed.

(** ** One operation *)

(** What the overflow check makes of the exact result. *)
Definition op_check (f : bitmap) (op : bitfieldOp) : Z * option Z :=
  if far_below op
  then (1, match bf_owtype op with BFOVERFLOW_WRAP => Some (op_wrap op (op_exact f op)) | BFOVERFLOW_SAT => Some (op_max op) | BFOVERFLOW_FAIL => None end)
  else overflow_spec (op_min op) (op_max op) (op_exact f op) (op_wrap op) (bf_owtype op).

Lemma far_below_exact f op : far_below op = true -> op_exact f op = bf_i64 op /\ bf_i64 op < op_min op.
Proof.
  unfold far_below, op_exact. rewrite !andb_true_iff, bool_decide_eq_true. intros [[[-> ->] Hl] _]. rewrite bool_decide_false by done. split; [done|lia].
Qed.

(** [u] is the uninitialised limit. *)
Lemma op_overflow f op u :
  exists ov lim, op_check f op = (ov, lim) /\
    op_result f op = (if negb (negb (ov =? 0) && match bf_owtype op with BFOVERFLOW_FAIL => true | _ => false end)
                      then Some (if negb (ov =? 0) then default u lim else op_exact f op) else None) /\
    (ov = 0 -> op_min op <= op_exact f op <= op_max op).
Proof.
  unfold op_check, overflow_spec, op_result. destruct (far_below op) eqn:Ef.
  - destruct (far_below_exact f op Ef) as [-> Hl]. zfalse (op_min op <=? bf_i64 op). cbn [andb]. rewrite orb_true_r. destruct (bf_owtype op); by eexists _, _.
  - rewrite orb_false_r. destruct (_ && _) eqn:E.
    + eexists _, _. split; [done|]. split; [done|]. intros _. by zprop.
    + destruct (bf_owtype op); [by eexists _, _|destruct (_ <? _)..]; by eexists _, _.
Qed.

Lemma overflow_spec_ext lo hi z w w' ow : w z = w' z -> overflow_spec lo hi z w ow = overflow_spec lo hi z w' ow.
Proof. intros E. unfold overflow_spec. by rewrite E. Qed.

(** The result of an operation is in the range of its type. *)
Lemma op_result_range f op v : op_wf op -> op_result f op = Some v -> op_min op <= v <= op_max op.
Proof.
  intros (Hb & _). unfold op_result. assert (1 <= 2 ^ (bf_bits op - 1)) by (pose proof (Z.pow_pos_nonneg 2 (bf_bits op - 1)); destruct (bf_sign op); lia).
  assert (2 ^ bf_bits op = 2 * 2 ^ (bf_bits op - 1)) as E2.
  { rewrite <- Z.pow_succ_r by (destruct (bf_sign op); lia). f_equal. lia. }
  destruct (_ && _) eqn:E; [intros [= <-]; zprop; done|].
  unfold op_min, op_max, op_wrap. destruct (bf_owtype op), (bf_sign op); intros [= <-]; try (destruct (_ || _); lia).
  - pose proof (wrapS_range (bf_bits op) (op_exact f op)). lia.
  - pose proof (Z.mod_pos_bound (op_exact f op) (2 ^ bf_bits op)). lia.
Qed.

Section Ops.
Context `{Host} (cfg : config).

(** What is shared by the two kinds of integers: the state after the write. *)
Definition op_done (p : list Z) (op : bitfieldOp) (m : res (list Z * reply_item * bool)) : Prop :=
  exists p' r changed, m = Ok (p', r, changed) /\ Forall is_byte p' /\ zlen p' = zlen p /\
    r = (op_spec (bit_at p) op).2 /\ (bit_at p' : bitmap) ≡ (op_spec (bit_at p) op).1 /\
    (r = ReplyNull <-> op_result (bit_at p) op = None) /\
    (forall v, op_result (bit_at p) op = Some v -> changed = negb (field_value (bit_at p) op =? v)) /\
    (changed = false -> (bit_at p' : bitmap) ≡ bit_at p) /\ (r = ReplyNull -> p' = p).

Lemma op_done_write p op p' v r changed :
  bf_opcode op <> BITFIELDOP_GET -> op_wf op -> bf_offset op + bf_bits op <= 8 * zlen p ->
  op_result (bit_at p) op = Some v -> Forall is_byte p' -> zlen p' = zlen p ->
  bits_of p' = take (Z.to_nat (bf_offset op)) (bits_of p) ++ val_bits (Z.to_nat (bf_bits op)) v ++
    drop (Z.to_nat (bf_offset op + bf_bits op)) (bits_of p) ->
  r = (if bool_decide (bf_opcode op = BITFIELDOP_INCRBY) then v else field_value (bit_at p) op) ->
  changed = negb (field_value (bit_at p) op =? v) ->
  op_done p op (Ok (p', ReplyInteger r, changed)).
Proof using.
  intros Hop Hwf Hle Hv Hb Hl Hbits -> ->. exists p', (ReplyInteger (if bool_decide (bf_opcode op = BITFIELDOP_INCRBY) then v else field_value (bit_at p) op)), (negb (field_value (bit_at p) op =? v)).
  assert (1 <= bf_bits op) as Hb1 by apply Hwf. destruct (proj1 (proj2 Hwf)) as [Ho _].
  assert ((bit_at p' : bitmap) ≡ set_field (bit_at p) (bf_offset op) (bf_bits op) v) as Hset by (apply bit_at_written; done || lia).
  split; [done|]. split; [done|]. split; [done|]. unfold op_spec. rewrite Hv.
  split; [by destruct (bf_opcode op)|]. split; [by destruct (bf_opcode op)|]. split; [done|]. split; [by intros ? [= <-]|]. split; [|done].
  intros Hc. rewrite Hset. apply set_field_same; [done|]. zprop. subst v. pose proof (field_range (bit_at p) (bf_offset op) (bf_bits op)).
  unfold field_value. destruct (bf_sign op).
  - fold (wrapU (bf_bits op) (wrapS (bf_bits op) (field (bit_at p) (bf_offset op) (bf_bits op)))).
    rewrite wrapU_wrapS by lia. apply wrapU_small. auto with lia.
  - apply Z.mod_small. auto with lia.
Qed.

Lemma op_done_fail p op :
  bf_opcode op <> BITFIELDOP_GET -> op_result (bit_at p) op = None -> Forall is_byte p -> op_done p op (Ok (p, ReplyNull, false)).
Proof using.
  intros Hop Hv Hb. exists p, ReplyNull, false. unfold op_spec. rewrite Hv. by destruct (bf_opcode op).
Qed.

(** The check of a signed operation: the sum with the old value, or the value alone. *)
Lemma check_signed_op f op :
  bf_opcode op <> BITFIELDOP_GET -> op_wf op -> bf_sign op = true -> op_undefined cfg f op = false ->
  (if bool_decide (bf_opcode op = BITFIELDOP_INCRBY) then checkSignedBitfieldOverflow (fwrapv cfg) (field_value f op) (bf_i64 op) (bf_bits op) (bf_owtype op)
   else checkSignedBitfieldOverflow (fwrapv cfg) (bf_i64 op) 0 (bf_bits op) (bf_owtype op)) = Ok (op_check f op).
Proof using.
  intros Hop (Hbits & _ & Hi) Hsg Hdef. rewrite Hsg in Hbits. zconst. unfold op_undefined, is_get in Hdef. rewrite Hsg in Hdef.
  rewrite (bool_decide_false _ Hop) in Hdef. cbn [negb] in Hdef. rewrite !andb_true_r in Hdef.
  assert (- 2 ^ (bf_bits op - 1) <= field_value f op < 2 ^ (bf_bits op - 1)) as Hold by (unfold field_value; rewrite Hsg; apply wrapS_range; lia).
  assert (2 ^ (bf_bits op - 1) <= 2 ^ 63) as Hp by (apply Z.pow_le_mono_r; lia).
  unfold op_check, far_below, op_exact, op_min, op_max in *. rewrite Hsg. rewrite (overflow_spec_ext _ _ _ _ (wrapS (bf_bits op))) by (unfold op_wrap; by rewrite Hsg).
  case_bool_decide as Hinc.
  - rewrite (bool_decide_false (bf_opcode op = BITFIELDOP_SET)) by congruence. rewrite check_signed_any, Hdef by lia. by rewrite check_signed_ok by (lia || auto).
  - rewrite (bool_decide_true (bf_opcode op = BITFIELDOP_SET)) by (by destruct (bf_opcode op)). cbn [andb]. rewrite check_signed_any, Hdef by lia.
    destruct ((bf_i64 op <? _) && _) eqn:Ef.
    + rewrite check_signed_below by lia. unfold op_wrap. by rewrite Hsg.
    + destruct (Z.ltb_spec (bf_i64 op) (- 2 ^ (bf_bits op - 1))); rewrite check_signed_ok, Z.add_0_r by lia; done.
Qed.

Lemma bitfield_signed_ok p op :
  bf_opcode op <> BITFIELDOP_GET -> op_wf op -> bf_sign op = true -> bf_offset op + bf_bits op <= 8 * zlen p -> 8 * zlen p < 2 ^ 64 ->
  Forall is_byte p -> op_undefined cfg (bit_at p) op = false -> op_done p op (bitfield_signed_op cfg p op).
Proof using.
  intros Hop Hwf Hsg Hle Hmax Hb Hdef. pose proof Hwf as (Hbits & Ho & Hi). rewrite Hsg in Hbits. zconst.
  unfold bitfield_signed_op. rewrite get_signed_ok, <- field_sub by (done || lia). rewrite bind_Ok.
  assert (wrapS (bf_bits op) (field (bit_at p) (bf_offset op) (bf_bits op)) = field_value (bit_at p) op) as -> by (unfold field_value; by rewrite Hsg).
  pose proof (check_signed_op (bit_at p) op Hop Hwf Hsg Hdef) as Hchk. set (old := field_value (bit_at p) op) in *.
  assert (- 2 ^ (bf_bits op - 1) <= old < 2 ^ (bf_bits op - 1)) as Hold.
  { unfold old, field_value. rewrite Hsg. apply wrapS_range. lia. }
  assert (2 ^ (bf_bits op - 1) <= 2 ^ 63) as Hp by (apply Z.pow_le_mono_r; lia).
  destruct (op_overflow (bit_at p) op (uninit 0)) as (ov & lim & Hov & Hres & Hfit). rewrite Hov in Hchk.
  assert (exists nv rv, (if bool_decide (bf_opcode op = BITFIELDOP_INCRBY) then
      '(overflow, limit) ← checkSignedBitfieldOverflow (fwrapv cfg) old (bf_i64 op) (bf_bits op) (bf_owtype op);
      newval ← (if negb (overflow =? 0) then Ok (default (uninit 0) limit) else arith64 (fwrapv cfg) (old + bf_i64 op));
      Ok (overflow, newval, newval)
    else
      '(overflow, limit) ← checkSignedBitfieldOverflow (fwrapv cfg) (bf_i64 op) 0 (bf_bits op) (bf_owtype op);
      Ok (overflow, if negb (overflow =? 0) then default (uninit 0) limit else bf_i64 op, old)) = Ok (ov, nv, rv) /\
      nv = (if negb (ov =? 0) then default (uninit 0) lim else op_exact (bit_at p) op) /\
      rv = (if bool_decide (bf_opcode op = BITFIELDOP_INCRBY) then nv else old)) as (nv & rv & -> & -> & ->).
  { unfold op_exact, op_min, op_max in *. fold old in Hfit |- *. rewrite Hsg in *. case_bool_decide as Hinc; rewrite Hchk, bind_Ok; [|by eexists _, _].
    destruct (Z.eqb_spec ov 0) as [E|E]; cbn [negb]; [|by eexists _, _]. specialize (Hfit E).
    assert (arith64 (fwrapv cfg) (old + bf_i64 op) = Ok (old + bf_i64 op)) as ->; [|by eexists _, _].
    unfold arith64, sint. destruct (fwrapv cfg); [by rewrite wrapS_small by lia|]. change (2 ^ (64 - 1)) with (2 ^ 63).
    ztrue (- 2 ^ 63 <=? old + bf_i64 op). by ztrue (old + bf_i64 op <? 2 ^ 63). }
  rewrite bind_Ok. destruct (negb (negb (ov =? 0) && _)) eqn:Eo.
  - set (v := if negb (ov =? 0) then _ else _) in *.
    destruct (bitfield_ok p (bf_offset op) (bf_bits op) v) as (_ & _ & p' & _ & -> & Hl' & Hb' & Hbits' & _); [done|lia..|].
    rewrite bind_Ok. by apply (op_done_write p op p' v).
  - by apply op_done_fail.
Qed.

Lemma bitfield_signed_faults p op :
  op_wf op -> bf_offset op + bf_bits op <= 8 * zlen p -> 8 * zlen p < 2 ^ 64 -> Forall is_byte p -> op_undefined cfg (bit_at p) op = true ->
  bf_sign op = true /\ bf_opcode op <> BITFIELDOP_GET /\ bitfield_signed_op cfg p op = Fault.
Proof using.
  intros (Hbits & Ho & Hi) Hle Hmax Hb Hu. unfold op_undefined, is_get in Hu. rewrite !andb_true_iff, !negb_true_iff, bool_decide_eq_false in Hu. destruct Hu as [[[Hf Hsg] Hop] Hu].
  split; [done|]. split; [done|]. rewrite Hsg in Hbits. zconst. unfold bitfield_signed_op. rewrite get_signed_ok, <- field_sub by (done || lia). rewrite bind_Ok, Hf.
  assert (wrapS (bf_bits op) (field (bit_at p) (bf_offset op) (bf_bits op)) = field_value (bit_at p) op) as -> by (unfold field_value; by rewrite Hsg).
  assert (- 2 ^ (bf_bits op - 1) <= field_value (bit_at p) op < 2 ^ (bf_bits op - 1)) as Hold by (unfold field_value; rewrite Hsg; apply wrapS_range; lia).
  assert (2 ^ (bf_bits op - 1) <= 2 ^ 63) as Hp by (apply Z.pow_le_mono_r; lia).
  case_bool_decide; rewrite check_signed_any by lia; cbn [negb andb]; by rewrite Hu.
Qed.

Lemma bitfield_unsigned_ok p op :
  bf_opcode op <> BITFIELDOP_GET -> op_wf op -> bf_sign op = false -> bf_offset op + bf_bits op <= 8 * zlen p -> 8 * zlen p < 2 ^ 64 ->
  Forall is_byte p -> op_done p op (bitfield_unsigned_op p op).
Proof using.
  intros Hop Hwf Hsg Hle Hmax Hb. pose proof Hwf as (Hbits & Ho & Hi). rewrite Hsg in Hbits. zconst.
  unfold bitfield_unsigned_op. rewrite get_unsigned_ok, <- field_sub by (done || lia). rewrite bind_Ok.
  assert (field (bit_at p) (bf_offset op) (bf_bits op) = field_value (bit_at p) op) as -> by (unfold field_value; by rewrite Hsg).
  set (old := field_value (bit_at p) op).
  assert (0 <= old < 2 ^ bf_bits op) as Hold by (unfold old, field_value; rewrite Hsg; apply field_range; lia).
  assert (2 ^ bf_bits op <= 2 ^ 63) as Hp by (apply Z.pow_le_mono_r; lia).
  destruct (op_overflow (bit_at p) op (uninit 0)) as (ov & lim & Hov & Hres & Hfit).
  assert (far_below op = false) as Efar by (unfold far_below; rewrite Hsg; by rewrite andb_false_r). unfold op_check in Hov. rewrite Efar in Hov.
  unfold op_min, op_max in Hov, Hfit. rewrite Hsg in Hov, Hfit.
  rewrite (overflow_spec_ext _ _ _ _ (fun s => s mod 2 ^ bf_bits op)) in Hov by (unfold op_wrap; by rewrite Hsg).
  assert (exists nv rv, (if bool_decide (bf_opcode op = BITFIELDOP_INCRBY) then
      '(overflow, limit) ← checkUnsignedBitfieldOverflow old (bf_i64 op) (bf_bits op) (bf_owtype op);
      Ok (overflow, if negb (overflow =? 0) then default (uninit 0) limit else wrapU 64 (old + bf_i64 op),
          if negb (overflow =? 0) then default (uninit 0) limit else wrapU 64 (old + bf_i64 op))
    else
      '(overflow, limit) ← checkUnsignedBitfieldOverflow (wrapU 64 (bf_i64 op)) 0 (bf_bits op) (bf_owtype op);
      Ok (overflow, if negb (overflow =? 0) then default (uninit 0) limit else wrapU 64 (bf_i64 op), old)) = Ok (ov, nv, rv) /\
      nv = (if negb (ov =? 0) then default (uninit 0) lim else op_exact (bit_at p) op) /\
      rv = (if bool_decide (bf_opcode op = BITFIELDOP_INCRBY) then nv else old)) as (nv & rv & -> & -> & ->).
  { unfold op_exact in *. fold old in Hov, Hfit |- *. case_bool_decide as Hinc.
    - rewrite check_unsigned_ok, Hov, bind_Ok by lia. destruct (Z.eqb_spec ov 0) as [E|E]; cbn [negb].
      + specialize (Hfit E). rewrite wrapU_small by lia. by eexists _, _.
      + by eexists _, _.
    - rewrite Hsg in *. pose proof (wrapU_range 64 (bf_i64 op)).
      rewrite check_unsigned_ok, Z.add_0_r, Hov, bind_Ok by lia. by eexists _, _. }
  rewrite bind_Ok. destruct (negb (negb (ov =? 0) && _)) eqn:Eo.
  - set (v := if negb (ov =? 0) then _ else _) in *.
    assert (op_min op <= v <= op_max op) as Hv by (eapply op_result_range; [done|exact Hres]).
    unfold op_min, op_max in Hv. rewrite Hsg in Hv.
    destruct (bitfield_ok p (bf_offset op) (bf_bits op) v) as (_ & _ & p' & Hset & _ & Hl' & Hb' & Hbits' & _); [done|lia..|].
    rewrite wrapU_small in Hset by lia. rewrite Hset, bind_Ok. rewrite wrapS_small; [by apply (op_done_write p op p' v)| |lia].
    case_bool_decide; lia.
  - by apply op_done_fail.
Qed.

(** GET works on a copy of nine bytes, padded with zeroes. *)
Lemma bitfield_copy_ok n buf str byte i :
  zlen buf = i + Z.of_nat n -> 0 <= i -> 0 <= byte -> Forall is_byte buf -> Forall is_byte str ->
  (forall k, i <= k -> byte_at buf k = 0) ->
  exists buf', bitfield_copy n buf (Some str) byte i = Ok buf' /\ zlen buf' = zlen buf /\ Forall is_byte buf' /\
    forall k, 0 <= k < zlen buf -> byte_at buf' k = if k <? i then byte_at buf k else byte_at str (k + byte).
Proof using.
  revert buf i. induction n as [|n IH]; intros buf i Hl Hi Hby Hb Hs Hz; cbn [bitfield_copy].
  { exists buf. split_and!; try done. intros k Hk. ztrue (k <? i). done. }
  rewrite Z.geb_leb. destruct (Z.leb_spec (zlen str) (i + byte)).
  { exists buf. split_and!; try done. intros k Hk. destruct (Z.ltb_spec k i); [done|]. rewrite Hz, byte_at_beyond by lia. done. }
  destruct (lookup_lt_is_Some_2 str (Z.to_nat (i + byte))) as [b Hbs]; [unfold zlen in *; lia|].
  rewrite (proj2 (rd1_lookup str (i + byte) b)) by (split; [lia|done]). rewrite bind_Ok.
  destruct (byte_at_wr buf i [b]) as (buf1 & -> & Hl1 & Hb1 & Hg1); [done|change (zlen [_]) with 1; lia|]. rewrite bind_Ok.
  change (zlen [b]) with 1 in Hg1. assert (is_byte b) as Hbb by (by eapply Forall_lookup_1).
  destruct (IH buf1 (i + 1)) as (buf' & -> & Hl' & Hb' & Hg'); [lia..|apply Hb1; [done|by forall_list]|done| |].
  { intros k Hk. rewrite Hg1 by lia. rewrite (proj2 (Z.ltb_ge k (i + 1))), andb_false_r by lia. apply Hz. lia. }
  exists buf'. split; [done|]. split; [lia|]. split; [done|]. intros k Hk. rewrite Hg', Hg1 by lia.
  destruct (Z.ltb_spec k (i + 1)), (Z.leb_spec i k), (Z.ltb_spec k i); cbn [andb]; try lia; try done.
  assert (k = i) as -> by lia. rewrite Z.sub_diag. unfold byte_at. by rewrite Hbs.
Qed.

Lemma bit_at_copy buf str byte i :
  (forall k, 0 <= k < 9 -> byte_at buf k = byte_at str (k + byte)) -> 0 <= i < 72 -> 0 <= byte -> bit_at buf i = bit_at str (i + 8 * byte).
Proof using.
  intros Hg Hi Hb. rewrite !bit_at_byte by lia. rewrite Hg by zdiv. f_equal; [f_equal; zdiv|zdiv].
Qed.

Lemma bitfield_get_ok src op :
  op_wf op -> Forall is_byte (default [] src) ->
  bitfield_get_op src op = Ok (ReplyInteger (field_value (bit_at (default [] src)) op)).
Proof using.
  intros (Hbits & Ho & _) Hb. unfold bitfield_get_op. rewrite shiftr_3. set (str := default [] src).
  assert (1 <= bf_bits op <= 64) as Hb64 by (destruct (bf_sign op); lia).
  assert (0 <= bf_offset op / 8) as Hby by zdiv.
  assert (exists buf, bitfield_copy 9 (replicate 9 0) src (bf_offset op / 8) 0 = Ok buf /\ zlen buf = 9 /\ Forall is_byte buf /\
    forall k, 0 <= k < 9 -> byte_at buf k = byte_at str (k + bf_offset op / 8)) as (buf & -> & Hl & Hbb & Hg).
  { assert (Forall is_byte (replicate 9 0)) as Hz by (apply Forall_replicate; unfold is_byte; lia).
    assert (forall k, byte_at (replicate 9 0) k = 0) as Hz0.
    { intros k. unfold byte_at. destruct (replicate 9 0 !! _) eqn:E; [|done]. by apply lookup_replicate in E as [-> _]. }
    unfold str. destruct src as [s0|]; cbn [default] in *.
    - destruct (bitfield_copy_ok 9 (replicate 9 0) s0 (bf_offset op / 8) 0) as (buf & E & Hl & Hbb & Hg); try done; auto.
      exists buf. split; [done|]. split; [done|]. split; [done|]. intros k Hk. rewrite Hg by done. by zfalse (k <? 0).
    - exists (replicate 9 0). split; [done|]. split; [done|]. split; [done|]. intros k Hk. rewrite Hz0. by rewrite byte_at_beyond by (change (zlen []) with 0; lia). }
  rewrite bind_Ok. replace (bf_offset op - bf_offset op / 8 * 8) with (bf_offset op mod 8) by zdiv.
  assert (0 <= bf_offset op mod 8 < 8) as Hm by zdiv.
  assert (bits_val (sub (bits_of buf) (bf_offset op mod 8) (bf_bits op)) = field (bit_at str) (bf_offset op) (bf_bits op)) as Hf.
  { rewrite <- field_sub by lia. unfold field. f_equal. apply list_fmap_ext. intros i k [-> Hk]%lookup_seq.
    rewrite (bit_at_copy buf str (bf_offset op / 8)) by (done || lia). f_equal. zdiv. }
  unfold field_value. fold str. rewrite <- Hf. destruct (bf_sign op).
  - by rewrite get_signed_ok by lia.
  - rewrite get_unsigned_ok by lia. rewrite bind_Ok. do 2 f_equal. apply wrapS_small; [|lia].
    rewrite Hf. pose proof (field_range (bit_at str) (bf_offset op) (bf_bits op)). assert (2 ^ bf_bits op <= 2 ^ 63) by (apply Z.pow_le_mono_r; lia). lia.
Qed.

End Ops.

(** ** Arguments *)

Definition opcode_name (op : bitfieldOp) : list Z :=
  match bf_opcode op with
  | BITFIELDOP_GET => chars "GET"
  | BITFIELDOP_SET => chars "SET"
  | BITFIELDOP_INCRBY => chars "INCRBY"
  end.

Definition owtype_name (op : bitfieldOp) : list Z :=
  match bf_owtype op with
  | BFOVERFLOW_WRAP => chars "WRAP"
  | BFOVERFLOW_SAT => chars "SAT"
  | BFOVERFLOW_FAIL => chars "FAIL"
  end.

(** The arguments of an operation, after its overflow mode. *)
Definition render_op (op : bitfieldOp) : list (list Z) :=
  [chars "OVERFLOW"; owtype_name op; opcode_name op;
   (if bf_sign op then 105 else 117) :: ll_repr (bf_bits op); ll_repr (bf_offset op)] ++
  (if bool_decide (bf_opcode op = BITFIELDOP_GET) then [] else [ll_repr (bf_i64 op)]).

Definition render (ops : list bitfieldOp) : list (list Z) := ops ≫= render_op.

(** The highest bit written, from [hi] on. *)
Definition highest (hi : Z) (ops : list bitfieldOp) : Z :=
  foldl (fun hi op => if is_get op then hi else Z.max hi (bf_offset op + bf_bits op - 1)) hi ops.

(** An operation as the parser gives it. *)
Definition op_parsed (cfg : config) (op : bitfieldOp) : Prop :=
  op_wf op /\ offset_allowed cfg (bf_offset op) /\ (bf_opcode op = BITFIELDOP_GET -> bf_i64 op = 0).

Section Parse.
Context `{Host} {DB : Type} `{KeyspaceLaws DB} (cfg : config).

Lemma runs_type (sign : bool) bits (s : server DB) (Q : _ -> _ -> Prop) :
  1 <= bits <= (if sign then 64 else 63) -> Q s (Some (sign, bits)) ->
  runs (getBitfieldTypeFromArgument ((if sign then 105 else 117) :: ll_repr bits)) s Q.
Proof.
  intros Hb HQ. unfold getBitfieldTypeFromArgument. apply runs_bind, (runs_lift _ (if sign then 105 else 117)); [by destruct sign|].
  apply runs_bind. eapply (runs_impl _ _ (fun s' r => s' = s /\ r = Some sign)); [destruct sign; by apply runs_ret|].
  intros ? ? [-> ->]. cbn [drop]. rewrite cstr_id by (eapply Forall_impl; [apply ll_repr_chars|]; cbn; lia).
  apply runs_bind, (runs_lift _ (Some bits)); [apply string2ll_repr; zconst; destruct sign; lia|].
  assert ((bits <? 1) || sign && (bits >? 64) || negb sign && (bits >? 63) = false) as -> by (destruct sign; lia). by apply runs_ret.
Qed.

Lemma lookup_args (pre args : list (list Z)) (k : Z) :
  0 <= k -> (pre ++ args) !! Z.to_nat (zlen pre + k) = args !! Z.to_nat k.
Proof.
  intros Hk. rewrite lookup_app_r by (unfold zlen; lia). f_equal. unfold zlen. lia.
Qed.

Lemma runs_op_args argv j op ow ro hi (s : server DB) (Q : _ -> _ -> Prop) :
  op_parsed cfg op -> 0 <= hi -> argv !! Z.to_nat (j + 1) = Some ((if bf_sign op then 105 else 117) :: ll_repr (bf_bits op)) ->
  argv !! Z.to_nat (j + 2) = Some (ll_repr (bf_offset op)) ->
  (is_get op = false -> argv !! Z.to_nat (j + 3) = Some (ll_repr (bf_i64 op))) -> ow = bf_owtype op ->
  Q s (Some (op, ro && is_get op, highest hi [op])) ->
  runs (bitfield_op_args cfg argv j (bf_opcode op) ow ro hi) s Q.
Proof.
  intros ((Hbits & Ho & Hi) & Hoff & Hget) Hhi Ha1 Ha2 Ha3 -> HQ. unfold bitfield_op_args.
  apply runs_bind. eapply runs_arg; [exact Ha1|]. apply runs_bind, runs_type; [done|].
  apply runs_bind. eapply runs_arg; [exact Ha2|]. apply runs_bind, runs_offset; [done|]. apply runs_bind.
  unfold highest, is_get in *. cbn [foldl] in HQ. destruct op as [off i64 opcode ow bits sign].
  cbn [bf_offset bf_i64 bf_opcode bf_owtype bf_bits bf_sign] in *.
  destruct (decide (opcode = BITFIELDOP_GET)) as [->|Ho'].
  - rewrite bool_decide_eq_false_2 by tauto. rewrite bool_decide_eq_true_2, andb_true_r in HQ by done.
    rewrite (Hget eq_refl) in HQ. by apply runs_ret, runs_ret.
  - rewrite bool_decide_eq_true_2 by done. rewrite bool_decide_eq_false_2, andb_false_r in HQ by done. rewrite bool_decide_eq_false_2 in Ha3 by done.
    apply runs_bind, (runs_argo _ _ (ll_repr i64)); [by apply Ha3|]. apply runs_bind, runs_repr; [done|].
    apply runs_ret. apply runs_ret. rewrite wrapU_small by (destruct sign; lia).
    replace (if hi <? off + bits - 1 then off + bits - 1 else hi) with (hi `max` (off + bits - 1)); [done|].
    destruct (Z.ltb_spec hi (off + bits - 1)); lia.
Qed.

(** The parser reads back what was rendered. *)
Lemma runs_parse fuel pre ops ow acc ro hi (s : server DB) (Q : _ -> _ -> Prop) :
  (length (render ops) < fuel)%nat -> Forall (op_parsed cfg) ops -> 0 <= hi ->
  Q s (Some (acc ++ ops, ro && forallb is_get ops, highest hi ops)) ->
  runs (bitfield_parse cfg fuel (pre ++ render ops) (zlen pre) ow acc ro hi) s Q.
Proof.
  intros Hf Hops. revert fuel pre ow acc ro hi Hf. induction Hops as [|op ops Hop Hops IH];
    intros fuel pre ow acc ro hi Hf Hhi HQ.
  { destruct fuel as [|fuel]; [lia|]. cbn [bitfield_parse]. change (render []) with (@nil (list Z)).
    rewrite app_nil_r, Z.ltb_irrefl. apply runs_ret. by rewrite app_nil_r, andb_true_r in HQ. }
  assert (render (op :: ops) = render_op op ++ render ops) as E by done. rewrite E in *.
  set (rest := render ops) in *. destruct fuel as [|[|fuel]]; [lia|unfold render_op in Hf; cbn in Hf; lia|].
  assert (zlen (render_op op) = 6 - Z.b2z (is_get op)) as Hlen by (unfold render_op, is_get; by destruct (bf_opcode op)).
  assert (0 <= zlen rest) as Hr0 by apply zlen_nonneg.
  assert (0 <= Z.b2z (is_get op) <= 1) as Hg by (destruct (is_get op); cbn; lia).
  remember (S fuel) as fuel1 eqn:Ef1. cbn [bitfield_parse]. zlens. rewrite Hlen.
  assert ((zlen pre <? zlen pre + (6 - Z.b2z (is_get op) + zlen rest)) = true) as -> by lia.
  apply runs_bind, (runs_arg _ _ (chars "OVERFLOW")). { rewrite <- (Z.add_0_r (zlen pre)). by rewrite lookup_args. }
  change (strcase_eq (chars "OVERFLOW") "get") with false. change (strcase_eq (chars "OVERFLOW") "set") with false.
  change (strcase_eq (chars "OVERFLOW") "incrby") with false. change (strcase_eq (chars "OVERFLOW") "overflow") with true. cbn [andb].
  assert ((zlen pre + (6 - Z.b2z (is_get op) + zlen rest) - zlen pre - 1 >=? 1) = true) as -> by lia.
  apply runs_bind, runs_ret. apply runs_bind, (runs_arg _ _ (owtype_name op)); [by rewrite lookup_args|].
  apply runs_bind. eapply (runs_impl _ _ (fun s' r => s' = s /\ r = Some (bf_owtype op))).
  { unfold owtype_name. destruct (bf_owtype op); by apply runs_ret. }
  intros ? ? [-> ->]. subst fuel1. cbn [bitfield_parse]. zlens. rewrite Hlen. replace (zlen pre + 1 + 1) with (zlen pre + 2) by lia.
  assert ((zlen pre + 2 <? zlen pre + (6 - Z.b2z (is_get op) + zlen rest)) = true) as -> by lia.
  apply runs_bind, (runs_arg _ _ (opcode_name op)); [by rewrite lookup_args|]. apply runs_bind.
  set (remargs := zlen pre + _ - _ - 1). eapply (runs_impl _ _ (fun s' r => s' = s /\ r = Some (Some (bf_opcode op)))).
  { assert (remargs >= 2 /\ (bf_opcode op <> BITFIELDOP_GET -> remargs >= 3)) as [Hr2 Hr3].
    { unfold remargs. split; [lia|]. unfold is_get. intros Hne. rewrite bool_decide_eq_false_2 by done. change (Z.b2z false) with 0. lia. }
    clearbody remargs. unfold opcode_name. destruct (bf_opcode op); try (specialize (Hr3 ltac:(done)));
      [change (strcase_eq (chars "GET") "get") with true|change (strcase_eq (chars "SET") "get") with false; change (strcase_eq (chars "SET") "set") with true
      |change (strcase_eq (chars "INCRBY") "get") with false; change (strcase_eq (chars "INCRBY") "set") with false; change (strcase_eq (chars "INCRBY") "incrby") with true];
      cbn [andb]; (rewrite (proj2 (Z.geb_le _ _)) by lia); by apply runs_ret. }
  intros ? ? [-> ->]. apply runs_bind, runs_op_args; [done|done| | | |done|].
  { replace (zlen pre + 2 + 1) with (zlen pre + 3) by lia. by rewrite lookup_args. }
  { replace (zlen pre + 2 + 2) with (zlen pre + 4) by lia. by rewrite lookup_args. }
  { intros Hg0. replace (zlen pre + 2 + 3) with (zlen pre + 5) by lia. rewrite lookup_args by lia. unfold render_op, is_get in *. by rewrite Hg0. }
  fold (is_get op). replace (zlen pre + 2 + (3 - Z.b2z (is_get op)) + 1) with (zlen (pre ++ render_op op)) by (zlens; lia).
  rewrite app_assoc. apply IH.
  - unfold rest in *. rewrite length_app in Hf. unfold zlen in Hlen. lia.
  - unfold highest. cbn [foldl]. destruct (is_get op); lia.
  - rewrite <- app_assoc, <- andb_assoc. exact HQ.
Qed.

End Parse.

(** ** The command *)

Section Command.
Context `{Host} {DB : Type} `{KeyspaceLaws DB} (cfg : config).

(** The state after the replies [rs], with [d] as the database. *)
Definition after (s : server DB) (d : DB) (rs : list reply_item) : server DB := Server d (reply s ++ rs) (dirty s) (events s).

Lemma after_reply s d r rs : after (with_reply s r) d rs = after s d (r :: rs).
Proof. unfold after. cbn. by rewrite <- app_assoc. Qed.

Lemma runs_exec_get key o str dirty ops changes (s : server DB) (Q : _ -> _ -> Prop) :
  getObjectReadOnlyString o = Ok str -> Forall is_byte (default [] str) -> Forall op_wf ops -> forallb is_get ops = true ->
  Q (after s (sdb s) (ops_spec (bit_at (default [] str)) ops).2) (Some changes) ->
  runs (bitfield_exec cfg key o dirty ops changes) s Q.
Proof using.
  intros Ho Hb Hwf. revert s. induction Hwf as [|op ops Hop Hwf IH]; intros s Hg HQ; cbn [bitfield_exec].
  { apply runs_ret. destruct s. unfold after in HQ. cbn in HQ. by rewrite app_nil_r in HQ. }
  cbn [forallb] in Hg. apply andb_true_iff in Hg as [Hg1 Hg]. unfold is_get in Hg1. apply bool_decide_eq_true in Hg1. rewrite Hg1.
  apply runs_bind. eapply runs_lift; [exact Ho|]. apply runs_bind. eapply runs_lift; [by apply bitfield_get_ok|].
  apply runs_bind, runs_reply. apply IH; [done|]. rewrite after_reply. cbn [ops_spec] in HQ. unfold op_spec in HQ. rewrite Hg1 in HQ.
  by destruct (ops_spec (bit_at (default [] str)) ops).
Qed.

(** What the operations leave: the bitmap of the specification and the changes counted,
    and the bits as they were when there were none. *)
Definition exec_post (key p : list Z) (dirty : bool) (ops : list bitfieldOp) (changes : Z) (s s' : server DB) (n : Z) : Prop :=
  exists p', s' = after s (sdb s') (ops_spec (bit_at p) ops).2 /\ db_wf (sdb s') /\
    view (sdb s') = <[key := createRawStringObject p']> (view (sdb s)) /\ expires (sdb s') = expires (sdb s) /\
    Forall is_byte p' /\ zlen p' = zlen p /\ (bit_at p' : bitmap) ≡ (ops_spec (bit_at p) ops).1 /\
    n = changes + ops_changes dirty (bit_at p) ops /\ changes <= n /\ (n = changes -> (bit_at p' : bitmap) ≡ bit_at p).

(** The write of an operation; a failed one does not write. *)
Lemma runs_store key p p1 r (s : server DB) :
  storable key -> db_wf (sdb s) -> view (sdb s) !! key = Some (createRawStringObject p) -> (r = ReplyNull -> p1 = p) ->
  runs (match r with ReplyNull => mret (createRawStringObject p) | _ => set_ptr key (createRawStringObject p) p1 end) (with_reply s r)
    (fun s' o => o = Some (createRawStringObject p1) /\ s' = with_db (with_reply s r) (sdb s') /\ db_wf (sdb s') /\
      view (sdb s') = <[key := createRawStringObject p1]> (view (sdb s)) /\ expires (sdb s') = expires (sdb s)).
Proof using.
  intros Hkey Hw Hk Hnull. assert (runs (set_ptr key (createRawStringObject p) p1) (with_reply s r) (fun s' o => o = Some (createRawStringObject p1) /\
    s' = with_db (with_reply s r) (sdb s') /\ db_wf (sdb s') /\
    view (sdb s') = <[key := createRawStringObject p1]> (view (sdb s)) /\ expires (sdb s') = expires (sdb s))) as Hset.
  { apply runs_set_ptr; [done..|cbn; by rewrite Hk|]. by intros d ? ? ?. }
  destruct r; try exact Hset. rewrite (Hnull eq_refl) in *. apply runs_ret. destruct s. cbn in *. by rewrite insert_id.
Qed.

Lemma ops_spec_cons f f1 op ops :
  f1 ≡ (op_spec f op).1 ->
  (ops_spec f (op :: ops)).2 = (op_spec f op).2 :: (ops_spec f1 ops).2 /\ (ops_spec f1 ops).1 ≡ (ops_spec f (op :: ops)).1.
Proof using.
  intros E. cbn [ops_spec]. destruct (ops_spec_ext ops _ _ E) as [E2 E1]. destruct (op_spec f op) as [g r]. cbn in *.
  destruct (ops_spec g ops), (ops_spec f1 ops). cbn in *. by subst.
Qed.

(** One operation that is not undefined. *)
Lemma op_runs p op :
  bf_opcode op <> BITFIELDOP_GET -> op_wf op -> bf_offset op + bf_bits op <= 8 * zlen p -> 8 * zlen p < 2 ^ 64 ->
  Forall is_byte p -> op_undefined cfg (bit_at p) op = false ->
  op_done p op (if bf_sign op then bitfield_signed_op cfg p op else bitfield_unsigned_op p op).
Proof using. intros. destruct (bf_sign op) eqn:Es; [by apply bitfield_signed_ok|by apply bitfield_unsigned_ok]. Qed.

(** It counts as a change when the specification says so. *)
Lemma op_counts p op (dirty : bool) r changed :
  bf_opcode op <> BITFIELDOP_GET -> (r = ReplyNull <-> op_result (bit_at p) op = None) ->
  (forall v, op_result (bit_at p) op = Some v -> changed = negb (field_value (bit_at p) op =? v)) ->
  Z.b2z match r with ReplyNull => false | _ => dirty || changed end =
  if is_get op then 0 else match op_result (bit_at p) op with Some v => Z.b2z (dirty || negb (field_value (bit_at p) op =? v)) | None => 0 end.
Proof using.
  intros Hop Hnull Hch. unfold is_get. rewrite bool_decide_false by done. destruct (op_result (bit_at p) op) as [v|] eqn:Er.
  - rewrite (Hch v eq_refl). destruct r; try done. by specialize (proj1 Hnull eq_refl).
  - by rewrite (proj2 Hnull eq_refl).
Qed.

Lemma runs_exec key p dirty ops changes (s : server DB) :
  storable key -> db_wf (sdb s) -> view (sdb s) !! key = Some (createRawStringObject p) -> Forall is_byte p -> 8 * zlen p < 2 ^ 64 ->
  Forall op_wf ops -> Forall (op_fits (zlen p)) ops -> ops_undefined cfg (bit_at p) ops = false ->
  runs (bitfield_exec cfg key (Some (createRawStringObject p)) dirty ops changes) s
    (fun s' r => exists n, r = Some n /\ exec_post key p dirty ops changes s s' n).
Proof using.
  intros Hkey Hw Hk Hb Hmax Hwf. revert s p changes Hw Hk Hb Hmax. induction Hwf as [|op ops Hop Hwf IH]; intros s p changes Hw Hk Hb Hmax Hfit Hdef; cbn [bitfield_exec].
  { apply runs_ret. exists changes. split; [done|]. exists p. split; [destruct s; unfold after; cbn; by rewrite app_nil_r|].
    split; [done|]. split; [by rewrite insert_id|]. split_and!; try done; cbn; lia. }
  cbn [ops_undefined] in Hdef. apply orb_false_iff in Hdef as [Hdef1 Hdef].
  apply Forall_cons in Hfit as [Hf1 Hfit]. destruct (decide (bf_opcode op = BITFIELDOP_GET)) as [Eg|Eg].
  - rewrite Eg. apply runs_bind, (runs_lift _ (Some p)); [done|]. apply runs_bind. eapply runs_lift; [by apply bitfield_get_ok|].
    assert ((op_spec (bit_at p) op).1 = bit_at p) as E1 by (unfold op_spec; by rewrite Eg). rewrite E1 in Hdef.
    apply runs_bind, runs_reply. eapply runs_impl; [by apply IH|].
    intros s' r (n & -> & p' & Es & Hw' & Hv' & He' & Hb' & Hl' & Hbm & Hcount & Hn & Hsame). exists n. split; [done|]. exists p'.
    cbn [ops_changes]. rewrite E1. unfold is_get. rewrite bool_decide_true by done. cbn [ops_spec]. unfold op_spec. rewrite Eg. change (default [] (Some p)) with p in *.
    destruct (ops_spec (bit_at p) ops) as [f2 rs] eqn:Eo. cbn [fst snd] in *. split; [rewrite Es at 1; apply after_reply|]. by split_and!.
  - destruct Hf1 as [Hf1|Hf1]; [done|].
    destruct (op_runs p op Eg Hop Hf1 Hmax Hb Hdef1) as (p1 & r & changed & Eop & Hb1 & Hl1 & Hr & Hbm1 & Hnl & Hch1 & Hsame1 & Hnull).
    assert (forall A (x y : A), match bf_opcode op with BITFIELDOP_GET => x | _ => y end = y) as Em by (intros; by destruct (bf_opcode op)).
    rewrite Em. apply runs_bind, runs_ret. apply runs_bind. eapply runs_lift; [exact Eop|]. cbv beta iota.
    apply runs_bind, runs_reply. apply runs_bind.
    eapply runs_impl; [by apply (runs_store key p p1 r)|]. intros s1 r1 (-> & Es1 & Hw1 & Hv1 & He1).
    pose proof (op_counts p op dirty r changed Eg Hnl Hch1) as Hc1. set (ch := match r with ReplyNull => false | _ => dirty || changed end) in *.
    eapply runs_impl; [apply (IH s1 p1 (changes + Z.b2z ch)); [done|rewrite Hv1; by rewrite lookup_insert_eq|done|lia|by rewrite Hl1|by rewrite (ops_undefined_ext cfg ops _ _ Hbm1)]|].
    intros s' r' (n & -> & p' & Es & Hw' & Hv' & He' & Hb' & Hl' & Hbm & Hcount & Hn & Hsame). exists n. split; [done|]. exists p'.
    destruct (ops_spec_cons (bit_at p) (bit_at p1) op ops Hbm1) as [Er Ef]. rewrite <- Hr in Er.
    split; [rewrite Es at 1; rewrite Es1; unfold after; cbn [with_db with_reply sdb reply Object.dirty events]; by rewrite Er, <- app_assoc|]. split; [done|].
    split; [rewrite Hv', Hv1; by rewrite insert_insert_eq|]. split; [congruence|]. split; [done|]. split; [lia|].
    split; [by rewrite Hbm, Ef|]. split; [cbn [ops_changes]; rewrite <- Hc1, <- (ops_changes_ext dirty ops _ _ Hbm1); lia|]. split; [destruct ch; cbn in Hn; lia|]. intros Hnc.
    assert (ch = false) as Hch by (destruct ch; cbn in Hn; [lia|done]). rewrite Hch in Hsame. cbn in Hsame.
    rewrite (Hsame ltac:(lia)). unfold ch in Hch. destruct r; try (apply orb_false_iff in Hch as [_ Hch]; by apply Hsame1). by rewrite (Hnull eq_refl).
Qed.

Lemma exec_faults key p dirty ops changes (s : server DB) :
  storable key -> db_wf (sdb s) -> view (sdb s) !! key = Some (createRawStringObject p) -> Forall is_byte p -> 8 * zlen p < 2 ^ 64 ->
  Forall op_wf ops -> Forall (op_fits (zlen p)) ops -> ops_undefined cfg (bit_at p) ops = true ->
  bitfield_exec cfg key (Some (createRawStringObject p)) dirty ops changes s = Fault.
Proof using.
  intros Hkey Hw Hk Hb Hmax Hwf. revert s p changes Hw Hk Hb Hmax. induction Hwf as [|op ops Hop Hwf IH]; intros s p changes Hw Hk Hb Hmax Hfit Hu; [done|].
  cbn [bitfield_exec ops_undefined] in *. apply Forall_cons in Hfit as [Hf1 Hfit].
  assert (forall A (x y : A), bf_opcode op <> BITFIELDOP_GET -> match bf_opcode op with BITFIELDOP_GET => x | _ => y end = y) as Em by (intros; by destruct (bf_opcode op)).
  destruct (decide (bf_opcode op = BITFIELDOP_GET)) as [Eg|Eg].
  - assert (op_undefined cfg (bit_at p) op = false) as E0 by (unfold op_undefined, is_get; by rewrite Eg, !andb_false_r).
    assert ((op_spec (bit_at p) op).1 = bit_at p) as E1 by (unfold op_spec; by rewrite Eg). rewrite E0, E1 in Hu. rewrite Eg.
    apply bind_ends, (runs_lift _ (Some p)); [done|]. apply bind_ends. eapply runs_lift; [by apply bitfield_get_ok|]. apply bind_ends, runs_reply. by apply IH.
  - destruct Hf1 as [Hf1|Hf1]; [done|]. rewrite (Em _ _ _ Eg). apply bind_ends, runs_ret. destruct (op_undefined cfg (bit_at p) op) eqn:Hu1.
    { destruct (bitfield_signed_faults cfg p op Hop Hf1 Hmax Hb Hu1) as (-> & _ & E). unfold mbind, cmd_bind, lift. by rewrite E. }
    destruct (op_runs p op Eg Hop Hf1 Hmax Hb Hu1) as (p1 & r & changed & Eop & Hb1 & Hl1 & _ & Hbm1 & _ & _ & _ & Hnull).
    apply bind_ends. eapply runs_lift; [exact Eop|]. cbv beta iota. apply bind_ends, runs_reply. apply bind_ends.
    eapply runs_impl; [by apply (runs_store key p p1 r)|]. intros s1 r1 (-> & _ & Hw1 & Hv1 & _). apply IH; try done.
    + rewrite Hv1. by rewrite lookup_insert_eq.
    + lia.
    + by rewrite Hl1.
    + by rewrite (ops_undefined_ext cfg ops _ _ Hbm1).
Qed.

Lemma highest_ge ops hi : hi <= highest hi ops /\ Forall (fun op => is_get op = true \/ bf_offset op + bf_bits op - 1 <= highest hi ops) ops.
Proof using.
  revert hi. induction ops as [|op ops IH]; intros hi; [split; [done|constructor]|].
  destruct (IH (if is_get op then hi else Z.max hi (bf_offset op + bf_bits op - 1))) as [Hge Hall].
  unfold highest in *. cbn [foldl]. split; [destruct (is_get op); lia|]. constructor; [|done].
  destruct (is_get op); [by left|right; lia].
Qed.

Lemma highest_bound ops hi : Forall op_wf ops -> hi < 2 ^ 63 + 64 -> highest hi ops < 2 ^ 63 + 64.
Proof using.
  intros Hops. revert hi. induction Hops as [|op ops (Hb & Ho & _) _ IH]; intros hi Hhi; [done|].
  unfold highest in *. cbn [foldl]. apply IH. destruct (is_get op); [done|]. destruct (bf_sign op); lia.
Qed.

(** The changes are announced and counted. *)
Lemma runs_count key n (s : server DB) :
  runs (if negb (n =? 0) then signalModifiedKey key;; notifyKeyspaceEvent NOTIFY_STRING "setbit" key;; add_dirty n else mret tt) s
    (fun s' _ => sdb s' = sdb s /\ reply s' = reply s /\ dirty s' = dirty s + n /\
      events s' = events s ++ (if n =? 0 then [] else [SignalModifiedKey key; Notify NOTIFY_STRING "setbit" key])).
Proof using.
  destruct (Z.eqb_spec n 0) as [->|]; cbn [negb].
  - apply runs_ret. rewrite app_nil_r. split_and!; try done. lia.
  - apply runs_bind, runs_signal. apply runs_bind, runs_notify. apply runs_dirty. split_and!; try done. cbn. by rewrite <- app_assoc.
Qed.

(** The arguments are parsed, and the string is there to be written. *)
Lemma bitfield_writes ops old :
  Forall op_wf ops -> Forall is_byte old -> zlen old < MAX_STRING ->
  let p := sdsgrowzero_bytes old (highest 0 ops / 8 + 1) in
  Forall is_byte p /\ 8 * zlen p < 2 ^ 64 /\ zlen p = Z.max (zlen old) (highest 0 ops / 8 + 1) /\ Forall (op_fits (zlen p)) ops /\ (bit_at p : bitmap) ≡ bit_at old.
Proof using.
  intros Hwf Hb Hm p. unfold MAX_STRING in Hm. pose proof (highest_ge ops 0) as [Hge Hall]. pose proof (highest_bound ops 0 Hwf ltac:(lia)) as Hbd.
  assert (zlen p = Z.max (zlen old) (highest 0 ops / 8 + 1)) as Hl0 by apply zlen_grow.
  assert (highest 0 ops / 8 < 2 ^ 60 + 8) as Hb8 by (apply Z.div_lt_upper_bound; lia).
  split; [by apply grow_bytes|]. split; [lia|]. split; [done|]. split; [|intros i; apply bit_at_grow].
  eapply Forall_impl; [exact Hall|]. cbn. intros op [Hg|Hle]; [left; by apply bool_decide_eq_true in Hg|right]. rewrite Hl0. zdiv.
Qed.

(** The arguments are parsed back. *)
Lemma runs_bitfield_args c key ops (s : server DB) (Q : _ -> _ -> Prop) :
  Forall (op_parsed cfg) ops -> Q s (Some (ops, forallb is_get ops, highest 0 ops)) ->
  runs (bitfield_parse cfg (S (length (c :: key :: render ops))) (c :: key :: render ops) 2 BFOVERFLOW_WRAP [] true 0) s Q.
Proof using. intros Hops HQ. apply (runs_parse cfg _ [c; key] ops); [cbn; lia|done|lia|exact HQ]. Qed.

(** The command once it is parsed, when it only reads. *)
Lemma runs_bitfield_read key ops old (s : server DB) :
  storable key -> db_wf (sdb s) -> string_at (view (sdb s)) key old -> Forall op_wf ops -> forallb is_get ops = true ->
  runs ('(o, dirty) ← (o ← on_db (lookupKeyRead key); checkType o OBJ_STRING;; mret (o, false));
    addReply (ReplyArrayLen (zlen ops));;
    changes ← bitfield_exec cfg key o dirty ops 0;
    if negb (changes =? 0) then signalModifiedKey key;; notifyKeyspaceEvent NOTIFY_STRING "setbit" key;; add_dirty changes else mret tt) s
    (fun s' _ => replied (ReplyArrayLen (zlen ops) :: (ops_spec (bit_at old) ops).2) s s').
Proof using.
  intros Hkey Hw Hs Hwf Eg. destruct (string_at_wf _ _ _ Hs) as [Hb _]. apply runs_bind. apply runs_bind, runs_read; [done..|]. intros d Hd Hv He.
  assert (exists str, getObjectReadOnlyString (view (sdb s) !! key) = Ok str /\ default [] str = old) as (str & Hstr & <-).
  { unfold string_at in Hs. destruct (view (sdb s) !! key) as [o|]; [|subst; by exists None].
    destruct Hs. exists (Some old). split; [by apply read_only_string|done]. }
  apply runs_bind. eapply (runs_impl _ _ (fun s' r => s' = with_db s d /\ r = Some tt)).
  { unfold string_at in Hs. destruct (view (sdb s) !! key) as [o|]; [|by apply runs_ret]. destruct Hs as [_ Hs].
    apply runs_check_string; [by destruct o|done]. }
  intros ? ? [-> ->]. apply runs_ret. apply runs_bind, runs_reply. apply runs_bind. eapply runs_exec_get; [exact Hstr|done|done|done|].
  apply runs_ret. rewrite after_reply. by split_and!.
Qed.

(** When it writes. *)
Lemma runs_bitfield_write key ops old (s : server DB) :
  storable key -> db_wf (sdb s) -> string_at (view (sdb s)) key old -> Forall op_wf ops -> ops_undefined cfg (bit_at old) ops = false ->
  let grown := bool_decide (view (sdb s) !! key = None) || (zlen old <? highest 0 ops / 8 + 1) in
  let n := ops_changes grown (bit_at old) ops in
  runs ('(o, dirty) ← ('(o, dirty) ← lookupStringForBitCommand key (highest 0 ops); mret (Some o, dirty));
    addReply (ReplyArrayLen (zlen ops));;
    changes ← bitfield_exec cfg key o dirty ops 0;
    if negb (changes =? 0) then signalModifiedKey key;; notifyKeyspaceEvent NOTIFY_STRING "setbit" key;; add_dirty changes else mret tt) s
    (fun s' _ => exists p,
      db_wf (sdb s') /\ view (sdb s') = <[key := createRawStringObject p]> (view (sdb s)) /\ expires (sdb s') = expires (sdb s) /\
      Forall is_byte p /\ zlen p = Z.max (zlen old) (highest 0 ops / 8 + 1) /\ (bit_at p : bitmap) ≡ (ops_spec (bit_at old) ops).1 /\
      reply s' = reply s ++ ReplyArrayLen (zlen ops) :: (ops_spec (bit_at old) ops).2 /\
      dirty s' = dirty s + n /\ 0 <= n /\ (n = 0 -> (bit_at p : bitmap) ≡ bit_at old) /\
      events s' = events s ++ (if n =? 0 then [] else [SignalModifiedKey key; Notify NOTIFY_STRING "setbit" key])).
Proof using.
  intros Hkey Hw Hs Hwf Hdef grown n. destruct (string_at_wf _ _ _ Hs) as [Hb Hm]. pose proof (highest_ge ops 0) as [Hge _].
  destruct (bitfield_writes ops old Hwf Hb Hm) as (Hb0 & Hmax & Hl0 & Hfit & Hgrow).
  apply runs_bind, runs_bind, (runs_lookup_string _ _ old); [done..|]. intros p0 d Hd Hv He. fold p0 in Hb0, Hmax, Hl0, Hfit, Hgrow.
  assert (bool_decide (view (sdb s) !! key = None) || negb (zlen old =? zlen p0) = grown) as -> by (unfold grown; rewrite Hl0; f_equal; lia).
  apply runs_ret. apply runs_bind, runs_reply. apply runs_bind.
  eapply runs_impl; [apply (runs_exec key p0); try done|].
  { cbn. rewrite Hv. by rewrite lookup_insert_eq. } { by rewrite (ops_undefined_ext cfg ops _ _ Hgrow). }
  intros s' r (n' & -> & p & Es & Hw' & Hv' & He' & Hb' & Hl' & Hbm & Hcount & Hn & Hsame).
  rewrite (ops_changes_ext grown ops _ _ Hgrow) in Hcount. cbn [Z.add] in Hcount. assert (n' = n) as -> by exact Hcount.
  destruct (ops_spec_ext ops _ _ Hgrow) as [Ers Ebm]. rewrite Ers in Es. cbn [sdb with_reply with_db] in Hv', He'.
  rewrite Hv, insert_insert_eq in Hv'. rewrite after_reply in Es.
  eapply runs_impl; [apply (runs_count key n)|]. intros s2 _ (E1 & E2 & E3 & E4). exists p. rewrite E1, E2, E3, E4, Hv', He', He, Es.
  split_and!; try done; [lia|by rewrite Hbm|]. intros Hn0. by rewrite (Hsame Hn0).
Qed.

Lemma bitfield_write_faults key ops old (s : server DB) (k : Z -> cmd DB unit) :
  storable key -> db_wf (sdb s) -> string_at (view (sdb s)) key old -> Forall op_wf ops -> ops_undefined cfg (bit_at old) ops = true ->
  ('(o, dirty) ← ('(o, dirty) ← lookupStringForBitCommand key (highest 0 ops); mret (Some o, dirty));
    addReply (ReplyArrayLen (zlen ops));; changes ← bitfield_exec cfg key o dirty ops 0; k changes) s = Fault.
Proof using.
  intros Hkey Hw Hs Hwf Hu. destruct (string_at_wf _ _ _ Hs) as [Hb Hm]. pose proof (highest_ge ops 0) as [Hge _].
  destruct (bitfield_writes ops old Hwf Hb Hm) as (Hb0 & Hmax & Hl0 & Hfit & Hgrow).
  apply bind_ends. apply runs_bind, (runs_lookup_string _ _ old); [done..|]. intros p0 d Hd Hv He. fold p0 in Hb0, Hmax, Hl0, Hfit, Hgrow.
  apply runs_ret. cbv beta iota. apply bind_ends, runs_reply. unfold mbind at 1, cmd_bind at 1. rewrite exec_faults; try done.
  - cbn. rewrite Hv. by rewrite lookup_insert_eq.
  - by rewrite (ops_undefined_ext cfg ops _ _ Hgrow).
Qed.

(** C16: BITFIELD runs its subcommands in order as operations on the bitmap: for
    every list of operations, printed as arguments, the replies and the bitmap
    left at the key are those of the specification, with wrapping, saturation and
    failure as asked for; where saturation goes the wrong way ([far_below]), the
    specification says so.  The writes counted as changes are exactly those that did
    not fail and changed their field, or all that did not fail when the string was
    created or extended.  Reading only changes nothing; BITFIELD_RO refuses to write;
    a key of another type is answered with an error.  In a program that was not
    compiled to wrap, the operations that compute an unrepresentable distance
    ([ops_undefined]) are undefined behaviour. *)
Theorem bitfieldGeneric_correct c key ops (ro : bool) (s : server DB) :
  storable key -> db_wf (sdb s) -> Forall (op_parsed cfg) ops ->
  let m := bitfieldGeneric cfg (c :: key :: render ops) ro in
  let refused := [ReplyError "BITFIELD_RO only supports the GET subcommand"] in
  (forall old, string_at (view (sdb s)) key old ->
    if forallb is_get ops then runs m s (fun s' _ => replied (ReplyArrayLen (zlen ops) :: (ops_spec (bit_at old) ops).2) s s')
    else if ro then runs m s (fun s' _ => replied refused s s')
    else if ops_undefined cfg (bit_at old) ops then m s = Fault
    else runs m s (fun s' _ => exists p,
      let grown := bool_decide (view (sdb s) !! key = None) || (zlen old <? highest 0 ops / 8 + 1) in
      let n := ops_changes grown (bit_at old) ops in
      db_wf (sdb s') /\ view (sdb s') = <[key := createRawStringObject p]> (view (sdb s)) /\ expires (sdb s') = expires (sdb s) /\
      Forall is_byte p /\ zlen p = Z.max (zlen old) (highest 0 ops / 8 + 1) /\ (bit_at p : bitmap) ≡ (ops_spec (bit_at old) ops).1 /\
      reply s' = reply s ++ ReplyArrayLen (zlen ops) :: (ops_spec (bit_at old) ops).2 /\
      dirty s' = dirty s + n /\ 0 <= n /\ (n = 0 -> (bit_at p : bitmap) ≡ bit_at old) /\
      events s' = events s ++ (if n =? 0 then [] else [SignalModifiedKey key; Notify NOTIFY_STRING "setbit" key]))) /\
  (forall o, view (sdb s) !! key = Some o -> type o <> OBJ_STRING ->
    runs m s (fun s' _ => replied (if negb (forallb is_get ops) && ro then refused else [shared_wrongtypeerr]) s s')).
Proof using.
  intros Hkey Hw Hops m refused. assert (Forall op_wf ops) as Hwf by (eapply Forall_impl; [exact Hops|]; unfold op_parsed; cbn; tauto). unfold m, bitfieldGeneric. split.
  - intros old Hs. destruct (string_at_wf _ _ _ Hs) as [Hb Hlen]. destruct (forallb is_get ops) eqn:Eg; [|destruct ro; [|destruct (ops_undefined cfg (bit_at old) ops) eqn:Hu]].
    1,2,4: apply runs_bind, runs_bitfield_args; [done|]; cbv beta iota; apply runs_bind, (runs_arg _ _ key); [done|]; rewrite Eg.
    4: apply bind_ends, runs_bitfield_args; [done|]; cbv beta iota; apply bind_ends, (runs_arg _ _ key); [done|]; rewrite Eg.
    + by apply runs_bitfield_read.
    + apply runs_bind, runs_reply_return. by split_and!.
    + by apply runs_bitfield_write.
    + by eapply bitfield_write_faults.
  - intros o Hk Ho. apply runs_bind, runs_bitfield_args; [done|]. cbv beta iota. apply runs_bind, (runs_arg _ _ key); [done|]. apply runs_bind.
    destruct (forallb is_get ops); [|destruct ro]; cbn [negb andb].
    + apply runs_bind, runs_read; [done..|]. intros d Hd Hv He. rewrite Hk. apply runs_bind. unfold checkType. rewrite bool_decide_false by done. apply runs_reply_return. by split_and!.
    + apply runs_reply_return. by split_and!.
    + apply runs_bind. apply runs_bind, runs_write; [done..|]. intros d Hd Hv He _. rewrite Hk. apply runs_bind. unfold checkType. rewrite bool_decide_false by done.
      apply runs_reply_return. by split_and!.
Qed.

End Command.

(** * Errors *)

Section Errors.
Context `{Host} {DB : Type} `{KeyspaceLaws DB} (cfg : config).

Lemma runs_wrong_type o (s : server DB) (Q : _ -> _ -> Prop) :
  type o <> OBJ_STRING -> Q (with_reply s shared_wrongtypeerr) None -> runs (checkType (Some o) OBJ_STRING) s Q.
Proof. intros Ho HQ. unfold checkType. rewrite bool_decide_eq_false_2 by done. by apply runs_reply_return. Qed.

(** a bitmap command on a key that holds another type replies with an error
    and leaves the database, the dirty counter and the events as they were. *)
Theorem bit_commands_wrong_type c key n on bit args ops o (s : server DB) :
  storable key -> db_wf (sdb s) -> view (sdb s) !! key = Some o -> type o <> OBJ_STRING -> offset_allowed cfg n -> Forall (op_parsed cfg) ops ->
  let refused := fun (s' : server DB) (r : option unit) => r = None /\ replied [shared_wrongtypeerr] s s' in
  runs (setbitCommand cfg [c; key; ll_repr n; ll_repr (Z.b2z on)]) s refused /\
  runs (getbitCommand cfg [c; key; ll_repr n]) s refused /\
  runs (bitcountCommand cfg (c :: key :: args)) s refused /\
  runs (bitposCommand cfg (c :: key :: ll_repr (Z.b2z bit) :: args)) s refused /\
  runs (bitfieldCommand cfg (c :: key :: render ops)) s refused.
Proof.
  intros Hkey Hw Hk Ho Hn Hops refused.
  assert (forall d, db_wf d -> view d = view (sdb s) -> expires d = expires (sdb s) ->
    refused (with_reply (with_db s d) shared_wrongtypeerr) None) as Hdone by (by intros; split_and!).
  split_and!.
  - apply runs_bind, (runs_arg _ _ (ll_repr n)); [done|]. apply runs_bind, runs_offset; [done|].
    apply runs_bind, (runs_argo _ _ (ll_repr (Z.b2z on))); [done|]. apply runs_bind.
    apply runs_bind, runs_repr; [zconst; destruct on; cbn; lia|].
    rewrite (proj2 (orb_false_iff _ _)) by (zconst; destruct on; cbn; split; done). apply runs_ret.
    assert (negb (Z.land (Z.b2z on) (Z.lnot 1) =? 0) = false) as -> by (by destruct on).
    apply runs_bind, (runs_arg _ _ key); [done|]. apply runs_bind. apply runs_bind, runs_write; [done..|]. intros d Hd Hv He _.
    rewrite Hk. apply runs_bind, runs_wrong_type; auto.
  - apply runs_bind, (runs_arg _ _ (ll_repr n)); [done|]. apply runs_bind, runs_offset; [done|].
    apply runs_bind, (runs_arg _ _ key); [done|]. apply runs_bind. apply runs_bind, runs_read; [done..|]. intros d Hd Hv He.
    rewrite Hk. apply runs_ret. apply runs_bind, runs_wrong_type; auto.
  - apply runs_bind, (runs_arg _ _ key); [done|]. apply runs_bind. apply runs_bind, runs_read; [done..|]. intros d Hd Hv He.
    rewrite Hk. apply runs_ret. apply runs_bind, runs_wrong_type; auto.
  - apply runs_bind, (runs_argo _ _ (ll_repr (Z.b2z bit))); [done|]. apply runs_bind.
    apply runs_bind, runs_repr; [zconst; destruct bit; cbn; lia|].
    rewrite (proj2 (orb_false_iff _ _)) by (zconst; destruct bit; cbn; split; done). apply runs_ret.
    assert (negb (Z.b2z bit =? 0) && negb (Z.b2z bit =? 1) = false) as -> by (by destruct bit).
    apply runs_bind, (runs_arg _ _ key); [done|]. apply runs_bind, runs_read; [done..|]. intros d Hd Hv He.
    rewrite Hk. apply runs_bind, runs_wrong_type; auto.
  - unfold bitfieldCommand, bitfieldGeneric. apply runs_bind. change (c :: key :: render ops) with ([c; key] ++ render ops). change 2 with (zlen [c; key]).
    apply runs_parse; [cbn; lia|done|lia|]. cbv beta iota. rewrite app_nil_l, andb_true_l.
    apply runs_bind, (runs_arg _ _ key); [done|]. apply runs_bind. destruct (forallb is_get ops).
    + apply runs_bind, runs_read; [done..|]. intros d Hd Hv He. rewrite Hk. apply runs_bind, runs_wrong_type; auto.
    + apply runs_bind. apply runs_bind, runs_write; [done..|]. intros d Hd Hv He _. rewrite Hk. apply runs_bind, runs_wrong_type; auto.
Qed.

End Errors.

(** * Behaviour at the limits *)

(** C27: a value to set that is far enough below the range of a signed field is
    taken for an overflow: the distance to the maximum does not fit 64 bits and
    wraps, so that saturation stores the maximum instead of the minimum. *)
Theorem set_saturates_wrong_way bits value :
  1 <= bits < 64 -> - 2 ^ 63 <= value -> 2 ^ 63 <= 2 ^ (bits - 1) - 1 - value ->
  value < - 2 ^ (bits - 1) /\
  checkSignedBitfieldOverflow true value 0 bits BFOVERFLOW_SAT = Ok (1, Some (2 ^ (bits - 1) - 1)).
Proof.
  intros Hb Hv Hd. assert (1 <= 2 ^ (bits - 1) <= 2 ^ 62) as Hp.
  { split; [change 1 with (2 ^ 0) at 1|]; apply Z.pow_le_mono_r; lia. }
  split; [lia|]. unfold checkSignedBitfieldOverflow, arith64. rewrite bind_Ok. zfalse (bits =? 64). rewrite Z.shiftl_1_l. cbv zeta.
  assert (wrapS 64 (2 ^ (bits - 1) - 1 - value) = 2 ^ (bits - 1) - 1 - value - 2 ^ 64) as ->.
  { unfold wrapS. change (64 - 1) with 63. rewrite <- (Z.mod_unique_pos (2 ^ (bits - 1) - 1 - value + 2 ^ 63) (2 ^ 64) 1 (2 ^ (bits - 1) - 1 - value + 2 ^ 63 - 2 ^ 64)) by lia. lia. }
  cbn [negb andb]. rewrite (proj2 (Z.gtb_lt 0 _)) by lia. by rewrite orb_true_r.
Qed.

Lemma set_saturates_wrong_way_witness :
  checkSignedBitfieldOverflow true (- 2 ^ 63) 0 8 BFOVERFLOW_SAT = Ok (1, Some 127).
Proof. apply (set_saturates_wrong_way 8 (- 2 ^ 63)); lia. Defined.

(** an offset given as a number of fields is multiplied by the width before the
    limit is checked, and the product wraps: an offset far beyond the limit is
    accepted and addresses the start of the string. *)
Theorem hash_offset_wraps :
  exists s', bitfieldCommand (DB := plain_db) (H := little_host) sample_config
      [chars "BITFIELD"; sample_key; chars "SET"; chars "u4"; chars "#4611686018427387904"; chars "5"] empty_server = Ok (s', Some tt) /\
    reply s' = [ReplyArrayLen 1; ReplyInteger 0] /\ view (sdb s') !! sample_key = Some (createRawStringObject [0x50]).
Proof. eexists. by vm_compute. Qed.

(** BITFIELD creates or extends the string before it runs its subcommands: when
    all of them fail, the key has been created, but nothing is counted as a change
    or announced, so that replicas and the AOF do not see the write. *)
Theorem bitfield_fail_creates_key :
  exists s', bitfieldCommand (DB := plain_db) (H := little_host) sample_config
      [chars "BITFIELD"; sample_key; chars "OVERFLOW"; chars "FAIL"; chars "INCRBY"; chars "u2"; chars "100"; chars "4"]
      empty_server = Ok (s', Some tt) /\
    reply s' = [ReplyArrayLen 1; ReplyNull] /\ dirty s' = 0 /\ events s' = [] /\
    view (sdb empty_server) !! sample_key = None /\
    view (sdb s') !! sample_key = Some (createRawStringObject (replicate 13 0)).
Proof. eexists. by vm_compute. Qed.

Definition sample_ops : list bitfieldOp :=
  [BitfieldOp 4 100 BITFIELDOP_INCRBY BFOVERFLOW_SAT 8 true; BitfieldOp 20 0 BITFIELDOP_GET BFOVERFLOW_WRAP 16 false;
   BitfieldOp 30 5 BITFIELDOP_SET BFOVERFLOW_FAIL 3 false].

Lemma sample_ops_parsed : Forall (op_parsed sample_config) sample_ops.
Proof.
  unfold sample_ops, op_parsed, op_wf, offset_allowed. zconst. cbn. forall_list; cbn; split_and!; try done; try lia; right; done.
Qed.

Lemma bitfieldGeneric_correct_witness :
  exists s' r, bitfieldGeneric (DB := plain_db) (H := little_host) sample_config
      (chars "BITFIELD" :: sample_key :: render sample_ops) false sample_server = Ok (s', r) /\
    reply s' = [ReplyArrayLen 3; ReplyInteger 92; ReplyInteger 57344; ReplyInteger 0].
Proof.
  destruct (bitfieldGeneric_correct (DB := plain_db) (H := little_host) sample_config (chars "BITFIELD") sample_key sample_ops false
    sample_server ltac:(exact I) ltac:(exact I) sample_ops_parsed) as [Hall _].
  destruct (Hall _ sample_string) as (s' & r & E & p & _ & _ & _ & _ & _ & _ & Hr & _).
  exists s', r. split; [exact E|]. rewrite Hr. by vm_compute.
Defined.

Lemma bit_commands_wrong_type_witness :
  exists s', getbitCommand (DB := plain_db) (H := little_host) sample_config [chars "GETBIT"; sample_key; ll_repr 7]
      (Server ({[sample_key := ROther OBJ_LIST 1]}, ∅) [] 0 []) = Ok (s', None) /\ reply s' = [shared_wrongtypeerr].
Proof.
  destruct (bit_commands_wrong_type (DB := plain_db) (H := little_host) sample_config (chars "GETBIT") sample_key 7 true true [] sample_ops (ROther OBJ_LIST 1)
    (Server ({[sample_key := ROther OBJ_LIST 1]}, ∅) [] 0 []) ltac:(exact I) ltac:(exact I) eq_refl ltac:(done) ltac:(split; [lia|by right]) sample_ops_parsed)
    as (_ & (s' & r & E & -> & _ & _ & _ & Hr & _) & _).
  exists s'. split; [exact E|exact Hr].
Defined.
