(* ===== verification/StringCommands.v ===== *)
(** The string commands of t_string.c.

    SET with its options and variants, GET and its variants, the commands on
    ranges of a string, the ones on several keys, and the counters, each as the
    whole handler on the server state of [Object].  A command that is not
    propagated as it was received raises a [RewriteVector] or [RewriteArgument]
    event.  INCRBYFLOAT, which needs long double arithmetic, is left out; LCS is in
    [Lcs]. *)
From S2P Require Import Prelude Endian Util Glob Sds Object.
From stdpp Require Import gmap list strings.

Open Scope Z_scope.

(** * Definitions *)

(** The bits of the flags of SET and GETEX. *)
Record flags := Flags {
  OBJ_SET_NX : bool;
  OBJ_SET_XX : bool;
  OBJ_EX : bool;
  OBJ_PX : bool;
  OBJ_KEEPTTL : bool;
  OBJ_SET_GET : bool;
  OBJ_EXAT : bool;
  OBJ_PXAT : bool;
  OBJ_PERSIST : bool;
}.

Definition OBJ_NO_FLAGS : flags := Flags false false false false false false false false false.

(** [flags |= OBJ_...] *)
Definition or_nx (f : flags) : flags := let 'Flags nx xx ex px kt gt ea pa ps := f in Flags true xx ex px kt gt ea pa ps.
Definition or_xx (f : flags) : flags := let 'Flags nx xx ex px kt gt ea pa ps := f in Flags nx true ex px kt gt ea pa ps.
Definition or_ex (f : flags) : flags := let 'Flags nx xx ex px kt gt ea pa ps := f in Flags nx xx true px kt gt ea pa ps.
Definition or_px (f : flags) : flags := let 'Flags nx xx ex px kt gt ea pa ps := f in Flags nx xx ex true kt gt ea pa ps.
Definition or_keepttl (f : flags) : flags := let 'Flags nx xx ex px kt gt ea pa ps := f in Flags nx xx ex px true gt ea pa ps.
Definition or_get (f : flags) : flags := let 'Flags nx xx ex px kt gt ea pa ps := f in Flags nx xx ex px kt true ea pa ps.
Definition or_exat (f : flags) : flags := let 'Flags nx xx ex px kt gt ea pa ps := f in Flags nx xx ex px kt gt true pa ps.
Definition or_pxat (f : flags) : flags := let 'Flags nx xx ex px kt gt ea pa ps := f in Flags nx xx ex px kt gt ea true ps.
Definition or_persist (f : flags) : flags := let 'Flags nx xx ex px kt gt ea pa ps := f in Flags nx xx ex px kt gt ea pa true.

Inductive time_unit := UNIT_SECONDS | UNIT_MILLISECONDS.

#[export] Instance time_unit_eq_dec : EqDecision time_unit.
Proof. solve_decision. Defined.

Inductive command_type := COMMAND_GET | COMMAND_SET.

#[export] Instance command_type_eq_dec : EqDecision command_type.
Proof. solve_decision. Defined.

Definition expire_err (name : String.string) : reply_item :=
  ReplyError ("invalid expire time in '" +:+ name +:+ "' command")%string.
Definition arity_err (name : String.string) : reply_item :=
  ReplyError ("wrong number of arguments for '" +:+ name +:+ "' command")%string.
Definition too_long_err : reply_item := ReplyError "string exceeds maximum allowed size (proto-max-bulk-len)".

(** The command names of a rewritten command. *)
Definition shared_set : robj := createStringObject (chars "SET").
Definition shared_pxat : robj := createStringObject (chars "PXAT").
Definition shared_del : robj := createStringObject (chars "DEL").
Definition shared_unlink : robj := createStringObject (chars "UNLINK").
Definition shared_pexpireat : robj := createStringObject (chars "PEXPIREAT").
Definition shared_persist : robj := createStringObject (chars "PERSIST").

Section StringCommands.
Context `{Host} {DB : Type} `{Keyspace DB} (cfg : config).

(** The command continues only when the size is allowed. *)
Definition checkStringLength (size : Z) : cmd DB unit :=
  if negb (mustObeyClient cfg) && (size >? proto_max_bulk_len cfg) then reply_and_return too_long_err else mret tt.

(** ** Options *)

Definition getExpireMillisecondsOrReply (name : String.string) (expire : list Z) (f : flags) (unit : time_unit) : cmd DB Z :=
  milliseconds ← getLongLongFromObjectOrReply (Some (createStringObject expire)) None;
  if (milliseconds <=? 0) || (bool_decide (unit = UNIT_SECONDS) && (milliseconds >? INT64_MAX / 1000))
  then reply_and_return (expire_err name)
  else
    let milliseconds := if bool_decide (unit = UNIT_SECONDS) then milliseconds * 1000 else milliseconds in
    milliseconds ← (if OBJ_PX f || OBJ_EX f
                    then lift (arith64 (fwrapv cfg) (milliseconds + mstime cfg))
                    else mret milliseconds);
    if milliseconds <=? 0 then reply_and_return (expire_err name) else mret milliseconds.

(** The loop over the options, from [j] on: [args] is the rest of the arguments.
    Comparing the characters of an option up to its terminator is [strcasecmp]
    with the option name. *)
Fixpoint parse_options (command : command_type) (args : list (list Z)) (f : flags) (unit : time_unit) (expire : option (list Z))
  : cmd DB (flags * time_unit * option (list Z)) :=
  let set := bool_decide (command = COMMAND_SET) in
  let get := bool_decide (command = COMMAND_GET) in
  match args with
  | [] => mret (f, unit, expire)
  | opt :: rest =>
      if strcase_eq opt "nx" && negb (OBJ_SET_XX f) && set then parse_options command rest (or_nx f) unit expire
      else if strcase_eq opt "xx" && negb (OBJ_SET_NX f) && set then parse_options command rest (or_xx f) unit expire
      else if strcase_eq opt "get" && set then parse_options command rest (or_get f) unit expire
      else if strcase_eq opt "KEEPTTL" && negb (OBJ_PERSIST f) && negb (OBJ_EX f) && negb (OBJ_EXAT f) &&
              negb (OBJ_PX f) && negb (OBJ_PXAT f) && set
      then parse_options command rest (or_keepttl f) unit expire
      else if strcase_eq opt "PERSIST" && get && negb (OBJ_EX f) && negb (OBJ_EXAT f) && negb (OBJ_PX f) &&
              negb (OBJ_PXAT f) && negb (OBJ_KEEPTTL f)
      then parse_options command rest (or_persist f) unit expire
      else
        match rest with
        | next :: rest =>
            if strcase_eq opt "ex" && negb (OBJ_KEEPTTL f) && negb (OBJ_PERSIST f) && negb (OBJ_EXAT f) &&
               negb (OBJ_PX f) && negb (OBJ_PXAT f)
            then parse_options command rest (or_ex f) unit (Some next)
            else if strcase_eq opt "px" && negb (OBJ_KEEPTTL f) && negb (OBJ_PERSIST f) && negb (OBJ_EX f) &&
                    negb (OBJ_EXAT f) && negb (OBJ_PXAT f)
            then parse_options command rest (or_px f) UNIT_MILLISECONDS (Some next)
            else if strcase_eq opt "exat" && negb (OBJ_KEEPTTL f) && negb (OBJ_PERSIST f) && negb (OBJ_EX f) &&
                    negb (OBJ_PX f) && negb (OBJ_PXAT f)
            then parse_options command rest (or_exat f) unit (Some next)
            else if strcase_eq opt "pxat" && negb (OBJ_KEEPTTL f) && negb (OBJ_PERSIST f) && negb (OBJ_EX f) &&
                    negb (OBJ_EXAT f) && negb (OBJ_PX f)
            then parse_options command rest (or_pxat f) UNIT_MILLISECONDS (Some next)
            else reply_and_return shared_syntaxerr
        | [] => reply_and_return shared_syntaxerr
        end
  end.

Definition parseExtendedStringArgumentsOrReply (argv : list (list Z)) (command : command_type)
  : cmd DB (flags * time_unit * option (list Z)) :=
  let j := match command with COMMAND_GET => 2%nat | COMMAND_SET => 3%nat end in
  parse_options command (drop j argv) OBJ_NO_FLAGS UNIT_SECONDS None.

(** ** GET *)

(** [true] is [C_OK]. *)
Definition getGenericCommand (argv : list (list Z)) : cmd DB bool :=
  key ← arg argv 1;
  o ← on_db (lookupKeyRead key);
  match o with
  | None => addReply ReplyNull;; mret true
  | Some o =>
      if negb (bool_decide (type o = OBJ_STRING)) then addReply shared_wrongtypeerr;; mret false
      else addReplyBulk o;; mret true
  end.

Definition getCommand (argv : list (list Z)) : cmd DB unit := getGenericCommand argv;; mret tt.

(** ** SET *)

(** The arguments but the GET options: every argument from the third on is a
    string.  [size] is the room in the new vector. *)
Fixpoint strip_get (j : Z) (argv : list robj) (size : Z) : res (list robj) :=
  match argv with
  | [] => Ok []
  | a :: rest =>
      skip ← (if j >=? 3 then match a with RString _ _ s => Ok (strcase_eq s "get") | _ => Fault end else Ok false);
      if (skip : bool) then strip_get (j + 1) rest size
      else inbounds! (0 <? size); l ← strip_get (j + 1) rest (size - 1); Ok (a :: l)
  end.

(** [argv] is the vector of the client, with the value encoded. *)
Definition setGenericCommand (name : String.string) (cargv : list (list Z)) (argv : list robj) (f : flags) (key : list Z) (val : robj)
    (expire : option (list Z)) (unit : time_unit) (ok_reply abort_reply : option reply_item) : cmd DB () :=
  milliseconds ← match expire with
                 | Some e => getExpireMillisecondsOrReply name e f unit
                 | None => mret 0
                 end;
  (if OBJ_SET_GET f then ok ← getGenericCommand cargv; if (ok : bool) then mret tt else return_early else mret tt);;
  o ← on_db (lookupKeyWrite key);
  let found := bool_decide (is_Some o) in
  if (OBJ_SET_NX f && found) || (OBJ_SET_XX f && negb found) then
    if negb (OBJ_SET_GET f) then addReply (default ReplyNull abort_reply) else mret tt
  else
    setKey key val (OBJ_KEEPTTL f) (Some found);;
    add_dirty 1;;
    notifyKeyspaceEvent NOTIFY_STRING "set" key;;
    match expire with
    | Some _ =>
        on_db (setExpire key milliseconds);;
        milliseconds_obj ← lift (createStringObjectFromLongLong cfg milliseconds);
        rewriteClientCommandVector [shared_set; createStringObject key; val; shared_pxat; milliseconds_obj];;
        notifyKeyspaceEvent NOTIFY_GENERIC "expire" key
    | None => mret tt
    end;;
    (if negb (OBJ_SET_GET f) then addReply (default shared_ok ok_reply) else mret tt);;
    if OBJ_SET_GET f && negb (bool_decide (is_Some expire)) then
      argv ← lift (strip_get 0 argv (zlen argv - 1));
      rewriteClientCommandVector argv
    else mret tt.

(** [c->argv[i] = tryObjectEncoding(c->argv[i])]: the object, and the vector. *)
Definition encode_arg (cargv : list (list Z)) (i : Z) : cmd DB (robj * list robj) :=
  s ← arg cargv i;
  o ← lift (tryObjectEncoding cfg (createStringObject s));
  mret (o, <[Z.to_nat i := o]> (createStringObject <$> cargv)).

Definition setCommand (argv : list (list Z)) : cmd DB unit :=
  '(f, unit, expire) ← parseExtendedStringArgumentsOrReply argv COMMAND_SET;
  '(val, oargv) ← encode_arg argv 2;
  key ← arg argv 1;
  setGenericCommand "set" argv oargv f key val expire unit None None.

Definition setnxCommand (argv : list (list Z)) : cmd DB unit :=
  '(val, oargv) ← encode_arg argv 2;
  key ← arg argv 1;
  setGenericCommand "setnx" argv oargv (or_nx OBJ_NO_FLAGS) key val None UNIT_SECONDS (Some shared_cone) (Some shared_czero).

Definition setexCommand (argv : list (list Z)) : cmd DB unit :=
  '(val, oargv) ← encode_arg argv 3;
  key ← arg argv 1;
  expire ← arg argv 2;
  setGenericCommand "setex" argv oargv (or_ex OBJ_NO_FLAGS) key val (Some expire) UNIT_SECONDS None None.

Definition psetexCommand (argv : list (list Z)) : cmd DB unit :=
  '(val, oargv) ← encode_arg argv 3;
  key ← arg argv 1;
  expire ← arg argv 2;
  setGenericCommand "psetex" argv oargv (or_px OBJ_NO_FLAGS) key val (Some expire) UNIT_MILLISECONDS None None.

(** ** Variants of GET *)

Definition checkAlreadyExpired (when : Z) : bool := (when <=? mstime cfg) && negb (loading_or_replica cfg).

Definition getexCommand (argv : list (list Z)) : cmd DB unit :=
  '(f, unit, expire) ← parseExtendedStringArgumentsOrReply argv COMMAND_GET;
  key ← arg argv 1;
  o ← lookupKeyReadOrReply key ReplyNull;
  checkType (Some o) OBJ_STRING;;
  milliseconds ← match expire with
                 | Some e => getExpireMillisecondsOrReply "getex" e f unit
                 | None => mret 0
                 end;
  addReplyBulk o;;
  if (OBJ_PXAT f || OBJ_EXAT f) && checkAlreadyExpired milliseconds then
    deleted ← on_db (if lazyfree_lazy_expire cfg then dbAsyncDelete key else dbSyncDelete key);
    if negb deleted then lift Panic
    else
      rewriteClientCommandVector [if lazyfree_lazy_expire cfg then shared_unlink else shared_del; createStringObject key];;
      signalModifiedKey key;;
      notifyKeyspaceEvent NOTIFY_GENERIC "del" key;;
      add_dirty 1
  else
    match expire with
    | Some _ =>
        on_db (setExpire key milliseconds);;
        milliseconds_obj ← lift (createStringObjectFromLongLong cfg milliseconds);
        rewriteClientCommandVector [shared_pexpireat; createStringObject key; milliseconds_obj];;
        signalModifiedKey key;;
        notifyKeyspaceEvent NOTIFY_GENERIC "expire" key;;
        add_dirty 1
    | None =>
        if OBJ_PERSIST f then
          removed ← on_db (removeExpire key);
          if (removed : bool) then
            signalModifiedKey key;;
            rewriteClientCommandVector [shared_persist; createStringObject key];;
            notifyKeyspaceEvent NOTIFY_GENERIC "persist" key;;
            add_dirty 1
          else mret tt
        else mret tt
    end.

Definition getdelCommand (argv : list (list Z)) : cmd DB unit :=
  ok ← getGenericCommand argv;
  if negb ok then return_early
  else
    key ← arg argv 1;
    deleted ← on_db (if lazyfree_lazy_user_del cfg then dbAsyncDelete key else dbSyncDelete key);
    if (deleted : bool) then
      rewriteClientCommandVector [if lazyfree_lazy_user_del cfg then shared_unlink else shared_del; createStringObject key];;
      signalModifiedKey key;;
      notifyKeyspaceEvent NOTIFY_GENERIC "del" key;;
      add_dirty 1
    else mret tt.

Definition getsetCommand (argv : list (list Z)) : cmd DB unit :=
  ok ← getGenericCommand argv;
  if negb ok then return_early
  else
    '(val, _) ← encode_arg argv 2;
    key ← arg argv 1;
    setKey key val false None;;
    notifyKeyspaceEvent NOTIFY_STRING "set" key;;
    add_dirty 1;;
    rewriteClientCommandArgument 0 shared_set.

(** ** Ranges *)

(** [offset+sdslen(value)] is a [size_t]; [checkStringLength] takes a
    [long long]. *)
Definition setrangeCommand (argv : list (list Z)) : cmd DB unit :=
  value ← arg argv 3;
  a ← argo argv 2;
  offset ← getLongFromObjectOrReply a None;
  if offset <? 0 then reply_and_return (ReplyError "offset is out of range")
  else
    key ← arg argv 1;
    let size := wrapU 64 (offset + zlen value) in
    o ← on_db (lookupKeyWrite key);
    o ← match o with
        | None =>
            if zlen value =? 0 then reply_and_return shared_czero
            else
              checkStringLength (wrapS 64 size);;
              lift (sds_alloc cfg size);;
              let o := createRawStringObject (sdsnewlen_zero size) in
              on_db (dbAdd key o);;
              mret o
        | Some o =>
            checkType (Some o) OBJ_STRING;;
            olen ← lift (stringObjectLen o);
            if zlen value =? 0 then reply_and_return (ReplyInteger olen)
            else
              checkStringLength (wrapS 64 size);;
              dbUnshareStringValue key o
        end;
    o ← (if zlen value >? 0 then
           s ← sds_of o;
           (if size >? zlen s then lift (sds_alloc cfg size) else mret tt);;
           s ← lift (wr (sdsgrowzero_bytes s size) offset value);
           o ← set_ptr key o s;
           signalModifiedKey key;;
           notifyKeyspaceEvent NOTIFY_STRING "setrange" key;;
           add_dirty 1;;
           mret o
         else mret o);
    s ← sds_of o;
    addReply (ReplyInteger (zlen s)).

Definition getrangeCommand (argv : list (list Z)) : cmd DB unit :=
  a ← argo argv 2;
  start ← getLongLongFromObjectOrReply a None;
  a ← argo argv 3;
  end_ ← getLongLongFromObjectOrReply a None;
  key ← arg argv 1;
  o ← lookupKeyReadOrReply key shared_emptybulk;
  checkType (Some o) OBJ_STRING;;
  str ← match o with
        | RInt _ v => lift (ll_text 32 v)
        | _ => sds_of o
        end;
  let strlen := zlen str in
  if (start <? 0) && (end_ <? 0) && (start >? end_) then reply_and_return shared_emptybulk
  else
    let start := if start <? 0 then wrapS 64 (strlen + start) else start in
    let end_ := if end_ <? 0 then wrapS 64 (strlen + end_) else end_ in
    let start := if start <? 0 then 0 else start in
    let end_ := if end_ <? 0 then 0 else end_ in
    let end_ := if wrapU 64 end_ >=? strlen then wrapS 64 (strlen - 1) else end_ in
    if (start >? end_) || (strlen =? 0) then addReply shared_emptybulk
    else
      s ← lift (rd str start (end_ - start + 1));
      addReply (ReplyBulk s).

Definition appendCommand (argv : list (list Z)) : cmd DB unit :=
  key ← arg argv 1;
  append ← arg argv 2;
  o ← on_db (lookupKeyWrite key);
  totlen ← match o with
           | None =>
               '(val, _) ← encode_arg argv 2;
               on_db (dbAdd key val);;
               lift (stringObjectLen val)
           | Some o =>
               checkType (Some o) OBJ_STRING;;
               olen ← lift (stringObjectLen o);
               checkStringLength (wrapS 64 (wrapU 64 (olen + zlen append)));;
               o ← dbUnshareStringValue key o;
               s ← sds_of o;
               lift (sds_alloc cfg (zlen s + zlen append));;
               o ← set_ptr key o (s ++ append);
               s ← sds_of o;
               mret (zlen s)
           end;
  signalModifiedKey key;;
  notifyKeyspaceEvent NOTIFY_STRING "append" key;;
  add_dirty 1;;
  addReply (ReplyInteger totlen).

Definition strlenCommand (argv : list (list Z)) : cmd DB unit :=
  key ← arg argv 1;
  o ← lookupKeyReadOrReply key shared_czero;
  checkType (Some o) OBJ_STRING;;
  len ← lift (stringObjectLen o);
  addReply (ReplyInteger len).

(** ** Several keys *)

Fixpoint mget_loop (keys : list (list Z)) : cmd DB unit :=
  match keys with
  | [] => mret tt
  | key :: keys =>
      o ← on_db (lookupKeyRead key);
      match o with
      | None => addReply ReplyNull
      | Some o => if negb (bool_decide (type o = OBJ_STRING)) then addReply ReplyNull else addReplyBulk o
      end;;
      mget_loop keys
  end.

Definition mgetCommand (argv : list (list Z)) : cmd DB unit :=
  addReply (ReplyArrayLen (zlen argv - 1));;
  mget_loop (drop 1 argv).

(** Returns when one of the keys exists. *)
Fixpoint msetnx_loop (args : list (list Z)) : cmd DB unit :=
  match args with
  | key :: args =>
      o ← on_db (lookupKeyWrite key);
      match o with
      | Some _ => reply_and_return shared_czero
      | None => match args with _ :: args => msetnx_loop args | [] => mret tt end
      end
  | [] => mret tt
  end.

Fixpoint mset_loop (args : list (list Z)) : cmd DB unit :=
  match args with
  | [] => mret tt
  | key :: value :: args =>
      val ← lift (tryObjectEncoding cfg (createStringObject value));
      setKey key val false None;;
      notifyKeyspaceEvent NOTIFY_STRING "set" key;;
      mset_loop args
  | [_] => lift Fault
  end.

Definition msetGenericCommand (name : String.string) (argv : list (list Z)) (nx : bool) : cmd DB unit :=
  if zlen argv `mod` 2 =? 0 then reply_and_return (arity_err name)
  else
    (if nx then msetnx_loop (drop 1 argv) else mret tt);;
    mset_loop (drop 1 argv);;
    add_dirty ((zlen argv - 1) / 2);;
    addReply (if nx then shared_cone else shared_ok).

Definition msetCommand (argv : list (list Z)) : cmd DB unit := msetGenericCommand "mset" argv false.

Definition msetnxCommand (argv : list (list Z)) : cmd DB unit := msetGenericCommand "msetnx" argv true.

(** ** Counters *)

Definition incrDecrCommand (argv : list (list Z)) (incr : Z) : cmd DB unit :=
  key ← arg argv 1;
  o ← on_db (lookupKeyWrite key);
  checkType o OBJ_STRING;;
  oldvalue ← getLongLongFromObjectOrReply o None;
  if ((incr <? 0) && (oldvalue <? 0) && (incr <? INT64_MIN - oldvalue)) ||
     ((incr >? 0) && (oldvalue >? 0) && (incr >? INT64_MAX - oldvalue))
  then reply_and_return (ReplyError "increment or decrement would overflow")
  else
    value ← lift (sint 64 (oldvalue + incr));
    match o with
    | Some (RInt 1 _) =>
        if ((value <? 0) || (value >=? OBJ_SHARED_INTEGERS)) && (value >=? INT64_MIN) && (value <=? INT64_MAX)
        then on_db (write_object key (RInt 1 value))
        else new ← lift (createStringObjectFromLongLongForValue cfg value); on_db (dbOverwrite key new)
    | Some _ => new ← lift (createStringObjectFromLongLongForValue cfg value); on_db (dbOverwrite key new)
    | None => new ← lift (createStringObjectFromLongLongForValue cfg value); on_db (dbAdd key new)
    end;;
    signalModifiedKey key;;
    notifyKeyspaceEvent NOTIFY_STRING "incrby" key;;
    add_dirty 1;;
    addReply (ReplyInteger value).

Definition incrCommand (argv : list (list Z)) : cmd DB unit := incrDecrCommand argv 1.

Definition decrCommand (argv : list (list Z)) : cmd DB unit := incrDecrCommand argv (-1).

Definition incrbyCommand (argv : list (list Z)) : cmd DB unit :=
  a ← argo argv 2;
  incr ← getLongLongFromObjectOrReply a None;
  incrDecrCommand argv incr.

Definition decrbyCommand (argv : list (list Z)) : cmd DB unit :=
  a ← argo argv 2;
  incr ← getLongLongFromObjectOrReply a None;
  if incr =? INT64_MIN then reply_and_return (ReplyError "decrement would overflow")
  else incrDecrCommand argv (- incr).

End StringCommands.

(** * Specification *)

(** An object that stands for a string. *)
Definition stands_for (s : list Z) (o : robj) : Prop := obj_wf o /\ obj_str o = Some s.

(** The integer a text denotes, in the only notation that is accepted. *)
Definition number (e : list Z) : option Z :=
  match string2ll e (zlen e) with Ok r => r | _ => None end.

(** *** Options *)

Inductive ttl_kind := KEEPTTL | PERSIST | EX | PX | EXAT | PXAT.

#[export] Instance ttl_kind_eq_dec : EqDecision ttl_kind.
Proof. solve_decision. Defined.

Inductive option_ := ONx | OXx | OGet | OTtl (k : ttl_kind) (e : list Z).

Definition kind_name (k : ttl_kind) : String.string :=
  match k with
  | KEEPTTL => "keepttl" | PERSIST => "persist" | EX => "ex" | PX => "px" | EXAT => "exat" | PXAT => "pxat"
  end.

Definition has_time (k : ttl_kind) : bool := match k with KEEPTTL | PERSIST => false | _ => true end.

(** The arguments that spell an option, in any letter case. *)
Definition spells (o : option_) (args : list (list Z)) : Prop :=
  match o, args with
  | ONx, [w] => strcase_eq w "nx" = true
  | OXx, [w] => strcase_eq w "xx" = true
  | OGet, [w] => strcase_eq w "get" = true
  | OTtl k e, [w] => strcase_eq w (kind_name k) = true /\ has_time k = false
  | OTtl k e, [w; e'] => strcase_eq w (kind_name k) = true /\ has_time k = true /\ e' = e
  | _, _ => False
  end.

(** The options each command knows. *)
Definition known (c : command_type) (o : option_) : bool :=
  match c, o with
  | COMMAND_SET, OTtl PERSIST _ => false
  | COMMAND_SET, _ => true
  | COMMAND_GET, OTtl KEEPTTL _ => false
  | COMMAND_GET, OTtl _ _ => true
  | COMMAND_GET, _ => false
  end.

Definition has_nx (opts : list option_) : bool := existsb (fun o => match o with ONx => true | _ => false end) opts.
Definition has_xx (opts : list option_) : bool := existsb (fun o => match o with OXx => true | _ => false end) opts.
Definition has_get (opts : list option_) : bool := existsb (fun o => match o with OGet => true | _ => false end) opts.
Definition has_kind (k : ttl_kind) (opts : list option_) : bool :=
  existsb (fun o => match o with OTtl k' _ => bool_decide (k' = k) | _ => false end) opts.

(** The last time given. *)
Definition time_arg (opts : list option_) : option (list Z) :=
  foldl (fun e o => match o with OTtl k e' => if has_time k then Some e' else e | _ => e end) None opts.

(** NX excludes XX, and the options on the time to live exclude each other. *)
Definition consistent (opts : list option_) : Prop :=
  (has_nx opts && has_xx opts = false) /\
  forall k k', has_kind k opts = true -> has_kind k' opts = true -> k = k'.

(** An option that can follow the ones before it. *)
Definition allowed (pre : list option_) (o : option_) : bool :=
  match o with
  | ONx => negb (has_xx pre)
  | OXx => negb (has_nx pre)
  | OGet => true
  | OTtl k _ => forallb (fun k' => bool_decide (k' = k) || negb (has_kind k' pre)) [KEEPTTL; PERSIST; EX; EXAT; PX; PXAT]
  end.

Definition flags_of (opts : list option_) : flags :=
  Flags (has_nx opts) (has_xx opts) (has_kind EX opts) (has_kind PX opts) (has_kind KEEPTTL opts) (has_get opts)
    (has_kind EXAT opts) (has_kind PXAT opts) (has_kind PERSIST opts).

Definition unit_of (opts : list option_) : time_unit :=
  if has_kind PX opts || has_kind PXAT opts then UNIT_MILLISECONDS else UNIT_SECONDS.

(** *** Expire times *)

Inductive expire_outcome := NoExpire | At (t : Z) | NotInteger | BadTime.

(** The absolute time in milliseconds a number means. *)
Definition absolute (now : Z) (unit : time_unit) (relative : bool) (v : Z) : option Z :=
  let ms := match unit with UNIT_SECONDS => v * 1000 | UNIT_MILLISECONDS => v end in
  let t := if relative then ms + now else ms in
  if (v <=? 0) || (ms >? INT64_MAX) || (t >? INT64_MAX) then None else Some t.

Definition expire_outcome_of (now : Z) (unit : time_unit) (relative : bool) (e : option (list Z)) : expire_outcome :=
  match e with
  | None => NoExpire
  | Some e =>
      match number e with
      | None => NotInteger
      | Some v => match absolute now unit relative v with Some t => At t | None => BadTime end
      end
  end.

(** The sum of the clock and a relative time leaves 64 bits, in a program that was not
    compiled to wrap such sums: undefined behaviour. *)
Definition undefined_sum (cfg : config) (unit : time_unit) (relative : bool) (e : option (list Z)) : bool :=
  negb (fwrapv cfg) && relative &&
  match e ≫= number with
  | Some v =>
      let ms := match unit with UNIT_SECONDS => v * 1000 | UNIT_MILLISECONDS => v end in
      (0 <? v) && (ms <=? INT64_MAX) && (ms + mstime cfg >? INT64_MAX)
  | None => false
  end.

Definition integer_err : reply_item := ReplyError "value is not an integer or out of range".

(** The error an expire time is answered with. *)
Definition expire_error (name : String.string) (x : expire_outcome) : option reply_item :=
  match x with
  | NotInteger => Some integer_err
  | BadTime => Some (expire_err name)
  | _ => None
  end.

Definition time_of (x : expire_outcome) : Z := match x with At t => t | _ => 0 end.

(** The command knows its options and they can go together. *)
Definition valid (c : command_type) (opts : list option_) : Prop := Forall (fun o => known c o = true) opts /\ consistent opts.

(** *** The effect of SET *)

(** What GET answers. *)
Definition get_reply (old : option robj) : reply_item :=
  match old with
  | None => ReplyNull
  | Some o => match obj_str o with Some t => ReplyBulk t | None => shared_wrongtypeerr end
  end.

Definition wrong_type (old : option robj) : bool :=
  match old with Some (ROther _ _) => true | _ => false end.

Section SetSpec.
Context {DB : Type} `{KeyspaceLaws DB} (cfg : config).

(** The key holds the object, with the expire time given, the old one or none; a
    key whose time is over already is gone. *)
Definition key_set (key : list Z) (o : robj) (keepttl : bool) (x : expire_outcome) (s s' : server DB) : Prop :=
  db_wf (sdb s') /\
  match x with
  | At t =>
      if expired t
      then view (sdb s') = delete key (view (sdb s)) /\ expires (sdb s') = delete key (expires (sdb s))
      else view (sdb s') = <[key := o]> (view (sdb s)) /\ expires (sdb s') = <[key := t]> (expires (sdb s))
  | _ =>
      view (sdb s') = <[key := o]> (view (sdb s)) /\
      expires (sdb s') = if keepttl then expires (sdb s) else delete key (expires (sdb s))
  end.

(** The events of SET: a relative time is propagated as an absolute one, and the
    GET options are left out. *)
Definition set_events (key : list Z) (val : robj) (x : expire_outcome) (stripped : option (list robj)) (evs : list event) : Prop :=
  exists rewrites, evs = [SignalModifiedKey key; Notify NOTIFY_STRING "set" key] ++ rewrites /\
    match x with
    | At t => exists ms, stands_for (ll_repr t) ms /\
        rewrites = [RewriteVector [shared_set; createStringObject key; val; shared_pxat; ms]; Notify NOTIFY_GENERIC "expire" key]
    | _ => rewrites = match stripped with Some argv => [RewriteVector argv] | None => [] end
    end.

(** SET answers an expire time it cannot use with an error, and with GET a key of
    another type; it does nothing when NX or XX forbid it; otherwise it sets the
    key. *)
Definition set_outcome (name : String.string) (key : list Z) (val : robj) (f : flags) (x : expire_outcome)
    (ok_reply abort_reply : reply_item) (stripped : option (list robj)) (s s' : server DB) : Prop :=
  let old := view (sdb s) !! key in
  match expire_error name x with
  | Some e => replied [e] s s'
  | None =>
      if OBJ_SET_GET f && wrong_type old then replied [shared_wrongtypeerr] s s'
      else if (OBJ_SET_NX f && bool_decide (is_Some old)) || (OBJ_SET_XX f && bool_decide (old = None)) then
        replied [if OBJ_SET_GET f then get_reply old else abort_reply] s s'
      else
        key_set key val (OBJ_KEEPTTL f) x s s' /\
        reply s' = reply s ++ [if OBJ_SET_GET f then get_reply old else ok_reply] /\
        dirty s' = dirty s + 1 /\
        exists evs, events s' = events s ++ evs /\ set_events key val x stripped evs
  end.

End SetSpec.

(** Arguments without the GET options. *)
Definition no_get (args : list (list Z)) : list (list Z) := filter (fun a => strcase_eq a "get" = false) args.

(** The vector SET with GET and no time is propagated as. *)
Definition set_stripped (c key : list Z) (o : robj) (args : list (list Z)) (opts : list option_) : option (list robj) :=
  if has_get opts && negb (bool_decide (is_Some (time_arg opts)))
  then Some (createStringObject c :: createStringObject key :: o :: (createStringObject <$> no_get args)) else None.

(** The command that is propagated: the arguments as they have been rewritten. *)
Definition obj_text (o : robj) : list Z := default [] (obj_str o).

Definition replayed (argv : list (list Z)) (evs : list event) : list (list Z) :=
  foldl (fun argv e => match e with
    | RewriteVector argv' => obj_text <$> argv'
    | RewriteArgument i o => <[Z.to_nat i := obj_text o]> argv
    | _ => argv
    end) argv evs.

(** * Lemmas *)

Lemma number_ok e : string2ll e (zlen e) = Ok (number e).
Proof. unfold number. by destruct (string2ll_ok e) as (r & -> & _). Qed.

Lemma number_range e v : number e = Some v -> INT64_MIN <= v <= INT64_MAX /\ e = ll_repr v.
Proof. unfold number. destruct (string2ll_ok e) as (r & -> & Hr). intros ->. by apply Hr. Qed.

Lemma shared_integer_stands v : 0 <= v < OBJ_SHARED_INTEGERS -> stands_for (ll_repr v) (shared_integer v).
Proof. unfold OBJ_SHARED_INTEGERS. intros Hv. split; [|done]. split; [done|]. zconst. lia. Qed.

Lemma from_long_long_ok cfg v valueobj : INT64_MIN <= v <= INT64_MAX ->
  exists o, createStringObjectFromLongLongWithOptions cfg v valueobj = Ok o /\ stands_for (ll_repr v) o.
Proof.
  intros Hv. unfold createStringObjectFromLongLongWithOptions. destruct (_ && _ && _) eqn:E.
  - eexists. split; [done|]. apply shared_integer_stands. lia.
  - ztrue (v >=? INT64_MIN). ztrue (v <=? INT64_MAX). eexists. split; [done|]. split; [|done]. split; [lia|done].
Qed.

(** Encoding an object changes the representation only. *)
Lemma encode_object_ok cfg o s : stands_for s o -> exists o', tryObjectEncoding cfg o = Ok o' /\ stands_for s o'.
Proof.
  intros [Hw Ho]. destruct o as [e n s0|n v|]; cbn [obj_str] in Ho; [injection Ho as ->|by exists (RInt n v)|done].
  unfold tryObjectEncoding. destruct (Z.gtb_spec n 1); [by exists (RString e n s)|]. destruct Hw as (Hn & Hs & Hl). assert (n = 1) as -> by lia.
  assert (forall e, stands_for s (RString e 1 s)) as Hraw by (split; [split; [lia|done]|done]). cbv zeta. unfold string2l. rewrite number_ok, bind_Ok.
  destruct (number s) as [v|] eqn:Ev.
  - destruct (number_range s v Ev) as [Hv ->]. zfalse (v <? INT64_MIN). zfalse (v >? INT64_MAX). cbn [orb].
    pose proof (ll_repr_bound v Hv). ztrue (zlen (ll_repr v) <=? 20). rewrite bind_Ok. destruct (_ && _ && _) eqn:E.
    + eexists. split; [done|]. apply shared_integer_stands. lia.
    + destruct e; [eexists; split; [done|]; split; [split; [lia|done]|done]|]. by apply from_long_long_ok.
  - assert ((if zlen s <=? 20 then Ok None else Ok None) = Ok (@None Z)) as -> by (by destruct (_ <=? _)). rewrite bind_Ok.
    destruct (_ <=? OBJ_ENCODING_EMBSTR_SIZE_LIMIT), e; eauto.
Qed.

Lemma encode_arg_ok cfg s : Forall is_byte s -> zlen s < MAX_STRING ->
  exists o, tryObjectEncoding cfg (createStringObject s) = Ok o /\ stands_for s o.
Proof. intros Hs Hl. apply encode_object_ok. unfold createStringObject. by destruct (_ <=? _). Qed.

Section Options.
Context `{Host} {DB : Type} `{KeyspaceLaws DB} (cfg : config).
Context (Hnow : 0 <= mstime cfg <= INT64_MAX).

Lemma runs_number e msg (s : server DB) (Q : _ -> _ -> Prop) :
  (forall v, number e = Some v -> Q s (Some v)) ->
  (number e = None -> Q (with_reply s (ReplyError (default "value is not an integer or out of range"%string msg))) None) ->
  runs (getLongLongFromObjectOrReply (Some (createStringObject e)) msg) s Q.
Proof.
  intros Hs Hn. apply runs_bind, (runs_lift _ (number e)).
  { unfold createStringObject. destruct (_ <=? _); apply number_ok. }
  destruct (number e) as [v|]; [by apply runs_ret, Hs|]. by apply runs_reply_return, Hn.
Qed.

Lemma absolute_time unit (rel : bool) v :
  INT64_MIN <= v <= INT64_MAX -> (v <=? 0) || (bool_decide (unit = UNIT_SECONDS) && (v >? INT64_MAX / 1000)) = false ->
  let ms := if bool_decide (unit = UNIT_SECONDS) then v * 1000 else v in
  let t := if rel then wrapS 64 (ms + mstime cfg) else ms in
  absolute (mstime cfg) unit rel v = if t <=? 0 then None else Some t.
Proof.
  intros Hv Hc ms t. set (u := match unit with UNIT_SECONDS => v * 1000 | UNIT_MILLISECONDS => v end).
  assert (ms = u) as Hu by (unfold ms, u; by destruct unit). assert (0 < u <= INT64_MAX) as Hr.
  { unfold u. change (INT64_MAX / 1000) with 9223372036854775 in Hc. destruct unit; [rewrite bool_decide_true in Hc by done|]; zconst; lia. }
  unfold absolute. fold u. zfalse (v <=? 0). zfalse (u >? INT64_MAX). cbn [orb]. unfold t. rewrite Hu. clearbody u. clear t ms Hu Hc.
  destruct rel; [|zfalse (u >? INT64_MAX); by zfalse (u <=? 0)]. unfold wrapS. zconst. change (2 ^ 64) with (2 ^ 63 * 2). change (2 ^ (64 - 1)) with (2 ^ 63).
  destruct (Z.gtb_spec (u + mstime cfg) (2 ^ 63 - 1)).
  - replace (u + mstime cfg + 2 ^ 63) with (u + mstime cfg - 2 ^ 63 + 1 * (2 ^ 63 * 2)) by lia. rewrite Z.mod_add, Z.mod_small by lia.
    ztrue (u + mstime cfg - 2 ^ 63 - 2 ^ 63 <=? 0). done.
  - rewrite Z.mod_small by lia. replace (u + mstime cfg + 2 ^ 63 - 2 ^ 63) with (u + mstime cfg) by lia. by zfalse (u + mstime cfg <=? 0).
Qed.

Lemma absolute_bad now unit rel v :
  (v <=? 0) || (bool_decide (unit = UNIT_SECONDS) && (v >? INT64_MAX / 1000)) = true -> absolute now unit rel v = None.
Proof.
  intros Hc. unfold absolute. destruct (Z.leb_spec v 0); [done|]. cbn [orb] in *. destruct unit; [|by rewrite bool_decide_false in Hc].
  change (INT64_MAX / 1000) with 9223372036854775 in Hc. rewrite bool_decide_true in Hc by done. cbn [andb] in Hc. destruct (Z.gtb_spec (v * 1000) INT64_MAX); [done|]. zconst. lia.
Qed.

(** A time that is accepted, in milliseconds. *)
Lemma in_milliseconds unit v :
  (v <=? 0) || (bool_decide (unit = UNIT_SECONDS) && (v >? INT64_MAX / 1000)) = false -> v <= INT64_MAX ->
  let ms := match unit with UNIT_SECONDS => v * 1000 | UNIT_MILLISECONDS => v end in
  (if bool_decide (unit = UNIT_SECONDS) then v * 1000 else v) = ms /\ 0 < v /\ 0 < ms <= INT64_MAX.
Proof.
  change (INT64_MAX / 1000) with 9223372036854775. intros Hc Hv ms.
  destruct unit; [rewrite bool_decide_true in Hc |- * by done|rewrite bool_decide_false by done]; unfold ms; zconst; lia.
Qed.

(** The sum of the clock and the time. *)
Lemma expire_sum unit e v :
  number e = Some v -> (v <=? 0) || (bool_decide (unit = UNIT_SECONDS) && (v >? INT64_MAX / 1000)) = false ->
  let ms := if bool_decide (unit = UNIT_SECONDS) then v * 1000 else v in
  arith64 (fwrapv cfg) (ms + mstime cfg) = if undefined_sum cfg unit true (Some e) then Fault else Ok (wrapS 64 (ms + mstime cfg)).
Proof using Hnow.
  intros Ev Hc. destruct (number_range _ _ Ev) as [Hv _]. destruct (in_milliseconds unit v Hc ltac:(lia)) as (E & Hp & Hms). cbv zeta in *.
  rewrite E. unfold undefined_sum, arith64. cbn [mbind option_bind]. rewrite Ev. set (u := match unit with UNIT_SECONDS => _ | _ => _ end) in *. clearbody u.
  destruct (fwrapv cfg); cbn [negb andb]; [done|]. ztrue (0 <? v). ztrue (u <=? INT64_MAX). cbn [andb]. unfold sint. zconst. change (2 ^ (64 - 1)) with (2 ^ 63). ztrue (- 2 ^ 63 <=? u + mstime cfg).
  destruct (Z.gtb_spec (u + mstime cfg) (2 ^ 63 - 1)).
  - by zfalse (u + mstime cfg <? 2 ^ 63).
  - ztrue (u + mstime cfg <? 2 ^ 63). cbn [andb]. by rewrite wrapS_small by lia.
Qed.

(** The expire argument, when there is one. *)
Lemma runs_expire name expire f unit (s : server DB) (Q : _ -> _ -> Prop) :
  undefined_sum cfg unit (OBJ_PX f || OBJ_EX f) expire = false ->
  (let x := expire_outcome_of (mstime cfg) unit (OBJ_PX f || OBJ_EX f) expire in
   match expire_error name x with
   | Some e => Q (with_reply s e) None
   | None => Q s (Some (time_of x))
   end) ->
  runs match expire with Some e => getExpireMillisecondsOrReply cfg name e f unit | None => mret 0 end s Q.
Proof.
  intros Hdef. destruct expire as [e|]; cbn [expire_outcome_of]; [|intros HQ; by apply runs_ret]. intros HQ. unfold getExpireMillisecondsOrReply.
  apply runs_bind, runs_number; [|intros E; by rewrite E in HQ]. intros v Ev. rewrite Ev in HQ. destruct (number_range _ _ Ev) as [Hv _].
  destruct ((v <=? 0) || _) eqn:E.
  { apply runs_reply_return. by rewrite (absolute_bad _ _ _ _ E) in HQ. }
  cbv zeta. rewrite (absolute_time _ _ _ Hv E) in HQ. cbv zeta in HQ. apply runs_bind. destruct (OBJ_PX f || OBJ_EX f).
  - pose proof (expire_sum unit e v Ev E) as Es. cbv zeta in Es. rewrite Hdef in Es. eapply runs_lift; [exact Es|].
    destruct (_ <=? 0); [by apply runs_reply_return|by apply runs_ret].
  - apply runs_ret. destruct (_ <=? 0); [by apply runs_reply_return|by apply runs_ret].
Qed.

(** A time whose sum is undefined. *)
Lemma expire_faults name expire f unit (s : server DB) :
  undefined_sum cfg unit (OBJ_PX f || OBJ_EX f) expire = true ->
  match expire with Some e => getExpireMillisecondsOrReply cfg name e f unit | None => mret 0 end s = Fault.
Proof.
  intros Hu. destruct expire as [e|]; [|unfold undefined_sum in Hu; by rewrite andb_false_r in Hu].
  assert (exists v, number e = Some v /\ OBJ_PX f || OBJ_EX f = true /\
    (v <=? 0) || (bool_decide (unit = UNIT_SECONDS) && (v >? INT64_MAX / 1000)) = false) as (v & Ev & Er & Hc).
  { unfold undefined_sum in Hu. cbn [mbind option_bind] in Hu. destruct (number e) as [v|]; [|by rewrite andb_false_r in Hu]. exists v. split; [done|].
    change (INT64_MAX / 1000) with 9223372036854775. destruct (OBJ_PX f || OBJ_EX f); [|by rewrite andb_false_r in Hu]. split; [done|].
    destruct unit; [rewrite bool_decide_true by done|rewrite bool_decide_false by done]; zconst; lia. }
  unfold getExpireMillisecondsOrReply. rewrite (cmd_bind_ok _ _ s s v).
  2: { unfold getLongLongFromObjectOrReply. rewrite (cmd_bind_ok _ _ s s (Some v)); [done|].
    assert (getLongLongFromObject (Some (createStringObject e)) = Ok (Some v)) as El by (rewrite <- Ev; unfold createStringObject; destruct (zlen e <=? _); apply number_ok).
    unfold lift. by rewrite El. }
  rewrite Hc. cbv zeta. rewrite Er in *. unfold mbind, cmd_bind, lift. pose proof (expire_sum unit e v Ev Hc) as Es. cbv zeta in Es. by rewrite Es, Hu.
Qed.

End Options.

(** ** Parsing the options *)

Lemma strcase_other w n m : strcase_eq w n = true -> strcase_eq w m = bool_decide (tolower <$> chars n = tolower <$> chars m).
Proof. unfold strcase_eq. intros ->%bool_decide_eq_true. done. Qed.

Lemma existsb_snoc {A} (P : A -> bool) l x : existsb P (l ++ [x]) = existsb P l || P x.
Proof. rewrite existsb_app. cbn. by rewrite orb_false_r. Qed.

Lemma has_kind_snoc k pre o :
  has_kind k (pre ++ [o]) = has_kind k pre || match o with OTtl k' _ => bool_decide (k' = k) | _ => false end.
Proof. apply existsb_snoc. Qed.

Lemma consistent_snoc pre o : consistent pre -> consistent (pre ++ [o]) <-> allowed pre o = true.
Proof.
  intros [Hx Hk]. unfold consistent, has_nx, has_xx. setoid_rewrite has_kind_snoc. rewrite !existsb_snoc. fold (has_nx pre). fold (has_xx pre).
  destruct o as [| | |k e]; cbn [allowed]; rewrite ?orb_false_r; setoid_rewrite orb_false_r || idtac.
  - destruct (has_nx pre), (has_xx pre); cbn in *; intuition congruence.
  - destruct (has_nx pre), (has_xx pre); cbn in *; intuition congruence.
  - tauto.
  - rewrite forallb_forall. setoid_rewrite orb_true_iff. setoid_rewrite bool_decide_eq_true. setoid_rewrite negb_true_iff. split.
    + intros [_ Hc] k' _. destruct (decide (k' = k)) as [->|Hne]; [by left|]. right. apply not_true_is_false. intros Hk'. apply Hne. apply Hc; auto.
    + intros Ha. split; [done|]. assert (forall k', has_kind k' pre = true -> k' = k) as Hall.
      { intros k' E. destruct (Ha k') as [?|?]; [destruct k'; cbn; tauto|done|congruence]. }
      intros k1 k2 [E1| ->] [E2| ->]; auto. by symmetry; auto.
Qed.

Lemma consistent_prefix pre rest : consistent (pre ++ rest) -> consistent pre.
Proof.
  intros [Hx Hk]. unfold has_nx, has_xx, has_kind in *. split.
  - fold (has_nx pre) (has_xx pre) in *. rewrite !existsb_app in Hx. unfold has_nx, has_xx. apply andb_false_iff. apply andb_false_iff in Hx as [Hx|Hx]; apply orb_false_iff in Hx; tauto.
  - intros k k' E E'. apply Hk; rewrite existsb_app; unfold has_kind in *; by rewrite ?E, ?E'.
Qed.

Lemma flags_snoc pre o : flags_of (pre ++ [o]) =
  match o with
  | ONx => or_nx (flags_of pre)
  | OXx => or_xx (flags_of pre)
  | OGet => or_get (flags_of pre)
  | OTtl KEEPTTL _ => or_keepttl (flags_of pre)
  | OTtl PERSIST _ => or_persist (flags_of pre)
  | OTtl EX _ => or_ex (flags_of pre)
  | OTtl PX _ => or_px (flags_of pre)
  | OTtl EXAT _ => or_exat (flags_of pre)
  | OTtl PXAT _ => or_pxat (flags_of pre)
  end.
Proof.
  unfold flags_of. rewrite !has_kind_snoc. unfold has_nx, has_xx, has_get. rewrite !existsb_snoc.
  destruct o as [| | |[] e]; cbn [bool_decide decide_rel ttl_kind_eq_dec]; rewrite ?orb_false_r, ?orb_true_r; cbn; rewrite ?orb_false_r, ?orb_true_r; done.
Qed.

Lemma time_arg_snoc pre o : time_arg (pre ++ [o]) =
  match o with OTtl k e => if has_time k then Some e else time_arg pre | _ => time_arg pre end.
Proof. unfold time_arg. by rewrite foldl_app. Qed.

Lemma unit_snoc pre o : unit_of (pre ++ [o]) =
  match o with OTtl PX _ | OTtl PXAT _ => UNIT_MILLISECONDS | _ => unit_of pre end.
Proof.
  unfold unit_of. rewrite !has_kind_snoc. destruct o as [| | |[] e]; cbn; rewrite ?orb_false_r, ?orb_true_r; done.
Qed.

(** The other names an option does not have, and tests of constants. *)
Ltac decide_consts :=
  repeat match goal with |- context [bool_decide (?a = ?b)] =>
    let v := eval vm_compute in (bool_decide (a = b)) in
    lazymatch v with true => idtac | false => idtac end;
    change (bool_decide (a = b)) with v end.
Ltac names Hs := rewrite ?(strcase_other _ _ _ Hs); decide_consts.

Section Parser.
Context {DB : Type}.

(** One option, after the ones before it. *)
Lemma parse_step c pre o a rest :
  spells o a ->
  parse_options (DB := DB) c (a ++ rest) (flags_of pre) (unit_of pre) (time_arg pre) =
  if known c o && allowed pre o
  then parse_options c rest (flags_of (pre ++ [o])) (unit_of (pre ++ [o])) (time_arg (pre ++ [o]))
  else reply_and_return shared_syntaxerr.
Proof.
  rewrite flags_snoc, unit_snoc, time_arg_snoc. intros Hs.
  destruct o as [| | |k e]; [..|destruct k]; (destruct a as [|w [|e' [|]]]; try done); cbn [spells kind_name has_time] in Hs;
    (try (destruct Hs as (Hs & Ht & ->); discriminate Ht)); try (by destruct Hs);
    [| | |destruct Hs as [Hs _]|destruct Hs as [Hs _]|destruct Hs as (Hs & _ & ->)..];
    cbn [app parse_options known allowed forallb has_time]; names Hs; destruct c; decide_consts;
    cbn [andb orb negb flags_of OBJ_SET_NX OBJ_SET_XX OBJ_EX OBJ_PX OBJ_KEEPTTL OBJ_SET_GET OBJ_EXAT OBJ_PXAT OBJ_PERSIST];
    rewrite ?andb_false_r, ?andb_true_r; cbn [andb]; try (by destruct rest).
  all: repeat match goal with |- context [has_kind ?k ?p] => destruct (has_kind k p) end; cbn [andb negb known]; (done || by destruct rest).
Qed.

Lemma runs_parse_options c pre opts argss (s : server DB) (Q : _ -> _ -> Prop) :
  consistent pre -> Forall2 spells opts argss ->
  (Forall (fun o => known c o = true) opts -> consistent (pre ++ opts) ->
    Q s (Some (flags_of (pre ++ opts), unit_of (pre ++ opts), time_arg (pre ++ opts)))) ->
  (~ (Forall (fun o => known c o = true) opts /\ consistent (pre ++ opts)) -> Q (with_reply s shared_syntaxerr) None) ->
  runs (parse_options c (concat argss) (flags_of pre) (unit_of pre) (time_arg pre)) s Q.
Proof.
  intros Hc Hs. revert pre Hc. induction Hs as [|o a opts argss Ho Hs IH]; intros pre Hc Hyes Hno.
  { cbn. apply runs_ret. rewrite app_nil_r in Hyes. by apply Hyes. }
  cbn [concat]. rewrite (parse_step _ _ _ _ _ Ho). rewrite (cons_middle o pre opts), app_assoc in *.
  destruct (known c o) eqn:Hk; cbn [andb].
  2: { apply runs_reply_return, Hno. intros [Hf _]. inversion Hf. congruence. }
  destruct (allowed pre o) eqn:Ha.
  - apply IH; [by apply consistent_snoc|intros; apply Hyes; [by constructor|done]|].
    intros Hn. apply Hno. intros [Hf ?]. apply Hn. by inversion Hf.
  - apply runs_reply_return, Hno. intros [_ Hx%consistent_prefix]. apply consistent_snoc in Hx; [congruence|done].
Qed.

Lemma runs_parse_args c pre argss opts (s : server DB) (Q : _ -> _ -> Prop) :
  length pre = (match c with COMMAND_GET => 2 | COMMAND_SET => 3 end)%nat -> Forall2 spells opts argss ->
  (valid c opts -> Q s (Some (flags_of opts, unit_of opts, time_arg opts))) ->
  (~ valid c opts -> Q (with_reply s shared_syntaxerr) None) ->
  runs (parseExtendedStringArgumentsOrReply (pre ++ concat argss) c) s Q.
Proof.
  intros Hl Hs Hyes Hno. unfold parseExtendedStringArgumentsOrReply. rewrite drop_app_length' by done.
  apply (runs_parse_options c [] opts); [split; [done|]; intros k k'; done|done|intros; apply Hyes; by split|exact Hno].
Qed.

End Parser.

(** ** GET and SET *)

Ltac srv := cbn [sdb reply dirty events with_reply with_dirty with_event with_db] in *.

Section Set_.
Context `{Host} {DB : Type} `{KeyspaceLaws DB} (cfg : config).

Lemma runs_get_generic c key rest (s : server DB) (Q : _ -> _ -> Prop) :
  storable key -> db_wf (sdb s) -> (forall o, view (sdb s) !! key = Some o -> obj_wf o) ->
  (forall d, db_wf d -> view d = view (sdb s) -> expires d = expires (sdb s) ->
    Q (with_reply (with_db s d) (get_reply (view (sdb s) !! key))) (Some (negb (wrong_type (view (sdb s) !! key))))) ->
  runs (getGenericCommand (c :: key :: rest)) s Q.
Proof.
  intros Hkey Hw Ho HQ. unfold getGenericCommand. apply runs_bind, (runs_arg _ _ key); [done|].
  apply runs_bind, runs_read; [done..|]. intros d Hd Hv He. specialize (HQ d Hd Hv He). destruct (view (sdb s) !! key) as [o|] eqn:Ek.
  - specialize (Ho o eq_refl). destruct o as [e n t|n v|ty n]; cbn [type] in *.
    + rewrite bool_decide_true by done. apply runs_bind, (runs_reply_bulk _ t); [done..|]. by apply runs_ret.
    + rewrite bool_decide_true by done. apply runs_bind, (runs_reply_bulk _ (ll_repr v)); [done..|]. by apply runs_ret.
    + rewrite bool_decide_false by (by destruct Ho). apply runs_bind, runs_reply. by apply runs_ret.
  - apply runs_bind, runs_reply. by apply runs_ret.
Qed.

(** The optional GET of SET. *)
Lemma runs_set_get (get : bool) c key rest (s : server DB) (Q : _ -> option unit -> Prop) :
  storable key -> db_wf (sdb s) -> (forall o, view (sdb s) !! key = Some o -> obj_wf o) ->
  (forall s', let old := view (sdb s) !! key in
    replied (if get then [get_reply old] else []) s s' -> Q s' (if get && wrong_type old then None else Some tt)) ->
  runs (if get then ok ← getGenericCommand (c :: key :: rest); if (ok : bool) then mret tt else return_early else mret tt) s Q.
Proof.
  intros Hkey Hw Ho HQ. destruct get.
  - apply runs_bind, runs_get_generic; [done..|]. intros d Hd Hv He.
    assert (replied [get_reply (view (sdb s) !! key)] s (with_reply (with_db s d) (get_reply (view (sdb s) !! key)))) as Hr by (by split_and!).
    specialize (HQ _ Hr). destruct (wrong_type _); cbn [andb negb] in *; [by apply runs_early|by apply runs_ret].
  - apply runs_ret. apply (HQ s). split_and!; try done. by rewrite app_nil_r.
Qed.

(** The part of SET that writes, once the key has been looked up. *)
Lemma runs_set_write key val f (expire : option (list Z)) x m argv rep (s : server DB) (Q : _ -> _ -> Prop) :
  storable key -> db_wf (sdb s) -> (view (sdb s) !! key = None -> vacant (sdb s) key) ->
  (if expire then exists t, x = At t /\ INT64_MIN <= t <= INT64_MAX else x = NoExpire) ->
  (OBJ_SET_GET f = true -> expire = None -> m = Ok argv) ->
  (forall s', key_set key val (OBJ_KEEPTTL f) x s s' -> reply s' = reply s ++ (if OBJ_SET_GET f then [] else [rep]) ->
    dirty s' = dirty s + 1 -> 
    (exists evs, events s' = events s ++ evs /\ set_events key val x (if OBJ_SET_GET f && negb (bool_decide (is_Some expire)) then Some argv else None) evs) ->
    Q s' (Some tt)) ->
  runs (setKey key val (OBJ_KEEPTTL f) (Some (bool_decide (is_Some (view (sdb s) !! key))));;
    add_dirty 1;;
    notifyKeyspaceEvent NOTIFY_STRING "set" key;;
    match expire with
    | Some _ =>
        on_db (setExpire key (time_of x));;
        milliseconds_obj ← lift (createStringObjectFromLongLong cfg (time_of x));
        rewriteClientCommandVector [shared_set; createStringObject key; val; shared_pxat; milliseconds_obj];;
        notifyKeyspaceEvent NOTIFY_GENERIC "expire" key
    | None => mret tt
    end;;
    (if negb (OBJ_SET_GET f) then addReply rep else mret tt);;
    if OBJ_SET_GET f && negb (bool_decide (is_Some expire)) then argv ← lift m; rewriteClientCommandVector argv else mret tt) s Q.
Proof.
  intros Hkey Hw Hvac Hx Hm HQ. apply runs_bind, runs_set_key_found; [done..|]. intros d Hd Hv He. apply runs_bind, runs_dirty.
  apply runs_bind, runs_notify. apply runs_bind. destruct expire as [e|].
  - destruct Hx as (t & -> & Ht). cbn [time_of]. apply runs_bind, runs_set_expire; [done..|srv; rewrite Hv; by rewrite lookup_insert_eq|].
    intros d2 Hd2 Hv2 He2. destruct (from_long_long_ok cfg t false Ht) as (ms & Ems & Hms).
    apply runs_bind. eapply runs_lift; [exact Ems|]. apply runs_bind, runs_raise. apply runs_notify. apply runs_bind.
    assert (key_set key val (OBJ_KEEPTTL f) (At t) s (with_db s d2)) as Hk.
    { split; [done|]. srv. rewrite Hv2, He2, Hv, He. destruct (expired t).
      - rewrite delete_insert_eq. destruct (OBJ_KEEPTTL f); [done|]. by rewrite delete_delete_eq.
      - destruct (OBJ_KEEPTTL f); [done|]. by rewrite insert_delete_eq. }
    destruct (OBJ_SET_GET f); cbn [negb andb bool_decide].
    + apply runs_ret, runs_ret. apply HQ; [exact Hk|srv; by rewrite app_nil_r|done|]. srv. eexists. split; [by rewrite <- !app_assoc|].
      eexists. split; [done|]. exists ms. done.
    + apply runs_reply, runs_ret. apply HQ; [exact Hk|done|done|]. srv. eexists. split; [by rewrite <- !app_assoc|].
      eexists. split; [done|]. exists ms. done.
  - subst x. apply runs_ret, runs_bind. assert (key_set key val (OBJ_KEEPTTL f) NoExpire s (with_db s d)) as Hk by (by split_and!).
    destruct (OBJ_SET_GET f); cbn [negb andb].
    + apply runs_ret. rewrite bool_decide_false in * by (by intros []). apply runs_bind, (runs_lift _ argv); [by apply Hm|]. apply runs_raise. apply HQ; [exact Hk|srv; by rewrite app_nil_r|done|].
      srv. eexists. split; [by rewrite <- !app_assoc|]. by eexists.
    + apply runs_reply, runs_ret. apply HQ; [exact Hk|done|done|].
      srv. eexists. split; [by rewrite <- !app_assoc|]. by eexists.
Qed.

Context (Hnow : 0 <= mstime cfg <= INT64_MAX).

Lemma outcome_time unit rel e t : expire_outcome_of (mstime cfg) unit rel (Some e) = At t -> INT64_MIN <= t <= INT64_MAX.
Proof.
  cbn. destruct (number e) as [v|] eqn:Ev; [|done]. destruct (number_range _ _ Ev) as [Hv _]. unfold absolute.
  destruct (_ || _) eqn:E; [done|]. intros [= <-]. destruct unit, rel; zconst; lia.
Qed.

Lemma replied_trans rs1 rs2 (s s1 s2 : server DB) : replied rs1 s s1 -> replied rs2 s1 s2 -> replied (rs1 ++ rs2) s s2.
Proof.
  intros (? & Hv & He & Hr & Hd & Hev) (? & Hv2 & He2 & Hr2 & Hd2 & Hev2). split_and!; [done|congruence..| | |]; [|congruence..].
  rewrite Hr2, Hr. by rewrite app_assoc.
Qed.

Lemma runs_set_generic name c key rest argv argv' f val expire unit ok_reply abort_reply (s : server DB) :
  storable key -> db_wf (sdb s) -> (forall o, view (sdb s) !! key = Some o -> obj_wf o) ->
  (OBJ_SET_GET f = true -> expire = None -> strip_get 0 argv (zlen argv - 1) = Ok argv') ->
  undefined_sum cfg unit (OBJ_PX f || OBJ_EX f) expire = false ->
  runs (setGenericCommand cfg name (c :: key :: rest) argv f key val expire unit ok_reply abort_reply) s (fun s' _ =>
    set_outcome name key val f (expire_outcome_of (mstime cfg) unit (OBJ_PX f || OBJ_EX f) expire)
      (default shared_ok ok_reply) (default ReplyNull abort_reply)
      (if OBJ_SET_GET f && negb (bool_decide (is_Some expire)) then Some argv' else None) s s').
Proof.
  intros Hkey Hw Ho Hstrip Hdef. unfold setGenericCommand, set_outcome. apply runs_bind, runs_expire; [done..|]. cbv zeta.
  set (x := expire_outcome_of _ _ _ _). destruct (expire_error name x) as [e|] eqn:Ex; [by split_and!|].
  apply runs_bind, runs_set_get; [done..|]. cbv zeta. intros s1 Hs1. set (old := view (sdb s) !! key) in *.
  destruct (OBJ_SET_GET f && wrong_type old) eqn:Eg.
  { apply andb_true_iff in Eg as [Eg Et]. rewrite Eg in Hs1. by destruct old as [[]|]. }
  pose proof Hs1 as (Hw1 & Hv1 & He1 & Hr1 & Hd1 & Hev1). apply runs_bind, runs_write; [done..|]. intros d Hd Hv He Hvac.
  assert (view (sdb s1) !! key = old) as Hold by (by rewrite Hv1). rewrite Hold in *.
  assert (bool_decide (old = None) = negb (bool_decide (is_Some old))) as ->.
  { destruct old; [rewrite bool_decide_false, bool_decide_true by (done || by eexists)|rewrite bool_decide_true, bool_decide_false by (done || by intros [])]; done. }
  destruct ((OBJ_SET_NX f && _) || _) eqn:En.
  - destruct (OBJ_SET_GET f); cbn [negb].
    + apply runs_ret. split_and!; srv; congruence.
    + apply runs_reply. rewrite app_nil_r in Hr1. split_and!; srv; congruence.
  - assert (bool_decide (is_Some old) = bool_decide (is_Some (view d !! key))) as -> by (by rewrite Hv, Hold).
    apply (runs_set_write key val f expire x _ argv'); [done..|srv; by rewrite Hv, Hold| |done|].
    { destruct expire as [e|]; [|done]. destruct x as [|t| |] eqn:E; try done; [|by exists t; split; [|by eapply outcome_time]].
      unfold x, expire_outcome_of in E. destruct (number e); [destruct (absolute _ _ _ _)|]; done. }
    srv. intros s' Hk Hr Hdd Hee. rewrite Hr1, Hd1, Hev1 in *. split_and!; [|by destruct (OBJ_SET_GET f); rewrite Hr, <- app_assoc|done..].
    revert Hk. unfold key_set. srv. by rewrite Hv, He, Hv1, He1.
Qed.

Lemma set_generic_faults name argv oargv f key val expire unit ok_reply abort_reply (s : server DB) :
  undefined_sum cfg unit (OBJ_PX f || OBJ_EX f) expire = true ->
  setGenericCommand cfg name argv oargv f key val expire unit ok_reply abort_reply s = Fault.
Proof. intros Hu. unfold setGenericCommand. unfold mbind at 1, cmd_bind at 1. by rewrite expire_faults. Qed.

End Set_.

(** ** SET with its options *)

Lemma create_string_sds a : exists e, createStringObject a = RString e 1 a.
Proof. unfold createStringObject. destruct (_ <=? _); by eexists. Qed.

Lemma strip_get_options j args size :
  3 <= j -> zlen (no_get args) <= size ->
  strip_get j (createStringObject <$> args) size = Ok (createStringObject <$> no_get args).
Proof.
  intros Hj Hs. induction args as [|a args IH] in j, size, Hj, Hs |- *; [done|]. rewrite fmap_cons. cbn [strip_get].
  ztrue (j >=? 3). destruct (create_string_sds a) as [e Ea]. rewrite Ea, bind_Ok, <- Ea. unfold no_get in *. rewrite filter_cons in *.
  destruct (strcase_eq a "get"); cbn [decide] in *.
  - rewrite decide_False in * by done. apply IH; [lia|done].
  - rewrite decide_True in * by done. rewrite zlen_cons in Hs. pose proof (zlen_nonneg (filter (fun a => strcase_eq a "get" = false) args)).
    ztrue (0 <? size). rewrite IH, bind_Ok by lia. done.
Qed.

Lemma strip_get_set a b o args :
  zlen (no_get args) < zlen args ->
  strip_get 0 (a :: b :: o :: (createStringObject <$> args)) (zlen (a :: b :: o :: (createStringObject <$> args)) - 1) =
  Ok (a :: b :: o :: (createStringObject <$> no_get args)).
Proof.
  intros Hl. rewrite !zlen_cons, zlen_fmap.
  pose proof (zlen_nonneg (no_get args)). cbn [strip_get]. change (0 >=? 3) with false. change (0 + 1 >=? 3) with false.
  change (0 + 1 + 1 >=? 3) with false. cbv iota. rewrite !bind_Ok. cbv iota.
  repeat match goal with |- context [0 <? ?x] => ztrue (0 <? x) end.
  rewrite strip_get_options by lia. by rewrite !bind_Ok.
Qed.

Lemma no_get_shorter opts argss :
  Forall2 spells opts argss -> has_get opts = true -> zlen (no_get (concat argss)) < zlen (concat argss).
Proof.
  intros Hs Hg. assert (forall l, zlen (no_get l) <= zlen l) as Hle.
  { intros l. unfold zlen, no_get. pose proof (length_filter (fun a => strcase_eq a "get" = false) l). lia. }
  induction Hs as [|o a opts argss Ho Hs IH]; [done|]. cbn [concat]. unfold no_get in *. rewrite filter_app, !zlen_app.
  destruct o; cbn [has_get existsb orb] in Hg; try (pose proof (Hle a); specialize (IH Hg); lia).
  destruct a as [|w [|]]; try done. cbn [spells] in Ho. rewrite filter_cons, decide_False by (by rewrite Ho). pose proof (Hle (concat argss)).
  cbn. unfold zlen in *. cbn. lia.
Qed.

Definition all_kinds : list ttl_kind := [KEEPTTL; PERSIST; EX; PX; EXAT; PXAT].

#[export] Instance consistent_dec opts : Decision (consistent opts).
Proof.
  refine (cast_if_and (decide (has_nx opts && has_xx opts = false))
    (decide (Forall (fun k => Forall (fun k' => has_kind k opts = true -> has_kind k' opts = true -> k = k') all_kinds) all_kinds))).
  - split; [done|]. intros k k'. match goal with Hf : Forall _ all_kinds |- _ => rewrite Forall_forall in Hf; specialize (Hf k); rewrite Forall_forall in Hf end.
    match goal with Hf : _ -> _ |- _ => apply Hf; unfold all_kinds; [destruct k|destruct k'] end; set_solver.
  - intros [_ Hc]. match goal with Hf : ~ _ |- _ => apply Hf end. apply Forall_forall. intros k _. apply Forall_forall. intros k' _. apply Hc.
  - intros [? _]. done.
Defined.

#[export] Instance valid_dec c opts : Decision (valid c opts).
Proof. unfold valid. apply _. Defined.

Section SetCommand.
Context `{Host} {DB : Type} `{KeyspaceLaws DB} (cfg : config).
Context (Hnow : 0 <= mstime cfg <= INT64_MAX).

Lemma runs_encode_arg argv i v (s : server DB) (Q : _ -> _ -> Prop) :
  argv !! Z.to_nat i = Some v -> Forall is_byte v -> zlen v < MAX_STRING ->
  (forall o, tryObjectEncoding cfg (createStringObject v) = Ok o -> stands_for v o ->
    Q s (Some (o, <[Z.to_nat i := o]> (createStringObject <$> argv)))) ->
  runs (encode_arg cfg argv i) s Q.
Proof.
  intros Ei Hb Hl HQ. unfold encode_arg. apply runs_bind, (runs_arg _ _ v); [done|]. destruct (encode_arg_ok cfg v Hb Hl) as (o & Eo & Ho).
  apply runs_bind. eapply runs_lift; [exact Eo|]. apply runs_ret. by apply HQ.
Qed.

(** The options ask for a sum that is undefined. *)
Definition undefined_options (c : command_type) (opts : list option_) : bool :=
  bool_decide (valid c opts) && undefined_sum cfg (unit_of opts) (has_kind PX opts || has_kind EX opts) (time_arg opts).

Lemma runs_set_command c key val opts argss (s : server DB) :
  storable key -> db_wf (sdb s) -> (forall o, view (sdb s) !! key = Some o -> obj_wf o) ->
  Forall is_byte val -> zlen val < MAX_STRING -> Forall2 spells opts argss -> undefined_options COMMAND_SET opts = false ->
  runs (setCommand cfg (c :: key :: val :: concat argss)) s (fun s' _ =>
    (~ valid COMMAND_SET opts -> replied [shared_syntaxerr] s s') /\
    (valid COMMAND_SET opts -> exists o, stands_for val o /\
      set_outcome "set" key o (flags_of opts)
        (expire_outcome_of (mstime cfg) (unit_of opts) (has_kind PX opts || has_kind EX opts) (time_arg opts))
        shared_ok ReplyNull (set_stripped c key o (concat argss) opts) s s')).
Proof.
  intros Hkey Hw Ho Hb Hl Hs Hdef. unfold setCommand. apply runs_bind. change (c :: key :: val :: concat argss) with ([c; key; val] ++ concat argss).
  apply (runs_parse_args COMMAND_SET [c; key; val] argss opts); [done..| |intros Hn; split; [intros; by split_and!|done]].
  intros Hv. apply runs_bind, (runs_encode_arg _ _ val); [done..|]. intros o _ Hst. apply runs_bind, (runs_arg _ _ key); [done|].
  eapply runs_impl; [apply (runs_set_generic cfg Hnow "set" c key (val :: concat argss) _
    (createStringObject c :: createStringObject key :: o :: (createStringObject <$> no_get (concat argss))))|]; [done..| | |].
  - cbn [flags_of OBJ_SET_GET]. intros Hg _. change (Z.to_nat 2) with 2%nat. cbn [app fmap list_fmap insert list_insert].
    apply strip_get_set. by eapply no_get_shorter.
  - unfold undefined_options in Hdef. by rewrite bool_decide_true in Hdef.
  - intros s' r Hout. split; [done|]. intros _. exists o. split; [done|]. unfold set_stripped. exact Hout.
Qed.

Lemma set_command_faults c key val opts argss (s : server DB) :
  Forall is_byte val -> zlen val < MAX_STRING -> Forall2 spells opts argss -> undefined_options COMMAND_SET opts = true ->
  setCommand cfg (c :: key :: val :: concat argss) s = Fault.
Proof using Hnow.
  intros Hb Hl Hs [Hv%bool_decide_eq_true Hu]%andb_true_iff. unfold setCommand.
  destruct (runs_parse_args COMMAND_SET [c; key; val] argss opts s (fun s' r => s' = s /\ r = Some (flags_of opts, unit_of opts, time_arg opts)))
    as (s1 & r1 & Ep & -> & ->); [done..|].
  rewrite (cmd_bind_ok _ _ s s _ Ep). destruct (encode_arg_ok cfg val Hb Hl) as (o & Eo & _).
  unfold encode_arg. unfold mbind at 1, cmd_bind at 1. rewrite (cmd_bind_ok _ _ s s val) by done. rewrite (cmd_bind_ok _ _ s s o) by (unfold lift; by rewrite Eo).
  cbv [mret cmd_ret]. rewrite (cmd_bind_ok _ _ s s key) by done. by apply set_generic_faults.
Qed.

(** The variants of SET that take no options. *)
Lemma runs_set_variant name c key val e f unit ok_reply abort_reply rest oargv (s : server DB) (o : robj) :
  storable key -> db_wf (sdb s) -> (forall o, view (sdb s) !! key = Some o -> obj_wf o) -> stands_for val o -> OBJ_SET_GET f = false ->
  undefined_sum cfg unit (OBJ_PX f || OBJ_EX f) e = false ->
  runs (setGenericCommand cfg name (c :: key :: rest) oargv f key o e unit ok_reply abort_reply) s (fun s' _ =>
    exists o, stands_for val o /\
      set_outcome name key o f (expire_outcome_of (mstime cfg) unit (OBJ_PX f || OBJ_EX f) e)
        (default shared_ok ok_reply) (default ReplyNull abort_reply) None s s').
Proof.
  intros Hkey Hw Ho Hst Hg Hdef. eapply runs_impl; [apply (runs_set_generic cfg Hnow name c key rest oargv []); [done..|congruence|done]|].
  intros s' r Hout. rewrite Hg in Hout. by exists o.
Qed.

(** SETEX and PSETEX with a time whose sum is undefined. *)
Lemma set_variant_faults c key e val (s : server DB) :
  Forall is_byte val -> zlen val < MAX_STRING ->
  (undefined_sum cfg UNIT_SECONDS true (Some e) = true -> setexCommand cfg [c; key; e; val] s = Fault) /\
  (undefined_sum cfg UNIT_MILLISECONDS true (Some e) = true -> psetexCommand cfg [c; key; e; val] s = Fault).
Proof using Hnow.
  intros Hb Hl. destruct (encode_arg_ok cfg val Hb Hl) as (o & Eo & _).
  assert (forall k : _ -> cmd DB unit, (x ← encode_arg cfg [c; key; e; val] 3; k x) s = k (o, <[Z.to_nat 3 := o]> (createStringObject <$> [c; key; e; val])) s) as Henc.
  { intros k. rewrite (cmd_bind_ok _ _ s s (o, <[Z.to_nat 3 := o]> (createStringObject <$> [c; key; e; val]))); [done|].
    unfold encode_arg. rewrite (cmd_bind_ok _ _ s s val) by done. by rewrite (cmd_bind_ok _ _ s s o) by (unfold lift; by rewrite Eo). }
  split; intros Hu; [unfold setexCommand|unfold psetexCommand]; rewrite Henc; cbv beta iota;
    rewrite (cmd_bind_ok _ _ s s key), (cmd_bind_ok _ _ s s e) by done; by apply set_generic_faults.
Qed.

(** C13: SET with any options, in any order and letter case, repeated or not, and
    SETNX, SETEX and PSETEX.  Options that exclude each other are a syntax error.
    A time that is no integer, is not positive or overflows is answered with an
    error, as is a key of another type when GET is given.  NX and XX decide whether
    the key is set; if it is, it holds the value, with the absolute time the
    arguments mean, the old time with KEEPTTL, or none, and is gone at once when
    that time is over.  The reply, the dirty counter, the events and the rewritten
    command are the ones described by [set_outcome].  The one exception: a relative
    time that does overflow when it is added to the clock is undefined behaviour,
    unless the program has been compiled to wrap. *)
Theorem set_commands_correct c key val e opts argss (s : server DB) :
  storable key -> db_wf (sdb s) -> (forall o, view (sdb s) !! key = Some o -> obj_wf o) ->
  Forall is_byte val -> zlen val < MAX_STRING -> Forall2 spells opts argss ->
  (let m := setCommand cfg (c :: key :: val :: concat argss) in
   if undefined_options COMMAND_SET opts then m s = Fault
   else runs m s (fun s' _ =>
    (~ valid COMMAND_SET opts -> replied [shared_syntaxerr] s s') /\
    (valid COMMAND_SET opts -> exists o, stands_for val o /\
      set_outcome "set" key o (flags_of opts)
        (expire_outcome_of (mstime cfg) (unit_of opts) (has_kind PX opts || has_kind EX opts) (time_arg opts))
        shared_ok ReplyNull (set_stripped c key o (concat argss) opts) s s'))) /\
  runs (setnxCommand cfg [c; key; val]) s (fun s' _ => exists o, stands_for val o /\
    set_outcome "setnx" key o (or_nx OBJ_NO_FLAGS) NoExpire shared_cone shared_czero None s s') /\
  (let m := setexCommand cfg [c; key; e; val] in
   if undefined_sum cfg UNIT_SECONDS true (Some e) then m s = Fault
   else runs m s (fun s' _ => exists o, stands_for val o /\
    set_outcome "setex" key o (or_ex OBJ_NO_FLAGS) (expire_outcome_of (mstime cfg) UNIT_SECONDS true (Some e))
      shared_ok ReplyNull None s s')) /\
  (let m := psetexCommand cfg [c; key; e; val] in
   if undefined_sum cfg UNIT_MILLISECONDS true (Some e) then m s = Fault
   else runs m s (fun s' _ => exists o, stands_for val o /\
    set_outcome "psetex" key o (or_px OBJ_NO_FLAGS) (expire_outcome_of (mstime cfg) UNIT_MILLISECONDS true (Some e))
      shared_ok ReplyNull None s s')).
Proof.
  intros Hkey Hw Ho Hb Hl Hs. split_and!.
  - cbv zeta. destruct (undefined_options _ _) eqn:Hu; [by apply (set_command_faults c key val opts argss)|by apply runs_set_command].
  - unfold setnxCommand. apply runs_bind, (runs_encode_arg _ _ val); [done..|]. intros o _ Hst. apply runs_set_variant; try done. apply andb_false_r.
  - cbv zeta. destruct (undefined_sum _ _ _ _) eqn:Hu; [by apply set_variant_faults|].
    unfold setexCommand. apply runs_bind, (runs_encode_arg _ _ val); [done..|]. intros o _ Hst. by apply runs_set_variant.
  - cbv zeta. destruct (undefined_sum _ _ _ _) eqn:Hu; [by apply set_variant_faults|].
    unfold psetexCommand. apply runs_bind, (runs_encode_arg _ _ val); [done..|]. intros o _ Hst. by apply runs_set_variant.
Qed.

End SetCommand.

(** The encoding of a value is determined by its text: a canonical 64-bit integer
    is kept as an integer, in a shared object when it is small and the eviction
    policy allows it; any other text is kept as a string, embedded in the object
    when it has at most 44 bytes.  The text is never changed. *)
Theorem tryObjectEncoding_canonical cfg s : Forall is_byte s -> zlen s < MAX_STRING ->
  exists o, tryObjectEncoding cfg (createStringObject s) = Ok o /\ obj_wf o /\ obj_str o = Some s /\
    match number s with
    | Some v => o = RInt (if negb (no_shared_integers cfg) && (0 <=? v) && (v <? OBJ_SHARED_INTEGERS) then OBJ_SHARED_REFCOUNT else 1) v
    | None => o = RString (if zlen s <=? OBJ_ENCODING_EMBSTR_SIZE_LIMIT then OBJ_ENCODING_EMBSTR else OBJ_ENCODING_RAW) 1 s
    end.
Proof.
  intros Hb Hl. destruct (encode_arg_ok cfg s Hb Hl) as (o & Eo & Hw & Hs). exists o. split_and!; [done..|]. revert Eo. unfold createStringObject, tryObjectEncoding.
  set (lim := zlen s <=? OBJ_ENCODING_EMBSTR_SIZE_LIMIT). destruct (number s) as [v|] eqn:Ev.
  - destruct (number_range s v Ev) as [Hv ->]. pose proof (ll_repr_bound v Hv). assert (lim = true) as -> by (unfold lim, OBJ_ENCODING_EMBSTR_SIZE_LIMIT; lia).
    change (1 >? 1) with false. cbv iota zeta. ztrue (zlen (ll_repr v) <=? 20). unfold string2l. rewrite number_ok, Ev, bind_Ok.
    zfalse (v <? INT64_MIN). zfalse (v >? INT64_MAX). cbn [orb]. rewrite bind_Ok, Z.geb_leb. destruct (_ && _ && _) eqn:E; [by intros [= <-]|].
    unfold createStringObjectFromLongLongForValue, createStringObjectFromLongLongWithOptions. rewrite Z.geb_leb.
    assert ((0 <=? v) && (v <? OBJ_SHARED_INTEGERS) && negb (if negb (no_shared_integers cfg) then false else true) = false) as ->.
    { destruct (no_shared_integers cfg); cbn [negb andb] in *; [by rewrite andb_false_r|by rewrite andb_true_r]. }
    ztrue (v >=? INT64_MIN). ztrue (v <=? INT64_MAX). cbn [andb]. congruence.
  - assert ((v ← (if zlen s <=? 20 then string2l s (zlen s) else Ok None); @Ok (option Z) v) = Ok None) as Ez.
    { destruct (_ <=? 20); [|done]. unfold string2l. by rewrite number_ok, Ev. }
    assert ((if zlen s <=? 20 then string2l s (zlen s) else Ok None) = Ok None) as Ez2 by (by destruct (if zlen s <=? 20 then _ else _)).
    destruct lim eqn:Elim; cbn [createRawStringObject]; change (1 >? 1) with false; cbv iota zeta; rewrite Ez2, bind_Ok; fold lim; rewrite Elim; by intros [= <-].
Qed.

(** ** Propagation *)

Definition not_get (o : option_) : bool := match o with OGet => false | _ => true end.

Lemma existsb_not_get P opts : P OGet = false -> existsb P (List.filter not_get opts) = existsb P opts.
Proof. intros HP. induction opts as [|o opts IH]; [done|]. cbn. destruct o; cbn; rewrite ?IH, ?HP; done. Qed.

Lemma valid_not_get c opts : valid c opts -> valid c (List.filter not_get opts).
Proof.
  intros [Hk [Hx Hc]]. split.
  - apply Forall_forall. intros o [Ho _]%list_elem_of_In%filter_In. rewrite Forall_forall in Hk. by apply Hk, list_elem_of_In.
  - unfold consistent, has_nx, has_xx, has_kind in *. rewrite !existsb_not_get by done. split; [done|]. intros k k'. rewrite !existsb_not_get by done. apply Hc.
Qed.

Lemma no_time opts : time_arg opts = None -> Forall (fun o => match o with OTtl k _ => has_time k = false | _ => True end) opts.
Proof.
  induction opts as [|o opts IH] using rev_ind; [constructor|]. rewrite time_arg_snoc. intros E. apply Forall_app.
  destruct o as [| | |k e]; [by auto..|]. destruct (has_time k) eqn:Ek; [done|]. auto.
Qed.

Lemma time_arg_not_get opts : time_arg opts = None -> time_arg (List.filter not_get opts) = None.
Proof.
  intros Hn%no_time. unfold time_arg. induction Hn as [|o opts Ho Hn IH]; [done|]. destruct o as [| | |k e]; cbn; try done. by rewrite Ho.
Qed.

Lemma spells_not_get opts argss : Forall2 spells opts argss -> time_arg opts = None ->
  exists argss2, Forall2 spells (List.filter not_get opts) argss2 /\ concat argss2 = no_get (concat argss).
Proof.
  intros Hs Hn%no_time. induction Hs as [|o a opts argss Ho Hs IH]; [by exists []|]. inversion Hn as [|? ? Ht Hn2]; subst.
  destruct (IH Hn2) as (argss2 & Hs2 & E2). cbn [concat]. unfold no_get in *. rewrite filter_app, <- E2.
  assert (exists w, a = [w] /\ (strcase_eq w "get" = negb (not_get o))) as (w & -> & Ew).
  { destruct o as [| | |k e]; destruct a as [|w [|e' [|]]]; try done; cbn [spells] in Ho;
      try (destruct Ho as (_ & ? & _); congruence); exists w; (split; [done|]); [by rewrite (strcase_other _ _ _ Ho)..|].
    destruct Ho as [Ho _]. rewrite (strcase_other _ _ _ Ho). by destruct k. }
  rewrite filter_cons, filter_nil, Ew. cbn [List.filter]. destruct (not_get o) eqn:En; cbn [negb].
  - rewrite decide_True by done. exists ([w] :: argss2). split; [by constructor|done].
  - rewrite decide_False by done. by exists argss2.
Qed.

Lemma outcome_none now unit rel e : expire_outcome_of now unit rel e = NoExpire -> e = None.
Proof. destruct e as [e|]; [|done]. cbn. destruct (number e); [destruct (absolute _ _ _ _)|]; done. Qed.

Lemma no_time_defined cfg c opts : time_arg opts = None -> undefined_options cfg c opts = false.
Proof. intros E. unfold undefined_options, undefined_sum. rewrite E. cbn. by rewrite !andb_false_r. Qed.

Lemma outcome_pxat now unit rel e t now2 : 0 <= now ->
  expire_outcome_of now unit rel e = At t -> expire_outcome_of now2 UNIT_MILLISECONDS false (Some (ll_repr t)) = At t.
Proof.
  intros Hnow. destruct e as [e|]; [|done]. cbn. destruct (number e) as [v|]; [|done]. unfold absolute at 1.
  destruct ((v <=? 0) || _ || _) eqn:E; [done|]. set (u := match unit with UNIT_SECONDS => _ | _ => _ end) in *. intros [= Et].
  assert (0 < u) by (unfold u; destruct unit; lia). assert (0 < t <= INT64_MAX) by (destruct rel; lia). clearbody u.
  unfold number. rewrite string2ll_repr by (zconst; lia). unfold absolute. zfalse (t <=? 0). by zfalse (t >? INT64_MAX).
Qed.

(** What SET is propagated as, and that it means the same. *)
Lemma replayed_set now c key val o opts argss x evs :
  0 <= now -> stands_for val o -> Forall2 spells opts argss -> valid COMMAND_SET opts ->
  x = expire_outcome_of now (unit_of opts) (has_kind PX opts || has_kind EX opts) (time_arg opts) -> expire_error "set" x = None ->
  set_events key o x (set_stripped c key o (concat argss) opts) evs ->
  exists c2 opts2 argss2, replayed (c :: key :: val :: concat argss) evs = c2 :: key :: val :: concat argss2 /\
    Forall2 spells opts2 argss2 /\ valid COMMAND_SET opts2 /\ has_get opts2 = false /\
    (forall now2, expire_outcome_of now2 (unit_of opts2) (has_kind PX opts2 || has_kind EX opts2) (time_arg opts2) = x) /\
    (forall cfg2, undefined_options cfg2 COMMAND_SET opts2 = false) /\
    ((exists t, x = At t) \/ has_kind KEEPTTL opts2 = has_kind KEEPTTL opts) /\
    (has_nx opts2 = true -> has_nx opts = true) /\ (has_xx opts2 = true -> has_xx opts = true).
Proof.
  intros Hnow [_ Est] Hs Hv Ex Herr (rewrites & -> & Hrw). unfold replayed. cbn [foldl app].
  assert (forall l : list (list Z), obj_text <$> (createStringObject <$> l) = l) as Htext.
  { intros l. rewrite <- list_fmap_compose. rewrite <- (list_fmap_id l) at 2. apply list_fmap_ext. intros _ a _. cbn.
    destruct (create_string_sds a) as [? ->]. done. }
  assert (obj_text o = val) as Hval by (unfold obj_text; by rewrite Est).
  destruct x as [|t| |]; [| |done..].
  - symmetry in Ex. apply outcome_none in Ex. unfold set_stripped in Hrw. rewrite Ex, bool_decide_false in Hrw by (by intros []).
    destruct (has_get opts) eqn:Hg; cbn [andb negb] in Hrw; subst rewrites; cbn [foldl].
    + destruct (spells_not_get _ _ Hs Ex) as (argss2 & Hs2 & E2). exists c, (List.filter not_get opts), argss2.
      rewrite !fmap_cons, Htext, E2, Hval. split; [by pose proof (Htext [c; key]) as [= -> ->]|]. split; [done|]. split; [by apply valid_not_get|].
      split; [clear; by induction opts as [|[] opts IH]|]. split; [intros; by rewrite time_arg_not_get|].
      split; [intros; by apply no_time_defined, time_arg_not_get|].
      unfold has_kind, has_nx, has_xx. rewrite !existsb_not_get by done. auto.
    + exists c, opts, argss. split_and!; try done; [intros; by rewrite Ex|intros; by apply no_time_defined|by right].
  - destruct Hrw as (ms & [_ Ems] & ->). cbn [foldl]. exists (chars "SET"), [OTtl PXAT (ll_repr t)], [[chars "PXAT"; ll_repr t]].
    split. { rewrite !fmap_cons, Hval. pose proof (Htext [key]) as [= ->]. unfold obj_text at 3. by rewrite Ems. }
    split; [by repeat constructor|]. split. { split; [by repeat constructor|]. split; [done|]. intros k k'. destruct k, k'; done. }
    split; [done|]. split; [intros now2; symmetry in Ex; by apply (outcome_pxat now _ _ _ _ now2) in Ex|].
    split; [intros cfg2; unfold undefined_options, undefined_sum; cbn; by rewrite !andb_false_r|]. split; [eauto|done].
Qed.

Section Written.
Context `{Host} {DB : Type} `{KeyspaceLaws DB}.

(** A SET that changed something has set the key. *)
Lemma set_outcome_written name key o f x okr abr stripped (s s' : server DB) :
  set_outcome name key o f x okr abr stripped s s' -> dirty s' <> dirty s ->
  expire_error name x = None /\ key_set key o (OBJ_KEEPTTL f) x s s' /\
  (OBJ_SET_NX f && bool_decide (is_Some (view (sdb s) !! key))) || (OBJ_SET_XX f && bool_decide (view (sdb s) !! key = None)) = false /\
  exists evs, events s' = events s ++ evs /\ set_events key o x stripped evs.
Proof.
  unfold set_outcome, replied. intros Hout Hd. destruct (expire_error name x); [tauto|].
  destruct (_ && _); [tauto|]. destruct (_ || _); [tauto|]. tauto.
Qed.

(** A replica on which the options do not forbid it sets the key. *)
Lemma replay_sets cfg c key val opts argss (s : server DB) :
  0 <= mstime cfg <= INT64_MAX ->
  storable key -> db_wf (sdb s) -> (forall o, view (sdb s) !! key = Some o -> obj_wf o) ->
  Forall is_byte val -> zlen val < MAX_STRING -> Forall2 spells opts argss -> valid COMMAND_SET opts -> has_get opts = false ->
  undefined_options cfg COMMAND_SET opts = false ->
  let x := expire_outcome_of (mstime cfg) (unit_of opts) (has_kind PX opts || has_kind EX opts) (time_arg opts) in
  expire_error "set" x = None ->
  (has_nx opts && bool_decide (is_Some (view (sdb s) !! key))) || (has_xx opts && bool_decide (view (sdb s) !! key = None)) = false ->
  runs (setCommand cfg (c :: key :: val :: concat argss)) s (fun s' _ =>
    exists o, stands_for val o /\ key_set key o (has_kind KEEPTTL opts) x s s').
Proof.
  intros Hnow Hkey Hw Ho Hb Hl Hs Hv Hg Hdef x Hx Hn. eapply runs_impl; [by apply (runs_set_command cfg Hnow c key val opts argss s)|].
  intros s' r [_ Hout]. destruct (Hout Hv) as (o & Hst & Hset). exists o. split; [done|]. unfold set_outcome in Hset. fold x in Hset.
  rewrite Hx in Hset. cbn [flags_of OBJ_SET_GET OBJ_SET_NX OBJ_SET_XX OBJ_KEEPTTL] in Hset. rewrite Hg, Hn in Hset. cbn [andb] in Hset. tauto.
Qed.

(** A SET that returned and changed something, on the primary. *)
Lemma set_written cfg c key val opts argss (s s' : server DB) r evs :
  0 <= mstime cfg <= INT64_MAX ->
  storable key -> db_wf (sdb s) -> (forall o, view (sdb s) !! key = Some o -> obj_wf o) ->
  Forall is_byte val -> zlen val < MAX_STRING -> Forall2 spells opts argss ->
  setCommand cfg (c :: key :: val :: concat argss) s = Ok (s', r) -> dirty s' <> dirty s -> events s' = events s ++ evs ->
  let x := expire_outcome_of (mstime cfg) (unit_of opts) (has_kind PX opts || has_kind EX opts) (time_arg opts) in
  valid COMMAND_SET opts /\ exists o, stands_for val o /\ expire_error "set" x = None /\ key_set key o (has_kind KEEPTTL opts) x s s' /\
    (has_nx opts && bool_decide (is_Some (view (sdb s) !! key))) || (has_xx opts && bool_decide (view (sdb s) !! key = None)) = false /\
    set_events key o x (set_stripped c key o (concat argss) opts) evs.
Proof.
  intros Hnow Hkey Hw Ho Hb Hl Hs Erun Hd Hevs x. destruct (undefined_options cfg COMMAND_SET opts) eqn:Hu.
  { rewrite (set_command_faults cfg Hnow c key val opts argss s) in Erun by done. done. }
  destruct (runs_set_command cfg Hnow c key val opts argss s Hkey Hw Ho Hb Hl Hs Hu) as (s'' & r' & E & Hno & Hyes).
  rewrite Erun in E. simplify_eq.
  destruct (decide (valid COMMAND_SET opts)) as [Hv|Hn]; [|exfalso; apply Hd; apply (Hno Hn)]. split; [done|].
  destruct (Hyes Hv) as (o & Hst & Hout). exists o. split; [done|].
  destruct (set_outcome_written _ _ _ _ _ _ _ _ _ _ Hout Hd) as (Herr & Hk & Hn & evs' & E' & He'). rewrite E' in Hevs. by simplify_list_eq.
Qed.

End Written.

Section Propagation.
Context {h1 h2 : Host} {DB1 DB2 : Type} {K1 : Keyspace DB1} {K2 : Keyspace DB2} {L1 : KeyspaceLaws DB1} {L2 : KeyspaceLaws DB2}.

(** The keys of two servers hold the same strings and expire at the same times. *)
Definition same_contents (s1 : server DB1) (s2 : server DB2) : Prop :=
  obj_str <$> view (sdb s1) = obj_str <$> view (sdb s2) /\ expires (sdb s1) = expires (sdb s2).

Lemma same_found s1 s2 key : same_contents s1 s2 -> is_Some (view (sdb s1) !! key) <-> is_Some (view (sdb s2) !! key).
Proof.
  intros [Hv _]. apply (f_equal (fun m => m !! key)) in Hv. rewrite !lookup_fmap in Hv.
  destruct (view (sdb s1) !! key), (view (sdb s2) !! key); try done; split; eauto; by intros [].
Qed.

Lemma key_set_same key v o1 o2 kt x s1 s2 s1' s2' :
  same_contents s1 s2 -> stands_for v o1 -> stands_for v o2 -> key_set key o1 kt x s1 s1' -> key_set key o2 kt x s2 s2' ->
  (forall t, x = At t -> expired (KeyspaceLaws := L1) t = expired (KeyspaceLaws := L2) t) -> same_contents s1' s2'.
Proof.
  intros [Hv He] [_ E1] [_ E2] [_ H1'] [_ H2'] Hx. unfold same_contents.
  destruct x as [|t| |]; [|rewrite <- (Hx t eq_refl) in H2'; destruct (expired t)| |]; destruct H1' as [-> ->], H2' as [-> ->];
    rewrite ?fmap_insert, ?fmap_delete, ?Hv, ?He, ?E1, ?E2; done.
Qed.

(** C14: A SET that changes the key space of a primary is propagated as a command that
    sets the same key to the same string with the same absolute expire time on a
    replica with the same contents.  The replica is another server: its database,
    its clock, its compiler, its byte order and its opinion on which times are over
    need not be those of the primary; where the two agree on the new time, the
    contents are the same afterwards.  A relative expire time has become an absolute
    one, and the GET options, whose reply depends on the old value, are gone. *)
Theorem set_propagation cfg cfg2 c key val opts argss (s s' : server DB1) (s2 : server DB2) r evs :
  0 <= mstime cfg <= INT64_MAX -> 0 <= mstime cfg2 <= INT64_MAX ->
  storable (KeyspaceLaws := L1) key -> db_wf (sdb s) -> (forall o, view (sdb s) !! key = Some o -> obj_wf o) ->
  storable (KeyspaceLaws := L2) key -> db_wf (sdb s2) -> (forall o, view (sdb s2) !! key = Some o -> obj_wf o) -> same_contents s s2 ->
  Forall is_byte val -> zlen val < MAX_STRING -> Forall2 spells opts argss ->
  let argv := c :: key :: val :: concat argss in
  setCommand (H := h1) cfg argv s = Ok (s', r) -> dirty s' <> dirty s -> events s' = events s ++ evs ->
  let x := expire_outcome_of (mstime cfg) (unit_of opts) (has_kind PX opts || has_kind EX opts) (time_arg opts) in
  runs (setCommand (H := h2) cfg2 (replayed argv evs)) s2 (fun s2' _ =>
    exists o1 o2, stands_for val o1 /\ stands_for val o2 /\
      key_set key o1 (has_kind KEEPTTL opts) x s s' /\ key_set key o2 (has_kind KEEPTTL opts) x s2 s2' /\
      ((forall t, x = At t -> expired (KeyspaceLaws := L1) t = expired (KeyspaceLaws := L2) t) -> same_contents s' s2')).
Proof.
  intros Hnow Hnow2 Hkey Hw Ho Hkey2 Hw2 Ho2 Hsame Hb Hl Hs argv Erun Hd Hevs x.
  destruct (set_written (H := h1) cfg c key val opts argss s s' r evs) as (Hv & o & Hst & Herr & Hk & Hn & He'); [done..|]. fold x in Herr, Hk, He'. subst argv.
  destruct (replayed_set (mstime cfg) c key val o opts argss x evs) as (c2 & opts2 & argss2 & -> & Hs2 & Hv2 & Hg2 & Hx2 & Hu2 & Hkt & Hnx & Hxx); [lia|done..|].
  eapply runs_impl; [apply (replay_sets (H := h2) cfg2 c2 key val opts2 argss2 s2); try done|].
  - by rewrite Hx2.
  - apply orb_false_iff in Hn as [Hn1 Hn2]. pose proof (same_found s s2 key Hsame) as Hf. apply orb_false_iff. split.
    + destruct (has_nx opts2); [|done]. rewrite Hnx in Hn1 by done. cbn [andb] in *. apply bool_decide_eq_false. apply bool_decide_eq_false in Hn1. tauto.
    + destruct (has_xx opts2); [|done]. rewrite Hxx in Hn2 by done. cbn [andb] in *. apply bool_decide_eq_false. apply bool_decide_eq_false in Hn2.
      intros E2. apply Hn2. apply eq_None_not_Some. rewrite Hf. by apply eq_None_not_Some.
  - intros s2' r2 (o2 & Hst2 & Hk2). rewrite Hx2 in Hk2.
    assert (key_set key o2 (has_kind KEEPTTL opts) x s2 s2') as Hk2' by (destruct Hkt as [[t Et]|Ekt]; [by rewrite Et in *|by rewrite <- Ekt]).
    exists o, o2. do 4 (split; [done|]). intros Hx. exact (key_set_same key val o o2 _ x s s2 s' s2' Hsame Hst Hst2 Hk Hk2' Hx).
Qed.

End Propagation.

(** * Examples *)

Definition sample_options : list option_ := [OTtl EX (ll_repr 100); ONx; OGet].
Definition sample_spelled : list (list (list Z)) := [[chars "ex"; ll_repr 100]; [chars "Nx"]; [chars "GET"]].

Lemma sample_spells : Forall2 spells sample_options sample_spelled.
Proof. repeat constructor. Qed.

Lemma sample_value : Forall is_byte (chars "v") /\ zlen (chars "v") < MAX_STRING.
Proof. split; [|done]. change (chars "v") with [118]. forall_list; unfold is_byte; lia. Qed.

Lemma empty_objects (key : list Z) o : view (sdb empty_server) !! key = Some o -> obj_wf o.
Proof. change (view (sdb empty_server)) with (∅ : gmap (list Z) robj). by rewrite lookup_empty. Qed.

Lemma tryObjectEncoding_canonical_witness : exists o, tryObjectEncoding sample_config (createStringObject (chars "12x")) = Ok o /\
  o = RString OBJ_ENCODING_EMBSTR 1 (chars "12x").
Proof.
  destruct (tryObjectEncoding_canonical sample_config (chars "12x")) as (o & E & _ & _ & Ho); [|done|].
  - change (chars "12x") with [49; 50; 120]. forall_list; unfold is_byte; lia.
  - exists o. split; [exact E|exact Ho].
Defined.

Lemma set_commands_correct_witness :
  exists s' r, setCommand (DB := plain_db) (H := little_host) sample_config
      (chars "SET" :: sample_key :: chars "v" :: concat sample_spelled) empty_server = Ok (s', r) /\
    exists o, stands_for (chars "v") o /\ view (sdb s') !! sample_key = Some o.
Proof.
  destruct sample_value as [Hb Hl].
  destruct (set_commands_correct (DB := plain_db) (H := little_host) sample_config ltac:(zconst; cbn; lia) (chars "SET") sample_key (chars "v") []
    sample_options sample_spelled empty_server ltac:(exact I) ltac:(exact I) (empty_objects sample_key) Hb Hl sample_spells) as [(s' & r & E & _ & Hyes) _].
  exists s', r. split; [exact E|]. destruct (Hyes ltac:(apply (bool_decide_unpack _); by vm_compute)) as (o & Ho & Hout).
  exists o. split; [exact Ho|]. destruct Hout as [[_ [Hv _]] _]. rewrite Hv. by apply lookup_insert_eq.
Defined.

(** A replica whose clock is behind and whose compiler does not wrap. *)
Definition replica_config : config := Config (512 * 1024 * 1024) true false false 1001 2003 (2 ^ 40) 1600000000000 true false false true.

Definition primary_argv : list (list Z) := chars "SET" :: sample_key :: chars "v" :: concat sample_spelled.

Definition primary_after : server plain_db :=
  match setCommand (DB := plain_db) (H := little_host) sample_config primary_argv empty_server with Ok (s, _) => s | _ => empty_server end.

Lemma primary_ok : setCommand (DB := plain_db) (H := little_host) sample_config primary_argv empty_server = Ok (primary_after, Some tt).
Proof. by vm_compute. Qed.

Lemma set_propagation_witness :
  exists s' r, setCommand (DB := plain_db) (H := big_host) replica_config (replayed primary_argv (events primary_after)) empty_server = Ok (s', r) /\
    same_contents primary_after s'.
Proof.
  destruct sample_value as [Hb Hl].
  destruct (set_propagation (DB1 := plain_db) (DB2 := plain_db) (h1 := little_host) (h2 := big_host) sample_config replica_config (chars "SET") sample_key (chars "v")
    sample_options sample_spelled empty_server primary_after empty_server (Some tt) (events primary_after) ltac:(zconst; cbn; lia) ltac:(zconst; cbn; lia)
    ltac:(exact I) ltac:(exact I) (empty_objects sample_key) ltac:(exact I) ltac:(exact I) (empty_objects sample_key) ltac:(by split) Hb Hl sample_spells primary_ok
    ltac:(by vm_compute) ltac:(done)) as (s' & r & E & o1 & o2 & _ & _ & _ & _ & Hsame).
  exists s', r. split; [exact E|]. by apply Hsame.
Defined.
