(* ===== verification/StringRanges.v ===== *)
(** Counters, ranges and several keys: what the string commands of t_string.c other
    than SET do, and that they keep the key space well-formed.

    The handlers are in [StringCommands].  Here are their specifications on the
    strings of the key space: INCR and its variants on the number a string denotes,
    SETRANGE, GETRANGE and APPEND on its bytes, MSET, MSETNX and MGET on the map. *)
From S2P Require Import Prelude Endian Util Glob Sds Object StringCommands.
From stdpp Require Import gmap list strings.

Open Scope Z_scope.

(** * Specification *)

(** The number a key counts from. *)
Definition counter (old : option robj) : option Z :=
  match old with
  | None => Some 0
  | Some o => match obj_str o with Some t => number t | None => None end
  end.

Definition overflow_err : reply_item := ReplyError "increment or decrement would overflow".

Section Specs.
Context {DB : Type} `{KeyspaceLaws DB}.

(** The key holds the object and keeps its expire time; one reply, one change, and
    the events. *)
Definition key_changed (key : list Z) (o : robj) (name : String.string) (r : reply_item) (s s' : server DB) : Prop :=
  db_wf (sdb s') /\ view (sdb s') = <[key := o]> (view (sdb s)) /\ expires (sdb s') = expires (sdb s) /\
  reply s' = reply s ++ [r] /\ dirty s' = dirty s + 1 /\
  events s' = events s ++ [SignalModifiedKey key; Notify NOTIFY_STRING name key].

(** Adding to the counter at a key. *)
Definition incr_outcome (key : list Z) (incr : Z) (s s' : server DB) : Prop :=
  match counter (view (sdb s) !! key) with
  | None => replied [if wrong_type (view (sdb s) !! key) then shared_wrongtypeerr else integer_err] s s'
  | Some v =>
      if (v + incr <? INT64_MIN) || (v + incr >? INT64_MAX) then replied [overflow_err] s s'
      else exists o, stands_for (ll_repr (v + incr)) o /\ key_changed key o "incrby" (ReplyInteger (v + incr)) s s'
  end.

End Specs.

(** The bytes from [offset] on replaced, after padding with zeroes. *)
Definition overwritten (old : list Z) (offset : Z) (value : list Z) : list Z :=
  let padded := sdsgrowzero_bytes old (offset + zlen value) in
  take (Z.to_nat offset) padded ++ value ++ drop (Z.to_nat (offset + zlen value)) padded.

(** The bytes from [start] to [end_], both counted from the end when negative and
    moved into the string. *)
Definition subrange (str : list Z) (start end_ : Z) : list Z :=
  let at_ i := if i <? 0 then Z.max 0 (zlen str + i) else i in
  if (start <? 0) && (end_ <? 0) && (start >? end_) then []
  else take (Z.to_nat (Z.min (at_ end_) (zlen str - 1) - at_ start + 1)) (drop (Z.to_nat (at_ start)) str).

(** * Lemmas *)

Section Counters.
Context `{Host} {DB : Type} `{KeyspaceLaws DB} (cfg : config).

Lemma sint64_ok v : INT64_MIN <= v <= INT64_MAX -> sint 64 v = Ok v.
Proof. intros Hv. unfold sint. zconst. ztrue (- 2 ^ (64 - 1) <=? v). by ztrue (v <? 2 ^ (64 - 1)). Qed.

(** The value stored, in place or as a new object. *)
Lemma runs_store_counter key old v (s : server DB) (Q : _ -> _ -> Prop) :
  storable key -> db_wf (sdb s) -> view (sdb s) !! key = old -> (old = None -> vacant (sdb s) key) -> INT64_MIN <= v <= INT64_MAX ->
  (forall d o, db_wf d -> view d = <[key := o]> (view (sdb s)) -> expires d = expires (sdb s) -> stands_for (ll_repr v) o ->
    Q (with_db s d) (Some tt)) ->
  runs match old with
    | Some (RInt 1 _) =>
        if ((v <? 0) || (v >=? OBJ_SHARED_INTEGERS)) && (v >=? INT64_MIN) && (v <=? INT64_MAX)
        then on_db (write_object key (RInt 1 v))
        else new ← lift (createStringObjectFromLongLongForValue cfg v); on_db (dbOverwrite key new)
    | Some _ => new ← lift (createStringObjectFromLongLongForValue cfg v); on_db (dbOverwrite key new)
    | None => new ← lift (createStringObjectFromLongLongForValue cfg v); on_db (dbAdd key new)
    end s Q.
Proof.
  intros Hkey Hw Hold Hvac Hv HQ. destruct (from_long_long_ok cfg v true Hv) as (o & Eo & Ho).
  assert (is_Some old -> runs (new ← lift (createStringObjectFromLongLongForValue cfg v); on_db (dbOverwrite key new)) s Q) as Hover.
  { intros Hs. apply runs_bind. eapply runs_lift; [exact Eo|]. apply runs_overwrite; [done..|by rewrite Hold|]. eauto. }
  assert (is_Some old -> runs (on_db (write_object key (RInt 1 v))) s Q) as Hin.
  { intros Hs. apply runs_write_object; [done..|by rewrite Hold|]. intros d ? ? ?. eapply HQ; [done..|]. split; [split; [lia|done]|done]. }
  destruct old as [[e n t|[|[]|] w|ty n]|]; eauto.
  - destruct (_ && _ && _); eauto.
  - apply runs_bind. eapply runs_lift; [exact Eo|]. apply runs_add; [done..|by apply Hvac|]. eauto.
Qed.

Lemma runs_incr_decr c key rest incr (s : server DB) :
  storable key -> db_wf (sdb s) -> (forall o, view (sdb s) !! key = Some o -> obj_wf o) -> INT64_MIN <= incr <= INT64_MAX ->
  runs (incrDecrCommand cfg (c :: key :: rest) incr) s (fun s' _ => incr_outcome key incr s s').
Proof.
  intros Hkey Hw Ho Hi. unfold incrDecrCommand, incr_outcome. apply runs_bind, (runs_arg _ _ key); [done|].
  apply runs_bind, runs_write; [done..|]. intros d Hd Hv He Hvac. set (old := view (sdb s) !! key) in *. apply runs_bind.
  destruct (wrong_type old) eqn:Et.
  { destruct old as [[| |ty n]|]; try done. unfold checkType. rewrite bool_decide_false by (by destruct (Ho _ eq_refl)).
    apply runs_reply_return. split_and!; srv; done. }
  assert (runs (checkType old OBJ_STRING) (with_db s d) (fun s1 r => r = Some tt /\ s1 = with_db s d)) as Hc.
  { destruct old as [o|]; [apply runs_check_string; [by destruct o|]|apply runs_ret]; done. }
  eapply runs_impl; [exact Hc|]. intros ? ? [-> ->]. apply runs_bind. apply runs_bind, (runs_lift _ (counter old)).
  { destruct old as [[e n t|n v|]|]; cbn; [apply number_ok| |done..]. destruct (Ho _ eq_refl) as [_ Hr]. unfold number. by rewrite string2ll_repr by exact Hr. }
  destruct (counter old) as [v|] eqn:Ev; [|by apply runs_reply_return; split_and!].
  apply runs_ret. assert (INT64_MIN <= v <= INT64_MAX) as Hvr.
  { unfold counter in Ev. destruct old as [o|]; [|simplify_eq; zconst; lia]. destruct (obj_str o); [|done]. by destruct (number_range _ _ Ev). }
  assert (((incr <? 0) && (v <? 0) && (incr <? INT64_MIN - v)) || ((incr >? 0) && (v >? 0) && (incr >? INT64_MAX - v)) =
    (v + incr <? INT64_MIN) || (v + incr >? INT64_MAX)) as -> by (zconst; lia).
  destruct (_ || _) eqn:Eo; [by apply runs_reply_return; split_and!|]. assert (INT64_MIN <= v + incr <= INT64_MAX) as Hr by lia.
  apply runs_bind. eapply runs_lift; [by apply sint64_ok|]. apply runs_bind, runs_store_counter; srv; [done|done|by rewrite Hv|done|done|].
  intros d2 o Hd2 Hv2 He2 Hst. apply runs_bind, runs_signal. apply runs_bind, runs_notify. apply runs_bind, runs_dirty. apply runs_reply.
  exists o. split; [done|]. split_and!; srv; [done|congruence..| | |]; try done. by rewrite <- app_assoc.
Qed.

(** C28: INCR, DECR, INCRBY and DECRBY add to the number the string at the key
    denotes, in its only accepted notation, or to zero when there is no key: the key
    then holds the canonical notation of the sum, whatever the encoding was, and
    keeps its expire time.  A string that is no number, a value of another type, an
    argument that is none and a sum that leaves 64 bits are answered with an error
    and change nothing; DECRBY does not negate the smallest integer. *)
Theorem incr_commands_correct c key e (s : server DB) :
  storable key -> db_wf (sdb s) -> (forall o, view (sdb s) !! key = Some o -> obj_wf o) ->
  runs (incrCommand cfg [c; key]) s (fun s' _ => incr_outcome key 1 s s') /\
  runs (decrCommand cfg [c; key]) s (fun s' _ => incr_outcome key (-1) s s') /\
  runs (incrbyCommand cfg [c; key; e]) s (fun s' _ =>
    match number e with Some incr => incr_outcome key incr s s' | None => replied [integer_err] s s' end) /\
  runs (decrbyCommand cfg [c; key; e]) s (fun s' _ =>
    match number e with
    | Some incr =>
        if incr =? INT64_MIN then replied [ReplyError "decrement would overflow"] s s' else incr_outcome key (- incr) s s'
    | None => replied [integer_err] s s'
    end).
Proof.
  intros Hkey Hw Ho. split_and!.
  - apply runs_incr_decr; [done..|]. zconst. lia.
  - apply runs_incr_decr; [done..|]. zconst. lia.
  - apply runs_bind. apply runs_bind, (runs_arg _ _ e); [done|]. apply runs_ret. apply runs_bind, runs_number.
    + intros v Ev. rewrite Ev. apply runs_incr_decr; [done..|]. by destruct (number_range _ _ Ev).
    + intros Ev. rewrite Ev. by split_and!.
  - apply runs_bind. apply runs_bind, (runs_arg _ _ e); [done|]. apply runs_ret. apply runs_bind, runs_number.
    + intros v Ev. rewrite Ev. destruct (Z.eqb_spec v INT64_MIN); [apply runs_reply_return; by split_and!|].
      apply number_range in Ev as [Hv _]. apply runs_incr_decr; [done..|]. zconst. lia.
    + intros Ev. rewrite Ev. by split_and!.
Qed.

End Counters.

Section Ranges.
Context `{Host} {DB : Type} `{KeyspaceLaws DB} (cfg : config).

(** An integer argument, read by [argo]. *)
Lemma runs_arg_number argv i e msg (s : server DB) (k : Z -> cmd DB unit) (Q : _ -> _ -> Prop) :
  argv !! Z.to_nat i = Some e ->
  (forall v, number e = Some v -> runs (k v) s Q) ->
  (number e = None -> Q (with_reply s (ReplyError (default "value is not an integer or out of range"%string msg))) None) ->
  runs (a ← argo argv i; v ← getLongLongFromObjectOrReply a msg; k v) s Q.
Proof.
  intros Ei Hs Hn. apply runs_bind. apply runs_bind, (runs_arg _ _ e); [done|]. apply runs_ret. by apply runs_bind, runs_number.
Qed.

Lemma runs_check_length size (s : server DB) (Q : _ -> _ -> Prop) :
  (if negb (mustObeyClient cfg) && (size >? proto_max_bulk_len cfg) then Q (with_reply s too_long_err) None else Q s (Some tt)) ->
  runs (checkStringLength cfg size) s Q.
Proof. unfold checkStringLength. destruct (_ && _); [apply runs_reply_return|apply runs_ret]. Qed.

Lemma wr_overwritten old off value :
  0 <= off -> wr (sdsgrowzero_bytes old (off + zlen value)) off value = Ok (overwritten old off value).
Proof. intros Ho. unfold wr. rewrite zlen_grow. ztrue (0 <=? off). by ztrue (off + zlen value <=? Z.max (zlen old) (off + zlen value)). Qed.

Lemma grow_zero n : 0 <= n -> sdsgrowzero_bytes (sdsnewlen_zero n) n = sdsgrowzero_bytes [] n.
Proof.
  intros Hn. assert (zlen (sdsnewlen_zero n) = n) as Hl by (unfold zlen, sdsnewlen_zero; rewrite length_replicate; lia).
  unfold sdsgrowzero_bytes. rewrite Hl. ztrue (n <=? n). change (zlen []) with 0. destruct (Z.leb_spec n 0).
  - by assert (n = 0) as -> by lia.
  - by rewrite Z.sub_0_r.
Qed.

Lemma overwritten_zero off value : 0 <= off ->
  overwritten (sdsnewlen_zero (off + zlen value)) off value = overwritten [] off value.
Proof. intros Ho. pose proof (zlen_nonneg value). unfold overwritten. by rewrite grow_zero by lia. Qed.

Lemma zlen_overwritten old off value : 0 <= off -> zlen (overwritten old off value) = Z.max (zlen old) (off + zlen value).
Proof. intros Ho. pose proof (wr_overwritten old off value Ho) as E. apply wr_zlen in E. by rewrite E, zlen_grow. Qed.

(** The bytes of the string at a key, none when the key is missing. *)
Definition text_of (old : option robj) : list Z := default [] (old ≫= obj_str).

(** The limit on strings, checked on the size as a signed 64-bit number. *)
Definition too_long (size : Z) : bool := negb (mustObeyClient cfg) && (wrapS 64 size >? proto_max_bulk_len cfg).

(** What APPEND does. *)
Definition append_outcome (key value : list Z) (s s' : server DB) : Prop :=
  let old := view (sdb s) !! key in
  let size := zlen (text_of old) + zlen value in
  if wrong_type old then replied [shared_wrongtypeerr] s s'
  else if bool_decide (is_Some old) && too_long size then replied [too_long_err] s s'
  else exists o, (if bool_decide (is_Some old) then o = createRawStringObject (text_of old ++ value) else stands_for value o) /\
    key_changed key o "append" (ReplyInteger size) s s'.

(** A result that passes the check but not the allocator. *)
Definition append_aborts (old : option robj) (value : list Z) : bool :=
  let size := zlen (text_of old) + zlen value in
  bool_decide (is_Some old) && negb (wrong_type old) && negb (too_long size) && (size >? alloc_limit cfg).

(** What SETRANGE does. *)
Definition setrange_outcome (key e value : list Z) (s s' : server DB) : Prop :=
  let old := view (sdb s) !! key in
  match number e with
  | None => replied [integer_err] s s'
  | Some off =>
      if off <? 0 then replied [ReplyError "offset is out of range"] s s'
      else if wrong_type old then replied [shared_wrongtypeerr] s s'
      else if zlen value =? 0 then replied [ReplyInteger (zlen (text_of old))] s s'
      else if too_long (off + zlen value) then replied [too_long_err] s s'
      else
        let new := overwritten (text_of old) off value in
        key_changed key (createRawStringObject new) "setrange" (ReplyInteger (zlen new)) s s'
  end.

Definition setrange_aborts (old : option robj) (e value : list Z) : bool :=
  match number e with
  | None => false
  | Some off =>
      let size := off + zlen value in
      (0 <=? off) && negb (wrong_type old) && (0 <? zlen value) && negb (too_long size) && (size >? alloc_limit cfg) &&
      (bool_decide (old = None) || (size >? zlen (text_of old)))
  end.

(** A string or nothing at the key. *)
Lemma string_at_text (key : list Z) (m : gmap (list Z) robj) :
  (forall o, m !! key = Some o -> obj_wf o) -> wrong_type (m !! key) = false -> string_at m key (text_of (m !! key)).
Proof. intros Ho Ht. unfold string_at. destruct (m !! key) as [o|] eqn:Ek; [|done]. split; [by apply Ho|]. by destruct o. Qed.

Lemma string_at_right (m : gmap (list Z) robj) (key str : list Z) : string_at m key str -> wrong_type (m !! key) = false /\ text_of (m !! key) = str.
Proof. unfold string_at. destruct (m !! key) as [o|]; [|by intros ->]. intros [_ E]. destruct o; try done; by simplify_eq/=. Qed.

(** The writing part of SETRANGE, on the object that is going to be changed. *)
Lemma runs_setrange_write key str off value (s : server DB) (Q : _ -> _ -> Prop) :
  storable key -> db_wf (sdb s) -> view (sdb s) !! key = Some (createRawStringObject str) -> 0 <= off -> 0 < zlen value ->
  (off + zlen value >? zlen str = true -> sds_alloc cfg (off + zlen value) = Ok tt) ->
  (forall d, let new := overwritten str off value in db_wf d -> view d = <[key := createRawStringObject new]> (view (sdb s)) ->
    expires d = expires (sdb s) ->
    Q (with_reply (with_dirty (with_event (with_event (with_db s d) (SignalModifiedKey key)) (Notify NOTIFY_STRING "setrange" key)) 1)
      (ReplyInteger (zlen new))) (Some tt)) ->
  runs (o ← (if zlen value >? 0 then
           s ← sds_of (createRawStringObject str);
           (if off + zlen value >? zlen s then lift (sds_alloc cfg (off + zlen value)) else mret tt);;
           s ← lift (wr (sdsgrowzero_bytes s (off + zlen value)) off value);
           o ← set_ptr key (createRawStringObject str) s;
           signalModifiedKey key;;
           notifyKeyspaceEvent NOTIFY_STRING "setrange" key;;
           add_dirty 1;;
           mret o
         else mret (createRawStringObject str));
    s ← sds_of o;
    addReply (ReplyInteger (zlen s))) s Q.
Proof.
  intros Hkey Hw Hk Ho Hl Ha HQ. apply runs_bind. ztrue (zlen value >? 0). apply runs_bind, runs_ret. apply runs_bind.
  assert (runs (if off + zlen value >? zlen str then lift (sds_alloc cfg (off + zlen value)) else mret tt) s (fun s1 r => s1 = s /\ r = Some tt)) as Hal.
  { destruct (off + zlen value >? zlen str); [|by apply runs_ret]. apply (runs_lift _ tt); [by apply Ha|done]. }
  eapply runs_impl; [exact Hal|]. intros s1 r [-> ->]. apply runs_bind. eapply runs_lift; [by apply wr_overwritten|].
  apply runs_bind, runs_set_ptr; [done..|by rewrite Hk|]. intros d Hd Hv He. apply runs_bind, runs_signal. apply runs_bind, runs_notify.
  apply runs_bind, runs_dirty. apply runs_ret. apply runs_bind, runs_ret. apply runs_reply. by apply HQ.
Qed.

(** The arguments of SETRANGE, up to the lookup of the key. *)
Lemma setrange_size off (e value : list Z) : number e = Some off -> 0 <= off -> zlen value < MAX_STRING -> wrapU 64 (off + zlen value) = off + zlen value.
Proof. unfold MAX_STRING. intros Ev Ho Hl. destruct (number_range _ _ Ev) as [Hr _]. pose proof (zlen_nonneg value). apply wrapU_small. zconst. lia. Qed.

Lemma runs_long e (s : server DB) (Q : _ -> _ -> Prop) :
  (forall v, number e = Some v -> Q s (Some v)) -> (number e = None -> Q (with_reply s integer_err) None) ->
  runs (getLongFromObjectOrReply (Some (createStringObject e)) None) s Q.
Proof.
  intros Hs Hn. unfold getLongFromObjectOrReply. apply runs_bind, runs_number; [|done]. intros v Ev. destruct (number_range _ _ Ev) as [Hr _].
  zfalse (v <? INT64_MIN). zfalse (v >? INT64_MAX). by apply runs_ret, Hs.
Qed.

Lemma runs_setrange c key e value (s : server DB) :
  storable key -> db_wf (sdb s) -> (forall o, view (sdb s) !! key = Some o -> obj_wf o) -> zlen value < MAX_STRING ->
  setrange_aborts (view (sdb s) !! key) e value = false ->
  runs (setrangeCommand cfg [c; key; e; value]) s (fun s' _ => setrange_outcome key e value s s').
Proof.
  intros Hkey Hw Ho Hval Hab. unfold setrangeCommand. apply runs_bind, (runs_arg _ _ value); [done|].
  apply runs_bind. apply runs_bind, (runs_arg _ _ e); [done|]. apply runs_ret. unfold setrange_outcome, setrange_aborts in *. apply runs_bind, runs_long.
  2: { intros ->. by split_and!. }
  intros off Ev. rewrite Ev in *. destruct (Z.ltb_spec off 0); [apply runs_reply_return; by split_and!|]. pose proof (zlen_nonneg value).
  apply runs_bind, (runs_arg _ _ key); [done|]. cbv zeta in *. rewrite (setrange_size off e) by done.
  apply runs_bind, runs_write; [done..|]. intros d Hd Hv He Hvac. apply runs_bind. ztrue (0 <=? off). cbn [andb] in Hab.
  destruct (view (sdb s) !! key) as [o|] eqn:Hk.
  - specialize (Ho o eq_refl). destruct (wrong_type (Some o)) eqn:Ht.
    { apply runs_bind. unfold checkType. rewrite bool_decide_false by (by destruct o, Ho). apply runs_reply_return. by split_and!. }
    assert (obj_str o = Some (text_of (Some o))) as Hst by (by destruct o). set (old := text_of (Some o)) in *.
    apply runs_bind, runs_check_string; [by destruct o|]. apply runs_bind, (runs_lift _ (zlen old)); [by apply string_len_ok|].
    destruct (Z.eqb_spec (zlen value) 0); [apply runs_reply_return; by split_and!|]. apply runs_bind, runs_check_length. fold (too_long (off + zlen value)).
    destruct (too_long _) eqn:El; [by split_and!|].
    apply (runs_unshare _ _ old); [done|done|srv; by rewrite Hv|done..|]. srv. intros d2 Hd2 Hv2 He2.
    apply runs_setrange_write; srv; [done|done|rewrite Hv2; by rewrite lookup_insert_eq|done|lia| |].
    { intros Hg. unfold sds_alloc. rewrite Hg in Hab. ztrue (0 <? zlen value). rewrite orb_true_r, andb_true_r in Hab. cbn [andb negb] in Hab. by ztrue (off + zlen value <=? alloc_limit cfg). }
    intros d3 Hd3 Hv3 He3.
    split_and!; srv; [done|rewrite Hv3, Hv2, Hv; by rewrite insert_insert_eq|congruence|done|done|by rewrite <- app_assoc].
  - cbn [wrong_type]. change (text_of None) with (@nil Z) in *.
    destruct (Z.eqb_spec (zlen value) 0); [apply runs_reply_return; by split_and!|]. apply runs_bind, runs_check_length. fold (too_long (off + zlen value)).
    destruct (too_long _) eqn:El; [by split_and!|].
    assert (sds_alloc cfg (off + zlen value) = Ok tt) as Ha.
    { unfold sds_alloc. ztrue (0 <? zlen value). rewrite bool_decide_true, andb_true_r in Hab by done. cbn [andb negb wrong_type] in Hab. by ztrue (off + zlen value <=? alloc_limit cfg). }
    apply runs_bind, (runs_lift _ tt); [done|].
    apply runs_bind, runs_add; [done..|by apply Hvac|]. srv. intros d2 Hd2 Hv2 He2. apply runs_ret.
    apply runs_setrange_write; srv; [done|done|rewrite Hv2; by rewrite lookup_insert_eq|done|lia|done|]. intros d3 Hd3 Hv3 He3. rewrite overwritten_zero in * by done.
    split_and!; srv; [done|rewrite Hv3, Hv2, Hv; by rewrite insert_insert_eq|congruence|done|done|by rewrite <- app_assoc].
Qed.

(** A size that passes the check and cannot be allocated. *)
Lemma setrange_panics c key e value (s : server DB) :
  storable key -> db_wf (sdb s) -> (forall o, view (sdb s) !! key = Some o -> obj_wf o) -> zlen value < MAX_STRING ->
  setrange_aborts (view (sdb s) !! key) e value = true -> setrangeCommand cfg [c; key; e; value] s = Panic.
Proof.
  intros Hkey Hw Ho Hval Hab. unfold setrange_aborts in Hab. destruct (number e) as [off|] eqn:Ev; [|done]. cbv zeta in Hab. rewrite !andb_true_iff, !negb_true_iff in Hab.
  destruct Hab as [[[[[Hoff Ht] Hl] El] Hal] Hg]. assert (sds_alloc cfg (off + zlen value) = Panic) as Ha by (unfold sds_alloc; by zfalse (off + zlen value <=? alloc_limit cfg)).
  unfold setrangeCommand. apply bind_ends, (runs_arg _ _ value); [done|]. apply bind_ends. apply runs_bind, (runs_arg _ _ e); [done|]. apply runs_ret.
  apply bind_ends, runs_long; [|congruence]. intros v Ev'. simplify_eq. zfalse (off <? 0). apply bind_ends, (runs_arg _ _ key); [done|]. cbv zeta.
  rewrite (setrange_size off e) by (done || lia). apply bind_ends, runs_write; [done..|]. intros d Hd Hv He Hvac. zfalse (zlen value =? 0).
  destruct (view (sdb s) !! key) as [o|] eqn:Hk.
  - specialize (Ho o eq_refl). assert (obj_str o = Some (text_of (Some o))) as Hst by (by destruct o). set (old := text_of (Some o)) in *.
    apply bind_ends. apply runs_bind, runs_check_string; [by destruct o|]. apply runs_bind, (runs_lift _ (zlen old)); [by apply string_len_ok|].
    apply runs_bind, runs_check_length. fold (too_long (off + zlen value)). rewrite El.
    apply (runs_unshare _ _ old); [done|done|srv; by rewrite Hv|done..|]. srv. intros d2 Hd2 Hv2 He2. ztrue (zlen value >? 0).
    rewrite bool_decide_false in Hg by done. cbn [orb] in Hg. unfold sds_of, createRawStringObject. unfold mbind, cmd_bind, mret, cmd_ret, lift. by rewrite Hg, Ha.
  - unfold mbind at 1, cmd_bind at 1. rewrite (bind_ends _ _ _ Panic); [done|]. apply runs_check_length. fold (too_long (off + zlen value)). rewrite El.
    unfold mbind, cmd_bind, lift. by rewrite Ha.
Qed.

Lemma runs_lookup_read_string key r (s : server DB) (k : robj -> cmd DB unit) (Q : _ -> _ -> Prop) :
  storable key -> db_wf (sdb s) -> (forall o, view (sdb s) !! key = Some o -> obj_wf o) ->
  let old := view (sdb s) !! key in
  (old = None -> forall s', replied [r] s s' -> Q s' None) ->
  (wrong_type old = true -> forall s', replied [shared_wrongtypeerr] s s' -> Q s' None) ->
  (forall o str d, old = Some o -> obj_wf o -> obj_str o = Some str -> db_wf d -> view d = view (sdb s) -> expires d = expires (sdb s) ->
    runs (k o) (with_db s d) Q) ->
  runs (o ← lookupKeyReadOrReply key r; checkType (Some o) OBJ_STRING;; k o) s Q.
Proof.
  intros Hkey Hw Ho old Hnone Hwrong Hk. apply runs_bind. apply runs_bind, runs_read; [done..|]. intros d Hd Hv He. fold old.
  destruct old as [o|] eqn:Eo; [|apply runs_reply_return, Hnone; [done|by split_and!]]. apply runs_ret. apply runs_bind. specialize (Ho o Eo).
  destruct o as [e n t|n v|ty n].
  - apply runs_check_string; [done|]. by eapply Hk.
  - apply runs_check_string; [done|]. by eapply Hk.
  - unfold checkType. rewrite bool_decide_false by (by destruct Ho). apply runs_reply_return, Hwrong; [done|by split_and!].
Qed.

Lemma runs_read_wrong key r k (s : server DB) :
  storable key -> db_wf (sdb s) -> (forall o, view (sdb s) !! key = Some o -> obj_wf o) -> wrong_type (view (sdb s) !! key) = true ->
  runs (o ← lookupKeyReadOrReply key r; checkType (Some o) OBJ_STRING;; k o) s (fun s' (_ : option unit) => replied [shared_wrongtypeerr] s s').
Proof.
  intros Hkey Hw Ho Ht. apply runs_lookup_read_string; [done..| | |].
  - intros E. by rewrite E in Ht.
  - by intros _ s' Hr.
  - intros o str d Eo _ Hstr. rewrite Eo in Ht. by destruct o.
Qed.

(** The text of a string object. *)
Lemma runs_text o str (s : server DB) (Q : _ -> _ -> Prop) :
  obj_wf o -> obj_str o = Some str -> Q s (Some str) ->
  runs match o with RInt _ v => lift (ll_text 32 v) | _ => sds_of o end s Q.
Proof.
  intros Ho Hs HQ. destruct o as [e n t|n v|]; cbn in Hs; simplify_eq; [by apply runs_ret|].
  apply (runs_lift _ (ll_repr v)); [|done]. apply ll_text_ok; [done|]. by destruct Ho.
Qed.

Lemma rd_subrange str i j : 0 <= i -> j < zlen str -> (i >? j) || (zlen str =? 0) = false ->
  rd str i (j - i + 1) = Ok (take (Z.to_nat (j - i + 1)) (drop (Z.to_nat i) str)).
Proof. intros Hi Hj Hc. unfold rd. ztrue (0 <=? i). ztrue (0 <=? j - i + 1). by ztrue (i + (j - i + 1) <=? zlen str). Qed.

Lemma runs_getrange c key e1 e2 old (s : server DB) :
  storable key -> db_wf (sdb s) -> string_at (view (sdb s)) key old ->
  runs (getrangeCommand [c; key; e1; e2]) s (fun s' _ =>
    match number e1, number e2 with
    | Some start, Some end_ => replied [ReplyBulk (subrange old start end_)] s s'
    | _, _ => replied [integer_err] s s'
    end).
Proof.
  intros Hkey Hw Hold. pose proof (string_at_wf _ _ _ Hold) as [_ Hlen]. unfold MAX_STRING in Hlen. pose proof (zlen_nonneg old).
  unfold getrangeCommand. apply (runs_arg_number _ _ e1); [done| |intros ->; by split_and!]. intros start E1.
  apply (runs_arg_number _ _ e2); [done| |intros ->; rewrite E1; by split_and!]. intros end_ E2. rewrite E1, E2.
  destruct (number_range _ _ E1) as [Hr1 _], (number_range _ _ E2) as [Hr2 _]. apply runs_bind, (runs_arg _ _ key); [done|].
  apply runs_bind. apply runs_bind, runs_read; [done..|]. intros d Hd Hv He. unfold string_at in Hold. destruct (view (sdb s) !! key) as [o|] eqn:Hk.
  2: { subst old. apply runs_reply_return. unfold subrange. rewrite drop_nil, take_nil. destruct (_ && _); by split_and!. }
  destruct Hold as [Ho Hst]. apply runs_ret. apply runs_bind, runs_check_string; [by destruct o|]. apply runs_bind, (runs_text _ old); [done..|].
  cbv zeta. unfold subrange. destruct (_ && _ && _); [apply runs_reply_return; by split_and!|].
  assert (forall i, INT64_MIN <= i -> (let j := if i <? 0 then wrapS 64 (zlen old + i) else i in if j <? 0 then 0 else j) =
    (if i <? 0 then Z.max 0 (zlen old + i) else i)) as Hat.
  { intros i Hi. cbv zeta. destruct (Z.ltb_spec i 0); [|by zfalse (i <? 0)]. rewrite wrapS_small by (zconst; lia). destruct (Z.ltb_spec (zlen old + i) 0); lia. }
  cbv zeta in Hat. rewrite !Hat by lia. set (i := if start <? 0 then _ else _). set (j := if end_ <? 0 then _ else _).
  assert (0 <= i <= INT64_MAX) as Hi by (unfold i; destruct (Z.ltb_spec start 0); zconst; lia).
  assert (0 <= j <= INT64_MAX) as Hj by (unfold j; destruct (Z.ltb_spec end_ 0); zconst; lia). clearbody i j.
  rewrite (wrapU_small _ j), (wrapS_small _ (zlen old - 1)) by (zconst; lia).
  assert ((if j >=? zlen old then zlen old - 1 else j) = Z.min j (zlen old - 1)) as -> by (destruct (Z.geb_spec j (zlen old)); lia).
  destruct (_ || _) eqn:Ec.
  - apply runs_reply. assert (take (Z.to_nat (Z.min j (zlen old - 1) - i + 1)) (drop (Z.to_nat i) old) = []) as ->; [|by split_and!].
    destruct (Z.eqb_spec (zlen old) 0) as [E0|]; [destruct old; [by rewrite drop_nil, take_nil|rewrite zlen_cons in E0; pose proof (zlen_nonneg old); lia]|].
    by replace (Z.to_nat _) with 0%nat by lia.
  - apply runs_bind. eapply runs_lift; [apply rd_subrange; [lia|lia|done]|]. apply runs_reply. by split_and!.
Qed.

Lemma append_size (key : list Z) (s : server DB) (value : list Z) : (forall o, view (sdb s) !! key = Some o -> obj_wf o) -> zlen value < MAX_STRING ->
  let size := zlen (text_of (view (sdb s) !! key)) + zlen value in wrapU 64 size = size.
Proof.
  intros Ho Hl size. unfold MAX_STRING in Hl. pose proof (zlen_nonneg value). pose proof (zlen_nonneg (text_of (view (sdb s) !! key))). apply wrapU_small.
  destruct (wrong_type (view (sdb s) !! key)) eqn:Ht.
  - assert (text_of (view (sdb s) !! key) = []) as E by (by destruct (view (sdb s) !! key) as [[]|]). unfold size. rewrite E. change (zlen []) with 0. zconst. lia.
  - destruct (string_at_wf _ _ _ (string_at_text key _ Ho Ht)) as [_ Hlen]. unfold MAX_STRING in Hlen. unfold size. zconst. lia.
Qed.

Lemma runs_append c key value (s : server DB) :
  storable key -> db_wf (sdb s) -> (forall o, view (sdb s) !! key = Some o -> obj_wf o) -> Forall is_byte value -> zlen value < MAX_STRING ->
  append_aborts (view (sdb s) !! key) value = false ->
  runs (appendCommand cfg [c; key; value]) s (fun s' _ => append_outcome key value s s').
Proof.
  intros Hkey Hw Ho Hb Hval Hab. pose proof (append_size key s value Ho Hval) as Hsize. unfold appendCommand, append_outcome, append_aborts in *. cbv zeta in *.
  apply runs_bind, (runs_arg _ _ key); [done|]. apply runs_bind, (runs_arg _ _ value); [done|]. apply runs_bind, runs_write; [done..|].
  intros d Hd Hv He Hvac. apply runs_bind. destruct (view (sdb s) !! key) as [o|] eqn:Hk.
  - rewrite bool_decide_true in * by (by eexists). cbn [andb] in *. specialize (Ho o eq_refl). destruct (wrong_type (Some o)) eqn:Ht.
    { apply runs_bind. unfold checkType. rewrite bool_decide_false by (by destruct o, Ho). apply runs_reply_return. by split_and!. }
    assert (obj_str o = Some (text_of (Some o))) as Hst by (by destruct o). set (old := text_of (Some o)) in *.
    apply runs_bind, runs_check_string; [by destruct o|]. apply runs_bind, (runs_lift _ (zlen old)); [by apply string_len_ok|]. rewrite Hsize.
    apply runs_bind, runs_check_length. fold (too_long (zlen old + zlen value)). destruct (too_long _) eqn:El; [by split_and!|].
    apply runs_bind, (runs_unshare _ _ old); [done|done|srv; by rewrite Hv|done..|]. srv. intros d2 Hd2 Hv2 He2. apply runs_bind, runs_ret.
    apply runs_bind, (runs_lift _ tt); [unfold sds_alloc; cbn [negb andb] in Hab; by ztrue (zlen old + zlen value <=? alloc_limit cfg)|].
    apply runs_bind, runs_set_ptr; srv; [done|done|rewrite Hv2; by rewrite lookup_insert_eq|].
    intros d3 Hd3 Hv3 He3. apply runs_bind, runs_ret, runs_ret. apply runs_bind, runs_signal. apply runs_bind, runs_notify. apply runs_bind, runs_dirty.
    apply runs_reply. eexists. split; [|split_and!; srv]; [done|done|rewrite Hv3, Hv2, Hv; by rewrite insert_insert_eq|congruence|by rewrite zlen_app|done|by rewrite <- app_assoc].
  - rewrite bool_decide_false by (by intros []). cbn [wrong_type andb]. apply runs_bind, (runs_encode_arg _ _ _ value); [done..|]. intros o _ Hso. pose proof Hso as [Hwf Hst].
    apply runs_bind, runs_add; srv; [done|done|by apply Hvac|]. intros d2 Hd2 Hv2 He2. apply (runs_lift _ (zlen value)); [by apply string_len_ok|].
    apply runs_bind, runs_signal. apply runs_bind, runs_notify. apply runs_bind, runs_dirty. apply runs_reply. exists o. split; [done|].
    split_and!; srv; [done|congruence|congruence|done|done|by rewrite <- app_assoc].
Qed.

Lemma append_panics c key value (s : server DB) :
  storable key -> db_wf (sdb s) -> (forall o, view (sdb s) !! key = Some o -> obj_wf o) -> zlen value < MAX_STRING ->
  append_aborts (view (sdb s) !! key) value = true -> appendCommand cfg [c; key; value] s = Panic.
Proof.
  intros Hkey Hw Ho Hval Hab. pose proof (append_size key s value Ho Hval) as Hsize. unfold append_aborts in Hab. cbv zeta in *. rewrite !andb_true_iff, !negb_true_iff in Hab.
  destruct Hab as [[[Hex%bool_decide_eq_true Ht] El] Hal]. destruct Hex as [o Hk]. rewrite Hk in *. specialize (Ho o eq_refl).
  assert (obj_str o = Some (text_of (Some o))) as Hst by (by destruct o). set (old := text_of (Some o)) in *.
  unfold appendCommand. apply bind_ends, (runs_arg _ _ key); [done|]. apply bind_ends, (runs_arg _ _ value); [done|]. apply bind_ends, runs_write; [done..|].
  intros d Hd Hv He _. rewrite Hk. unfold mbind at 1, cmd_bind at 1. rewrite (bind_ends _ _ _ Panic); [done|]. apply runs_check_string; [by destruct o|].
  apply bind_ends, (runs_lift _ (zlen old)); [by apply string_len_ok|]. rewrite Hsize. apply bind_ends, runs_check_length. fold (too_long (zlen old + zlen value)). rewrite El.
  apply bind_ends, (runs_unshare _ _ old); [done|done|srv; by rewrite Hv|done..|]. intros d2 _ _ _. unfold sds_of, createRawStringObject, mbind, cmd_bind, mret, cmd_ret, lift, sds_alloc.
  by zfalse (zlen old + zlen value <=? alloc_limit cfg).
Qed.

Lemma runs_strlen c key old (s : server DB) :
  storable key -> db_wf (sdb s) -> string_at (view (sdb s)) key old ->
  runs (strlenCommand [c; key]) s (fun s' _ => replied [ReplyInteger (zlen old)] s s').
Proof.
  intros Hkey Hw Hold. unfold strlenCommand. apply runs_bind, (runs_arg _ _ key); [done|]. apply runs_bind. apply runs_bind, runs_read; [done..|].
  intros d Hd Hv He. unfold string_at in Hold. destruct (view (sdb s) !! key) as [o|]; [|subst old; apply runs_reply_return; by split_and!].
  destruct Hold as [Ho Hst]. apply runs_ret. apply runs_bind, runs_check_string; [by destruct o|].
  apply runs_bind, (runs_lift _ (zlen old)); [by apply string_len_ok|]. apply runs_reply. by split_and!.
Qed.

(** C29: The commands on ranges act on the bytes of the string, whatever its encoding
    and whether it is shared: SETRANGE overwrites from the offset on, padding with
    zeroes, GETRANGE answers the bytes between two positions, negative ones counted
    from the end, APPEND appends and STRLEN counts.  A key that is missing is an
    empty string; arguments that are no integers, negative offsets, keys of another
    type and results longer than the limit are answered with an error and change
    nothing.  The process ends in one case only: a result that passes the check on
    its length, which SETRANGE makes after the sum has wrapped at 64 bits, and that
    the allocator cannot serve ([setrange_aborts], [append_aborts]). *)
Theorem range_commands_correct c key e e' value (s : server DB) :
  storable key -> db_wf (sdb s) -> (forall o, view (sdb s) !! key = Some o -> obj_wf o) -> Forall is_byte value -> zlen value < MAX_STRING ->
  let old := view (sdb s) !! key in
  (if setrange_aborts old e value then setrangeCommand cfg [c; key; e; value] s = Panic
   else runs (setrangeCommand cfg [c; key; e; value]) s (fun s' _ => setrange_outcome key e value s s')) /\
  runs (getrangeCommand [c; key; e; e']) s (fun s' _ =>
    match number e, number e' with
    | Some start, Some end_ => replied [if wrong_type old then shared_wrongtypeerr else ReplyBulk (subrange (text_of old) start end_)] s s'
    | _, _ => replied [integer_err] s s'
    end) /\
  (if append_aborts old value then appendCommand cfg [c; key; value] s = Panic
   else runs (appendCommand cfg [c; key; value]) s (fun s' _ => append_outcome key value s s')) /\
  runs (strlenCommand [c; key]) s (fun s' _ => replied [if wrong_type old then shared_wrongtypeerr else ReplyInteger (zlen (text_of old))] s s').
Proof.
  intros Hkey Hw Ho Hb Hl old. split_and!.
  - destruct (setrange_aborts _ _ _) eqn:Ea; [by apply setrange_panics|by apply runs_setrange].
  - destruct (wrong_type old) eqn:Et; [|by apply runs_getrange, string_at_text].
    unfold getrangeCommand. apply (runs_arg_number _ _ e); [done| |intros ->; by split_and!]. intros start ->.
    apply (runs_arg_number _ _ e'); [done| |intros ->; by split_and!]. intros end_ ->. apply runs_bind, (runs_arg _ _ key); [done|]. by apply runs_read_wrong.
  - destruct (append_aborts _ _) eqn:Ea; [by apply append_panics|by apply runs_append].
  - destruct (wrong_type old) eqn:Et; [|by apply runs_strlen, string_at_text].
    unfold strlenCommand. apply runs_bind, (runs_arg _ _ key); [done|]. by apply runs_read_wrong.
Qed.

(** C31: The sum of the offset and the length of the value is computed in 64 bits and
    checked against the limit on strings as a signed number: for an offset close
    enough to the largest integer it is negative and passes, so that SETRANGE from
    an ordinary client asks for 2^63 bytes or more and takes the server down instead
    of answering with an error. *)
Theorem setrange_overflow_aborts c key value off (s : server DB) :
  storable key -> db_wf (sdb s) -> view (sdb s) !! key = None -> mustObeyClient cfg = false ->
  0 < zlen value < MAX_STRING -> off <= INT64_MAX -> INT64_MAX < off + zlen value ->
  0 <= proto_max_bulk_len cfg -> alloc_limit cfg <= INT64_MAX ->
  setrangeCommand cfg [c; key; ll_repr off; value] s = Panic.
Proof.
  intros Hkey Hw Hk Hm Hval Hoff Hover Hlim Hal. unfold MAX_STRING in *.
  assert (INT64_MIN <= off <= INT64_MAX) as Hr by (zconst; lia). assert (0 <= off /\ off + zlen value - 2 ^ 64 < 0) as [Hpos Hneg] by (zconst; lia).
  unfold setrangeCommand. change (arg [c; key; ll_repr off; value] 3) with (mret (M := cmd DB) value).
  rewrite (cmd_bind_ok _ _ s s value) by done. rewrite (cmd_bind_ok _ _ s s (Some (createStringObject (ll_repr off)))) by done.
  rewrite (cmd_bind_ok _ _ s s off).
  2: { unfold getLongFromObjectOrReply. rewrite (cmd_bind_ok _ _ s s off); [zfalse (off <? INT64_MIN); by zfalse (off >? INT64_MAX)|].
    unfold getLongLongFromObjectOrReply. rewrite (cmd_bind_ok _ _ s s (Some off)); [done|]. unfold createStringObject.
    destruct (_ <=? _); unfold lift, getLongLongFromObject; cbn [createRawStringObject]; by rewrite string2ll_repr. }
  zfalse (off <? 0). change (arg [c; key; ll_repr off; value] 1) with (mret (M := cmd DB) key). rewrite (cmd_bind_ok _ _ s s key) by done.
  cbv zeta. rewrite wrapU_small by (zconst; lia). destruct (lookup_write_ok key (sdb s) Hkey Hw) as (d & E & _). rewrite Hk in E.
  rewrite (cmd_bind_ok _ _ s (with_db s d) None) by (unfold on_db, lookupKeyWrite; by rewrite E).
  zfalse (zlen value =? 0). assert (wrapS 64 (off + zlen value) = off + zlen value - 2 ^ 64) as ->.
  { unfold wrapS. zconst. replace (off + zlen value + 2 ^ (64 - 1)) with (off + zlen value - 2 ^ 63 + 1 * 2 ^ 64) by lia. rewrite Z.mod_add, Z.mod_small by lia. lia. }
  unfold checkStringLength. zfalse (off + zlen value - 2 ^ 64 >? proto_max_bulk_len cfg). rewrite andb_false_r.
  unfold mbind at 1, cmd_bind at 1. rewrite (cmd_bind_ok _ _ _ (with_db s d) tt) by done.
  unfold mbind, cmd_bind, sds_alloc. by zfalse (off + zlen value <=? alloc_limit cfg).
Qed.

End Ranges.

(** ** Several keys *)

Section Multi.
Context `{Host} {DB : Type} `{KeyspaceLaws DB} (cfg : config).

Definition mset_args (ps : list (list Z * list Z)) : list (list Z) := concat ((fun p => [p.1; p.2]) <$> ps).

(** The keys hold the values, the last one when a key is repeated, and no key has
    an expire time. *)
Definition mset_outcome (ps : list (list Z * list Z)) (r : reply_item) (s s' : server DB) : Prop :=
  db_wf (sdb s') /\
  (exists os, Forall2 (fun p o => stands_for p.2 o) ps os /\
    view (sdb s') = foldl (fun m po => <[po.1 := po.2]> m) (view (sdb s)) (zip ps.*1 os)) /\
  expires (sdb s') = foldl (fun m k => delete k m) (expires (sdb s)) ps.*1 /\
  reply s' = reply s ++ [r] /\ dirty s' = dirty s + zlen ps /\
  events s' = events s ++ concat ((fun k => [SignalModifiedKey k; Notify NOTIFY_STRING "set" k]) <$> ps.*1).

Definition mget_reply (old : option robj) : reply_item :=
  match old with
  | Some o => match obj_str o with Some t => ReplyBulk t | None => ReplyNull end
  | None => ReplyNull
  end.

Lemma runs_mset_loop ps (s : server DB) (Q : _ -> _ -> Prop) :
  Forall storable ps.*1 -> db_wf (sdb s) -> Forall (fun p => Forall is_byte p.2 /\ zlen p.2 < MAX_STRING) ps ->
  (forall d os, db_wf d -> Forall2 (fun p o => stands_for p.2 o) ps os ->
    view d = foldl (fun m po => <[po.1 := po.2]> m) (view (sdb s)) (zip ps.*1 os) ->
    expires d = foldl (fun m k => delete k m) (expires (sdb s)) ps.*1 ->
    Q (Server d (reply s) (dirty s) (events s ++ concat ((fun k => [SignalModifiedKey k; Notify NOTIFY_STRING "set" k]) <$> ps.*1))) (Some tt)) ->
  runs (mset_loop cfg (mset_args ps)) s Q.
Proof.
  revert s Q. induction ps as [|[k v] ps IH]; intros s Q Hks Hw Hp HQ.
  { apply runs_ret. destruct s as [d r dt e]. specialize (HQ d []). rewrite app_nil_r in HQ. by apply HQ. }
  inversion Hp as [|? ? [Hb Hl] Hp2]; subst. apply Forall_cons in Hks as [Hk Hks]. cbn [mset_args fmap list_fmap concat app mset_loop fst snd] in *. fold (mset_args ps).
  destruct (encode_arg_ok cfg v Hb Hl) as (o & Eo & Ho). apply runs_bind. eapply runs_lift; [exact Eo|]. apply runs_bind, runs_set_key; [done..|].
  intros d Hd Hv He. apply runs_bind, runs_notify. apply IH; srv; [done..|]. intros d2 os Hd2 Hos Hv2 He2.
  specialize (HQ d2 (o :: os) Hd2). rewrite <- !app_assoc. apply HQ; [by constructor| |]; cbn [zip zip_with foldl fst snd].
  - by rewrite Hv2, Hv.
  - by rewrite He2, He.
Qed.

Lemma runs_msetnx_loop ps (s : server DB) (Q : _ -> _ -> Prop) :
  Forall storable ps.*1 -> db_wf (sdb s) ->
  (forall s', replied [] s s' -> Forall (fun k => view (sdb s) !! k = None) ps.*1 -> Q s' (Some tt)) ->
  (forall s', replied [shared_czero] s s' -> Exists (fun k => is_Some (view (sdb s) !! k)) ps.*1 -> Q s' None) ->
  runs (msetnx_loop (mset_args ps)) s Q.
Proof.
  revert s Q. induction ps as [|[k v] ps IH]; intros s Q Hks Hw Hyes Hno.
  { apply runs_ret, Hyes; [|constructor]. split_and!; try done. by rewrite app_nil_r. }
  apply Forall_cons in Hks as [Hk Hks]. cbn [mset_args fmap list_fmap concat app msetnx_loop fst snd] in *. fold (mset_args ps). apply runs_bind, runs_write; [done..|].
  intros d Hd Hv He _. destruct (view (sdb s) !! k) as [o|] eqn:Ek.
  - apply runs_reply_return, Hno; [by split_and!|]. constructor. by rewrite Ek.
  - apply IH; srv; [done|done|..]; rewrite Hv; intros s' Hr Hf.
    + apply Hyes; [|by constructor]. by destruct Hr as (?&?&?&?&?&?); split_and!; srv; congruence.
    + apply Hno; [|by constructor]. by destruct Hr as (?&?&?&?&?&?); split_and!; srv; congruence.
Qed.

Lemma runs_mget_loop keys (s : server DB) :
  Forall storable keys -> db_wf (sdb s) -> (forall k o, view (sdb s) !! k = Some o -> obj_wf o) ->
  runs (mget_loop keys) s (fun s' _ => replied ((fun k => mget_reply (view (sdb s) !! k)) <$> keys) s s').
Proof.
  revert s. induction keys as [|k keys IH]; intros s Hks Hw Ho.
  { apply runs_ret. split_and!; try done. by rewrite app_nil_r. }
  apply Forall_cons in Hks as [Hk Hks]. cbn [mget_loop fmap list_fmap]. apply runs_bind, runs_read; [done..|]. intros d Hd Hv He. apply runs_bind.
  assert (forall r, (fun s' (u : option unit) => match u with Some _ =>
    runs (mget_loop keys) s' (fun s2 _ => replied (r :: ((fun k => mget_reply (view (sdb s) !! k)) <$> keys)) s s2)
    | None => replied (r :: ((fun k => mget_reply (view (sdb s) !! k)) <$> keys)) s s' end) (with_reply (with_db s d) r) (Some tt)) as Hnext.
  { intros r. eapply runs_impl; [apply IH; srv; [done|done|by rewrite Hv]|]. srv. rewrite Hv. intros s2 _ (? & Hv2 & He2 & Hr2 & Hd2 & Hev2).
    srv. split_and!; [done|congruence..| |done|done]. by rewrite Hr2, <- app_assoc. }
  destruct (view (sdb s) !! k) as [o|] eqn:Ek; [|by apply runs_reply, Hnext]. specialize (Ho _ _ Ek).
  destruct o as [e n t|n v|ty n]; cbn [type mget_reply obj_str] in *.
  - rewrite bool_decide_true by done. by apply (runs_reply_bulk _ t), Hnext.
  - rewrite bool_decide_true by done. by apply (runs_reply_bulk _ (ll_repr v)), Hnext.
  - rewrite bool_decide_false by (by destruct Ho). by apply runs_reply, Hnext.
Qed.

Lemma zlen_mset_args ps : zlen (mset_args ps) = 2 * zlen ps.
Proof. induction ps as [|p ps IH]; [done|]. cbn [mset_args fmap list_fmap concat app]. fold (mset_args ps). rewrite !zlen_cons. lia. Qed.

Lemma runs_mset name c ps nx (s : server DB) :
  Forall storable ps.*1 -> db_wf (sdb s) -> Forall (fun p => Forall is_byte p.2 /\ zlen p.2 < MAX_STRING) ps ->
  runs (msetGenericCommand cfg name (c :: mset_args ps) nx) s (fun s' _ =>
    if (nx : bool) then
      (Forall (fun k => view (sdb s) !! k = None) ps.*1 /\ mset_outcome ps shared_cone s s') \/
      (Exists (fun k => is_Some (view (sdb s) !! k)) ps.*1 /\ replied [shared_czero] s s')
    else mset_outcome ps shared_ok s s').
Proof.
  intros Hks Hw Hp. pose proof (zlen_mset_args ps) as Hl. assert (zlen (c :: mset_args ps) `mod` 2 = 1) as Hodd by (rewrite zlen_cons, Hl; zdiv).
  assert (forall s0 r, db_wf (sdb s0) ->
    runs (mset_loop cfg (mset_args ps);; add_dirty ((zlen (c :: mset_args ps) - 1) / 2);; addReply r) s0 (fun s' _ => mset_outcome ps r s0 s')) as Hset.
  { intros s0 r Hw0. apply runs_bind, runs_mset_loop; [done..|]. intros d os Hd Hos Hv He. apply runs_bind, runs_dirty. apply runs_reply.
    split_and!; srv; try done; [by exists os|]. rewrite zlen_cons, Hl. f_equal. zdiv. }
  unfold msetGenericCommand. rewrite Hodd. cbn [Z.eqb drop]. apply runs_bind. destruct nx; [|by apply runs_ret, Hset]. apply runs_msetnx_loop; [done|done|..].
  - intros s1 (Hw1 & Hv1 & He1 & Hr1 & Hd1 & Hev1) Hf. eapply runs_impl; [by apply (Hset s1)|]. intros s' _ (? & (os & ? & Hv) & He & Hr & Hd & Hev).
    left. split; [done|]. rewrite app_nil_r in Hr1. rewrite Hv1, He1, Hr1, Hd1, Hev1 in *. split_and!; try done. by exists os.
  - intros s1 Hr Hex. by right.
Qed.

Lemma runs_mset_arity name c ps k nx (s : server DB) :
  db_wf (sdb s) -> runs (msetGenericCommand cfg name (c :: mset_args ps ++ [k]) nx) s (fun s' _ => replied [arity_err name] s s').
Proof.
  intros Hw. unfold msetGenericCommand.
  assert (zlen (c :: mset_args ps ++ [k]) `mod` 2 = 0) as -> by (rewrite zlen_cons, zlen_app, zlen_mset_args; change (zlen [k]) with 1; zdiv).
  apply runs_reply_return. by split_and!.
Qed.

Lemma runs_mget c keys (s : server DB) :
  Forall storable keys -> db_wf (sdb s) -> (forall k o, view (sdb s) !! k = Some o -> obj_wf o) ->
  runs (mgetCommand (c :: keys)) s (fun s' _ =>
    replied (ReplyArrayLen (zlen keys) :: ((fun k => mget_reply (view (sdb s) !! k)) <$> keys)) s s').
Proof.
  intros Hks Hw Ho. unfold mgetCommand. apply runs_bind, runs_reply. rewrite zlen_cons. replace (1 + zlen keys - 1) with (zlen keys) by lia. cbn [drop].
  eapply runs_impl; [by apply runs_mget_loop|]. srv. intros s2 _ (? & ? & ? & Hr & ? & ?). srv. split_and!; try done. by rewrite Hr, <- app_assoc.
Qed.

(** MSET sets every key to its value in one step; MSETNX does the same when none
    of the keys exists, and otherwise answers zero and changes nothing, not even the
    keys that come before the existing one; MGET answers the strings of the keys, a
    null for a key that is missing or holds another type; a key without a value is
    an arity error. *)
Theorem multi_commands_correct c ps k keys (s : server DB) :
  Forall storable ps.*1 -> Forall storable keys -> db_wf (sdb s) -> (forall k o, view (sdb s) !! k = Some o -> obj_wf o) ->
  Forall (fun p => Forall is_byte p.2 /\ zlen p.2 < MAX_STRING) ps ->
  runs (msetCommand cfg (c :: mset_args ps)) s (fun s' _ => mset_outcome ps shared_ok s s') /\
  runs (msetnxCommand cfg (c :: mset_args ps)) s (fun s' _ =>
    (Forall (fun k => view (sdb s) !! k = None) ps.*1 /\ mset_outcome ps shared_cone s s') \/
    (Exists (fun k => is_Some (view (sdb s) !! k)) ps.*1 /\ replied [shared_czero] s s')) /\
  runs (msetCommand cfg (c :: mset_args ps ++ [k])) s (fun s' _ => replied [arity_err "mset"] s s') /\
  runs (mgetCommand (c :: keys)) s (fun s' _ =>
    replied (ReplyArrayLen (zlen keys) :: ((fun k => mget_reply (view (sdb s) !! k)) <$> keys)) s s').
Proof.
  intros Hk Hks Hw Ho Hp. split_and!; [by apply (runs_mset "mset" c ps false)|by apply (runs_mset "msetnx" c ps true)|by apply runs_mset_arity|by apply runs_mget].
Qed.

End Multi.

(** * Examples *)

(** A server with a counter and a string. *)
Definition counter_server : server plain_db :=
  Server (<[chars "n" := RInt 1 41]> {[sample_key := RString OBJ_ENCODING_EMBSTR 1 [104; 101; 108; 108; 111]]}, ∅) [] 0 [].

Lemma counter_objects k o : view (sdb counter_server) !! k = Some o -> obj_wf o.
Proof.
  change (view (sdb counter_server)) with (<[chars "n" := RInt 1 41]> {[sample_key := RString OBJ_ENCODING_EMBSTR 1 [104; 101; 108; 108; 111]]} : gmap (list Z) robj).
  intros [[_ <-]|[_ [_ <-]%lookup_singleton_Some]]%lookup_insert_Some; [split; [lia|zconst; lia]|]. split; [lia|]. split; [forall_list; unfold is_byte; lia|done].
Qed.

Lemma counter_string : string_at (view (sdb counter_server)) sample_key [104; 101; 108; 108; 111].
Proof.
  unfold string_at. change (view (sdb counter_server) !! sample_key) with (Some (RString OBJ_ENCODING_EMBSTR 1 [104; 101; 108; 108; 111])).
  split; [|done]. by apply (counter_objects sample_key).
Qed.

Lemma incr_commands_correct_witness :
  exists s' r, incrCommand (DB := plain_db) sample_config [chars "INCR"; chars "n"] counter_server = Ok (s', r) /\ reply s' = [ReplyInteger 42].
Proof.
  destruct (incr_commands_correct (DB := plain_db) sample_config (chars "INCR") (chars "n") [] counter_server ltac:(exact I) ltac:(exact I)
    (counter_objects (chars "n"))) as [(s' & r & E & Ho) _].
  exists s', r. split; [exact E|]. destruct Ho as (o & _ & _ & _ & _ & Hr & _). exact Hr.
Defined.

Lemma range_commands_correct_witness :
  exists s' r, getrangeCommand (DB := plain_db) (H := little_host) [chars "GETRANGE"; sample_key; ll_repr 1; ll_repr (-2)] counter_server = Ok (s', r) /\
    reply s' = [ReplyBulk [101; 108; 108]].
Proof.
  destruct (range_commands_correct (DB := plain_db) (H := little_host) sample_config (chars "GETRANGE") sample_key (ll_repr 1) (ll_repr (-2)) [33]
    counter_server ltac:(exact I) ltac:(exact I) (counter_objects sample_key) ltac:(forall_list; unfold is_byte; lia) ltac:(done)) as (_ & (s' & r & E & Hr) & _).
  exists s', r. split; [exact E|]. by destruct Hr as (_ & _ & _ & Hr & _).
Defined.

Lemma setrange_overflow_aborts_witness :
  setrangeCommand (DB := plain_db) (H := little_host) sample_config [chars "SETRANGE"; sample_key; ll_repr INT64_MAX; chars "x"] empty_server = Panic.
Proof.
  apply (setrange_overflow_aborts (DB := plain_db) (H := little_host) sample_config (chars "SETRANGE") sample_key (chars "x") INT64_MAX empty_server);
    first [done|vm_compute; by split|by vm_compute].
Defined.

Lemma multi_commands_correct_witness :
  exists s' r, msetCommand (DB := plain_db) sample_config (chars "MSET" :: mset_args [(chars "a", chars "v"); (chars "b", chars "v")]) empty_server =
      Ok (s', r) /\ dirty s' = 2.
Proof.
  destruct (multi_commands_correct (DB := plain_db) (H := little_host) sample_config (chars "MSET") [(chars "a", chars "v"); (chars "b", chars "v")] [] []
    empty_server ltac:(by repeat constructor) ltac:(by repeat constructor) ltac:(exact I) empty_objects ltac:(do 2 (apply Forall_cons; split; [exact sample_value|]); constructor)) as [(s' & r & E & Ho) _].
  exists s', r. split; [exact E|]. by destruct Ho as (_ & _ & _ & _ & Hd & _).
Defined.
