(* ===== verification/StringSafety.v ===== *)
(** The variants of GET, and the safety of the string commands.

    GETEX, GETDEL and GETSET with their specifications; then the dispatch of a
    string command with its arity check ([commands.c], [server.c]), and the
    invariant of the key space: whatever arguments a client sends, the commands
    leave only well-formed objects, no longer than the limit on strings, and return,
    but for the offsets of SETRANGE that wrap and the sums of times that are
    undefined ([ending]). *)
From S2P Require Import Prelude Endian Util Glob Sds Object StringCommands StringRanges.
From stdpp Require Import gmap list strings.

Open Scope Z_scope.

(** * Definitions *)

Inductive string_command :=
| APPEND | DECR | DECRBY | GET | GETDEL | GETEX | GETRANGE | GETSET | INCR | INCRBY
| MGET | MSET | MSETNX | PSETEX | SET | SETEX | SETNX | SETRANGE | STRLEN | SUBSTR.

Definition arity (c : string_command) : Z :=
  match c with
  | APPEND => 3 | DECR => 2 | DECRBY => 3 | GET => 2 | GETDEL => 2 | GETEX => -2 | GETRANGE => 4 | GETSET => 3 | INCR => 2
  | INCRBY => 3 | MGET => -2 | MSET => -3 | MSETNX => -3 | PSETEX => 4 | SET => -3 | SETEX => 4 | SETNX => 3 | SETRANGE => 4
  | STRLEN => 2 | SUBSTR => 4
  end.

Definition commandCheckArity (c : string_command) (argc : Z) : bool :=
  negb (((arity c >? 0) && negb (arity c =? argc)) || (argc <? - arity c)).

Section Dispatch.
Context `{Host} {DB : Type} `{Keyspace DB} (cfg : config).

(** The handler of the command table. *)
Definition proc (c : string_command) (argv : list (list Z)) : cmd DB unit :=
  match c with
  | APPEND => appendCommand cfg argv
  | DECR => decrCommand cfg argv
  | DECRBY => decrbyCommand cfg argv
  | GET => getCommand argv
  | GETDEL => getdelCommand cfg argv
  | GETEX => getexCommand cfg argv
  | GETRANGE | SUBSTR => getrangeCommand argv
  | GETSET => getsetCommand cfg argv
  | INCR => incrCommand cfg argv
  | INCRBY => incrbyCommand cfg argv
  | MGET => mgetCommand argv
  | MSET => msetCommand cfg argv
  | MSETNX => msetnxCommand cfg argv
  | PSETEX => psetexCommand cfg argv
  | SET => setCommand cfg argv
  | SETEX => setexCommand cfg argv
  | SETNX => setnxCommand cfg argv
  | SETRANGE => setrangeCommand cfg argv
  | STRLEN => strlenCommand argv
  end.

End Dispatch.

(** * Specification *)

Section Outcomes.
Context {DB : Type} `{KeyspaceLaws DB} (cfg : config).

(** A reply, and one change of the key space. *)
Definition changed (r : reply_item) (v : gmap (list Z) robj) (x : gmap (list Z) Z) (evs : list event) (s s' : server DB) : Prop :=
  db_wf (sdb s') /\ view (sdb s') = v /\ expires (sdb s') = x /\
  reply s' = reply s ++ [r] /\ dirty s' = dirty s + 1 /\ events s' = events s ++ evs.

Definition deleted_events (lazy : bool) (key : list Z) : list event :=
  [RewriteVector [if lazy then shared_unlink else shared_del; createStringObject key]; SignalModifiedKey key;
   Notify NOTIFY_GENERIC "del" key].

(** GETEX answers the string and then changes the time the key expires at: a time
    in the past deletes the key, PERSIST removes the time. *)
Definition getex_outcome (key : list Z) (opts : list option_) (s s' : server DB) : Prop :=
  let old := view (sdb s) !! key in
  let m := view (sdb s) in
  let ex := expires (sdb s) in
  let x := expire_outcome_of (mstime cfg) (unit_of opts) (has_kind PX opts || has_kind EX opts) (time_arg opts) in
  match old with
  | None => replied [ReplyNull] s s'
  | Some _ =>
      if wrong_type old then replied [shared_wrongtypeerr] s s'
      else match expire_error "getex" x, x with
      | Some e, _ => replied [e] s s'
      | None, At t =>
          if (has_kind PXAT opts || has_kind EXAT opts) && checkAlreadyExpired cfg t
          then changed (get_reply old) (delete key m) (delete key ex) (deleted_events (lazyfree_lazy_expire cfg) key) s s'
          else exists ms, stands_for (ll_repr t) ms /\
            changed (get_reply old) (if expired t then delete key m else m) (if expired t then delete key ex else <[key := t]> ex)
              [RewriteVector [shared_pexpireat; createStringObject key; ms]; SignalModifiedKey key; Notify NOTIFY_GENERIC "expire" key] s s'
      | None, _ =>
          if has_kind PERSIST opts && bool_decide (is_Some (ex !! key))
          then changed (get_reply old) m (delete key ex)
            [SignalModifiedKey key; RewriteVector [shared_persist; createStringObject key]; Notify NOTIFY_GENERIC "persist" key] s s'
          else replied [get_reply old] s s'
      end
  end.

End Outcomes.

(** * Lemmas *)

Section GetVariants.
Context `{Host} {DB : Type} `{KeyspaceLaws DB} (cfg : config).
Context (Hnow : 0 <= mstime cfg <= INT64_MAX).

Lemma no_time_kind opts k : time_arg opts = None -> has_time k = true -> has_kind k opts = false.
Proof.
  intros Hn%no_time Hk. unfold has_kind. induction Hn as [|o opts Ho Hn IH]; [done|]. cbn [existsb]. rewrite IH, orb_false_r.
  destruct o as [| | |k' e]; try done. apply bool_decide_eq_false. congruence.
Qed.

Lemma outcome_at now unit rel e name :
  expire_error name (expire_outcome_of now unit rel (Some e)) = None -> exists t, expire_outcome_of now unit rel (Some e) = At t.
Proof. cbn. destruct (number e); [destruct (absolute _ _ _ _)|]; cbn; eauto; done. Qed.

Lemma get_reply_string o str : obj_str o = Some str -> get_reply (Some o) = ReplyBulk str.
Proof. intros E. cbn. by rewrite E. Qed.

(** The options ask for an undefined sum, and there is a string to change. *)
Definition getex_undefined (old : option robj) (opts : list option_) : bool :=
  bool_decide (is_Some old) && negb (wrong_type old) && undefined_options cfg COMMAND_GET opts.

Lemma runs_getex c key opts argss (s : server DB) :
  storable key -> db_wf (sdb s) -> (forall o, view (sdb s) !! key = Some o -> obj_wf o) -> Forall2 spells opts argss ->
  getex_undefined (view (sdb s) !! key) opts = false ->
  runs (getexCommand cfg (c :: key :: concat argss)) s (fun s' _ =>
    (~ valid COMMAND_GET opts -> replied [shared_syntaxerr] s s') /\ (valid COMMAND_GET opts -> getex_outcome cfg key opts s s')).
Proof.
  intros Hkey Hw Ho Hs Hdef. unfold getexCommand. apply runs_bind. change (c :: key :: concat argss) with ([c; key] ++ concat argss).
  apply (runs_parse_args COMMAND_GET [c; key] argss opts); [done..| |intros Hn; split; [intros; by split_and!|done]].
  intros Hv. eapply (runs_impl _ _ (fun s' _ => getex_outcome cfg key opts s s')); [|by auto]. cbn [app].
  apply runs_bind, (runs_arg _ _ key); [done|]. unfold getex_outcome. apply runs_lookup_read_string; [done..| | |].
  { intros ->. done. } { intros Et s' Hr. destruct (view (sdb s) !! key); [by rewrite Et|done]. }
  intros o str d Eo Hwf Hstr Hd Hvd Hed. rewrite Eo. assert (wrong_type (Some o) = false) as -> by (by destruct o). rewrite (get_reply_string _ _ Hstr).
  apply runs_bind, runs_expire; [done|..].
  { unfold getex_undefined, undefined_options in Hdef. rewrite Eo in Hdef. rewrite !bool_decide_true in Hdef by (done || by eexists).
    assert (wrong_type (Some o) = false) as Ew by (by destruct o). by rewrite Ew in Hdef. }
  cbv zeta. cbn [flags_of OBJ_PX OBJ_EX OBJ_PXAT OBJ_EXAT OBJ_PERSIST].
  set (x := expire_outcome_of _ _ _ _). destruct (expire_error "getex" x) as [e|] eqn:Ex; [by split_and!|].
  apply runs_bind, (runs_reply_bulk _ str); [done..|].
  destruct (time_arg opts) as [e|] eqn:Et.
  - destruct (outcome_at _ _ _ _ _ Ex) as [t Ext]. assert (INT64_MIN <= t <= INT64_MAX) as Htr by (by eapply outcome_time).
    fold x in Ext. rewrite Ext in *. cbn [time_of]. destruct (_ && checkAlreadyExpired cfg t).
    + apply runs_bind, runs_delete_lazily, runs_delete; [done..|]. srv. rewrite Hvd, Hed, Eo. intros d2 b Hd2 Hb _ Hv2 He2 _. rewrite Hb by (by eexists). cbn [negb].
      apply runs_bind, runs_raise. apply runs_bind, runs_signal. apply runs_bind, runs_notify. apply runs_dirty. split_and!; srv; try done. by rewrite <- !app_assoc.
    + apply runs_bind, runs_set_expire; srv; [done|done|by rewrite Hvd, Eo|]. rewrite Hvd, Hed. intros d2 Hd2 Hv2 He2.
      destruct (from_long_long_ok cfg t false Htr) as (ms & Ems & Hms). apply runs_bind. eapply runs_lift; [exact Ems|].
      apply runs_bind, runs_raise. apply runs_bind, runs_signal. apply runs_bind, runs_notify. apply runs_dirty.
      exists ms. split; [done|]. split_and!; srv; try done. by rewrite <- !app_assoc.
  - cbn [time_of x expire_outcome_of]. rewrite !(no_time_kind opts) by done. cbn [orb andb]. destruct (has_kind PERSIST opts); cbn [andb].
    + apply runs_bind, runs_remove_expire; srv; [done|done|by rewrite Hvd, Eo|]. rewrite Hvd, Hed. intros d2 Hd2 Hv2 He2. case_bool_decide as Hex.
      * apply runs_bind, runs_signal. apply runs_bind, runs_raise. apply runs_bind, runs_notify. apply runs_dirty. split_and!; srv; try done. by rewrite <- !app_assoc.
      * apply runs_ret. split_and!; srv; try done. rewrite He2. apply delete_id. by apply eq_None_not_Some.
    + apply runs_ret. by split_and!.
Qed.

Lemma getex_faults c key opts argss (s : server DB) :
  storable key -> db_wf (sdb s) -> (forall o, view (sdb s) !! key = Some o -> obj_wf o) -> Forall2 spells opts argss ->
  getex_undefined (view (sdb s) !! key) opts = true -> getexCommand cfg (c :: key :: concat argss) s = Fault.
Proof.
  intros Hkey Hw Ho Hs Hu. unfold getex_undefined, undefined_options in Hu. rewrite !andb_true_iff, !bool_decide_eq_true, negb_true_iff in Hu.
  destruct Hu as [[[o Eo] Ht] [Hv Hu]]. rewrite Eo in Ht.
  unfold getexCommand. apply bind_ends, (runs_parse_args COMMAND_GET [c; key] argss opts); [done..| |done]. intros _.
  apply bind_ends, (runs_arg _ _ key); [done|]. apply bind_ends. apply runs_bind, runs_read; [done..|]. intros d Hd Hvd _. rewrite Eo. apply runs_ret.
  apply bind_ends, runs_check_string; [by destruct o|]. unfold mbind, cmd_bind. by rewrite expire_faults.
Qed.

Lemma runs_getdel c key (s : server DB) :
  storable key -> db_wf (sdb s) -> (forall o, view (sdb s) !! key = Some o -> obj_wf o) ->
  let old := view (sdb s) !! key in
  runs (getdelCommand cfg [c; key]) s (fun s' _ =>
    if wrong_type old then replied [shared_wrongtypeerr] s s'
    else
      db_wf (sdb s') /\ view (sdb s') = delete key (view (sdb s)) /\ expires (sdb s') = delete key (expires (sdb s)) /\
      reply s' = reply s ++ [get_reply old] /\
      (is_Some old -> dirty s' = dirty s + 1 /\ events s' = events s ++ deleted_events (lazyfree_lazy_user_del cfg) key)).
Proof.
  intros Hkey Hw Ho old. unfold getdelCommand. apply runs_bind, runs_get_generic; [done..|]. fold old. intros d Hd Hv He.
  destruct (wrong_type old) eqn:Et; cbn [negb].
  { apply runs_early. assert (get_reply old = shared_wrongtypeerr) as -> by (by destruct old as [[]|]). by split_and!. }
  apply runs_bind, (runs_arg _ _ key); [done|]. apply runs_bind, runs_delete_lazily, runs_delete; [done..|]. srv. rewrite Hv, He. intros d2 b Hd2 Hb _ Hv2 He2 _. destruct b.
  - apply runs_bind, runs_raise. apply runs_bind, runs_signal. apply runs_bind, runs_notify. apply runs_dirty. split_and!; srv; try done. by rewrite <- !app_assoc.
  - apply runs_ret. split_and!; srv; try done. intros Hs. by specialize (Hb Hs).
Qed.

Lemma runs_getset c key val (s : server DB) :
  storable key -> db_wf (sdb s) -> (forall o, view (sdb s) !! key = Some o -> obj_wf o) -> Forall is_byte val -> zlen val < MAX_STRING ->
  let old := view (sdb s) !! key in
  runs (getsetCommand cfg [c; key; val]) s (fun s' _ =>
    if wrong_type old then replied [shared_wrongtypeerr] s s'
    else exists o, stands_for val o /\
      changed (get_reply old) (<[key := o]> (view (sdb s))) (delete key (expires (sdb s)))
        [SignalModifiedKey key; Notify NOTIFY_STRING "set" key; RewriteArgument 0 shared_set] s s').
Proof.
  intros Hkey Hw Ho Hb Hl old. unfold getsetCommand. apply runs_bind, runs_get_generic; [done..|]. fold old. intros d Hd Hv He.
  destruct (wrong_type old) eqn:Et; cbn [negb].
  { apply runs_early. assert (get_reply old = shared_wrongtypeerr) as -> by (by destruct old as [[]|]). by split_and!. }
  apply runs_bind, (runs_encode_arg _ _ _ val); [done..|]. intros o _ Hst. apply runs_bind, (runs_arg _ _ key); [done|].
  apply runs_bind, runs_set_key; [done..|]. srv. rewrite Hv, He. intros d2 Hd2 Hv2 He2. apply runs_bind, runs_notify. apply runs_bind, runs_dirty.
  apply runs_raise. exists o. split; [done|]. split_and!; srv; try done. by rewrite <- !app_assoc.
Qed.

(** GET, GETEX, GETDEL and GETSET answer the string at the key, whatever its
    encoding, or null, or an error for a key of another type, and then do their work:
    GETEX gives the key another time to live, takes it away or, for a time in the
    past, deletes the key, GETDEL deletes it, GETSET replaces the value and removes
    the time.  Each is propagated as the plain command that has the same effect.  The
    sum of the clock and a relative time that overflows is undefined behaviour,
    unless the program has been compiled to wrap. *)
Theorem get_commands_correct c key val opts argss (s : server DB) :
  storable key -> db_wf (sdb s) -> (forall o, view (sdb s) !! key = Some o -> obj_wf o) -> Forall is_byte val -> zlen val < MAX_STRING ->
  Forall2 spells opts argss ->
  let old := view (sdb s) !! key in
  runs (getCommand [c; key]) s (fun s' _ => replied [get_reply old] s s') /\
  (if getex_undefined old opts then getexCommand cfg (c :: key :: concat argss) s = Fault
   else runs (getexCommand cfg (c :: key :: concat argss)) s (fun s' _ =>
    (~ valid COMMAND_GET opts -> replied [shared_syntaxerr] s s') /\ (valid COMMAND_GET opts -> getex_outcome cfg key opts s s'))) /\
  runs (getdelCommand cfg [c; key]) s (fun s' _ =>
    if wrong_type old then replied [shared_wrongtypeerr] s s'
    else
      db_wf (sdb s') /\ view (sdb s') = delete key (view (sdb s)) /\ expires (sdb s') = delete key (expires (sdb s)) /\
      reply s' = reply s ++ [get_reply old] /\
      (is_Some old -> dirty s' = dirty s + 1 /\ events s' = events s ++ deleted_events (lazyfree_lazy_user_del cfg) key)) /\
  runs (getsetCommand cfg [c; key; val]) s (fun s' _ =>
    if wrong_type old then replied [shared_wrongtypeerr] s s'
    else exists o, stands_for val o /\
      changed (get_reply old) (<[key := o]> (view (sdb s))) (delete key (expires (sdb s)))
        [SignalModifiedKey key; Notify NOTIFY_STRING "set" key; RewriteArgument 0 shared_set] s s').
Proof.
  intros Hkey Hw Ho Hb Hl Hs old. split_and!; [|destruct (getex_undefined old opts) eqn:Hu; [by apply (getex_faults c key opts argss)|by apply runs_getex]|by apply runs_getdel|by apply runs_getset].
  unfold getCommand. apply runs_bind, runs_get_generic; [done..|]. intros d Hd Hv He. apply runs_ret. by split_and!.
Qed.

End GetVariants.

(** ** Arbitrary options *)

(** Arguments the parser can be given: a spelled option first, or none. *)
Lemma option_at args : args <> [] ->
  (exists o a rest, args = a ++ rest /\ a <> [] /\ spells o a) \/
  (forall DB c f u e, parse_options (DB := DB) c args f u e = reply_and_return shared_syntaxerr).
Proof.
  destruct args as [|w rest]; [done|]. intros _.
  destruct (strcase_eq w "nx") eqn:E1; [by left; exists ONx, [w], rest|].
  destruct (strcase_eq w "xx") eqn:E2; [by left; exists OXx, [w], rest|].
  destruct (strcase_eq w "get") eqn:E3; [by left; exists OGet, [w], rest|].
  destruct (strcase_eq w "KEEPTTL") eqn:E4; [left; exists (OTtl KEEPTTL []), [w], rest; cbn; by rewrite (strcase_other _ _ _ E4)|].
  destruct (strcase_eq w "PERSIST") eqn:E5; [left; exists (OTtl PERSIST []), [w], rest; cbn; by rewrite (strcase_other _ _ _ E5)|].
  destruct rest as [|n rest]; [right; intros; cbn [parse_options]; by rewrite E1, E2, E3, E4, E5|].
  destruct (strcase_eq w "ex") eqn:E6; [by left; exists (OTtl EX n), [w; n], rest|].
  destruct (strcase_eq w "px") eqn:E7; [by left; exists (OTtl PX n), [w; n], rest|].
  destruct (strcase_eq w "exat") eqn:E8; [by left; exists (OTtl EXAT n), [w; n], rest|].
  destruct (strcase_eq w "pxat") eqn:E9; [by left; exists (OTtl PXAT n), [w; n], rest|].
  right. intros. cbn [parse_options]. by rewrite E1, E2, E3, E4, E5, E6, E7, E8, E9.
Qed.

(** Every argument list is made of spelled options, or of some that can be before
    one that cannot. *)
Lemma options_split args :
  exists opts argss rest, args = concat argss ++ rest /\ Forall2 spells opts argss /\
    (rest = [] \/ forall DB c f u e, parse_options (DB := DB) c rest f u e = reply_and_return shared_syntaxerr).
Proof.
  remember (length args) as n eqn:En. revert args En. induction (lt_wf n) as [n _ IH]. intros args ->.
  destruct (decide (args = [])) as [->|Hne]; [exists [], [], []; auto|].
  destruct (option_at args Hne) as [(o & a & rest & -> & Ha & Ho)|Hbad]; [|exists [], [], args; auto].
  destruct (IH (length rest)) with rest as (opts & argss & rest' & -> & Hs & Hr); [|done|].
  { rewrite length_app. destruct a; [done|]. cbn. lia. }
  exists (o :: opts), (a :: argss), rest'. split; [cbn; by rewrite app_assoc|]. split; [by constructor|done].
Qed.

Lemma runs_parse_bad {DB} c pre opts argss rest (s : server DB) (Q : _ -> _ -> Prop) :
  Forall2 spells opts argss -> (forall f u e, parse_options (DB := DB) c rest f u e = reply_and_return shared_syntaxerr) ->
  Q (with_reply s shared_syntaxerr) None ->
  runs (parse_options c (concat argss ++ rest) (flags_of pre) (unit_of pre) (time_arg pre)) s Q.
Proof.
  intros Hs Hbad HQ. revert pre. induction Hs as [|o a opts argss Ho Hs IH]; intros pre.
  - cbn [concat app]. rewrite Hbad. by apply runs_reply_return.
  - cbn [concat]. rewrite <- app_assoc, (parse_step _ _ _ _ _ Ho). destruct (_ && _); [apply IH|by apply runs_reply_return].
Qed.

(** The time is one of the arguments. *)
Lemma time_arg_in opts argss e : Forall2 spells opts argss -> time_arg opts = Some e -> e ∈ concat argss.
Proof.
  intros Hs. unfold time_arg. assert (forall acc, foldl (fun e o => match o with OTtl k e' => if has_time k then Some e' else e | _ => e end) acc opts = Some e ->
    acc = Some e \/ e ∈ concat argss) as Hg; [|intros E; by destruct (Hg None E)].
  induction Hs as [|o a opts argss Ho Hs IH]; intros acc E; [by left|]. cbn [foldl concat] in *. rewrite elem_of_app.
  destruct (IH _ E) as [E1|E1]; [|by auto]. destruct o as [| | |k e']; try by auto. destruct (has_time k) eqn:Ek; [|by auto]. simplify_eq.
  destruct a as [|w [|e2 [|]]]; try done; cbn [spells] in Ho; [by destruct Ho; congruence|]. destruct Ho as (_ & _ & ->). right. left. apply elem_of_cons. right. by apply elem_of_cons; left.
Qed.

(** An argument is a time that leaves 64 bits when it is added to the clock. *)
Definition time_overflows (cfg : config) (argv : list (list Z)) : Prop :=
  exists e v, e ∈ argv /\ number e = Some v /\ INT64_MAX < v * 1000 + mstime cfg.

Lemma undefined_overflows cfg unit rel e argv :
  0 <= mstime cfg -> undefined_sum cfg unit rel (Some e) = true -> e ∈ argv -> fwrapv cfg = false /\ time_overflows cfg argv.
Proof.
  intros Hnow Hu He. unfold undefined_sum in Hu. cbn [mbind option_bind] in Hu. destruct (number e) as [v|] eqn:Ev; [|by rewrite andb_false_r in Hu].
  destruct (fwrapv cfg); [done|]. split; [done|]. exists e, v. split_and!; [done..|]. destruct unit; lia.
Qed.

Lemma undefined_options_overflow cfg c opts argss pre :
  0 <= mstime cfg -> Forall2 spells opts argss -> undefined_options cfg c opts = true -> fwrapv cfg = false /\ time_overflows cfg (pre ++ concat argss).
Proof.
  intros Hnow Hs [_ Hu]%andb_true_iff. destruct (time_arg opts) as [e|] eqn:Ee; [|unfold undefined_sum in Hu; cbn in Hu; by rewrite andb_false_r in Hu].
  eapply undefined_overflows; [done..|]. apply elem_of_app. right. by eapply time_arg_in.
Qed.

Section AnyArguments.
Context `{Host} {DB : Type} `{KeyspaceLaws DB} (cfg : config).
Context (Hnow : 0 <= mstime cfg <= INT64_MAX).

(** SET with any arguments at all. *)
Lemma set_any c key val args (s : server DB) :
  storable key -> db_wf (sdb s) -> (forall o, view (sdb s) !! key = Some o -> obj_wf o) -> Forall is_byte val -> zlen val < MAX_STRING ->
  let argv := c :: key :: val :: args in
  (setCommand cfg argv s = Fault /\ fwrapv cfg = false /\ time_overflows cfg argv) \/
  runs (setCommand cfg argv) s (fun s' _ =>
    replied [shared_syntaxerr] s s' \/
    exists o f x stripped, stands_for val o /\ set_outcome "set" key o f x shared_ok ReplyNull stripped s s').
Proof.
  intros Hkey Hw Ho Hb Hl argv. subst argv. destruct (options_split args) as (opts & argss & rest & -> & Hs & [->|Hbad]).
  - rewrite app_nil_r. destruct (undefined_options cfg COMMAND_SET opts) eqn:Hu.
    { left. split; [by apply (set_command_faults cfg Hnow c key val opts argss)|]. eapply (undefined_options_overflow _ _ _ _ [c; key; val]); [lia|done..]. }
    right. eapply runs_impl; [by apply (runs_set_command cfg Hnow c key val opts argss s)|].
    intros s' r [Hno Hyes]. destruct (decide (valid COMMAND_SET opts)) as [Hv|Hn]; [right|left; by apply Hno].
    destruct (Hyes Hv) as (o & ? & ?). by eexists _, _, _, _.
  - right. unfold setCommand, parseExtendedStringArgumentsOrReply. apply runs_bind. cbn [drop].
    apply (runs_parse_bad COMMAND_SET [] opts argss rest); [done|done|]. left. by split_and!.
Qed.

(** GETEX with any arguments at all. *)
Lemma getex_any c key args (s : server DB) :
  storable key -> db_wf (sdb s) -> (forall o, view (sdb s) !! key = Some o -> obj_wf o) ->
  let argv := c :: key :: args in
  (getexCommand cfg argv s = Fault /\ fwrapv cfg = false /\ time_overflows cfg argv) \/
  runs (getexCommand cfg argv) s (fun s' _ =>
    replied [shared_syntaxerr] s s' \/ exists opts, getex_outcome cfg key opts s s').
Proof.
  intros Hkey Hw Ho argv. subst argv. destruct (options_split args) as (opts & argss & rest & -> & Hs & [->|Hbad]).
  - rewrite app_nil_r. destruct (getex_undefined cfg (view (sdb s) !! key) opts) eqn:Hu.
    { left. split; [by apply (getex_faults cfg Hnow c key opts argss)|]. apply andb_true_iff in Hu as [_ Hu]. eapply (undefined_options_overflow _ _ _ _ [c; key]); [lia|done..]. }
    right. eapply runs_impl; [by apply (runs_getex cfg Hnow c key opts argss s)|].
    intros s' r [Hno Hyes]. destruct (decide (valid COMMAND_GET opts)) as [Hv|Hn]; [right; eauto|left; by apply Hno].
  - right. unfold getexCommand, parseExtendedStringArgumentsOrReply. apply runs_bind. cbn [drop].
    apply (runs_parse_bad COMMAND_GET [] opts argss rest); [done|done|]. left. by split_and!.
Qed.

End AnyArguments.

(** ** The invariant of the key space *)

(** A configuration within the limits: an ordinary client, a limit on strings far from
    the ends of its type, and an allocator that serves the strings clients may make. *)
Record config_ok (cfg : config) : Prop := {
  cfg_now : 0 <= mstime cfg <= INT64_MAX;
  cfg_client : mustObeyClient cfg = false;
  cfg_limit : 20 <= proto_max_bulk_len cfg < MAX_STRING;
  cfg_alloc : proto_max_bulk_len cfg <= alloc_limit cfg;
}.

Definition arg_ok (limit : Z) (a : list Z) : Prop := Forall is_byte a /\ zlen a <= limit.

Definition obj_ok (limit : Z) (o : robj) : Prop := obj_wf o /\ forall t, obj_str o = Some t -> zlen t <= limit.

Definition keyspace_ok {DB} `{KeyspaceLaws DB} (limit : Z) (d : DB) : Prop :=
  db_wf d /\ forall k o, view d !! k = Some o -> obj_ok limit o.

(** SETRANGE with an offset so close to the largest integer that the sum with the
    length of the value leaves 64 bits. *)
Definition setrange_wraps (c : string_command) (argv : list (list Z)) : Prop :=
  match c, argv with
  | SETRANGE, [_; _; e; value] => exists off, number e = Some off /\ INT64_MAX < off + zlen value
  | _, _ => False
  end.

(** The commands that add a time to the clock. *)
Definition adds_time (c : string_command) : bool := match c with SET | SETEX | PSETEX | GETEX => true | _ => false end.

(** How a command ends: it returns and keeps the invariant, except for a SETRANGE that
    wraps, which may end the process, and for a time that overflows, which is undefined
    behaviour unless the program has been compiled to wrap. *)
Definition ending {DB : Type} (inv : DB -> Prop) (cfg : config) (c : string_command) (argv : list (list Z)) (m : res (server DB * option unit)) : Prop :=
  (exists s' r, m = Ok (s', r) /\ inv (sdb s')) \/
  (m = Panic /\ setrange_wraps c argv) \/
  (m = Fault /\ fwrapv cfg = false /\ adds_time c = true /\ time_overflows cfg argv).

(** The shapes of an argument vector the arity admits. *)
Lemma arity_spec c (argv : list (list Z)) : commandCheckArity c (zlen argv) = true ->
  if arity c >? 0 then zlen argv = arity c else - arity c <= zlen argv.
Proof. unfold commandCheckArity. destruct (_ >? 0) eqn:E; cbn [andb]; lia. Qed.

Lemma argv_2 c (argv : list (list Z)) : commandCheckArity c (zlen argv) = true -> arity c = 2 -> exists a b, argv = [a; b].
Proof. intros Har%arity_spec E. rewrite E in Har. destruct argv as [|? [|? [|]]]; unfold zlen in Har; cbn in Har; try lia. eauto. Qed.
Lemma argv_3 c (argv : list (list Z)) : commandCheckArity c (zlen argv) = true -> arity c = 3 -> exists a b d, argv = [a; b; d].
Proof. intros Har%arity_spec E. rewrite E in Har. destruct argv as [|? [|? [|? [|]]]]; unfold zlen in Har; cbn in Har; try lia. eauto. Qed.
Lemma argv_4 c (argv : list (list Z)) : commandCheckArity c (zlen argv) = true -> arity c = 4 -> exists a b d e, argv = [a; b; d; e].
Proof. intros Har%arity_spec E. rewrite E in Har. destruct argv as [|? [|? [|? [|? [|]]]]]; unfold zlen in Har; cbn in Har; try lia. eauto. Qed.
Lemma argv_ge2 c (argv : list (list Z)) : commandCheckArity c (zlen argv) = true -> arity c = -2 -> exists a b rest, argv = a :: b :: rest.
Proof. intros Har%arity_spec E. rewrite E in Har. destruct argv as [|? [|?]]; unfold zlen in Har; cbn in Har; try lia. eauto. Qed.
Lemma argv_ge3 c (argv : list (list Z)) : commandCheckArity c (zlen argv) = true -> arity c = -3 -> exists a b d rest, argv = a :: b :: d :: rest.
Proof. intros Har%arity_spec E. rewrite E in Har. destruct argv as [|? [|? [|?]]]; unfold zlen in Har; cbn in Har; try lia. eauto. Qed.

Section Invariant.
Context `{Host} {DB : Type} `{KeyspaceLaws DB} (cfg : config) (Hcfg : config_ok cfg) (Hmax : alloc_limit cfg <= INT64_MAX).
Notation limit := (proto_max_bulk_len cfg).
Notation inv := (keyspace_ok (DB := DB) limit).

Lemma ok_insert (d d' : DB) key o : inv d -> db_wf d' -> view d' = <[key := o]> (view d) -> obj_ok limit o -> inv d'.
Proof.
  intros [_ Hd] Hw Hv Ho. split; [done|]. intros k o' E. rewrite Hv in E. apply lookup_insert_Some in E as [[_ <-]|[_ E]]; [done|by eapply Hd].
Qed.

Lemma ok_delete (d d' : DB) key : inv d -> db_wf d' -> view d' = delete key (view d) -> inv d'.
Proof. intros [_ Hd] Hw Hv. split; [done|]. intros k o E. rewrite Hv in E. apply lookup_delete_Some in E as [_ E]. by eapply Hd. Qed.

Lemma ok_same (d d' : DB) : inv d -> db_wf d' -> view d' = view d -> inv d'.
Proof. intros [_ Hd] Hw Hv. split; [done|]. intros k o E. rewrite Hv in E. by eapply Hd. Qed.

Lemma ok_replied rs (s s' : server DB) : inv (sdb s) -> replied rs s s' -> inv (sdb s').
Proof. intros Hi (? & ? & _). by eapply ok_same. Qed.

Lemma ok_stands v o : arg_ok limit v -> stands_for v o -> obj_ok limit o.
Proof. intros [_ Hl] [Hw E]. split; [done|]. intros t Et. congruence. Qed.

Lemma ok_set_outcome name key v o f x okr abr stripped (s s' : server DB) :
  inv (sdb s) -> arg_ok limit v -> stands_for v o -> set_outcome name key o f x okr abr stripped s s' -> inv (sdb s').
Proof.
  intros Hi Ha Hst. unfold set_outcome, key_set. pose proof (ok_stands v o Ha Hst). destruct (expire_error name x); [by apply ok_replied|].
  destruct (_ && _); [by apply ok_replied|]. destruct (_ || _); [by apply ok_replied|]. intros [[Hw Hk] _].
  destruct x as [|t| |]; [|destruct (expired t)| |]; destruct Hk as [Hk _]; first [by eapply ok_insert|by eapply ok_delete].
Qed.

Lemma ok_getex_outcome key opts (s s' : server DB) : inv (sdb s) -> getex_outcome cfg key opts s s' -> inv (sdb s').
Proof.
  intros Hi. unfold getex_outcome, changed. destruct (view (sdb s) !! key) as [o|]; [|by apply ok_replied]. destruct (wrong_type _); [by apply ok_replied|].
  set (x := expire_outcome_of _ _ _ _). clearbody x. destruct (expire_error "getex" x); [by apply ok_replied|].
  assert (forall b : bool, (if b && bool_decide (is_Some (expires (sdb s) !! key)) then
    db_wf (sdb s') /\ view (sdb s') = view (sdb s) /\ expires (sdb s') = delete key (expires (sdb s)) /\ reply s' = reply s ++ [get_reply (Some o)] /\
    dirty s' = dirty s + 1 /\ events s' = events s ++ [SignalModifiedKey key; RewriteVector [shared_persist; createStringObject key]; Notify NOTIFY_GENERIC "persist" key]
    else replied [get_reply (Some o)] s s') -> inv (sdb s')) as Hp.
  { intros b. destruct (_ && _); [intros (? & ? & _); by eapply ok_same|by apply ok_replied]. }
  destruct x as [|t| |]; [apply Hp| |apply Hp|apply Hp].
  destruct (_ && _); [intros (? & ? & _); by eapply ok_delete|]. intros (ms & _ & Hw & Hv & _). destruct (expired t); first [by eapply ok_delete|by eapply ok_same].
Qed.

Lemma ok_incr_outcome key incr (s s' : server DB) : inv (sdb s) -> incr_outcome key incr s s' -> inv (sdb s').
Proof.
  intros Hi. unfold incr_outcome. destruct (counter _) as [v|]; [|by apply ok_replied]. destruct (_ || _) eqn:E; [by apply ok_replied|].
  intros (o & Hst & Hw & Hv & _). eapply ok_insert; [done..|]. eapply ok_stands; [|exact Hst]. split; [apply ll_repr_bytes|].
  pose proof (ll_repr_bound (v + incr)). pose proof (cfg_limit _ Hcfg). lia.
Qed.

Lemma ok_mset_outcome ps r (s s' : server DB) :
  inv (sdb s) -> Forall (fun p => arg_ok limit p.2) ps -> mset_outcome ps r s s' -> inv (sdb s').
Proof.
  intros [_ Hd] Hp (Hw & (os & Hos & Hv) & _). split; [done|]. rewrite Hv. clear Hv. remember (view (sdb s)) as m eqn:Em. clear Em.
  revert m Hd. induction Hos as [|p o ps os Ho Hos IH]; intros m Hd; [done|]. inversion Hp as [|? ? Ha Hp2]; subst. cbn [fmap list_fmap zip zip_with foldl].
  apply IH; [done|]. intros k o' E. cbn in E. apply lookup_insert_Some in E as [[_ <-]|[_ E]]; [by eapply ok_stands|by eapply Hd].
Qed.

(** The string at a key. *)
Lemma ok_string_at key (d : DB) : inv d -> wrong_type (view d !! key) = false ->
  exists old, string_at (view d) key old /\ Forall is_byte old /\ zlen old <= limit.
Proof.
  intros [_ Hd] Ht. destruct (view d !! key) as [o|] eqn:Ek.
  - destruct (Hd _ _ Ek) as [Hw Hl]. assert (exists t, obj_str o = Some t) as [t Et] by (destruct o; cbn; eauto; done).
    exists t. assert (string_at (view d) key t) as Hs by (unfold string_at; by rewrite Ek). split; [done|]. split; [|by apply Hl]. by apply string_at_wf in Hs as [? _].
  - exists []. split; [unfold string_at; by rewrite Ek|]. split; [constructor|]. pose proof (cfg_limit _ Hcfg). change (zlen []) with 0. lia.
Qed.

Lemma pairs_or_odd (args : list (list Z)) : exists ps, args = mset_args ps \/ exists k, args = mset_args ps ++ [k].
Proof.
  remember (length args) as n eqn:En. revert args En. induction (lt_wf n) as [n _ IH]. intros [|a [|b args]] ->.
  - exists []. by left.
  - exists []. right. by exists a.
  - destruct (IH (length args)) with args as (ps & [->|[k ->]]); [cbn; lia|done|exists ((a, b) :: ps); by left|exists ((a, b) :: ps); right; by exists k].
Qed.

Lemma mset_args_ok ps : Forall (arg_ok limit) (mset_args ps) -> Forall (fun p => arg_ok limit p.2) ps.
Proof.
  induction ps as [|[k v] ps IH]; [constructor|]. cbn [mset_args fmap list_fmap concat app]. fold (mset_args ps). intros Ha.
  inversion Ha as [|? ? _ Ha2]; subst. inversion Ha2; subst. constructor; auto.
Qed.

Lemma mset_args_keys ps : Forall storable (mset_args ps) -> Forall storable ps.*1.
Proof.
  induction ps as [|[k v] ps IH]; [constructor|]. cbn [mset_args fmap list_fmap concat app]. fold (mset_args ps). intros Ha.
  inversion Ha as [|? ? ? Ha2]; subst. inversion Ha2; subst. constructor; auto.
Qed.

Lemma mset_safe name c args nx (s : server DB) :
  Forall storable args -> inv (sdb s) -> Forall (arg_ok limit) args -> runs (msetGenericCommand cfg name (c :: args) nx) s (fun s' _ => inv (sdb s')).
Proof.
  intros Hks Hi Ha. pose proof Hi as [Hw _]. destruct (pairs_or_odd args) as (ps & [->|[k ->]]).
  - apply mset_args_ok in Ha. eapply runs_impl; [apply runs_mset; [by apply mset_args_keys|done|]|].
    + eapply Forall_impl; [exact Ha|]. intros p [? ?]. split; [done|]. pose proof (cfg_limit _ Hcfg). lia.
    + intros s' r. destruct nx; [intros [[_ Ho]|[_ Ho]]; [by eapply ok_mset_outcome|by eapply ok_replied]|by apply ok_mset_outcome].
  - eapply runs_impl; [by apply runs_mset_arity|]. intros s' r. by apply ok_replied.
Qed.

Lemma setrange_safe c key e value (s : server DB) :
  storable key -> inv (sdb s) -> arg_ok limit value -> ending inv cfg SETRANGE [c; key; e; value] (setrangeCommand cfg [c; key; e; value] s).
Proof.
  intros Hkey Hi [Hb Hl]. pose proof Hi as [Hw Hd]. pose proof (cfg_limit _ Hcfg). pose proof (cfg_alloc _ Hcfg).
  assert (forall o, view (sdb s) !! key = Some o -> obj_wf o) as Hwf by (intros o E; by destruct (Hd _ _ E)). assert (zlen value < MAX_STRING) as Hbig by lia.
  assert (forall off, number e = Some off -> 0 <= off -> too_long cfg (off + zlen value) = false -> off + zlen value <= limit \/ INT64_MAX < off + zlen value) as Hsize.
  { intros off Ev Hoff. unfold too_long. rewrite (cfg_client _ Hcfg). cbn [negb andb]. pose proof (zlen_nonneg value).
    destruct (Z.le_gt_cases (off + zlen value) INT64_MAX); [|by auto]. rewrite wrapS_small by (zconst; lia). lia. }
  destruct (setrange_aborts cfg (view (sdb s) !! key) e value) eqn:Ea.
  - right. left. split; [by apply setrange_panics|]. unfold setrange_aborts in Ea. cbn [setrange_wraps]. destruct (number e) as [off|] eqn:Ev; [|done]. exists off. split; [done|].
    rewrite !andb_true_iff, !negb_true_iff in Ea. destruct Ea as [[[[[? ?] ?] El] ?] _]. destruct (Hsize off eq_refl ltac:(lia) El); lia.
  - left. destruct (runs_setrange cfg c key e value s Hkey Hw Hwf Hbig Ea) as (s' & r & E & Hout). exists s', r. split; [done|]. unfold setrange_outcome, setrange_aborts in *.
    destruct (number e) as [off|] eqn:Ev; [|by eapply ok_replied]. destruct (Z.ltb_spec off 0); [by eapply ok_replied|].
    destruct (wrong_type _) eqn:Et; [by eapply ok_replied|]. destruct (Z.eqb_spec (zlen value) 0); [by eapply ok_replied|].
    destruct (too_long cfg _) eqn:El; [by eapply ok_replied|]. destruct (ok_string_at key (sdb s) Hi Et) as (old & Hold & Hob & Hol).
    destruct (string_at_right _ _ _ Hold) as [_ Etx]. rewrite Etx in *. pose proof (zlen_nonneg value). assert (off + zlen value <= limit) as Hsz.
    { destruct (Hsize off eq_refl ltac:(lia) El) as [|Hbigger]; [done|]. exfalso. revert Ea. cbv zeta. ztrue (0 <=? off). ztrue (0 <? zlen value). ztrue (off + zlen value >? alloc_limit cfg).
      ztrue (off + zlen value >? zlen old). by rewrite orb_true_r. }
    destruct Hout as (Hw' & Hv & _). assert (zlen (overwritten old off value) <= limit) as Hl' by (rewrite zlen_overwritten by done; lia).
    eapply ok_insert; [done..|]. split; [|intros t [= <-]; done]. split; [lia|]. split; [|lia].
    unfold overwritten. pose proof (grow_bytes old (off + zlen value) Hob) as Hg. apply Forall_app. split; [by apply Forall_take|]. apply Forall_app. split; [done|by apply Forall_drop].
Qed.

Lemma append_safe c key value (s : server DB) :
  storable key -> inv (sdb s) -> arg_ok limit value -> runs (appendCommand cfg [c; key; value]) s (fun s' _ => inv (sdb s')).
Proof.
  intros Hkey Hi [Hb Hl]. pose proof Hi as [Hw Hd]. pose proof (cfg_limit _ Hcfg). pose proof (cfg_alloc _ Hcfg). pose proof (zlen_nonneg value).
  assert (forall o, view (sdb s) !! key = Some o -> obj_wf o) as Hwf by (intros o E; by destruct (Hd _ _ E)).
  assert (forall old : list Z, 0 <= zlen old <= limit -> too_long cfg (zlen old + zlen value) = (zlen old + zlen value >? limit)) as Hsize.
  { intros old Ho. unfold too_long. rewrite (cfg_client _ Hcfg), wrapS_small by (unfold MAX_STRING in *; zconst; lia). done. }
  assert (append_aborts cfg (view (sdb s) !! key) value = false) as Ea.
  { unfold append_aborts. destruct (wrong_type _) eqn:Et; [by rewrite andb_false_r|]. destruct (ok_string_at key (sdb s) Hi Et) as (old & Hold & Hob & Hol).
    destruct (string_at_right _ _ _ Hold) as [_ ->]. rewrite Hsize by (split; [apply zlen_nonneg|done]). destruct (bool_decide _); [|done]. cbn [andb negb]. lia. }
  eapply runs_impl; [apply (runs_append cfg c key value); [done..|lia|done]|]. intros s' r. unfold append_outcome.
  destruct (wrong_type _) eqn:Et; [by apply ok_replied|]. destruct (ok_string_at key (sdb s) Hi Et) as (old & Hold & Hob & Hol).
  destruct (string_at_right _ _ _ Hold) as [_ ->]. case_bool_decide as Hk; cbn [andb].
  - rewrite Hsize by (split; [apply zlen_nonneg|done]). destruct (_ >? _) eqn:E; [by apply ok_replied|]. intros (o & -> & Hw' & Hv & _).
    eapply ok_insert; [done..|]. split; [|intros t [= <-]; rewrite zlen_app; lia]. split; [lia|]. split; [by apply Forall_app|rewrite zlen_app; lia].
  - intros (o & Hst & Hw' & Hv & _). eapply ok_insert; [done..|]. by apply (ok_stands value).
Qed.

(** The commands that only read. *)
Lemma read_safe c key (s : server DB) e1 e2 :
  storable key -> inv (sdb s) -> runs (strlenCommand [c; key]) s (fun s' _ => inv (sdb s')) /\ runs (getrangeCommand [c; key; e1; e2]) s (fun s' _ => inv (sdb s')).
Proof.
  intros Hkey Hi. pose proof Hi as [Hw Hd]. assert (forall o, view (sdb s) !! key = Some o -> obj_wf o) as Hwf by (intros o E; by destruct (Hd _ _ E)).
  destruct (wrong_type (view (sdb s) !! key)) eqn:Et.
  - assert (forall s' (r : option unit), replied [shared_wrongtypeerr] s s' -> inv (sdb s')) as Hx by (intros s' r Hr; by eapply ok_replied). split.
    + unfold strlenCommand. apply runs_bind, (runs_arg _ _ key); [done|]. eapply runs_impl; [by apply runs_read_wrong|exact Hx].
    + unfold getrangeCommand. apply (runs_arg_number _ _ e1); [done| |intros _; by eapply ok_same]. intros start _.
      apply (runs_arg_number _ _ e2); [done| |intros _; by eapply ok_same]. intros end_ _. apply runs_bind, (runs_arg _ _ key); [done|].
      eapply runs_impl; [by apply runs_read_wrong|exact Hx].
  - destruct (ok_string_at key (sdb s) Hi Et) as (old & Hold & _). split.
    + eapply runs_impl; [by apply runs_strlen|]. intros s' r. by apply ok_replied.
    + eapply runs_impl; [by apply runs_getrange|]. intros s' r. by destruct (number e1), (number e2); apply ok_replied.
Qed.

Lemma incr_safe c key rest incr (s : server DB) :
  storable key -> inv (sdb s) -> INT64_MIN <= incr <= INT64_MAX -> runs (incrDecrCommand cfg (c :: key :: rest) incr) s (fun s' _ => inv (sdb s')).
Proof.
  intros Hkey Hi Hr. pose proof Hi as [Hw Hd]. eapply runs_impl; [apply runs_incr_decr; [done..| |done]|]; [intros o E; by destruct (Hd _ _ E)|].
  intros s' r. by apply ok_incr_outcome.
Qed.

(** SETNX, SETEX and PSETEX. *)
Lemma set_variant_safe name c key rest oargv f val o e unit okr abr (s : server DB) :
  storable key -> inv (sdb s) -> arg_ok limit val -> stands_for val o -> OBJ_SET_GET f = false ->
  undefined_sum cfg unit (OBJ_PX f || OBJ_EX f) e = false ->
  runs (setGenericCommand cfg name (c :: key :: rest) oargv f key o e unit okr abr) s (fun s' _ => inv (sdb s')).
Proof.
  intros Hkey Hi Ha Hst Hg Hdef. pose proof Hi as [Hw Hd]. eapply runs_impl; [apply (runs_set_variant cfg (cfg_now _ Hcfg) name c key val); [done|done| |done..]|].
  { intros o' E. by destruct (Hd _ _ E). }
  intros s' r (o' & Hst' & Hout). by eapply ok_set_outcome.
Qed.

Lemma setex_safe c key e val (s : server DB) :
  storable key -> inv (sdb s) -> arg_ok limit val ->
  ending inv cfg SETEX [c; key; e; val] (setexCommand cfg [c; key; e; val] s) /\ ending inv cfg PSETEX [c; key; e; val] (psetexCommand cfg [c; key; e; val] s).
Proof.
  intros Hkey Hi Ha. pose proof Ha as [Hb Hl]. pose proof (cfg_limit _ Hcfg). pose proof (cfg_now _ Hcfg) as Hnow. assert (zlen val < MAX_STRING) as Hbig by lia.
  destruct (set_variant_faults cfg Hnow c key e val s Hb Hbig) as [Hf1 Hf2]. assert (e ∈ [c; key; e; val]) as He by set_solver.
  split; [destruct (undefined_sum cfg UNIT_SECONDS true (Some e)) eqn:Hu|destruct (undefined_sum cfg UNIT_MILLISECONDS true (Some e)) eqn:Hu].
  - right. right. split; [by apply Hf1|]. destruct (undefined_overflows cfg _ _ _ _ ltac:(lia) Hu He). done.
  - left. unfold setexCommand. apply runs_bind, (runs_encode_arg _ _ _ val); [done..|]. intros o _ Hst. by apply (set_variant_safe _ _ _ _ _ _ val).
  - right. right. split; [by apply Hf2|]. destruct (undefined_overflows cfg _ _ _ _ ltac:(lia) Hu He). done.
  - left. unfold psetexCommand. apply runs_bind, (runs_encode_arg _ _ _ val); [done..|]. intros o _ Hst. by apply (set_variant_safe _ _ _ _ _ _ val).
Qed.

(** SET and GETEX. *)
Lemma set_safe c key val args (s : server DB) :
  storable key -> inv (sdb s) -> arg_ok limit val -> ending inv cfg SET (c :: key :: val :: args) (setCommand cfg (c :: key :: val :: args) s).
Proof.
  intros Hkey Hi Ha. pose proof Ha as [Hb Hl]. pose proof Hi as [Hw Hd]. pose proof (cfg_limit _ Hcfg).
  destruct (set_any cfg (cfg_now _ Hcfg) c key val args s) as [(E & ? & ?)|Hr]; [done|done|intros o Eo; by destruct (Hd _ _ Eo)|done|lia|by right; right|].
  left. eapply runs_impl; [exact Hr|]. intros s' r [Ho|(o & f & x & st & Hst & Ho)]; [by eapply ok_replied|by eapply ok_set_outcome].
Qed.

Lemma getex_safe c key args (s : server DB) :
  storable key -> inv (sdb s) -> ending inv cfg GETEX (c :: key :: args) (getexCommand cfg (c :: key :: args) s).
Proof.
  intros Hkey Hi. pose proof Hi as [Hw Hd].
  destruct (getex_any cfg (cfg_now _ Hcfg) c key args s) as [(E & ? & ?)|Hr]; [done|done|intros o Eo; by destruct (Hd _ _ Eo)|by right; right|].
  left. eapply runs_impl; [exact Hr|]. intros s' r [Ho|[opts Ho]]; [by eapply ok_replied|by eapply ok_getex_outcome].
Qed.

(** A command with a well-formed argument vector. *)
Lemma command_safe c argv (s : server DB) :
  Forall storable argv -> inv (sdb s) -> Forall (arg_ok limit) argv -> commandCheckArity c (zlen argv) = true ->
  ending inv cfg c argv (proc cfg c argv s).
Proof.
  intros Hsts Hi Hargs Har. pose proof Hi as [Hw Hd]. pose proof (cfg_limit _ Hcfg) as Hlim. pose proof (cfg_now _ Hcfg) as Hnow.
  assert (forall key o, view (sdb s) !! key = Some o -> obj_wf o) as Hwf by (intros key o E; by destruct (Hd _ _ E)).
  assert (forall rs s', replied rs s s' -> inv (sdb s')) as Hrep by (intros rs s'; by apply ok_replied).
  assert (forall a, arg_ok limit a -> Forall is_byte a /\ zlen a < MAX_STRING) as Hbig by (intros a [? ?]; split; [done|lia]).
  destruct c; cbn [proc];
    first [destruct (argv_2 _ _ Har eq_refl) as (a & key & ->)|destruct (argv_3 _ _ Har eq_refl) as (a & key & v & ->)
      |destruct (argv_4 _ _ Har eq_refl) as (a & key & v & w & ->)|destruct (argv_ge2 _ _ Har eq_refl) as (a & key & rest & ->)
      |destruct (argv_ge3 _ _ Har eq_refl) as (a & key & v & rest & ->)];
    repeat match goal with Ha : Forall (arg_ok limit) (_ :: _) |- _ => apply Forall_cons in Ha as [? Ha] end;
    repeat match goal with Hs : Forall storable (_ :: _) |- _ => apply Forall_cons in Hs as [? Hs] end;
    try first [by apply setrange_safe|by apply set_safe|by apply getex_safe|by apply setex_safe]; left; match goal with |- exists s' r, ?m s = _ /\ _ => change (runs m s (fun s' _ => inv (sdb s'))) end.
  - by apply append_safe.
  - apply incr_safe; [done..|zconst; lia].
  - apply (runs_arg_number _ _ v); [done| |by intros _; eapply ok_same]. intros incr Ev. destruct (Z.eqb_spec incr INT64_MIN); [apply runs_reply_return; by eapply ok_same|].
    apply number_range in Ev as [? _]. apply incr_safe; [done..|]. zconst. lia.
  - unfold getCommand. apply runs_bind, runs_get_generic; [by eauto..|]. intros d ? ? ?. apply runs_ret. by eapply ok_same.
  - eapply runs_impl; [apply runs_getdel; by eauto|]. intros s' r. cbv zeta. destruct (wrong_type _); [by apply Hrep|]. intros (? & ? & _). by eapply ok_delete.
  - by apply read_safe.
  - destruct (Hbig v) as [? ?]; [done|]. eapply runs_impl; [apply runs_getset; by eauto|]. intros s' r. cbv zeta. destruct (wrong_type _); [by apply Hrep|].
    intros (o & Hst & ? & ? & _). eapply ok_insert; [done..|by eapply ok_stands].
  - apply incr_safe; [done..|zconst; lia].
  - apply (runs_arg_number _ _ v); [done| |by intros _; eapply ok_same]. intros incr Ev. apply number_range in Ev as [? _]. by apply incr_safe.
  - eapply runs_impl; [apply runs_mget; by eauto|]. intros s' r. by apply Hrep.
  - apply mset_safe; [|done|]; by repeat (apply Forall_cons; split; [done|]).
  - apply mset_safe; [|done|]; by repeat (apply Forall_cons; split; [done|]).
  - destruct (Hbig v) as [? ?]; [done|]. unfold setnxCommand. apply runs_bind, (runs_encode_arg _ _ _ v); [done..|]. intros o _ Hst. apply (set_variant_safe _ _ _ _ _ _ v); try done.
    apply andb_false_r.
  - by apply (read_safe a key s [] []).
  - by apply read_safe.
Qed.

End Invariant.

(** ** Reachable key spaces *)

Section Reachable.
Context `{Host} {DB : Type} `{KeyspaceLaws DB}.

(** One command of a client that returns, at some time and with some options of the
    server. *)
Inductive step (limit : Z) : server DB -> server DB -> Prop :=
| step_command cfg c argv s s' r :
    config_ok cfg -> alloc_limit cfg <= INT64_MAX -> proto_max_bulk_len cfg = limit -> Forall storable argv -> Forall (arg_ok limit) argv ->
    commandCheckArity c (zlen argv) = true ->
    proc cfg c argv s = Ok (s', r) -> step limit s s'.

(** Whatever string commands clients send, with whatever arguments, the objects
    of the key space stay well-formed and no string in it is longer than the limit
    clients are held to; and in every key space reached this way every command
    returns, but for the two exceptions of [ending]. *)
Theorem string_commands_invariant limit (s0 s : server DB) :
  keyspace_ok limit (sdb s0) -> rtc (step limit) s0 s ->
  keyspace_ok limit (sdb s) /\
  forall cfg c argv, config_ok cfg -> alloc_limit cfg <= INT64_MAX -> proto_max_bulk_len cfg = limit -> Forall storable argv -> Forall (arg_ok limit) argv ->
    commandCheckArity c (zlen argv) = true -> ending (keyspace_ok limit) cfg c argv (proc cfg c argv s).
Proof.
  intros Hinit Hr. assert (keyspace_ok limit (sdb s)) as Hs.
  { induction Hr as [|s1 s2 s3 Hstep Hr IH]; [done|]. apply IH. destruct Hstep as [cfg c argv s s' r Hc Hm El Hks Ha Har E].
    rewrite <- El in *.
    destruct (command_safe cfg Hc Hm c argv s Hks Hinit Ha Har) as [(s'' & r' & E' & Hi)|[[E' _]|[E' _]]]; rewrite E in E'; by simplify_eq. }
  split; [done|]. intros cfg c argv Hc Hm El Hks Ha Har. rewrite <- El in *. by apply command_safe.
Qed.

End Reachable.

(** * Examples *)

Lemma sample_config_ok : config_ok sample_config.
Proof. split; (done || (cbn; zconst; unfold MAX_STRING; lia)). Qed.

Lemma empty_server_ok limit : keyspace_ok limit (sdb empty_server).
Proof. split; [done|]. intros k o E. change (view (sdb empty_server)) with (∅ : gmap (list Z) robj) in E. by rewrite lookup_empty in E. Qed.

Definition sample_set : list (list Z) := [chars "SET"; sample_key; chars "v"; chars "EX"; ll_repr 100].

Lemma args_ok_check limit argv :
  forallb (fun a => forallb (fun b => (0 <=? b) && (b <? 256)) a && (zlen a <=? limit)) argv = true -> Forall (arg_ok limit) argv.
Proof.
  intros Hc. apply Forall_forall. intros a Ha. rewrite forallb_forall in Hc. apply list_elem_of_In, Hc in Ha. apply andb_true_iff in Ha as [Hb Hl].
  split; [|lia]. apply Forall_forall. intros b Hb'. rewrite forallb_forall in Hb. apply list_elem_of_In, Hb in Hb'. unfold is_byte. lia.
Qed.

Lemma sample_set_ok : Forall (arg_ok (proto_max_bulk_len sample_config)) sample_set.
Proof. apply args_ok_check. by vm_compute. Qed.

(** The server after the sample command. *)
Definition sample_after : server plain_db :=
  match proc (DB := plain_db) (H := little_host) sample_config SET sample_set empty_server with Ok (s, _) => s | _ => empty_server end.

Lemma sample_after_ok :
  proc (DB := plain_db) (H := little_host) sample_config SET sample_set empty_server = Ok (sample_after, Some tt).
Proof. by vm_compute. Qed.

Lemma string_commands_invariant_witness :
  exists s' r', proc (DB := plain_db) (H := little_host) sample_config STRLEN [chars "STRLEN"; sample_key] sample_after = Ok (s', r').
Proof.
  destruct (@string_commands_invariant little_host plain_db _ _ (proto_max_bulk_len sample_config) empty_server sample_after) as [_ Hp].
  - apply empty_server_ok.
  - apply rtc_once. by eapply (step_command _ sample_config SET sample_set); [apply sample_config_ok|by vm_compute|done|by repeat constructor|apply sample_set_ok| |apply sample_after_ok].
  - destruct (Hp sample_config STRLEN [chars "STRLEN"; sample_key]) as [(s' & r' & E & _)|[[_ []]|(_ & _ & Hn & _)]]; [apply sample_config_ok|by vm_compute|done|by repeat constructor| |done| |done].
    + apply args_ok_check. by vm_compute.
    + by exists s', r'.
Defined.

Lemma get_commands_correct_witness :
  exists s' r, getexCommand (DB := plain_db) (H := little_host) sample_config (chars "GETEX" :: sample_key :: concat [[chars "px"; ll_repr 5]]) counter_server = Ok (s', r) /\
    expires (sdb s') !! sample_key = Some 1700000000005.
Proof.
  destruct sample_value as [Hb Hl].
  destruct (get_commands_correct (DB := plain_db) (H := little_host) sample_config ltac:(zconst; cbn; lia) (chars "GETEX") sample_key (chars "v")
    [OTtl PX (ll_repr 5)] [[chars "px"; ll_repr 5]] counter_server ltac:(exact I) ltac:(exact I) (counter_objects sample_key) Hb Hl ltac:(repeat constructor))
    as (_ & (s' & r & E & _ & Hyes) & _).
  exists s', r. split; [exact E|]. destruct (Hyes ltac:(apply (bool_decide_unpack _); by vm_compute)) as (ms & _ & _ & _ & He & _). rewrite He. by apply lookup_insert_eq.
Defined.
