(* ===== verification/Lcs.v ===== *)
(** LCS of t_string.c: the longest common subsequence of two strings.

    The handler fills a table of the lengths for all prefixes, a linear array
    indexed with 32-bit arithmetic, and walks back through it to collect the
    subsequence and the ranges that match.  The theorems show that the string it
    answers is a common subsequence, that none is longer, and that the ranges are
    matching pieces of the two strings that make up that subsequence. *)
From S2P Require Import Prelude Endian Util Glob Sds Object StringCommands.
From stdpp Require Import gmap list strings.

Open Scope Z_scope.

(** * Definitions *)

(** A range of matching bytes: where it starts and ends in the two strings. *)
Record lcs_range := LcsRange { arange_start : Z; arange_end : Z; brange_start : Z; brange_end : Z }.

(** The variables of the walk: the position in both strings, the place in the
    result, the result, the current range and the ranges emitted. *)
Record lcs_walk := LcsWalk { wi : Z; wj : Z; widx : Z; wresult : list Z; wrange : lcs_range; wemitted : list lcs_range }.

Definition lcs_type_err : reply_item := ReplyError "The specified keys must contain string values".
Definition lcs_both_err : reply_item := ReplyError "If you want both the length and indexes, please just use IDX.".
Definition lcs_long_err : reply_item := ReplyError "String too long for LCS".
Definition lcs_limit_err : reply_item := ReplyError "Insufficient memory, transient memory for LCS exceeds proto-max-bulk-len".
Definition lcs_memory_err : reply_item := ReplyError "Insufficient memory, failed allocating transient memory for LCS".

(** [LCS(A,B)] is [lcs[(B)+((A)*(blen+1))]], in [uint32_t]. *)
Definition LCS_index (blen A B : Z) : Z := wrapU 32 (B + wrapU 32 (A * wrapU 32 (blen + 1))).

Definition LCS (lcs : list Z) (blen A B : Z) : res Z :=
  match lcs !! Z.to_nat (LCS_index blen A B) with Some v => Ok v | None => Fault end.

Definition LCS_set (lcs : list Z) (blen A B v : Z) : res (list Z) :=
  let k := Z.to_nat (LCS_index blen A B) in
  inbounds! (Z.of_nat k <? zlen lcs); Ok (<[k := v]> lcs).

(** The value of one entry of the table. *)
Definition lcs_entry (a b lcs : list Z) (blen i j : Z) : res Z :=
  if (i =? 0) || (j =? 0) then Ok 0
  else
    x ← rd1 a (i - 1);
    y ← rd1 b (j - 1);
    if x =? y then v ← LCS lcs blen (i - 1) (j - 1); Ok (wrapU 32 (v + 1))
    else
      lcs1 ← LCS lcs blen (i - 1) j;
      lcs2 ← LCS lcs blen i (j - 1);
      Ok (if lcs1 >? lcs2 then lcs1 else lcs2).

(** The inner loop, for [n] values of [j] from [j] on. *)
Fixpoint lcs_row (n : nat) (a b lcs : list Z) (blen i j : Z) : res (list Z) :=
  match n with
  | O => Ok lcs
  | S n =>
      v ← lcs_entry a b lcs blen i j;
      lcs ← LCS_set lcs blen i j v;
      lcs_row n a b lcs blen i (j + 1)
  end.

(** The outer loop, for [n] values of [i] from [i] on. *)
Fixpoint lcs_rows (n : nat) (a b lcs : list Z) (blen i : Z) : res (list Z) :=
  match n with
  | O => Ok lcs
  | S n =>
      lcs ← lcs_row (S (Z.to_nat blen)) a b lcs blen i 0;
      lcs_rows n a b lcs blen (i + 1)
  end.

(** One turn of the walk back. *)
Definition lcs_walk_step (a b lcs : list Z) (alen blen minmatchlen : Z) (w : lcs_walk) : res lcs_walk :=
  let 'LcsWalk i j idx result (LcsRange as_ ae bs be) emitted := w in
  x ← rd1 a (i - 1);
  y ← rd1 b (j - 1);
  '(i, j, idx, result, as_, ae, bs, be, emit_range) ←
    (if x =? y then
       result ← wr result (wrapU 32 (idx - 1)) [x];
       let '(as_, ae, bs, be, emit_range) :=
         if as_ =? alen then (i - 1, i - 1, j - 1, j - 1, false)
         else if (as_ =? i) && (bs =? j) then (wrapU 32 (as_ - 1), ae, wrapU 32 (bs - 1), be, false)
         else (as_, ae, bs, be, true) in
       let emit_range := if (as_ =? 0) || (bs =? 0) then true else emit_range in
       Ok (i - 1, j - 1, wrapU 32 (idx - 1), result, as_, ae, bs, be, emit_range)
     else
       lcs1 ← LCS lcs blen (i - 1) j;
       lcs2 ← LCS lcs blen i (j - 1);
       let '(i, j) := if lcs1 >? lcs2 then (i - 1, j) else (i, j - 1) in
       Ok (i, j, idx, result, as_, ae, bs, be, negb (as_ =? alen)));
  let match_len := wrapU 32 (ae - as_ + 1) in
  if (emit_range : bool) then
    let emitted := if (minmatchlen =? 0) || (match_len >=? minmatchlen) then emitted ++ [LcsRange as_ ae bs be] else emitted in
    Ok (LcsWalk i j idx result (LcsRange alen ae bs be) emitted)
  else Ok (LcsWalk i j idx result (LcsRange as_ ae bs be) emitted).

Fixpoint lcs_walk_loop (fuel : nat) (a b lcs : list Z) (alen blen minmatchlen : Z) (w : lcs_walk) : res lcs_walk :=
  if (wi w >? 0) && (wj w >? 0) then
    match fuel with
    | O => OutOfFuel
    | S fuel => w ← lcs_walk_step a b lcs alen blen minmatchlen w; lcs_walk_loop fuel a b lcs alen blen minmatchlen w
    end
  else Ok w.

Section LcsCommand.
Context `{Host} {DB : Type} `{Keyspace DB} (cfg : config).

(** The options: [getidx], [getlen], [withmatchlen] and [minmatchlen]. *)
Fixpoint lcs_options (args : list (list Z)) (getidx getlen withmatchlen : bool) (minmatchlen : Z) : cmd DB (bool * bool * bool * Z) :=
  match args with
  | [] => mret (getidx, getlen, withmatchlen, minmatchlen)
  | opt :: rest =>
      if strcase_eq opt "IDX" then lcs_options rest true getlen withmatchlen minmatchlen
      else if strcase_eq opt "LEN" then lcs_options rest getidx true withmatchlen minmatchlen
      else if strcase_eq opt "WITHMATCHLEN" then lcs_options rest getidx getlen true minmatchlen
      else
        match rest with
        | next :: rest =>
            if strcase_eq opt "MINMATCHLEN" then
              minmatchlen ← getLongLongFromObjectOrReply (Some (createStringObject next)) None;
              lcs_options rest getidx getlen withmatchlen (if minmatchlen <? 0 then 0 else minmatchlen)
            else reply_and_return shared_syntaxerr
        | [] => reply_and_return shared_syntaxerr
        end
  end.

(** The replies for one range. *)
Definition lcs_range_reply (withmatchlen : bool) (r : lcs_range) : list reply_item :=
  [ReplyArrayLen (2 + Z.b2z withmatchlen); ReplyArrayLen 2; ReplyInteger (arange_start r); ReplyInteger (arange_end r);
   ReplyArrayLen 2; ReplyInteger (brange_start r); ReplyInteger (brange_end r)] ++
  (if withmatchlen then [ReplyInteger (wrapU 32 (arange_end r - arange_start r + 1))] else []).

Fixpoint addReplies (rs : list reply_item) : cmd DB unit :=
  match rs with [] => mret tt | r :: rs => addReply r;; addReplies rs end.

(** The computation on the two strings, after the options.  The ranges are sent
    during the walk, behind an array length that is filled in at its end. *)
Definition lcs_compute (a b : list Z) (getidx getlen withmatchlen : bool) (minmatchlen : Z) : cmd DB unit :=
  if (zlen a >=? UINT32_MAX - 1) || (zlen b >=? UINT32_MAX - 1) then reply_and_return lcs_long_err
  else
    let alen := wrapU 32 (zlen a) in
    let blen := wrapU 32 (zlen b) in
    let lcssize := wrapU 64 (wrapU 32 (alen + 1) * wrapU 32 (blen + 1)) in
    let lcsalloc := wrapU 64 (lcssize * 4) in
    lcs ← (if (lcsalloc <? SIZE_MAX) && (lcsalloc / lcssize =? 4) then
             if lcsalloc >? proto_max_bulk_len cfg then reply_and_return lcs_limit_err
             else mret (if lcsalloc <=? alloc_limit cfg then Some (uninit <$> seq 0 (Z.to_nat lcssize)) else None)
           else mret None);
    match lcs with
    | None => reply_and_return lcs_memory_err
    | Some lcs =>
        lcs ← lift (lcs_rows (S (Z.to_nat alen)) a b lcs blen 0);
        idx ← lift (LCS lcs blen alen blen);
        let computelcs := getidx || negb getlen in
        result ← (if computelcs then lift (sds_alloc cfg idx);; mret (uninit <$> seq 0 (Z.to_nat idx)) else mret []);
        w ← (if computelcs
             then lift (lcs_walk_loop (S (Z.to_nat (alen + blen))) a b lcs alen blen minmatchlen
                    (LcsWalk alen blen idx result (LcsRange alen 0 0 0) []))
             else mret (LcsWalk alen blen idx result (LcsRange alen 0 0 0) []));
        if getidx then
          addReplies ([ReplyMapLen 2; ReplyBulk (chars "matches"); ReplyArrayLen (zlen (wemitted w))] ++
            concat (lcs_range_reply withmatchlen <$> wemitted w));;
          len ← lift (LCS lcs blen alen blen);
          addReplies [ReplyBulk (chars "len"); ReplyInteger len]
        else if getlen then len ← lift (LCS lcs blen alen blen); addReply (ReplyInteger len)
        else addReply (ReplyBulk (wresult w))
    end.

(** [o && o->type != OBJ_STRING] *)
Definition not_a_string (o : option robj) : bool :=
  match o with Some o => negb (bool_decide (type o = OBJ_STRING)) | None => false end.

Definition lcsCommand (argv : list (list Z)) : cmd DB unit :=
  key1 ← arg argv 1;
  obja ← on_db (lookupKeyRead key1);
  key2 ← arg argv 2;
  objb ← on_db (lookupKeyRead key2);
  if not_a_string obja || not_a_string objb then reply_and_return lcs_type_err
  else
    obja ← lift match obja with Some o => getDecodedObject o | None => Ok (createStringObject []) end;
    objb ← lift match objb with Some o => getDecodedObject o | None => Ok (createStringObject []) end;
    a ← sds_of obja;
    b ← sds_of objb;
    '(getidx, getlen, withmatchlen, minmatchlen) ← lcs_options (drop 3 argv) false false false 0;
    if (getlen : bool) && (getidx : bool) then reply_and_return lcs_both_err
    else lcs_compute a b getidx getlen withmatchlen minmatchlen.

End LcsCommand.

(** * Specification *)

(** The length of a longest common subsequence, from the heads on. *)
Fixpoint lcs_len (l1 : list Z) : list Z -> nat :=
  match l1 with
  | [] => fun _ => O
  | x :: l1' => fix go l2 :=
      match l2 with
      | [] => O
      | y :: l2' => if x =? y then S (lcs_len l1' l2') else Nat.max (lcs_len l1' l2) (go l2')
      end
  end.

(** A longest common subsequence. *)
Definition is_lcs (r a b : list Z) : Prop :=
  r `sublist_of` a /\ r `sublist_of` b /\ forall t, t `sublist_of` a -> t `sublist_of` b -> (length t <= length r)%nat.

(** The bytes of a range, in either string. *)
Definition piece_a (a : list Z) (r : lcs_range) : list Z := substr a (arange_start r) (arange_end r - arange_start r + 1).
Definition piece_b (b : list Z) (r : lcs_range) : list Z := substr b (brange_start r) (brange_end r - brange_start r + 1).

(** The range is inside the strings and has the same bytes in both. *)
Definition range_ok (a b : list Z) (r : lcs_range) : Prop :=
  0 <= arange_start r <= arange_end r /\ arange_end r < zlen a /\ 0 <= brange_start r <= brange_end r /\ brange_end r < zlen b /\
  piece_a a r = piece_b b r.

(** Ranges in the order they are sent, from the end of the strings to the start: the
    pieces put together are the string. *)
Definition pieces (a : list Z) (rs : list lcs_range) : list Z := concat (piece_a a <$> rev rs).

Definition long_enough (minmatchlen : Z) (r : lcs_range) : bool :=
  (minmatchlen =? 0) || (arange_end r - arange_start r + 1 >=? minmatchlen).

(** * Lemmas *)

Lemma lcs_len_nil_r l : lcs_len l [] = O.
Proof. by destruct l. Qed.

Lemma lcs_len_cons x y l1 l2 :
  lcs_len (x :: l1) (y :: l2) = if x =? y then S (lcs_len l1 l2) else Nat.max (lcs_len l1 (y :: l2)) (lcs_len (x :: l1) l2).
Proof. done. Qed.

Lemma sublist_tail (t l : list Z) x : t `sublist_of` x :: l -> tail t `sublist_of` l.
Proof. intros Hs. inversion Hs; subst; cbn; [done|]. destruct t; [done|]. cbn. etrans; [|done]. by apply sublist_cons. Qed.

Lemma reverse_sublist (t l : list Z) : t `sublist_of` l -> reverse t `sublist_of` reverse l.
Proof.
  induction 1 as [|x t l Hs IH|x t l Hs IH]; [done|rewrite !reverse_cons; by apply sublist_app|rewrite reverse_cons; by apply sublist_inserts_r].
Qed.

(** No common subsequence is longer. *)
Lemma lcs_len_bound l1 l2 t : t `sublist_of` l1 -> t `sublist_of` l2 -> (length t <= lcs_len l1 l2)%nat.
Proof.
  revert l2 t. induction l1 as [|x l1 IH1]; intros l2 t H1.
  { apply sublist_nil_r in H1 as ->. done. }
  induction l2 as [|y l2 IH2] in t, H1 |- *; intros H2.
  { apply sublist_nil_r in H2 as ->. done. }
  rewrite lcs_len_cons. destruct (Z.eqb_spec x y) as [->|Hne].
  - specialize (IH1 l2 (tail t)). destruct t as [|z t]; cbn in *; [lia|]. apply sublist_tail in H1, H2. cbn in *. specialize (IH1 H1 H2). lia.
  - inversion H1 as [|? u ? Hs|? ? ? Hs]; subst.
    + inversion H2 as [|? ? ? Hs2|? ? ? Hs2]; subst; [done|]. specialize (IH2 (x :: u) ltac:(by constructor) Hs2). lia.
    + specialize (IH1 (y :: l2) t Hs H2). lia.
Qed.

Lemma rd1_some (l : list Z) i : 0 <= i < zlen l -> exists x, rd1 l i = Ok x.
Proof.
  intros Hi. unfold rd1. ztrue (0 <=? i). destruct (l !! Z.to_nat i) eqn:E; [eauto|]. apply lookup_ge_None in E. unfold zlen in Hi. lia.
Qed.

Section Table.
Context (a b : list Z) (Hsize : (zlen a + 1) * (zlen b + 1) <= 2 ^ 32) (Hblen : zlen b < UINT32_MAX - 1).
Notation alen := (zlen a).
Notation blen := (zlen b).

(** The length for two prefixes. *)
Definition L (i j : Z) : Z := Z.of_nat (lcs_len (reverse (take (Z.to_nat i) a)) (reverse (take (Z.to_nat j) b))).

Lemma L_nonneg i j : 0 <= L i j.
Proof. unfold L. lia. Qed.

Lemma L_zero i j : i = 0 \/ j = 0 -> L i j = 0.
Proof. unfold L. intros [->| ->]; [done|]. by rewrite lcs_len_nil_r. Qed.

Lemma take_pred (l : list Z) i x : 0 < i -> rd1 l (i - 1) = Ok x -> reverse (take (Z.to_nat i) l) = x :: reverse (take (Z.to_nat (i - 1)) l).
Proof.
  intros Hi. unfold rd1. ztrue (0 <=? i - 1). destruct (l !! Z.to_nat (i - 1)) eqn:E; [|done]. intros [= ->].
  replace (Z.to_nat i) with (S (Z.to_nat (i - 1))) by lia. rewrite (take_S_r _ _ x) by done. by rewrite reverse_snoc.
Qed.

Lemma L_step i j x y : 0 < i -> 0 < j -> rd1 a (i - 1) = Ok x -> rd1 b (j - 1) = Ok y ->
  L i j = if x =? y then L (i - 1) (j - 1) + 1 else Z.max (L (i - 1) j) (L i (j - 1)).
Proof.
  intros Hi Hj Hx Hy. unfold L. rewrite (take_pred a i x), (take_pred b j y), lcs_len_cons by done. destruct (x =? y); lia.
Qed.

Lemma L_bound i j : 0 <= i <= alen -> 0 <= j <= blen -> L i j <= Z.min i j.
Proof.
  intros Hi Hj. unfold L. assert (forall l1 l2, lcs_len l1 l2 <= Nat.min (length l1) (length l2))%nat as Hb.
  { clear. induction l1 as [|x l1 IH1]; intros l2; [done|]. induction l2 as [|y l2 IH2]; [done|]. rewrite lcs_len_cons.
    specialize (IH1 l2) as IH1'. specialize (IH1 (y :: l2)). cbn [length] in *. destruct (x =? y); lia. }
  specialize (Hb (reverse (take (Z.to_nat i) a)) (reverse (take (Z.to_nat j) b))). rewrite !length_reverse, !length_take in Hb. lia.
Qed.

Lemma index_ok i j : 0 <= i <= alen -> 0 <= j <= blen ->
  LCS_index blen i j = j + i * (blen + 1) /\ 0 <= j + i * (blen + 1) < (alen + 1) * (blen + 1).
Proof.
  intros Hi Hj. assert (0 <= j + i * (blen + 1) < (alen + 1) * (blen + 1)) as Hr by nia. split; [|done].
  pose proof (zlen_nonneg a). unfold LCS_index. unfold UINT32_MAX in Hblen. rewrite (wrapU_small 32 (blen + 1)) by lia. rewrite (wrapU_small 32 (i * (blen + 1))) by nia. rewrite wrapU_small by lia. done.
Qed.

Lemma index_inj i j i' j' : 0 <= j <= blen -> 0 <= j' <= blen -> j + i * (blen + 1) = j' + i' * (blen + 1) -> i = i' /\ j = j'.
Proof. intros Hj Hj' E. assert (i = i') as -> by nia. lia. Qed.

(** The entries before [(i, j)] are there. *)
Definition filled (lcs : list Z) (i j : Z) : Prop :=
  zlen lcs = (alen + 1) * (blen + 1) /\
  forall i' j', 0 <= i' <= alen -> 0 <= j' <= blen -> i' < i \/ (i' = i /\ j' < j) -> LCS lcs blen i' j' = Ok (L i' j').

Lemma entry_ok lcs i j : 0 <= i <= alen -> 0 <= j <= blen -> filled lcs i j -> lcs_entry a b lcs blen i j = Ok (L i j).
Proof.
  intros Hi Hj [_ Hf]. unfold lcs_entry. destruct ((i =? 0) || (j =? 0)) eqn:E.
  { rewrite L_zero by lia. done. }
  destruct (rd1_some a (i - 1)) as [x Hx]; [lia|]. destruct (rd1_some b (j - 1)) as [y Hy]; [lia|]. rewrite Hx, Hy, !bind_Ok.
  rewrite (L_step i j x y) by (done || lia). destruct (x =? y).
  - rewrite Hf, bind_Ok by lia. rewrite wrapU_small; [done|]. pose proof (L_nonneg (i - 1) (j - 1)). pose proof (L_bound (i - 1) (j - 1) ltac:(lia) ltac:(lia)). unfold UINT32_MAX in Hblen. lia.
  - rewrite !Hf, !bind_Ok by lia. f_equal. destruct (_ >? _) eqn:Eg; lia.
Qed.

Lemma set_ok lcs i j : 0 <= i <= alen -> 0 <= j <= blen -> filled lcs i j ->
  exists lcs', LCS_set lcs blen i j (L i j) = Ok lcs' /\ filled lcs' i (j + 1).
Proof.
  intros Hi Hj [Hl Hf]. destruct (index_ok i j Hi Hj) as [Ei Hr]. unfold LCS_set. rewrite Ei. rewrite Z2Nat.id by lia.
  ztrue (j + i * (blen + 1) <? zlen lcs). eexists. split; [done|]. split; [unfold zlen in *; by rewrite length_insert|].
  intros i' j' Hi' Hj' Hlt. destruct (index_ok i' j' Hi' Hj') as [Ei' Hr']. unfold LCS. rewrite Ei'.
  destruct (decide (j + i * (blen + 1) = j' + i' * (blen + 1))) as [E|E].
  - destruct (index_inj i j i' j' Hj Hj' E) as [<- <-]. rewrite list_lookup_insert_eq; [done|]. assert (Z.of_nat (length lcs) = zlen lcs) by done. lia.
  - rewrite list_lookup_insert_ne by lia. specialize (Hf i' j' Hi' Hj'). unfold LCS in Hf. rewrite Ei' in Hf. apply Hf.
    destruct (decide (i' = i)) as [->|]; [|lia]. right. split; [done|]. destruct (decide (j' = j)) as [->|]; [done|lia].
Qed.

Lemma row_ok n lcs i j : 0 <= i <= alen -> 0 <= j -> j + Z.of_nat n = blen + 1 -> filled lcs i j ->
  exists lcs', lcs_row n a b lcs blen i j = Ok lcs' /\ filled lcs' i (blen + 1).
Proof.
  intros Hi. induction n as [|n IH] in lcs, j |- *; intros Hj Hn Hf.
  { exists lcs. split; [done|]. by replace (blen + 1) with j by lia. }
  cbn [lcs_row]. rewrite entry_ok, bind_Ok by (done || lia). destruct (set_ok lcs i j) as (lcs' & -> & Hf'); [lia|lia|done|].
  rewrite bind_Ok. apply IH; [lia|lia|done].
Qed.

Lemma rows_ok n lcs i : 0 <= i -> i + Z.of_nat n = alen + 1 -> filled lcs i 0 ->
  exists lcs', lcs_rows n a b lcs blen i = Ok lcs' /\ forall i' j', 0 <= i' <= alen -> 0 <= j' <= blen -> LCS lcs' blen i' j' = Ok (L i' j').
Proof.
  induction n as [|n IH] in lcs, i |- *; intros Hi Hn Hf.
  { exists lcs. split; [done|]. intros i' j' ? ?. apply Hf; lia. }
  cbn [lcs_rows]. pose proof (zlen_nonneg b). destruct (row_ok (S (Z.to_nat blen)) lcs i 0) as (lcs' & -> & Hl' & Hf'); [lia|lia|lia|done|].
  rewrite bind_Ok. apply IH; [lia|lia|]. split; [done|]. intros i' j' ? ? ?. apply Hf'; lia.
Qed.

(** ** The walk back *)

Context (Halen : zlen a < UINT32_MAX - 1) (lcs : list Z) (minmatchlen : Z).
Context (Hlcs : forall i j, 0 <= i <= alen -> 0 <= j <= blen -> LCS lcs blen i j = Ok (L i j)).

Lemma substr_cons (l : list Z) i n x : 0 <= i -> rd1 l i = Ok x -> 0 <= n -> substr l i (n + 1) = x :: substr l (i + 1) n.
Proof.
  intros Hi Hx Hn. apply rd1_lookup in Hx as [_ Hx]. unfold substr. rewrite (drop_S _ x) by done.
  replace (Z.to_nat (n + 1)) with (S (Z.to_nat n)) by lia. replace (Z.to_nat (i + 1)) with (S (Z.to_nat i)) by lia. done.
Qed.

Lemma drop_pred (l : list Z) i x : 0 < i -> rd1 l (i - 1) = Ok x -> drop (Z.to_nat (i - 1)) l = x :: drop (Z.to_nat i) l.
Proof. intros Hi [_ Hx]%rd1_lookup. rewrite (drop_S _ x) by done. by replace (Z.to_nat i) with (S (Z.to_nat (i - 1))) by lia. Qed.

Lemma pieces_snoc rs r : pieces a (rs ++ [r]) = piece_a a r ++ pieces a rs.
Proof. unfold pieces. by rewrite rev_app_distr. Qed.

(** The current range, when there is one: it starts where the walk is. *)
Definition current (i j : Z) (r : lcs_range) (piece : list Z) : Prop :=
  if arange_start r =? alen then piece = []
  else arange_start r = i /\ brange_start r = j /\ 0 < i /\ 0 < j /\ range_ok a b r /\ piece = piece_a a r.

(** [all] has the ranges that were emitted and the ones that were too short. *)
Definition walk_ok (w : lcs_walk) (all : list lcs_range) : Prop :=
  0 <= wi w <= alen /\ 0 <= wj w <= blen /\ widx w = L (wi w) (wj w) /\ zlen (wresult w) = L alen blen /\ 0 <= widx w <= L alen blen /\
  (let s := drop (Z.to_nat (widx w)) (wresult w) in
   s `sublist_of` drop (Z.to_nat (wi w)) a /\ s `sublist_of` drop (Z.to_nat (wj w)) b /\
   exists piece, current (wi w) (wj w) (wrange w) piece /\ s = piece ++ pieces a all) /\
  Forall (range_ok a b) all /\ wemitted w = List.filter (long_enough minmatchlen) all.

(** The end of a turn: the range is emitted, or kept. *)
Lemma lcs_emit_ok i j idx result as_ ae bs be all piece (emit : bool) :
  0 <= i <= alen -> 0 <= j <= blen -> idx = L i j -> zlen result = L alen blen -> 0 <= idx <= L alen blen ->
  drop (Z.to_nat idx) result `sublist_of` drop (Z.to_nat i) a -> drop (Z.to_nat idx) result `sublist_of` drop (Z.to_nat j) b ->
  Forall (range_ok a b) all -> drop (Z.to_nat idx) result = piece ++ pieces a all ->
  (if emit then range_ok a b (LcsRange as_ ae bs be) /\ piece = piece_a a (LcsRange as_ ae bs be)
   else current i j (LcsRange as_ ae bs be) piece) ->
  let emitted := List.filter (long_enough minmatchlen) all in
  let match_len := wrapU 32 (ae - as_ + 1) in
  exists w' all', walk_ok w' all' /\ wi w' = i /\ wj w' = j /\
  (if emit then
    let emitted := if (minmatchlen =? 0) || (match_len >=? minmatchlen) then emitted ++ [LcsRange as_ ae bs be] else emitted in
    Ok (LcsWalk i j idx result (LcsRange alen ae bs be) emitted)
  else Ok (LcsWalk i j idx result (LcsRange as_ ae bs be) emitted)) = Ok w'.
Proof.
  intros Hi Hj Hidx Hl Hb Hsa Hsb Hall Hs Hr emitted match_len. destruct emit.
  - destruct Hr as [Hok ->]. exists (LcsWalk i j idx result (LcsRange alen ae bs be) (List.filter (long_enough minmatchlen) (all ++ [LcsRange as_ ae bs be]))), (all ++ [LcsRange as_ ae bs be]).
    split; [|split; [done|]; split; [done|]].
    + unfold walk_ok. cbn [wi wj widx wresult wrange wemitted]. split_and!; try (done || lia); [exists []; split; [unfold current; cbn; by rewrite Z.eqb_refl|by rewrite pieces_snoc]|]. apply Forall_app. split; [done|by apply Forall_singleton].
    + assert (match_len = ae - as_ + 1) as -> by (apply wrapU_small; unfold range_ok in Hok; cbn in Hok; unfold UINT32_MAX in Halen; lia).
      rewrite List.filter_app. cbn [List.filter]. unfold long_enough at 2. cbn [arange_start arange_end]. destruct (_ || _); [done|by rewrite app_nil_r].
  - exists (LcsWalk i j idx result (LcsRange as_ ae bs be) emitted), all. split; [|split; [done|]; split; [done|reflexivity]]. unfold walk_ok. cbn [wi wj widx wresult wrange wemitted].
    split_and!; try (done || lia). by exists piece.
Qed.

(** A match: the byte is stored and the range starts or is extended. *)
Lemma match_ok i j result as_ ae bs be all x :
  walk_ok (LcsWalk i j (L i j) result (LcsRange as_ ae bs be) (List.filter (long_enough minmatchlen) all)) all ->
  0 < i -> 0 < j -> rd1 a (i - 1) = Ok x -> rd1 b (j - 1) = Ok x ->
  let '(as', ae', bs', be', emit_range) :=
    if as_ =? alen then (i - 1, i - 1, j - 1, j - 1, false)
    else if (as_ =? i) && (bs =? j) then (wrapU 32 (as_ - 1), ae, wrapU 32 (bs - 1), be, false)
    else (as_, ae, bs, be, true) in
  emit_range = false /\ as' = i - 1 /\ bs' = j - 1 /\ range_ok a b (LcsRange as' ae' bs' be') /\ as' <> alen /\
  x :: drop (Z.to_nat (L i j)) result = piece_a a (LcsRange as' ae' bs' be') ++ pieces a all.
Proof.
  intros (Hi & Hj & _ & _ & _ & (_ & _ & piece & Hcur & Hs) & _) Hi0 Hj0 Hx Hy. cbn [wi wj widx wresult wrange] in *.
  unfold current in Hcur. cbn [arange_start brange_start] in Hcur. destruct (Z.eqb_spec as_ alen) as [->|Hne].
  - subst piece. unfold range_ok, piece_a, piece_b. cbn [arange_start arange_end brange_start brange_end].
    replace (i - 1 - (i - 1) + 1) with (0 + 1) by lia. replace (j - 1 - (j - 1) + 1) with (0 + 1) by lia.
    rewrite (substr_cons a (i - 1) 0 x), (substr_cons b (j - 1) 0 x) by (done || lia). unfold substr. change (Z.to_nat 0) with 0%nat. rewrite !take_0, Hs.
    split_and!; done || lia.
  - destruct Hcur as (-> & -> & _ & _ & Hok & ->). rewrite !Z.eqb_refl. cbn [andb]. unfold UINT32_MAX in *. rewrite !wrapU_small by lia.
    unfold range_ok, piece_a, piece_b in *. cbn [arange_start arange_end brange_start brange_end] in *.
    destruct Hok as ([? ?] & ? & [? ?] & ? & Hp). replace (ae - (i - 1) + 1) with (ae - i + 1 + 1) by lia. replace (be - (j - 1) + 1) with (be - j + 1 + 1) by lia.
    rewrite (substr_cons a (i - 1) (ae - i + 1) x), (substr_cons b (j - 1) (be - j + 1) x) by (done || lia).
    replace (i - 1 + 1) with i by lia. replace (j - 1 + 1) with j by lia. rewrite Hs, Hp. split_and!; done || lia.
Qed.

Lemma drop_sublist (l : list Z) i i' : 0 <= i' <= i -> drop (Z.to_nat i) l `sublist_of` drop (Z.to_nat i') l.
Proof. intros Hi. replace (Z.to_nat i) with (Z.to_nat i' + Z.to_nat (i - i'))%nat by lia. rewrite <- drop_drop. apply sublist_drop. Qed.

(** No match: the walk moves to where the length is the same and the range ends. *)
Lemma lcs_move_ok i j result as_ ae bs be all i' j' :
  walk_ok (LcsWalk i j (L i j) result (LcsRange as_ ae bs be) (List.filter (long_enough minmatchlen) all)) all ->
  0 <= i' <= i -> 0 <= j' <= j -> i' + j' < i + j -> L i' j' = L i j ->
  exists w' all', (let match_len := wrapU 32 (ae - as_ + 1) in
    if negb (as_ =? alen) then
      let emitted := if (minmatchlen =? 0) || (match_len >=? minmatchlen)
        then List.filter (long_enough minmatchlen) all ++ [LcsRange as_ ae bs be] else List.filter (long_enough minmatchlen) all in
      Ok (LcsWalk i' j' (L i j) result (LcsRange alen ae bs be) emitted)
    else Ok (LcsWalk i' j' (L i j) result (LcsRange as_ ae bs be) (List.filter (long_enough minmatchlen) all))) = Ok w' /\
    walk_ok w' all' /\ wi w' + wj w' < i + j.
Proof.
  intros (Hi & Hj & _ & Hl & Hb & (Hsa & Hsb & piece & Hcur & Hs) & Hall & _) Hi' Hj' Hlt HL. cbn [wi wj widx wresult wrange] in *.
  destruct (lcs_emit_ok i' j' (L i j) result as_ ae bs be all piece (negb (as_ =? alen))) as (w' & all' & Hw' & Ei & Ej & E); [lia..| | |done|done| |].
  - etrans; [exact Hsa|by apply drop_sublist].
  - etrans; [exact Hsb|by apply drop_sublist].
  - unfold current in *. cbn [arange_start brange_start] in *. destruct (as_ =? alen); cbn [negb]; [done|]. tauto.
  - exists w', all'. split; [exact E|]. split; [done|lia].
Qed.

Lemma lcs_step_ok w all : walk_ok w all -> 0 < wi w -> 0 < wj w ->
  exists w' all', lcs_walk_step a b lcs alen blen minmatchlen w = Ok w' /\ walk_ok w' all' /\ wi w' + wj w' < wi w + wj w.
Proof.
  destruct w as [i j idx result [as_ ae bs be] emitted]. intros Hok Hi0 Hj0. cbn [wi wj] in *. unfold lcs_walk_step.
  pose proof Hok as (Hi & Hj & Hidx & Hl & Hb & (Hsa & Hsb & piece & Hcur & Hs) & Hall & Hem). cbn [wi wj widx wresult wrange wemitted] in *. subst idx emitted.
  destruct (rd1_some a (i - 1)) as [x Hx]; [lia|]. destruct (rd1_some b (j - 1)) as [y Hy]; [lia|]. rewrite Hx, Hy, !bind_Ok.
  pose proof (L_step i j x y Hi0 Hj0 Hx Hy) as HL. destruct (Z.eqb_spec x y) as [<-|Hne].
  - pose proof (match_ok i j result as_ ae bs be all x Hok Hi0 Hj0 Hx Hy) as Hm. pose proof (L_nonneg (i - 1) (j - 1)) as Hn.
    pose proof (L_bound alen blen ltac:(lia) ltac:(lia)) as Hbig. unfold UINT32_MAX in *. rewrite !(wrapU_small 32 (L i j - 1)) by lia. unfold wr.
    ztrue (0 <=? L i j - 1). change (zlen [x]) with 1. ztrue (L i j - 1 + 1 <=? zlen result). cbn [andb]. rewrite bind_Ok.
    set (result' := take _ _ ++ _). assert (drop (Z.to_nat (L i j - 1)) result' = x :: drop (Z.to_nat (L i j)) result) as Hd.
    { unfold result'. rewrite drop_app_ge by (rewrite length_take; lia). rewrite length_take, Nat.min_l by (unfold zlen in *; lia).
      rewrite Nat.sub_diag. cbn [app drop]. do 2 f_equal. lia. }
    assert (zlen result' = L alen blen) as Hl'.
    { unfold result'. rewrite !zlen_app, zlen_take, zlen_drop by lia. change (zlen [x]) with 1. lia. }
    clearbody result'. destruct (if as_ =? alen then _ else _) as [[[[as' ae'] bs'] be'] em]. destruct Hm as (-> & -> & -> & Hr & Hna' & Hpc).
    rewrite bind_Ok.
    destruct (lcs_emit_ok (i - 1) (j - 1) (L i j - 1) result' (i - 1) ae' (j - 1) be' all (piece_a a (LcsRange (i - 1) ae' (j - 1) be'))
      (if (i - 1 =? 0) || (j - 1 =? 0) then true else false)) as (w' & all' & Hw' & Ei & Ej & E); [lia..| | |done| | |].
    + rewrite Hd, (drop_pred a i x) by done. by constructor.
    + rewrite Hd, (drop_pred b j x) by done. by constructor.
    + by rewrite Hd.
    + destruct (_ || _) eqn:Ez; [done|]. unfold current. cbn [arange_start brange_start]. zfalse (i - 1 =? alen). split_and!; done || lia.
    + exists w', all'. split; [exact E|]. split; [done|lia].
  - rewrite !Hlcs, !bind_Ok by lia.
    destruct (Z.gtb_spec (L (i - 1) j) (L i (j - 1))); rewrite bind_Ok; apply lcs_move_ok; done || lia.
Qed.

Lemma loop_ok fuel w all : walk_ok w all -> (Z.to_nat (wi w + wj w) < fuel)%nat ->
  exists w' all', lcs_walk_loop fuel a b lcs alen blen minmatchlen w = Ok w' /\ walk_ok w' all' /\ (wi w' = 0 \/ wj w' = 0).
Proof.
  induction fuel as [|fuel IH] in w, all |- *; intros Hw Hf; [lia|]. pose proof Hw as (Hi & Hj & _). cbn [lcs_walk_loop].
  destruct (_ && _) eqn:E; [|exists w, all; split; [done|]; split; [done|lia]].
  destruct (lcs_step_ok w all Hw) as (w' & all' & -> & Hw' & Hlt); [lia..|]. rewrite bind_Ok. apply (IH w' all'); [done|]. pose proof Hw' as (? & ? & _). lia.
Qed.

(** The whole walk. *)
Lemma walk_correct result : zlen result = L alen blen ->
  exists w all, lcs_walk_loop (S (Z.to_nat (alen + blen))) a b lcs alen blen minmatchlen (LcsWalk alen blen (L alen blen) result (LcsRange alen 0 0 0) []) = Ok w /\
    is_lcs (wresult w) a b /\ zlen (wresult w) = L alen blen /\ wresult w = pieces a all /\ Forall (range_ok a b) all /\
    wemitted w = List.filter (long_enough minmatchlen) all.
Proof.
  intros Hl. pose proof (zlen_nonneg a). pose proof (zlen_nonneg b). pose proof (L_nonneg alen blen).
  destruct (loop_ok (S (Z.to_nat (alen + blen))) (LcsWalk alen blen (L alen blen) result (LcsRange alen 0 0 0) []) []) as (w & all & E & Hw & Hend); [|cbn; lia|].
  { unfold walk_ok. cbn [wi wj widx wresult wrange wemitted]. assert (drop (Z.to_nat (L alen blen)) result = []) as -> by (apply drop_ge; unfold zlen in *; lia).
    split_and!; try (done || lia || apply sublist_nil_l || constructor). exists []. split; [|done]. unfold current. cbn. by rewrite Z.eqb_refl. }
  exists w, all. split; [done|]. destruct Hw as (_ & _ & Hidx & Hlen & _ & (Hsa & Hsb & piece & Hcur & Hs) & Hall & Hem). rewrite L_zero in Hidx by lia.
  rewrite Hidx in *. change (Z.to_nat 0) with 0%nat in *. rewrite drop_0 in *.
  assert (piece = []) as -> by (unfold current in Hcur; destruct (_ =? _); [done|lia]). unfold is_lcs. split_and!; try done.
  - etrans; [exact Hsa|apply sublist_drop].
  - etrans; [exact Hsb|apply sublist_drop].
  - intros t Ht1 Ht2. assert (length t <= lcs_len (reverse a) (reverse b))%nat as Hb.
    { rewrite <- length_reverse. apply lcs_len_bound; by apply reverse_sublist. }
    unfold L in Hlen. rewrite !take_ge in Hlen by (unfold zlen; lia). unfold zlen in Hlen. lia.
Qed.

End Table.

(** ** Options *)

Inductive lcs_option := Idx | Len | WithMatchLen | MinMatchLen (n : Z).

(** The words spell the options, in that order. *)
Inductive lcs_words : list (list Z) -> list lcs_option -> Prop :=
| words_nil : lcs_words [] []
| words_idx w args opts : strcase_eq w "IDX" = true -> lcs_words args opts -> lcs_words (w :: args) (Idx :: opts)
| words_len w args opts : strcase_eq w "LEN" = true -> lcs_words args opts -> lcs_words (w :: args) (Len :: opts)
| words_with w args opts : strcase_eq w "WITHMATCHLEN" = true -> lcs_words args opts -> lcs_words (w :: args) (WithMatchLen :: opts)
| words_min w e n args opts :
    strcase_eq w "MINMATCHLEN" = true -> number e = Some n -> lcs_words args opts -> lcs_words (w :: e :: args) (MinMatchLen n :: opts).

Definition given (o : lcs_option) (opts : list lcs_option) : bool :=
  existsb (fun o' => match o, o' with Idx, Idx | Len, Len | WithMatchLen, WithMatchLen => true | _, _ => false end) opts.

(** The last MINMATCHLEN counts; a negative one is zero. *)
Definition min_len (opts : list lcs_option) (default : Z) : Z :=
  fold_left (fun m o => match o with MinMatchLen n => Z.max 0 n | _ => m end) opts default.

(** Two different words cannot be spelt by the same argument. *)
Lemma one_word w x y : strcase_eq w x = true -> strcase_eq w y = true -> tolower <$> chars x = tolower <$> chars y.
Proof. unfold strcase_eq. rewrite !bool_decide_eq_true. by intros ->. Qed.

Ltac other_word :=
  try match goal with
  | Ha : strcase_eq ?w ?x = true, Hb : strcase_eq ?w ?y = true |- _ => exfalso; pose proof (one_word _ _ _ Ha Hb) as Hx; by vm_compute in Hx
  end.

Section Command.
Context `{Host} {DB : Type} `{KeyspaceLaws DB} (cfg : config).

(** What LCS answers for the subsequence [r], made of the ranges [rs]. *)
Definition lcs_reply (getidx getlen withmatchlen : bool) (minmatchlen : Z) (r : list Z) (rs : list lcs_range) : list reply_item :=
  let sent := List.filter (long_enough minmatchlen) rs in
  if getidx then
    [ReplyMapLen 2; ReplyBulk (chars "matches"); ReplyArrayLen (zlen sent)] ++ concat (lcs_range_reply withmatchlen <$> sent) ++
    [ReplyBulk (chars "len"); ReplyInteger (zlen r)]
  else if getlen then [ReplyInteger (zlen r)]
  else [ReplyBulk r].

Lemma runs_replies rs (s : server DB) (Q : _ -> _ -> Prop) :
  Q (Server (sdb s) (reply s ++ rs) (dirty s) (events s)) (Some tt) -> runs (addReplies rs) s Q.
Proof.
  revert s. induction rs as [|r rs IH]; intros s HQ.
  - apply runs_ret. rewrite app_nil_r in HQ. by destruct s.
  - cbn [addReplies]. apply runs_bind, runs_reply. apply IH. cbn [with_reply sdb reply dirty events]. by rewrite <- app_assoc.
Qed.

Lemma runs_lcs_options args getidx getlen withmatchlen minmatchlen (s : server DB) (Q : _ -> _ -> Prop) :
  (forall opts, lcs_words args opts -> Q s (Some (getidx || given Idx opts, getlen || given Len opts, withmatchlen || given WithMatchLen opts, min_len opts minmatchlen))) ->
  ((forall opts, ~ lcs_words args opts) ->
   forall e, e = shared_syntaxerr \/ e = ReplyError "value is not an integer or out of range" -> Q (with_reply s e) None) ->
  runs (lcs_options args getidx getlen withmatchlen minmatchlen) s Q.
Proof.
  remember (length args) as n eqn:En. revert args En getidx getlen withmatchlen minmatchlen. induction n as [n IH] using lt_wf_ind.
  intros [|w args] En getidx getlen withmatchlen minmatchlen Hok Herr; cbn [lcs_options].
  { apply runs_ret. rewrite <- (orb_false_r getidx), <- (orb_false_r getlen), <- (orb_false_r withmatchlen). apply (Hok []). constructor. }
  cbn in En. destruct (strcase_eq w "IDX") eqn:E1; [|destruct (strcase_eq w "LEN") eqn:E2; [|destruct (strcase_eq w "WITHMATCHLEN") eqn:E3]].
  1-3: eapply (IH (length args)); [lia|done| |intros Hno; apply Herr; intros opts Hw; inversion Hw; subst; other_word; eapply Hno; eassumption].
  - intros opts Hw. specialize (Hok (Idx :: opts)). cbn in Hok. rewrite orb_true_r in Hok. apply Hok. by constructor.
  - intros opts Hw. specialize (Hok (Len :: opts)). cbn in Hok. rewrite orb_true_r in Hok. apply Hok. by constructor.
  - intros opts Hw. specialize (Hok (WithMatchLen :: opts)). cbn in Hok. rewrite orb_true_r in Hok. apply Hok. by constructor.
  - destruct args as [|e args]; [apply runs_reply_return, Herr; [|by left]; intros opts Hw; inversion Hw; subst; congruence|].
    destruct (strcase_eq w "MINMATCHLEN") eqn:E4; [|apply runs_reply_return, Herr; [|by left]; intros opts Hw; inversion Hw; subst; congruence].
    apply runs_bind, runs_number; [intros v Ev|intros Ev; apply Herr; [|by right]; intros opts Hw; inversion Hw; subst; congruence].
    eapply (IH (length args)); [cbn in En; lia|done| |].
    + intros opts Hw. specialize (Hok (MinMatchLen v :: opts)). cbn [given existsb min_len fold_left orb] in Hok.
      replace (if v <? 0 then 0 else v) with (Z.max 0 v) by (destruct (Z.ltb_spec v 0); lia). apply Hok. by constructor.
    + intros Hno. apply Herr. intros opts Hw. inversion Hw; subst; try congruence. eapply Hno; eassumption.
Qed.

Lemma string_at_type (m : gmap (list Z) robj) (key str : list Z) : string_at m key str -> not_a_string (m !! key) = false.
Proof. unfold string_at. destruct (m !! key) as [o|]; [|done]. intros [_ Hs]. by destruct o. Qed.

(** A string to compare: the text of the object, or nothing. *)
Lemma decode_string (key str : list Z) (m : gmap (list Z) robj) :
  string_at m key str ->
  exists e n, match m !! key with Some o => getDecodedObject o | None => Ok (createStringObject []) end = Ok (RString e n str).
Proof.
  unfold string_at. destruct (m !! key) as [o|]; [intros [Ho Hs]; by apply decode_ok|]. intros ->. by eexists _, _.
Qed.

Lemma runs_lcs_compute a b getidx getlen withmatchlen minmatchlen (s : server DB) :
  db_wf (sdb s) -> zlen a < 2 ^ 30 -> zlen b < 2 ^ 30 -> proto_max_bulk_len cfg <= 2 ^ 34 -> proto_max_bulk_len cfg <= alloc_limit cfg ->
  runs (lcs_compute cfg a b getidx getlen withmatchlen minmatchlen) s (fun s' _ =>
    if 4 * ((zlen a + 1) * (zlen b + 1)) >? proto_max_bulk_len cfg then replied [lcs_limit_err] s s'
    else exists r rs, is_lcs r a b /\ r = pieces a rs /\ Forall (range_ok a b) rs /\
      replied (lcs_reply getidx getlen withmatchlen minmatchlen r rs) s s').
Proof.
  intros Hw Ha Hb Hlim Hal. pose proof (zlen_nonneg a). pose proof (zlen_nonneg b). unfold lcs_compute, UINT32_MAX.
  zfalse (zlen a >=? 2 ^ 32 - 1 - 1). zfalse (zlen b >=? 2 ^ 32 - 1 - 1). cbn [orb].
  assert (0 < (zlen a + 1) * (zlen b + 1) < 2 ^ 61) as Hsz by nia. rewrite !(wrapU_small 32 (zlen _)) by lia. rewrite !(wrapU_small 32 (zlen _ + 1)) by lia.
  set (n := (zlen a + 1) * (zlen b + 1)) in *. rewrite (wrapU_small 64 n) by lia. rewrite (wrapU_small 64 (n * 4)) by lia. rewrite (Z.mul_comm n 4), Z.div_mul by lia. unfold SIZE_MAX, UINT64_MAX.
  ztrue (4 * n <? 2 ^ 64 - 1). cbn [andb Z.eqb Pos.eqb]. apply runs_bind.
  destruct (4 * n >? proto_max_bulk_len cfg) eqn:El; [apply runs_reply_return; by split_and!|]. apply runs_ret. ztrue (4 * n <=? alloc_limit cfg).
  assert (n <= 2 ^ 32) as Hn32 by lia. assert (zlen a < UINT32_MAX - 1 /\ zlen b < UINT32_MAX - 1) as [Ha32 Hb32] by (unfold UINT32_MAX; lia).
  set (table := uninit <$> seq 0 (Z.to_nat n)). assert (filled a b table 0 0) as Hf.
  { split; [fold n; unfold table; rewrite zlen_fmap; unfold zlen at 1; rewrite length_seq; lia|]. intros; lia. }
  destruct (rows_ok a b Hn32 Hb32 (S (Z.to_nat (zlen a))) table 0) as (lcs & Erows & Hlcs); [lia|lia|done|].
  apply runs_bind. eapply runs_lift; [exact Erows|]. assert (LCS lcs (zlen b) (zlen a) (zlen b) = Ok (L a b (zlen a) (zlen b))) as Hlast by (apply Hlcs; lia).
  apply runs_bind. eapply runs_lift; [exact Hlast|]. set (len := L a b (zlen a) (zlen b)) in *.
  assert (0 <= len <= Z.min (zlen a) (zlen b)) as Hlen by (split; [apply L_nonneg|apply L_bound; lia]).
  set (result := uninit <$> seq 0 (Z.to_nat len)). assert (zlen result = len) as Hres by (unfold result, zlen; rewrite length_fmap, length_seq; lia).
  destruct (walk_correct a b Hb32 Ha32 lcs minmatchlen Hlcs result Hres) as (w & all & Ew & Hlcs' & Hl' & Hp & Hok & Hem).
  assert (sds_alloc cfg len = Ok tt) as Halloc by (unfold sds_alloc; by ztrue (len <=? alloc_limit cfg)).
  assert (forall s', replied (lcs_reply getidx getlen withmatchlen minmatchlen (wresult w) all) s s' ->
    exists r rs, is_lcs r a b /\ r = pieces a rs /\ Forall (range_ok a b) rs /\ replied (lcs_reply getidx getlen withmatchlen minmatchlen r rs) s s') as Hdone by eauto 10.
  unfold lcs_reply in Hdone. destruct getidx, getlen; cbn [orb negb].
  3: { apply runs_bind, runs_ret, runs_bind, runs_ret. apply runs_bind. eapply runs_lift; [exact Hlast|]. apply runs_reply, Hdone. rewrite Hl'. by split_and!. }
  all: apply runs_bind, runs_bind; (eapply runs_lift; [exact Halloc|]); apply runs_ret; apply runs_bind; (eapply runs_lift; [exact Ew|]).
  3: { apply runs_reply, Hdone. by split_and!. }
  all: apply runs_bind, runs_replies; apply runs_bind; (eapply runs_lift; [exact Hlast|]); apply runs_replies, Hdone; rewrite Hl', <- Hem;
    cbn [sdb reply dirty events]; split_and!; try done; cbn [sdb reply dirty events]; by rewrite <- !app_assoc.
Qed.

(** C30: LCS answers a longest common subsequence of the two strings, its length, or,
    with IDX, the ranges that match: each is a piece with the same bytes in both
    strings, and the pieces together are that subsequence, from the end of the
    strings to their start; MINMATCHLEN leaves the shorter ones out.  Words that are
    no options are answered with an error.  Missing keys
    are empty strings, LEN and IDX exclude each other, and a table that would exceed
    the limit on strings is answered with an error. *)
Theorem lcsCommand_correct c key1 key2 args a b (s : server DB) :
  storable key1 -> storable key2 -> db_wf (sdb s) -> string_at (view (sdb s)) key1 a -> string_at (view (sdb s)) key2 b ->
  zlen a < 2 ^ 30 -> zlen b < 2 ^ 30 -> proto_max_bulk_len cfg <= 2 ^ 34 -> proto_max_bulk_len cfg <= alloc_limit cfg ->
  runs (lcsCommand cfg (c :: key1 :: key2 :: args)) s (fun s' _ =>
    ((forall opts, ~ lcs_words args opts) /\ exists e, replied [ReplyError e] s s') \/
    exists opts, lcs_words args opts /\
      if given Len opts && given Idx opts then replied [lcs_both_err] s s'
      else if 4 * ((zlen a + 1) * (zlen b + 1)) >? proto_max_bulk_len cfg then replied [lcs_limit_err] s s'
      else exists r rs, is_lcs r a b /\ r = pieces a rs /\ Forall (range_ok a b) rs /\
        replied (lcs_reply (given Idx opts) (given Len opts) (given WithMatchLen opts) (min_len opts 0) r rs) s s').
Proof.
  intros Hkey1 Hkey2 Hw H1' H2' Ha Hb Hlim Hal. unfold lcsCommand. apply runs_bind, (runs_arg _ _ key1); [done|]. apply runs_bind, runs_read; [done..|].
  intros d1 Hd1 Hv1 He1. apply runs_bind, (runs_arg _ _ key2); [done|]. apply runs_bind, runs_read; [done..|]. cbn [sdb with_db]. rewrite Hv1. intros d2 Hd2 Hv2 He2.
  rewrite (string_at_type _ _ _ H1'), (string_at_type _ _ _ H2'). cbn [orb].
  destruct (decode_string _ _ _ H1') as (e1 & n1 & E1), (decode_string _ _ _ H2') as (e2 & n2 & E2).
  apply runs_bind. eapply runs_lift; [exact E1|]. apply runs_bind. eapply runs_lift; [exact E2|]. apply runs_bind, runs_ret, runs_bind, runs_ret.
  assert (forall rs s', replied rs (with_db (with_db s d1) d2) s' -> replied rs s s') as Hback.
  { intros rs s' (? & ? & ? & ? & ? & ?). cbn [sdb with_db reply dirty events] in *. split_and!; congruence. }
  apply runs_bind. cbn [drop]. apply runs_lcs_options; cbn [orb]; cycle 1.
  { intros Hno e He. left. split; [done|]. destruct He as [-> | ->]; eexists; apply Hback; by split_and!. }
  intros opts Hopts. destruct (given Len opts && given Idx opts) eqn:Eb.
  { apply runs_reply_return. right. exists opts. split; [done|]. rewrite Eb. apply Hback. by split_and!. }
  eapply runs_impl; [by apply runs_lcs_compute|]. cbv beta. intros s' r Hr. right. exists opts. split; [done|]. rewrite Eb.
  destruct (_ >? _); [by apply Hback|]. destruct Hr as (r' & rs & ? & ? & ? & ?). exists r', rs. split_and!; auto.
Qed.

End Command.

Lemma string_at_check (m : gmap (list Z) robj) (key : list Z) e n (str : list Z) :
  m !! key = Some (RString e n str) -> (1 <=? n) && forallb (fun b => (0 <=? b) && (b <? 256)) str && (zlen str <? MAX_STRING) = true -> string_at m key str.
Proof.
  unfold string_at. intros ->. rewrite !andb_true_iff. intros [[Hn Hb] Hl]. split; [|done]. split; [lia|]. split; [|lia].
  apply Forall_forall. intros x Hx%list_elem_of_In. rewrite forallb_forall in Hb. apply Hb in Hx. unfold is_byte. lia.
Qed.

(** * Examples *)

Definition lcs_a : list Z := [111; 104; 109; 121; 116; 101; 120; 116].
Definition lcs_b : list Z := [109; 121; 110; 101; 119; 116; 101; 120; 116].
Definition lcs_server : server plain_db :=
  Server (<[chars "a" := RString OBJ_ENCODING_EMBSTR 1 lcs_a]> {[chars "b" := RString OBJ_ENCODING_EMBSTR 1 lcs_b]}, ∅) [] 0 [].

(** The example of the documentation of the command. *)
Lemma lcs_example : exists s', lcsCommand (DB := plain_db) (H := little_host) sample_config [chars "LCS"; chars "a"; chars "b"] lcs_server = Ok (s', Some tt) /\
  reply s' = [ReplyBulk [109; 121; 116; 101; 120; 116]].
Proof. eexists. split; by vm_compute. Qed.

Lemma lcsCommand_correct_witness :
  exists s' x, lcsCommand (DB := plain_db) (H := little_host) sample_config [chars "LCS"; chars "a"; chars "b"; chars "len"] lcs_server = Ok (s', x) /\
    exists r, is_lcs r lcs_a lcs_b /\ reply s' = [ReplyInteger (zlen r)].
Proof.
  destruct (lcsCommand_correct (DB := plain_db) (H := little_host) sample_config (chars "LCS") (chars "a") (chars "b") [chars "len"] lcs_a lcs_b lcs_server
    ltac:(exact I) ltac:(exact I) ltac:(exact I)) as (s' & x & E & Hout).
  - apply (string_at_check _ _ OBJ_ENCODING_EMBSTR 1); by vm_compute.
  - apply (string_at_check _ _ OBJ_ENCODING_EMBSTR 1); by vm_compute.
  - done.
  - done.
  - by vm_compute.
  - by vm_compute.
  - exists s', x. split; [exact E|]. destruct Hout as [[Hno _]|(opts & Hw & Hout)].
    { destruct (Hno [Len]). repeat constructor. }
    assert (opts = [Len]) as -> by (inversion Hw as [|? ? ? Hx|? ? ? Hx Hnil|? ? ? Hx|]; subst; [by vm_compute in Hx|by inversion Hnil|by vm_compute in Hx]).
    assert (4 * ((zlen lcs_a + 1) * (zlen lcs_b + 1)) >? proto_max_bulk_len sample_config = false) as Ef by (by vm_compute).
    cbn [given existsb orb andb] in Hout. rewrite Ef in Hout. destruct Hout as (r & rs & Hr & _ & _ & _ & _ & _ & Hrep & _). exists r. split; [exact Hr|exact Hrep].
Defined.
