(* ===== verification/Lzf.v ===== *)
(** LZF compression ([lzf_c.c], [lzf_d.c], [lzfP.h]), with the settings Redis builds
    it with: a table of 2^16 pointers that is not initialised, and checked input.

    Pointers into the input are addresses, pointers into the output offsets.  Whatever
    the table holds at first, the compressor stays inside its buffers, and what it
    produces is decompressed to its input; the decompressor stays inside its buffers
    on arbitrary bytes. *)
From S2P Require Import Prelude.

(** * Definitions *)

Definition HLOG : Z := 16.
Definition HSIZE : Z := Z.shiftl 1 HLOG.
Definition MAX_LIT : Z := Z.shiftl 1 5.
Definition MAX_OFF : Z := Z.shiftl 1 13.
Definition MAX_REF : Z := Z.shiftl 1 8 + Z.shiftl 1 3.

Definition FRST (p0 p1 : Z) : Z := Z.lor (Z.shiftl p0 8) p1.
Definition NEXT (v p2 : Z) : Z := Z.lor (wrapU 32 (Z.shiftl v 8)) p2.
Definition IDX (h : Z) : Z := Z.land (wrapU 32 (Z.shiftr h (3 * 8 - HLOG) - wrapU 32 (h * 5))) (HSIZE - 1).

(** The hash table: addresses. *)
Definition LZF_STATE : Type := Z -> Z.

Definition set_slot (htab : LZF_STATE) (i a : Z) : LZF_STATE := fun j => if j =? i then a else htab j.

(** The local variables; [op] and [ip] are offsets. *)
Record lzf_vars := LzfVars {
  ip : Z;
  op : Z;
  lit : Z;
  hval : Z;
  htab : LZF_STATE;
  out : list Z;
}.

Section Compress.
(** The input, its address, and the size of the output buffer that was passed. *)
Context (in_data : list Z) (base out_len : Z).
Notation in_len := (zlen in_data).

(** [len++; if (ref[len] != ip[len]) break;], [n] times; and whether it broke out. *)
Fixpoint match_unrolled (n : nat) (ref ip len : Z) : res (Z * bool) :=
  match n with
  | O => Ok (len, false)
  | S n =>
      let len := len + 1 in
      a ← rd1 in_data (ref + len);
      b ← rd1 in_data (ip + len);
      if negb (a =? b) then Ok (len, true) else match_unrolled n ref ip len
  end.

(** [do len++; while (len < maxlen && ref[len] == ip[len]);] *)
Fixpoint match_more (fuel : nat) (ref ip len maxlen : Z) : res Z :=
  match fuel with
  | O => OutOfFuel
  | S fuel =>
      let len := len + 1 in
      if len <? maxlen then
        a ← rd1 in_data (ref + len);
        b ← rd1 in_data (ip + len);
        if a =? b then match_more fuel ref ip len maxlen else Ok len
      else Ok len
  end.

Definition match_len (ref ip : Z) : res Z :=
  let len := 2 in
  let maxlen := in_len - ip - len in
  let maxlen := if maxlen >? MAX_REF then MAX_REF else maxlen in
  r ← (if maxlen >? 16 then match_unrolled 16 ref ip len else Ok (len, false));
  let '(len, broke) := r in
  if (broke : bool) then Ok len else match_more (Z.to_nat MAX_REF) ref ip len maxlen.

(** The condition of a match at the address [ref], with [off]. *)
Definition is_match (ref ip off : Z) : res bool :=
  if negb (off <? MAX_OFF) then Ok false
  else if negb (base <? ref) then Ok false
  else
    let r := ref - base in
    a ← rd1 in_data (r + 2);
    b ← rd1 in_data (ip + 2);
    if negb (a =? b) then Ok false
    else
      a ← rd in_data r 2;
      b ← rd in_data ip 2;
      Ok (bool_decide (a = b)).

(** [op [- lit - 1] = lit - 1;] *)
Definition stop_run (out : list Z) (op lit : Z) : res (list Z) := wr out (op - lit - 1) [wrapU 8 (lit - 1)].

(** The bytes of a reference of [len + 2] octets; the new output and position. *)
Definition put_ref (out : list Z) (op off len : Z) : res (list Z * Z) :=
  r ← (if len <? 7 then
         out ← wr out op [wrapU 8 (Z.shiftr off 8 + Z.shiftl len 5)];
         Ok (out, op + 1)
       else
         out ← wr out op [wrapU 8 (Z.shiftr off 8 + Z.shiftl 7 5)];
         out ← wr out (op + 1) [wrapU 8 (len - 7)];
         Ok (out, op + 2));
  let '(out, op) := r in
  out ← wr out op [wrapU 8 off];
  Ok (out, op + 1).

(** A byte joins the run. *)
Definition put_literal (v : lzf_vars) : res lzf_vars :=
  b ← rd1 in_data (ip v);
  out ← wr (out v) (op v) [b];
  let lit := lit v + 1 in
  let op := op v + 1 in
  if lit =? MAX_LIT then
    out ← stop_run out op lit;
    Ok (LzfVars (ip v + 1) (op + 1) 0 (hval v) (htab v) out)
  else Ok (LzfVars (ip v + 1) op lit (hval v) (htab v) out).

(** The next position is hashed into the table. *)
Definition hash_next (hval ip : Z) (htab : LZF_STATE) : res (Z * LZF_STATE) :=
  p2 ← rd1 in_data (ip + 2);
  let hval := NEXT hval p2 in
  Ok (hval, set_slot htab (IDX hval) (base + ip)).

(** [return 0] is [None]. *)
Fixpoint compress_loop (fuel : nat) (v : lzf_vars) : res (option lzf_vars) :=
  match fuel with
  | O => OutOfFuel
  | S fuel =>
      if ip v <? in_len - 2 then
        p2 ← rd1 in_data (ip v + 2);
        let hval' := NEXT (hval v) p2 in
        let ref := htab v (IDX hval') in
        let htab' := set_slot (htab v) (IDX hval') (base + ip v) in
        let off := wrapU 64 (base + ip v - ref - 1) in
        found ← is_match ref (ip v) off;
        if (found : bool) then
          let undo := if lit v =? 0 then 1 else 0 in
          if (op v + 3 + 1 >=? out_len) && (op v - undo + 3 + 1 >=? out_len) then Ok None
          else
            o ← stop_run (out v) (op v) (lit v);
            let op := op v - undo in
            n ← match_len (ref - base) (ip v);
            let len := n - 2 in
            r ← put_ref o op off len;
            let '(o, op) := r in
            let op := op + 1 in
            let ip := ip v + 1 + (len + 1) in
            if ip >=? in_len - 2 then Ok (Some (LzfVars ip op 0 hval' htab' o))
            else
              let ip := ip - 2 in
              p0 ← rd1 in_data ip;
              p1 ← rd1 in_data (ip + 1);
              h ← hash_next (FRST p0 p1) ip htab';
              h ← hash_next h.1 (ip + 1) h.2;
              compress_loop fuel (LzfVars (ip + 2) op 0 h.1 h.2 o)
        else
          let v := LzfVars (ip v) (op v) (lit v) hval' htab' (out v) in
          if op v >=? out_len then Ok None
          else
            v ← put_literal v;
            compress_loop fuel v
      else Ok (Some v)
  end.

Fixpoint compress_tail (fuel : nat) (v : lzf_vars) : res lzf_vars :=
  match fuel with
  | O => OutOfFuel
  | S fuel =>
      if ip v <? in_len then
        v ← put_literal v;
        compress_tail fuel v
      else Ok v
  end.

(** The size of the result, 0 when it does not fit, and the output buffer.  The
    buffer is [None] when [return 0] leaves it in a state nobody reads. *)
Definition lzf_compress (htab0 : LZF_STATE) (out_data : list Z) : res (Z * option (list Z)) :=
  if (in_len =? 0) || (out_len =? 0) then Ok (0, None)
  else
    p0 ← rd1 in_data 0;
    p1 ← rd1 in_data 1;
    v ← compress_loop (S (length in_data)) (LzfVars 0 1 0 (FRST p0 p1) htab0 out_data);
    match v with
    | None => Ok (0, None)
    | Some v =>
        if op v + 3 >? out_len then Ok (0, None)
        else
          v ← compress_tail (S (length in_data)) v;
          o ← stop_run (out v) (op v) (lit v);
          Ok (op v - (if lit v =? 0 then 1 else 0), Some o)
    end.

End Compress.

(** ** Decompression *)

Inductive lzf_errno := E2BIG | EINVAL.

Section Decompress.
Context (in_data : list Z) (out_len : Z).
Notation in_len := (zlen in_data).

(** [*op++ = *ip++], [n] times. *)
Fixpoint copy_literals (n : nat) (ip op : Z) (out : list Z) : res (list Z) :=
  match n with
  | O => Ok out
  | S n =>
      b ← rd1 in_data ip;
      out ← wr out op [b];
      copy_literals n (ip + 1) (op + 1) out
  end.

(** [*op++ = *ref++], [n] times. *)
Fixpoint copy_octets (n : nat) (ref op : Z) (out : list Z) : res (list Z) :=
  match n with
  | O => Ok out
  | S n =>
      b ← rd1 out ref;
      out ← wr out op [b];
      copy_octets n (ref + 1) (op + 1) out
  end.

(** The octets of a reference: short ones one by one, longer ones at once unless the
    areas overlap. *)
Definition copy_ref (len ref op : Z) (out : list Z) : res (list Z) :=
  if len <=? 9 then copy_octets (Z.to_nat (len + 2)) ref op out
  else
    let len := len + 2 in
    if op >=? ref + len then memmove out op ref len
    else copy_octets (Z.to_nat len) ref op out.

(** The size of the output, or the error with which 0 is returned. *)
Fixpoint decompress_loop (fuel : nat) (ip op : Z) (out : list Z) : res (lzf_errno + Z * list Z) :=
  match fuel with
  | O => OutOfFuel
  | S fuel =>
      if ip <? in_len then
        ctrl ← rd1 in_data ip;
        let ip := ip + 1 in
        if ctrl <? Z.shiftl 1 5 then
          let ctrl := ctrl + 1 in
          if op + ctrl >? out_len then Ok (inl E2BIG)
          else if ip + ctrl >? in_len then Ok (inl EINVAL)
          else
            out ← copy_literals (Z.to_nat ctrl) ip op out;
            decompress_loop fuel (ip + ctrl) (op + ctrl) out
        else
          let len := Z.shiftr ctrl 5 in
          let ref := op - Z.shiftl (Z.land ctrl 31) 8 - 1 in
          if ip >=? in_len then Ok (inl EINVAL)
          else
            r ← (if len =? 7 then
                   x ← rd1 in_data ip;
                   Ok (if ip + 1 >=? in_len then None else Some (len + x, ip + 1))
                 else Ok (Some (len, ip)));
            match r with
            | None => Ok (inl EINVAL)
            | Some (len, ip) =>
                x ← rd1 in_data ip;
                let ref := ref - x in
                let ip := ip + 1 in
                if op + len + 2 >? out_len then Ok (inl E2BIG)
                else if ref <? 0 then Ok (inl EINVAL)
                else
                  out ← copy_ref len ref op out;
                  decompress_loop fuel ip (op + (len + 2)) out
            end
      else Ok (inr (op, out))
  end.

Definition lzf_decompress (out_data : list Z) : res (lzf_errno + Z * list Z) :=
  decompress_loop (S (length in_data)) 0 0 out_data.

End Decompress.

(** * The format *)

(** [n] octets repeated from [off + 1] octets back, which may be ones just added. *)
Fixpoint repeat_back (n : nat) (off : Z) (acc : list Z) : list Z :=
  match n with
  | O => acc
  | S n => match acc !! Z.to_nat (zlen acc - off - 1) with Some b => repeat_back n off (acc ++ [b]) | None => acc end
  end.

(** A reference to [len + 2] octets. *)
Definition ref_code (off len : Z) : list Z :=
  if len <? 7 then [off / 256 + len * 32; off mod 256] else [off / 256 + 224; len - 7; off mod 256].

(** [decodes acc code r]: the code, after the text [acc], stands for [r]. *)
Inductive decodes : list Z -> list Z -> list Z -> Prop :=
| decodes_end acc : decodes acc [] acc
| decodes_literals acc lits code r :
    1 <= zlen lits <= 32 -> decodes (acc ++ lits) code r -> decodes acc ((zlen lits - 1) :: lits ++ code) r
| decodes_ref acc len off code r :
    1 <= len <= 262 -> 0 <= off < MAX_OFF -> off < zlen acc ->
    decodes (repeat_back (Z.to_nat (len + 2)) off acc) code r -> decodes acc (ref_code off len ++ code) r.

Lemma decodes_app acc code r code' r' : decodes acc code r -> decodes r code' r' -> decodes acc (code ++ code') r'.
Proof.
  induction 1; intros H'; [done|..]; cbn [app]; rewrite <- ?app_assoc; econstructor; eauto.
Qed.

Lemma decodes_nil acc r : decodes acc [] r -> acc = r.
Proof. inversion 1 as [| |? len off]; [done|]. unfold ref_code in *. by destruct (len <? 7). Qed.

Lemma repeat_back_zlen n off acc : 0 <= off < zlen acc -> zlen (repeat_back n off acc) = zlen acc + Z.of_nat n.
Proof.
  revert acc. induction n as [|n IH]; intros acc Ho; cbn [repeat_back]; [lia|].
  destruct (acc !! Z.to_nat (zlen acc - off - 1)) as [b|] eqn:E; [|apply lookup_ge_None in E; unfold zlen in *; lia].
  rewrite IH by zlia. zlia.
Qed.

(** Text that repeats itself. *)
Lemma repeat_back_take (l : list Z) n p off :
  0 <= off < p -> p + Z.of_nat n <= zlen l -> (forall i, p <= i < p + Z.of_nat n -> l !! Z.to_nat i = l !! Z.to_nat (i - off - 1)) ->
  repeat_back n off (take (Z.to_nat p) l) = take (Z.to_nat (p + Z.of_nat n)) l.
Proof.
  revert p. induction n as [|n IH]; intros p Ho Hl Hrep; cbn [repeat_back]; [f_equal; lia|].
  rewrite zlen_take by lia. rewrite lookup_take_lt by lia. rewrite <- Hrep by lia.
  destruct (l !! Z.to_nat p) as [b|] eqn:E; [|apply lookup_ge_None in E; unfold zlen in *; lia].
  rewrite <- take_S_r by done. replace (S (Z.to_nat p)) with (Z.to_nat (p + 1)) by lia. rewrite IH; [f_equal; lia|lia|lia|]. intros i Hi. apply Hrep. lia.
Qed.

(** * Decompression is right *)

Lemma rd1_at buf i : 0 <= i < zlen buf -> exists b, rd1 buf i = Ok b /\ buf !! Z.to_nat i = Some b.
Proof.
  intros Hi. destruct (lookup_lt_is_Some_2 buf (Z.to_nat i)) as [b Hb]; [unfold zlen in *; lia|]. exists b. split; [|done]. apply rd1_lookup. split; [lia|done].
Qed.

Lemma rd1_app2 a x b c i : i = zlen a + zlen x -> rd1 (a ++ x ++ b :: c) i = Ok b.
Proof. intros ->. rewrite app_assoc. apply rd1_app. zlia. Qed.

Section Decompression.
Context (in_data : list Z) (out_len : Z).

Lemma copy_literals_ok bs a c ip op x y z :
  in_data = a ++ bs ++ c -> zlen a = ip -> zlen x = op -> zlen y = zlen bs -> copy_literals in_data (length bs) ip op (x ++ y ++ z) = Ok (x ++ bs ++ z).
Proof.
  revert a ip op x y. induction bs as [|b bs IH]; intros a ip op x y Hin Ha Hx Hy; cbn [length copy_literals].
  - destruct y; [done|]. zlia.
  - destruct y as [|y0 y]; [zlia|]. assert (rd1 in_data ip = Ok b) as -> by (rewrite Hin; by apply rd1_app). rewrite bind_Ok. change ((y0 :: y) ++ z) with ([y0] ++ (y ++ z)).
    rewrite (wr_app x [y0] [b]) by done. rewrite bind_Ok, (app_assoc x), (IH (a ++ [b])); [by rewrite <- app_assoc|..]; rewrite ?zlen_app, <- ?app_assoc; zlia || done.
Qed.

Lemma copy_octets_ok n off acc y z :
  0 <= off < zlen acc -> zlen y = Z.of_nat n -> copy_octets n (zlen acc - off - 1) (zlen acc) (acc ++ y ++ z) = Ok (repeat_back n off acc ++ z).
Proof.
  revert acc y. induction n as [|n IH]; intros acc y Ho Hy; cbn [copy_octets repeat_back].
  - destruct y; [done|]. zlia.
  - destruct y as [|y0 y]; [zlia|]. destruct (rd1_at acc (zlen acc - off - 1)) as (b & _ & Eb); [lia|].
    rewrite (proj2 (rd1_lookup _ _ b)) by (rewrite lookup_app_l by (unfold zlen in *; lia); split; [lia|done]). rewrite bind_Ok, Eb.
    change ((y0 :: y) ++ z) with ([y0] ++ (y ++ z)). rewrite (wr_app acc [y0] [b]) by done. rewrite bind_Ok, (app_assoc acc).
    assert (zlen (acc ++ [b]) = zlen acc + 1) as Hl by zlia. rewrite <- Hl. replace (zlen acc - off - 1 + 1) with (zlen (acc ++ [b]) - off - 1) by lia.
    apply IH; [lia|zlia].
Qed.

Lemma repeat_back_far n off acc : 0 <= off < zlen acc -> Z.of_nat n <= off + 1 ->
  repeat_back n off acc = acc ++ take n (drop (Z.to_nat (zlen acc - off - 1)) acc).
Proof.
  intros Ho Hn. set (l := acc ++ take n (drop (Z.to_nat (zlen acc - off - 1)) acc)). assert (zlen l = zlen acc + Z.of_nat n) as Hl.
  { unfold l, zlen in *. rewrite length_app, length_take, length_drop. lia. }
  assert (acc = take (Z.to_nat (zlen acc)) l) as Hacc by (unfold l; by rewrite take_zlen_app). rewrite Hacc at 1. rewrite repeat_back_take; [|lia|lia|].
  - rewrite <- Hl, zlen_to_nat. apply take_ge. lia.
  - intros i Hi. unfold l. rewrite (lookup_app_r acc), (lookup_app_l acc) by (unfold zlen in *; lia). rewrite lookup_take_lt, lookup_drop by (unfold zlen in *; lia).
    f_equal. unfold zlen in *. lia.
Qed.

Lemma copy_ref_ok len off acc y z :
  0 <= off < zlen acc -> 0 <= len -> zlen y = len + 2 -> copy_ref len (zlen acc - off - 1) (zlen acc) (acc ++ y ++ z) = Ok (repeat_back (Z.to_nat (len + 2)) off acc ++ z).
Proof.
  intros Ho Hlen Hy. unfold copy_ref. destruct (len <=? 9); [apply copy_octets_ok; lia|]. cbv zeta. destruct (Z.geb_spec (zlen acc) (zlen acc - off - 1 + (len + 2))).
  - rewrite repeat_back_far by lia. unfold memmove. destruct (cut_at acc (zlen acc - off - 1)) as (a & b & Eb & Ha & Hb); [lia|].
    destruct (cut_at b (len + 2)) as (c & d & -> & Hc & Hd); [lia|]. assert (rd (acc ++ y ++ z) (zlen acc - off - 1) (len + 2) = Ok c) as ->.
    { rewrite <- Ha, <- Hc, Eb, <- !app_assoc. by apply rd_app. }
    rewrite bind_Ok, (wr_app acc y c) by lia. assert (take (Z.to_nat (len + 2)) (drop (Z.to_nat (zlen acc - off - 1)) acc) = c) as ->.
    { rewrite <- Ha, <- Hc. rewrite Eb at 1. by rewrite drop_zlen_app, take_zlen_app. }
    by rewrite <- app_assoc.
  - apply copy_octets_ok; lia.
Qed.

Lemma repeat_back_bytes n off acc : Forall is_byte acc -> Forall is_byte (repeat_back n off acc).
Proof.
  revert acc. induction n as [|n IH]; intros acc Hb; cbn [repeat_back]; [done|]. destruct (acc !! _) as [b|] eqn:E; [|done]. apply IH, Forall_app. split; [done|].
  apply Forall_singleton. exact (Forall_lookup_1 _ _ _ _ Hb E).
Qed.

Lemma repeat_back_prefix n off acc : exists k, repeat_back n off acc = acc ++ k.
Proof.
  revert acc. induction n as [|n IH]; intros a; cbn [repeat_back]; [exists []; by rewrite app_nil_r|].
  destruct (a !! _) as [b|]; [|exists []; by rewrite app_nil_r]. destruct (IH (a ++ [b])) as [k ->]. rewrite <- app_assoc. by eexists.
Qed.

Lemma decodes_prefix acc code r : decodes acc code r -> exists k, r = acc ++ k.
Proof.
  induction 1 as [acc|acc lits code r _ _ [k ->]|acc len off code r _ _ _ _ [k ->]].
  - exists []. by rewrite app_nil_r.
  - rewrite <- app_assoc. by eexists.
  - destruct (repeat_back_prefix (Z.to_nat (len + 2)) off acc) as [k' ->]. rewrite <- app_assoc. by eexists.
Qed.

(** The code of bytes is made of bytes. *)
Lemma decodes_bytes acc code r : decodes acc code r -> Forall is_byte r -> Forall is_byte code.
Proof.
  induction 1 as [acc|acc lits code r Hl Hd IH|acc len off code r Hlen Ho Hacc Hd IH]; intros Hr; [constructor|..].
  - destruct (decodes_prefix _ _ _ Hd) as [k ->]. pose proof Hr as [[_ Hb]%Forall_app _]%Forall_app. constructor; [unfold is_byte; lia|]. apply Forall_app. auto.
  - apply Forall_app. split; [|by apply IH]. unfold ref_code. change MAX_OFF with 8192 in *. destruct (Z.ltb_spec len 7); forall_list; unfold is_byte; zdiv.
Qed.

Lemma ctrl_fields off c : 0 <= off < MAX_OFF -> Z.shiftr (off / 256 + c * 32) 5 = c /\ Z.shiftl (Z.land (off / 256 + c * 32) 31) 8 + off mod 256 = off.
Proof.
  change MAX_OFF with 8192. intros Ho. assert (0 <= off / 256 < 32) by (split; [apply Z.div_pos|apply Z.div_lt_upper_bound]; lia).
  change 31 with (Z.ones 5). rewrite Z.land_ones, Z.shiftr_div_pow2, Z.shiftl_mul_pow2 by lia. change (2 ^ 5) with 32. change (2 ^ 8) with 256.
  rewrite Z.div_add, Z.mod_add, (Z.div_small (off / 256)), (Z.mod_small (off / 256)) by lia. split; [lia|]. rewrite (Z.div_mod off 256) at 3 by lia. lia.
Qed.

Lemma decompress_ref fuel pre code acc len off y z :
  in_data = pre ++ ref_code off len ++ code -> 1 <= len <= 262 -> 0 <= off < MAX_OFF -> off < zlen acc ->
  zlen y = len + 2 -> zlen acc + (len + 2) <= out_len ->
  decompress_loop in_data out_len (S fuel) (zlen pre) (zlen acc) (acc ++ y ++ z) =
  decompress_loop in_data out_len fuel (zlen (pre ++ ref_code off len)) (zlen acc + (len + 2)) (repeat_back (Z.to_nat (len + 2)) off acc ++ z).
Proof.
  intros Hin Hlen Ho Hacc Hy Hout. pose proof (zlen_nonneg pre). pose proof (zlen_nonneg code). cbn [decompress_loop]. unfold ref_code in *.
  destruct (ctrl_fields off (if len <? 7 then len else 7) Ho) as [Hc Hr]. pose proof (Z.mod_pos_bound off 256). change MAX_OFF with 8192 in Ho.
  assert (0 <= off / 256 < 32) by (split; [apply Z.div_pos|apply Z.div_lt_upper_bound]; lia). change (Z.shiftl 1 5) with 32. destruct (Z.ltb_spec len 7).
  - assert (zlen in_data = zlen pre + 2 + zlen code) as Hl by (rewrite Hin; zlia). rewrite Hl. ztrue (zlen pre <? zlen pre + 2 + zlen code).
    assert (rd1 in_data (zlen pre) = Ok (off / 256 + len * 32)) as -> by (rewrite Hin; by apply rd1_app). rewrite bind_Ok. cbv zeta. zfalse (off / 256 + len * 32 <? 32).
    zfalse (zlen pre + 1 >=? zlen pre + 2 + zlen code). rewrite Hc. zfalse (len =? 7). rewrite bind_Ok.
    assert (rd1 in_data (zlen pre + 1) = Ok (off mod 256)) as -> by (rewrite Hin; by apply (rd1_app2 pre [_])). rewrite bind_Ok.
    zfalse (zlen acc + len + 2 >? out_len). replace (zlen acc - _ - 1 - off mod 256) with (zlen acc - off - 1) by lia. zfalse (zlen acc - off - 1 <? 0).
    rewrite copy_ref_ok, bind_Ok by lia. f_equal. zlia.
  - assert (zlen in_data = zlen pre + 3 + zlen code) as Hl by (rewrite Hin; zlia). rewrite Hl. ztrue (zlen pre <? zlen pre + 3 + zlen code).
    assert (rd1 in_data (zlen pre) = Ok (off / 256 + 7 * 32)) as -> by (rewrite Hin; by apply rd1_app). rewrite bind_Ok. cbv zeta. zfalse (off / 256 + 7 * 32 <? 32).
    zfalse (zlen pre + 1 >=? zlen pre + 3 + zlen code). rewrite Hc. change (7 =? 7) with true.
    assert (rd1 in_data (zlen pre + 1) = Ok (len - 7)) as -> by (rewrite Hin; by apply (rd1_app2 pre [_])). rewrite !bind_Ok. zfalse (zlen pre + 1 + 1 >=? zlen pre + 3 + zlen code).
    assert (rd1 in_data (zlen pre + 1 + 1) = Ok (off mod 256)) as -> by (rewrite Hin; apply (rd1_app2 pre [_; _]); zlia). rewrite !bind_Ok.
    replace (7 + (len - 7)) with len by lia. zfalse (zlen acc + len + 2 >? out_len). replace (zlen acc - _ - 1 - off mod 256) with (zlen acc - off - 1) by lia.
    zfalse (zlen acc - off - 1 <? 0). rewrite copy_ref_ok, bind_Ok by lia. f_equal. zlia.
Qed.

(** The loop reads code as the format says. *)
Lemma decompress_decodes acc code r : decodes acc code r -> forall pre rest fuel,
  in_data = pre ++ code -> zlen r <= out_len <= zlen (acc ++ rest) -> (length code < fuel)%nat ->
  exists rest', decompress_loop in_data out_len fuel (zlen pre) (zlen acc) (acc ++ rest) = Ok (inr (zlen r, r ++ rest')) /\ zlen (r ++ rest') = zlen (acc ++ rest).
Proof.
  induction 1 as [acc|acc lits code r Hlits Hd IH|acc len off code r Hlen Hoff Hacc Hd IH]; intros pre rest [|fuel] Hin Hr Hf; try (cbn in Hf; lia).
  - cbn [decompress_loop]. rewrite Hin, app_nil_r. zfalse (zlen pre <? zlen pre). by exists rest.
  - cbn [decompress_loop]. destruct (decodes_prefix _ _ _ Hd) as [k ->]. rewrite !zlen_app in Hr. pose proof (zlen_nonneg k).
    assert (zlen in_data = zlen pre + 1 + zlen lits + zlen code) as Hl by (rewrite Hin; zlia). pose proof (zlen_nonneg pre). pose proof (zlen_nonneg code). rewrite Hl. ztrue (zlen pre <? zlen pre + 1 + zlen lits + zlen code).
    assert (rd1 in_data (zlen pre) = Ok (zlen lits - 1)) as -> by (rewrite Hin; by apply rd1_app). rewrite bind_Ok. cbv zeta. change (Z.shiftl 1 5) with 32.
    ztrue (zlen lits - 1 <? 32). replace (zlen lits - 1 + 1) with (zlen lits) by lia. zfalse (zlen acc + zlen lits >? out_len).
    zfalse (zlen pre + 1 + zlen lits >? zlen pre + 1 + zlen lits + zlen code).
    destruct (cut_at rest (zlen lits)) as (y & z & -> & Hy & Hz); [lia|]. rewrite zlen_to_nat, (copy_literals_ok lits (pre ++ [zlen lits - 1]) code); [|rewrite Hin, <- app_assoc; done|zlia|done|done].
    rewrite bind_Ok. destruct (IH (pre ++ (zlen lits - 1) :: lits) z fuel) as (rest' & E & Hrest).
    + by rewrite Hin, <- app_assoc.
    + rewrite !zlen_app in *. lia.
    + cbn [length] in Hf. rewrite length_app in Hf. lia.
    + exists rest'. rewrite app_assoc. replace (zlen pre + 1 + zlen lits) with (zlen (pre ++ (zlen lits - 1) :: lits)) by zlia. rewrite <- zlen_app.
      split; [exact E|]. rewrite Hrest, !zlen_app. lia.
  - destruct (decodes_prefix _ _ _ Hd) as [k ->]. pose proof (repeat_back_zlen (Z.to_nat (len + 2)) off acc ltac:(lia)) as Hb. rewrite !zlen_app in Hr. pose proof (zlen_nonneg k).
    destruct (cut_at rest (len + 2)) as (y & z & -> & Hy & Hz); [lia|]. rewrite (decompress_ref _ _ code acc len off) by (done || lia).
    replace (zlen acc + (len + 2)) with (zlen (repeat_back (Z.to_nat (len + 2)) off acc)) by lia. destruct (IH (pre ++ ref_code off len) z fuel) as (rest' & E & Hrest).
    + by rewrite Hin, <- app_assoc.
    + rewrite !zlen_app in *. lia.
    + rewrite length_app in Hf. unfold ref_code in Hf. destruct (len <? 7); cbn in Hf; lia.
    + exists rest'. split; [exact E|]. rewrite Hrest, !zlen_app in *. lia.
Qed.

(** What is read from the input after the text [acc]: an error or the whole text. *)
Definition yields (acc : list Z) (d : lzf_errno + list Z) (fuel : nat) (ip : Z) : Prop :=
  (forall r, d = inr r -> zlen r <= out_len /\ (Forall is_byte acc -> Forall is_byte r) /\ exists k, r = acc ++ k) /\
  forall rest, out_len <= zlen (acc ++ rest) ->
    decompress_loop in_data out_len fuel ip (zlen acc) (acc ++ rest) =
    Ok (match d with inl e => inl e | inr r => inr (zlen r, r ++ drop (length r - length acc) rest) end).

Lemma yields_error acc e fuel ip : (forall rest, decompress_loop in_data out_len fuel ip (zlen acc) (acc ++ rest) = Ok (inl e)) -> exists d, yields acc d fuel ip.
Proof. intros Hl. exists (inl e). by split. Qed.

(** More text, and the rest of the input after it. *)
Lemma yields_step acc k fuel ip ip' :
  (exists d, yields (acc ++ k) d fuel ip') ->
  (forall y z, zlen y = zlen k -> out_len <= zlen (acc ++ y ++ z) ->
    decompress_loop in_data out_len (S fuel) ip (zlen acc) (acc ++ y ++ z) = decompress_loop in_data out_len fuel ip' (zlen (acc ++ k)) ((acc ++ k) ++ z)) ->
  zlen (acc ++ k) <= out_len -> (Forall is_byte acc -> Forall is_byte (acc ++ k)) -> exists d, yields acc d (S fuel) ip.
Proof.
  intros (d & Hd & Hloop) Hstep Hout Hby. exists d. split.
  - intros r ->. destruct (Hd r eq_refl) as (? & ? & k' & ->). split; [done|]. split; [auto|]. rewrite <- app_assoc. by eexists.
  - intros rest Hrest. pose proof (zlen_nonneg k). rewrite zlen_app in Hout, Hrest. destruct (cut_at rest (zlen k)) as (y & z & -> & Hy & Hz); [lia|]. rewrite Hstep, Hloop by (rewrite ?zlen_app; rewrite ?zlen_app in Hrest; lia).
    destruct d as [e|r]; [done|]. destruct (Hd r eq_refl) as (_ & _ & k' & ->). do 3 f_equal. rewrite !length_app.
    replace (length acc + length k + length k' - length acc)%nat with (length y + (length acc + length k + length k' - (length acc + length k)))%nat by (unfold zlen in *; lia).
    by rewrite <- drop_drop, drop_app_length.
Qed.

(** Arbitrary bytes are read within bounds, and the text is determined by them. *)
Lemma decompress_total fuel ip acc :
  Forall is_byte in_data -> 0 <= ip <= zlen in_data -> zlen acc <= out_len -> zlen in_data - ip < Z.of_nat fuel -> exists d, yields acc d fuel ip.
Proof.
  intros Hbytes. assert (forall i b, rd1 in_data i = Ok b -> is_byte b) as Hbyte.
  { intros i b [_ Hi]%rd1_lookup. eapply Forall_lookup_1 in Hbytes; eauto. }
  revert ip acc. induction fuel as [|fuel IH]; intros ip acc Hip Hacc Hf; [lia|]. pose proof (zlen_nonneg acc). destruct (Z.ltb_spec ip (zlen in_data)) as [Hlt|].
  2:{ exists (inr acc). split; [intros r [= <-]; split_and!; [done|done|exists []; by rewrite app_nil_r]|]. intros rest _. cbn [decompress_loop]. zfalse (ip <? zlen in_data).
      by rewrite Nat.sub_diag. }
  destruct (rd1_at in_data ip) as (c & Ec & _); [lia|]. specialize (Hbyte _ _ Ec) as Hc. unfold is_byte in Hc.
  assert (forall rest, decompress_loop in_data out_len (S fuel) ip (zlen acc) (acc ++ rest) = _) as Hunf by (intros rest; cbn [decompress_loop]; ztrue (ip <? zlen in_data); rewrite Ec, bind_Ok; cbv zeta; change (Z.shiftl 1 5) with 32; reflexivity).
  destruct (Z.ltb_spec c 32).
  - destruct (Z.gtb_spec (zlen acc + (c + 1)) out_len); [by eapply (yields_error _ E2BIG)|].
    destruct (Z.gtb_spec (ip + 1 + (c + 1)) (zlen in_data)); [by eapply (yields_error _ EINVAL)|].
    destruct (cut_at in_data (ip + 1)) as (a & b & Hin & Ha & Hb); [lia|]. destruct (cut_at b (c + 1)) as (bs & cs & -> & Hbs & Hcs); [lia|].
    apply (yields_step acc bs fuel ip (ip + 1 + (c + 1))); [|intros y z Hy Hz|rewrite zlen_app; lia|intros Hab; apply Forall_app; split; [done|]; rewrite Hin, !Forall_app in Hbytes; apply Hbytes].
    + apply IH; [lia|rewrite zlen_app; lia|lia].
    + rewrite Hunf. replace (Z.to_nat (c + 1)) with (length bs) by (unfold zlen in *; lia). rewrite (copy_literals_ok bs a cs) by done. rewrite bind_Ok, app_assoc, zlen_app. by rewrite <- Hbs.
  - destruct (Z.geb_spec (ip + 1) (zlen in_data)); [by eapply (yields_error _ EINVAL)|]. rewrite Z.shiftr_div_pow2, Z.shiftl_mul_pow2 in Hunf by lia. change (2 ^ 5) with 32 in Hunf. change (2 ^ 8) with 256 in Hunf.
    assert (0 <= c / 32 < 8) by (split; [apply Z.div_pos|apply Z.div_lt_upper_bound]; lia). assert (0 <= Z.land c 31) by (apply Z.land_nonneg; lia).
    assert (exists r, (if c / 32 =? 7 then x ← rd1 in_data (ip + 1); Ok (if ip + 1 + 1 >=? zlen in_data then None else Some (c / 32 + x, ip + 1 + 1))
      else Ok (Some (c / 32, ip + 1))) = Ok r /\ forall len i, r = Some (len, i) -> 0 <= len /\ ip < i < zlen in_data) as (r & Er & Hr).
    { destruct (c / 32 =? 7); [|eexists; split; [done|]; intros len i [= <- <-]; lia]. destruct (rd1_at in_data (ip + 1)) as (x & Ex & _); [lia|]. rewrite Ex, bind_Ok.
      specialize (Hbyte _ _ Ex) as Hx. unfold is_byte in Hx. eexists; split; [done|]. intros len i. destruct (Z.geb_spec (ip + 1 + 1) (zlen in_data)); [done|]. intros [= <- <-]. lia. }
    setoid_rewrite Er in Hunf. setoid_rewrite bind_Ok in Hunf. destruct r as [[len i]|]; [|by eapply (yields_error _ EINVAL)]. destruct (Hr _ _ eq_refl) as [Hlen Hi].
    destruct (rd1_at in_data i) as (x & Ex & _); [lia|]. setoid_rewrite Ex in Hunf. setoid_rewrite bind_Ok in Hunf. specialize (Hbyte _ _ Ex) as Hx. unfold is_byte in Hx.
    destruct (Z.gtb_spec (zlen acc + len + 2) out_len); [by eapply (yields_error _ E2BIG)|]. set (off := Z.land c 31 * 256 + x) in *.
    replace (zlen acc - Z.land c 31 * 256 - 1 - x) with (zlen acc - off - 1) in Hunf by lia. destruct (Z.ltb_spec (zlen acc - off - 1) 0); [by eapply (yields_error _ EINVAL)|].
    destruct (repeat_back_prefix (Z.to_nat (len + 2)) off acc) as [k Hk]. pose proof (repeat_back_zlen (Z.to_nat (len + 2)) off acc ltac:(lia)) as Hkl. rewrite Hk in Hkl.
    apply (yields_step acc k fuel ip (i + 1)); [|intros y z Hy Hz|lia|intros Hab; rewrite <- Hk; by apply repeat_back_bytes].
    + apply IH; lia.
    + rewrite Hunf. rewrite copy_ref_ok, bind_Ok, Hk by (rewrite ?zlen_app in Hkl; lia). f_equal. lia.
Qed.

End Decompression.

(** * Compression is right *)

Section Compression.
Context (in_data : list Z) (base out_len : Z).
Notation in_len := (zlen in_data).
Context (Hbase : MAX_OFF <= base) (Hend : base + in_len < 2 ^ 64).

(** The input repeats itself: [n] octets at [p] are those at [r]. *)
Definition repeats (r p n : Z) : Prop := forall i, 0 <= i < n -> in_data !! Z.to_nat (r + i) = in_data !! Z.to_nat (p + i).

Lemma same_byte r p a b : rd1 in_data r = Ok a -> rd1 in_data p = Ok b -> a = b -> in_data !! Z.to_nat r = in_data !! Z.to_nat p.
Proof. intros [_ ->]%rd1_lookup [_ ->]%rd1_lookup ->. done. Qed.

Lemma repeats_snoc r p n a b : repeats r p n -> rd1 in_data (r + n) = Ok a -> rd1 in_data (p + n) = Ok b -> a = b -> repeats r p (n + 1).
Proof.
  intros Hr Ea Eb Hab i Hi. destruct (decide (i < n)); [apply Hr; lia|]. replace i with n by lia. by eapply same_byte.
Qed.

Lemma match_unrolled_ok n r p len :
  0 <= r <= p -> 0 <= len -> p + len + Z.of_nat n < in_len -> repeats r p (len + 1) ->
  exists len' broke, match_unrolled in_data n r p len = Ok (len', broke) /\ len <= len' <= len + Z.of_nat n /\
    (if (broke : bool) then len < len' /\ repeats r p len' else len' = len + Z.of_nat n /\ repeats r p (len' + 1)).
Proof.
  revert len. induction n as [|n IH]; intros len Hr Hl Hin Hrep; cbn [match_unrolled].
  - exists len, false. split_and!; [done|lia..|done].
  - destruct (rd1_at in_data (r + (len + 1))) as (a & Ea & _); [lia|]. destruct (rd1_at in_data (p + (len + 1))) as (b & Eb & _); [lia|].
    rewrite Ea, bind_Ok, Eb, bind_Ok. destruct (Z.eqb_spec a b) as [->|]; cbn [negb].
    + destruct (IH (len + 1)) as (len' & broke & -> & Hb & Hrest); [lia..|by eapply repeats_snoc|]. exists len', broke. split_and!; [done|lia..|]. destruct broke; split_and!; try apply Hrest; lia.
    + exists (len + 1), true. split_and!; [done|lia..|done].
Qed.

Lemma match_more_ok fuel r p len maxlen :
  0 <= r <= p -> 0 <= len -> p + maxlen <= in_len -> 0 <= maxlen -> maxlen - len < Z.of_nat fuel -> (0 < fuel)%nat -> repeats r p (len + 1) ->
  exists n, match_more in_data fuel r p len maxlen = Ok n /\ len < n /\ (n = len + 1 \/ n <= maxlen) /\ repeats r p n.
Proof.
  revert len. induction fuel as [|fuel IH]; intros len Hr Hl Hin Hm Hf Hpos Hrep; [lia|]. cbn [match_more]. destruct (Z.ltb_spec (len + 1) maxlen).
  - destruct (rd1_at in_data (r + (len + 1))) as (a & Ea & _); [lia|]. destruct (rd1_at in_data (p + (len + 1))) as (b & Eb & _); [lia|].
    rewrite Ea, bind_Ok, Eb, bind_Ok. destruct (Z.eqb_spec a b) as [->|].
    + destruct (IH (len + 1)) as (n & -> & Hn & Hmax & Hrep'); [lia..|by eapply repeats_snoc|]. exists n. split_and!; [done|lia| |done]. right. lia.
    + exists (len + 1). split_and!; [done|lia|by left|done].
  - exists (len + 1). split_and!; [done|lia|by left|done].
Qed.

Lemma match_len_ok r p : 0 <= r <= p -> p < in_len - 2 -> repeats r p 3 ->
  exists n, match_len in_data r p = Ok n /\ 3 <= n <= 264 /\ n <= in_len - p /\ repeats r p n.
Proof.
  intros Hr Hp Hrep. unfold match_len. cbv zeta. change MAX_REF with 264. set (m := if _ >? 264 then 264 else _).
  assert (1 <= m <= 264 /\ m <= in_len - p - 2) as [Hm Hm'] by (unfold m; destruct (Z.gtb_spec (in_len - p - 2) 264); lia). clearbody m. destruct (Z.gtb_spec m 16).
  - destruct (match_unrolled_ok 16 r p 2) as (len & broke & -> & Hl & Hb); [lia..|done|]. rewrite bind_Ok. destruct broke.
    + exists len. split_and!; [done|lia..|apply Hb].
    + destruct Hb as [-> Hb]. change (2 + Z.of_nat 16) with 18 in *. destruct (match_more_ok (Z.to_nat 264) r p 18 m) as (n & -> & Hn & Hmax & Hn'); [lia..|done|]. exists n. split_and!; [done|lia..|done].
  - rewrite bind_Ok. destruct (match_more_ok (Z.to_nat 264) r p 2 m) as (n & -> & Hn & Hmax & Hn'); [lia..|done|]. exists n. split_and!; [done|lia..|done].
Qed.

(** An address from the table that passes the tests lies in the input before [p]. *)
Lemma is_match_ok ref p : 0 <= p < in_len - 2 -> 0 <= ref < 2 ^ 64 -> let off := wrapU 64 (base + p - ref - 1) in
  exists b, is_match in_data base ref p off = Ok b /\ (b = true -> off = p - (ref - base) - 1 /\ 0 <= off < MAX_OFF /\ 0 < ref - base /\ repeats (ref - base) p 3).
Proof.
  intros Hp Href off. unfold is_match. change MAX_OFF with 8192 in *. destruct (Z.ltb_spec off 8192) as [Ho|]; cbn [negb]; [|by eexists].
  destruct (Z.ltb_spec base ref) as [Hb|]; cbn [negb]; [|by eexists]. cbv zeta.
  assert (off = p - (ref - base) - 1 /\ 0 <= off) as [Eo Hpos].
  { unfold off, wrapU in *. assert (0 <= base + p - ref - 1 < 2 ^ 64 \/ - 2 ^ 64 <= base + p - ref - 1 < 0) as [Hr|Hr] by lia.
    - rewrite Z.mod_small by lia. lia.
    - rewrite <- (Z.mod_add _ 1), Z.mod_small in Ho by lia. lia. }
  destruct (rd1_at in_data (ref - base + 2)) as (a & Ea & _); [lia|]. destruct (rd1_at in_data (p + 2)) as (b & Eb & _); [lia|]. rewrite Ea, bind_Ok, Eb, bind_Ok.
  destruct (Z.eqb_spec a b) as [->|]; cbn [negb]; [|by eexists]. destruct (rd_ok in_data (ref - base) 2) as (x & Ex & Hx); [lia..|].
  destruct (rd_ok in_data p 2) as (y & Ey & Hy); [lia..|]. rewrite Ex, bind_Ok, Ey, bind_Ok. eexists. split; [done|]. intros ->%bool_decide_eq_true. split_and!; [done..|lia|].
  intros i Hi. destruct (decide (i = 2)) as [->|]; [by eapply same_byte|]. unfold rd in Ex, Ey. destruct (_ && _ && _); [|done]. destruct (_ && _ && _); [|done].
  simplify_eq. apply (f_equal (lookup (Z.to_nat i))) in Ex. rewrite !lookup_take_lt, !lookup_drop in Ex by lia.
  replace (Z.to_nat (ref - base + i)) with (Z.to_nat (ref - base) + Z.to_nat i)%nat by lia. by replace (Z.to_nat (p + i)) with (Z.to_nat p + Z.to_nat i)%nat by lia.
Qed.

Notation text n := (take (Z.to_nat n) in_data).

(** The output holds code for the text before a run of [lit] literals, room for the
    length of the run, and the run, which ends at [op]. *)
Definition running (ip op lit : Z) (o : list Z) : Prop := exists code tail,
  o = code ++ tail /\ zlen code = op - lit - 1 /\ decodes [] code (text (ip - lit)) /\
  (0 < lit -> exists h lits rest, tail = h :: lits ++ rest /\ zlen lits = lit /\ text ip = text (ip - lit) ++ lits).

(** Ending the run gives code for the whole text. *)
Lemma stop_run_ok ip op lit o : running ip op lit o -> 0 <= lit <= 32 -> op - lit <= zlen o ->
  let n := op - (if lit =? 0 then 1 else 0) in
  exists code rest, stop_run o op lit = Ok (code ++ rest) /\ zlen (code ++ rest) = zlen o /\ zlen code = n /\ decodes [] code (text ip).
Proof.
  intros (code & tail & -> & Hc & Hd & Hrun) Hlit Ho n. unfold stop_run, n. rewrite zlen_app in Ho. pose proof (zlen_nonneg code). destruct (Z.eqb_spec lit 0) as [->|].
  - destruct tail as [|h tail]; [zlia|]. exists code, (255 :: tail). change (wrapU 8 (0 - 1)) with 255. change (h :: tail) with ([h] ++ tail).
    rewrite (wr_app code [h] [255]) by (done || lia). split_and!; [done|zlia|lia|]. by rewrite Z.sub_0_r in Hd.
  - destruct Hrun as (h & lits & rest & -> & Hl & ->); [lia|]. exists (code ++ (lit - 1) :: lits), rest. change (h :: lits ++ rest) with ([h] ++ lits ++ rest).
    rewrite (wr_app code [h] [wrapU 8 (lit - 1)]) by (done || lia). rewrite wrapU_small by lia. split_and!; [by rewrite <- app_assoc|zlia..|].
    eapply decodes_app; [done|]. pose proof (decodes_literals (text (ip - lit)) lits [] _ ltac:(lia) (decodes_end _)) as Hlits. by rewrite app_nil_r, Hl in Hlits.
Qed.

(** A fresh run after code for the text. *)
Lemma running_start ip op code rest : zlen code = op - 1 -> decodes [] code (text ip) -> running ip op 0 (code ++ rest).
Proof. intros Hc Hd. exists code, rest. rewrite !Z.sub_0_r. split_and!; [done|lia|done|lia]. Qed.

(** The variables at the head of the loops; [len] is the size of the output buffer. *)
Record vars_ok (len : Z) (v : lzf_vars) : Prop := {
  ok_ip : 0 <= ip v <= in_len;
  ok_lit : 0 <= lit v < 32;
  ok_lit_ip : lit v <= ip v;
  ok_op : if lit v =? 0 then op v <= out_len + 1 else op v <= out_len;
  ok_htab i : 0 <= htab v i < 2 ^ 64;
  ok_len : zlen (out v) = len;
  ok_run : running (ip v) (op v) (lit v) (out v);
}.

Lemma text_snoc p b : 0 <= p -> rd1 in_data p = Ok b -> text (p + 1) = text p ++ [b].
Proof. intros Hp [_ Hb]%rd1_lookup. replace (Z.to_nat (p + 1)) with (S (Z.to_nat p)) by lia. by apply take_S_r. Qed.

Lemma running_op ip op lit o : running ip op lit o -> 0 <= op - lit - 1.
Proof. intros (code & _ & _ & Hc & _). pose proof (zlen_nonneg code). lia. Qed.

(** The run takes one more byte. *)
Lemma running_snoc ip op lit o b o' :
  running ip op lit o -> 0 <= lit <= ip -> rd1 in_data ip = Ok b -> wr o op [b] = Ok o' -> running (ip + 1) (op + 1) (lit + 1) o'.
Proof.
  intros Hrun Hlit Eb Ew. pose proof (running_op _ _ _ _ Hrun). destruct Hrun as (code & tail & -> & Hc & Hd & Hrun).
  exists code. apply wr_inv in Ew as (a & x & c & Eo & -> & Ha & Hx). destruct x as [|x0 [|]]; [zlia| |zlia].
  assert (exists h lits, a = code ++ h :: lits /\ zlen lits = lit /\ text ip = text (ip - lit) ++ lits) as (h & lits & -> & Hl & Ht).
  { destruct (decide (lit = 0)) as [->|].
    - destruct (cut_at a (zlen code)) as (a1 & a2 & -> & H1 & H2); [lia|]. rewrite <- !app_assoc in Eo. apply app_inj_1 in Eo as [<- _]; [|unfold zlen in *; lia].
      destruct a2 as [|h [|]]; [zlia| |zlia]. exists h, []. rewrite Z.sub_0_r, app_nil_r. by split_and!.
    - destruct Hrun as (h & lits & rest & -> & Hl & Ht); [lia|]. exists h, lits. split_and!; [|done..].
      rewrite app_comm_cons, app_assoc in Eo. apply app_inj_1 in Eo as [<- _]; [done|]. rewrite length_app. cbn [length]. unfold zlen in *. lia. }
  exists (h :: lits ++ b :: c). replace (ip + 1 - (lit + 1)) with (ip - lit) by lia. split_and!; [by rewrite <- app_assoc|lia|done|]. intros _. exists h, (lits ++ [b]), c. split_and!; [by rewrite <- app_assoc|zlia|].
  rewrite (text_snoc ip b), Ht by (done || lia). by rewrite <- app_assoc.
Qed.

Lemma put_literal_ok len v : out_len <= len -> vars_ok len v -> ip v < in_len -> op v < out_len ->
  exists v', put_literal in_data v = Ok v' /\ vars_ok len v' /\ ip v' = ip v + 1 /\
    (if lit v =? 31 then op v' = op v + 2 /\ lit v' = 0 else op v' = op v + 1 /\ lit v' = lit v + 1).
Proof.
  intros Hlen [Hip Hlit Hli Hop Hh Hl Hrun] Hi Ho. unfold put_literal. destruct (rd1_at in_data (ip v)) as (b & Eb & _); [lia|]. rewrite Eb, bind_Ok.
  pose proof (running_op _ _ _ _ Hrun). destruct (wr_ok (out v) (op v) [b]) as [o E]; [lia|zlia|]. rewrite E, bind_Ok. pose proof (wr_zlen _ _ _ _ E) as Hlo.
  pose proof (running_snoc _ _ _ _ _ _ Hrun ltac:(lia) Eb E) as Hrun'. cbv zeta. change MAX_LIT with 32. destruct (Z.eqb_spec (lit v + 1) 32) as [E32|].
  - ztrue (lit v =? 31). destruct (stop_run_ok _ _ _ _ Hrun') as (code & rest & -> & Hlc & Hc & Hd); [lia..|]. rewrite bind_Ok. eexists. split; [done|]. assert (zlen code = op v + 1) as Hc' by (destruct (Z.eqb_spec (lit v + 1) 0); lia).
    split; [|cbn; lia]. split; cbn [Lzf.ip Lzf.op Lzf.lit Lzf.htab Lzf.out]; try done; try lia; [cbn; lia|]. apply running_start; [lia|done].
  - zfalse (lit v =? 31). eexists. split; [done|]. split; [|cbn; lia]. split; cbn [Lzf.ip Lzf.op Lzf.lit Lzf.htab Lzf.out]; try done; try lia. zfalse (lit v + 1 =? 0). lia.
Qed.

Lemma put_ref_ok code rest off len : 0 <= off < MAX_OFF -> 1 <= len <= 262 -> 3 <= zlen rest ->
  exists rest', put_ref (code ++ rest) (zlen code) off len = Ok ((code ++ ref_code off len) ++ rest', zlen (code ++ ref_code off len)) /\
    zlen (ref_code off len) + zlen rest' = zlen rest.
Proof.
  change MAX_OFF with 8192. intros Ho Hl Hr. unfold put_ref, ref_code. assert (0 <= off / 256 < 32) by (split; [apply Z.div_pos|apply Z.div_lt_upper_bound]; lia).
  rewrite Z.shiftr_div_pow2, !Z.shiftl_mul_pow2 by lia. change (2 ^ 8) with 256. change (2 ^ 5) with 32. change (wrapU 8 off) with (off mod 256).
  destruct rest as [|x [|y [|z rest]]]; [zlia..|]. destruct (Z.ltb_spec len 7).
  - rewrite (wrapU_small 8) by lia. exists (z :: rest). change (x :: y :: z :: rest) with ([x] ++ [y] ++ z :: rest). rewrite (wr_app code [x] [_]) by done. rewrite !bind_Ok, (app_assoc code).
    rewrite (wr_app (code ++ _) [y] [_]) by (done || zlia). rewrite bind_Ok. split; [|zlia]. do 2 f_equal; [by rewrite <- !app_assoc|zlia].
  - rewrite !(wrapU_small 8) by lia. exists rest. change (x :: y :: z :: rest) with ([x] ++ [y] ++ [z] ++ rest). rewrite (wr_app code [x] [_]) by done. rewrite !bind_Ok, (app_assoc code).
    rewrite (wr_app (code ++ _) [y] [_]) by (done || zlia). rewrite !bind_Ok, (app_assoc (code ++ _)). rewrite (wr_app ((code ++ _) ++ _) [z] [_]) by (done || zlia).
    rewrite bind_Ok. split; [|zlia]. do 2 f_equal; [by rewrite <- !app_assoc|zlia].
Qed.

(** A reference replaces the text it repeats. *)
Lemma match_step len v r :
  out_len <= len -> vars_ok len v -> ip v < in_len - 2 -> let off := ip v - r - 1 in 0 <= off < MAX_OFF -> 0 < r -> repeats r (ip v) 3 ->
  let p := op v - (if lit v =? 0 then 1 else 0) in p + 3 + 1 < out_len ->
  exists o1 n o2 op2, stop_run (out v) (op v) (lit v) = Ok o1 /\ match_len in_data r (ip v) = Ok n /\ put_ref o1 p off (n - 2) = Ok (o2, op2) /\
    3 <= n <= in_len - ip v /\ zlen o2 = len /\ op2 + 1 <= out_len /\ running (ip v + n) (op2 + 1) 0 o2.
Proof.
  intros Hlen [Hip Hlit Hli Hop Hh Hl Hrun] Hi off Ho Hr Hrep p Hp.
  destruct (stop_run_ok _ _ _ _ Hrun) as (code & rest & E1 & Hlc & Hc & Hd); [lia|destruct (lit v =? 0); unfold p in *; lia|]. fold p in Hc.
  destruct (match_len_ok r (ip v)) as (n & En & Hn & Hn' & Hrep'); [unfold off in *; lia|done..|]. rewrite zlen_app in Hlc.
  destruct (put_ref_ok code rest off (n - 2)) as (rest' & E2 & Hrest); [done|lia..|]. rewrite Hc in E2.
  exists (code ++ rest), n, ((code ++ ref_code off (n - 2)) ++ rest'), (zlen (code ++ ref_code off (n - 2))). split_and!; [done..|lia|done|rewrite !zlen_app; lia| |].
  - rewrite zlen_app. unfold ref_code. destruct (n - 2 <? 7); zlia.
  - apply running_start; [lia|]. eapply decodes_app; [done|]. rewrite <- (app_nil_r (ref_code _ _)). unfold off in *. apply decodes_ref; [lia|lia|rewrite zlen_take; lia|].
    replace (n - 2 + 2) with n by lia. rewrite repeat_back_take; [|lia|lia|].
    + replace (ip v + Z.of_nat (Z.to_nat n)) with (ip v + n) by lia. apply decodes_end.
    + intros i Hi'. specialize (Hrep' (i - ip v) ltac:(lia)). replace (ip v + (i - ip v)) with i in Hrep' by lia. rewrite <- Hrep'. f_equal. lia.
Qed.

Lemma set_slot_ok h i a : (forall j, 0 <= h j < 2 ^ 64) -> 0 <= a < 2 ^ 64 -> forall j, 0 <= set_slot h i a j < 2 ^ 64.
Proof. intros Hh Ha j. unfold set_slot. destruct (j =? i); auto. Qed.

Lemma hash_next_ok hv p h : (forall j, 0 <= h j < 2 ^ 64) -> 0 <= p < in_len - 2 -> exists r, hash_next in_data base hv p h = Ok r /\ forall j, 0 <= r.2 j < 2 ^ 64.
Proof.
  intros Hh Hp. unfold hash_next. destruct (rd1_at in_data (p + 2)) as (b & -> & _); [lia|]. rewrite bind_Ok. eexists. split; [done|]. cbn [snd]. change MAX_OFF with 8192 in *.
  apply set_slot_ok; [done|lia].
Qed.

Lemma compress_loop_ok fuel len v : out_len <= len -> vars_ok len v -> in_len - ip v < Z.of_nat fuel ->
  exists r, compress_loop in_data base out_len fuel v = Ok r /\ forall v', r = Some v' -> vars_ok len v' /\ in_len - 2 <= ip v'.
Proof.
  intros Hlen. revert v. induction fuel as [|fuel IH]; intros v Hv Hf; [destruct Hv; lia|]. cbn [compress_loop].
  destruct (Z.ltb_spec (ip v) (in_len - 2)) as [Hi|]; [|eexists; split; [done|]; intros v' [= <-]; by split].
  pose proof Hv as [Hip Hlit Hli Hop Hh Hl Hrun]. destruct (rd1_at in_data (ip v + 2)) as (b & -> & _); [lia|]. rewrite bind_Ok. cbv zeta. set (hv := NEXT _ _).
  assert (forall j, 0 <= set_slot (htab v) (IDX hv) (base + ip v) j < 2 ^ 64) as Hh' by (apply set_slot_ok; [done|]; change MAX_OFF with 8192 in *; lia).
  destruct (is_match_ok (htab v (IDX hv)) (ip v)) as (found & -> & Hfound); [lia|done|]. rewrite bind_Ok. destruct found.
  - destruct (Hfound eq_refl) as (Eo & Ho & Hr & Hrep). rewrite Eo in *. destruct (_ && _) eqn:Eroom; [by eexists|].
    destruct (match_step len v (htab v (IDX hv) - base)) as (o1 & n & o2 & op2 & -> & -> & E & Hn & Hl2 & Hop2 & Hrun2); [done..|destruct (lit v =? 0); lia|].
    rewrite !bind_Ok, E, bind_Ok. replace (ip v + 1 + (n - 2 + 1)) with (ip v + n) by lia. destruct (Z.geb_spec (ip v + n) (in_len - 2)).
    + eexists. split; [done|]. intros v' [= <-]. split; [|cbn; lia]. split; cbn [Lzf.ip Lzf.op Lzf.lit Lzf.htab Lzf.out]; try done; cbn; lia.
    + destruct (rd1_at in_data (ip v + n - 2)) as (p0 & -> & _); [lia|]. rewrite bind_Ok. destruct (rd1_at in_data (ip v + n - 2 + 1)) as (p1 & -> & _); [lia|]. rewrite bind_Ok.
      edestruct hash_next_ok as (h1 & -> & Hh1); [exact Hh'| |]; [lia|]. rewrite bind_Ok. edestruct hash_next_ok as (h2 & -> & Hh2); [exact Hh1| |]; [lia|]. rewrite bind_Ok.
      apply IH; [|cbn; lia]. split; cbn [Lzf.ip Lzf.op Lzf.lit Lzf.htab Lzf.out]; try done; try (cbn; lia). by replace (ip v + n - 2 + 2) with (ip v + n) by lia.
  - cbn [Lzf.op]. destruct (Z.geb_spec (op v) out_len); [by eexists|].
    destruct (put_literal_ok len (LzfVars (ip v) (op v) (lit v) hv (set_slot (htab v) (IDX hv) (base + ip v)) (out v))) as (v' & -> & Hv' & Eip & _);
      [done|by split|cbn; lia|done|]. rewrite bind_Ok. cbn in Eip. apply IH; [done|lia].
Qed.

(** At most two bytes are left after the loop. *)
Lemma compress_tail_ok fuel len v : out_len <= len -> vars_ok len v -> in_len - 2 <= ip v -> (3 <= fuel)%nat -> op v + 3 <= out_len ->
  exists v', compress_tail in_data fuel v = Ok v' /\ vars_ok len v' /\ ip v' = in_len /\ op v' <= out_len.
Proof.
  intros Hlen Hv Hi Hf Ho. destruct fuel as [|[|[|fuel]]]; [lia..|]. cbn [compress_tail]. pose proof (ok_ip _ _ Hv).
  destruct (Z.ltb_spec (ip v) in_len); [|exists v; split_and!; [done..|lia|lia]].
  destruct (put_literal_ok len v) as (v1 & -> & Hv1 & E1 & C1); [done..|lia|]. rewrite bind_Ok. destruct (Z.ltb_spec (ip v1) in_len);
    [|exists v1; split_and!; [done..|pose proof (ok_ip _ _ Hv1); lia|destruct (lit v =? 31); lia]].
  destruct (put_literal_ok len v1) as (v2 & -> & Hv2 & E2 & C2); [done..|destruct (lit v =? 31); lia|]. rewrite bind_Ok. zfalse (ip v2 <? in_len).
  exists v2. split_and!; [done..|lia|]. destruct (Z.eqb_spec (lit v) 31), (Z.eqb_spec (lit v1) 31); lia.
Qed.

Lemma compress_correct htab0 o : (forall i, 0 <= htab0 i < 2 ^ 64) -> 2 <= in_len -> 0 <= out_len <= zlen o ->
  exists n r, lzf_compress in_data base out_len htab0 o = Ok (n, r) /\
    match r with
    | None => n = 0
    | Some o' => 0 < n <= out_len /\ exists code rest, o' = code ++ rest /\ zlen code = n /\ zlen o' = zlen o /\ decodes [] code in_data
    end.
Proof.
  intros Hh Hi Ho. unfold lzf_compress. zfalse (in_len =? 0). cbn [orb]. destruct (Z.eqb_spec out_len 0); [by exists 0, None|].
  destruct (rd1_at in_data 0) as (p0 & -> & _); [lia|]. rewrite bind_Ok. destruct (rd1_at in_data 1) as (p1 & -> & _); [lia|]. rewrite bind_Ok.
  destruct (compress_loop_ok (S (length in_data)) (zlen o) (LzfVars 0 1 0 (FRST p0 p1) htab0 o)) as (r & -> & Hr).
  - lia.
  - split; cbn [Lzf.ip Lzf.op Lzf.lit Lzf.htab Lzf.out]; try done; try (cbn; lia). apply (running_start 0 1 []); [done|apply decodes_end].
  - cbn [Lzf.ip]. unfold zlen. lia.
  - rewrite bind_Ok. destruct r as [v|]; [|by exists 0, None]. destruct (Hr v eq_refl) as [Hv Hiv]. destruct (Z.gtb_spec (op v + 3) out_len); [by exists 0, None|].
    destruct (compress_tail_ok (S (length in_data)) (zlen o) v) as (v' & -> & Hv' & Eip & Eop); [lia|done|done|unfold zlen in *; lia|lia|]. rewrite bind_Ok.
    pose proof Hv' as [_ Hlit _ _ _ Hl Hrun]. destruct (stop_run_ok _ _ _ _ Hrun) as (code & rest & -> & Hlc & Hc & Hd); [lia..|]. rewrite bind_Ok, <- Hc.
    rewrite Eip, zlen_to_nat, firstn_all in Hd. exists (zlen code), (Some (code ++ rest)). split; [done|]. split.
    + split; [|destruct (lit v' =? 0); lia]. destruct code; [|zlia]. apply decodes_nil in Hd. rewrite <- Hd in Hi. cbn in Hi. lia.
    + exists code, rest. split_and!; [done..|lia|done].
Qed.

End Compression.

(** C7: What LZF compresses is decompressed to the same bytes.  Whatever addresses the
    hash table, which is not initialised, holds at first and whatever the buffers
    hold, compression returns within its bounds; when it does not give up for lack of
    room, decompressing its output gives back the input. *)
Theorem lzf_roundtrip in_data base out_len htab0 o obuf :
  MAX_OFF <= base -> base + zlen in_data < 2 ^ 64 -> (forall i, 0 <= htab0 i < 2 ^ 64) -> 2 <= zlen in_data -> 0 <= out_len <= zlen o -> zlen in_data <= zlen obuf ->
  exists n r, lzf_compress in_data base out_len htab0 o = Ok (n, r) /\
    match r with
    | None => n = 0
    | Some o' => 0 < n <= out_len /\ zlen o' = zlen o /\ exists rest,
        lzf_decompress (take (Z.to_nat n) o') (zlen in_data) obuf = Ok (inr (zlen in_data, in_data ++ rest)) /\ zlen (in_data ++ rest) = zlen obuf
    end.
Proof.
  intros Hb He Hh Hi Ho Hobuf. destruct (compress_correct in_data base out_len Hb He htab0 o Hh Hi Ho) as (n & r & E & Hr). exists n, r. split; [done|].
  destruct r as [o'|]; [|done]. destruct Hr as (Hn & code & rest & -> & <- & Hl & Hd). split_and!; [lia..|done|]. rewrite take_zlen_app.
  destruct (decompress_decodes code (zlen in_data) [] code in_data Hd [] obuf (S (length code))) as (rest' & E' & Hl'); [done|cbn; lia|lia|]. exists rest'. by split.
Qed.

(** Arbitrary bytes are decompressed within bounds to bytes. *)
Lemma decompress_any code out_len :
  Forall is_byte code -> 0 <= out_len -> exists d, (forall r, d = inr r -> zlen r <= out_len /\ Forall is_byte r) /\
    forall obuf, out_len <= zlen obuf ->
      lzf_decompress code out_len obuf = Ok (match d with inl e => inl e | inr r => inr (zlen r, r ++ drop (length r) obuf) end).
Proof.
  intros Hb Ho. destruct (decompress_total code out_len (S (length code)) 0 []) as (d & Hd & Hloop); [done|pose proof (zlen_nonneg code); lia|done|unfold zlen; lia|].
  exists d. split; [intros r ->; destruct (Hd r eq_refl) as (? & Hr & _); auto|]. intros obuf Hobuf. unfold lzf_decompress. pose proof (Hloop obuf Hobuf) as E. change (zlen []) with 0 in E. cbn [app] in E. rewrite E.
  destruct d; [done|]. cbn [length]. by rewrite Nat.sub_0_r.
Qed.

(** C34: Decompression of arbitrary bytes, such as those of a damaged file, stays inside
    its buffers and ends; what it writes is bytes determined by the input, so that
    nothing of the old contents of the output buffer shows through. *)
Theorem lzf_decompress_safe code out_len :
  Forall is_byte code -> 0 <= out_len -> exists d, (forall r, d = inr r -> zlen r <= out_len /\ Forall is_byte r) /\
    forall obuf, out_len <= zlen obuf ->
      lzf_decompress code out_len obuf = Ok (match d with inl e => inl e | inr r => inr (zlen r, r ++ drop (length r) obuf) end).
Proof. apply decompress_any. Qed.

(** * Examples *)

(** Forty times the same byte; the table holds addresses of the input already. *)
Definition sample_text : list Z := replicate 40 97.
Definition sample_table : LZF_STATE := fun _ => 65536 + 7.

Definition sample_code : list Z := [1; 97; 97; 224; 27; 0; 1; 97; 97].

Lemma lzf_roundtrip_witness :
  exists rest, lzf_compress sample_text 65536 36 sample_table (replicate 37 0) = Ok (9, Some (sample_code ++ replicate 28 0)) /\
    lzf_decompress sample_code 40 (replicate 40 0) = Ok (inr (40, sample_text ++ rest)).
Proof.
  destruct (lzf_roundtrip sample_text 65536 36 sample_table (replicate 37 0) (replicate 40 0)) as (n & r & E & Hr);
    [by vm_compute|done|intros i; unfold sample_table; lia|by vm_compute|by vm_compute|by vm_compute|].
  assert (lzf_compress sample_text 65536 36 sample_table (replicate 37 0) = Ok (9, Some (sample_code ++ replicate 28 0))) as E' by (by vm_compute).
  rewrite E' in E. injection E as <- <-. destruct Hr as (_ & _ & rest & Hr & _). exists rest. split; [exact E'|exact Hr].
Defined.

Lemma lzf_decompress_safe_witness :
  exists d, forall obuf, 100 <= zlen obuf ->
    lzf_decompress [224; 255; 9; 3] 100 obuf = Ok (match d with inl e => inl e | inr r => inr (zlen r, r ++ drop (length r) obuf) end).
Proof.
  destruct (lzf_decompress_safe [224; 255; 9; 3] 100) as (d & _ & Hd); [by repeat constructor|done|]. by exists d.
Defined.
