(* ===== verification/Crc.v ===== *)
(** Checksums: CRC-64 one bit at a time and eight bytes at a time ([crc64.c],
    [crcspeed.c]), CRC-16 and the hash slot of a key ([crc16.c], [cluster.c]).

    The table-driven CRC-64 is shown to be the bit-by-bit one for every alignment of
    the data and both byte orders; a changed byte always changes it. *)
From S2P Require Import Prelude Endian.

(** * Definitions *)

Definition POLY : Z := 0xad93d23594c935a9.

Fixpoint reflect_loop (n : nat) (data ret : Z) : Z :=
  match n with
  | O => ret
  | S n =>
      let data := Z.shiftr data 1 in
      reflect_loop n data (Z.lor (wrapU 64 (Z.shiftl ret 1)) (Z.land data 1))
  end.

Definition crc_reflect (data : Z) (data_len : nat) : Z := reflect_loop (data_len - 1) data (Z.land data 1).

(** One turn of the inner loop, for the bit [i] of [c]. *)
Definition crc_bit (c crc i : Z) : Z :=
  let bit := negb (Z.land crc 0x8000000000000000 =? 0) in
  let bit := if negb (Z.land c i =? 0) then negb bit else bit in
  let crc := wrapU 64 (Z.shiftl crc 1) in
  if (bit : bool) then Z.lxor crc POLY else crc.

Definition crc_byte (crc c : Z) : Z := foldl (crc_bit c) crc [1; 2; 4; 8; 16; 32; 64; 128].

Definition _crc64 (crc : Z) (data : list Z) : Z := crc_reflect (foldl crc_byte crc data) 64.

(** ** Tables *)

(** [table[k][i]]; eight rows of 256 entries. *)
Definition entry (t : list (list Z)) (k i : Z) : res Z :=
  match t !! Z.to_nat k with
  | Some row => if 0 <=? i then match row !! Z.to_nat i with Some v => Ok v | None => Fault end else Fault
  | None => Fault
  end.

(** [crc = table[0][crc & 0xff] ^ (crc >> 8)], [k] times. *)
Fixpoint nest (row0 : Z -> Z) (k : nat) (crc : Z) : Z :=
  match k with
  | O => crc
  | S k => let crc := nest row0 k crc in Z.lxor (row0 (Z.land crc 0xff)) (Z.shiftr crc 8)
  end.

Definition crcspeed64little_init (crcfn : Z -> list Z -> Z) : list (list Z) :=
  let row0 := fun n => crcfn 0 [n] in
  (fun k => (fun n => nest row0 k (row0 n)) <$> seqZ 0 256) <$> seq 0 8.

(** [__builtin_bswap64]. *)
Definition rev8 (a : Z) : Z := le_val (rev (le_bytes 8 a)).

Definition crcspeed64big_init (fn : Z -> list Z -> Z) : list (list Z) := (fun row : list Z => rev8 <$> row) <$> crcspeed64little_init fn.

(** ** Eight bytes at a time *)

Section Speed.
Context `{Host} (t : list (list Z)).

Definition little_byte (crc b : Z) : res Z :=
  v ← entry t 0 (Z.land (Z.lxor crc b) 0xff);
  Ok (Z.lxor v (Z.shiftr crc 8)).

Definition big_byte (crc b : Z) : res Z :=
  v ← entry t 0 (Z.lxor (Z.shiftr crc 56) b);
  Ok (Z.lxor v (wrapU 64 (Z.shiftl crc 8))).

Definition little_word (crc w : Z) : res Z :=
  let crc := Z.lxor crc w in
  v7 ← entry t 7 (Z.land crc 0xff);
  v6 ← entry t 6 (Z.land (Z.shiftr crc 8) 0xff);
  v5 ← entry t 5 (Z.land (Z.shiftr crc 16) 0xff);
  v4 ← entry t 4 (Z.land (Z.shiftr crc 24) 0xff);
  v3 ← entry t 3 (Z.land (Z.shiftr crc 32) 0xff);
  v2 ← entry t 2 (Z.land (Z.shiftr crc 40) 0xff);
  v1 ← entry t 1 (Z.land (Z.shiftr crc 48) 0xff);
  v0 ← entry t 0 (Z.shiftr crc 56);
  Ok (Z.lxor (Z.lxor (Z.lxor (Z.lxor (Z.lxor (Z.lxor (Z.lxor v7 v6) v5) v4) v3) v2) v1) v0).

Definition big_word (crc w : Z) : res Z :=
  let crc := Z.lxor crc w in
  v0 ← entry t 0 (Z.land crc 0xff);
  v1 ← entry t 1 (Z.land (Z.shiftr crc 8) 0xff);
  v2 ← entry t 2 (Z.land (Z.shiftr crc 16) 0xff);
  v3 ← entry t 3 (Z.land (Z.shiftr crc 24) 0xff);
  v4 ← entry t 4 (Z.land (Z.shiftr crc 32) 0xff);
  v5 ← entry t 5 (Z.land (Z.shiftr crc 40) 0xff);
  v6 ← entry t 6 (Z.land (Z.shiftr crc 48) 0xff);
  v7 ← entry t 7 (Z.shiftr crc 56);
  Ok (Z.lxor (Z.lxor (Z.lxor (Z.lxor (Z.lxor (Z.lxor (Z.lxor v0 v1) v2) v3) v4) v5) v6) v7).

(** Bytes one by one until the address [next] is a multiple of 8. *)
Fixpoint align_loop (byte : Z -> Z -> res Z) (crc next : Z) (buf : list Z) : res (Z * list Z) :=
  match buf with
  | [] => Ok (crc, [])
  | b :: rest =>
      if Z.land next 7 =? 0 then Ok (crc, buf)
      else
        crc ← byte crc b;
        align_loop byte crc (next + 1) rest
  end.

(** Eight bytes at a time, as the host loads them. *)
Fixpoint word_loop (word : Z -> Z -> res Z) (crc : Z) (buf : list Z) : res (Z * list Z) :=
  match buf with
  | b0 :: b1 :: b2 :: b3 :: b4 :: b5 :: b6 :: b7 :: rest =>
      crc ← word crc (host_val [b0; b1; b2; b3; b4; b5; b6; b7]);
      word_loop word crc rest
  | _ => Ok (crc, buf)
  end.

Fixpoint byte_loop (byte : Z -> Z -> res Z) (crc : Z) (buf : list Z) : res Z :=
  match buf with
  | [] => Ok crc
  | b :: rest =>
      crc ← byte crc b;
      byte_loop byte crc rest
  end.

(** The three loops over the data: up to an aligned address, by words, the rest. *)
Definition speed_loops (byte word : Z -> Z -> res Z) (crc next : Z) (buf : list Z) : res Z :=
  r ← align_loop byte crc next buf;
  r ← word_loop word r.1 r.2;
  byte_loop byte r.1 r.2.

Definition crcspeed64little (crc next : Z) (buf : list Z) : res Z := speed_loops little_byte little_word crc next buf.

Definition crcspeed64big (crc next : Z) (buf : list Z) : res Z :=
  let crc := rev8 crc in
  crc ← speed_loops big_byte big_word crc next buf;
  Ok (rev8 crc).

(** The first byte of the 64-bit 1 in memory tells the byte order. *)
Definition first_byte_of_one : bool := bool_decide (head (host_bytes 8 1) = Some 1).

Definition crcspeed64native (crc next : Z) (buf : list Z) : res Z :=
  if first_byte_of_one then crcspeed64little crc next buf else crcspeed64big crc next buf.

End Speed.

Definition crcspeed64native_init `{Host} (fn : Z -> list Z -> Z) : list (list Z) :=
  if first_byte_of_one then crcspeed64little_init fn else crcspeed64big_init fn.

Definition crc64_init `{Host} : list (list Z) := crcspeed64native_init _crc64.

(** [s] is at the address [addr]. *)
Definition crc64 `{Host} (crc addr : Z) (s : list Z) : res Z := crcspeed64native crc64_init crc addr s.

(** ** CRC-16 and hash slots *)

Definition crc16tab : list Z := [
  0x0000; 0x1021; 0x2042; 0x3063; 0x4084; 0x50a5; 0x60c6; 0x70e7; 0x8108; 0x9129; 0xa14a; 0xb16b; 0xc18c; 0xd1ad; 0xe1ce; 0xf1ef;
  0x1231; 0x0210; 0x3273; 0x2252; 0x52b5; 0x4294; 0x72f7; 0x62d6; 0x9339; 0x8318; 0xb37b; 0xa35a; 0xd3bd; 0xc39c; 0xf3ff; 0xe3de;
  0x2462; 0x3443; 0x0420; 0x1401; 0x64e6; 0x74c7; 0x44a4; 0x5485; 0xa56a; 0xb54b; 0x8528; 0x9509; 0xe5ee; 0xf5cf; 0xc5ac; 0xd58d;
  0x3653; 0x2672; 0x1611; 0x0630; 0x76d7; 0x66f6; 0x5695; 0x46b4; 0xb75b; 0xa77a; 0x9719; 0x8738; 0xf7df; 0xe7fe; 0xd79d; 0xc7bc;
  0x48c4; 0x58e5; 0x6886; 0x78a7; 0x0840; 0x1861; 0x2802; 0x3823; 0xc9cc; 0xd9ed; 0xe98e; 0xf9af; 0x8948; 0x9969; 0xa90a; 0xb92b;
  0x5af5; 0x4ad4; 0x7ab7; 0x6a96; 0x1a71; 0x0a50; 0x3a33; 0x2a12; 0xdbfd; 0xcbdc; 0xfbbf; 0xeb9e; 0x9b79; 0x8b58; 0xbb3b; 0xab1a;
  0x6ca6; 0x7c87; 0x4ce4; 0x5cc5; 0x2c22; 0x3c03; 0x0c60; 0x1c41; 0xedae; 0xfd8f; 0xcdec; 0xddcd; 0xad2a; 0xbd0b; 0x8d68; 0x9d49;
  0x7e97; 0x6eb6; 0x5ed5; 0x4ef4; 0x3e13; 0x2e32; 0x1e51; 0x0e70; 0xff9f; 0xefbe; 0xdfdd; 0xcffc; 0xbf1b; 0xaf3a; 0x9f59; 0x8f78;
  0x9188; 0x81a9; 0xb1ca; 0xa1eb; 0xd10c; 0xc12d; 0xf14e; 0xe16f; 0x1080; 0x00a1; 0x30c2; 0x20e3; 0x5004; 0x4025; 0x7046; 0x6067;
  0x83b9; 0x9398; 0xa3fb; 0xb3da; 0xc33d; 0xd31c; 0xe37f; 0xf35e; 0x02b1; 0x1290; 0x22f3; 0x32d2; 0x4235; 0x5214; 0x6277; 0x7256;
  0xb5ea; 0xa5cb; 0x95a8; 0x8589; 0xf56e; 0xe54f; 0xd52c; 0xc50d; 0x34e2; 0x24c3; 0x14a0; 0x0481; 0x7466; 0x6447; 0x5424; 0x4405;
  0xa7db; 0xb7fa; 0x8799; 0x97b8; 0xe75f; 0xf77e; 0xc71d; 0xd73c; 0x26d3; 0x36f2; 0x0691; 0x16b0; 0x6657; 0x7676; 0x4615; 0x5634;
  0xd94c; 0xc96d; 0xf90e; 0xe92f; 0x99c8; 0x89e9; 0xb98a; 0xa9ab; 0x5844; 0x4865; 0x7806; 0x6827; 0x18c0; 0x08e1; 0x3882; 0x28a3;
  0xcb7d; 0xdb5c; 0xeb3f; 0xfb1e; 0x8bf9; 0x9bd8; 0xabbb; 0xbb9a; 0x4a75; 0x5a54; 0x6a37; 0x7a16; 0x0af1; 0x1ad0; 0x2ab3; 0x3a92;
  0xfd2e; 0xed0f; 0xdd6c; 0xcd4d; 0xbdaa; 0xad8b; 0x9de8; 0x8dc9; 0x7c26; 0x6c07; 0x5c64; 0x4c45; 0x3ca2; 0x2c83; 0x1ce0; 0x0cc1;
  0xef1f; 0xff3e; 0xcf5d; 0xdf7c; 0xaf9b; 0xbfba; 0x8fd9; 0x9ff8; 0x6e17; 0x7e36; 0x4e55; 0x5e74; 0x2e93; 0x3eb2; 0x0ed1; 0x1ef0
].

(** A [char] is signed. *)
Definition crc16_byte (crc b : Z) : res Z :=
  v ← rd1 crc16tab (Z.land (Z.lxor (Z.shiftr crc 8) (wrapS 8 b)) 0xff);
  Ok (wrapU 16 (Z.lxor (Z.shiftl crc 8) v)).

Fixpoint crc16_loop (crc : Z) (buf : list Z) : res Z :=
  match buf with
  | [] => Ok crc
  | b :: rest =>
      crc ← crc16_byte crc b;
      crc16_loop crc rest
  end.

Definition crc16 (buf : list Z) : res Z := crc16_loop 0 buf.

(** The index of the first [c] from [i] on, or the length of the key. *)
Fixpoint find_char (key : list Z) (i c : Z) : Z :=
  match key with
  | [] => i
  | b :: rest => if b =? c then i else find_char rest (i + 1) c
  end.

Definition keyHashSlot (key : list Z) : res Z :=
  let keylen := zlen key in
  let whole := (h ← crc16 key; Ok (Z.land h 0x3fff)) in
  let s := find_char key 0 123 in
  if s =? keylen then whole
  else
    let e := find_char (drop (Z.to_nat (s + 1)) key) (s + 1) 125 in
    if (e =? keylen) || (e =? s + 1) then whole
    else
      tag ← rd key (s + 1) (e - s - 1);
      h ← crc16 tag;
      Ok (Z.land h 0x3fff).

(** * The register in reflected form *)

Definition RPOLY : Z := crc_reflect POLY 64.

(** One bit, and one byte, of the division. *)
Definition step1 (r : Z) : Z := if Z.odd r then Z.lxor (Z.shiftr r 1) RPOLY else Z.shiftr r 1.

Definition step8 (r : Z) : Z := Nat.iter 8 step1 r.

(** The checksum of a string, byte by byte. *)
Definition crc_of (crc : Z) (s : list Z) : Z := foldl (fun c b => step8 (Z.lxor c b)) crc s.

Lemma step1_lxor a b : step1 (Z.lxor a b) = Z.lxor (step1 a) (step1 b).
Proof.
  unfold step1. rewrite <- !Z.bit0_odd, Z.lxor_spec, Z.shiftr_lxor. destruct (Z.testbit a 0), (Z.testbit b 0); cbn [xorb].
  - rewrite (Z.lxor_comm (Z.shiftr b 1)), Z.lxor_assoc, <- (Z.lxor_assoc RPOLY), Z.lxor_nilpotent. by rewrite Z.lxor_0_l.
  - rewrite !Z.lxor_assoc. f_equal. apply Z.lxor_comm.
  - by rewrite Z.lxor_assoc.
  - done.
Qed.

Lemma step1_double x : step1 (Z.shiftl x 1) = x.
Proof. unfold step1. rewrite Z.shiftl_mul_pow2, Z.shiftr_div_pow2 by lia. change (2 ^ 1) with 2. rewrite Z.odd_mul, andb_false_r. apply Z.div_mul. lia. Qed.

Lemma iter_lxor (f : Z -> Z) n a b : (forall a b, f (Z.lxor a b) = Z.lxor (f a) (f b)) -> Nat.iter n f (Z.lxor a b) = Z.lxor (Nat.iter n f a) (Nat.iter n f b).
Proof. intros Hf. induction n as [|n IH]; [done|]. by rewrite !Nat.iter_succ, IH. Qed.

Lemma step8_lxor a b : step8 (Z.lxor a b) = Z.lxor (step8 a) (step8 b).
Proof. apply iter_lxor, step1_lxor. Qed.

Lemma iter_step1_shift n x : Nat.iter n step1 (Z.shiftl x (Z.of_nat n)) = x.
Proof.
  revert x. induction n as [|n IH]; intros x; [by rewrite Z.shiftl_0_r|]. rewrite Nat.iter_succ_r.
  replace (Z.of_nat (S n)) with (Z.of_nat n + 1) by lia. by rewrite <- Z.shiftl_shiftl, step1_double, IH by lia.
Qed.

Lemma step8_shift x : step8 (Z.shiftl x 8) = x.
Proof. apply (iter_step1_shift 8). Qed.

(** A word is its low byte and the rest. *)
Lemma split_byte x : x = Z.lxor (Z.land x 255) (Z.shiftl (Z.shiftr x 8) 8).
Proof.
  apply Z.bits_inj'. intros i Hi. rewrite Z.lxor_spec, Z.land_spec. change 255 with (Z.ones 8). destruct (Z.ltb_spec i 8).
  - rewrite Z.ones_spec_low, Z.shiftl_spec_low, xorb_false_r, andb_true_r by lia. done.
  - rewrite Z.ones_spec_high, Z.shiftl_spec, Z.shiftr_spec, andb_false_r by lia. cbn [xorb]. f_equal. lia.
Qed.

Lemma step8_split x : step8 x = Z.lxor (step8 (Z.land x 255)) (Z.shiftr x 8).
Proof. rewrite (split_byte x) at 1. by rewrite step8_lxor, step8_shift. Qed.

Lemma iter_step8_split n x : Nat.iter (S n) step8 x = Z.lxor (Nat.iter n step8 (step8 (Z.land x 255))) (Nat.iter n step8 (Z.shiftr x 8)).
Proof. rewrite Nat.iter_succ_r, step8_split. apply iter_lxor, step8_lxor. Qed.

Lemma land255_byte b : is_byte b -> Z.land b 255 = b.
Proof. intros Hb. change 255 with (Z.ones 8). rewrite Z.land_ones by lia. by apply Z.mod_small. Qed.

Lemma shiftr8_byte b : is_byte b -> Z.shiftr b 8 = 0.
Proof. intros Hb. rewrite Z.shiftr_div_pow2 by lia. by apply Z.div_small. Qed.

(** A byte and what follows it. *)
Lemma byte_lxor b v : is_byte b -> b + 256 * v = Z.lxor b (Z.shiftl v 8).
Proof.
  intros Hb. rewrite (split_byte (b + 256 * v)). change 255 with (Z.ones 8). rewrite Z.land_ones, Z.shiftr_div_pow2 by lia. change (2 ^ 8) with 256. unfold is_byte in Hb.
  rewrite Z.mul_comm, Z.mod_add, Z.div_add, Z.mod_small, Z.div_small by lia. done.
Qed.

(** The bytes of a little-endian word can be taken one by one or all at once. *)
Lemma crc_of_word crc bs : Forall is_byte bs -> crc_of crc bs = Nat.iter (length bs) step8 (Z.lxor crc (le_val bs)).
Proof.
  intros Hb. revert crc. induction Hb as [|b bs Hb _ IH]; intros crc; [cbn; by rewrite Z.lxor_0_r|].
  cbn [length le_val]. rewrite Nat.iter_succ_r. unfold crc_of in *. cbn [foldl]. rewrite IH. f_equal. rewrite byte_lxor by done.
  by rewrite <- Z.lxor_assoc, (step8_lxor (Z.lxor crc b)), step8_shift.
Qed.

(** ** The bit-by-bit algorithm *)

Lemma land_pow2_test x k : 0 <= k -> negb (Z.land x (2 ^ k) =? 0) = Z.testbit x k.
Proof.
  intros Hk. destruct (Z.testbit x k) eqn:E.
  - apply negb_true_iff, Z.eqb_neq. intros E0. apply (f_equal (fun z => Z.testbit z k)) in E0. by rewrite Z.land_spec, Z.pow2_bits_true, E, Z.bits_0 in E0 by lia.
  - apply negb_false_iff, Z.eqb_eq, Z.bits_inj'. intros i Hi. rewrite Z.land_spec, Z.bits_0. destruct (decide (i = k)) as [->|]; [by rewrite E|].
    by rewrite Z.pow2_bits_false, andb_false_r by lia.
Qed.

Definition word (x : Z) : Prop := 0 <= x < 2 ^ 64.

Lemma word_high_bits x : word x -> forall i, 64 <= i -> Z.testbit x i = false.
Proof. intros Hx i Hi. rewrite <- (Z.mod_small x (2 ^ 64)) by done. by apply Z.mod_pow2_bits_high. Qed.

Lemma bits_word x : (forall i, 64 <= i -> Z.testbit x i = false) -> word x.
Proof.
  intros Hb. assert (x = x mod 2 ^ 64) as ->; [|apply Z.mod_pos_bound; lia]. apply Z.bits_inj'. intros i Hi. destruct (Z.ltb_spec i 64).
  - by rewrite Z.mod_pow2_bits_low by lia.
  - rewrite Z.mod_pow2_bits_high by lia. by apply Hb.
Qed.

Lemma word_lxor a b : word a -> word b -> word (Z.lxor a b).
Proof.
  intros Ha Hb. apply bits_word. intros i Hi. by rewrite Z.lxor_spec, (word_high_bits a), (word_high_bits b).
Qed.

Lemma word_shiftr a n : 0 <= n -> word a -> word (Z.shiftr a n).
Proof.
  intros Hn [Ha Ha']. split; [by apply Z.shiftr_nonneg|]. rewrite Z.shiftr_div_pow2 by done. apply Z.le_lt_trans with a; [|done]. apply Z.div_le_upper_bound; [apply Z.pow_pos_nonneg; lia|].
  pose proof (Z.pow_pos_nonneg 2 n). nia.
Qed.

Lemma word_byte b : is_byte b -> word b.
Proof. unfold is_byte, word. lia. Qed.

Lemma reflect_loop_spec n data ret m : 0 <= ret < 2 ^ m -> 0 <= m -> m + Z.of_nat n <= 64 ->
  0 <= reflect_loop n data ret < 2 ^ (m + Z.of_nat n) /\
  forall i, 0 <= i -> Z.testbit (reflect_loop n data ret) i = if i <? Z.of_nat n then Z.testbit data (Z.of_nat n - i) else Z.testbit ret (i - Z.of_nat n).
Proof.
  revert data ret m. induction n as [|n IH]; intros data ret m Hret Hm Hn; cbn [reflect_loop].
  - rewrite Z.add_0_r. split; [done|]. intros i Hi. zfalse (i <? Z.of_nat 0). f_equal. lia.
  - set (b := Z.land (Z.shiftr data 1) 1). assert (b = Z.b2z (Z.testbit data 1)) as Eb.
    { unfold b. change 1 with (Z.ones 1) at 2. rewrite Z.land_ones by lia. change (2 ^ 1) with 2. by rewrite <- Z.bit0_mod, Z.shiftr_spec by lia. }
    assert (0 <= Z.shiftl ret 1 < 2 ^ (m + 1)) by (rewrite Z.shiftl_mul_pow2, Z.pow_add_r by lia; change (2 ^ 1) with 2; lia).
    assert (2 ^ (m + 1) <= 2 ^ 64) by (apply Z.pow_le_mono_r; lia). rewrite wrapU_small by lia.
    assert (Z.lor (Z.shiftl ret 1) b = 2 * ret + b) as ->.
    { rewrite Eb, Z.shiftl_mul_pow2 by lia. change (2 ^ 1) with 2. rewrite (Z.mul_comm ret). destruct (Z.testbit data 1); cbn [Z.b2z]; destruct ret; lia || reflexivity. }
    rewrite Z.shiftl_mul_pow2 in * by lia. change (2 ^ 1) with 2 in *. assert (0 <= b < 2) by (rewrite Eb; destruct (Z.testbit data 1); cbn; lia).
    destruct (IH (Z.shiftr data 1) (2 * ret + b) (m + 1)) as [Hr Hbits]; [rewrite Z.pow_add_r in * by lia; lia|lia..|]. split; [by replace (m + Z.of_nat (S n)) with (m + 1 + Z.of_nat n) by lia|].
    intros i Hi. rewrite Hbits by done. destruct (Z.ltb_spec i (Z.of_nat n)).
    + ztrue (i <? Z.of_nat (S n)). rewrite Z.shiftr_spec by lia. f_equal. lia.
    + rewrite Eb. destruct (Z.ltb_spec i (Z.of_nat (S n))).
      * replace (i - Z.of_nat n) with 0 by lia. replace (Z.of_nat (S n) - i) with 1 by lia. by rewrite Z.add_comm, Z.add_b2z_double_bit0.
      * replace (i - Z.of_nat n) with (Z.succ (i - Z.of_nat (S n))) by lia. destruct (Z.testbit data 1); cbn [Z.b2z]; rewrite ?Z.add_0_r, ?Z.testbit_odd_succ, ?Z.testbit_even_succ by lia; done.
Qed.

Lemma reflect_spec x : word x -> word (crc_reflect x 64) /\ forall i, 0 <= i < 64 -> Z.testbit (crc_reflect x 64) i = Z.testbit x (63 - i).
Proof.
  intros Hx. unfold crc_reflect. assert (Z.land x 1 = Z.b2z (Z.testbit x 0)) as ->.
  { change 1 with (Z.ones 1). rewrite Z.land_ones by lia. change (2 ^ 1) with 2. by rewrite Z.bit0_mod. }
  destruct (reflect_loop_spec (64 - 1) x (Z.b2z (Z.testbit x 0)) 1) as [Hr Hb]; [destruct (Z.testbit x 0); cbn; lia|lia..|]. split; [exact Hr|]. intros i Hi. rewrite Hb by lia.
  change (Z.of_nat (64 - 1)) with 63. destruct (Z.ltb_spec i 63); [done|]. replace i with 63 by lia. change (63 - 63) with 0. apply Z.b2z_bit0.
Qed.

Lemma word_ext a b : word a -> word b -> (forall i, 0 <= i < 64 -> Z.testbit a i = Z.testbit b i) -> a = b.
Proof.
  intros Ha Hb E. apply Z.bits_inj'. intros i Hi. destruct (Z.ltb_spec i 64); [by apply E|]. by rewrite (word_high_bits a), (word_high_bits b).
Qed.

Lemma reflect_involutive x : word x -> crc_reflect (crc_reflect x 64) 64 = x.
Proof.
  intros Hx. destruct (reflect_spec x Hx) as [Hr Hb]. destruct (reflect_spec _ Hr) as [Hr' Hb']. apply word_ext; [done..|]. intros i Hi. rewrite Hb', Hb by lia. f_equal. lia.
Qed.

Lemma poly_word : word POLY.
Proof. done. Qed.

Lemma step1_word r : word r -> word (step1 r).
Proof.
  intros Hr. unfold step1. pose proof (word_shiftr r 1 ltac:(lia) Hr). destruct (Z.odd r); [|done]. apply word_lxor; [done|]. apply (reflect_spec POLY poly_word).
Qed.

Lemma iter_word f n r : (forall r, word r -> word (f r)) -> word r -> word (Nat.iter n f r).
Proof. intros Hf Hr. induction n as [|n IH]; [done|]. rewrite Nat.iter_succ. auto. Qed.

Lemma step8_word r : word r -> word (step8 r).
Proof. apply iter_word, step1_word. Qed.

(** A turn of the inner loop, in reflected form. *)
Lemma crc_bit_reflect c crc k : word crc -> 0 <= k -> word (crc_bit c crc (2 ^ k)) /\
  crc_reflect (crc_bit c crc (2 ^ k)) 64 = step1 (Z.lxor (crc_reflect crc 64) (Z.b2z (Z.testbit c k))).
Proof.
  intros Hc Hk. unfold crc_bit. assert (negb (Z.land crc 9223372036854775808 =? 0) = Z.testbit crc 63) as -> by (apply (land_pow2_test crc 63); lia).
  rewrite (land_pow2_test c k) by done. set (b := if Z.testbit c k then _ else _). set (s := wrapU 64 (Z.shiftl crc 1)).
  assert (word s) as Hs by (apply wrapU_range; lia).
  assert (word (if b then Z.lxor s POLY else s)) as Hw by (destruct b; [by apply word_lxor|done]). split; [done|].
  destruct (reflect_spec crc Hc) as [Hr Hb]. destruct (reflect_spec _ Hw) as [Hrw Hbw]. destruct (reflect_spec POLY poly_word) as [_ HP].
  assert (word (Z.lxor (crc_reflect crc 64) (Z.b2z (Z.testbit c k)))) as Hx by (apply word_lxor; [done|]; destruct (Z.testbit c k); cbn; unfold word; lia).
  apply word_ext; [done|by apply step1_word|]. intros i Hi. rewrite Hbw by done. unfold step1. rewrite <- Z.bit0_odd, Z.lxor_spec, Hb by lia. rewrite Z.b2z_bit0.
  assert (xorb (Z.testbit crc (63 - 0)) (Z.testbit c k) = b) as -> by (unfold b; change (63 - 0) with 63; by destruct (Z.testbit crc 63), (Z.testbit c k)).
  assert (Z.testbit s (63 - i) = Z.testbit (Z.shiftr (Z.lxor (crc_reflect crc 64) (Z.b2z (Z.testbit c k))) 1) i) as Es.
  { unfold s, wrapU. rewrite Z.mod_pow2_bits_low, Z.shiftl_spec by lia. rewrite Z.shiftr_spec, Z.lxor_spec by lia.
    assert (Z.testbit (Z.b2z (Z.testbit c k)) (i + 1) = false) as -> by (destruct (Z.testbit c k); cbn [Z.b2z]; [apply Z.bits_above_log2; cbn; lia|apply Z.bits_0]).
    rewrite xorb_false_r. destruct (decide (i = 63)) as [->|]; [rewrite (word_high_bits _ Hr) by lia; by apply Z.testbit_neg_r|]. rewrite Hb by lia. f_equal. lia. }
  destruct b; [|done]. by rewrite !Z.lxor_spec, Es, <- HP by lia.
Qed.

Lemma crc_bits_reflect c n k crc : word crc -> 0 <= c < 2 ^ Z.of_nat (k + n) ->
  let crc' := foldl (crc_bit c) crc (map (fun i => 2 ^ Z.of_nat i) (seq k n)) in
  word crc' /\ crc_reflect crc' 64 = Nat.iter n step1 (Z.lxor (crc_reflect crc 64) (Z.shiftr c (Z.of_nat k))).
Proof.
  revert k crc. induction n as [|n IH]; intros k crc Hc Hr.
  - cbn [seq map foldl]. cbv zeta. split; [done|]. change (Nat.iter 0 step1 ?x) with x. rewrite Z.shiftr_div_pow2, Z.div_small, Z.lxor_0_r; [done| |lia]. by rewrite Nat.add_0_r in Hr.
  - cbn [seq map foldl]. destruct (crc_bit_reflect c crc (Z.of_nat k) Hc ltac:(lia)) as [Hw E]. destruct (IH (S k) (crc_bit c crc (2 ^ Z.of_nat k)) Hw) as [Hw' E'];
      [by replace (S k + n)%nat with (k + S n)%nat by lia|]. split; [done|]. rewrite E', E, Nat.iter_succ_r. f_equal.
    assert (Z.shiftr c (Z.of_nat k) = Z.lxor (Z.b2z (Z.testbit c (Z.of_nat k))) (Z.shiftl (Z.shiftr c (Z.of_nat (S k))) 1)) as ->.
    { apply Z.bits_inj'. intros i Hi. rewrite Z.lxor_spec, Z.shiftr_spec by done. destruct (decide (i = 0)) as [->|].
      - by rewrite Z.b2z_bit0, Z.shiftl_spec_low, xorb_false_r by lia.
      - assert (Z.testbit (Z.b2z (Z.testbit c (Z.of_nat k))) i = false) as -> by (destruct (Z.testbit c (Z.of_nat k)); cbn [Z.b2z]; [apply Z.bits_above_log2; cbn; lia|apply Z.bits_0]).
        rewrite Z.shiftl_spec, Z.shiftr_spec, xorb_false_l by lia. f_equal. lia. }
    by rewrite <- Z.lxor_assoc, (step1_lxor (Z.lxor _ _)), step1_double.
Qed.

Lemma crc_byte_reflect crc c : word crc -> is_byte c -> word (crc_byte crc c) /\ crc_reflect (crc_byte crc c) 64 = step8 (Z.lxor (crc_reflect crc 64) c).
Proof. intros Hc Hb. apply (crc_bits_reflect c 8 0 crc Hc). exact Hb. Qed.

Lemma crc64_reflect crc s : word crc -> Forall is_byte s -> _crc64 crc s = crc_of (crc_reflect crc 64) s.
Proof.
  intros Hc Hs. unfold _crc64, crc_of. revert crc Hc. induction Hs as [|c s Hb _ IH]; intros crc Hc; cbn [foldl]; [reflexivity|].
  destruct (crc_byte_reflect crc c Hc Hb) as [Hw E]. by rewrite IH, E.
Qed.

(** ** The tables *)

Notation T k n := (Nat.iter k step8 (step8 n)).

Lemma row0_step n : is_byte n -> _crc64 0 [n] = step8 n.
Proof. intros Hn. rewrite crc64_reflect by (done || by apply Forall_singleton). unfold crc_of. cbn [foldl]. assert (crc_reflect 0 64 = 0) as -> by (by vm_compute). by rewrite Z.lxor_0_l. Qed.

Lemma nest_step k c : nest (fun n => _crc64 0 [n]) k c = Nat.iter k step8 c.
Proof.
  induction k as [|k IH]; [done|]. cbn [nest]. rewrite IH, Nat.iter_succ, (step8_split (Nat.iter k step8 c)). cbv zeta. f_equal. apply row0_step.
  unfold is_byte. change 255 with (Z.ones 8). rewrite Z.land_ones by lia. apply Z.mod_pos_bound. lia.
Qed.

Lemma little_table : crcspeed64little_init _crc64 = (fun k => (fun n => T k n) <$> seqZ 0 256) <$> seq 0 8.
Proof.
  unfold crcspeed64little_init. cbv zeta. apply list_fmap_ext. intros _ k _. apply list_fmap_ext. intros i n Hn. rewrite nest_step, row0_step; [done|].
  apply lookup_seqZ in Hn as [-> Hn]. unfold is_byte. lia.
Qed.

Lemma table_entry (f : nat -> Z -> Z) k i : 0 <= k < 8 -> is_byte i -> entry ((fun k => f k <$> seqZ 0 256) <$> seq 0 8) k i = Ok (f (Z.to_nat k) i).
Proof.
  intros Hk Hi. unfold entry, is_byte in *. rewrite list_lookup_fmap, lookup_seq_lt by lia. cbn [fmap option_fmap option_map]. ztrue (0 <=? i).
  rewrite list_lookup_fmap, lookup_seqZ_lt by lia. cbn [fmap option_fmap option_map]. do 2 f_equal; lia.
Qed.

(** ** The loops, for a register kept as [rep r] *)

Section Loops.
Context `{Host} (byte word_ : Z -> Z -> res Z) (rep : Z -> Z).
Context (Hbyte : forall c b, word c -> is_byte b -> byte (rep c) b = Ok (rep (step8 (Z.lxor c b)))).
Context (Hword : forall c bs, word c -> Forall is_byte bs -> length bs = 8%nat -> word_ (rep c) (host_val bs) = Ok (rep (Nat.iter 8 step8 (Z.lxor c (le_val bs))))).

Lemma step_word c b : word c -> is_byte b -> word (step8 (Z.lxor c b)).
Proof. intros Hc Hb. by apply step8_word, word_lxor, word_byte. Qed.

Lemma crc_of_is_word c s : word c -> Forall is_byte s -> word (crc_of c s).
Proof. intros Hc Hs. revert c Hc. induction Hs as [|b s Hb _ IH]; intros c Hc; [done|]. apply IH. by apply step_word. Qed.

Lemma align_loop_ok c next s : word c -> Forall is_byte s -> exists a b, s = a ++ b /\ align_loop byte (rep c) next s = Ok (rep (crc_of c a), b).
Proof.
  intros Hc Hs. revert c next Hc. induction Hs as [|b s Hb Hs IH]; intros c next Hc; cbn [align_loop]; [by exists [], []|].
  destruct (Z.land next 7 =? 0); [by exists [], (b :: s)|]. rewrite Hbyte, bind_Ok by done.
  destruct (IH (step8 (Z.lxor c b)) (next + 1)) as (a & b' & -> & E); [by apply step_word|]. exists (b :: a), b'. split; [done|exact E].
Qed.

Lemma byte_loop_ok c s : word c -> Forall is_byte s -> byte_loop byte (rep c) s = Ok (rep (crc_of c s)).
Proof.
  intros Hc Hs. revert c Hc. induction Hs as [|b s Hb Hs IH]; intros c Hc; cbn [byte_loop]; [done|]. rewrite Hbyte, bind_Ok by done. apply IH. by apply step_word.
Qed.

Lemma crc_of_app c a b : crc_of c (a ++ b) = crc_of (crc_of c a) b.
Proof. apply foldl_app. Qed.

Lemma word_loop_ok s : forall c, word c -> Forall is_byte s -> exists a b, s = a ++ b /\ word_loop word_ (rep c) s = Ok (rep (crc_of c a), b).
Proof.
  induction s as [s IH] using list_len_ind. intros c Hc Hs.
  destruct s as [|b0 [|b1 [|b2 [|b3 [|b4 [|b5 [|b6 [|b7 s]]]]]]]]; try (exists []; eexists; split; reflexivity).
  cbn [word_loop]. set (bs := [b0; b1; b2; b3; b4; b5; b6; b7]). change (b0 :: _) with (bs ++ s) in Hs |- *. apply Forall_app in Hs as [Hbs Hs].
  rewrite Hword, bind_Ok by done. change (Nat.iter 8) with (Nat.iter (A := Z) (length bs)). rewrite <- crc_of_word by done.
  destruct (IH s ltac:(cbn; lia) (crc_of c bs)) as (a & b & -> & ->); [by apply crc_of_is_word|done|]. exists (bs ++ a), b. by rewrite <- app_assoc, crc_of_app.
Qed.

Lemma loops_ok c next s : word c -> Forall is_byte s ->
  speed_loops byte word_ (rep c) next s = Ok (rep (crc_of c s)).
Proof.
  intros Hc Hs. unfold speed_loops. destruct (align_loop_ok c next s Hc Hs) as (a & b & -> & ->). apply Forall_app in Hs as [Ha Hb]. rewrite bind_Ok. cbn [fst snd].
  destruct (word_loop_ok b (crc_of c a)) as (x & y & -> & ->); [by apply crc_of_is_word|done|]. apply Forall_app in Hb as [Hx Hy]. rewrite bind_Ok. cbn [fst snd].
  rewrite byte_loop_ok; [by rewrite !crc_of_app| |done]. by apply crc_of_is_word; [apply crc_of_is_word|].
Qed.

End Loops.

(** ** Little-endian hosts *)

Lemma little_entry k i : 0 <= k < 8 -> is_byte i -> entry (crcspeed64little_init _crc64) k i = Ok (T (Z.to_nat k) i).
Proof. intros Hk Hi. rewrite little_table. by apply (table_entry (fun k n => T k n)). Qed.

Lemma land255_range x : is_byte (Z.land x 255).
Proof. unfold is_byte. change 255 with (Z.ones 8). rewrite Z.land_ones by lia. apply Z.mod_pos_bound. lia. Qed.

Lemma shiftr56_byte x : word x -> is_byte (Z.shiftr x 56).
Proof. intros [Hx Hx']. unfold is_byte. rewrite Z.shiftr_div_pow2 by lia. split; [by apply Z.div_pos|]. by apply Z.div_lt_upper_bound. Qed.

(** Eight steps are eight lookups. *)
Lemma iter8_bytes x : word x -> Nat.iter 8 step8 x =
  Z.lxor (Z.lxor (Z.lxor (Z.lxor (Z.lxor (Z.lxor (Z.lxor (T 7 (Z.land x 255)) (T 6 (Z.land (Z.shiftr x 8) 255))) (T 5 (Z.land (Z.shiftr x 16) 255)))
    (T 4 (Z.land (Z.shiftr x 24) 255))) (T 3 (Z.land (Z.shiftr x 32) 255))) (T 2 (Z.land (Z.shiftr x 40) 255))) (T 1 (Z.land (Z.shiftr x 48) 255))) (T 0 (Z.shiftr x 56)).
Proof.
  intros Hx. rewrite (iter_step8_split 7 x), (iter_step8_split 6 (Z.shiftr x 8)).
  rewrite (Z.shiftr_shiftr x 8 8) by lia. change (8 + 8) with 16. rewrite (iter_step8_split 5 (Z.shiftr x 16)).
  rewrite (Z.shiftr_shiftr x 16 8) by lia. change (16 + 8) with 24. rewrite (iter_step8_split 4 (Z.shiftr x 24)).
  rewrite (Z.shiftr_shiftr x 24 8) by lia. change (24 + 8) with 32. rewrite (iter_step8_split 3 (Z.shiftr x 32)).
  rewrite (Z.shiftr_shiftr x 32 8) by lia. change (32 + 8) with 40. rewrite (iter_step8_split 2 (Z.shiftr x 40)).
  rewrite (Z.shiftr_shiftr x 40 8) by lia. change (40 + 8) with 48. rewrite (iter_step8_split 1 (Z.shiftr x 48)).
  rewrite (Z.shiftr_shiftr x 48 8) by lia. change (48 + 8) with 56. rewrite (iter_step8_split 0 (Z.shiftr x 56)).
  rewrite (Z.shiftr_shiftr x 56 8) by lia. change (56 + 8) with 64. change (Nat.iter 0 step8 ?y) with y.
  rewrite (land255_byte (Z.shiftr x 56)) by by apply shiftr56_byte. rewrite (Z.shiftr_div_pow2 x 64) by lia. rewrite Z.div_small by done. rewrite Z.lxor_0_r.
  by rewrite !Z.lxor_assoc.
Qed.

Lemma little_byte_ok c b : is_byte b -> little_byte (crcspeed64little_init _crc64) c b = Ok (step8 (Z.lxor c b)).
Proof.
  intros Hb. unfold little_byte. rewrite little_entry, bind_Ok by (lia || apply land255_range). rewrite (step8_split (Z.lxor c b)), Z.shiftr_lxor, (shiftr8_byte b), Z.lxor_0_r by done. done.
Qed.

Lemma little_word_ok c w : word (Z.lxor c w) -> little_word (crcspeed64little_init _crc64) c w = Ok (Nat.iter 8 step8 (Z.lxor c w)).
Proof.
  intros Hx. unfold little_word. cbv zeta. rewrite !little_entry by (lia || apply land255_range || by apply shiftr56_byte). rewrite !bind_Ok. by rewrite iter8_bytes.
Qed.

(** ** Big-endian hosts *)

Lemma byte_lxor_byte a b : is_byte a -> is_byte b -> is_byte (Z.lxor a b).
Proof.
  intros Ha Hb. rewrite <- (land255_byte a), <- (land255_byte b) by done. assert (Z.lxor (Z.land a 255) (Z.land b 255) = Z.land (Z.lxor a b) 255) as ->; [|apply land255_range].
  apply Z.bits_inj'. intros i Hi. rewrite Z.lxor_spec, !Z.land_spec, Z.lxor_spec. by destruct (Z.testbit a i), (Z.testbit b i), (Z.testbit 255 i).
Qed.

Lemma le_val_lxor la lb : length la = length lb -> Forall is_byte la -> Forall is_byte lb -> le_val (zip_with Z.lxor la lb) = Z.lxor (le_val la) (le_val lb).
Proof.
  revert lb. induction la as [|a la IH]; intros [|b lb] Hl Ha Hb; try done. apply Forall_cons in Ha as [Ha Hla], Hb as [Hb Hlb]. cbn [zip_with le_val].
  rewrite IH by (done || by injection Hl). rewrite !byte_lxor by (done || by apply byte_lxor_byte). rewrite Z.shiftl_lxor, !Z.lxor_assoc. f_equal.
  rewrite <- !Z.lxor_assoc. f_equal. apply Z.lxor_comm.
Qed.

Lemma le_val_shiftr b bs : is_byte b -> Z.shiftr (le_val (b :: bs)) 8 = le_val bs.
Proof. intros Hb. cbn [le_val]. unfold is_byte in Hb. rewrite Z.shiftr_div_pow2 by lia. change (2 ^ 8) with 256. rewrite Z.mul_comm, Z.div_add, Z.div_small by lia. done. Qed.

Lemma le_val_byte bs k b : Forall is_byte bs -> bs !! k = Some b -> Z.land (Z.shiftr (le_val bs) (8 * Z.of_nat k)) 255 = b.
Proof.
  intros Hb. revert k. induction Hb as [|x bs Hx _ IH]; intros k Hk; [done|]. destruct k as [|k].
  - cbn in Hk. simplify_eq. cbn [le_val]. change (8 * Z.of_nat 0) with 0. rewrite Z.shiftr_0_r. change 255 with (Z.ones 8). rewrite Z.land_ones by lia. change (2 ^ 8) with 256.
    unfold is_byte in Hx. rewrite Z.mul_comm, Z.mod_add, Z.mod_small by lia. done.
  - replace (8 * Z.of_nat (S k)) with (8 + 8 * Z.of_nat k) by lia. rewrite <- Z.shiftr_shiftr by lia. rewrite le_val_shiftr by done. by apply IH.
Qed.

Definition eight (bs : list Z) : Prop := Forall is_byte bs /\ length bs = 8%nat.

Lemma word_bytes x : word x -> exists bs, eight bs /\ x = le_val bs.
Proof.
  intros Hx. exists (le_bytes 8 x). split; [split; [apply le_bytes_byte|apply length_le_bytes]|]. rewrite le_val_bytes. by rewrite wrapU_small.
Qed.

Lemma rev8_bytes bs : eight bs -> rev8 (le_val bs) = le_val (rev bs).
Proof. intros [Hb Hl]. unfold rev8. rewrite <- Hl. by rewrite le_bytes_val. Qed.

Lemma rev8_word x : word (rev8 x).
Proof.
  unfold rev8, word. assert (Forall is_byte (rev (le_bytes 8 x))) as Hb by apply Forall_rev, le_bytes_byte. pose proof (le_val_range _ Hb) as Hr.
  rewrite zlen_rev, zlen_le_bytes in Hr. exact Hr.
Qed.

Lemma rev8_involutive x : word x -> rev8 (rev8 x) = x.
Proof.
  intros Hx. destruct (word_bytes x Hx) as (bs & [Hb Hl] & ->). rewrite rev8_bytes, rev8_bytes by (split; [by try apply Forall_rev|by rewrite ?length_rev]). by rewrite rev_involutive.
Qed.

Lemma rev8_lxor a b : word a -> word b -> rev8 (Z.lxor a b) = Z.lxor (rev8 a) (rev8 b).
Proof.
  intros Ha Hb. destruct (word_bytes a Ha) as (la & [Hla La] & ->), (word_bytes b Hb) as (lb & [Hlb Lb] & ->).
  rewrite <- le_val_lxor by (done || congruence). rewrite !rev8_bytes; [|split; done..|].
  - rewrite <- le_val_lxor by (rewrite ?length_rev; (by apply Forall_rev) || congruence). f_equal.
    do 9 (destruct la as [|? la]; try done). do 9 (destruct lb as [|? lb]; try done).
  - split; [|rewrite length_zip_with; lia]. apply Forall_lookup_2. intros i x (y & z & -> & Hy & Hz)%lookup_zip_with_Some. apply byte_lxor_byte; [exact (Forall_lookup_1 _ _ _ _ Hla Hy)|exact (Forall_lookup_1 _ _ _ _ Hlb Hz)].
Qed.

Lemma rev8_byte k x : (k < 8)%nat -> word x -> Z.land (Z.shiftr (rev8 x) (8 * Z.of_nat k)) 255 = Z.land (Z.shiftr x (8 * Z.of_nat (7 - k))) 255.
Proof.
  intros Hk Hx. destruct (word_bytes x Hx) as (bs & [Hb Hl] & ->). rewrite rev8_bytes by done. destruct (lookup_lt_is_Some_2 bs (7 - k)) as [b Eb]; [lia|].
  rewrite (le_val_byte bs (7 - k) b) by done. apply le_val_byte; [by apply Forall_rev|]. do 9 (destruct bs as [|? bs]; try done). do 8 (destruct k as [|k]; [exact Eb|]). lia.
Qed.

Lemma rev8_shift c : word c -> wrapU 64 (Z.shiftl (rev8 c) 8) = rev8 (Z.shiftr c 8).
Proof.
  intros Hc. destruct (word_bytes c Hc) as (bs & [Hb Hl] & ->). rewrite rev8_bytes by done. do 9 (destruct bs as [|? bs]; try done).
  repeat match goal with H : Forall _ (_ :: _) |- _ => apply Forall_cons in H as [? H] end. rewrite le_val_shiftr by done.
  replace (le_val [z0; z1; z2; z3; z4; z5; z6]) with (le_val [z0; z1; z2; z3; z4; z5; z6; 0]) by (cbn [le_val]; lia).
  rewrite rev8_bytes by (split; [by forall_list|done]). cbn [rev app]. rewrite Z.shiftl_mul_pow2 by lia. change (2 ^ 8) with 256. unfold wrapU, is_byte in *. cbn [le_val].
  symmetry. apply (Z.mod_unique_pos _ _ z); lia.
Qed.

Lemma big_entry k i : 0 <= k < 8 -> is_byte i -> entry (crcspeed64big_init _crc64) k i = Ok (rev8 (T (Z.to_nat k) i)).
Proof.
  intros Hk Hi. unfold crcspeed64big_init. rewrite little_table, <- list_fmap_compose.
  assert ((fun row : list Z => rev8 <$> row) ∘ (fun k : nat => (fun n => T k n) <$> seqZ 0 256) = (fun k : nat => (fun n => rev8 (T k n)) <$> seqZ 0 256)) as ->;
    [|by apply (table_entry (fun k n => rev8 (T k n)))]. reflexivity.
Qed.

Lemma rev8_bottom x : word x -> Z.land (rev8 x) 255 = Z.shiftr x 56.
Proof.
  intros Hx. pose proof (rev8_byte 0 x ltac:(lia) Hx) as E. change (8 * Z.of_nat 0) with 0 in E. change (8 * Z.of_nat (7 - 0)) with 56 in E. rewrite Z.shiftr_0_r in E.
  rewrite E. by apply land255_byte, shiftr56_byte.
Qed.

Lemma rev8_top x : word x -> Z.shiftr (rev8 x) 56 = Z.land x 255.
Proof. intros Hx. by rewrite <- (rev8_bottom (rev8 x)), rev8_involutive by (done || apply rev8_word). Qed.

Lemma big_byte_ok c b : word c -> is_byte b -> big_byte (crcspeed64big_init _crc64) (rev8 c) b = Ok (rev8 (step8 (Z.lxor c b))).
Proof.
  intros Hc Hb. unfold big_byte. rewrite rev8_top, rev8_shift by done. assert (Z.lxor (Z.land c 255) b = Z.land (Z.lxor c b) 255) as ->.
  { rewrite <- (land255_byte b) at 1 by done. apply Z.bits_inj'. intros i Hi. rewrite Z.lxor_spec, !Z.land_spec, Z.lxor_spec. by destruct (Z.testbit c i), (Z.testbit b i), (Z.testbit 255 i). }
  rewrite big_entry, bind_Ok by (lia || apply land255_range). change (Nat.iter (Z.to_nat 0) step8 ?y) with y. rewrite <- rev8_lxor.
  - by rewrite (step8_split (Z.lxor c b)), Z.shiftr_lxor, (shiftr8_byte b), Z.lxor_0_r.
  - apply step8_word, word_byte, land255_range.
  - by apply word_shiftr.
Qed.

Lemma T_word k n : is_byte n -> word (T k n).
Proof. intros Hn. apply iter_word; [apply step8_word|]. by apply step8_word, word_byte. Qed.

Lemma lxor8_rev a b c d e f g h : Z.lxor (Z.lxor (Z.lxor (Z.lxor (Z.lxor (Z.lxor (Z.lxor a b) c) d) e) f) g) h =
  Z.lxor (Z.lxor (Z.lxor (Z.lxor (Z.lxor (Z.lxor (Z.lxor h g) f) e) d) c) b) a.
Proof. apply Z.bits_inj'. intros i _. rewrite !Z.lxor_spec. by destruct (Z.testbit a i), (Z.testbit b i), (Z.testbit c i), (Z.testbit d i), (Z.testbit e i), (Z.testbit f i), (Z.testbit g i), (Z.testbit h i). Qed.

Lemma big_word_ok c w : word c -> word w -> big_word (crcspeed64big_init _crc64) (rev8 c) (rev8 w) = Ok (rev8 (Nat.iter 8 step8 (Z.lxor c w))).
Proof.
  intros Hc Hw. unfold big_word. rewrite <- rev8_lxor by done. pose proof (word_lxor c w Hc Hw) as Hx. set (x := Z.lxor c w) in *. cbv zeta.
  rewrite (rev8_bottom x), (rev8_top x) by done.
  rewrite (rev8_byte 1 x ltac:(lia) Hx : Z.land (Z.shiftr (rev8 x) 8) 255 = Z.land (Z.shiftr x 48) 255),
    (rev8_byte 2 x ltac:(lia) Hx : Z.land (Z.shiftr (rev8 x) 16) 255 = Z.land (Z.shiftr x 40) 255),
    (rev8_byte 3 x ltac:(lia) Hx : Z.land (Z.shiftr (rev8 x) 24) 255 = Z.land (Z.shiftr x 32) 255),
    (rev8_byte 4 x ltac:(lia) Hx : Z.land (Z.shiftr (rev8 x) 32) 255 = Z.land (Z.shiftr x 24) 255),
    (rev8_byte 5 x ltac:(lia) Hx : Z.land (Z.shiftr (rev8 x) 40) 255 = Z.land (Z.shiftr x 16) 255),
    (rev8_byte 6 x ltac:(lia) Hx : Z.land (Z.shiftr (rev8 x) 48) 255 = Z.land (Z.shiftr x 8) 255).
  rewrite !big_entry by (lia || apply land255_range || by apply shiftr56_byte). rewrite !bind_Ok, iter8_bytes by done. f_equal.
  rewrite !rev8_lxor by (repeat first [apply word_lxor|apply T_word; first [apply land255_range|by apply shiftr56_byte]]).
  change (Z.to_nat 0) with 0%nat. change (Z.to_nat 1) with 1%nat. change (Z.to_nat 2) with 2%nat. change (Z.to_nat 3) with 3%nat.
  change (Z.to_nat 4) with 4%nat. change (Z.to_nat 5) with 5%nat. change (Z.to_nat 6) with 6%nat. change (Z.to_nat 7) with 7%nat.
  apply lxor8_rev.
Qed.

(** ** CRC-64 *)

Lemma first_byte_little `{Host} : first_byte_of_one = negb big_endian.
Proof. unfold first_byte_of_one, host_bytes. by destruct big_endian. Qed.

Lemma crc64_ok `{Host} crc addr s : word crc -> Forall is_byte s -> crc64 crc addr s = Ok (crc_of crc s).
Proof.
  intros Hc Hs. unfold crc64, crc64_init, crcspeed64native_init, crcspeed64native. rewrite first_byte_little. destruct big_endian eqn:Ebe; cbn [negb].
  - unfold crcspeed64big. cbv zeta. rewrite (loops_ok _ _ rev8); [|by intros; apply big_byte_ok| |done..].
    2:{ intros c bs Hc' Hb Hl. replace (host_val bs) with (rev8 (le_val bs)) by (unfold host_val; rewrite Ebe; by apply rev8_bytes).
        apply big_word_ok; [done|]. pose proof (le_val_range bs Hb) as Hr. unfold zlen in Hr. rewrite Hl in Hr. exact Hr. }
    rewrite bind_Ok, rev8_involutive; [done|]. by apply crc_of_is_word.
  - unfold crcspeed64little. apply (loops_ok _ _ (fun c => c)); [by intros; apply little_byte_ok| |done..]. intros c bs Hc' Hb Hl.
    replace (host_val bs) with (le_val bs) by (unfold host_val; by rewrite Ebe). apply little_word_ok, word_lxor; [done|].
    pose proof (le_val_range bs Hb) as Hr. unfold zlen in Hr. rewrite Hl in Hr. exact Hr.
Qed.

(** C35: The table-driven CRC-64 is the bit-by-bit one, on hosts of either byte order
    and wherever the data lies in memory, and the checksum of data that comes in two
    pieces is that of the whole. *)
Theorem crc64_correct `{Host} crc addr s : word crc -> Forall is_byte s ->
  crc64 crc addr s = Ok (_crc64 (crc_reflect crc 64) s) /\
  forall a b addr', s = a ++ b -> (c ← crc64 crc addr a; crc64 c addr' b) = crc64 crc addr s.
Proof.
  intros Hc Hs. rewrite crc64_reflect by (done || by apply reflect_spec). rewrite reflect_involutive, crc64_ok by done. split; [done|]. intros a b addr' ->.
  apply Forall_app in Hs as [Ha Hb]. rewrite crc64_ok, bind_Ok, crc64_ok by (done || by apply crc_of_is_word). by rewrite crc_of_app.
Qed.

(** *** What it detects *)

Lemma lxor_cancel a b c : Z.lxor (Z.lxor a b) (Z.lxor a c) = Z.lxor b c.
Proof. apply Z.bits_inj'. intros i _. rewrite !Z.lxor_spec. by destruct (Z.testbit a i), (Z.testbit b i), (Z.testbit c i). Qed.

Lemma rpoly_top : Z.testbit RPOLY 63 = true.
Proof. by vm_compute. Qed.

Lemma step1_zero d : word d -> step1 d = 0 -> d = 0.
Proof.
  intros Hd. unfold step1. rewrite <- Z.bit0_odd. destruct (Z.testbit d 0) eqn:E0; intros E.
  - exfalso. apply Z.lxor_eq in E. pose proof rpoly_top as Ht. rewrite <- E, Z.shiftr_spec in Ht by lia. by rewrite (word_high_bits d) in Ht by (done || lia).
  - apply Z.bits_inj'. intros i Hi. rewrite Z.bits_0. destruct (decide (i = 0)) as [->|]; [done|]. apply (f_equal (fun z => Z.testbit z (i - 1))) in E.
    rewrite Z.shiftr_spec, Z.bits_0 in E by lia. by replace (i - 1 + 1) with i in E by lia.
Qed.

Lemma iter_zero f n d : (forall d, word d -> word (f d)) -> (forall d, word d -> f d = 0 -> d = 0) -> word d -> Nat.iter n f d = 0 -> d = 0.
Proof.
  intros Hw Hf Hd. induction n as [|n IH]; [done|]. rewrite Nat.iter_succ. intros E. apply IH, Hf; [by apply iter_word|done].
Qed.

Lemma step8_zero d : word d -> step8 d = 0 -> d = 0.
Proof. apply iter_zero; [apply step1_word|apply step1_zero]. Qed.

Lemma crc_of_inj c c' s : word c -> word c' -> Forall is_byte s -> crc_of c s = crc_of c' s -> c = c'.
Proof.
  intros Hc Hc' Hs. revert c c' Hc Hc'. induction Hs as [|b s Hb _ IH]; intros c c' Hc Hc' E; [done|]. unfold crc_of in E, IH. cbn [foldl] in E. apply IH in E; [|by apply step_word..].
  apply Z.lxor_eq. apply Z.lxor_eq_0_iff in E. rewrite <- step8_lxor in E. apply step8_zero in E; [|by apply word_lxor; apply word_lxor, word_byte].
  by rewrite (Z.lxor_comm c), (Z.lxor_comm c'), lxor_cancel in E.
Qed.

Lemma crc_of_detects crc a x y b :
  word crc -> Forall is_byte a -> Forall is_byte x -> Forall is_byte y -> Forall is_byte b -> length x = length y -> (length x <= 8)%nat -> x <> y ->
  crc_of crc (a ++ x ++ b) <> crc_of crc (a ++ y ++ b).
Proof.
  intros Hc Ha Hx Hy Hb Hl Hlen Hne E. rewrite !crc_of_app in E. apply Hne.
  assert (forall s, Forall is_byte s -> (length s <= 8)%nat -> word (le_val s)) as Hval.
  { intros s Hs Hls. pose proof (le_val_range s Hs) as Hr. split; [lia|]. apply Z.lt_le_trans with (2 ^ (8 * zlen s)); [lia|]. apply Z.pow_le_mono_r; unfold zlen; lia. }
  apply crc_of_inj in E; [|repeat apply crc_of_is_word; done..|done]. pose proof (crc_of_is_word crc a Hc Ha) as Hc'. generalize dependent (crc_of crc a). intros c' E Hc'.
  rewrite !crc_of_word, Hl in E by done.
  apply Z.lxor_eq_0_iff in E. rewrite <- (iter_lxor _ _ _ _ step8_lxor) in E. apply iter_zero in E; [|apply step8_word|apply step8_zero|].
  - rewrite lxor_cancel in E.
    apply Z.lxor_eq in E. by apply le_val_inj.
  - apply word_lxor; apply word_lxor; [exact Hc'|apply Hval; [exact Hx|lia]|exact Hc'|apply Hval; [exact Hy|lia]].
Qed.

Lemma iter_step8_0 n : Nat.iter n step8 0 = 0.
Proof. induction n as [|n IH]; [done|]. by rewrite Nat.iter_succ, IH. Qed.

(** Data followed by its own checksum, least significant byte first, has the checksum
    zero, and no other eight bytes do that. *)
Lemma crc_of_residue c t : word c -> Forall is_byte t -> length t = 8%nat -> crc_of c t = 0 <-> t = le_bytes 8 c.
Proof.
  intros Hc Ht Hl. assert (word (le_val t)) as Hv by (pose proof (le_val_range t Ht) as Hr; unfold zlen in Hr; rewrite Hl in Hr; exact Hr). rewrite crc_of_word by done. split.
  - intros E. apply iter_zero in E; [|apply step8_word|apply step8_zero|by apply word_lxor]. apply Z.lxor_eq in E. by rewrite E, <- Hl, le_bytes_val.
  - intros ->. rewrite le_val_bytes, wrapU_small, Z.lxor_nilpotent by exact Hc. apply iter_step8_0.
Qed.

(** CRC-64 detects every change of at most eight consecutive bytes, wherever it is
    in the data. *)
Theorem crc64_detects `{Host} crc addr addr' a x y b :
  word crc -> Forall is_byte a -> Forall is_byte x -> Forall is_byte y -> Forall is_byte b -> length x = length y -> (length x <= 8)%nat -> x <> y ->
  crc64 crc addr (a ++ x ++ b) <> crc64 crc addr' (a ++ y ++ b).
Proof. intros Hc Ha Hx Hy Hb Hl Hlen Hne. rewrite !crc64_ok by (done || by rewrite !Forall_app). intros [= E]. revert E. by apply crc_of_detects. Qed.

(** ** CRC-16 and hash slots *)

(** The division by x^16 + x^12 + x^5 + 1, one bit at a time. *)
Definition bit16 (r : Z) : Z := if Z.testbit r 15 then Z.lxor (wrapU 16 (Z.shiftl r 1)) 0x1021 else wrapU 16 (Z.shiftl r 1).

Definition crc16_of (s : list Z) : Z := foldl (fun r b => Nat.iter 8 bit16 (Z.lxor r (Z.shiftl b 8))) 0 s.

Lemma byte_check (P : Z -> bool) : forallb P (map Z.of_nat (seq 0 256)) = true -> forall b, is_byte b -> P b = true.
Proof.
  intros Hall b Hb. rewrite forallb_forall in Hall. apply Hall, in_map_iff. exists (Z.to_nat b). unfold is_byte in Hb. rewrite in_seq. lia.
Qed.

Lemma bit16_lxor a b : bit16 (Z.lxor a b) = Z.lxor (bit16 a) (bit16 b).
Proof.
  unfold bit16. rewrite Z.lxor_spec. assert (wrapU 16 (Z.shiftl (Z.lxor a b) 1) = Z.lxor (wrapU 16 (Z.shiftl a 1)) (wrapU 16 (Z.shiftl b 1))) as ->.
  { apply Z.bits_inj'. intros i Hi. unfold wrapU. rewrite Z.lxor_spec. destruct (Z.ltb_spec i 16).
    - by rewrite !Z.mod_pow2_bits_low, Z.shiftl_lxor, Z.lxor_spec by lia.
    - by rewrite !Z.mod_pow2_bits_high by lia. }
  destruct (Z.testbit a 15), (Z.testbit b 15); cbn [xorb]; apply Z.bits_inj'; intros i _; rewrite !Z.lxor_spec;
    by destruct (Z.testbit (wrapU 16 (Z.shiftl a 1)) i), (Z.testbit (wrapU 16 (Z.shiftl b 1)) i), (Z.testbit 4129 i).
Qed.

Lemma table16 x : is_byte x -> rd1 crc16tab x = Ok (Nat.iter 8 bit16 (Z.shiftl x 8)).
Proof.
  intros Hx. assert (match crc16tab !! Z.to_nat x with Some v => v =? Nat.iter 8 bit16 (Z.shiftl x 8) | None => false end = true) as Hc.
  { apply (byte_check (fun x => match crc16tab !! Z.to_nat x with Some v => v =? Nat.iter 8 bit16 (Z.shiftl x 8) | None => false end)); [by vm_compute|done]. }
  destruct (crc16tab !! Z.to_nat x) as [v|] eqn:E; [|done]. apply Z.eqb_eq in Hc as ->. apply rd1_lookup. unfold is_byte in Hx. split; [lia|done].
Qed.

Lemma low16 x : is_byte x -> Nat.iter 8 bit16 x = Z.shiftl x 8.
Proof. intros Hx. apply Z.eqb_eq. by apply (byte_check (fun x => Nat.iter 8 bit16 x =? Z.shiftl x 8)); [vm_compute|]. Qed.

Lemma iter_bit16_range x : is_byte x -> 0 <= Nat.iter 8 bit16 (Z.shiftl x 8) < 2 ^ 16.
Proof.
  intros Hx. assert ((0 <=? Nat.iter 8 bit16 (Z.shiftl x 8)) && (Nat.iter 8 bit16 (Z.shiftl x 8) <? 2 ^ 16) = true) as Hc; [|lia].
  by apply (byte_check (fun x => (0 <=? Nat.iter 8 bit16 (Z.shiftl x 8)) && (Nat.iter 8 bit16 (Z.shiftl x 8) <? 2 ^ 16))); [vm_compute|].
Qed.

Lemma lxor16 a b : 0 <= b < 2 ^ 16 -> wrapU 16 (Z.lxor a b) = Z.lxor (wrapU 16 a) b.
Proof.
  intros Hb. apply Z.bits_inj'. intros i Hi. unfold wrapU. rewrite Z.lxor_spec. destruct (Z.ltb_spec i 16).
  - by rewrite !Z.mod_pow2_bits_low, Z.lxor_spec by lia.
  - rewrite !Z.mod_pow2_bits_high by lia. rewrite <- (Z.mod_small b (2 ^ 16)) by lia. by rewrite Z.mod_pow2_bits_high by lia.
Qed.

Lemma crc16_byte_ok r b : 0 <= r < 2 ^ 16 -> is_byte b -> let r' := Nat.iter 8 bit16 (Z.lxor r (Z.shiftl b 8)) in crc16_byte r b = Ok r' /\ 0 <= r' < 2 ^ 16.
Proof.
  intros Hr Hb r'. unfold crc16_byte. set (x := Z.land _ 255). assert (x = Z.lxor (Z.shiftr r 8) b) as Ex.
  { unfold x. assert (is_byte (Z.shiftr r 8)) as Hhi by (unfold is_byte; rewrite Z.shiftr_div_pow2 by lia; split; [apply Z.div_pos|apply Z.div_lt_upper_bound]; lia).
    rewrite <- (land255_byte (Z.lxor (Z.shiftr r 8) b)) by by apply byte_lxor_byte. change 255 with (Z.ones 8). rewrite !Z.land_ones by lia.
    apply Z.bits_inj'. intros i Hi. destruct (Z.ltb_spec i 8); [|by rewrite !Z.mod_pow2_bits_high by lia]. rewrite !Z.mod_pow2_bits_low, !Z.lxor_spec by lia. f_equal.
    rewrite <- (Z.mod_pow2_bits_low (wrapS 8 b) 8), <- (Z.mod_pow2_bits_low b 8) by lia. pose proof (wrapU_wrapS 8 b ltac:(lia)) as E. unfold wrapU in E. by rewrite E. }
  assert (is_byte x) as Hx by apply land255_range. clearbody x. rewrite table16, bind_Ok by done. pose proof (iter_bit16_range x Hx) as Hrange. rewrite lxor16 by done.
  assert (r' = Z.lxor (wrapU 16 (Z.shiftl r 8)) (Nat.iter 8 bit16 (Z.shiftl x 8))) as E.
  { unfold r'. rewrite (split_byte r) at 1. rewrite Z.lxor_assoc, <- Z.shiftl_lxor, <- Ex, (iter_lxor _ _ _ _ bit16_lxor), low16 by apply land255_range. f_equal.
    apply Z.bits_inj'. intros i Hi. unfold wrapU. rewrite Z.shiftl_spec by done. destruct (Z.ltb_spec i 16).
    - rewrite Z.mod_pow2_bits_low, Z.shiftl_spec, Z.land_spec by lia. destruct (Z.ltb_spec i 8); [by rewrite !Z.testbit_neg_r by lia|]. change 255 with (Z.ones 8). by rewrite Z.ones_spec_low, andb_true_r by lia.
    - rewrite Z.mod_pow2_bits_high, Z.land_spec by lia. change 255 with (Z.ones 8). by rewrite Z.ones_spec_high, andb_false_r by lia. }
  rewrite E. split; [done|]. rewrite <- lxor16 by done. apply (wrapU_range 16). lia.
Qed.

Lemma crc16_loop_ok s r : Forall is_byte s -> 0 <= r < 2 ^ 16 ->
  let r' := foldl (fun r b => Nat.iter 8 bit16 (Z.lxor r (Z.shiftl b 8))) r s in crc16_loop r s = Ok r' /\ 0 <= r' < 2 ^ 16.
Proof.
  intros Hs. revert r. induction Hs as [|b s Hb _ IH]; intros r Hr; cbn [crc16_loop foldl]; [by split|].
  destruct (crc16_byte_ok r b Hr Hb) as [-> Hr']. rewrite bind_Ok. by apply IH.
Qed.

Lemma crc16_ok s : Forall is_byte s -> crc16 s = Ok (crc16_of s).
Proof. intros Hs. by apply crc16_loop_ok. Qed.

(** *** Hash slots *)

(** The part of a key that decides its slot: what is between the first opening brace
    and the next closing one, if that is something; otherwise the whole key. *)
Inductive hashed_part : list Z -> list Z -> Prop :=
| hashed_tag a t b : 123 ∉ a -> 125 ∉ t -> t <> [] -> hashed_part (a ++ [123] ++ t ++ [125] ++ b) t
| hashed_no_open key : 123 ∉ key -> hashed_part key key
| hashed_no_close a t : 123 ∉ a -> 125 ∉ t -> hashed_part (a ++ [123] ++ t) (a ++ [123] ++ t)
| hashed_empty a b : 123 ∉ a -> hashed_part (a ++ [123; 125] ++ b) (a ++ [123; 125] ++ b).

Lemma find_char_in a c b i : c ∉ a -> find_char (a ++ c :: b) i c = i + zlen a.
Proof.
  revert i. induction a as [|x a IH]; intros i Ha; cbn [app find_char].
  - rewrite Z.eqb_refl. change (zlen []) with 0. lia.
  - apply not_elem_of_cons in Ha as [Hne Ha]. zfalse (x =? c). rewrite IH by done. zlia.
Qed.

Lemma find_char_out a c i : c ∉ a -> find_char a i c = i + zlen a.
Proof.
  revert i. induction a as [|x a IH]; intros i Ha; cbn [find_char]; [change (zlen []) with 0; lia|].
  apply not_elem_of_cons in Ha as [Hne Ha]. zfalse (x =? c). rewrite IH by done. zlia.
Qed.

Lemma drop_after (a : list Z) c x : drop (Z.to_nat (zlen a + 1)) (a ++ c :: x) = x.
Proof. replace (Z.to_nat (zlen a + 1)) with (S (length a)) by (unfold zlen; lia). by rewrite cons_middle, app_assoc, drop_app_length' by (rewrite length_app; cbn; lia). Qed.

Lemma hashed_part_exists key : exists part, hashed_part key part.
Proof.
  destruct (decide (123 ∈ key)) as [(a & r & -> & Ha)%list_elem_of_split_l|]; [|eexists; by apply hashed_no_open].
  destruct (decide (125 ∈ r)) as [(t & b & -> & Ht)%list_elem_of_split_l|]; [|eexists; by apply hashed_no_close].
  destruct t as [|t0 t]; [eexists; by apply hashed_empty|eexists; by apply (hashed_tag a (t0 :: t) b)].
Qed.

(** C36: The slot of a key is the CRC-16 of its hash tag, or of the whole key when it
    has none, modulo the number of slots; so keys with the same tag share a slot. *)
Theorem keyHashSlot_correct key : Forall is_byte key ->
  (exists part, hashed_part key part) /\ forall part, hashed_part key part -> keyHashSlot key = Ok (crc16_of part mod 16384).
Proof.
  intros Hk. split; [apply hashed_part_exists|]. intros part Hp. assert (forall s, Forall is_byte s -> (h ← crc16 s; Ok (Z.land h 16383)) = Ok (crc16_of s mod 16384)) as Hslot.
  { intros s Hs. rewrite crc16_ok, bind_Ok by done. change 16383 with (Z.ones 14). by rewrite Z.land_ones by lia. }
  unfold keyHashSlot. cbv zeta. destruct Hp as [a t b Ha Ht Hne|key Hno|a t Ha Ht|a b Ha].
  - cbn [app]. rewrite find_char_in by done. rewrite Z.add_0_l. zfalse (zlen a =? zlen (a ++ 123 :: t ++ 125 :: b)).
    rewrite drop_after.
    rewrite find_char_in by done. zfalse (zlen a + 1 + zlen t =? zlen (a ++ 123 :: t ++ 125 :: b)). destruct t as [|t0 t]; [done|]. cbn [orb].
    zfalse (zlen a + 1 + zlen (t0 :: t) =? zlen a + 1). change (a ++ 123 :: (t0 :: t) ++ 125 :: b) with (a ++ [123] ++ (t0 :: t) ++ 125 :: b) in *.
    rewrite app_assoc, (rd_app (a ++ [123])) by zlia. rewrite bind_Ok. apply Hslot. rewrite !Forall_app in Hk. naive_solver.
  - rewrite find_char_out by done. ztrue (0 + zlen key =? zlen key). by apply Hslot.
  - cbn [app]. rewrite find_char_in by done. rewrite Z.add_0_l. zfalse (zlen a =? zlen (a ++ 123 :: t)).
    rewrite drop_after.
    rewrite find_char_out by done. ztrue (zlen a + 1 + zlen t =? zlen (a ++ 123 :: t)). by apply Hslot.
  - cbn [app]. rewrite find_char_in by done. rewrite Z.add_0_l. zfalse (zlen a =? zlen (a ++ 123 :: 125 :: b)).
    rewrite drop_after.
    cbn [find_char]. rewrite !Z.eqb_refl, orb_true_r. by apply Hslot.
Qed.

(** * Examples *)

Definition check_string : list Z := [49; 50; 51; 52; 53; 54; 55; 56; 57].

Lemma crc64_correct_witness : crc64 (H := big_host) 0 5 check_string = Ok (_crc64 0 check_string) /\ _crc64 0 check_string = 0xe9c6d914c4b8d9ca.
Proof.
  split; [|by vm_compute]. destruct (crc64_correct (H := big_host) 0 5 check_string) as [E _]; [done|by repeat constructor|exact E].
Defined.

Lemma crc64_detects_witness : crc64 (H := little_host) 0 0 (check_string ++ [1; 2] ++ check_string) <> crc64 (H := little_host) 0 8 (check_string ++ [2; 1] ++ check_string).
Proof. apply (crc64_detects (H := little_host)); try done; by repeat constructor. Defined.

Lemma keyHashSlot_correct_witness : keyHashSlot ([97] ++ [123] ++ [98] ++ [125] ++ [99]) = keyHashSlot [98].
Proof.
  destruct (keyHashSlot_correct ([97] ++ [123] ++ [98] ++ [125] ++ [99])) as [_ E1]; [by repeat constructor|]. destruct (keyHashSlot_correct [98]) as [_ E2]; [by repeat constructor|].
  rewrite (E1 [98]), (E2 [98]); [done| |].
  - apply hashed_no_open. by apply (bool_decide_unpack _); vm_compute.
  - apply hashed_tag; [by apply (bool_decide_unpack _); vm_compute..|done].
Defined.
