(* ===== verification/Rio.v ===== *)
(** The stream abstraction of persistence ([rio.h], [rio.c]): reads and writes in
    chunks, sticky errors and a running checksum over any device, and the in-memory
    buffer as one device.

    [Stream] is what a device promises: a complete read or write, or a failure.  On
    the buffer, reading gives back what was written, and neither the data nor the
    checksum depends on the size of the chunks. *)
From S2P Require Import Prelude Endian Crc.

(** * Definitions *)

(** The backend functions, [None] for their 0 on error; and where in memory a block
    of data is when it is passed around. *)
Class Stream := {
  io : Type;
  io_read : io -> Z -> res (option (io * list Z));
  io_write : io -> list Z -> res (option io);
  address_of : list Z -> Z;
}.

(** [update_cksum] is set when the checksum is computed.  The flags are the two error
    bits. *)
Record rio `{Stream} := Rio {
  rio_io : io;
  update_cksum : bool;
  cksum : Z;
  read_error : bool;
  write_error : bool;
  processed_bytes : Z;
  max_processing_chunk : Z;
}.

Section Rio.
Context `{Host} `{Stream}.

Definition rioGenericUpdateChecksum (r : rio) (buf : list Z) : res rio :=
  c ← crc64 (cksum r) (address_of buf) buf;
  Ok (Rio _ (rio_io r) (update_cksum r) c (read_error r) (write_error r) (processed_bytes r) (max_processing_chunk r)).

Definition update (r : rio) (buf : list Z) : res rio := if update_cksum r then rioGenericUpdateChecksum r buf else Ok r.

Definition moved (r : rio) (d : io) (n : Z) : rio :=
  Rio _ d (update_cksum r) (cksum r) (read_error r) (write_error r) (wrapU 64 (processed_bytes r + n)) (max_processing_chunk r).

Definition write_failed (r : rio) : rio :=
  Rio _ (rio_io r) (update_cksum r) (cksum r) (read_error r) true (processed_bytes r) (max_processing_chunk r).

Definition read_failed (r : rio) : rio :=
  Rio _ (rio_io r) (update_cksum r) (cksum r) true (write_error r) (processed_bytes r) (max_processing_chunk r).

(** The size of the next chunk when [len] bytes are left. *)
Definition chunk (r : rio) (len : Z) : Z :=
  if negb (max_processing_chunk r =? 0) && (max_processing_chunk r <? len) then max_processing_chunk r else len.

Fixpoint write_loop (fuel : nat) (r : rio) (buf : list Z) : res (rio * bool) :=
  match fuel with
  | O => OutOfFuel
  | S fuel =>
      if zlen buf =? 0 then Ok (r, true)
      else
        let n := chunk r (zlen buf) in
        let part := take (Z.to_nat n) buf in
        r ← update r part;
        d ← io_write (rio_io r) part;
        match d with
        | None => Ok (write_failed r, false)
        | Some d => write_loop fuel (moved r d n) (drop (Z.to_nat n) buf)
        end
  end.

Definition rioWrite (buf : list Z) (r : rio) : res (rio * bool) :=
  if write_error r then Ok (r, false) else write_loop (S (length buf)) r buf.

(** The bytes read so far are [acc]. *)
Fixpoint read_loop (fuel : nat) (r : rio) (len : Z) (acc : list Z) : res (rio * option (list Z)) :=
  match fuel with
  | O => OutOfFuel
  | S fuel =>
      if len =? 0 then Ok (r, Some acc)
      else
        let n := chunk r len in
        x ← io_read (rio_io r) n;
        match x with
        | None => Ok (read_failed r, None)
        | Some (d, part) =>
            let r := Rio _ d (update_cksum r) (cksum r) (read_error r) (write_error r) (processed_bytes r) (max_processing_chunk r) in
            r ← update r part;
            read_loop fuel (moved r (rio_io r) n) (len - n) (acc ++ part)
        end
  end.

(** The bytes, or [None] for 0. *)
Definition rioRead (len : Z) (r : rio) : res (rio * option (list Z)) :=
  if read_error r then Ok (r, None) else read_loop (S (Z.to_nat len)) r len [].

Definition rioGetReadError (r : rio) : bool := read_error r.

End Rio.

(** ** Buffers *)

(** [ptr] and [pos] *)
Definition rioBufferWrite (b : list Z * Z) (buf : list Z) : res (option (list Z * Z)) := Ok (Some (b.1 ++ buf, b.2 + zlen buf)).

Definition rioBufferRead (b : list Z * Z) (len : Z) : res (option (list Z * Z * list Z)) :=
  if wrapU 64 (zlen b.1 - b.2) <? len then Ok None
  else
    bytes ← rd b.1 b.2 len;
    Ok (Some ((b.1, b.2 + len), bytes)).

Definition buffer_stream (place : list Z -> Z) : Stream := {|
  io := list Z * Z;
  io_read := rioBufferRead;
  io_write := rioBufferWrite;
  address_of := place;
|}.

Definition rioInitWithBuffer (place : list Z -> Z) (s : list Z) : rio (H := buffer_stream place) :=
  Rio (buffer_stream place) (s, 0) false 0 false false 0 0.

(** * What devices promise *)

(** The bytes [stored] so far and those still [coming].  A read delivers what it is
    asked for exactly when that much is coming; a write may fail when the device [can_fail]. *)
Class StreamLaws `{Stream} := {
  io_wf : io -> Prop;
  can_fail : Prop;
  stored : io -> list Z;
  coming : io -> list Z;
  coming_bytes : forall d, io_wf d -> Forall is_byte (coming d);
  io_write_ok : forall d bs, io_wf d -> Forall is_byte bs ->
    exists r, io_write d bs = Ok r /\ match r with Some d' => io_wf d' /\ stored d' = stored d ++ bs | None => can_fail end;
  io_read_ok : forall d a b, io_wf d -> coming d = a ++ b -> zlen (coming d) < 2 ^ 64 ->
    exists d', io_read d (zlen a) = Ok (Some (d', a)) /\ io_wf d' /\ coming d' = b;
  io_read_short : forall d n, io_wf d -> zlen (coming d) < n -> zlen (coming d) < 2 ^ 64 -> io_read d n = Ok None;
}.

Section Laws.
Context `{Host} `{StreamLaws}.

(** A stream that is in order. *)
Record rio_ok (r : rio) : Prop := {
  ok_io : io_wf (rio_io r);
  ok_cksum : word (cksum r);
  ok_processed : 0 <= processed_bytes r < 2 ^ 64;
  ok_chunk : 0 <= max_processing_chunk r;
}.

(** [r'] is [r] after the bytes [bs] have passed. *)
Record passed (r : rio) (bs : list Z) (r' : rio) : Prop := {
  passed_ok : rio_ok r';
  passed_update : update_cksum r' = update_cksum r;
  passed_chunk : max_processing_chunk r' = max_processing_chunk r;
  passed_cksum : cksum r' = (if update_cksum r then crc_of (cksum r) bs else cksum r);
  passed_count : processed_bytes r' = wrapU 64 (processed_bytes r + zlen bs);
}.

(** The bytes have been written. *)
Definition written (r : rio) (bs : list Z) (r' : rio) : Prop :=
  passed r bs r' /\ write_error r' = false /\ read_error r' = read_error r /\ stored (rio_io r') = stored (rio_io r) ++ bs.

(** [bs] is coming, and more. *)
Definition offers (r : rio) (bs rest : list Z) : Prop :=
  rio_ok r /\ read_error r = false /\ coming (rio_io r) = bs ++ rest /\ zlen (bs ++ rest) < 2 ^ 64.

(** [bs] has been read, and [rest] is still coming. *)
Definition consumed (r : rio) (bs rest : list Z) (r' : rio) : Prop :=
  passed r bs r' /\ read_error r' = false /\ write_error r' = write_error r /\ coming (rio_io r') = rest /\ zlen rest < 2 ^ 64.

Lemma passed_nil r : rio_ok r -> passed r [] r.
Proof.
  intros Hr. pose proof Hr as [_ _ Hp _]. split; [done..| |]; [by destruct (update_cksum r)|].
  rewrite zlen_nil, Z.add_0_r. by rewrite wrapU_small.
Qed.

Lemma passed_app r a r1 b r2 : passed r a r1 -> passed r1 b r2 -> passed r (a ++ b) r2.
Proof.
  intros [_ Eu Ec Es Ep] [Hok Eu' Ec' Es' Ep']. split; [done|congruence..| |].
  - rewrite Es', Eu, Es. destruct (update_cksum r); [by rewrite crc_of_app|done].
  - rewrite Ep', Ep, zlen_app, Z.add_assoc. unfold wrapU. by rewrite Zplus_mod_idemp_l.
Qed.

Lemma written_app r a r1 b r2 : written r a r1 -> written r1 b r2 -> written r (a ++ b) r2.
Proof.
  intros (Hp & Hw & Hr & Hs) (Hp' & Hw' & Hr' & Hs'). split; [by eapply passed_app|]. split; [done|]. split; [congruence|]. by rewrite Hs', Hs, app_assoc.
Qed.

Lemma consumed_app r a r1 b rest r2 : consumed r a (b ++ rest) r1 -> consumed r1 b rest r2 -> consumed r (a ++ b) rest r2.
Proof.
  intros (Hp & Hr & Hw & Hc & Hl) (Hp' & Hr' & Hw' & Hc' & Hl'). split; [by eapply passed_app|]. split_and!; [done|congruence|done..].
Qed.

Lemma consumed_offers r a b rest r1 : consumed r a (b ++ rest) r1 -> offers r1 b rest.
Proof. intros (Hp & Hr & Hw & Hc & Hl). split; [apply Hp|]. by split_and!. Qed.

Lemma offers_app r a b rest : offers r (a ++ b) rest <-> offers r a (b ++ rest).
Proof. unfold offers. by rewrite app_assoc. Qed.

(** ** Writing *)

Lemma chunk_range r len : rio_ok r -> 0 < len -> 0 < chunk r len <= len.
Proof.
  intros [_ _ _ Hc] Hl. unfold chunk. destruct (Z.eqb_spec (max_processing_chunk r) 0), (Z.ltb_spec (max_processing_chunk r) len); cbn; lia.
Qed.

Lemma update_cksum_ok r bs : rio_ok r -> Forall is_byte bs ->
  update r bs = Ok (Rio _ (rio_io r) (update_cksum r) (if update_cksum r then crc_of (cksum r) bs else cksum r) (read_error r) (write_error r) (processed_bytes r) (max_processing_chunk r)).
Proof.
  intros Hr Hb. unfold update, rioGenericUpdateChecksum. destruct r as [d [] ck re we p c]; cbn in *; [|done]. rewrite crc64_ok; [done|apply Hr|done].
Qed.

Lemma passed_moved r d bs n :
  rio_ok r -> io_wf d -> Forall is_byte bs -> n = zlen bs ->
  passed r bs (moved (Rio _ d (update_cksum r) (if update_cksum r then crc_of (cksum r) bs else cksum r) (read_error r) (write_error r) (processed_bytes r) (max_processing_chunk r)) d n).
Proof.
  intros [Hd Hk Hp Hc] Hd' Hb ->. split; [|done..]. split; cbn; [done| |apply wrapU_range; lia|done]. destruct (update_cksum r); [by apply crc_of_is_word|done].
Qed.

Lemma write_loop_ok fuel r buf :
  rio_ok r -> write_error r = false -> Forall is_byte buf -> (length buf < fuel)%nat ->
  exists r' b, write_loop fuel r buf = Ok (r', b) /\ if (b : bool) then written r buf r' else write_error r' = true /\ can_fail.
Proof.
  revert r buf. induction fuel as [|fuel IH]; intros r buf Hr He Hb Hf; [lia|]. cbn [write_loop]. pose proof (zlen_nonneg buf).
  destruct (Z.eqb_spec (zlen buf) 0) as [El|Hne].
  { destruct buf; [|zlia]. exists r, true. split; [done|]. split_and!; [by apply passed_nil|done..|by rewrite app_nil_r]. }
  destruct (chunk_range r (zlen buf)) as [Hn Hn']; [done|lia|]. cbv zeta. generalize dependent (chunk r (zlen buf)). intros n Hn Hn'.
  destruct (cut_at buf n) as (x & y & -> & <- & Hy); [lia|]. rewrite take_zlen_app, drop_zlen_app. apply Forall_app in Hb as [Hx Hyb].
  rewrite update_cksum_ok, bind_Ok by done. cbn [rio_io]. destruct (io_write_ok (rio_io r) x (ok_io r Hr) Hx) as (w & -> & Hw). rewrite bind_Ok.
  destruct w as [d|]; [|eexists _, false; done]. destruct Hw as [Hd Hs]. pose proof (passed_moved r d x (zlen x) Hr Hd Hx eq_refl) as Hp.
  match type of Hp with passed _ _ ?r1 => destruct (IH r1 y (passed_ok _ _ _ Hp) He Hyb) as (r2 & b & E & Hres) end; [rewrite length_app in Hf; unfold zlen in *; lia|].
  exists r2, b. split; [exact E|]. destruct b; [|done]. eapply written_app; [|exact Hres]. by split.
Qed.

Lemma rioWrite_ok r buf : rio_ok r -> write_error r = false -> Forall is_byte buf ->
  exists r' b, rioWrite buf r = Ok (r', b) /\ if (b : bool) then written r buf r' else write_error r' = true /\ can_fail.
Proof. intros Hr He Hb. unfold rioWrite. rewrite He. apply write_loop_ok; [done..|lia]. Qed.

(** ** Reading *)

Lemma read_loop_ok fuel r bs rest acc :
  offers r bs rest -> (length bs < fuel)%nat ->
  exists r', read_loop fuel r (zlen bs) acc = Ok (r', Some (acc ++ bs)) /\ consumed r bs rest r'.
Proof.
  revert r bs acc. induction fuel as [|fuel IH]; intros r bs acc Ho Hf; [lia|]. cbn [read_loop]. pose proof (zlen_nonneg bs).
  pose proof Ho as (Hr & He & Hc & Hl). destruct (Z.eqb_spec (zlen bs) 0) as [El|Hne].
  { destruct bs; [|zlia]. exists r. rewrite app_nil_r. split; [done|]. split_and!; [by apply passed_nil|done..]. }
  destruct (chunk_range r (zlen bs)) as [Hn Hn']; [done|lia|]. cbv zeta. generalize dependent (chunk r (zlen bs)). intros n Hn Hn'.
  destruct (cut_at bs n) as (x & y & -> & <- & Hy); [lia|]. rewrite <- app_assoc in Hc, Hl.
  destruct (io_read_ok (rio_io r) x (y ++ rest) (ok_io r Hr) Hc) as (d & -> & Hd & Hcd); [by rewrite Hc|]. rewrite bind_Ok.
  assert (Forall is_byte x) as Hx. { pose proof (coming_bytes _ (ok_io r Hr)) as Hb. rewrite Hc in Hb. by apply Forall_app in Hb as [? _]. }
  pose proof (passed_moved r d x (zlen x) Hr Hd Hx eq_refl) as Hp. rewrite update_cksum_ok, bind_Ok; [|destruct Hr; by split|done]. cbn [update_cksum cksum read_error write_error processed_bytes max_processing_chunk rio_io].
  replace (zlen (x ++ y) - zlen x) with (zlen y) by (rewrite zlen_app; lia).
  assert (zlen (y ++ rest) < 2 ^ 64) by (rewrite zlen_app in Hl; lia).
  match type of Hp with passed _ _ ?r1 => destruct (IH r1 y (acc ++ x)) as (r2 & E & Hres) end; [split; [apply Hp|]; by split_and!|rewrite length_app in Hf; unfold zlen in *; lia|].
  exists r2. rewrite app_assoc. split; [exact E|]. eapply consumed_app; [|exact Hres]. by split_and!.
Qed.

Lemma rioRead_ok r n bs rest : n = zlen bs -> offers r bs rest -> exists r', rioRead n r = Ok (r', Some bs) /\ consumed r bs rest r'.
Proof.
  intros -> Ho. unfold rioRead. pose proof Ho as (_ & -> & _). apply read_loop_ok; [done|]. rewrite zlen_to_nat. lia.
Qed.

(** A stream in any state that can be read from, and what is left of it. *)
Definition readable (r : rio) : Prop := rio_ok r /\ zlen (coming (rio_io r)) < 2 ^ 64.

Definition follows (r r' : rio) : Prop := readable r' /\ exists a, coming (rio_io r) = a ++ coming (rio_io r').

Lemma read_loop_short fuel r n acc :
  readable r -> zlen (coming (rio_io r)) < n -> (Z.to_nat n < fuel)%nat ->
  exists r', read_loop fuel r n acc = Ok (r', None) /\ follows r r' /\ read_error r' = true.
Proof.
  revert r n acc. induction fuel as [|fuel IH]; intros r n acc [Hr Hl] Hs Hf; [lia|]. cbn [read_loop]. pose proof (zlen_nonneg (coming (rio_io r))).
  zfalse (n =? 0). destruct (chunk_range r n) as [Hn Hn']; [done|lia|]. cbv zeta. generalize dependent (chunk r n). intros m Hm Hm'.
  destruct (Z.lt_ge_cases (zlen (coming (rio_io r))) m) as [Hlt|Hge].
  { rewrite io_read_short, bind_Ok; [|apply Hr|lia..]. eexists. split; [done|]. split; [|done]. split; [by destruct Hr|by exists []]. }
  destruct (cut_at (coming (rio_io r)) m) as (x & y & Hc & <- & Hy); [lia|].
  destruct (io_read_ok (rio_io r) x y (ok_io r Hr) Hc) as (d & -> & Hd & Hcd); [done|]. rewrite bind_Ok.
  assert (Forall is_byte x) as Hx. { pose proof (coming_bytes _ (ok_io r Hr)) as Hb. rewrite Hc in Hb. by apply Forall_app in Hb as [? _]. }
  pose proof (passed_moved r d x (zlen x) Hr Hd Hx eq_refl) as Hp. rewrite update_cksum_ok, bind_Ok; [|destruct Hr; by split|done]. cbn [update_cksum cksum read_error write_error processed_bytes max_processing_chunk rio_io].
  match type of Hp with passed _ _ ?r1 => destruct (IH r1 (n - zlen x) (acc ++ x)) as (r' & E & [Hr' [a Ha]] & He) end; [split; [apply Hp|]| |lia|]; cbn [moved rio_io] in *; rewrite ?Hcd in *; [lia..|].
  exists r'. split; [exact E|]. split; [|done]. split; [done|]. exists (x ++ a). by rewrite Hc, Ha, app_assoc.
Qed.

(** A read of any size delivers the bytes, or sets the error flag. *)
Lemma rioRead_total r n : readable r -> 0 <= n -> exists r' x, rioRead n r = Ok (r', x) /\ follows r r' /\
  match x with
  | Some bs => zlen bs = n /\ coming (rio_io r) = bs ++ coming (rio_io r') /\ Forall is_byte bs
  | None => read_error r' = true
  end.
Proof.
  intros [Hr Hl] Hn. destruct (read_error r) eqn:Ee. { exists r, None. unfold rioRead. rewrite Ee. split; [done|]. split; [|done]. by split; [|exists []]. }
  destruct (Z.lt_ge_cases (zlen (coming (rio_io r))) n) as [Hlt|Hge].
  - destruct (read_loop_short (S (Z.to_nat n)) r n []) as (r' & E & Hf & He); [done..|lia|]. exists r', None. unfold rioRead. by rewrite Ee.
  - destruct (cut_at (coming (rio_io r)) n) as (x & y & Hc & <- & _); [lia|].
    assert (offers r x y) as Ho by (split_and!; [done..|by rewrite <- Hc]).
    destruct (rioRead_ok r (zlen x) x y eq_refl Ho) as (r' & E & Hp & _ & _ & Hcr & Hlr). exists r', (Some x). split; [done|].
    assert (coming (rio_io r) = x ++ coming (rio_io r')) as Hcc by (by rewrite Hcr). split; [split; [|by exists x]; split; [apply Hp|by rewrite Hcr]|].
    split; [done|]. split; [done|]. pose proof (coming_bytes _ (ok_io r Hr)) as Hb. rewrite Hc in Hb. by apply Forall_app in Hb as [? _].
Qed.

Lemma consumed_readable r bs rest r' : consumed r bs rest r' -> readable r'.
Proof. intros (Hp & _ & _ & Hc & Hl). split; [apply Hp|]. by rewrite Hc. Qed.

Lemma offers_bytes r bs rest : offers r bs rest -> Forall is_byte bs.
Proof. intros (Hr & _ & Hc & _). pose proof (coming_bytes _ (ok_io r Hr)) as Hb. rewrite Hc in Hb. by apply Forall_app in Hb as [? _]. Qed.

End Laws.

(** ** The buffer is such a device *)

#[export] Program Instance buffer_laws (place : list Z -> Z) : StreamLaws (H := buffer_stream place) := {|
  io_wf := fun b : list Z * Z => 0 <= b.2 <= zlen b.1 /\ Forall is_byte b.1;
  can_fail := False;
  stored := fun b : list Z * Z => b.1;
  coming := fun b : list Z * Z => drop (Z.to_nat b.2) b.1;
|}.
Next Obligation. intros place [s p] [_ Hb]. by apply Forall_drop. Qed.
Next Obligation.
  intros place [s p] bs [Hp Hb] Hbs. cbn in *. eexists. split; [done|]. cbn. split; [|done]. pose proof (zlen_nonneg bs). rewrite zlen_app, Forall_app. split; [lia|done].
Qed.
Next Obligation.
  intros place [s p] a b [Hp Hb] Hc Hl. cbn in *. rewrite zlen_drop in Hl by lia. pose proof (zlen_nonneg a). pose proof (zlen_nonneg b).
  assert (zlen a + zlen b = zlen s - p) as Hlen by (rewrite <- zlen_app, <- Hc, zlen_drop; lia). unfold rioBufferRead. cbn [fst snd]. rewrite wrapU_small by lia.
  zfalse (zlen s - p <? zlen a). destruct (cut_at s p) as (x & y & -> & <- & Hy); [lia|]. rewrite drop_zlen_app in Hc. subst y. rewrite (rd_app x a b) by done. rewrite bind_Ok.
  eexists. split; [done|]. cbn. split; [split; [rewrite !zlen_app; lia|done]|]. by rewrite app_assoc, <- zlen_app, drop_zlen_app.
Qed.
Next Obligation.
  intros place [s p] n [Hp Hb] Hn Hl. cbn in *. rewrite zlen_drop in Hn, Hl by lia. unfold rioBufferRead. cbn [fst snd]. rewrite wrapU_small by lia. by ztrue (zlen s - p <? n).
Qed.

Lemma word_0 : word 0.
Proof. split; lia. Qed.

Lemma init_ok place s : Forall is_byte s -> rio_ok (H1 := buffer_laws place) (rioInitWithBuffer place s).
Proof. intros Hs. pose proof (zlen_nonneg s). split; [split; [cbn; lia|done]|apply word_0|cbn; lia|cbn; lia]. Qed.
