(* ===== verification/Rdb.v ===== *)
(** The encoding of values on a stream ([rdb.c], [rdb.h]): types, times, lengths,
    integers, and strings, which are saved as integers, compressed or verbatim.

    What is saved on one host is loaded on any other, whatever its byte order, from
    any device that keeps the promises of [Stream]; and arbitrary bytes can be loaded
    without harm, except for a length that makes the allocation overflow. *)
From S2P Require Import Prelude Endian Util Sds Object Lzf Crc Rio.
From stdpp Require Import list strings.

Open Scope Z_scope.

(** * Definitions *)

Definition RDB_VERSION : Z := 10.
Definition RDB_6BITLEN : Z := 0.
Definition RDB_14BITLEN : Z := 1.
Definition RDB_32BITLEN : Z := 0x80.
Definition RDB_64BITLEN : Z := 0x81.
Definition RDB_ENCVAL : Z := 3.
Definition RDB_LENERR : Z := UINT64_MAX.
Definition RDB_ENC_INT8 : Z := 0.
Definition RDB_ENC_INT16 : Z := 1.
Definition RDB_ENC_INT32 : Z := 2.
Definition RDB_ENC_LZF : Z := 3.
Definition RDB_LOAD_NONE : Z := 0.
Definition RDB_LOAD_ENC : Z := Z.shiftl 1 0.
Definition RDB_LOAD_PLAIN : Z := Z.shiftl 1 1.
Definition RDB_LOAD_SDS : Z := Z.shiftl 1 2.

(** The settings of the server, what it is loading, and what the hash table of the
    compressor holds. *)
Record rdb_env := RdbEnv {
  rdb_compression : bool;
  isRestoreContext : bool;
  rdbCheckMode : bool;
  rdbFileBeingLoaded : bool;
  stale_htab : LZF_STATE;
}.

(** What is loaded, by the flags: a plain string, a dynamic string or an object. *)
Inductive loaded :=
| LPlain (s : list Z)
| LSds (s : list Z)
| LObj (o : robj).

(** A function on a stream. *)
Definition rdbm `{Stream} (A : Type) : Type := rio -> res (rio * A).

#[export] Instance rdbm_ret `{Stream} : MRet rdbm := fun A a r => Ok (r, a).

#[export] Instance rdbm_bind `{Stream} : MBind rdbm := fun A B k m r =>
  match m r with
  | Ok (r, a) => k a r
  | Panic => Panic
  | Fault => Fault
  | OutOfFuel => OutOfFuel
  end.

Definition calc `{Stream} {A} (m : res A) : rdbm A := fun r => a ← m; Ok (r, a).

Section Rdb.
Context `{Host} `{Allocator} `{Stream} (cfg : config) (env : rdb_env).

(** The process exits, unless a client can be told of the error or a connection is
    to blame. *)
Definition rdbReportError (corruption_error : bool) : rdbm unit :=
  if isRestoreContext env then mret tt
  else if rdbCheckMode env then calc Panic
  else if rdbFileBeingLoaded env then calc Panic
  else if corruption_error then calc Panic
  else mret tt.

Definition rdbReportCorruptRDB : rdbm unit := rdbReportError true.

Definition rdbWriteRaw (p : list Z) : rdbm Z :=
  ok ← rioWrite p;
  if negb ok then mret (-1) else mret (zlen p).

Definition rdbSaveType (type : Z) : rdbm Z := rdbWriteRaw [wrapU 8 type].

(** [rioRead(rdb, &buf, len)] *)
Definition rdb_read (len : Z) : rdbm (option (list Z)) := rioRead len.

Definition rdbLoadType : rdbm Z :=
  b ← rdb_read 1;
  match b with
  | None => mret (-1)
  | Some b => calc (rd1 b 0)
  end.

Definition rdbLoadTime : rdbm Z :=
  b ← rdb_read 4;
  match b with
  | None => mret (-1)
  | Some b => mret (wrapS 32 (host_val b))
  end.

Definition rdbSaveMillisecondTime (t : Z) : rdbm Z :=
  t64 ← calc (memrev64ifbe (host_bytes 8 (wrapU 64 t)));
  rdbWriteRaw t64.

Definition rdbLoadMillisecondTime (rdbver : Z) : rdbm Z :=
  t64 ← rdb_read 8;
  match t64 with
  | None => mret INT64_MAX
  | Some t64 =>
      t64 ← (if rdbver >=? 9 then calc (memrev64ifbe t64) else mret t64);
      mret (wrapS 64 (host_val t64))
  end.

(** ** Lengths *)

Definition htonl (v : Z) : res Z := if big_endian then Ok v else intrev32 v.
Definition ntohl (v : Z) : res Z := if big_endian then Ok v else intrev32 v.

Definition rdbSaveLen (len : Z) : rdbm Z :=
  if len <? Z.shiftl 1 6 then
    n ← rdbWriteRaw [wrapU 8 (Z.lor (Z.land len 0xFF) (Z.shiftl RDB_6BITLEN 6))];
    if n =? -1 then mret (-1) else mret 1
  else if len <? Z.shiftl 1 14 then
    n ← rdbWriteRaw [wrapU 8 (Z.lor (Z.land (Z.shiftr len 8) 0xFF) (Z.shiftl RDB_14BITLEN 6)); Z.land len 0xFF];
    if n =? -1 then mret (-1) else mret 2
  else if len <=? UINT32_MAX then
    n ← rdbWriteRaw [RDB_32BITLEN];
    if n =? -1 then mret (-1)
    else
      len32 ← calc (htonl len);
      n ← rdbWriteRaw (host_bytes 4 len32);
      if n =? -1 then mret (-1) else mret (1 + 4)
  else
    n ← rdbWriteRaw [RDB_64BITLEN];
    if n =? -1 then mret (-1)
    else
      len ← calc (htonu64 len);
      n ← rdbWriteRaw (host_bytes 8 len);
      if n =? -1 then mret (-1) else mret (1 + 8).

(** [isencoded] and the length; [None] for -1. *)
Definition rdbLoadLenByRef : rdbm (option (bool * Z)) :=
  buf ← rdb_read 1;
  match buf with
  | None => mret None
  | Some buf =>
      b0 ← calc (rd1 buf 0);
      let type := Z.shiftr (Z.land b0 0xC0) 6 in
      if type =? RDB_ENCVAL then mret (Some (true, Z.land b0 0x3F))
      else if type =? RDB_6BITLEN then mret (Some (false, Z.land b0 0x3F))
      else if type =? RDB_14BITLEN then
        buf ← rdb_read 1;
        match buf with
        | None => mret None
        | Some buf =>
            b1 ← calc (rd1 buf 0);
            mret (Some (false, Z.lor (Z.shiftl (Z.land b0 0x3F) 8) b1))
        end
      else if b0 =? RDB_32BITLEN then
        buf ← rdb_read 4;
        match buf with
        | None => mret None
        | Some buf => len ← calc (ntohl (host_val buf)); mret (Some (false, len))
        end
      else if b0 =? RDB_64BITLEN then
        buf ← rdb_read 8;
        match buf with
        | None => mret None
        | Some buf => len ← calc (ntohu64 (host_val buf)); mret (Some (false, len))
        end
      else rdbReportCorruptRDB;; mret None
  end.

Definition rdbLoadLen : rdbm (bool * Z) :=
  r ← rdbLoadLenByRef;
  mret (default (false, RDB_LENERR) r).

(** ** Integers *)

(** The bytes stored in [enc]; none for 0. *)
Definition rdbEncodeInteger (value : Z) : list Z :=
  if (value >=? - Z.shiftl 1 7) && (value <=? Z.shiftl 1 7 - 1) then
    [Z.lor (Z.shiftl RDB_ENCVAL 6) RDB_ENC_INT8; Z.land value 0xFF]
  else if (value >=? - Z.shiftl 1 15) && (value <=? Z.shiftl 1 15 - 1) then
    [Z.lor (Z.shiftl RDB_ENCVAL 6) RDB_ENC_INT16; Z.land value 0xFF; Z.land (Z.shiftr value 8) 0xFF]
  else if (value >=? - Z.shiftl 1 31) && (value <=? Z.shiftl 1 31 - 1) then
    [Z.lor (Z.shiftl RDB_ENCVAL 6) RDB_ENC_INT32; Z.land value 0xFF; Z.land (Z.shiftr value 8) 0xFF;
     Z.land (Z.shiftr value 16) 0xFF; Z.land (Z.shiftr value 24) 0xFF]
  else [].

(** The integer that follows, by its type. *)
Definition load_integer (enctype : Z) : rdbm (option Z) :=
  if enctype =? RDB_ENC_INT8 then
    enc ← rdb_read 1;
    match enc with
    | None => mret None
    | Some enc => e0 ← calc (rd1 enc 0); mret (Some (wrapS 8 e0))
    end
  else if enctype =? RDB_ENC_INT16 then
    enc ← rdb_read 2;
    match enc with
    | None => mret None
    | Some enc =>
        e0 ← calc (rd1 enc 0);
        e1 ← calc (rd1 enc 1);
        mret (Some (wrapS 16 (Z.lor e0 (Z.shiftl e1 8))))
    end
  else if enctype =? RDB_ENC_INT32 then
    enc ← rdb_read 4;
    match enc with
    | None => mret None
    | Some enc =>
        e0 ← calc (rd1 enc 0);
        e1 ← calc (rd1 enc 1);
        e2 ← calc (rd1 enc 2);
        e3 ← calc (rd1 enc 3);
        mret (Some (wrapS 32 (Z.lor (Z.lor (Z.lor e0 (Z.shiftl e1 8)) (Z.shiftl e2 16)) (Z.shiftl e3 24))))
    end
  else rdbReportCorruptRDB;; mret None.

(** The bytes of [sdsfromlonglong]. *)
Definition sds_ll_text (value : Z) : res (list Z) :=
  '(buf, len) ← sdsll2str (fresh_bytes SDS_LLSTR_SIZE) value;
  rd buf 0 len.

(** [None] is [NULL]. *)
Definition rdbLoadIntegerObject (enctype flags : Z) : rdbm (option loaded) :=
  let plain := negb (Z.land flags RDB_LOAD_PLAIN =? 0) in
  let sds := negb (Z.land flags RDB_LOAD_SDS =? 0) in
  let encode := negb (Z.land flags RDB_LOAD_ENC =? 0) in
  val ← load_integer enctype;
  match val with
  | None => mret None
  | Some val =>
      if plain || sds then
        p ← calc (ll_text LONG_STR_SIZE val);
        mret (Some (if plain then LPlain p else LSds p))
      else if encode then
        o ← calc (createStringObjectFromLongLongForValue cfg val);
        mret (Some (LObj o))
      else
        s ← calc (sds_ll_text val);
        mret (Some (LObj (createRawStringObject s)))
  end.

Definition rdbTryIntegerEncoding (s : list Z) : res (list Z) :=
  value ← string2ll s (zlen s);
  match value with
  | Some value => Ok (rdbEncodeInteger value)
  | None => Ok []
  end.

(** ** Compressed strings *)

(** [data] holds the [compress_len] bytes to save; the sum of what is written, or -1. *)
Definition rdbSaveLzfBlob (data : list Z) (compress_len original_len : Z) : rdbm Z :=
  n ← rdbWriteRaw [Z.lor (Z.shiftl RDB_ENCVAL 6) RDB_ENC_LZF];
  if n =? -1 then mret (-1)
  else
    let nwritten := n in
    n ← rdbSaveLen compress_len;
    if n =? -1 then mret (-1)
    else
      let nwritten := nwritten + n in
      n ← rdbSaveLen original_len;
      if n =? -1 then mret (-1)
      else
        let nwritten := nwritten + n in
        data ← calc (rd data 0 compress_len);
        n ← rdbWriteRaw data;
        if n =? -1 then mret (-1) else mret (nwritten + n).

Definition rdbSaveLzfStringObject (s : list Z) : rdbm Z :=
  let len := zlen s in
  if len <=? 4 then mret 0
  else
    let outlen := len - 4 in
    out ← calc (zmalloc (outlen + 1));
    r ← calc (lzf_compress s (string_addr cfg) outlen (stale_htab env) out);
    match r with
    | (comprlen, Some out) => if comprlen =? 0 then mret 0 else rdbSaveLzfBlob out comprlen len
    | (_, None) => mret 0
    end.

(** [sdstrynewlen(SDS_NOINIT, len)]: whether there is room for the string. *)
Definition sds_room (initlen : Z) : res bool :=
  let type := sdsReqType initlen in
  let type := if (type =? SDS_TYPE_5) && (initlen =? 0) then SDS_TYPE_8 else type in
  let hdrlen := sdsHdrSize type in
  assert! (wrapU 64 (initlen + hdrlen + 1) >? initlen);
  Ok (wrapU 64 (hdrlen + initlen + 1) <=? max_request).

(** A buffer for [len] bytes, a plain or a dynamic one. *)
Definition try_buffer (plain : bool) (len : Z) : rdbm bool :=
  if plain then mret (len <=? max_request) else calc (sds_room len).

Definition rdbLoadLzfStringObject (flags : Z) : rdbm (option loaded) :=
  let plain := negb (Z.land flags RDB_LOAD_PLAIN =? 0) in
  let sds := negb (Z.land flags RDB_LOAD_SDS =? 0) in
  clen ← rdbLoadLen;
  if clen.2 =? RDB_LENERR then mret None
  else
    len ← rdbLoadLen;
    if len.2 =? RDB_LENERR then mret None
    else if negb (clen.2 <=? max_request) then mret None
    else
      room ← try_buffer plain len.2;
      if negb room then mret None
      else
        c ← rdb_read clen.2;
        match c with
        | None => mret None
        | Some c =>
            let val := fresh_bytes len.2 in
            d ← calc (lzf_decompress c len.2 val);
            let n := match d with inl _ => 0 | inr (n, _) => n end in
            let val := match d with inl _ => val | inr (_, val) => val end in
            if negb (n =? len.2) then rdbReportCorruptRDB;; mret None
            else mret (Some (if plain then LPlain val else if sds then LSds val else LObj (createRawStringObject val)))
        end.

(** ** Strings *)

Definition save_verbatim (s : list Z) : rdbm Z :=
  n ← rdbSaveLen (zlen s);
  if n =? -1 then mret (-1)
  else
    let nwritten := n in
    if zlen s >? 0 then
      n ← rdbWriteRaw s;
      if n =? -1 then mret (-1) else mret (nwritten + zlen s)
    else mret nwritten.

Definition rdbSaveRawString (s : list Z) : rdbm Z :=
  let len := zlen s in
  enc ← (if len <=? 11 then calc (rdbTryIntegerEncoding s) else mret []);
  if zlen enc >? 0 then
    n ← rdbWriteRaw enc;
    if n =? -1 then mret (-1) else mret (zlen enc)
  else
    n ← (if rdb_compression env && (len >? 20) then rdbSaveLzfStringObject s else mret 0);
    if n =? -1 then mret (-1)
    else if n >? 0 then mret n
    else save_verbatim s.

Definition rdbSaveLongLongAsStringObject (value : Z) : rdbm Z :=
  let enc := rdbEncodeInteger value in
  if zlen enc >? 0 then rdbWriteRaw enc
  else
    text ← calc (ll_text 32 value);
    calc (assert! (zlen text <? 32); Ok tt);;
    n ← rdbSaveLen (zlen text);
    if n =? -1 then mret (-1)
    else
      let nwritten := n in
      n ← rdbWriteRaw text;
      if n =? -1 then mret (-1) else mret (nwritten + n).

Definition rdbSaveStringObject (obj : robj) : rdbm Z :=
  match obj with
  | RInt _ v => rdbSaveLongLongAsStringObject v
  | RString _ _ s => rdbSaveRawString s
  | ROther _ _ => calc Panic
  end.

(** With [SDS_NOINIT]: the encoding of the new object, [None] when there is no room; a
    small object is embedded, or the process aborts. *)
Definition tryCreateRawStringObject (len : Z) : res (option sds_encoding) :=
  room ← sds_room len;
  Ok (if (room : bool) then Some OBJ_ENCODING_RAW else None).

Definition tryCreateStringObject (len : Z) : res (option sds_encoding) :=
  if len <=? OBJ_ENCODING_EMBSTR_SIZE_LIMIT then Ok (Some OBJ_ENCODING_EMBSTR) else tryCreateRawStringObject len.

(** [len && rioRead(rdb, buf, len) == 0]; the bytes, [None] on a failure. *)
Definition read_contents (len : Z) : rdbm (option (list Z)) := if negb (len =? 0) then rdb_read len else mret (Some []).

Definition rdbGenericLoadStringObject (flags : Z) : rdbm (option loaded) :=
  let encode := negb (Z.land flags RDB_LOAD_ENC =? 0) in
  let plain := negb (Z.land flags RDB_LOAD_PLAIN =? 0) in
  let sds := negb (Z.land flags RDB_LOAD_SDS =? 0) in
  l ← rdbLoadLen;
  let '(isencoded, len) := l in
  if len =? RDB_LENERR then mret None
  else if (isencoded : bool) then
    if (len =? RDB_ENC_INT8) || (len =? RDB_ENC_INT16) || (len =? RDB_ENC_INT32) then rdbLoadIntegerObject len flags
    else if len =? RDB_ENC_LZF then rdbLoadLzfStringObject flags
    else rdbReportCorruptRDB;; mret None
  else if plain || sds then
    room ← try_buffer plain len;
    if negb room then mret None
    else
      buf ← read_contents len;
      mret ((fun s => if plain then LPlain s else LSds s) <$> buf)
  else
    o ← calc (if encode then tryCreateStringObject len else tryCreateRawStringObject len);
    match o with
    | None => mret None
    | Some enc =>
        buf ← read_contents len;
        mret ((fun s => LObj (RString enc 1 s)) <$> buf)
    end.

Definition rdbLoadStringObject : rdbm (option loaded) := rdbGenericLoadStringObject RDB_LOAD_NONE.

Definition rdbLoadEncodedStringObject : rdbm (option loaded) := rdbGenericLoadStringObject RDB_LOAD_ENC.

End Rdb.

(** * Codes *)

(** What is written for a length and for a string, on every host. *)
Definition len_code (len : Z) : list Z :=
  if len <? 64 then [len]
  else if len <? 16384 then [64 + len / 256; len mod 256]
  else if len <=? UINT32_MAX then RDB_32BITLEN :: rev (le_bytes 4 len)
  else RDB_64BITLEN :: rev (le_bytes 8 len).

Inductive encodes : list Z -> list Z -> Prop :=
| encodes_int v : INT64_MIN <= v <= INT64_MAX -> rdbEncodeInteger v <> [] -> encodes (rdbEncodeInteger v) (ll_repr v)
| encodes_lzf c s : decodes [] c s -> zlen c <= zlen s -> encodes ([195] ++ len_code (zlen c) ++ len_code (zlen s) ++ c) s
| encodes_raw s : encodes (len_code (zlen s) ++ s) s.

(** * Lemmas *)

Section Streams.
Context `{Host} `{StreamLaws}.

(** The function writes [bs] and returns [n], or the device fails and it returns -1. *)
Definition saves (f : rdbm Z) (bs : list Z) (n : Z) : Prop := forall r, rio_ok r -> write_error r = false ->
  exists r' k, f r = Ok (r', k) /\ ((k = n /\ written r bs r') \/ (k = -1 /\ write_error r' = true /\ can_fail)).

(** The function reads [bs], whatever follows, and returns [a]. *)
Definition loads {A} (f : rdbm A) (bs : list Z) (a : A) : Prop := forall r rest, offers r bs rest ->
  exists r', f r = Ok (r', a) /\ consumed r bs rest r'.

Lemma saves_ret n : saves (mret n) [] n.
Proof.
  intros r Hr Hw. exists r, n. split; [done|]. left. split; [done|]. split_and!; [by apply passed_nil|done..|by rewrite app_nil_r].
Qed.

Lemma saves_seq f a n k b m : saves f a n -> n <> -1 -> saves (k n) b m -> saves (x ← f; if x =? -1 then mret (-1) else k x) (a ++ b) m.
Proof.
  intros Hf Hn Hk r Hr Hw. destruct (Hf r Hr Hw) as (r1 & x & E & [[-> Hr1]|[-> Hr1]]); unfold mbind, rdbm_bind; rewrite E.
  - zfalse (n =? -1). destruct (Hk r1) as (r2 & y & -> & Hy); [apply Hr1|apply Hr1|]. exists r2, y. split; [done|]. destruct Hy as [[-> Hy]|Hy]; [|by right].
    left. split; [done|]. by eapply written_app.
  - by exists r1, (-1); auto.
Qed.

Lemma saves_last f a n m : saves f a n -> n <> -1 -> saves (x ← f; if x =? -1 then mret (-1) else mret m) a m.
Proof. intros Hf Hn. rewrite <- (app_nil_r a). apply (saves_seq f a n (fun _ => mret m) [] m Hf Hn), saves_ret. Qed.

Lemma saves_sum f a n (g : Z -> Z) : saves f a n -> n <> -1 -> saves (x ← f; if x =? -1 then mret (-1) else mret (g x)) a (g n).
Proof. intros Hf Hn. rewrite <- (app_nil_r a). apply (saves_seq f a n (fun x => mret (g x)) [] (g n) Hf Hn), saves_ret. Qed.

Lemma saves_calc {A} (m : res A) v k bs n : m = Ok v -> saves (k v) bs n -> saves (x ← calc m; k x) bs n.
Proof. intros -> Hk. exact Hk. Qed.

Lemma saves_pure {A} (f : rdbm A) v k bs n : (forall r, f r = Ok (r, v)) -> saves (k v) bs n -> saves (x ← f; k x) bs n.
Proof. intros Hf Hk r Hr Hw. unfold mbind, rdbm_bind. rewrite Hf. by apply Hk. Qed.

Lemma saves_write bs : Forall is_byte bs -> saves (rdbWriteRaw bs) bs (zlen bs).
Proof.
  intros Hb r Hr Hw. destruct (rioWrite_ok r bs Hr Hw Hb) as (r' & b & E & Hb'). unfold rdbWriteRaw, mbind, rdbm_bind. rewrite E.
  destruct b; eexists _, _; (split; [done|]); auto.
Qed.

Lemma loads_ret {A} (a : A) : loads (mret a) [] a.
Proof. intros r rest (Hr & He & Hc & Hl). exists r. split; [done|]. split_and!; [by apply passed_nil|done..]. Qed.

Lemma loads_bind {A B} (f : rdbm A) x a (k : A -> rdbm B) y b : loads f x a -> loads (k a) y b -> loads (v ← f; k v) (x ++ y) b.
Proof.
  intros Hf Hk r rest Ho%offers_app. destruct (Hf r _ Ho) as (r1 & E & Hr1). destruct (Hk r1 rest) as (r2 & E2 & Hr2); [by eapply consumed_offers|].
  exists r2. unfold mbind, rdbm_bind. rewrite E, E2. split; [done|]. by eapply consumed_app.
Qed.

Lemma loads_calc {A B} (m : res A) v (k : A -> rdbm B) bs b : m = Ok v -> loads (k v) bs b -> loads (x ← calc m; k x) bs b.
Proof. intros -> Hk. exact Hk. Qed.

Lemma loads_then {A B} (f : rdbm A) x a (k : A -> rdbm B) b : loads f x a -> loads (k a) [] b -> loads (v ← f; k v) x b.
Proof. intros Hf Hk. rewrite <- (app_nil_r x). by eapply loads_bind. Qed.

Lemma loads_skip {A B} (f : rdbm A) a (k : A -> rdbm B) y b : loads f [] a -> loads (k a) y b -> loads (v ← f; k v) y b.
Proof. intros Hf Hk. exact (loads_bind f [] a k y b Hf Hk). Qed.

Lemma loads_read n bs : n = zlen bs -> loads (rdb_read n) bs (Some bs).
Proof. intros -> r rest Ho. by apply rioRead_ok. Qed.

End Streams.

(** ** Lengths *)

Section Network.
Context `{Host}.

Lemma rev_bytes n v : Forall is_byte (rev (le_bytes n v)) /\ length (rev (le_bytes n v)) = n.
Proof. split; [apply Forall_rev, le_bytes_byte|]. by rewrite length_rev, length_le_bytes. Qed.

(** Byte-swapping a value gives the big-endian layout. *)
Lemma host_val_big n v : 0 <= v < 2 ^ (8 * Z.of_nat n) -> (if big_endian then v else host_val (rev (host_bytes n v))) = host_val (rev (le_bytes n v)).
Proof.
  intros Hv. unfold host_val, host_bytes. destruct big_endian; [|done]. by rewrite rev_involutive, le_val_bytes, wrapU_small.
Qed.

Lemma hton_ok n v (m : res Z) :
  0 <= v < 2 ^ (8 * Z.of_nat n) -> m = Ok (if big_endian then v else host_val (rev (host_bytes n v))) ->
  exists w, m = Ok w /\ host_bytes n w = rev (le_bytes n v).
Proof.
  intros Hv ->. rewrite host_val_big by done. eexists. split; [done|]. destruct (rev_bytes n v) as [Hb Hl]. rewrite <- Hl at 1. by apply host_bytes_val.
Qed.

Lemma htonl_ok v : 0 <= v < 2 ^ 32 -> exists w, htonl v = Ok w /\ host_bytes 4 w = rev (le_bytes 4 v).
Proof.
  intros Hv. apply hton_ok; [done|]. unfold htonl, intrev32. destruct big_endian eqn:E; [done|]. by rewrite memrev32_rev, bind_Ok by apply length_host_bytes.
Qed.

Lemma htonu64_ok v : 0 <= v < 2 ^ 64 -> exists w, htonu64 v = Ok w /\ host_bytes 8 w = rev (le_bytes 8 v).
Proof.
  intros Hv. apply hton_ok; [done|]. unfold htonu64, intrev64. destruct big_endian eqn:E; [done|]. by rewrite memrev64_rev, bind_Ok by apply length_host_bytes.
Qed.

Lemma ntoh_val n v :
  0 <= v < 2 ^ (8 * Z.of_nat n) -> (if big_endian then host_val (rev (le_bytes n v)) else host_val (rev (rev (le_bytes n v)))) = v.
Proof. intros Hv. unfold host_val. destruct big_endian; by rewrite rev_involutive, le_val_bytes, wrapU_small. Qed.

Lemma ntohl_ok v : 0 <= v < 2 ^ 32 -> ntohl (host_val (rev (le_bytes 4 v))) = Ok v.
Proof.
  intros Hv. rewrite <- (ntoh_val 4 v) at 2 by done. destruct (rev_bytes 4 v) as [Hb Hl]. pose proof (host_bytes_val _ Hb) as E. rewrite Hl in E.
  unfold ntohl, intrev32. destruct big_endian eqn:Ebe; [done|]. by rewrite E, memrev32_rev, bind_Ok.
Qed.

Lemma ntohu64_ok v : 0 <= v < 2 ^ 64 -> ntohu64 (host_val (rev (le_bytes 8 v))) = Ok v.
Proof.
  intros Hv. rewrite <- (ntoh_val 8 v) at 2 by done. destruct (rev_bytes 8 v) as [Hb Hl]. pose proof (host_bytes_val _ Hb) as E. rewrite Hl in E.
  unfold ntohu64, intrev64. destruct big_endian eqn:Ebe; [done|]. by rewrite E, memrev64_rev, bind_Ok.
Qed.

End Network.

Lemma top_bits b : is_byte b -> Z.shiftr (Z.land b 0xC0) 6 = b / 64.
Proof.
  unfold is_byte. intros Hb. change 0xC0 with (Z.shiftl 3 6). rewrite Z.shiftr_land, Z.shiftr_shiftl_l by lia. change (Z.shiftl 3 (6 - 6)) with (2 ^ 2 - 1).
  rewrite land_mask, Z.shiftr_div_pow2 by lia. change (2 ^ 6) with 64. change (2 ^ 2) with 4. apply Z.mod_small. zdiv.
Qed.

Lemma low_bits b : Z.land b 0x3F = b mod 64.
Proof. apply (land_mask 6). lia. Qed.

Section Lengths.
Context `{Host} `{StreamLaws}.

Lemma saves_len len : 0 <= len < 2 ^ 64 -> saves (rdbSaveLen len) (len_code len) (zlen (len_code len)).
Proof.
  intros Hl. unfold rdbSaveLen, len_code, RDB_6BITLEN, RDB_14BITLEN. change (Z.shiftl 1 6) with 64. change (Z.shiftl 1 14) with 16384. change (Z.shiftl 0 6) with 0. change (Z.shiftl 1 6) with 64.
  destruct (Z.ltb_spec len 64).
  { rewrite Z.lor_0_r, land_255, (Z.mod_small len), wrapU_small by lia. apply (saves_last _ _ 1); [|done]. apply saves_write. forall_list. unfold is_byte. lia. }
  destruct (Z.ltb_spec len 16384).
  { rewrite byte_land, land_255 by lia. change (2 ^ 8) with 256. rewrite (Z.mod_small (len / 256)) by zdiv.
    assert (Z.lor (len / 256) 64 = 64 + len / 256) as -> by (change 64 with (Z.shiftl 1 6) at 1; rewrite lor_shiftl; zdiv). rewrite wrapU_small by zdiv.
    apply (saves_last _ _ 2); [|done]. apply saves_write. forall_list; unfold is_byte; zdiv. }
  destruct (Z.leb_spec len UINT32_MAX) as [Hu|Hu]; zconst.
  - destruct (htonl_ok len) as (w & Ew & Hw); [lia|]. destruct (rev_bytes 4 len) as [Hb Hn]. change (RDB_32BITLEN :: ?x) with ([RDB_32BITLEN] ++ x). change (zlen ([RDB_32BITLEN] ++ rev (le_bytes 4 len))) with (1 + 4).
    eapply (saves_seq _ _ 1); [apply (saves_write [RDB_32BITLEN]); by forall_list|done|]. eapply saves_calc; [exact Ew|]. rewrite Hw. apply (saves_last _ _ 4); [|done]. by apply (saves_write (rev (le_bytes 4 len))).
  - destruct (htonu64_ok len) as (w & Ew & Hw); [lia|]. destruct (rev_bytes 8 len) as [Hb Hn]. change (RDB_64BITLEN :: ?x) with ([RDB_64BITLEN] ++ x). change (zlen ([RDB_64BITLEN] ++ rev (le_bytes 8 len))) with (1 + 8).
    eapply (saves_seq _ _ 1); [apply (saves_write [RDB_64BITLEN]); by forall_list|done|]. eapply saves_calc; [exact Ew|]. rewrite Hw. apply (saves_last _ _ 8); [|done]. by apply (saves_write (rev (le_bytes 8 len))).
Qed.

Lemma loads_len env len : 0 <= len < 2 ^ 64 -> loads (rdbLoadLenByRef env) (len_code len) (Some (false, len)).
Proof.
  intros Hl. unfold rdbLoadLenByRef, len_code. destruct (Z.ltb_spec len 64).
  { eapply loads_then; [by apply (loads_read 1 [len])|]. eapply loads_calc; [done|]. cbv beta zeta. rewrite top_bits, low_bits by (unfold is_byte; lia).
    rewrite (Z.div_small len), (Z.mod_small len) by lia. apply loads_ret. }
  destruct (Z.ltb_spec len 16384).
  { change [?a; ?b] with ([a] ++ [b]). eapply loads_bind; [by apply (loads_read 1 [64 + len / 256])|]. eapply loads_calc; [done|]. cbv beta zeta. rewrite top_bits, low_bits by (unfold is_byte; zdiv).
    replace ((64 + len / 256) / 64) with 1 by zdiv. cbn [Z.eqb Pos.eqb RDB_ENCVAL RDB_6BITLEN RDB_14BITLEN]. eapply loads_then; [by apply (loads_read 1 [len mod 256])|]. eapply loads_calc; [done|].
    replace (Z.lor _ _) with len; [apply loads_ret|]. rewrite Z.lor_comm, lor_shiftl by zdiv. change (2 ^ 8) with 256. zdiv. }
  destruct (Z.leb_spec len UINT32_MAX) as [Hu|Hu]; zconst.
  - change (RDB_32BITLEN :: ?x) with ([RDB_32BITLEN] ++ x). eapply loads_bind; [by apply (loads_read 1 [RDB_32BITLEN])|]. eapply loads_calc; [done|].
    change (loads (buf ← rdb_read 4; match buf with None => mret None | Some buf => l ← calc (ntohl (host_val buf)); mret (Some (false, l)) end) (rev (le_bytes 4 len)) (Some (false, len))).
    eapply loads_then; [by apply (loads_read 4 (rev (le_bytes 4 len)))|]. eapply loads_calc; [apply ntohl_ok; lia|]. apply loads_ret.
  - change (RDB_64BITLEN :: ?x) with ([RDB_64BITLEN] ++ x). eapply loads_bind; [by apply (loads_read 1 [RDB_64BITLEN])|]. eapply loads_calc; [done|].
    change (loads (buf ← rdb_read 8; match buf with None => mret None | Some buf => l ← calc (ntohu64 (host_val buf)); mret (Some (false, l)) end) (rev (le_bytes 8 len)) (Some (false, len))).
    eapply loads_then; [by apply (loads_read 8 (rev (le_bytes 8 len)))|]. eapply loads_calc; [apply ntohu64_ok; lia|]. apply loads_ret.
Qed.

End Lengths.

(** ** Strings *)

(** What loading a string with the flags gives. *)
Definition loaded_as (flags : Z) (l : loaded) (s : list Z) : Prop :=
  if negb (Z.land flags RDB_LOAD_PLAIN =? 0) then l = LPlain s
  else if negb (Z.land flags RDB_LOAD_SDS =? 0) then l = LSds s
  else match l with
       | LObj o => obj_wf o /\ obj_str o = Some s /\ (Z.land flags RDB_LOAD_ENC = 0 -> is_raw o = true)
       | _ => False
       end.

Lemma sds_room_ok `{Allocator} len : 0 <= len -> len + 18 <= max_request -> sds_room len = Ok true.
Proof.
  intros Hl Hr. pose proof max_request_bound as Hm. unfold sds_room. cbv zeta.
  match goal with |- context [sdsHdrSize ?t] => assert (0 < sdsHdrSize t <= 17) as Hh end.
  { unfold sdsReqType. repeat case_match; vm_compute; split; done || discriminate. }
  generalize dependent (sdsHdrSize (if (sdsReqType len =? SDS_TYPE_5) && (len =? 0) then SDS_TYPE_8 else sdsReqType len)). intros h Hh.
  rewrite !wrapU_small by lia. rewrite Z.gtb_ltb. ztrue (len <? len + h + 1). by ztrue (h + len + 1 <=? max_request).
Qed.

Lemma sds_room_overflow `{Allocator} len : 2 ^ 64 - 18 <= len < 2 ^ 64 - 1 -> sds_room len = Panic.
Proof.
  intros Hl. unfold sds_room, sdsReqType. rewrite !Z.shiftl_1_l. zfalse (len <? 2 ^ 5). zfalse (len <? 2 ^ 8). zfalse (len <? 2 ^ 16). zfalse (len <? 2 ^ 32).
  change (sdsHdrSize (if (SDS_TYPE_64 =? SDS_TYPE_5) && (len =? 0) then SDS_TYPE_8 else SDS_TYPE_64)) with 17. cbv zeta.
  assert (wrapU 64 (len + 17 + 1) >? len = false) as ->; [|done]. rewrite Z.gtb_ltb. apply Z.ltb_ge. unfold wrapU. zdiv.
Qed.

Section Integers.
Context `{Host} `{Allocator} `{StreamLaws} (cfg : config) (env : rdb_env).

Lemma loads_kind k : 0 <= k < 64 -> loads (rdbLoadLen env) [192 + k] (true, k).
Proof.
  intros Hk. unfold rdbLoadLen, rdbLoadLenByRef. eapply loads_then; [|apply (loads_ret (default (false, RDB_LENERR) (Some (true, k))))].
  eapply loads_then; [by apply (loads_read 1 [192 + k])|]. eapply loads_calc; [done|]. cbv beta zeta. rewrite top_bits, low_bits by (unfold is_byte; lia).
  replace ((192 + k) / 64) with 3 by zdiv. replace ((192 + k) mod 64) with k by zdiv. apply loads_ret.
Qed.

Lemma loads_length len : 0 <= len < 2 ^ 64 -> loads (rdbLoadLen env) (len_code len) (false, len).
Proof. intros Hl. unfold rdbLoadLen. eapply loads_then; [by apply loads_len|]. apply (loads_ret (default (false, RDB_LENERR) (Some (false, len)))). Qed.

Lemma wrapS_val w n v : w = 8 * Z.of_nat n -> (0 < n)%nat -> - 2 ^ (w - 1) <= v < 2 ^ (w - 1) -> wrapS w (le_val (le_bytes n v)) = v.
Proof. intros -> Hn Hv. rewrite le_val_bytes, wrapS_wrapU by lia. apply wrapS_small; lia. Qed.

Lemma saves_time t : saves (rdbSaveMillisecondTime t) (le_bytes 8 t) 8.
Proof.
  unfold rdbSaveMillisecondTime. eapply saves_calc; [apply memrev64ifbe_host|]. change (wrapU 64 t) with (wrapU (8 * Z.of_nat 8) t). rewrite le_bytes_wrapU.
  apply (saves_write (le_bytes 8 t)), le_bytes_byte.
Qed.

Lemma loads_time rdbver t : INT64_MIN <= t <= INT64_MAX -> 9 <= rdbver -> loads (rdbLoadMillisecondTime rdbver) (le_bytes 8 t) t.
Proof.
  intros Ht Hv. unfold rdbLoadMillisecondTime. eapply loads_then; [by apply (loads_read 8)|]. cbv beta iota. rewrite Z.geb_leb. ztrue (9 <=? rdbver).
  destruct (memrev64ifbe_spec (le_bytes 8 t)) as (bs & E & Hbs); [by rewrite length_le_bytes|]. eapply loads_calc; [exact E|].
  rewrite Hbs, (wrapS_val 64 8) by (done || zconst; lia). apply loads_ret.
Qed.

Lemma loads_int8 v : -128 <= v < 128 -> loads (load_integer env 0) (le_bytes 1 v) (Some v).
Proof.
  intros Hv. unfold load_integer. cbn [Z.eqb RDB_ENC_INT8]. pose proof (wrapS_val 8 1 v eq_refl ltac:(lia) Hv) as E. destruct (le_bytes 1 v) as [|a [|]] eqn:Eb; try discriminate.
  eapply loads_then; [by apply (loads_read 1)|]. eapply loads_calc; [done|]. rewrite <- E at 1. cbn [le_val]. rewrite Z.add_0_r. apply loads_ret.
Qed.

Lemma loads_int16 v : -32768 <= v < 32768 -> loads (load_integer env 1) (le_bytes 2 v) (Some v).
Proof.
  intros Hv. unfold load_integer. cbn [Z.eqb Pos.eqb RDB_ENC_INT8 RDB_ENC_INT16]. pose proof (wrapS_val 16 2 v eq_refl ltac:(lia) Hv) as E. pose proof (le_bytes_byte 2 v) as Hb.
  destruct (le_bytes 2 v) as [|a [|b [|]]] eqn:Eb; try discriminate. eapply loads_then; [by apply (loads_read 2)|]. do 2 (eapply loads_calc; [done|]).
  rewrite <- (Z.shiftl_0_r a), le16_lor by (by inversion Hb). rewrite E. apply loads_ret.
Qed.

Lemma loads_int32 v : -2147483648 <= v < 2147483648 -> loads (load_integer env 2) (le_bytes 4 v) (Some v).
Proof.
  intros Hv. unfold load_integer. cbn [Z.eqb Pos.eqb RDB_ENC_INT8 RDB_ENC_INT16 RDB_ENC_INT32]. pose proof (wrapS_val 32 4 v eq_refl ltac:(lia) Hv) as E. pose proof (le_bytes_byte 4 v) as Hb.
  destruct (le_bytes 4 v) as [|a [|b [|c [|d [|]]]]] eqn:Eb; try discriminate. eapply loads_then; [by apply (loads_read 4)|]. do 4 (eapply loads_calc; [done|]).
  rewrite !Forall_cons in Hb. rewrite <- (Z.shiftl_0_r a), le32_lor by apply Hb. rewrite E. apply loads_ret.
Qed.

(** The type and the bytes of an integer, which is read back. *)
Lemma encode_integer v : rdbEncodeInteger v <> [] -> exists k body,
  rdbEncodeInteger v = [192 + k] ++ body /\ 0 <= k <= 2 /\ Forall is_byte body /\ loads (load_integer env k) body (Some v).
Proof.
  unfold rdbEncodeInteger. change (Z.shiftl 1 7) with 128. change (Z.shiftl 1 15) with 32768. change (Z.shiftl 1 31) with 2147483648.
  destruct ((v >=? - (128)) && (v <=? 128 - 1)) eqn:E1; zprop.
  { intros _. exists 0, (le_bytes 1 v). split; [by rewrite land_255|]. split; [lia|]. split; [apply le_bytes_byte|apply loads_int8; lia]. }
  destruct ((v >=? - (32768)) && (v <=? 32768 - 1)) eqn:E2; zprop.
  { intros _. exists 1, (le_bytes 2 v). split; [by rewrite le_bytes2_land|]. split; [lia|]. split; [apply le_bytes_byte|apply loads_int16; lia]. }
  destruct ((v >=? - (2147483648)) && (v <=? 2147483648 - 1)) eqn:E3; zprop; [|done].
  intros _. exists 2, (le_bytes 4 v). split; [by rewrite le_bytes4_land|]. split; [lia|]. split; [apply le_bytes_byte|apply loads_int32; lia].
Qed.

End Integers.

Lemma sds_ll_text_ok `{Host} v : INT64_MIN <= v <= INT64_MAX -> sds_ll_text v = Ok (ll_repr v).
Proof.
  intros Hv. unfold sds_ll_text, SDS_LLSTR_SIZE. pose proof (zlen_fresh_bytes 21 ltac:(lia)) as Hf. revert Hf. generalize (fresh_bytes 21). intros b Hf.
  pose proof (ll_repr_bound v Hv). destruct (cut_at b (zlen (ll_repr v))) as (X & D & -> & HX & HD); [lia|]. rewrite zlen_app in Hf.
  destruct D as [|y D]; [zlia|]. rewrite sdsll2str_ok, bind_Ok by done. by apply rd_app_head.
Qed.

Lemma from_long_long cfg v : INT64_MIN <= v <= INT64_MAX -> exists n, createStringObjectFromLongLongForValue cfg v = Ok (RInt n v) /\ 1 <= n.
Proof.
  intros Hv. unfold createStringObjectFromLongLongForValue, createStringObjectFromLongLongWithOptions. cbv zeta. destruct ((v >=? 0) && _ && _); [by eexists|].
  rewrite Z.geb_leb. ztrue (INT64_MIN <=? v). ztrue (v <=? INT64_MAX). by eexists.
Qed.

Section Strings.
Context `{Host} `{Allocator} `{StreamLaws} (cfg : config) (env : rdb_env).

Lemma loads_integer_object k flags body v :
  INT64_MIN <= v <= INT64_MAX -> loads (load_integer env k) body (Some v) ->
  exists l, loads (rdbLoadIntegerObject cfg env k flags) body (Some l) /\ loaded_as flags l (ll_repr v).
Proof.
  intros Hv Hload. unfold rdbLoadIntegerObject, loaded_as. destruct (Z.land flags RDB_LOAD_PLAIN =? 0) eqn:Ep; cbn [negb orb].
  2:{ eexists. split; [|done]. eapply loads_then; [exact Hload|]. eapply loads_calc; [by apply ll_text_ok|]. apply loads_ret. }
  destruct (Z.land flags RDB_LOAD_SDS =? 0) eqn:Es; cbn [negb orb].
  2:{ eexists. split; [|done]. eapply loads_then; [exact Hload|]. eapply loads_calc; [by apply ll_text_ok|]. apply loads_ret. }
  destruct (Z.eqb_spec (Z.land flags RDB_LOAD_ENC) 0) as [Ee|Ee]; cbn [negb].
  - exists (LObj (createRawStringObject (ll_repr v))). split; [eapply loads_then; [exact Hload|]; eapply loads_calc; [by apply sds_ll_text_ok|]; apply loads_ret|].
    pose proof (ll_repr_bound v Hv). cbn. split_and!; [lia|apply ll_repr_bytes|unfold MAX_STRING; lia|done..].
  - destruct (from_long_long cfg v Hv) as (n & En & Hn). exists (LObj (RInt n v)). split; [|by cbn]. eapply loads_then; [exact Hload|]. eapply loads_calc; [exact En|]. apply loads_ret.
Qed.

Lemma loads_lzf_object flags c s :
  decodes [] c s -> zlen c <= zlen s -> Forall is_byte s -> zlen s < MAX_STRING -> zlen s + 18 <= max_request ->
  exists l, loads (rdbLoadLzfStringObject env flags) (len_code (zlen c) ++ len_code (zlen s) ++ c) (Some l) /\ loaded_as flags l s.
Proof.
  intros Hd Hcs Hb Hmax Hroom. pose proof max_request_bound as Hm. pose proof (zlen_nonneg c). pose proof (zlen_nonneg s).
  set (plain := negb (Z.land flags RDB_LOAD_PLAIN =? 0)). set (sds := negb (Z.land flags RDB_LOAD_SDS =? 0)).
  exists (if plain then LPlain s else if sds then LSds s else LObj (createRawStringObject s)). split.
  2:{ unfold loaded_as. fold plain sds. destruct plain; [done|]. destruct sds; [done|]. by cbn. }
  unfold rdbLoadLzfStringObject. fold plain sds. eapply loads_bind; [apply loads_length; lia|]. cbn [snd]. unfold RDB_LENERR. zconst. zfalse (zlen c =? 2 ^ 64 - 1).
  eapply loads_bind; [apply loads_length; lia|]. cbn [snd]. zfalse (zlen s =? 2 ^ 64 - 1). ztrue (zlen c <=? max_request). cbn [negb].
  assert (loads (try_buffer plain (zlen s)) [] true) as Hbuf.
  { unfold try_buffer. destruct plain; [ztrue (zlen s <=? max_request); apply loads_ret|]. rewrite sds_room_ok by lia. apply loads_ret. }
  eapply loads_skip; [exact Hbuf|]. cbn [negb]. eapply loads_then; [by apply loads_read|].
  pose proof (zlen_fresh_bytes (zlen s) ltac:(lia)) as Hf. destruct (decompress_decodes c (zlen s) [] c s Hd [] (fresh_bytes (zlen s)) (S (length c))) as (rest & E & Hl); [done|cbn; lia|lia|].
  assert (rest = []) as -> by (rewrite zlen_app in Hl; cbn in Hl; destruct rest; [done|zlia]). rewrite app_nil_r in E.
  eapply loads_calc; [exact E|]. cbv beta zeta iota. rewrite Z.eqb_refl. cbn [negb]. apply loads_ret.
Qed.

Lemma loads_verbatim flags s :
  Forall is_byte s -> zlen s < MAX_STRING -> zlen s + 18 <= max_request ->
  exists l, loads (rdbGenericLoadStringObject cfg env flags) (len_code (zlen s) ++ s) (Some l) /\ loaded_as flags l s.
Proof.
  intros Hb Hmax Hroom. pose proof max_request_bound as Hm. pose proof (zlen_nonneg s).
  set (plain := negb (Z.land flags RDB_LOAD_PLAIN =? 0)). set (sds := negb (Z.land flags RDB_LOAD_SDS =? 0)). set (encode := negb (Z.land flags RDB_LOAD_ENC =? 0)).
  set (e := if encode && (zlen s <=? OBJ_ENCODING_EMBSTR_SIZE_LIMIT) then OBJ_ENCODING_EMBSTR else OBJ_ENCODING_RAW).
  assert (loads (read_contents (zlen s)) s (Some s)) as Hread.
  { unfold read_contents. destruct (Z.eqb_spec (zlen s) 0); cbn [negb]; [destruct s; [apply loads_ret|zlia]|by apply loads_read]. }
  exists (if plain then LPlain s else if sds then LSds s else LObj (RString e 1 s)). split.
  - unfold rdbGenericLoadStringObject. fold plain sds encode. eapply loads_bind; [apply loads_length; lia|]. cbv beta iota zeta. unfold RDB_LENERR. zconst. zfalse (zlen s =? 2 ^ 64 - 1).
    destruct (plain || sds) eqn:Eps.
    + eapply loads_skip; [unfold try_buffer; destruct plain; [ztrue (zlen s <=? max_request)|rewrite sds_room_ok by lia]; apply loads_ret|].
      cbn [negb]. eapply loads_then; [exact Hread|]. cbn [fmap option_fmap option_map]. destruct plain; [apply loads_ret|]. rewrite (Eps : sds = true). apply loads_ret.
    + apply orb_false_iff in Eps as [-> ->]. eapply (loads_calc _ (Some e)); [|eapply loads_then; [exact Hread|]; apply loads_ret]. unfold e, tryCreateStringObject, tryCreateRawStringObject.
      rewrite sds_room_ok by lia. destruct encode; [|done]. cbn [andb]. by destruct (zlen s <=? _).
  - unfold loaded_as. fold plain sds encode. destruct plain; [done|]. destruct sds; [done|]. cbn. split_and!; [lia|done..|]. intros Hz. unfold e, encode. by rewrite Hz.
Qed.

(** Every code of a string is loaded as that string. *)
Lemma loads_encoded flags code s :
  encodes code s -> Forall is_byte s -> zlen s < MAX_STRING -> zlen s + 18 <= max_request ->
  exists l, loads (rdbGenericLoadStringObject cfg env flags) code (Some l) /\ loaded_as flags l s.
Proof.
  intros Henc Hb Hmax Hroom. destruct Henc as [v Hv Hne|c s Hd Hcs|s].
  - destruct (encode_integer env v Hne) as (k & body & -> & Hk & Hbody & Hload). destruct (loads_integer_object k flags body v Hv Hload) as (l & Hl & Hst). exists l. split; [|done].
    unfold rdbGenericLoadStringObject. eapply loads_bind; [apply loads_kind; lia|]. cbv beta iota zeta. unfold RDB_LENERR. zconst. zfalse (k =? 2 ^ 64 - 1).
    assert ((k =? RDB_ENC_INT8) || (k =? RDB_ENC_INT16) || (k =? RDB_ENC_INT32) = true) as ->; [|exact Hl].
    unfold RDB_ENC_INT8, RDB_ENC_INT16, RDB_ENC_INT32. assert (k = 0 \/ k = 1 \/ k = 2) as [->|[->| ->]] by lia; done.
  - destruct (loads_lzf_object flags c s) as (l & Hl & Hst); [done..|]. exists l. split; [|done].
    unfold rdbGenericLoadStringObject. eapply loads_bind; [apply (loads_kind env 3); lia|]. exact Hl.
  - by apply loads_verbatim.
Qed.

(** A string in memory that can be saved. *)
Record savable (s : list Z) : Prop := {
  sv_bytes : Forall is_byte s;
  sv_size : zlen s < MAX_STRING;
  sv_room : zlen s + 18 <= max_request;
  sv_addr : MAX_OFF <= string_addr cfg;
  sv_end : string_addr cfg + zlen s < 2 ^ 64;
  sv_htab : forall i, 0 <= stale_htab env i < 2 ^ 64;
}.

Lemma len_code_bytes len : 0 <= len < 2 ^ 64 -> Forall is_byte (len_code len) /\ 0 < zlen (len_code len).
Proof.
  intros Hl. unfold len_code. destruct (Z.ltb_spec len 64); [split; [forall_list; unfold is_byte; lia|done]|].
  destruct (Z.ltb_spec len 16384); [split; [forall_list; unfold is_byte; zdiv|done]|]. destruct (len <=? UINT32_MAX); split; zlia || (constructor; [done|apply rev_bytes]).
Qed.

Lemma saves_blob c rest len :
  Forall is_byte c -> 0 <= len < 2 ^ 64 -> zlen c < 2 ^ 64 ->
  saves (rdbSaveLzfBlob (c ++ rest) (zlen c) len) ([195] ++ len_code (zlen c) ++ len_code len ++ c) (zlen ([195] ++ len_code (zlen c) ++ len_code len ++ c)).
Proof.
  intros Hb Hl Hc. pose proof (zlen_nonneg c). destruct (len_code_bytes (zlen c)) as [_ Hn1]; [lia|]. destruct (len_code_bytes len) as [_ Hn2]; [lia|].
  assert (zlen ([195] ++ len_code (zlen c) ++ len_code len ++ c) = 1 + zlen (len_code (zlen c)) + zlen (len_code len) + zlen c) as -> by (rewrite !zlen_app; change (zlen [195]) with 1; lia).
  unfold rdbSaveLzfBlob. eapply (saves_seq _ _ 1); [apply (saves_write [195]); by forall_list|done|]. eapply saves_seq; [apply saves_len; lia|lia|]. eapply saves_seq; [apply saves_len; lia|lia|].
  eapply saves_calc; [by apply rd_app_head|]. apply (saves_sum _ _ (zlen c) (fun n => _ + n)); [by apply saves_write|lia].
Qed.

Lemma saves_lzf s : savable s -> 20 < zlen s ->
  (forall r, rdbSaveLzfStringObject cfg env s r = Ok (r, 0)) \/
  exists code, encodes code s /\ 0 < zlen code /\ saves (rdbSaveLzfStringObject cfg env s) code (zlen code).
Proof.
  intros [Hb Hsz Hroom Ha He Hh] Hl. pose proof max_request_bound as Hm. unfold rdbSaveLzfStringObject. cbv zeta. zfalse (zlen s <=? 4).
  unfold zmalloc. ztrue (zlen s - 4 + 1 <=? max_request). pose proof (zlen_fresh_bytes (zlen s - 4 + 1) ltac:(lia)) as Hf.
  destruct (compress_correct s (string_addr cfg) (zlen s - 4) Ha He (stale_htab env) (fresh_bytes (zlen s - 4 + 1)) Hh) as (n & x & E & Hx); [lia..|].
  destruct x as [o|]; [|left; intros r; unfold mbind, rdbm_bind, calc; cbn; by rewrite E].
  right. destruct Hx as (Hn & c & rest & -> & <- & _ & Hd). exists ([195] ++ len_code (zlen c) ++ len_code (zlen s) ++ c). split; [constructor; [done|lia]|]. split; [zlia|].
  eapply saves_calc; [done|]. eapply saves_calc; [exact E|]. cbv beta iota. zfalse (zlen c =? 0). apply saves_blob; [by eapply decodes_bytes|lia..].
Qed.

Lemma saves_verbatim s : Forall is_byte s -> zlen s < 2 ^ 64 -> saves (save_verbatim s) (len_code (zlen s) ++ s) (zlen (len_code (zlen s) ++ s)).
Proof.
  intros Hb Hl. pose proof (zlen_nonneg s). destruct (len_code_bytes (zlen s)) as [_ Hn1]; [lia|]. unfold save_verbatim. eapply saves_seq; [apply saves_len; lia|lia|].
  rewrite zlen_app. destruct s as [|b s]; [cbn; rewrite Z.add_0_r; apply saves_ret|]. rewrite Z.gtb_ltb. zlens. ztrue (0 <? 1 + zlen s). rewrite <- zlen_cons with (x := b). eapply saves_last; [by apply saves_write|]. zlia.
Qed.

Lemma saves_integer v : rdbEncodeInteger v <> [] -> saves (rdbWriteRaw (rdbEncodeInteger v)) (rdbEncodeInteger v) (zlen (rdbEncodeInteger v)).
Proof.
  intros Hne. apply saves_write. destruct (encode_integer env v Hne) as (k & body & -> & Hk & Hb & _). constructor; [unfold is_byte; lia|done].
Qed.

(** Saving a string writes one of its codes. *)
Lemma saves_raw_string s : savable s -> exists code, encodes code s /\ saves (rdbSaveRawString cfg env s) code (zlen code).
Proof.
  intros Hs. pose proof Hs as [Hb Hsz Hroom _ _ _]. pose proof max_request_bound as Hm. pose proof (zlen_nonneg s). unfold rdbSaveRawString. cbv zeta.
  assert (exists enc, (forall r, (if zlen s <=? 11 then calc (rdbTryIntegerEncoding s) else mret []) r = Ok (r, enc)) /\
    (enc <> [] -> exists v, INT64_MIN <= v <= INT64_MAX /\ s = ll_repr v /\ enc = rdbEncodeInteger v)) as (enc & E & Henc).
  { destruct (zlen s <=? 11); [|by exists []]. unfold rdbTryIntegerEncoding. destruct (string2ll_ok s) as (r & -> & Hr). rewrite bind_Ok. destruct r as [v|]; [|by exists []].
    exists (rdbEncodeInteger v). split; [done|]. intros _. exists v. by destruct (proj1 (Hr v) eq_refl). }
  destruct (Z.gtb_spec (zlen enc) 0) as [Hlt|Hle].
  { destruct Henc as (v & Hv & -> & ->); [by intros ->|]. exists (rdbEncodeInteger v). assert (rdbEncodeInteger v <> []) as Hne by (by intros E0; rewrite E0 in Hlt).
    split; [by constructor|]. eapply saves_pure; [exact E|]. rewrite Z.gtb_ltb. ztrue (0 <? zlen (rdbEncodeInteger v)). eapply saves_last; [by apply saves_integer|lia]. }
  assert (enc = []) as -> by (destruct enc; [done|zlia]).
  destruct (rdb_compression env && (zlen s >? 20)) eqn:Ec; zprop; [destruct (saves_lzf s Hs) as [Hz|(code & Henc' & Hpos & Hsave)]; [lia| |]|].
  - exists (len_code (zlen s) ++ s). split; [constructor|]. eapply saves_pure; [exact E|]. eapply (saves_pure _ 0); [exact Hz|]. apply saves_verbatim; [done|lia].
  - exists code. split; [done|]. eapply saves_pure; [exact E|].
    rewrite <- (app_nil_r code) at 1. apply (saves_seq _ _ (zlen code) (fun n => if n >? 0 then mret n else save_verbatim s)); [exact Hsave|lia|]. rewrite Z.gtb_ltb. ztrue (0 <? zlen code). apply saves_ret.
  - exists (len_code (zlen s) ++ s). split; [constructor|]. eapply saves_pure; [exact E|]. eapply (saves_pure _ 0); [done|]. apply saves_verbatim; [done|lia].
Qed.

Lemma saves_string_object o s : obj_wf o -> obj_str o = Some s -> savable s -> exists code, encodes code s /\ saves (rdbSaveStringObject cfg env o) code (zlen code).
Proof.
  intros Hw Ho Hs. destruct o as [e n x|n v|]; cbn [obj_str] in Ho; [injection Ho as ->; by apply saves_raw_string| |done]. injection Ho as <-. destruct Hw as [_ Hv].
  cbn [rdbSaveStringObject]. unfold rdbSaveLongLongAsStringObject. cbv zeta. destruct (Z.gtb_spec (zlen (rdbEncodeInteger v)) 0) as [Hlt|Hle].
  { assert (rdbEncodeInteger v <> []) as Hne by (by intros E0; rewrite E0 in Hlt). exists (rdbEncodeInteger v). split; [by constructor|by apply saves_integer]. }
  pose proof (ll_repr_bound v Hv). pose proof (ll_repr_bytes v) as Hb. destruct (len_code_bytes (zlen (ll_repr v))) as [_ Hn]; [lia|].
  exists (len_code (zlen (ll_repr v)) ++ ll_repr v). split; [constructor|]. eapply saves_calc; [by apply ll_text_ok|]. cbv beta. ztrue (zlen (ll_repr v) <? 32). eapply saves_calc; [done|].
  eapply saves_seq; [apply saves_len; lia|lia|]. rewrite zlen_app. apply (saves_sum _ _ (zlen (ll_repr v)) (fun n => _ + n)); [by apply saves_write|lia].
Qed.

(** A length that overflows takes the process down. *)
Lemma overlong_string_aborts len r rest : 2 ^ 64 - 18 <= len < 2 ^ 64 - 1 -> offers r (len_code len) rest -> rdbLoadEncodedStringObject cfg env r = Panic.
Proof.
  intros Hl Ho. destruct (loads_length env len ltac:(lia) r rest Ho) as (r1 & E & _). unfold rdbLoadEncodedStringObject, rdbGenericLoadStringObject, mbind, rdbm_bind. rewrite E. cbv beta iota zeta.
  unfold RDB_LENERR. zconst. zfalse (len =? 2 ^ 64 - 1). change (negb (Z.land RDB_LOAD_ENC RDB_LOAD_PLAIN =? 0)) with false. change (negb (Z.land RDB_LOAD_ENC RDB_LOAD_SDS =? 0)) with false.
  change (negb (Z.land RDB_LOAD_ENC RDB_LOAD_ENC =? 0)) with true. cbn [orb]. unfold tryCreateStringObject, tryCreateRawStringObject, OBJ_ENCODING_EMBSTR_SIZE_LIMIT. zfalse (len <=? 44). by rewrite sds_room_overflow.
Qed.

End Strings.

(** ** Arbitrary input *)

(** The input has a 64-bit length so large that adding a header to it overflows. *)
Definition overlong (l : list Z) : Prop := exists a len b, l = a ++ RDB_64BITLEN :: rev (le_bytes 8 len) ++ b /\ 2 ^ 64 - 18 <= len < 2 ^ 64 - 1.

Section Safety.
Context `{Host} `{Allocator} `{StreamLaws} (cfg : config) (env : rdb_env) (l0 : list Z).

(** A stream with some end of the input [l0]. *)
Definition inside (r : rio) : Prop := readable r /\ exists a, l0 = a ++ coming (rio_io r).

(** Why the process may end: an overlong length, or corrupt input where no client is
    waiting for an answer. *)
Definition may_end : Prop := overlong l0 \/ isRestoreContext env = false.

(** The function returns, or the process ends for one of the two reasons. *)
Definition safely {A} (f : rdbm A) (r : rio) (Q : rio -> A -> Prop) : Prop :=
  (exists r' a, f r = Ok (r', a) /\ inside r' /\ Q r' a) \/ (f r = Panic /\ may_end).

Lemma safely_ret {A} (a : A) r (Q : rio -> A -> Prop) : inside r -> Q r a -> safely (mret a) r Q.
Proof. intros Hr HQ. left. by exists r, a. Qed.

Lemma safely_bind {A B} (f : rdbm A) (k : A -> rdbm B) r Q R :
  safely f r Q -> (forall r' a, inside r' -> Q r' a -> safely (k a) r' R) -> safely (x ← f; k x) r R.
Proof.
  intros Hf Hk. unfold safely, mbind, rdbm_bind in *. destruct Hf as [(r' & a & -> & Hr' & HQ)|[-> Ho]]; [by apply Hk|by right].
Qed.

Lemma safely_calc {A B} (m : res A) v (k : A -> rdbm B) r R : m = Ok v -> safely (k v) r R -> safely (x ← calc m; k x) r R.
Proof. intros -> Hk. exact Hk. Qed.

Lemma safely_report {A} (k : unit -> rdbm A) r R : safely (k tt) r R -> safely (x ← rdbReportCorruptRDB env; k x) r R.
Proof.
  intros Hk. unfold rdbReportCorruptRDB, rdbReportError. destruct (isRestoreContext env) eqn:He; [exact Hk|]. right. split; [|by right].
  by destruct (rdbCheckMode env), (rdbFileBeingLoaded env).
Qed.

Lemma safely_mono {A} (f : rdbm A) r (Q R : rio -> A -> Prop) : safely f r Q -> (forall r' a, Q r' a -> R r' a) -> safely f r R.
Proof. intros [(r' & a & E & Hr & HQ)|HP] HQR; [left; exists r', a; auto|by right]. Qed.

Lemma safely_read n r : 0 <= n -> inside r ->
  safely (rdb_read n) r (fun r' x => forall bs, x = Some bs -> zlen bs = n /\ Forall is_byte bs /\ coming (rio_io r) = bs ++ coming (rio_io r')).
Proof.
  intros Hn [Hr [a Ha]]. left. destruct (rioRead_total r n Hr Hn) as (r' & x & E & [Hr' [b Hb]] & Hx). exists r', x. split; [done|]. split.
  - split; [done|]. exists (a ++ b). by rewrite Ha, Hb, app_assoc.
  - intros bs ->. by destruct Hx as (? & ? & ?).
Qed.

(** A length is in range, and close to the end of the range only if it stands there. *)
Definition good_len (len : Z) : Prop := 0 <= len < 2 ^ 64 /\ (2 ^ 64 - 18 <= len < 2 ^ 64 - 1 -> overlong l0).

Lemma good_small len : 0 <= len < 2 ^ 32 -> good_len len.
Proof. intros Hl. split; lia. Qed.

Lemma be_val n bs : length bs = n -> Forall is_byte bs -> exists v, 0 <= v < 2 ^ (8 * Z.of_nat n) /\ bs = rev (le_bytes n v).
Proof.
  intros Hl Hb. exists (le_val (rev bs)). apply Forall_rev in Hb as Hb'. pose proof (le_val_range _ Hb') as Hr. rewrite zlen_rev in Hr. subst n. split; [exact Hr|].
  rewrite <- (length_rev bs), le_bytes_val by done. by rewrite rev_involutive.
Qed.

Lemma safely_len r : inside r ->
  safely (rdbLoadLenByRef env) r (fun _ x => forall e len, x = Some (e, len) -> good_len len).
Proof.
  intros Hr. unfold rdbLoadLenByRef. eapply safely_bind; [by apply (safely_read 1)|]. intros r1 x Hr1 Hx. destruct x as [bs|]; [|by apply safely_ret].
  destruct (Hx bs eq_refl) as (Hl & Hb & Hc). destruct bs as [|b0 [|]]; [done| |zlia]. apply Forall_cons in Hb as [Hb0 _]. eapply safely_calc; [done|]. cbv beta zeta. rewrite low_bits.
  destruct (_ =? RDB_ENCVAL); [apply safely_ret; [done|]; intros e len [= <- <-]; apply good_small; zdiv|]. destruct (_ =? RDB_6BITLEN); [apply safely_ret; [done|]; intros e len [= <- <-]; apply good_small; zdiv|].
  destruct (_ =? RDB_14BITLEN).
  { eapply safely_bind; [by apply (safely_read 1)|]. intros r2 y Hr2 Hy. destruct y as [bs|]; [|by apply safely_ret]. destruct (Hy bs eq_refl) as (Hl2 & Hb2 & _). destruct bs as [|b1 [|]]; [done| |zlia].
    apply Forall_cons in Hb2 as [Hb1 _]. eapply safely_calc; [done|]. apply safely_ret; [done|]. intros e len [= <- <-]. apply good_small. unfold is_byte in *. rewrite Z.lor_comm, lor_shiftl by lia. zdiv. }
  destruct (b0 =? RDB_32BITLEN).
  { eapply safely_bind; [by apply (safely_read 4)|]. intros r2 y Hr2 Hy. destruct y as [bs|]; [|by apply safely_ret]. destruct (Hy bs eq_refl) as (Hl2 & Hb2 & _).
    destruct (be_val 4 bs) as (v & Hv & ->); [unfold zlen in Hl2; lia|done|]. eapply safely_calc; [by apply ntohl_ok|]. apply safely_ret; [done|]. intros e len [= <- <-]. by apply good_small. }
  destruct (Z.eqb_spec b0 RDB_64BITLEN) as [->|]; [|apply safely_report; by apply safely_ret].
  eapply safely_bind; [by apply (safely_read 8)|]. intros r2 y Hr2 Hy. destruct y as [bs|]; [|by apply safely_ret]. destruct (Hy bs eq_refl) as (Hl2 & Hb2 & Hc2).
  destruct (be_val 8 bs) as (v & Hv & ->); [unfold zlen in Hl2; lia|done|]. eapply safely_calc; [by apply ntohu64_ok|]. apply safely_ret; [done|]. intros e len [= <- <-]. split; [done|].
  intros Hov. destruct Hr as [_ [a Ha]]. exists a, v, (coming (rio_io r2)). split; [|done]. by rewrite Ha, Hc, Hc2.
Qed.

Lemma safely_length r : inside r -> safely (rdbLoadLen env) r (fun _ x => x.2 = RDB_LENERR \/ good_len x.2 /\ x.2 < 2 ^ 64 - 1).
Proof.
  intros Hr. eapply safely_bind; [by apply safely_len|]. intros r' [[e len]|] Hr' Hx; apply safely_ret; [done| |done|by left]. cbn. pose proof (Hx e len eq_refl) as Hg.
  unfold RDB_LENERR. zconst. destruct (decide (len = 2 ^ 64 - 1)); [by left|right]. split; [done|]. destruct Hg. lia.
Qed.

Lemma sds_room_total len : good_len len -> len < 2 ^ 64 - 1 -> (exists b, sds_room len = Ok b /\ (b = true -> len <= max_request)) \/ (sds_room len = Panic /\ overlong l0).
Proof.
  intros [Hl Ho] Hm. destruct (Z.le_gt_cases (2 ^ 64 - 18) len) as [Hge|Hlt].
  - right. split; [|apply Ho; lia]. by apply sds_room_overflow.
  - left. unfold sds_room. cbv zeta. match goal with |- context [sdsHdrSize ?t] => assert (0 < sdsHdrSize t <= 17) as Hh end.
    { unfold sdsReqType. repeat case_match; vm_compute; split; done || discriminate. }
    generalize dependent (sdsHdrSize (if (sdsReqType len =? SDS_TYPE_5) && (len =? 0) then SDS_TYPE_8 else sdsReqType len)). intros h Hh.
    rewrite !wrapU_small by lia. rewrite Z.gtb_ltb. ztrue (len <? len + h + 1). eexists. split; [done|]. intros Hr%Z.leb_le. lia.
Qed.

Lemma safely_room {A} len (k : bool -> rdbm A) r R :
  inside r -> good_len len -> len < 2 ^ 64 - 1 -> (forall b, (b = true -> len <= max_request) -> safely (k b) r R) -> safely (x ← calc (sds_room len); k x) r R.
Proof.
  intros Hr Hg Hl Hk. destruct (sds_room_total len Hg Hl) as [(b & E & Hb)|[E Ho]].
  - eapply safely_calc; [exact E|]. by apply Hk.
  - right. split; [|by left]. unfold mbind, rdbm_bind, calc. by rewrite E.
Qed.

Lemma safely_buffer {A} plain len (k : bool -> rdbm A) r R :
  inside r -> good_len len -> len < 2 ^ 64 - 1 -> (forall b, (b = true -> len <= max_request) -> safely (k b) r R) -> safely (x ← try_buffer plain len; k x) r R.
Proof.
  intros Hr Hg Hl Hk. unfold try_buffer. destruct plain; [|by apply safely_room]. apply (Hk (len <=? max_request)). intros ?%Z.leb_le. done.
Qed.

(** What was loaded is a string, in the form asked for. *)
Definition good_load (flags : Z) (x : option loaded) : Prop := forall l, x = Some l -> exists s, Forall is_byte s /\ loaded_as flags l s.

Lemma safely_integer k r : inside r ->
  safely (load_integer env k) r (fun _ x => forall v, x = Some v -> INT64_MIN <= v <= INT64_MAX).
Proof.
  intros Hr. zconst. unfold load_integer. destruct (k =? RDB_ENC_INT8); [|destruct (k =? RDB_ENC_INT16); [|destruct (k =? RDB_ENC_INT32); [|apply safely_report; by apply safely_ret]]].
  - eapply safely_bind; [by apply (safely_read 1)|]. intros r1 [bs|] Hr1 Hx; [|by apply safely_ret]. destruct (Hx bs eq_refl) as (Hl & _ & _). destruct bs as [|b0 [|]]; [done| |zlia].
    eapply safely_calc; [done|]. apply safely_ret; [done|]. intros v [= <-]. pose proof (wrapS_range 8 b0 ltac:(lia)). lia.
  - eapply safely_bind; [by apply (safely_read 2)|]. intros r1 [bs|] Hr1 Hx; [|by apply safely_ret]. destruct (Hx bs eq_refl) as (Hl & _ & _). destruct bs as [|b0 [|b1 [|]]]; [done|done| |zlia].
    do 2 (eapply safely_calc; [done|]). apply safely_ret; [done|]. intros v [= <-]. pose proof (wrapS_range 16 (Z.lor b0 (Z.shiftl b1 8)) ltac:(lia)). lia.
  - eapply safely_bind; [by apply (safely_read 4)|]. intros r1 [bs|] Hr1 Hx; [|by apply safely_ret]. destruct (Hx bs eq_refl) as (Hl & _ & _). destruct bs as [|b0 [|b1 [|b2 [|b3 [|]]]]]; try zlia.
    do 4 (eapply safely_calc; [done|]). apply safely_ret; [done|]. intros v [= <-]. match goal with |- context [wrapS 32 ?x] => pose proof (wrapS_range 32 x ltac:(lia)) end. lia.
Qed.

Lemma safely_integer_object k flags r : inside r -> safely (rdbLoadIntegerObject cfg env k flags) r (fun _ => good_load flags).
Proof.
  intros Hr. unfold rdbLoadIntegerObject, good_load, loaded_as. cbv zeta. eapply safely_bind; [by apply safely_integer|]. intros r1 [v|] Hr1 Hv; [|by apply safely_ret]. specialize (Hv v eq_refl).
  pose proof (ll_repr_bytes v) as Hb. destruct (Z.land flags RDB_LOAD_PLAIN =? 0); cbn [negb orb].
  2:{ eapply safely_calc; [by apply ll_text_ok|]. apply safely_ret; [done|]. intros l [= <-]. by exists (ll_repr v). }
  destruct (Z.land flags RDB_LOAD_SDS =? 0); cbn [negb orb].
  2:{ eapply safely_calc; [by apply ll_text_ok|]. apply safely_ret; [done|]. intros l [= <-]. by exists (ll_repr v). }
  destruct (Z.eqb_spec (Z.land flags RDB_LOAD_ENC) 0) as [Ee|Ee]; cbn [negb].
  - eapply safely_calc; [by apply sds_ll_text_ok|]. apply safely_ret; [done|]. intros l [= <-]. exists (ll_repr v). pose proof (ll_repr_bound v Hv). cbn. split_and!; [done|lia|done|unfold MAX_STRING; lia|done..].
  - destruct (from_long_long cfg v Hv) as (n & En & Hn). eapply safely_calc; [exact En|]. apply safely_ret; [done|]. intros l [= <-]. by exists (ll_repr v).
Qed.

Lemma safely_lzf_object flags r : max_request < MAX_STRING -> inside r -> safely (rdbLoadLzfStringObject env flags) r (fun _ => good_load flags).
Proof.
  intros Hmax Hr. pose proof (Hmax : max_request < 2 ^ 50) as Hmax'. unfold rdbLoadLzfStringObject, good_load, loaded_as. cbv zeta. eapply safely_bind; [by apply safely_length|]. intros r1 [e1 clen] Hr1 Hc. cbn [snd] in *.
  destruct (Z.eqb_spec clen RDB_LENERR); [by apply safely_ret|]. destruct Hc as [|[[Hc _] _]]; [done|].
  eapply safely_bind; [by apply safely_length|]. intros r2 [e2 len] Hr2 Hl. cbn [snd] in *. destruct (Z.eqb_spec len RDB_LENERR); [by apply safely_ret|]. destruct Hl as [|[Hg Hl]]; [done|].
  destruct (clen <=? max_request); cbn [negb]; [|by apply safely_ret]. apply safely_buffer; [done..|]. intros b Hb. destruct b; cbn [negb]; [|by apply safely_ret]. specialize (Hb eq_refl). pose proof Hg as [[Hl0 _] _].
  eapply safely_bind; [apply safely_read; [lia|done]|]. intros r3 [c|] Hr3 Hx; [|by apply safely_ret]. destruct (Hx c eq_refl) as (_ & Hcb & _).
  pose proof (zlen_fresh_bytes len Hl0) as Hf. destruct (decompress_any c len Hcb Hl0) as (d & Hd & E). eapply safely_calc; [apply E; lia|]. cbv beta.
  destruct d as [er|s].
  - destruct (Z.eqb_spec 0 len) as [<-|]; cbn [negb]; [|apply safely_report; by apply safely_ret]. apply safely_ret; [done|]. intros l [= <-]. exists []. split; [constructor|].
    destruct (_ =? 0); cbn [negb]; [|done]. destruct (Z.land flags RDB_LOAD_SDS =? 0); [|done]. cbn. by split_and!.
  - destruct (Hd s eq_refl) as [Hs Hsb]. destruct (Z.eqb_spec (zlen s) len) as [<-|]; cbn [negb]; [|apply safely_report; by apply safely_ret].
    revert Hf. generalize (fresh_bytes (zlen s)). intros f Hf. rewrite drop_ge, app_nil_r by (unfold zlen in Hf; lia). apply safely_ret; [done|]. intros l [= <-]. exists s. split; [done|]. destruct (_ =? 0); cbn [negb]; [|done].
    destruct (Z.land flags RDB_LOAD_SDS =? 0); [|done]. cbn. split_and!; [done|done|unfold MAX_STRING; lia|done..].
Qed.

Lemma safely_contents {A} len (k : option (list Z) -> rdbm A) r R :
  inside r -> 0 <= len -> (forall r', inside r' -> safely (k None) r' R) -> (forall r' s, inside r' -> zlen s = len -> Forall is_byte s -> safely (k (Some s)) r' R) -> safely (x ← read_contents len; k x) r R.
Proof.
  intros Hr Hl HN HS. unfold read_contents. destruct (Z.eqb_spec len 0) as [->|]; cbn [negb]; [by apply (HS r [])|].
  eapply safely_bind; [by apply safely_read|]. intros r' [s|] Hr' Hs; [|by apply HN]. destruct (Hs s eq_refl) as (? & ? & _). by apply HS.
Qed.

Lemma good_object flags e s :
  negb (Z.land flags RDB_LOAD_PLAIN =? 0) || negb (Z.land flags RDB_LOAD_SDS =? 0) = false -> Forall is_byte s -> zlen s < MAX_STRING ->
  (Z.land flags RDB_LOAD_ENC = 0 -> e = OBJ_ENCODING_RAW) -> good_load flags (Some (LObj (RString e 1 s))).
Proof.
  intros [Ep Es]%orb_false_iff Hs Hl He l [= <-]. exists s. split; [done|]. unfold loaded_as. rewrite Ep, Es. cbn. split_and!; [done..|]. intros Hz. by rewrite (He Hz).
Qed.

(** Loading a string from any input. *)
Lemma safely_string flags r : 44 <= max_request < MAX_STRING -> inside r -> safely (rdbGenericLoadStringObject cfg env flags) r (fun _ => good_load flags).
Proof.
  intros [Hmin Hmax] Hr. unfold rdbGenericLoadStringObject. cbv zeta. eapply safely_bind; [by apply safely_length|]. intros r1 [enc len] Hr1 Hlen. cbn [snd] in *.
  destruct (Z.eqb_spec len RDB_LENERR); [by apply safely_ret|]. destruct Hlen as [|[Hg Hl]]; [done|]. pose proof Hg as [[Hl0 _] _].
  destruct enc.
  { destruct (_ || _ || _); [by apply safely_integer_object|]. destruct (len =? RDB_ENC_LZF); [by apply safely_lzf_object|]. apply safely_report. by apply safely_ret. }
  destruct (_ || _) eqn:Eps.
  - apply safely_buffer; [done..|]. intros b Hb. destruct b; cbn [negb]; [|by apply safely_ret]. apply safely_contents; [done..|intros; by apply safely_ret|].
    intros r2 s Hr2 <- Hs. apply safely_ret; [done|]. intros l [= <-]. exists s. split; [done|]. unfold loaded_as. destruct (_ =? 0); cbn [negb orb] in *; [|done]. by destruct (_ =? 0).
  - assert (forall e r2, inside r2 -> len <= max_request -> (Z.land flags RDB_LOAD_ENC = 0 -> e = OBJ_ENCODING_RAW) ->
      safely (buf ← read_contents len; mret ((fun s => LObj (RString e 1 s)) <$> buf)) r2 (fun _ => good_load flags)) as Hread.
    { intros e r2 Hr2 Hfit Henc. apply safely_contents; [done..|intros; by apply safely_ret|]. intros r3 s Hr3 <- Hs. apply safely_ret; [done|]. apply good_object; [done|done|lia|done]. }
    assert (forall r2, inside r2 -> safely (o ← calc (tryCreateRawStringObject len);
      match o with None => mret None | Some enc => buf ← read_contents len; mret ((fun s => LObj (RString enc 1 s)) <$> buf) end) r2 (fun _ => good_load flags)) as Hraw.
    { intros r2 Hr2. unfold tryCreateRawStringObject. destruct (sds_room_total len Hg Hl) as [(b & E & Hb)|[E Ho]]; rewrite E; [|by right; split; [|left]]. rewrite bind_Ok. destruct b; [|by apply safely_ret]. by apply Hread; [|apply Hb|]. }
    destruct (Z.eqb_spec (Z.land flags RDB_LOAD_ENC) 0) as [Ee|Ee]; cbn [negb]; [by apply Hraw|]. unfold tryCreateStringObject.
    destruct (Z.leb_spec len OBJ_ENCODING_EMBSTR_SIZE_LIMIT) as [Hle|Hgt]; [|by apply Hraw]. eapply safely_calc; [done|]. apply Hread; [done|unfold OBJ_ENCODING_EMBSTR_SIZE_LIMIT in *; lia|done].
Qed.

End Safety.

(** * Theorems *)

(** C6: A string object that is saved on one host is loaded on any other as the same
    string, in whatever form is asked for, whatever the byte orders of the hosts, the
    devices, their chunk sizes and checksums, the settings, and the rest of the
    stream.  Saving writes one code of the string and returns its length, or returns
    -1 with the error flag of the device set. *)
Theorem rdb_string_roundtrip (h1 h2 : Host) `{Allocator} (s1 s2 : Stream) (l1 : @StreamLaws s1) (l2 : @StreamLaws s2) cfg env cfg' env' o s :
  obj_wf o -> obj_str o = Some s -> savable cfg env s ->
  exists code, saves (@rdbSaveStringObject h1 _ s1 cfg env o) code (zlen code) /\
    forall flags, exists l, loads (@rdbGenericLoadStringObject h2 _ s2 cfg' env' flags) code (Some l) /\ loaded_as flags l s.
Proof.
  intros Hw Ho Hs. destruct (@saves_string_object h1 _ s1 l1 cfg env o s Hw Ho Hs) as (code & Henc & Hsave). exists code. split; [exact Hsave|].
  intros flags. destruct Hs as [Hb Hsz Hroom _ _ _]. by apply loads_encoded.
Qed.

(** Lengths and times are the same on every host: what one saves, the other loads.
    The one length that is not read back is the largest, the error value. *)
Theorem rdb_numbers_roundtrip (h1 h2 : Host) (s1 s2 : Stream) (l1 : @StreamLaws s1) (l2 : @StreamLaws s2) env :
  (forall len, 0 <= len < 2 ^ 64 -> exists code, saves (@rdbSaveLen h1 s1 len) code (zlen code) /\ loads (@rdbLoadLen h2 s2 env) code (false, len)) /\
  (forall t rdbver, INT64_MIN <= t <= INT64_MAX -> 9 <= rdbver ->
    exists code, saves (@rdbSaveMillisecondTime h1 s1 t) code 8 /\ loads (@rdbLoadMillisecondTime h2 s2 rdbver) code t).
Proof.
  split.
  - intros len Hl. exists (len_code len). split; [by apply saves_len|by apply loads_length].
  - intros t rdbver Ht Hv. exists (le_bytes 8 t). split; [apply saves_time|by apply loads_time].
Qed.


(** * Examples *)

#[local] Instance sample_allocator : Allocator.
Proof. refine {| max_request := 2 ^ 40; usable_size := fun n => n |}; intros; zconst; lia. Defined.

Definition high_config : config := Config (512 * 1024 * 1024) false true false 65536 2003 (2 ^ 40) 1700000000000 false false false false.
Definition saving : rdb_env := RdbEnv true false false false sample_table.
Definition restoring : rdb_env := RdbEnv true true false false sample_table.
Definition nowhere : list Z -> Z := fun _ => 0.

Lemma sample_savable : savable high_config saving sample_text.
Proof. split; [by repeat constructor|done|done|done|done|]. intros i. done. Qed.

(** What is in the buffer after a function on it, and its result. *)
Definition in_buffer {A} (f : @rdbm (buffer_stream nowhere) A) (s : list Z) : option (list Z * A) :=
  match f (rioInitWithBuffer nowhere s) with Ok (r, a) => Some ((rio_io r : list Z * Z).1, a) | _ => None end.

(** A run of equal bytes is saved in compressed form. *)
Lemma save_sample : in_buffer (@rdbSaveStringObject little_host _ _ high_config saving (createRawStringObject sample_text)) [] = Some ([195; 9; 40] ++ sample_code, 12).
Proof. vm_compute. reflexivity. Qed.

Lemma rdb_string_roundtrip_witness :
  exists code, saves (@rdbSaveStringObject little_host _ (buffer_stream nowhere) high_config saving (createRawStringObject sample_text)) code (zlen code) /\
    exists l, loads (@rdbGenericLoadStringObject big_host _ (buffer_stream nowhere) sample_config restoring RDB_LOAD_ENC) code (Some l) /\ loaded_as RDB_LOAD_ENC l sample_text.
Proof.
  destruct (rdb_string_roundtrip little_host big_host (buffer_stream nowhere) (buffer_stream nowhere) _ _ high_config saving sample_config restoring (createRawStringObject sample_text) sample_text) as (code & Hs & Hl);
    [by repeat constructor|reflexivity|exact sample_savable|].
  exists code. split; [exact Hs|]. exact (Hl RDB_LOAD_ENC).
Defined.

Lemma rdb_numbers_roundtrip_witness :
  exists code, saves (@rdbSaveLen little_host (buffer_stream nowhere) 70000) code (zlen code) /\ loads (@rdbLoadLen big_host (buffer_stream nowhere) restoring) code (false, 70000).
Proof. apply (rdb_numbers_roundtrip little_host big_host (buffer_stream nowhere) (buffer_stream nowhere) _ _ restoring). done. Defined.

