(* ===== verification/RdbObject.v ===== *)
(** Objects in RDB format ([rdb.c], [rdb.h]): the type byte and the value of an object
    on a stream.

    Strings are saved and loaded by [Rdb]; how the values of the other types are
    encoded is a parameter. *)
From S2P Require Import Prelude Endian Util Sds Object StringCommands Lzf Crc Rio Rdb.
From stdpp Require Import list strings.

Open Scope Z_scope.

(** * Definitions *)

Definition RDB_TYPE_STRING : Z := 0.

Definition rdbIsObjectType (t : Z) : bool := ((t >=? 0) && (t <=? 7)) || ((t >=? 9) && (t <=? 19)).

(** What [*error] tells when [rdbLoadObject] returns [NULL]. *)
Inductive load_error := RDB_LOAD_ERR_EMPTY_KEY | RDB_LOAD_ERR_OTHER.

(** The encodings of the types that are no strings: the type byte, the contents, and
    how they are loaded, given the key. *)
Record other_types `{Stream} := OtherTypes {
  other_type : robj -> Z;
  save_other : robj -> list Z -> rdbm Z;
  load_other : Z -> list Z -> rdbm (load_error + robj);
}.

Section Objects.
Context `{Host} `{Allocator} `{Stream} (cfg : config) (env : rdb_env) (ot : other_types).

Definition rdbSaveObjectType (o : robj) : rdbm Z :=
  match type o with
  | OBJ_STRING => rdbSaveType RDB_TYPE_STRING
  | _ => rdbSaveType (other_type ot o)
  end.

Definition rdbSaveObject (o : robj) (key : list Z) : rdbm Z :=
  match type o with
  | OBJ_STRING =>
      n ← rdbSaveStringObject cfg env o;
      if n =? -1 then mret (-1) else mret n
  | _ => save_other ot o key
  end.

Definition rdbLoadObjectType : rdbm Z :=
  type ← rdbLoadType;
  if type =? -1 then mret (-1)
  else if negb (rdbIsObjectType type) then mret (-1)
  else mret type.

(** [NULL] with the error, or the object. *)
Definition rdbLoadObject (rdbtype : Z) (key : list Z) : rdbm (load_error + robj) :=
  if rdbtype =? RDB_TYPE_STRING then
    o ← rdbLoadEncodedStringObject cfg env;
    match o with
    | None => mret (inl RDB_LOAD_ERR_OTHER)
    | Some (LObj o) => o ← calc (tryObjectEncoding cfg o); mret (inr o)
    | Some _ => calc Fault
    end
  else load_other ot rdbtype key.

End Objects.

(** * Lemmas *)

Lemma zlen_len_code len : zlen (len_code len) <= 9.
Proof. unfold len_code. destruct (_ <? 64); [done|]. destruct (_ <? 16384); [done|]. destruct (_ <=? UINT32_MAX); zlia. Qed.

Lemma encodes_len code s : encodes code s -> zlen code <= zlen s + 24.
Proof.
  pose proof (zlen_nonneg s). destruct 1 as [v _ _|c s _ Hc|s].
  - assert (zlen (rdbEncodeInteger v) <= 5); [|lia]. unfold rdbEncodeInteger. repeat case_match; done.
  - rewrite !zlen_app. pose proof (zlen_len_code (zlen c)). pose proof (zlen_len_code (zlen s)). change (zlen [195]) with 1. lia.
  - rewrite !zlen_app. pose proof (zlen_len_code (zlen s)). lia.
Qed.

Lemma encodes_pos code s : encodes code s -> zlen s < 2 ^ 64 -> 0 < zlen code.
Proof.
  pose proof (zlen_nonneg s). destruct 1 as [v _ Hne|c s _ Hc|s]; intros Hl; [destruct (rdbEncodeInteger v); [done|zlia]|zlia|].
  destruct (len_code_bytes (zlen s)) as [_ ?]; [lia|]. rewrite zlen_app. lia.
Qed.

Section ObjectLemmas.
Context `{Host} `{Allocator} `{StreamLaws} (cfg : config) (env : rdb_env) (ot : other_types).

Lemma loads_type t : is_byte t -> loads rdbLoadType [t] t.
Proof.
  intros Ht. unfold rdbLoadType. eapply loads_then; [by apply (loads_read 1 [t])|]. intros r rest Hr. exact (loads_ret t r rest Hr).
Qed.

Lemma loads_object_type : loads rdbLoadObjectType [0] 0.
Proof. unfold rdbLoadObjectType. apply (loads_then _ [0] 0); [by apply loads_type|apply loads_ret]. Qed.

Lemma saves_object_type o s : obj_str o = Some s -> saves (rdbSaveObjectType ot o) [0] 1.
Proof. intros Ho. unfold rdbSaveObjectType. assert (type o = OBJ_STRING) as -> by (by destruct o). apply (saves_write [0]). by forall_list. Qed.

(** Saving a string writes one of its codes, and from any of them it is loaded. *)
Lemma saves_object o key s : obj_wf o -> obj_str o = Some s -> savable cfg env s ->
  exists code, encodes code s /\ 0 < zlen code /\ saves (rdbSaveObject cfg env ot o key) code (zlen code).
Proof.
  intros Hw Ho Hs. destruct (saves_string_object cfg env o s Hw Ho Hs) as (code & Henc & Hsave). exists code. split; [done|].
  assert (0 < zlen code) as Hpos by (apply (encodes_pos code s Henc); destruct Hs; unfold MAX_STRING in *; lia). split; [done|].
  unfold rdbSaveObject. assert (type o = OBJ_STRING) as -> by (by destruct o). apply (saves_sum _ _ (zlen code) (fun n => n)); [exact Hsave|lia].
Qed.

Lemma loads_object code key s : encodes code s -> Forall is_byte s -> zlen s < MAX_STRING -> zlen s + 18 <= max_request ->
  exists o, loads (rdbLoadObject cfg env ot RDB_TYPE_STRING key) code (inr o) /\ stands_for s o.
Proof.
  intros Henc Hb Hsz Hroom. destruct (loads_encoded cfg env RDB_LOAD_ENC code s Henc Hb Hsz Hroom) as (l & Hl & Has).
  change (match l with LObj o => obj_wf o /\ obj_str o = Some s /\ (Z.land RDB_LOAD_ENC RDB_LOAD_ENC = 0 -> is_raw o = true) | _ => False end) in Has.
  destruct l as [?|?|o]; [done..|]. destruct Has as (Hw & Hs & _). destruct (encode_object_ok cfg o s (conj Hw Hs)) as (o' & Eo & Ho'). exists o'. split; [|done].
  unfold rdbLoadObject, rdbLoadEncodedStringObject. cbn [Z.eqb RDB_TYPE_STRING]. eapply loads_then; [exact Hl|]. eapply loads_calc; [exact Eo|]. apply loads_ret.
Qed.

End ObjectLemmas.

(** ** Arbitrary input *)

Section ObjectSafety.
Context `{Host} `{Allocator} `{StreamLaws} (cfg : config) (env : rdb_env) (ot : other_types) (l0 : list Z).

(** A type that is read is the byte that came next. *)
Lemma safely_type r : inside l0 r ->
  safely env l0 rdbLoadType r (fun r' t => t = -1 \/ (is_byte t /\ coming (rio_io r) = t :: coming (rio_io r'))).
Proof.
  intros Hr. unfold rdbLoadType. eapply safely_bind; [by apply (safely_read env l0 1)|]. intros r1 x Hr1 Hx. destruct x as [bs|]; [|apply safely_ret; auto].
  destruct (Hx bs eq_refl) as (Hl & Hb & Hc). destruct bs as [|b [|]]; [done| |zlia]. apply (safely_ret env l0 b); [done|]. right. split; [by inversion Hb|done].
Qed.

Context (Hmem : 44 <= max_request < MAX_STRING).

Lemma safely_object key r : inside l0 r ->
  safely env l0 (rdbLoadObject cfg env ot RDB_TYPE_STRING key) r (fun _ v => forall obj, v = inr obj -> exists t, stands_for t obj).
Proof.
  intros Hr. unfold rdbLoadObject, rdbLoadEncodedStringObject. cbn [Z.eqb RDB_TYPE_STRING]. eapply safely_bind; [by apply safely_string|].
  intros r2 x Hr2 Hx. destruct x as [l|]; [|by apply safely_ret]. destruct (Hx l eq_refl) as (s & Hs & Has).
  change (match l with LObj o => obj_wf o /\ obj_str o = Some s /\ (Z.land RDB_LOAD_ENC RDB_LOAD_ENC = 0 -> is_raw o = true) | _ => False end) in Has.
  destruct l as [?|?|o]; [done..|]. destruct Has as (Hw & Hos & _). destruct (encode_object_ok cfg o s (conj Hw Hos)) as (o' & Eo & Ho').
  eapply safely_calc; [exact Eo|]. apply safely_ret; [done|]. intros obj [= <-]. by exists s.
Qed.

End ObjectSafety.
