(* ===== verification/Db.v ===== *)
(** The key space of one database ([db.c], key types of [server.c]): two
    dictionaries, one from keys to objects and one from keys to expire times, with
    the lookups that expire keys on the way.

    The operations here implement the interface [Keyspace] of [Object] on top of
    [Dict], incremental rehashing included, and satisfy its laws; so everything
    that is proved of the command handlers against the interface holds of them on
    this database.  What other parts of the server are told (notifications,
    propagated deletions, objects to free) is collected in a log.  The access time
    that eviction uses is not part of the objects, and cluster mode, which keeps
    further links between entries, is off. *)
From S2P Require Import Prelude Endian Util Glob Sds Dict Object.
From stdpp Require Import gmap list strings.

Open Scope Z_scope.

(** * Definitions *)

(** What the code reads of the server and of its surroundings while one command
    runs.  [script_time] is the time a running script started at. *)
Record env := Env {
  dictGenHashFunction : list Z -> Z;
  overMaxmemoryAfterAlloc : Z -> bool;
  dict_can_resize : bool;
  uninit_obj : robj;
  uninit_time : Z;
  masterhost : bool;
  repl_slave_ro : bool;
  current_client_is_master : bool;
  loading : bool;
  script_time : option Z;
  fixed_time_expire : Z;
  cached_mstime : Z;
  clock_mstime : Z;
  clients_paused : bool;
  lazy_expire : bool;
  lazy_server_del : bool;
}.

Inductive db_event :=
| KeyMiss (key : list Z)
| KeyNew (key : list Z)
| KeyExpired (key : list Z)
| KeyUnlinked (key : list Z) (o : robj)
| KeyReady (key : list Z) (t : object_type)
| KeyModified (key : list Z)
| PropagateDeletion (key : list Z) (lazy : bool)
| ReleaseObject (o : robj) (async : bool)
| RememberSlaveKey (key : list Z).

Record redisDb := RedisDb {
  db_dict : dict (list Z) robj;
  db_expires : dict (list Z) Z;
  stat_keyspace_hits : Z;
  stat_keyspace_misses : Z;
  stat_expiredkeys : Z;
  db_log : list db_event;
}.

(** Code that works on the database. *)
Definition dbm (A : Type) : Type := redisDb -> res (redisDb * A).

#[export] Instance dbm_ret : MRet dbm := fun A a db => Ok (db, a).

#[export] Instance dbm_bind : MBind dbm := fun A B k m db =>
  match m db with
  | Ok (db, a) => k a db
  | Panic => Panic
  | Fault => Fault
  | OutOfFuel => OutOfFuel
  end.

Definition on_dict {A} (f : dict (list Z) robj -> res (dict (list Z) robj * A)) : dbm A := fun db =>
  match f (db_dict db) with
  | Ok (d, a) => Ok (RedisDb d (db_expires db) (stat_keyspace_hits db) (stat_keyspace_misses db) (stat_expiredkeys db) (db_log db), a)
  | Panic => Panic
  | Fault => Fault
  | OutOfFuel => OutOfFuel
  end.

Definition on_expires {A} (f : dict (list Z) Z -> res (dict (list Z) Z * A)) : dbm A := fun db =>
  match f (db_expires db) with
  | Ok (d, a) => Ok (RedisDb (db_dict db) d (stat_keyspace_hits db) (stat_keyspace_misses db) (stat_expiredkeys db) (db_log db), a)
  | Panic => Panic
  | Fault => Fault
  | OutOfFuel => OutOfFuel
  end.

Definition log (e : db_event) : dbm unit := fun db =>
  Ok (RedisDb (db_dict db) (db_expires db) (stat_keyspace_hits db) (stat_keyspace_misses db) (stat_expiredkeys db) (db_log db ++ [e]), tt).

(** The statistics are [long long] counters. *)
Definition add_stats (hits misses expired : Z) : dbm unit := fun db =>
  Ok (RedisDb (db_dict db) (db_expires db) (stat_keyspace_hits db + hits) (stat_keyspace_misses db + misses)
        (stat_expiredkeys db + expired) (db_log db), tt).

Definition serverAssert (b : bool) : dbm unit := fun db => if b then Ok (db, tt) else Panic.

Definition flag (flags f : Z) : bool := negb (Z.land flags f =? 0).

Definition EXPIRE_FORCE_DELETE_EXPIRED : Z := 1.
Definition EXPIRE_AVOID_DELETE_EXPIRED : Z := 2.

(** The lengths are [int], the length given to [memcmp] is a [size_t]. *)
Definition dictSdsKeyCompare (key1 key2 : list Z) : bool :=
  let l1 := wrapS 32 (zlen key1) in
  let l2 := wrapS 32 (zlen key2) in
  if negb (l1 =? l2) then false
  else bool_decide (take (Z.to_nat (wrapU 64 l1)) key1 = take (Z.to_nat (wrapU 64 l1)) key2).

(** The ratio is [used / size]; the sizes are powers of two, far below the point
    where the rounding of 1.618 to a [double] could be seen. *)
Definition dictExpandAllowed (e : env) (moreMem : Z) (usedRatio : Z * Z) : bool :=
  if usedRatio.1 * 1000 <=? 1618 * usedRatio.2 then negb (overMaxmemoryAfterAlloc e moreMem) else true.

Definition dbDictType (e : env) : dictType (list Z) robj := {|
  hashFunction := dictGenHashFunction e;
  keyDup := None;
  valDup := None;
  keyCompare := Some dictSdsKeyCompare;
  expandAllowed := Some (dictExpandAllowed e);
|}.

Definition dbExpiresDictType (e : env) : dictType (list Z) Z := {|
  hashFunction := dictGenHashFunction e;
  keyDup := None;
  valDup := None;
  keyCompare := Some dictSdsKeyCompare;
  expandAllowed := Some (dictExpandAllowed e);
|}.

(** The entry a pointer returned for the key designates. *)
Definition bucket_entry {V} (type : dictType (list Z) V) (d : dict (list Z) V) (key : list Z) : res entry_loc :=
  let h := dictHashKey type key in
  let idx := entry_idx d false h in
  b ← bucket d false idx;
  match chain_find type key b with
  | Some pos => Ok (false, idx, pos)
  | None =>
      let idx := entry_idx d true h in
      b ← bucket d true idx;
      match chain_find type key b with Some pos => Ok (true, idx, pos) | None => Fault end
  end.

(** A store through a pointer to the entry of the key. *)
Definition store_val {V} (type : dictType (list Z) V) (key : list Z) (val : V) (d : dict (list Z) V) : res (dict (list Z) V * unit) :=
  l ← bucket_entry type d key;
  d ← entry_set_val type d l val;
  Ok (d, tt).

Module Db.

Section Db.
Context (e : env).
Notation find_key key := (on_dict (fun d => dictFind (dbDictType e) d key)).

Definition signalKeyAsReady (key : list Z) (t : object_type) : dbm unit := log (KeyReady key t).

Definition dbAdd (key : list Z) (val : robj) : dbm unit :=
  de ← on_dict (fun d => dictAddRaw (dbDictType e) (uninit_obj e) (dict_can_resize e) d key);
  match de with
  | inr _ => serverAssert false
  | inl de =>
      on_dict (fun d => d ← entry_set_val (dbDictType e) d de val; Ok (d, tt));;
      signalKeyAsReady key (type val);;
      log (KeyNew key)
  end.

Definition dbAddRDBLoad (key : list Z) (val : robj) : dbm bool :=
  de ← on_dict (fun d => dictAddRaw (dbDictType e) (uninit_obj e) (dict_can_resize e) d key);
  match de with
  | inr _ => mret false
  | inl de =>
      on_dict (fun d => d ← entry_set_val (dbDictType e) d de val; Ok (d, tt));;
      mret true
  end.

Definition dbOverwrite (key : list Z) (val : robj) : dbm unit :=
  de ← find_key key;
  match de with
  | None => serverAssert false
  | Some de =>
      let old := de_val de in
      log (KeyUnlinked key old);;
      (if bool_decide (type old = OBJ_STREAM) then signalKeyAsReady key (type old) else mret tt);;
      on_dict (store_val (dbDictType e) key val);;
      log (ReleaseObject old (lazy_server_del e))
  end.

Definition dbGenericDelete (key : list Z) (async : bool) : dbm bool :=
  n ← on_expires (fun d => Ok (d, dictSize d));
  (if n >? 0 then on_expires (fun d => dictDelete (dbExpiresDictType e) d key);; mret tt else mret tt);;
  de ← on_dict (fun d => dictUnlink (dbDictType e) d key);
  match de with
  | Some de =>
      let val := de_val de in
      log (KeyUnlinked key val);;
      (if bool_decide (type val = OBJ_STREAM) then signalKeyAsReady key (type val) else mret tt);;
      log (ReleaseObject val async);;
      mret true
  | None => mret false
  end.

Definition dbSyncDelete (key : list Z) : dbm bool := dbGenericDelete key false.
Definition dbAsyncDelete (key : list Z) : dbm bool := dbGenericDelete key true.

Definition removeExpire (key : list Z) : dbm bool :=
  de ← find_key key;
  serverAssert (bool_decide (is_Some de));;
  st ← on_expires (fun d => dictDelete (dbExpiresDictType e) d key);
  mret (match st with DICT_OK => true | DICT_ERR => false end).

(** On behalf of a [client], or with [c == NULL]. *)
Definition setExpire (client : bool) (key : list Z) (when : Z) : dbm unit :=
  kde ← find_key key;
  match kde with
  | None => serverAssert false
  | Some kde =>
      de ← on_expires (fun d => dictAddOrFind (dbExpiresDictType e) (uninit_time e) (dict_can_resize e) d (de_key kde));
      match de with
      | None => fun _ => Fault
      | Some de =>
          on_expires (fun d => d ← entry_set_val (dbExpiresDictType e) d de when; Ok (d, tt));;
          let writable_slave := masterhost e && negb (repl_slave_ro e) in
          if client && writable_slave && negb (current_client_is_master e) then log (RememberSlaveKey key) else mret tt
      end
  end.

Definition getExpire (key : list Z) : dbm Z :=
  n ← on_expires (fun d => Ok (d, dictSize d));
  if n =? 0 then mret (-1)
  else
    de ← on_expires (fun d => dictFind (dbExpiresDictType e) d key);
    match de with
    | None => mret (-1)
    | Some de =>
        kde ← find_key key;
        serverAssert (bool_decide (is_Some kde));;
        mret (de_val de)
    end.

Definition propagateDeletion (key : list Z) (lazy : bool) : dbm unit := log (PropagateDeletion key lazy).

Definition deleteExpiredKeyAndPropagate (keyobj : list Z) : dbm unit :=
  (if lazy_expire e then dbAsyncDelete keyobj else dbSyncDelete keyobj);;
  log (KeyExpired keyobj);;
  log (KeyModified keyobj);;
  propagateDeletion keyobj (lazy_expire e);;
  add_stats 0 0 1.

Definition keyIsExpired (key : list Z) : dbm bool :=
  when ← getExpire key;
  if when <? 0 then mret false
  else if loading e then mret false
  else
    let now :=
      match script_time e with
      | Some t => t
      | None => if fixed_time_expire e >? 0 then cached_mstime e else clock_mstime e
      end in
    mret (now >? when).

Definition expireIfNeeded (key : list Z) (flags : Z) : dbm bool :=
  exp ← keyIsExpired key;
  if negb exp then mret false
  else if masterhost e && current_client_is_master e then mret false
  else if masterhost e && negb (flag flags EXPIRE_FORCE_DELETE_EXPIRED) then mret true
  else if flag flags EXPIRE_AVOID_DELETE_EXPIRED then mret true
  else if clients_paused e then mret true
  else deleteExpiredKeyAndPropagate key;; mret true.

Definition lookupKey (key : list Z) (flags : Z) : dbm (option robj) :=
  de ← find_key key;
  val ← match de with
        | None => mret None
        | Some de =>
            let is_ro_replica := masterhost e && repl_slave_ro e in
            let expire_flags := 0 in
            let expire_flags :=
              if flag flags LOOKUP_WRITE && negb is_ro_replica then Z.lor expire_flags EXPIRE_FORCE_DELETE_EXPIRED else expire_flags in
            let expire_flags :=
              if flag flags LOOKUP_NOEXPIRE then Z.lor expire_flags EXPIRE_AVOID_DELETE_EXPIRED else expire_flags in
            gone ← expireIfNeeded key expire_flags;
            mret (if (gone : bool) then None else Some (de_val de))
        end;
  (match val with
   | Some _ => if negb (flag flags (Z.lor LOOKUP_NOSTATS LOOKUP_WRITE)) then add_stats 1 0 0 else mret tt
   | None =>
       (if negb (flag flags (Z.lor LOOKUP_NONOTIFY LOOKUP_WRITE)) then log (KeyMiss key) else mret tt);;
       (if negb (flag flags (Z.lor LOOKUP_NOSTATS LOOKUP_WRITE)) then add_stats 0 1 0 else mret tt)
   end);;
  mret val.

Definition lookupKeyReadWithFlags (key : list Z) (flags : Z) : dbm (option robj) :=
  serverAssert (negb (flag flags LOOKUP_WRITE));;
  lookupKey key flags.

Definition lookupKeyWriteWithFlags (key : list Z) (flags : Z) : dbm (option robj) :=
  lookupKey key (Z.lor flags LOOKUP_WRITE).

(** A command changes the object stored at a key through its pointer. *)
Definition write_object (key : list Z) (o : robj) : dbm unit := on_dict (store_val (dbDictType e) key o).

End Db.

End Db.

(** The implementation of the interface the command handlers use. *)
Definition redis_keyspace (e : env) : Keyspace redisDb := {|
  lookupKeyReadWithFlags := Db.lookupKeyReadWithFlags e;
  lookupKeyWriteWithFlags := Db.lookupKeyWriteWithFlags e;
  dbAdd := Db.dbAdd e;
  dbOverwrite := Db.dbOverwrite e;
  dbGenericDelete := Db.dbGenericDelete e;
  lazyfree_lazy_server_del := lazy_server_del e;
  getExpire := Db.getExpire e;
  setExpire := Db.setExpire e true;
  removeExpire := Db.removeExpire e;
  expireIfNeeded k := Db.expireIfNeeded e k 0;
  write_object := Db.write_object e;
|}.

Definition empty_db : redisDb := RedisDb dictCreate dictCreate 0 0 0 [].

(** * Lemmas *)

(** ** Keys *)

Definition short (key : list Z) : Prop := zlen key < 2 ^ 31.

Lemma short_compare a b : short a -> short b -> dictSdsKeyCompare a b = bool_decide (a = b).
Proof.
  unfold short, dictSdsKeyCompare. intros Ha Hb. pose proof (zlen_nonneg a). pose proof (zlen_nonneg b).
  assert (forall n, 0 <= n < 2 ^ 31 -> wrapS 32 n = n) as Hs by (intros n Hn; unfold wrapS; rewrite Z.mod_small; lia).
  rewrite !Hs by lia. destruct (Z.eqb_spec (zlen a) (zlen b)) as [E|E]; cbn [negb].
  - rewrite wrapU_small by lia. by rewrite !take_ge by (unfold zlen in *; lia).
  - symmetry. apply bool_decide_eq_false. by intros ->.
Qed.

(** The dictionary types with the comparison the code means. *)
Definition key_type {V} (e : env) (cmp : list Z -> list Z -> bool) : dictType (list Z) V := {|
  hashFunction := dictGenHashFunction e;
  keyDup := None;
  valDup := None;
  keyCompare := Some cmp;
  expandAllowed := Some (dictExpandAllowed e);
|}.

Section Dictionaries.
Context {V : Type} (e : env) (Hhash : forall k, 0 <= dictGenHashFunction e k < 2 ^ 64).
Notation T := (key_type (V := V) e dictSdsKeyCompare).
Notation T' := (key_type (V := V) e (fun a b => bool_decide (a = b))).
Notation dict := (dict (list Z) V).
Notation wf := (dict_wf T' (id : list Z -> list Z)).
Notation keys d := (to_map (id : list Z -> list Z) (entries d)).
Implicit Types (d : dict) (u : V) (key : list Z).

Lemma exact_type_ok : dictType_ok T' (id : list Z -> list Z).
Proof using Hhash. split; try done. intros a b E. cbn in *. by rewrite E. Qed.
Local Hint Resolve exact_type_ok : core.

Definition all_short d : Prop := forall k, is_Some (keys d !! k) -> short k.

Lemma map_entry d en : wf d -> en ∈ entries d -> keys d !! de_key en = Some en.
Proof. intros Hw Hin. apply map_lookup; [apply Hw|by split]. Qed.

Lemma entry_key d k en : wf d -> keys d !! k = Some en -> de_key en = k /\ en ∈ entries d.
Proof. intros Hw E. apply map_lookup in E as [? ?]; [done|apply Hw]. Qed.

Lemma bucket_entries d i idx b en : bucket d i idx = Ok b -> en ∈ b -> en ∈ entries d.
Proof.
  intros (t & Ht & Hb & _)%bucket_inv Hin. unfold entries. apply elem_of_app.
  assert (en ∈ ht_entries (ht d i)) as He.
  { unfold ht_entries. rewrite Ht. apply list_elem_of_join. exists b. split; [done|by eapply list_elem_of_lookup_2]. }
  destruct i; [by right|by left].
Qed.

Lemma chain_ext key b : short key -> (forall en, en ∈ b -> short (de_key en)) -> chain_find T key b = chain_find T' key b.
Proof.
  intros Hk. induction b as [|en b IH]; intros Hb; [done|]. cbn [chain_find]. unfold dictCompareKeys. cbn [keyCompare key_type].
  rewrite short_compare by (done || apply Hb; constructor). rewrite IH; [done|]. intros en' Hin. apply Hb. by constructor.
Qed.

Lemma bucket_chain d i idx b key :
  wf d -> all_short d -> short key -> bucket d i idx = Ok b -> chain_find T key b = chain_find T' key b.
Proof.
  intros Hw Hs Hk Hb. apply chain_ext; [done|]. intros en Hin. apply Hs. rewrite (map_entry d en); [by eexists|done|].
  by eapply bucket_entries.
Qed.

Lemma perm_short d d' : wf d -> entries d' ≡ₚ entries d -> all_short d -> all_short d'.
Proof. intros Hw Hp Hs k. rewrite <- (map_perm id _ _ (wf_nodup _ _ _ Hw) (symmetry Hp)). apply Hs. Qed.

Lemma find_in_ext d i key : wf d -> all_short d -> short key ->
  find_in T d i (dictHashKey T key) key = find_in T' d i (dictHashKey T' key) key.
Proof.
  intros Hw Hs Hk. unfold find_in. change (dictHashKey T key) with (dictHashKey T' key). destruct (bucket _ _ _) as [b| | |] eqn:E; try done.
  rewrite !bind_Ok. by rewrite (bucket_chain d i _ b key Hw Hs Hk E).
Qed.

Lemma delete_in_ext d i key : wf d -> all_short d -> short key ->
  delete_in T d i (dictHashKey T key) key = delete_in T' d i (dictHashKey T' key) key.
Proof.
  intros Hw Hs Hk. unfold delete_in. change (dictHashKey T key) with (dictHashKey T' key). destruct (bucket _ _ _) as [b| | |] eqn:E; try done.
  rewrite !bind_Ok. by rewrite (bucket_chain d i _ b key Hw Hs Hk E).
Qed.

Lemma find_ext d key : wf d -> all_short d -> short key -> dictFind T d key = dictFind T' d key.
Proof using Hhash.
  intros Hw Hs Hk. unfold dictFind. destruct (_ =? 0); [done|]. change (_dictRehashStep T d) with (_dictRehashStep T' d).
  destruct (dict_step_ok T' id exact_type_ok d Hw) as (d1 & -> & Hw1 & Hp & _). rewrite !bind_Ok.
  pose proof (perm_short _ _ Hw Hp Hs) as Hs1. cbv zeta. by rewrite !find_in_ext.
Qed.

Lemma generic_delete_ext d key : wf d -> all_short d -> short key -> dictGenericDelete T d key = dictGenericDelete T' d key.
Proof using Hhash.
  intros Hw Hs Hk. unfold dictGenericDelete. destruct (_ =? 0); [done|]. change (_dictRehashStep T d) with (_dictRehashStep T' d).
  destruct (dict_step_ok T' id exact_type_ok d Hw) as (d1 & -> & Hw1 & Hp & _). rewrite !bind_Ok.
  pose proof (perm_short _ _ Hw Hp Hs) as Hs1. cbv zeta. rewrite delete_in_ext by done.
  destruct (delete_in T' d1 false _ key) as [[d2 [he|]]| | |] eqn:E; try done. rewrite !bind_Ok. destruct (dictIsRehashing d2) eqn:Er; [|done]. cbn [negb].
  assert (d2 = d1) as ->; [|by rewrite delete_in_ext].
  unfold delete_in in E. destruct (bucket _ _ _) as [b| | |]; try done. rewrite bind_Ok in E. destruct (chain_find _ _ _) as [pos|]; [|by simplify_eq].
  destruct (b !! pos); [|done]. destruct (set_bucket _ _ _ _); simplify_eq.
Qed.

Lemma add_raw_ext u can d key : wf d -> zlen (entries d) < MAX_ENTRIES -> all_short d -> short key ->
  dictAddRaw T u can d key = dictAddRaw T' u can d key.
Proof using Hhash.
  intros Hw Hmax Hs Hk. unfold dictAddRaw. change (_dictRehashStep T d) with (_dictRehashStep T' d).
  destruct (dict_step_ok T' id exact_type_ok d Hw) as (d1 & -> & Hw1 & Hp & _). rewrite !bind_Ok.
  pose proof (perm_short _ _ Hw Hp Hs) as Hs1. rewrite <- (zlen_perm _ _ Hp) in Hmax.
  enough (_dictKeyIndex T can d1 key (dictHashKey T key) = _dictKeyIndex T' can d1 key (dictHashKey T' key)) as -> by done.
  unfold _dictKeyIndex. change (_dictExpandIfNeeded T can d1) with (_dictExpandIfNeeded T' can d1). change (dictHashKey T key) with (dictHashKey T' key).
  destruct (expand_if_needed_ok T' id can d1 Hw1 Hmax) as (d2 & -> & Hw2 & He & _). rewrite !bind_Ok.
  assert (all_short d2) as Hs2 by (eapply (perm_short d1); [done|by rewrite He|done]).
  cbv zeta. destruct (bucket d2 false _) as [b| | |] eqn:Eb; try done. rewrite !bind_Ok, (bucket_chain d2 false _ b key) by done.
  destruct (chain_find T' key b); [done|]. destruct (negb _); [done|].
  destruct (bucket d2 true _) as [b'| | |] eqn:Eb'; try done. rewrite !bind_Ok. by rewrite (bucket_chain d2 true _ b' key Hw2 Hs2 Hk Eb').
Qed.

(** The operations on keys the comparison can handle. *)
Lemma find_key_ok d key : wf d -> all_short d -> short key ->
  exists d', dictFind T d key = Ok (d', keys d !! key) /\ wf d' /\ keys d' = keys d.
Proof using Hhash.
  intros Hw Hs Hk. rewrite find_ext by done. destruct (dict_find_ok T' id exact_type_ok d key Hw) as (d' & E & Hw' & Hp & _).
  exists d'. split_and!; [done..|]. by apply map_perm; [apply Hw'|].
Qed.

Lemma unlink_key_ok d key : wf d -> all_short d -> short key ->
  exists d', dictGenericDelete T d key = Ok (d', keys d !! key) /\ wf d' /\ keys d' = delete key (keys d).
Proof using Hhash.
  intros Hw Hs Hk. rewrite generic_delete_ext by done. destruct (generic_delete_ok T' id exact_type_ok d key Hw) as (d' & E & Hw' & Hm & _). eauto.
Qed.

Lemma set_at_ok d l en v : wf d -> points_to T' d l en ->
  exists d', entry_set_val T d l v = Ok d' /\ wf d' /\ keys d' = <[de_key en := Entry (de_key en) v]> (keys d).
Proof.
  intros Hw Hp. change (entry_set_val T d l v) with (entry_set_val T' d l v).
  destruct (set_val_at T' id d l en v Hw Hp) as (d' & R & E & Hw' & HR & HR' & _). exists d'. split_and!; [done..|].
  rewrite (map_perm id _ _ (wf_nodup _ _ _ Hw) HR), (map_perm id _ _ (wf_nodup _ _ _ Hw') HR'). unfold to_map. cbn. by rewrite insert_insert_eq.
Qed.

Lemma add_key_ok u can d key : wf d -> zlen (entries d) < MAX_ENTRIES -> all_short d -> short key ->
  exists d' r, dictAddRaw T u can d key = Ok (d', r) /\ wf d' /\
    match keys d !! key with
    | Some en => exists l, r = inr (Some l) /\ points_to T' d' l en /\ keys d' = keys d
    | None => exists l, r = inl l /\ points_to T' d' l (Entry key u) /\ keys d' = <[key := Entry key u]> (keys d)
    end.
Proof using Hhash.
  intros Hw Hmax Hs Hk. rewrite add_raw_ext by done.
  destruct (add_raw_ok T' id exact_type_ok u can d key Hw Hmax) as (d' & r & E & Hw' & _ & Hr). exists d', r. split_and!; [done..|].
  destruct r as [l|[l|]]; [| |done].
  - destruct Hr as (Hn & Hp & Hpt). change (id key) with key in Hn. rewrite Hn. exists l. split_and!; [done..|].
    by rewrite (map_perm id _ _ (wf_nodup _ _ _ Hw') Hp).
  - destruct Hr as (Hp & en & He & Hpt). change (id key) with key in He. rewrite He. exists l. split_and!; [done..|]. by apply map_perm; [apply Hw'|].
Qed.

(** The only entry with the key is found in its table. *)
Lemma chain_entry d i key en pos b :
  wf d -> keys d !! key = Some en -> ht_wf T' (ht d i) -> bucket d i (entry_idx d i (dictHashKey T' key)) = Ok b ->
  (exists x, b !! pos = Some x /\ id (de_key x) = id key /\ x ∈ ht_entries (ht d i)) ->
  points_to T' d (i, entry_idx d i (dictHashKey T' key), pos) en.
Proof.
  intros Hw He Hwi Hb (x & Hx & Hkx & Hin). split; [done|]. exists b. split; [done|]. rewrite Hx. f_equal.
  assert (x ∈ entries d) as Hx' by (unfold entries; apply elem_of_app; destruct i; auto).
  apply map_entry in Hx'; [|done]. cbn in Hkx. rewrite Hkx, He in Hx'. by simplify_eq.
Qed.

Lemma bucket_entry_ok d key en : wf d -> all_short d -> short key -> keys d !! key = Some en ->
  exists l, bucket_entry T d key = Ok l /\ points_to T' d l en.
Proof using Hhash.
  intros Hw Hs Hk He. destruct (entry_key d key en Hw He) as [Hen Hin].
  assert (entries d <> []) as Hne by (intros E; rewrite E in Hin; by apply not_elem_of_nil in Hin).
  destruct (wf_tables_cases T' d (wf_tables _ _ _ Hw) (entries_table T' d Hne (wf_tables _ _ _ Hw))) as [Hw0 Hw1].
  unfold bucket_entry. change (dictHashKey T key) with (dictHashKey T' key). cbv zeta.
  destruct (locate T' id exact_type_ok d false key (proj1 Hw0)) as (t & b & _ & _ & Hb & _ & _ & _ & Hf). rewrite Hb, bind_Ok, (bucket_chain d false _ b key Hw Hs Hk Hb).
  destruct (chain_find T' key b) as [pos|] eqn:Ec; [eexists; split; [done|by eapply (chain_entry d false)]|].
  destruct (dictIsRehashing d) eqn:Er.
  - destruct (locate T' id exact_type_ok d true key (proj1 Hw1)) as (t1 & b1 & _ & _ & Hb1 & _ & _ & _ & Hf1).
    rewrite Hb1, bind_Ok, (bucket_chain d true _ b1 key Hw Hs Hk Hb1).
    destruct (chain_find T' key b1) as [pos|] eqn:Ec1; [eexists; split; [done|by eapply (chain_entry d true)]|].
    exfalso. unfold entries in Hin. apply elem_of_app in Hin as [Hi|Hi]; [by apply (Hf en)|by apply (Hf1 en)].
  - exfalso. unfold entries in Hin. rewrite Hw1 in Hin. cbn in Hin. rewrite app_nil_r in Hin. by apply (Hf en).
Qed.

Lemma store_val_ok d key en v : wf d -> all_short d -> short key -> keys d !! key = Some en ->
  exists d', store_val T key v d = Ok (d', tt) /\ wf d' /\ keys d' = <[key := Entry key v]> (keys d).
Proof using Hhash.
  intros Hw Hs Hk He. destruct (entry_key d key en Hw He) as [Hen _]. destruct (bucket_entry_ok d key en Hw Hs Hk He) as (l & El & Hp).
  destruct (set_at_ok d l en v Hw Hp) as (d' & E & Hw' & Hm). exists d'. unfold store_val. rewrite El, bind_Ok, E, bind_Ok.
  split_and!; [done..|]. by rewrite Hm, Hen.
Qed.

End Dictionaries.

(** ** The database as two maps *)

Definition contents (db : redisDb) : gmap (list Z) robj := de_val <$> to_map (id : list Z -> list Z) (entries (db_dict db)).
Definition times (db : redisDb) : gmap (list Z) Z := de_val <$> to_map (id : list Z -> list Z) (entries (db_expires db)).

(** The surroundings are as documented: hashes are 64 bits wide.  [U] has the keys
    that are ever used: not more than fit into memory, none too long for the
    [int] lengths of the comparison. *)
Record env_ok (e : env) (U : gset (list Z)) : Prop := {
  env_hash k : 0 <= dictGenHashFunction e k < 2 ^ 64;
  env_room : Z.of_nat (size U) < MAX_ENTRIES;
  env_short k : k ∈ U -> short k;
}.

(** Well-formed: both dictionaries are, and a key with an expire time exists. *)
Record redis_wf (e : env) (U : gset (list Z)) (db : redisDb) : Prop := {
  wf_dict : dict_wf (key_type e (fun a b => bool_decide (a = b))) (id : list Z -> list Z) (db_dict db);
  wf_expires : dict_wf (key_type e (fun a b => bool_decide (a = b))) (id : list Z -> list Z) (db_expires db);
  wf_keys k : is_Some (contents db !! k) -> k ∈ U;
  wf_times k : is_Some (times db !! k) -> is_Some (contents db !! k);
}.

(** Terminating without a failure, with a result that satisfies [Q]. *)
Definition does {A} (m : dbm A) (db : redisDb) (Q : redisDb -> A -> Prop) : Prop := exists db' a, m db = Ok (db', a) /\ Q db' a.

Lemma does_bind {A B} (m : dbm A) (k : A -> dbm B) db Q : does m db (fun db' a => does (k a) db' Q) -> does (x ← m; k x) db Q.
Proof. intros (db1 & a & E & db2 & b & E2 & HQ). exists db2, b. split; [|done]. unfold mbind, dbm_bind. by rewrite E. Qed.

Lemma does_ret {A} (a : A) db (Q : _ -> _ -> Prop) : Q db a -> does (mret a) db Q.
Proof. intros HQ. by exists db, a. Qed.

Lemma does_assert b db (Q : _ -> _ -> Prop) : b = true -> Q db tt -> does (serverAssert b) db Q.
Proof. intros -> HQ. by exists db, tt. Qed.

Lemma does_impl {A} (m : dbm A) db (P Q : _ -> _ -> Prop) : does m db P -> (forall db' a, P db' a -> Q db' a) -> does m db Q.
Proof. intros (db' & a & E & HP) HQ. exists db', a. auto. Qed.

(** The time the expire times are compared with. *)
Definition now (e : env) : Z :=
  match script_time e with Some t => t | None => if fixed_time_expire e >? 0 then cached_mstime e else clock_mstime e end.

(** The time [w] is over; to the commands the master replicates, no time is. *)
Definition over (e : env) (w : Z) : bool :=
  negb (masterhost e && current_client_is_master e) && negb (loading e) && negb (w <? 0) && (now e >? w).

Definition gone (e : env) (t : gmap (list Z) Z) (k : list Z) : bool := match t !! k with Some w => over e w | None => false end.

(** What the commands see: the keys whose time is not over. *)
Definition visible (e : env) (c : gmap (list Z) robj) (t : gmap (list Z) Z) : gmap (list Z) robj :=
  filter (fun kv => gone e t kv.1 = false) c.
Definition pending (e : env) (t : gmap (list Z) Z) : gmap (list Z) Z := filter (fun kv => over e kv.2 = false) t.

(** Keys may be written: the server is the primary, a writable replica, or executes
    the commands of its primary, and clients are not paused. *)
Definition may_write (e : env) : Prop :=
  clients_paused e = false /\ (masterhost e = true -> current_client_is_master e = false -> repl_slave_ro e = false).

(** Where a key whose time is over is removed: not while clients are paused or when
    the caller asks to avoid it, and on a replica only when the caller insists, as a
    lookup does for a write unless the replica is read-only. *)
Definition expire_removes (e : env) (flags : Z) : bool :=
  negb (clients_paused e) && negb (flag flags EXPIRE_AVOID_DELETE_EXPIRED) && (negb (masterhost e) || flag flags EXPIRE_FORCE_DELETE_EXPIRED).

Definition lookup_removes (e : env) (flags : Z) : bool :=
  negb (clients_paused e) && negb (flag flags LOOKUP_NOEXPIRE) && (negb (masterhost e) || (flag flags LOOKUP_WRITE && negb (repl_slave_ro e))).

Section Database.
Context (e : env) (U : gset (list Z)) (Hok : env_ok e U).

(** The database holds the objects [c] and the expire times [t]. *)
Definition holds (db : redisDb) (c : gmap (list Z) robj) (t : gmap (list Z) Z) : Prop :=
  redis_wf e U db /\ contents db = c /\ times db = t.

Lemma holds_wf db : redis_wf e U db -> holds db (contents db) (times db).
Proof. done. Qed.

Lemma dict_short db : redis_wf e U db -> all_short (db_dict db).
Proof using Hok.
  intros Hw k Hk. apply (env_short _ _ Hok), (wf_keys _ _ _ Hw). unfold contents. rewrite lookup_fmap. by apply fmap_is_Some.
Qed.

Lemma expires_short db : redis_wf e U db -> all_short (db_expires db).
Proof using Hok.
  intros Hw k Hk. apply (env_short _ _ Hok), (wf_keys _ _ _ Hw), (wf_times _ _ _ Hw). unfold times. rewrite lookup_fmap. by apply fmap_is_Some.
Qed.

Lemma contents_entry db k o : redis_wf e U db -> contents db !! k = Some o <-> to_map id (entries (db_dict db)) !! k = Some (Entry k o).
Proof.
  intros Hw. unfold contents. rewrite lookup_fmap, fmap_Some. split; [|by intros ->; eauto].
  intros ([k' o'] & E & ->). pose proof (entry_key e _ _ _ (wf_dict _ _ _ Hw) E) as [<- _]. done.
Qed.

Lemma times_entry db k w : redis_wf e U db -> times db !! k = Some w <-> to_map id (entries (db_expires db)) !! k = Some (Entry k w).
Proof.
  intros Hw. unfold times. rewrite lookup_fmap, fmap_Some. split; [|by intros ->; eauto].
  intros ([k' w'] & E & ->). pose proof (entry_key e _ _ _ (wf_expires _ _ _ Hw) E) as [<- _]. done.
Qed.

Lemma entry_option {V} (m : gmap (list Z) (dictEntry (list Z) V)) (c : gmap (list Z) V) k :
  c = de_val <$> m -> (forall v, c !! k = Some v <-> m !! k = Some (Entry k v)) -> m !! k = Entry k <$> c !! k.
Proof.
  intros -> Hc. destruct (m !! k) as [en|] eqn:E; rewrite lookup_fmap, E in *; cbn in *; [|done].
  destruct (Hc (de_val en)) as [H1 _]. specialize (H1 eq_refl). by rewrite H1.
Qed.

(** *** Steps on one of the dictionaries *)

Lemma does_on_dict {A} f db c t c' (a : A) (Q : _ -> _ -> Prop) d' :
  holds db c t -> f (db_dict db) = Ok (d', a) -> dict_wf (key_type e (fun a b => bool_decide (a = b))) (id : list Z -> list Z) d' ->
  de_val <$> to_map (id : list Z -> list Z) (entries d') = c' -> (forall k, is_Some (c' !! k) -> k ∈ U) -> (forall k, is_Some (t !! k) -> is_Some (c' !! k)) ->
  (forall db', holds db' c' t -> Q db' a) -> does (on_dict f) db Q.
Proof.
  intros (Hw & Hc & Ht) E Hw' Hm HU Hsub HQ. unfold does, on_dict. rewrite E. eexists _, _. split; [done|]. apply HQ.
  split; [|split; [exact Hm|exact Ht]]. split; unfold contents, times in *; cbn [db_dict db_expires]; [done|apply Hw|by rewrite Hm|by rewrite Hm, Ht].
Qed.

Lemma does_on_expires {A} f db c t t' (a : A) (Q : _ -> _ -> Prop) d' :
  holds db c t -> f (db_expires db) = Ok (d', a) -> dict_wf (key_type e (fun a b => bool_decide (a = b))) (id : list Z -> list Z) d' ->
  de_val <$> to_map (id : list Z -> list Z) (entries d') = t' -> (forall k, is_Some (t' !! k) -> is_Some (c !! k)) ->
  (forall db', holds db' c t' -> Q db' a) -> does (on_expires f) db Q.
Proof.
  intros (Hw & Hc & Ht) E Hw' Hm Hsub HQ. unfold does, on_expires. rewrite E. eexists _, _. split; [done|]. apply HQ.
  split; [|split; [exact Hc|exact Hm]]. split; unfold contents, times in *; cbn [db_dict db_expires]; [apply Hw|done|apply (wf_keys _ _ _ Hw)|by rewrite Hm, Hc].
Qed.

Lemma does_log ev db c t (Q : _ -> _ -> Prop) : holds db c t -> (forall db', holds db' c t -> Q db' tt) -> does (log ev) db Q.
Proof. intros (Hw & Hc & Ht) HQ. eexists _, _. split; [done|]. apply HQ. split_and!; [|done..]. by destruct Hw; split. Qed.

Lemma does_stats h m x db c t (Q : _ -> _ -> Prop) : holds db c t -> (forall db', holds db' c t -> Q db' tt) -> does (add_stats h m x) db Q.
Proof. intros (Hw & Hc & Ht) HQ. eexists _, _. split; [done|]. apply HQ. split_and!; [|done..]. by destruct Hw; split. Qed.

Lemma does_if (b : bool) m db c t (Q : _ -> _ -> Prop) :
  (forall Q : _ -> _ -> Prop, (forall db', holds db' c t -> Q db' tt) -> does m db Q) -> holds db c t -> (forall db', holds db' c t -> Q db' tt) ->
  does (if b then m else mret tt) db Q.
Proof. intros Hm Hh HQ. destruct b; [by apply Hm|]. apply does_ret. auto. Qed.

Lemma holds_keys db c t k : holds db c t -> is_Some (c !! k) -> k ∈ U.
Proof. intros (Hw & <- & _). apply Hw. Qed.

Lemma holds_times db c t k : holds db c t -> is_Some (t !! k) -> is_Some (c !! k).
Proof. intros (Hw & <- & <-). apply Hw. Qed.

Lemma does_find k db c t (Q : _ -> _ -> Prop) :
  holds db c t -> k ∈ U -> (forall db', holds db' c t -> Q db' (Entry k <$> c !! k)) ->
  does (on_dict (fun d => dictFind (dbDictType e) d k)) db Q.
Proof using Hok.
  intros Hh Hk HQ. pose proof Hh as (Hw & Hc & _).
  destruct (find_key_ok e (env_hash _ _ Hok) (db_dict db) k (wf_dict _ _ _ Hw) (dict_short _ Hw) (env_short _ _ Hok _ Hk)) as (d' & E & Hw' & Hm).
  eapply (does_on_dict _ _ _ _ c); [done|exact E|done|by rewrite Hm|by intros; eapply holds_keys|by intros; eapply holds_times|].
  intros db' Hh'. rewrite (entry_option _ c k); [auto|done|]. intros v. rewrite <- Hc. by apply contents_entry.
Qed.

Lemma does_find_expire k db c t (Q : _ -> _ -> Prop) :
  holds db c t -> k ∈ U -> (forall db', holds db' c t -> Q db' (Entry k <$> t !! k)) ->
  does (on_expires (fun d => dictFind (dbExpiresDictType e) d k)) db Q.
Proof using Hok.
  intros Hh Hk HQ. pose proof Hh as (Hw & _ & Ht).
  destruct (find_key_ok e (env_hash _ _ Hok) (db_expires db) k (wf_expires _ _ _ Hw) (expires_short _ Hw) (env_short _ _ Hok _ Hk)) as (d' & E & Hw' & Hm).
  eapply (does_on_expires _ _ _ _ t); [done|exact E|done|by rewrite Hm|by intros; eapply holds_times|].
  intros db' Hh'. rewrite (entry_option _ t k); [auto|done|]. intros v. rewrite <- Ht. by apply times_entry.
Qed.

Lemma does_size db c t (Q : _ -> _ -> Prop) :
  holds db c t -> (forall n, (n = 0 <-> t = ∅) -> 0 <= n -> Q db n) -> does (on_expires (fun d => Ok (d, dictSize d))) db Q.
Proof.
  intros (Hw & Hc & Ht) HQ. pose proof (wf_used _ _ _ (wf_expires _ _ _ Hw)) as (_ & _ & Hs). exists db, (dictSize (db_expires db)).
  split; [by destruct db|]. rewrite Hs. apply HQ; [|apply zlen_nonneg]. rewrite <- (repr_size _ _ _ (wf_expires _ _ _ Hw)), <- Ht. unfold times.
  rewrite fmap_empty_iff. rewrite <- (map_size_empty_iff (to_map id (entries (db_expires db)))). lia.
Qed.

Lemma holds_size db c t : holds db c t -> zlen (entries (db_dict db)) < MAX_ENTRIES.
Proof using Hok.
  intros (Hw & Hc & _). rewrite <- (repr_size _ _ _ (wf_dict _ _ _ Hw)). pose proof (env_room _ _ Hok).
  assert (size (to_map id (entries (db_dict db))) <= size U)%nat; [|lia].
  rewrite <- size_dom. apply subseteq_size. intros k' Hk'. apply (wf_keys _ _ _ Hw). unfold contents. rewrite lookup_fmap. apply fmap_is_Some. by apply elem_of_dom.
Qed.

Lemma holds_expires_size db c t : holds db c t -> zlen (entries (db_expires db)) < MAX_ENTRIES.
Proof using Hok.
  intros (Hw & Hc & Ht). rewrite <- (repr_size _ _ _ (wf_expires _ _ _ Hw)). pose proof (env_room _ _ Hok).
  assert (size (to_map id (entries (db_expires db))) <= size U)%nat; [|lia].
  rewrite <- size_dom. apply subseteq_size. intros k Hk. apply (wf_keys _ _ _ Hw), (wf_times _ _ _ Hw). unfold times. rewrite lookup_fmap. apply fmap_is_Some. by apply elem_of_dom.
Qed.

Lemma does_delete_expire k db c t (Q : _ -> _ -> Prop) :
  holds db c t -> k ∈ U ->
  (forall db', holds db' c (delete k t) -> Q db' (match t !! k with Some _ => DICT_OK | None => DICT_ERR end)) ->
  does (on_expires (fun d => dictDelete (dbExpiresDictType e) d k)) db Q.
Proof using Hok.
  intros Hh Hk HQ. pose proof Hh as (Hw & _ & Ht).
  destruct (unlink_key_ok e (env_hash _ _ Hok) (db_expires db) k (wf_expires _ _ _ Hw) (expires_short _ Hw) (env_short _ _ Hok _ Hk)) as (d' & E & Hw' & Hm).
  eapply (does_on_expires _ _ _ _ (delete k t)); [done|unfold dictDelete; change (dbExpiresDictType e) with (key_type (V := Z) e dictSdsKeyCompare); by rewrite E, bind_Ok|done| | |].
  - rewrite Hm, fmap_delete. by rewrite <- Ht.
  - intros k' [w Hd]. apply lookup_delete_Some in Hd as [_ Hd]. eapply holds_times; [done|by eexists].
  - intros db' Hh'. rewrite (entry_option _ t k); [destruct (t !! k); by apply HQ|done|]. intros v. rewrite <- Ht. by apply times_entry.
Qed.

Lemma does_unlink k db c t (Q : _ -> _ -> Prop) :
  holds db c t -> k ∈ U -> t !! k = None -> (forall db', holds db' (delete k c) t -> Q db' (Entry k <$> c !! k)) ->
  does (on_dict (fun d => dictUnlink (dbDictType e) d k)) db Q.
Proof using Hok.
  intros Hh Hk Hn HQ. pose proof Hh as (Hw & Hc & _).
  destruct (unlink_key_ok e (env_hash _ _ Hok) (db_dict db) k (wf_dict _ _ _ Hw) (dict_short _ Hw) (env_short _ _ Hok _ Hk)) as (d' & E & Hw' & Hm).
  eapply (does_on_dict _ _ _ _ (delete k c)); [done|exact E|done| | | |].
  - rewrite Hm, fmap_delete. by rewrite <- Hc.
  - intros k' [o Hd]. apply lookup_delete_Some in Hd as [_ Hd]. eapply holds_keys; [done|by eexists].
  - intros k' Hs. rewrite lookup_delete_ne; [by eapply holds_times|]. intros <-. rewrite Hn in Hs. by destruct Hs.
  - intros db' Hh'. rewrite (entry_option _ c k); [auto|done|]. intros v. rewrite <- Hc. by apply contents_entry.
Qed.

Lemma holds_insert db c t k o : holds db c t -> k ∈ U ->
  (forall k', is_Some (<[k := o]> c !! k') -> k' ∈ U) /\ (forall k', is_Some (t !! k') -> is_Some (<[k := o]> c !! k')).
Proof.
  intros Hh Hk. split; intros k' Hs.
  - rewrite lookup_insert_is_Some in Hs. destruct Hs as [<-|[_ Hs]]; [done|by eapply holds_keys].
  - apply lookup_insert_is_Some'. right. by eapply holds_times.
Qed.

Lemma does_store k o db c t (Q : _ -> _ -> Prop) :
  holds db c t -> k ∈ U -> is_Some (c !! k) -> (forall db', holds db' (<[k := o]> c) t -> Q db' tt) -> does (Db.write_object e k o) db Q.
Proof using Hok.
  intros Hh Hk [old Ho] HQ. pose proof Hh as (Hw & Hc & _). rewrite <- Hc in Ho. apply contents_entry in Ho; [|done].
  destruct (store_val_ok e (env_hash _ _ Hok) (db_dict db) k _ o (wf_dict _ _ _ Hw) (dict_short _ Hw) (env_short _ _ Hok _ Hk) Ho) as (d' & E & Hw' & Hm).
  destruct (holds_insert db c t k o Hh Hk). eapply (does_on_dict _ _ _ _ (<[k := o]> c)); [done|exact E|done| |done..].
  rewrite Hm, fmap_insert. by rewrite <- Hc.
Qed.

Lemma does_add_raw k db c t (Q : _ -> _ -> Prop) :
  holds db c t -> k ∈ U -> c !! k = None ->
  (forall l db', holds db' (<[k := uninit_obj e]> c) t -> points_to (key_type e (fun a b => bool_decide (a = b))) (db_dict db') l (Entry k (uninit_obj e)) -> Q db' (inl l)) ->
  does (on_dict (fun d => dictAddRaw (dbDictType e) (uninit_obj e) (dict_can_resize e) d k)) db Q.
Proof using Hok.
  intros Hh Hk Hn HQ. pose proof Hh as (Hw & Hc & _).
  destruct (add_key_ok e (env_hash _ _ Hok) (uninit_obj e) (dict_can_resize e) (db_dict db) k (wf_dict _ _ _ Hw)
    (holds_size _ _ _ Hh) (dict_short _ Hw) (env_short _ _ Hok _ Hk)) as (d' & r & E & Hw' & Hr).
  rewrite (entry_option _ c k), Hn in Hr; [|done|intros v; rewrite <- Hc; by apply contents_entry]. cbn [fmap option_fmap option_map] in Hr.
  destruct Hr as (l & -> & Hp & Hm). destruct (holds_insert db c t k (uninit_obj e) Hh Hk).
  unfold does, on_dict. change (dbDictType e) with (key_type (V := robj) e dictSdsKeyCompare). rewrite E. eexists _, _. split; [done|]. apply HQ; [|done].
  assert (de_val <$> to_map (id : list Z -> list Z) (entries d') = <[k := uninit_obj e]> c) as Hm' by (rewrite Hm, fmap_insert; by rewrite <- Hc).
  pose proof Hh as (_ & _ & Ht). split; [|split; [exact Hm'|exact Ht]].
  split; unfold contents, times in *; cbn [db_dict db_expires]; [done|apply Hw|by rewrite Hm'|by rewrite Hm', Ht].
Qed.

Lemma does_set_entry l k u o db c t (Q : _ -> _ -> Prop) :
  holds db (<[k := u]> c) t -> points_to (key_type e (fun a b => bool_decide (a = b))) (db_dict db) l (Entry k u) ->
  (forall db', holds db' (<[k := o]> c) t -> Q db' tt) ->
  does (on_dict (fun d => d ← entry_set_val (dbDictType e) d l o; Ok (d, tt))) db Q.
Proof using Hok.
  intros Hh Hp HQ. pose proof Hh as (Hw & Hc & _). destruct (set_at_ok e (db_dict db) l _ o (wf_dict _ _ _ Hw) Hp) as (d' & E & Hw' & Hm).
  assert (k ∈ U) as Hk by (eapply holds_keys; [done|]; rewrite lookup_insert_eq; by eexists).
  destruct (holds_insert db _ t k o Hh Hk). rewrite insert_insert_eq in *.
  eapply (does_on_dict _ _ _ _ (<[k := o]> c)); [done|change (dbDictType e) with (key_type (V := robj) e dictSdsKeyCompare); by rewrite E, bind_Ok|done| |done..].
  rewrite Hm, fmap_insert. unfold contents in Hc. rewrite Hc. cbn. by rewrite insert_insert_eq.
Qed.

(** *** The operations *)

Lemma does_signal k ty db c t (Q : _ -> _ -> Prop) : holds db c t -> (forall db', holds db' c t -> Q db' tt) -> does (Db.signalKeyAsReady k ty) db Q.
Proof. apply does_log. Qed.

Lemma does_add k o db c t (Q : _ -> _ -> Prop) :
  holds db c t -> k ∈ U -> c !! k = None -> (forall db', holds db' (<[k := o]> c) t -> Q db' tt) -> does (Db.dbAdd e k o) db Q.
Proof using Hok.
  intros Hh Hk Hn HQ. apply does_bind, (does_add_raw k db c t); [done..|]. intros l db1 Hh1 Hp. apply does_bind, (does_set_entry l k (uninit_obj e) o db1 c t); [done..|].
  intros db2 Hh2. eapply does_bind, does_signal; [done|]. intros db3 Hh3. by eapply does_log.
Qed.

Lemma does_add_load k o db c t (Q : _ -> _ -> Prop) :
  holds db c t -> k ∈ U -> c !! k = None -> (forall db', holds db' (<[k := o]> c) t -> Q db' true) -> does (Db.dbAddRDBLoad e k o) db Q.
Proof using Hok.
  intros Hh Hk Hn HQ. apply does_bind, (does_add_raw k db c t); [done..|]. intros l db1 Hh1 Hp. apply does_bind, (does_set_entry l k (uninit_obj e) o db1 c t); [done..|].
  intros db2 Hh2. apply does_ret. auto.
Qed.

Lemma does_overwrite k o db c t (Q : _ -> _ -> Prop) :
  holds db c t -> k ∈ U -> is_Some (c !! k) -> (forall db', holds db' (<[k := o]> c) t -> Q db' tt) -> does (Db.dbOverwrite e k o) db Q.
Proof using Hok.
  intros Hh Hk [old Ho] HQ. apply does_bind, (does_find k db c t); [done..|]. intros db1 Hh1. rewrite Ho. cbn [fmap option_fmap option_map de_val].
  eapply does_bind, does_log; [done|]. intros db2 Hh2. eapply does_bind, does_if; [intros; by eapply does_signal|done|]. intros db3 Hh3.
  eapply does_bind, does_store; [done|done|by eexists|]. intros db4 Hh4. by eapply does_log.
Qed.

Lemma does_delete k async db c t (Q : _ -> _ -> Prop) :
  holds db c t -> k ∈ U -> (forall db', holds db' (delete k c) (delete k t) -> Q db' (bool_decide (is_Some (c !! k)))) ->
  does (Db.dbGenericDelete e k async) db Q.
Proof using Hok.
  intros Hh Hk HQ. eapply does_bind, does_size; [done|]. intros n Hn Hn0. apply does_bind.
  assert (does (if n >? 0 then on_expires (fun d => dictDelete (dbExpiresDictType e) d k);; mret tt else mret tt) db
    (fun db' _ => holds db' c (delete k t))) as Hd.
  { destruct (Z.gtb_spec n 0).
    - eapply does_bind, does_delete_expire; [done..|]. intros db1 Hh1. by apply does_ret.
    - apply does_ret. rewrite (proj1 Hn) in * by lia. by rewrite delete_empty. }
  eapply does_impl; [exact Hd|]. cbv beta. intros db1 u Hh1. clear u. eapply does_bind, does_unlink; [done|done|apply lookup_delete_eq|]. intros db2 Hh2.
  destruct (c !! k) as [o|] eqn:Ho; cbn [fmap option_fmap option_map de_val].
  - eapply does_bind, does_log; [done|]. intros db3 Hh3. eapply does_bind, does_if; [intros; by eapply does_signal|done|]. intros db4 Hh4.
    eapply does_bind, does_log; [done|]. intros db5 Hh5. apply does_ret. rewrite bool_decide_true in HQ by (by eexists). auto.
  - apply does_ret. rewrite bool_decide_false in HQ by (by intros []). auto.
Qed.

Lemma does_remove_expire k db c t (Q : _ -> _ -> Prop) :
  holds db c t -> k ∈ U -> is_Some (c !! k) -> (forall db', holds db' c (delete k t) -> Q db' (bool_decide (is_Some (t !! k)))) ->
  does (Db.removeExpire e k) db Q.
Proof using Hok.
  intros Hh Hk [o Ho] HQ. eapply does_bind, does_find; [done..|]. intros db1 Hh1. rewrite Ho. apply does_bind, does_assert; [by apply bool_decide_eq_true|].
  eapply does_bind, does_delete_expire; [done..|]. intros db2 Hh2. apply does_ret. destruct (t !! k); [|rewrite bool_decide_false in HQ by (by intros [])]; auto.
Qed.

Lemma does_set_expire client k w db c t (Q : _ -> _ -> Prop) :
  holds db c t -> k ∈ U -> is_Some (c !! k) -> (forall db', holds db' c (<[k := w]> t) -> Q db' tt) -> does (Db.setExpire e client k w) db Q.
Proof using Hok.
  intros Hh Hk [o Ho] HQ. eapply does_bind, does_find; [done..|]. intros db1 Hh1. rewrite Ho. cbn [fmap option_fmap option_map de_key].
  pose proof Hh1 as (Hw & _ & Ht). pose proof (holds_expires_size _ _ _ Hh1) as Hmax.
  destruct (add_key_ok e (env_hash _ _ Hok) (uninit_time e) (dict_can_resize e) (db_expires db1) k (wf_expires _ _ _ Hw) Hmax
    (expires_short _ Hw) (env_short _ _ Hok _ Hk)) as (d' & r & E & Hw' & Hr).
  assert (exists l w0, dictAddOrFind (dbExpiresDictType e) (uninit_time e) (dict_can_resize e) (db_expires db1) k = Ok (d', Some l) /\
    points_to (key_type e (fun a b => bool_decide (a = b))) d' l (Entry k w0) /\ de_val <$> to_map (id : list Z -> list Z) (entries d') = <[k := w0]> t)
    as (l & w0 & E' & Hp & Hm).
  { unfold dictAddOrFind. change (dbExpiresDictType e) with (key_type (V := Z) e dictSdsKeyCompare). rewrite E, bind_Ok.
    rewrite (entry_option _ t k) in Hr; [|done|intros v; rewrite <- Ht; by apply times_entry].
    destruct (t !! k) as [w0|] eqn:Hw0; cbn [fmap option_fmap option_map] in Hr; destruct Hr as (l & -> & Hp & Hm).
    - exists l, w0. split_and!; [done..|]. rewrite Hm, insert_id by done. by rewrite <- Ht.
    - exists l, (uninit_time e). split_and!; [done..|]. rewrite Hm, fmap_insert. by rewrite <- Ht. }
  assert (forall w', (forall k', is_Some (<[k := w']> t !! k') -> is_Some (c !! k'))) as Hsub.
  { intros w' k' Hs. apply lookup_insert_is_Some in Hs as [<-|[_ Hs]]; [by eexists|by eapply holds_times]. }
  apply does_bind. unfold does at 1, on_expires at 1. rewrite E'. eexists _, _. split; [done|]. cbv beta iota.
  match goal with |- does _ ?x _ => set (db2 := x) end. assert (holds db2 c (<[k := w0]> t)) as Hh2.
  { pose proof Hh1 as (_ & Hc & _). split; [|split; [exact Hc|exact Hm]]. split; [apply Hw|done|apply Hw|]. unfold times, contents in *. cbn [db2 db_dict db_expires]. rewrite Hm, Hc. apply Hsub. }
  destruct (set_at_ok e (db_expires db2) l _ w (wf_expires _ _ _ (proj1 Hh2)) Hp) as (d2 & E2 & Hw2 & Hm2).
  eapply does_bind, (does_on_expires _ db2 c (<[k := w0]> t) (<[k := w]> t)); [done|change (dbExpiresDictType e) with (key_type (V := Z) e dictSdsKeyCompare); by rewrite E2, bind_Ok|done| |apply Hsub|].
  { rewrite Hm2, fmap_insert. cbn [db2 db_expires]. rewrite Hm. cbn. by rewrite insert_insert_eq. }
  intros db3 Hh3. cbv zeta. destruct (_ && _); [by eapply does_log|]. apply does_ret. auto.
Qed.

Lemma does_get_expire k db c t (Q : _ -> _ -> Prop) :
  holds db c t -> k ∈ U -> (forall db', holds db' c t -> Q db' (default (-1) (t !! k))) -> does (Db.getExpire e k) db Q.
Proof using Hok.
  intros Hh Hk HQ. eapply does_bind, does_size; [done|]. intros n Hn Hn0. destruct (Z.eqb_spec n 0) as [->|Hne].
  { apply does_ret. rewrite (proj1 Hn eq_refl), lookup_empty in HQ. rewrite (proj1 Hn eq_refl) in Hh. by apply HQ. }
  eapply does_bind, does_find_expire; [done..|]. intros db1 Hh1. destruct (t !! k) as [w|] eqn:Hw; cbn [fmap option_fmap option_map]; [|apply does_ret; auto].
  destruct (holds_times _ _ _ k Hh) as [o Ho]; [by eexists|].
  eapply does_bind, does_find; [done..|]. intros db2 Hh2. rewrite Ho. apply does_bind, does_assert; [by apply bool_decide_eq_true|]. apply does_ret. auto.
Qed.

Lemma visible_lookup c t k : visible e c t !! k = if gone e t k then None else c !! k.
Proof.
  unfold visible. destruct (c !! k) as [o|] eqn:Ho.
  - destruct (gone e t k) eqn:Eg; [apply map_lookup_filter_None; right; intros o' Ho'; cbn; congruence|by apply map_lookup_filter_Some].
  - destruct (gone e t k); apply map_lookup_filter_None; by left.
Qed.

Lemma pending_lookup t k : pending e t !! k = match t !! k with Some w => if over e w then None else Some w | None => None end.
Proof.
  unfold pending. destruct (t !! k) as [w|] eqn:Hw; [|by apply map_lookup_filter_None; left].
  destruct (over e w) eqn:Eo; [apply map_lookup_filter_None; right; intros w' Hw'; cbn; congruence|by apply map_lookup_filter_Some].
Qed.

(** Removing a key whose time is over changes nothing the commands see. *)
Lemma gone_delete c t k : gone e t k = true -> visible e (delete k c) (delete k t) = visible e c t /\ pending e (delete k t) = pending e t.
Proof.
  unfold gone. intros Hg. destruct (t !! k) as [w|] eqn:Hw; [|done]. split; apply map_eq; intros k'.
  - rewrite !visible_lookup. unfold gone. destruct (decide (k' = k)) as [->|Hne]; [by rewrite !lookup_delete_eq, Hw, Hg|by rewrite !lookup_delete_ne].
  - rewrite !pending_lookup. destruct (decide (k' = k)) as [->|Hne]; [by rewrite lookup_delete_eq, Hw, Hg|by rewrite lookup_delete_ne].
Qed.

Lemma does_is_expired k db c t (Q : _ -> _ -> Prop) :
  holds db c t -> k ∈ U ->
  (forall db', holds db' c t -> Q db' (match t !! k with Some w => negb (w <? 0) && negb (loading e) && (now e >? w) | None => false end)) ->
  does (Db.keyIsExpired e k) db Q.
Proof using Hok.
  intros Hh Hk HQ. eapply does_bind, does_get_expire; [done..|]. intros db1 Hh1. specialize (HQ db1 Hh1). destruct (t !! k) as [w|]; cbn [default] in *.
  - change (id w) with w. destruct (w <? 0); [by apply does_ret|]. destruct (loading e); by apply does_ret.
  - by apply does_ret.
Qed.

Lemma does_expire k db c t (Q : _ -> _ -> Prop) :
  holds db c t -> k ∈ U -> (forall db', holds db' (delete k c) (delete k t) -> Q db' tt) -> does (Db.deleteExpiredKeyAndPropagate e k) db Q.
Proof using Hok.
  intros Hh Hk HQ. apply does_bind.
  assert (forall Q : _ -> _ -> Prop, (forall db' b, holds db' (delete k c) (delete k t) -> Q db' b) ->
    does (if lazy_expire e then Db.dbAsyncDelete e k else Db.dbSyncDelete e k) db Q) as Hd.
  { intros Q' HQ'. destruct (lazy_expire e); eapply does_delete; eauto. }
  apply Hd. intros db1 b Hh1. eapply does_bind, does_log; [done|]. intros db2 Hh2. eapply does_bind, does_log; [done|]. intros db3 Hh3.
  eapply does_bind, does_log; [done|]. intros db4 Hh4. by eapply does_stats.
Qed.

(** A key whose time is over is reported as gone, and removed where it may be. *)
Lemma does_expire_if_needed k flags db c t (Q : _ -> _ -> Prop) :
  holds db c t -> k ∈ U ->
  (forall db', (if gone e t k && expire_removes e flags then holds db' (delete k c) (delete k t) else holds db' c t) -> Q db' (gone e t k)) ->
  does (Db.expireIfNeeded e k flags) db Q.
Proof using Hok.
  intros Hh Hk HQ. eapply does_bind, does_is_expired; [done..|]. intros db1 Hh1. unfold gone, over, expire_removes in *.
  destruct (t !! k) as [w|]; cbn [negb]; [|by apply does_ret, HQ]. destruct (negb (w <? 0)), (negb (loading e)), (now e >? w), (masterhost e), (current_client_is_master e);
    cbn [andb negb orb] in *; try (by apply does_ret, HQ); destruct (flag flags EXPIRE_FORCE_DELETE_EXPIRED); cbn [negb]; try (by apply does_ret, HQ; destruct (_ && _));
    destruct (flag flags EXPIRE_AVOID_DELETE_EXPIRED); try (by apply does_ret, HQ; destruct (clients_paused e)); destruct (clients_paused e); try (by apply does_ret, HQ);
    (eapply does_bind, does_expire; [done..|]; intros db2 Hh2; by apply does_ret, HQ).
Qed.

Lemma holds_gone db c t k : holds db c t -> c !! k = None -> gone e t k = false.
Proof.
  intros (Hw & <- & <-) Hc. unfold gone. destruct (times db !! k) as [w|] eqn:Ht; [|done]. destruct (wf_times _ _ _ Hw k) as [o Ho]; [by eexists|]. congruence.
Qed.

Lemma does_lookup k flags db c t (Q : _ -> _ -> Prop) :
  holds db c t -> k ∈ U ->
  (forall db', (if gone e t k && lookup_removes e flags then holds db' (delete k c) (delete k t) else holds db' c t) -> Q db' (if gone e t k then None else c !! k)) ->
  does (Db.lookupKey e k flags) db Q.
Proof using Hok.
  intros Hh Hk HQ. eapply does_bind, does_find; [done..|]. intros db1 Hh1. apply does_bind.
  assert (forall db' c' t' v, holds db' c' t' -> (forall db2, holds db2 c' t' -> Q db2 v) -> does (_ ← match v with
   | Some _ => if negb (flag flags (Z.lor LOOKUP_NOSTATS LOOKUP_WRITE)) then add_stats 1 0 0 else mret tt
   | None => _ ← (if negb (flag flags (Z.lor LOOKUP_NONOTIFY LOOKUP_WRITE)) then log (KeyMiss k) else mret tt);
             (if negb (flag flags (Z.lor LOOKUP_NOSTATS LOOKUP_WRITE)) then add_stats 0 1 0 else mret tt) end; mret v) db' Q) as Htail.
  { intros db' c' t' v Hh' HQ'. apply does_bind. destruct v as [o|].
    - eapply does_if; [intros; by eapply does_stats|done|]. intros db2 Hh2. by apply does_ret, HQ'.
    - eapply does_bind, does_if; [intros; by eapply does_log|done|]. intros db2 Hh2. eapply does_if; [intros; by eapply does_stats|done|]. intros db3 Hh3. by apply does_ret, HQ'. }
  destruct (c !! k) as [o|] eqn:Ho; cbn [fmap option_fmap option_map de_val].
  - apply does_bind, (does_expire_if_needed k _ db1 c t); [done..|]. intros db2 Hh2. apply does_ret.
    match type of Hh2 with context [expire_removes e ?f] => assert (expire_removes e f = lookup_removes e flags) as Hrem end.
    { unfold expire_removes, lookup_removes. by destruct (flag flags LOOKUP_WRITE), (flag flags LOOKUP_NOEXPIRE), (masterhost e), (repl_slave_ro e). }
    rewrite Hrem in Hh2. destruct (gone e t k && lookup_removes e flags); by eapply Htail; eauto.
  - apply does_ret. apply (Htail db1 c t); [done|]. intros db2 Hh2. pose proof (holds_gone _ _ _ _ Hh Ho) as Hg. specialize (HQ db2). rewrite Hg in HQ. auto.
Qed.

Lemma may_write_removes k t flags :
  may_write e -> flag flags LOOKUP_WRITE = true -> flag flags LOOKUP_NOEXPIRE = false -> gone e t k = true -> lookup_removes e flags = true.
Proof.
  intros [Hp Hro] Hw Hn Hg. unfold lookup_removes. rewrite Hp, Hw, Hn. cbn [negb andb]. unfold gone, over in Hg.
  destruct (t !! k); [|done]. destruct (masterhost e), (current_client_is_master e); try done. by rewrite Hro.
Qed.

(** The same, on what the commands see. *)
Lemma does_lookup_seen k flags db c t (Q : _ -> _ -> Prop) :
  holds db c t -> k ∈ U ->
  (forall db' c' t', holds db' c' t' -> visible e c' t' = visible e c t -> pending e t' = pending e t ->
    (may_write e -> flag flags LOOKUP_WRITE = true -> flag flags LOOKUP_NOEXPIRE = false -> visible e c t !! k = None -> c' !! k = None) ->
    Q db' (visible e c t !! k)) ->
  does (Db.lookupKey e k flags) db Q.
Proof using Hok.
  intros Hh Hk HQ. rewrite visible_lookup in HQ. eapply does_lookup; [done..|]. intros db' Hh'. destruct (gone e t k) eqn:Eg; cbn [andb] in *.
  - destruct (lookup_removes e flags) eqn:Er.
    + destruct (gone_delete c t k Eg). apply (HQ db' (delete k c) (delete k t)); [done..|]. intros. apply lookup_delete_eq.
    + apply (HQ db' c t); [done..|]. intros Hm Hf Hf' _. exfalso. by rewrite (may_write_removes k t flags) in Er.
  - apply (HQ db' c t); [done..|]. by intros.
Qed.

(** *** What the commands see of an update *)

Ltac by_key := apply map_eq; intros k'; rewrite ?visible_lookup, ?pending_lookup; unfold gone; match goal with k : list Z |- _ =>
  destruct (decide (k' = k)) as [->|]; rewrite ?lookup_insert_eq, ?lookup_delete_eq, ?lookup_insert_ne, ?lookup_delete_ne, ?visible_lookup, ?pending_lookup by done end.

Lemma visible_some c t k : is_Some (visible e c t !! k) -> gone e t k = false /\ is_Some (c !! k) /\ pending e t !! k = t !! k.
Proof.
  rewrite visible_lookup, pending_lookup. unfold gone. destruct (t !! k) as [w|]; [destruct (over e w)|]; [by intros []|done..].
Qed.

Lemma visible_insert c t k o : gone e t k = false -> visible e (<[k := o]> c) t = <[k := o]> (visible e c t).
Proof. intros Hg. by_key; [unfold gone in Hg; by rewrite Hg|done]. Qed.

Lemma visible_delete c t k : visible e (delete k c) (delete k t) = delete k (visible e c t).
Proof. by by_key. Qed.

Lemma pending_delete t k : pending e (delete k t) = delete k (pending e t).
Proof. by by_key. Qed.

Lemma visible_expire c t k w : gone e t k = false ->
  visible e c (<[k := w]> t) = (if over e w then delete k (visible e c t) else visible e c t) /\
  pending e (<[k := w]> t) = (if over e w then delete k (pending e t) else <[k := w]> (pending e t)).
Proof. intros Hg. unfold gone in Hg. split; destruct (over e w) eqn:Ew; by_key; rewrite ?Ew, ?Hg; done. Qed.

Lemma visible_persist c t k : gone e t k = false -> visible e c (delete k t) = visible e c t.
Proof. intros Hg. unfold gone in Hg. by_key; by rewrite ?Hg. Qed.

Lemma absent_time db c t k : holds db c t -> c !! k = None -> gone e t k = false.
Proof.
  intros Hh Hn. unfold gone. destruct (t !! k) eqn:E; [|done]. destruct (holds_times _ _ _ k Hh) as [? E']; [by eexists|]. congruence.
Qed.

End Database.

(** ** The laws of the interface *)

Section Laws.
Context (e : env) (U : gset (list Z)) (Hok : env_ok e U).
Notation seen db := (visible e (contents db) (times db)).
Notation unchanged db db' := (redis_wf e U db' /\ seen db' = seen db /\ pending e (times db') = pending e (times db)).

Lemma redis_live k t db : redis_wf e U db -> pending e (times db) !! k = Some t -> over e t = false.
Proof. intros _. rewrite pending_lookup. destruct (times db !! k) as [w|]; [|done]. destruct (over e w) eqn:E; [done|]. by intros [= <-]. Qed.

Lemma redis_read_ok k flags db : k ∈ U -> redis_wf e U db -> Z.land flags LOOKUP_WRITE = 0 ->
  exists db', Db.lookupKeyReadWithFlags e k flags db = Ok (db', seen db !! k) /\ unchanged db db'.
Proof using Hok.
  intros Hk Hw Hf. assert (does (Db.lookupKeyReadWithFlags e k flags) db (fun db' r => r = seen db !! k /\ unchanged db db')) as (db' & r & E & -> & H).
  { apply does_bind, does_assert; [unfold flag; by rewrite Hf|]. eapply does_lookup_seen; [done|by apply holds_wf|done|]. by intros db' c' t' (Hw' & <- & <-) Hv' Hp' _. }
  by exists db'.
Qed.

Lemma redis_write_ok k db : may_write e -> k ∈ U -> redis_wf e U db ->
  exists db', Db.lookupKeyWriteWithFlags e k LOOKUP_NONE db = Ok (db', seen db !! k) /\ redis_wf e U db' /\ seen db' = seen db /\
    pending e (times db') = pending e (times db) /\ (seen db !! k = None -> contents db' !! k = None).
Proof using Hok.
  intros Hmw Hk Hw. assert (does (Db.lookupKeyWriteWithFlags e k LOOKUP_NONE) db (fun db' r => r = seen db !! k /\ unchanged db db' /\
    (seen db !! k = None -> contents db' !! k = None))) as (db' & r & E & -> & (? & ? & ?) & ?); [|by exists db'].
  eapply does_lookup_seen; [done|by apply holds_wf|done|]. intros db' c' t' (Hw' & <- & <-) Hv' Hp' Hd. by split_and!; try done; apply Hd.
Qed.

Lemma redis_add_ok k o db : k ∈ U -> redis_wf e U db -> contents db !! k = None ->
  exists db', Db.dbAdd e k o db = Ok (db', tt) /\ redis_wf e U db' /\ seen db' = <[k := o]> (seen db) /\ pending e (times db') = pending e (times db).
Proof using Hok.
  intros Hk Hw Hv. pose proof (holds_wf e U db Hw) as Hh.
  assert (does (Db.dbAdd e k o) db (fun db' r => r = tt /\ holds e U db' (<[k := o]> (contents db)) (times db))) as (db' & [] & E & _ & Hw' & Hc & Ht).
  { by eapply does_add; eauto. }
  exists db'. split_and!; [done..| |by rewrite Ht]. rewrite Hc, Ht. eapply visible_insert, absent_time; eauto.
Qed.

Lemma redis_overwrite_ok k o db : k ∈ U -> redis_wf e U db -> is_Some (seen db !! k) ->
  exists db', Db.dbOverwrite e k o db = Ok (db', tt) /\ redis_wf e U db' /\ seen db' = <[k := o]> (seen db) /\ pending e (times db') = pending e (times db).
Proof using Hok.
  intros Hk Hw Hv. pose proof (holds_wf e U db Hw) as Hh. destruct (visible_some e _ _ _ Hv) as (Hg & Hs & _).
  assert (does (Db.dbOverwrite e k o) db (fun db' r => r = tt /\ holds e U db' (<[k := o]> (contents db)) (times db))) as (db' & [] & E & _ & Hw' & Hc & Ht).
  { by eapply does_overwrite; eauto. }
  exists db'. split_and!; [done..| |by rewrite Ht]. rewrite Hc, Ht. by apply visible_insert.
Qed.

Lemma redis_delete_ok k async db : k ∈ U -> redis_wf e U db ->
  exists db' b, Db.dbGenericDelete e k async db = Ok (db', b) /\ (is_Some (seen db !! k) -> b = true) /\ (contents db !! k = None -> b = false) /\
    redis_wf e U db' /\ seen db' = delete k (seen db) /\ pending e (times db') = delete k (pending e (times db)) /\ contents db' !! k = None.
Proof using Hok.
  intros Hk Hw. pose proof (holds_wf e U db Hw) as Hh.
  assert (does (Db.dbGenericDelete e k async) db (fun db' r => r = bool_decide (is_Some (contents db !! k)) /\
    holds e U db' (delete k (contents db)) (delete k (times db)))) as (db' & b & E & -> & Hw' & Hc & Ht).
  { by eapply does_delete; eauto. }
  exists db', (bool_decide (is_Some (contents db !! k))). rewrite Hc, Ht. split_and!; [done| | |done|apply visible_delete|apply pending_delete|apply lookup_delete_eq].
  - intros Hv. by apply bool_decide_eq_true, (visible_some e _ (times db)).
  - intros ->. by apply bool_decide_eq_false; intros [].
Qed.

Lemma redis_get_expire_ok k db : k ∈ U -> redis_wf e U db -> is_Some (seen db !! k) ->
  exists db', Db.getExpire e k db = Ok (db', default (-1) (pending e (times db) !! k)) /\ redis_wf e U db' /\ seen db' = seen db /\
    pending e (times db') = pending e (times db) /\ forall k', contents db !! k' = None -> contents db' !! k' = None.
Proof using Hok.
  intros Hk Hw Hv. pose proof (holds_wf e U db Hw) as Hh. destruct (visible_some e _ _ _ Hv) as (Hg & Hs & Hp).
  assert (does (Db.getExpire e k) db (fun db' r => r = default (-1) (times db !! k) /\ holds e U db' (contents db) (times db))) as (db' & r & E & -> & Hw' & Hc & Ht).
  { by eapply does_get_expire; eauto. }
  exists db'. rewrite Hp, Hc, Ht. by split_and!.
Qed.

Lemma redis_set_expire_ok k w db : k ∈ U -> redis_wf e U db -> is_Some (seen db !! k) ->
  exists db', Db.setExpire e true k w db = Ok (db', tt) /\ redis_wf e U db' /\ seen db' = (if over e w then delete k (seen db) else seen db) /\
    pending e (times db') = (if over e w then delete k (pending e (times db)) else <[k := w]> (pending e (times db))).
Proof using Hok.
  intros Hk Hw Hv. pose proof (holds_wf e U db Hw) as Hh. destruct (visible_some e _ _ _ Hv) as (Hg & Hs & _).
  assert (does (Db.setExpire e true k w) db (fun db' r => r = tt /\ holds e U db' (contents db) (<[k := w]> (times db)))) as (db' & [] & E & _ & Hw' & Hc & Ht).
  { by eapply does_set_expire; eauto. }
  exists db'. rewrite Hc, Ht. by destruct (visible_expire e (contents db) (times db) k w Hg).
Qed.

Lemma redis_remove_expire_ok k db : k ∈ U -> redis_wf e U db -> is_Some (seen db !! k) ->
  exists db', Db.removeExpire e k db = Ok (db', bool_decide (is_Some (pending e (times db) !! k))) /\ redis_wf e U db' /\ seen db' = seen db /\
    pending e (times db') = delete k (pending e (times db)).
Proof using Hok.
  intros Hk Hw Hv. pose proof (holds_wf e U db Hw) as Hh. destruct (visible_some e _ _ _ Hv) as (Hg & Hs & Hp).
  assert (does (Db.removeExpire e k) db (fun db' r => r = bool_decide (is_Some (times db !! k)) /\ holds e U db' (contents db) (delete k (times db))))
    as (db' & r & E & -> & Hw' & Hc & Ht).
  { by eapply does_remove_expire; eauto. }
  exists db'. rewrite Hp, Hc, Ht. split_and!; [done..|by apply visible_persist|apply pending_delete].
Qed.

Lemma redis_expire_if_needed_ok k db : k ∈ U -> redis_wf e U db ->
  exists db' b, Db.expireIfNeeded e k 0 db = Ok (db', b) /\ redis_wf e U db' /\ seen db' = seen db /\ pending e (times db') = pending e (times db) /\
    (masterhost e = false /\ clients_paused e = false -> seen db !! k = None -> contents db' !! k = None).
Proof using Hok.
  intros Hk Hw. enough (does (Db.expireIfNeeded e k 0) db (fun db' r => unchanged db db' /\
    (masterhost e = false /\ clients_paused e = false -> seen db !! k = None -> contents db' !! k = None))) as (db' & r & E & (? & ? & ?) & ?) by (by exists db', r).
  eapply does_expire_if_needed; [done|by apply holds_wf|done|]. intros db'. rewrite visible_lookup. destruct (gone e (times db) k) eqn:Hg; cbn [andb].
  - destruct (expire_removes e 0) eqn:Er; intros (Hw' & Hc & Ht); rewrite Hc, Ht.
    + destruct (gone_delete e (contents db) (times db) k Hg). split_and!; [done..|]. intros _ _. apply lookup_delete_eq.
    + split_and!; [done..|]. intros [Hm Hp]. exfalso. unfold expire_removes in Er. by rewrite Hm, Hp in Er.
  - intros (Hw' & Hc & Ht). rewrite Hc, Ht. by split_and!.
Qed.

Lemma redis_write_object_ok k o db : k ∈ U -> redis_wf e U db -> is_Some (seen db !! k) ->
  exists db', Db.write_object e k o db = Ok (db', tt) /\ redis_wf e U db' /\ seen db' = <[k := o]> (seen db) /\ pending e (times db') = pending e (times db).
Proof using Hok.
  intros Hk Hw Hv. pose proof (holds_wf e U db Hw) as Hh. destruct (visible_some e _ _ _ Hv) as (Hg & Hs & _).
  assert (does (Db.write_object e k o) db (fun db' r => r = tt /\ holds e U db' (<[k := o]> (contents db)) (times db))) as (db' & [] & E & _ & Hw' & Hc & Ht).
  { by eapply does_store; eauto. }
  exists db'. split_and!; [done..| |by rewrite Ht]. rewrite Hc, Ht. by apply visible_insert.
Qed.

End Laws.

(** ** Every operation is the one on the two maps *)

Section Refinement.
Context (e : env) (U : gset (list Z)) (Hok : env_ok e U).
Notation becomes m db c t x := (does m db (fun db' r => r = x /\ holds e U db' c t)).

(** The assertions of the code. *)
Lemma add_aborts k o db c t : holds e U db c t -> k ∈ U -> is_Some (c !! k) -> Db.dbAdd e k o db = Panic.
Proof using Hok.
  intros Hh Hk [old Ho]. pose proof Hh as (Hw & Hc & _).
  destruct (add_key_ok e (env_hash _ _ Hok) (uninit_obj e) (dict_can_resize e) (db_dict db) k (wf_dict _ _ _ Hw)
    (holds_size _ _ Hok _ _ _ Hh) (dict_short _ _ Hok _ Hw) (env_short _ _ Hok _ Hk)) as (d' & r & E & Hw' & Hr).
  rewrite <- Hc in Ho. apply (contents_entry e U) in Ho; [|done]. rewrite Ho in Hr. destruct Hr as (l & -> & _ & _).
  unfold Db.dbAdd, mbind, dbm_bind, on_dict. change (dbDictType e) with (key_type (V := robj) e dictSdsKeyCompare). by rewrite E.
Qed.

Lemma find_aborts {A} (m : option (dictEntry (list Z) robj) -> dbm A) k db c t : holds e U db c t -> k ∈ U -> c !! k = None -> (forall db, m None db = Panic) ->
  (de ← on_dict (fun d => dictFind (dbDictType e) d k); m de) db = Panic.
Proof using Hok.
  intros Hh Hk Hn Hm. destruct (does_find e U Hok k db c t (fun _ r => r = None) Hh Hk) as (db' & r & E & ->); [by intros db' _; rewrite Hn|].
  unfold mbind, dbm_bind. rewrite E. apply Hm.
Qed.

(** C2: The operations of the key space, on two hash tables that may be in the middle
    of a rehash, are those on a map from keys to objects and one from keys to expire
    times.  A lookup finds the object unless its time is over, and changes nothing
    but that it then removes this one key, except on a replica, while clients are
    paused or when told not to; adding a key that exists, or changing one
    that does not, aborts the process as documented; and a key that has an expire
    time always exists. *)
Theorem redis_keyspace_correct k o w flags async db :
  k ∈ U -> redis_wf e U db ->
  let c := contents db in
  let t := times db in
  does (Db.lookupKey e k flags) db (fun db' r => r = (if gone e t k then None else c !! k) /\
    if gone e t k && lookup_removes e flags then holds e U db' (delete k c) (delete k t) else holds e U db' c t) /\
  (if c !! k then Db.dbAdd e k o db = Panic else becomes (Db.dbAdd e k o) db (<[k := o]> c) t tt) /\
  becomes (Db.dbGenericDelete e k async) db (delete k c) (delete k t) (bool_decide (is_Some (c !! k))) /\
  becomes (Db.getExpire e k) db c t (default (-1) (t !! k)) /\
  (if c !! k then
     becomes (Db.dbOverwrite e k o) db (<[k := o]> c) t tt /\
     becomes (Db.setExpire e true k w) db c (<[k := w]> t) tt /\
     becomes (Db.removeExpire e k) db c (delete k t) (bool_decide (is_Some (t !! k)))
   else Db.dbOverwrite e k o db = Panic /\ Db.setExpire e true k w db = Panic /\ Db.removeExpire e k db = Panic) /\
  (is_Some (t !! k) -> is_Some (c !! k)).
Proof using Hok.
  intros Hk Hw c t. pose proof (holds_wf e U db Hw : holds e U db c t) as Hh. split_and!.
  - by eapply does_lookup; eauto.
  - destruct (c !! k) as [old|] eqn:Ho; [by eapply add_aborts; eauto|by eapply does_add; eauto].
  - by eapply does_delete; eauto.
  - by eapply does_get_expire; eauto.
  - destruct (c !! k) as [old|] eqn:Ho; split_and!.
    + by eapply does_overwrite; eauto.
    + by eapply does_set_expire; eauto.
    + by eapply does_remove_expire; eauto.
    + by eapply find_aborts; eauto.
    + by eapply find_aborts; eauto.
    + by eapply find_aborts; eauto.
  - apply (wf_times _ _ _ Hw).
Qed.

End Refinement.

(** The key space implements the interface. *)
Definition redis_laws (e : env) (U : gset (list Z)) (Hok : env_ok e U) (Hmw : may_write e) : @KeyspaceLaws redisDb (redis_keyspace e) :=
  @Build_KeyspaceLaws redisDb (redis_keyspace e) (redis_wf e U) (fun k => k ∈ U) (fun db => visible e (contents db) (times db)) (fun db => pending e (times db))
    (fun db k => contents db !! k = None) (over e) (masterhost e = false /\ clients_paused e = false)
    (redis_live e U) (redis_read_ok e U Hok) (fun k db => redis_write_ok e U Hok k db Hmw) (redis_add_ok e U Hok) (redis_overwrite_ok e U Hok) (redis_delete_ok e U Hok)
    (redis_get_expire_ok e U Hok) (redis_set_expire_ok e U Hok) (redis_remove_expire_ok e U Hok) (redis_expire_if_needed_ok e U Hok) (redis_write_object_ok e U Hok).

Lemma empty_db_wf e U : redis_wf e U empty_db.
Proof. split; [apply create_wf..| |]; unfold contents, times; cbn; intros k Hk; rewrite lookup_fmap, lookup_empty in Hk; by destruct Hk. Qed.

(** Only the hash function matters: the database stays well-formed when the clock or
    the role of the server changes. *)
Lemma dict_wf_hash {V} e e' (d : dict (list Z) V) cmp : dictGenHashFunction e = dictGenHashFunction e' ->
  dict_wf (key_type e cmp) (id : list Z -> list Z) d -> dict_wf (key_type e' cmp) (id : list Z -> list Z) d.
Proof.
  intros Hh [Ht Hn Hm Hp]. split; [|done..]. unfold tables_wf, ht_wf, ht_shape in *. cbn [hashFunction key_type] in *. by rewrite <- Hh.
Qed.

Lemma redis_wf_hash e e' U db : dictGenHashFunction e = dictGenHashFunction e' -> redis_wf e U db -> redis_wf e' U db.
Proof. intros Hh [Hd Hx Hk Ht]. split; [by eapply dict_wf_hash|by eapply dict_wf_hash|done..]. Qed.

(** * Examples *)

(** A primary at some time, with a simple hash function. *)
Definition sample_env (time : Z) : env :=
  Env (fun k => foldl (fun h b => (h * 31 + b) mod 2 ^ 64) 7 k) (fun _ => false) true (RInt 1 0) 0 false true false false None 1 time time false false false.

Definition sample_words : list (list Z) := map chars ["a"; "b"; "v"; "SET"; "PX"; "100"; "TTL"].

Definition sample_keys : gset (list Z) := list_to_set sample_words.

Lemma sample_env_ok time : env_ok (sample_env time) sample_keys.
Proof.
  split.
  - intros k. cbn [sample_env dictGenHashFunction]. assert (forall h, 0 <= h < 2 ^ 64 -> 0 <= foldl (fun h b => (h * 31 + b) mod 2 ^ 64) h k < 2 ^ 64) as Hf; [|by apply Hf].
    induction k as [|b k IH]; intros h Hh; [done|]. apply IH. apply Z.mod_pos_bound. lia.
  - by vm_compute.
  - intros k Hk. apply elem_of_list_to_set in Hk. revert k Hk. apply Forall_forall. by repeat constructor.
Qed.

Lemma sample_may_write time : may_write (sample_env time).
Proof. by split. Qed.

Definition sample_db : redisDb :=
  match (Db.dbAdd (sample_env 1000) (chars "a") (RInt 1 5);; Db.setExpire (sample_env 1000) true (chars "a") 2000) empty_db with Ok (db, _) => db | _ => empty_db end.

Lemma sample_db_holds : holds (sample_env 1000) sample_keys sample_db {[chars "a" := RInt 1 5]} {[chars "a" := 2000]}.
Proof.
  assert (chars "a" ∈ sample_keys) as Hk by (by vm_compute).
  assert (does (Db.dbAdd (sample_env 1000) (chars "a") (RInt 1 5);; Db.setExpire (sample_env 1000) true (chars "a") 2000) empty_db
    (fun db _ => holds (sample_env 1000) sample_keys db {[chars "a" := RInt 1 5]} {[chars "a" := 2000]})) as (db & [] & E & Hh).
  { apply does_bind. eapply (does_add _ _ (sample_env_ok 1000)); [apply holds_wf, empty_db_wf|done|done|]. intros db1 Hh1.
    eapply (does_set_expire _ _ (sample_env_ok 1000)); [exact Hh1|done|by eexists|]. by intros db2 Hh2. }
  unfold sample_db. by rewrite E.
Qed.

Lemma redis_keyspace_correct_witness :
  does (Db.lookupKey (sample_env 1500) (chars "a") LOOKUP_NONE) sample_db (fun _ r => r = Some (RInt 1 5)) /\
  does (Db.lookupKey (sample_env 2500) (chars "a") LOOKUP_NONE) sample_db (fun _ r => r = None).
Proof.
  assert (chars "a" ∈ sample_keys) as Hk by (by vm_compute). pose proof sample_db_holds as Hh. generalize dependent sample_db. intros db (Hw0 & Hc & Ht).
  assert (forall time, redis_wf (sample_env time) sample_keys db) as Hw by (intros time; by apply (redis_wf_hash (sample_env 1000))).
  split.
  - destruct (redis_keyspace_correct (sample_env 1500) sample_keys (sample_env_ok 1500) (chars "a") (RInt 1 5) 0 LOOKUP_NONE false db Hk (Hw _)) as [Hl _].
    eapply does_impl; [exact Hl|]. cbv beta. rewrite Hc, Ht. intros db' a [-> _]. by vm_compute.
  - destruct (redis_keyspace_correct (sample_env 2500) sample_keys (sample_env_ok 2500) (chars "a") (RInt 1 5) 0 LOOKUP_NONE false db Hk (Hw _)) as [Hl _].
    eapply does_impl; [exact Hl|]. cbv beta. rewrite Hc, Ht. intros db' a [-> _]. by vm_compute.
Defined.
