(* ===== verification/RdbSave.v ===== *)
(** Saving all databases in RDB format ([rdb.c], [rdb.h], [rdbSaveModulesAux] of
    [module.c]): the header, the auxiliary fields, the function libraries, the keys of
    every database in the order of its iterator, and the checksum.

    The theorems are in [RdbLoad]; here it is shown that the databases are saved
    unchanged, key by key, or that the device failed. *)
From S2P Require Import Prelude Endian Util Sds Dict DictScan Object StringCommands Lzf Crc Rio Rdb RdbObject Db.
From stdpp Require Import gmap list strings.

Open Scope Z_scope.

(** * Definitions *)

Definition RDB_OPCODE_FUNCTION2 : Z := 245.
Definition RDB_OPCODE_FUNCTION : Z := 246.
Definition RDB_OPCODE_MODULE_AUX : Z := 247.
Definition RDB_OPCODE_IDLE : Z := 248.
Definition RDB_OPCODE_FREQ : Z := 249.
Definition RDB_OPCODE_AUX : Z := 250.
Definition RDB_OPCODE_RESIZEDB : Z := 251.
Definition RDB_OPCODE_EXPIRETIME_MS : Z := 252.
Definition RDB_OPCODE_EXPIRETIME : Z := 253.
Definition RDB_OPCODE_SELECTDB : Z := 254.
Definition RDB_OPCODE_EOF : Z := 255.

Definition RDB_MODULE_OPCODE_EOF : Z := 0.
Definition RDB_MODULE_OPCODE_SINT : Z := 1.
Definition RDB_MODULE_OPCODE_UINT : Z := 2.
Definition RDB_MODULE_OPCODE_FLOAT : Z := 3.
Definition RDB_MODULE_OPCODE_DOUBLE : Z := 4.
Definition RDB_MODULE_OPCODE_STRING : Z := 5.

Definition RDBFLAGS_NONE : Z := 0.
Definition RDBFLAGS_AOF_PREAMBLE : Z := Z.shiftl 1 0.
Definition RDBFLAGS_ALLOW_DUP : Z := Z.shiftl 1 2.
Definition RDBFLAGS_FEED_REPL : Z := Z.shiftl 1 3.

Definition SLAVE_REQ_RDB_EXCLUDE_DATA : Z := Z.shiftl 1 0.
Definition SLAVE_REQ_RDB_EXCLUDE_FUNCTIONS : Z := Z.shiftl 1 1.

Definition REDISMODULE_AUX_BEFORE_RDB : Z := Z.shiftl 1 0.
Definition REDISMODULE_AUX_AFTER_RDB : Z := Z.shiftl 1 1.

Definition REDIS_VERSION : list Z := chars "7.0.5".
Definition CONFIG_RUN_ID_SIZE : Z := 40.

Record rdbSaveInfo := SaveInfo {
  repl_stream_db : Z;
  repl_id_is_set : bool;
  repl_id : list Z;
  repl_offset : Z;
}.

(** The auxiliary data of a module type: [aux_save] writes it and gives the bytes and
    the error flag of its context, [aux_load] reads it, given the encoding version,
    and gives whether it succeeded and the error flag. *)
Record moduleType `{Stream} := ModuleType {
  mt_id : Z;
  aux_save : option (Z -> rdbm (Z * bool));
  aux_save_triggers : Z;
  aux_load : option (Z -> Z -> rdbm (bool * bool));
}.

(** What is saved besides the databases.  The idle time and the frequency of the
    object at a key are given by their functions; the modules with their types and
    the code of the libraries are in the order their iterators give them; [ht_addr] has the
    addresses of the tables that are iterated. *)
Record save_env `{Stream} := SaveEnv {
  rdb_checksum : bool;
  policy_lru : bool;
  policy_lfu : bool;
  estimateObjectIdleTime : list Z -> Z;
  LFUDecrAndReturn : list Z -> Z;
  time_now : Z;
  zmalloc_used_memory : Z;
  replid : list Z;
  master_repl_offset : Z;
  modules : list (list moduleType);
  functions : list (list Z);
  ht_addr : Z * Z;
  others : other_types;
}.

Definition set_dict (db : redisDb) (d : dict (list Z) robj) : redisDb :=
  RedisDb d (db_expires db) (stat_keyspace_hits db) (stat_keyspace_misses db) (stat_expiredkeys db) (db_log db).

(** [rdb->update_cksum] *)
Definition set_cksum `{Stream} (u : bool) : rdbm unit := fun r =>
  Ok (Rio _ (rio_io r) u (cksum r) (read_error r) (write_error r) (processed_bytes r) (max_processing_chunk r), tt).

Definition get_cksum `{Stream} : rdbm Z := fun r => Ok (r, cksum r).

Section Save.
Context `{Host} `{Allocator} `{Stream} (cfg : config) (re : rdb_env) (e : env) (se : save_env).

(** ** Keys *)

Definition rdbSaveKeyValuePair (key : list Z) (val : robj) (expiretime : Z) : rdbm Z :=
  n ← (if negb (expiretime =? -1) then
         n ← rdbSaveType RDB_OPCODE_EXPIRETIME_MS;
         if n =? -1 then mret (-1) else rdbSaveMillisecondTime expiretime
       else mret 0);
  if n =? -1 then mret (-1)
  else
    n ← (if policy_lru se then
           let idletime := estimateObjectIdleTime se key / 1000 in
           n ← rdbSaveType RDB_OPCODE_IDLE;
           if n =? -1 then mret (-1) else rdbSaveLen idletime
         else mret 0);
    if n =? -1 then mret (-1)
    else
      n ← (if policy_lfu se then
             n ← rdbSaveType RDB_OPCODE_FREQ;
             if n =? -1 then mret (-1) else rdbWriteRaw [wrapU 8 (LFUDecrAndReturn se key)]
           else mret 0);
      if n =? -1 then mret (-1)
      else
        n ← rdbSaveObjectType (others se) val;
        if n =? -1 then mret (-1)
        else
          n ← rdbSaveStringObject cfg re (RString OBJ_ENCODING_RAW 1 key);
          if n =? -1 then mret (-1)
          else
            n ← rdbSaveObject cfg re (others se) val key;
            if n =? -1 then mret (-1) else mret 1.

(** ** Auxiliary fields *)

Definition rdbSaveAuxField (key val : list Z) : rdbm Z :=
  ret ← rdbSaveType RDB_OPCODE_AUX;
  if ret =? -1 then mret (-1)
  else
    let len := ret in
    ret ← rdbSaveRawString cfg re key;
    if ret =? -1 then mret (-1)
    else
      let len := len + ret in
      ret ← rdbSaveRawString cfg re val;
      if ret =? -1 then mret (-1) else mret (len + ret).

Definition rdbSaveAuxFieldStrStr (key val : list Z) : rdbm Z := rdbSaveAuxField (cstr key) (cstr val).

Definition rdbSaveAuxFieldStrInt (key : list Z) (val : Z) : rdbm Z :=
  buf ← calc (ll_text LONG_STR_SIZE val);
  rdbSaveAuxField (cstr key) buf.

(** The fields one after the other. *)
Fixpoint save_fields (fields : list (rdbm Z)) : rdbm Z :=
  match fields with
  | [] => mret 1
  | f :: fields => n ← f; if n =? -1 then mret (-1) else save_fields fields
  end.

Definition rdbSaveInfoAuxFields (rdbflags : Z) (rsi : option rdbSaveInfo) : rdbm Z :=
  let redis_bits := 64 in
  let aof_base := if negb (Z.land rdbflags RDBFLAGS_AOF_PREAMBLE =? 0) then 1 else 0 in
  save_fields
    ([rdbSaveAuxFieldStrStr (chars "redis-ver") REDIS_VERSION;
      rdbSaveAuxFieldStrInt (chars "redis-bits") redis_bits;
      rdbSaveAuxFieldStrInt (chars "ctime") (time_now se);
      rdbSaveAuxFieldStrInt (chars "used-mem") (zmalloc_used_memory se)] ++
     match rsi with
     | Some rsi =>
         [rdbSaveAuxFieldStrInt (chars "repl-stream-db") (repl_stream_db rsi);
          rdbSaveAuxFieldStrStr (chars "repl-id") (replid se);
          rdbSaveAuxFieldStrInt (chars "repl-offset") (master_repl_offset se)]
     | None => []
     end ++
     [rdbSaveAuxFieldStrInt (chars "aof-base") aof_base]).

(** ** Modules and libraries *)

Definition rdbSaveSingleModuleAux (when : Z) (mt : moduleType) : rdbm Z :=
  retval ← rdbSaveType RDB_OPCODE_MODULE_AUX;
  if retval =? -1 then mret (-1)
  else
    let bytes := retval in
    retval ← rdbSaveLen (mt_id mt);
    if retval =? -1 then mret (-1)
    else
      let bytes := bytes + retval in
      retval ← rdbSaveLen RDB_MODULE_OPCODE_UINT;
      if retval =? -1 then mret (-1)
      else
        let bytes := bytes + retval in
        retval ← rdbSaveLen when;
        if retval =? -1 then mret (-1)
        else
          let bytes := bytes + retval in
          match aux_save mt with
          | None => calc Fault
          | Some save =>
              io ← save when;
              let '(n, error) := io in
              let bytes := bytes + n in
              retval ← rdbSaveLen RDB_MODULE_OPCODE_EOF;
              if (retval =? -1) || error then mret (-1) else mret (bytes + retval)
          end.

Fixpoint save_types (types : list moduleType) (when total_written : Z) : rdbm Z :=
  match types with
  | [] => mret total_written
  | mt :: types =>
      if negb (bool_decide (is_Some (aux_save mt))) || (Z.land (aux_save_triggers mt) when =? 0) then save_types types when total_written
      else
        ret ← rdbSaveSingleModuleAux when mt;
        if ret =? -1 then mret (-1) else save_types types when (total_written + ret)
  end.

Definition rdbSaveModulesAux (when : Z) : rdbm Z := save_types (concat (modules se)) when 0.

Fixpoint save_libraries (codes : list (list Z)) (written : Z) : rdbm Z :=
  match codes with
  | [] => mret written
  | code :: codes =>
      ret ← rdbSaveType RDB_OPCODE_FUNCTION2;
      if ret <? 0 then mret (-1)
      else
        let written := written + ret in
        ret ← rdbSaveRawString cfg re code;
        if ret <? 0 then mret (-1) else save_libraries codes (written + ret)
  end.

Definition rdbSaveFunctions : rdbm Z := save_libraries (functions se) 0.

(** ** Databases *)

(** The opcodes that select the database and give its sizes. *)
Definition save_db_header (dbid db_size expires_size : Z) : rdbm Z :=
  res ← rdbSaveType RDB_OPCODE_SELECTDB;
  if res <? 0 then mret (-1)
  else
    let written := res in
    res ← rdbSaveLen dbid;
    if res <? 0 then mret (-1)
    else
      let written := written + res in
      res ← rdbSaveType RDB_OPCODE_RESIZEDB;
      if res <? 0 then mret (-1)
      else
        let written := written + res in
        res ← rdbSaveLen db_size;
        if res <? 0 then mret (-1)
        else
          let written := written + res in
          res ← rdbSaveLen expires_size;
          if res <? 0 then mret (-1) else mret (written + res).

(** The loop over the entries: the database, the iterator, and the bytes written or
    -1 for [goto werr]. *)
Fixpoint save_keys (fuel : nat) (db : redisDb) (di : dictIterator) (written : Z) : rdbm (redisDb * dictIterator * Z) :=
  match fuel with
  | O => calc OutOfFuel
  | S fuel =>
      next ← calc (dictNext (ht_addr se).1 (ht_addr se).2 (db_dict db) di);
      let '(d, di, de) := next in
      let db := set_dict db d in
      match de with
      | None => mret (db, di, written)
      | Some de =>
          x ← calc (Db.getExpire e (de_key de) db);
          let '(db, expire) := x in
          res ← rdbSaveKeyValuePair (de_key de) (de_val de) expire;
          if res <? 0 then mret (db, di, -1) else save_keys fuel db di (written + res)
      end
  end.

(** The database and the bytes written, or -1. *)
Definition rdbSaveDb (dbid : Z) (db : redisDb) : rdbm (redisDb * Z) :=
  let d := db_dict db in
  if dictSize d =? 0 then mret (db, 0)
  else
    let di := dictGetSafeIterator in
    n ← save_db_header dbid (dictSize (db_dict db)) (dictSize (db_expires db));
    x ← (if n <? 0 then mret (db, di, -1) else save_keys (S (Z.to_nat (dictSize d))) db di n);
    let '(db, di, written) := x in
    d ← calc (dictReleaseIterator (ht_addr se).1 (ht_addr se).2 (db_dict db) di);
    mret (set_dict db d, written).

(** The databases from [dbid] on. *)
Fixpoint save_dbs (dbid : Z) (dbs : list redisDb) : rdbm (list redisDb * Z) :=
  match dbs with
  | [] => mret ([], 0)
  | db :: dbs =>
      x ← rdbSaveDb dbid db;
      let '(db, n) := x in
      if n =? -1 then mret (db :: dbs, -1)
      else
        x ← save_dbs (dbid + 1) dbs;
        let '(dbs, n) := x in
        mret (db :: dbs, n)
  end.

(** [snprintf(magic, sizeof(magic), "REDIS%04d", RDB_VERSION)] *)
Definition magic : list Z :=
  let v := ll_repr RDB_VERSION in
  chars "REDIS" ++ replicate (4 - length v) 48 ++ v.

(** The databases, and [true] for [C_OK]. *)
Definition rdbSaveRio (req rdbflags : Z) (rsi : option rdbSaveInfo) (dbs : list redisDb) : rdbm (list redisDb * bool) :=
  let exclude_data := negb (Z.land req SLAVE_REQ_RDB_EXCLUDE_DATA =? 0) in
  let exclude_functions := negb (Z.land req SLAVE_REQ_RDB_EXCLUDE_FUNCTIONS =? 0) in
  (if rdb_checksum se then set_cksum true else mret tt);;
  n ← rdbWriteRaw magic;
  if n =? -1 then mret (dbs, false)
  else
    n ← rdbSaveInfoAuxFields rdbflags rsi;
    if n =? -1 then mret (dbs, false)
    else
      n ← (if negb exclude_data then rdbSaveModulesAux REDISMODULE_AUX_BEFORE_RDB else mret 0);
      if n =? -1 then mret (dbs, false)
      else
        n ← (if negb exclude_functions then rdbSaveFunctions else mret 0);
        if n =? -1 then mret (dbs, false)
        else
          x ← (if negb exclude_data then save_dbs 0 dbs else mret (dbs, 0));
          let '(dbs, n) := x in
          if n =? -1 then mret (dbs, false)
          else
            n ← (if negb exclude_data then rdbSaveModulesAux REDISMODULE_AUX_AFTER_RDB else mret 0);
            if n =? -1 then mret (dbs, false)
            else
              n ← rdbSaveType RDB_OPCODE_EOF;
              if n =? -1 then mret (dbs, false)
              else
                cksum ← get_cksum;
                cksum ← calc (memrev64ifbe (host_bytes 8 cksum));
                ok ← rioWrite cksum;
                mret (dbs, ok).

End Save.

(** * What is saved *)

(** The parts of a file. *)
Inductive item :=
| IAux (key val : list Z)
| ILibrary (code : list Z)
| ISelect (dbid : Z)
| IResize (db_size expires_size : Z)
| IKey (expire idle freq : option Z) (key s : list Z).

Definition option_code (x : option Z) (code : Z -> list Z) : list Z := match x with Some v => code v | None => [] end.

Definition time_code (t : Z) : list Z := [RDB_OPCODE_EXPIRETIME_MS] ++ le_bytes 8 t.
Definition idle_code (v : Z) : list Z := [RDB_OPCODE_IDLE] ++ len_code v.
Definition freq_code (v : Z) : list Z := [RDB_OPCODE_FREQ] ++ [v].

Inductive item_code : item -> list Z -> Prop :=
| code_aux k v ck cv : encodes ck k -> encodes cv v -> item_code (IAux k v) ([RDB_OPCODE_AUX] ++ ck ++ cv)
| code_library s c : encodes c s -> item_code (ILibrary s) ([RDB_OPCODE_FUNCTION2] ++ c)
| code_select n : item_code (ISelect n) ([RDB_OPCODE_SELECTDB] ++ len_code n)
| code_resize a b : item_code (IResize a b) ([RDB_OPCODE_RESIZEDB] ++ len_code a ++ len_code b)
| code_key expire idle freq k s ck cs : encodes ck k -> encodes cs s ->
    item_code (IKey expire idle freq k s) (option_code expire time_code ++ option_code idle idle_code ++ option_code freq freq_code ++ [RDB_TYPE_STRING] ++ ck ++ cs).

Definition codes (items : list item) (bs : list Z) : Prop := exists cs, Forall2 item_code items cs /\ bs = concat cs.

Definition text (o : robj) : list Z := default [] (obj_str o).

Section Items.
Context `{Stream} (se : save_env).

Definition key_item (t : gmap (list Z) Z) (en : dictEntry (list Z) robj) : item :=
  IKey (t !! de_key en) (if policy_lru se then Some (estimateObjectIdleTime se (de_key en) / 1000) else None)
    (if policy_lfu se then Some (wrapU 8 (LFUDecrAndReturn se (de_key en))) else None) (de_key en) (text (de_val en)).

Definition db_items (dbid : Z) (db : redisDb) : list item :=
  if dictSize (db_dict db) =? 0 then []
  else ISelect dbid :: IResize (dictSize (db_dict db)) (dictSize (db_expires db)) :: (key_item (times db) <$> entries (db_dict db)).

Fixpoint dbs_items (dbid : Z) (dbs : list redisDb) : list item :=
  match dbs with [] => [] | db :: dbs => db_items dbid db ++ dbs_items (dbid + 1) dbs end.

Definition aux_items (rdbflags : Z) (rsi : option rdbSaveInfo) : list item :=
  [IAux (chars "redis-ver") REDIS_VERSION; IAux (chars "redis-bits") (ll_repr 64);
   IAux (chars "ctime") (ll_repr (time_now se)); IAux (chars "used-mem") (ll_repr (zmalloc_used_memory se))] ++
  match rsi with
  | Some rsi => [IAux (chars "repl-stream-db") (ll_repr (repl_stream_db rsi)); IAux (chars "repl-id") (replid se);
                 IAux (chars "repl-offset") (ll_repr (master_repl_offset se))]
  | None => []
  end ++
  [IAux (chars "aof-base") (ll_repr (if negb (Z.land rdbflags RDBFLAGS_AOF_PREAMBLE =? 0) then 1 else 0))].

Definition file_items (rdbflags : Z) (rsi : option rdbSaveInfo) (dbs : list redisDb) : list item :=
  aux_items rdbflags rsi ++ (ILibrary <$> functions se) ++ dbs_items 0 dbs.

(** The checksum is zero when it is not computed. *)
Definition file (body : list Z) : list Z := body ++ le_bytes 8 (if rdb_checksum se then crc_of 0 body else 0).

End Items.

Lemma codes_nil : codes [] [].
Proof. by exists []. Qed.

Lemma codes_one i c : item_code i c -> codes [i] c.
Proof. intros Hi. exists [c]. split; [by constructor|cbn; by rewrite app_nil_r]. Qed.

Lemma codes_app xs ys a b : codes xs a -> codes ys b -> codes (xs ++ ys) (a ++ b).
Proof. intros (ca & Ha & ->) (cb & Hb & ->). exists (ca ++ cb). split; [by apply Forall2_app|]. by rewrite concat_app. Qed.

Lemma codes_cons i xs a b : item_code i a -> codes xs b -> codes (i :: xs) (a ++ b).
Proof. intros Hi. apply (codes_app [i]). by apply codes_one. Qed.

(** * Saving *)

Section Saving.
Context `{Host} `{Allocator} `{StreamLaws} (cfg : config) (re : rdb_env) (e : env) (se : save_env).

Lemma saves_seq_neg f a n k b m : saves f a n -> 0 <= n -> saves (k n) b m -> saves (x ← f; if x <? 0 then mret (-1) else k x) (a ++ b) m.
Proof.
  intros Hf Hn Hk r Hr Hw. destruct (Hf r Hr Hw) as (r1 & x & E & [[-> Hr1]|[-> Hr1]]); unfold mbind, rdbm_bind; rewrite E.
  - zfalse (n <? 0). destruct (Hk r1) as (r2 & y & -> & Hy); [apply Hr1|apply Hr1|]. exists r2, y. split; [done|]. destruct Hy as [[-> Hy]|Hy]; [|by right].
    left. split; [done|]. by eapply written_app.
  - by exists r1, (-1); auto.
Qed.

Lemma saves_type t : is_byte t -> saves (rdbSaveType t) [t] 1.
Proof. intros Ht. unfold rdbSaveType. assert (wrapU 8 t = t) as -> by (unfold is_byte in Ht; apply wrapU_small; lia). apply (saves_write [t]). by forall_list. Qed.

(** An opcode with its operand, when there is one. *)
Lemma saves_option (b : bool) op v f code n : is_byte op -> 0 <= n -> (b = true -> saves f (code v) n) ->
  exists m, 0 <= m /\ saves (if b then n ← rdbSaveType op; if n =? -1 then mret (-1) else f else mret 0) (option_code (if b then Some v else None) (fun v => [op] ++ code v)) m.
Proof.
  intros Hop Hn Hf. destruct b; [|exists 0; split; [done|apply saves_ret]]. exists n. split; [done|]. apply (saves_seq _ [op] 1 (fun _ => f)); [by apply saves_type|done|by apply Hf].
Qed.

Record pair_ok (t : option Z) (key : list Z) (val : robj) : Prop := {
  pk_key : savable cfg re key;
  pk_obj : obj_wf val;
  pk_text : obj_str val = Some (text val);
  pk_val : savable cfg re (text val);
  pk_time w : t = Some w -> 0 <= w <= INT64_MAX;
  pk_idle : policy_lru se = true -> 0 <= estimateObjectIdleTime se key / 1000 < 2 ^ 64;
}.

Lemma saves_pair t key val : pair_ok (t !! key) key val ->
  exists code, item_code (key_item se t (Entry key val)) code /\ saves (rdbSaveKeyValuePair cfg re se key val (default (-1) (t !! key))) code 1.
Proof.
  intros [Hk Hw Ht Hv Htime Hidle]. destruct (saves_raw_string cfg re key Hk) as (ck & Eck & Sck). destruct (saves_object cfg re (others se) val key _ Hw Ht Hv) as (cs & Ecs & Hcs & Scs).
  assert (0 < zlen ck) by (apply (encodes_pos ck key Eck); destruct Hk; unfold MAX_STRING in *; lia).
  eexists. split; [by constructor|]. unfold rdbSaveKeyValuePair. cbn [de_key de_val].
  destruct (saves_option (negb (default (-1) (t !! key) =? -1)) RDB_OPCODE_EXPIRETIME_MS (default (-1) (t !! key)) (rdbSaveMillisecondTime (default (-1) (t !! key))) (le_bytes 8) 8)
    as (m1 & Hm1 & S1); [done|done|intros _; apply saves_time|].
  destruct (saves_option (policy_lru se) RDB_OPCODE_IDLE (estimateObjectIdleTime se key / 1000) (rdbSaveLen (estimateObjectIdleTime se key / 1000)) len_code
    (zlen (len_code (estimateObjectIdleTime se key / 1000)))) as (m2 & Hm2 & S2); [done|apply zlen_nonneg|intros Hp; apply saves_len; auto|].
  destruct (saves_option (policy_lfu se) RDB_OPCODE_FREQ (wrapU 8 (LFUDecrAndReturn se key)) (rdbWriteRaw [wrapU 8 (LFUDecrAndReturn se key)]) (fun v => [v]) 1) as (m3 & Hm3 & S3);
    [done|done|intros _; apply (saves_write [_]); forall_list; unfold is_byte; apply (wrapU_range 8); lia|].
  assert ((if negb (default (-1) (t !! key) =? -1) then Some (default (-1) (t !! key)) else None) = t !! key) as E1.
  { destruct (t !! key) as [w|] eqn:Ew; [|done]. change (default (-1) (Some w)) with w. pose proof (Htime w eq_refl). by zfalse (w =? -1). }
  rewrite E1 in S1. eapply saves_seq; [exact S1|lia|]. eapply saves_seq; [exact S2|lia|]. eapply saves_seq; [exact S3|lia|].
  eapply (saves_seq _ _ 1); [by eapply saves_object_type|lia|]. eapply saves_seq; [exact Sck|lia|]. eapply saves_last; [exact Scs|lia].
Qed.

(** ** Fields and libraries *)

Lemma saves_aux key val : savable cfg re key -> savable cfg re val -> exists code, item_code (IAux key val) code /\ exists n, 0 <= n /\ saves (rdbSaveAuxField cfg re key val) code n.
Proof.
  intros Hk Hv. destruct (saves_raw_string cfg re key Hk) as (ck & Eck & Sck). destruct (saves_raw_string cfg re val Hv) as (cv & Ecv & Scv). eexists. split; [by constructor|].
  pose proof (zlen_nonneg ck). pose proof (zlen_nonneg cv). exists (1 + zlen ck + zlen cv). split; [lia|]. unfold rdbSaveAuxField. eapply (saves_seq _ _ 1); [by apply saves_type|done|]. cbv zeta.
  eapply saves_seq; [exact Sck|lia|]. apply (saves_sum _ _ (zlen cv) (fun n => _ + n)); [exact Scv|lia].
Qed.

(** Strings of ordinary size are savable when long ones are. *)
Definition small_strings : Prop := forall s, Forall is_byte s -> zlen s <= 64 -> savable cfg re s.

Lemma saves_aux_int key val : small_strings -> savable cfg re key -> Forall (fun c => c <> 0) key -> INT64_MIN <= val <= INT64_MAX ->
  exists code, item_code (IAux key (ll_repr val)) code /\ exists n, 0 <= n /\ saves (rdbSaveAuxFieldStrInt cfg re key val) code n.
Proof.
  intros Hsmall Hk Hz Hv. pose proof (ll_repr_bound val Hv). destruct (saves_aux key (ll_repr val) Hk) as (code & Hc & n & Hn & Hs); [apply Hsmall; [apply ll_repr_bytes|lia]|].
  exists code. split; [done|]. exists n. split; [done|]. unfold rdbSaveAuxFieldStrInt. eapply saves_calc; [by apply ll_text_ok|]. by rewrite cstr_id.
Qed.

Lemma saves_aux_str key val : savable cfg re key -> savable cfg re val -> Forall (fun c => c <> 0) key -> Forall (fun c => c <> 0) val ->
  exists code, item_code (IAux key val) code /\ exists n, 0 <= n /\ saves (rdbSaveAuxFieldStrStr cfg re key val) code n.
Proof. intros Hk Hv Hzk Hzv. unfold rdbSaveAuxFieldStrStr. rewrite !cstr_id by done. by apply saves_aux. Qed.

Lemma saves_fields fields items :
  Forall2 (fun f i => exists code, item_code i code /\ exists n, 0 <= n /\ saves f code n) fields items ->
  exists code, codes items code /\ saves (save_fields fields) code 1.
Proof.
  induction 1 as [|f i fields items (c1 & Hc1 & n & Hn & Hs) _ (c2 & Hc2 & Hs2)]; [exists []; split; [apply codes_nil|apply saves_ret]|].
  exists (c1 ++ c2). split; [by apply codes_cons|]. cbn [save_fields]. apply (saves_seq f c1 n (fun _ => save_fields fields)); [done|lia|done].
Qed.

(** What the fields say is within bounds. *)
Record info_ok (rsi : option rdbSaveInfo) : Prop := {
  in_time : INT64_MIN <= time_now se <= INT64_MAX;
  in_memory : INT64_MIN <= zmalloc_used_memory se <= INT64_MAX;
  in_offset : INT64_MIN <= master_repl_offset se <= INT64_MAX;
  in_stream_db i : rsi = Some i -> - 2 ^ 31 <= repl_stream_db i < 2 ^ 31;
  in_replid : zlen (replid se) = CONFIG_RUN_ID_SIZE /\ Forall is_byte (replid se) /\ Forall (fun c => c <> 0) (replid se);
  in_libraries : Forall (savable cfg re) (functions se);
  in_modules : Forall (fun mt => aux_save mt = None) (concat (modules se));
  in_small : small_strings;
}.

Lemma saves_info rdbflags rsi : info_ok rsi -> exists code, codes (aux_items se rdbflags rsi) code /\ saves (rdbSaveInfoAuxFields cfg re se rdbflags rsi) code 1.
Proof.
  intros [Ht Hm Ho Hd (Hl & Hb & Hz) _ _ Hsmall]. unfold CONFIG_RUN_ID_SIZE in Hl.
  assert (forall v, v = 1 \/ v = 0 \/ v = 64 -> INT64_MIN <= v <= INT64_MAX) as Hbit by (zconst; lia).
  unfold rdbSaveInfoAuxFields, aux_items. cbv zeta. apply saves_fields. apply Forall2_app; [|apply Forall2_app].
  - repeat apply Forall2_cons_2; [apply saves_aux_str; [apply Hsmall; by vm_compute; repeat constructor..| |]; by repeat constructor| | | |constructor];
      (apply saves_aux_int; [done|apply Hsmall; [by repeat constructor|done]|by repeat constructor|auto]).
  - destruct rsi as [i|]; [|constructor]. specialize (Hd i eq_refl). assert (INT64_MIN <= repl_stream_db i <= INT64_MAX) by (zconst; lia).
    repeat apply Forall2_cons_2; [apply saves_aux_int; [done|apply Hsmall; [by repeat constructor|done]|by repeat constructor|done]
      |apply saves_aux_str; [apply Hsmall; [by repeat constructor|done]|apply Hsmall; [done|lia]|by repeat constructor|done]
      |apply saves_aux_int; [done|apply Hsmall; [by repeat constructor|done]|by repeat constructor|done]|constructor].
  - apply Forall2_cons_2; [|constructor]. apply saves_aux_int; [done|apply Hsmall; [by repeat constructor|done]|by repeat constructor|]. destruct (negb _); auto.
Qed.

Lemma saves_libraries cs n : Forall (savable cfg re) cs -> 0 <= n -> exists code m, codes (ILibrary <$> cs) code /\ 0 <= m /\ saves (save_libraries cfg re cs n) code m.
Proof.
  intros Hc. revert n. induction Hc as [|s cs Hs _ IH]; intros n Hn; [exists [], n; split; [apply codes_nil|split; [done|apply saves_ret]]|].
  destruct (saves_raw_string cfg re s Hs) as (c1 & E1 & S1). pose proof (zlen_nonneg c1). destruct (IH (n + 1 + zlen c1)) as (c2 & m & Hc2 & Hm & S2); [lia|].
  exists (([RDB_OPCODE_FUNCTION2] ++ c1) ++ c2), m. split; [apply codes_cons; [by constructor|done]|]. split; [done|]. rewrite <- app_assoc. cbn [save_libraries].
  eapply (saves_seq_neg _ _ 1); [by apply saves_type|done|]. cbv zeta. apply (saves_seq_neg _ c1 (zlen c1) (fun ret => save_libraries cfg re cs (n + 1 + ret))); done.
Qed.

Lemma saves_no_modules when : info_ok None \/ (exists i, info_ok (Some i)) -> saves (rdbSaveModulesAux se when) [] 0.
Proof.
  intros Hi. assert (Forall (fun mt => aux_save mt = None) (concat (modules se))) as Hn by (destruct Hi as [Hi|[i Hi]]; apply Hi).
  unfold rdbSaveModulesAux. induction Hn as [|mt l Hm _ IH]; [apply saves_ret|]. cbn [save_types]. rewrite Hm. exact IH.
Qed.

End Saving.

(** ** Databases *)

(** While rehashing is paused a lookup does not touch the table. *)
Lemma find_paused {V} (T : dictType (list Z) V) d key d' x : 0 < pauserehash d -> dictFind T d key = Ok (d', x) -> d' = d.
Proof.
  intros Hp. unfold dictFind, _dictRehashStep. zfalse (pauserehash d =? 0). destruct (dictSize d =? 0); [intros; by simplify_eq/=|].
  assert ((if dictIsRehashing d then Ok d else Ok d) = Ok d) as -> by (by destruct (dictIsRehashing d)). rewrite bind_Ok. cbv zeta.
  intros (r & _ & E)%bind_Ok_inv. destruct r; [by simplify_eq|]. destruct (negb _); [by simplify_eq|]. apply bind_Ok_inv in E as (r & _ & E). by simplify_eq.
Qed.

Lemma get_expire_paused e key db db' w : 0 < pauserehash (db_dict db) -> Db.getExpire e key db = Ok (db', w) -> db_dict db' = db_dict db.
Proof.
  intros Hp. unfold Db.getExpire, mbind, dbm_bind, on_expires at 1. cbv beta iota. destruct (_ =? 0); [unfold mret, dbm_ret; intros E'; by simplify_eq|]. cbn [db_expires]. unfold on_expires.
  cbn [db_expires db_dict stat_keyspace_hits stat_keyspace_misses stat_expiredkeys db_log].
  destruct (dictFind (dbExpiresDictType e) (db_expires db) key) as [[dx [de|]]| | |]; [|unfold mret, dbm_ret; intros E'; by simplify_eq|done..]. unfold on_dict. cbn [db_dict].
  destruct (dictFind (dbDictType e) (db_dict db) key) as [[d kde]| | |] eqn:E; [|done..]. apply find_paused in E as ->; [|done].
  unfold serverAssert. destruct (bool_decide _); [|done]. unfold mret, dbm_ret; intros E'; by simplify_eq.
Qed.

Section Databases.
Context `{Host} `{Allocator} `{StreamLaws} (cfg : config) (re : rdb_env) (e : env) (se : save_env) (U : gset (list Z)) (Hok : env_ok e U).
Notation pause := dictPauseRehashing.

Lemma pause_value (d : dict (list Z) robj) : 0 <= pauserehash d < 2 ^ 15 - 1 -> 0 < pauserehash (pause d).
Proof. intros Hp. cbn. rewrite wrapS_small; lia. Qed.

Lemma pause_holds db c t : holds e U db c t -> 0 <= pauserehash (db_dict db) < 2 ^ 15 - 1 -> holds e U (set_dict db (pause (db_dict db))) c t.
Proof.
  intros ([[Hd Hn Hm Hp] Hx Hk Ht] & Hc & Htm) Hpause. split; [|by split]. split; [|done..]. split; [|done..|]; [|pose proof (pause_value _ Hpause); cbn [set_dict db_dict]; lia].
  exact Hd.
Qed.

(** The function leaves a database [Q], and writes [bs], or the device fails. *)
Definition saves_with {A} (f : rdbm (A * Z)) (bs : list Z) (Q : A -> Prop) : Prop := forall r, rio_ok r -> write_error r = false ->
  exists r' a n, f r = Ok (r', (a, n)) /\ Q a /\ ((0 <= n /\ written r bs r') \/ (n = -1 /\ write_error r' = true /\ can_fail)).

(** The iterator gives the entries [l] of the dictionary, which is [d'] from now on. *)
Definition will_give (d d' : dict (list Z) robj) (it : dictIterator) (l : list (dictEntry (list Z) robj)) : Prop :=
  exists it', dictNext (ht_addr se).1 (ht_addr se).2 d it = Ok (d', it', head l) /\ it_first it' = false /\ it_safe it' = true /\ forall x l', l = x :: l' -> gives d' it' l'.

Lemma gives_next d it l : gives d it l -> it_safe it = true -> will_give d d it l.
Proof. intros Hg Hs. destruct (next_gives (ht_addr se).1 (ht_addr se).2 d it l Hg) as (it' & E & Hf & Hs' & Hn). exists it'. split_and!; try done. congruence. Qed.

Definition entry_ok (t : gmap (list Z) Z) (en : dictEntry (list Z) robj) : Prop := de_key en ∈ U /\ pair_ok cfg re se (t !! de_key en) (de_key en) (de_val en).

Lemma saves_keys l fuel d d' db it c t n :
  db_dict db = d -> will_give d d' it l -> 0 < pauserehash d' -> holds e U (set_dict db d') c t -> Forall (entry_ok t) l -> (length l < fuel)%nat -> 0 <= n ->
  exists code, codes (key_item se t <$> l) code /\
    saves_with (save_keys cfg re e se fuel db it n) code (fun x => db_dict x.1 = d' /\ holds e U x.1 c t /\ it_first x.2 = false /\ it_safe x.2 = true).
Proof using Hok.
  intros Hd Hg Hp Hh Hl Hf Hn. revert fuel d db it n Hd Hg Hh Hf Hn. induction Hl as [|[k o] l [Hk Hpair] Hl IH]; intros fuel d db it n Hd (it' & E & Hf' & Hs' & Hg) Hh Hfuel Hn; (destruct fuel as [|fuel]; [cbn in Hfuel; lia|]).
  { exists []. split; [apply codes_nil|]. intros r Hr Hw. exists r, (set_dict db d', it'), n. cbn [save_keys]. rewrite Hd. unfold mbind, rdbm_bind, calc. rewrite E, bind_Ok.
    split; [done|]. split; [done|]. left. split; [done|]. split_and!; [by apply passed_nil|done..|by rewrite app_nil_r]. }
  cbn [length] in Hfuel. destruct (saves_pair cfg re se t k o Hpair) as (c1 & Hc1 & Hs1).
  destruct (does_get_expire e U Hok k (set_dict db d') c t (fun db' w => holds e U db' c t /\ w = default (-1) (t !! k)) Hh Hk) as (db1 & w & Eg & Hh1 & ->); [done|].
  pose proof (get_expire_paused e k (set_dict db d') db1 _ Hp Eg) as Hd1. cbn [set_dict db_dict] in Hd1.
  assert (set_dict db1 d' = db1) as Eset by (rewrite <- Hd1; by destruct db1).
  destruct (IH fuel d' db1 it' (n + 1) Hd1) as (c2 & Hc2 & Hs2); [apply gives_next; [by eapply Hg|done]|by rewrite Eset|lia..|].
  exists (c1 ++ c2). split; [by apply codes_cons|]. intros r Hr Hw. cbn [save_keys]. rewrite Hd. unfold mbind, rdbm_bind, calc. rewrite E, bind_Ok. cbn [head de_key de_val].
  rewrite Eg, bind_Ok. destruct (Hs1 r Hr Hw) as (r1 & y & E1 & Hy). rewrite E1. destruct Hy as [[-> Hy]|[-> Hy]].
  - change (1 <? 0) with false. cbv iota. destruct (Hs2 r1) as (r2 & x & m & E2 & Hx & Hm); [apply Hy..|]. exists r2, x, m. split; [exact E2|]. split; [done|].
    destruct Hm as [[Hm Hm']|Hm]; [left; split; [done|by eapply written_app]|by right].
  - change (-1 <? 0) with true. cbv iota. exists r1, (db1, it'), (-1). split; [done|]. split; [done|]. by right.
Qed.

Lemma saves_header dbid a b : 0 <= dbid < 2 ^ 64 -> 0 <= a < 2 ^ 64 -> 0 <= b < 2 ^ 64 ->
  exists code n, codes [ISelect dbid; IResize a b] code /\ 0 <= n /\ saves (save_db_header dbid a b) code n.
Proof.
  intros Hd Ha Hb. pose proof (zlen_nonneg (len_code dbid)). pose proof (zlen_nonneg (len_code a)). pose proof (zlen_nonneg (len_code b)).
  exists (([RDB_OPCODE_SELECTDB] ++ len_code dbid) ++ ([RDB_OPCODE_RESIZEDB] ++ len_code a ++ len_code b)), (1 + zlen (len_code dbid) + 1 + zlen (len_code a) + zlen (len_code b)).
  split; [apply codes_cons; [constructor|apply codes_one; constructor]|]. split; [lia|]. rewrite <- app_assoc. unfold save_db_header.
  eapply (saves_seq_neg _ _ 1); [by apply saves_type|done|]. cbv zeta. eapply saves_seq_neg; [by apply saves_len|done|]. eapply (saves_seq_neg _ _ 1); [by apply saves_type|done|].
  eapply saves_seq_neg; [by apply saves_len|done|]. rewrite <- (app_nil_r (len_code b)) at 1. eapply saves_seq_neg; [by apply saves_len|done|]. apply saves_ret.
Qed.

(** A database that can be saved: the values are strings, and the times are dates. *)
Record db_ok (db : redisDb) : Prop := {
  do_wf : redis_wf e U db;
  do_pause : pauserehash (db_dict db) < 2 ^ 15 - 1;
  do_entries : Forall (entry_ok (times db)) (entries (db_dict db));
}.

Lemma dict_size_entries db : redis_wf e U db ->
  dictSize (db_dict db) = zlen (entries (db_dict db)) /\ 0 <= dictSize (db_dict db) < 2 ^ 64 /\ 0 <= dictSize (db_expires db) < 2 ^ 64.
Proof.
  intros Hw. destruct (wf_used _ _ _ (wf_dict _ _ _ Hw)) as (_ & _ & Hs). destruct (wf_used _ _ _ (wf_expires _ _ _ Hw)) as (_ & _ & Hx).
  pose proof (wf_max _ _ _ (wf_dict _ _ _ Hw)). pose proof (wf_max _ _ _ (wf_expires _ _ _ Hw)). unfold MAX_ENTRIES in *.
  pose proof (zlen_nonneg (entries (db_dict db))). pose proof (zlen_nonneg (entries (db_expires db))). lia.
Qed.

Lemma saves_db dbid db : db_ok db -> 0 <= dbid < 2 ^ 64 ->
  exists code, codes (db_items se dbid db) code /\
    saves_with (rdbSaveDb cfg re e se dbid db) code (fun db' => holds e U db' (contents db) (times db) /\ db_dict db' = db_dict db).
Proof using Hok.
  intros [Hw Hpm Hen] Hid. destruct (dict_size_entries db Hw) as (Es & Hs & Hx). unfold db_items, rdbSaveDb. cbv zeta. destruct (Z.eqb_spec (dictSize (db_dict db)) 0) as [Ez|Hne].
  { exists []. split; [apply codes_nil|]. intros r Hr Hwr. exists r, db, 0. split; [done|]. split; [done|]. left. split; [done|]. split_and!; [by apply passed_nil|done..|by rewrite app_nil_r]. }
  pose proof (wf_pause _ _ _ (wf_dict _ _ _ Hw)) as Hp0. pose proof (pause_holds db _ _ (holds_wf e U db Hw) (conj Hp0 Hpm)) as Hh.
  destruct (saves_header dbid _ _ Hid Hs Hx) as (c1 & n & Hc1 & Hn & S1).
  destruct (first_gives _ _ (ht_addr se).1 (ht_addr se).2 (db_dict db) (wf_dict _ _ _ Hw)) as (it' & E & Hf & Hsafe & Hg).
  destruct (saves_keys (entries (db_dict db)) (S (Z.to_nat (dictSize (db_dict db)))) _ (pause (db_dict db)) db dictGetSafeIterator (contents db) (times db) n eq_refl) as (c2 & Hc2 & S2);
    [by exists it'|by apply pause_value|exact Hh|done|rewrite Es; unfold zlen; lia|done|].
  exists (c1 ++ c2). split; [by apply (codes_app [_; _])|]. intros r Hr Hwr. unfold mbind, rdbm_bind, calc. destruct (S1 r Hr Hwr) as (r1 & y & -> & [[-> Hy]|[-> Hy]]).
  - zfalse (n <? 0). destruct (S2 r1) as (r2 & [db2 di] & m & -> & (Hd2 & Hh2 & Hf2 & Hs2) & Hm); [apply Hy..|]. cbn [fst snd] in *. unfold dictReleaseIterator. fold (it_first di). rewrite Hf2, Hs2, Hd2. cbn [negb].
    rewrite pause_resume, bind_Ok by lia. exists r2, (set_dict db2 (db_dict db)), m. split; [done|]. split; [|destruct Hm as [[Hm Hm']|Hm]; [left; split; [done|by eapply written_app]|by right]].
    split; [|done]. destruct Hh2 as ([_ Hx2 Hk2 Ht2] & Hc & Ht). split; [|by split]. unfold contents in *. rewrite Hd2 in *. split; [apply Hw|done..].
  - change (-1 <? 0) with true. cbv iota. unfold mret, rdbm_ret. replace (dictReleaseIterator (ht_addr se).1 (ht_addr se).2 (db_dict db) dictGetSafeIterator) with (Ok (db_dict db)) by done. rewrite bind_Ok.
    exists r1, (set_dict db (db_dict db)), (-1). split; [done|]. split; [split; [by destruct db|done]|by right].
Qed.

Lemma saves_dbs dbs dbid : Forall db_ok dbs -> 0 <= dbid -> dbid + zlen dbs <= 2 ^ 64 ->
  exists code, codes (dbs_items se dbid dbs) code /\
    saves_with (save_dbs cfg re e se dbid dbs) code (Forall2 (fun db db' => holds e U db' (contents db) (times db) /\ db_dict db' = db_dict db) dbs).
Proof using Hok.
  intros Hdbs. revert dbid. induction Hdbs as [|db dbs Hdb Hdbs IH]; intros dbid Hid Hmax; cbn [dbs_items save_dbs].
  { exists []. split; [apply codes_nil|]. intros r Hr Hw. exists r, [], 0. split; [done|]. split; [constructor|]. left. split; [done|]. split_and!; [by apply passed_nil|done..|by rewrite app_nil_r]. }
  rewrite zlen_cons in Hmax. pose proof (zlen_nonneg dbs). destruct (saves_db dbid db Hdb) as (c1 & Hc1 & S1); [lia|]. destruct (IH (dbid + 1)) as (c2 & Hc2 & S2); [lia..|].
  assert (Forall2 (fun db db' => holds e U db' (contents db) (times db) /\ db_dict db' = db_dict db) dbs dbs) as Hsame.
  { clear -Hdbs. induction Hdbs as [|db dbs Hdb _ IH]; constructor; [|done]. split; [apply holds_wf, Hdb|done]. }
  exists (c1 ++ c2). split; [by apply codes_app|]. intros r Hr Hw. unfold mbind, rdbm_bind. destruct (S1 r Hr Hw) as (r1 & db' & n & -> & HQ & [[Hn Hy]|[-> Hy]]).
  - zfalse (n =? -1). destruct (S2 r1) as (r2 & dbs' & m & -> & HQ2 & Hm); [apply Hy..|]. exists r2, (db' :: dbs'), m. split; [done|]. split; [by constructor|].
    destruct Hm as [[Hm Hm']|Hm]; [left; split; [done|by eapply written_app]|by right].
  - exists r1, (db' :: dbs), (-1). split; [done|]. split; [by constructor|by right].
Qed.

(** The function writes [b] and the checksum, or the device fails. *)
Definition closes {A} (f : rdbm (A * bool)) (b : list Z) (Q : A -> Prop) : Prop := forall r, rio_ok r -> write_error r = false ->
  exists r' a ok, f r = Ok (r', (a, ok)) /\ Q a /\
    ((ok = true /\ written r (b ++ le_bytes 8 (if update_cksum r then crc_of (cksum r) b else cksum r)) r') \/ (ok = false /\ can_fail)).

Lemma closes_after {A} (k : rdbm (A * bool)) r a r1 b Q : closes k b Q -> written r a r1 ->
  exists r' x ok, k r1 = Ok (r', (x, ok)) /\ Q x /\
    ((ok = true /\ written r ((a ++ b) ++ le_bytes 8 (if update_cksum r then crc_of (cksum r) (a ++ b) else cksum r)) r') \/ (ok = false /\ can_fail)).
Proof.
  intros Hk Hr1. pose proof Hr1 as (Hp & Hw & _). destruct (Hk r1 (passed_ok _ _ _ Hp) Hw) as (r2 & x & ok & -> & HQ & Hres). exists r2, x, ok. split; [done|]. split; [done|].
  destruct Hres as [[-> Hres]|Hres]; [left; split; [done|]|by right]. rewrite <- app_assoc. eapply written_app; [exact Hr1|]. rewrite (passed_update _ _ _ Hp), (passed_cksum _ _ _ Hp) in Hres.
  by destruct (update_cksum r); [rewrite crc_of_app|].
Qed.

Lemma closes_seq {A} f a n (k : rdbm (A * bool)) b (x : A) (Q : A -> Prop) :
  saves f a n -> n <> -1 -> closes k b Q -> Q x -> closes (n ← f; if n =? -1 then mret (x, false) else k) (a ++ b) Q.
Proof.
  intros Hf Hn Hk Hx r Hr Hw. unfold mbind, rdbm_bind. destruct (Hf r Hr Hw) as (r1 & y & -> & [[-> Hr1]|(-> & _ & Hc)]).
  - zfalse (n =? -1). by apply closes_after.
  - exists r1, x, false. split; [done|]. split; [done|]. by right.
Qed.

Lemma closes_with {A} f a (k : A -> rdbm (A * bool)) b (Q : A -> Prop) :
  saves_with f a Q -> (forall x, Q x -> closes (k x) b Q) -> closes (x ← f; let '(x, n) := x in if n =? -1 then mret (x, false) else k x) (a ++ b) Q.
Proof.
  intros Hf Hk r Hr Hw. unfold mbind, rdbm_bind. destruct (Hf r Hr Hw) as (r1 & x & n & -> & Hx & [[Hn Hr1]|(-> & _ & Hc)]).
  - zfalse (n =? -1). apply closes_after; [by apply Hk|done].
  - exists r1, x, false. split; [done|]. split; [done|]. by right.
Qed.

Lemma closes_cksum {A} (x : A) (Q : A -> Prop) : Q x -> closes (c ← get_cksum; c ← calc (memrev64ifbe (host_bytes 8 c)); ok ← rioWrite c; mret (x, ok)) [] Q.
Proof.
  intros Hx r Hr Hw. unfold mbind, rdbm_bind, get_cksum, calc. rewrite memrev64ifbe_host, bind_Ok. destruct (rioWrite_ok r (le_bytes 8 (cksum r)) Hr Hw) as (r' & ok & -> & Hok'); [apply le_bytes_byte|].
  exists r', x, ok. split; [done|]. split; [done|]. change (crc_of (cksum r) []) with (cksum r). rewrite app_nil_l. destruct ok; [left|right; by destruct Hok']. split; [done|]. by destruct (update_cksum r).
Qed.

Definition same_dbs : list redisDb -> list redisDb -> Prop := Forall2 (fun db db' => holds e U db' (contents db) (times db) /\ db_dict db' = db_dict db).

Definition file_body (items : list Z) : list Z := magic ++ items ++ [RDB_OPCODE_EOF].

Lemma saves_rio rdbflags rsi dbs : info_ok cfg re se rsi -> Forall db_ok dbs -> zlen dbs < 2 ^ 64 ->
  exists items, codes (file_items se rdbflags rsi dbs) items /\ forall r, rio_ok r -> write_error r = false -> update_cksum r = false -> cksum r = 0 ->
  exists r' dbs' ok, rdbSaveRio cfg re e se 0 rdbflags rsi dbs r = Ok (r', (dbs', ok)) /\ same_dbs dbs dbs' /\
    ((ok = true /\ rio_ok r' /\ stored (rio_io r') = stored (rio_io r) ++ file se (file_body items)) \/ (ok = false /\ can_fail)).
Proof using Hok.
  intros Hi Hdbs Hmax. destruct (saves_info cfg re se rdbflags rsi Hi) as (c1 & Hc1 & S1). destruct (saves_libraries cfg re (functions se) 0 (in_libraries _ _ _ _ Hi)) as (c2 & m & Hc2 & Hm & S2); [done|].
  destruct (saves_dbs dbs 0 Hdbs) as (c3 & Hc3 & S3); [done|lia|].
  assert (forall when, saves (rdbSaveModulesAux se when) [] 0) as Smod by (intros when; apply (saves_no_modules cfg re); destruct rsi; eauto).
  exists (c1 ++ c2 ++ c3). split; [by repeat apply codes_app|]. intros r Hr Hw Hu Hck.
  assert (same_dbs dbs dbs) as Hsame. { clear -Hdbs. induction Hdbs as [|db dbs Hdb _ IH]; constructor; [|done]. split; [apply holds_wf, Hdb|done]. }
  set (r0 := Rio _ (rio_io r) (rdb_checksum se) (cksum r) (read_error r) (write_error r) (processed_bytes r) (max_processing_chunk r)).
  assert (rio_ok r0) as Hr0 by (by destruct Hr).
  match goal with |- context [rdbSaveRio] => unfold rdbSaveRio end. cbv zeta. change (negb (Z.land 0 SLAVE_REQ_RDB_EXCLUDE_DATA =? 0)) with false. change (negb (Z.land 0 SLAVE_REQ_RDB_EXCLUDE_FUNCTIONS =? 0)) with false. cbn [negb].
  match goal with |- context [mbind ?k (if rdb_checksum se then set_cksum true else mret tt)] =>
    assert (closes (k tt) (magic ++ c1 ++ [] ++ c2 ++ c3 ++ [] ++ [RDB_OPCODE_EOF] ++ []) (same_dbs dbs)) as Hcl; [|assert (mbind k (if rdb_checksum se then set_cksum true else mret tt) r = k tt r0) as E] end.
  { eapply (closes_seq _ _ 9); [by apply (saves_write magic); repeat constructor|done| |done]. eapply closes_seq; [exact S1|done| |done].
    eapply closes_seq; [apply Smod|done| |done]. eapply closes_seq; [exact S2|lia| |done].
    apply (closes_with _ c3 (fun x => _)); [exact S3|]. intros x Hx. eapply closes_seq; [apply Smod|done| |done]. eapply (closes_seq _ _ 1); [by apply saves_type|done| |done]. by apply closes_cksum. }
  { unfold r0, mbind, rdbm_bind. destruct r; cbn in Hu; subst. by destruct (rdb_checksum se). }
  rewrite E. destruct (Hcl r0 Hr0 Hw) as (r' & dbs' & ok & -> & HQ & Hres). exists r', dbs', ok. split; [done|]. split; [done|].
  destruct Hres as [[-> Hres]|Hres]; [left|by right]. split; [done|]. destruct Hres as (Hp & _ & _ & Hs). split; [apply Hp|]. rewrite Hs. f_equal. cbn [r0 update_cksum cksum]. rewrite Hck.
  unfold file, file_body. rewrite !app_nil_l, app_nil_r, <- !app_assoc. done.
Qed.

End Databases.
