(* ===== verification/RdbLoad.v ===== *)
(** Loading databases in RDB format ([rdb.c]): the loop over the opcodes of a file with
    its error paths, and the theorems on saving and loading.

    What [RdbSave] wrote on one host is loaded on any other into the same keys, values
    and expire times, except for the keys whose time is over, which a primary drops. *)
From S2P Require Import Prelude Endian Util Sds SdsText Dict DictScan Object StringCommands Lzf Crc Rio Rdb RdbObject Db RdbSave.
From stdpp Require Import gmap list strings.

Open Scope Z_scope.

(** * Definitions *)

(** ** Numbers in C strings *)

Fixpoint skip_space (s : list Z) : list Z :=
  match s with [] => [] | c :: s' => if isspace c then skip_space s' else s end.

Fixpoint leading_digits (s : list Z) : list Z :=
  match s with [] => [] | c :: s => if (48 <=? c) && (c <=? 57) then c :: leading_digits s else [] end.

(** The number at the start of a string, whatever its size. *)
Definition strto (s : list Z) : Z :=
  match skip_space s with
  | [] => 0
  | c :: s => if c =? 45 then - dval 0 (leading_digits s) else dval 0 (leading_digits (if c =? 43 then s else c :: s))
  end.

Definition strtoll (s : list Z) : Z := Z.max INT64_MIN (Z.min INT64_MAX (strto s)).

(** Undefined when the number is no [int]. *)
Definition atoi (s : list Z) : res Z := if (- 2 ^ 31 <=? strto s) && (strto s <? 2 ^ 31) then Ok (strto s) else Fault.

(** ** The state *)

(** The settings and surroundings of the server.  [functionsCreateWithLibraryCtx]
    adds the library with the given code to those that exist, where it may replace one if
    it is told so, or fails. *)
Record load_env `{Stream} := LoadEnv {
  load_checksum : bool;
  skip_checksum : bool;
  loading_process_events_interval_bytes : Z;
  load_time : Z;
  moduleTypeLookupModuleByID : Z -> option moduleType;
  functionsCreateWithLibraryCtx : list (list Z) -> list Z -> bool -> option (list (list Z));
  has_repl_backlog : bool;
  connected_slaves : Z;
  load_others : other_types;
}.

(** What is loaded: the databases, the libraries, the replication state when the caller
    asks for it, the counters, and the deletions fed to the replicas. *)
Record load_state := LoadState {
  l_dbs : list redisDb;
  l_libraries : list (list Z);
  l_rsi : option rdbSaveInfo;
  loading_rdb_used_mem : Z;
  keys_loaded : Z;
  keys_expired : Z;
  empty_keys_skipped : Z;
  l_fed : list (Z * list Z * bool);
}.

(** The selected database, and the attributes of the next key. *)
Record attrs := Attrs {
  dbid : Z;
  expiretime : Z;
  lru_idle : Z;
  lfu_freq : Z;
}.

(** A turn of the loop: go on, end of file, or [goto eoferr]. *)
Inductive turn :=
| Continue (s : load_state) (a : attrs)
| Break (s : load_state)
| Eoferr (s : load_state).

Definition with_dbs (s : load_state) (dbs : list redisDb) : load_state :=
  LoadState dbs (l_libraries s) (l_rsi s) (loading_rdb_used_mem s) (keys_loaded s) (keys_expired s) (empty_keys_skipped s) (l_fed s).

Definition with_libraries (s : load_state) (libraries : list (list Z)) : load_state :=
  LoadState (l_dbs s) libraries (l_rsi s) (loading_rdb_used_mem s) (keys_loaded s) (keys_expired s) (empty_keys_skipped s) (l_fed s).

Definition with_rsi (s : load_state) (rsi : option rdbSaveInfo) : load_state :=
  LoadState (l_dbs s) (l_libraries s) rsi (loading_rdb_used_mem s) (keys_loaded s) (keys_expired s) (empty_keys_skipped s) (l_fed s).

Definition with_used_mem (s : load_state) (n : Z) : load_state :=
  LoadState (l_dbs s) (l_libraries s) (l_rsi s) n (keys_loaded s) (keys_expired s) (empty_keys_skipped s) (l_fed s).

Definition add_counts (s : load_state) (loaded expired empty : Z) : load_state :=
  LoadState (l_dbs s) (l_libraries s) (l_rsi s) (loading_rdb_used_mem s) (keys_loaded s + loaded) (keys_expired s + expired) (empty_keys_skipped s + empty) (l_fed s).

Definition feed (s : load_state) (dbid : Z) (key : list Z) (lazy : bool) : load_state :=
  LoadState (l_dbs s) (l_libraries s) (l_rsi s) (loading_rdb_used_mem s) (keys_loaded s) (keys_expired s) (empty_keys_skipped s) (l_fed s ++ [(dbid, key, lazy)]).

Definition get_read_error `{Stream} : rdbm bool := fun r => Ok (r, rioGetReadError r).

(** [rdb->update_cksum] and [rdb->max_processing_chunk]; of [rdbLoadProgressCallback]
    the checksum is left, the events it serves meanwhile are not. *)
Definition set_progress `{Stream} (u : bool) (chunk : Z) : rdbm unit := fun r =>
  Ok (Rio _ (rio_io r) u (cksum r) (read_error r) (write_error r) (processed_bytes r) chunk, tt).

(** An operation on the selected database. *)
Definition on_selected {A} (m : dbm A) (s : load_state) (a : attrs) : res (load_state * A) :=
  match l_dbs s !! Z.to_nat (dbid a) with
  | None => Fault
  | Some db => '(db, x) ← m db; Ok (with_dbs s (<[Z.to_nat (dbid a) := db]> (l_dbs s)), x)
  end.

(** The text of an object that was loaded unencoded. *)
Definition raw_text (l : loaded) : res (list Z) := match l with LObj (RString _ _ s) => Ok s | _ => Fault end.

Section Load.
Context `{Host} `{Allocator} `{Stream} (cfg : config) (re : rdb_env) (e : env) (le : load_env) (rdbflags : Z).

Definition rdbReportReadError : rdbm unit := rdbReportError re false.

Definition iAmMaster : bool := negb (masterhost e).

(** ** Opcodes *)

Definition load_expiretime (s : load_state) (a : attrs) : rdbm turn :=
  t ← rdbLoadTime;
  err ← get_read_error;
  mret (if (err : bool) then Eoferr s else Continue s (Attrs (dbid a) (t * 1000) (lru_idle a) (lfu_freq a))).

Definition load_expiretime_ms (rdbver : Z) (s : load_state) (a : attrs) : rdbm turn :=
  t ← rdbLoadMillisecondTime rdbver;
  err ← get_read_error;
  mret (if (err : bool) then Eoferr s else Continue s (Attrs (dbid a) t (lru_idle a) (lfu_freq a))).

Definition load_freq (s : load_state) (a : attrs) : rdbm turn :=
  b ← rdb_read 1;
  match b with
  | None => mret (Eoferr s)
  | Some b => byte ← calc (rd1 b 0); mret (Continue s (Attrs (dbid a) (expiretime a) (lru_idle a) byte))
  end.

Definition load_idle (s : load_state) (a : attrs) : rdbm turn :=
  qword ← rdbLoadLen re;
  mret (if qword.2 =? RDB_LENERR then Eoferr s else Continue s (Attrs (dbid a) (expiretime a) (wrapS 64 qword.2) (lfu_freq a))).

Definition load_selectdb (s : load_state) (a : attrs) : rdbm turn :=
  id ← rdbLoadLen re;
  if id.2 =? RDB_LENERR then mret (Eoferr s)
  else if id.2 >=? zlen (l_dbs s) then calc Panic
  else mret (Continue s (Attrs id.2 (expiretime a) (lru_idle a) (lfu_freq a))).

Definition load_resizedb (s : load_state) (a : attrs) : rdbm turn :=
  db_size ← rdbLoadLen re;
  if db_size.2 =? RDB_LENERR then mret (Eoferr s)
  else
    expires_size ← rdbLoadLen re;
    if expires_size.2 =? RDB_LENERR then mret (Eoferr s)
    else
      x ← calc (on_selected (on_dict (fun d => dictExpand d db_size.2);; on_expires (fun d => dictExpand d expires_size.2)) s a);
      mret (Continue x.1 a).

(** The fields that set something; the others are logged or ignored. *)
Definition set_field (auxkey auxval : list Z) (s : load_state) : res load_state :=
  c ← sds_at auxkey 0;
  if c =? 37 then Ok s
  else if strcase_eq auxkey "repl-stream-db" then
    match l_rsi s with
    | Some i => db ← atoi auxval; Ok (with_rsi s (Some (SaveInfo db (repl_id_is_set i) (repl_id i) (repl_offset i))))
    | None => Ok s
    end
  else if strcase_eq auxkey "repl-id" then
    match l_rsi s with
    | Some i => Ok (if zlen auxval =? CONFIG_RUN_ID_SIZE then with_rsi s (Some (SaveInfo (repl_stream_db i) true auxval (repl_offset i))) else s)
    | None => Ok s
    end
  else if strcase_eq auxkey "repl-offset" then
    match l_rsi s with
    | Some i => Ok (with_rsi s (Some (SaveInfo (repl_stream_db i) (repl_id_is_set i) (repl_id i) (strtoll auxval))))
    | None => Ok s
    end
  else if strcase_eq auxkey "ctime" then age ← arith64 (fwrapv cfg) (load_time le - strtoll auxval); Ok s
  else if strcase_eq auxkey "used-mem" then Ok (with_used_mem s (strtoll auxval))
  else Ok s.

Definition load_aux (s : load_state) (a : attrs) : rdbm turn :=
  auxkey ← rdbLoadStringObject cfg re;
  match auxkey with
  | None => mret (Eoferr s)
  | Some auxkey =>
      auxval ← rdbLoadStringObject cfg re;
      match auxval with
      | None => mret (Eoferr s)
      | Some auxval =>
          k ← calc (raw_text auxkey);
          v ← calc (raw_text auxval);
          s ← calc (set_field k v s);
          mret (Continue s a)
      end
  end.

(** ** Modules and libraries *)

(** The value of a module, skipped. *)
Fixpoint rdbLoadCheckModuleValue (fuel : nat) : rdbm unit :=
  match fuel with
  | O => calc OutOfFuel
  | S fuel =>
      opcode ← rdbLoadLen re;
      let opcode := opcode.2 in
      if opcode =? RDB_MODULE_OPCODE_EOF then mret tt
      else
        (if (opcode =? RDB_MODULE_OPCODE_SINT) || (opcode =? RDB_MODULE_OPCODE_UINT) then
           len ← rdbLoadLenByRef re;
           match len with None => rdbReportCorruptRDB re | Some _ => mret tt end
         else if opcode =? RDB_MODULE_OPCODE_STRING then
           o ← rdbGenericLoadStringObject cfg re RDB_LOAD_NONE;
           match o with None => rdbReportCorruptRDB re;; calc Fault | Some _ => mret tt end
         else if opcode =? RDB_MODULE_OPCODE_FLOAT then
           val ← rdb_read 4;
           match val with None => rdbReportCorruptRDB re | Some _ => mret tt end
         else if opcode =? RDB_MODULE_OPCODE_DOUBLE then
           val ← rdb_read 8;
           match val with None => rdbReportCorruptRDB re | Some _ => mret tt end
         else mret tt);;
        rdbLoadCheckModuleValue fuel
  end.

Definition load_module_aux (fuel : nat) (s : load_state) (a : attrs) : rdbm turn :=
  moduleid ← rdbLoadLen re;
  when_opcode ← rdbLoadLen re;
  when ← rdbLoadLen re;
  err ← get_read_error;
  if (err : bool) then mret (Eoferr s)
  else if negb (wrapS 32 when_opcode.2 =? RDB_MODULE_OPCODE_UINT) then rdbReportReadError;; mret (Eoferr s)
  else if rdbCheckMode re then rdbLoadCheckModuleValue fuel;; mret (Continue s a)
  else
    match moduleTypeLookupModuleByID le moduleid.2 with
    | None => calc Panic
    | Some mt =>
        match aux_load mt with
        | None => calc Panic
        | Some load =>
            io ← load (Z.land moduleid.2 1023) (wrapS 32 when.2);
            let '(ok, error) := io in
            if negb ok || error then mret (Eoferr s)
            else
              eof ← rdbLoadLen re;
              mret (if negb (eof.2 =? RDB_MODULE_OPCODE_EOF) then Eoferr s else Continue s a)
        end
    end.

(** A dynamic string, [None] for [NULL]. *)
Definition load_sds : rdbm (option (list Z)) :=
  l ← rdbGenericLoadStringObject cfg re RDB_LOAD_SDS;
  match l with
  | None => mret None
  | Some (LSds s) => mret (Some s)
  | Some _ => calc Fault
  end.

(** The code of a library in the format of the release candidates. *)
Definition old_library : rdbm (option (list Z)) :=
  name ← load_sds;
  match name with
  | None => mret None
  | Some name =>
      engine_name ← load_sds;
      match engine_name with
      | None => mret None
      | Some engine_name =>
          has_desc ← rdbLoadLen re;
          if has_desc.2 =? RDB_LENERR then mret None
          else
            desc ← (if negb (has_desc.2 =? 0) then load_sds else mret (Some []));
            match desc with
            | None => mret None
            | Some _ =>
                blob ← load_sds;
                mret ((fun blob => chars "#!" ++ cstr engine_name ++ chars " name=" ++ cstr name ++ [10] ++ cstr blob) <$> blob)
            end
      end
  end.

(** The state with the library, [None] for [C_ERR]. *)
Definition rdbFunctionLoad (type : Z) (s : load_state) : rdbm (option load_state) :=
  final_payload ← (if type =? RDB_OPCODE_FUNCTION then old_library else if type =? RDB_OPCODE_FUNCTION2 then load_sds else calc Panic);
  match final_payload with
  | None => mret None
  | Some code =>
      mret (with_libraries s <$> functionsCreateWithLibraryCtx le (l_libraries s) code (negb (Z.land rdbflags RDBFLAGS_ALLOW_DUP =? 0)))
  end.

Definition load_function (type : Z) (s : load_state) (a : attrs) : rdbm turn :=
  x ← rdbFunctionLoad type s;
  mret (match x with None => Eoferr s | Some s => Continue s a end).

(** ** Keys *)

(** The key goes into the database, with its expire time. *)
Definition add_key (s : load_state) (a : attrs) (key : list Z) (val : robj) : res load_state :=
  '(s, added) ← on_selected (Db.dbAddRDBLoad e key val) s a;
  let s := add_counts s 1 0 0 in
  s ← (if (added : bool) then Ok s
       else if negb (Z.land rdbflags RDBFLAGS_ALLOW_DUP =? 0) then
         '(s, _) ← on_selected (Db.dbSyncDelete e key) s a;
         '(s, _) ← on_selected (Db.dbAddRDBLoad e key val) s a;
         Ok s
       else Panic);
  if negb (expiretime a =? -1) then '(s, _) ← on_selected (Db.setExpire e false key (expiretime a)) s a; Ok s
  else Ok s.

(** The time of the key is over, and this server is the one to say so. *)
Definition expired_here (a : attrs) : bool :=
  iAmMaster && (Z.land rdbflags RDBFLAGS_AOF_PREAMBLE =? 0) && negb (expiretime a =? -1) && (expiretime a <? clock_mstime e).

Definition load_key (type : Z) (s : load_state) (a : attrs) : rdbm turn :=
  key ← load_sds;
  match key with
  | None => mret (Eoferr s)
  | Some key =>
      let reset := Attrs (dbid a) (-1) (-1) (-1) in
      val ← rdbLoadObject cfg re (load_others le) type key;
      match val with
      | inl RDB_LOAD_ERR_EMPTY_KEY => mret (Continue (add_counts s 0 0 1) reset)
      | inl RDB_LOAD_ERR_OTHER => mret (Eoferr s)
      | inr val =>
          if expired_here a then
            s ← (if negb (Z.land rdbflags RDBFLAGS_FEED_REPL =? 0) then
                   calc (assert! (has_repl_backlog le && (connected_slaves le =? 0)); Ok (feed s (dbid a) key (lazy_expire e)))
                 else mret s);
            mret (Continue (add_counts s 0 1 0) reset)
          else
            s ← calc (add_key s a key val);
            mret (Continue s reset)
      end
  end.

(** ** The loop *)

Definition load_turn (fuel : nat) (rdbver : Z) (s : load_state) (a : attrs) : rdbm turn :=
  type ← rdbLoadType;
  if type =? -1 then mret (Eoferr s)
  else if type =? RDB_OPCODE_EXPIRETIME then load_expiretime s a
  else if type =? RDB_OPCODE_EXPIRETIME_MS then load_expiretime_ms rdbver s a
  else if type =? RDB_OPCODE_FREQ then load_freq s a
  else if type =? RDB_OPCODE_IDLE then load_idle s a
  else if type =? RDB_OPCODE_EOF then mret (Break s)
  else if type =? RDB_OPCODE_SELECTDB then load_selectdb s a
  else if type =? RDB_OPCODE_RESIZEDB then load_resizedb s a
  else if type =? RDB_OPCODE_AUX then load_aux s a
  else if type =? RDB_OPCODE_MODULE_AUX then load_module_aux fuel s a
  else if (type =? RDB_OPCODE_FUNCTION) || (type =? RDB_OPCODE_FUNCTION2) then load_function type s a
  else load_key type s a.

(** The state, and [false] after [goto eoferr]. *)
Fixpoint load_loop (fuel : nat) (rdbver : Z) (s : load_state) (a : attrs) : rdbm (load_state * bool) :=
  match fuel with
  | O => calc OutOfFuel
  | S fuel =>
      t ← load_turn fuel rdbver s a;
      match t with
      | Continue s a => load_loop fuel rdbver s a
      | Break s => mret (s, true)
      | Eoferr s => mret (s, false)
      end
  end.

Definition eoferr (s : load_state) : rdbm (load_state * bool) := rdbReportReadError;; mret (s, false).

(** The checksum of files of version 5 and later. *)
Definition check_cksum (rdbver : Z) (s : load_state) : rdbm (load_state * bool) :=
  if rdbver >=? 5 then
    expected ← get_cksum;
    cksum ← rdb_read 8;
    match cksum with
    | None => eoferr s
    | Some cksum =>
        if load_checksum le && negb (skip_checksum le) then
          cksum ← calc (memrev64ifbe cksum);
          let cksum := host_val cksum in
          if cksum =? 0 then mret (s, true)
          else if negb (cksum =? expected) then rdbReportCorruptRDB re;; mret (s, false)
          else mret (s, true)
        else mret (s, true)
    end
  else mret (s, true).

(** The state, and [true] for [C_OK].  A file of [n] bytes takes at most [n] turns. *)
Definition rdbLoadRioWithLoadingCtx (fuel : nat) (s : load_state) : rdbm (load_state * bool) :=
  set_progress (load_checksum le) (loading_process_events_interval_bytes le);;
  buf ← rdb_read 9;
  match buf with
  | None => eoferr s
  | Some buf =>
      if negb (bool_decide (take 5 buf = chars "REDIS")) then mret (s, false)
      else
        rdbver ← calc (atoi (drop 5 buf));
        if (rdbver <? 1) || (rdbver >? RDB_VERSION) then mret (s, false)
        else
          x ← load_loop fuel rdbver s (Attrs 0 (-1) (-1) (-1));
          let '(s, ok) := x in
          if (ok : bool) then check_cksum rdbver s else eoferr s
  end.

End Load.

(** * Lemmas *)

(** ** Numbers *)

Lemma leading_digits_all ds : Forall is_digit ds -> leading_digits ds = ds.
Proof. induction 1 as [|c ds Hc _ IH]; [done|]. cbn [leading_digits]. unfold is_digit in Hc. ztrue (48 <=? c). ztrue (c <=? 57). cbn [andb]. by rewrite IH. Qed.

Lemma udec_number v : 0 <= v < 10 ^ 20 -> exists c ds, udec v = c :: ds /\ Forall is_digit (c :: ds) /\ dval 0 (c :: ds) = v.
Proof.
  intros Hv. destruct (decide (v = 0)) as [->|]; [exists 48, []; split_and!; [done| |done]; forall_list; unfold is_digit; lia|].
  destruct (udec_shape v) as (c & ds & E & Hc & Hd & Hval); [lia|]. exists c, ds. split_and!; [done| |exact Hval]. constructor; [unfold is_digit; lia|done].
Qed.

Lemma strto_repr v : INT64_MIN <= v <= INT64_MAX -> strto (ll_repr v) = v.
Proof.
  intros Hv. zconst. unfold ll_repr, strto. destruct (Z.ltb_spec v 0) as [Hneg|Hpos].
  - destruct (udec_number (- v)) as (c & ds & -> & Hd & Ev); [lia|]. cbn [skip_space]. change (isspace 45) with false. cbv iota. change (45 =? 45) with true. cbv iota. rewrite leading_digits_all, Ev by done. lia.
  - destruct (udec_number v) as (c & ds & -> & Hd & Ev); [lia|]. pose proof Hd as [Hc _]%Forall_cons. unfold is_digit in Hc. cbn [skip_space]. unfold isspace. ztrue (9 <=? c). zfalse (c <=? 13). zfalse (c =? 32). cbn [andb orb].
    zfalse (c =? 45). zfalse (c =? 43). by rewrite leading_digits_all.
Qed.

Lemma strtoll_repr v : INT64_MIN <= v <= INT64_MAX -> strtoll (ll_repr v) = v.
Proof. intros Hv. unfold strtoll. rewrite strto_repr by done. lia. Qed.

Lemma atoi_repr v : - 2 ^ 31 <= v < 2 ^ 31 -> atoi (ll_repr v) = Ok v.
Proof. intros Hv. unfold atoi. rewrite strto_repr by (zconst; lia). ztrue (- 2 ^ 31 <=? v). by ztrue (v <? 2 ^ 31). Qed.

(** ** The databases while they are loaded *)

(** A database shows the strings [m] with the expire times [t]. *)
Definition shows (e : env) (U : gset (list Z)) (db : redisDb) (m : gmap (list Z) (list Z)) (t : gmap (list Z) Z) : Prop :=
  exists c, holds e U db c t /\ forall k, match c !! k with Some o => exists s, stands_for s o /\ m !! k = Some s | None => m !! k = None end.

Section Keys.
Context (e : env) (U : gset (list Z)) (Hok : env_ok e U).

Lemma shows_add db m t k s o : shows e U db m t -> k ∈ U -> m !! k = None -> stands_for s o ->
  exists db', Db.dbAddRDBLoad e k o db = Ok (db', true) /\ shows e U db' (<[k := s]> m) t.
Proof using Hok.
  intros (c & Hh & Hm) Hk Hn Ho. assert (c !! k = None) as Hc by (specialize (Hm k); destruct (c !! k); [destruct Hm as (? & _ & E); congruence|done]).
  destruct (does_add_load e U Hok k o db c t (fun db' r => r = true /\ holds e U db' (<[k := o]> c) t) Hh Hk Hc) as (db' & r & E & -> & Hh'); [done|]. exists db'. split; [done|]. exists (<[k := o]> c). split; [done|].
  intros k'. destruct (decide (k' = k)) as [->|]; [rewrite !lookup_insert_eq; by exists s|]. rewrite !lookup_insert_ne by done. apply Hm.
Qed.

Lemma shows_expire db m t k w client : shows e U db m t -> k ∈ U -> is_Some (m !! k) ->
  exists db', Db.setExpire e client k w db = Ok (db', tt) /\ shows e U db' m (<[k := w]> t).
Proof using Hok.
  intros (c & Hh & Hm) Hk [s Hs]. assert (is_Some (c !! k)) as Hc by (specialize (Hm k); destruct (c !! k); [by eexists|congruence]).
  destruct (does_set_expire e U Hok client k w db c t (fun db' _ => holds e U db' c (<[k := w]> t)) Hh Hk Hc) as (db' & [] & E & Hh'); [done|]. exists db'. split; [done|]. by exists c.
Qed.

Lemma shows_expand db m t a b : shows e U db m t -> 0 <= a -> 0 <= b ->
  exists db' x, (on_dict (fun d => dictExpand d a);; on_expires (fun d => dictExpand d b)) db = Ok (db', x) /\ shows e U db' m t.
Proof.
  intros (c & Hh & Hm) Ha Hb. pose proof Hh as ([Hd Hx Hk Ht] & Hc & Htm). destruct (dictExpand_ok _ _ (db_dict db) a Hd Ha) as (d1 & st1 & E1 & Hw1 & He1 & _).
  destruct (dictExpand_ok _ _ (db_expires db) b Hx Hb) as (d2 & st2 & E2 & Hw2 & He2 & _).
  unfold mbind, dbm_bind, on_dict. rewrite E1. unfold on_expires. cbn [db_expires]. rewrite E2. eexists _, _. split; [done|]. exists c. split; [|done].
  split; [|by unfold contents, times; cbn [db_dict db_expires]; rewrite He1, He2]. split; cbn [db_dict db_expires]; [done..| |]; unfold contents, times in *; cbn [db_dict db_expires]; by rewrite ?He1, ?He2.
Qed.

End Keys.

(** ** Turns of the loop *)

Lemma on_selected_ok {A} (f : dbm A) s a db db' x : l_dbs s !! Z.to_nat (dbid a) = Some db -> f db = Ok (db', x) ->
  on_selected f s a = Ok (with_dbs s (<[Z.to_nat (dbid a) := db']> (l_dbs s)), x).
Proof. intros Hdb E. unfold on_selected. by rewrite Hdb, E, bind_Ok. Qed.

Section Turns.
Context `{Host} `{Allocator} `{StreamLaws} (cfg : config) (re : rdb_env) (e : env) (le : load_env) (rdbflags : Z) (U : gset (list Z)) (Hok : env_ok e U).
Context (ver : Z) (Hver : 9 <= ver).
Notation turn_of fuel := (load_turn cfg re e le rdbflags fuel ver).
Notation loop := (fun fuel => load_loop cfg re e le rdbflags fuel ver).

(** From the state [s] with [a], the loop reads the code and is in [s'] with [a'], after
    at most as many turns as there are bytes. *)
Definition steps (s : load_state) (a : attrs) (code : list Z) (s' : load_state) (a' : attrs) : Prop := forall fuel r rest,
  offers r code rest -> (length code <= fuel)%nat ->
  exists fuel' r', loop fuel s a r = loop fuel' s' a' r' /\ (fuel <= fuel' + length code)%nat /\ consumed r code rest r'.

Lemma steps_nil s a : steps s a [] s a.
Proof. intros fuel r rest (Hr & He & Hc & Hl) _. exists fuel, r. split; [done|]. split; [lia|]. split_and!; [by apply passed_nil|done..]. Qed.

Lemma steps_app s a c1 s1 a1 c2 s2 a2 : steps s a c1 s1 a1 -> steps s1 a1 c2 s2 a2 -> steps s a (c1 ++ c2) s2 a2.
Proof.
  intros H1' H2' fuel r rest Ho%offers_app Hf. rewrite length_app in *. destruct (H1' fuel r _ Ho) as (f1 & r1 & -> & Hf1 & Hr1); [lia|].
  destruct (H2' f1 r1 rest) as (f2 & r2 & -> & Hf2 & Hr2); [by eapply consumed_offers|lia|]. exists f2, r2. split; [done|]. split; [lia|]. by eapply consumed_app.
Qed.

Lemma steps_turn s a code s' a' : (0 < length code)%nat -> (forall fuel, loads (turn_of fuel s a) code (Continue s' a')) -> steps s a code s' a'.
Proof.
  intros Hpos Hl fuel r rest Ho Hf. destruct fuel as [|fuel]; [lia|]. destruct (Hl fuel r rest Ho) as (r' & E & Hr'). exists fuel, r'. split; [|split; [lia|done]].
  cbn [load_loop]. unfold mbind, rdbm_bind. by rewrite E.
Qed.

Lemma loads_error {A} (k : bool -> rdbm A) code x : loads (k false) code x -> loads (b ← get_read_error; k b) code x.
Proof. intros Hk r rest Ho. pose proof Ho as (_ & He & _). unfold mbind, rdbm_bind, get_read_error, rioGetReadError. rewrite He. by apply Hk. Qed.

Lemma steps_time s a w : INT64_MIN <= w <= INT64_MAX -> steps s a (time_code w) s (Attrs (dbid a) w (lru_idle a) (lfu_freq a)).
Proof.
  intros Hw. apply steps_turn; [cbn; lia|]. intros fuel. apply (loads_bind _ [RDB_OPCODE_EXPIRETIME_MS] RDB_OPCODE_EXPIRETIME_MS); [by apply loads_type|].
  change (loads (load_expiretime_ms ver s a) (le_bytes 8 w) (Continue s (Attrs (dbid a) w (lru_idle a) (lfu_freq a)))). unfold load_expiretime_ms. eapply loads_then; [by apply loads_time|]. apply loads_error, loads_ret.
Qed.

Lemma steps_idle s a v : 0 <= v < 2 ^ 64 - 1 -> steps s a (idle_code v) s (Attrs (dbid a) (expiretime a) (wrapS 64 v) (lfu_freq a)).
Proof.
  intros Hv. apply steps_turn; [cbn; lia|]. intros fuel. apply (loads_bind _ [RDB_OPCODE_IDLE] RDB_OPCODE_IDLE); [by apply loads_type|].
  change (loads (load_idle re s a) (len_code v) (Continue s (Attrs (dbid a) (expiretime a) (wrapS 64 v) (lfu_freq a)))). unfold load_idle. eapply loads_then; [apply loads_length; lia|]. cbn [snd].
  unfold RDB_LENERR. zconst. zfalse (v =? 2 ^ 64 - 1). apply loads_ret.
Qed.

Lemma steps_freq s a v : is_byte v -> steps s a (freq_code v) s (Attrs (dbid a) (expiretime a) (lru_idle a) v).
Proof.
  intros Hv. apply steps_turn; [cbn; lia|]. intros fuel. apply (loads_bind _ [RDB_OPCODE_FREQ] RDB_OPCODE_FREQ); [by apply loads_type|].
  change (loads (load_freq s a) [v] (Continue s (Attrs (dbid a) (expiretime a) (lru_idle a) v))). unfold load_freq. eapply loads_then; [by apply (loads_read 1 [v])|]. cbv beta iota. eapply loads_calc; [done|]. apply loads_ret.
Qed.

Lemma steps_select s a n : 0 <= n < zlen (l_dbs s) -> zlen (l_dbs s) < 2 ^ 64 -> steps s a ([RDB_OPCODE_SELECTDB] ++ len_code n) s (Attrs n (expiretime a) (lru_idle a) (lfu_freq a)).
Proof.
  intros Hn Hmax. apply steps_turn; [cbn; lia|]. intros fuel. apply (loads_bind _ [RDB_OPCODE_SELECTDB] RDB_OPCODE_SELECTDB); [by apply loads_type|].
  change (loads (load_selectdb re s a) (len_code n) (Continue s (Attrs n (expiretime a) (lru_idle a) (lfu_freq a)))). unfold load_selectdb. eapply loads_then; [apply loads_length; lia|]. cbn [snd].
  unfold RDB_LENERR. zconst. zfalse (n =? 2 ^ 64 - 1). rewrite Z.geb_leb. zfalse (zlen (l_dbs s) <=? n). apply loads_ret.
Qed.

Lemma steps_resize s a x y db m t : 0 <= x < 2 ^ 64 - 1 -> 0 <= y < 2 ^ 64 - 1 -> l_dbs s !! Z.to_nat (dbid a) = Some db -> shows e U db m t ->
  exists db', shows e U db' m t /\ steps s a ([RDB_OPCODE_RESIZEDB] ++ len_code x ++ len_code y) (with_dbs s (<[Z.to_nat (dbid a) := db']> (l_dbs s))) a.
Proof.
  intros Hx Hy Hdb Hs. destruct (shows_expand e U db m t x y Hs) as (db' & z & E & Hs'); [lia..|]. exists db'. split; [done|]. apply steps_turn; [cbn; lia|]. intros fuel.
  apply (loads_bind _ [RDB_OPCODE_RESIZEDB] RDB_OPCODE_RESIZEDB); [by apply loads_type|].
  change (loads (load_resizedb re s a) (len_code x ++ len_code y) (Continue (with_dbs s (<[Z.to_nat (dbid a) := db']> (l_dbs s))) a)). unfold load_resizedb.
  eapply loads_bind; [apply loads_length; lia|]. cbn [snd]. unfold RDB_LENERR. zconst. zfalse (x =? 2 ^ 64 - 1). eapply loads_then; [apply loads_length; lia|]. cbn [snd]. zfalse (y =? 2 ^ 64 - 1).
  eapply loads_calc; [by eapply on_selected_ok|]. apply loads_ret.
Qed.

(** ** Strings *)

(** A string that fits into memory. *)
Definition loadable (s : list Z) : Prop := Forall is_byte s /\ zlen s < MAX_STRING /\ zlen s + 18 <= max_request.

Lemma loads_sds code s : encodes code s -> loadable s -> loads (load_sds cfg re) code (Some s).
Proof.
  intros Henc (Hb & Hl & Hr). destruct (loads_encoded cfg re RDB_LOAD_SDS code s Henc Hb Hl Hr) as (l & Hload & Has). change (l = LSds s) in Has. subst l. unfold load_sds. eapply loads_then; [exact Hload|]. apply loads_ret.
Qed.

Lemma loads_raw code s : encodes code s -> loadable s -> exists l, loads (rdbLoadStringObject cfg re) code (Some l) /\ raw_text l = Ok s.
Proof.
  intros Henc (Hb & Hl & Hr). destruct (loads_encoded cfg re RDB_LOAD_NONE code s Henc Hb Hl Hr) as (l & Hload & Has). exists l. split; [exact Hload|].
  change (match l with LObj o => obj_wf o /\ obj_str o = Some s /\ (Z.land RDB_LOAD_NONE RDB_LOAD_ENC = 0 -> is_raw o = true) | _ => False end) in Has.
  destruct l as [?|?|o]; [done..|]. destruct Has as (_ & Hs & Hraw). specialize (Hraw eq_refl). destruct o as [[|] n x|n v|]; try done. cbn in *. congruence.
Qed.

Lemma steps_aux s a k v ck cv s' : encodes ck k -> encodes cv v -> loadable k -> loadable v -> set_field cfg le k v s = Ok s' -> steps s a ([RDB_OPCODE_AUX] ++ ck ++ cv) s' a.
Proof.
  intros Hk Hv Lk Lv E. destruct (loads_raw ck k Hk Lk) as (lk & Hlk & Ek). destruct (loads_raw cv v Hv Lv) as (lv & Hlv & Ev). apply steps_turn; [cbn; lia|]. intros fuel.
  apply (loads_bind _ [RDB_OPCODE_AUX] RDB_OPCODE_AUX); [by apply loads_type|]. change (loads (load_aux cfg re le s a) (ck ++ cv) (Continue s' a)). unfold load_aux.
  eapply loads_bind; [exact Hlk|]. cbv beta iota. eapply loads_then; [exact Hlv|]. cbv beta iota. eapply loads_calc; [exact Ek|]. eapply loads_calc; [exact Ev|]. eapply loads_calc; [exact E|]. apply loads_ret.
Qed.

Lemma steps_library s a code c : encodes c code -> loadable code -> functionsCreateWithLibraryCtx le (l_libraries s) code (negb (Z.land rdbflags RDBFLAGS_ALLOW_DUP =? 0)) = Some (l_libraries s ++ [code]) ->
  steps s a ([RDB_OPCODE_FUNCTION2] ++ c) (with_libraries s (l_libraries s ++ [code])) a.
Proof.
  intros Hc Lc E. apply steps_turn; [cbn; lia|]. intros fuel. apply (loads_bind _ [RDB_OPCODE_FUNCTION2] RDB_OPCODE_FUNCTION2); [by apply loads_type|].
  change (loads (load_function cfg re le rdbflags RDB_OPCODE_FUNCTION2 s a) c (Continue (with_libraries s (l_libraries s ++ [code])) a)). unfold load_function, rdbFunctionLoad. change (RDB_OPCODE_FUNCTION2 =? RDB_OPCODE_FUNCTION) with false. change (RDB_OPCODE_FUNCTION2 =? RDB_OPCODE_FUNCTION2) with true. cbv iota.
  apply (loads_then _ _ (Some (with_libraries s (l_libraries s ++ [code])))); [|apply loads_ret]. eapply loads_then; [by apply loads_sds|]. cbv beta iota. rewrite E. apply loads_ret.
Qed.

(** ** Keys *)

(** What is loaded besides the databases and the counters. *)
Definition rest_of (s : load_state) : list (list Z) * option rdbSaveInfo * Z := (l_libraries s, l_rsi s, loading_rdb_used_mem s).

(** A key with the expire time [w] is dropped. *)
Definition dropped (w : option Z) : bool :=
  match w with Some w => negb (masterhost e) && (Z.land rdbflags RDBFLAGS_AOF_PREAMBLE =? 0) && (w <? clock_mstime e) | None => false end.

Context (Hfeed : Z.land rdbflags RDBFLAGS_FEED_REPL <> 0 -> has_repl_backlog le = true /\ connected_slaves le = 0).

(** The database [j] becomes [db]. *)
Definition stored_at (s : load_state) (j : nat) (db : redisDb) (s' : load_state) : Prop := l_dbs s' = <[j := db]> (l_dbs s) /\ rest_of s' = rest_of s.

Lemma stored_lookup s j db db' s' : stored_at s j db' s' -> l_dbs s !! j = Some db -> l_dbs s' !! j = Some db'.
Proof. intros [-> _] Hj. apply list_lookup_insert_eq. by apply lookup_lt_Some in Hj. Qed.

Definition put_time (k : list Z) (w : option Z) (t : gmap (list Z) Z) : gmap (list Z) Z := match w with Some w => <[k := w]> t | None => t end.

Lemma load_add_key_ok s a db m t k x o :
  l_dbs s !! Z.to_nat (dbid a) = Some db -> shows e U db m t -> k ∈ U -> m !! k = None -> stands_for x o ->
  exists s' db', add_key e rdbflags s a k o = Ok s' /\ stored_at s (Z.to_nat (dbid a)) db' s' /\
    shows e U db' (<[k := x]> m) (put_time k (if expiretime a =? -1 then None else Some (expiretime a)) t).
Proof using Hok.
  intros Hdb Hs Hk Hn Ho. pose proof (lookup_lt_Some _ _ _ Hdb) as Hlt. destruct (shows_add e U Hok db m t k x o Hs Hk Hn Ho) as (db1 & E1 & Hs1). unfold add_key. rewrite (on_selected_ok _ s a db db1 true Hdb E1), bind_Ok. cbv beta iota zeta. rewrite bind_Ok.
  destruct (Z.eqb_spec (expiretime a) (-1)) as [Ee|Ee]; cbn [negb].
  { eexists _, db1. split; [done|]. by split. }
  destruct (shows_expire e U Hok db1 _ t k (expiretime a) false Hs1 Hk) as (db2 & E2 & Hs2); [rewrite lookup_insert_eq; by eexists|].
  erewrite on_selected_ok, bind_Ok; [|by apply list_lookup_insert_eq|exact E2]. eexists _, db2. split; [done|]. split; [|done]. split; [cbn; by rewrite list_insert_insert_eq|done].
Qed.

Lemma steps_string s a db m t k x ck cx :
  l_dbs s !! Z.to_nat (dbid a) = Some db -> shows e U db m t -> k ∈ U -> m !! k = None -> encodes ck k -> encodes cx x -> loadable k -> loadable x ->
  let w := if expiretime a =? -1 then None else Some (expiretime a) in
  exists s' db', steps s a ([RDB_TYPE_STRING] ++ ck ++ cx) s' (Attrs (dbid a) (-1) (-1) (-1)) /\ stored_at s (Z.to_nat (dbid a)) db' s' /\
    if dropped w then db' = db else shows e U db' (<[k := x]> m) (put_time k w t).
Proof using Hok Hfeed.
  intros Hdb Hs Hk Hn Hck Hcx Lk Lx w. destruct Lx as (Hb & Hl & Hr). destruct (loads_object cfg re (load_others le) cx k x Hcx Hb Hl Hr) as (o & Hload & Ho).
  assert (expired_here e rdbflags a = dropped w) as Edrop.
  { unfold expired_here, dropped, iAmMaster, w. destruct (Z.eqb_spec (expiretime a) (-1)); cbn [negb]; rewrite ?andb_false_r; [done|]. by rewrite !andb_true_r. }
  assert (forall s', loads (if expired_here e rdbflags a then
      s ← (if negb (Z.land rdbflags RDBFLAGS_FEED_REPL =? 0) then calc (assert! (has_repl_backlog le && (connected_slaves le =? 0)); Ok (feed s (dbid a) k (lazy_expire e))) else mret s);
      mret (Continue (add_counts s 0 1 0) (Attrs (dbid a) (-1) (-1) (-1)))
    else s ← calc (add_key e rdbflags s a k o); mret (Continue s (Attrs (dbid a) (-1) (-1) (-1)))) [] (Continue s' (Attrs (dbid a) (-1) (-1) (-1))) ->
    steps s a ([RDB_TYPE_STRING] ++ ck ++ cx) s' (Attrs (dbid a) (-1) (-1) (-1))) as Hsteps.
  { intros s' Hend. apply steps_turn; [cbn; lia|]. intros fuel. apply (loads_bind _ [RDB_TYPE_STRING] RDB_TYPE_STRING); [by apply loads_type|].
    change (loads (load_key cfg re e le rdbflags RDB_TYPE_STRING s a) (ck ++ cx) (Continue s' (Attrs (dbid a) (-1) (-1) (-1)))). unfold load_key. eapply loads_bind; [by apply loads_sds|]. cbv beta iota zeta. eapply loads_then; [exact Hload|]. exact Hend. }
  rewrite Edrop in Hsteps. destruct (dropped w) eqn:Ed.
  - destruct (Z.eqb_spec (Z.land rdbflags RDBFLAGS_FEED_REPL) 0) as [E0|E0]; cbn [negb] in Hsteps.
    + exists (add_counts s 0 1 0), db. split; [apply Hsteps; apply loads_skip with (a := s); apply loads_ret|]. split; [|done]. split; [cbn; by rewrite list_insert_id|done].
    + destruct (Hfeed E0) as [Eb Esl]. exists (add_counts (feed s (dbid a) k (lazy_expire e)) 0 1 0), db. split; [|split; [split; [cbn; by rewrite list_insert_id|done]|done]].
      apply Hsteps. eapply loads_calc; [by rewrite Eb, Esl|]. apply loads_ret.
  - destruct (load_add_key_ok s a db m t k x o Hdb Hs Hk Hn Ho) as (s' & db' & E & Hst & Hsh). exists s', db'. split; [|done]. apply Hsteps. eapply loads_calc; [exact E|]. apply loads_ret.
Qed.

Notation fresh j := (Attrs (Z.of_nat j) (-1) (-1) (-1)).

Lemma steps_option s a x code f : (forall v a, x = Some v -> steps s a (code v) s (f v a)) -> steps s a (option_code x code) s (match x with Some v => f v a | None => a end).
Proof. intros Hx. destruct x as [v|]; [by apply Hx|apply steps_nil]. Qed.

Lemma steps_key s j db m t w idle freq k x code :
  l_dbs s !! j = Some db -> shows e U db m t -> k ∈ U -> m !! k = None -> loadable k -> loadable x ->
  (forall v, w = Some v -> 0 <= v <= INT64_MAX) -> (forall v, idle = Some v -> 0 <= v < 2 ^ 64 - 1) -> (forall v, freq = Some v -> is_byte v) -> item_code (IKey w idle freq k x) code ->
  exists s' db', steps s (fresh j) code s' (fresh j) /\ stored_at s j db' s' /\ if dropped w then db' = db else shows e U db' (<[k := x]> m) (put_time k w t).
Proof using Hok Hfeed Hver.
  intros Hdb Hs Hk Hn Lk Lx Hw Hi Hf Hcode. inversion Hcode as [| | | |? ? ? ? ? ck cx Hck Hcx]; subst.
  set (a1 := match w with Some v => Attrs (Z.of_nat j) v (-1) (-1) | None => fresh j end).
  set (a2 := match idle with Some v => Attrs (dbid a1) (expiretime a1) (wrapS 64 v) (lfu_freq a1) | None => a1 end).
  set (a3 := match freq with Some v => Attrs (dbid a2) (expiretime a2) (lru_idle a2) v | None => a2 end).
  assert (dbid a3 = Z.of_nat j /\ expiretime a3 = default (-1) w) as [Ed Ee] by (unfold a3, a2, a1; by destruct w, idle, freq).
  assert ((if expiretime a3 =? -1 then None else Some (expiretime a3)) = w) as Ew.
  { rewrite Ee. destruct w as [v|]; [|done]. change (default (-1) (Some v)) with v. pose proof (Hw v eq_refl). by zfalse (v =? -1). }
  assert (Z.to_nat (dbid a3) = j) as Ej by lia.
  destruct (steps_string s a3 db m t k x ck cx) as (s' & db' & Hst & Hput & Hres); [by rewrite Ej|done..|]. rewrite Ew in Hres. rewrite Ej in Hput. rewrite Ed in Hst. exists s', db'. split; [|done].
  eapply steps_app; [apply (steps_option s (fresh j) w time_code (fun v a => Attrs (dbid a) v (lru_idle a) (lfu_freq a))); intros v a ->; apply steps_time; zconst; specialize (Hw v eq_refl); lia|].
  eapply steps_app; [apply (steps_option s _ idle idle_code (fun v a => Attrs (dbid a) (expiretime a) (wrapS 64 v) (lfu_freq a))); intros v a ->; apply steps_idle; by apply Hi|].
  eapply steps_app; [apply (steps_option s _ freq freq_code (fun v a => Attrs (dbid a) (expiretime a) (lru_idle a) v)); intros v a ->; apply steps_freq; by apply Hf|]. exact Hst.
Qed.

(** ** A database *)

(** The maps after the entries [l] have been loaded. *)
Fixpoint load_entries (t : gmap (list Z) Z) (l : list (dictEntry (list Z) robj)) (x : gmap (list Z) (list Z) * gmap (list Z) Z) : gmap (list Z) (list Z) * gmap (list Z) Z :=
  match l with
  | [] => x
  | en :: l => load_entries t l (if dropped (t !! de_key en) then x else (<[de_key en := text (de_val en)]> x.1, put_time (de_key en) (t !! de_key en) x.2))
  end.

(** An entry another server saved. *)
Record entry_loadable (t : gmap (list Z) Z) (en : dictEntry (list Z) robj) : Prop := {
  el_key : de_key en ∈ U;
  el_load : loadable (de_key en);
  el_text : loadable (text (de_val en));
  el_time w : t !! de_key en = Some w -> 0 <= w <= INT64_MAX;
}.

(** Idle times are below the largest number. *)
Definition idle_ok {S1 : Stream} (se : @save_env S1) : Prop := policy_lru se = true -> forall k, 0 <= estimateObjectIdleTime se k / 1000 < 2 ^ 64 - 1.

Lemma steps_keys {S1 : Stream} (se : @save_env S1) t0 l j s db m t code : idle_ok se ->
  l_dbs s !! j = Some db -> shows e U db m t -> Forall (entry_loadable t0) l -> NoDup (de_key <$> l) -> (forall en, en ∈ l -> m !! de_key en = None) ->
  codes (key_item se t0 <$> l) code ->
  exists s' db', steps s (fresh j) code s' (fresh j) /\ stored_at s j db' s' /\ shows e U db' (load_entries t0 l (m, t)).1 (load_entries t0 l (m, t)).2.
Proof using Hok Hfeed Hver.
  intros Hidle Hdb Hs Hl. revert s db m t code Hdb Hs. induction Hl as [|en l [Hk Lk Lx Ht] Hl IH]; intros s db m t code Hdb Hs Hnd Hm (cs & Hcs & ->).
  { inversion Hcs; subst. exists s, db. split; [apply steps_nil|]. split; [|done]. split; [by rewrite list_insert_id|done]. }
  cbn in Hcs. apply Forall2_cons_inv_l in Hcs as (c1 & cs' & Hc1 & Hcs' & ->). apply NoDup_cons in Hnd as [Hni Hnd]. cbn [concat load_entries].
  destruct (steps_key s j db m t (t0 !! de_key en) (if policy_lru se then Some (estimateObjectIdleTime se (de_key en) / 1000) else None)
    (if policy_lfu se then Some (wrapU 8 (LFUDecrAndReturn se (de_key en))) else None) (de_key en) (text (de_val en)) c1 Hdb Hs Hk) as (s1 & db1 & Hst1 & Hput1 & Hres1); [apply Hm; constructor|done..| | |exact Hc1|].
  { intros v. destruct (policy_lru se) eqn:Ep; [|done]. intros [= <-]. by apply Hidle. }
  { intros v. destruct (policy_lfu se); [|done]. intros [= <-]. unfold is_byte. apply (wrapU_range 8). lia. }
  assert (forall x : gmap (list Z) (list Z) * gmap (list Z) Z, shows e U db1 x.1 x.2 -> (forall en', en' ∈ l -> x.1 !! de_key en' = None) ->
    exists s' db', steps s (fresh j) (c1 ++ concat cs') s' (fresh j) /\ stored_at s j db' s' /\ shows e U db' (load_entries t0 l x).1 (load_entries t0 l x).2) as Hgo.
  { intros [m1 t1] Hs1 Hm1. destruct (IH s1 db1 m1 t1 (concat cs')) as (s' & db' & Hst' & Hput' & Hres'); [by eapply stored_lookup|done..|by exists cs'|]. exists s', db'. split; [by eapply steps_app|]. split; [|done].
    destruct Hput1 as [E1 R1], Hput' as [E2 R2]. split; [rewrite E2, E1; apply list_insert_insert_eq|congruence]. }
  destruct (dropped (t0 !! de_key en)).
  - subst db1. apply Hgo; [done|]. intros en' Hin. apply Hm. by constructor.
  - apply Hgo; [done|]. intros en' Hin. cbn [fst]. rewrite lookup_insert_ne; [apply Hm; by constructor|]. intros Heq. apply Hni. rewrite Heq. by apply list_elem_of_fmap_2.
Qed.

Notation key_map l := (to_map (id : list Z -> list Z) l).

Lemma load_entries_lookup t l x k : NoDup (de_key <$> l) ->
  (load_entries t l x).1 !! k = match key_map l !! k with Some en => if dropped (t !! k) then x.1 !! k else Some (text (de_val en)) | None => x.1 !! k end /\
  (load_entries t l x).2 !! k = match key_map l !! k with Some en => if dropped (t !! k) then x.2 !! k else (match t !! k with Some w => Some w | None => x.2 !! k end) | None => x.2 !! k end.
Proof.
  revert x. induction l as [|en l IH]; intros x Hnd; [done|]. apply NoDup_cons in Hnd as [Hni Hnd]. cbn [load_entries]. specialize (IH (if dropped (t !! de_key en) then x else (<[de_key en := text (de_val en)]> x.1, put_time (de_key en) (t !! de_key en) x.2)) Hnd).
  destruct IH as [-> ->]. change (key_map (en :: l)) with (<[de_key en := en]> (key_map l)). destruct (decide (k = de_key en)) as [->|Hne].
  - rewrite lookup_insert_eq. assert (key_map l !! de_key en = None) as ->.
    { apply not_elem_of_list_to_map_1. intros Hin. apply Hni. rewrite <- list_fmap_compose in Hin. exact Hin. }
    destruct (dropped (t !! de_key en)); [done|]. cbn [fst snd]. rewrite lookup_insert_eq. split; [done|]. destruct (t !! de_key en); [apply lookup_insert_eq|done].
  - rewrite !(lookup_insert_ne (key_map l)) by done. destruct (dropped (t !! de_key en)); [done|]. cbn [fst snd]. rewrite lookup_insert_ne by done.
    assert (put_time (de_key en) (t !! de_key en) x.2 !! k = x.2 !! k) as -> by (destruct (t !! de_key en); [by apply lookup_insert_ne|done]). done.
Qed.

(** What is left of a saved database. *)
Definition survivors (db : redisDb) : gmap (list Z) (list Z) := text <$> filter (fun kv => dropped (times db !! kv.1) = false) (contents db).
Definition surviving_times (db : redisDb) : gmap (list Z) Z := filter (fun kv => dropped (Some kv.2) = false) (times db).

Lemma load_entries_all e0 db : redis_wf e0 U db -> load_entries (times db) (entries (db_dict db)) (∅, ∅) = (survivors db, surviving_times db).
Proof.
  intros Hw. assert (NoDup (de_key <$> entries (db_dict db))) as Hnd by apply (wf_nodup _ _ _ (wf_dict _ _ _ Hw)). pose proof (load_entries_lookup (times db) (entries (db_dict db)) (∅, ∅)) as Hl.
  destruct (load_entries _ _ _) as [m t] eqn:E. cbn [fst snd] in Hl. unfold survivors, surviving_times, contents. f_equal; apply map_eq; intros k; destruct (Hl k Hnd) as [Hm Ht].
  - rewrite Hm, lookup_fmap, lookup_empty. destruct (key_map _ !! k) as [en|] eqn:Ek.
    + destruct (dropped (times db !! k)) eqn:Ed.
      * rewrite map_lookup_filter_None_2; [done|]. right. intros x Hx. cbn. by rewrite Ed.
      * erewrite map_lookup_filter_Some_2; [done|by rewrite lookup_fmap, Ek|done].
    + rewrite map_lookup_filter_None_2; [done|]. left. by rewrite lookup_fmap, Ek.
  - rewrite Ht, lookup_empty. destruct (times db !! k) as [w|] eqn:Ew.
    + destruct (wf_times _ _ _ Hw k) as [o Ho]; [by eexists|]. unfold contents in Ho. rewrite lookup_fmap in Ho. destruct (key_map _ !! k); [|done].
      destruct (dropped (Some w)) eqn:Ed; symmetry; [apply map_lookup_filter_None_2; right; intros x Hx Ex; rewrite Ew in Hx; injection Hx as <-; cbn [snd] in Ex; congruence|by apply map_lookup_filter_Some_2].
    + rewrite map_lookup_filter_None_2 by (by left). destruct (key_map _ !! k); [by destruct (dropped None)|done].
Qed.

(** A database another server saved, and which fits into the memory of this one. *)
Definition db_loadable (e0 : env) (db : redisDb) : Prop := redis_wf e0 U db /\ Forall (entry_loadable (times db)) (entries (db_dict db)).

Definition shows_survivors (db0 db : redisDb) : Prop := shows e U db (survivors db0) (surviving_times db0).

Lemma steps_db {S1 : Stream} (se : @save_env S1) e0 db0 j i s db code : idle_ok se -> db_loadable e0 db0 ->
  l_dbs s !! j = Some db -> shows e U db ∅ ∅ -> zlen (l_dbs s) < 2 ^ 64 -> codes (db_items se (Z.of_nat j) db0) code ->
  exists s' db' i', steps s (fresh i) code s' (fresh i') /\ stored_at s j db' s' /\ shows_survivors db0 db'.
Proof using Hok Hfeed Hver.
  intros Hidle [Hw Hen] Hdb Hs Hmax Hc. destruct (dict_size_entries e0 U db0 Hw) as (Es & Hsz & Hx). pose proof (load_entries_all e0 db0 Hw) as Hall. unfold shows_survivors. unfold db_items in Hc. destruct (Z.eqb_spec (dictSize (db_dict db0)) 0) as [Ez|Hne].
  { destruct Hc as (cs & Hcs & ->). inversion Hcs; subst. exists s, db, i. split; [apply steps_nil|]. split; [split; [by rewrite list_insert_id|done]|].
    assert (entries (db_dict db0) = []) as E0 by (destruct (entries (db_dict db0)); [done|rewrite zlen_cons in Es; pose proof (zlen_nonneg l); lia]). rewrite E0 in Hall. injection Hall as <- <-. done. }
  destruct Hc as (cs & Hcs & ->). apply Forall2_cons_inv_l in Hcs as (c1 & cs1 & Hc1 & Hcs & ->). apply Forall2_cons_inv_l in Hcs as (c2 & cs2 & Hc2 & Hcs & ->). inversion Hc1; subst. inversion Hc2; subst. cbn [concat].
  pose proof (lookup_lt_Some _ _ _ Hdb) as Hlt. assert (0 <= Z.of_nat j < zlen (l_dbs s)) as Hj by (unfold zlen; lia).
  assert (dictSize (db_dict db0) < 2 ^ 64 - 1 /\ dictSize (db_expires db0) < 2 ^ 64 - 1) as [Hs1 Hs2].
  { destruct (wf_used _ _ _ (wf_expires _ _ _ Hw)) as (_ & _ & Ex). pose proof (wf_max _ _ _ (wf_dict _ _ _ Hw)). pose proof (wf_max _ _ _ (wf_expires _ _ _ Hw)). unfold MAX_ENTRIES in *. lia. }
  destruct (steps_resize s (fresh j) (dictSize (db_dict db0)) (dictSize (db_expires db0)) db ∅ ∅) as (db1 & Hsh1 & Hst1); [lia|lia|cbn [dbid]; by rewrite Nat2Z.id|done|].
  cbn [dbid] in Hst1. rewrite Nat2Z.id in Hst1. set (s1 := with_dbs s (<[j := db1]> (l_dbs s))) in *.
  destruct (steps_keys se (times db0) (entries (db_dict db0)) j s1 db1 ∅ ∅ (concat cs2)) as (s' & db' & Hst & Hput & Hsh); [done|by apply list_lookup_insert_eq|done..|apply (wf_nodup _ _ _ (wf_dict _ _ _ Hw))|intros; apply lookup_empty|by exists cs2|].
  rewrite Hall in Hsh. exists s', db', j. split; [|split; [|done]].
  - eapply steps_app; [by apply (steps_select s (fresh i))|]. eapply steps_app; [exact Hst1|exact Hst].
  - destruct Hput as [E R]. split; [rewrite E; cbn; by rewrite list_insert_insert_eq|by rewrite R].
Qed.

Lemma steps_dbs {S1 : Stream} (se : @save_env S1) e0 dbs j i s code : idle_ok se -> Forall (db_loadable e0) dbs ->
  (forall n, (n < length dbs)%nat -> exists db, l_dbs s !! (j + n)%nat = Some db /\ shows e U db ∅ ∅) -> zlen (l_dbs s) < 2 ^ 64 -> codes (dbs_items se (Z.of_nat j) dbs) code ->
  exists s' i', steps s (fresh i) code s' (fresh i') /\ rest_of s' = rest_of s /\ length (l_dbs s') = length (l_dbs s) /\ (forall n, (n < j)%nat -> l_dbs s' !! n = l_dbs s !! n) /\
    forall n db0, dbs !! n = Some db0 -> exists db, l_dbs s' !! (j + n)%nat = Some db /\ shows_survivors db0 db.
Proof using Hok Hfeed Hver.
  intros Hidle Hdbs. revert j i s code. induction Hdbs as [|db0 dbs Hdb0 Hdbs IH]; intros j i s code Hempty Hmax Hc; cbn [dbs_items] in Hc.
  { destruct Hc as (cs & Hcs & ->). inversion Hcs; subst. exists s, i. split; [apply steps_nil|]. by split_and!. }
  destruct Hc as (cs & Hcs & ->). apply Forall2_app_inv_l in Hcs as (cs1 & cs2 & Hcs1 & Hcs2 & ->). rewrite concat_app. replace (Z.of_nat j + 1) with (Z.of_nat (S j)) in Hcs2 by lia.
  destruct (Hempty 0%nat) as (db & Hdb & Hsh); [cbn; lia|]. rewrite Nat.add_0_r in Hdb. destruct (steps_db se e0 db0 j i s db (concat cs1)) as (s1 & db1 & i1 & Hst1 & Hput1 & Hsh1); [done..|by exists cs1|].
  pose proof Hput1 as [E1 R1]. pose proof (lookup_lt_Some _ _ _ Hdb) as Hlt.
  destruct (IH (S j) i1 s1 (concat cs2)) as (s' & i' & Hst & Hrest & Hlen & Hold & Hnew); [|unfold zlen in *; by rewrite E1, length_insert|by exists cs2|].
  { intros n Hn. destruct (Hempty (S n)) as (db' & Hdb' & Hsh'); [cbn; lia|]. exists db'. split; [|done]. rewrite E1, list_lookup_insert_ne by lia. by replace (S j + n)%nat with (j + S n)%nat by lia. }
  exists s', i'. split; [by eapply steps_app|]. split; [congruence|]. split; [by rewrite Hlen, E1, length_insert|]. split.
  { intros n Hn. rewrite Hold by lia. by rewrite E1, list_lookup_insert_ne by lia. }
  intros [|n] x Hx; cbn in Hx.
  - injection Hx as <-. exists db1. split; [|done]. rewrite Nat.add_0_r, Hold by lia. by eapply stored_lookup.
  - destruct (Hnew n x Hx) as (db' & Hdb' & Hsh'). exists db'. split; [|done]. by replace (j + S n)%nat with (S j + n)%nat by lia.
Qed.

(** ** Fields and libraries *)

Context (Hroom : 64 <= max_request).

Lemma loadable_small s : Forall is_byte s -> zlen s <= 40 -> loadable s.
Proof using Hroom. intros Hb Hl. split; [done|]. unfold MAX_STRING. lia. Qed.

Fixpoint set_fields (kvs : list (list Z * list Z)) (s : load_state) : res load_state :=
  match kvs with [] => Ok s | kv :: kvs => s ← set_field cfg le kv.1 kv.2 s; set_fields kvs s end.

Lemma steps_fields kvs s s' a code : Forall (fun kv => loadable kv.1 /\ loadable kv.2) kvs -> set_fields kvs s = Ok s' -> codes ((fun kv => IAux kv.1 kv.2) <$> kvs) code -> steps s a code s' a.
Proof.
  intros Hl. revert s code. induction Hl as [|[k v] kvs [Lk Lv] _ IH]; intros s code E (cs & Hcs & ->); cbn in Hcs, E.
  { inversion Hcs; subst. injection E as ->. apply steps_nil. }
  apply Forall2_cons_inv_l in Hcs as (c1 & cs' & Hc1 & Hcs & ->). apply bind_Ok_inv in E as (s1 & E1 & E). inversion Hc1; subst. cbn [concat]. eapply steps_app; [by eapply steps_aux|]. apply IH; [done|by exists cs'].
Qed.

Lemma field_ignored k v s : k ∈ ["redis-ver"; "redis-bits"; "aof-base"]%string -> set_field cfg le (chars k) v s = Ok s.
Proof. intros Hk. repeat (apply elem_of_cons in Hk as [->|Hk]; [done|]). by apply elem_of_nil in Hk. Qed.

Lemma field_ctime v s : INT64_MIN <= load_time le - strtoll v <= INT64_MAX -> set_field cfg le (chars "ctime") v s = Ok s.
Proof.
  intros Hv. change (set_field cfg le (chars "ctime") v s) with (age ← arith64 (fwrapv cfg) (load_time le - strtoll v); Ok s). unfold arith64. destruct (fwrapv cfg); [done|].
  by rewrite sint_ok by (revert Hv; zconst; lia).
Qed.

Lemma field_used_mem v s : set_field cfg le (chars "used-mem") v s = Ok (with_used_mem s (strtoll v)).
Proof. done. Qed.

(** The fields of the replication state. *)
Definition on_rsi (s : load_state) (f : rdbSaveInfo -> rdbSaveInfo) : load_state := with_rsi s (f <$> l_rsi s).

Lemma field_stream_db v s : - 2 ^ 31 <= v < 2 ^ 31 ->
  set_field cfg le (chars "repl-stream-db") (ll_repr v) s = Ok (on_rsi s (fun i => SaveInfo v (repl_id_is_set i) (repl_id i) (repl_offset i))).
Proof.
  intros Hv. change (set_field cfg le (chars "repl-stream-db") (ll_repr v) s) with
    (match l_rsi s with Some i => db ← atoi (ll_repr v); Ok (with_rsi s (Some (SaveInfo db (repl_id_is_set i) (repl_id i) (repl_offset i)))) | None => Ok s end).
  destruct s as [? ? [|] ? ? ? ? ?]; [|done]. cbn [l_rsi]. by rewrite atoi_repr, bind_Ok.
Qed.

Lemma field_id v s : zlen v = CONFIG_RUN_ID_SIZE -> set_field cfg le (chars "repl-id") v s = Ok (on_rsi s (fun i => SaveInfo (repl_stream_db i) true v (repl_offset i))).
Proof.
  intros Hv. change (set_field cfg le (chars "repl-id") v s) with
    (match l_rsi s with Some i => Ok (if zlen v =? CONFIG_RUN_ID_SIZE then with_rsi s (Some (SaveInfo (repl_stream_db i) true v (repl_offset i))) else s) | None => Ok s end).
  rewrite Hv, Z.eqb_refl. by destruct s as [? ? [|] ? ? ? ? ?].
Qed.

Lemma field_offset v s : set_field cfg le (chars "repl-offset") v s = Ok (on_rsi s (fun i => SaveInfo (repl_stream_db i) (repl_id_is_set i) (repl_id i) (strtoll v))).
Proof. by destruct s as [? ? [|] ? ? ? ? ?]. Qed.

(** The replication state that is loaded, when it was saved and is asked for. *)
Definition loaded_rsi {S1 : Stream} (se : @save_env S1) (saved asked : option rdbSaveInfo) : option rdbSaveInfo :=
  match saved, asked with
  | Some i, Some _ => Some (SaveInfo (repl_stream_db i) true (replid se) (master_repl_offset se))
  | _, _ => asked
  end.

Lemma steps_info {S1 : Stream} (se : @save_env S1) flags rsi s a code :
  INT64_MIN <= time_now se <= INT64_MAX -> INT64_MIN <= zmalloc_used_memory se <= INT64_MAX -> INT64_MIN <= master_repl_offset se <= INT64_MAX -> (forall i, rsi = Some i -> - 2 ^ 31 <= repl_stream_db i < 2 ^ 31) ->
  zlen (replid se) = CONFIG_RUN_ID_SIZE -> Forall is_byte (replid se) -> INT64_MIN <= load_time le - time_now se <= INT64_MAX -> codes (aux_items se flags rsi) code ->
  steps s a code (with_used_mem (with_rsi s (loaded_rsi se rsi (l_rsi s))) (zmalloc_used_memory se)) a.
Proof using Hroom.
  clear Hok Hver Hfeed. intros Ht Hm Ho Hd Hl Hb Hage Hc. unfold CONFIG_RUN_ID_SIZE in Hl. set (base := if negb (Z.land flags RDBFLAGS_AOF_PREAMBLE =? 0) then 1 else 0) in *.
  set (kvs := [(chars "redis-ver", REDIS_VERSION); (chars "redis-bits", ll_repr 64); (chars "ctime", ll_repr (time_now se)); (chars "used-mem", ll_repr (zmalloc_used_memory se))] ++
    match rsi with Some i => [(chars "repl-stream-db", ll_repr (repl_stream_db i)); (chars "repl-id", replid se); (chars "repl-offset", ll_repr (master_repl_offset se))] | None => [] end ++
    [(chars "aof-base", ll_repr base)]).
  assert (aux_items se flags rsi = (fun kv => IAux kv.1 kv.2) <$> kvs) as Ek by (unfold kvs; by destruct rsi). rewrite Ek in Hc. clear Ek.
  assert (forall v, INT64_MIN <= v <= INT64_MAX -> loadable (ll_repr v)) as Lint by (intros v Hv; pose proof (ll_repr_bound v Hv); apply loadable_small; [apply ll_repr_bytes|lia]).
  assert (INT64_MIN <= base <= INT64_MAX /\ INT64_MIN <= 64 <= INT64_MAX) as [Hbase H64] by (unfold base; zconst; destruct (negb _); lia).
  eapply steps_fields; [| |exact Hc].
  - unfold kvs. rewrite !Forall_app. split_and!; [|destruct rsi as [i|]; [|constructor]|]; repeat apply Forall_cons_2; try apply Forall_nil_2; cbn [fst snd];
      (split; [apply loadable_small; [by repeat constructor|done]|]); try (by apply Lint); try (apply loadable_small; [by repeat constructor|done]).
    + apply Lint. specialize (Hd i eq_refl). zconst. lia.
    + apply loadable_small; [done|lia].
  - unfold kvs. cbn [app set_fields fst snd]. rewrite (field_ignored "redis-ver"), bind_Ok, (field_ignored "redis-bits"), bind_Ok by set_solver.
    rewrite field_ctime, bind_Ok, field_used_mem, bind_Ok by (by rewrite strtoll_repr). rewrite strtoll_repr by done. destruct rsi as [i|]; cbn [app set_fields fst snd].
    + rewrite field_stream_db, bind_Ok, field_id, bind_Ok, field_offset, bind_Ok by (done || by apply Hd). rewrite (field_ignored "aof-base"), bind_Ok by set_solver.
      rewrite strtoll_repr by done. by destruct s as [? ? [|] ? ? ? ? ?].
    + rewrite (field_ignored "aof-base"), bind_Ok by set_solver. by destruct s as [? ? [|] ? ? ? ? ?].
Qed.

Lemma steps_libraries libs s a code : (forall pre c, c ∈ libs -> functionsCreateWithLibraryCtx le pre c (negb (Z.land rdbflags RDBFLAGS_ALLOW_DUP =? 0)) = Some (pre ++ [c])) -> Forall loadable libs -> codes (ILibrary <$> libs) code ->
  exists s', steps s a code s' a /\ l_dbs s' = l_dbs s /\ rest_of s' = (l_libraries s ++ libs, l_rsi s, loading_rdb_used_mem s).
Proof.
  intros Hcr Hl. revert s code. induction Hl as [|c libs Lc _ IH]; intros s code (cs & Hcs & ->); cbn in Hcs.
  { inversion Hcs; subst. exists s. split; [apply steps_nil|]. rewrite app_nil_r. done. }
  apply Forall2_cons_inv_l in Hcs as (c1 & cs' & Hc1 & Hcs & ->). inversion Hc1; subst. cbn [concat].
  destruct (IH ltac:(intros pre c' Hin; apply Hcr; by constructor) (with_libraries s (l_libraries s ++ [c])) (concat cs')) as (s' & Hst & Hd & Hr); [by exists cs'|]. exists s'. split; [|split; [done|]].
  - eapply steps_app; [apply steps_library; [done..|]; apply Hcr; by constructor|exact Hst].
  - rewrite Hr. cbn. by rewrite <- app_assoc.
Qed.

End Turns.

(** ** The file *)

(** What loading a file makes of the state [s]. *)
Record restored {S1 : Stream} (e : env) (rdbflags : Z) (U : gset (list Z)) (se : @save_env S1) (rsi : option rdbSaveInfo) (dbs : list redisDb) (s s' : load_state) : Prop := {
  rs_dbs n db0 : dbs !! n = Some db0 -> exists db, l_dbs s' !! n = Some db /\ shows_survivors e rdbflags U db0 db;
  rs_length : length (l_dbs s') = length (l_dbs s);
  rs_libraries : l_libraries s' = l_libraries s ++ functions se;
  rs_rsi : l_rsi s' = loaded_rsi se rsi (l_rsi s);
}.

(** The server that loads: its memory, its clock, and databases that are empty. *)
Record receiver_ok `{Allocator} {S1 S2 : Stream} (e e0 : env) (le : @load_env S2) (rdbflags : Z) (U : gset (list Z)) (se : @save_env S1) (dbs : list redisDb) (s : load_state) : Prop := {
  rc_env : env_ok e U;
  rc_feed : Z.land rdbflags RDBFLAGS_FEED_REPL <> 0 -> has_repl_backlog le = true /\ connected_slaves le = 0;
  rc_memory : 64 <= max_request;
  rc_interval : 0 <= loading_process_events_interval_bytes le;
  rc_age : INT64_MIN <= load_time le - time_now se <= INT64_MAX;
  rc_idle : idle_ok se;
  rc_libraries pre c : c ∈ functions se -> functionsCreateWithLibraryCtx le pre c (negb (Z.land rdbflags RDBFLAGS_ALLOW_DUP =? 0)) = Some (pre ++ [c]) /\ loadable c;
  rc_dbs : Forall (db_loadable U e0) dbs;
  rc_dbnum : (length dbs <= length (l_dbs s))%nat /\ zlen (l_dbs s) < 2 ^ 64;
  rc_empty db : db ∈ l_dbs s -> shows e U db ∅ ∅;
}.

Section File.
Context `{Host} `{Allocator} `{StreamLaws} (cfg : config) (re : rdb_env) (e : env) (le : load_env) (rdbflags : Z) (U : gset (list Z)).

Lemma steps_items {S1 : Stream} (se : @save_env S1) e0 flags rsi dbs s code : receiver_ok e e0 le rdbflags U se dbs s ->
  INT64_MIN <= time_now se <= INT64_MAX -> INT64_MIN <= zmalloc_used_memory se <= INT64_MAX -> INT64_MIN <= master_repl_offset se <= INT64_MAX -> (forall i, rsi = Some i -> - 2 ^ 31 <= repl_stream_db i < 2 ^ 31) ->
  zlen (replid se) = CONFIG_RUN_ID_SIZE -> Forall is_byte (replid se) -> codes (file_items se flags rsi dbs) code ->
  exists s' a', steps cfg re e le rdbflags RDB_VERSION s (Attrs 0 (-1) (-1) (-1)) code s' a' /\ restored e rdbflags U se rsi dbs s s'.
Proof.
  intros [Hok Hfeed Hroom _ Hage Hidle Hlibs Hdbs [Hnum Hmax] Hempty] Ht Hm Ho Hd Hl Hb (cs & Hcs & ->). assert (9 <= RDB_VERSION) as Hver by done.
  apply Forall2_app_inv_l in Hcs as (cs1 & cs2 & Hcs1 & Hcs2 & ->). apply Forall2_app_inv_l in Hcs2 as (cs3 & cs4 & Hcs3 & Hcs4 & ->). rewrite !concat_app.
  pose proof (steps_info cfg re e le rdbflags RDB_VERSION Hroom se flags rsi s (Attrs 0 (-1) (-1) (-1)) (concat cs1) Ht Hm Ho Hd Hl Hb Hage (ex_intro _ cs1 (conj Hcs1 eq_refl))) as St1.
  set (s1 := with_used_mem _ _) in St1.
  destruct (steps_libraries cfg re e le rdbflags RDB_VERSION (functions se) s1 (Attrs 0 (-1) (-1) (-1)) (concat cs3)) as (s2 & St2 & Ed2 & Er2); [intros pre c Hc; by apply Hlibs|apply Forall_forall; intros c Hc; by apply (Hlibs [])|by exists cs3|].
  destruct (steps_dbs cfg re e le rdbflags U Hok RDB_VERSION Hver Hfeed se e0 dbs 0 0 s2 (concat cs4) Hidle Hdbs) as (s3 & i & St3 & Er3 & Hlen & _ & Hres); [|by rewrite Ed2|by exists cs4|].
  { intros n Hn. rewrite Ed2. destruct (lookup_lt_is_Some_2 (l_dbs s) n) as [db Hdb]; [lia|]. exists db. split; [done|]. apply Hempty. by eapply list_elem_of_lookup_2. }
  exists s3, (Attrs (Z.of_nat i) (-1) (-1) (-1)). split; [eapply steps_app; [exact St1|]; eapply steps_app; [exact St2|exact St3]|]. rewrite Er2 in Er3. injection Er3 as El Ersi _.
  split; [exact Hres|by rewrite Hlen, Ed2|done|done].
Qed.

(** At the end of the file the checksum is compared. *)
Lemma loads_cksum (sum : Z) s r rest : 0 <= sum < 2 ^ 64 -> offers r (le_bytes 8 sum) rest -> (load_checksum le = true -> sum = 0 \/ sum = cksum r) ->
  exists r', check_cksum re le RDB_VERSION s r = Ok (r', (s, true)) /\ consumed r (le_bytes 8 sum) rest r'.
Proof.
  intros Hsum Ho Hck. destruct (rioRead_ok r 8 (le_bytes 8 sum) rest) as (r' & E & Hr'); [done|done|]. exists r'. split; [|done].
  unfold check_cksum, mbind, rdbm_bind, get_cksum, rdb_read. change (RDB_VERSION >=? 5) with true. cbv beta iota. rewrite E. destruct (load_checksum le && negb (skip_checksum le)) eqn:El; [|done].
  destruct (memrev64ifbe_spec (le_bytes 8 sum)) as (bs & Eb & Hbs); [by rewrite length_le_bytes|]. unfold calc. rewrite Eb, bind_Ok. cbv zeta. rewrite Hbs, le_val_bytes, wrapU_small by (cbn; lia).
  apply andb_true_iff in El as [El _]. destruct (Hck El) as [->| ->]; [done|]. destruct (cksum r =? 0); [done|]. by rewrite Z.eqb_refl.
Qed.

Lemma magic_bytes : magic = chars "REDIS" ++ chars "0010" /\ zlen magic = 9 /\ Forall is_byte magic.
Proof. split; [done|]. split; [done|]. by repeat constructor. Qed.

Lemma loads_file {S1 : Stream} (se : @save_env S1) e0 flags rsi dbs s items fuel r rest : receiver_ok e e0 le rdbflags U se dbs s ->
  INT64_MIN <= time_now se <= INT64_MAX -> INT64_MIN <= zmalloc_used_memory se <= INT64_MAX -> INT64_MIN <= master_repl_offset se <= INT64_MAX -> (forall i, rsi = Some i -> - 2 ^ 31 <= repl_stream_db i < 2 ^ 31) ->
  zlen (replid se) = CONFIG_RUN_ID_SIZE -> Forall is_byte (replid se) -> codes (file_items se flags rsi dbs) items ->
  offers r (file se (file_body items)) rest -> cksum r = 0 -> (length (file se (file_body items)) <= fuel)%nat ->
  exists r' s', rdbLoadRioWithLoadingCtx cfg re e le rdbflags fuel s r = Ok (r', (s', true)) /\ restored e rdbflags U se rsi dbs s s' /\ coming (rio_io r') = rest.
Proof.
  intros Hrc Ht Hm Ho Hd Hl Hb Hc Hoff Hck Hfuel. destruct (steps_items se e0 flags rsi dbs s items Hrc Ht Hm Ho Hd Hl Hb Hc) as (s' & a' & Hst & Hres).
  set (sum := if rdb_checksum se then crc_of 0 (file_body items) else 0). set (r0 := Rio _ (rio_io r) (load_checksum le) (cksum r) (read_error r) (write_error r) (processed_bytes r) (loading_process_events_interval_bytes le)).
  assert (Forall is_byte (file_body items)) as Hbytes. { pose proof Hoff as (Hr & _ & Hcm & _). pose proof (coming_bytes _ (ok_io r Hr)) as Hby. rewrite Hcm in Hby. unfold file in Hby. apply Forall_app in Hby as [Hby _]. by apply Forall_app in Hby as [? _]. }
  assert (0 <= sum < 2 ^ 64) as Hsum by (unfold sum; destruct (rdb_checksum se); [apply crc_of_is_word; [apply word_0|done]|lia]).
  destruct magic_bytes as (Em & Hml & _).
  assert (offers r0 magic (items ++ [RDB_OPCODE_EOF] ++ le_bytes 8 sum ++ rest)) as Hoff0.
  { destruct Hoff as ([Hio Hw Hp Hch] & He & Hcm & Hlen). unfold file, file_body in Hcm, Hlen. rewrite <- !app_assoc in Hcm, Hlen. split; [|by split_and!]. split; [done..|]. apply Hrc. }
  unfold file, file_body in Hfuel. rewrite !length_app in Hfuel. cbn [length] in Hfuel.
  destruct (rioRead_ok r0 9 magic _ eq_refl Hoff0) as (r1 & E1 & Hr1). unfold rdbLoadRioWithLoadingCtx, mbind at 1, rdbm_bind at 1, set_progress. fold r0. unfold mbind at 1, rdbm_bind at 1. unfold rdb_read at 1. rewrite E1. cbv beta iota.
  replace (bool_decide (take 5 magic = chars "REDIS")) with true by done. cbn [negb]. unfold mbind at 1, rdbm_bind at 1, calc at 1. replace (atoi (drop 5 magic)) with (Ok RDB_VERSION : res Z) by done.
  rewrite bind_Ok. change ((RDB_VERSION <? 1) || (RDB_VERSION >? RDB_VERSION)) with false. cbv iota.
  destruct (Hst fuel r1 ([RDB_OPCODE_EOF] ++ le_bytes 8 sum ++ rest)) as (fuel' & r2 & E2 & Hf & Hr2); [by eapply consumed_offers|lia|]. unfold mbind at 1, rdbm_bind at 1. rewrite E2.
  destruct fuel' as [|fuel']; [cbn [length RDB_OPCODE_EOF] in Hf; lia|].
  destruct (loads_type RDB_OPCODE_EOF ltac:(done) r2 (le_bytes 8 sum ++ rest)) as (r3 & E3 & Hr3); [by eapply consumed_offers|].
  assert (load_turn cfg re e le rdbflags fuel' RDB_VERSION s' a' r2 = Ok (r3, Break s')) as E3' by (unfold load_turn, mbind, rdbm_bind; by rewrite E3).
  cbn [load_loop]. unfold mbind at 1, rdbm_bind at 1. rewrite E3'. cbv beta iota.
  assert (consumed r0 (file_body items) (le_bytes 8 sum ++ rest) r3) as Hall by (eapply consumed_app; [rewrite <- app_assoc; exact Hr1|]; by eapply consumed_app).
  destruct (loads_cksum sum s' r3 rest Hsum) as (r4 & E4 & Hr4); [by eapply consumed_offers|intros Hlc| ].
  { unfold sum. destruct (rdb_checksum se); [right|by left]. rewrite (passed_cksum _ _ _ (proj1 Hall)). cbn [r0 update_cksum cksum]. by rewrite Hlc, Hck. }
  exists r4, s'. split; [exact E4|]. split; [done|]. apply Hr4.
Qed.

End File.

(** * Theorems *)

(** C4: A snapshot of all databases, saved by one server and loaded by another one, whatever
    the byte order of their hosts and the devices they use.  Saving leaves the databases
    as they are, in any phase of rehashing, and succeeds unless the device fails.
    Loading the file into empty databases, with any fuel that covers its length, accepts
    it, reads exactly its bytes, and restores every key with its string and its expire
    time, the libraries and the replication state; only the keys whose time is over are
    dropped, when the server is a primary and the file is no AOF preamble. *)
Theorem rdb_save_load (h1 h2 : Host) (m1 m2 : Allocator) (s1 s2 : Stream) (l1 : @StreamLaws s1) (l2 : @StreamLaws s2)
    cfg1 cfg2 re1 re2 e1 e2 (se : @save_env s1) (le : @load_env s2) U flags rdbflags rsi dbs (st : load_state) (r : @rio s1) :
  env_ok e1 U -> info_ok (H0 := m1) cfg1 re1 se rsi -> Forall (db_ok (H0 := m1) cfg1 re1 e1 se U) dbs -> receiver_ok (H := m2) e2 e1 le rdbflags U se dbs st ->
  rio_ok r -> write_error r = false -> update_cksum r = false -> cksum r = 0 ->
  exists r' dbs' ok, rdbSaveRio (H := h1) (H0 := m1) cfg1 re1 e1 se 0 flags rsi dbs r = Ok (r', (dbs', ok)) /\ same_dbs e1 U dbs dbs' /\
    if (ok : bool) then
      exists bytes, stored (rio_io r') = stored (rio_io r) ++ bytes /\
        forall (x : @rio s2) rest fuel, offers x bytes rest -> cksum x = 0 -> (length bytes <= fuel)%nat ->
        exists x' st', rdbLoadRioWithLoadingCtx (H := h2) (H0 := m2) cfg2 re2 e2 le rdbflags fuel st x = Ok (x', (st', true)) /\
          restored e2 rdbflags U se rsi dbs st st' /\ coming (rio_io x') = rest
    else can_fail (StreamLaws := l1).
Proof.
  intros Hok Hi Hdbs Hrc Hr Hw Hu Hck. assert (zlen dbs < 2 ^ 64) as Hlen by (destruct (rc_dbnum _ _ _ _ _ _ _ _ Hrc); unfold zlen in *; lia).
  destruct (saves_rio (H := h1) (H0 := m1) cfg1 re1 e1 se U Hok flags rsi dbs Hi Hdbs Hlen) as (items & Hc & Hsave). destruct (Hsave r Hr Hw Hu Hck) as (r' & dbs' & ok & E & Hsame & Hres).
  exists r', dbs', ok. split; [exact E|]. split; [exact Hsame|]. destruct Hres as [(-> & _ & Hs)|[-> Hf]]; [|done]. eexists. split; [exact Hs|]. intros x rest fuel Hx Hxc Hfuel.
  destruct Hi as [Ht Hm Ho Hd (Hl & Hb & _) _ _ _]. by eapply (loads_file (H := h2) (H0 := m2)).
Qed.

(** * Examples *)

#[local] Existing Instance sample_allocator.

Definition no_others `{Stream} : other_types := OtherTypes _ (fun _ => 1) (fun _ _ => mret (-1)) (fun _ _ => mret (inl RDB_LOAD_ERR_OTHER)).

Definition sample_saver : @save_env (buffer_stream nowhere) :=
  SaveEnv _ true false true (fun _ => 0) (fun _ => 5) 1700000000 1000000 (replicate 40 97) 12345 [] [chars "#!lua name=l"] (8, 16) no_others.

Definition sample_loader : @load_env (buffer_stream nowhere) := LoadEnv _ true false 0 1700000001 (fun _ => None) (fun libs code _ => Some (libs ++ [code])) false 0 no_others.

Definition sample_state : load_state := LoadState [empty_db; empty_db] [] (Some (SaveInfo (-1) false [] (-1))) 0 0 0 0 [].

Lemma empty_shows e U : shows e U empty_db ∅ ∅.
Proof. exists ∅. split; [apply holds_wf, empty_db_wf|]. intros k. by rewrite lookup_empty. Qed.

Lemma sample_small s : Forall is_byte s -> zlen s <= 64 -> savable high_config saving s.
Proof. intros Hb Hl. split; [done|unfold MAX_STRING; lia|change max_request with (2 ^ 40); lia|done|change (string_addr high_config) with 65536; lia|intros i; done]. Qed.

Lemma sample_info rsi : (forall i, rsi = Some i -> repl_stream_db i = 0) -> info_ok high_config saving sample_saver rsi.
Proof.
  intros Hr. split; [done..|intros i Hi; rewrite (Hr i Hi); lia| | |constructor|exact sample_small].
  - split; [done|]. split; by repeat constructor.
  - constructor; [|constructor]. apply sample_small; [by repeat constructor|done].
Qed.

Lemma sample_entries : entries (db_dict sample_db) = [Entry (chars "a") (RInt 1 5)].
Proof. vm_compute. reflexivity. Qed.

Lemma sample_db_ok : db_ok high_config saving (sample_env 1000) sample_saver sample_keys sample_db.
Proof.
  pose proof sample_db_holds as (Hw & _ & Ht). split; [exact Hw|vm_compute; reflexivity|]. rewrite Ht, sample_entries. constructor; [|constructor]. split; [by vm_compute|].
  split; cbn [de_key de_val]; [apply sample_small; [by repeat constructor|done]|split; [lia|zconst; lia]|reflexivity|apply sample_small; [by repeat constructor|done]| |discriminate].
  intros w. rewrite lookup_singleton_eq. intros [= <-]. zconst. lia.
Qed.

Lemma sample_receiver : receiver_ok (sample_env 1500) (sample_env 1000) sample_loader 0 sample_keys sample_saver [sample_db] sample_state.
Proof.
  assert (forall s, Forall is_byte s -> zlen s <= 40 -> loadable s) as Hload by (intros s; apply loadable_small; vm_compute; discriminate).
  split; [apply sample_env_ok|done|vm_compute; discriminate|done|done|done| | |split; [cbn; lia|done]|].
  - intros pre c Hc. apply list_elem_of_singleton in Hc as ->. split; [done|]. apply Hload; [by repeat constructor|done].
  - constructor; [|constructor]. pose proof sample_db_holds as (Hw & _ & Ht). split; [exact Hw|]. rewrite Ht, sample_entries. constructor; [|constructor]. split; [by vm_compute|..]; cbn [de_key de_val].
    + apply Hload; [by repeat constructor|done].
    + apply Hload; [by repeat constructor|done].
    + intros w. rewrite lookup_singleton_eq. intros [= <-]. zconst. lia.
  - intros db Hdb. repeat (apply elem_of_cons in Hdb as [->|Hdb]; [apply empty_shows|]). by apply elem_of_nil in Hdb.
Qed.

Lemma rdb_save_load_witness :
  exists r' dbs' bytes, @rdbSaveRio little_host _ _ high_config saving (sample_env 1000) sample_saver 0 RDBFLAGS_NONE (Some (SaveInfo 0 true [] 7)) [sample_db] (rioInitWithBuffer nowhere []) = Ok (r', (dbs', true)) /\
    stored (StreamLaws := buffer_laws nowhere) (rio_io r') = bytes /\
    forall x fuel, offers (H1 := buffer_laws nowhere) x bytes [] -> cksum x = 0 -> (length bytes <= fuel)%nat ->
    exists x' st', @rdbLoadRioWithLoadingCtx big_host _ _ high_config restoring (sample_env 1500) sample_loader 0 fuel sample_state x = Ok (x', (st', true)) /\
      l_libraries st' = [chars "#!lua name=l"] /\ l_rsi st' = Some (SaveInfo 0 true (replicate 40 97) 12345).
Proof.
  destruct (rdb_save_load little_host big_host _ _ (buffer_stream nowhere) (buffer_stream nowhere) (buffer_laws nowhere) (buffer_laws nowhere) high_config high_config saving restoring (sample_env 1000) (sample_env 1500)
    sample_saver sample_loader sample_keys RDBFLAGS_NONE 0 (Some (SaveInfo 0 true [] 7)) [sample_db] sample_state (rioInitWithBuffer nowhere [])) as (r' & dbs' & ok & E & _ & Hres).
  - apply sample_env_ok.
  - apply sample_info. intros i [= <-]. done.
  - constructor; [exact sample_db_ok|constructor].
  - exact sample_receiver.
  - by apply init_ok.
  - done.
  - done.
  - done.
  - destruct ok; [|destruct Hres]. destruct Hres as (bytes & Hs & Hload). exists r', dbs', bytes. split; [exact E|]. split; [exact Hs|]. intros x fuel Hx Hck Hf.
    destruct (Hload x [] fuel Hx Hck Hf) as (x' & st' & El & [_ _ Hl Hr] & _). exists x', st'. split; [exact El|]. split; [exact Hl|exact Hr].
Defined.
