(* ===== verification/RdbPrefix.v ===== *)
(** Incomplete snapshots ([rdb.c]): what [RdbLoad] does when the file ends early.

    A reader of a stream sees nothing but the bytes it reads: on a stream that ends
    earlier it does the same, until a read fails, and then the stream keeps its error.
    A file that has been accepted ends with a read that succeeded, so no proper prefix
    of an accepted file is accepted. *)
From S2P Require Import Prelude Endian Util Sds SdsText Dict DictScan Object StringCommands Lzf Crc Rio Rdb RdbObject Db RdbSave RdbLoad.
From stdpp Require Import gmap list strings.

Open Scope Z_scope.

(** * Readers *)

Section Readers.
Context `{Host} `{StreamLaws}.

(** Two streams in the same state, of which the second has [q] more to come. *)
Record ahead (q : list Z) (x y : rio) : Prop := {
  ah_left : readable x;
  ah_right : readable y;
  ah_error : read_error x = false /\ read_error y = false;
  ah_coming : coming (rio_io y) = coming (rio_io x) ++ q;
  ah_update : update_cksum x = update_cksum y;
  ah_cksum : cksum x = cksum y;
  ah_chunk : max_processing_chunk x = max_processing_chunk y;
}.

(** The error of a stream stays. *)
Definition sticky {A} (f : rdbm A) : Prop := forall x x' a, read_error x = true -> f x = Ok (x', a) -> read_error x' = true.

(** On the shorter stream the function does what it does on the longer one, and what it
    answers satisfies [P], or it leaves the stream with an error. *)
Definition in_step {A} (P : A -> Prop) (f : rdbm A) : Prop := forall q x y, ahead q x y ->
  (exists x' y' a, f x = Ok (x', a) /\ f y = Ok (y', a) /\ ahead q x' y' /\ P a) \/
  (forall x' a, f x = Ok (x', a) -> read_error x' = true).

Definition reader {A} (f : rdbm A) : Prop := sticky f /\ in_step (fun _ => True) f.

Lemma sticky_bind {A B} (m : rdbm A) (k : A -> rdbm B) : sticky m -> (forall a, sticky (k a)) -> sticky (x ← m; k x).
Proof.
  intros Hm Hk x x' b Hx. unfold mbind, rdbm_bind. destruct (m x) as [[x1 a]| | |] eqn:E; [|done..]. apply (Hk a). by apply (Hm x x1 a).
Qed.

Lemma in_step_bind {A B} P Q (m : rdbm A) (k : A -> rdbm B) :
  in_step P m -> (forall a, sticky (k a)) -> (forall a, P a -> in_step Q (k a)) -> in_step Q (x ← m; k x).
Proof.
  intros Hm Hs Hk q x y Hxy. unfold mbind, rdbm_bind. destruct (Hm q x y Hxy) as [(x1 & y1 & a & -> & -> & Hxy1 & Ha)|Hbad]; [by apply Hk|].
  right. intros x' b. destruct (m x) as [[x1 a]| | |] eqn:E; [|done..]. apply Hs. by apply (Hbad x1 a).
Qed.

Lemma in_step_weaken {A} (P Q : A -> Prop) f : in_step P f -> (forall a, P a -> Q a) -> in_step Q f.
Proof. intros Hf HPQ q x y Hxy. destruct (Hf q x y Hxy) as [(x' & y' & a & Ex & Ey & Hxy1 & Ha)|]; [left|by right]. exists x', y', a. split_and!; auto. Qed.

Lemma reader_of {A} P (f : rdbm A) : sticky f -> in_step P f -> reader f.
Proof. intros Hs Hf. split; [done|]. by eapply in_step_weaken. Qed.

Lemma reader_bind {A B} (m : rdbm A) (k : A -> rdbm B) : reader m -> (forall a, reader (k a)) -> reader (x ← m; k x).
Proof. intros [Hs Hm] Hk. split; [apply sticky_bind; [done|intros a; apply Hk]|]. eapply in_step_bind; [exact Hm|intros a; apply Hk|intros a _; apply Hk]. Qed.

Lemma sticky_ret {A} (a : A) : sticky (mret a).
Proof. intros x x' b Hx [= <- _]. done. Qed.

Lemma in_step_ret {A} (P : A -> Prop) a : P a -> in_step P (mret a).
Proof. intros Ha q x y Hxy. left. by exists x, y, a. Qed.

Lemma reader_ret {A} (a : A) : reader (mret a).
Proof. split; [apply sticky_ret|by apply in_step_ret]. Qed.

Lemma sticky_calc {A} (m : res A) : sticky (calc m).
Proof. intros x x' b Hx. unfold calc. destruct m; [|done..]. rewrite bind_Ok. by intros [= <- _]. Qed.

Lemma in_step_calc {A} (P : A -> Prop) (m : res A) : (forall a, m = Ok a -> P a) -> in_step P (calc m).
Proof. intros Hm q x y Hxy. unfold calc. destruct m as [a| | |]; [|by right..]. left. exists x, y, a. rewrite !bind_Ok. split_and!; auto. Qed.

Lemma reader_calc {A} (m : res A) : reader (calc m).
Proof. split; [apply sticky_calc|by apply in_step_calc]. Qed.

Lemma in_step_known {A B} Q (m : res A) v (k : A -> rdbm B) : m = Ok v -> in_step Q (k v) -> in_step Q (x ← calc m; k x).
Proof. by intros ->. Qed.

Lemma sticky_read n : sticky (rdb_read n).
Proof. intros x x' a Hx. unfold rdb_read, rioRead. rewrite Hx. by intros [= <- _]. Qed.

Lemma in_step_read n : 0 <= n -> in_step (fun b => exists bs, b = Some bs /\ zlen bs = n /\ Forall is_byte bs) (rdb_read n).
Proof.
  intros Hn q x y [[Hx Hlx] [Hy Hly] [Ex Ey] Hc Hu Hk Hm]. unfold rdb_read. destruct (Z.lt_ge_cases (zlen (coming (rio_io x))) n) as [Hlt|Hge].
  - right. intros x' a. unfold rioRead. rewrite Ex. destruct (read_loop_short (S (Z.to_nat n)) x n []) as (r' & -> & _ & He); [done..|lia|]. by intros [= <- _].
  - destruct (cut_at (coming (rio_io x)) n) as (b & rest & Hb & <- & _); [lia|]. left.
    assert (offers x b rest) as Ox by (split_and!; [done..|by rewrite <- Hb]). assert (offers y b (rest ++ q)) as Oy by (split_and!; [done..| |]; rewrite app_assoc, <- Hb, <- Hc; done).
    destruct (rioRead_ok x _ b rest eq_refl Ox) as (x' & E1 & Px & Ex' & _ & Cx & Lx). destruct (rioRead_ok y _ b _ eq_refl Oy) as (y' & E2 & Py & Ey' & _ & Cy & Ly).
    exists x', y', (Some b). split_and!; [done..| |exists b; split_and!; [done..|by eapply offers_bytes]].
    split; [split; [apply Px|by rewrite Cx]|split; [apply Py|by rewrite Cy]|done|by rewrite Cx, Cy|..].
    + by rewrite (passed_update _ _ _ Px), (passed_update _ _ _ Py).
    + by rewrite (passed_cksum _ _ _ Px), (passed_cksum _ _ _ Py), Hu, Hk.
    + by rewrite (passed_chunk _ _ _ Px), (passed_chunk _ _ _ Py).
Qed.

Lemma in_step_read_bind {B} Q n (k : option (list Z) -> rdbm B) : 0 <= n -> (forall b, sticky (k b)) ->
  (forall bs, zlen bs = n -> Forall is_byte bs -> in_step Q (k (Some bs))) -> in_step Q (b ← rdb_read n; k b).
Proof. intros Hn Hs Hk. eapply in_step_bind; [by apply in_step_read|done|]. intros b (bs & -> & Hl & Hb). by apply Hk. Qed.

Lemma reader_read n : 0 <= n -> reader (rdb_read n).
Proof. intros Hn. eapply reader_of; [apply sticky_read|by apply in_step_read]. Qed.

Lemma reader_get_error : reader get_read_error.
Proof.
  split; [intros x x' a Hx [= <- _]; done|]. intros q x y Hxy. left. exists x, y, false. pose proof (ah_error _ _ _ Hxy) as [Ex Ey]. unfold get_read_error, rioGetReadError. by rewrite Ex, Ey.
Qed.

Lemma reader_get_cksum : reader get_cksum.
Proof. split; [intros x x' a Hx [= <- _]; done|]. intros q x y Hxy. left. exists x, y, (cksum x). unfold get_cksum. by rewrite <- (ah_cksum _ _ _ Hxy). Qed.

Lemma reader_set_progress u chunk : 0 <= chunk -> reader (set_progress u chunk).
Proof.
  intros Hc. split; [intros x x' a Hx [= <- _]; done|]. intros q x y [[[] ?] [[] ?] ? ? ? ? ?]. left. eexists _, _, tt. split_and!; [done..| |done]. split; [split; [by split|done]|split; [by split|done]|done..].
Qed.

End Readers.

Lemma reader_sticky `{StreamLaws} {A} (f : rdbm A) : reader f -> sticky f.
Proof. by intros []. Qed.

Create HintDb readers.
#[export] Hint Resolve reader_ret reader_calc reader_get_error reader_get_cksum : readers.
#[export] Hint Extern 1 (reader (rdb_read _)) => apply reader_read; first [done | assumption] : readers.

(** A reader is composed of readers: split sequences and cases, and use what is known
    of the parts. *)
Ltac readers :=
  repeat first
    [ progress cbv zeta
    | solve [auto 2 with readers nocore]
    | apply reader_bind; [|intro]
    | case_match ].

Ltac stickies :=
  repeat first
    [ progress cbv zeta
    | apply sticky_read
    | solve [apply reader_sticky; auto 2 with readers nocore]
    | apply sticky_bind; [|intro]
    | case_match ].

(** * The loader is a reader *)

Section Values.
Context `{Host} `{Allocator} `{StreamLaws} (cfg : config) (re : rdb_env).

Lemma reader_report c : reader (rdbReportError re c).
Proof. unfold rdbReportError. readers. Qed.

Lemma reader_corrupt : reader (rdbReportCorruptRDB re).
Proof. apply reader_report. Qed.

Lemma reader_type : reader rdbLoadType.
Proof. unfold rdbLoadType. readers. Qed.

Lemma reader_time : reader rdbLoadTime.
Proof. unfold rdbLoadTime. readers. Qed.

Lemma reader_millisecond_time v : reader (rdbLoadMillisecondTime v).
Proof. unfold rdbLoadMillisecondTime. readers. Qed.

#[local] Hint Resolve reader_report reader_corrupt reader_type : readers.

Lemma reader_len_by_ref : reader (rdbLoadLenByRef re).
Proof. unfold rdbLoadLenByRef. readers. Qed.

(** A length is no negative number. *)
Lemma in_step_len_by_ref : in_step (fun l => forall e len, l = Some (e, len) -> 0 <= len) (rdbLoadLenByRef re).
Proof.
  assert (forall e len, 0 <= len -> in_step (fun l : option (bool * Z) => forall e len, l = Some (e, len) -> 0 <= len) (mret (Some (e, len)))) as Hret by (intros e len Hl; apply in_step_ret; by intros ?? [= <- <-]).
  unfold rdbLoadLenByRef. apply in_step_read_bind; [done|intros b; apply reader_sticky; readers|]. intros bs Hl Hb. destruct bs as [|b0 [|]]; [done| |zlia]. apply Forall_cons in Hb as [Hb0 _].
  eapply in_step_known; [done|]. cbv beta zeta. rewrite low_bits. assert (0 <= b0 mod 64) by zdiv. destruct (_ =? RDB_ENCVAL); [by apply Hret|]. destruct (_ =? RDB_6BITLEN); [by apply Hret|]. destruct (_ =? RDB_14BITLEN).
  { apply in_step_read_bind; [done|intros b; apply reader_sticky; readers|]. intros bs Hl2 Hb2. destruct bs as [|b1 [|]]; [done| |zlia]. apply Forall_cons in Hb2 as [Hb1 _].
    eapply in_step_known; [done|]. apply Hret. apply Z.lor_nonneg. split; [apply Z.shiftl_nonneg; lia|apply Hb1]. }
  destruct (b0 =? RDB_32BITLEN).
  { apply in_step_read_bind; [done|intros b; apply reader_sticky; readers|]. intros bs Hl2 Hb2. destruct (be_val 4 bs) as (v & Hv & ->); [unfold zlen in Hl2; lia|done|]. eapply in_step_known; [by apply ntohl_ok|]. apply Hret. lia. }
  destruct (b0 =? RDB_64BITLEN).
  { apply in_step_read_bind; [done|intros b; apply reader_sticky; readers|]. intros bs Hl2 Hb2. destruct (be_val 8 bs) as (v & Hv & ->); [unfold zlen in Hl2; lia|done|]. eapply in_step_known; [by apply ntohu64_ok|]. apply Hret. lia. }
  eapply in_step_bind; [apply reader_corrupt|intros a; apply sticky_ret|]. intros _ _. by apply in_step_ret.
Qed.

Lemma in_step_len : in_step (fun l => 0 <= l.2) (rdbLoadLen re).
Proof.
  eapply in_step_bind; [apply in_step_len_by_ref|intros a; apply sticky_ret|]. intros [[e len]|] Hl; apply in_step_ret; [by apply (Hl e)|done].
Qed.

Lemma reader_len : reader (rdbLoadLen re).
Proof. unfold rdbLoadLen. apply reader_bind; [apply reader_len_by_ref|readers]. Qed.

#[local] Hint Resolve reader_len : readers.

Lemma reader_integer enc : reader (load_integer re enc).
Proof. unfold load_integer. readers. Qed.

#[local] Hint Resolve reader_integer : readers.

Lemma reader_integer_object enc flags : reader (rdbLoadIntegerObject cfg re enc flags).
Proof. unfold rdbLoadIntegerObject. readers. Qed.

#[local] Hint Resolve reader_integer_object : readers.

Lemma reader_len_bind {B} (k : bool * Z -> rdbm B) : (forall l, sticky (k l)) -> (forall e len, 0 <= len -> reader (k (e, len))) -> reader (l ← rdbLoadLen re; k l).
Proof.
  intros Hs Hk. split; [apply sticky_bind; [apply reader_len|done]|]. eapply in_step_bind; [apply in_step_len|done|]. intros [e len] Hl. by apply Hk.
Qed.

Lemma reader_buffer plain len : reader (try_buffer plain len).
Proof. unfold try_buffer. readers. Qed.

#[local] Hint Resolve reader_buffer : readers.

Lemma reader_lzf flags : reader (rdbLoadLzfStringObject re flags).
Proof. unfold rdbLoadLzfStringObject. cbv zeta. apply reader_len_bind; [intros l; stickies|]. intros e clen Hc. cbn [snd]. readers. Qed.

#[local] Hint Resolve reader_lzf : readers.

Lemma reader_contents len : 0 <= len -> reader (read_contents len).
Proof. intros Hl. unfold read_contents. readers. Qed.

Lemma reader_string flags : reader (rdbGenericLoadStringObject cfg re flags).
Proof.
  unfold rdbGenericLoadStringObject. cbv zeta. apply reader_len_bind; [intros l; unfold read_contents; stickies|]. intros e len Hl. pose proof (reader_contents len Hl). readers.
Qed.

Lemma reader_encoded : reader (rdbLoadEncodedStringObject cfg re).
Proof. apply reader_string. Qed.

Lemma reader_object ot type key : (forall t k, reader (load_other ot t k)) -> reader (rdbLoadObject cfg re ot type key).
Proof. intros Hot. pose proof reader_encoded. unfold rdbLoadObject. readers. Qed.

End Values.

#[export] Hint Resolve reader_report reader_corrupt reader_type reader_time reader_millisecond_time reader_len_by_ref reader_len reader_string reader_object : readers.

(** The readers of the types and modules the server knows. *)
Record readers_only `{StreamLaws} (le : load_env) : Prop := {
  ro_others t k : reader (load_other (load_others le) t k);
  ro_modules id mt load v w : moduleTypeLookupModuleByID le id = Some mt -> aux_load mt = Some load -> reader (load v w);
}.

Section Loader.
Context `{Host} `{Allocator} `{StreamLaws} (cfg : config) (re : rdb_env) (e : env) (le : load_env) (rdbflags : Z).
Context (Hle : readers_only le).

Lemma reader_read_error_report : reader (rdbReportReadError re).
Proof. apply reader_report. Qed.

Lemma reader_load_string : reader (rdbLoadStringObject cfg re).
Proof. apply reader_string. Qed.

Lemma reader_sds : reader (load_sds cfg re).
Proof. unfold load_sds. readers. Qed.

#[local] Hint Resolve reader_read_error_report reader_load_string reader_sds : readers.

Lemma reader_aux s a : reader (load_aux cfg re le s a).
Proof. unfold load_aux. readers. Qed.

Lemma reader_check_module fuel : reader (rdbLoadCheckModuleValue cfg re fuel).
Proof. induction fuel as [|fuel IH]; cbn [rdbLoadCheckModuleValue]; readers. Qed.

#[local] Hint Resolve reader_check_module : readers.

Lemma reader_module_aux fuel s a : reader (load_module_aux cfg re le fuel s a).
Proof. unfold load_module_aux. readers; by eapply ro_modules. Qed.

Lemma reader_library : reader (old_library cfg re).
Proof. unfold old_library. readers. Qed.

#[local] Hint Resolve reader_library : readers.

Lemma reader_function type s a : reader (load_function cfg re le rdbflags type s a).
Proof. unfold load_function, rdbFunctionLoad. readers. Qed.

Lemma reader_key type s a : reader (load_key cfg re e le rdbflags type s a).
Proof. pose proof (fun t k => reader_object cfg re _ t k (ro_others _ Hle)). unfold load_key. readers. Qed.

#[local] Hint Resolve reader_aux reader_module_aux reader_function reader_key : readers.

Lemma reader_turn fuel rdbver s a : reader (load_turn cfg re e le rdbflags fuel rdbver s a).
Proof. unfold load_turn, load_expiretime, load_expiretime_ms, load_freq, load_idle, load_selectdb, load_resizedb. readers. Qed.

Lemma reader_loop fuel rdbver s a : reader (load_loop cfg re e le rdbflags fuel rdbver s a).
Proof. revert s a. induction fuel as [|fuel IH]; intros s a; cbn [load_loop]; [readers|]. apply reader_bind; [apply reader_turn|]. intros t. readers. Qed.

#[local] Hint Resolve reader_loop : readers.

Lemma reader_load fuel s : 0 <= loading_process_events_interval_bytes le -> reader (rdbLoadRioWithLoadingCtx cfg re e le rdbflags fuel s).
Proof.
  intros Hc. unfold rdbLoadRioWithLoadingCtx, check_cksum, eoferr. apply reader_bind; [by apply reader_set_progress|intros _]. readers.
Qed.

End Loader.

(** * Acceptance *)

Section Accept.
Context `{Host} `{Allocator} `{Stream} (cfg : config) (re : rdb_env) (e : env) (le : load_env) (rdbflags : Z).

Lemma rdbm_bind_inv {A B} (m : rdbm A) (k : A -> rdbm B) x z : (a ← m; k a) x = Ok z -> exists x1 a, m x = Ok (x1, a) /\ k a x1 = Ok z.
Proof. unfold mbind, rdbm_bind. destruct (m x) as [[x1 a]| | |] eqn:E; [|done..]. intros Hk. by exists x1, a. Qed.

Lemma update_read_error r b r' : update r b = Ok r' -> read_error r' = read_error r.
Proof.
  unfold update, rioGenericUpdateChecksum. destruct (update_cksum r); [|by intros [= <-]]. destruct (crc64 _ _ _) as [c| | |]; [|done..]. rewrite bind_Ok. by intros [= <-].
Qed.

Lemma read_loop_some fuel r len acc r' b : read_loop fuel r len acc = Ok (r', Some b) -> read_error r' = read_error r.
Proof.
  revert r len acc. induction fuel as [|fuel IH]; intros r len acc; [done|]. cbn [read_loop]. destruct (len =? 0); [by intros [= <- _]|]. cbv zeta. intros (x & _ & E)%bind_Ok_inv.
  destruct x as [[d part]|]; [|done]. apply bind_Ok_inv in E as (r1 & Eu & E). apply update_read_error in Eu. apply IH in E. rewrite E. exact Eu.
Qed.

Lemma calc_state {A} (m : res A) x x' a : calc m x = Ok (x', a) -> x' = x.
Proof. unfold calc. by intros (v & _ & [= <- _])%bind_Ok_inv. Qed.

(** After a read that succeeded there is no error. *)
Lemma read_some n x x' b : rdb_read n x = Ok (x', Some b) -> read_error x' = false.
Proof. unfold rdb_read, rioRead. destruct (read_error x) eqn:Ex; [done|]. intros ->%read_loop_some. done. Qed.

(** Whatever it answers satisfies [P]. *)
Definition answers {A} (P : A -> Prop) (f : rdbm A) : Prop := forall x x' a, f x = Ok (x', a) -> P a.

Lemma answers_bind {A B} P (m : rdbm A) (k : A -> rdbm B) : (forall a, answers P (k a)) -> answers P (x ← m; k x).
Proof. intros Hk x x' b (x1 & a & _ & E)%rdbm_bind_inv. by eapply Hk. Qed.

Lemma answers_ret {A} (P : A -> Prop) a : P a -> answers P (mret a).
Proof. by intros Ha x x' b [= _ <-]. Qed.

Lemma answers_panic {A} (P : A -> Prop) : answers P (calc Panic).
Proof. by intros x x' a. Qed.

Definition no_break (t : turn) : Prop := match t with Break _ => False | _ => True end.

Ltac no_breaks := repeat first [progress cbv zeta | apply answers_panic | apply answers_bind; intro | case_match | apply answers_ret].

Lemma turn_break fuel rdbver s a s' x x' : load_turn cfg re e le rdbflags fuel rdbver s a x = Ok (x', Break s') -> read_error x' = false.
Proof.
  unfold load_turn. intros (x1 & type & Et & E)%rdbm_bind_inv. destruct (Z.eqb_spec type RDB_OPCODE_EOF) as [->|Hne].
  - assert (x' = x1) as -> by (by injection E). apply rdbm_bind_inv in Et as (x2 & b & Er & Eb). destruct b as [b|]; [|done].
    unfold calc in Eb. apply bind_Ok_inv in Eb as (v & _ & Eb). injection Eb as -> _. by eapply read_some.
  - exfalso. match type of E with ?f x1 = _ => assert (answers no_break f) as Ha; [|exact (Ha _ _ _ E)] end.
    unfold load_expiretime, load_expiretime_ms, load_freq, load_idle, load_selectdb, load_resizedb, load_aux, load_module_aux, load_function, load_key. no_breaks; done.
Qed.

Lemma loop_accepts fuel rdbver s a s' x x' : load_loop cfg re e le rdbflags fuel rdbver s a x = Ok (x', (s', true)) -> read_error x' = false.
Proof.
  revert s a x. induction fuel as [|fuel IH]; intros s a x; [done|]. cbn [load_loop]. intros (x1 & t & Et & E)%rdbm_bind_inv. destruct t as [s1 a1|s1|s1]; [by apply IH in E| |done].
  injection E as <- _. by eapply turn_break.
Qed.

Lemma load_accepts fuel s s' x x' : rdbLoadRioWithLoadingCtx cfg re e le rdbflags fuel s x = Ok (x', (s', true)) -> read_error x' = false.
Proof.
  unfold rdbLoadRioWithLoadingCtx. intros (x1 & _ & _ & E)%rdbm_bind_inv. apply rdbm_bind_inv in E as (x2 & buf & _ & E). destruct buf as [buf|]; [|by apply rdbm_bind_inv in E as (? & ? & _ & [=])].
  destruct (negb _); [done|]. apply rdbm_bind_inv in E as (x3 & rdbver & _ & E). destruct (_ || _); [done|]. apply rdbm_bind_inv in E as (x4 & [s1 ok] & El & E).
  destruct ok; [|by apply rdbm_bind_inv in E as (? & ? & _ & [=])]. unfold check_cksum in E. destruct (rdbver >=? 5); [|injection E as <- _; by eapply loop_accepts].
  apply rdbm_bind_inv in E as (x5 & expected & _ & E). apply rdbm_bind_inv in E as (x6 & ck & Er & E).
  destruct ck as [ck|]; [|by apply rdbm_bind_inv in E as (? & ? & _ & [=])]. apply read_some in Er. destruct (_ && _); [|by injection E as <- _].
  apply rdbm_bind_inv in E as (x7 & c & ->%calc_state & E). destruct (_ =? 0); [by injection E as <- _|]. destruct (negb _); [by apply rdbm_bind_inv in E as (? & ? & _ & [=])|by injection E as <- _].
Qed.

(** ** Fuel *)

(** [g] does whatever [f] does when that ends. *)
Definition extends {A} (f g : rdbm A) : Prop := forall x z, f x = Ok z -> g x = Ok z.

Lemma extends_refl {A} (f : rdbm A) : extends f f.
Proof. by intros x z. Qed.

Lemma extends_bind {A B} (m m' : rdbm A) (k k' : A -> rdbm B) : extends m m' -> (forall a, extends (k a) (k' a)) -> extends (x ← m; k x) (x ← m'; k' x).
Proof. intros Hm Hk x z (x1 & a & E & Ek)%rdbm_bind_inv. unfold mbind, rdbm_bind. rewrite (Hm _ _ E). by apply Hk. Qed.

Lemma extends_check fuel more : extends (rdbLoadCheckModuleValue cfg re fuel) (rdbLoadCheckModuleValue cfg re (fuel + more)).
Proof.
  induction fuel as [|fuel IH]; [by intros x z|]. cbn [Nat.add rdbLoadCheckModuleValue]. apply extends_bind; [apply extends_refl|]. intros o. cbv zeta. destruct (_ =? _); [apply extends_refl|].
  apply extends_bind; [apply extends_refl|]. by intros _.
Qed.

Lemma extends_turn fuel more rdbver s a : extends (load_turn cfg re e le rdbflags fuel rdbver s a) (load_turn cfg re e le rdbflags (fuel + more) rdbver s a).
Proof.
  unfold load_turn. apply extends_bind; [apply extends_refl|]. intros type. repeat (case_match; [apply extends_refl|]). case_match; [|apply extends_refl].
  unfold load_module_aux. do 4 (apply extends_bind; [apply extends_refl|intro]). do 2 (case_match; [apply extends_refl|]). case_match; [|apply extends_refl]. apply extends_bind; [apply extends_check|intros _; apply extends_refl].
Qed.

Lemma extends_loop fuel more rdbver s a : extends (load_loop cfg re e le rdbflags fuel rdbver s a) (load_loop cfg re e le rdbflags (fuel + more) rdbver s a).
Proof.
  revert s a. induction fuel as [|fuel IH]; intros s a; [by intros x z|]. cbn [Nat.add load_loop]. apply extends_bind; [apply extends_turn|]. intros [s1 a1|s1|s1]; [apply IH|apply extends_refl..].
Qed.

(** More fuel does not change the outcome. *)
Lemma extends_load fuel more s : extends (rdbLoadRioWithLoadingCtx cfg re e le rdbflags fuel s) (rdbLoadRioWithLoadingCtx cfg re e le rdbflags (fuel + more) s).
Proof.
  unfold rdbLoadRioWithLoadingCtx. do 2 (apply extends_bind; [apply extends_refl|intro]). case_match; [|apply extends_refl]. case_match; [apply extends_refl|].
  apply extends_bind; [apply extends_refl|intro]. case_match; [apply extends_refl|]. apply extends_bind; [apply extends_loop|]. intros ?. apply extends_refl.
Qed.

End Accept.

(** * Theorems *)

(** Loading, after the stream has been set up. *)
Lemma load_body `{Host} `{Allocator} `{StreamLaws} cfg re e le rdbflags fuel s : readers_only le ->
  exists body, reader body /\ forall x, rdbLoadRioWithLoadingCtx cfg re e le rdbflags fuel s x =
    body (Rio _ (rio_io x) (load_checksum le) (cksum x) (read_error x) (write_error x) (processed_bytes x) (loading_process_events_interval_bytes le)).
Proof.
  intros Hle. unfold rdbLoadRioWithLoadingCtx. match goal with |- context [set_progress ?u ?c ≫= fun _ => ?b] => exists b end. split; [|done].
  pose proof (fun n => reader_loop cfg re e le rdbflags Hle n). pose proof (reader_read_error_report re). unfold check_cksum, eoferr. readers.
Qed.

(** C8: A file that ends early is not loaded.  When a file is accepted and read to its end,
    then the loader accepts no proper prefix of it, from any device of the same kind and
    with any fuel.  The readers of modules and of the types that are no strings may be
    anything that only reads from the stream. *)
Theorem truncated_refused `{Host} `{Allocator} `{StreamLaws} cfg re e le rdbflags fuel fuel' s p q (x y : rio) y' s' :
  readers_only le -> 0 <= loading_process_events_interval_bytes le ->
  offers y (p ++ q) [] -> rdbLoadRioWithLoadingCtx cfg re e le rdbflags fuel s y = Ok (y', (s', true)) -> coming (rio_io y') = [] ->
  q <> [] -> offers x p [] -> cksum x = cksum y ->
  forall x' s1, rdbLoadRioWithLoadingCtx cfg re e le rdbflags fuel' s x <> Ok (x', (s1, true)).
Proof.
  intros Hle Hi (Hy & Ey & Cy & Ly) Ly' Hend Hq (Hx & Ex & Cx & Lx) Hck x' s1 Lx'.
  pose proof (load_accepts cfg re e le rdbflags fuel' s s1 x x' Lx') as Hclean.
  apply (extends_load cfg re e le rdbflags fuel fuel') in Ly'. apply (extends_load cfg re e le rdbflags fuel' fuel) in Lx'. rewrite Nat.add_comm in Lx'.
  destruct (load_body cfg re e le rdbflags (fuel + fuel') s Hle) as (body & [_ Hb] & Eb). rewrite Eb in Lx', Ly'.
  rewrite app_nil_r in *. destruct Hx as [Hx1 Hx2 Hx3 _], Hy as [Hy1 Hy2 Hy3 _].
  match type of Lx' with body ?x0 = _ => match type of Ly' with body ?y0 = _ => assert (ahead q x0 y0) as Ha end end.
  { split; cbn; [split; cbn; [by split|by rewrite Cx]|split; cbn; [by split|by rewrite Cy]|done|by rewrite Cx, Cy|done..]. }
  destruct (Hb q _ _ Ha) as [(x2 & y2 & a & E1 & E2 & Ha' & _)|Hbad].
  - rewrite E2 in Ly'. injection Ly' as <- _. pose proof (ah_coming _ _ _ Ha') as Hc. rewrite Hend in Hc. by destruct (app_eq_nil _ _ (eq_sym Hc)).
  - apply Hbad in Lx'. congruence.
Qed.

(** Checking the value of a module does not end on a stream with an error. *)
Theorem check_module_endless `{Host} `{Allocator} `{Stream} cfg re fuel x : read_error x = true -> rdbLoadCheckModuleValue cfg re fuel x = OutOfFuel.
Proof.
  intros Hx. induction fuel as [|fuel IH]; [done|]. cbn [rdbLoadCheckModuleValue]. unfold rdbLoadLen, rdbLoadLenByRef, rdb_read, rioRead, mbind, rdbm_bind. rewrite Hx. cbn. exact IH.
Qed.

(** * Examples *)

#[local] Existing Instance sample_allocator.

(** A server that computes no checksums, and a snapshot of empty databases. *)
Definition plain_loader : @load_env (buffer_stream nowhere) := LoadEnv _ false false 0 1700000001 (fun _ => None) (fun libs code _ => Some (libs ++ [code])) false 0 no_others.

Definition sample_file : list Z := magic ++ [RDB_OPCODE_EOF] ++ replicate 8 0.

Lemma sample_readers : readers_only plain_loader.
Proof. split; [intros t k; apply reader_ret|done]. Qed.

Lemma sample_offers s : Forall is_byte s -> zlen s < 2 ^ 64 -> offers (H1 := buffer_laws nowhere) (rioInitWithBuffer nowhere s) s [].
Proof. intros Hb Hl. split; [by apply init_ok|]. rewrite app_nil_r. by split_and!. Qed.

Definition sample_load (fuel : nat) (file : list Z) : res (rio * (load_state * bool)) :=
  @rdbLoadRioWithLoadingCtx little_host _ _ high_config restoring (sample_env 1500) plain_loader 0 fuel sample_state (rioInitWithBuffer nowhere file).

Lemma sample_accepted : exists y' s', sample_load 20 sample_file = Ok (y', (s', true)) /\ coming (StreamLaws := buffer_laws nowhere) (rio_io y') = [].
Proof.
  assert (match sample_load 20 sample_file with Ok (y', (_, ok)) => (ok, drop (Z.to_nat (rio_io y').2) (rio_io y').1) = (true, []) | _ => False end) as Ha by (vm_compute; reflexivity).
  revert Ha. generalize (sample_load 20 sample_file). intros [[y' [s' ok]]| | |] Ha; [|destruct Ha..]. injection Ha as -> Hend. by exists y', s'.
Qed.

Lemma truncated_refused_witness :
  (exists y' s', sample_load 20 sample_file = Ok (y', (s', true))) /\ ~ exists x' s1, sample_load 30 (take 12 sample_file) = Ok (x', (s1, true)).
Proof.
  destruct sample_accepted as (y' & s' & E & Hend). split; [by exists y', s'|]. intros (x' & s1 & Ex). revert Ex.
  apply (truncated_refused (H2 := buffer_laws nowhere) high_config restoring (sample_env 1500) plain_loader 0 20 30 sample_state (take 12 sample_file) (drop 12 sample_file) _ (rioInitWithBuffer nowhere sample_file) y' s').
  - exact sample_readers.
  - vm_compute. discriminate.
  - rewrite take_drop. apply sample_offers; [by repeat constructor|done].
  - exact E.
  - exact Hend.
  - discriminate.
  - apply sample_offers; [by repeat constructor|done].
  - reflexivity.
Defined.
