(* ===== verification/KeyCommands.v ===== *)
(** The commands on keys of [db.c] and [expire.c]: DEL and UNLINK, EXISTS, TOUCH,
    TYPE, RENAME and RENAMENX; EXPIRE, PEXPIRE, EXPIREAT and PEXPIREAT with their
    options, TTL, PTTL, EXPIRETIME and PEXPIRETIME, PERSIST.

    The handlers are written on the interface [Keyspace] of [Object]; the theorems
    give their replies and effects for keys and expire times as the interface shows
    them. *)
From S2P Require Import Prelude Endian Util Glob Sds Object StringCommands StringRanges StringSafety.
From stdpp Require Import gmap list strings.

Open Scope Z_scope.

(** * Definitions *)

Definition shared_nokeyerr : reply_item := ReplyError "no such key".

(** The flags of EXPIRE. *)
Record expire_flags := ExpireFlags { EXPIRE_NX : bool; EXPIRE_XX : bool; EXPIRE_GT : bool; EXPIRE_LT : bool }.

Definition EXPIRE_NONE : expire_flags := ExpireFlags false false false false.

(** [if (flag)] *)
Definition any_flag (f : expire_flags) : bool := EXPIRE_NX f || EXPIRE_XX f || EXPIRE_GT f || EXPIRE_LT f.

Definition nx_xx_err : reply_item := ReplyError "NX and XX, GT or LT options at the same time are not compatible".
Definition gt_lt_err : reply_item := ReplyError "GT and LT options at the same time are not compatible".

(** The text of an error message: [%s] stops at the terminator; line ends are cut off
    at the end and replaced by spaces inside.  The text starts with a letter. *)
Fixpoint error_text (s : list Z) : String.string :=
  match s with
  | [] => String.EmptyString
  | c :: s =>
      if ((c =? 13) || (c =? 10)) && forallb (fun c => (c =? 13) || (c =? 10)) s then String.EmptyString
      else String.String (Ascii.ascii_of_N (Z.to_N (if (c =? 13) || (c =? 10) then 32 else c))) (error_text s)
  end.

Definition unsupported_err (opt : list Z) : reply_item := ReplyError (error_text (chars "Unsupported option " ++ cstr opt)).

Section Handlers.
Context {DB : Type} `{Keyspace DB} (cfg : config).

(** ** Keys *)

Fixpoint del_loop (keys : list (list Z)) (lazy : bool) (numdel : Z) : cmd DB Z :=
  match keys with
  | [] => mret numdel
  | key :: keys =>
      on_db (expireIfNeeded key);;
      deleted ← on_db (if lazy then dbAsyncDelete key else dbSyncDelete key);
      numdel ← (if (deleted : bool) then
                  signalModifiedKey key;;
                  notifyKeyspaceEvent NOTIFY_GENERIC "del" key;;
                  add_dirty 1;;
                  mret (numdel + 1)
                else mret numdel);
      del_loop keys lazy numdel
  end.

Definition delGenericCommand (argv : list (list Z)) (lazy : bool) : cmd DB unit :=
  numdel ← del_loop (drop 1 argv) lazy 0;
  addReply (ReplyInteger numdel).

Definition delCommand (argv : list (list Z)) : cmd DB unit := delGenericCommand argv (lazyfree_lazy_user_del cfg).

Definition unlinkCommand (argv : list (list Z)) : cmd DB unit := delGenericCommand argv true.

(** Counting the keys that are found, with the flags of the lookup. *)
Fixpoint count_keys (keys : list (list Z)) (flags count : Z) : cmd DB Z :=
  match keys with
  | [] => mret count
  | key :: keys =>
      o ← on_db (lookupKeyReadWithFlags key flags);
      count_keys keys flags (if (o : option robj) then count + 1 else count)
  end.

Definition existsCommand (argv : list (list Z)) : cmd DB unit :=
  count ← count_keys (drop 1 argv) LOOKUP_NOTOUCH 0;
  addReply (ReplyInteger count).

Definition touchCommand (argv : list (list Z)) : cmd DB unit :=
  touched ← count_keys (drop 1 argv) LOOKUP_NONE 0;
  addReply (ReplyInteger touched).

(** [module_type] is the name of the type a module has registered. *)
Definition getObjectTypeName (module_type : String.string) (o : option robj) : String.string :=
  match o with
  | None => "none"
  | Some o =>
      match type o with
      | OBJ_STRING => "string"
      | OBJ_LIST => "list"
      | OBJ_SET => "set"
      | OBJ_ZSET => "zset"
      | OBJ_HASH => "hash"
      | OBJ_STREAM => "stream"
      | OBJ_MODULE => module_type
      end
  end.

Definition typeCommand (module_type : String.string) (argv : list (list Z)) : cmd DB unit :=
  key ← arg argv 1;
  o ← on_db (lookupKeyReadWithFlags key LOOKUP_NOTOUCH);
  addReply (ReplyStatus (getObjectTypeName module_type o)).

Definition lookupKeyWriteOrReply (key : list Z) (r : reply_item) : cmd DB robj :=
  o ← on_db (lookupKeyWrite key);
  match o with
  | None => reply_and_return r
  | Some o => mret o
  end.

(** The reference [incrRefCount] takes for the new key replaces the one the old key
    gives up. *)
Definition renameGenericCommand (argv : list (list Z)) (nx : bool) : cmd DB unit :=
  src ← arg argv 1;
  dst ← arg argv 2;
  let samekey := bool_decide (src = dst) in
  o ← lookupKeyWriteOrReply src shared_nokeyerr;
  if samekey then addReply (if nx then shared_czero else shared_ok)
  else
    expire ← on_db (getExpire src);
    old ← on_db (lookupKeyWrite dst);
    (if bool_decide (is_Some old) then
       if nx then reply_and_return shared_czero else on_db (dbDelete dst);; mret tt
     else mret tt);;
    on_db (dbAdd dst o);;
    (if negb (expire =? -1) then on_db (setExpire dst expire) else mret tt);;
    on_db (dbDelete src);;
    signalModifiedKey src;;
    signalModifiedKey dst;;
    notifyKeyspaceEvent NOTIFY_GENERIC "rename_from" src;;
    notifyKeyspaceEvent NOTIFY_GENERIC "rename_to" dst;;
    add_dirty 1;;
    addReply (if nx then shared_cone else shared_ok).

Definition renameCommand (argv : list (list Z)) : cmd DB unit := renameGenericCommand argv false.

Definition renamenxCommand (argv : list (list Z)) : cmd DB unit := renameGenericCommand argv true.

(** ** Expire times *)

(** The loop over the options. *)
Fixpoint expire_options (args : list (list Z)) (f : expire_flags) : cmd DB expire_flags :=
  match args with
  | [] => mret f
  | opt :: args =>
      if strcase_eq opt "nx" then expire_options args (ExpireFlags true (EXPIRE_XX f) (EXPIRE_GT f) (EXPIRE_LT f))
      else if strcase_eq opt "xx" then expire_options args (ExpireFlags (EXPIRE_NX f) true (EXPIRE_GT f) (EXPIRE_LT f))
      else if strcase_eq opt "gt" then expire_options args (ExpireFlags (EXPIRE_NX f) (EXPIRE_XX f) true (EXPIRE_LT f))
      else if strcase_eq opt "lt" then expire_options args (ExpireFlags (EXPIRE_NX f) (EXPIRE_XX f) (EXPIRE_GT f) true)
      else reply_and_return (unsupported_err opt)
  end.

Definition parseExtendedExpireArgumentsOrReply (argv : list (list Z)) : cmd DB expire_flags :=
  f ← expire_options (drop 3 argv) EXPIRE_NONE;
  if (EXPIRE_NX f && EXPIRE_XX f) || (EXPIRE_NX f && EXPIRE_GT f) || (EXPIRE_NX f && EXPIRE_LT f) then reply_and_return nx_xx_err
  else if EXPIRE_GT f && EXPIRE_LT f then reply_and_return gt_lt_err
  else mret f.

(** [c->cmd->fullname] is part of the message for a time out of range. *)
Definition expireGenericCommand (name : String.string) (argv : list (list Z)) (basetime : Z) (unit : time_unit) : cmd DB Datatypes.unit :=
  key ← arg argv 1;
  param ← argo argv 2;
  f ← parseExtendedExpireArgumentsOrReply argv;
  when ← getLongLongFromObjectOrReply param None;
  when ← (if bool_decide (unit = UNIT_SECONDS) then
            if (when >? Z.quot INT64_MAX 1000) || (when <? Z.quot INT64_MIN 1000) then reply_and_return (expire_err name)
            else lift (sint 64 (when * 1000))
          else mret when);
  limit ← lift (sint 64 (INT64_MAX - basetime));
  if when >? limit then reply_and_return (expire_err name)
  else
    when ← lift (sint 64 (when + basetime));
    o ← on_db (lookupKeyWrite key);
    match o with
    | None => addReply shared_czero
    | Some _ =>
        (if any_flag f then
           current_expire ← on_db (getExpire key);
           if EXPIRE_NX f && negb (current_expire =? -1) then reply_and_return shared_czero
           else if EXPIRE_XX f && (current_expire =? -1) then reply_and_return shared_czero
           else if EXPIRE_GT f && ((when <=? current_expire) || (current_expire =? -1)) then reply_and_return shared_czero
           else if EXPIRE_LT f && (negb (current_expire =? -1) && (when >=? current_expire)) then reply_and_return shared_czero
           else mret tt
         else mret tt);;
        if checkAlreadyExpired cfg when then
          deleted ← on_db (if lazyfree_lazy_expire cfg then dbAsyncDelete key else dbSyncDelete key);
          if negb deleted then lift Panic
          else
            add_dirty 1;;
            rewriteClientCommandVector [if lazyfree_lazy_expire cfg then shared_unlink else shared_del; createStringObject key];;
            signalModifiedKey key;;
            notifyKeyspaceEvent NOTIFY_GENERIC "del" key;;
            addReply shared_cone
        else
          on_db (setExpire key when);;
          addReply shared_cone;;
          when_obj ← lift (createStringObjectFromLongLong cfg when);
          rewriteClientCommandVector [shared_pexpireat; createStringObject key; when_obj];;
          signalModifiedKey key;;
          notifyKeyspaceEvent NOTIFY_GENERIC "expire" key;;
          add_dirty 1
    end.

Definition expireCommand (argv : list (list Z)) : cmd DB unit := expireGenericCommand "expire" argv (mstime cfg) UNIT_SECONDS.
Definition expireatCommand (argv : list (list Z)) : cmd DB unit := expireGenericCommand "expireat" argv 0 UNIT_SECONDS.
Definition pexpireCommand (argv : list (list Z)) : cmd DB unit := expireGenericCommand "pexpire" argv (mstime cfg) UNIT_MILLISECONDS.
Definition pexpireatCommand (argv : list (list Z)) : cmd DB unit := expireGenericCommand "pexpireat" argv 0 UNIT_MILLISECONDS.

Definition ttlGenericCommand (argv : list (list Z)) (output_ms output_abs : bool) : cmd DB unit :=
  key ← arg argv 1;
  o ← on_db (lookupKeyReadWithFlags key LOOKUP_NOTOUCH);
  match o with
  | None => addReply (ReplyInteger (-2))
  | Some _ =>
      expire ← on_db (getExpire key);
      ttl ← (if negb (expire =? -1) then
               ttl ← (if output_abs then mret expire else lift (arith64 (fwrapv cfg) (expire - mstime cfg)));
               mret (if ttl <? 0 then 0 else ttl)
             else mret (-1));
      if ttl =? -1 then addReply (ReplyInteger (-1))
      else if output_ms then addReply (ReplyInteger ttl)
      else
        rounded ← lift (arith64 (fwrapv cfg) (ttl + 500));
        addReply (ReplyInteger (Z.quot rounded 1000))
  end.

Definition ttlCommand (argv : list (list Z)) : cmd DB unit := ttlGenericCommand argv false false.
Definition pttlCommand (argv : list (list Z)) : cmd DB unit := ttlGenericCommand argv true false.
Definition expiretimeCommand (argv : list (list Z)) : cmd DB unit := ttlGenericCommand argv false true.
Definition pexpiretimeCommand (argv : list (list Z)) : cmd DB unit := ttlGenericCommand argv true true.

Definition persistCommand (argv : list (list Z)) : cmd DB unit :=
  key ← arg argv 1;
  o ← on_db (lookupKeyWrite key);
  if bool_decide (is_Some o) then
    removed ← on_db (removeExpire key);
    if (removed : bool) then
      signalModifiedKey key;;
      notifyKeyspaceEvent NOTIFY_GENERIC "persist" key;;
      addReply shared_cone;;
      add_dirty 1
    else addReply shared_czero
  else addReply shared_czero.

End Handlers.

(** * Specification *)

(** The options of EXPIRE and their names. *)
Inductive expire_opt := NX | XX | GT | LT.

#[export] Instance expire_opt_eq_dec : EqDecision expire_opt.
Proof. solve_decision. Defined.

Definition expire_opt_name (o : expire_opt) : String.string := match o with NX => "nx" | XX => "xx" | GT => "gt" | LT => "lt" end.

Definition names (o : expire_opt) (a : list Z) : Prop := strcase_eq a (expire_opt_name o) = true.

Definition has_opt (o : expire_opt) (opts : list expire_opt) : bool := bool_decide (o ∈ opts).

Definition opts_flags (opts : list expire_opt) : expire_flags := ExpireFlags (has_opt NX opts) (has_opt XX opts) (has_opt GT opts) (has_opt LT opts).

(** What the options forbid together. *)
Definition opts_error (opts : list expire_opt) : option reply_item :=
  if has_opt NX opts && (has_opt XX opts || has_opt GT opts || has_opt LT opts) then Some nx_xx_err
  else if has_opt GT opts && has_opt LT opts then Some gt_lt_err
  else None.

(** The expire time a key has; the code takes a stored [-1] for none. *)
Definition time_of_key (x : option Z) : option Z := match x with Some t => if t =? -1 then None else Some t | None => None end.

(** The options allow the new time [t] for a key with the expire time [cur]. *)
Definition allows (opts : list expire_opt) (cur : option Z) (t : Z) : bool :=
  (negb (has_opt NX opts) || bool_decide (cur = None)) && (negb (has_opt XX opts) || bool_decide (cur <> None)) &&
  (negb (has_opt GT opts) || match cur with Some c => t >? c | None => false end) &&
  (negb (has_opt LT opts) || match cur with Some c => t <? c | None => true end).

Definition scale (unit : time_unit) : Z := match unit with UNIT_SECONDS => 1000 | UNIT_MILLISECONDS => 1 end.

(** The absolute time in milliseconds, when it fits. *)
Definition absolute_ms (unit : time_unit) (base v : Z) : option Z :=
  if (v * scale unit <? INT64_MIN) || (v * scale unit + base >? INT64_MAX) then None else Some (v * scale unit + base).

Section Spec.
Context {DB : Type} `{KeyspaceLaws DB} (cfg : config).

Definition expire_outcome_ok (opts : list expire_opt) (key : list Z) (t : Z) (s s' : server DB) : Prop :=
  match view (sdb s) !! key with
  | None => replied [shared_czero] s s'
  | Some _ =>
      if negb (allows opts (time_of_key (expires (sdb s) !! key)) t) then replied [shared_czero] s s'
      else if (t <=? mstime cfg) && negb (loading_or_replica cfg) then
        changed shared_cone (delete key (view (sdb s))) (delete key (expires (sdb s))) (deleted_events (lazyfree_lazy_expire cfg) key) s s'
      else exists ms, stands_for (ll_repr t) ms /\
        changed shared_cone (if expired t then delete key (view (sdb s)) else view (sdb s))
          (if expired t then delete key (expires (sdb s)) else <[key := t]> (expires (sdb s)))
          [RewriteVector [shared_pexpireat; createStringObject key; ms]; SignalModifiedKey key; Notify NOTIFY_GENERIC "expire" key] s s'
  end.

(** EXPIRE and its variants: the errors of the arguments first, then the outcome. *)
Definition expire_spec (name : String.string) (unit : time_unit) (base : Z) (key e : list Z) (args : list (list Z)) (s s' : server DB) : Prop :=
  ((forall opts, ~ Forall2 names opts args) /\ exists a, a ∈ args /\ replied [unsupported_err a] s s') \/
  exists opts, Forall2 names opts args /\
    match opts_error opts with
    | Some err => replied [err] s s'
    | None =>
        match number e with
        | None => replied [integer_err] s s'
        | Some v =>
            match absolute_ms unit base v with
            | None => replied [expire_err name] s s'
            | Some t => expire_outcome_ok opts key t s s'
            end
        end
    end.

Definition rename_outcome (src dst : list Z) (nx : bool) (s s' : server DB) : Prop :=
  let v := view (sdb s) in
  let x := expires (sdb s) in
  match v !! src with
  | None => replied [shared_nokeyerr] s s'
  | Some o =>
      if bool_decide (src = dst) then replied [if nx then shared_czero else shared_ok] s s'
      else if nx && bool_decide (is_Some (v !! dst)) then replied [shared_czero] s s'
      else
        let x' := if bool_decide (is_Some (v !! dst)) then delete dst x else x in
        changed (if nx then shared_cone else shared_ok) (<[dst := o]> (delete src v))
          (match time_of_key (x !! src) with Some t => <[dst := t]> (delete src x') | None => delete src x' end)
          [SignalModifiedKey src; SignalModifiedKey dst; Notify NOTIFY_GENERIC "rename_from" src; Notify NOTIFY_GENERIC "rename_to" dst] s s'
  end.

(** Removing the expire time of a key. *)
Definition persist_outcome (key : list Z) (s s' : server DB) : Prop :=
  if bool_decide (is_Some (view (sdb s) !! key)) && bool_decide (is_Some (expires (sdb s) !! key))
  then changed shared_cone (view (sdb s)) (delete key (expires (sdb s))) [SignalModifiedKey key; Notify NOTIFY_GENERIC "persist" key] s s'
  else replied [shared_czero] s s'.

(** Deleting keys: [ks] are those that exist. *)
Definition del_outcome (keys : list (list Z)) (s s' : server DB) : Prop := exists ks,
  NoDup ks /\ (forall k, k ∈ ks <-> k ∈ keys /\ is_Some (view (sdb s) !! k)) /\
  db_wf (sdb s') /\ view (sdb s') = foldl (fun m k => delete k m) (view (sdb s)) keys /\ expires (sdb s') = foldl (fun m k => delete k m) (expires (sdb s)) keys /\
  reply s' = reply s ++ [ReplyInteger (zlen ks)] /\ dirty s' = dirty s + zlen ks /\
  events s' = events s ++ concat ((fun k => [SignalModifiedKey k; Notify NOTIFY_GENERIC "del" k]) <$> ks).

End Spec.

(** What TYPE answers. *)
Definition type_names (module_type : String.string) : list (object_type * String.string) :=
  [(OBJ_STRING, "string"); (OBJ_LIST, "list"); (OBJ_SET, "set"); (OBJ_ZSET, "zset"); (OBJ_HASH, "hash"); (OBJ_STREAM, "stream");
   (OBJ_MODULE, module_type)]%string.

(** * Lemmas *)

Lemma names_unique o o' a : names o a -> names o' a -> o = o'.
Proof. unfold names, strcase_eq. rewrite !bool_decide_eq_true. intros -> E. by destruct o, o'; vm_compute in E. Qed.

Section Commands.
Context {DB : Type} `{KeyspaceLaws DB} (cfg : config).

Definition merge (f g : expire_flags) : expire_flags :=
  ExpireFlags (EXPIRE_NX f || EXPIRE_NX g) (EXPIRE_XX f || EXPIRE_XX g) (EXPIRE_GT f || EXPIRE_GT g) (EXPIRE_LT f || EXPIRE_LT g).

Lemma has_opt_cons o o' opts : has_opt o (o' :: opts) = bool_decide (o = o') || has_opt o opts.
Proof. unfold has_opt. rewrite <- bool_decide_or. apply bool_decide_ext. by rewrite elem_of_cons. Qed.

Lemma merge_cons f o opts : merge f (opts_flags (o :: opts)) =
  merge (match o with
         | NX => ExpireFlags true (EXPIRE_XX f) (EXPIRE_GT f) (EXPIRE_LT f)
         | XX => ExpireFlags (EXPIRE_NX f) true (EXPIRE_GT f) (EXPIRE_LT f)
         | GT => ExpireFlags (EXPIRE_NX f) (EXPIRE_XX f) true (EXPIRE_LT f)
         | LT => ExpireFlags (EXPIRE_NX f) (EXPIRE_XX f) (EXPIRE_GT f) true
         end) (opts_flags opts).
Proof. unfold merge, opts_flags. rewrite !has_opt_cons. destruct o; cbn; by rewrite ?orb_true_r. Qed.

Lemma runs_expire_options args f (s : server DB) (Q : _ -> _ -> Prop) :
  (forall opts, Forall2 names opts args -> Q s (Some (merge f (opts_flags opts)))) ->
  ((forall opts, ~ Forall2 names opts args) -> forall a, a ∈ args -> Q (with_reply s (unsupported_err a)) None) ->
  runs (expire_options args f) s Q.
Proof.
  revert f. induction args as [|a args IH]; intros f Hok Herr; cbn [expire_options].
  { apply runs_ret. specialize (Hok [] ltac:(constructor)). destruct f; cbn in Hok. unfold merge in Hok. cbn in Hok. by rewrite !orb_false_r in Hok. }
  assert (forall o, names o a -> runs (expire_options args (match o with
      | NX => ExpireFlags true (EXPIRE_XX f) (EXPIRE_GT f) (EXPIRE_LT f)
      | XX => ExpireFlags (EXPIRE_NX f) true (EXPIRE_GT f) (EXPIRE_LT f)
      | GT => ExpireFlags (EXPIRE_NX f) (EXPIRE_XX f) true (EXPIRE_LT f)
      | LT => ExpireFlags (EXPIRE_NX f) (EXPIRE_XX f) (EXPIRE_GT f) true end)) s Q) as Hnext.
  { intros o Ho. apply IH.
    - intros opts Hn. rewrite <- merge_cons. apply Hok. by constructor.
    - intros Hno a' Hin. apply Herr; [|by right]. intros opts Hn. inversion Hn; subst. by eapply Hno. }
  destruct (strcase_eq a "nx") eqn:E1; [by apply (Hnext NX)|]. destruct (strcase_eq a "xx") eqn:E2; [by apply (Hnext XX)|].
  destruct (strcase_eq a "gt") eqn:E3; [by apply (Hnext GT)|]. destruct (strcase_eq a "lt") eqn:E4; [by apply (Hnext LT)|].
  apply runs_reply_return, Herr; [|by left]. intros opts Hn. inversion Hn as [|o ? ? ? Ho]; subst. unfold names in Ho. destruct o; cbn in Ho; congruence.
Qed.

Lemma runs_expire_args c key e args (s : server DB) (Q : _ -> _ -> Prop) :
  (forall opts, Forall2 names opts args -> match opts_error opts with Some err => Q (with_reply s err) None | None => Q s (Some (opts_flags opts)) end) ->
  ((forall opts, ~ Forall2 names opts args) -> forall a, a ∈ args -> Q (with_reply s (unsupported_err a)) None) ->
  runs (parseExtendedExpireArgumentsOrReply (c :: key :: e :: args)) s Q.
Proof.
  intros Hok Herr. apply runs_bind. cbn [drop]. apply runs_expire_options; [|done]. intros opts Hn. specialize (Hok opts Hn).
  assert (merge EXPIRE_NONE (opts_flags opts) = opts_flags opts) as -> by done. unfold opts_error in Hok.
  cbn [opts_flags EXPIRE_NX EXPIRE_XX EXPIRE_GT EXPIRE_LT]. rewrite <- !andb_orb_distrib_r.
  destruct (has_opt NX opts && _); [by apply runs_reply_return|]. destruct (_ && _); [by apply runs_reply_return|]. by apply runs_ret.
Qed.

(** The options, against the time the code reads. *)
Lemma runs_allowed opts x t (s : server DB) (Q : _ -> _ -> Prop) :
  (if allows opts (time_of_key x) t then Q s (Some tt) else Q (with_reply s shared_czero) None) ->
  runs (let f := opts_flags opts in let current_expire := default (-1) x in
    if EXPIRE_NX f && negb (current_expire =? -1) then reply_and_return shared_czero
    else if EXPIRE_XX f && (current_expire =? -1) then reply_and_return shared_czero
    else if EXPIRE_GT f && ((t <=? current_expire) || (current_expire =? -1)) then reply_and_return shared_czero
    else if EXPIRE_LT f && (negb (current_expire =? -1) && (t >=? current_expire)) then reply_and_return shared_czero
    else mret tt) s Q.
Proof.
  intros HQ. cbv zeta. cbn [opts_flags EXPIRE_NX EXPIRE_XX EXPIRE_GT EXPIRE_LT]. unfold allows, time_of_key in HQ.
  assert (exists b : bool, (default (-1) x =? -1) = b /\ (if b then match x with Some t => if t =? -1 then None else Some t | None => None end = None
    else match x with Some t => if t =? -1 then None else Some t | None => None end = Some (default (-1) x))) as (b & -> & Hb).
  { destruct x as [c|]; cbn; [|by exists true]. exists (c =? -1). split; [done|]. by destruct (c =? -1). }
  set (cur := default (-1) x) in *. clearbody cur. destruct b; rewrite Hb in HQ; clear Hb; cbn [negb andb orb] in *.
  - destruct (has_opt NX opts), (has_opt XX opts), (has_opt GT opts), (has_opt LT opts); cbn [negb andb orb bool_decide] in *; rewrite ?orb_true_r, ?andb_false_r in *;
      first [by apply runs_reply_return|by apply runs_ret].
  - rewrite !orb_false_r in *. destruct (has_opt NX opts); cbn [negb andb orb] in *; [by apply runs_reply_return|]. rewrite !andb_false_r.
    destruct (has_opt GT opts), (has_opt LT opts), (Z.leb_spec t cur), (Z.geb_spec t cur), (Z.gtb_spec t cur), (Z.ltb_spec t cur), (has_opt XX opts); try lia; cbn in *;
      first [by apply runs_reply_return|by apply runs_ret].
Qed.

Lemma no_flags_allow opts cur t : any_flag (opts_flags opts) = false -> allows opts cur t = true.
Proof.
  unfold any_flag, allows. cbn [opts_flags EXPIRE_NX EXPIRE_XX EXPIRE_GT EXPIRE_LT]. rewrite !orb_false_iff. by intros [[[-> ->] ->] ->].
Qed.

(** The time, with the checks for overflow. *)
Lemma runs_absolute name unit base v (k : Z -> cmd DB Datatypes.unit) (s : server DB) (Q : _ -> _ -> Prop) :
  INT64_MIN <= v <= INT64_MAX -> 0 <= base <= INT64_MAX ->
  match absolute_ms unit base v with
  | None => Q (with_reply s (expire_err name)) None
  | Some t => INT64_MIN <= t <= INT64_MAX -> runs (k t) s Q
  end ->
  runs (when ← (if bool_decide (unit = UNIT_SECONDS) then
            if (v >? Z.quot INT64_MAX 1000) || (v <? Z.quot INT64_MIN 1000) then reply_and_return (expire_err name)
            else lift (sint 64 (v * 1000))
          else mret v);
    limit ← lift (sint 64 (INT64_MAX - base));
    if when >? limit then reply_and_return (expire_err name) else when ← lift (sint 64 (when + base)); k when) s Q.
Proof.
  intros Hv Hb HQ. unfold absolute_ms in HQ.
  assert (forall w, INT64_MIN <= w <= INT64_MAX -> (if (w <? INT64_MIN) || (w + base >? INT64_MAX) then Q (with_reply s (expire_err name)) None
      else INT64_MIN <= w + base <= INT64_MAX -> runs (k (w + base)) s Q) ->
    runs (limit ← lift (sint 64 (INT64_MAX - base)); if w >? limit then reply_and_return (expire_err name) else when ← lift (sint 64 (w + base)); k when) s Q) as Htail.
  { intros w Hw Hk. apply runs_bind, (runs_lift _ (INT64_MAX - base)); [apply sint64_ok; zconst; lia|].
    destruct (Z.gtb_spec w (INT64_MAX - base)).
    - replace ((w <? INT64_MIN) || (w + base >? INT64_MAX)) with true in Hk by (symmetry; lia). by apply runs_reply_return.
    - replace ((w <? INT64_MIN) || (w + base >? INT64_MAX)) with false in Hk by (symmetry; lia). apply runs_bind, (runs_lift _ (w + base)); [apply sint64_ok; zconst; lia|]. apply Hk. zconst. lia. }
  apply runs_bind. destruct unit; cbn [scale] in HQ.
  - rewrite bool_decide_true by done. change (Z.quot INT64_MAX 1000) with 9223372036854775. change (Z.quot INT64_MIN 1000) with (-9223372036854775).
    destruct ((v >? 9223372036854775) || (v <? -9223372036854775)) eqn:E.
    + apply runs_reply_return. replace ((v * 1000 <? INT64_MIN) || (v * 1000 + base >? INT64_MAX)) with true in HQ by (symmetry; zconst; lia). done.
    + apply (runs_lift _ (v * 1000)); [apply sint64_ok; zconst; lia|]. apply Htail; [zconst; lia|]. by destruct (_ || _).
  - rewrite bool_decide_false by done. rewrite Z.mul_1_r in HQ. apply runs_ret, Htail; [done|]. by destruct (_ || _).
Qed.

(** The time is set, or the key deleted when it is over already. *)
Lemma runs_expire_apply key t (s s1 : server DB) o :
  storable key -> replied [] s s1 -> view (sdb s) !! key = Some o -> INT64_MIN <= t <= INT64_MAX ->
  runs (if checkAlreadyExpired cfg t then
      deleted ← on_db (if lazyfree_lazy_expire cfg then dbAsyncDelete key else dbSyncDelete key);
      if negb deleted then lift Panic
      else
        add_dirty 1;;
        rewriteClientCommandVector [if lazyfree_lazy_expire cfg then shared_unlink else shared_del; createStringObject key];;
        signalModifiedKey key;;
        notifyKeyspaceEvent NOTIFY_GENERIC "del" key;;
        addReply shared_cone
    else
      on_db (setExpire key t);;
      addReply shared_cone;;
      when_obj ← lift (createStringObjectFromLongLong cfg t);
      rewriteClientCommandVector [shared_pexpireat; createStringObject key; when_obj];;
      signalModifiedKey key;;
      notifyKeyspaceEvent NOTIFY_GENERIC "expire" key;;
      add_dirty 1) s1
    (fun s' _ => if (t <=? mstime cfg) && negb (loading_or_replica cfg) then
        changed shared_cone (delete key (view (sdb s))) (delete key (expires (sdb s))) (deleted_events (lazyfree_lazy_expire cfg) key) s s'
      else exists ms, stands_for (ll_repr t) ms /\
        changed shared_cone (if expired t then delete key (view (sdb s)) else view (sdb s))
          (if expired t then delete key (expires (sdb s)) else <[key := t]> (expires (sdb s)))
          [RewriteVector [shared_pexpireat; createStringObject key; ms]; SignalModifiedKey key; Notify NOTIFY_GENERIC "expire" key] s s').
Proof.
  intros Hkey (Hw1 & Hv1 & He1 & Hr1 & Hd1 & Hev1) Ho Ht. rewrite app_nil_r in Hr1. unfold checkAlreadyExpired. destruct (_ && _).
  - apply runs_bind, runs_delete_lazily, runs_delete; [done..|]. rewrite Hv1, He1. intros d b Hd Hb _ Hv He _. rewrite Hb by (rewrite Ho; by eexists). cbn [negb].
    apply runs_bind, runs_dirty, runs_bind, runs_raise, runs_bind, runs_signal, runs_bind, runs_notify, runs_reply.
    split_and!; srv; try done; [by rewrite Hr1|by rewrite Hd1|]. rewrite Hev1. by rewrite <- !app_assoc.
  - apply runs_bind, runs_set_expire; [done|done|by rewrite Hv1, Ho|]. rewrite Hv1, He1. intros d Hd Hv He.
    apply runs_bind, runs_reply. destruct (from_long_long_ok cfg t false Ht) as (ms & Ems & Hms). apply runs_bind. eapply runs_lift; [exact Ems|].
    apply runs_bind, runs_raise, runs_bind, runs_signal, runs_bind, runs_notify, runs_dirty. exists ms. split; [done|].
    split_and!; srv; try done; [by rewrite Hr1|by rewrite Hd1|]. rewrite Hev1. by rewrite <- !app_assoc.
Qed.

Lemma runs_expire_generic name c key e args base unit (s : server DB) :
  storable key -> db_wf (sdb s) -> 0 <= base <= INT64_MAX ->
  runs (expireGenericCommand cfg name (c :: key :: e :: args) base unit) s (fun s' _ => expire_spec cfg name unit base key e args s s').
Proof.
  intros Hkey Hw Hb. unfold expireGenericCommand. apply runs_bind, (runs_arg _ _ key); [done|]. apply runs_bind. apply runs_bind, (runs_arg _ _ e); [done|]. apply runs_ret.
  apply runs_bind, runs_expire_args; [|intros Hno a Ha; left; split; [done|]; exists a; split; [done|by split_and!]].
  intros opts Hn. unfold expire_spec. destruct (opts_error opts) as [err|] eqn:Eo; [right; exists opts; rewrite Eo; by split_and!|].
  eapply runs_impl; [|intros s' r Hr; right; exists opts; split; [done|]; rewrite Eo; exact Hr]. cbv beta.
  apply runs_bind, runs_number; [|intros ->; by split_and!]. intros v Ev. rewrite Ev. apply runs_absolute; [by destruct (number_range _ _ Ev)|done|].
  destruct (absolute_ms unit base v) as [t|]; [|by split_and!]. intros Ht. unfold expire_outcome_ok.
  apply runs_bind, runs_write; [done..|]. intros d Hd Hv He _. destruct (view (sdb s) !! key) as [o|] eqn:Ek; [|apply runs_reply; by split_and!].
  apply runs_bind. set (x := expires (sdb s) !! key).
  assert (runs (if any_flag (opts_flags opts) then
      current_expire ← on_db (getExpire key);
      if EXPIRE_NX (opts_flags opts) && negb (current_expire =? -1) then reply_and_return shared_czero
      else if EXPIRE_XX (opts_flags opts) && (current_expire =? -1) then reply_and_return shared_czero
      else if EXPIRE_GT (opts_flags opts) && ((t <=? current_expire) || (current_expire =? -1)) then reply_and_return shared_czero
      else if EXPIRE_LT (opts_flags opts) && (negb (current_expire =? -1) && (t >=? current_expire)) then reply_and_return shared_czero
      else mret tt else mret tt) (with_db s d)
    (fun s' r => if allows opts (time_of_key x) t then r = Some tt /\ replied [] s s' else r = None /\ replied [shared_czero] s s')) as Hflags.
  { destruct (any_flag (opts_flags opts)) eqn:Ef; [|apply runs_ret; rewrite no_flags_allow by done; split; [done|]; split_and!; try done; by rewrite app_nil_r].
    apply runs_bind, runs_get_expire; [done|done|srv; by rewrite Hv, Ek|]. srv. rewrite He. intros d2 Hd2 Hv2 He2 _. apply (runs_allowed opts x t).
    destruct (allows opts (time_of_key x) t); (split; [done|]); split_and!; srv; try congruence; by rewrite app_nil_r. }
  eapply runs_impl; [exact Hflags|]. cbv beta. intros s1 r1. destruct (allows opts (time_of_key x) t); cbn [negb]; intros [-> Hr1]; [|done].
  by apply (runs_expire_apply key t s s1 o).
Qed.

(** C15: EXPIRE, PEXPIRE, EXPIREAT and PEXPIREAT: unknown or contradictory options, text
    that is no number and times outside of 64 bits are answered with errors; a
    missing key and a time the options NX, XX, GT and LT do not allow with zero and
    no change; otherwise the key gets the time, or is deleted when it is over
    already, and the command is propagated with the absolute time or as a deletion. *)
Theorem expire_commands_correct c key e args (s : server DB) :
  storable key -> db_wf (sdb s) -> 0 <= mstime cfg <= INT64_MAX ->
  runs (expireCommand cfg (c :: key :: e :: args)) s (fun s' _ => expire_spec cfg "expire" UNIT_SECONDS (mstime cfg) key e args s s') /\
  runs (pexpireCommand cfg (c :: key :: e :: args)) s (fun s' _ => expire_spec cfg "pexpire" UNIT_MILLISECONDS (mstime cfg) key e args s s') /\
  runs (expireatCommand cfg (c :: key :: e :: args)) s (fun s' _ => expire_spec cfg "expireat" UNIT_SECONDS 0 key e args s s') /\
  runs (pexpireatCommand cfg (c :: key :: e :: args)) s (fun s' _ => expire_spec cfg "pexpireat" UNIT_MILLISECONDS 0 key e args s s').
Proof. intros Hkey Hw Hb. split_and!; apply runs_expire_generic; try done; zconst; lia. Qed.

(** *** Reading and removing expire times *)

Lemma runs_ttl c key ms abs (s : server DB) :
  storable key -> db_wf (sdb s) -> 0 <= mstime cfg <= INT64_MAX ->
  (forall t, expires (sdb s) !! key = Some t -> 0 <= t <= INT64_MAX - 500) ->
  runs (ttlGenericCommand cfg [c; key] ms abs) s (fun s' _ => replied [ReplyInteger (
    match view (sdb s) !! key, expires (sdb s) !! key with
    | None, _ => -2
    | Some _, None => -1
    | Some _, Some t => let left := if (abs : bool) then t else Z.max 0 (t - mstime cfg) in if (ms : bool) then left else (left + 500) / 1000
    end)] s s').
Proof.
  intros Hkey Hw Hm Ht. unfold ttlGenericCommand. apply runs_bind, (runs_arg _ _ key); [done|]. apply runs_bind, runs_read_flags; [done..|]. intros d Hd Hv He.
  destruct (view (sdb s) !! key) as [o|] eqn:Ek; [|apply runs_reply; by split_and!].
  apply runs_bind, runs_get_expire; [done|done|srv; by rewrite Hv, Ek|]. srv. rewrite Hv, He. intros d2 Hd2 Hv2 He2 _. apply runs_bind.
  destruct (expires (sdb s) !! key) as [t|]; cbn [default]; [|apply runs_ret; change (-1 =? -1) with true; cbn [negb]; apply runs_reply; by split_and!].
  specialize (Ht t eq_refl). change (id t) with t. zfalse (t =? -1). cbn [negb]. apply runs_bind.
  assert (forall z, INT64_MIN <= z <= INT64_MAX -> arith64 (fwrapv cfg) z = Ok z) as Harith.
  { intros z Hz. unfold arith64. destruct (fwrapv cfg); [f_equal; unfold wrapS; zconst; rewrite Z.mod_small; lia|by apply sint64_ok]. }
  assert (runs (if abs then mret t else lift (arith64 (fwrapv cfg) (t - mstime cfg))) (with_db (with_db s d) d2)
    (fun s' r => s' = with_db (with_db s d) d2 /\ r = Some (if abs then t else t - mstime cfg))) as Hleft.
  { destruct abs; [by apply runs_ret|]. eapply runs_lift; [apply Harith; zconst; lia|done]. }
  eapply runs_impl; [exact Hleft|]. intros s' r [-> ->]. apply runs_ret.
  set (left := if abs then t else Z.max 0 (t - mstime cfg)). replace (if (if abs then t else t - mstime cfg) <? 0 then 0 else if abs then t else t - mstime cfg) with left.
  2: { unfold left. destruct abs; [by zfalse (t <? 0)|]. destruct (Z.ltb_spec (t - mstime cfg) 0); lia. }
  assert (0 <= left <= INT64_MAX - 500) as Hl by (unfold left; destruct abs; lia). zfalse (left =? -1). destruct ms; [apply runs_reply; by split_and!; srv; try congruence|].
  apply runs_bind. eapply runs_lift; [apply Harith; zconst; lia|]. rewrite Z.quot_div_nonneg by lia. apply runs_reply. by split_and!; srv; try congruence.
Qed.

Lemma runs_persist c key (s : server DB) :
  storable key -> db_wf (sdb s) -> runs (persistCommand [c; key]) s (fun s' _ => persist_outcome key s s').
Proof.
  intros Hkey Hw. unfold persistCommand, persist_outcome. apply runs_bind, (runs_arg _ _ key); [done|]. apply runs_bind, runs_write; [done..|]. intros d Hd Hv He _.
  case_bool_decide as Hk; cbn [andb]; [|apply runs_reply; by split_and!].
  apply runs_bind, runs_remove_expire; [done|done|srv; by rewrite Hv|]. srv. rewrite Hv, He. intros d2 Hd2 Hv2 He2. case_bool_decide as Hx.
  - apply runs_bind, runs_signal, runs_bind, runs_notify, runs_bind, runs_reply, runs_dirty. split_and!; srv; try done. by rewrite <- !app_assoc.
  - apply runs_reply. split_and!; srv; try done. rewrite He2. apply delete_id. by apply eq_None_not_Some.
Qed.

(** TTL, PTTL, EXPIRETIME and PEXPIRETIME answer the time a key has left, or the
    time it expires at, in milliseconds or in seconds rounded to the nearest, -1
    for a key that does not expire and -2 for a missing one; PERSIST removes the
    expire time of a key that has one, and answers zero otherwise. *)
Theorem ttl_commands_correct c key (s : server DB) :
  storable key -> db_wf (sdb s) -> 0 <= mstime cfg <= INT64_MAX ->
  (forall t, expires (sdb s) !! key = Some t -> 0 <= t <= INT64_MAX - 500) ->
  let answer f s' := replied [ReplyInteger (match view (sdb s) !! key, expires (sdb s) !! key with
    | None, _ => -2 | Some _, None => -1 | Some _, Some t => f t end)] s s' in
  runs (ttlCommand cfg [c; key]) s (fun s' _ => answer (fun t => (Z.max 0 (t - mstime cfg) + 500) / 1000) s') /\
  runs (pttlCommand cfg [c; key]) s (fun s' _ => answer (fun t => Z.max 0 (t - mstime cfg)) s') /\
  runs (expiretimeCommand cfg [c; key]) s (fun s' _ => answer (fun t => (t + 500) / 1000) s') /\
  runs (pexpiretimeCommand cfg [c; key]) s (fun s' _ => answer (fun t => t) s') /\
  runs (persistCommand [c; key]) s (fun s' _ => persist_outcome key s s').
Proof.
  intros Hkey Hw Hm Ht answer. split; [by apply (runs_ttl c key false false)|]. split; [by apply (runs_ttl c key true false)|].
  split; [by apply (runs_ttl c key false true)|]. split; [by apply (runs_ttl c key true true)|by apply runs_persist].
Qed.

(** EXPIRETIME on a key whose expire time is within 500 milliseconds of the largest
    integer, which PEXPIREAT accepts, overflows when it rounds: with wrapping
    arithmetic it answers a large negative number. *)
Theorem expiretime_overflows c key t (s : server DB) :
  storable key -> db_wf (sdb s) -> fwrapv cfg = true -> is_Some (view (sdb s) !! key) -> expires (sdb s) !! key = Some t -> INT64_MAX - 500 < t <= INT64_MAX ->
  runs (expiretimeCommand cfg [c; key]) s (fun s' _ => exists n, n < -9223372036854774 /\ replied [ReplyInteger n] s s').
Proof.
  intros Hkey Hw Hwr [o Ek] Et Ht. unfold expiretimeCommand, ttlGenericCommand. apply runs_bind, (runs_arg _ _ key); [done|].
  apply runs_bind, runs_read_flags; [done..|]. intros d Hd Hv He. rewrite Ek. apply runs_bind, runs_get_expire; [done|done|srv; by rewrite Hv, Ek|]. srv.
  rewrite Hv, He, Et. intros d2 Hd2 Hv2 He2 _. cbn [default]. change (id t) with t. assert (0 < t) by (zconst; lia). zfalse (t =? -1). cbn [negb].
  apply runs_bind, runs_bind, runs_ret, runs_ret. zfalse (t <? 0). zfalse (t =? -1). rewrite Hwr. apply runs_bind. eapply runs_lift; [done|].
  apply runs_reply. exists (Z.quot (wrapS 64 (t + 500)) 1000). split; [|by split_and!; srv; congruence].
  assert (wrapS 64 (t + 500) = t + 500 - 2 ^ 64) as ->.
  { unfold wrapS. zconst. replace (t + 500 + 2 ^ (64 - 1)) with (t + 500 - 2 ^ 63 + 1 * 2 ^ 64) by lia. rewrite Z.mod_add, Z.mod_small by lia. lia. }
  zconst. pose proof (Z.quot_opp_l (2 ^ 64 - t - 500) 1000 ltac:(lia)) as Hq. replace (- (2 ^ 64 - t - 500)) with (t + 500 - 2 ^ 64) in Hq by lia.
  rewrite Hq, Z.quot_div_nonneg by lia. assert (9223372036854774 < (2 ^ 64 - t - 500) / 1000); [|lia].
  apply Z.lt_le_trans with ((2 ^ 63 - 499) / 1000); [by vm_compute|]. apply Z.div_le_mono; lia.
Qed.

(** *** Renaming *)

(** The target becomes the source, with its expire time. *)
Lemma runs_rename_apply src dst o x r (s s1 : server DB) :
  storable src -> storable dst -> src <> dst -> db_wf (sdb s1) -> vacant (sdb s1) dst ->
  view (sdb s1) = delete dst (view (sdb s)) -> (forall t, x = Some t -> expired t = false) ->
  reply s1 = reply s -> dirty s1 = dirty s -> events s1 = events s ->
  runs (on_db (dbAdd dst o);;
    (if negb (default (-1) x =? -1) then on_db (setExpire dst (default (-1) x)) else mret tt);;
    on_db (dbDelete src);;
    signalModifiedKey src;;
    signalModifiedKey dst;;
    notifyKeyspaceEvent NOTIFY_GENERIC "rename_from" src;;
    notifyKeyspaceEvent NOTIFY_GENERIC "rename_to" dst;;
    add_dirty 1;;
    addReply r) s1 (fun s' _ =>
      changed r (<[dst := o]> (delete src (view (sdb s))))
        (match time_of_key x with Some t => <[dst := t]> (delete src (expires (sdb s1))) | None => delete src (expires (sdb s1)) end)
        [SignalModifiedKey src; SignalModifiedKey dst; Notify NOTIFY_GENERIC "rename_from" src; Notify NOTIFY_GENERIC "rename_to" dst] s s').
Proof.
  intros Hsrc Hdst Hne Hw Hvac Hv Hx Hr Hd Hev. apply runs_bind, runs_add; [done..|]. intros d2 Hd2 Hv2 He2. apply runs_bind.
  assert (runs (if negb (default (-1) x =? -1) then on_db (setExpire dst (default (-1) x)) else mret tt) (with_db s1 d2)
    (fun s' u => u = Some tt /\ exists d3, s' = with_db s1 d3 /\ db_wf d3 /\ view d3 = view d2 /\
      expires d3 = match time_of_key x with Some t => <[dst := t]> (expires d2) | None => expires d2 end)) as Hset.
  { destruct x as [t|]; cbn [default time_of_key]; [|apply runs_ret; by split; [|exists d2]]. change (id t) with t.
    destruct (t =? -1); cbn [negb]; [apply runs_ret; by split; [|exists d2]|].
    apply runs_set_expire; [done|done|srv; rewrite Hv2, lookup_insert_eq; by eexists|]. srv. rewrite (Hx t) by done. intros d3 Hd3 Hv3 He3. split; [done|]. by exists d3. }
  eapply runs_impl; [exact Hset|]. intros s' u (-> & d3 & -> & Hd3 & Hv3 & He3). cbv beta iota.
  apply runs_bind, runs_delete; [done..|]. srv. intros d4 b Hd4 _ _ Hv4 He4 _.
  apply runs_bind, runs_signal, runs_bind, runs_signal, runs_bind, runs_notify, runs_bind, runs_notify, runs_bind, runs_dirty, runs_reply.
  split_and!; srv; [done| | |by rewrite Hr|by rewrite Hd|by rewrite Hev, <- !app_assoc].
  - rewrite Hv4, Hv3, Hv2, Hv, delete_insert_ne, delete_delete by done. apply map_eq. intros k. destruct (decide (k = dst)) as [->|?]; [by rewrite !lookup_insert_eq|].
    rewrite !lookup_insert_ne by done. destruct (decide (k = src)) as [->|?]; [by rewrite lookup_delete_ne, !lookup_delete_eq by done|by rewrite !lookup_delete_ne].
  - rewrite He4, He3, He2. destruct (time_of_key x); [|done]. by rewrite delete_insert_ne.
Qed.

Lemma runs_rename c src dst nx (s : server DB) :
  storable src -> storable dst -> db_wf (sdb s) -> runs (renameGenericCommand [c; src; dst] nx) s (fun s' _ => rename_outcome src dst nx s s').
Proof.
  intros Hsrc Hdst Hw. unfold rename_outcome. set (v := view (sdb s)). set (x := expires (sdb s)).
  unfold renameGenericCommand. apply runs_bind, (runs_arg _ _ src); [done|]. apply runs_bind, (runs_arg _ _ dst); [done|]. apply runs_bind. unfold lookupKeyWriteOrReply.
  apply runs_bind, runs_write; [done..|]. fold v x. intros d Hd Hv He _. destruct (v !! src) as [o|] eqn:Es; [|apply runs_reply_return; by split_and!]. apply runs_ret.
  case_bool_decide as Hsame; [apply runs_reply; by split_and!|].
  apply runs_bind, runs_get_expire; [done|done|srv; rewrite Hv; fold v; by rewrite Es|]. srv. rewrite Hv, He. fold v x. intros d2 Hd2 Hv2 He2 _.
  apply runs_bind, runs_write; [done..|]. srv. rewrite Hv2, He2. fold v x. intros d3 Hd3 Hv3 He3 Hvac.
  assert (forall t, x !! src = Some t -> expired t = false) as Hlive by (intros t; by apply expires_live). apply runs_bind. case_bool_decide as Hex; cbn [andb].
  - destruct nx; [apply runs_reply_return; by split_and!|]. apply runs_bind, runs_delete; [done..|]. srv. rewrite Hv3, He3. intros d4 b Hd4 _ _ Hv4 He4 Hvac4. apply runs_ret.
    eapply runs_impl; [by apply (runs_rename_apply src dst o (x !! src) shared_ok s (with_db (with_db (with_db (with_db s d) d2) d3) d4))|]. srv. by rewrite He4.
  - rewrite andb_false_r. apply runs_ret. assert (v !! dst = None) as Hn by (by apply eq_None_not_Some).
    eapply runs_impl; [apply (runs_rename_apply src dst o (x !! src) (if nx then shared_cone else shared_ok) s (with_db (with_db (with_db s d) d2) d3)); try done; srv; auto; [rewrite Hv3; symmetry; by apply delete_id]|].
    srv. by rewrite He3.
Qed.

(** C32: RENAME moves the object of the source key and its expire time to the target,
    whose old value and expire time are gone, and removes the source; RENAMENX does
    so only when the target does not exist; a missing source is an error, and
    renaming a key to itself changes nothing. *)
Theorem rename_commands_correct c src dst (s : server DB) :
  storable src -> storable dst -> db_wf (sdb s) ->
  runs (renameCommand [c; src; dst]) s (fun s' _ => rename_outcome src dst false s s') /\
  runs (renamenxCommand [c; src; dst]) s (fun s' _ => rename_outcome src dst true s s').
Proof. intros Hsrc Hdst Hw. by split; apply runs_rename. Qed.

(** *** Deleting and counting *)

Lemma runs_count_keys keys flags n (s : server DB) (Q : _ -> _ -> Prop) :
  Forall storable keys -> db_wf (sdb s) -> Z.land flags LOOKUP_WRITE = 0 ->
  (forall s', replied [] s s' -> Q s' (Some (n + zlen (filter (fun k => is_Some (view (sdb s) !! k)) keys)))) ->
  runs (count_keys keys flags n) s Q.
Proof.
  revert n s Q. induction keys as [|k keys IH]; intros n s Q Hks Hw Hf HQ; cbn [count_keys].
  { apply runs_ret. specialize (HQ s). change (zlen _) with 0 in HQ. rewrite Z.add_0_r in HQ. apply HQ. split_and!; try done. by rewrite app_nil_r. }
  apply Forall_cons in Hks as [Hk Hks]. apply runs_bind, runs_read_flags; [done..|]. intros d Hd Hv He. apply IH; [done..|]. srv. rewrite Hv. intros s' (? & ? & ? & ? & ? & ?).
  srv. assert (replied [] s s') as Hr by (split_and!; congruence). specialize (HQ s' Hr). destruct (view (sdb s) !! k) as [o|] eqn:Ek.
  - rewrite filter_cons_True in HQ by (by rewrite Ek). rewrite zlen_cons in HQ. by replace (n + 1 + _) with (n + (1 + zlen (filter (fun k => is_Some (view (sdb s) !! k)) keys))) by lia.
  - by rewrite filter_cons_False in HQ by (rewrite Ek; by intros []).
Qed.

(** The keys that exist, each once, in the order they are deleted. *)
Fixpoint present (v : gmap (list Z) robj) (keys : list (list Z)) : list (list Z) :=
  match keys with
  | [] => []
  | k :: keys => if v !! k then k :: present (delete k v) keys else present v keys
  end.

Lemma present_spec v keys : NoDup (present v keys) /\ forall k, k ∈ present v keys <-> k ∈ keys /\ is_Some (v !! k).
Proof.
  revert v. induction keys as [|k keys IH]; intros v; cbn [present].
  { split; [constructor|]. intros k. rewrite elem_of_nil. tauto. }
  destruct (v !! k) as [o|] eqn:Ek.
  - destruct (IH (delete k v)) as [Hn He]. split.
    + constructor; [|done]. rewrite He, lookup_delete_eq. intros [_ []]. done.
    + intros k'. rewrite !elem_of_cons, He. destruct (decide (k' = k)) as [->|Hne]; [rewrite Ek; split; [intros _; split; [by left|by eexists]|by left]|].
      rewrite lookup_delete_ne by done. tauto.
  - destruct (IH v) as [Hn He]. split; [done|]. intros k'. rewrite elem_of_cons, He. split; [tauto|]. intros [[->|?] Hs]; [rewrite Ek in Hs; by destruct Hs|done].
Qed.

Lemma runs_del_loop keys lazy n (s : server DB) (Q : _ -> _ -> Prop) :
  primary (DB := DB) -> Forall storable keys -> db_wf (sdb s) ->
  (forall d, let ks := present (view (sdb s)) keys in db_wf d -> view d = foldl (fun m k => delete k m) (view (sdb s)) keys ->
    expires d = foldl (fun m k => delete k m) (expires (sdb s)) keys ->
    Q (Server d (reply s) (dirty s + zlen ks) (events s ++ concat ((fun k => [SignalModifiedKey k; Notify NOTIFY_GENERIC "del" k]) <$> ks))) (Some (n + zlen ks))) ->
  runs (del_loop keys lazy n) s Q.
Proof.
  intros Hp. revert n s Q. induction keys as [|k keys IH]; intros n s Q Hks Hw HQ; cbn [del_loop].
  { apply runs_ret. specialize (HQ (sdb s) Hw eq_refl eq_refl). cbn in HQ. change (zlen []) with 0 in HQ. rewrite !Z.add_0_r, app_nil_r in HQ. by destruct s. }
  apply Forall_cons in Hks as [Hk Hks]. apply runs_bind, runs_expire_if_needed; [done..|]. intros d b Hd Hv He Hvac.
  apply runs_bind, runs_delete_lazily, runs_delete; [done..|]. srv. rewrite Hv, He. intros d2 b2 Hd2 Hyes Hno Hv2 He2 _. apply runs_bind.
  cbn [present foldl] in HQ. destruct (view (sdb s) !! k) as [o|] eqn:Ek.
  - rewrite Hyes by (by eexists). apply runs_bind, runs_signal, runs_bind, runs_notify, runs_bind, runs_dirty, runs_ret, IH; [done..|]. srv. rewrite Hv2, He2.
    intros d3 Hd3 Hv3 He3. specialize (HQ d3 Hd3 Hv3 He3). rewrite zlen_cons in HQ. cbn [fmap list_fmap concat app] in HQ. rewrite <- !app_assoc. cbn [app].
    by replace (n + 1 + _) with (n + (1 + zlen (present (delete k (view (sdb s))) keys))) by lia; rewrite <- Z.add_assoc.
  - rewrite Hno by (by apply Hvac). apply runs_ret, IH; [done..|]. srv. rewrite Hv2, He2, delete_id by done. intros d3 Hd3 Hv3 He3. rewrite delete_id in HQ by done.
    by apply HQ.
Qed.

Lemma runs_del_generic c keys lazy (s : server DB) :
  primary (DB := DB) -> Forall storable keys -> db_wf (sdb s) -> runs (delGenericCommand (c :: keys) lazy) s (fun s' _ => del_outcome keys s s').
Proof.
  intros Hp Hks Hw. unfold delGenericCommand. apply runs_bind. cbn [drop]. apply runs_del_loop; [done..|]. intros d ks Hd Hv He. apply runs_reply. exists ks.
  destruct (present_spec (view (sdb s)) keys). by split_and!.
Qed.

(** C33: DEL and UNLINK, on a primary, remove the keys they are given with their
    expire times, and answer how many existed, counting a repeated key once; EXISTS
    and TOUCH count the keys that exist, a repeated one as often as it is given, and
    TYPE answers the name of the type in the table [type_names], or none; none of
    these three changes anything, and a key whose time is over counts for nothing.
    PERSIST removes the expire time of a key that has one, and answers zero and
    changes nothing otherwise. *)
Theorem key_commands_correct c key keys module_type (s : server DB) :
  Forall storable (key :: keys) -> db_wf (sdb s) ->
  let n := zlen (filter (fun k => is_Some (view (sdb s) !! k)) keys) in
  (primary (DB := DB) ->
    runs (delCommand cfg (c :: keys)) s (fun s' _ => del_outcome keys s s') /\
    runs (unlinkCommand (c :: keys)) s (fun s' _ => del_outcome keys s s')) /\
  runs (existsCommand (c :: keys)) s (fun s' _ => replied [ReplyInteger n] s s') /\
  runs (touchCommand (c :: keys)) s (fun s' _ => replied [ReplyInteger n] s s') /\
  runs (typeCommand module_type [c; key]) s (fun s' _ => exists name, replied [ReplyStatus name] s s' /\
    match view (sdb s) !! key with
    | None => name = "none"%string
    | Some o => (type o, name) ∈ type_names module_type
    end) /\
  runs (persistCommand [c; key]) s (fun s' _ => persist_outcome key s s').
Proof.
  intros [Hk Hks]%Forall_cons Hw n. split_and!; [intros Hp; split; by apply runs_del_generic| | | |by apply runs_persist].
  - unfold existsCommand. apply runs_bind, runs_count_keys; [done..|]. intros s' (? & ? & ? & Hr & ? & ?). rewrite app_nil_r in Hr. apply runs_reply. rewrite Z.add_0_l. split_and!; srv; try congruence. by rewrite Hr.
  - unfold touchCommand. apply runs_bind, runs_count_keys; [done..|]. intros s' (? & ? & ? & Hr & ? & ?). rewrite app_nil_r in Hr. apply runs_reply. rewrite Z.add_0_l. split_and!; srv; try congruence. by rewrite Hr.
  - unfold typeCommand. apply runs_bind, (runs_arg _ _ key); [done|]. apply runs_bind, runs_read_flags; [done..|]. intros d Hd Hv He. apply runs_reply. eexists. split; [by split_and!|].
    destruct (view (sdb s) !! key) as [o|]; [|done]. unfold type_names, getObjectTypeName. destruct (type o); set_solver.
Qed.

End Commands.

(** * Examples *)

(** A server with a counter that expires. *)
Definition timed_server (t : Z) : server plain_db := Server ({[sample_key := RInt 1 41]}, {[sample_key := t]}) [] 0 [].

Lemma expire_commands_correct_witness :
  exists s' r, pexpireCommand (DB := plain_db) sample_config [chars "PEXPIRE"; sample_key; ll_repr 5; chars "Gt"] (timed_server 1700000000001) = Ok (s', r) /\
    expires (sdb s') !! sample_key = Some 1700000000005.
Proof.
  destruct (expire_commands_correct (DB := plain_db) sample_config (chars "PEXPIRE") sample_key (ll_repr 5) [chars "Gt"] (timed_server 1700000000001)
    ltac:(exact I) ltac:(exact I) ltac:(zconst; cbn; lia)) as [_ [(s' & r & E & Hs) _]].
  exists s', r. split; [exact E|]. destruct Hs as [[Hno _]|(opts & Hn & Hs)]; [by destruct (Hno [GT]); repeat constructor|].
  inversion Hn as [|o ? ? ? Ho Hnil]; subst. inversion Hnil; subst. assert (o = GT) as -> by (by eapply names_unique). clear Hn Hnil.
  assert (absolute_ms UNIT_MILLISECONDS (mstime sample_config) 5 = Some 1700000000005) as Ea by (by vm_compute).
  assert (opts_error [GT] = None) as Eo by (by vm_compute). assert (number (ll_repr 5) = Some 5) as En by (by vm_compute). rewrite Eo, En, Ea in Hs.
  destruct Hs as (ms & _ & _ & _ & Hx & _). rewrite Hx. by vm_compute.
Defined.

Lemma ttl_commands_correct_witness :
  exists s' r, ttlCommand (DB := plain_db) sample_config [chars "TTL"; sample_key] (timed_server 1700000001500) = Ok (s', r) /\ reply s' = [ReplyInteger 2].
Proof.
  destruct (ttl_commands_correct (DB := plain_db) sample_config (chars "TTL") sample_key (timed_server 1700000001500)
    ltac:(exact I) ltac:(exact I) ltac:(zconst; cbn; lia)) as [(s' & r & E & _ & _ & _ & Hr & _) _].
  - intros t Et. assert (Some 1700000001500 = Some t) as [= <-] by (rewrite <- Et; by vm_compute). zconst. lia.
  - exists s', r. split; [exact E|]. rewrite Hr. by vm_compute.
Defined.

Lemma expiretime_overflows_witness :
  exists s' r n, expiretimeCommand (DB := plain_db) sample_config [chars "EXPIRETIME"; sample_key] (timed_server INT64_MAX) = Ok (s', r) /\
    n < 0 /\ reply s' = [ReplyInteger n].
Proof.
  destruct (expiretime_overflows (DB := plain_db) sample_config (chars "EXPIRETIME") sample_key INT64_MAX (timed_server INT64_MAX)
    ltac:(exact I) ltac:(exact I) eq_refl ltac:(by eexists) ltac:(by vm_compute) ltac:(zconst; lia)) as (s' & r & E & n & Hn & _ & _ & _ & Hr & _).
  exists s', r, n. split; [exact E|]. split; [lia|exact Hr].
Defined.

Lemma rename_commands_correct_witness :
  exists s' r, renameCommand (DB := plain_db) [chars "RENAME"; sample_key; chars "other"] (timed_server 1700000001500) = Ok (s', r) /\
    view (sdb s') !! chars "other" = Some (RInt 1 41) /\ expires (sdb s') !! chars "other" = Some 1700000001500 /\ view (sdb s') !! sample_key = None.
Proof.
  destruct (rename_commands_correct (DB := plain_db) (chars "RENAME") sample_key (chars "other") (timed_server 1700000001500)
    ltac:(exact I) ltac:(exact I) ltac:(exact I)) as [(s' & r & E & Hr) _].
  exists s', r. split; [exact E|]. destruct Hr as (_ & Hv & Hx & _). rewrite Hv, Hx. split; [exact (lookup_insert_eq _ _ _)|split; [exact (lookup_insert_eq _ _ _)|]].
  rewrite lookup_insert_ne by done. apply lookup_delete_eq.
Defined.

Lemma key_commands_correct_witness :
  exists s' r, delCommand (DB := plain_db) sample_config [chars "DEL"; sample_key; chars "none"; sample_key] (timed_server 1700000001500) = Ok (s', r) /\
    exists ks : list (list Z), NoDup ks /\ reply s' = [ReplyInteger (zlen ks)] /\ view (sdb s') !! sample_key = None.
Proof.
  destruct (key_commands_correct (DB := plain_db) sample_config (chars "DEL") sample_key [sample_key; chars "none"; sample_key] "mod" (timed_server 1700000001500)
    ltac:(by repeat constructor) ltac:(exact I)) as [Hdel _]. destruct (Hdel I) as [(s' & r & E & ks & Hn & _ & _ & Hv & _ & Hr & _) _].
  exists s', r. split; [exact E|]. exists ks. split; [exact Hn|]. split; [exact Hr|]. rewrite Hv. by vm_compute.
Defined.
