(* ===== verification/Dump.v ===== *)
(** DUMP and RESTORE ([cluster.c], with the objects of [rdb.c]): the serialized form of
    a value with its version and checksum, and the commands that make it and that
    create a key from it.

    Strings are saved and loaded by [Rdb]; the encodings of the other types are a
    parameter.  RESTORE of what DUMP gave, on any host, makes the same string; damage
    to a payload is detected; the commands run on the key space of [Object]. *)
From S2P Require Import Prelude Endian Util Glob Sds Object StringCommands StringRanges StringSafety Lzf Crc Rio Rdb RdbObject KeyCommands.
From stdpp Require Import gmap list strings.

Open Scope Z_scope.

(** * Definitions *)

(** Where buffers are in memory, and the encodings of the types that are no strings. *)
Record dump_env := DumpEnv {
  place : list Z -> Z;
  others : @other_types (buffer_stream place);
  skip_checksum_validation : bool;
}.

Definition shared_busykeyerr : reply_item := ReplyError "BUSYKEY Target key name already exists.".
Definition shared_absttl : robj := createStringObject (chars "ABSTTL").

Definition idletime_err : reply_item := ReplyError "Invalid IDLETIME value, must be >= 0".
Definition freq_err : reply_item := ReplyError "Invalid FREQ value, must be >= 0 and <= 255".
Definition ttl_err : reply_item := ReplyError "Invalid TTL value, must be >= 0".
Definition payload_err : reply_item := ReplyError "DUMP payload version or checksum are wrong".
Definition format_err : reply_item := ReplyError "Bad data format".

Section Payload.
Context `{Host} `{Allocator} (cfg : config) (env : rdb_env) (de : dump_env).
#[local] Instance dump_stream : Stream := buffer_stream (place de).

(** The buffer of the payload. *)
Definition createDumpPayload (o : robj) (key : list Z) : res (list Z) :=
  '(payload, n) ← rdbSaveObjectType (others de) o (rioInitWithBuffer (place de) []);
  assert! (negb (n =? 0));
  '(payload, n) ← rdbSaveObject cfg env (others de) o key payload;
  assert! (negb (n =? 0));
  let ptr := (rio_io payload).1 in
  let ptr := ptr ++ [Z.land RDB_VERSION 0xff; Z.land (Z.shiftr RDB_VERSION 8) 0xff] in
  crc ← crc64 0 (place de ptr) ptr;
  crc ← memrev64ifbe (host_bytes 8 crc);
  Ok (ptr ++ crc).

(** [true] for [C_OK]. *)
Definition verifyDumpPayload (p : list Z) : res bool :=
  let len := zlen p in
  if len <? 10 then Ok false
  else
    let footer := len - 10 in
    f1 ← rd1 p (footer + 1);
    f0 ← rd1 p footer;
    let rdbver := Z.lor (Z.shiftl f1 8) f0 in
    if rdbver >? RDB_VERSION then Ok false
    else if skip_checksum_validation de then Ok true
    else
      data ← rd p 0 (len - 8);
      crc ← crc64 0 (place de p) data;
      crc ← memrev64ifbe (host_bytes 8 crc);
      stored ← rd p (footer + 2) 8;
      Ok (bool_decide (crc = stored)).

(** The object in a payload: the type and the value, [None] when either is bad. *)
Definition load_payload (p key : list Z) : res (option robj) :=
  '(payload, type) ← rdbLoadObjectType (rioInitWithBuffer (place de) p);
  if type =? -1 then Ok None
  else
    '(_, obj) ← rdbLoadObject cfg env (others de) type key payload;
    Ok (match obj with inl _ => None | inr obj => Some obj end).

(** ** The commands *)

Context {DB : Type} `{Keyspace DB}.

Definition dumpCommand (argv : list (list Z)) : cmd DB unit :=
  key ← arg argv 1;
  o ← on_db (lookupKeyRead key);
  match o with
  | None => addReply ReplyNull
  | Some o =>
      payload ← lift (createDumpPayload o key);
      addReply (ReplyBulk payload)
  end.

Record restore_opts := RestoreOpts { replace_ : bool; absttl : bool; lfu_freq : Z; lru_idle : Z }.

(** The loop over the options; -1 stands for a frequency or an idle time not given. *)
Fixpoint restore_options (args : list (list Z)) (o : restore_opts) : cmd DB restore_opts :=
  match args with
  | [] => mret o
  | a :: args =>
      if strcase_eq a "replace" then restore_options args (RestoreOpts true (absttl o) (lfu_freq o) (lru_idle o))
      else if strcase_eq a "absttl" then restore_options args (RestoreOpts (replace_ o) true (lfu_freq o) (lru_idle o))
      else
        match args with
        | x :: args =>
            if strcase_eq a "idletime" && (lfu_freq o =? -1) then
              v ← getLongLongFromObjectOrReply (Some (createStringObject x)) None;
              if v <? 0 then reply_and_return idletime_err
              else restore_options args (RestoreOpts (replace_ o) (absttl o) (lfu_freq o) v)
            else if strcase_eq a "freq" && (lru_idle o =? -1) then
              v ← getLongLongFromObjectOrReply (Some (createStringObject x)) None;
              if (v <? 0) || (v >? 255) then reply_and_return freq_err
              else restore_options args (RestoreOpts (replace_ o) (absttl o) v (lru_idle o))
            else reply_and_return shared_syntaxerr
        | [] => reply_and_return shared_syntaxerr
        end
  end.

(** The access time [objectSetLRUOrLFU] gives the object is not part of the model. *)
Definition restoreCommand (argv : list (list Z)) : cmd DB unit :=
  o ← restore_options (drop 4 argv) (RestoreOpts false false (-1) (-1));
  key ← arg argv 1;
  busy ← (if negb (replace_ o) then x ← on_db (lookupKeyWrite key); mret (bool_decide (is_Some x)) else mret false);
  if (busy : bool) then reply_and_return shared_busykeyerr
  else
    ttl_arg ← argo argv 2;
    ttl ← getLongLongFromObjectOrReply ttl_arg None;
    if ttl <? 0 then reply_and_return ttl_err
    else
      p ← arg argv 3;
      ok ← lift (verifyDumpPayload p);
      if negb ok then reply_and_return payload_err
      else
        obj ← lift (load_payload p key);
        match obj with
        | None => reply_and_return format_err
        | Some obj =>
            deleted ← (if replace_ o then on_db (dbDelete key) else mret false);
            ttl ← (if negb (ttl =? 0) && negb (absttl o) then lift (arith64 (fwrapv cfg) (ttl + mstime cfg)) else mret ttl);
            if negb (ttl =? 0) && checkAlreadyExpired cfg ttl then
              (if (deleted : bool) then
                 rewriteClientCommandVector [shared_del; createStringObject key];;
                 signalModifiedKey key;;
                 notifyKeyspaceEvent NOTIFY_GENERIC "del" key;;
                 add_dirty 1
               else mret tt);;
              addReply shared_ok
            else
              on_db (dbAdd key obj);;
              (if negb (ttl =? 0) then
                 on_db (setExpire key ttl);;
                 if negb (absttl o) then
                   ttl_obj ← lift (createStringObjectFromLongLong cfg ttl);
                   rewriteClientCommandArgument 2 ttl_obj;;
                   rewriteClientCommandArgument (zlen argv) shared_absttl
                 else mret tt
               else mret tt);;
              signalModifiedKey key;;
              notifyKeyspaceEvent NOTIFY_GENERIC "restore" key;;
              addReply shared_ok;;
              add_dirty 1
        end.

End Payload.

(** * The payload *)

(** A body with its checksum, least significant byte first. *)
Definition sealed (body : list Z) : list Z := body ++ le_bytes 8 (crc_of 0 body).

Section PayloadLemmas.
Context `{Host} `{Allocator} (cfg : config) (env : rdb_env) (de : dump_env).
#[local] Existing Instance dump_stream.
#[local] Instance dump_laws : @StreamLaws (dump_stream de) := buffer_laws (place de).

(** On the buffer a save succeeds. *)
Lemma saves_in_buffer (f : rdbm Z) bs n r : saves f bs n -> rio_ok r -> write_error r = false -> exists r', f r = Ok (r', n) /\ written r bs r'.
Proof. intros Hf Hr Hw. destruct (Hf r Hr Hw) as (r' & k & E & [[-> Hr']|(_ & _ & [])]). by exists r'. Qed.

Lemma footer_ok r : Forall is_byte r -> crc64 0 (place de r) r = Ok (crc_of 0 r) /\ memrev64ifbe (host_bytes 8 (crc_of 0 r)) = Ok (le_bytes 8 (crc_of 0 r)).
Proof. intros Hr. split; [apply crc64_ok; [apply word_0|done]|apply memrev64ifbe_host]. Qed.

(** DUMP of a string gives its type, one of its codes, the version and the checksum,
    on every host. *)
Lemma payload_ok o key s : obj_wf o -> obj_str o = Some s -> savable cfg env s ->
  exists code, encodes code s /\ Forall is_byte ([0] ++ code ++ [10; 0]) /\ createDumpPayload cfg env de o key = Ok (sealed ([0] ++ code ++ [10; 0])).
Proof.
  intros Hw Ho Hs. destruct (saves_object (H2 := dump_laws) cfg env (others de) o key s Hw Ho Hs) as (code & Henc & Hpos & Hsave). exists code. split; [done|].
  unfold createDumpPayload.
  destruct (saves_in_buffer (rdbSaveObjectType (others de) o) [0] 1 (rioInitWithBuffer (place de) [])) as (r1 & E1 & Hr1 & Hw1 & _ & Hs1); [by eapply saves_object_type|by apply init_ok|done|].
  setoid_rewrite E1. rewrite bind_Ok. cbv beta iota. cbn [Z.eqb negb].
  destruct (saves_in_buffer _ code (zlen code) r1 Hsave) as (r2 & E2 & Hr2 & _ & _ & Hs2); [apply Hr1|done|].
  setoid_rewrite E2. rewrite bind_Ok. cbv beta iota.
  zfalse (zlen code =? 0). cbn [negb]. pose proof (proj2 (ok_io r2 (passed_ok _ _ _ Hr2))) as Hb. change (stored (rio_io r2)) with (rio_io r2).1 in Hs2. change (stored (rio_io r1)) with (rio_io r1).1 in Hs1, Hs2.
  cbn in Hs1. rewrite Hs1 in Hs2. rewrite Hs2 in Hb |- *. change (Z.land RDB_VERSION 255) with 10. change (Z.land (Z.shiftr RDB_VERSION 8) 255) with 0. rewrite <- app_assoc.
  assert (Forall is_byte ([0] ++ code ++ [10; 0])) as Hbody. { apply Forall_app in Hb as [? ?]. rewrite !Forall_app. split_and!; [done..|by forall_list]. }
  split; [done|]. destruct (footer_ok _ Hbody) as [-> Ec]. rewrite bind_Ok, Ec, bind_Ok. done.
Qed.

(** The value in bytes that begin with the type and a code of a string is the string. *)
Lemma load_payload_encoded code rest key s :
  encodes code s -> Forall is_byte s -> zlen s < MAX_STRING -> zlen s + 18 <= max_request -> Forall is_byte ([0] ++ code ++ rest) -> zlen ([0] ++ code ++ rest) < 2 ^ 64 ->
  exists o, load_payload cfg env de ([0] ++ code ++ rest) key = Ok (Some o) /\ stands_for s o.
Proof.
  intros Henc Hb Hsz Hroom Hp Hlen. destruct (loads_object (H2 := dump_laws) cfg env (others de) code key s Henc Hb Hsz Hroom) as (o & Hobj & Ho). exists o. split; [|done].
  assert (offers (rioInitWithBuffer (place de) ([0] ++ code ++ rest)) [0] (code ++ rest)) as Hoff.
  { split; [by apply init_ok|]. split; [done|]. split; [done|]. done. }
  pose proof (loads_object_type (H2 := dump_laws)) as Htype.
  destruct (Htype _ _ Hoff) as (r1 & E1 & Hr1). destruct (Hobj r1 rest) as (r2 & E2 & _); [by eapply consumed_offers|].
  unfold load_payload. setoid_rewrite E1. rewrite bind_Ok. cbv beta iota. cbn [Z.eqb]. setoid_rewrite E2. by rewrite bind_Ok.
Qed.

(** The value in such a payload. *)
Lemma load_payload_ok code key s :
  encodes code s -> Forall is_byte s -> zlen s < MAX_STRING -> zlen s + 18 <= max_request -> Forall is_byte (sealed ([0] ++ code ++ [10; 0])) ->
  exists o, load_payload cfg env de (sealed ([0] ++ code ++ [10; 0])) key = Ok (Some o) /\ stands_for s o.
Proof.
  intros Henc Hb Hsz Hroom Hp. pose proof (encodes_len code s Henc) as Hlen. unfold MAX_STRING in Hsz. set (foot := [10; 0] ++ le_bytes 8 (crc_of 0 ([0] ++ code ++ [10; 0]))).
  assert (sealed ([0] ++ code ++ [10; 0]) = [0] ++ code ++ foot) as E by (unfold sealed, foot; by rewrite <- !app_assoc). rewrite E in Hp |- *.
  apply load_payload_encoded; [done..|]. rewrite !zlen_app. change (zlen foot) with 10. change (zlen [0]) with 1. lia.
Qed.

(** What the verification tests: the version, and that the last eight bytes are the
    checksum of the others. *)
Lemma verify_ok body v0 v1 tail :
  Forall is_byte (body ++ [v0; v1] ++ tail) -> zlen tail = 8 ->
  verifyDumpPayload de (body ++ [v0; v1] ++ tail) =
  Ok (if v1 * 256 + v0 >? RDB_VERSION then false else if skip_checksum_validation de then true else bool_decide (le_bytes 8 (crc_of 0 (body ++ [v0; v1])) = tail)).
Proof.
  intros Hp Hl. pose proof (zlen_nonneg body). unfold verifyDumpPayload. cbv zeta. set (p := body ++ [v0; v1] ++ tail). assert (zlen p = zlen body + 10) as Ep by (unfold p; rewrite !zlen_app, Hl; change (zlen [v0; v1]) with 2; lia).
  rewrite Ep. zfalse (zlen body + 10 <? 10). replace (zlen body + 10 - 10) with (zlen body) by lia. replace (zlen body + 10 - 8) with (zlen (body ++ [v0; v1])) by (rewrite zlen_app; change (zlen [v0; v1]) with 2; lia).
  apply Forall_app in Hp as [Hb Hp]. apply Forall_app in Hp as [Hv Ht]. apply Forall_cons in Hv as [Hv0 Hv]. apply Forall_cons in Hv as [Hv1 _].
  assert (rd1 p (zlen body + 1) = Ok v1) as -> by (unfold p; change ([v0; v1] ++ tail) with ([v0] ++ v1 :: tail); rewrite app_assoc; apply rd1_app; rewrite zlen_app; done).
  assert (rd1 p (zlen body) = Ok v0) as -> by (unfold p; by apply rd1_app). rewrite !bind_Ok. unfold is_byte in *. rewrite Z.lor_comm, lor_shiftl by lia. change (2 ^ 8) with 256. rewrite (Z.add_comm v0).
  destruct (_ >? RDB_VERSION); [done|]. destruct (skip_checksum_validation de); [done|].
  assert (rd p 0 (zlen (body ++ [v0; v1])) = Ok (body ++ [v0; v1])) as -> by (unfold p; rewrite app_assoc; by apply rd_app_head). rewrite bind_Ok.
  rewrite crc64_ok by (apply word_0 || by rewrite Forall_app; split; [|forall_list]). rewrite bind_Ok, memrev64ifbe_host, bind_Ok.
  replace (rd p (zlen body + 2) 8) with (Ok tail) by (symmetry; unfold p; rewrite app_assoc; apply rd_app_tail; [rewrite zlen_app; done|done]). by rewrite bind_Ok.
Qed.

End PayloadLemmas.

(** * RESTORE *)

(** ** Specification *)

Inductive restore_option := REPLACE | ABSTTL | IDLETIME (v : Z) | FREQ (v : Z).

(** The arguments spell the options. *)
Inductive spells : list restore_option -> list (list Z) -> Prop :=
| spells_nil : spells [] []
| spells_replace a opts args : strcase_eq a "replace" = true -> spells opts args -> spells (REPLACE :: opts) (a :: args)
| spells_absttl a opts args : strcase_eq a "absttl" = true -> spells opts args -> spells (ABSTTL :: opts) (a :: args)
| spells_idletime a x v opts args : strcase_eq a "idletime" = true -> number x = Some v -> 0 <= v -> spells opts args -> spells (IDLETIME v :: opts) (a :: x :: args)
| spells_freq a x v opts args : strcase_eq a "freq" = true -> number x = Some v -> 0 <= v <= 255 -> spells opts args -> spells (FREQ v :: opts) (a :: x :: args).

Definition set_option (o : restore_opts) (x : restore_option) : restore_opts :=
  match x with
  | REPLACE => RestoreOpts true (absttl o) (lfu_freq o) (lru_idle o)
  | ABSTTL => RestoreOpts (replace_ o) true (lfu_freq o) (lru_idle o)
  | IDLETIME v => RestoreOpts (replace_ o) (absttl o) (lfu_freq o) v
  | FREQ v => RestoreOpts (replace_ o) (absttl o) v (lru_idle o)
  end.

Definition no_options : restore_opts := RestoreOpts false false (-1) (-1).

(** An idle time is not combined with a frequency. *)
Fixpoint compatible (o : restore_opts) (opts : list restore_option) : Prop :=
  match opts with
  | [] => True
  | x :: opts => match x with IDLETIME _ => lfu_freq o = -1 | FREQ _ => lru_idle o = -1 | _ => True end /\ compatible (set_option o x) opts
  end.

Definition option_errors : list reply_item := [shared_syntaxerr; integer_err; idletime_err; freq_err].

(** The time a key gets; none for 0.  The sum with the clock wraps at 64 bits. *)
Definition restore_time (cfg : config) (o : restore_opts) (ttl : Z) : option Z :=
  if ttl =? 0 then None else Some (if absttl o then ttl else wrapS 64 (ttl + mstime cfg)).

Section Spec.
Context {DB : Type} `{KeyspaceLaws DB} (cfg : config).

(** The key is created with the value and its time, or is gone when the time is over
    already; the command is propagated with the absolute time. *)
Definition restored (o : restore_opts) (argc : Z) (key : list Z) (ttl : Z) (obj : robj) (s s' : server DB) : Prop :=
  let v := view (sdb s) in
  let x := if replace_ o then delete key (expires (sdb s)) else expires (sdb s) in
  match restore_time cfg o ttl with
  | None => changed shared_ok (<[key := obj]> v) x [SignalModifiedKey key; Notify NOTIFY_GENERIC "restore" key] s s'
  | Some t =>
      if (t <=? mstime cfg) && negb (loading_or_replica cfg) then
        exists deleted : bool, (replace_ o = true -> is_Some (v !! key) -> deleted = true) /\ (replace_ o = false -> deleted = false) /\
          db_wf (sdb s') /\ view (sdb s') = delete key v /\ expires (sdb s') = x /\ reply s' = reply s ++ [shared_ok] /\
          dirty s' = (if deleted then dirty s + 1 else dirty s) /\
          events s' = events s ++ (if deleted then deleted_events false key else [])
      else exists ms, stands_for (ll_repr t) ms /\
        changed shared_ok (if expired t then delete key v else <[key := obj]> v) (if expired t then delete key x else <[key := t]> x)
          ((if absttl o then [] else [RewriteArgument 2 ms; RewriteArgument argc shared_absttl]) ++ [SignalModifiedKey key; Notify NOTIFY_GENERIC "restore" key]) s s'
  end.

(** The errors in the order they are found, given whether the payload is [accepted]
    and the [value] in it; then the outcome. *)
Definition restore_spec (key e : list Z) (args : list (list Z)) (accepted : bool) (value : option robj) (s s' : server DB) : Prop :=
  ((forall opts, spells opts args -> ~ compatible no_options opts) /\ exists err, err ∈ option_errors /\ replied [err] s s') \/
  exists opts, spells opts args /\ compatible no_options opts /\
    let o := foldl set_option no_options opts in
    if negb (replace_ o) && bool_decide (is_Some (view (sdb s) !! key)) then replied [shared_busykeyerr] s s'
    else
      match number e with
      | None => replied [integer_err] s s'
      | Some ttl =>
          if ttl <? 0 then replied [ttl_err] s s'
          else if negb accepted then replied [payload_err] s s'
          else
            match value with
            | None => replied [format_err] s s'
            | Some obj => restored o (4 + zlen args) key ttl obj s s'
            end
      end.

End Spec.

(** ** The options *)

(** The same word does not spell two options. *)
Ltac other_word :=
  match goal with
  | Ha : strcase_eq ?a ?n = true, Hb : strcase_eq ?a ?m = true |- _ =>
      let Hs := fresh in pose proof (strcase_other a n m Ha) as Hs; rewrite Hb in Hs; vm_compute in Hs; discriminate Hs
  end.

Lemma spells_unique args opts : spells opts args -> forall opts', spells opts' args -> opts = opts'.
Proof.
  induction 1 as [|a opts args Ha _ IH|a opts args Ha _ IH|a x v opts args Ha Hx Hv _ IH|a x v opts args Ha Hx Hv _ IH]; intros opts' Ho; inversion Ho; subst;
    try other_word;
    [done|f_equal; auto..| |]; simplify_eq; f_equal; auto.
Qed.

Section Commands.
Context {DB : Type} `{KeyspaceLaws DB}.

Lemma runs_restore_options args o (s : server DB) (Q : _ -> _ -> Prop) :
  (forall opts, spells opts args -> compatible o opts -> Q s (Some (foldl set_option o opts))) ->
  ((forall opts, spells opts args -> ~ compatible o opts) -> forall err, err ∈ option_errors -> Q (with_reply s err) None) ->
  runs (restore_options args o) s Q.
Proof.
  revert o Q. induction args as [args IH] using (induction_ltof1 _ length). unfold ltof in IH. intros o Q Hok Herr. destruct args as [|a args].
  { apply runs_ret, (Hok []); [constructor|done]. }
  cbn [restore_options]. destruct (strcase_eq a "replace") eqn:E1.
  { apply IH; [cbn; lia|intros opts Hs Hc; by apply (Hok (REPLACE :: opts)); [constructor|]|]. intros Hno. apply Herr. intros opts Hs. inversion Hs; subst; [|other_word..]. intros [_ Hc]. by eapply Hno. }
  destruct (strcase_eq a "absttl") eqn:E2.
  { apply IH; [cbn; lia|intros opts Hs Hc; by apply (Hok (ABSTTL :: opts)); [constructor|]|]. intros Hno. apply Herr. intros opts Hs. inversion Hs; subst; [other_word| |other_word..]. intros [_ Hc]. by eapply Hno. }
  destruct args as [|x args].
  { apply runs_reply_return, Herr; [|left]. intros opts Hs. inversion Hs; congruence. }
  destruct (strcase_eq a "idletime" && (lfu_freq o =? -1)) eqn:E3; [apply andb_true_iff in E3 as [E3 Hl%Z.eqb_eq]|].
  - assert (forall opts, spells opts (a :: x :: args) -> exists v opts', opts = IDLETIME v :: opts' /\ number x = Some v /\ 0 <= v /\ spells opts' args) as Hinv.
    { intros opts Hs. inversion Hs; subst; [congruence|congruence| |other_word]. by eauto 10. }
    apply runs_bind, runs_number.
    2:{ intros Hx. apply Herr; [|right; left]. intros opts Hs. destruct (Hinv opts Hs) as (v & opts' & _ & Hv & _). congruence. }
    intros v Hv. destruct (Z.ltb_spec v 0).
    { apply runs_reply_return, Herr; [|do 2 right; left]. intros opts Hs. destruct (Hinv opts Hs) as (w & opts' & _ & Hw & ? & _). assert (v = w) by congruence. lia. }
    apply IH; [cbn; lia|intros opts Hs Hc; by apply (Hok (IDLETIME v :: opts)); [econstructor|]|]. intros Hno. apply Herr.
    intros opts Hs. destruct (Hinv opts Hs) as (w & opts' & -> & Hw & _ & Hs'). assert (v = w) as <- by congruence. intros [_ Hc]. by eapply Hno.
  - destruct (strcase_eq a "freq" && (lru_idle o =? -1)) eqn:E4; [apply andb_true_iff in E4 as [E4 Hl%Z.eqb_eq]|].
    + assert (forall opts, spells opts (a :: x :: args) -> exists v opts', opts = FREQ v :: opts' /\ number x = Some v /\ 0 <= v <= 255 /\ spells opts' args) as Hinv.
      { intros opts Hs. inversion Hs; subst; [congruence|congruence|other_word|]. by eauto 10. }
      apply runs_bind, runs_number.
      2:{ intros Hx. apply Herr; [|right; left]. intros opts Hs. destruct (Hinv opts Hs) as (v & opts' & _ & Hv & _). congruence. }
      intros v Hv. destruct ((v <? 0) || (v >? 255)) eqn:Er.
      { apply runs_reply_return, Herr; [|do 3 right; left]. intros opts Hs. destruct (Hinv opts Hs) as (w & opts' & _ & Hw & ? & _). assert (v = w) by congruence. lia. }
      apply IH; [cbn; lia|intros opts Hs Hc; apply (Hok (FREQ v :: opts)); [econstructor; (done || lia)|done]|]. intros Hno. apply Herr.
      intros opts Hs. destruct (Hinv opts Hs) as (w & opts' & -> & Hw & _ & Hs'). assert (v = w) as <- by congruence. intros [_ Hc]. by eapply Hno.
    + apply runs_reply_return, Herr; [|left]. intros opts Hs. inversion Hs; subst; [congruence..| |]; intros [Hc _]; cbn in Hc; rewrite Hc in *.
      * match goal with Hi : strcase_eq a "idletime" = true |- _ => by rewrite Hi in E3 end.
      * match goal with Hi : strcase_eq a "freq" = true |- _ => by rewrite Hi in E4 end.
Qed.

End Commands.

Section Restore.
Context `{Host} `{Allocator} (cfg : config) (env : rdb_env) (de : dump_env) {DB : Type} `{KeyspaceLaws DB}.

(** A command that runs as specified, or ends as allowed. *)
Definition settles {A} (m : cmd DB A) (s : server DB) (Q : server DB -> option A -> Prop) (F : res (server DB * option A) -> Prop) : Prop :=
  runs m s Q \/ F (m s).

Lemma settles_bind {A B} (m : cmd DB A) (k : A -> cmd DB B) s Q F :
  runs m s (fun s' r => match r with Some a => settles (k a) s' Q F | None => Q s' None end) -> settles (x ← m; k x) s Q F.
Proof.
  intros (s' & r & E & Hr). unfold settles, runs, mbind, cmd_bind. rewrite E. destruct r; [exact Hr|left; by eexists _, _].
Qed.

Lemma settles_impl {A} (m : cmd DB A) s (Q R : _ -> _ -> Prop) F : settles m s Q F -> (forall s' r, Q s' r -> R s' r) -> settles m s R F.
Proof. intros [Hm|Hf] HR; [left; by eapply runs_impl|by right]. Qed.

(** The sum leaves 64 bits in a program that was not compiled to wrap. *)
Definition sum_undefined (ttl : Z) : Prop := fwrapv cfg = false /\ INT64_MAX < ttl + mstime cfg.

Lemma ttl_sum ttl : 0 <= ttl <= INT64_MAX -> 0 <= mstime cfg <= INT64_MAX ->
  (arith64 (fwrapv cfg) (ttl + mstime cfg) = Ok (wrapS 64 (ttl + mstime cfg)) /\ (0 < ttl -> wrapS 64 (ttl + mstime cfg) <> 0)) \/
  (arith64 (fwrapv cfg) (ttl + mstime cfg) = Fault /\ sum_undefined ttl).
Proof.
  intros Ht Hm. assert (0 < ttl -> wrapS 64 (ttl + mstime cfg) <> 0) as Hne.
  { intros Hp. unfold wrapS. change (64 - 1) with 63. zconst. destruct (Z.le_gt_cases (2 ^ 63) (ttl + mstime cfg)).
    - replace (ttl + mstime cfg + 2 ^ 63) with (ttl + mstime cfg - 2 ^ 63 + 1 * 2 ^ 64) by lia. rewrite Z.mod_add, Z.mod_small by lia. lia.
    - rewrite Z.mod_small by lia. lia. }
  unfold arith64, sum_undefined. destruct (fwrapv cfg); [by left|]. destruct (Z.le_gt_cases (ttl + mstime cfg) INT64_MAX).
  - left. split; [|done]. rewrite wrapS_small by (zconst; lia). apply sint64_ok. zconst. lia.
  - right. split; [|done]. unfold sint. zconst. change (2 ^ (64 - 1)) with (2 ^ 63). zfalse (ttl + mstime cfg <? 2 ^ 63). by rewrite andb_false_r.
Qed.

(** The last part of the command, when the key is not there (any more). *)
Lemma settles_restore_apply o (argv : list (list Z)) key ttl obj (deleted : bool) (s s1 : server DB) :
  storable key -> db_wf (sdb s1) -> vacant (sdb s1) key -> 0 <= ttl <= INT64_MAX -> 0 <= mstime cfg <= INT64_MAX ->
  view (sdb s1) = delete key (view (sdb s)) -> expires (sdb s1) = (if replace_ o then delete key (expires (sdb s)) else expires (sdb s)) ->
  reply s1 = reply s -> dirty s1 = dirty s -> events s1 = events s ->
  (replace_ o = true -> is_Some (view (sdb s) !! key) -> deleted = true) -> (replace_ o = false -> deleted = false) ->
  settles (ttl ← (if negb (ttl =? 0) && negb (absttl o) then lift (arith64 (fwrapv cfg) (ttl + mstime cfg)) else mret ttl);
    if negb (ttl =? 0) && checkAlreadyExpired cfg ttl then
      (if (deleted : bool) then
         rewriteClientCommandVector [shared_del; createStringObject key];;
         signalModifiedKey key;;
         notifyKeyspaceEvent NOTIFY_GENERIC "del" key;;
         add_dirty 1
       else mret tt);;
      addReply shared_ok
    else
      on_db (dbAdd key obj);;
      (if negb (ttl =? 0) then
         on_db (setExpire key ttl);;
         if negb (absttl o) then
           ttl_obj ← lift (createStringObjectFromLongLong cfg ttl);
           rewriteClientCommandArgument 2 ttl_obj;;
           rewriteClientCommandArgument (zlen argv) shared_absttl
         else mret tt
       else mret tt);;
      signalModifiedKey key;;
      notifyKeyspaceEvent NOTIFY_GENERIC "restore" key;;
      addReply shared_ok;;
      add_dirty 1) s1 (fun s' _ => restored cfg o (zlen argv) key ttl obj s s') (fun x => x = Fault /\ sum_undefined ttl).
Proof.
  intros Hkey Hw Hvac Httl Hnow Hv Hx Hr Hd Hev Hdel Hnodel. set (t := if absttl o then ttl else wrapS 64 (ttl + mstime cfg)).
  assert (runs (if negb (ttl =? 0) && negb (absttl o) then lift (arith64 (fwrapv cfg) (ttl + mstime cfg)) else mret ttl) s1
    (fun s' r => s' = s1 /\ r = Some (if ttl =? 0 then 0 else t) /\ (ttl <> 0 -> t <> 0)) \/
    (negb (ttl =? 0) && negb (absttl o) = true /\ arith64 (fwrapv cfg) (ttl + mstime cfg) = Fault /\ sum_undefined ttl)) as Ht.
  { destruct (Z.eqb_spec ttl 0) as [->|]; cbn [negb andb]; [left; by apply runs_ret|]. unfold t. destruct (absttl o); cbn [negb]; [left; by apply runs_ret|].
    destruct (ttl_sum ttl Httl Hnow) as [[E Hne]|[E Hu]]; [left|by right]. eapply runs_lift; [exact E|]. split_and!; [done..|]. intros _. apply Hne. lia. }
  destruct Ht as [Ht|(Ec & E & Hu)]; [|right; unfold mbind, cmd_bind, lift; rewrite Ec, E; done].
  left. apply runs_bind. eapply runs_impl; [exact Ht|]. intros s' r (-> & -> & Hne0). clear Ht. unfold restored, restore_time. fold t. destruct (Z.eqb_spec ttl 0) as [->|Hne].
  { cbn [Z.eqb negb andb]. apply runs_bind, runs_add; [done..|]. intros d Hd1 Hv1 Hx1. apply runs_bind, runs_ret, runs_bind, runs_signal, runs_bind, runs_notify, runs_bind, runs_reply, runs_dirty.
    rewrite Hv, insert_delete_eq in Hv1. split_and!; srv; [done|done|by rewrite Hx1|by rewrite Hr|by rewrite Hd|]. by rewrite Hev, <- app_assoc. }
  assert (INT64_MIN <= t <= INT64_MAX) as Htr by (unfold t; destruct (absttl o); [zconst; lia|pose proof (wrapS_range 64 (ttl + mstime cfg)); zconst; lia]).
  specialize (Hne0 Hne). zfalse (t =? 0). cbn [negb andb]. unfold checkAlreadyExpired. destruct ((t <=? mstime cfg) && _).
  - apply runs_bind. destruct deleted.
    + apply runs_bind, runs_raise, runs_bind, runs_signal, runs_bind, runs_notify, runs_dirty, runs_reply. exists true.
      split_and!; srv; [done..|by rewrite Hr|by rewrite Hd|]. by rewrite Hev, <- !app_assoc.
    + apply runs_ret, runs_reply. exists false. split_and!; srv; [done..|by rewrite Hr|done|]. by rewrite Hev, app_nil_r.
  - apply runs_bind, runs_add; [done..|]. intros d Hd1 Hv1 Hx1. rewrite Hv, insert_delete_eq in Hv1. rewrite Hx in Hx1. apply runs_bind, runs_bind, runs_set_expire; [done|done|srv; by rewrite Hv1, lookup_insert_eq|].
    srv. intros d2 Hd2 Hv2 Hx2. destruct (from_long_long_ok cfg t false) as (ms & Ems & Hms); [zconst; lia|].
    assert (view d2 = if expired t then delete key (view (sdb s)) else <[key := obj]> (view (sdb s))) as Hview by (rewrite Hv2, Hv1; destruct (expired t); [by rewrite delete_insert_eq|done]).
    destruct (absttl o); cbn [negb].
    + apply runs_ret, runs_bind, runs_signal, runs_bind, runs_notify, runs_bind, runs_reply, runs_dirty. exists ms. split; [done|].
      split_and!; srv; [done|done|by rewrite Hx2, Hx1|by rewrite Hr|by rewrite Hd|]. by rewrite Hev, <- app_assoc.
    + apply runs_bind. eapply runs_lift; [exact Ems|]. apply runs_bind, runs_raise, runs_raise, runs_bind, runs_signal, runs_bind, runs_notify, runs_bind, runs_reply, runs_dirty. exists ms. split; [done|].
      split_and!; srv; [done|done|by rewrite Hx2, Hx1|by rewrite Hr|by rewrite Hd|]. by rewrite Hev, <- !app_assoc.
Qed.

(** How RESTORE may end otherwise: a value whose load aborts, or an undefined sum. *)
Definition restore_ends (p key e : list Z) (x : res (server DB * option unit)) : Prop :=
  (x = Panic /\ load_payload cfg env de p key = Panic) \/
  (x = Fault /\ exists ttl obj, number e = Some ttl /\ sum_undefined ttl /\ load_payload cfg env de p key = Ok (Some obj)).

Lemma settles_restore c key e p args a v (s : server DB) :
  storable key -> db_wf (sdb s) -> (a = true -> forall ttl, number e = Some ttl -> 0 <= ttl -> 0 <= mstime cfg <= INT64_MAX) ->
  verifyDumpPayload de p = Ok a -> (a = true -> load_payload cfg env de p key = Ok v \/ load_payload cfg env de p key = Panic) ->
  settles (restoreCommand cfg env de (c :: key :: e :: p :: args)) s (fun s' _ => restore_spec cfg key e args a v s s') (fun x => a = true /\ restore_ends p key e x).
Proof.
  intros Hkey Hw Hnow Ea Ev. unfold restoreCommand. cbn [drop]. change (RestoreOpts false false (-1) (-1)) with no_options. change (drop 0 args) with args. apply settles_bind, runs_restore_options.
  2:{ intros Hno err Herr. left. split; [done|]. exists err. split; [done|]. by split_and!. }
  intros opts Hs Hc. set (o := foldl set_option no_options opts). eapply settles_impl; [|intros s' r Hr; right; exists opts; split; [exact Hs|]; split; [exact Hc|]; exact Hr]. cbv beta zeta. fold o.
  apply settles_bind, (runs_arg _ _ key); [done|]. apply settles_bind.
  set (busy := negb (replace_ o) && bool_decide (is_Some (view (sdb s) !! key))).
  assert (runs (if negb (replace_ o) then x ← on_db (lookupKeyWrite key); mret (bool_decide (is_Some x)) else mret false) s
    (fun s' r => r = Some busy /\ replied [] s s' /\ (replace_ o = false -> busy = false -> vacant (sdb s') key))) as Hbusy.
  { unfold busy. destruct (replace_ o); cbn [negb andb]; [apply runs_ret; split; [done|]; split; [|done]; split_and!; try done; by rewrite app_nil_r|].
    apply runs_bind, runs_write; [done..|]. intros d Hd Hv He Hvac. apply runs_ret. split; [done|]. split; [split_and!; srv; try done; by rewrite app_nil_r|].
    intros _ Hb%bool_decide_eq_false. apply Hvac. by apply eq_None_not_Some. }
  eapply runs_impl; [exact Hbusy|]. intros s1 r (-> & (Hw1 & Hv1 & He1 & Hr1 & Hd1 & Hev1) & Hvac). clear Hbusy. rewrite app_nil_r in Hr1. cbv beta iota.
  destruct busy eqn:Eb; [left; apply runs_reply_return; split_and!; srv; try done; by rewrite Hr1|]. apply settles_bind. apply runs_bind, (runs_arg _ _ e); [done|]. apply runs_ret.
  apply settles_bind, runs_number; [|intros ->; split_and!; srv; try done; by rewrite Hr1]. intros ttl Ettl. rewrite Ettl. destruct (number_range _ _ Ettl) as [Hrange _].
  destruct (Z.ltb_spec ttl 0); [left; apply runs_reply_return; split_and!; srv; try done; by rewrite Hr1|]. apply settles_bind, (runs_arg _ _ p); [done|]. apply settles_bind. eapply runs_lift; [exact Ea|].
  destruct a; cbn [negb]; [|left; apply runs_reply_return; split_and!; srv; try done; by rewrite Hr1]. specialize (Hnow eq_refl ttl Ettl ltac:(lia)).
  destruct (Ev eq_refl) as [El|El]; [|right; split; [done|]; left; unfold mbind, cmd_bind, lift; by rewrite El]. apply settles_bind. eapply runs_lift; [exact El|].
  destruct v as [obj|]; [|left; apply runs_reply_return; split_and!; srv; try done; by rewrite Hr1].
  replace (4 + zlen args) with (zlen (c :: key :: e :: p :: args)) by zlia. apply settles_bind.
  assert (forall (m : cmd DB unit) s2 (Q : _ -> _ -> Prop), settles m s2 Q (fun x => x = Fault /\ sum_undefined ttl) -> settles m s2 Q (fun x => true = true /\ restore_ends p key e x)) as Hend.
  { intros m s2 Q [Hm|[Hm Hu]]; [by left|right]. split; [done|]. right. eauto 8. }
  destruct (replace_ o) eqn:Erep.
  - apply runs_delete; [done..|]. rewrite Hv1, He1. intros d b Hd Hyes _ Hv He Hvac2. apply Hend, settles_restore_apply; try done; [lia|by rewrite Erep|by rewrite Erep].
  - apply runs_ret, Hend. apply (settles_restore_apply o (c :: key :: e :: p :: args) key ttl obj false); try done; [by apply Hvac|lia| |by rewrite Erep|by rewrite Erep].
    rewrite Hv1. symmetry. apply delete_id, eq_None_not_Some. by apply bool_decide_eq_false in Eb.
Qed.

Lemma runs_restore c key e p args a v (s : server DB) :
  storable key -> db_wf (sdb s) -> (a = true -> 0 <= mstime cfg /\ forall ttl, number e = Some ttl -> ttl + mstime cfg <= INT64_MAX) ->
  verifyDumpPayload de p = Ok a -> (a = true -> load_payload cfg env de p key = Ok v) ->
  runs (restoreCommand cfg env de (c :: key :: e :: p :: args)) s (fun s' _ => restore_spec cfg key e args a v s s').
Proof.
  intros Hkey Hw Hsum Ea Ev. destruct (settles_restore c key e p args a v s Hkey Hw) as [Hr|[-> He]]; [|done|by auto|done|].
  - intros Ha ttl Et Ht. destruct (Hsum Ha) as [? Hs]. specialize (Hs ttl Et). lia.
  - destruct (Hsum eq_refl) as [? Hs]. destruct He as [[_ El]|(_ & ttl & obj & Et & [_ Hu] & _)]; [by rewrite Ev in El|]. specialize (Hs ttl Et). lia.
Qed.

(** Without a value there is an error, and nothing has changed. *)
Lemma restore_spec_none key e args a (s s' : server DB) : restore_spec cfg key e args a None s s' -> exists err, replied [err] s s'.
Proof.
  intros [(_ & err & _ & Hr)|(opts & _ & _ & Hr)]; [by exists err|]. cbv zeta in Hr. destruct (_ && _); [eauto|]. destruct (number e); [|eauto]. destruct (_ <? 0); [eauto|]. destruct (negb a); eauto.
Qed.

End Restore.

(** ** Arbitrary payloads *)

Section Arbitrary.
Context `{Host} `{Allocator} (cfg : config) (env : rdb_env) (de : dump_env).
#[local] Existing Instance dump_stream.
#[local] Existing Instance dump_laws.

Lemma cut_footer (p : list Z) : 10 <= zlen p -> exists body v0 v1 tail, p = body ++ [v0; v1] ++ tail /\ zlen tail = 8.
Proof.
  intros Hge. destruct (cut_at p (zlen p - 8)) as (front & tail & -> & Hf & Ht); [lia|]. destruct (cut_at front (zlen front - 2)) as (body & v & -> & Hb & Hv); [lia|].
  destruct v as [|v0 [|v1 [|]]]; try zlia. exists body, v0, v1, tail. rewrite <- app_assoc. split; [done|]. rewrite !zlen_app in *. lia.
Qed.

Lemma verify_total p : Forall is_byte p -> exists a, verifyDumpPayload de p = Ok a.
Proof.
  intros Hp. destruct (Z.lt_ge_cases (zlen p) 10) as [Hlt|Hge]; [exists false; unfold verifyDumpPayload; by ztrue (zlen p <? 10)|].
  destruct (cut_footer p Hge) as (body & v0 & v1 & tail & -> & Ht). eexists. by apply verify_ok.
Qed.

(** A payload is accepted exactly when its checksum with the checksum is zero. *)
Lemma verify_cases p : skip_checksum_validation de = false -> Forall is_byte p ->
  verifyDumpPayload de p = Ok false \/ (verifyDumpPayload de p = Ok true /\ crc_of 0 p = 0).
Proof.
  intros Hskip Hp. destruct (Z.lt_ge_cases (zlen p) 10) as [Hlt|Hge]; [left; unfold verifyDumpPayload; by ztrue (zlen p <? 10)|].
  destruct (cut_footer p Hge) as (body & v0 & v1 & tail & -> & Ht). rewrite verify_ok by done. destruct (_ >? _); [by left|]. rewrite Hskip. case_bool_decide as E; [right|by left]. split; [done|].
  rewrite app_assoc in Hp |- *. apply Forall_app in Hp as [Hb Htail]. rewrite crc_of_app. apply crc_of_residue; [by apply crc_of_is_word; [apply word_0|]|done|unfold zlen in Ht; lia|done].
Qed.

Context (Henv : isRestoreContext env = true) (Hmem : 44 <= max_request < MAX_STRING).

Lemma load_payload_total p key :
  Forall is_byte p -> zlen p < 2 ^ 64 -> (forall t (r : rio), readable r -> exists r' x, load_other (others de) t key r = Ok (r', x)) ->
  (exists v, load_payload cfg env de p key = Ok v /\ forall obj, v = Some obj -> head p = Some 0 -> exists t, stands_for t obj) \/
  (load_payload cfg env de p key = Panic /\ overlong p).
Proof.
  intros Hp Hlen Hother. unfold load_payload.
  assert (inside p (rioInitWithBuffer (place de) p)) as Hin by (split; [split; [by apply init_ok|done]|by exists []]).
  assert (safely env p rdbLoadObjectType (rioInitWithBuffer (place de) p) (fun _ t => t = -1 \/ head p = Some t)) as Htype.
  { unfold rdbLoadObjectType. eapply safely_bind; [by apply safely_type|]. cbv beta. intros r1 t Hr1 Ht. change (coming (rio_io (rioInitWithBuffer (place de) p))) with p in Ht.
    assert (t = -1 \/ head p = Some t) by (destruct Ht as [|[_ ->]]; auto). destruct (t =? -1); [apply safely_ret; auto|]. destruct (negb _); apply safely_ret; auto. }
  destruct Htype as [(r1 & t & E & Hr1 & Ht)|[E [Ho|Ho]]]; setoid_rewrite E; [|by right|congruence]. rewrite bind_Ok. cbv beta iota. destruct (Z.eqb_spec t (-1)); [left; by exists None|]. destruct Ht as [|Ht]; [done|].
  destruct (decide (t = RDB_TYPE_STRING)) as [->|Hne].
  - destruct (safely_object cfg env (others de) p Hmem key r1 Hr1) as [(r2 & v & E2 & _ & Hv)|[E2 [Ho|Ho]]]; setoid_rewrite E2; [|by right|congruence].
    left. eexists. rewrite bind_Ok. split; [done|]. intros obj Hobj _. apply Hv. destruct v; by simplify_eq.
  - unfold rdbLoadObject. zfalse (t =? RDB_TYPE_STRING). destruct (Hother t r1) as (r2 & v & E2); [apply Hr1|]. setoid_rewrite E2. left. eexists. rewrite bind_Ok. split; [done|]. intros obj _ Hh. by rewrite Ht in Hh; injection Hh as ->.
Qed.

End Arbitrary.

(** * Theorems *)

(** C38: RESTORE of any payload: options that are unknown, malformed or contradictory, a
    key that exists without REPLACE, a time that is no number or negative, a payload
    of a newer version or with a wrong checksum, and data that cannot be loaded are
    answered with errors, in this order, and nothing changes; otherwise the key has
    the value that is in the payload, which is the string when the payload begins with
    a code of one, and the expire time, or is gone when the time is over already, and
    the command is propagated with the absolute time.  A payload with a 64-bit length
    within 18 of the largest may end the process instead, when no error comes first; a
    time that overflows with the clock wraps, or is undefined behaviour when the
    program was not compiled to wrap.  The loaders of the types that are not modelled
    are assumed to return, and requests of 2^50 bytes or more to be refused. *)
Theorem restore_correct `{Host} `{Allocator} cfg env de {DB} `{KeyspaceLaws DB} c key e p args (s : server DB) :
  isRestoreContext env = true -> 44 <= max_request < MAX_STRING -> Forall is_byte p -> zlen p < 2 ^ 64 ->
  (forall t r, readable (H1 := buffer_laws (place de)) r -> exists r' x, load_other (others de) t key r = Ok (r', x)) ->
  storable key -> db_wf (sdb s) -> 0 <= mstime cfg <= INT64_MAX ->
  let m := restoreCommand cfg env de (c :: key :: e :: p :: args) in
  exists accepted, verifyDumpPayload de p = Ok accepted /\
    ((exists value, load_payload cfg env de p key = Ok value /\
        (forall code t rest, p = [0] ++ code ++ rest -> encodes code t -> Forall is_byte t -> zlen t < MAX_STRING -> zlen t + 18 <= max_request ->
          exists obj, value = Some obj /\ stands_for t obj) /\
        (forall obj, value = Some obj -> head p = Some 0 -> exists t, stands_for t obj) /\
        (runs m s (fun s' _ => restore_spec cfg key e args accepted value s s') \/
         (m s = Fault /\ exists ttl, number e = Some ttl /\ fwrapv cfg = false /\ INT64_MAX < ttl + mstime cfg))) \/
     (load_payload cfg env de p key = Panic /\ overlong p /\ (m s = Panic \/ runs m s (fun s' _ => exists err, replied [err] s s')))).
Proof.
  intros Henv Hmem Hp Hl Hother Hkey Hw Hnow m. destruct (verify_total de p Hp) as [a Ea]. exists a. split; [exact Ea|].
  destruct (load_payload_total cfg env de Henv Hmem p key Hp Hl Hother) as [(v & Ev & Hv)|[Ev Ho]].
  - left. exists v. split; [exact Ev|]. split; [|split; [exact Hv|]].
    + intros code t rest -> Henc Hb Hsz Hroom. destruct (load_payload_encoded cfg env de code rest key t) as (obj & El & Hobj); [done..|]. exists obj. split; [congruence|done].
    + destruct (settles_restore cfg env de c key e p args a v s Hkey Hw) as [Hr|[_ He]]; [done|done|by auto|by left|]. destruct He as [[_ El]|(Ef & ttl & obj & Et & Hu & _)]; [congruence|]. right. split; [exact Ef|]. by exists ttl.
  - right. split; [exact Ev|]. split; [exact Ho|].
    destruct (settles_restore cfg env de c key e p args a None s Hkey Hw) as [Hr|[_ He]]; [done|done|by auto| |].
    + right. eapply runs_impl; [exact Hr|]. intros s' r. apply restore_spec_none.
    + left. by destruct He as [[Ep _]|(_ & ttl & obj & _ & _ & El)]; [|rewrite Ev in El].
Qed.

(** C5: What DUMP gives, RESTORE restores.  For a key with a string, DUMP replies with a
    payload; on any server, of either byte order, RESTORE with this payload is
    accepted and its value is that string. *)
Theorem dump_restore_roundtrip (h1 h2 : Host) `{Allocator} cfg cfg' env env' de de' {DB DB'} `{KeyspaceLaws DB} `{KeyspaceLaws DB'} c k o str (s : server DB) :
  storable (DB := DB) k -> db_wf (sdb s) -> view (sdb s) !! k = Some o -> stands_for str o -> savable cfg env str ->
  exists p, runs (@dumpCommand h1 _ cfg env de DB _ [c; k]) s (fun s' _ => replied [ReplyBulk p] s s') /\
    forall c' key e args (s2 : server DB'), storable (DB := DB') key -> db_wf (sdb s2) -> 0 <= mstime cfg' -> (forall ttl, number e = Some ttl -> ttl + mstime cfg' <= INT64_MAX) ->
    exists obj, stands_for str obj /\
      runs (@restoreCommand h2 _ cfg' env' de' DB' _ (c' :: key :: e :: p :: args)) s2 (fun s' _ => restore_spec cfg' key e args true (Some obj) s2 s').
Proof.
  intros Hk Hw Ek [Ho Hstr] Hs. destruct (@payload_ok h1 _ cfg env de o k str Ho Hstr Hs) as (code & Henc & Hbody & Ep). exists (sealed ([0] ++ code ++ [10; 0])). split.
  - unfold dumpCommand. apply runs_bind, (runs_arg _ _ k); [done|]. apply runs_bind, runs_read; [done..|]. intros d Hd Hv He. rewrite Ek. apply runs_bind. eapply runs_lift; [exact Ep|]. apply runs_reply. by split_and!.
  - intros c' key e args s2 Hkey Hw2 Hnow Hsum. pose proof Hs as [Hb Hsz Hroom _ _ _].
    assert (Forall is_byte (sealed ([0] ++ code ++ [10; 0]))) as Hseal by (apply Forall_app; split; [done|apply le_bytes_byte]).
    destruct (@load_payload_ok h2 _ cfg' env' de' code key str Henc Hb Hsz Hroom Hseal) as (obj & El & Hobj). exists obj. split; [done|]. apply runs_restore; [done|done|done| |done].
    assert (sealed ([0] ++ code ++ [10; 0]) = ([0] ++ code) ++ [10; 0] ++ le_bytes 8 (crc_of 0 ([0] ++ code ++ [10; 0]))) as E by (unfold sealed; by rewrite <- !app_assoc). rewrite E in *.
    rewrite verify_ok by done. change (0 * 256 + 10 >? RDB_VERSION) with false. destruct (skip_checksum_validation de'); [done|]. rewrite bool_decide_eq_true_2; [done|]. by rewrite <- app_assoc.
Qed.

(** C39: A payload that is accepted and then changed in up to eight consecutive bytes,
    the version and the checksum included, is not accepted, unless the verification of
    checksums is switched off; RESTORE of it answers with an error, whatever its other
    arguments, and changes nothing. *)
Theorem payload_damage_detected `{Host} de a x y b :
  skip_checksum_validation de = false -> Forall is_byte (a ++ x ++ b) -> Forall is_byte y -> length x = length y -> (length x <= 8)%nat -> x <> y ->
  verifyDumpPayload de (a ++ x ++ b) = Ok true ->
  verifyDumpPayload de (a ++ y ++ b) = Ok false /\
  forall `{Allocator} cfg env {DB} `{KeyspaceLaws DB} c key e args (s : server DB), storable key -> db_wf (sdb s) ->
    runs (restoreCommand cfg env de (c :: key :: e :: (a ++ y ++ b) :: args)) s (fun s' _ =>
      restore_spec cfg key e args false None s s' /\ exists err, replied [err] s s').
Proof.
  intros Hskip Hp Hy Hl Hlen Hne Hok. pose proof Hp as [Ha [Hx Hb]%Forall_app]%Forall_app. assert (Forall is_byte (a ++ y ++ b)) as Hp' by (by rewrite !Forall_app).
  destruct (verify_cases de (a ++ x ++ b) Hskip Hp) as [E|[_ Hz]]; [congruence|]. destruct (verify_cases de (a ++ y ++ b) Hskip Hp') as [E|[_ Hz']].
  2:{ exfalso. apply (crc_of_detects 0 a x y b); [apply word_0|done..|]. congruence. }
  split; [done|]. intros ? cfg env DB ? ? c key e args s Hkey Hw. eapply runs_impl; [by apply (runs_restore cfg env de c key e (a ++ y ++ b) args false None)|].
  intros s' r Hr. split; [exact Hr|]. exact (restore_spec_none cfg key e args false s s' Hr).
Qed.

Lemma panics_bind {DB A B} (m : cmd DB A) (k : A -> cmd DB B) (s : server DB) :
  runs m s (fun s' r => exists a, r = Some a /\ k a s' = Panic) -> (x ← m; k x) s = Panic.
Proof. intros (s' & r & E & a & -> & Hk). unfold mbind, cmd_bind. by rewrite E. Qed.

(** The string in this payload has a length that overflows with its header. *)
Definition overlong_payload (len : Z) : list Z := sealed ([RDB_TYPE_STRING; RDB_64BITLEN] ++ rev (le_bytes 8 len) ++ [10; 0]).

Lemma overlong_load `{Host} `{Allocator} cfg env de len key :
  2 ^ 64 - 18 <= len < 2 ^ 64 - 1 -> verifyDumpPayload de (overlong_payload len) = Ok true /\ load_payload cfg env de (overlong_payload len) key = Panic.
Proof.
  intros Hlen. destruct (rev_bytes 8 len) as [Hb Hl]. unfold overlong_payload. set (front := [RDB_TYPE_STRING; RDB_64BITLEN] ++ rev (le_bytes 8 len)).
  assert (Forall is_byte (sealed (front ++ [10; 0]))) as Hp. { unfold sealed, front. rewrite !Forall_app. split_and!; [by forall_list|done|by forall_list|apply le_bytes_byte]. }
  change ([RDB_TYPE_STRING; RDB_64BITLEN] ++ rev (le_bytes 8 len) ++ [10; 0]) with (front ++ [10; 0]). split.
  - assert (sealed (front ++ [10; 0]) = front ++ [10; 0] ++ le_bytes 8 (crc_of 0 (front ++ [10; 0]))) as E by (unfold sealed; by rewrite <- app_assoc). rewrite E in *.
    rewrite verify_ok by done. change (0 * 256 + 10 >? RDB_VERSION) with false. destruct (skip_checksum_validation de); [done|]. by rewrite bool_decide_eq_true_2.
  - set (foot := [10; 0] ++ le_bytes 8 (crc_of 0 (front ++ [10; 0]))). assert (sealed (front ++ [10; 0]) = [0] ++ len_code len ++ foot) as E.
    { unfold sealed, foot, front, len_code. zfalse (len <? 64). zfalse (len <? 16384). zconst. zfalse (len <=? 2 ^ 32 - 1). by rewrite <- !app_assoc. }
    rewrite E in *. set (st := buffer_stream (place de)). set (lw := buffer_laws (place de)).
    assert (offers (H1 := lw) (rioInitWithBuffer (place de) ([0] ++ len_code len ++ foot)) [0] (len_code len ++ foot)) as Hoff.
    { split; [by apply init_ok|]. split; [done|]. split; [done|]. rewrite !zlen_app. pose proof (zlen_len_code len). change (zlen foot) with 10. change (zlen [0]) with 1. lia. }
    destruct (loads_object_type (H2 := lw) _ _ Hoff) as (r1 & E1 & Hr1). assert (rdbLoadEncodedStringObject cfg env r1 = Panic) as E2 by (eapply (overlong_string_aborts (H2 := lw)); [exact Hlen|]; by eapply consumed_offers).
    unfold load_payload. setoid_rewrite E1. rewrite bind_Ok. cbv beta iota. cbn [Z.eqb]. unfold rdbLoadObject. cbn [Z.eqb RDB_TYPE_STRING]. unfold mbind at 2. unfold rdbm_bind. by rewrite E2.
Qed.

(** C40: RESTORE of a payload with a correct checksum in which the length of the string is
    within 18 of the largest 64-bit number takes the server down: the assertion
    against overflow in the allocation of strings fails. *)
Theorem restore_length_aborts `{Host} `{Allocator} cfg env de {DB} `{KeyspaceLaws DB} c key len (s : server DB) :
  storable key -> db_wf (sdb s) -> view (sdb s) !! key = None -> 2 ^ 64 - 18 <= len < 2 ^ 64 - 1 ->
  restoreCommand cfg env de [c; key; ll_repr 0; overlong_payload len] s = Panic.
Proof.
  intros Hkey Hw Hk Hlen. destruct (overlong_load cfg env de len key Hlen) as [Ev El]. unfold restoreCommand. apply panics_bind, runs_ret. eexists. split; [done|]. cbv beta. cbn [replace_ absttl negb].
  apply panics_bind, (runs_arg _ _ key); [done|]. eexists. split; [done|]. apply panics_bind, runs_bind, runs_write; [done..|]. intros d Hd Hv _ _. apply runs_ret. eexists. split; [done|]. cbv beta. rewrite Hk.
  rewrite bool_decide_eq_false_2 by (by intros []). apply panics_bind. apply runs_bind, (runs_arg _ _ (ll_repr 0)); [done|]. apply runs_ret. eexists. split; [done|].
  apply panics_bind, (runs_long_long _ _ 0); [done|]. eexists. split; [done|]. cbv beta. cbn [Z.ltb Z.compare]. apply panics_bind, (runs_arg _ _ (overlong_payload len)); [done|]. eexists. split; [done|].
  apply panics_bind. eapply runs_lift; [exact Ev|]. eexists. split; [done|]. cbv beta. cbn [negb]. unfold mbind, cmd_bind, lift. by rewrite El.
Qed.

(** RESTORE with a time so large that adding the clock overflows replies OK and does
    not create the key: with wrapping arithmetic the time becomes negative, and the
    value counts as expired already. *)
Theorem restore_ttl_overflows `{Host} `{Allocator} cfg env de {DB} `{KeyspaceLaws DB} c key ttl p obj (s : server DB) :
  storable key -> db_wf (sdb s) -> view (sdb s) !! key = None -> fwrapv cfg = true -> loading_or_replica cfg = false ->
  0 < ttl <= INT64_MAX -> 0 <= mstime cfg <= INT64_MAX -> INT64_MAX < ttl + mstime cfg ->
  verifyDumpPayload de p = Ok true -> load_payload cfg env de p key = Ok (Some obj) ->
  runs (restoreCommand cfg env de [c; key; ll_repr ttl; p]) s (fun s' _ => replied [shared_ok] s s').
Proof.
  intros Hkey Hw Hk Hwrap Hload Httl Hnow Hsum Ev El. unfold restoreCommand. apply runs_bind, runs_ret. cbn [replace_ absttl negb]. apply runs_bind, (runs_arg _ _ key); [done|].
  apply runs_bind, runs_bind, runs_write; [done..|]. intros d Hd Hv He _. apply runs_ret. rewrite Hk, bool_decide_eq_false_2 by (by intros []). apply runs_bind, runs_bind, (runs_arg _ _ (ll_repr ttl)); [done|]. apply runs_ret.
  apply runs_bind, (runs_long_long _ _ ttl); [apply string2ll_repr; zconst; lia|]. zfalse (ttl <? 0). apply runs_bind, (runs_arg _ _ p); [done|]. apply runs_bind. eapply runs_lift; [exact Ev|]. cbn [negb].
  apply runs_bind. eapply runs_lift; [exact El|]. apply runs_bind, runs_ret. zfalse (ttl =? 0). cbn [negb andb]. apply runs_bind. eapply runs_lift; [unfold arith64; by rewrite Hwrap|].
  assert (wrapS 64 (ttl + mstime cfg) = ttl + mstime cfg - 2 ^ 64) as ->.
  { unfold wrapS. zconst. replace (ttl + mstime cfg + 2 ^ (64 - 1)) with (ttl + mstime cfg - 2 ^ 63 + 1 * 2 ^ 64) by lia. rewrite Z.mod_add, Z.mod_small by lia. lia. }
  assert (ttl + mstime cfg - 2 ^ 64 < 0) as Hneg by (zconst; lia). zfalse (ttl + mstime cfg - 2 ^ 64 =? 0). cbn [negb andb]. unfold checkAlreadyExpired. rewrite Hload. ztrue (ttl + mstime cfg - 2 ^ 64 <=? mstime cfg). cbn [negb andb].
  apply runs_bind, runs_ret, runs_reply. by split_and!.
Qed.

(** * Examples *)

#[local] Existing Instance sample_allocator.

Definition sample_env : dump_env := DumpEnv nowhere (OtherTypes _ (fun _ => 1) (fun _ _ => mret (-1)) (fun _ _ => mret (inl RDB_LOAD_ERR_OTHER))) false.

(** The payload of a short string, as every host makes it. *)
Definition hello : list Z := [104; 101; 108; 108; 111].
Definition hello_payload : list Z := [0; 5; 104; 101; 108; 108; 111; 10; 0; 99; 114; 223; 118; 101; 52; 32; 10].

Lemma hello_sealed : hello_payload = sealed ([0] ++ [5; 104; 101; 108; 108; 111] ++ [10; 0]).
Proof. vm_compute. reflexivity. Qed.

Lemma hello_bytes : Forall is_byte hello_payload.
Proof. unfold hello_payload. by repeat constructor. Qed.

Lemma hello_accepted `{Host} : verifyDumpPayload sample_env hello_payload = Ok true.
Proof.
  change hello_payload with ([0; 5; 104; 101; 108; 108; 111] ++ [10; 0] ++ [99; 114; 223; 118; 101; 52; 32; 10]). rewrite verify_ok by (exact hello_bytes || reflexivity). vm_compute. reflexivity.
Qed.

Lemma hello_loaded `{Host} key : exists o, load_payload high_config restoring sample_env hello_payload key = Ok (Some o) /\ stands_for hello o.
Proof. rewrite hello_sealed. apply load_payload_ok; [apply (encodes_raw hello)|by repeat constructor|done|done|]. rewrite <- hello_sealed. exact hello_bytes. Qed.

Definition empty_server : server plain_db := Server (∅, ∅) [] 0 [].
Definition hello_server : server plain_db := Server ({[sample_key := createStringObject hello]}, ∅) [] 0 [].

Lemma hello_savable : savable high_config saving hello.
Proof. split; [by repeat constructor|done|done|done|done|]. intros i. done. Qed.

Lemma restore_correct_witness : exists obj s' r,
  @restoreCommand little_host _ high_config restoring sample_env plain_db _ [chars "RESTORE"; sample_key; ll_repr 0; hello_payload] empty_server = Ok (s', r) /\
  stands_for hello obj /\ restore_spec high_config sample_key (ll_repr 0) [] true (Some obj) empty_server s'.
Proof.
  destruct (@restore_correct little_host _ high_config restoring sample_env plain_db _ _ (chars "RESTORE") sample_key (ll_repr 0) hello_payload [] empty_server) as (a & Ea & Hr).
  - reflexivity.
  - vm_compute. split; [discriminate|reflexivity].
  - exact hello_bytes.
  - reflexivity.
  - intros t r _. by exists r, (inl RDB_LOAD_ERR_OTHER).
  - exact I.
  - exact I.
  - zconst. cbn. lia.
  - rewrite hello_accepted in Ea. injection Ea as <-. destruct Hr as [(v & _ & Hstr & _ & Hr)|(El & _)].
    + destruct (Hstr (5 :: hello) hello [10; 0; 99; 114; 223; 118; 101; 52; 32; 10]) as (obj & -> & Hobj); [reflexivity|apply (encodes_raw hello)|by repeat constructor|done|vm_compute; discriminate|].
      destruct Hr as [(s' & r & E & Hs)|(_ & ttl & _ & Hf & _)]; [|discriminate Hf]. exists obj, s', r. split; [exact E|]. split; [exact Hobj|exact Hs].
    + destruct (@hello_loaded little_host sample_key) as (o & El' & _). rewrite El in El'. discriminate El'.
Defined.

Lemma dump_restore_roundtrip_witness : exists p obj s' r,
  @restoreCommand big_host _ high_config restoring sample_env plain_db _ [chars "RESTORE"; sample_key; ll_repr 0; p] empty_server = Ok (s', r) /\
  stands_for hello obj /\ restore_spec high_config sample_key (ll_repr 0) [] true (Some obj) empty_server s'.
Proof.
  destruct (@dump_restore_roundtrip little_host big_host _ high_config high_config saving restoring sample_env sample_env plain_db plain_db _ _ _ _ (chars "DUMP") sample_key (createStringObject hello) hello hello_server)
    as (p & _ & Hp).
  - exact I.
  - exact I.
  - reflexivity.
  - split; [by repeat constructor|reflexivity].
  - exact hello_savable.
  - destruct (Hp (chars "RESTORE") sample_key (ll_repr 0) [] empty_server) as (obj & Hobj & s' & r & E & Hs); [exact I|exact I|done|intros ttl Ht; vm_compute in Ht; injection Ht as <-; done|].
    exists p, obj, s', r. split; [exact E|]. split; [exact Hobj|exact Hs].
Defined.

Lemma payload_damage_detected_witness :
  let p := [0; 5; 104; 101; 108; 108; 112; 10; 0; 99; 114; 223; 118; 101; 52; 32; 10] in
  @verifyDumpPayload little_host sample_env p = Ok false /\
  exists s' r err, @restoreCommand little_host _ high_config restoring sample_env plain_db _ [chars "RESTORE"; sample_key; ll_repr 0; p] empty_server = Ok (s', r) /\ reply s' = [err].
Proof.
  destruct (@payload_damage_detected little_host sample_env [0; 5; 104; 101; 108; 108] [111] [112] [10; 0; 99; 114; 223; 118; 101; 52; 32; 10]) as [E Hr];
    [reflexivity|exact hello_bytes|by repeat constructor|reflexivity|cbn; lia|discriminate|exact hello_accepted|].
  split; [exact E|]. destruct (Hr _ high_config restoring plain_db plain_keyspace plain_laws (chars "RESTORE") sample_key (ll_repr 0) [] empty_server I I) as (s' & r & Er & _ & err & _ & _ & _ & Hrep & _).
  exists s', r, err. split; [exact Er|exact Hrep].
Defined.

Lemma restore_length_aborts_witness :
  @restoreCommand little_host _ high_config restoring sample_env plain_db _ [chars "RESTORE"; sample_key; ll_repr 0; overlong_payload (2 ^ 64 - 2)] empty_server = Panic.
Proof. apply (restore_length_aborts (DB := plain_db) high_config restoring sample_env (chars "RESTORE") sample_key (2 ^ 64 - 2) empty_server); [exact I|exact I|reflexivity|lia]. Defined.

Lemma restore_ttl_overflows_witness : exists s' r,
  @restoreCommand little_host _ high_config restoring sample_env plain_db _ [chars "RESTORE"; sample_key; ll_repr INT64_MAX; hello_payload] empty_server = Ok (s', r) /\
  reply s' = [shared_ok] /\ view (sdb s') !! sample_key = None.
Proof.
  destruct (@hello_loaded little_host sample_key) as (o & El & _).
  destruct (@restore_ttl_overflows little_host _ high_config restoring sample_env plain_db _ _ (chars "RESTORE") sample_key INT64_MAX hello_payload o empty_server) as (s' & r & E & (_ & Hv & _ & Hr & _));
    [exact I|exact I|reflexivity|reflexivity|reflexivity|done|done|done|exact hello_accepted|exact El|].
  exists s', r. split; [exact E|]. split; [exact Hr|]. by rewrite Hv.
Defined.
