(* ===== verification/Redis.v ===== *)
(** The commands on the key space of hash tables.

    Here the handlers, which are written and verified against the interface
    [Keyspace], meet its implementation [Db]: a client sends string commands and
    commands on keys, the clock goes on between them, and the two dictionaries of
    the database stay well-formed. *)
From S2P Require Import Prelude Endian Util Glob Sds Dict Object StringCommands StringRanges StringSafety Db KeyCommands.
From stdpp Require Import gmap list strings.

Open Scope Z_scope.

(** * Definitions *)

Inductive key_command :=
| DEL | EXISTS | EXPIRE | EXPIREAT | EXPIRETIME | PERSIST | PEXPIRE | PEXPIREAT | PEXPIRETIME | PTTL | RENAME | RENAMENX
| TOUCH | TTL | TYPE | UNLINK.

Definition key_arity (c : key_command) : Z :=
  match c with
  | DEL | EXISTS | TOUCH | UNLINK => -2
  | EXPIRE | EXPIREAT | PEXPIRE | PEXPIREAT => -3
  | EXPIRETIME | PERSIST | PEXPIRETIME | PTTL | TTL | TYPE => 2
  | RENAME | RENAMENX => 3
  end.

(** [module_type] is the name of a type of a module. *)
Definition key_proc {DB : Type} `{Keyspace DB} (cfg : config) (module_type : String.string) (c : key_command) (argv : list (list Z)) : cmd DB unit :=
  match c with
  | DEL => delCommand cfg argv
  | EXISTS => existsCommand argv
  | EXPIRE => expireCommand cfg argv
  | EXPIREAT => expireatCommand cfg argv
  | EXPIRETIME => expiretimeCommand cfg argv
  | PERSIST => persistCommand argv
  | PEXPIRE => pexpireCommand cfg argv
  | PEXPIREAT => pexpireatCommand cfg argv
  | PEXPIRETIME => pexpiretimeCommand cfg argv
  | PTTL => pttlCommand cfg argv
  | RENAME => renameCommand argv
  | RENAMENX => renamenxCommand argv
  | TOUCH => touchCommand argv
  | TTL => ttlCommand cfg argv
  | TYPE => typeCommand module_type argv
  | UNLINK => unlinkCommand argv
  end.

(** A command of either table, with the arity check. *)
Inductive command := Str (c : string_command) | Key (c : key_command).

Definition check_arity (c : command) (argc : Z) : bool :=
  match c with
  | Str c => commandCheckArity c argc
  | Key c => negb (((key_arity c >? 0) && negb (key_arity c =? argc)) || (argc <? - key_arity c))
  end.

(** The command run on the database, in the surroundings [e]. *)
Definition call `{Host} (e : env) (cfg : config) (module_type : String.string) (c : command) (argv : list (list Z)) : cmd redisDb unit :=
  match c with
  | Str c => proc (H0 := redis_keyspace e) cfg c argv
  | Key c => key_proc (H := redis_keyspace e) cfg module_type c argv
  end.

(** The commands that compute with the expire time of a key. *)
Definition reads_time (c : key_command) : bool := match c with TTL | PTTL | EXPIRETIME | PEXPIRETIME => true | _ => false end.

(** An expire time with which that computation leaves 64 bits. *)
Definition out_of_reach (cfg : config) (t : Z) : Prop := t < INT64_MIN + mstime cfg \/ INT64_MAX - 500 < t.

(** How a command ends: it returns and keeps the invariant, except for a SETRANGE that
    wraps, and, unless the program has been compiled to wrap, for a time in the
    arguments or in the database that overflows. *)
Definition call_ending {DB : Type} (inv : DB -> Prop) (cfg : config) (c : command) (argv : list (list Z)) (times : gmap (list Z) Z)
    (m : res (server DB * option unit)) : Prop :=
  match c with
  | Str c => ending inv cfg c argv m
  | Key c =>
      (exists s' r, m = Ok (s', r) /\ inv (sdb s')) \/
      (m = Fault /\ fwrapv cfg = false /\ reads_time c = true /\ exists key t, key ∈ argv /\ times !! key = Some t /\ out_of_reach cfg t)
  end.

(** * Lemmas *)

(** ** Commands on keys keep the key space well-formed *)

Section KeySafety.
Context {DB : Type} `{KeyspaceLaws DB} (cfg : config) (Hcfg : config_ok cfg).
Notation limit := (proto_max_bulk_len cfg).
Notation inv := (keyspace_ok (DB := DB) limit).

Lemma ok_changed r v x evs (s s' : server DB) : inv (sdb s) -> changed r v x evs s s' -> (forall k o, v !! k = Some o -> exists k', view (sdb s) !! k' = Some o) -> inv (sdb s').
Proof. intros [_ Hd] (Hw & Hv & _) Hsub. split; [done|]. rewrite Hv. intros k o E. destruct (Hsub _ _ E) as [k' E']. by eapply Hd. Qed.

Lemma delete_sub {A} (m : gmap (list Z) A) k k' o : delete k m !! k' = Some o -> exists k'', m !! k'' = Some o.
Proof. intros [_ E]%lookup_delete_Some. eauto. Qed.

Lemma ok_expire name unit base key e args (s s' : server DB) : inv (sdb s) -> expire_spec cfg name unit base key e args s s' -> inv (sdb s').
Proof.
  intros Hi [(_ & a & _ & Hr)|(opts & _ & Hr)]; [by eapply ok_replied|]. destruct (opts_error opts); [by eapply ok_replied|]. destruct (number e); [|by eapply ok_replied].
  destruct (absolute_ms _ _ _); [|by eapply ok_replied]. unfold expire_outcome_ok in Hr. destruct (view (sdb s) !! key); [|by eapply ok_replied].
  destruct (negb _); [by eapply ok_replied|]. destruct (_ && _); [by eapply ok_changed; [done..|]; apply delete_sub|]. destruct Hr as (ms & _ & Hr).
  eapply ok_changed; [done..|]. destruct (expired _); [apply delete_sub|eauto].
Qed.

Lemma ok_rename src dst nx (s s' : server DB) : inv (sdb s) -> rename_outcome src dst nx s s' -> inv (sdb s').
Proof.
  intros Hi. unfold rename_outcome. destruct (view (sdb s) !! src) as [o|] eqn:Es; [|by apply ok_replied]. destruct (bool_decide (src = dst)); [by apply ok_replied|].
  destruct (_ && _); [by apply ok_replied|]. intros Hc. eapply ok_changed; [done..|]. intros k o' [[_ <-]|[_ E]]%lookup_insert_Some; [eauto|by eapply delete_sub].
Qed.

Lemma ok_del keys (s s' : server DB) : inv (sdb s) -> del_outcome keys s s' -> inv (sdb s').
Proof.
  intros [_ Hd] (ks & _ & _ & Hw & Hv & _). split; [done|]. rewrite Hv. clear Hv. generalize dependent (view (sdb s)). induction keys as [|k keys IH]; intros m Hm; [done|].
  cbn [foldl]. apply IH. intros k' o [_ E]%lookup_delete_Some. eauto.
Qed.

Lemma arith64_cases fw z : (exists v, arith64 fw z = Ok v /\ (fw = false -> v = z)) \/ (arith64 fw z = Fault /\ fw = false /\ (z < INT64_MIN \/ INT64_MAX < z)).
Proof.
  unfold arith64. destruct fw; [left; by eexists|]. unfold sint. destruct ((- 2 ^ (64 - 1) <=? z) && (z <? 2 ^ (64 - 1))) eqn:E; [left; by eexists|].
  right. split_and!; [done..|]. zconst. change (2 ^ (64 - 1)) with (2 ^ 63) in E. lia.
Qed.

(** TTL and its variants, whatever the expire time. *)
Lemma ttl_any c key ms abs (s : server DB) :
  storable key -> inv (sdb s) ->
  runs (ttlGenericCommand cfg [c; key] ms abs) s (fun s' _ => inv (sdb s')) \/
  (ttlGenericCommand cfg [c; key] ms abs s = Fault /\ fwrapv cfg = false /\ exists t, expires (sdb s) !! key = Some t /\ out_of_reach cfg t).
Proof.
  intros Hkey Hi. pose proof Hi as [Hw _]. pose proof (cfg_now _ Hcfg) as Hnow. unfold ttlGenericCommand, out_of_reach, runs. rewrite (cmd_bind_ok _ _ s s key) by done.
  destruct (lookup_read_ok key LOOKUP_NOTOUCH (sdb s) Hkey Hw eq_refl) as (d & E & Hd & Hv & He).
  rewrite (cmd_bind_ok _ _ s (with_db s d) (view (sdb s) !! key)) by (unfold on_db; by rewrite E).
  assert (inv d) as Hi1 by (by eapply ok_same). destruct (view (sdb s) !! key) as [o|] eqn:Ek; [|left; by eexists _, _].
  destruct (get_expire_ok key d Hkey Hd) as (d2 & E2 & Hd2 & Hv2 & He2 & _); [by rewrite Hv, Ek|]. rewrite He in E2.
  rewrite (cmd_bind_ok _ _ (with_db s d) (with_db (with_db s d) d2) (default (-1) (expires (sdb s) !! key))) by (unfold on_db; cbn [sdb with_db]; by rewrite E2).
  assert (inv d2) as Hi2 by (eapply ok_same; [exact Hi1|done|congruence]). set (s2 := with_db (with_db s d) d2). assert (inv (sdb s2)) as Hs2 by done. clearbody s2.
  destruct (expires (sdb s) !! key) as [t|]; cbn [default]; [change (id t) with t|left; by eexists _, _].
  destruct (Z.eqb_spec t (-1)) as [->|Hne]; [left; by eexists _, _|]. cbn [negb].
  assert (forall left : Z, 0 <= left -> (fwrapv cfg = false -> left <= Z.max 0 t) -> let m := (if left =? -1 then addReply (ReplyInteger (-1)) else if ms then addReply (ReplyInteger left)
    else rounded ← lift (arith64 (fwrapv cfg) (left + 500)); addReply (ReplyInteger (Z.quot rounded 1000))) in
    (exists s' r, m s2 = Ok (s', r) /\ inv (sdb s')) \/ (m s2 = Fault /\ fwrapv cfg = false /\ INT64_MAX - 500 < t)) as Hans.
  { intros left H0' Hl m. subst m. zfalse (left =? -1). destruct ms; [by left; eexists _, _|]. unfold mbind, cmd_bind, lift.
    destruct (arith64_cases (fwrapv cfg) (left + 500)) as [(v & -> & _)|(-> & Hf & Hr)]; [by left; eexists _, _|]. right. split_and!; [done..|]. specialize (Hl Hf). zconst. lia. }
  assert (forall z, 0 <= (if z <? 0 then 0 else z)) as Hz by (intros z; destruct (Z.ltb_spec z 0); lia).
  destruct abs.
  - rewrite (cmd_bind_ok _ _ s2 s2 (if t <? 0 then 0 else t)) by done.
    destruct (Hans (if t <? 0 then 0 else t) (Hz t)) as [?|(? & ? & ?)]; [intros _; destruct (Z.ltb_spec t 0); lia|by left|right; eauto 6].
  - destruct (arith64_cases (fwrapv cfg) (t - mstime cfg)) as [(v & Ea & Hv')|(Ea & Hf & Hr)].
    + rewrite (cmd_bind_ok _ _ s2 s2 (if v <? 0 then 0 else v)) by (unfold mbind, cmd_bind, lift; by rewrite Ea).
      destruct (Hans (if v <? 0 then 0 else v) (Hz v)) as [?|(? & ? & ?)]; [intros Hf; rewrite (Hv' Hf); destruct (Z.ltb_spec (t - mstime cfg) 0); lia|by left|right; eauto 6].
    + right. unfold mbind, cmd_bind, lift. rewrite Ea. split_and!; [done..|]. exists t. split; [done|]. zconst. lia.
Qed.

Lemma key_argv c (argv : list (list Z)) : check_arity (Key c) (zlen argv) = true ->
  match c with
  | DEL | EXISTS | TOUCH | UNLINK => exists a keys, argv = a :: keys
  | EXPIRE | EXPIREAT | PEXPIRE | PEXPIREAT => exists a key e args, argv = a :: key :: e :: args
  | EXPIRETIME | PERSIST | PEXPIRETIME | PTTL | TTL | TYPE => exists a key, argv = [a; key]
  | RENAME | RENAMENX => exists a src dst, argv = [a; src; dst]
  end.
Proof.
  intros Har. assert (if key_arity c >? 0 then zlen argv = key_arity c else - key_arity c <= zlen argv) as Hn.
  { cbn [check_arity] in Har. destruct (key_arity c >? 0) eqn:E; cbn [andb] in Har; lia. }
  destruct argv as [|a [|b [|d [|f argv]]]]; unfold zlen in Hn; destruct c; cbn [key_arity length] in Hn; first [by eauto 6|exfalso; cbn in Hn; lia].
Qed.

Lemma key_command_safe module_type c argv (s : server DB) :
  primary (DB := DB) -> Forall storable argv -> inv (sdb s) -> check_arity (Key c) (zlen argv) = true ->
  call_ending inv cfg (Key c) argv (expires (sdb s)) (key_proc cfg module_type c argv s).
Proof.
  intros Hp Hks Hi Har%key_argv. pose proof Hi as [Hw _]. pose proof (cfg_now _ Hcfg) as Hnow. assert (0 <= 0 <= INT64_MAX) as Hz by (zconst; lia).
  assert (forall m, runs m s (fun s' _ => inv (sdb s')) -> call_ending inv cfg (Key c) argv (expires (sdb s)) (m s)) as Hruns by (intros m Hm; by left).
  assert (forall a key ms abs, argv = [a; key] -> reads_time c = true -> storable key -> call_ending inv cfg (Key c) argv (expires (sdb s)) (ttlGenericCommand cfg [a; key] ms abs s)) as Httl.
  { intros a key ms abs -> Hc Hk. destruct (ttl_any a key ms abs s Hk Hi) as [?|(? & ? & t & ? & ?)]; [by left|]. right. split_and!; [done..|]. exists key, t. set_solver. }
  destruct c; repeat match type of Har with ex _ => destruct Har as [? Har] end; subst argv; repeat match goal with Hs : Forall storable (_ :: _) |- _ => apply Forall_cons in Hs as [? Hs] end; cbn [key_proc];
    try (apply Hruns; eapply runs_impl; [by apply runs_expire_generic|]; intros s' r; by apply ok_expire); try by apply Httl.
  all: apply Hruns.
  all: try (eapply runs_impl; [by apply runs_rename|]; intros s' r; by apply ok_rename).
  all: try (eapply runs_impl; [by apply runs_del_generic|]; intros s' r; by apply ok_del).
  - apply runs_bind, runs_count_keys; [done..|]. intros s' (? & ? & _). apply runs_reply. by eapply ok_same.
  - eapply runs_impl; [by apply runs_persist|]. intros s' r. unfold persist_outcome. destruct (_ && _); [intros (? & ? & _); by eapply ok_same|by apply ok_replied].
  - apply runs_bind, runs_count_keys; [done..|]. intros s' (? & ? & _). apply runs_reply. by eapply ok_same.
  - unfold typeCommand. apply runs_bind, (runs_arg _ _ x0); [done|]. apply runs_bind, runs_read_flags; [done..|]. intros d Hd Hv He. apply runs_reply. by eapply ok_same.
Qed.

End KeySafety.

(** ** Commands on the database *)

(** A primary with clients that are not paused. *)
Definition serving (e : env) : Prop := masterhost e = false /\ clients_paused e = false.

Lemma serving_writes e : serving e -> may_write e.
Proof. intros [Hm Hp]. split; [done|]. by rewrite Hm. Qed.

(** From [e] on to [e']: the same hash function, and times that were over stay over. *)
Definition later (e e' : env) : Prop := dictGenHashFunction e = dictGenHashFunction e' /\ forall t, over e t = true -> over e' t = true.

(** The dictionaries are well-formed, keys with an expire time exist, and the objects
    the commands see are well-formed and within the limit. *)
Definition redis_ok (limit : Z) (U : gset (list Z)) (e : env) (db : redisDb) : Prop :=
  redis_wf e U db /\ forall k o, visible e (contents db) (times db) !! k = Some o -> obj_ok limit o.

Lemma redis_ok_later limit U e e' db : later e e' -> redis_ok limit U e db -> redis_ok limit U e' db.
Proof.
  intros [Hh Hl] [Hw Ho]. split; [by eapply redis_wf_hash|]. intros k o. rewrite visible_lookup. destruct (gone e' (times db) k) eqn:Eg; [done|]. intros Ek.
  apply (Ho k). rewrite visible_lookup. destruct (gone e (times db) k) eqn:Eg'; [|done]. unfold gone in *. destruct (times db !! k) as [t|]; [|done]. by rewrite Hl in Eg.
Qed.

(** What a command may be given. *)
Record request_ok (limit : Z) (U : gset (list Z)) (cfg : config) (c : command) (argv : list (list Z)) : Prop := {
  req_config : config_ok cfg;
  (** The allocator has no strings of 2^63 bytes. *)
  req_alloc : alloc_limit cfg <= INT64_MAX;
  req_limit : proto_max_bulk_len cfg = limit;
  req_keys : Forall (fun a => a ∈ U) argv;
  req_args : Forall (arg_ok limit) argv;
  req_arity : check_arity c (zlen argv) = true;
}.

Lemma call_safe `{Host} limit U e cfg mt c argv s :
  env_ok e U -> serving e -> request_ok limit U cfg c argv -> redis_ok limit U e (sdb s) ->
  call_ending (redis_ok limit U e) cfg c argv (times (sdb s)) (call e cfg mt c argv s).
Proof.
  intros Hok Hs [Hc Hm <- Hk Ha Har] Hr. pose (L := redis_laws e U Hok (serving_writes e Hs)). destruct c as [c|c]; cbn [call].
  - by apply (command_safe (H1 := L) cfg Hc Hm c argv s Hk Hr Ha Har).
  - destruct (key_command_safe (H0 := L) cfg Hc mt c argv s Hs Hk Hr Har) as [?|(? & ? & ? & key & t & ? & Ht & ?)]; [by left|]. right. split_and!; [done..|]. exists key, t. split_and!; [done| |done].
    cbn [expires L redis_laws] in Ht. rewrite pending_lookup in Ht. destruct (times (sdb s) !! key) as [w|]; [|done]. by destruct (over e w).
Qed.

(** A command that returned has kept the invariant. *)
Lemma call_returned `{Host} limit U e cfg mt c argv s s' r :
  env_ok e U -> serving e -> request_ok limit U cfg c argv -> redis_ok limit U e (sdb s) -> call e cfg mt c argv s = Ok (s', r) -> redis_ok limit U e (sdb s').
Proof.
  intros Hok Hs Hq Hr E. pose proof (call_safe limit U e cfg mt c argv s Hok Hs Hq Hr) as Hc. rewrite E in Hc.
  destruct c; cbn [call_ending] in Hc; [destruct Hc as [Hc|[[? _]|[? _]]]|destruct Hc as [Hc|[? _]]]; try done; destruct Hc as (s2 & r2 & E2 & Hi); by simplify_eq.
Qed.

(** One command of a client; time has passed since the last one. *)
Inductive redis_step `{Host} (limit : Z) (U : gset (list Z)) : env * server redisDb -> env * server redisDb -> Prop :=
| redis_step_call e e' cfg mt c argv s s' r :
    later e e' -> env_ok e' U -> serving e' -> request_ok limit U cfg c argv -> call e' cfg mt c argv s = Ok (s', r) ->
    redis_step limit U (e, s) (e', s').

Lemma reachable_ok `{Host} limit U x y : rtc (redis_step limit U) x y -> redis_ok limit U x.1 (sdb x.2) -> redis_ok limit U y.1 (sdb y.2).
Proof.
  induction 1 as [|x y z Hstep Hr IH]; [done|]. intros Hx. apply IH. destruct Hstep as [e1 e2 cfg mt c argv s1 s2 r Hl Hok Hsv Hq E]. cbn [fst snd] in *.
  eapply call_returned; [done..| |exact E]. by eapply redis_ok_later.
Qed.

Lemma empty_ok_db limit U e : redis_ok limit U e empty_db.
Proof.
  split; [apply empty_db_wf|]. intros k o. rewrite visible_lookup. unfold contents. cbn. rewrite lookup_fmap, lookup_empty. by destruct (gone _ _ _).
Qed.

(** C1: Ordinary clients of a primary that starts with an empty database may send any
    string commands and commands on keys, with any arguments up to the limit on strings
    from a finite set [U] the hash tables can hold, while the clock advances and keys
    expire: the two hash tables of the database stay
    well-formed, a key with an expire time exists, the objects stay well-formed and
    within the limit; and in every state reached every command returns, at every later
    time, with two exceptions ([call_ending]).  A SETRANGE whose offset and length add
    up to more than the largest 64-bit integer may end the process; and when the
    program is compiled without wrapping arithmetic, a time of SET, SETEX, PSETEX or
    GETEX that overflows when it is added to the clock, or an expire time that TTL and
    its variants cannot compute with, may be undefined behaviour. *)
Theorem redis_commands_invariant `{Host} limit U e0 e s :
  rtc (redis_step limit U) (e0, Server empty_db [] 0 []) (e, s) ->
  redis_ok limit U e (sdb s) /\
  forall e' cfg mt c argv, later e e' -> env_ok e' U -> serving e' -> request_ok limit U cfg c argv ->
    call_ending (redis_ok limit U e') cfg c argv (times (sdb s)) (call e' cfg mt c argv s).
Proof.
  intros Hr. assert (redis_ok limit U e (sdb s)) as Hs by (apply (reachable_ok limit U _ _ Hr), empty_ok_db).
  split; [done|]. intros e' cfg mt c argv Hl Hok Hsv Hq. apply call_safe; [done..|]. by eapply redis_ok_later.
Qed.

(** ** Keys with a time to live *)

Lemma px_valid e : valid COMMAND_SET [OTtl PX e].
Proof.
  split; [by repeat constructor|]. split; [done|]. intros k k'. cbn. rewrite !orb_false_r, !bool_decide_eq_true. by intros <- <-.
Qed.

(** The time that PX asks for. *)
Lemma px_outcome now ms :
  let opts := [OTtl PX (ll_repr ms)] in
  0 <= now -> 0 < ms -> now + ms <= INT64_MAX ->
  expire_outcome_of now (unit_of opts) (has_kind PX opts || has_kind EX opts) (time_arg opts) = At (now + ms).
Proof.
  intros opts Hn Hm Ht. change (unit_of opts) with UNIT_MILLISECONDS. change (has_kind PX opts || has_kind EX opts) with true.
  change (time_arg opts) with (Some (ll_repr ms)). cbn [expire_outcome_of]. unfold number. rewrite string2ll_repr by (zconst; lia).
  unfold absolute. zfalse (ms <=? 0). zfalse (ms >? INT64_MAX). zfalse (ms + now >? INT64_MAX). cbn [orb]. f_equal. lia.
Qed.

Lemma px_defined cfg ms : 0 <= mstime cfg -> 0 < ms -> mstime cfg + ms <= INT64_MAX -> undefined_options cfg COMMAND_SET [OTtl PX (ll_repr ms)] = false.
Proof.
  intros Hn Hm Ht. unfold undefined_options, undefined_sum. change (time_arg [OTtl PX (ll_repr ms)]) with (Some (ll_repr ms)). cbn [mbind option_bind].
  unfold number. rewrite string2ll_repr by (zconst; lia). change (unit_of [OTtl PX (ll_repr ms)]) with UNIT_MILLISECONDS. cbv iota zeta.
  zfalse (ms + mstime cfg >? INT64_MAX). by rewrite !andb_false_r.
Qed.

(** SET with PX stores the object and the absolute time. *)
Lemma set_px_stores `{Host} U e cfg c key val ms s s1 r :
  env_ok e U -> serving e -> key ∈ U -> redis_ok (proto_max_bulk_len cfg) U e (sdb s) -> config_ok cfg -> arg_ok (proto_max_bulk_len cfg) val ->
  let t := mstime cfg + ms in
  0 < ms -> t <= INT64_MAX -> over e t = false ->
  setCommand (H0 := redis_keyspace e) cfg [c; key; val; chars "PX"; ll_repr ms] s = Ok (s1, r) ->
  redis_wf e U (sdb s1) /\ times (sdb s1) !! key = Some t /\ exists o, stands_for val o /\ contents (sdb s1) !! key = Some o.
Proof.
  intros Hok Hs Hk [Hw Ho] Hc [Hb Hl] t Hms Ht Hover E. pose (L := redis_laws e U Hok (serving_writes e Hs)). pose proof (cfg_limit _ Hc). pose proof (cfg_now _ Hc).
  destruct (runs_set_command (H1 := L) cfg (cfg_now _ Hc) c key val [OTtl PX (ll_repr ms)] [[chars "PX"; ll_repr ms]] s) as (s' & r' & E' & _ & Hset);
    [exact Hk|exact Hw|intros o E1; by destruct (Ho _ _ E1)|done|lia|by repeat constructor|apply px_defined; [lia|exact Hms|exact Ht]|].
  change (concat [[chars "PX"; ll_repr ms]]) with [chars "PX"; ll_repr ms] in E'. rewrite E in E'. simplify_eq. destruct (Hset (px_valid _)) as (o & Hst & Hout).
  pose proof (px_outcome (mstime cfg) ms ltac:(lia) Hms Ht) as Ex. fold t in Ex.
  unfold set_outcome in Hout. rewrite Ex in Hout. destruct Hout as [[Hw' Hkey] _]. change (expired t) with (over e t) in Hkey.
  rewrite Hover in Hkey. destruct Hkey as [Hv Hx]. cbn [view expires L redis_laws] in Hv, Hx. split; [exact Hw'|].
  assert (pending e (times (sdb s')) !! key = Some t) as Hp by (rewrite Hx; apply lookup_insert_eq).
  assert (visible e (contents (sdb s')) (times (sdb s')) !! key = Some o) as Hv' by (rewrite Hv; apply lookup_insert_eq).
  split.
  - rewrite pending_lookup in Hp. destruct (times (sdb s') !! key) as [w|]; [|done]. destruct (over e w); [done|exact Hp].
  - exists o. split; [done|]. rewrite visible_lookup in Hv'. by destruct (gone e (times (sdb s')) key).
Qed.

(** C3: A key that is set with a time to live is served until its time and not after:
    whatever time the clock shows when the next command is a GET of the key, the
    answer is the value while the time is not over, and a null from then on. *)
Theorem set_served_until_expiry `{Host} U e e' cfg c c' key val ms s s1 r :
  env_ok e U -> serving e -> env_ok e' U -> serving e' -> dictGenHashFunction e = dictGenHashFunction e' ->
  key ∈ U -> redis_ok (proto_max_bulk_len cfg) U e (sdb s) -> config_ok cfg -> arg_ok (proto_max_bulk_len cfg) val ->
  let t := mstime cfg + ms in
  0 < ms -> t <= INT64_MAX -> over e t = false ->
  setCommand (H0 := redis_keyspace e) cfg [c; key; val; chars "PX"; ll_repr ms] s = Ok (s1, r) ->
  runs (getCommand (H0 := redis_keyspace e') [c'; key]) s1 (fun s2 _ =>
    reply s2 = reply s1 ++ [if negb (loading e') && (now e' >? t) then ReplyNull else ReplyBulk val]).
Proof.
  intros Hok Hs Hok' Hs' Hh Hk Hr Hc Ha t Hms Ht Hover E.
  destruct (set_px_stores U e cfg c key val ms s s1 r Hok Hs Hk Hr Hc Ha Hms Ht Hover E) as (Hw & Htime & o & [Hwf Hstr] & Ho). fold t in Htime.
  apply (redis_wf_hash e e') in Hw; [|done]. pose (L := redis_laws e' U Hok' (serving_writes e' Hs')). pose proof (cfg_now _ Hc).
  assert (over e' t = negb (loading e') && (now e' >? t)) as Hov.
  { unfold over. rewrite (proj1 Hs'). cbn [andb negb]. zfalse (t <? 0). cbn [negb]. by rewrite andb_true_r. }
  assert (view (KeyspaceLaws := L) (sdb s1) !! key = if over e' t then None else Some o) as Hv.
  { cbn. rewrite visible_lookup. unfold gone. by rewrite Htime, Ho. }
  unfold getCommand. apply runs_bind. eapply (runs_get_generic (H1 := L)); [exact Hk|exact Hw| |].
  - rewrite Hv. destruct (over e' t); [done|]. by intros o' [= <-].
  - intros d _ _ _. rewrite Hv, <- Hov. apply runs_ret. srv. destruct (over e' t); [done|]. by rewrite (get_reply_string _ _ Hstr).
Qed.

(** * Examples *)

Lemma sample_key_words argv : Forall (fun a => a ∈ sample_words) argv -> Forall (fun a => a ∈ sample_keys) argv.
Proof. intros Ha. eapply Forall_impl; [exact Ha|]. intros a. cbv beta. unfold sample_keys. by rewrite elem_of_list_to_set. Qed.

Lemma call_set `{Host} e cfg mt argv s : call e cfg mt (Str SET) argv s = setCommand (H0 := redis_keyspace e) cfg argv s.
Proof. done. Qed.

Definition new_server : server redisDb := Server empty_db [] 0 [].

Lemma sample_later t t' : t <= t' -> later (sample_env t) (sample_env t').
Proof. intros Ht. split; [done|]. intros w. unfold over, now. cbn. lia. Qed.

Lemma sample_serving t : serving (sample_env t).
Proof. done. Qed.

Lemma sample_request c argv : check_arity c (zlen argv) = true ->
  Forall (fun a => a ∈ sample_words) argv -> request_ok (proto_max_bulk_len sample_config) sample_keys sample_config c argv.
Proof.
  intros Har Ha. split; [apply sample_config_ok|by vm_compute|done|by apply sample_key_words| |done].
  eapply Forall_impl; [exact Ha|]. apply Forall_forall, args_ok_check. by vm_compute.
Qed.

Lemma redis_commands_invariant_witness :
  exists s1 r1 s2 r2,
    call (H := little_host) (sample_env 1700000000000) sample_config EmptyString (Str SET) (map chars ["SET"; "a"; "v"; "PX"; "100"]) new_server = Ok (s1, r1) /\
    call (H := little_host) (sample_env 1700000000050) sample_config EmptyString (Key TTL) (map chars ["TTL"; "a"]) s1 = Ok (s2, r2).
Proof.
  assert (request_ok (proto_max_bulk_len sample_config) sample_keys sample_config (Str SET) (map chars ["SET"; "a"; "v"; "PX"; "100"])) as Hset.
  { apply sample_request; [done|]. repeat (constructor; [apply (bool_decide_unpack _); by vm_compute|]). constructor. }
  assert (request_ok (proto_max_bulk_len sample_config) sample_keys sample_config (Key TTL) (map chars ["TTL"; "a"])) as Httl.
  { apply sample_request; [done|]. repeat (constructor; [apply (bool_decide_unpack _); by vm_compute|]). constructor. }
  destruct (call_safe (H := little_host) _ sample_keys (sample_env 1700000000000) sample_config EmptyString (Str SET) (map chars ["SET"; "a"; "v"; "PX"; "100"]) new_server
    (sample_env_ok _) (sample_serving _) Hset (empty_ok_db _ _ _)) as [(s1 & r1 & E1 & _)|[[_ []]|(_ & Hf & _)]]; [|discriminate Hf].
  destruct (redis_commands_invariant (H := little_host) (proto_max_bulk_len sample_config) sample_keys (sample_env 1700000000000) (sample_env 1700000000000) s1) as [_ Hall].
  { apply rtc_once. eapply redis_step_call; [by apply sample_later|apply sample_env_ok|apply sample_serving|exact Hset|exact E1]. }
  destruct (Hall (sample_env 1700000000050) sample_config EmptyString (Key TTL) (map chars ["TTL"; "a"]) ltac:(by apply sample_later) (sample_env_ok _) (sample_serving _) Httl)
    as [(s2 & r2 & E2 & _)|(_ & Hf & _)]; [|discriminate Hf].
  exists s1, r1, s2, r2. split; [exact E1|exact E2].
Defined.

Lemma set_served_until_expiry_witness :
  exists s1 r s2 r2 s3 r3,
    setCommand (H := little_host) (H0 := redis_keyspace (sample_env 1700000000000)) sample_config [chars "SET"; chars "a"; chars "v"; chars "PX"; ll_repr 100] new_server = Ok (s1, r) /\
    getCommand (H := little_host) (H0 := redis_keyspace (sample_env 1700000000100)) [chars "GET"; chars "a"] s1 = Ok (s2, r2) /\ reply s2 = reply s1 ++ [ReplyBulk (chars "v")] /\
    getCommand (H := little_host) (H0 := redis_keyspace (sample_env 1700000000101)) [chars "GET"; chars "a"] s1 = Ok (s3, r3) /\ reply s3 = reply s1 ++ [ReplyNull].
Proof.
  assert (chars "a" ∈ sample_keys) as Hk by (apply elem_of_list_to_set; apply (bool_decide_unpack _); by vm_compute).
  assert (arg_ok (proto_max_bulk_len sample_config) (chars "v")) as Ha by (eapply Forall_inv, (args_ok_check _ [chars "v"]); by vm_compute).
  destruct (call_safe (H := little_host) (proto_max_bulk_len sample_config) sample_keys (sample_env 1700000000000) sample_config EmptyString (Str SET)
    [chars "SET"; chars "a"; chars "v"; chars "PX"; ll_repr 100] new_server (sample_env_ok _) (sample_serving _)) as [(s1 & r & E & _)|[[_ []]|(_ & Hf & _)]]; [|apply empty_ok_db| |discriminate Hf].
  { apply sample_request; [done|]. repeat (constructor; [apply (bool_decide_unpack _); by vm_compute|]). constructor. }
  rewrite call_set in E. exists s1, r.
  destruct (set_served_until_expiry (H := little_host) sample_keys (sample_env 1700000000000) (sample_env 1700000000100) sample_config (chars "SET") (chars "GET") (chars "a") (chars "v") 100
    new_server s1 r (sample_env_ok _) (sample_serving _) (sample_env_ok _) (sample_serving _) eq_refl Hk (empty_ok_db _ _ _) sample_config_ok Ha ltac:(lia) ltac:(by vm_compute) ltac:(by vm_compute) E)
    as (s2 & r2 & E2 & R2).
  destruct (set_served_until_expiry (H := little_host) sample_keys (sample_env 1700000000000) (sample_env 1700000000101) sample_config (chars "SET") (chars "GET") (chars "a") (chars "v") 100
    new_server s1 r (sample_env_ok _) (sample_serving _) (sample_env_ok _) (sample_serving _) eq_refl Hk (empty_ok_db _ _ _) sample_config_ok Ha ltac:(lia) ltac:(by vm_compute) ltac:(by vm_compute) E)
    as (s3 & r3 & E3 & R3).
  exists s2, r2, s3, r3. split; [exact E|]. split; [exact E2|]. split; [exact R2|]. split; [exact E3|exact R3].
Defined.
